(* ===== verification/_CoqProject ===== *)
-Q . S2P
Prelude.v
RustText.v
ApiFormat.v
SseFrames.v
Params.v
Address.v
DealTypes.v
Machine.v
DealGetters.v
Quote.v
Recovery.v
Monitor.v
Conservation.v
Accumulator.v
Capacity.v
CapacityInv.v
CapacityEntry.v
CapacityReach.v
CapacityRun.v
CapacityProps.v
UsageData.v
Meter.v
MeterProps.v
Relay.v
RelayProps.v
ChainEvents.v
BookFold.v
BookPages.v
SellerPlacement.v
SellerPlacementProps.v
Onchain.v
NoteGate.v
UsageRequests.v
UsageTotals.v
UsageConsumption.v
UsageMoney.v
UsageMoneyInv.v
UsageReplay.v
UsageFacts.v
UsageFrame.v
UsageQuota.v
UsageCrash.v
UsageRun.v
UsageProps.v
MockData.v
MockMoney.v
MockBook.v
MockDeal.v
DealSpec.v
DealExits.v
DealPhase.v
MockRefine.v
MockInv.v
MockRun.v
MockFrame.v
MockProps.v
MockPayout.v
MockClaims.v
MockMarket.v
MockOrders.v
Keeper.v
KeeperProps.v
ClaimDriver.v
ClaimDriverProps.v
Gateway.v
GatewayInv.v
GatewayProps.v
SellerClaims.v
ModelId.v
BuyerBudget.v
BuyerStream.v
BuyerAnswer.v
BuyerProps.v
Exchange.v
Session.v
SessionInv.v
SessionProps.v
Continuity.v
Routing.v
DealRun.v
