(* ===== verification/Prelude.v ===== *)
(** * dexdo: a market for model inference, settled on a chain

    dexdo sells and buys the output of language models.  A seller's gateway relays the answers
    of a provider and counts their tokens; a buyer's local API admits the requests of clients,
    passes the answers on and counts them too; both settle against contracts on a chain, where
    a deal's money waits in escrow.  The repository's crates are crates/core (the market and
    its chain), crates/dexdo (seller, buyer and command line) and crates/dexdo-proto (the wire
    protocol).  This library models the parts that decide about money and about what crosses
    a boundary, and proves what they promise.  Source paths below are relative to src/.

    ** How the parts fit

<<
      provider --frames--> Relay --frames+bill--> Gateway --stream--> BuyerAnswer --> client
                           (Sse, ApiFormat,       |   |                |     |
                            Meter)                |   Capacity         |     BuyerBudget
                                                  v   (durable ledger) |     Usage* (history)
                                            ClaimDriver                v
                                            Keeper               Session (STOP, recovery)
                                                  |                    |  Continuity, Routing
                                                  +------> chain <-----+  (which deal to buy)
                                              Mock* (the market's contracts, in memory)
>>

    The mock chain of crates/core/src/market/mock.rs is the repository's own executable model
    of the contracts; the seller's loops are proved against it.  Exchange.v composes the first
    line of the picture, SellerClaims.v the gateway with the claim driver, KeeperProps.v and
    ClaimDriverProps.v the loops with the chain.

    ** How code is rendered

    - Integers are [Z]; [u64], [u128] ... are the widths of [uint], and every checked, saturating
      or truncating operation of the code is the corresponding function of this file
      ([checked_add], [saturating_sub], [wrapping] ...), with the overflow error of the code.  Well-formedness of the inputs is a hypothesis ([in_range w n]), never built in.
    - [Result E A] carries the code's error values, and [?] is a bind.  Where a write
      outlives an error, an operation is an [Op]: it returns the state it leaves with its result.
      Where a shared object is aliased (a capacity entry, a tracker), it lives in a heap.
    - Text is [String.string] over UTF-8 bytes.  A message built with [format!] is the list of its
      fragments ([frag]); where the code reads a text again it is printed as a string (RustText).
    - A map whose order the code relies on (JSON objects, [BTreeMap]) keeps it; other maps are
      stdpp's [gmap].
    - Loops recurse on their data.  Where the data does not decrease, fuel is an argument, and a
      theorem gives the amount that suffices: [reconcile_ends] for the walk over a submitted offer,
      [reading_on_is_reading_anew] for the paged history (more than its messages),
      [traverse_all] for the cursors of the facts (more than the facts).  The keeper and the
      claim driver loop for ever when the chain never answers otherwise: their fuel is the number of
      turns, and their properties hold of every number.  Decimal printing takes one unit for
      each bit of the number ([decimal_fuel]); trimming takes the length of the string.
    - What the code does not contain is a parameter: JSON parsing and printing, Ed25519,
      SHA-256, RFC 3339, the ABI codec and the SDK.  Chain, clock, network, file system and the
      scheduler are arguments: the n-th answer of a world, the list of faults, the order of events.

    ** The files

    Shared: Prelude (this file: results, machine integers, sums, [Op], automation), RustText
    (the operations of [str], JSON values).

    crates/core.  Params (params.rs), Address (address.rs), Machine (settle.rs and
    machine.rs), DealTypes with its match cursor and DealGetters (market/types.rs), Quote, Recovery,
    Monitor (market/accounting.rs and mod.rs), Conservation (market/deal_conservation.rs), Accumulator (accumulator.rs), NoteGate (note_withdraw_gate.rs, beside the
    contract's conditions), Onchain (onchain_diagnostics.rs), ChainEvents, BookFold, BookPages
    (chain/book_events.rs, order_events.rs, note_events.rs), SellerPlacement
    (chain/seller_placement.rs), ModelId (manifest.rs and the registry's spellings).

    The mock chain (market/mock.rs).  MockData is the state and the validation of a load,
    MockMoney the helpers that move money, MockBook the order book, MockDeal the deals.  DealSpec
    and DealPhase are the abstract deal: its phases, moves and payouts; DealExits and MockRefine
    show that the handlers implement it; MockInv is the invariant of the state, MockRun the runs of
    operations with some scripts, MockFrame the simulation.  MockProps, MockPayout, MockClaims,
    MockMarket and MockOrders state what follows.

    The seller (crates/dexdo/src/seller).  ApiFormat and SseFrames (api_format.rs), Meter
    (upstream/meter.rs), Relay (upstream/forward.rs, openai.rs), Capacity with CapacityInv,
    CapacityEntry, CapacityReach and CapacityRun (capacity.rs), Gateway with GatewayInv (gateway.rs,
    auth.rs), Keeper (keeper.rs), ClaimDriver (advance.rs), SellerClaims.

    The buyer (crates/dexdo/src/buyer).  UsageData, UsageRequests, UsageTotals, UsageConsumption,
    UsageMoney, UsageMoneyInv, UsageReplay, UsageFacts, UsageFrame, UsageQuota, UsageCrash, UsageRun
    (usage.rs and the usage_*.rs files), BuyerBudget, BuyerStream, BuyerAnswer (api/error.rs, mod.rs,
    stream.rs, forward.rs), Exchange; Session with SessionInv and SessionProps (the settlements and
    recoveries of api/mod.rs, api/closure.rs); Continuity (continuity.rs: when a successor is
    bought); Routing (routing.rs: which seller is tried next) and DealRun (routing.rs, mod.rs,
    verify.rs: when a routed deal counts as delivered, and its probes).

    A file [XProps] holds the properties of [X]; the invariants it needs are in [XInv] or [XRun].
    Where a component calls another that may be replaced, it takes a record of operations: the
    account that pays for a probe ([Account]), the recorder of a relay, the answers of a world.

    ** What is shown

    - The chain.  A reachable state passes the validation of its own load, and is loaded unchanged,
      if the file's address codec gives its contract names back; a deal's money is exactly partitioned at every moment; every handler implements a move of the abstract deal
      and none panics; a closed deal is final; a deal that is open can always be left, and
      each exit pays what the specification says.  A claim is accepted exactly when the contract's
      conditions hold.
    - The seller.  Capacity is never oversold, and what a gateway reports as delivered is on
      disk, whatever call of the operating system fails; a reservation can always be released.  What
      is forwarded is billed, the provider's key does not leave, a challenge admits one stream.
      Every claim was delivered, and the chain accepts it; the keeper's writes are accepted too.
    - The buyer.  A streamed answer is paid only when it is whole; a subscription is not billed
      beyond the contract's claim cap; admission uses the current figures.  The history's counters
      agree with its rows, its facts partition what a deal cost and are classified within their
      amounts, the current purchase has valid terms, and a purchase survives crashes.
    - The buyer's session.  Whatever tasks, drops and answers interleave: after a final outcome
      nothing is written to the chain any more, a STOP that may have landed is not repeated, a
      write despite unreconciled usage is an explicit settlement, a drop writes under an exact
      condition, an explicit STOP that the chain confirms settles the session, and a client is told
      to buy again only on evidence.
    - The buyer's purchases.  However often the planner is asked, a deal has one successor at a
      time; routing tries the ranked sellers once each, stops or disputes each deal that was paid
      and not delivered, and marks exactly those sellers; a deal counts as delivered exactly when its
      stream is one whole answer of the right model with one bill within the grant, and the probes
      of a sampled deal are paid from the same grant.
    - The exchange.  When nobody breaks off, the client receives the provider's frames byte for
      byte and both sides record the same bill.
    - Everywhere: round trips of what is printed and read again, exact conditions of acceptance
      instead of implications, the error of every refusing branch.

    ** Not modelled, and why

    - The live chain client (chain/client.rs, backends.rs, legacy_giver.rs): queries and message
      submission over the network and the SDK's ABI encoding; its decisions that are pure are in
      SellerPlacement and Onchain.
    - The command line (cli/): argument parsing, prompts, printing, orchestration of calls that are
      modelled; wallets, onboarding, QR codes and dashboards; telemetry.
    - Keys, signatures, sealed boxes and the multisig's code hashes: third-party cryptography.
    - The seller's liveness tasks and offer upkeep (seller/liveness.rs, advertise.rs) and the buyer's
      connections and handover (buyer/mod.rs, tls.rs): tasks over live connections.  The monitor
      that carries out the planner's actions is in the command line.
    - Floating point: the rate of the spot checks ([spotcheck_rate_for]); whether a request is
      sampled is an argument.
    - The HTTP admission handler of the buyer API ([handle_with_id]) and its usage pages; the
      operations it composes are modelled one by one.
    - The asynchronous runtime: a task is a sequence of steps, and what may happen between two steps
      is an argument or an event.  Logging and metrics are left out of every definition. *)
From stdpp Require Export base tactics option list gmap fin_maps strings sorting.
From Stdlib Require Export ZArith Lia.

#[global] Open Scope Z_scope.

(** ** Fallible code: Rust's [Result] *)

Inductive Result (E A : Type) : Type :=
  | Ok (a : A)
  | Err (e : E).
Arguments Ok {E A} _.
Arguments Err {E A} _.

(** The [?] operator.  The computation comes first, so that its type is known when the
    continuation is elaborated. *)
Definition rbind {E A B} (m : Result E A) (f : A → Result E B) : Result E B :=
  match m with Ok a => f a | Err e => Err e end.
Definition obind {A B} (m : option A) (f : A → option B) : option B :=
  match m with Some a => f a | None => None end.
Definition rmap {E A B} (f : A → B) (m : Result E A) : Result E B :=
  match m with Ok a => Ok (f a) | Err e => Err e end.

Declare Scope dexdo_scope.
Delimit Scope dexdo_scope with dexdo.
Notation "'let?' x := m 'in' k" := (rbind m (λ x, k))
  (at level 10, x name, m at level 100, k at level 200) : dexdo_scope.
Notation "'let?' ' x := m 'in' k" := (rbind m (λ x, match x with x => k end))
  (at level 10, x strict pattern, m at level 100, k at level 200) : dexdo_scope.
Notation "m ;? k" := (rbind m (λ _ : (), k))
  (at level 199, k at level 200, right associativity) : dexdo_scope.
Notation "'let*' x := m 'in' k" := (obind m (λ x, k))
  (at level 10, x name, m at level 100, k at level 200) : dexdo_scope.
#[global] Open Scope dexdo_scope.

(** [Option::ok_or_else], [Result::map_err], [Result::ok], [Result::is_ok]. *)
Definition ok_or {E A} (o : option A) (e : E) : Result E A :=
  match o with Some a => Ok a | None => Err e end.
Definition map_err {E F A} (f : E → F) (r : Result E A) : Result F A :=
  match r with Ok a => Ok a | Err e => Err (f e) end.
Definition result_ok {E A} (r : Result E A) : option A :=
  match r with Ok a => Some a | Err _ => None end.
Definition is_ok {E A} (r : Result E A) : bool :=
  match r with Ok _ => true | Err _ => false end.
Definition unwrap_or {A} (d : A) (o : option A) : A :=
  match o with Some a => a | None => d end.
(** [Option::transpose] on [Option<Result<A, E>>]. *)
Definition transpose {E A} (o : option (Result E A)) : Result E (option A) :=
  match o with
  | None => Ok None
  | Some (Ok a) => Ok (Some a)
  | Some (Err e) => Err e
  end.

(** A loop whose body may return early with an error. *)
Fixpoint for_each {E A} (f : A → Result E ()) (l : list A) : Result E () :=
  match l with
  | [] => Ok ()
  | a :: l => f a ;? for_each f l
  end.

(** [iter.map(f).collect::<Result<Vec<_>, _>>()]. *)
Fixpoint collect {E A B} (f : A → Result E B) (l : list A) : Result E (list B) :=
  match l with
  | [] => Ok []
  | a :: l => let? b := f a in let? bs := collect f l in Ok (b :: bs)
  end.

(** ** Texts built by [format!]

    A formatted message is kept as the list of its literal pieces and interpolated
    values: [Hex2] is [{:02x}], [Flag] a [bool], [OptNum] an [Option] printed with
    [{:?}], and [Dbg] a string printed with [{:?}]. *)

Inductive frag : Type :=
  | Lit (s : string)
  | Num (n : Z)
  | Hex2 (n : Z)
  | Flag (b : bool)
  | OptNum (o : option Z)
  | Dbg (s : string).
Coercion Lit : string >-> frag.
Coercion Num : Z >-> frag.
Abbreviation text := (list frag).

Notation "f[ x ; .. ; y ]" := (@cons frag x .. (@cons frag y (@nil frag)) ..)
  (at level 0, x at level 100, y at level 100) : dexdo_scope.

(** ** Unsigned machine integers

    A [uN] value is a [Z] in [0 .. umax uN]. The three families of operations of the
    language are written out: [checked_*], [saturating_*] and the bare operators, which
    wrap in a release build (the workspace sets no [overflow-checks]). *)

Inductive uint : Type := u8 | u16 | u32 | u64 | u128.

Definition umax (w : uint) : Z :=
  match w with
  | u8 => 255
  | u16 => 65535
  | u32 => 4294967295
  | u64 => 18446744073709551615
  | u128 => 340282366920938463463374607431768211455
  end.

Definition in_range (w : uint) (x : Z) : Prop := 0 ≤ x ≤ umax w.

Definition checked_add (w : uint) (a b : Z) : option Z :=
  if a + b <=? umax w then Some (a + b) else None.
Definition checked_sub (a b : Z) : option Z :=
  if b <=? a then Some (a - b) else None.
Definition checked_mul (w : uint) (a b : Z) : option Z :=
  if a * b <=? umax w then Some (a * b) else None.
Definition saturating_add (w : uint) (a b : Z) : Z := Z.min (a + b) (umax w).
Definition saturating_sub (a b : Z) : Z := Z.max 0 (a - b).
Definition saturating_mul (w : uint) (a b : Z) : Z := Z.min (a * b) (umax w).
Definition wrapping (w : uint) (x : Z) : Z := x mod (umax w + 1).
Definition uadd (w : uint) (a b : Z) : Z := wrapping w (a + b).
Definition usub (w : uint) (a b : Z) : Z := wrapping w (a - b).
Definition umul (w : uint) (a b : Z) : Z := wrapping w (a * b).
(** [uN::try_from(x).ok()] for an unsigned source. *)
Definition try_into (w : uint) (x : Z) : option Z :=
  if x <=? umax w then Some x else None.
(** [x.div_ceil(d)] and [x.is_multiple_of(d)] (the latter with the language's [d = 0] case). *)
Definition div_ceil (x d : Z) : Z := (x + d - 1) / d.
Definition is_multiple_of (x d : Z) : bool :=
  if d =? 0 then x =? 0 else x mod d =? 0.

#[global] Arguments umax !w /.

(** ** The development's automation *)

Create HintDb dexdo discriminated.

Section ResultLemmas.
Context {E A B : Type}.

Lemma bind_Ok (f : A → Result E B) (m : Result E A) (b : B) :
  rbind m f = Ok b ↔ ∃ a, m = Ok a ∧ f a = Ok b.
Proof.
  destruct m as [a|e]; cbn; split.
  - intros H; exists a; done.
  - intros (a' & Ha & H); simplify_eq; done.
  - done.
  - intros (a' & Ha & H); discriminate.
Qed.

(** Runs the first computation of a sequence, up to conversion. *)
Lemma bind_step (f : A → Result E B) (m : Result E A) (a : A) (r : Result E B) :
  m = Ok a → f a = r → rbind m f = r.
Proof. by intros -> <-. Qed.

Lemma result_ok_bind (f : A → Result E B) (m : Result E A) :
  result_ok (rbind m f) = obind (result_ok m) (λ a, result_ok (f a)).
Proof. by destruct m. Qed.

Lemma bind_Err (f : A → Result E B) (m : Result E A) (e : E) :
  rbind m f = Err e ↔ m = Err e ∨ ∃ a, m = Ok a ∧ f a = Err e.
Proof. destruct m as [a|e']; cbn; naive_solver. Qed.

Lemma obind_Some (f : A → option B) (m : option A) (b : B) :
  obind m f = Some b ↔ ∃ a, m = Some a ∧ f a = Some b.
Proof. destruct m; cbn; naive_solver. Qed.

Lemma rmap_Ok (f : A → B) (m : Result E A) (b : B) :
  rmap f m = Ok b ↔ ∃ a, m = Ok a ∧ b = f a.
Proof. destruct m; cbn; naive_solver. Qed.

Lemma ok_or_Ok (o : option A) (e : E) (a : A) : ok_or o e = Ok a ↔ o = Some a.
Proof. destruct o; cbn; naive_solver. Qed.

Lemma map_err_Ok {F} (f : E → F) (r : Result E A) (a : A) :
  map_err f r = Ok a ↔ r = Ok a.
Proof. destruct r; cbn; naive_solver. Qed.

Lemma for_each_Ok (f : A → Result E ()) (l : list A) :
  for_each f l = Ok () ↔ Forall (λ a, f a = Ok ()) l.
Proof.
  induction l as [|a l IH]; cbn; [by split|].
  rewrite Forall_cons, <- IH.
  destruct (f a) as [[]|e]; cbn; [tauto|]. split; [discriminate | intros [? ?]; discriminate].
Qed.
End ResultLemmas.

Lemma collect_Ok {E A B} (f : A → Result E B) (l : list A) (bs : list B) :
  collect f l = Ok bs ↔ Forall2 (λ a b, f a = Ok b) l bs.
Proof.
  revert bs. induction l as [|a l IH]; intros bs; cbn.
  - split; [intros [= <-]; constructor|]. inversion 1. done.
  - rewrite bind_Ok. split.
    + intros (b & Hb & (bs' & Hbs & [= <-])%bind_Ok). constructor; [done|]. by apply IH.
    + intros H. inversion H as [|? b ? bs' Hb Hbs]; subst. exists b. split; [done|].
      apply IH in Hbs. by rewrite Hbs.
Qed.

Lemma is_ok_true {E A} (r : Result E A) : is_ok r = true ↔ ∃ a, r = Ok a.
Proof. destruct r; cbn; naive_solver. Qed.

Section UintLemmas.
Implicit Types (w : uint) (a b c x d : Z).

Lemma umax_pos w : 0 < umax w.
Proof. destruct w; cbn; lia. Qed.

Lemma checked_add_Some w a b c :
  checked_add w a b = Some c ↔ c = a + b ∧ a + b ≤ umax w.
Proof. unfold checked_add. destruct (Z.leb_spec (a + b) (umax w)); naive_solver lia. Qed.

Lemma checked_sub_Some a b c : checked_sub a b = Some c ↔ c = a - b ∧ b ≤ a.
Proof. unfold checked_sub. destruct (Z.leb_spec b a); naive_solver lia. Qed.

Lemma checked_mul_Some w a b c :
  checked_mul w a b = Some c ↔ c = a * b ∧ a * b ≤ umax w.
Proof. unfold checked_mul. destruct (Z.leb_spec (a * b) (umax w)); naive_solver lia. Qed.

Lemma checked_add_None w a b : checked_add w a b = None ↔ umax w < a + b.
Proof. unfold checked_add. destruct (Z.leb_spec (a + b) (umax w)); naive_solver lia. Qed.

Lemma checked_sub_None a b : checked_sub a b = None ↔ a < b.
Proof. unfold checked_sub. destruct (Z.leb_spec b a); naive_solver lia. Qed.

Lemma checked_mul_None w a b : checked_mul w a b = None ↔ umax w < a * b.
Proof. unfold checked_mul. destruct (Z.leb_spec (a * b) (umax w)); naive_solver lia. Qed.

Lemma try_into_Some w x c : try_into w x = Some c ↔ c = x ∧ x ≤ umax w.
Proof. unfold try_into. destruct (Z.leb_spec x (umax w)); naive_solver lia. Qed.

Lemma try_into_fits w x : x ≤ umax w → try_into w x = Some x.
Proof. intros. by apply try_into_Some. Qed.

Lemma checked_add_fits w a b : a + b ≤ umax w → checked_add w a b = Some (a + b).
Proof. intros. by apply checked_add_Some. Qed.

Lemma checked_mul_fits w a b : a * b ≤ umax w → checked_mul w a b = Some (a * b).
Proof. intros. by apply checked_mul_Some. Qed.

Lemma checked_sub_fits a b : b ≤ a → checked_sub a b = Some (a - b).
Proof. intros. by apply checked_sub_Some. Qed.

Lemma wrapping_exact w x : in_range w x → wrapping w x = x.
Proof. intros [??]. apply Z.mod_small. lia. Qed.

Lemma usub_exact w a b : 0 ≤ b ≤ a → a ≤ umax w → usub w a b = a - b.
Proof. intros. apply wrapping_exact. unfold in_range. lia. Qed.

Lemma uadd_exact w a b : 0 ≤ a → 0 ≤ b → a + b ≤ umax w → uadd w a b = a + b.
Proof. intros. apply wrapping_exact. unfold in_range. lia. Qed.

Lemma umul_exact w a b : 0 ≤ a → 0 ≤ b → a * b ≤ umax w → umul w a b = a * b.
Proof. intros. apply wrapping_exact. unfold in_range. nia. Qed.

Lemma wrapping_range w x : in_range w (wrapping w x).
Proof.
  unfold wrapping, in_range. pose proof (umax_pos w).
  pose proof (Z.mod_pos_bound x (umax w + 1)). lia.
Qed.

Lemma div_ceil_spec x d : 0 < d → x ≤ d * div_ceil x d < x + d.
Proof.
  intros Hd. unfold div_ceil.
  pose proof (Z.div_mod (x + d - 1) d). pose proof (Z.mod_pos_bound (x + d - 1) d). lia.
Qed.

Lemma div_ceil_mono x y d : 0 < d → x ≤ y → div_ceil x d ≤ div_ceil y d.
Proof. intros. unfold div_ceil. apply Z.div_le_mono; lia. Qed.

Lemma div_ceil_mul x d : 0 < d → div_ceil (x * d) d = x.
Proof.
  intros. unfold div_ceil. replace (x * d + d - 1) with (d - 1 + x * d) by lia.
  rewrite Z.div_add by lia. rewrite Z.div_small by lia. lia.
Qed.

Lemma is_multiple_of_spec x d : 0 < d → is_multiple_of x d = true ↔ (d | x).
Proof.
  intros. unfold is_multiple_of. destruct (Z.eqb_spec d 0); [lia|].
  rewrite Z.eqb_eq. rewrite Z.mod_divide by lia. done.
Qed.
End UintLemmas.

#[export] Hint Resolve umax_pos wrapping_range : dexdo.

(** [lia] with division and remainder by constants. *)
Ltac divlia := Z.to_euclidean_division_equations; lia.

(** One inversion step on a hypothesis that says a fallible computation succeeded. *)
Ltac ok_step :=
  match goal with
  | H : Ok _ = Ok _ |- _ => injection H as H
  | H : Err _ = Ok _ |- _ => discriminate H
  | H : Ok _ = Err _ |- _ => discriminate H
  | H : Some _ = Some _ |- _ => injection H as H
  | H : None = Some _ |- _ => discriminate H
  | H : Some _ = None |- _ => discriminate H
  | H : rbind _ _ = Ok _ |- _ =>
      let a := fresh "a" in let H1 := fresh "H" in let H2 := fresh "H" in
      apply bind_Ok in H as (a & H1 & H2)
  | H : obind _ _ = Some _ |- _ =>
      let a := fresh "a" in let H1 := fresh "H" in let H2 := fresh "H" in
      apply obind_Some in H as (a & H1 & H2)
  | H : ok_or _ _ = Ok _ |- _ => apply ok_or_Ok in H
  | H : map_err _ _ = Ok _ |- _ => apply map_err_Ok in H
  | H : checked_add _ _ _ = Some _ |- _ => apply checked_add_Some in H as [??]
  | H : checked_sub _ _ = Some _ |- _ => apply checked_sub_Some in H as [??]
  | H : checked_mul _ _ _ = Some _ |- _ => apply checked_mul_Some in H as [??]
  | H : try_into _ _ = Some _ |- _ => apply try_into_Some in H as [??]
  | H : (if ?b then Err _ else _) = Ok _ |- _ => destruct b eqn:?; [discriminate H|]
  | H : (if ?b then _ else Err _) = Ok _ |- _ => destruct b eqn:?; [|discriminate H]
  | x : _ * _ |- _ => destruct x
  | x : () |- _ => destruct x
  end.
Ltac ok_inv := repeat (ok_step; cbn beta iota zeta in *); subst.

(** Opens existentials and conjunctions in the context. *)
Ltac deex :=
  repeat match goal with
  | H : ∃ x, _ |- _ => let x := fresh x in destruct H as [x H]
  | H : _ ∧ _ |- _ => destruct H
  end.

(** ** Sums over a list *)

Definition zsum {A} (f : A → Z) (l : list A) : Z := foldr (λ a n, f a + n) 0 l.

Section Sums.
Context {A : Type}.
Implicit Types (f g : A → Z) (l : list A).

Lemma zsum_cons f a l : zsum f (a :: l) = f a + zsum f l.
Proof. done. Qed.

Lemma zsum_app f l1 l2 : zsum f (l1 ++ l2) = zsum f l1 + zsum f l2.
Proof. induction l1 as [|a l1 IH]; [done|]. rewrite <- app_comm_cons, !zsum_cons, IH. lia. Qed.

Lemma zsum_replicate f n a : zsum f (replicate n a) = Z.of_nat n * f a.
Proof. induction n as [|n IH]; [done|]. cbn [replicate]. rewrite zsum_cons, IH. lia. Qed.

Lemma zsum_nonneg f l : (∀ a, a ∈ l → 0 ≤ f a) → 0 ≤ zsum f l.
Proof.
  induction l as [|a l IH]; intros H; [done|]. rewrite zsum_cons.
  pose proof (H a (list_elem_of_here _ _)). specialize (IH (λ b Hb, H b (list_elem_of_further _ _ _ Hb))). lia.
Qed.

Lemma zsum_ext f g l : (∀ a, a ∈ l → f a = g a) → zsum f l = zsum g l.
Proof.
  induction l as [|a l IH]; intros H; [done|]. rewrite !zsum_cons, (H a (list_elem_of_here _ _)).
  by rewrite (IH (λ b Hb, H b (list_elem_of_further _ _ _ Hb))).
Qed.

Lemma zsum_mul f k l : zsum (λ a, k * f a) l = k * zsum f l.
Proof. induction l as [|a l IH]; [cbn; lia|]. rewrite !zsum_cons, IH. lia. Qed.

Lemma zsum_le f g l : (∀ a, a ∈ l → f a ≤ g a) → zsum f l ≤ zsum g l.
Proof.
  induction l as [|a l IH]; intros H; [done|]. rewrite !zsum_cons.
  pose proof (H a (list_elem_of_here _ _)). specialize (IH (λ b Hb, H b (list_elem_of_further _ _ _ Hb))). lia.
Qed.

#[export] Instance zsum_Permutation f : Proper (Permutation ==> eq) (zsum f).
Proof. induction 1; rewrite ?zsum_cons; [done|lia|lia|congruence]. Qed.
End Sums.

Lemma zsum_map {A B} (f : B → Z) (g : A → B) l : zsum f (map g l) = zsum (λ a, f (g a)) l.
Proof. induction l as [|a l IH]; [done|]. cbn [map]. by rewrite !zsum_cons, IH. Qed.
#[global] Arguments zsum : simpl never.

Lemma zsum_flat_map {A B} (f : B → Z) (g : A → list B) l :
  zsum f (flat_map g l) = zsum (λ a, zsum f (g a)) l.
Proof. induction l as [|a l IH]; [done|]. cbn [flat_map]. by rewrite zsum_app, zsum_cons, IH. Qed.

Lemma zsum_omap {A B} (f : B → Z) (g : A → option B) l :
  zsum f (omap g l) = zsum (λ a, match g a with Some b => f b | None => 0 end) l.
Proof.
  induction l as [|a l IH]; [done|]. rewrite zsum_cons, <- IH. cbn [omap list_omap].
  destruct (g a) as [b|]; [apply zsum_cons|lia].
Qed.

(** ** Sums over the rows of a table *)

Definition map_sum `{Countable K} {V} (f : K → V → Z) (m : gmap K V) : Z :=
  zsum (λ kv, f kv.1 kv.2) (map_to_list m).
#[global] Arguments map_sum : simpl never.

Section MapSums.
Context `{Countable K} {V : Type}.
Implicit Types (f g : K → V → Z) (m : gmap K V).

Lemma map_sum_empty f : map_sum f (∅ : gmap K V) = 0.
Proof. unfold map_sum. by rewrite map_to_list_empty. Qed.

Lemma map_sum_fresh f m k v : m !! k = None → map_sum f (<[k := v]> m) = f k v + map_sum f m.
Proof. intros Hk. unfold map_sum. rewrite (map_to_list_insert m k v Hk). by rewrite zsum_cons. Qed.

Lemma map_sum_delete f m k v : m !! k = Some v → map_sum f m = f k v + map_sum f (delete k m).
Proof. intros Hk. unfold map_sum. rewrite <- (map_to_list_delete m k v Hk). by rewrite zsum_cons. Qed.

Lemma map_sum_update f m k v v' :
  m !! k = Some v → map_sum f (<[k := v']> m) = map_sum f m - f k v + f k v'.
Proof.
  intros Hk. rewrite (map_sum_delete f m k v Hk), <- insert_delete_eq.
  rewrite map_sum_fresh by apply lookup_delete_eq. lia.
Qed.

Lemma map_sum_ext f g m : (∀ k v, m !! k = Some v → f k v = g k v) → map_sum f m = map_sum g m.
Proof. intros Hfg. apply zsum_ext. intros [k v] Hk%elem_of_map_to_list. by apply Hfg. Qed.

(** One row changes, and with it the terms of that row only. *)
Lemma map_sum_change f g m k v v' :
  m !! k = Some v → (∀ k' w, k' ≠ k → m !! k' = Some w → f k' w = g k' w) →
  map_sum g (<[k := v']> m) = map_sum f m - f k v + g k v'.
Proof.
  intros Hk Hfg. rewrite (map_sum_update g m k v v' Hk), (map_sum_delete f m k v Hk), (map_sum_delete g m k v Hk).
  rewrite (map_sum_ext f g (delete k m)); [lia|]. intros k' w [Hne Hk']%lookup_delete_Some. by apply Hfg.
Qed.

Lemma map_sum_new f g m k v :
  m !! k = None → (∀ k' w, m !! k' = Some w → f k' w = g k' w) →
  map_sum g (<[k := v]> m) = map_sum f m + g k v.
Proof. intros Hk Hfg. rewrite map_sum_fresh by done. rewrite (map_sum_ext f g m Hfg). lia. Qed.

Lemma map_sum_nonneg f m : (∀ k v, m !! k = Some v → 0 ≤ f k v) → 0 ≤ map_sum f m.
Proof. intros Hf. apply zsum_nonneg. intros [k v] Hk%elem_of_map_to_list. by apply Hf. Qed.

Lemma map_sum_le f g m : (∀ k v, m !! k = Some v → f k v ≤ g k v) → map_sum f m ≤ map_sum g m.
Proof. intros Hf. apply zsum_le. intros [k v] Hk%elem_of_map_to_list. by apply Hf. Qed.

Lemma map_sum_fmap {V'} (h : V' → V) f (m : gmap K V') :
  map_sum f (h <$> m) = map_sum (λ k v, f k (h v)) m.
Proof. unfold map_sum. rewrite map_to_list_fmap, zsum_map. by apply zsum_ext. Qed.

(** A term is at most the sum of non-negative terms. *)
Lemma map_sum_term f m k v :
  (∀ k v, m !! k = Some v → 0 ≤ f k v) → m !! k = Some v → f k v ≤ map_sum f m.
Proof.
  intros Hf Hk. rewrite (map_sum_delete f m k v Hk).
  assert (0 ≤ map_sum f (delete k m)); [|lia]. apply map_sum_nonneg.
  intros k' v' [_ Hk']%lookup_delete_Some. by apply Hf.
Qed.

Lemma map_sum_zero f m : (∀ k v, m !! k = Some v → f k v = 0) → map_sum f m = 0.
Proof.
  intros Hf. rewrite (map_sum_ext f (λ _ _, 0) m Hf). unfold map_sum.
  induction (map_to_list m) as [|kv l IH]; [done|]. by rewrite zsum_cons, IH.
Qed.
End MapSums.

(** ** A loop that adds checked *)

Fixpoint checked_sum {E} (w : uint) (e : E) (total : Z) (l : list Z) : Result E Z :=
  match l with
  | [] => Ok total
  | n :: l => let? total := ok_or (checked_add w total n) e in checked_sum w e total l
  end.

Lemma checked_sum_spec {E} w (e : E) total l : Forall (λ n, 0 ≤ n) l → total ≤ umax w →
  checked_sum w e total l
  = if total + zsum id l <=? umax w then Ok (total + zsum id l) else Err e.
Proof.
  intros Hl. revert total. induction Hl as [|n l Hn Hl IH]; intros total Ht; cbn [checked_sum].
  { change (zsum id []) with 0. rewrite Z.add_0_r. by rewrite (proj2 (Z.leb_le _ _) Ht). }
  rewrite zsum_cons. change (id n) with n. assert (0 ≤ zsum id l) as Hz.
  { apply zsum_nonneg. intros a Ha. by apply (proj1 (Forall_forall _ _) Hl). }
  destruct (checked_add w total n) as [t|] eqn:Ha; cbn [ok_or rbind].
  - apply checked_add_Some in Ha as [-> Ha]. rewrite IH by done. by rewrite Z.add_assoc.
  - apply checked_add_None in Ha. destruct (Z.leb_spec (total + (n + zsum id l)) (umax w)); [lia|done].
Qed.

Lemma checked_sum_Ok {E} w (e : E) l s : Forall (λ n, 0 ≤ n) l →
  checked_sum w e 0 l = Ok s ↔ s = zsum id l ∧ zsum id l ≤ umax w.
Proof.
  intros Hl. rewrite checked_sum_spec by (done || pose proof (umax_pos w); lia). rewrite Z.add_0_l.
  destruct (Z.leb_spec (zsum id l) (umax w)); naive_solver lia.
Qed.

(** ** Sorting, as [sort_by] sorts: equal elements keep their order *)

Section Sort.
Context {A : Type} (le : A → A → bool).
Fixpoint insert_sorted (x : A) (l : list A) : list A :=
  match l with
  | [] => [x]
  | y :: l' => if le x y then x :: l else y :: insert_sorted x l'
  end.
Definition stable_sort (l : list A) : list A := foldr insert_sorted [] l.

Lemma insert_sorted_perm x l : insert_sorted x l ≡ₚ x :: l.
Proof. induction l as [|y l IH]; cbn; [done|]. destruct (le x y); [done|]. rewrite IH. constructor. Qed.
Lemma stable_sort_perm l : stable_sort l ≡ₚ l.
Proof. induction l as [|x l IH]; cbn; [done|]. by rewrite insert_sorted_perm, IH. Qed.

Context (le_total : ∀ x y, le x y = true ∨ le y x = true) (le_trans : ∀ x y z, le x y = true → le y z = true → le x z = true).
Lemma insert_sorted_sorted x l : StronglySorted (λ a b, le a b = true) l → StronglySorted (λ a b, le a b = true) (insert_sorted x l).
Proof.
  induction 1 as [|y l Hl IH Hy]; cbn; [by repeat constructor|]. destruct (le x y) eqn:Hxy.
  - constructor; [by constructor|]. constructor; [done|]. eapply Forall_impl; [exact Hy|]. eauto.
  - constructor; [done|]. rewrite insert_sorted_perm. constructor; [|done]. by destruct (le_total x y); [congruence|].
Qed.
Lemma stable_sort_sorted l : StronglySorted (λ a b, le a b = true) (stable_sort l).
Proof. induction l; cbn; [constructor|by apply insert_sorted_sorted]. Qed.
End Sort.

(** ** Operations whose writes outlive their errors

    A call that changes memory or files and then fails leaves what it wrote behind.  Such a
    call is a function from the state before to a result and the state after: its monad, and
    a Hoare logic for it. *)

Definition Op (S E A : Type) : Type := S → Result E A * S.

Section Op.
Context {S E : Type}.

Definition op_ret {A} (r : Result E A) : Op S E A := λ s, (r, s).
Definition op_bind {A B} (m : Op S E A) (k : A → Op S E B) : Op S E B :=
  λ s, match m s with (Ok a, s') => k a s' | (Err e, s') => (Err e, s') end.
(** A part that only reads. *)
Definition op_read {A} (r : S → Result E A) : Op S E A := λ s, (r s, s).
(** A part that only writes. *)
Definition op_write (f : S → S) : Op S E () := λ s, (Ok (), f s).

(** ** Triples: [P] before, [Q] of the result and the state after *)

Definition triple {A} (P : S → Prop) (m : Op S E A) (Q : Result E A → S → Prop) : Prop :=
  ∀ s, P s → Q (m s).1 (m s).2.

Lemma triple_bind {A B} (P : S → Prop) (m : Op S E A) (k : A → Op S E B) (R : A → S → Prop) Q :
  triple P m (λ r s, match r with Ok a => R a s | Err e => Q (Err e) s end) →
  (∀ a, triple (R a) (k a) Q) → triple P (op_bind m k) Q.
Proof. intros Hm Hk s Hs. specialize (Hm s Hs). unfold op_bind. destruct (m s) as [[a|e] s']; [by apply Hk|done]. Qed.

Lemma triple_ret {A} (P : S → Prop) (r : Result E A) (Q : Result E A → S → Prop) :
  (∀ s, P s → Q r s) → triple P (op_ret r) Q.
Proof. intros H s Hs. by apply H. Qed.

Lemma triple_read {A} (P : S → Prop) (f : S → Result E A) (Q : Result E A → S → Prop) :
  (∀ s, P s → Q (f s) s) → triple P (op_read f) Q.
Proof. intros H s Hs. by apply H. Qed.

Lemma triple_weaken {A} (P P' : S → Prop) (m : Op S E A) (Q Q' : Result E A → S → Prop) :
  triple P m Q → (∀ s, P' s → P s) → (∀ r s, Q r s → Q' r s) → triple P' m Q'.
Proof. intros H HP HQ s Hs. by apply HQ, H, HP. Qed.

(** ** One run: [Q] holds of the result and the state after [m] from [s] *)

Definition wp {A} (m : Op S E A) (Q : Result E A → S → Prop) (s : S) : Prop := Q (m s).1 (m s).2.

Lemma wp_bind {A B} (m : Op S E A) (k : A → Op S E B) Q s :
  wp m (λ r s', match r with Ok a => wp (k a) Q s' | Err e => Q (Err e) s' end) s → wp (op_bind m k) Q s.
Proof. unfold wp, op_bind. by destruct (m s) as [[a|e] s']. Qed.
Lemma wp_ret {A} (r : Result E A) (Q : Result E A → S → Prop) s : Q r s → wp (op_ret r) Q s.
Proof. done. Qed.
Lemma wp_check {A B} (r : Result E A) (k : A → Op S E B) Q s :
  (∀ a, r = Ok a → wp (k a) Q s) → (∀ e, r = Err e → Q (Err e) s) → wp (op_bind (op_ret r) k) Q s.
Proof. intros Ha He. apply wp_bind, wp_ret. destruct r; eauto. Qed.
Lemma wp_look {A B} (f : S → Result E A) (k : A → Op S E B) Q s :
  match f s with Ok a => wp (k a) Q s | Err e => Q (Err e) s end → wp (op_bind (op_read f) k) Q s.
Proof. intros H. by apply wp_bind. Qed.
Lemma wp_set {B} (f : S → S) (k : () → Op S E B) Q s : wp (k ()) Q (f s) → wp (op_bind (op_write f) k) Q s.
Proof. intros H. by apply wp_bind. Qed.
Lemma wp_mono {A} (m : Op S E A) (Q Q' : Result E A → S → Prop) s :
  wp m Q s → (∀ r s', Q r s' → Q' r s') → wp m Q' s.
Proof. intros H HQ. by apply HQ. Qed.

(** An invariant that holds whatever the result. *)
Definition keeps {A} (P : S → Prop) (m : Op S E A) : Prop := triple P m (λ _ s, P s).

Lemma keeps_bind {A B} (P : S → Prop) (m : Op S E A) (k : A → Op S E B) :
  keeps P m → (∀ a, keeps P (k a)) → keeps P (op_bind m k).
Proof. intros Hm Hk. apply (triple_bind P m k (λ _, P)); [|done]. eapply triple_weaken; [exact Hm|done|]. by intros [a|e]. Qed.
Lemma keeps_ret {A} (P : S → Prop) (r : Result E A) : keeps P (op_ret r).
Proof. by apply triple_ret. Qed.
Lemma keeps_read {A} (P : S → Prop) (f : S → Result E A) : keeps P (op_read f).
Proof. by apply triple_read. Qed.
End Op.

Notation "'do' x <- m ; k" := (op_bind m (λ x, k)) (at level 10, x name, m at level 100, k at level 200) : dexdo_scope.

(** One step of a symbolic run. *)
Ltac op_step :=
  lazymatch goal with
  | |- wp (op_bind (op_ret _) _) _ _ => apply wp_check; [intros ? ?|intros ? ?]
  | |- wp (op_bind (op_read _) _) _ _ => apply wp_look; cbn beta iota
  | |- wp (op_bind (op_write _) _) _ _ => apply wp_set
  | |- wp (op_bind (if ?b then _ else _) _) _ _ => destruct b eqn:?
  | |- wp (op_bind _ _) _ _ => apply wp_bind
  | |- wp (op_ret _) _ _ => apply wp_ret
  | |- wp (if ?b then _ else _) _ _ => destruct b eqn:?
  | |- wp (let _ := _ in _) _ _ => cbv zeta
  end.

Create HintDb op_keeps.
#[export] Hint Resolve keeps_ret keeps_read : op_keeps.
#[export] Hint Extern 1 (keeps _ (op_bind _ _)) => apply keeps_bind; [|intros ?] : op_keeps.
#[export] Hint Extern 1 (keeps _ (if ?b then _ else _)) => destruct b eqn:? : op_keeps.
#[export] Hint Extern 1 (keeps _ (match ?o with Some _ => _ | None => _ end)) => destruct o eqn:? : op_keeps.

(** Where replacing or removing a file fails: before the change of its directory entry, or in
    the sync of the directory after it. *)
Inductive FileFault : Type := BeforePublish (error : text) | AfterPublish (error : text).
Definition op_map_err {S E F A} (f : E → F) (m : Op S E A) : Op S F A := λ s, let '(r, s') := m s in (map_err f r, s').
