(* ===== verification/RustText.v ===== *)
(** * Strings: the operations of the language's [str] the program uses

    A [String] is its sequence of UTF-8 bytes.  ASCII case mapping, decimal printing and
    parsing, [trim] (with the UTF-8 encodings of the Unicode white space characters),
    [split_once], [strip_prefix], [contains] and the byte order used by ordered maps.

    Then bytes and lines (UTF-8 validation and lossy conversion, [lines], [split]), hexadecimal
    numbers, and the values of serde_json with their accessors; a [Map] keeps its entries in the
    order of insertion, which is the [preserve_order] feature of the crate. *)
From S2P Require Import Prelude.
From Stdlib Require Import Strings.Ascii.

(** ** Bytes and characters *)

Definition code (c : ascii) : Z := Z.of_N (N_of_ascii c).
Definition char (n : Z) : ascii := ascii_of_N (Z.to_N n).

Definition is_ascii_digit (c : ascii) : bool := (48 <=? code c) && (code c <=? 57).
Definition is_ascii_upper (c : ascii) : bool := (65 <=? code c) && (code c <=? 90).
Definition is_ascii_hexdigit (c : ascii) : bool :=
  is_ascii_digit c || ((65 <=? code c) && (code c <=? 70)) || ((97 <=? code c) && (code c <=? 102)).
Definition lower_char (c : ascii) : ascii := if is_ascii_upper c then char (code c + 32) else c.

Fixpoint str_all (p : ascii → bool) (s : string) : bool :=
  match s with
  | EmptyString => true
  | String c s => p c && str_all p s
  end.
Fixpoint str_map (f : ascii → ascii) (s : string) : string :=
  match s with
  | EmptyString => EmptyString
  | String c s => String (f c) (str_map f s)
  end.

Definition to_ascii_lowercase : string → string := str_map lower_char.
Definition eq_ignore_ascii_case (a b : string) : bool :=
  String.eqb (to_ascii_lowercase a) (to_ascii_lowercase b).

(** ** Searching *)

Fixpoint strip_prefix (p s : string) : option string :=
  match p, s with
  | EmptyString, _ => Some s
  | String a p, String b s => if Ascii.eqb a b then strip_prefix p s else None
  | String _ _, EmptyString => None
  end.

Fixpoint split_once (sep s : string) : option (string * string) :=
  match strip_prefix sep s with
  | Some rest => Some (EmptyString, rest)
  | None =>
      match s with
      | EmptyString => None
      | String c s =>
          match split_once sep s with
          | Some (a, b) => Some (String c a, b)
          | None => None
          end
      end
  end.

Definition contains (sep s : string) : bool :=
  match split_once sep s with Some _ => true | None => false end.

(** [trim_start_matches(p)]: strips the pattern as often as it leads the text. *)
Fixpoint trim_start_matches_go (fuel : nat) (p s : string) : string :=
  match fuel with
  | O => s
  | S fuel =>
      match strip_prefix p s with
      | Some rest => trim_start_matches_go fuel p rest
      | None => s
      end
  end.
Definition trim_start_matches (p s : string) : string :=
  trim_start_matches_go (String.length s) p s.

(** ** [trim]: Unicode white space in UTF-8 *)

Definition white_space : list (list ascii) :=
  map (map char)
    ([[9]; [10]; [11]; [12]; [13]; [32]; [194; 133]; [194; 160]; [225; 154; 128]]
     ++ map (λ b, [226; 128; b]) [128; 129; 130; 131; 132; 133; 134; 135; 136; 137; 138; 168; 169; 175]
     ++ [[226; 129; 159]; [227; 128; 128]]).

Fixpoint strip_bytes (p s : list ascii) : option (list ascii) :=
  match p, s with
  | [], _ => Some s
  | a :: p, b :: s => if Ascii.eqb a b then strip_bytes p s else None
  | _ :: _, [] => None
  end.
Fixpoint strip_one_of (ps : list (list ascii)) (s : list ascii) : option (list ascii) :=
  match ps with
  | [] => None
  | p :: ps => match strip_bytes p s with Some r => Some r | None => strip_one_of ps s end
  end.
Fixpoint strip_all (fuel : nat) (ps : list (list ascii)) (s : list ascii) : list ascii :=
  match fuel with
  | O => s
  | S fuel => match strip_one_of ps s with Some r => strip_all fuel ps r | None => s end
  end.
Definition trim (s : string) : string :=
  let l := String.list_ascii_of_string s in
  let l := strip_all (length l) white_space l in
  let r := rev l in
  String.string_of_list_ascii (rev (strip_all (length r) (map (@rev ascii) white_space) r)).

(** ** Decimal numbers *)

Definition digit_char (d : Z) : ascii := char (48 + d).
Fixpoint decimal_go (fuel : nat) (n : Z) (acc : string) : string :=
  match fuel with
  | O => acc
  | S fuel =>
      let acc := String (digit_char (n mod 10)) acc in
      if n <? 10 then acc else decimal_go fuel (n / 10) acc
  end.
(** [n.to_string()] of an unsigned integer. *)
Definition to_string (n : Z) : string := decimal_go (S (Z.to_nat (Z.log2 n))) n EmptyString.

Fixpoint digits_value (acc : Z) (s : string) : option Z :=
  match s with
  | EmptyString => Some acc
  | String c s => if is_ascii_digit c then digits_value (10 * acc + (code c - 48)) s else None
  end.
(** [s.parse::<uN>()]: an optional leading [+], then at least one digit, in range. *)
Definition parse_uint (w : uint) (s : string) : option Z :=
  let s := match strip_prefix "+" s with Some r => r | None => s end in
  match s with
  | EmptyString => None
  | _ => match digits_value 0 s with Some v => try_into w v | None => None end
  end.

(** The same parse with the text of its error ([ParseIntError]). *)
Fixpoint parse_digits_from (w : uint) (acc : Z) (s : string) : Result string Z :=
  match s with
  | EmptyString => Ok acc
  | String c s =>
      if negb (is_ascii_digit c) then Err "invalid digit found in string"%string else
      match (let* m := checked_mul w acc 10 in checked_add w m (code c - 48)) with
      | Some acc => parse_digits_from w acc s
      | None => Err "number too large to fit in target type"%string
      end
  end.
Definition parse_num (w : uint) (s : string) : Result string Z :=
  match s with
  | EmptyString => Err "cannot parse integer from empty string"%string
  | _ =>
      match strip_prefix "+" s with
      | Some EmptyString => Err "invalid digit found in string"%string
      | Some s => parse_digits_from w 0 s
      | None => parse_digits_from w 0 s
      end
  end.

Fixpoint zeros (n : nat) (s : string) : string :=
  match n with O => s | S n => String "0" (zeros n s) end.
(** [format!("{n:0width$}")]. *)
Definition pad_zero (width : nat) (n : Z) : string :=
  let s := to_string n in zeros (width - String.length s) s.

(** [format!("{b:02x}")] of a byte. *)
Definition hex_char (d : Z) : ascii := char (if d <? 10 then 48 + d else 87 + d).
Definition hex2 (b : Z) : string :=
  String (hex_char (b / 16)) (String (hex_char (b mod 16)) EmptyString).

(** ** Byte order of strings, and the iteration order of an ordered map *)

Definition str_le (a b : string) : Prop := String.leb a b = true.
#[export] Instance str_le_dec : RelDecision str_le.
Proof. intros a b. unfold str_le. apply _. Defined.

(** The entries of a [BTreeMap<String, _>] in the order of its iteration. *)
Definition entry_le {A} (a b : string * A) : Prop := str_le a.1 b.1.
#[export] Instance entry_le_dec {A} : RelDecision (@entry_le A).
Proof. intros a b. unfold entry_le. apply _. Defined.
Definition btree_entries {A} (m : gmap string A) : list (string * A) :=
  merge_sort entry_le (map_to_list m).

#[export] Instance str_le_total : Total str_le.
Proof. intros a b. unfold str_le. apply String.leb_total. Qed.
#[export] Instance str_le_antisym : AntiSymm (=) str_le.
Proof. intros a b. unfold str_le. apply String.leb_antisym. Qed.
Lemma str_le_cons c d s t :
  str_le (String c s) (String d t) ↔ (N_of_ascii c < N_of_ascii d)%N ∨ c = d ∧ str_le s t.
Proof.
  unfold str_le, String.leb. cbn. unfold Ascii.compare. destruct (N.compare_spec (N_of_ascii c) (N_of_ascii d)) as [E|E|E].
  - assert (c = d) as -> by (rewrite <- (ascii_N_embedding c), E; apply ascii_N_embedding). intuition lia.
  - intuition.
  - split; [done|]. intros [?|[-> _]]; lia.
Qed.
#[export] Instance str_le_trans : Transitive str_le.
Proof.
  intros a. induction a as [|x a IH]; intros b c Hab Hbc; [by destruct c|].
  destruct b as [|y b]; [done|]. destruct c as [|z c]; [done|]. rewrite str_le_cons in *.
  destruct Hab as [Hab|[-> Hab]], Hbc as [Hbc|[-> Hbc]]; [left; lia|by left|by left|right; split; [done|by eapply IH]].
Qed.

Lemma elem_of_btree_entries {A} (m : gmap string A) k v :
  (k, v) ∈ btree_entries m ↔ m !! k = Some v.
Proof. unfold btree_entries. by rewrite merge_sort_Permutation, elem_of_map_to_list. Qed.

Lemma NoDup_btree_keys {A} (m : gmap string A) : NoDup (btree_entries m).*1.
Proof. unfold btree_entries. rewrite merge_sort_Permutation. apply NoDup_fst_map_to_list. Qed.

(** * Lemmas *)

Lemma append_cons c s t : String c s +:+ t = String c (s +:+ t).
Proof. done. Qed.

Lemma append_assoc r s t : (r +:+ s) +:+ t = r +:+ s +:+ t.
Proof. induction r as [|c r IH]; [done|]. by rewrite !append_cons, IH. Qed.

Lemma append_nil_r s : s +:+ EmptyString = s.
Proof. induction s as [|c s IH]; [done|]. by rewrite !append_cons, IH. Qed.

Lemma code_range c : 0 ≤ code c < 256.
Proof.
  unfold code. split; [lia|]. pose proof (N_ascii_bounded c). lia.
Qed.

Lemma code_char n : 0 ≤ n < 256 → code (char n) = n.
Proof. intros. unfold code, char. rewrite N_ascii_embedding by lia. lia. Qed.

Lemma char_code c : char (code c) = c.
Proof. unfold code, char. rewrite N2Z.id. apply ascii_N_embedding. Qed.

Lemma code_inj a b : code a = code b → a = b.
Proof. intros H. by rewrite <- (char_code a), H, char_code. Qed.

(** ** Decimal printing and parsing *)

Lemma digit_char_spec d :
  0 ≤ d < 10 → is_ascii_digit (digit_char d) = true ∧ code (digit_char d) - 48 = d.
Proof.
  intros. unfold digit_char, is_ascii_digit. rewrite code_char by lia. lia.
Qed.

Lemma decimal_go_value fuel n acc a :
  0 ≤ n < 2 ^ Z.of_nat fuel →
  ∃ k, 0 ≤ k ∧ digits_value a (decimal_go fuel n acc) = digits_value (a * 10 ^ k + n) acc.
Proof.
  revert n acc a. induction fuel as [|fuel IH]; intros n acc a Hn; cbn [decimal_go].
  { exists 0. split; [lia|]. replace (a * 10 ^ 0 + n) with a by (cbn in *; lia). done. }
  pose proof (digit_char_spec (n mod 10) (Z.mod_pos_bound n 10 ltac:(lia))) as [Hd Hv].
  destruct (Z.ltb_spec n 10).
  - exists 1. split; [lia|]. cbn [digits_value]. rewrite Hd, Hv.
    rewrite Z.mod_small by lia. replace (10 * a + n) with (a * 10 ^ 1 + n) by lia. done.
  - destruct (IH (n / 10) (String (digit_char (n mod 10)) acc) a) as (k & Hk & ->).
    { rewrite Nat2Z.inj_succ, Z.pow_succ_r in Hn by lia.
      split; [apply Z.div_pos; lia|]. apply Z.div_lt_upper_bound; lia. }
    exists (Z.succ k). split; [lia|]. cbn [digits_value]. rewrite Hd, Hv.
    rewrite Z.pow_succ_r by lia.
    pose proof (Z.div_mod n 10 ltac:(lia)). f_equal. lia.
Qed.

Lemma decimal_fuel n : 0 ≤ n → n < 2 ^ Z.of_nat (S (Z.to_nat (Z.log2 n))).
Proof.
  intros. destruct (Z.eq_dec n 0) as [->|]; [cbn; lia|].
  rewrite Nat2Z.inj_succ, Z2Nat.id by apply Z.log2_nonneg.
  apply Z.log2_spec. lia.
Qed.

Lemma digits_value_to_string n : 0 ≤ n → digits_value 0 (to_string n) = Some n.
Proof.
  intros. unfold to_string.
  destruct (decimal_go_value (S (Z.to_nat (Z.log2 n))) n "" 0) as (k & _ & ->).
  { split; [lia|]. by apply decimal_fuel. }
  done.
Qed.

Lemma decimal_go_digits fuel n acc :
  str_all is_ascii_digit acc = true → str_all is_ascii_digit (decimal_go fuel n acc) = true.
Proof.
  revert n acc. induction fuel as [|fuel IH]; intros n acc Ha; cbn [decimal_go]; [done|].
  pose proof (digit_char_spec (n mod 10) (Z.mod_pos_bound n 10 ltac:(lia))) as [Hd _].
  destruct (n <? 10); [|apply IH]; cbn; by rewrite Hd.
Qed.

Lemma to_string_digits n : str_all is_ascii_digit (to_string n) = true.
Proof. by apply decimal_go_digits. Qed.

Lemma decimal_go_nonempty fuel n acc : acc ≠ EmptyString → decimal_go fuel n acc ≠ EmptyString.
Proof.
  revert n acc. induction fuel as [|fuel IH]; intros n acc Ha; cbn [decimal_go]; [done|].
  destruct (n <? 10); [done|]. by apply IH.
Qed.

Lemma to_string_nonempty n : to_string n ≠ EmptyString.
Proof.
  unfold to_string. cbn [decimal_go]. destruct (n <? 10); [done|]. by apply decimal_go_nonempty.
Qed.

Lemma strip_plus_digits s :
  str_all is_ascii_digit s = true → strip_prefix "+" s = None.
Proof.
  destruct s as [|c s]; cbn; [done|]. intros [Hc _]%andb_prop.
  destruct c as [[] [] [] [] [] [] [] []]; try done; discriminate.
Qed.

Lemma parse_uint_digits w s v :
  s ≠ EmptyString → str_all is_ascii_digit s = true → digits_value 0 s = Some v → v ≤ umax w →
  parse_uint w s = Some v.
Proof.
  intros Hne Hd Hv Hw. unfold parse_uint. rewrite strip_plus_digits by done.
  destruct s; [done|]. rewrite Hv. apply try_into_Some. done.
Qed.

(** Printing and parsing an unsigned integer is the identity. *)
Lemma parse_uint_to_string w n : in_range w n → parse_uint w (to_string n) = Some n.
Proof.
  intros [? ?]. apply parse_uint_digits; auto using to_string_nonempty, to_string_digits.
  by apply digits_value_to_string.
Qed.

Lemma digits_value_ge a s v : 0 ≤ a → digits_value a s = Some v → a ≤ v.
Proof.
  revert a. induction s as [|c s IH]; intros a Ha; cbn; [intros [= <-]; lia|].
  destruct (is_ascii_digit c) eqn:Hc; [|done]. unfold is_ascii_digit in Hc.
  intros Hv%IH; lia.
Qed.

Lemma parse_digits_from_ok w a s : in_range w a →
  result_ok (parse_digits_from w a s)
  = match digits_value a s with Some v => try_into w v | None => None end.
Proof.
  revert a. induction s as [|c s IH]; intros a [H0 H1]; cbn [parse_digits_from digits_value].
  { symmetry. by apply try_into_fits. }
  destruct (is_ascii_digit c) eqn:Hc; cbn [negb]; [|done]. unfold is_ascii_digit in Hc.
  replace (10 * a) with (a * 10) by lia.
  destruct (let* m := checked_mul w a 10 in checked_add w m (code c - 48)) as [acc|] eqn:Hacc.
  - apply obind_Some in Hacc as (m & [-> Hm]%checked_mul_Some & [-> Ha]%checked_add_Some).
    apply IH. split; lia.
  - destruct (digits_value _ s) as [v|] eqn:Hv; [|done]. symmetry.
    apply digits_value_ge in Hv; [|lia]. destruct (try_into w v) eqn:Ht; [|done].
    apply try_into_Some in Ht as [-> Ht].
    rewrite (checked_mul_fits w a 10) in Hacc by lia. cbn [obind] in Hacc. apply checked_add_None in Hacc. lia.
Qed.

(** The two parsers agree on the value. *)
Lemma parse_num_ok w s : result_ok (parse_num w s) = parse_uint w s.
Proof.
  unfold parse_num, parse_uint. pose proof (umax_pos w).
  destruct s as [|c s]; [done|]. destruct (strip_prefix "+" (String c s)) as [[|c' s']|]; [done|..];
    by apply parse_digits_from_ok; split; lia.
Qed.

Lemma to_string_inj m n : 0 ≤ m → 0 ≤ n → to_string m = to_string n → m = n.
Proof.
  intros Hm Hn H. apply digits_value_to_string in Hm, Hn. rewrite H in Hm. congruence.
Qed.

(** ** [trim] leaves a text of graphic ASCII characters alone *)

Definition is_graphic (c : ascii) : bool := (33 <=? code c) && (code c <=? 126).

Lemma strip_one_of_graphic ps c s :
  Forall (λ p, ∃ a p', p = a :: p' ∧ is_graphic a = false) ps →
  is_graphic c = true → strip_one_of ps (c :: s) = None.
Proof.
  intros Hps Hc. induction Hps as [|p ps (a & p' & -> & Ha) Hps IH]; cbn; [done|].
  destruct (Ascii.eqb_spec a c) as [->|]; [congruence|]. done.
Qed.

Lemma strip_all_graphic fuel ps l :
  Forall (λ p, ∃ a p', p = a :: p' ∧ is_graphic a = false) ps →
  Forall (λ c, is_graphic c = true) l → strip_all fuel ps l = l.
Proof.
  intros Hps Hl. destruct fuel; cbn; [done|]. destruct Hl as [|c l Hc Hl].
  - assert (Hn : strip_one_of ps [] = None); [|by rewrite Hn].
    induction Hps as [|p ps (a & p' & -> & Ha) Hps IH]; cbn; done.
  - by rewrite strip_one_of_graphic.
Qed.

Lemma white_space_first :
  Forall (λ p, ∃ a p', p = a :: p' ∧ is_graphic a = false) white_space.
Proof. unfold white_space. cbn. repeat (constructor; [by eexists _, _|]). constructor. Qed.

Lemma white_space_last :
  Forall (λ p, ∃ a p', p = a :: p' ∧ is_graphic a = false) (map (@rev ascii) white_space).
Proof. unfold white_space. cbn. repeat (constructor; [by eexists _, _|]). constructor. Qed.

Lemma str_all_list p s :
  str_all p s = true ↔ Forall (λ c, p c = true) (String.list_ascii_of_string s).
Proof.
  induction s as [|c s IH]; cbn; [by split|].
  rewrite andb_true_iff, IH, Forall_cons. done.
Qed.

Lemma trim_graphic s : str_all is_graphic s = true → trim s = s.
Proof.
  intros Hs%str_all_list. unfold trim.
  rewrite (strip_all_graphic _ white_space) by auto using white_space_first.
  rewrite strip_all_graphic; [|apply white_space_last|by apply Forall_rev].
  rewrite rev_involutive. apply String.string_of_list_ascii_of_string.
Qed.

Lemma str_all_impl p q s :
  (∀ c, p c = true → q c = true) → str_all p s = true → str_all q s = true.
Proof.
  intros Hpq. induction s as [|c s IH]; cbn; [done|].
  intros [Hc Hs]%andb_prop. rewrite (Hpq c Hc), IH; done.
Qed.

Lemma str_all_app p s t : str_all p (s +:+ t) = str_all p s && str_all p t.
Proof.
  induction s as [|c s IH]; [done|]. rewrite append_cons. cbn. by rewrite IH, andb_assoc.
Qed.

Lemma digit_graphic c : is_ascii_digit c = true → is_graphic c = true.
Proof. unfold is_ascii_digit, is_graphic. lia. Qed.

(** ** [trim] is idempotent *)

Lemma strip_bytes_app p s r : strip_bytes p s = Some r ↔ s = p ++ r.
Proof.
  revert s. induction p as [|a p IH]; intros s; cbn; [naive_solver|].
  destruct s as [|b s]; [naive_solver|].
  destruct (Ascii.eqb_spec a b) as [->|]; [rewrite IH|]; naive_solver.
Qed.

Lemma strip_one_of_None ps s :
  strip_one_of ps s = None ↔ Forall (λ p, strip_bytes p s = None) ps.
Proof.
  induction ps as [|p ps IH]; cbn; [by split|]. rewrite Forall_cons, <- IH.
  destruct (strip_bytes p s); naive_solver.
Qed.

Lemma strip_one_of_prefix ps s t : strip_one_of ps (s ++ t) = None → strip_one_of ps s = None.
Proof.
  rewrite !strip_one_of_None. intros H. eapply Forall_impl; [exact H|].
  intros p Hp. cbn in Hp. destruct (strip_bytes p s) as [r|] eqn:Hr; [|done].
  apply strip_bytes_app in Hr as ->. rewrite <- app_assoc in Hp.
  by rewrite (proj2 (strip_bytes_app p _ (r ++ t))) in Hp.
Qed.

Lemma strip_one_of_Some ps s r :
  Forall (λ p, ∃ a p', p = a :: p' ∧ is_graphic a = false) ps → strip_one_of ps s = Some r →
  (length r < length s)%nat ∧ ∃ p, s = p ++ r.
Proof.
  intros Hps. induction Hps as [|p ps (a & p' & -> & _) Hps IH]; cbn; [done|].
  destruct (strip_bytes (a :: p') s) as [r'|] eqn:Hr; cbn in Hr; rewrite Hr; [|auto].
  intros [= <-]. apply (strip_bytes_app (a :: p')) in Hr as ->. split; [|eauto].
  rewrite length_app. cbn. lia.
Qed.

Lemma strip_all_spec fuel ps s :
  Forall (λ p, ∃ a p', p = a :: p' ∧ is_graphic a = false) ps → (length s ≤ fuel)%nat →
  strip_one_of ps (strip_all fuel ps s) = None ∧ ∃ p, s = p ++ strip_all fuel ps s.
Proof.
  intros Hps. revert s. induction fuel as [|fuel IH]; intros s Hs; cbn.
  - destruct s; [|cbn in Hs; lia]. split; [|by exists []].
    destruct (strip_one_of ps []) eqn:Hr; [|done].
    apply (strip_one_of_Some _ _ _ Hps) in Hr as [Hl _]. cbn in Hl; lia.
  - destruct (strip_one_of ps s) as [r|] eqn:Hr; [|split; [done|by exists []]].
    apply (strip_one_of_Some _ _ _ Hps) in Hr as [Hl [p ->]].
    destruct (IH r) as [Hn [q Hq]]; [lia|]. split; [done|].
    exists (p ++ q). rewrite Hq at 1. by rewrite app_assoc.
Qed.

Lemma strip_all_stuck fuel ps s : strip_one_of ps s = None → strip_all fuel ps s = s.
Proof. intros H. destruct fuel; cbn; [done|]. by rewrite H. Qed.

Lemma trim_idemp s : trim (trim s) = trim s.
Proof.
  unfold trim at 1. unfold trim.
  set (l := strip_all _ white_space (String.list_ascii_of_string s)).
  set (r := strip_all _ _ (rev l)).
  rewrite String.list_ascii_of_string_of_list_ascii.
  pose proof (strip_all_spec (length (String.list_ascii_of_string s)) white_space
    (String.list_ascii_of_string s) white_space_first (le_n _)) as [Hl _]. fold l in Hl.
  pose proof (strip_all_spec (length (rev l)) _ (rev l) white_space_last (le_n _)) as [Hr [p Hp]].
  fold r in Hr, Hp.
  assert (Hlr : l = rev r ++ rev p) by (rewrite <- rev_app_distr, <- Hp; by rewrite rev_involutive).
  rewrite Hlr in Hl. apply strip_one_of_prefix in Hl.
  rewrite (strip_all_stuck _ white_space (rev r)) by done. rewrite rev_involutive.
  by rewrite strip_all_stuck.
Qed.

(** ** Lower case *)

Lemma lower_char_idemp c : lower_char (lower_char c) = lower_char c.
Proof.
  unfold lower_char at 2 3. destruct (is_ascii_upper c) eqn:H; [|unfold lower_char; by rewrite H].
  unfold lower_char. unfold is_ascii_upper in *. rewrite code_char by (pose proof (code_range c); lia).
  replace (_ && _) with false by lia. done.
Qed.

Lemma to_ascii_lowercase_idemp s :
  to_ascii_lowercase (to_ascii_lowercase s) = to_ascii_lowercase s.
Proof.
  unfold to_ascii_lowercase. induction s as [|c s IH]; cbn; [done|].
  by rewrite lower_char_idemp, IH.
Qed.

Lemma eq_ignore_ascii_case_spec a b :
  eq_ignore_ascii_case a b = true ↔ to_ascii_lowercase a = to_ascii_lowercase b.
Proof. apply String.eqb_eq. Qed.

(** ** Lengths and prefixes *)

Lemma length_app_string s t : String.length (s +:+ t) = (String.length s + String.length t)%nat.
Proof. induction s as [|c s IH]; [done|]. rewrite append_cons. cbn. by rewrite IH. Qed.

Lemma length_lower s : String.length (to_ascii_lowercase s) = String.length s.
Proof. unfold to_ascii_lowercase. induction s as [|c s IH]; cbn; [done|]. by rewrite IH. Qed.

Lemma strip_prefix_app p s : strip_prefix p (p +:+ s) = Some s.
Proof.
  induction p as [|c p IH]; [by destruct s|].
  rewrite append_cons. cbn [strip_prefix]. by rewrite Ascii.eqb_refl.
Qed.

(** A separator whose first character does not occur in [a] is found right after [a]. *)
Lemma split_once_app c sep a b :
  str_all (λ x, negb (Ascii.eqb c x)) a = true →
  split_once (String c sep) (a +:+ String c sep +:+ b) = Some (a, b).
Proof.
  induction a as [|x a IH]; intros Ha.
  - change (EmptyString +:+ String c sep +:+ b) with (String c (sep +:+ b)). cbn [split_once strip_prefix].
    by rewrite Ascii.eqb_refl, strip_prefix_app.
  - cbn [str_all] in Ha. apply andb_prop in Ha as [Hx Ha]. apply negb_true_iff in Hx.
    rewrite append_cons. cbn [split_once strip_prefix]. rewrite Hx, IH; done.
Qed.

Lemma split_once_absent c sep s :
  str_all (λ x, negb (Ascii.eqb c x)) s = true → split_once (String c sep) s = None.
Proof.
  induction s as [|x s IH]; intros Ha; [done|].
  cbn [str_all] in Ha. apply andb_prop in Ha as [Hx Ha]. apply negb_true_iff in Hx.
  cbn [split_once strip_prefix]. rewrite Hx, IH; done.
Qed.

(** * Bytes and lines: more operations of the language's [str] and [[u8]]

    UTF-8 validation and lossy conversion, [lines], [split], [starts_with] and [ends_with]. *)

Abbreviation bytes := (list ascii).
Definition of_bytes (b : bytes) : string := String.string_of_list_ascii b.
Definition to_bytes (s : string) : bytes := String.list_ascii_of_string s.

(** ** UTF-8 *)

(** The next character of a byte sequence: its length, or how many bytes to skip. *)
Inductive Utf8Next : Type := Utf8Valid (n : nat) | Utf8Invalid (n : nat).

Definition between (lo hi : Z) (b : bytes) : bool :=
  match b with c :: _ => (lo <=? code c) && (code c <=? hi) | [] => false end.
Definition continuation : bytes → bool := between 128 191.
(** The second byte that may follow the first of three or four. *)
Definition second_of_three (first : Z) : bytes → bool :=
  if first =? 224 then between 160 191 else if first =? 237 then between 128 159 else continuation.
Definition second_of_four (first : Z) : bytes → bool :=
  if first =? 240 then between 144 191 else if first =? 244 then between 128 143 else continuation.

Definition utf8_next (c : ascii) (rest : bytes) : Utf8Next :=
  let first := code c in
  if first <? 128 then Utf8Valid 1
  else if (194 <=? first) && (first <=? 223) then if continuation rest then Utf8Valid 2 else Utf8Invalid 1
  else if (224 <=? first) && (first <=? 239) then
    if negb (second_of_three first rest) then Utf8Invalid 1
    else if continuation (drop 1 rest) then Utf8Valid 3 else Utf8Invalid 2
  else if (240 <=? first) && (first <=? 244) then
    if negb (second_of_four first rest) then Utf8Invalid 1
    else if negb (continuation (drop 1 rest)) then Utf8Invalid 2
    else if continuation (drop 2 rest) then Utf8Valid 4 else Utf8Invalid 3
  else Utf8Invalid 1.

Fixpoint utf8_valid_go (fuel : nat) (b : bytes) : bool :=
  match fuel, b with
  | _, [] => true
  | O, _ :: _ => false
  | S fuel, c :: rest =>
      match utf8_next c rest with
      | Utf8Valid n => utf8_valid_go fuel (drop n b)
      | Utf8Invalid _ => false
      end
  end.
(** [str::from_utf8]: every character takes a byte at least, so the length is fuel enough. *)
Definition utf8_valid (b : bytes) : bool := utf8_valid_go (length b) b.
Definition from_utf8 (b : bytes) : option string := if utf8_valid b then Some (of_bytes b) else None.

Definition replacement_character : bytes := map char [239; 191; 189].
Fixpoint lossy_go (fuel : nat) (b : bytes) : bytes :=
  match fuel, b with
  | _, [] | O, _ => []
  | S fuel, c :: rest =>
      match utf8_next c rest with
      | Utf8Valid n => take n b ++ lossy_go fuel (drop n b)
      | Utf8Invalid n => replacement_character ++ lossy_go fuel (drop n b)
      end
  end.
(** [String::from_utf8_lossy]. *)
Definition from_utf8_lossy (b : bytes) : string := of_bytes (lossy_go (length b) b).

(** ** Prefixes, suffixes, parts *)

Definition starts_with (p s : string) : bool := match strip_prefix p s with Some _ => true | None => false end.
Fixpoint ends_with (p s : string) : bool :=
  String.eqb p s || match s with EmptyString => false | String _ s => ends_with p s end.

(** [s.split(c)]: one part more than separators. *)
Fixpoint split_char (c : ascii) (s : string) : list string :=
  match s with
  | EmptyString => [EmptyString]
  | String d s =>
      if Ascii.eqb c d then EmptyString :: split_char c s
      else match split_char c s with
           | part :: parts => String d part :: parts
           | [] => [String d EmptyString]
           end
  end.

(** [s.lines()]: lines end with a line feed, and a carriage return before it goes with it. *)
Definition LF : ascii := char 10.
Definition CR : ascii := char 13.
Fixpoint strip_cr (s : string) : string :=
  match s with
  | EmptyString => EmptyString
  | String c EmptyString => if Ascii.eqb c CR then EmptyString else s
  | String c s => String c (strip_cr s)
  end.
(** The parts around line feeds: all but the last end a line. *)
Fixpoint ended_lines (parts : list string) : list string :=
  match parts with
  | [] => []
  | [last] => if String.eqb last "" then [] else [last]
  | part :: parts => strip_cr part :: ended_lines parts
  end.
Definition lines (s : string) : list string := ended_lines (split_char LF s).

Fixpoint str_join (sep : string) (parts : list string) : string :=
  match parts with
  | [] => EmptyString
  | [part] => part
  | part :: parts => part +:+ sep +:+ str_join sep parts
  end.

Example utf8_euro : from_utf8 (map char [226; 130; 172]) = Some (of_bytes (map char [226; 130; 172])).
Proof. reflexivity. Qed.
Example utf8_surrogate : from_utf8 (map char [237; 160; 128]) = None.
Proof. reflexivity. Qed.
Example lines_crlf : lines (of_bytes (to_bytes "a" ++ [CR; LF] ++ to_bytes "b" ++ [LF])) = ["a"; "b"]%string.
Proof. reflexivity. Qed.

(** * Hexadecimal numbers: [from_str_radix(_, 16)] *)

Definition hex_value (c : ascii) : option Z :=
  if is_ascii_digit c then Some (code c - 48)
  else if (97 <=? code c) && (code c <=? 102) then Some (code c - 87)
  else if (65 <=? code c) && (code c <=? 70) then Some (code c - 55) else None.
Fixpoint hex_digits_value (acc : Z) (s : string) : option Z :=
  match s with
  | EmptyString => Some acc
  | String c s => match hex_value c with Some d => hex_digits_value (16 * acc + d) s | None => None end
  end.
(** An optional leading [+], then at least one digit, in range. *)
Definition parse_hex (w : uint) (s : string) : option Z :=
  let s := match strip_prefix "+" s with Some r => r | None => s end in
  match s with
  | EmptyString => None
  | _ => match hex_digits_value 0 s with Some v => try_into w v | None => None end
  end.
(** [strip_prefix] of either spelling of the prefix, then hexadecimal, else decimal. *)
Definition parse_prefixed (w : uint) (s : string) : option Z :=
  match match strip_prefix "0x" s with Some hex => Some hex | None => strip_prefix "0X" s end with
  | Some hex => parse_hex w hex
  | None => parse_uint w s
  end.

(** [format!("{n:x}")]. *)
Fixpoint hex_go (fuel : nat) (n : Z) (acc : string) : string :=
  match fuel with
  | O => acc
  | S fuel =>
      let acc := String (hex_char (n mod 16)) acc in
      if n <? 16 then acc else hex_go fuel (n / 16) acc
  end.
Definition to_hex (n : Z) : string := hex_go (S (Z.to_nat (Z.log2 n))) n EmptyString.

(** * Lemmas *)

Lemma hex_char_spec d : 0 ≤ d < 16 → hex_value (hex_char d) = Some d ∧ is_ascii_hexdigit (hex_char d) = true.
Proof.
  intros Hd. assert (d = 0 ∨ d = 1 ∨ d = 2 ∨ d = 3 ∨ d = 4 ∨ d = 5 ∨ d = 6 ∨ d = 7 ∨ d = 8 ∨ d = 9 ∨ d = 10 ∨ d = 11 ∨
    d = 12 ∨ d = 13 ∨ d = 14 ∨ d = 15) as H by lia.
  destruct_or! H; subst; done.
Qed.
Lemma hex_go_value fuel n acc a :
  0 ≤ n < 2 ^ Z.of_nat fuel →
  ∃ k, 0 ≤ k ∧ hex_digits_value a (hex_go fuel n acc) = hex_digits_value (a * 16 ^ k + n) acc.
Proof.
  revert n acc a. induction fuel as [|fuel IH]; intros n acc a Hn; cbn [hex_go].
  { exists 0. split; [lia|]. replace (a * 16 ^ 0 + n) with a by (cbn in *; lia). done. }
  pose proof (hex_char_spec (n mod 16) (Z.mod_pos_bound n 16 ltac:(lia))) as [Hv _].
  destruct (Z.ltb_spec n 16).
  - exists 1. split; [lia|]. cbn [hex_digits_value]. rewrite Hv, Z.mod_small by lia. f_equal. lia.
  - destruct (IH (n / 16) (String (hex_char (n mod 16)) acc) a) as (k & Hk & ->).
    { rewrite Nat2Z.inj_succ, Z.pow_succ_r in Hn by lia. split; [apply Z.div_pos; lia|]. apply Z.div_lt_upper_bound; lia. }
    exists (Z.succ k). split; [lia|]. cbn [hex_digits_value]. rewrite Hv, Z.pow_succ_r by lia.
    pose proof (Z.div_mod n 16 ltac:(lia)). f_equal. lia.
Qed.
Lemma hex_go_digits fuel n acc : 0 ≤ n → str_all is_ascii_hexdigit acc = true → str_all is_ascii_hexdigit (hex_go fuel n acc) = true.
Proof.
  revert n acc. induction fuel as [|fuel IH]; intros n acc Hn Ha; cbn [hex_go]; [done|].
  pose proof (hex_char_spec (n mod 16) (Z.mod_pos_bound n 16 ltac:(lia))) as [_ Hd].
  destruct (n <? 16); [|apply IH; [by apply Z.div_pos|]]; cbn [str_all]; by rewrite Hd.
Qed.
Lemma hex_go_nonempty fuel n acc : acc ≠ EmptyString → hex_go fuel n acc ≠ EmptyString.
Proof.
  revert n acc. induction fuel as [|fuel IH]; intros n acc Ha; cbn [hex_go]; [done|]. destruct (n <? 16); [done|]. by apply IH.
Qed.
Lemma strip_plus_hex s : str_all is_ascii_hexdigit s = true → strip_prefix "+" s = None.
Proof.
  destruct s as [|c s]; cbn; [done|]. intros [Hc _]%andb_prop. destruct c as [[] [] [] [] [] [] [] []]; try done; discriminate.
Qed.
(** Printing in hexadecimal and parsing is the identity. *)
Lemma parse_hex_to_hex w n : in_range w n → parse_hex w (to_hex n) = Some n.
Proof.
  intros [H0 H1]. unfold parse_hex. assert (str_all is_ascii_hexdigit (to_hex n) = true) as Hd by by apply hex_go_digits.
  rewrite strip_plus_hex by done. assert (to_hex n ≠ EmptyString) as Hne.
  { unfold to_hex. cbn [hex_go]. destruct (n <? 16); [done|]. by apply hex_go_nonempty. }
  destruct (to_hex n) eqn:E; [done|]. rewrite <- E. unfold to_hex.
  destruct (hex_go_value (S (Z.to_nat (Z.log2 n))) n "" 0) as (k & _ & ->); [split; [lia|by apply decimal_fuel]|].
  cbn [hex_digits_value]. by apply try_into_fits.
Qed.
Lemma hexdigit_is_graphic c : is_ascii_hexdigit c = true → is_graphic c = true.
Proof. unfold is_ascii_hexdigit, is_ascii_digit, is_graphic. lia. Qed.
Lemma trim_to_hex n : 0 ≤ n → trim ("0x" +:+ to_hex n) = "0x" +:+ to_hex n.
Proof.
  intros Hn. apply trim_graphic. rewrite str_all_app. cbn [str_all andb]. change (str_all is_graphic "0x") with true. cbn [andb].
  eapply str_all_impl; [apply hexdigit_is_graphic|]. by apply hex_go_digits.
Qed.
Lemma strip_0x_digits s : str_all is_ascii_digit s = true →
  match strip_prefix "0x" s with Some hex => Some hex | None => strip_prefix "0X" s end = None.
Proof.
  destruct s as [|c [|d s]]; [done|by cbn [strip_prefix]; destruct (Ascii.eqb "0" c)|]. intros H. cbn [str_all] in H.
  apply andb_prop in H as [_ [Hd _]%andb_prop]. cbn [strip_prefix].
  destruct (Ascii.eqb "0" c); [|done]. destruct (Ascii.eqb_spec "x" d) as [<-|]; [done|]. by destruct (Ascii.eqb_spec "X" d) as [<-|].
Qed.
Lemma parse_prefixed_decimal w n : in_range w n → parse_prefixed w (to_string n) = Some n.
Proof. intros H. unfold parse_prefixed. rewrite strip_0x_digits by apply to_string_digits. by apply parse_uint_to_string. Qed.
Lemma parse_prefixed_hex w n : in_range w n → parse_prefixed w ("0x" +:+ to_hex n) = Some n.
Proof. intros H. unfold parse_prefixed. rewrite strip_prefix_app. by apply parse_hex_to_hex. Qed.
Lemma trim_to_string n : trim (to_string n) = to_string n.
Proof. apply trim_graphic. eapply str_all_impl; [apply digit_graphic|apply to_string_digits]. Qed.

(** ** JSON values

    [serde_json::Value] as the program uses it: the map of an object keeps the order in which
    its keys arrived (the [preserve_order] feature), so removing an entry moves the last one
    into its place.  Parsing and printing are third-party and parameters where they are used. *)

(** A number is a [u64], a negative [i64], or anything else. *)
Inductive Number : Type := PosInt (n : Z) | NegInt (n : Z) | Float (digits : string).

Inductive Value : Type :=
| Null
| Bool (b : bool)
| Num (n : Number)
| Str (s : string)
| Array (items : list Value)
| Object (entries : list (string * Value)).

Definition JsonMap : Type := list (string * Value).

Section Map.
Context {V : Type}.
Fixpoint assoc (key : string) (m : list (string * V)) : option V :=
  match m with
  | [] => None
  | (k, v) :: m => if String.eqb key k then Some v else assoc key m
  end.
(** [insert]: in place, or at the end. *)
Fixpoint assoc_insert (key : string) (v : V) (m : list (string * V)) : list (string * V) :=
  match m with
  | [] => [(key, v)]
  | (k, w) :: m => if String.eqb key k then (k, v) :: m else (k, w) :: assoc_insert key v m
  end.
(** [remove]: the last entry takes the place. *)
Fixpoint assoc_swap_remove (key : string) (m : list (string * V)) : list (string * V) :=
  match m with
  | [] => []
  | (k, w) :: m =>
      if String.eqb key k then match List.rev m with [] => [] | l :: rest => l :: List.rev rest end
      else (k, w) :: assoc_swap_remove key m
  end.

Lemma assoc_insert_eq key v m : assoc key (assoc_insert key v m) = Some v.
Proof. induction m as [|[k w] m IH]; cbn; [by rewrite String.eqb_refl|]. destruct (String.eqb key k) eqn:Hk; cbn; by rewrite Hk. Qed.
Lemma assoc_insert_ne key key' v m : key ≠ key' → assoc key' (assoc_insert key v m) = assoc key' m.
Proof.
  intros Hne. induction m as [|[k w] m IH]; cbn; [by rewrite (proj2 (String.eqb_neq key' key)) by congruence|].
  destruct (String.eqb_spec key k) as [->|Hk]; cbn; [|by rewrite IH]. by rewrite (proj2 (String.eqb_neq key' k)) by congruence.
Qed.
End Map.

Definition get (field : string) (v : Value) : option Value :=
  match v with Object m => assoc field m | _ => None end.
(** [value["field"]]. *)
Definition index (field : string) (v : Value) : Value := unwrap_or Null (get field v).
Definition as_u64 (v : Value) : option Z := match v with Num (PosInt n) => Some n | _ => None end.
Definition as_str (v : Value) : option string := match v with Str s => Some s | _ => None end.
Definition as_bool (v : Value) : option bool := match v with Bool b => Some b | _ => None end.
Definition as_array (v : Value) : option (list Value) := match v with Array l => Some l | _ => None end.
Definition as_object (v : Value) : option JsonMap := match v with Object m => Some m | _ => None end.
Definition is_null (v : Value) : bool := match v with Null => true | _ => false end.
Definition is_object (v : Value) : bool := match v with Object _ => true | _ => false end.

(** [.filter(|v| !v.is_null())] on what was read. *)
Definition non_null (o : option Value) : option Value :=
  let* v := o in if is_null v then None else Some v.
