(* ===== verification/ApiFormat.v ===== *)
(** * The consumer API formats

    crates/dexdo/src/api_format.rs: the edits of a request body, which headers travel, and what
    a frame of a streamed response or a whole response states.  JSON parsing is a parameter. *)
From S2P Require Import Prelude RustText.
From Stdlib Require Import Strings.Ascii.

Inductive ApiFormat : Type := ChatCompletions | Responses | Messages.
#[export] Instance ApiFormat_eq_dec : EqDecision ApiFormat.
Proof. solve_decision. Defined.

Definition CHAT_COMPLETIONS_PATH : string := "/v1/chat/completions".
Definition RESPONSES_PATH : string := "/v1/responses".
Definition MESSAGES_PATH : string := "/v1/messages".
Definition from_path (path : string) : option ApiFormat :=
  if String.eqb path CHAT_COMPLETIONS_PATH then Some ChatCompletions
  else if String.eqb path RESPONSES_PATH then Some Responses
  else if String.eqb path MESSAGES_PATH then Some Messages else None.
Definition format_path (f : ApiFormat) : string :=
  match f with ChatCompletions => CHAT_COMPLETIONS_PATH | Responses => RESPONSES_PATH | Messages => MESSAGES_PATH end.
Definition format_protocol (f : ApiFormat) : string :=
  match f with ChatCompletions => "openai" | Responses => "openai_responses" | Messages => "anthropic" end.

(** ** The request body *)

Definition RequestBody : Type := JsonMap.
Definition body_model (b : RequestBody) : option string :=
  let* model := (let* v := assoc "model"%string b in as_str v) in
  if String.eqb model "" then None else Some model.
Definition set_model (model : string) (b : RequestBody) : RequestBody := assoc_insert "model" (Str model) b.
Definition body_stream (b : RequestBody) : bool :=
  bool_decide ((let* v := assoc "stream"%string b in as_bool v) = Some true).
Definition require_stream_usage (b : RequestBody) : RequestBody :=
  let options := match assoc "stream_options"%string b with Some (Object m) => m | _ => [] end in
  let options := assoc_insert "include_usage"%string (Bool true) (assoc_swap_remove "continuous_usage_stats"%string options) in
  assoc_insert "stream_options"%string (Object options) b.

(** ** Headers *)

Record Header : Type := { hd_name : string; hd_value : bytes }.

Definition NON_FORWARDED_REQUEST_HEADERS : list string :=
  ["authorization"; "x-api-key"; "api-key"; "openai-organization"; "openai-project"; "cookie"; "host";
   "content-length"; "content-type"; "accept-encoding"]%string.
Definition NON_FORWARDED_RESPONSE_HEADERS : list string := ["content-length"; "content-encoding"; "set-cookie"]%string.
Definition HOP_BY_HOP_HEADERS : list string :=
  ["connection"; "keep-alive"; "proxy-connection"; "proxy-authenticate"; "proxy-authorization"; "te"; "trailer";
   "transfer-encoding"; "upgrade"]%string.
Definition str_elem (s : string) (l : list string) : bool := existsb (String.eqb s) l.

Definition forwards_request_header (name : string) : bool :=
  let name := to_ascii_lowercase name in
  negb (str_elem name NON_FORWARDED_REQUEST_HEADERS) && negb (str_elem name HOP_BY_HOP_HEADERS).
Definition forwards_response_header (name : string) : bool :=
  let name := to_ascii_lowercase name in
  negb (str_elem name NON_FORWARDED_RESPONSE_HEADERS) && negb (str_elem name HOP_BY_HOP_HEADERS).
Definition COMMA : ascii := char 44.
Definition connection_listed (headers : list Header) : list string :=
  flat_map (λ header,
      List.filter (λ name, negb (String.eqb name ""))
        (map (λ name, to_ascii_lowercase (trim name)) (split_char COMMA (from_utf8_lossy (hd_value header)))))
    (List.filter (λ header, eq_ignore_ascii_case (hd_name header) "connection") headers).
Definition forwarded (headers : list Header) (forwards : string → bool) : list Header :=
  let listed := connection_listed headers in
  List.filter (λ header, forwards (hd_name header) && negb (str_elem (to_ascii_lowercase (hd_name header)) listed)) headers.
Definition forwarded_request_headers (headers : list Header) : list Header := forwarded headers forwards_request_header.
Definition forwarded_response_headers (headers : list Header) : list Header := forwarded headers forwards_response_header.

Definition PROVIDER_HEADER_PREFIX : string := "llm_provider-".
Definition steers_client_retries (name : string) : bool :=
  let name := to_ascii_lowercase name in
  String.eqb name "retry-after" || String.eqb name "retry-after-ms" || starts_with "x-ratelimit-" name
  || starts_with "anthropic-ratelimit-" name.
Definition client_response_headers (headers : list Header) : list Header :=
  flat_map (λ header,
      (if steers_client_retries (hd_name header) then [header] else [])
      ++ [{| hd_name := PROVIDER_HEADER_PREFIX +:+ to_ascii_lowercase (hd_name header); hd_value := hd_value header |}])
    (forwarded_response_headers headers).

(** ** Frames *)

(** The event name and the joined data of a frame: the last name, all the data. *)
Definition frame_line (acc : option string * list string) (line : string) : option string * list string :=
  let '(name, data) := acc in
  match strip_prefix "event:" line with
  | Some rest => (Some (trim rest), data)
  | None =>
      match strip_prefix "data:" line with
      | Some rest => (name, data ++ [unwrap_or rest (strip_prefix " " rest)])
      | None => (name, data)
      end
  end.
Definition frame_parts (frame : string) : option string * string :=
  let '(name, data) := fold_left frame_line (lines frame) (None, []) in (name, str_join (of_bytes [LF]) data).

Record ResponseFacts : Type := {
  rf_model : option string; rf_text : string; rf_reasoning : string; rf_tool_call : bool; rf_media : bool;
  rf_finish_reason : option string; rf_done : bool; rf_error : option string;
}.
Definition no_facts : ResponseFacts := {|
  rf_model := None; rf_text := ""; rf_reasoning := ""; rf_tool_call := false; rf_media := false;
  rf_finish_reason := None; rf_done := false; rf_error := None |}.
Definition has_output (f : ResponseFacts) : bool :=
  negb (String.eqb (rf_text f) "") || negb (String.eqb (rf_reasoning f) "") || rf_tool_call f || rf_media f.
Definition has_visible_output (f : ResponseFacts) : bool :=
  negb (String.eqb (rf_text f) "") || rf_tool_call f || rf_media f.

(** Assignments to the fields. *)
Definition add_text (v : option string) (f : ResponseFacts) : ResponseFacts := {|
  rf_model := rf_model f; rf_text := rf_text f +:+ unwrap_or ""%string v; rf_reasoning := rf_reasoning f;
  rf_tool_call := rf_tool_call f; rf_media := rf_media f; rf_finish_reason := rf_finish_reason f; rf_done := rf_done f;
  rf_error := rf_error f |}.
Definition add_reasoning (v : option string) (f : ResponseFacts) : ResponseFacts := {|
  rf_model := rf_model f; rf_text := rf_text f; rf_reasoning := rf_reasoning f +:+ unwrap_or ""%string v;
  rf_tool_call := rf_tool_call f; rf_media := rf_media f; rf_finish_reason := rf_finish_reason f; rf_done := rf_done f;
  rf_error := rf_error f |}.
Definition or_tool_call (v : bool) (f : ResponseFacts) : ResponseFacts := {|
  rf_model := rf_model f; rf_text := rf_text f; rf_reasoning := rf_reasoning f; rf_tool_call := rf_tool_call f || v;
  rf_media := rf_media f; rf_finish_reason := rf_finish_reason f; rf_done := rf_done f; rf_error := rf_error f |}.
Definition or_media (v : bool) (f : ResponseFacts) : ResponseFacts := {|
  rf_model := rf_model f; rf_text := rf_text f; rf_reasoning := rf_reasoning f; rf_tool_call := rf_tool_call f;
  rf_media := rf_media f || v; rf_finish_reason := rf_finish_reason f; rf_done := rf_done f; rf_error := rf_error f |}.
Definition set_finish_reason (v : option string) (f : ResponseFacts) : ResponseFacts := {|
  rf_model := rf_model f; rf_text := rf_text f; rf_reasoning := rf_reasoning f; rf_tool_call := rf_tool_call f;
  rf_media := rf_media f; rf_finish_reason := v; rf_done := rf_done f; rf_error := rf_error f |}.
Definition set_model_fact (v : option string) (f : ResponseFacts) : ResponseFacts := {|
  rf_model := v; rf_text := rf_text f; rf_reasoning := rf_reasoning f; rf_tool_call := rf_tool_call f;
  rf_media := rf_media f; rf_finish_reason := rf_finish_reason f; rf_done := rf_done f; rf_error := rf_error f |}.
Definition set_done (f : ResponseFacts) : ResponseFacts := {|
  rf_model := rf_model f; rf_text := rf_text f; rf_reasoning := rf_reasoning f; rf_tool_call := rf_tool_call f;
  rf_media := rf_media f; rf_finish_reason := rf_finish_reason f; rf_done := true; rf_error := rf_error f |}.
Definition set_error (v : option string) (f : ResponseFacts) : ResponseFacts := {|
  rf_model := rf_model f; rf_text := rf_text f; rf_reasoning := rf_reasoning f; rf_tool_call := rf_tool_call f;
  rf_media := rf_media f; rf_finish_reason := rf_finish_reason f; rf_done := rf_done f; rf_error := v |}.

Definition string_at (field : string) (v : Value) : option string := let* x := get field v in as_str x.
Definition array_at (field : string) (v : Value) : list Value := unwrap_or [] (let* x := get field v in as_array x).
Definition type_of (v : Value) : string := unwrap_or ""%string (string_at "type" v).
Definition reported_model (v : Value) : option string :=
  let* model := string_at "model" v in let model := trim model in if String.eqb model "" then None else Some model.
Definition stated_error (v : Value) : option Value := non_null (get "error" v).
Definition error_detail (v : Value) : option string :=
  let error := unwrap_or v (stated_error v) in
  match as_str error with
  | Some detail => Some detail
  | None => head (omap (λ field, string_at field error) ["message"; "detail"; "code"; "type"]%string)
  end.

(** ** What a frame or a body states *)

Definition chat_reasoning (container : Value) : string :=
  let text := λ v, unwrap_or ""%string v in
  fold_left (λ acc detail, acc +:+ text (string_at "text" detail) +:+ text (string_at "summary" detail))
    (array_at "reasoning_details" container)
    (text (string_at "reasoning" container) +:+ text (string_at "reasoning_content" container)).
Definition non_empty_array (o : option Value) : bool :=
  match o with Some (Array (_ :: _)) => true | _ => false end.
Definition present (o : option Value) : bool := match o with Some v => negb (is_null v) | None => false end.

Definition content_part (facts : ResponseFacts) (part : Value) : ResponseFacts :=
  match string_at "text" part with
  | Some text => add_text (Some text) facts
  | None => or_media (negb (is_null part)) facts
  end.
Definition chat_container_facts (facts : ResponseFacts) (container : Value) : ResponseFacts :=
  let facts := match get "content" container with
               | Some (Str text) => add_text (Some text) facts
               | Some (Array parts) => fold_left content_part parts facts
               | _ => facts
               end in
  let facts := add_text (string_at "refusal" container) facts in
  let facts := or_media (present (get "audio" container) || non_empty_array (get "images" container)) facts in
  let facts := add_reasoning (Some (chat_reasoning container)) facts in
  or_tool_call (non_empty_array (get "tool_calls" container) || present (get "function_call" container)) facts.
Definition chat_choice_facts (field : string) (facts : ResponseFacts) (choice : Value) : ResponseFacts :=
  let facts := match get field choice with Some container => chat_container_facts facts container | None => facts end in
  match string_at "finish_reason" choice with Some reason => set_finish_reason (Some reason) facts | None => facts end.
Definition error_of (v : Value) : option string := Some (unwrap_or ""%string (error_detail v)).
Definition chat_choices_facts (value : Value) (field : string) : ResponseFacts :=
  let facts := set_error (match stated_error value with Some _ => error_of value | None => None end)
                 (set_model_fact (reported_model value) no_facts) in
  fold_left (chat_choice_facts field) (array_at "choices" value) facts.
Definition chat_chunk_facts (value : Value) : ResponseFacts := chat_choices_facts value "delta".
Definition chat_completion_facts (value : Value) : ResponseFacts := chat_choices_facts value "message".

(** The output of an event of the Responses API, by its kind. *)
Definition responses_kind_facts (kind : string) (value : Value) : ResponseFacts :=
  if str_elem kind ["response.output_text.delta"; "response.refusal.delta"]%string then
    add_text (string_at "delta" value) no_facts
  else if str_elem kind ["response.reasoning_text.delta"; "response.reasoning_summary_text.delta"]%string then
    add_reasoning (string_at "delta" value) no_facts
  else if String.eqb kind "response.function_call_arguments.delta" then or_tool_call true no_facts
  else if String.eqb kind "response.image_generation_call.partial_image" then or_media true no_facts
  else if ends_with ".delta" kind then
    if contains "_call" kind then or_tool_call true no_facts else or_media true no_facts
  else if String.eqb kind "response.output_item.added" then
    or_tool_call (match (let* item := get "item" value in string_at "type" item) with
                  | Some kind => ends_with "_call" kind | None => false end) no_facts
  else if String.eqb kind "error" then set_error (error_of value) no_facts
  else no_facts.
Definition responses_event_facts (value : Value) : ResponseFacts :=
  let kind := type_of value in
  let facts := responses_kind_facts kind value in
  match get "response" value with
  | None => facts
  | Some response =>
      let facts := set_model_fact (reported_model response) facts in
      if str_elem kind ["response.completed"; "response.incomplete"; "response.failed"]%string then
        let facts := set_finish_reason (string_at "status" response) (set_done facts) in
        if String.eqb kind "response.failed" then
          set_error (Some (unwrap_or ""%string (let* _e := stated_error response in error_detail response))) facts
        else facts
      else facts
  end.

Definition message_part (facts : ResponseFacts) (part : Value) : ResponseFacts :=
  match string_at "text" part, string_at "refusal" part with
  | None, None => or_media (negb (is_null part)) facts
  | text, refusal => add_text refusal (add_text text facts)
  end.
Definition output_item (facts : ResponseFacts) (item : Value) : ResponseFacts :=
  let kind := type_of item in
  if String.eqb kind "message" then fold_left message_part (array_at "content" item) facts
  else if String.eqb kind "reasoning" then
    fold_left (λ facts part, add_reasoning (string_at "text" part) facts)
      (array_at "summary" item ++ array_at "content" item) facts
  else if ends_with "_call" kind then or_tool_call true facts
  else facts.
Definition responses_object_facts (value : Value) : ResponseFacts :=
  let facts := set_error (match stated_error value with Some _ => error_of value | None => None end)
                 (set_finish_reason (string_at "status" value) (set_model_fact (reported_model value) no_facts)) in
  fold_left output_item (array_at "output" value) facts.

Definition messages_event_facts (value : Value) : ResponseFacts :=
  let kind := type_of value in
  if String.eqb kind "message_start" then
    match get "message" value with Some message => set_model_fact (reported_model message) no_facts | None => no_facts end
  else if String.eqb kind "content_block_start" then
    let kind := unwrap_or ""%string (let* block := get "content_block" value in string_at "type" block) in
    if ends_with "tool_use" kind then or_tool_call true no_facts
    else if str_elem kind [""; "text"; "thinking"]%string then no_facts
    else or_media true no_facts
  else if String.eqb kind "content_block_delta" then
    match get "delta" value with
    | None => no_facts
    | Some delta =>
        let kind := type_of delta in
        if String.eqb kind "text_delta" then add_text (string_at "text" delta) no_facts
        else if String.eqb kind "thinking_delta" then add_reasoning (string_at "thinking" delta) no_facts
        else if String.eqb kind "input_json_delta" then or_tool_call true no_facts
        else if str_elem kind ["signature_delta"; "citations_delta"; ""]%string then no_facts
        else or_media true no_facts
    end
  else if String.eqb kind "message_delta" then
    set_finish_reason (let* delta := get "delta" value in string_at "stop_reason" delta) no_facts
  else if String.eqb kind "message_stop" then set_done no_facts
  else if String.eqb kind "error" then set_error (error_of value) no_facts
  else no_facts.

Definition content_block (facts : ResponseFacts) (block : Value) : ResponseFacts :=
  let kind := type_of block in
  if String.eqb kind "text" then add_text (string_at "text" block) facts
  else if String.eqb kind "thinking" then add_reasoning (string_at "thinking" block) facts
  else if ends_with "tool_use" kind then or_tool_call true facts
  else if String.eqb kind "" then facts
  else or_media true facts.
Definition messages_object_facts (value : Value) : ResponseFacts :=
  let stated := bool_decide (string_at "type" value = Some "error"%string) || bool_decide (is_Some (stated_error value)) in
  let facts := set_error (if stated then error_of value else None)
                 (set_finish_reason (string_at "stop_reason" value) (set_model_fact (reported_model value) no_facts)) in
  fold_left content_block (array_at "content" value) facts.

Inductive Frame : Type := FrameEmpty | FrameDone | FrameEvent (value : Value) (facts : ResponseFacts).

Definition event_facts (format : ApiFormat) (value : Value) : ResponseFacts :=
  match format with
  | ChatCompletions => chat_chunk_facts value
  | Responses => responses_event_facts value
  | Messages => messages_event_facts value
  end.

Section Parse.
Context (from_str : string → Result string Value).
Definition parse_frame (format : ApiFormat) (frame : string) : Result string Frame :=
  let '(name, data) := frame_parts frame in
  if String.eqb data "" then Ok FrameEmpty
  else if String.eqb (trim data) "[DONE]" then Ok FrameDone
  else
    let? value := map_err (λ error, ("malformed provider SSE JSON: " +:+ error)%string) (from_str data) in
    let facts := event_facts format value in
    let facts := match name, rf_error facts with
                 | Some name, None => if String.eqb name "error" then set_error (error_of value) facts else facts
                 | _, _ => facts
                 end in
    Ok (FrameEvent value facts).
End Parse.

Definition inspect_body (format : ApiFormat) (value : Value) : ResponseFacts :=
  set_done (match format with
            | ChatCompletions => chat_completion_facts value
            | Responses => responses_object_facts value
            | Messages => messages_object_facts value
            end).

(** ** No credential travels *)

Lemma str_elem_true s l : str_elem s l = true ↔ s ∈ l.
Proof.
  unfold str_elem. rewrite existsb_exists. split.
  - intros (x & Hx & ->%String.eqb_eq). by apply list_elem_of_In.
  - intros Hs. exists s. split; [by apply list_elem_of_In|apply String.eqb_refl].
Qed.

Lemma str_elem_false s l : str_elem s l = false ↔ s ∉ l.
Proof. rewrite <- not_true_iff_false, str_elem_true. done. Qed.

Lemma elem_of_forwarded headers forwards h :
  h ∈ forwarded headers forwards ↔
  h ∈ headers ∧ forwards (hd_name h) = true ∧ to_ascii_lowercase (hd_name h) ∉ connection_listed headers.
Proof.
  unfold forwarded. rewrite list_elem_of_In, filter_In, andb_true_iff, negb_true_iff, str_elem_false, <- list_elem_of_In. tauto.
Qed.

Lemma elem_of_connection_listed headers name :
  name ∈ connection_listed headers ↔
  ∃ c part, c ∈ headers ∧ eq_ignore_ascii_case (hd_name c) "connection" = true ∧
    part ∈ split_char COMMA (from_utf8_lossy (hd_value c)) ∧ name = to_ascii_lowercase (trim part) ∧ name ≠ ""%string.
Proof.
  unfold connection_listed. rewrite list_elem_of_In, in_flat_map. split.
  - intros (c & [Hc Hconn]%filter_In & [Hn Hne]%filter_In). apply in_map_iff in Hn as (part & <- & Hpart).
    exists c, part. rewrite !list_elem_of_In. apply negb_true_iff, String.eqb_neq in Hne. done.
  - intros (c & part & Hc & Hconn & Hpart & -> & Hne). exists c. rewrite !filter_In, <- !list_elem_of_In.
    split; [done|]. split; [|by apply negb_true_iff, String.eqb_neq].
    rewrite list_elem_of_In in Hpart. apply list_elem_of_In, in_map_iff. eauto.
Qed.

Lemma lower_names name : name ∈ NON_FORWARDED_REQUEST_HEADERS ++ HOP_BY_HOP_HEADERS → to_ascii_lowercase name = name.
Proof.
  assert (forallb (λ n, String.eqb (to_ascii_lowercase n) n) (NON_FORWARDED_REQUEST_HEADERS ++ HOP_BY_HOP_HEADERS) = true) as H
    by (vm_compute; reflexivity).
  intros Hn%list_elem_of_In. rewrite forallb_forall in H. by apply String.eqb_eq, H.
Qed.

Lemma ignore_case_false a b : eq_ignore_ascii_case a b = false ↔ to_ascii_lowercase a ≠ to_ascii_lowercase b.
Proof. rewrite <- not_true_iff_false, eq_ignore_ascii_case_spec. done. Qed.

(** Of the client's headers exactly those travel to the seller that are no credential,
    account binding, cookie or transport header, whatever the case of their names, and that
    no [Connection] header of the request lists. *)
Theorem credentials_stay_home headers h :
  h ∈ forwarded_request_headers headers ↔
  h ∈ headers ∧
  (∀ name, name ∈ NON_FORWARDED_REQUEST_HEADERS ++ HOP_BY_HOP_HEADERS → eq_ignore_ascii_case (hd_name h) name = false) ∧
  (∀ c part, c ∈ headers → eq_ignore_ascii_case (hd_name c) "connection" = true →
     part ∈ split_char COMMA (from_utf8_lossy (hd_value c)) → to_ascii_lowercase (trim part) ≠ ""%string →
     eq_ignore_ascii_case (hd_name h) (trim part) = false).
Proof.
  unfold forwarded_request_headers. rewrite elem_of_forwarded. unfold forwards_request_header.
  rewrite andb_true_iff, !negb_true_iff, !str_elem_false. split.
  - intros (Hh & [H1 H2] & H3). split_and!; [done| |].
    + intros name Hname. apply ignore_case_false. rewrite (lower_names _ Hname). intros Heq.
      apply elem_of_app in Hname as [Hname|Hname]; rewrite <- Heq in Hname; done.
    + intros c part Hc Hconn Hpart Hne. apply ignore_case_false. intros Heq. apply H3, elem_of_connection_listed.
      exists c, part. by rewrite Heq.
  - intros (Hh & H1 & H2). split_and!; [done| | |].
    + intros Hin. assert (to_ascii_lowercase (hd_name h) ∈ NON_FORWARDED_REQUEST_HEADERS ++ HOP_BY_HOP_HEADERS) as Hin'
        by (apply elem_of_app; by left).
      specialize (H1 _ Hin'). apply ignore_case_false in H1. by rewrite to_ascii_lowercase_idemp in H1.
    + intros Hin. assert (to_ascii_lowercase (hd_name h) ∈ NON_FORWARDED_REQUEST_HEADERS ++ HOP_BY_HOP_HEADERS) as Hin'
        by (apply elem_of_app; by right).
      specialize (H1 _ Hin'). apply ignore_case_false in H1. by rewrite to_ascii_lowercase_idemp in H1.
    + intros (c & part & Hc & Hconn & Hpart & Heq & Hne)%elem_of_connection_listed. rewrite Heq in Hne.
      specialize (H2 c part Hc Hconn Hpart Hne). by apply ignore_case_false in H2.
Qed.
