(* ===== verification/SseFrames.v ===== *)
(** * Server-Sent Events frames

    crates/dexdo/src/api_format.rs: [SseFrames] splits the provider's byte stream into frames
    that end with two line feeds, however the reads cut the stream.  [split_frames] is the
    specification on the whole stream; [push] implements it although it searches every byte
    once only, and although a frame end may straddle two reads. *)
From S2P Require Import Prelude RustText.
From Stdlib Require Import Strings.Ascii.

Definition UPSTREAM_RESPONSE_BODY_MAX_BYTES : Z := 32 * 1024 * 1024.
Definition UPSTREAM_SSE_FRAME_MAX_BYTES : Z := UPSTREAM_RESPONSE_BODY_MAX_BYTES.

Record SseFrames : Type := { sf_buffer : bytes; sf_scanned : nat }.
Definition SseFrames_default : SseFrames := {| sf_buffer := []; sf_scanned := 0 |}.
Record SseFrame : Type := { fr_bytes : bytes; fr_text : string }.

Definition is_lf (c : ascii) : bool := Ascii.eqb c LF.
(** [windows(2).position(|w| w == "\n\n")]. *)
Fixpoint find_end (b : bytes) : option nat :=
  match b with
  | c :: ((d :: _) as rest) => if is_lf c && is_lf d then Some 0%nat else option_map S (find_end rest)
  | _ => None
  end.

(** The loop of [push]: every round drains a frame of at least two bytes. *)
Fixpoint push_loop (fuel : nat) (st : SseFrames) (frames : list SseFrame) : Result string (list SseFrame) * SseFrames :=
  match fuel with
  | O => (Ok frames, st)
  | S fuel =>
      let from := (sf_scanned st - 1)%nat in
      match find_end (drop from (sf_buffer st)) with
      | None => (Ok frames, {| sf_buffer := sf_buffer st; sf_scanned := length (sf_buffer st) |})
      | Some found =>
          let boundary := (from + found)%nat in
          let bytes := take (boundary + 2) (sf_buffer st) in
          let st := {| sf_buffer := drop (boundary + 2) (sf_buffer st); sf_scanned := 0 |} in
          match from_utf8 (take boundary bytes) with
          | None => (Err "provider SSE frame is not valid UTF-8"%string, st)
          | Some text => push_loop fuel st (frames ++ [{| fr_bytes := bytes; fr_text := text |}])
          end
      end
  end.
Definition push (chunk : bytes) (st : SseFrames) : Result string (list SseFrame) * SseFrames :=
  let st := {| sf_buffer := sf_buffer st ++ chunk; sf_scanned := sf_scanned st |} in
  match push_loop (S (length (sf_buffer st))) st [] with
  | (Ok frames, st) =>
      if Z.of_nat (length (sf_buffer st)) >? UPSTREAM_SSE_FRAME_MAX_BYTES
      then (Err "provider SSE frame exceeds buffer cap"%string, st) else (Ok frames, st)
  | err => err
  end.
Definition take_rest (st : SseFrames) : bytes * SseFrames := (sf_buffer st, SseFrames_default).
Definition is_empty_frames (st : SseFrames) : bool := match sf_buffer st with [] => true | _ => false end.

(** ** The frames of a whole stream *)

Fixpoint split_go (fuel : nat) (b : bytes) : list bytes * bytes :=
  match fuel with
  | O => ([], b)
  | S fuel =>
      match find_end b with
      | None => ([], b)
      | Some n => let '(frames, rest) := split_go fuel (drop (n + 2) b) in (take n b :: frames, rest)
      end
  end.
(** The texts of the frames, and the unfinished rest. *)
Definition split_frames (b : bytes) : list bytes * bytes := split_go (length b) b.

#[global] Arguments split_frames : simpl never.

Definition frame_of (text : bytes) : SseFrame := {| fr_bytes := text ++ [LF; LF]; fr_text := of_bytes text |}.

(** ** The search for a frame end *)

Lemma is_lf_true c : is_lf c = true ↔ c = LF.
Proof. unfold is_lf. apply Ascii.eqb_eq. Qed.

(** A frame end at a position. *)
Definition end_at (n : nat) (b : bytes) : Prop := b !! n = Some LF ∧ b !! S n = Some LF.

Lemma find_end_cons c d b : find_end (c :: d :: b) = if is_lf c && is_lf d then Some 0%nat else option_map S (find_end (d :: b)).
Proof. done. Qed.
Lemma find_end_spec b :
  match find_end b with
  | Some n => end_at n b ∧ ∀ k, (k < n)%nat → ¬ end_at k b
  | None => ∀ k, ¬ end_at k b
  end.
Proof.
  unfold end_at. induction b as [|c [|d b] IH]; [| |rewrite find_end_cons].
  - intros k [Hk _]. by destruct k.
  - intros k [_ Hk]. by destruct k.
  - destruct (is_lf c && is_lf d) eqn:Hc.
    + apply andb_true_iff in Hc as [->%is_lf_true ->%is_lf_true]. split; [done|lia].
    + assert (¬ (Some c = Some LF ∧ Some d = Some LF)) as Hno.
      { intros [[= ->] [= ->]]. by rewrite (proj2 (is_lf_true LF) eq_refl) in Hc. }
      destruct (find_end (d :: b)) as [n|]; cbn [option_map].
      * destruct IH as [Hend Hmin]. split; [done|]. intros [|k] Hk; [done|]. apply Hmin. lia.
      * intros [|k]; [done|]. apply IH.
Qed.
Lemma find_end_intro b n : end_at n b → (∀ k, (k < n)%nat → ¬ end_at k b) → find_end b = Some n.
Proof.
  intros Hend Hmin. pose proof (find_end_spec b) as Hs. destruct (find_end b) as [m|]; [|by destruct (Hs n)].
  destruct Hs as [Hm Hmin']. f_equal. destruct (Nat.lt_trichotomy m n) as [Hl|[->|Hl]]; [|done|].
  - by destruct (Hmin m Hl). - by destruct (Hmin' n Hl).
Qed.
Lemma find_end_None b : (∀ k, ¬ end_at k b) → find_end b = None.
Proof. intros Hno. pose proof (find_end_spec b) as Hs. destruct (find_end b) as [m|]; [|done]. by destruct (Hno m), Hs. Qed.
Lemma find_end_bound b n : find_end b = Some n → (n + 2 ≤ length b)%nat.
Proof. intros Hn. pose proof (find_end_spec b) as Hs. rewrite Hn in Hs. destruct Hs as [[_ Hl] _]. apply lookup_lt_Some in Hl. lia. Qed.
Lemma find_end_take b n : find_end b = Some n → take (n + 2) b = take n b ++ [LF; LF].
Proof.
  intros Hn. pose proof (find_end_spec b) as Hs. rewrite Hn in Hs. destruct Hs as [[H1 H2] _].
  replace (n + 2)%nat with (S (S n)) by lia. rewrite (take_S_r _ _ _ H2), (take_S_r _ _ _ H1). by rewrite <- app_assoc.
Qed.

Lemma end_at_drop m n b : end_at n (drop m b) ↔ end_at (m + n) b.
Proof. unfold end_at. rewrite !lookup_drop. by rewrite Nat.add_succ_r. Qed.
Lemma end_at_app n b c : end_at n b → end_at n (b ++ c).
Proof. intros [H1 H2]. split; by apply lookup_app_l_Some. Qed.
Lemma end_at_app_inv n b c : (S n < length b)%nat → end_at n (b ++ c) → end_at n b.
Proof. intros Hl [H1 H2]. rewrite lookup_app_l in H1, H2 by lia. done. Qed.

(** The search may skip what was searched before, but one byte. *)
Lemma find_end_skip b scanned :
  (∀ k, (S k < scanned)%nat → ¬ end_at k b) →
  find_end b = option_map (λ n, (scanned - 1 + n)%nat) (find_end (drop (scanned - 1) b)).
Proof.
  intros Hno. pose proof (find_end_spec (drop (scanned - 1) b)) as Hs.
  destruct (find_end (drop (scanned - 1) b)) as [n|]; cbn.
  - destruct Hs as [Hend Hmin]. apply find_end_intro; [by apply end_at_drop|]. intros k Hk Hat.
    destruct (decide (S k < scanned)%nat) as [|Hge]; [by eapply Hno|].
    apply (Hmin (k - (scanned - 1))%nat); [lia|]. apply end_at_drop. by replace (scanned - 1 + (k - (scanned - 1)))%nat with k by lia.
  - apply find_end_None. intros k Hat. destruct (decide (S k < scanned)%nat) as [|Hge]; [by eapply Hno|].
    apply (Hs (k - (scanned - 1))%nat). apply end_at_drop. by replace (scanned - 1 + (k - (scanned - 1)))%nat with k by lia.
Qed.
Lemma find_end_app b c n : find_end b = Some n → find_end (b ++ c) = Some n.
Proof.
  intros Hn. pose proof (find_end_bound _ _ Hn). pose proof (find_end_spec b) as Hs. rewrite Hn in Hs. destruct Hs as [Hend Hmin].
  apply find_end_intro; [by apply end_at_app|]. intros k Hk Hat. apply (Hmin k Hk), (end_at_app_inv k b c); [lia|done].
Qed.

(** ** The specification *)

Lemma split_go_enough f1 f2 b : (length b ≤ f1)%nat → (length b ≤ f2)%nat → split_go f1 b = split_go f2 b.
Proof.
  revert f2 b. induction f1 as [|f1 IH]; intros [|f2] b H1 H2; cbn.
  - done.
  - destruct b; [done|cbn in H1; lia].
  - destruct b; [done|cbn in H2; lia].
  - destruct (find_end b) as [n|] eqn:Hn; [|done]. apply find_end_bound in Hn.
    rewrite (IH f2 (drop (n + 2) b)); [done|rewrite length_drop; lia..].
Qed.
Lemma split_frames_none b : find_end b = None → split_frames b = ([], b).
Proof. intros Hn. unfold split_frames. destruct (length b); cbn; [done|]. by rewrite Hn. Qed.
Lemma split_frames_step b n :
  find_end b = Some n →
  split_frames b = (take n b :: (split_frames (drop (n + 2) b)).1, (split_frames (drop (n + 2) b)).2).
Proof.
  intros Hn. pose proof (find_end_bound _ _ Hn) as Hb. unfold split_frames at 1. destruct (length b) as [|m] eqn:Hm; [lia|].
  cbn. rewrite Hn. rewrite (split_go_enough m (length (drop (n + 2) b))) by (rewrite length_drop; lia).
  fold (split_frames (drop (n + 2) b)). by destruct (split_frames (drop (n + 2) b)).
Qed.

(** The specification on a stream that is read on: only the unfinished rest is split again. *)
Lemma split_frames_app b c :
  split_frames (b ++ c) = ((split_frames b).1 ++ (split_frames ((split_frames b).2 ++ c)).1, (split_frames ((split_frames b).2 ++ c)).2).
Proof.
  remember (length b) as m eqn:Hm. revert b Hm. induction (lt_wf m) as [m _ IH]. intros b ->.
  destruct (find_end b) as [n|] eqn:Hn.
  - pose proof (find_end_bound _ _ Hn) as Hb.
    rewrite (split_frames_step (b ++ c) n) by (by apply find_end_app). rewrite (split_frames_step b n Hn). cbn.
    rewrite take_app_le, drop_app_le by lia. by rewrite (IH (length (drop (n + 2) b))) by (done || (rewrite length_drop; lia)).
  - rewrite (split_frames_none b Hn). apply surjective_pairing.
Qed.
(** Nothing is lost: the frames with their ends, and the rest, are the stream. *)
Lemma split_frames_concat b :
  List.concat (map (λ t, t ++ [LF; LF]) (split_frames b).1) ++ (split_frames b).2 = b.
Proof.
  remember (length b) as m eqn:Hm. revert b Hm. induction (lt_wf m) as [m _ IH]. intros b ->.
  destruct (find_end b) as [n|] eqn:Hn; [|by rewrite (split_frames_none b Hn)].
  rewrite (split_frames_step b n Hn). cbn [map List.concat fst snd]. pose proof (find_end_bound _ _ Hn).
  rewrite <- (find_end_take b n Hn), <- app_assoc, (IH (length (drop (n + 2) b))) by (done || (rewrite length_drop; lia)).
  apply take_drop.
Qed.
Lemma split_frames_rest b : find_end (split_frames b).2 = None.
Proof.
  remember (length b) as m eqn:Hm. revert b Hm. induction (lt_wf m) as [m _ IH]. intros b ->.
  destruct (find_end b) as [n|] eqn:Hn; [|by rewrite (split_frames_none b Hn)].
  rewrite (split_frames_step b n Hn). cbn [map List.concat fst snd]. pose proof (find_end_bound _ _ Hn).
  apply (IH (length (drop (n + 2) b))); [rewrite length_drop; lia|done].
Qed.

(** A frame holds no frame end but its own. *)
Lemma split_frames_ends b : Forall (λ t, find_end (t ++ [LF; LF]) = Some (length t)) (split_frames b).1.
Proof.
  remember (length b) as m eqn:Hm. revert b Hm. induction (lt_wf m) as [m _ IH]. intros b ->.
  destruct (find_end b) as [n|] eqn:Hn; [|rewrite (split_frames_none b Hn); constructor].
  rewrite (split_frames_step b n Hn). pose proof (find_end_bound _ _ Hn). constructor.
  - rewrite length_take_le by lia. rewrite <- (find_end_take b n Hn). pose proof (find_end_spec b) as Hs. rewrite Hn in Hs.
    destruct Hs as [Hend Hmin]. rewrite <- (take_drop (n + 2) b) in Hend. apply find_end_intro.
    + apply end_at_app_inv in Hend; [done|rewrite length_take_le; lia].
    + intros k Hk Hat. apply (Hmin k Hk). rewrite <- (take_drop (n + 2) b). by apply end_at_app.
  - apply (IH (length (drop (n + 2) b))); [rewrite length_drop; lia|done].
Qed.

(** ** The reader *)

(** The frames of [b] are texts, which is what the reader asks of them. *)
Definition all_utf8 (b : bytes) : Prop := Forall (λ t, utf8_valid t = true) (split_frames b).1.
Definition scanned_ok (st : SseFrames) : Prop := ∀ k, (S k < sf_scanned st)%nat → ¬ end_at k (sf_buffer st).

Lemma push_loop_spec fuel st frames :
  scanned_ok st → (length (sf_buffer st) < fuel)%nat →
  match push_loop fuel st frames with
  | (Ok out, st') =>
      out = frames ++ map frame_of (split_frames (sf_buffer st)).1 ∧
      st' = {| sf_buffer := (split_frames (sf_buffer st)).2; sf_scanned := length (split_frames (sf_buffer st)).2 |} ∧
      all_utf8 (sf_buffer st)
  | (Err _, _) => ¬ all_utf8 (sf_buffer st)
  end.
Proof.
  unfold all_utf8. revert st frames. induction fuel as [|fuel IH]; intros st frames Hs Hf; [lia|]. cbn.
  pose proof (find_end_skip (sf_buffer st) (sf_scanned st) Hs) as Hskip.
  destruct (find_end (drop (sf_scanned st - 1) (sf_buffer st))) as [n|]; cbn in Hskip.
  - set (boundary := (sf_scanned st - 1 + n)%nat) in *. set (b := sf_buffer st) in *.
    pose proof (find_end_bound _ _ Hskip) as Hb. rewrite (split_frames_step b boundary Hskip). cbn [fst snd map].
    rewrite take_take. replace (boundary `min` (boundary + 2))%nat with boundary by lia.
    unfold from_utf8. destruct (utf8_valid (take boundary b)) eqn:Hv.
    + assert (scanned_ok {| sf_buffer := drop (boundary + 2) b; sf_scanned := 0 |}) as Hs' by (intros k; cbn; lia).
      specialize (IH _ (frames ++ [{| fr_bytes := take (boundary + 2) b; fr_text := of_bytes (take boundary b) |}])
                    Hs' ltac:(cbn; rewrite length_drop; lia)). cbn [sf_buffer] in IH. revert IH.
      destruct (push_loop fuel _ _) as [[out|e] st'].
      * intros (-> & -> & Hall). split_and!; [|done|by constructor].
        rewrite <- app_assoc. cbn [app]. unfold frame_of at 2. by rewrite <- (find_end_take b boundary Hskip).
      * intros IH Hall. apply IH. by inversion Hall.
    + intros Hall. inversion Hall. congruence.
  - rewrite (split_frames_none _ Hskip). split_and!; [by rewrite app_nil_r|done|constructor].
Qed.

Lemma scanned_ok_append st chunk :
  (sf_scanned st ≤ length (sf_buffer st))%nat → scanned_ok st →
  scanned_ok {| sf_buffer := sf_buffer st ++ chunk; sf_scanned := sf_scanned st |}.
Proof. intros Hl Hs k Hk Hat. apply (Hs k Hk). apply (end_at_app_inv k _ chunk); [cbn in Hk; lia|done]. Qed.

(** The state between reads: everything buffered was searched. *)
Definition at_rest (st : SseFrames) (rest : bytes) : Prop :=
  sf_buffer st = rest ∧ (sf_scanned st ≤ length rest)%nat ∧ scanned_ok st.
Lemma at_rest_default : at_rest SseFrames_default [].
Proof. split_and!; [done|done|]. intros k Hk. cbn in Hk. lia. Qed.

Lemma push_spec chunk st rest :
  at_rest st rest →
  match push chunk st with
  | (Ok out, st') =>
      out = map frame_of (split_frames (rest ++ chunk)).1 ∧ at_rest st' (split_frames (rest ++ chunk)).2 ∧
      all_utf8 (rest ++ chunk) ∧ Z.of_nat (length (split_frames (rest ++ chunk)).2) ≤ UPSTREAM_SSE_FRAME_MAX_BYTES
  | (Err _, _) => ¬ (all_utf8 (rest ++ chunk) ∧ Z.of_nat (length (split_frames (rest ++ chunk)).2) ≤ UPSTREAM_SSE_FRAME_MAX_BYTES)
  end.
Proof.
  intros (<- & Hl & Hs). unfold push. cbn [sf_buffer].
  pose proof (push_loop_spec (S (length (sf_buffer st ++ chunk))) {| sf_buffer := sf_buffer st ++ chunk; sf_scanned := sf_scanned st |} []
                (scanned_ok_append st chunk Hl Hs) ltac:(cbn; lia)) as H. cbn [sf_buffer] in H. revert H.
  destruct (push_loop _ _ _) as [[out|e] st']; cbn [app].
  - intros (-> & -> & Hall). cbn [sf_buffer]. destruct (_ >? _) eqn:Hcap; [intros [_ Hle]; lia|].
    split_and!; [done| |done|lia]. split_and!; [done|cbn; lia|]. intros k _ Hat. cbn [sf_buffer] in Hat.
    pose proof (find_end_spec (split_frames (sf_buffer st ++ chunk)).2) as Hf. rewrite split_frames_rest in Hf. by apply (Hf k).
  - intros H [Hall _]. by apply H.
Qed.

(** Reading a stream in chunks: the frames of all reads. *)
Fixpoint push_all (chunks : list bytes) (st : SseFrames) : Result string (list SseFrame) * SseFrames :=
  match chunks with
  | [] => (Ok [], st)
  | chunk :: chunks =>
      match push chunk st with
      | (Ok frames, st) =>
          match push_all chunks st with
          | (Ok more, st) => (Ok (frames ++ more), st)
          | err => err
          end
      | err => err
      end
  end.


Lemma all_utf8_app b c : all_utf8 (b ++ c) ↔ all_utf8 b ∧ all_utf8 ((split_frames b).2 ++ c).
Proof. unfold all_utf8. rewrite split_frames_app. cbn [fst]. apply Forall_app. Qed.

(** Every prefix of the reads leaves a rest within the cap. *)
Fixpoint rests_fit (rest : bytes) (chunks : list bytes) : Prop :=
  match chunks with
  | [] => True
  | chunk :: chunks =>
      Z.of_nat (length (split_frames (rest ++ chunk)).2) ≤ UPSTREAM_SSE_FRAME_MAX_BYTES ∧
      rests_fit (split_frames (rest ++ chunk)).2 chunks
  end.

Lemma push_all_spec chunks st rest :
  at_rest st rest → find_end rest = None →
  match push_all chunks st with
  | (Ok out, st') =>
      out = map frame_of (split_frames (rest ++ List.concat chunks)).1 ∧
      at_rest st' (split_frames (rest ++ List.concat chunks)).2 ∧
      all_utf8 (rest ++ List.concat chunks) ∧ rests_fit rest chunks
  | (Err _, _) => ¬ (all_utf8 (rest ++ List.concat chunks) ∧ rests_fit rest chunks)
  end.
Proof.
  revert st rest. induction chunks as [|chunk chunks IH]; intros st rest Hst Hn; cbn [push_all List.concat rests_fit].
  { unfold all_utf8. rewrite app_nil_r, (split_frames_none _ Hn). split_and!; [done|done|constructor|done]. }
  pose proof (push_spec chunk st rest Hst) as Hp. pose proof (split_frames_rest (rest ++ chunk)) as Hn'.
  rewrite app_assoc, split_frames_app. pose proof (all_utf8_app (rest ++ chunk) (List.concat chunks)) as Hu.
  cbn [fst snd]. revert Hp.
  destruct (push chunk st) as [[out|e] st']; [|intros Hp (Hx & [??]); apply Hp; by apply Hu in Hx as [??]].
  intros (-> & Hst' & Hall & Hfit). specialize (IH st' _ Hst' Hn'). revert IH.
  destruct (push_all chunks st') as [[more|e] st'']; [|intros IH (Hx & [??]); apply IH; by apply Hu in Hx as [??]].
  intros (-> & Hst'' & Hall' & Hfits). split_and!; [by rewrite map_app|done|by apply Hu|done|done].
Qed.

(** ** Properties *)

(** C30: how the network cuts the provider's stream does not matter: reading the chunks
    succeeds exactly when every frame of the whole stream is valid UTF-8 and no unfinished
    frame outgrows the cap; then the frames are those of the whole stream, in order, each with
    its exact bytes, its text and no frame end but its own, and the frames with the buffered
    rest are the stream, byte for byte. *)
Theorem chunking_is_irrelevant chunks :
  let stream := List.concat chunks in
  match push_all chunks SseFrames_default with
  | (Ok out, st) =>
      all_utf8 stream ∧ rests_fit [] chunks ∧
      out = map frame_of (split_frames stream).1 ∧ sf_buffer st = (split_frames stream).2 ∧
      Forall (λ fr, find_end (fr_bytes fr) = Some (length (to_bytes (fr_text fr)))) out ∧
      List.concat (map fr_bytes out) ++ sf_buffer st = stream
  | (Err _, _) => ¬ (all_utf8 stream ∧ rests_fit [] chunks)
  end.
Proof.
  intros stream. pose proof (push_all_spec chunks SseFrames_default [] at_rest_default eq_refl) as Hs. cbn [app] in Hs.
  fold stream in Hs. revert Hs. destruct (push_all chunks SseFrames_default) as [[out|e] st]; [|done].
  intros (-> & (Hb & _ & _) & Hall & Hfit). split_and!; [done|done|done|done| |].
  - apply Forall_map. eapply Forall_impl; [apply split_frames_ends|]. intros t Ht. cbn. unfold to_bytes, of_bytes.
    by rewrite String.list_ascii_of_string_of_list_ascii.
  - rewrite Hb, map_map. cbn. apply split_frames_concat.
Qed.
