(* ===== verification/Params.v ===== *)
(** * Protocol parameters: crates/core/src/params.rs

    The constants the modelled components use, the price and gas arithmetic, the protocol
    constants of a deal and the claim-size limit.  A [Duration] is its number of whole
    seconds: every duration of the modelled code is built by [from_secs] and read back by
    [as_secs].

    The second part reads and prints SHELL figures: a decimal with at most nine fractional
    digits is exactly a number of raw units, and every figure that is printed reads back. *)
From S2P Require Import Prelude RustText.
From Stdlib Require Import Strings.Ascii.

(** [Shell] is [u64], a count of minimal units. *)
Abbreviation Shell := Z (only parsing).
Definition SHELL_MAX : Z := umax u64.

Record Duration : Type := from_secs { as_secs : Z }.

(** ** Constants *)

Definition SHELL_UNIT : Z := 1000000000.
Definition PRICE_STEP : Z := 1000000000.
Definition MAX_NOTE_NOMINAL_SHELL : Z := 1000000.
Definition MIN_NOTE_TRANSFER_SHELL_RAW : Z := 10000000.
Definition ROOT_PN_GAS_DEPOSIT_RAW : Z := 250000000000.
Definition MIN_STREAM_BUY_TICKS : Z := 2.
Definition TICK_SIZE : Z := 1000000.
Definition PROBE_SEED_TOKENS : Z := TICK_SIZE.
Definition PLATFORM_FEE_BPS : Z := 250.
Definition MAX_CLAIM_DELTA : Z := TICK_SIZE.
Definition SUB_WEEK_LEN : Duration := from_secs 604800.
Definition SUBSCRIPTION_WEEKS : Z := 4.
Definition SUB_TICKS_PER_WEEK : Z := 10080.
Definition SUBSCRIPTION_MAX_TICKS : Z := SUB_TICKS_PER_WEEK * SUBSCRIPTION_WEEKS.
Definition SUBSCRIPTION_BUYER_BOND_TICKS : Z := 2.
Definition MATCH_OPEN_TIMEOUT : Duration := from_secs 600.
Definition MATCH_OPEN_TIMEOUT_SECS : Z := as_secs MATCH_OPEN_TIMEOUT.
Definition PROBE_WINDOW : Duration := from_secs 180.
Definition DEFAULT_BUY_TTL : Duration := from_secs 3600.
Definition MAX_SELL_TTL : Duration := from_secs 3600.
Definition USDC_UNIT : Z := 1000000.
Definition ACCUMULATOR_SHELL_PER_USDC_RAW : Z := 100 * SHELL_UNIT.
Definition ACCUMULATOR_DENOMS : list Z := [1000; 100; 10; 1].

(** ** Prices and deadlines *)

(** The sum is [u128] and its terms are [u64], so the bare [+] cannot wrap. *)
Definition note_deploy_wallet_funding_raw (nominal_raw : Z) : Z :=
  uadd u128 nominal_raw ROOT_PN_GAS_DEPOSIT_RAW.

Definition price_ceiling_shell (raw : Z) : Z := div_ceil raw PRICE_STEP.
Definition price_raw_from_shell (shell : Z) : option Z := checked_mul u128 shell PRICE_STEP.

(** The [serde_price_shell] field codec: whole SHELL in the file, raw units in memory. *)
Definition serde_price_shell_serialize (raw : Z) : Result text Z :=
  if negb (is_multiple_of raw PRICE_STEP) then
    Err f["price_per_tick "; raw; " raw is not a whole number of SHELL, so it is not a price the order book can hold"]
  else Ok (raw / PRICE_STEP).
Definition serde_price_shell_deserialize (shell : Z) : Result text Z :=
  if shell >? MAX_NOTE_NOMINAL_SHELL then
    Err f["price_per_tick "; shell; " SHELL a tick is above the largest note that exists ("; MAX_NOTE_NOMINAL_SHELL; " SHELL), so no note could pay for a single tick at it. A market file written before prices were quoted in whole SHELL states them in raw ECC[2] units, where 3 SHELL reads as 3000000000: re-run `dexdo provision` for this market rather than editing the figure by hand"]
  else ok_or (price_raw_from_shell shell) f["price_per_tick "; shell; " SHELL is beyond the range of a price"].

Definition probe_seed_owed (probe_accepted : bool) (price_per_tick : Z) : Z :=
  if probe_accepted then price_per_tick else 0.

Definition default_buy_deadline (now_unix_secs : Z) : option Z :=
  checked_add u64 now_unix_secs (as_secs DEFAULT_BUY_TTL).
Definition cli_buy_deadline_is_valid (deadline now_unix_secs : Z) : bool :=
  negb (deadline =? 0) && (deadline >? now_unix_secs).

(** ** Why a buy is refused by the book *)

Definition NO_EXECUTABLE_ASK_CLASS : string := "no_executable_ask".
Definition EMPTY_MODEL_BOOK_CLASS : string := "empty_model_book".
Definition INSUFFICIENT_HEAD_ASK_REASON : string := "refusing multi-ask fill:".
Definition INSUFFICIENT_HEAD_ASK_CLASS : string := "insufficient_head_ask".
Definition EMPTY_MODEL_BOOK_REASON : string := "no resting asks in this model book".
Definition RAW_MATCHER_NO_SUBMIT_SAFE_ASK : string := "raw order-book matcher has no submit-safe ask".
Definition GENERIC_NO_MATCH_REASONS : list string :=
  ["no executable matching ask"; "no submit-safe ask"; "best ask price"; "no resting asks";
   "no matchable ask"; "raw order-book matcher"; "refusing multi-ask fill"]%string.

Definition book_refusal_class (reason : string) : option string :=
  let reason := to_ascii_lowercase reason in
  if contains INSUFFICIENT_HEAD_ASK_REASON reason then Some INSUFFICIENT_HEAD_ASK_CLASS
  else if contains EMPTY_MODEL_BOOK_REASON reason && contains RAW_MATCHER_NO_SUBMIT_SAFE_ASK reason
  then Some EMPTY_MODEL_BOOK_CLASS
  else if existsb (λ phrase, contains phrase reason) GENERIC_NO_MATCH_REASONS
  then Some NO_EXECUTABLE_ASK_CLASS
  else None.
Definition buy_refusal_class (reason : string) : string :=
  unwrap_or NO_EXECUTABLE_ASK_CLASS (book_refusal_class reason).

(** ** What a deal costs in gas *)

Definition DEAL_BURN_DEPLOY_RAW : Z := 100000000.
Definition DEAL_BURN_TERMINAL_RAW : Z := 45000000.
Definition DEAL_BURN_POST_FROM_NOTE_RAW : Z := 25000000.
Definition BUY_ORDER_GAS_RAW : Z := 25000000.
Definition DEAL_BURN_FUND_FROM_BOOK_RAW : Z := 20000000.
Definition DEAL_BURN_OPEN_RAW : Z := 15000000.
Definition DEAL_BURN_ACCEPT_PROBE_RAW : Z := 15000000.
Definition DEAL_BURN_CLAIM_RAW : Z := 15000000.
Definition DEAL_BURN_SETTLE_RAW : Z := 15000000.
Definition DEAL_BURN_FUND_DEAL_RAW : Z := 10000000.
Definition DEAL_BURN_LIGHT_RAW : Z := 5000000.

Definition buyer_order_gas_raw (ticks : Z) (all_or_none : bool) : option Z :=
  let fills := if all_or_none then 1 else ticks / MIN_STREAM_BUY_TICKS in
  let* bond := checked_mul u128 DEAL_BURN_FUND_DEAL_RAW fills in
  checked_add u128 BUY_ORDER_GAS_RAW bond.

Definition resolve_deal_gas_overhead_raw (network : string) (supplied_raw : option Z) : Result text Z :=
  Ok (unwrap_or 0 supplied_raw).

Definition deal_gas_reserve_raw (max_ticks : Z) : Z :=
  let once :=
    DEAL_BURN_DEPLOY_RAW + DEAL_BURN_POST_FROM_NOTE_RAW + DEAL_BURN_FUND_FROM_BOOK_RAW
    + DEAL_BURN_FUND_DEAL_RAW + DEAL_BURN_OPEN_RAW + DEAL_BURN_ACCEPT_PROBE_RAW
    + DEAL_BURN_SETTLE_RAW + DEAL_BURN_LIGHT_RAW * 2 + DEAL_BURN_TERMINAL_RAW * 2 in
  saturating_add u128 once (saturating_mul u128 DEAL_BURN_CLAIM_RAW (Z.max max_ticks 1)).

Definition deal_buy_reserve_raw (max_ticks : Z) (seller_bond_funded : bool) : Z :=
  let spent := DEAL_BURN_DEPLOY_RAW + DEAL_BURN_POST_FROM_NOTE_RAW
               + (if seller_bond_funded then DEAL_BURN_FUND_DEAL_RAW else 0) in
  saturating_sub (deal_gas_reserve_raw max_ticks) spent.

Definition deal_gas_requirement_raw_with_overhead (max_ticks operator_surplus_raw : Z) : Z :=
  saturating_add u128 (deal_gas_reserve_raw max_ticks) operator_surplus_raw.
Definition deal_gas_requirement_raw (max_ticks : Z) : Z :=
  deal_gas_requirement_raw_with_overhead max_ticks 0.
Definition min_deploy_shells_with_overhead (max_ticks deal_gas_overhead_raw : Z) : Z :=
  Z.max (div_ceil (deal_gas_requirement_raw_with_overhead max_ticks deal_gas_overhead_raw) SHELL_UNIT) 1.
Definition min_deploy_shells (max_ticks : Z) : Z := min_deploy_shells_with_overhead max_ticks 0.
Definition default_deposit_shells (max_ticks : Z) : Z := min_deploy_shells max_ticks.
Definition deal_gas_health_floor_raw_with_overhead (max_ticks deal_gas_overhead_raw : Z) : Z :=
  deal_gas_requirement_raw_with_overhead max_ticks deal_gas_overhead_raw.
Definition deal_gas_health_floor_raw (max_ticks : Z) : Z :=
  deal_gas_health_floor_raw_with_overhead max_ticks 0.
Definition deal_gas_health_target_raw_with_overhead (max_ticks deal_gas_overhead_raw : Z) : Z :=
  saturating_mul u128 (min_deploy_shells_with_overhead max_ticks deal_gas_overhead_raw) SHELL_UNIT.
Definition deal_gas_health_target_raw (max_ticks : Z) : Z :=
  deal_gas_health_target_raw_with_overhead max_ticks 0.

(** ** The gas floor of a funding wallet *)

Definition NOTE_DEPLOY_SUBMIT_NATIVE_VALUE : Z := 100000000.
Definition NOTE_DEPLOY_WALLET_SUBMITS : Z := 2.
Definition WALLET_SUBMIT_NATIVE_FEE_BOUND_RAW : Z := 153501000.
Definition FUNDING_WALLET_NATIVE_FLOOR_RAW : Z :=
  NOTE_DEPLOY_WALLET_SUBMITS * (NOTE_DEPLOY_SUBMIT_NATIVE_VALUE + WALLET_SUBMIT_NATIVE_FEE_BOUND_RAW).

Definition funding_wallet_native_shortfall_raw (native_raw : Z) : option Z :=
  let* short := checked_sub FUNDING_WALLET_NATIVE_FLOOR_RAW native_raw in
  if short >? 0 then Some short else None.

Definition funding_wallet_native_floor_notice (native_raw shell_raw : Z) : option text :=
  let* short_raw := funding_wallet_native_shortfall_raw native_raw in
  Some f["it holds "; native_raw; " raw native vmshell against a floor of "; FUNDING_WALLET_NATIVE_FLOOR_RAW; " raw ("; NOTE_DEPLOY_WALLET_SUBMITS; " submits x ("; NOTE_DEPLOY_SUBMIT_NATIVE_VALUE; " attached + "; WALLET_SUBMIT_NATIVE_FEE_BOUND_RAW; " fee)), so it is short "; short_raw; " raw native. Its "; shell_raw; " raw ECC[2] SHELL cannot pay for this: ECC[2] is currency and the fee is gas, and converting one into the other is itself a message this wallet can no longer afford. Send at least "; short_raw; " raw native vmshell to this address -- an ordinary transfer from any wallet holding SHELL, using the non-bounceable flag-16 form, which arrives as native gas"].

(** ** Protocol constants of a deal *)

Record ProtocolConsts : Type := {
  platform_fee_bps : Z;
  min_claim_interval : Duration;
  min_seconds_per_tick : Duration;
  claim_promote_window : Duration;
  probe_window : Duration;
  dispute_window : Duration;
  rebate_max_bps : Z;
  rebate_slope_bps : Z;
}.

Definition ProtocolConsts_canonical : ProtocolConsts := {|
  platform_fee_bps := PLATFORM_FEE_BPS;
  min_claim_interval := from_secs 60;
  min_seconds_per_tick := from_secs 60;
  claim_promote_window := from_secs 60;
  probe_window := PROBE_WINDOW;
  dispute_window := from_secs 600;
  rebate_max_bps := 200;
  rebate_slope_bps := 4;
|}.

(** [claim_delta_limit]: the product is [u128] over [u64] seconds and cannot wrap. *)
Definition claim_delta_limit (elapsed min_seconds_per_tick : Duration) : Z :=
  let floor := as_secs min_seconds_per_tick in
  let rate_limit := if floor =? 0 then MAX_CLAIM_DELTA
                    else umul u128 (as_secs elapsed) TICK_SIZE / floor in
  if rate_limit <? MAX_CLAIM_DELTA then rate_limit else MAX_CLAIM_DELTA.

Definition ProtocolConsts_max_claim_delta (c : ProtocolConsts) (elapsed : Duration) : Z :=
  claim_delta_limit elapsed (min_seconds_per_tick c).

Record DobParams : Type := { tick_size : Z }.
Definition DobParams_canonical : DobParams := {| tick_size := TICK_SIZE |}.

(** The field widths of [ProtocolConsts]: [u32] rates and [u64] seconds. *)
Definition consts_wf (c : ProtocolConsts) : Prop :=
  in_range u32 (platform_fee_bps c) ∧ in_range u64 (as_secs (min_claim_interval c)) ∧
  in_range u64 (as_secs (min_seconds_per_tick c)) ∧ in_range u64 (as_secs (claim_promote_window c)) ∧
  in_range u64 (as_secs (probe_window c)) ∧ in_range u64 (as_secs (dispute_window c)) ∧
  in_range u32 (rebate_max_bps c) ∧ in_range u32 (rebate_slope_bps c).

Lemma canonical_wf : consts_wf ProtocolConsts_canonical.
Proof. repeat split; vm_compute; discriminate. Qed.
#[export] Hint Resolve canonical_wf : dexdo.

(** * SHELL figures as text: crates/core/src/params.rs

    [shell_amount] prints a raw figure in SHELL, [shell_amount_raw] is the grammar every
    amount argument accepts.  The main result is that what is printed is read back
    exactly. *)

(** The loop that pops the zeros a text of decimals ends with. *)
Fixpoint drop_trailing_zeros (s : string) : string :=
  match s with
  | EmptyString => EmptyString
  | String c s =>
      match drop_trailing_zeros s with
      | EmptyString => if Ascii.eqb c "0" then EmptyString else String c EmptyString
      | r => String c r
      end
  end.

Definition shell_amount (raw : Z) : string :=
  let whole := raw / SHELL_UNIT in
  let rest := raw mod SHELL_UNIT in
  if rest =? 0 then to_string whole
  else to_string whole +:+ "." +:+ drop_trailing_zeros (pad_zero 9 rest).

Definition shell_amount_of_text (raw : string) : string :=
  match parse_uint u128 (trim raw) with
  | Some value => shell_amount value
  | None => raw
  end.

Definition shell_amount_raw (txt : string) : Result text Z :=
  let txt := trim txt in
  if String.eqb txt "" then Err f["amount is empty; state it in SHELL, for example 6.15"] else
  let '(whole_text, decimals_text) :=
    match split_once "." txt with
    | Some (whole, decimals) => (whole, decimals)
    | None => (txt, EmptyString)
    end in
  if (9 <? String.length decimals_text)%nat then
    Err f["amount "; txt; " SHELL is finer than one raw ECC[2] unit (0.000000001 SHELL); nine decimals is the whole of a SHELL"]
  else
  let bad (what : string) : text := f["amount "; txt; " SHELL is not a number: "; what] in
  if contains "+" txt then Err (bad "a sign has no place in an amount"%string) else
  let? whole :=
    if String.eqb whole_text "" then Ok 0
    else ok_or (parse_uint u128 whole_text) (bad "the part before the point"%string) in
  let? decimals :=
    if String.eqb decimals_text "" then Ok 0
    else ok_or (parse_uint u128 decimals_text) (bad "the part after the point"%string) in
  let scale := 10 ^ (9 - Z.of_nat (String.length decimals_text)) in
  ok_or
    (let* raw := checked_mul u128 whole SHELL_UNIT in
     let* part := checked_mul u128 decimals scale in
     checked_add u128 raw part)
    f["amount "; txt; " SHELL is beyond the range of an amount"].

(** ** Lemmas on the decimals *)

Lemma drop_trailing_zeros_value a s v :
  str_all is_ascii_digit s = true → digits_value a s = Some v →
  ∃ v', digits_value a (drop_trailing_zeros s) = Some v' ∧
        (String.length (drop_trailing_zeros s) ≤ String.length s)%nat ∧
        v = v' * 10 ^ (Z.of_nat (String.length s) - Z.of_nat (String.length (drop_trailing_zeros s))).
Proof.
  revert a. induction s as [|c s IH]; intros a Hs Hv.
  { exists v. cbn in *. split; [done|]. split; [lia|]. replace (0 - 0) with 0 by lia. lia. }
  cbn in Hs, Hv. apply andb_prop in Hs as [Hc Hs]. rewrite Hc in Hv.
  destruct (IH _ Hs Hv) as (v' & Hv' & Hl & ->).
  cbn [drop_trailing_zeros]. destruct (drop_trailing_zeros s) as [|c' s'].
  - destruct (Ascii.eqb_spec c "0") as [->|].
    + exists a. cbn [digits_value drop_trailing_zeros String.length] in *. injection Hv' as <-.
      split; [done|]. split; [lia|].
      rewrite Nat2Z.inj_succ, !Z.sub_0_r, Z.pow_succ_r by lia.
      change (code "0") with 48. lia.
    + exists v'. cbn in Hv' |- *. rewrite Hc. split; [done|]. split; [lia|]. f_equal. f_equal. lia.
  - exists v'. cbn [digits_value]. rewrite Hc. split; [exact Hv'|]. cbn in *. split; [lia|].
    f_equal. f_equal. lia.
Qed.

Lemma drop_trailing_zeros_nonempty s v :
  str_all is_ascii_digit s = true → digits_value 0 s = Some v → v ≠ 0 →
  drop_trailing_zeros s ≠ EmptyString.
Proof.
  intros Hs Hv Hn He. destruct (drop_trailing_zeros_value 0 s v Hs Hv) as (v' & Hv' & _ & ->).
  rewrite He in Hv'. cbn in Hv'. injection Hv' as <-. lia.
Qed.

Lemma drop_trailing_zeros_all p s :
  str_all p s = true → str_all p (drop_trailing_zeros s) = true.
Proof.
  induction s as [|c s IH]; cbn; [done|]. intros [Hc Hs]%andb_prop. specialize (IH Hs).
  destruct (drop_trailing_zeros s); cbn in *.
  - destruct (Ascii.eqb c "0"); cbn; by rewrite ?Hc.
  - by rewrite Hc, IH.
Qed.

Lemma digits_value_zeros n s : digits_value 0 (zeros n s) = digits_value 0 s.
Proof. induction n as [|n IH]; cbn; done. Qed.

Lemma zeros_digits n s : str_all is_ascii_digit s = true → str_all is_ascii_digit (zeros n s) = true.
Proof. intros. induction n as [|n IH]; cbn; done. Qed.

Lemma length_zeros n s : String.length (zeros n s) = (n + String.length s)%nat.
Proof. induction n as [|n IH]; cbn; [done|]. by rewrite IH. Qed.

Lemma decimal_go_length fuel n acc k :
  0 ≤ n < 10 ^ Z.of_nat (S k) →
  (String.length (decimal_go fuel n acc) ≤ S k + String.length acc)%nat.
Proof.
  revert n acc k. induction fuel as [|fuel IH]; intros n acc k Hn; cbn [decimal_go]; [lia|].
  destruct (Z.ltb_spec n 10); [cbn; lia|].
  destruct k as [|k]; [cbn in Hn; lia|].
  rewrite Nat2Z.inj_succ, Z.pow_succ_r in Hn by lia.
  specialize (IH (n / 10) (String (digit_char (n mod 10)) acc) k). cbn in IH.
  assert (0 ≤ n / 10 < 10 ^ Z.of_nat (S k)).
  { split; [apply Z.div_pos; lia|]. apply Z.div_lt_upper_bound; lia. }
  specialize (IH H0). lia.
Qed.

(** The nine decimals of a fraction of a SHELL, their value and their length. *)
Lemma pad_zero_9 n :
  0 ≤ n < SHELL_UNIT →
  digits_value 0 (pad_zero 9 n) = Some n ∧ str_all is_ascii_digit (pad_zero 9 n) = true ∧
  String.length (pad_zero 9 n) = 9%nat.
Proof.
  intros Hn. unfold pad_zero. rewrite digits_value_zeros, length_zeros.
  split; [apply digits_value_to_string; lia|].
  split; [apply zeros_digits, to_string_digits|].
  assert (String.length (to_string n) ≤ 9)%nat; [|lia].
  apply (decimal_go_length _ n "" 8). unfold SHELL_UNIT in Hn. cbn. lia.
Qed.

Lemma digit_neq p c s :
  is_ascii_digit c = false → p = str_all is_ascii_digit s → p = true →
  str_all (λ x, negb (Ascii.eqb c x)) s = true.
Proof.
  intros Hc -> Hs. eapply str_all_impl, Hs. intros x Hx.
  destruct (Ascii.eqb_spec c x) as [->|]; [congruence|done].
Qed.

Lemma eqb_nonempty s : s ≠ EmptyString → String.eqb s "" = false.
Proof. destruct s; done. Qed.

Lemma parse_digits s v :
  str_all is_ascii_digit s = true → digits_value 0 s = Some v → v ≤ umax u128 → s ≠ EmptyString →
  parse_uint u128 s = Some v.
Proof. intros. by apply parse_uint_digits. Qed.

(** The grammar on a figure without decimals. *)
Lemma raw_of_whole w :
  0 ≤ w → w * SHELL_UNIT ≤ umax u128 → shell_amount_raw (to_string w) = Ok (w * SHELL_UNIT).
Proof.
  intros Hw Hm. pose proof (to_string_digits w) as Hwd. pose proof (to_string_nonempty w) as Hwn.
  assert (Hwp : parse_uint u128 (to_string w) = Some w)
    by (apply parse_uint_to_string; split; unfold SHELL_UNIT in *; lia).
  unfold shell_amount_raw.
  rewrite trim_graphic by (eapply str_all_impl, Hwd; apply digit_graphic).
  rewrite eqb_nonempty by done.
  rewrite split_once_absent by (by eapply digit_neq).
  cbn [String.length]. replace (9 <? 0)%nat with false by done. unfold contains.
  rewrite split_once_absent by (by eapply digit_neq).
  rewrite eqb_nonempty by done. rewrite Hwp. cbn [ok_or rbind].
  change ("" =? "")%string with true. cbn [rbind]. rewrite checked_mul_fits by done. cbn [obind].
  rewrite (proj2 (checked_mul_Some u128 0 _ 0)) by (cbn; lia). cbn [obind].
  rewrite (proj2 (checked_add_Some u128 _ 0 (w * SHELL_UNIT))) by lia. done.
Qed.

(** The grammar on a figure with decimals [d], which read as [v]. *)
Lemma raw_of_decimals w d v :
  0 ≤ w → d ≠ EmptyString → str_all is_ascii_digit d = true → (String.length d ≤ 9)%nat →
  digits_value 0 d = Some v → 0 ≤ v →
  let scale := 10 ^ (9 - Z.of_nat (String.length d)) in
  w * SHELL_UNIT + v * scale ≤ umax u128 →
  shell_amount_raw (to_string w +:+ "." +:+ d) = Ok (w * SHELL_UNIT + v * scale).
Proof.
  intros Hw Hdn Hdd Hl Hv Hv0 scale Hm.
  pose proof (to_string_digits w) as Hwd. pose proof (to_string_nonempty w) as Hwn.
  assert (0 < scale) as Hs by (apply Z.pow_pos_nonneg; lia).
  assert (v ≤ v * scale) as Hvs by nia. assert (0 ≤ w * SHELL_UNIT) by (unfold SHELL_UNIT; lia).
  assert (Hwp : parse_uint u128 (to_string w) = Some w)
    by (apply parse_uint_to_string; split; unfold SHELL_UNIT in *; lia).
  unfold shell_amount_raw.
  rewrite trim_graphic by
    (rewrite !str_all_app; rewrite !andb_true_iff; split_and!;
     [eapply str_all_impl, Hwd; apply digit_graphic|done|eapply str_all_impl, Hdd; apply digit_graphic]).
  rewrite eqb_nonempty by (destruct (to_string w); [done|]; by rewrite append_cons).
  rewrite (split_once_app "." "") by (by eapply digit_neq).
  destruct (Nat.ltb_spec 9 (String.length d)); [lia|]. unfold contains.
  rewrite split_once_absent by
    (rewrite !str_all_app; rewrite !andb_true_iff; split_and!;
     [by eapply digit_neq|done|by eapply digit_neq]).
  rewrite eqb_nonempty by done. rewrite Hwp. cbn [ok_or rbind].
  rewrite eqb_nonempty by done.
  rewrite (parse_digits d v) by (auto; cbn in *; lia). cbn [ok_or rbind].
  rewrite checked_mul_fits by lia. cbn [obind]. fold scale.
  rewrite checked_mul_fits by lia. cbn [obind]. by rewrite checked_add_fits by lia.
Qed.

(** Every SHELL figure the client prints parses back, through the one amount grammar,
    to the raw figure it was printed from: nothing is rounded and nothing is lost. *)
Theorem shell_amount_roundtrip raw :
  in_range u128 raw → shell_amount_raw (shell_amount raw) = Ok raw.
Proof.
  intros [H0 H1]. unfold shell_amount.
  pose proof (Z.mod_pos_bound raw SHELL_UNIT eq_refl) as Hr.
  pose proof (Z.div_mod raw SHELL_UNIT ltac:(done)) as Hraw.
  assert (Hw : 0 ≤ raw / SHELL_UNIT) by (by apply Z.div_pos).
  destruct (Z.eqb_spec (raw mod SHELL_UNIT) 0) as [Hr0|Hr0].
  - rewrite raw_of_whole by lia. f_equal. lia.
  - destruct (pad_zero_9 _ Hr) as (Hpv & Hpd & Hpl).
    destruct (drop_trailing_zeros_value 0 _ _ Hpd Hpv) as (v & Hv & Hl & Hrv).
    pose proof (drop_trailing_zeros_nonempty _ _ Hpd Hpv Hr0) as Hdn.
    pose proof (drop_trailing_zeros_all _ _ Hpd) as Hdd.
    revert Hv Hl Hrv Hdn Hdd. generalize (drop_trailing_zeros (pad_zero 9 (raw mod SHELL_UNIT))). intros d Hv Hl Hrv Hdn Hdd.
    rewrite Hpl in Hl, Hrv. change (Z.of_nat 9) with 9 in Hrv.
    assert (Hv0 : 0 ≤ v) by (pose proof (Z.pow_pos_nonneg 10 (9 - Z.of_nat (String.length d))); nia).
    rewrite (raw_of_decimals _ d v) by (auto; lia). f_equal. lia.
Qed.

Lemma shell_amount_roundtrip_witness :
  in_range u128 6150000000 ∧ shell_amount_raw (shell_amount 6150000000) = Ok 6150000000.
Proof. split; [by vm_compute|]. apply shell_amount_roundtrip. by vm_compute. Defined.

Example shell_amount_6_15 : shell_amount 6150000000 = "6.15"%string.
Proof. by vm_compute. Qed.
Example shell_amount_raw_point : shell_amount_raw ".5" = Ok 500000000.
Proof. by vm_compute. Qed.
