(* ===== verification/Address.v ===== *)
(** * Addresses: crates/core/src/address.rs

    [CanonicalAddress] with its parser and its two renderings, the command-line boundary,
    the display seams and the file codecs ([serde_canonical], [serde_self_dapp]).  A
    codec is the pair of functions on the string the file holds.  The SDK's own [Address]
    is not part of the repository: [ChainAddress] is stated over a type of SDK addresses
    with its parser and its bare account id. *)
From S2P Require Import Prelude RustText.
From Stdlib Require Import Strings.Ascii.

Definition DEXDO_DAPP_ID : string :=
  "0000000000000000000000000000000000000000000000000000000000000004".

Record CanonicalAddress : Type := mkCanonicalAddress { dapp_id : string; account_id : string }.

Definition is_hex64 (s : string) : bool :=
  (String.length s =? 64)%nat && str_all is_ascii_hexdigit s.

Definition CanonicalAddress_parse (s : string) : Result text CanonicalAddress :=
  let s := trim s in
  match split_once "::" s with
  | Some (dapp, account) =>
      let dapp := trim dapp in
      let account := trim account in
      if negb (is_hex64 dapp) || negb (is_hex64 account) then
        Err f["invalid address `"; s; "`: canonical `<dapp_id>::<account_id>` takes two 64-hex (256-bit) halves"]
      else Ok {| dapp_id := to_ascii_lowercase dapp; account_id := to_ascii_lowercase account |}
  | None =>
      match strip_prefix "0:" s with
      | Some account =>
          if negb (is_hex64 account) then
            Err f["invalid address `"; s; "`: the legacy `0:<hex>` account must be exactly 64 hex chars"]
          else Ok {| dapp_id := DEXDO_DAPP_ID; account_id := to_ascii_lowercase account |}
      | None =>
          Err f["invalid address `"; s; "`: expected canonical `<dapp_id>::<account_id>` (64-hex halves) or legacy `0:<64 hex>`"]
      end
  end.

Definition CanonicalAddress_legacy (a : CanonicalAddress) : string := "0:" +:+ account_id a.
Definition CanonicalAddress_fmt (a : CanonicalAddress) : string :=
  dapp_id a +:+ "::" +:+ account_id a.

Definition to_canonical (s : string) : Result text string :=
  let? a := CanonicalAddress_parse s in Ok (CanonicalAddress_fmt a).
Definition to_chain_param (s : string) : Result text string :=
  let? a := CanonicalAddress_parse s in Ok (CanonicalAddress_legacy a).

Definition arg_to_chain_param (raw : string) : Result text string :=
  let raw := trim raw in
  if contains "::" raw then to_chain_param raw
  else
    match split_once ":" raw with
    | Some (first, rest) =>
        let first := trim first in
        let rest := trim rest in
        if is_hex64 first then
          if negb (is_hex64 rest) then
            Err f["invalid address `"; raw; "`: `"; first; "` is a DApp id, not a workchain, and `"; rest; "` is not a 64-hex account id; the canonical form joins two 64-hex halves with `::`"]
          else
            Err f["invalid address `"; raw; "`: `"; first; "` is a DApp id, not a workchain; the canonical form joins the two halves with `::`, so this address is `"; first; "::"; rest; "`"]
        else Ok raw
    | None => Ok raw
    end.

Definition to_dapp_id_param (dapp : string) : string := "0x" +:+ trim_start_matches "0x" dapp.

Definition display (s : string) : string :=
  match CanonicalAddress_parse s with
  | Ok addr => CanonicalAddress_fmt addr
  | Err _ => trim s
  end.
Definition display_self_dapp (s : string) : string :=
  let raw := trim s in
  match CanonicalAddress_parse raw with
  | Ok addr =>
      if contains "::" raw then CanonicalAddress_fmt addr
      else account_id addr +:+ "::" +:+ account_id addr
  | Err _ => raw
  end.
Definition display_opt (s : option string) (placeholder : string) : string :=
  match s with None => placeholder | Some s => display s end.
Definition display_self_dapp_opt (s : option string) (placeholder : string) : string :=
  match s with None => placeholder | Some s => display_self_dapp s end.

(** ** The field codecs *)

Definition serde_canonical_serialize (value : string) : string := display value.
Definition serde_canonical_deserialize (raw : string) : string :=
  match CanonicalAddress_parse raw with
  | Ok addr => CanonicalAddress_legacy addr
  | Err _ => raw
  end.
Definition serde_canonical_opt_serialize (value : option string) : option string :=
  match value with Some value => Some (display value) | None => None end.
Definition serde_canonical_opt_deserialize (raw : option string) : option string :=
  option_map serde_canonical_deserialize raw.
Definition serde_self_dapp_serialize (value : string) : string := display_self_dapp value.
Definition serde_self_dapp_deserialize (raw : string) : string :=
  match CanonicalAddress_parse raw with
  | Ok addr => CanonicalAddress_legacy addr
  | Err _ => raw
  end.
Definition serde_self_dapp_opt_serialize (value : option string) : option string :=
  match value with Some value => Some (display_self_dapp value) | None => None end.
Definition serde_self_dapp_opt_deserialize (raw : option string) : option string :=
  option_map serde_self_dapp_deserialize raw.
Definition serde_self_dapp_vec_serialize (values : list string) : list string :=
  map display_self_dapp values.
Definition serde_self_dapp_vec_deserialize (raws : list string) : list string :=
  map serde_self_dapp_deserialize raws.

(** ** The chain boundary *)

Section Chain.
(** The SDK's address: its parser and the bare account id of a parsed address. *)
Context {Address : Type} (Address_parse : string → Result text Address) (bare : Address → string).

Record ChainAddress : Type := mkChainAddress { ca_dapp_id : option string; ca_chain : Address }.

Definition ChainAddress_account_id (a : ChainAddress) : string := bare (ca_chain a).
Definition ChainAddress_fmt (a : ChainAddress) : string :=
  match ca_dapp_id a with
  | Some dapp => dapp +:+ "::" +:+ ChainAddress_account_id a
  | None => "0:" +:+ ChainAddress_account_id a
  end.
Definition parse_chain_address (s : string) : Result text ChainAddress :=
  let s := trim s in
  if contains "::" s then
    let? canonical := CanonicalAddress_parse s in
    let? chain := Address_parse (CanonicalAddress_legacy canonical) in
    Ok {| ca_dapp_id := Some (dapp_id canonical); ca_chain := chain |}
  else
    let? chain := Address_parse s in
    Ok {| ca_dapp_id := None; ca_chain := chain |}.
End Chain.
Arguments ChainAddress : clear implicits.

(** * Well-formed addresses *)

Definition lower_hex64 (s : string) : Prop :=
  is_hex64 s = true ∧ to_ascii_lowercase s = s.
Definition address_wf (a : CanonicalAddress) : Prop :=
  lower_hex64 (dapp_id a) ∧ lower_hex64 (account_id a).

Lemma hexdigit_graphic c : is_ascii_hexdigit c = true → is_graphic c = true.
Proof. unfold is_ascii_hexdigit, is_ascii_digit, is_graphic. lia. Qed.

Lemma lower_hexdigit c : is_ascii_hexdigit c = true → is_ascii_hexdigit (lower_char c) = true.
Proof.
  unfold lower_char. destruct (is_ascii_upper c) eqn:Hu; [|done].
  unfold is_ascii_upper, is_ascii_hexdigit, is_ascii_digit in *.
  rewrite code_char by lia. lia.
Qed.

Lemma str_all_map p f s : (∀ c, p c = true → p (f c) = true) →
  str_all p s = true → str_all p (str_map f s) = true.
Proof.
  intros Hf. induction s as [|c s IH]; cbn; [done|].
  intros [Hc Hs]%andb_prop. by rewrite Hf, IH.
Qed.

Lemma is_hex64_hex s : is_hex64 s = true → str_all is_ascii_hexdigit s = true.
Proof. by intros [_ ?]%andb_prop. Qed.

Lemma is_hex64_length s : is_hex64 s = true → String.length s = 64%nat.
Proof. intros [?%Nat.eqb_eq _]%andb_prop. done. Qed.

Lemma lower_hex64_lowercase s : is_hex64 s = true → lower_hex64 (to_ascii_lowercase s).
Proof.
  intros Hs. split; [|apply to_ascii_lowercase_idemp].
  unfold is_hex64. rewrite length_lower, is_hex64_length by done.
  apply str_all_map; [apply lower_hexdigit|by apply is_hex64_hex].
Qed.

Lemma DEXDO_DAPP_ID_wf : lower_hex64 DEXDO_DAPP_ID.
Proof. by split; vm_compute. Qed.

Lemma lower_hex64_eq s : lower_hex64 s → to_ascii_lowercase s = s.
Proof. by intros []. Qed.
Lemma lower_hex64_hex s : lower_hex64 s → is_hex64 s = true.
Proof. by intros []. Qed.
#[export] Hint Resolve lower_hex64_hex lower_hex64_lowercase DEXDO_DAPP_ID_wf is_hex64_hex : dexdo.

Lemma hex_no_colon s : str_all is_ascii_hexdigit s = true →
  str_all (λ x, negb (Ascii.eqb ":" x)) s = true.
Proof.
  apply str_all_impl. intros c Hc. destruct (Ascii.eqb_spec ":" c) as [<-|]; [discriminate|done].
Qed.

Lemma hex_graphic s : str_all is_ascii_hexdigit s = true → str_all is_graphic s = true.
Proof. apply str_all_impl, hexdigit_graphic. Qed.

Lemma trim_hex s : is_hex64 s = true → trim s = s.
Proof. auto using trim_graphic, hex_graphic, is_hex64_hex. Qed.

(** What the parser accepts is two 64-digit lower-case halves. *)
Lemma parse_wf s a : CanonicalAddress_parse s = Ok a → address_wf a.
Proof.
  unfold CanonicalAddress_parse. destruct (split_once _ _) as [[d c]|].
  - destruct (is_hex64 (trim d)) eqn:Hd; [|discriminate].
    destruct (is_hex64 (trim c)) eqn:Hc; [|discriminate]. cbn. intros [= <-].
    split; cbn; auto with dexdo.
  - destruct (strip_prefix _ _) as [c|]; [|discriminate].
    destruct (is_hex64 c) eqn:Hc; [|discriminate]. cbn. intros [= <-].
    split; cbn; auto with dexdo.
Qed.

Definition canonical_text (d c : string) : string := d +:+ "::" +:+ c.

Lemma canonical_text_graphic d c :
  is_hex64 d = true → is_hex64 c = true → str_all is_graphic (canonical_text d c) = true.
Proof.
  intros. unfold canonical_text. rewrite !str_all_app, (hex_graphic d), (hex_graphic c) by (apply is_hex64_hex; done). done.
Qed.

Lemma canonical_text_split d c :
  is_hex64 d = true → split_once "::" (canonical_text d c) = Some (d, c).
Proof. intros. apply (split_once_app ":" ":"). auto using hex_no_colon, is_hex64_hex. Qed.

Lemma parse_canonical_text d c :
  lower_hex64 d → lower_hex64 c →
  CanonicalAddress_parse (canonical_text d c) = Ok {| dapp_id := d; account_id := c |}.
Proof.
  intros [Hd Ld] [Hc Lc]. unfold CanonicalAddress_parse.
  rewrite trim_graphic by (by apply canonical_text_graphic).
  rewrite canonical_text_split by done.
  rewrite !trim_hex by done. rewrite Hd, Hc. cbn. by rewrite Ld, Lc.
Qed.

Lemma legacy_graphic_hex c : str_all is_ascii_hexdigit c = true → str_all is_graphic ("0:" +:+ c) = true.
Proof. intros. by rewrite str_all_app, (hex_graphic c). Qed.
Lemma legacy_graphic c : is_hex64 c = true → str_all is_graphic ("0:" +:+ c) = true.
Proof. intros. by apply legacy_graphic_hex, is_hex64_hex. Qed.

Lemma legacy_split_hex c : str_all is_ascii_hexdigit c = true → split_once "::" ("0:" +:+ c) = None.
Proof.
  intros Hc. pose proof (hex_no_colon c Hc) as Hn.
  rewrite !append_cons. change (EmptyString +:+ c) with c.
  cbn [split_once strip_prefix]. rewrite (split_once_absent ":" ":" c) by done.
  destruct c as [|x c]; [done|]. cbn [str_all] in Hn. apply andb_prop in Hn as [Hx _].
  apply negb_true_iff in Hx. cbn [strip_prefix]. by rewrite Hx.
Qed.
Lemma legacy_split c : is_hex64 c = true → split_once "::" ("0:" +:+ c) = None.
Proof. intros. by apply legacy_split_hex, is_hex64_hex. Qed.

Lemma parse_legacy c :
  lower_hex64 c → CanonicalAddress_parse ("0:" +:+ c) = Ok {| dapp_id := DEXDO_DAPP_ID; account_id := c |}.
Proof.
  intros [Hc Lc]. unfold CanonicalAddress_parse.
  rewrite trim_graphic by (by apply legacy_graphic). rewrite legacy_split by done.
  rewrite strip_prefix_app, Hc. cbn. by rewrite Lc.
Qed.

(** Parsing looks at the trimmed text only. *)
Lemma parse_trim s : CanonicalAddress_parse (trim s) = CanonicalAddress_parse s.
Proof. unfold CanonicalAddress_parse. by rewrite trim_idemp. Qed.

Lemma fmt_wf_graphic a : address_wf a → trim (CanonicalAddress_fmt a) = CanonicalAddress_fmt a.
Proof. intros [[Hd _] [Hc _]]. apply trim_graphic, canonical_text_graphic; done. Qed.

Lemma legacy_wf_graphic a : address_wf a → trim (CanonicalAddress_legacy a) = CanonicalAddress_legacy a.
Proof. intros [_ [Hc _]]. apply trim_graphic, legacy_graphic; done. Qed.

Lemma parse_fmt a : address_wf a → CanonicalAddress_parse (CanonicalAddress_fmt a) = Ok a.
Proof. destruct a. intros [? ?]. by apply parse_canonical_text. Qed.

Lemma contains_fmt d c : is_hex64 d = true → contains "::" (canonical_text d c) = true.
Proof. intros. unfold contains. by rewrite canonical_text_split. Qed.

Lemma arg_canonical d c :
  lower_hex64 d → lower_hex64 c → arg_to_chain_param (canonical_text d c) = Ok ("0:" +:+ c).
Proof.
  intros Hd Hc. unfold arg_to_chain_param.
  rewrite trim_graphic by (apply canonical_text_graphic; by apply lower_hex64_hex).
  rewrite contains_fmt by auto with dexdo. unfold to_chain_param.
  by rewrite parse_canonical_text.
Qed.

(** An address is displayed in one of two ways: with the DApp it names, or as its own. *)
Lemma display_self_dapp_shape s a :
  CanonicalAddress_parse (trim s) = Ok a →
  display_self_dapp s = canonical_text (dapp_id a) (account_id a) ∨
  display_self_dapp s = canonical_text (account_id a) (account_id a).
Proof.
  intros Ha. unfold display_self_dapp. rewrite Ha.
  destruct (contains _ _); [by left|by right].
Qed.

(** Whatever spelling of an address the client prints, its own boundaries read back as
    the same account: both display forms parse, the command-line boundary turns both into
    the workchain form of the parsed account, and a value held in memory in workchain form
    survives being written to a file by either codec and read again. *)
Theorem address_print_read s a :
  CanonicalAddress_parse s = Ok a →
  CanonicalAddress_parse (display s) = Ok a ∧
  arg_to_chain_param (display s) = Ok (CanonicalAddress_legacy a) ∧
  arg_to_chain_param (display_self_dapp s) = Ok (CanonicalAddress_legacy a) ∧
  serde_canonical_deserialize (serde_canonical_serialize s) = CanonicalAddress_legacy a ∧
  serde_self_dapp_deserialize (serde_self_dapp_serialize s) = CanonicalAddress_legacy a ∧
  serde_self_dapp_deserialize (serde_self_dapp_serialize (CanonicalAddress_legacy a))
    = CanonicalAddress_legacy a.
Proof.
  intros Ha. pose proof (parse_wf _ _ Ha) as Hwf.
  pose proof (parse_trim s) as Ht. rewrite Ha in Ht.
  assert (Hd : display s = canonical_text (dapp_id a) (account_id a)) by (unfold display; by rewrite Ha).
  assert (Hl : CanonicalAddress_parse (CanonicalAddress_legacy a) = Ok (mkCanonicalAddress DEXDO_DAPP_ID (account_id a)))
    by (apply parse_legacy, Hwf).
  unfold serde_canonical_serialize, serde_self_dapp_serialize, serde_canonical_deserialize,
    serde_self_dapp_deserialize.
  rewrite Hd, parse_canonical_text, arg_canonical by apply Hwf.
  split; [by destruct a|]. split; [done|].
  assert (Hself : ∀ s' a', CanonicalAddress_parse (trim s') = Ok a' → address_wf a' →
    account_id a' = account_id a →
    arg_to_chain_param (display_self_dapp s') = Ok (CanonicalAddress_legacy a) ∧
    match CanonicalAddress_parse (display_self_dapp s') with
    | Ok addr => CanonicalAddress_legacy addr | Err _ => display_self_dapp s' end
      = CanonicalAddress_legacy a).
  { intros s' a' Ha' Hwf' He. destruct (display_self_dapp_shape s' a' Ha') as [-> | ->];
      rewrite arg_canonical, parse_canonical_text by apply Hwf'; unfold CanonicalAddress_legacy; by rewrite He. }
  destruct (Hself s a Ht Hwf eq_refl) as [-> ->].
  destruct (Hself (CanonicalAddress_legacy a) (mkCanonicalAddress DEXDO_DAPP_ID (account_id a))) as [_ ->]; [|split|..];
    auto with dexdo.
  - by rewrite legacy_wf_graphic.
  - apply Hwf.
Qed.

(** What a name becomes when either codec writes it to a file and reads it again: an address is
    replaced by the workchain form of its account, anything else loses its outer white space. *)
Definition read_back (s : string) : string :=
  match CanonicalAddress_parse s with Ok a => CanonicalAddress_legacy a | Err _ => trim s end.

Lemma self_dapp_read_back s : serde_self_dapp_deserialize (serde_self_dapp_serialize s) = read_back s.
Proof.
  unfold read_back. destruct (CanonicalAddress_parse s) as [a|e] eqn:Ha; [by apply (address_print_read s a)|].
  unfold serde_self_dapp_serialize, display_self_dapp, serde_self_dapp_deserialize. by rewrite parse_trim, Ha, parse_trim, Ha.
Qed.
Lemma canonical_read_back s : serde_canonical_deserialize (serde_canonical_serialize s) = read_back s.
Proof.
  unfold read_back. destruct (CanonicalAddress_parse s) as [a|e] eqn:Ha; [by apply (address_print_read s a)|].
  unfold serde_canonical_serialize, display, serde_canonical_deserialize. by rewrite Ha, parse_trim, Ha.
Qed.
Lemma self_dapp_opt_read_back o : serde_self_dapp_opt_deserialize (serde_self_dapp_opt_serialize o) = option_map read_back o.
Proof. destruct o as [s|]; [|done]. cbn. f_equal. apply self_dapp_read_back. Qed.

(** The workchain form in lower case is read back as it was. *)
Lemma legacy_read_back h : str_all is_ascii_hexdigit h = true → to_ascii_lowercase h = h → read_back ("0:" +:+ h) = "0:" +:+ h.
Proof.
  intros Hh Hl. unfold read_back. destruct (is_hex64 h) eqn:H64.
  - by rewrite parse_legacy by (by split).
  - unfold CanonicalAddress_parse. rewrite trim_graphic by (by apply legacy_graphic_hex).
    rewrite legacy_split_hex by done. by rewrite strip_prefix_app, H64.
Qed.

Definition sample_account : string :=
  "ABCDEF0123456789abcdef0123456789abcdef0123456789abcdef0123456789".
Definition sample_address : CanonicalAddress :=
  mkCanonicalAddress DEXDO_DAPP_ID (to_ascii_lowercase sample_account).

Lemma address_print_read_witness :
  CanonicalAddress_parse ("0:" +:+ sample_account) = Ok sample_address ∧
  arg_to_chain_param (display ("0:" +:+ sample_account)) = Ok (CanonicalAddress_legacy sample_address).
Proof.
  split; [by vm_compute|].
  apply (address_print_read ("0:" +:+ sample_account) sample_address). by vm_compute.
Defined.

(** The argument boundary never turns one account into another.  What it returns is
    either the workchain form of a canonical address that was typed in full, or the
    trimmed argument itself, and then the argument holds no [::] and does not start with
    a DApp id followed by a single colon: that spelling is refused. *)
Theorem arg_to_chain_param_cases raw out :
  arg_to_chain_param raw = Ok out →
  (∃ a, CanonicalAddress_parse (trim raw) = Ok a ∧ out = CanonicalAddress_legacy a ∧
        contains "::" (trim raw) = true) ∨
  (out = trim raw ∧ contains "::" (trim raw) = false ∧
   ∀ first rest, split_once ":" (trim raw) = Some (first, rest) → is_hex64 (trim first) = false).
Proof.
  unfold arg_to_chain_param. destruct (contains "::" (trim raw)).
  - intros H. left. unfold to_chain_param in H. ok_inv. eauto.
  - intros H. right. destruct (split_once ":" (trim raw)) as [[first rest]|].
    + destruct (is_hex64 (trim first)) eqn:Hf; [by destruct (negb _)|]. ok_inv.
      split; [done|]. split; [done|]. intros ? ? [= <- <-]. done.
    + ok_inv. by repeat split.
Qed.

Lemma arg_to_chain_param_cases_witness :
  ∃ out, arg_to_chain_param (sample_account +:+ "::" +:+ sample_account) = Ok out ∧
         (∃ a, out = CanonicalAddress_legacy a).
Proof.
  eexists. split; [by vm_compute|].
  destruct (arg_to_chain_param_cases (sample_account +:+ "::" +:+ sample_account)
              (CanonicalAddress_legacy sample_address)) as [(a & _ & Ho & _)|[Ho _]];
    [by vm_compute|exists a; exact Ho|exists sample_address; reflexivity].
Defined.
