(* ===== verification/DealTypes.v ===== *)
(** * Data of the market layer: crates/core/src/market/types.rs, note.rs

    Orders of the book, the deal state read from its contract, subscriptions, bonds,
    settlement receipts and the error type, with the predicates defined on them.  Fields
    whose name occurs in several structures carry a prefix naming the structure ([so_]
    sell offer, [ob_] order-book order, [cs_] chain state, [qf_] quote fill, ...).

    The second part is the match cursor of a seller ([MatchWatchCursor]), and what it takes for seen
    after a batch of fills. *)
From S2P Require Import Prelude RustText Params Address.
From Stdlib Require Import Strings.Byte.

Abbreviation TokenContract := string (only parsing).

Record NotePubkey : Type := { pk_x : list Byte.byte; pk_ed : list Byte.byte }.
#[export] Instance byte_eq_dec : EqDecision Byte.byte := Byte.byte_eq_dec.
#[export] Instance NotePubkey_eq_dec : EqDecision NotePubkey.
Proof. solve_decision. Defined.

(** ** Errors *)

Inductive ChainError : Type :=
  | OrderUnavailable (msg : text)
  | NoMatch (token_contract : string)
  | NoStream (token_contract : string)
  | EndpointsFile_error (msg : text)
  | Chain (msg : text)
  | Transport (msg : text)
  | OpenUnconfirmed (token_contract : string)
  | Contract (msg : text)
  | DuplicateSell (msg : text)
  | AmbiguousSubmit (msg : text)
  | MoneySubmitPreparation (msg : text)
  | MoneySubmitRejected (msg : text)
  | Limit (msg : text)
  | ClaimHighWaterResync (attempted on_chain : Z).

(** The [Display] of an error; [net] is the name of the selected network. *)
Definition ChainError_fmt (net : string) (e : ChainError) : text :=
  match e with
  | OrderUnavailable m | DuplicateSell m => m
  | NoMatch tc => f["no match for token_contract "; display_self_dapp tc]
  | NoStream tc => f["no stream open for "; display_self_dapp tc]
  | EndpointsFile_error m => f["endpoints file: "] ++ m
  | Chain m => f[net; ": "] ++ m
  | Transport m => f[net; " transport: "] ++ m
  | OpenUnconfirmed tc => f["stream open remains unconfirmed for "; tc]
  | Contract m => f[net; " contract: "] ++ m
  | AmbiguousSubmit m => f[net; " ambiguous submit: "] ++ m
  | MoneySubmitPreparation m => f[net; " money submit was not posted: "] ++ m
  | MoneySubmitRejected m => f[net; " money submit was rejected: "] ++ m
  | Limit m => f["deal limit exceeded: "] ++ m
  | ClaimHighWaterResync attempted on_chain =>
      f["claim high-water advanced on-chain to "; on_chain; ", beyond attempted cumulative "; attempted]
  end.

(** ** Offers and orders *)

Inductive SellOfferOutcome : Type := Rested (order_id : Z) | Matched.

Inductive DealTerminalSettlement : Type :=
  | TerminalProbeBurned (burned_probe burned_bond refund_to_buyer : Z)
  | TerminalStreamStopped (to_seller refund_to_buyer : Z)
  | TerminalDisputeResolved (to_seller refund_to_buyer : Z) (released : bool).

Record SellOffer : Type := {
  so_price_per_tick : Shell;
  so_max_ticks : Z;
  so_token_contract : string;
  so_flags : Z;
}.

Record OfferListing : Type := {
  ol_seller_id : string;
  ol_token_contract : string;
  ol_price_per_tick : Shell;
  ol_max_ticks : Z;
}.

Record OrderBookOrder : Type := {
  ob_order_id : Z;
  ob_owner_note : string;
  ob_token_contract : option string;
  ob_is_buy : bool;
  ob_price_per_tick : Z;
  ob_ticks : Z;
  ob_escrow : Z;
  ob_deadline : Z;
  ob_flags : Z;
  ob_timestamp : Z;
}.
#[export] Instance OrderBookOrder_eq_dec : EqDecision OrderBookOrder.
Proof. solve_decision. Defined.

Definition order_deadline_is_live (is_buy : bool) (deadline now_unix : Z) : bool :=
  if deadline =? 0 then is_buy else now_unix <? deadline.

Definition is_resting_ask (o : OrderBookOrder) : bool :=
  negb (ob_is_buy o) && bool_decide (is_Some (ob_token_contract o)) && (ob_ticks o >? 0).
Definition is_live_resting_ask_at (o : OrderBookOrder) (now_unix : Z) : bool :=
  is_resting_ask o && order_deadline_is_live (ob_is_buy o) (ob_deadline o) now_unix.

Definition ensure_pre_submit_quote_unchanged
    (quoted_order : option OrderBookOrder) (selected : OrderBookOrder) : Result ChainError () :=
  match quoted_order with
  | Some quoted =>
      if (ob_order_id quoted =? ob_order_id selected)
         && bool_decide (ob_token_contract quoted = ob_token_contract selected)
         && (ob_price_per_tick quoted =? ob_price_per_tick selected)
         && (ob_ticks quoted =? ob_ticks selected)
         && (ob_deadline quoted =? ob_deadline selected)
         && (ob_flags quoted =? ob_flags selected)
      then Ok ()
      else Err (OrderUnavailable f["buyer pre-submit matcher head differs from the rendered quote; no escrow was sent"])
  | None => Err (OrderUnavailable f["buyer pre-submit matcher head differs from the rendered quote; no escrow was sent"])
  end.

Record OrderBookStats : Type := {
  next_order_id : Z;
  order_count : Z;
  executed_notional : Z;
  executed_ticks : Z;
}.
Record OrderBookSnapshot : Type := {
  frame_model : string;
  model_hash : string;
  order_book : string;
  stats : option OrderBookStats;
  orders : list OrderBookOrder;
}.
Definition OrderBookSnapshot_active (s : OrderBookSnapshot) : bool := bool_decide (is_Some (stats s)).
Definition resting_asks (s : OrderBookSnapshot) : list OrderBookOrder :=
  filter is_resting_ask (orders s).
Definition live_resting_asks_at (s : OrderBookSnapshot) (now_unix : Z) : list OrderBookOrder :=
  filter (λ o, is_live_resting_ask_at o now_unix) (orders s).

Module flags.
Definition IOC : Z := 0x01.
Definition FOK : Z := 0x02.
Definition MARKET : Z := 0x04.
Definition POST_ONLY : Z := 0x08.
Definition TEE : Z := 0x10.
Definition AON : Z := 0x20.
Definition SUBSCRIPTION : Z := 0x40.
Definition DEAL_MASK : Z := Z.lor TEE SUBSCRIPTION.
End flags.

(** A flag test on a [u8]: [flags & mask != 0]. *)
Definition has_flag (fl mask : Z) : bool := negb (Z.land fl mask =? 0).

(** ** Subscriptions *)

Record DealSubscription : Type := mkSubscription {
  deal_flags : Z;
  sub_weeks : Z;
  week_index : Z;
  tokens_per_week : Z;
  funded_tokens : Z;
  tokens_paid : Z;
  period_start : Z;
  week_base_tokens : Z;
}.
#[export] Instance DealSubscription_eq_dec : EqDecision DealSubscription.
Proof. solve_decision. Defined.

Definition is_subscription (s : DealSubscription) : bool := negb (sub_weeks s =? 0).
Definition is_tee (s : DealSubscription) : bool := has_flag (deal_flags s) flags.TEE.
Definition weeks_remaining (s : DealSubscription) : Z := saturating_sub (sub_weeks s) (week_index s).
Definition recorded_week_expires_at (s : DealSubscription) : Z :=
  if negb (is_subscription s) || (week_index s >=? sub_weeks s) then umax u64
  else saturating_add u64 (period_start s)
         (umul u64 (saturating_add u64 (week_index s) 1) (as_secs SUB_WEEK_LEN)).
Definition term_is_over (s : DealSubscription) : bool :=
  is_subscription s && (week_index s >=? sub_weeks s).

(** Assignments to the fields the weekly books move. *)
Definition set_tokens_paid (v : Z) (s : DealSubscription) : DealSubscription :=
  mkSubscription (deal_flags s) (sub_weeks s) (week_index s) (tokens_per_week s) (funded_tokens s) v (period_start s) (week_base_tokens s).
Definition set_week_index (v : Z) (s : DealSubscription) : DealSubscription :=
  mkSubscription (deal_flags s) (sub_weeks s) v (tokens_per_week s) (funded_tokens s) (tokens_paid s) (period_start s) (week_base_tokens s).
Definition set_week_base_tokens (v : Z) (s : DealSubscription) : DealSubscription :=
  mkSubscription (deal_flags s) (sub_weeks s) (week_index s) (tokens_per_week s) (funded_tokens s) (tokens_paid s) (period_start s) v.
Definition set_period_start (v : Z) (s : DealSubscription) : DealSubscription :=
  mkSubscription (deal_flags s) (sub_weeks s) (week_index s) (tokens_per_week s) (funded_tokens s) (tokens_paid s) v (week_base_tokens s).

(** ** The deal as its contract reports it *)

Record DealChainState : Type := {
  cs_funded : bool;
  cs_opened : bool;
  cs_probe_accepted : bool;
  cs_disputed : bool;
  cs_deposit : Z;
  cs_finalized_owed : Z;
  cs_tokens_final : Z;
  cs_tokens_pending : Z;
  cs_probe_tick : Z;
  cs_funded_time : option Z;
  cs_probe_time : Z;
  cs_last_claim_time : Z;
  cs_dispute_time : Z;
}.

Definition subscription_claim_cap_at (state : DealChainState) (subscription : DealSubscription)
    : Result text Z :=
  if negb (is_subscription subscription) then
    Err f["deal is not a subscription; it has no weekly claim ceiling to compute"]
  else if term_is_over subscription then Ok (cs_tokens_pending state)
  else
    ok_or (option_map (λ cap, Z.min cap (funded_tokens subscription))
             (checked_add u128 (week_base_tokens subscription) (tokens_per_week subscription)))
      f["subscription weekBaseTokens + tokensPerWeek overflows uint128"].

Definition subscription_current_week_headroom (state : DealChainState) (subscription : DealSubscription)
    : Result text Z :=
  let? cap := subscription_claim_cap_at state subscription in
  ok_or (checked_sub cap (cs_tokens_pending state))
    f["subscription cumulative claim "; cs_tokens_pending state; " exceeds the recorded week claim ceiling "; cap].

Definition contested_tokens (s : DealChainState) : Z :=
  saturating_sub (cs_tokens_pending s) (cs_tokens_final s).
Definition on_probe (s : DealChainState) : bool := cs_opened s && negb (cs_probe_accepted s).
Definition is_stopped (s : DealChainState) : bool :=
  cs_funded s && negb (cs_opened s) && negb (cs_disputed s)
  && (cs_deposit s =? 0) && (cs_probe_tick s =? 0).

(** [parts.join(sep)] on formatted pieces. *)
Fixpoint join (sep : string) (parts : list text) : text :=
  match parts with
  | [] => []
  | [p] => p
  | p :: ps => p ++ f[sep] ++ join sep ps
  end.

Definition used_field (field : string) (value : Z) : list text :=
  if value >? 0 then [f[field; "="; value]] else [].
Definition used_parts (s : DealChainState) : list text :=
  (if cs_opened s then [f["opened"]] else []) ++
  (if cs_funded s then [f["funded"]] else []) ++
  (if cs_disputed s then [f["disputed"]] else []) ++
  (if cs_probe_accepted s then [f["probeAccepted"]] else []) ++
  used_field "deposit" (cs_deposit s) ++ used_field "probeTick" (cs_probe_tick s) ++
  used_field "finalizedOwed" (cs_finalized_owed s) ++ used_field "tokensFinal" (cs_tokens_final s) ++
  used_field "tokensPending" (cs_tokens_pending s) ++
  match cs_funded_time s with Some t => [f["fundedTime="; t]] | None => [] end ++
  used_field "probeTime" (cs_probe_time s) ++ used_field "lastClaimTime" (cs_last_claim_time s) ++
  used_field "disputeTime" (cs_dispute_time s).
Definition used_reason (s : DealChainState) : option text :=
  let used := used_parts s in
  match used with [] => None | _ => Some (join ", " used) end.

Record DealOfferLatch : Type := { offer_posted : bool }.
Record DealSellerBond : Type := {
  sb_bond_funded : bool;
  sb_bond_held : Z;
  sb_bond_required : Z;
}.
Record DealBuyerBond : Type := { bb_bond_held : Z; bb_bond_required : Z }.

Record DealChainSnapshot : Type := {
  account_code_hash : string;
  account_boc_hash : string;
  snap_state : DealChainState;
  snap_subscription : DealSubscription;
  snap_seller_bond : DealSellerBond;
  snap_buyer_bond : DealBuyerBond;
}.

Definition validate_cross_getter_invariants (s : DealChainSnapshot) : Result text () :=
  let state := snap_state s in
  let subscription := snap_subscription s in
  let seller := snap_seller_bond s in
  let buyer := snap_buyer_bond s in
  let minimum_funded_tokens := TICK_SIZE * 2 in
  (if cs_funded state && (funded_tokens subscription <? minimum_funded_tokens) then
     Err f["funded deal requires at least two ticks ("; minimum_funded_tokens; " tokens) in getSubscription().fundedTokens, got "; funded_tokens subscription]
   else Ok ()) ;?
  (if sb_bond_held seller >? sb_bond_required seller then
     Err f["getSellerBond() bondHeld "; sb_bond_held seller; " exceeds bondRequired "; sb_bond_required seller]
   else Ok ()) ;?
  (if negb (sb_bond_funded seller) && negb (sb_bond_held seller =? 0) then
     Err f["getSellerBond() reports bondFunded=false with non-zero bondHeld "; sb_bond_held seller]
   else Ok ()) ;?
  (if cs_opened state then
     if negb (cs_funded state) then Err f["getState() reports opened=true with funded=false"]
     else if negb (sb_bond_funded seller) || (sb_bond_required seller =? 0)
             || negb (sb_bond_held seller =? sb_bond_required seller)
     then Err f["opened deal requires a fully funded non-zero seller bond, got bondFunded="; Flag (sb_bond_funded seller); " bondHeld="; sb_bond_held seller; " bondRequired="; sb_bond_required seller]
     else Ok ()
   else Ok ()) ;?
  let expected_buyer_required := if is_subscription subscription then sb_bond_required seller else 0 in
  (if negb (bb_bond_required buyer =? expected_buyer_required) then
     Err f["getBuyerBond() bondRequired "; bb_bond_required buyer; " is not the shape getBuyerBond() can report for this deal: a subscription must mirror getSellerBond().bondRequired "; sb_bond_required seller; " and an ordinary deal must report 0 (subscription="; Flag (is_subscription subscription); ")"]
   else Ok ()) ;?
  (if bb_bond_held buyer >? sb_bond_required seller then
     Err f["getBuyerBond() bondHeld "; bb_bond_held buyer; " exceeds the deal's bond size "; sb_bond_required seller; " (getSellerBond().bondRequired, which is _bondAmount() on both sides)"]
   else Ok ()) ;?
  (if negb (is_subscription subscription) then Ok ()
   else
     let live_funded := cs_funded state && negb (is_stopped state) in
     if live_funded && ((bb_bond_required buyer =? 0) || negb (bb_bond_held buyer =? bb_bond_required buyer))
     then Err f["live funded subscription requires a fully held non-zero buyer bond, got bondHeld="; bb_bond_held buyer; " bondRequired="; bb_bond_required buyer]
     else Ok ()).

Definition buyer_locked (s : DealChainSnapshot) : Result text Z :=
  ok_or
    (let* total := checked_add u128 (cs_deposit (snap_state s)) (cs_probe_tick (snap_state s)) in
     checked_add u128 total (bb_bond_held (snap_buyer_bond s)))
    f["getState().deposit + getState().probeTick + getBuyerBond().bondHeld exceeds uint128"].

(** ** Fills, placements and order facts *)

Record QuoteFill : Type := {
  qf_order_id : Z;
  qf_token_contract : string;
  qf_ticks : Z;
  qf_price_per_tick : Z;
  qf_cost_with_fee : Z;
}.
Record MatchedFill : Type := {
  mf_order_id : Z;
  mf_token_contract : string;
  mf_ticks : Z;
  mf_price_per_tick : Z;
}.
Record InferenceSubscriptionPlacement : Type := {
  ip_order_id : Z;
  ip_buyer_note : string;
  ip_max_price_per_tick : Z;
  ip_ticks : Z;
  ip_sub_weeks : Z;
  ip_deadline : Z;
  ip_created_at : Z;
}.
Inductive BuyerOrderFactKind : Type :=
  | FactPlaced (order_id price_per_tick ticks deadline : Z)
  | FactCancelled (order_id refunded : Z)
  | FactExpired (order_id : Z)
  | FactRefunded (order_id amount : Z)
  | FactRejected (reason refund : Z).
Record BuyerOrderFact : Type := {
  fact_created_at : Z;
  fact_note : string;
  fact_kind : BuyerOrderFactKind;
}.
Definition BuyerOrderFact_order_id (f : BuyerOrderFact) : option Z :=
  match fact_kind f with
  | FactPlaced order_id _ _ _ | FactCancelled order_id _ | FactExpired order_id
  | FactRefunded order_id _ => Some order_id
  | FactRejected _ _ => None
  end.

Record ExecutableQuote : Type := {
  filled_ticks : Z;
  total_with_fee : Z;
  complete : bool;
  fills : list QuoteFill;
}.
Record Match : Type := {
  m_token_contract : string;
  m_buyer_pubkey : NotePubkey;
  m_price_per_tick : Shell;
}.

Record StreamSnapshot : Type := {
  ss_seller_locked : Z;
  ss_buyer_locked : Z;
  ss_buyer_lead : Z;
  ss_tokens_final : Z;
  ss_seller_received : Z;
  ss_buyer_refunded : Z;
  ss_burned : Z;
  ss_closed : bool;
}.

(** ** Settlement receipts *)

(** [RawUint128] prints and parses its value as a decimal string. *)
Record RawUint128 : Type := mkRawUint128 { raw_value : Z }.
Definition RawUint128_serialize (v : RawUint128) : string := to_string (raw_value v).
Definition RawUint128_deserialize (raw : string) : option RawUint128 :=
  option_map mkRawUint128 (parse_uint u128 raw).

Inductive SettlementAction : Type :=
  | BuyerStop | SellerStop | Dispute | ReleaseDispute | ResolveDisputeTimeout.
Definition SettlementAction_fmt (a : SettlementAction) : string :=
  match a with
  | BuyerStop => "buyer_stop"
  | SellerStop => "seller_stop"
  | Dispute => "dispute"
  | ReleaseDispute => "release_dispute"
  | ResolveDisputeTimeout => "resolve_dispute_timeout"
  end.

Inductive SettlementActionEvent : Type :=
  | ProbeBurned (buyer : string) (burned_probe burned_bond refund_to_buyer : RawUint128)
  | StreamStopped (buyer : string) (to_seller refund_to_buyer : RawUint128)
  | StreamDisputed (buyer : string) (at_ : Z)
  | DisputeResolved (to_seller refund_to_buyer : RawUint128) (released : bool).

Record SettlementActionBondState : Type := {
  pre_seller_bond_held : RawUint128;
  pre_seller_bond_required : RawUint128;
  pre_buyer_bond_held : RawUint128;
  pre_buyer_bond_required : RawUint128;
}.
Record SettlementActionPostState : Type := {
  ps_tokens_final : RawUint128;
  ps_tokens_pending : RawUint128;
  ps_seller_bond_held : RawUint128;
  ps_seller_bond_required : RawUint128;
  ps_buyer_bond_held : RawUint128;
  ps_buyer_bond_required : RawUint128;
  ps_opened : bool;
  ps_disputed : bool;
}.
Record SettlementActionReceipt : Type := {
  rc_token_contract : string;
  rc_action : SettlementAction;
  rc_message_id : string;
  rc_created_at : Z;
  rc_event : SettlementActionEvent;
  rc_pre_bonds : SettlementActionBondState;
  rc_post_state : option SettlementActionPostState;
}.
Inductive BuyerStopTerminalFact : Type := SubmittedStop | AlreadyClosed | UnknownCloser.
Definition BuyerStopTerminalFact_fmt (f : BuyerStopTerminalFact) : string :=
  match f with
  | SubmittedStop => "submitted_stop"
  | AlreadyClosed => "already_closed"
  | UnknownCloser => "unknown_closer"
  end.
Record BuyerStopTerminalReceipt : Type := {
  bt_token_contract : string;
  bt_fact : BuyerStopTerminalFact;
  bt_stop_submitted : bool;
  bt_message_id : string;
  bt_created_at : Z;
  bt_event : SettlementActionEvent;
  bt_pre_bonds : option SettlementActionBondState;
  bt_post_state : option SettlementActionPostState;
}.
Definition unknown_closer (receipt : SettlementActionReceipt) : BuyerStopTerminalReceipt := {|
  bt_token_contract := rc_token_contract receipt;
  bt_fact := UnknownCloser;
  bt_stop_submitted := true;
  bt_message_id := rc_message_id receipt;
  bt_created_at := rc_created_at receipt;
  bt_event := rc_event receipt;
  bt_pre_bonds := Some (rc_pre_bonds receipt);
  bt_post_state := rc_post_state receipt;
|}.

Definition SettlementActionEvent_fmt (e : SettlementActionEvent) : text :=
  match e with
  | ProbeBurned buyer probe bond refund =>
      f[" event_kind=probe_burned buyer="; display buyer; " burnedProbe="; raw_value probe; " burnedBond="; raw_value bond; " refundToBuyer="; raw_value refund]
  | StreamStopped buyer to_seller refund =>
      f[" event_kind=stream_stopped buyer="; display buyer; " toSeller="; raw_value to_seller; " refundToBuyer="; raw_value refund]
  | StreamDisputed buyer at_ => f[" event_kind=stream_disputed buyer="; display buyer; " at="; at_]
  | DisputeResolved to_seller refund released =>
      f[" event_kind=dispute_resolved toSeller="; raw_value to_seller; " refundToBuyer="; raw_value refund; " released="; Flag released]
  end.
Definition SettlementActionReceipt_fmt (r : SettlementActionReceipt) : text :=
  f["token_contract="; display_self_dapp (rc_token_contract r); " action="; SettlementAction_fmt (rc_action r); " message_id="; rc_message_id r; " created_at="; rc_created_at r]
  ++ SettlementActionEvent_fmt (rc_event r)
  ++ f[" preSellerBondHeld="; raw_value (pre_seller_bond_held (rc_pre_bonds r)); " preSellerBondRequired="; raw_value (pre_seller_bond_required (rc_pre_bonds r)); " preBuyerBondHeld="; raw_value (pre_buyer_bond_held (rc_pre_bonds r)); " preBuyerBondRequired="; raw_value (pre_buyer_bond_required (rc_pre_bonds r))]
  ++ match rc_post_state r with
     | Some s =>
         f[" tokensFinal="; raw_value (ps_tokens_final s); " tokensPending="; raw_value (ps_tokens_pending s); " sellerBondHeld="; raw_value (ps_seller_bond_held s); " sellerBondRequired="; raw_value (ps_seller_bond_required s); " buyerBondHeld="; raw_value (ps_buyer_bond_held s); " buyerBondRequired="; raw_value (ps_buyer_bond_required s); " opened="; Flag (ps_opened s); " disputed="; Flag (ps_disputed s)]
     | None => f[" post_state=unavailable"]
     end.

(** * The seller's match cursor: crates/core/src/market/types.rs

    [MatchWatchCursor] remembers how far a source of fills was consumed: everything older
    than its newest timestamp counts as seen, and at that timestamp the contracts it lists.
    The theorem characterises what is seen after a batch is recorded. *)

Record MatchWatchCursor : Type := mkCursor {
  since_unix : Z;
  last_seen_created_at : option Z;
  seen_token_contracts_at_last_seen : list string;
}.
Definition MatchWatchCursor_new (since_unix : Z) : MatchWatchCursor := mkCursor since_unix None [].

Definition lists_contract (token_contract : string) (l : list string) : bool :=
  existsb (λ tc, eq_ignore_ascii_case tc token_contract) l.

Definition has_seen (c : MatchWatchCursor) (created_at : Z) (token_contract : string) : bool :=
  if created_at <? since_unix c then true
  else match last_seen_created_at c with
       | Some last =>
           if created_at <? last then true
           else if created_at =? last then lists_contract token_contract (seen_token_contracts_at_last_seen c)
           else false
       | None => false
       end.

(** One turn of the loop of [record_seen_batch], on [max_seen] and [at_max]. *)
Definition record_event (since : Z) (acc : option Z * list string) (event : Z * string) : option Z * list string :=
  let '(max_seen, at_max) := acc in
  let '(created_at, token_contract) := event in
  if created_at <? since then acc
  else match max_seen with
       | Some max =>
           if created_at <? max then acc
           else if created_at =? max then
             if lists_contract token_contract at_max then acc else (max_seen, at_max ++ [token_contract])
           else (Some created_at, [token_contract])
       | None => (Some created_at, [token_contract])
       end.

(** [Vec::dedup_by]: an element goes when it matches the last one kept. *)
Fixpoint dedup_after {A} (same : A → A → bool) (kept : A) (l : list A) : list A :=
  match l with
  | [] => []
  | x :: l => if same x kept then dedup_after same kept l else x :: dedup_after same x l
  end.
Definition dedup_by {A} (same : A → A → bool) (l : list A) : list A :=
  match l with [] => [] | x :: l => x :: dedup_after same x l end.

Definition record_seen_batch (events : list (Z * string)) (c : MatchWatchCursor) : MatchWatchCursor :=
  let at_max := match last_seen_created_at c with Some _ => seen_token_contracts_at_last_seen c | None => [] end in
  let '(max_seen, at_max) := foldl (record_event (since_unix c)) (last_seen_created_at c, at_max) events in
  match max_seen with
  | Some max => mkCursor (since_unix c) (Some max) (dedup_by eq_ignore_ascii_case (merge_sort str_le at_max))
  | None => c
  end.

(** * Properties *)

#[local] Arguments lists_contract : simpl never.
#[local] Arguments eq_ignore_ascii_case : simpl never.

Lemma lists_contract_spec tc l :
  lists_contract tc l = true ↔ ∃ x, x ∈ l ∧ eq_ignore_ascii_case x tc = true.
Proof.
  unfold lists_contract. rewrite existsb_exists. split; intros (x & Hx & H); exists x; split; try done;
    by apply list_elem_of_In.
Qed.

Lemma lists_contract_app tc l k : lists_contract tc (l ++ k) = lists_contract tc l || lists_contract tc k.
Proof. apply existsb_app. Qed.

Lemma lists_contract_single tc x : lists_contract tc [x] = eq_ignore_ascii_case x tc.
Proof. apply Bool.orb_false_r. Qed.

Lemma lists_contract_eq tc x l :
  lists_contract x l = true → eq_ignore_ascii_case x tc = true → lists_contract tc l = true.
Proof.
  rewrite !lists_contract_spec. intros (y & Hy & H) Hx. exists y. split; [done|].
  rewrite eq_ignore_ascii_case_spec in *. congruence.
Qed.

Lemma lists_dedup_after tc kept l :
  eq_ignore_ascii_case kept tc || lists_contract tc (dedup_after eq_ignore_ascii_case kept l)
  = eq_ignore_ascii_case kept tc || lists_contract tc l.
Proof.
  revert kept. induction l as [|x l IH]; intros kept; cbn; [done|].
  unfold lists_contract in *; cbn.
  destruct (eq_ignore_ascii_case x kept) eqn:He; cbn.
  - rewrite IH. destruct (eq_ignore_ascii_case kept tc) eqn:Hk; cbn; [done|].
    destruct (eq_ignore_ascii_case x tc) eqn:Hx; cbn; [|done].
    rewrite eq_ignore_ascii_case_spec in He, Hx. assert (eq_ignore_ascii_case kept tc = true) as Hk'
      by (rewrite eq_ignore_ascii_case_spec; congruence). congruence.
  - by rewrite IH.
Qed.

Lemma lists_normalised tc l :
  lists_contract tc (dedup_by eq_ignore_ascii_case (merge_sort str_le l)) = lists_contract tc l.
Proof.
  transitivity (lists_contract tc (merge_sort str_le l)).
  - destruct (merge_sort str_le l) as [|x l']; [done|]. apply lists_dedup_after.
  - apply Bool.eq_iff_eq_true. rewrite !lists_contract_spec. by setoid_rewrite merge_sort_Permutation.
Qed.

(** The contracts seen at the newest timestamp of a fold state, and that timestamp. *)
Definition seen_in (since : Z) (acc : option Z * list string) (t : Z) (tc : string) : bool :=
  (t <? since) || match acc.1 with
                  | Some m => (t <? m) || (t =? m) && lists_contract tc acc.2
                  | None => false
                  end.

Lemma seen_in_has_seen c t tc :
  has_seen c t tc = seen_in (since_unix c) (last_seen_created_at c,
    match last_seen_created_at c with Some _ => seen_token_contracts_at_last_seen c | None => [] end) t tc.
Proof.
  unfold has_seen, seen_in. cbn. destruct (t <? since_unix c); [done|].
  destruct (last_seen_created_at c) as [m|]; [|done]. by destruct (t <? m), (t =? m).
Qed.

Lemma has_seen_record evs c t tc :
  has_seen (record_seen_batch evs c) t tc
  = seen_in (since_unix c) (foldl (record_event (since_unix c)) (last_seen_created_at c,
    match last_seen_created_at c with Some _ => seen_token_contracts_at_last_seen c | None => [] end) evs) t tc.
Proof.
  unfold record_seen_batch.
  destruct (foldl _ _ evs) as [[m|] at_max] eqn:Hf.
  - rewrite seen_in_has_seen. unfold seen_in. cbn. by rewrite lists_normalised.
  - rewrite seen_in_has_seen. unfold seen_in; cbn. destruct (last_seen_created_at c) as [m|] eqn:Hl; [|done].
    exfalso. revert Hf. generalize (seen_token_contracts_at_last_seen c). clear Hl. revert m.
    induction evs as [|[t' tc'] evs IH]; intros m l; cbn; [done|].
    destruct (t' <? since_unix c); [apply IH|]. destruct (t' <? m); [apply IH|].
    destruct (t' =? m); [|apply IH]. destruct (lists_contract tc' l); apply IH.
Qed.

(** What one event adds to the seen set: itself, and whatever is older than it. *)
Lemma seen_in_record_event since acc e t tc :
  seen_in since (record_event since acc e) t tc
  = seen_in since acc t tc
    || (since <=? e.1) && ((t =? e.1) && eq_ignore_ascii_case e.2 tc
         && match acc.1 with Some m => m <=? e.1 | None => true end || (t <? e.1)).
Proof.
  destruct acc as [[m|] l], e as [t' tc']; unfold record_event, seen_in; cbn;
    destruct (Z.ltb_spec t' since); cbn;
    destruct (Z.leb_spec since t'); try lia; cbn; try by rewrite Bool.orb_false_r.
  - destruct (Z.ltb_spec t' m); cbn.
    + destruct (Z.ltb_spec t since), (Z.ltb_spec t m), (Z.eqb_spec t t'), (Z.ltb_spec t t'), (Z.leb_spec m t');
        cbn; try lia; by rewrite ?Bool.andb_false_r, ?Bool.orb_false_r.
    + destruct (Z.leb_spec m t'); [|lia]. destruct (Z.eqb_spec t' m) as [->|]; cbn.
      * destruct (lists_contract tc' l) eqn:Hl; cbn; rewrite ?lists_contract_app, ?lists_contract_single;
          destruct (Z.ltb_spec t since), (Z.ltb_spec t m), (Z.eqb_spec t m); cbn; try lia; try done;
          rewrite ?Bool.orb_false_r, ?Bool.andb_true_r; try done.
        destruct (eq_ignore_ascii_case tc' tc) eqn:He; [|by rewrite Bool.orb_false_r].
        by rewrite (lists_contract_eq tc tc' l).
      * destruct (Z.ltb_spec t since), (Z.ltb_spec t m), (Z.eqb_spec t m), (Z.eqb_spec t t'), (Z.ltb_spec t t');
          cbn; try lia;
          rewrite ?lists_contract_single, ?Bool.orb_false_r, ?Bool.andb_true_r, ?Bool.orb_true_r; done.
  - destruct (Z.ltb_spec t since), (Z.eqb_spec t t'), (Z.ltb_spec t t'); cbn; try lia;
      rewrite ?lists_contract_single, ?Bool.orb_false_r, ?Bool.andb_true_r, ?Bool.orb_true_r; done.
Qed.

Lemma seen_in_mono since acc evs t tc :
  seen_in since acc t tc = true → seen_in since (foldl (record_event since) acc evs) t tc = true.
Proof.
  revert acc. induction evs as [|e evs IH]; intros acc H; cbn; [done|]. apply IH.
  by rewrite seen_in_record_event, H.
Qed.

Lemma seen_in_event since acc e : seen_in since (record_event since acc e) e.1 e.2 = true.
Proof.
  rewrite seen_in_record_event. unfold seen_in.
  rewrite Z.eqb_refl. assert (eq_ignore_ascii_case e.2 e.2 = true) as -> by by apply eq_ignore_ascii_case_spec.
  destruct acc as [[m|] l]; cbn; destruct (Z.ltb_spec e.1 since), (Z.leb_spec since e.1); try lia; cbn; try done.
Qed.

Lemma seen_in_origin since acc evs t tc :
  seen_in since (foldl (record_event since) acc evs) t tc = true →
  seen_in since acc t tc = true ∨
  ∃ e, e ∈ evs ∧ since ≤ e.1 ∧ (t < e.1 ∨ t = e.1 ∧ eq_ignore_ascii_case e.2 tc = true).
Proof.
  revert acc. induction evs as [|e evs IH]; intros acc; cbn; [by left|].
  intros [H|(e' & He' & H)]%IH; [|right; exists e'; split; [by apply list_elem_of_further|done]].
  rewrite seen_in_record_event in H. apply Bool.orb_true_iff in H as [H|H]; [by left|right].
  exists e. split; [apply list_elem_of_here|].
  apply Bool.andb_true_iff in H as [H1%Z.leb_le H2]. split; [done|].
  apply Bool.orb_true_iff in H2 as [H2|H2%Z.ltb_lt]; [|by left].
  apply Bool.andb_true_iff in H2 as [[H2%Z.eqb_eq H3]%Bool.andb_true_iff _]. by right.
Qed.

Lemma seen_in_case since acc t tc tc' :
  eq_ignore_ascii_case tc tc' = true → seen_in since acc t tc = true → seen_in since acc t tc' = true.
Proof.
  intros He. unfold seen_in. destruct (t <? since); [done|]. destruct acc.1 as [m|]; [|done]. cbn.
  destruct (t <? m); [done|]. destruct (t =? m); [|done]. cbn. intros H. by apply lists_contract_eq with tc.
Qed.

Lemma since_record evs c : since_unix (record_seen_batch evs c) = since_unix c.
Proof. unfold record_seen_batch. by destruct (foldl _ _ _) as [[m|] l]. Qed.

(** What was seen stays seen. *)
Lemma record_keeps evs c t tc : has_seen c t tc = true → has_seen (record_seen_batch evs c) t tc = true.
Proof. rewrite has_seen_record, seen_in_has_seen. apply seen_in_mono. Qed.

(** Every event of the batch is seen. *)
Lemma record_covers evs c t tc tc' :
  (t, tc) ∈ evs → eq_ignore_ascii_case tc tc' = true → has_seen (record_seen_batch evs c) t tc' = true.
Proof.
  intros Hin He. rewrite has_seen_record.
  generalize (last_seen_created_at c, match last_seen_created_at c with
    Some _ => seen_token_contracts_at_last_seen c | None => [] end).
  induction evs as [|e evs IH]; intros acc; [by apply not_elem_of_nil in Hin|].
  apply elem_of_cons in Hin as [<-|Hin]; [|by apply IH]. cbn. apply seen_in_mono.
  by apply seen_in_case with tc, seen_in_event.
Qed.

(** Nothing else is seen but what is older than the batch. *)
Lemma record_only evs c t tc : has_seen (record_seen_batch evs c) t tc = true →
  has_seen c t tc = true ∨
  ∃ t' tc', (t', tc') ∈ evs ∧ since_unix c ≤ t' ∧ (t < t' ∨ t = t' ∧ eq_ignore_ascii_case tc' tc = true).
Proof.
  rewrite has_seen_record, seen_in_has_seen.
  intros [H|([t' tc'] & H)]%seen_in_origin; [by left|right; exists t', tc'; naive_solver].
Qed.
