(* ===== verification/Machine.v ===== *)
(** * Settlement formulas: crates/core/src/settle.rs

    Fee, rebate, net burn and the two burn shapes.  [mul_bps] computes in [u128] with the
    bare operators and truncates to [u64] with [as]; the theorems say when neither step
    changes the mathematical value.

    The second part is the stream machine of crates/core/src/machine.rs, each method a function of
    the machine, and what holds after every sequence of its operations. *)
From S2P Require Import Prelude Params.
From S2P Require Import DealTypes.

Definition mul_bps (bps n value : Z) : Shell :=
  wrapping u64 (umul u128 (umul u128 bps n) value / 10000).

Definition fee (delivered_ticks p : Z) (c : ProtocolConsts) : Shell :=
  mul_bps (platform_fee_bps c) delivered_ticks p.

(** [slope.min(max as u64) as u32]: the minimum is at most a [u32] value. *)
Definition rebate_rate_bps (n_clean_ticks : Z) (c : ProtocolConsts) : Z :=
  let slope := saturating_mul u64 (rebate_slope_bps c) n_clean_ticks in
  wrapping u32 (Z.min slope (rebate_max_bps c)).

Definition rebate (n_clean_ticks p : Z) (c : ProtocolConsts) : Shell :=
  mul_bps (rebate_rate_bps n_clean_ticks c) n_clean_ticks p.

Definition net_burn (n_clean_ticks p : Z) (c : ProtocolConsts) : Shell :=
  let rate := saturating_sub (platform_fee_bps c) (rebate_rate_bps n_clean_ticks c) in
  mul_bps rate n_clean_ticks p.

Record ContestedBurn : Type := {
  burn_buyer : Shell;
  burn_buyer_refund : Z;
  burn_seller : Shell;
  burn_seller_refund : Shell;
}.

Definition ContestedBurn_total (b : ContestedBurn) : Z := uadd u128 (burn_buyer b) (burn_seller b).

Definition contested_burn (deposit seller_bond : Shell) : ContestedBurn := {|
  burn_buyer := Z.min seller_bond deposit;
  burn_buyer_refund := 0;
  burn_seller := seller_bond;
  burn_seller_refund := 0;
|}.

Definition probe_burn (probe_tick seller_bond : Shell) : ContestedBurn :=
  let seller := Z.min probe_tick seller_bond in {|
  burn_buyer := probe_tick;
  burn_buyer_refund := 0;
  burn_seller := seller;
  burn_seller_refund := usub u64 seller_bond seller;
|}.

(** * Properties *)

(** The amounts for which the formulas are exact: the value of the delivered ticks fits
    the [u64] it is paid in. *)
Definition priced (n p : Z) : Prop := 0 ≤ n ∧ 0 ≤ p ∧ n * p ≤ umax u64.

Lemma mul_bps_exact bps n p :
  0 ≤ bps ≤ 10000 → in_range u64 n → priced n p → mul_bps bps n p = bps * (n * p) / 10000.
Proof.
  intros Hb [_ Hn] (H0 & H1 & H2). unfold mul_bps.
  rewrite (umul_exact u128 bps n) by (cbn in *; nia).
  assert (bps * n * p = bps * (n * p)) as Heq by lia.
  rewrite umul_exact by (cbn in *; nia). rewrite Heq.
  apply wrapping_exact. split; [apply Z.div_pos; nia|].
  apply Z.div_le_upper_bound; [lia|]. nia.
Qed.

Lemma rebate_rate_spec n c :
  consts_wf c → 0 ≤ n → rebate_rate_bps n c = Z.min (rebate_slope_bps c * n) (rebate_max_bps c).
Proof.
  intros (_ & _ & _ & _ & _ & _ & Hm & Hs) Hn. unfold rebate_rate_bps, saturating_mul, in_range in *.
  rewrite wrapping_exact; [|unfold in_range]; cbn in *; nia.
Qed.

Lemma share_splits f r v :
  0 ≤ r ≤ f → f ≤ 10000 → 0 ≤ v →
  f * v / 10000 = f * v / 10000 ∧ (f - r) * v / 10000 = (f - r) * v / 10000 ∧
  0 ≤ r * v / 10000 ∧ 0 ≤ (f - r) * v / 10000 ∧
  r * v / 10000 + (f - r) * v / 10000 ≤ f * v / 10000 ≤ r * v / 10000 + (f - r) * v / 10000 + 1 ∧
  f * v / 10000 ≤ v.
Proof.
  intros. assert (Hsum : f * v = r * v + (f - r) * v) by lia.
  assert (0 ≤ r * v) by nia. assert (0 ≤ (f - r) * v) by nia. assert (f * v ≤ 10000 * v) by nia.
  revert Hsum H2 H3 H4. generalize (f * v), (r * v), ((f - r) * v). intros t a b -> ? ? ?.
  repeat split; divlia.
Qed.

(** Fee, rebate and net burn agree.  With rates of at most 100 per cent and a rebate cap
    not above the fee, for every amount that fits the width it is paid in: the net burn is
    the exact share of the value at the difference of the two rates, rebate and net burn
    together take no more than the fee, they miss it by at most one unit of rounding, and
    the fee itself is at most the value of the delivered ticks. *)
Theorem fee_splits n p c :
  consts_wf c → rebate_max_bps c ≤ platform_fee_bps c ≤ 10000 → in_range u64 n → priced n p →
  fee n p c = platform_fee_bps c * (n * p) / 10000 ∧
  net_burn n p c = (platform_fee_bps c - rebate_rate_bps n c) * (n * p) / 10000 ∧
  0 ≤ rebate n p c ∧ 0 ≤ net_burn n p c ∧
  rebate n p c + net_burn n p c ≤ fee n p c ≤ rebate n p c + net_burn n p c + 1 ∧
  fee n p c ≤ n * p.
Proof.
  intros Hc Hcap Hn Hp. pose proof Hc as (Hfw & _ & _ & _ & _ & _ & Hmw & Hsw).
  unfold in_range in Hfw, Hmw, Hsw.
  assert (Hr : 0 ≤ rebate_rate_bps n c ≤ rebate_max_bps c).
  { rewrite rebate_rate_spec by (auto; apply Hp). destruct Hp. nia. }
  assert (Hv : 0 ≤ n * p) by (destruct Hp as (? & ? & _); nia).
  unfold fee, net_burn, rebate, saturating_sub.
  rewrite Z.max_r by lia. rewrite !mul_bps_exact by (auto; lia).
  apply share_splits; [lia|lia|lia].
Qed.

Lemma fee_splits_witness :
  consts_wf ProtocolConsts_canonical ∧
  rebate 50 10000 ProtocolConsts_canonical + net_burn 50 10000 ProtocolConsts_canonical
    ≤ fee 50 10000 ProtocolConsts_canonical.
Proof.
  split; [apply canonical_wf|].
  apply (fee_splits 50 10000 ProtocolConsts_canonical); [apply canonical_wf|..];
    repeat split; vm_compute; discriminate.
Defined.

(** A dispute nobody concedes costs both sides the same and never more than they hold;
    a walked-away trial costs the seller at most the trial tick and the rest of the bond is
    returned, so no unit of the bond is lost or created. *)
Theorem burns_are_clamped deposit probe bond :
  in_range u64 deposit → in_range u64 probe → in_range u64 bond →
  burn_buyer (contested_burn deposit bond) ≤ deposit ∧
  (bond ≤ deposit → burn_buyer (contested_burn deposit bond) = burn_seller (contested_burn deposit bond)) ∧
  ContestedBurn_total (contested_burn deposit bond) ≤ 2 * bond ∧
  burn_seller (probe_burn probe bond) + burn_seller_refund (probe_burn probe bond) = bond ∧
  burn_seller (probe_burn probe bond) ≤ probe ∧ burn_buyer (probe_burn probe bond) = probe.
Proof.
  intros Hd Hp Hb. unfold in_range in *.
  unfold ContestedBurn_total, contested_burn, probe_burn; cbn [burn_buyer burn_seller burn_seller_refund].
  rewrite uadd_exact by (cbn in *; lia). rewrite usub_exact by lia. lia.
Qed.

Lemma burns_are_clamped_witness :
  in_range u64 7 ∧ burn_seller (probe_burn 3 20) + burn_seller_refund (probe_burn 3 20) = 20.
Proof.
  split; [by vm_compute|]. apply (burns_are_clamped 7 3 20); by vm_compute.
Defined.

(** * The stream state machine: crates/core/src/machine.rs

    Each method is a function of the machine.  A method that returns [Result] returns the
    machine with it, because an error may come after the assignment; a method that may
    panic ([refuse_when_not_live]) returns [Err] with the transition and the state it
    refused.  [run] folds a sequence of operations; the properties hold for every sequence
    from [StreamMachine_open]. *)

Record Tick : Type := { tick_index : Z; tick_price : Shell }.

Inductive StreamState : Type :=
  | Opening
  | Probe (tick : Tick)
  | Streaming (trusted pending : Z)
  | Stopping
  | Disputed (trusted contested : Z)
  | Closed.

(** The derived [Debug] of a state. *)
Definition StreamState_dbg (s : StreamState) : text :=
  match s with
  | Opening => f["Opening"]
  | Probe tick => f["Probe { tick: Tick { index: "; tick_index tick; ", price: "; tick_price tick; " } }"]
  | Streaming trusted pending => f["Streaming { trusted: "; trusted; ", pending: "; pending; " }"]
  | Stopping => f["Stopping"]
  | Disputed trusted contested => f["Disputed { trusted: "; trusted; ", contested: "; contested; " }"]
  | Closed => f["Closed"]
  end.

Inductive Settlement : Type :=
  | AuthoritativeReceipt (receipt : SettlementActionReceipt)
  | BuyerStopTerminal (receipt : BuyerStopTerminalReceipt)
  | BurnBoth (burn : ContestedBurn)
  | AmicableSplit (to_seller_ticks to_buyer_refund : Z)
  | SellerNoShow (to_buyer_refund seller_bond_returned : Z).

Definition InvariantError : Type := string.

Record StreamMachine : Type := mkMachine {
  sm_state : StreamState;
  sm_price : Shell;
  sm_seller_bond : Z;
}.
Definition with_state (m : StreamMachine) (s : StreamState) : StreamMachine :=
  {| sm_state := s; sm_price := sm_price m; sm_seller_bond := sm_seller_bond m |}.

Definition StreamMachine_open (price : Shell) (_params : DobParams) : StreamMachine := {|
  sm_state := Probe {| tick_index := 0; tick_price := price |};
  sm_price := price;
  sm_seller_bond := umul u128 price 2;
|}.

Definition check_invariant (m : StreamMachine) : Result InvariantError () :=
  match sm_state m with
  | Streaming trusted pending =>
      if pending <? trusted then Err "the newest claim cannot be below trusted consumption"%string
      else Ok ()
  | _ => Ok ()
  end.

Definition on_probe_accepted (m : StreamMachine) : StreamMachine * Result InvariantError () :=
  match sm_state m with
  | Probe _ => (with_state m (Streaming 1 1), Ok ())
  | _ => (m, Err "on_probe_accepted requires the probe state"%string)
  end.

Definition machine_on_probe (m : StreamMachine) : bool :=
  match sm_state m with Probe _ => true | _ => false end.

Definition trusted_ticks (m : StreamMachine) : Z :=
  match sm_state m with
  | Streaming trusted _ | Disputed trusted _ => trusted
  | _ => 0
  end.

Definition on_claim (m : StreamMachine) (cumulative : Z) : StreamMachine * Result InvariantError () :=
  match sm_state m with
  | Streaming _ pending =>
      if cumulative <? pending then (m, Err "claims are cumulative and cannot decrease"%string)
      else
        let m := with_state m (Streaming pending cumulative) in
        (m, check_invariant m)
  | _ => (m, Err "on_claim requires an open stream"%string)
  end.

Definition on_promote (m : StreamMachine) : StreamMachine * Result InvariantError () :=
  match sm_state m with
  | Streaming _ pending =>
      let m := with_state m (Streaming pending pending) in
      (m, check_invariant m)
  | _ => (m, Err "on_promote requires an open stream"%string)
  end.

(** A panic: the transition that was refused and the state it was refused in. *)
Definition Panic : Type := string * StreamState.
Definition refuse_when_not_live {A} (m : StreamMachine) (transition : string) : Result Panic A :=
  Err (transition, sm_state m).

(** [Shell::try_from(self.seller_bond).unwrap_or(Shell::MAX)]. *)
Definition bond_as_shell (m : StreamMachine) : Shell :=
  unwrap_or SHELL_MAX (try_into u64 (sm_seller_bond m)).

Definition machine_buyer_stop (m : StreamMachine) : Result Panic (Settlement * StreamMachine) :=
  let? settlement :=
    match sm_state m with
    | Probe tick => Ok (BurnBoth (probe_burn (tick_price tick) (bond_as_shell m)))
    | Streaming _ _ | Disputed _ _ => Ok (AmicableSplit (trusted_ticks m) 0)
    | Opening | Stopping | Closed => refuse_when_not_live m "buyer_stop"
    end in
  Ok (settlement, with_state m Stopping).

Definition machine_seller_stop (m : StreamMachine) : Result Panic (Settlement * StreamMachine) :=
  let? settlement :=
    match sm_state m with
    | Probe _ | Streaming _ _ | Disputed _ _ => Ok (AmicableSplit (trusted_ticks m) 0)
    | Opening | Stopping | Closed => refuse_when_not_live m "seller_stop"
    end in
  Ok (settlement, with_state m Stopping).

Definition machine_seller_no_show (m : StreamMachine) : Settlement * StreamMachine :=
  (SellerNoShow 0 (sm_seller_bond m), with_state m Closed).

Definition machine_buyer_dispute (m : StreamMachine) : StreamMachine :=
  let '(trusted, pending) :=
    match sm_state m with
    | Streaming trusted pending => (trusted, pending)
    | Disputed trusted contested => (trusted, uadd u64 trusted contested)
    | _ => (0, 0)
    end in
  with_state m (Disputed trusted (saturating_sub pending trusted)).

Definition machine_release_dispute (m : StreamMachine) : Result Panic (Settlement * StreamMachine) :=
  let? settlement :=
    match sm_state m with
    | Probe _ | Streaming _ _ | Disputed _ _ => Ok (AmicableSplit (trusted_ticks m) 0)
    | Opening | Stopping | Closed => refuse_when_not_live m "release_dispute"
    end in
  Ok (settlement, with_state m Closed).

Definition machine_resolve_dispute_timeout (m : StreamMachine) : Settlement * StreamMachine :=
  let bond := bond_as_shell m in
  (BurnBoth (contested_burn bond bond), with_state m Closed).

Definition machine_close (m : StreamMachine) : StreamMachine := with_state m Closed.

Definition max_buyer_loss (m : StreamMachine) : Z :=
  let tail :=
    match sm_state m with
    | Opening | Closed => 0
    | Probe _ => 1
    | Streaming trusted pending => saturating_sub pending trusted
    | Disputed _ contested => contested
    | Stopping => 0
    end in
  saturating_mul u128 tail (sm_price m).

(** ** Sequences of operations *)

Inductive MachineOp : Type :=
  | OpProbeAccepted
  | OpClaim (cumulative : Z)
  | OpPromote
  | OpBuyerStop
  | OpSellerStop
  | OpNoShow
  | OpDispute
  | OpRelease
  | OpResolve
  | OpClose.

(** The machine after one call: an [Err] result leaves the caller a machine, a panic does not. *)
Definition machine_step (op : MachineOp) (m : StreamMachine) : option StreamMachine :=
  match op with
  | OpProbeAccepted => Some (on_probe_accepted m).1
  | OpClaim c => Some (on_claim m c).1
  | OpPromote => Some (on_promote m).1
  | OpBuyerStop => option_map snd (result_ok (machine_buyer_stop m))
  | OpSellerStop => option_map snd (result_ok (machine_seller_stop m))
  | OpNoShow => Some (machine_seller_no_show m).2
  | OpDispute => Some (machine_buyer_dispute m)
  | OpRelease => option_map snd (result_ok (machine_release_dispute m))
  | OpResolve => Some (machine_resolve_dispute_timeout m).2
  | OpClose => Some (machine_close m)
  end.
Fixpoint machine_run (ops : list MachineOp) (m : StreamMachine) : option StreamMachine :=
  match ops with
  | [] => Some m
  | op :: ops => let* m := machine_step op m in machine_run ops m
  end.

(** * Properties *)

(** The arguments of a claim are [u64]. *)
Definition op_in_range (op : MachineOp) : Prop :=
  match op with OpClaim c => in_range u64 c | _ => True end.

Definition machine_wf (price : Shell) (m : StreamMachine) : Prop :=
  sm_price m = price ∧ sm_seller_bond m = 2 * price ∧
  match sm_state m with
  | Probe tick => tick_price tick = price
  | Streaming trusted pending => 0 ≤ trusted ≤ pending ∧ pending ≤ umax u64
  | Disputed trusted contested => 0 ≤ trusted ∧ 0 ≤ contested ∧ trusted + contested ≤ umax u64
  | Opening => False
  | Stopping | Closed => True
  end.

Lemma machine_open_wf price params : in_range u64 price → machine_wf price (StreamMachine_open price params).
Proof.
  intros [? ?]. split_and!; cbn; [done| |done]. rewrite umul_exact; cbn in *; lia.
Qed.

Lemma machine_step_wf price op m m' :
  machine_wf price m → op_in_range op → machine_step op m = Some m' → machine_wf price m'.
Proof.
  intros (Hp & Hb & Hs) Hop Hstep. destruct m as [s p b]. cbn in *. subst.
  destruct op; cbn in *;
    unfold on_probe_accepted, on_claim, on_promote, machine_buyer_stop, machine_seller_stop,
      machine_release_dispute, machine_buyer_dispute, machine_wf, with_state, saturating_sub in *; cbn in *;
    destruct s; cbn in *; try done; simplify_eq/=;
    try (split_and!; cbn; try done; lia).
  - destruct (Z.ltb_spec cumulative pending); cbn; split_and!; try done; unfold in_range in Hop; cbn in *; lia.
  - rewrite uadd_exact by (cbn in *; lia). split_and!; try done; cbn in *; lia.
Qed.

Lemma machine_run_wf price ops m m' :
  machine_wf price m → Forall op_in_range ops → machine_run ops m = Some m' → machine_wf price m'.
Proof.
  intros Hm Hops. revert m Hm. induction Hops as [|op ops Hop Hops IH]; intros m Hm Hr; cbn in Hr.
  - by injection Hr as <-.
  - ok_inv. eapply IH, H0. by eapply machine_step_wf.
Qed.

(** A deal the money of which is still to be settled. *)
Definition live (m : StreamMachine) : bool :=
  match sm_state m with Probe _ | Streaming _ _ | Disputed _ _ => true | _ => false end.

(** For every sequence of operations on an opened stream, the claim pipeline stays
    ordered (trusted at most pending), the internal check that follows a claim or a
    promotion never fires, and the loss the buyer is told of is exact: the price times the
    contested tail, never a saturated figure. *)
Theorem machine_pipeline price params ops m :
  in_range u64 price → Forall op_in_range ops →
  machine_run ops (StreamMachine_open price params) = Some m →
  machine_wf price m ∧ check_invariant m = Ok () ∧
  (∀ c, (on_claim m c).2 = Ok () ↔ ∃ t p, sm_state m = Streaming t p ∧ p ≤ c) ∧
  (∀ t p, sm_state m = Streaming t p → max_buyer_loss m = (p - t) * price) ∧
  (∀ t c, sm_state m = Disputed t c → max_buyer_loss m = c * price).
Proof.
  intros Hp Hops Hr. pose proof (machine_run_wf _ _ _ _ (machine_open_wf price params Hp) Hops Hr) as Hwf.
  split; [done|]. destruct Hwf as (<- & _ & Hs). destruct Hp as [Hp0 Hp1].
  unfold check_invariant, on_claim, max_buyer_loss, saturating_mul, saturating_sub.
  split_and!.
  - destruct (sm_state m); try done. destruct (Z.ltb_spec pending trusted); [lia|done].
  - intros c. destruct (sm_state m); cbn; try naive_solver.
    destruct (Z.ltb_spec c pending); cbn; [naive_solver lia|].
    unfold check_invariant; cbn. destruct (Z.ltb_spec c pending); [lia|]. naive_solver lia.
  - intros t p Ht. rewrite Ht in *. rewrite Z.max_r, Z.min_l by (cbn in *; nia). done.
  - intros t c Ht. rewrite Ht in *. rewrite Z.min_l by (cbn in *; nia). done.
Qed.

Lemma machine_pipeline_witness :
  ∃ m, machine_run [OpProbeAccepted; OpClaim 5; OpClaim 9] (StreamMachine_open 7 DobParams_canonical) = Some m ∧
       max_buyer_loss m = 28.
Proof.
  eexists. split; [by vm_compute|].
  destruct (machine_pipeline 7 DobParams_canonical [OpProbeAccepted; OpClaim 5; OpClaim 9]
    (mkMachine (Streaming 5 9) 7 14)) as (_ & _ & _ & Hl & _).
  - by vm_compute.
  - repeat constructor; by vm_compute.
  - by vm_compute.
  - exact (Hl 5 9 eq_refl).
Defined.

(** Trusted consumption is final.  No operation on a live deal lowers it while the deal
    stays live; every settlement of an accepted deal pays exactly the trusted ticks, never
    the pending tail; and once a stop or a release has produced its settlement, asking for
    another one is refused. *)
Theorem machine_trusted_final price params ops m op m' :
  in_range u64 price → Forall op_in_range ops →
  machine_run ops (StreamMachine_open price params) = Some m →
  live m = true → machine_step op m = Some m' →
  (live m' = true → trusted_ticks m ≤ trusted_ticks m') ∧
  (∀ s m'', machine_buyer_stop m = Ok (s, m'') → machine_on_probe m = false →
     s = AmicableSplit (trusted_ticks m) 0) ∧
  (live m' = false → machine_buyer_stop m' = Err ("buyer_stop"%string, sm_state m') ∧
     machine_seller_stop m' = Err ("seller_stop"%string, sm_state m') ∧
     machine_release_dispute m' = Err ("release_dispute"%string, sm_state m')).
Proof.
  intros Hp Hops Hr Hl Hstep.
  pose proof (machine_run_wf _ _ _ _ (machine_open_wf price params Hp) Hops Hr) as (_ & _ & Hs).
  split_and!.
  - intros Hl'. destruct m as [s p b], op; cbn in *;
      unfold on_probe_accepted, on_claim, on_promote, machine_buyer_stop, machine_seller_stop,
        machine_release_dispute, machine_buyer_dispute in Hstep; cbn in Hstep;
      destruct s; cbn in *; try done; simplify_eq/=; cbn; try lia.
    destruct (cumulative <? pending); cbn; lia.
  - intros s m'' Hst Hpr. unfold machine_buyer_stop, machine_on_probe, live in *.
    destruct (sm_state m); cbn in *; try done; by simplify_eq.
  - intros Hd. unfold machine_buyer_stop, machine_seller_stop, machine_release_dispute,
      refuse_when_not_live, live in *. by destruct (sm_state m').
Qed.

Lemma machine_trusted_final_witness :
  ∃ m m', machine_run [OpProbeAccepted; OpClaim 5] (StreamMachine_open 7 DobParams_canonical) = Some m ∧
    machine_step OpBuyerStop m = Some m' ∧
    machine_seller_stop m' = Err ("seller_stop"%string, Stopping).
Proof.
  exists (mkMachine (Streaming 1 5) 7 14), (mkMachine Stopping 7 14).
  split; [by vm_compute|]. split; [by vm_compute|].
  destruct (machine_trusted_final 7 DobParams_canonical [OpProbeAccepted; OpClaim 5]
    (mkMachine (Streaming 1 5) 7 14) OpBuyerStop (mkMachine Stopping 7 14)) as (_ & _ & Hd);
    [by vm_compute|repeat constructor; by vm_compute|by vm_compute..|].
  exact (proj1 (proj2 (Hd eq_refl))).
Defined.

(** A dispute is not guarded: it turns a closed machine into a disputed one, from which a
    second settlement can be taken. *)
Example dispute_after_close :
  let m := machine_close (StreamMachine_open 7 DobParams_canonical) in
  result_ok (machine_buyer_stop (machine_buyer_dispute m))
  = Some (AmicableSplit 0 0, with_state m Stopping).
Proof. by vm_compute. Qed.
