(* ===== verification/DealGetters.v ===== *)
(** * Strict getter decoders: crates/core/src/market/types.rs

    [decode_getter] of the four deal getters and of the offer latch over a JSON value.
    JSON itself is the serde_json crate: the decoders are stated for any type of values
    with its accessors ([JsonValue]).  The main theorem characterises exactly the values
    the subscription decoder accepts and what it returns for them. *)
From S2P Require Import Prelude RustText Params DealTypes.

(** serde_json's [Value]: [as_object] (a finite map), [as_bool] and [as_str]. *)
Class JsonValue (V : Type) : Type := {
  as_object : V → option (gmap string V);
  as_bool : V → option bool;
  as_str : V → option string;
}.

Section Getters.
Context {V : Type} `{JsonValue V}.

Definition getter_exact_object (value : V) (getter : string) (expected_fields : list string)
    : Result text (gmap string V) :=
  let? object := ok_or (as_object value) f[getter; " returned a non-object JSON value"] in
  let missing := filter (λ field, object !! field = None) expected_fields in
  let unexpected := merge_sort str_le (filter (λ field, field ∉ expected_fields) (map fst (map_to_list object))) in
  let n := size object in
  if negb (bool_decide (missing = [])) || negb (bool_decide (unexpected = []))
     || negb (n =? length expected_fields)%nat
  then Err (f[getter; " returned "; Z.of_nat n; " fields, expected exactly "; Z.of_nat (length expected_fields)]
            ++ (if bool_decide (missing = []) then []
                else f["; missing fields: "] ++ join ", " (map (λ m, f[Lit m]) missing))
            ++ (if bool_decide (unexpected = []) then []
                else f["; unexpected fields: "] ++ join ", " (map (λ m, f[Lit m]) unexpected)))
  else Ok object.

Definition getter_field (value : V) (getter field : string) : Result text V :=
  let? object := ok_or (as_object value) f[getter; " returned a non-object JSON value"] in
  ok_or (object !! field) f[getter; "."; field; " is missing"].

Definition getter_bool (value : V) (getter field : string) : Result text bool :=
  let? v := getter_field value getter field in
  ok_or (as_bool v) f[getter; "."; field; " is not a bool"].

Definition getter_decimal (value : V) (getter field : string) : Result text string :=
  let? v := getter_field value getter field in
  let? raw := ok_or (as_str v) f[getter; "."; field; " is not a decimal string"] in
  if String.eqb raw "" || negb (str_all is_ascii_digit raw) then
    Err f[getter; "."; field; " value "; Dbg raw; " is not an unsigned decimal integer"]
  else Ok raw.

Definition getter_u8 (value : V) (getter field : string) : Result text Z :=
  let? raw := getter_decimal value getter field in
  ok_or (parse_uint u8 raw)
    f[getter; "."; field; " value "; Dbg raw; " exceeds uint8: number too large to fit in target type"].
Definition getter_u64 (value : V) (getter field : string) : Result text Z :=
  let? raw := getter_decimal value getter field in
  ok_or (parse_uint u64 raw)
    f[getter; "."; field; " value "; Dbg raw; " exceeds uint64: number too large to fit in target type"].
Definition getter_u128 (value : V) (getter field : string) : Result text Z :=
  let? raw := getter_decimal value getter field in
  ok_or (parse_uint u128 raw)
    f[getter; "."; field; " value "; Dbg raw; " exceeds uint128: number too large to fit in target type"].

Definition SUBSCRIPTION_GETTER : string := "getSubscription()".
Definition SUBSCRIPTION_FIELDS : list string :=
  ["dealFlags"; "subWeeks"; "weekIndex"; "tokensPerWeek"; "fundedTokens"; "tokensPaid";
   "periodStart"; "weekBaseTokens"]%string.

(** The checks after the eight fields have been read. *)
Definition DealSubscription_check (decoded : DealSubscription) : Result text DealSubscription :=
  let G := SUBSCRIPTION_GETTER in
  let unknown := Z.land (deal_flags decoded) (255 - flags.DEAL_MASK) in
  if negb (unknown =? 0) then
    Err f[G; ".dealFlags contains unknown deal-shape bits 0x"; Hex2 unknown]
  else
  let subscription_flag := has_flag (deal_flags decoded) flags.SUBSCRIPTION in
  if negb (Bool.eqb subscription_flag (negb (sub_weeks decoded =? 0))) then
    Err f[G; " has contradictory subscription flag/subWeeks shape: dealFlags=0x"; Hex2 (deal_flags decoded); ", subWeeks="; sub_weeks decoded]
  else if week_index decoded >? sub_weeks decoded then
    Err f[G; ".weekIndex "; week_index decoded; " exceeds subWeeks "; sub_weeks decoded]
  else if tokens_paid decoded >? funded_tokens decoded then
    Err f[G; ".tokensPaid "; tokens_paid decoded; " exceeds fundedTokens "; funded_tokens decoded]
  else if week_base_tokens decoded >? funded_tokens decoded then
    Err f[G; ".weekBaseTokens "; week_base_tokens decoded; " exceeds fundedTokens "; funded_tokens decoded]
  else if subscription_flag then
    if negb (sub_weeks decoded =? SUBSCRIPTION_WEEKS) then
      Err f[G; ".subWeeks "; sub_weeks decoded; " does not equal the canonical "; SUBSCRIPTION_WEEKS; "-week term"]
    else
    let? expected := ok_or (checked_mul u128 (tokens_per_week decoded) (sub_weeks decoded))
                       f[G; ".tokensPerWeek x subWeeks overflows uint128"] in
    if negb (expected =? funded_tokens decoded) then
      Err f[G; " subscription quota "; tokens_per_week decoded; " x "; sub_weeks decoded; " does not equal fundedTokens "; funded_tokens decoded]
    else Ok decoded
  else if negb (week_index decoded =? 0)
          || negb (tokens_per_week decoded =? funded_tokens decoded)
          || negb (week_base_tokens decoded =? 0) then
    Err f[G; " ordinary deal has contradictory weekly state: weekIndex="; week_index decoded; ", tokensPerWeek="; tokens_per_week decoded; ", fundedTokens="; funded_tokens decoded; ", weekBaseTokens="; week_base_tokens decoded]
  else Ok decoded.

Definition DealSubscription_decode_getter (value : V) : Result text DealSubscription :=
  let G := SUBSCRIPTION_GETTER in
  let? _ := getter_exact_object value G SUBSCRIPTION_FIELDS in
  let? deal_flags := getter_u8 value G "dealFlags" in
  let? sub_weeks := getter_u8 value G "subWeeks" in
  let? week_index := getter_u8 value G "weekIndex" in
  let? tokens_per_week := getter_u128 value G "tokensPerWeek" in
  let? funded_tokens := getter_u128 value G "fundedTokens" in
  let? tokens_paid := getter_u128 value G "tokensPaid" in
  let? period_start := getter_u64 value G "periodStart" in
  let? week_base_tokens := getter_u128 value G "weekBaseTokens" in
  DealSubscription_check {|
    deal_flags := deal_flags; sub_weeks := sub_weeks; week_index := week_index;
    tokens_per_week := tokens_per_week; funded_tokens := funded_tokens;
    tokens_paid := tokens_paid; period_start := period_start;
    week_base_tokens := week_base_tokens |}.

Definition GET_STATE_FIELDS : list string :=
  ["funded"; "opened"; "probeAccepted"; "disputed"; "deposit"; "probeTick"; "finalizedOwed";
   "tokensFinal"; "tokensPending"; "probeTime"; "lastClaimTime"; "disputeTime"; "fundedTime"]%string.

Definition DealChainState_decode_getter (value : V) : Result text DealChainState :=
  let G := "getState()"%string in
  let? _ := getter_exact_object value G GET_STATE_FIELDS in
  let? funded_time := getter_u64 value G "fundedTime" in
  let? funded := getter_bool value G "funded" in
  let? opened := getter_bool value G "opened" in
  let? probe_accepted := getter_bool value G "probeAccepted" in
  let? disputed := getter_bool value G "disputed" in
  let? deposit := getter_u128 value G "deposit" in
  let? probe_tick := getter_u128 value G "probeTick" in
  let? finalized_owed := getter_u128 value G "finalizedOwed" in
  let? tokens_final := getter_u128 value G "tokensFinal" in
  let? tokens_pending := getter_u128 value G "tokensPending" in
  let? probe_time := getter_u64 value G "probeTime" in
  let? last_claim_time := getter_u64 value G "lastClaimTime" in
  let? dispute_time := getter_u64 value G "disputeTime" in
  if tokens_final >? tokens_pending then
    Err f[G; " claim pipeline is not monotonic: tokensFinal="; tokens_final; " tokensPending="; tokens_pending]
  else Ok {|
    cs_funded := funded; cs_opened := opened; cs_probe_accepted := probe_accepted;
    cs_disputed := disputed; cs_deposit := deposit; cs_finalized_owed := finalized_owed;
    cs_tokens_final := tokens_final; cs_tokens_pending := tokens_pending;
    cs_probe_tick := probe_tick;
    cs_funded_time := if funded_time =? 0 then None else Some funded_time;
    cs_probe_time := probe_time; cs_last_claim_time := last_claim_time;
    cs_dispute_time := dispute_time |}.

Definition GET_OFFER_FIELDS : list string := ["offerPosted"%string].
Definition DealOfferLatch_decode_getter (value : V) : Result text DealOfferLatch :=
  let G := "getOffer()"%string in
  let? _ := getter_exact_object value G GET_OFFER_FIELDS in
  let? posted := getter_bool value G "offerPosted" in
  Ok {| offer_posted := posted |}.

Definition DealSellerBond_decode_getter (value : V) : Result text DealSellerBond :=
  let G := "getSellerBond()"%string in
  let? _ := getter_exact_object value G ["bondFunded"; "bondHeld"; "bondRequired"]%string in
  let? funded := getter_bool value G "bondFunded" in
  let? held := getter_u128 value G "bondHeld" in
  let? required := getter_u128 value G "bondRequired" in
  Ok {| sb_bond_funded := funded; sb_bond_held := held; sb_bond_required := required |}.

Definition DealBuyerBond_decode_getter (value : V) : Result text DealBuyerBond :=
  let G := "getBuyerBond()"%string in
  let? _ := getter_exact_object value G ["bondHeld"; "bondRequired"]%string in
  let? held := getter_u128 value G "bondHeld" in
  let? required := getter_u128 value G "bondRequired" in
  Ok {| bb_bond_held := held; bb_bond_required := required |}.
End Getters.

(** * Well-formed subscriptions *)

(** The width of every field. *)
Definition subscription_widths (s : DealSubscription) : Prop :=
  in_range u8 (deal_flags s) ∧ in_range u8 (sub_weeks s) ∧ in_range u8 (week_index s) ∧
  in_range u128 (tokens_per_week s) ∧ in_range u128 (funded_tokens s) ∧
  in_range u128 (tokens_paid s) ∧ in_range u64 (period_start s) ∧ in_range u128 (week_base_tokens s).

(** The shape of a deal: only deal-shape flags; a subscription has the flag, the canonical
    term and a quota that fills the funding exactly; an ordinary deal has no weekly books. *)
Definition subscription_shape (s : DealSubscription) : Prop :=
  (∃ tee sub : bool, deal_flags s =
     Z.lor (if tee then flags.TEE else 0) (if sub then flags.SUBSCRIPTION else 0) ∧
   if sub then sub_weeks s = SUBSCRIPTION_WEEKS ∧
               funded_tokens s = tokens_per_week s * SUBSCRIPTION_WEEKS
   else sub_weeks s = 0 ∧ week_index s = 0 ∧ tokens_per_week s = funded_tokens s ∧
        week_base_tokens s = 0) ∧
  week_index s ≤ sub_weeks s ∧ tokens_paid s ≤ funded_tokens s ∧
  week_base_tokens s ≤ funded_tokens s.

(** The bits of a byte of flags without unknown bits. *)
Lemma known_flags fl :
  in_range u8 fl → Z.land fl (255 - flags.DEAL_MASK) = 0 →
  fl = Z.lor (if has_flag fl flags.TEE then flags.TEE else 0)
             (if has_flag fl flags.SUBSCRIPTION then flags.SUBSCRIPTION else 0).
Proof.
  intros [H0 H1].
  assert (Hall : forallb (λ n, let fl := Z.of_nat n in
    negb (Z.land fl (255 - flags.DEAL_MASK) =? 0) ||
    (fl =? Z.lor (if has_flag fl flags.TEE then flags.TEE else 0)
             (if has_flag fl flags.SUBSCRIPTION then flags.SUBSCRIPTION else 0))) (seq 0 256) = true)
    by (vm_compute; reflexivity).
  rewrite forallb_forall in Hall. specialize (Hall (Z.to_nat fl)).
  cbn zeta beta in Hall. rewrite Z2Nat.id in Hall by lia. intros Hu. rewrite Hu in Hall.
  apply Z.eqb_eq. apply Hall. apply in_seq. cbn in H1. lia.
Qed.

Lemma DealSubscription_check_Ok s d :
  subscription_widths s →
  DealSubscription_check s = Ok d ↔ d = s ∧ subscription_shape s.
Proof.
  intros (Hf & _ & _ & _ & Hfw & _). unfold DealSubscription_check, subscription_shape. split.
  - intros Hc. destruct (negb (Z.land _ _ =? 0)) eqn:Hu; [discriminate|].
    apply negb_false_iff, Z.eqb_eq in Hu. pose proof (known_flags _ Hf Hu) as Hk.
    destruct (has_flag (deal_flags s) flags.SUBSCRIPTION) eqn:Hs;
      destruct (Z.eqb_spec (sub_weeks s) 0) as [Hw|Hw]; cbn [negb Bool.eqb] in Hc; try discriminate;
      ok_inv; (split; [done|]).
    + apply negb_false_iff, Z.eqb_eq in Heqb3. apply negb_false_iff, Z.eqb_eq in Heqb2.
      split; [|lia]. exists (has_flag (deal_flags d) flags.TEE), true. split; [done|]. rewrite Heqb2 in *. lia.
    + split; [|lia]. exists (has_flag (deal_flags d) flags.TEE), false. split; [done|]. lia.
  - intros (-> & (tee & sub & Hfl & Hs) & Hwi & Htp & Hwb).
    rewrite Hfl. assert (Hu : Z.land (Z.lor (if tee then flags.TEE else 0) (if sub then flags.SUBSCRIPTION else 0)) (255 - flags.DEAL_MASK) = 0)
      by (by destruct tee, sub). rewrite Hu. cbn [Z.eqb negb].
    assert (Hsf : has_flag (Z.lor (if tee then flags.TEE else 0) (if sub then flags.SUBSCRIPTION else 0)) flags.SUBSCRIPTION = sub)
      by (by destruct tee, sub). rewrite Hsf.
    destruct (Z.gtb_spec (week_index s) (sub_weeks s)); [lia|].
    destruct (Z.gtb_spec (tokens_paid s) (funded_tokens s)); [lia|].
    destruct (Z.gtb_spec (week_base_tokens s) (funded_tokens s)); [lia|].
    destruct sub.
    + destruct Hs as [Hw Hq]. rewrite Hw in *. change (SUBSCRIPTION_WEEKS =? 0) with false. cbn [negb Bool.eqb].
      rewrite Z.eqb_refl. cbn [negb].
      rewrite (proj2 (checked_mul_Some u128 _ _ (funded_tokens s))) by (unfold in_range in Hfw; lia).
      cbn [ok_or rbind]. by rewrite Z.eqb_refl.
    + destruct Hs as (Hw & Hi & Hq & Hb). rewrite Hw, Hi, Hq, Hb, !Z.eqb_refl. done.
Qed.

Lemma filter_nil_iff {A} (P : A → Prop) `{∀ x, Decision (P x)} (l : list A) :
  filter P l = [] ↔ Forall (λ x, ¬ P x) l.
Proof.
  induction l as [|a l IH]; [by split|]. rewrite Forall_cons, <- IH.
  rewrite filter_cons. destruct (decide (P a)); naive_solver.
Qed.

Lemma digits_value_nonneg a s v : 0 ≤ a → digits_value a s = Some v → 0 ≤ v.
Proof.
  revert a. induction s as [|c s IH]; intros a Ha; cbn; [by intros [= <-]|].
  destruct (is_ascii_digit c) eqn:Hc; [|done]. intros Hv. eapply IH, Hv.
  unfold is_ascii_digit in Hc. lia.
Qed.

Lemma NoDup_SUBSCRIPTION_FIELDS : NoDup SUBSCRIPTION_FIELDS.
Proof. apply (bool_decide_unpack _). by vm_compute. Qed.

Section Decode.
Context {V : Type} `{JsonValue V}.

(** A value that is an object with exactly the given fields. *)
Definition exact_object (value : V) (fields : list string) : Prop :=
  ∃ object, as_object value = Some object ∧ dom object = (list_to_set fields : gset string).

(** A field whose value is a string of decimal digits denoting [n]. *)
Definition decimal_field (value : V) (w : uint) (field : string) (n : Z) : Prop :=
  ∃ object v raw, as_object value = Some object ∧ object !! field = Some v ∧ as_str v = Some raw ∧
    raw ≠ EmptyString ∧ str_all is_ascii_digit raw = true ∧ digits_value 0 raw = Some n ∧ in_range w n.

Lemma getter_exact_object_Ok value getter fields object :
  NoDup fields →
  getter_exact_object value getter fields = Ok object ↔
  as_object value = Some object ∧ dom object = (list_to_set fields : gset string).
Proof.
  intros Hnd. unfold getter_exact_object. destruct (as_object value) as [o|] eqn:Ho; cbn [ok_or rbind];
    [|split; [discriminate|naive_solver]].
  set (missing := filter _ fields). set (unexpected := merge_sort _ _).
  assert (Hm : missing = [] ↔ (list_to_set fields : gset string) ⊆ dom o).
  { unfold missing. rewrite filter_nil_iff, Forall_forall.
    split; intros Hf x; [rewrite elem_of_list_to_set, elem_of_dom, <- not_eq_None_Some; by apply Hf|].
    intros Hx. rewrite not_eq_None_Some, <- elem_of_dom. by apply Hf, elem_of_list_to_set. }
  assert (Hu : unexpected = [] ↔ dom o ⊆ (list_to_set fields : gset string)).
  { unfold unexpected. rewrite <- Permutation_nil_r, merge_sort_Permutation, Permutation_nil_r.
    rewrite filter_nil_iff, Forall_forall.
    split; intros Hf x Hx.
    - apply elem_of_list_to_set. apply elem_of_dom in Hx as [v Hv].
      destruct (decide (x ∈ fields)) as [|Hn]; [done|]. exfalso. apply (Hf x); [|done].
      apply (list_elem_of_fmap_2' fst _ (x, v)); [|done]. by apply elem_of_map_to_list.
    - apply list_elem_of_fmap in Hx as ([k v] & -> & Hkv%elem_of_map_to_list). cbn.
      intros Hn. apply Hn. apply (elem_of_list_to_set (C := gset string)), Hf, elem_of_dom. eauto. }
  split.
  - destruct (bool_decide_reflect (missing = [])); [|discriminate].
    destruct (bool_decide_reflect (unexpected = [])); [|discriminate]. cbn [negb orb].
    destruct (negb _); [discriminate|]. intros [= <-]. split; [done|].
    apply set_eq. intros x. split; [by apply Hu|by apply Hm].
  - intros [[= <-] Hd]. rewrite !bool_decide_true by (try apply Hm; try apply Hu; by rewrite Hd).
    assert (size o = length fields) as ->.
    { rewrite <- (size_dom (D := gset string)), Hd. by apply size_list_to_set. }
    by rewrite Nat.eqb_refl.
Qed.

Lemma getter_decimal_Ok value getter field raw :
  getter_decimal value getter field = Ok raw ↔
  ∃ object v, as_object value = Some object ∧ object !! field = Some v ∧ as_str v = Some raw ∧
    raw ≠ EmptyString ∧ str_all is_ascii_digit raw = true.
Proof.
  unfold getter_decimal, getter_field. split.
  - intros Hg. ok_inv. apply orb_false_iff in Heqb as [Hne%String.eqb_neq Hd%negb_false_iff]. eauto 10.
  - intros (o & v & -> & Hv & Hs & Hne & Hd). cbn. rewrite Hv. cbn. rewrite Hs. cbn.
    apply String.eqb_neq in Hne. by rewrite Hne, Hd.
Qed.

Lemma parse_uint_digits_iff w s n :
  s ≠ EmptyString → str_all is_ascii_digit s = true →
  parse_uint w s = Some n ↔ digits_value 0 s = Some n ∧ in_range w n.
Proof.
  intros Hne Hd. split.
  - unfold parse_uint. rewrite strip_plus_digits by done. destruct s as [|c s]; [done|].
    destruct (digits_value 0 (String c s)) as [v|] eqn:Hv; [|done].
    intros [-> ?]%try_into_Some. split; [done|]. split; [|done].
    by apply digits_value_nonneg in Hv.
  - intros [Hv [_ ?]]. by apply parse_uint_digits.
Qed.

Lemma decimal_field_Ok (get : V → string → string → Result text Z) w value getter field n :
  (∀ value getter field, ∃ e, get value getter field =
     rbind (getter_decimal value getter field) (λ raw, ok_or (parse_uint w raw) (e raw))) →
  get value getter field = Ok n ↔ decimal_field value w field n.
Proof.
  intros Hg. destruct (Hg value getter field) as [e ->]. rewrite bind_Ok.
  setoid_rewrite getter_decimal_Ok. setoid_rewrite ok_or_Ok. unfold decimal_field. split.
  - intros (raw & (o & v & Ho & Hv & Hs & Hne & Hd) & Hp).
    apply parse_uint_digits_iff in Hp as [Hp Hr]; [|done..]. by exists o, v, raw.
  - intros (o & v & raw & Ho & Hv & Hs & Hne & Hd & Hp & Hr). exists raw.
    split; [by exists o, v|]. by apply parse_uint_digits_iff.
Qed.

Lemma getter_u8_Ok value getter field n :
  getter_u8 value getter field = Ok n ↔ decimal_field value u8 field n.
Proof. apply decimal_field_Ok. intros. by eexists (λ raw, _). Qed.
Lemma getter_u64_Ok value getter field n :
  getter_u64 value getter field = Ok n ↔ decimal_field value u64 field n.
Proof. apply decimal_field_Ok. intros. by eexists (λ raw, _). Qed.
Lemma getter_u128_Ok value getter field n :
  getter_u128 value getter field = Ok n ↔ decimal_field value u128 field n.
Proof. apply decimal_field_Ok. intros. by eexists (λ raw, _). Qed.

Lemma decimal_field_range value w field n : decimal_field value w field n → in_range w n.
Proof. intros (? & ? & ? & ? & ? & ? & ? & ? & ? & ?). done. Qed.

(** The eight fields of a value, as the numbers they denote. *)
Definition subscription_fields (value : V) (s : DealSubscription) : Prop :=
  decimal_field value u8 "dealFlags" (deal_flags s) ∧ decimal_field value u8 "subWeeks" (sub_weeks s) ∧
  decimal_field value u8 "weekIndex" (week_index s) ∧
  decimal_field value u128 "tokensPerWeek" (tokens_per_week s) ∧
  decimal_field value u128 "fundedTokens" (funded_tokens s) ∧
  decimal_field value u128 "tokensPaid" (tokens_paid s) ∧
  decimal_field value u64 "periodStart" (period_start s) ∧
  decimal_field value u128 "weekBaseTokens" (week_base_tokens s).

Lemma subscription_fields_widths value s : subscription_fields value s → subscription_widths s.
Proof.
  intros (? & ? & ? & ? & ? & ? & ? & ?). repeat split; by eapply decimal_field_range.
Qed.

(** The subscription getter is decoded strictly.  A value is accepted exactly when it is
    an object with the eight fields of the ABI and no other, each of them a string of
    decimal digits within the width of its field, and the eight numbers describe a deal
    that can exist; the result is those eight numbers.  Everything else is an error. *)
Theorem DealSubscription_decode_exact value s :
  DealSubscription_decode_getter value = Ok s ↔
  exact_object value SUBSCRIPTION_FIELDS ∧ subscription_fields value s ∧ subscription_shape s.
Proof.
  unfold DealSubscription_decode_getter. split.
  - intros Hd. repeat (apply bind_Ok in Hd as (? & ? & Hd)).
    apply getter_exact_object_Ok in H0 as [Ho Hdom]; [|apply NoDup_SUBSCRIPTION_FIELDS].
    rewrite ?getter_u8_Ok, ?getter_u64_Ok, ?getter_u128_Ok in *.
    apply DealSubscription_check_Ok in Hd as [-> Hshape].
    + split; [by eexists|]. split; [unfold subscription_fields; cbn; tauto|done].
    + apply (subscription_fields_widths value). unfold subscription_fields; cbn; tauto.
  - intros ((o & Ho & Hdom) & Hf & Hshape).
    rewrite (proj2 (getter_exact_object_Ok value SUBSCRIPTION_GETTER SUBSCRIPTION_FIELDS o NoDup_SUBSCRIPTION_FIELDS))
      by done.
    pose proof (subscription_fields_widths value s Hf) as Hw.
    destruct Hf as (H1 & H2 & H3 & H4 & H5 & H6 & H7 & H8). cbn [rbind].
    rewrite (proj2 (getter_u8_Ok value _ "dealFlags" _) H1), (proj2 (getter_u8_Ok value _ "subWeeks" _) H2),
      (proj2 (getter_u8_Ok value _ "weekIndex" _) H3).
    cbn [rbind].
    rewrite (proj2 (getter_u128_Ok value _ "tokensPerWeek" _) H4), (proj2 (getter_u128_Ok value _ "fundedTokens" _) H5),
      (proj2 (getter_u128_Ok value _ "tokensPaid" _) H6).
    cbn [rbind].
    rewrite (proj2 (getter_u64_Ok value _ "periodStart" _) H7), (proj2 (getter_u128_Ok value _ "weekBaseTokens" _) H8).
    cbn [rbind]. destruct s. by apply DealSubscription_check_Ok.
Qed.
End Decode.

(** ** A concrete JSON type *)

Inductive json : Type :=
  | JBool (b : bool)
  | JStr (s : string)
  | JObj (fields : gmap string json).

#[export] Instance json_value : JsonValue json := {|
  as_object v := match v with JObj m => Some m | _ => None end;
  as_bool v := match v with JBool b => Some b | _ => None end;
  as_str v := match v with JStr s => Some s | _ => None end;
|}.

Definition sample_subscription_json (funded : string) : json :=
  JObj (list_to_map [("dealFlags", JStr "64"); ("subWeeks", JStr "4"); ("weekIndex", JStr "1");
    ("tokensPerWeek", JStr "100"); ("fundedTokens", JStr funded); ("tokensPaid", JStr "100");
    ("periodStart", JStr "70"); ("weekBaseTokens", JStr "080")]%string).
Definition sample_subscription : DealSubscription :=
  {| deal_flags := 64; sub_weeks := 4; week_index := 1; tokens_per_week := 100;
     funded_tokens := 400; tokens_paid := 100; period_start := 70; week_base_tokens := 80 |}.

Example decode_sample :
  DealSubscription_decode_getter (sample_subscription_json "400") = Ok sample_subscription.
Proof. by vm_compute. Qed.
Example decode_sample_bad_quota :
  is_ok (DealSubscription_decode_getter (sample_subscription_json "401")) = false.
Proof. by vm_compute. Qed.
