(* ===== verification/Quote.v ===== *)
(** * Escrow arithmetic of a buy: crates/core/src/market/accounting.rs

    The fee-inclusive escrow, the subscription reserve with its buyer bond, the exactness
    checks made before a money submit, and the refund of a fill below its limit.

    The second part is [coalesce_equivalent_resting_asks] and [executable_quote]; after it, what
    coalescing keeps, and what a quote is: its fills, their order, and the reserve they need. *)
From S2P Require Import Prelude RustText Params DealTypes.

Definition checked_required_escrow_for_buy (ticks max_price_per_tick : Z) : option Z :=
  let* product := checked_mul u128 max_price_per_tick PLATFORM_FEE_BPS in
  let fee := product / 10000 in
  let* unit := checked_add u128 max_price_per_tick fee in
  checked_mul u128 ticks unit.

Definition required_escrow_for_buy (ticks max_price_per_tick : Z) : Z :=
  unwrap_or (umax u128) (checked_required_escrow_for_buy ticks max_price_per_tick).

Record SubscriptionBuyReserve : Type := {
  reserve_deposit : Z;
  reserve_buyer_bond : Z;
  reserve_total_escrow : Z;
}.

Definition subscription_buy_reserve (ticks price_per_tick : Z) : Result text SubscriptionBuyReserve :=
  let? deposit := ok_or (checked_required_escrow_for_buy ticks price_per_tick)
    f["subscription reserve: ticks "; ticks; " x pricePerTick "; price_per_tick; " x (1 + "; PLATFORM_FEE_BPS; "bps fee) overflows u128"] in
  let? buyer_bond := ok_or (checked_mul u128 price_per_tick SUBSCRIPTION_BUYER_BOND_TICKS)
    f["subscription reserve: buyer bond "; SUBSCRIPTION_BUYER_BOND_TICKS; " x pricePerTick "; price_per_tick; " overflows u128"] in
  let? total_escrow := ok_or (checked_add u128 deposit buyer_bond)
    f["subscription reserve: deposit "; deposit; " + buyer bond "; buyer_bond; " overflows u128"] in
  Ok {| reserve_deposit := deposit; reserve_buyer_bond := buyer_bond;
        reserve_total_escrow := total_escrow |}.

Definition ordinary_buy_reserve (ticks max_price_per_tick : Z) : Result text SubscriptionBuyReserve :=
  subscription_buy_reserve ticks max_price_per_tick.

Definition check_subscription_buy_reserve (escrow ticks max_price_per_tick : Z)
    : Result text SubscriptionBuyReserve :=
  let? required := subscription_buy_reserve ticks max_price_per_tick in
  if escrow <? reserve_total_escrow required then
    Err f["subscription escrow "; shell_amount escrow; " SHELL < required "; shell_amount (reserve_total_escrow required); " (= deposit "; shell_amount (reserve_deposit required); " + buyer bond "; shell_amount (reserve_buyer_bond required); " at limit price "; shell_amount max_price_per_tick; ")"]
  else if escrow >? reserve_total_escrow required then
    Err f["subscription escrow "; shell_amount escrow; " SHELL > exact required "; shell_amount (reserve_total_escrow required); " (= deposit "; shell_amount (reserve_deposit required); " + buyer bond "; shell_amount (reserve_buyer_bond required); " at limit price "; shell_amount max_price_per_tick; "); do not overfund the order"]
  else Ok required.

Definition subscription_buy_clearing_refund
    (ticks limit_price_per_tick clearing_price_per_tick : Z) : Result text Z :=
  if clearing_price_per_tick >? limit_price_per_tick then
    Err f["subscription clearing price "; clearing_price_per_tick; " exceeds BUY limit "; limit_price_per_tick]
  else
  let? reserved := subscription_buy_reserve ticks limit_price_per_tick in
  let? forwarded := subscription_buy_reserve ticks clearing_price_per_tick in
  ok_or (checked_sub (reserve_total_escrow reserved) (reserve_total_escrow forwarded))
    f["subscription clearing refund underflows u128"].

Definition check_buy_deposit_headroom (escrow ticks max_price_per_tick : Z) : Result text () :=
  let? required := ok_or (checked_required_escrow_for_buy ticks max_price_per_tick)
    f["escrow check: ticks "; ticks; " x maxPricePerTick "; max_price_per_tick; " x (1 + "; PLATFORM_FEE_BPS; "bps fee) overflows u128 -- absurd configuration, rejected fail-closed ()."] in
  if escrow <? required then
    Err f["escrow "; shell_amount escrow; " SHELL < minimum "; shell_amount required; " (= ticks "; ticks; " x maxPricePerTick "; shell_amount max_price_per_tick; " x (1 + "; PLATFORM_FEE_BPS; "bps book fee)): placeInferenceBuy will be rejected with ERR_INSUFFICIENT_DEPOSIT, and the escrow will orphan in the book (). Raise --escrow to >="; shell_amount required; " or lower --ticks/--max-price-per-tick."]
  else if escrow >? required then
    Err f["escrow "; shell_amount escrow; " SHELL > required "; shell_amount required; " (= ticks "; ticks; " x maxPricePerTick "; shell_amount max_price_per_tick; " x (1 + "; PLATFORM_FEE_BPS; "bps fee)): the surplus ("; shell_amount (usub u128 escrow required); ") is debited but is NOT refunded when the buy rests and is filled as a maker () -- it strands. Set --escrow to exactly "; shell_amount required; ", or omit --escrow to use the computed default."]
  else Ok ().

(** * Properties *)

(** The contract's price of one tick: the price and its truncated fee. *)
Definition unit_price (p : Z) : Z := p + p * PLATFORM_FEE_BPS / 10000.

(** No step of the computation leaves [u128]. *)
Definition escrow_fits (ticks p : Z) : Prop :=
  p * PLATFORM_FEE_BPS ≤ umax u128 ∧ unit_price p ≤ umax u128 ∧ ticks * unit_price p ≤ umax u128.

Lemma checked_required_escrow_Some ticks p e :
  checked_required_escrow_for_buy ticks p = Some e ↔ escrow_fits ticks p ∧ e = ticks * unit_price p.
Proof.
  unfold checked_required_escrow_for_buy, escrow_fits, unit_price. split.
  - intros H. ok_inv. repeat split; done.
  - intros ((H1 & H2 & H3) & ->).
    rewrite (proj2 (checked_mul_Some u128 p _ (p * PLATFORM_FEE_BPS))) by done. cbn [obind].
    rewrite (proj2 (checked_add_Some u128 p _ _)) by done. cbn [obind].
    by apply checked_mul_Some.
Qed.

(** [ok_inv], and the escrow computation in its mathematical form. *)
Ltac escrow_inv :=
  ok_inv;
  repeat match goal with
  | H : checked_required_escrow_for_buy _ _ = Some _ |- _ =>
      apply checked_required_escrow_Some in H as [? ->]
  end.

Lemma unit_price_mono p q : p ≤ q → unit_price p ≤ unit_price q.
Proof. unfold unit_price, PLATFORM_FEE_BPS. intros. divlia. Qed.

Lemma unit_price_ge p : 0 ≤ p → p ≤ unit_price p.
Proof. unfold unit_price, PLATFORM_FEE_BPS. intros. divlia. Qed.

Lemma unit_price_pos p : 0 < p → 0 < unit_price p.
Proof. intros. pose proof (unit_price_ge p). lia. Qed.

Lemma escrow_fits_mono t p q : 0 ≤ t → 0 ≤ p ≤ q → escrow_fits t q → escrow_fits t p.
Proof.
  intros Ht Hpq (H1 & H2 & H3). pose proof (unit_price_mono p q).
  unfold escrow_fits, PLATFORM_FEE_BPS in *. repeat split; nia.
Qed.

Lemma required_escrow_fits t p : escrow_fits t p → required_escrow_for_buy t p = t * unit_price p.
Proof.
  intros H. unfold required_escrow_for_buy.
  by rewrite (proj2 (checked_required_escrow_Some t p (t * unit_price p))).
Qed.

Lemma subscription_buy_reserve_Ok t p r :
  subscription_buy_reserve t p = Ok r ↔
  escrow_fits t p ∧ p * 2 ≤ umax u128 ∧ t * unit_price p + p * 2 ≤ umax u128 ∧
  r = {| reserve_deposit := t * unit_price p; reserve_buyer_bond := p * 2;
         reserve_total_escrow := t * unit_price p + p * 2 |}.
Proof.
  unfold subscription_buy_reserve. split.
  - intros H. escrow_inv.
    unfold SUBSCRIPTION_BUYER_BOND_TICKS in *. naive_solver.
  - intros (Hf & Hb & Ht & ->).
    rewrite (proj2 (checked_required_escrow_Some t p (t * unit_price p))) by done. cbn [ok_or rbind].
    unfold SUBSCRIPTION_BUYER_BOND_TICKS.
    rewrite (proj2 (checked_mul_Some u128 p 2 (p * 2))) by done. cbn [ok_or rbind].
    by rewrite (proj2 (checked_add_Some u128 _ _ (t * unit_price p + p * 2))).
Qed.

(** The deposit check before a buy admits exactly one amount.  It answers [Ok] if and
    only if the escrow is the number of ticks times the fee-inclusive price of a tick and
    no step of that computation leaves the width, the truncated intermediate fee product
    included; a wrapped or saturated figure is never accepted. *)
Theorem deposit_headroom_exact escrow ticks price :
  check_buy_deposit_headroom escrow ticks price = Ok () ↔
  escrow_fits ticks price ∧ escrow = ticks * unit_price price.
Proof.
  unfold check_buy_deposit_headroom. split.
  - intros H. escrow_inv. split; [done|]. lia.
  - intros [Hf ->].
    rewrite (proj2 (checked_required_escrow_Some ticks price (ticks * unit_price price))) by done.
    cbn. rewrite Z.gtb_ltb, Z.ltb_irrefl. done.
Qed.

(** A subscription fill below its limit conserves the buyer's money.  Whenever the
    reserve at the limit price was admitted, the refund is computed for every clearing
    price up to the limit (its underflow branch cannot be reached), it is not negative,
    and deposit and bond at the clearing price and the refund add up to exactly the
    escrow that was sent. *)
Theorem clearing_refund_conserves escrow ticks limit clearing reserved :
  0 ≤ ticks → 0 ≤ clearing ≤ limit →
  check_subscription_buy_reserve escrow ticks limit = Ok reserved →
  ∃ refund forwarded,
    subscription_buy_clearing_refund ticks limit clearing = Ok refund ∧
    subscription_buy_reserve ticks clearing = Ok forwarded ∧
    0 ≤ refund ∧
    reserve_deposit forwarded + reserve_buyer_bond forwarded + refund = escrow ∧
    reserve_total_escrow reserved = escrow.
Proof.
  intros Ht Hc Hr. unfold check_subscription_buy_reserve in Hr.
  apply bind_Ok in Hr as (r & Hres & Hr). ok_inv.
  assert (escrow = reserve_total_escrow reserved) as -> by lia.
  pose proof Hres as (Hf & Hb & Hs & Hre)%subscription_buy_reserve_Ok.
  pose proof (escrow_fits_mono ticks clearing limit Ht Hc Hf) as Hfc.
  pose proof (unit_price_mono clearing limit ltac:(lia)) as Hm.
  assert (Hfw : subscription_buy_reserve ticks clearing = Ok
    {| reserve_deposit := ticks * unit_price clearing; reserve_buyer_bond := clearing * 2;
       reserve_total_escrow := ticks * unit_price clearing + clearing * 2 |}).
  { apply subscription_buy_reserve_Ok. split; [done|]. repeat split; nia. }
  eexists _, _. split_and!; [|exact Hfw|..].
  - unfold subscription_buy_clearing_refund. rewrite Z.gtb_ltb.
    destruct (Z.ltb_spec limit clearing); [lia|]. rewrite Hres, Hfw. cbn [rbind].
    apply ok_or_Ok. apply checked_sub_Some. split; [reflexivity|]. subst reserved. cbn. nia.
  - subst reserved. cbn. nia.
  - subst reserved. cbn. lia.
  - done.
Qed.

Lemma clearing_refund_conserves_witness :
  subscription_buy_clearing_refund 4 3000 2000 = Ok (4 * 1025 + 2000) ∧
  ∃ refund forwarded,
    subscription_buy_clearing_refund 4 3000 2000 = Ok refund ∧
    subscription_buy_reserve 4 2000 = Ok forwarded ∧ 0 ≤ refund ∧
    reserve_deposit forwarded + reserve_buyer_bond forwarded + refund = 18300 ∧
    reserve_total_escrow {| reserve_deposit := 12300; reserve_buyer_bond := 6000;
                            reserve_total_escrow := 18300 |} = 18300.
Proof.
  split; [by vm_compute|].
  apply (clearing_refund_conserves 18300 4 3000 2000); [lia|lia|by vm_compute].
Defined.

(** * Quotes over resting asks: crates/core/src/market/accounting.rs

    [coalesce_equivalent_resting_asks] and [executable_quote].  The loop of the quote is
    [quote_loop], with the code's four running figures; [new_fills] is the specification
    it refines, the list of fills alone. *)

Definition equivalent_resting_ask (a b : OrderBookOrder) : bool :=
  String.eqb (ob_owner_note a) (ob_owner_note b)
  && (ob_price_per_tick a =? ob_price_per_tick b)
  && (ob_ticks a =? ob_ticks b)
  && (ob_escrow a =? ob_escrow b)
  && (ob_deadline a =? ob_deadline b)
  && (ob_flags a =? ob_flags b).

(** The keys of the two sorts; both sorts are stable. *)
Definition order_id_le (a b : OrderBookOrder) : Prop := ob_order_id a ≤ ob_order_id b.
Definition price_id_le (a b : OrderBookOrder) : Prop :=
  ob_price_per_tick a < ob_price_per_tick b ∨
  (ob_price_per_tick a = ob_price_per_tick b ∧ ob_order_id a ≤ ob_order_id b).
#[export] Instance order_id_le_dec : RelDecision order_id_le.
Proof. intros a b. unfold order_id_le. apply _. Defined.
#[export] Instance price_id_le_dec : RelDecision price_id_le.
Proof. intros a b. unfold price_id_le. apply _. Defined.

(** The map from a lower-cased contract to its resting asks, in the order of the book. *)
Definition push_ask (by_tc : gmap string (list OrderBookOrder)) (order : OrderBookOrder)
    : gmap string (list OrderBookOrder) :=
  match ob_token_contract order with
  | Some tc =>
      let k := to_ascii_lowercase tc in
      <[k := default [] (by_tc !! k) ++ [order]]> by_tc
  | None => by_tc
  end.
Definition group_by_tc (orders : list OrderBookOrder) : gmap string (list OrderBookOrder) :=
  foldl push_ask ∅ (filter is_resting_ask orders).

(** One group.  A group holds at least one order, so [group[0]] exists. *)
Definition coalesce_group (entry : string * list OrderBookOrder) : Result text (option OrderBookOrder) :=
  let '(tc, group) := entry in
  let group := merge_sort order_id_le group in
  match group with
  | [] => Ok None
  | representative :: others =>
      if forallb (equivalent_resting_ask representative) others then Ok (Some representative)
      else Err (f["duplicate active sell orders for one TokenContract have conflicting terms/state: "; Address.display_self_dapp tc; " at order_ids ["]
                ++ join "," (map (λ o, f[Prelude.Num (ob_order_id o)]) group)
                ++ f["]. Refusing to coalesce ambiguous liquidity."])
  end.

Definition coalesce_equivalent_resting_asks (orders : list OrderBookOrder)
    : Result text (list OrderBookOrder) :=
  let? coalesced := collect coalesce_group (btree_entries (group_by_tc orders)) in
  Ok (merge_sort price_id_le (omap id coalesced)).

Fixpoint quote_loop (asks : list OrderBookOrder)
    (remaining_ticks remaining_budget filled_ticks total_with_fee : Z) (fills : list QuoteFill)
    : Z * Z * list QuoteFill :=
  match asks with
  | [] => (filled_ticks, total_with_fee, fills)
  | ask :: asks =>
      if (remaining_ticks =? 0) || (remaining_budget =? 0) then (filled_ticks, total_with_fee, fills)
      else
      let unit := required_escrow_for_buy 1 (ob_price_per_tick ask) in
      if (unit =? 0) || (unit =? umax u128) then
        quote_loop asks remaining_ticks remaining_budget filled_ticks total_with_fee fills
      else
      let by_budget := remaining_budget / unit in
      let fill_ticks := Z.min (Z.min (ob_ticks ask) remaining_ticks) by_budget in
      if fill_ticks =? 0 then (filled_ticks, total_with_fee, fills)
      else
      let cost := required_escrow_for_buy fill_ticks (ob_price_per_tick ask) in
      match ob_token_contract ask with
      | None => quote_loop asks remaining_ticks remaining_budget filled_ticks total_with_fee fills
      | Some token_contract =>
          quote_loop asks
            (saturating_sub remaining_ticks fill_ticks) (saturating_sub remaining_budget cost)
            (saturating_add u128 filled_ticks fill_ticks) (saturating_add u128 total_with_fee cost)
            (fills ++ [{| qf_order_id := ob_order_id ask; qf_token_contract := token_contract;
                          qf_ticks := fill_ticks; qf_price_per_tick := ob_price_per_tick ask;
                          qf_cost_with_fee := cost |}])
      end
  end.

Definition executable_quote (asks : list OrderBookOrder) (wanted_ticks budget : option Z)
    : Result text ExecutableQuote :=
  if Bool.eqb (bool_decide (is_Some wanted_ticks)) (bool_decide (is_Some budget)) then
    Err f["set exactly one of ticks or budget"]
  else
  let? asks := coalesce_equivalent_resting_asks asks in
  let '(filled, total, fills) :=
    quote_loop asks (unwrap_or (umax u128) wanted_ticks) (unwrap_or (umax u128) budget) 0 0 [] in
  Ok {| filled_ticks := filled; total_with_fee := total;
        complete := match wanted_ticks with Some want => filled >=? want | None => filled >? 0 end;
        fills := fills |}.

Definition submit_safe_single_ask_quote (asks : list OrderBookOrder) (wanted_ticks budget : option Z)
    : Result text ExecutableQuote :=
  executable_quote asks wanted_ticks budget.

(** * Properties of coalescing *)

Lemma equivalent_resting_ask_spec a b :
  equivalent_resting_ask a b = true ↔
  ob_owner_note a = ob_owner_note b ∧ ob_price_per_tick a = ob_price_per_tick b ∧
  ob_ticks a = ob_ticks b ∧ ob_escrow a = ob_escrow b ∧ ob_deadline a = ob_deadline b ∧
  ob_flags a = ob_flags b.
Proof. unfold equivalent_resting_ask. rewrite !andb_true_iff, String.eqb_eq, !Z.eqb_eq. tauto. Qed.

#[export] Instance price_id_le_total : Total price_id_le.
Proof. intros a b. unfold price_id_le. lia. Qed.
#[export] Instance price_id_le_trans : Transitive price_id_le.
Proof. intros a b c. unfold price_id_le. lia. Qed.
#[export] Instance order_id_le_total : Total order_id_le.
Proof. intros a b. unfold order_id_le. lia. Qed.
#[export] Instance order_id_le_trans : Transitive order_id_le.
Proof. intros a b c. unfold order_id_le. lia. Qed.

(** The lower-cased contract of an order. *)
Definition ask_key (o : OrderBookOrder) : option string :=
  option_map to_ascii_lowercase (ob_token_contract o).

Lemma foldl_push_ask l m k :
  default [] (foldl push_ask m l !! k) = default [] (m !! k) ++ filter (λ o, ask_key o = Some k) l.
Proof.
  revert m. induction l as [|o l IH]; intros m; cbn [foldl]; [by rewrite app_nil_r|].
  rewrite IH, filter_cons. unfold push_ask. destruct (decide (ask_key o = Some k)) as [Hk|Hk];
    unfold ask_key in Hk; destruct (ob_token_contract o) as [tc|]; cbn [option_map] in Hk; try done.
  - injection Hk as <-. rewrite lookup_insert_eq. cbn [from_option id]. by rewrite <- app_assoc.
  - by rewrite lookup_insert_ne by congruence.
Qed.

Lemma foldl_push_ask_nonempty l m k g :
  (∀ k g, m !! k = Some g → g ≠ []) → foldl push_ask m l !! k = Some g → g ≠ [].
Proof.
  revert m. induction l as [|o l IH]; intros m Hm; cbn [foldl]; [by apply Hm|].
  apply IH. intros k' g'. unfold push_ask. destruct (ob_token_contract o) as [tc|]; [|apply Hm].
  destruct (decide (k' = to_ascii_lowercase tc)) as [->|Hn].
  - rewrite lookup_insert_eq. intros [= <-] [_ ?]%app_eq_nil. done.
  - rewrite lookup_insert_ne by done. apply Hm.
Qed.

(** A group is the non-empty list of the resting asks with its key. *)
Lemma group_by_tc_Some orders k g :
  group_by_tc orders !! k = Some g ↔
  g ≠ [] ∧ g = filter (λ o, ask_key o = Some k) (filter is_resting_ask orders).
Proof.
  unfold group_by_tc. split.
  - intros H. split; [eapply foldl_push_ask_nonempty, H; intros ??; by rewrite lookup_empty|].
    pose proof (foldl_push_ask (filter is_resting_ask orders) ∅ k) as Hf.
    rewrite H in Hf. done.
  - intros [Hne ->].
    pose proof (foldl_push_ask (filter is_resting_ask orders) ∅ k) as Hf.
    rewrite lookup_empty in Hf. cbn in Hf. destruct (foldl _ _ _ !! k); cbn in Hf; congruence.
Qed.

Lemma coalesce_group_Ok k g o :
  coalesce_group (k, g) = Ok o →
  (g = [] ∧ o = None) ∨
  ∃ r, o = Some r ∧ r ∈ g ∧ ∀ x, x ∈ g → equivalent_resting_ask r x = true ∧ order_id_le r x.
Proof.
  unfold coalesce_group. pose proof (merge_sort_Permutation order_id_le g) as Hp.
  pose proof (StronglySorted_merge_sort order_id_le g) as Hs.
  destruct (merge_sort order_id_le g) as [|r others].
  { intros [= <-]. left. by apply Permutation_nil in Hp. }
  destruct (forallb _ others) eqn:Hf; [|done]. intros [= <-]. right. exists r.
  split; [done|]. split; [rewrite <- Hp; by left|]. intros x. rewrite <- Hp, elem_of_cons.
  inversion Hs as [|? ? _ Hall]; subst. rewrite forallb_forall in Hf. rewrite Forall_forall in Hall.
  intros [->|Hx].
  - split; [by apply equivalent_resting_ask_spec|]. unfold order_id_le. lia.
  - split; [apply Hf; by apply list_elem_of_In|by apply Hall].
Qed.

Lemma coalesce_entries l out :
  (∀ k g, (k, g) ∈ l → g ≠ [] ∧ ∀ o, o ∈ g → ask_key o = Some k) →
  collect coalesce_group l = Ok out →
  map ask_key (omap id out) = map (λ e, Some e.1) l ∧
  (∀ r, r ∈ omap id out → ∃ k g, (k, g) ∈ l ∧ r ∈ g) ∧
  (∀ k g, (k, g) ∈ l → ∃ r, r ∈ omap id out ∧ r ∈ g ∧
     ∀ x, x ∈ g → equivalent_resting_ask r x = true ∧ order_id_le r x).
Proof.
  intros Hl Hc%collect_Ok. induction Hc as [|[k g] o l out Ho Hc IH].
  { split; [done|]. split; intros; set_solver. }
  destruct IH as (IHm & IHi & IHr); [intros; apply Hl; by right|].
  destruct (Hl k g) as [Hne Hk]; [by left|].
  apply coalesce_group_Ok in Ho as [[-> _]|(r & -> & Hr & Hx)]; [done|].
  change (omap id (Some r :: out)) with (r :: omap id out). split_and!.
  - cbn [map fst]. by rewrite IHm, (Hk r Hr).
  - intros r' [->|Hr']%elem_of_cons; [exists k, g; split; [by left|done]|].
    destruct (IHi r' Hr') as (k' & g' & ? & ?). exists k', g'. split; [by right|done].
  - intros k' g' [[= -> ->]|Hin]%elem_of_cons; [exists r; split; [by left|done]|].
    destruct (IHr k' g' Hin) as (r' & ? & ? & ?). exists r'. split; [by right|done].
Qed.

Lemma group_entries orders k g :
  (k, g) ∈ btree_entries (group_by_tc orders) →
  g ≠ [] ∧ ∀ o, o ∈ g ↔ o ∈ orders ∧ is_resting_ask o = true ∧ ask_key o = Some k.
Proof.
  intros [Hne ->]%elem_of_btree_entries%group_by_tc_Some. split; [done|]. intros o.
  rewrite !list_elem_of_filter, <- Is_true_true. tauto.
Qed.

Lemma resting_ask_key o : is_resting_ask o = true → ∃ k, ask_key o = Some k.
Proof.
  unfold is_resting_ask, ask_key. intros [[_ H%bool_decide_eq_true]%andb_prop _]%andb_prop.
  destruct H as [tc ->]. by eexists.
Qed.

(** Coalescing is sound and complete.  When it succeeds the result is sorted by price
    and then order id; every entry is a resting ask of the book and no two entries sell
    for the same deal contract; and every resting ask of the book is represented by one
    entry for its contract with the same owner, price, capacity, escrow, deadline and
    flags and an order id that is not newer. *)
Lemma coalesce_sound orders out :
  coalesce_equivalent_resting_asks orders = Ok out →
  StronglySorted price_id_le out ∧
  (∀ r, r ∈ out → r ∈ orders ∧ is_resting_ask r = true) ∧
  NoDup (map ask_key out) ∧
  (∀ o, o ∈ orders → is_resting_ask o = true →
     ∃ r, r ∈ out ∧ ask_key r = ask_key o ∧ equivalent_resting_ask r o = true ∧
          ob_order_id r ≤ ob_order_id o).
Proof.
  intros Hc. unfold coalesce_equivalent_resting_asks in Hc.
  apply bind_Ok in Hc as (cs & Hcs & [= <-]).
  destruct (coalesce_entries _ _ (λ k g Hin, conj (proj1 (group_entries orders k g Hin))
    (λ o Ho, proj2 (proj2 (proj1 (proj2 (group_entries orders k g Hin) o) Ho)))) Hcs) as (Hm & Hi & Hr).
  split_and!.
  - apply StronglySorted_merge_sort; apply _.
  - intros r. rewrite merge_sort_Permutation. intros (k & g & Hin & Hg)%Hi.
    apply (group_entries orders k g Hin) in Hg. tauto.
  - assert (Hp : map ask_key (merge_sort price_id_le (omap id cs)) ≡ₚ map ask_key (omap id cs))
      by apply Permutation_map, merge_sort_Permutation.
    rewrite Hp, Hm. rewrite <- (map_map fst Some).
    apply (NoDup_fmap_2 Some), NoDup_btree_keys.
  - intros o Ho Hro. destruct (resting_ask_key o Hro) as [k Hk].
    set (g := filter (λ o, ask_key o = Some k) (filter is_resting_ask orders)).
    assert (Hg : o ∈ g) by (unfold g; rewrite !list_elem_of_filter, Is_true_true; done).
    assert (Hin : (k, g) ∈ btree_entries (group_by_tc orders)).
    { apply elem_of_btree_entries, group_by_tc_Some. split; [|done]. intros Hn. rewrite Hn in Hg. set_solver. }
    destruct (Hr k g Hin) as (r & Hrin & Hrg & Hx). exists r. rewrite merge_sort_Permutation.
    destruct (Hx o Hg) as [He Hle]. apply (group_entries orders k g Hin) in Hrg as (_ & _ & Hrk).
    split_and!; [done|congruence|done|done].
Qed.

Definition sample_ask (id : Z) (tc : string) (price ticks : Z) : OrderBookOrder := {|
  ob_order_id := id; ob_owner_note := "0:seller"; ob_token_contract := Some tc;
  ob_is_buy := false; ob_price_per_tick := price; ob_ticks := ticks; ob_escrow := 0;
  ob_deadline := 10; ob_flags := 0; ob_timestamp := 0 |}.
Definition sample_asks : list OrderBookOrder :=
  [sample_ask 3 "0:B" 2000 5; sample_ask 7 "0:a" 1000 4; sample_ask 2 "0:A" 1000 4].

(** * Properties of the quote *)

(** The fills alone: what the loop appends. *)
Fixpoint new_fills (asks : list OrderBookOrder) (rt rb : Z) : list QuoteFill :=
  match asks with
  | [] => []
  | ask :: asks =>
      if (rt =? 0) || (rb =? 0) then []
      else
      let unit := required_escrow_for_buy 1 (ob_price_per_tick ask) in
      if (unit =? 0) || (unit =? umax u128) then new_fills asks rt rb
      else
      let n := Z.min (Z.min (ob_ticks ask) rt) (rb / unit) in
      if n =? 0 then []
      else
      match ob_token_contract ask with
      | None => new_fills asks rt rb
      | Some tc =>
          {| qf_order_id := ob_order_id ask; qf_token_contract := tc; qf_ticks := n;
             qf_price_per_tick := ob_price_per_tick ask;
             qf_cost_with_fee := n * unit_price (ob_price_per_tick ask) |}
          :: new_fills asks (rt - n) (rb - n * unit_price (ob_price_per_tick ask))
      end
  end.

Definition sum_ticks (fs : list QuoteFill) : Z := foldr (λ f n, qf_ticks f + n) 0 fs.
Definition sum_cost (fs : list QuoteFill) : Z := foldr (λ f n, qf_cost_with_fee f + n) 0 fs.

(** A resting ask with amounts in their width. *)
Definition ask_wf (o : OrderBookOrder) : Prop :=
  0 ≤ ob_price_per_tick o ∧ 0 < ob_ticks o ≤ umax u128 ∧ is_Some (ob_token_contract o).

(** A price at which one tick can be bought. *)
Definition executable (o : OrderBookOrder) : Prop :=
  0 < ob_price_per_tick o ∧ escrow_fits 1 (ob_price_per_tick o) ∧
  unit_price (ob_price_per_tick o) < umax u128.

Lemma unit_of p :
  0 ≤ p → let unit := required_escrow_for_buy 1 p in
  if (unit =? 0) || (unit =? umax u128) then ¬ (0 < p ∧ escrow_fits 1 p ∧ unit_price p < umax u128)
  else unit = unit_price p ∧ 0 < p ∧ escrow_fits 1 p ∧ unit_price p < umax u128.
Proof.
  intros Hp unit. subst unit. unfold required_escrow_for_buy.
  destruct (checked_required_escrow_for_buy 1 p) as [u|] eqn:Hu; cbn [unwrap_or].
  - apply checked_required_escrow_Some in Hu as [Hf ->]. pose proof Hf as (_ & Hm & _).
    rewrite Z.mul_1_l. destruct (Z.eqb_spec (unit_price p) 0) as [H0|H0]; cbn [orb].
    + intros [H _]. apply unit_price_pos in H. lia.
    + destruct (Z.eqb_spec (unit_price p) (umax u128)); [lia|]. split_and!; [done| |done|lia].
      destruct (Z.eq_dec p 0) as [->|]; [|lia]. done.
  - rewrite Z.eqb_refl, orb_true_r. intros (_ & Hf & _).
    by rewrite (proj2 (checked_required_escrow_Some 1 p (1 * unit_price p))) in Hu.
Qed.

(** The arithmetic of one fill: its cost is exact and covered by the budget. *)
Lemma fill_cost p n rb :
  0 ≤ p → escrow_fits 1 p → 0 ≤ n ≤ rb / unit_price p → 0 < unit_price p → 0 ≤ rb ≤ umax u128 →
  required_escrow_for_buy n p = n * unit_price p ∧ n * unit_price p ≤ rb.
Proof.
  intros Hp (Hf1 & Hf2 & _) Hn Hu Hrb.
  assert (n * unit_price p ≤ rb).
  { pose proof (Z.mul_div_le rb (unit_price p) Hu). nia. }
  split; [|done]. apply required_escrow_fits. repeat split; [done|done|lia].
Qed.

(** Runs the loop body once, in the shape both functions share. *)
Ltac quote_step o rt rb :=
  destruct ((rt =? 0) || (rb =? 0)) eqn:?;
  [|pose proof (unit_of (ob_price_per_tick o) ltac:(assumption)) as Hunit; cbn zeta in Hunit;
    destruct ((required_escrow_for_buy 1 (ob_price_per_tick o) =? 0)
              || (required_escrow_for_buy 1 (ob_price_per_tick o) =? umax u128)) eqn:?;
    [|destruct Hunit as (-> & Hpos & Hfit & Hmax);
      destruct (Z.min (Z.min (ob_ticks o) rt) (rb / unit_price (ob_price_per_tick o)) =? 0) eqn:?]].

Lemma quote_loop_refines asks rt rb ft tot fs :
  Forall ask_wf asks → 0 ≤ rt → 0 ≤ rb ≤ umax u128 →
  0 ≤ ft → ft + rt ≤ umax u128 → 0 ≤ tot → tot + rb ≤ umax u128 →
  quote_loop asks rt rb ft tot fs =
    (ft + sum_ticks (new_fills asks rt rb), tot + sum_cost (new_fills asks rt rb),
     fs ++ new_fills asks rt rb).
Proof.
  intros Hasks. revert rt rb ft tot fs.
  induction Hasks as [|o asks (Hp & Ht & Htc) Hasks IH]; intros rt rb ft tot fs Hrt Hrb Hft Hf Htot Hb;
    cbn [quote_loop new_fills].
  { cbn. by rewrite !Z.add_0_r, app_nil_r. }
  quote_step o rt rb.
  - cbn. by rewrite !Z.add_0_r, app_nil_r.
  - by apply IH.
  - cbn. by rewrite !Z.add_0_r, app_nil_r.
  - set (n := Z.min _ _) in *. pose proof (unit_price_pos _ Hpos) as Hu.
    assert (0 ≤ rb / unit_price (ob_price_per_tick o)) by (apply Z.div_pos; lia).
    assert (Hn : 0 < n ≤ rt ∧ n ≤ rb / unit_price (ob_price_per_tick o)) by lia.
    destruct (fill_cost (ob_price_per_tick o) n rb) as [-> Hcost]; [lia|done|lia|done|lia|].
    destruct Htc as [tc ->]. unfold saturating_sub, saturating_add.
    assert (0 ≤ n * unit_price (ob_price_per_tick o)) by nia.
    rewrite !Z.max_r, !Z.min_l by lia. rewrite IH by lia. cbn [sum_ticks sum_cost foldr qf_ticks qf_cost_with_fee].
    rewrite <- app_assoc. cbn [app]. unfold sum_ticks, sum_cost. f_equal. f_equal; lia.
Qed.

(** What every quote is made of. *)
Definition fill_of (asks : list OrderBookOrder) (f : QuoteFill) : Prop :=
  ∃ o, o ∈ asks ∧ qf_order_id f = ob_order_id o ∧ ob_token_contract o = Some (qf_token_contract f) ∧
    qf_price_per_tick f = ob_price_per_tick o ∧ 0 < qf_ticks f ≤ ob_ticks o ∧
    qf_cost_with_fee f = qf_ticks f * unit_price (ob_price_per_tick o).

Lemma new_fills_sound asks rt rb :
  Forall ask_wf asks → 0 ≤ rt → 0 ≤ rb ≤ umax u128 →
  Forall (fill_of asks) (new_fills asks rt rb) ∧
  0 ≤ sum_ticks (new_fills asks rt rb) ≤ rt ∧ 0 ≤ sum_cost (new_fills asks rt rb) ≤ rb.
Proof.
  intros Hasks. revert rt rb.
  induction Hasks as [|o asks (Hp & Ht & Htc) Hasks IH]; intros rt rb Hrt Hrb; cbn [new_fills];
    [cbn; split; [constructor|lia]|].
  assert (Hweak : ∀ l, Forall (fill_of asks) l → Forall (fill_of (o :: asks)) l).
  { intros l Hl. eapply Forall_impl; [exact Hl|]. intros f (o' & Ho' & Hrest). exists o'. split; [by right|done]. }
  quote_step o rt rb; [cbn; split; [constructor|lia]| |cbn; split; [constructor|lia]|].
  - destruct (IH rt rb Hrt Hrb) as (Hs & Hrest). split; [by apply Hweak|done].
  - set (n := Z.min _ _) in *. pose proof (unit_price_pos _ Hpos) as Hu.
    assert (0 ≤ rb / unit_price (ob_price_per_tick o)) by (apply Z.div_pos; lia).
    destruct (fill_cost (ob_price_per_tick o) n rb) as [_ Hcost]; [lia|done|lia|done|lia|].
    destruct Htc as [tc Htc]. rewrite Htc.
    assert (0 ≤ n * unit_price (ob_price_per_tick o)) by nia.
    destruct (IH (rt - n) (rb - n * unit_price (ob_price_per_tick o))) as (Hs & Ht' & Hc'); [lia|lia|].
    unfold sum_ticks, sum_cost in *. cbn [foldr qf_ticks qf_cost_with_fee]. split; [|lia].
    constructor; [|by apply Hweak]. exists o. split; [by left|]. cbn. repeat split; [done|lia|lia].
Qed.

(** After a fill that leaves capacity of its ask, nothing more is bought: either the ticks
    are exhausted, or the budget buys no tick at this price and hence none at a worse. *)
Lemma new_fills_exhausted asks o rt rb :
  Forall ask_wf asks → StronglySorted price_id_le (o :: asks) → 0 ≤ ob_price_per_tick o →
  0 ≤ rt → 0 ≤ rb ≤ umax u128 → rt = 0 ∨ rb < unit_price (ob_price_per_tick o) →
  new_fills asks rt rb = [].
Proof.
  intros Hasks Hs Hp0 Hrt Hrb Hex.
  assert (Hle : Forall (λ a, ob_price_per_tick o ≤ ob_price_per_tick a) asks).
  { inversion Hs as [|? ? _ Hall]; subst. eapply Forall_impl; [exact Hall|].
    intros a [?|[? ?]]; cbn; lia. }
  clear Hs. induction Hasks as [|a asks (Hp & Ht & Htc) Hasks IH]; cbn [new_fills]; [done|].
  inversion Hle as [|? ? Ha Hle']; subst. quote_step a rt rb; [done|auto|done|].
  exfalso. pose proof (unit_price_pos _ Hpos) as Hu. pose proof (unit_price_mono _ _ Ha).
  assert (rb / unit_price (ob_price_per_tick a) = 0 ∨ rt = 0) as [Hz|Hz]; [|lia|lia].
  destruct Hex; [by right|left]. apply Z.div_small. lia.
Qed.

(** Price priority: an ask that sorts before a filled one and could be bought is filled
    whole. *)
Lemma new_fills_priority asks rt rb f o :
  Forall ask_wf asks → StronglySorted price_id_le asks → 0 ≤ rt → 0 ≤ rb ≤ umax u128 →
  f ∈ new_fills asks rt rb → o ∈ asks → executable o →
  ob_price_per_tick o < qf_price_per_tick f →
  ∃ f', f' ∈ new_fills asks rt rb ∧ qf_order_id f' = ob_order_id o ∧
        ob_token_contract o = Some (qf_token_contract f') ∧ qf_ticks f' = ob_ticks o.
Proof.
  intros Hasks. revert rt rb.
  induction Hasks as [|a asks (Hp & Ht & Htc) Hasks IH]; intros rt rb Hs Hrt Hrb Hf Ho Hex Hlt;
    cbn [new_fills] in *; [set_solver|].
  inversion Hs as [|? ? Hs' Hall]; subst.
  revert Hf. quote_step a rt rb; intros Hf; [by apply elem_of_nil in Hf| |by apply elem_of_nil in Hf|].
  - apply elem_of_cons in Ho as [->|Ho]; [destruct Hex as (? & ? & ?); exfalso; auto|eauto].
  - set (n := Z.min _ _) in *. pose proof (unit_price_pos _ Hpos) as Hu.
    assert (0 ≤ rb / unit_price (ob_price_per_tick a)) by (apply Z.div_pos; lia).
    destruct (fill_cost (ob_price_per_tick a) n rb) as [_ Hcost]; [lia|done|lia|done|lia|].
    assert (0 ≤ n * unit_price (ob_price_per_tick a)) by nia.
    destruct Htc as [tc Htc]. rewrite Htc in *.
    apply elem_of_cons in Hf as [->|Hf]; cbn [qf_price_per_tick] in *.
    + exfalso. apply elem_of_cons in Ho as [->|Ho]; [lia|].
      rewrite Forall_forall in Hall. destruct (Hall o Ho) as [?|[? ?]]; lia.
    + assert (Hn : n = ob_ticks a).
      { destruct (Z.eq_dec n (ob_ticks a)) as [|Hne]; [done|exfalso].
        rewrite (new_fills_exhausted asks a) in Hf; [by apply elem_of_nil in Hf|done|done|lia|lia|lia|].
        assert (n = rt ∨ n = rb / unit_price (ob_price_per_tick a)) as [Hz|Hz] by lia; [lia|right].
        rewrite Hz. pose proof (Z.mul_succ_div_gt rb (unit_price (ob_price_per_tick a))). nia. }
      apply elem_of_cons in Ho as [->|Ho].
      * eexists. split; [by left|]. done.
      * destruct (IH (rt - n) (rb - n * unit_price (ob_price_per_tick a))) as (f' & ? & ?);
          [done|lia|lia|done|done|done|done|]. exists f'. split; [by right|done].
Qed.

Lemma resting_ask_wf o :
  is_resting_ask o = true → 0 ≤ ob_price_per_tick o → ob_ticks o ≤ umax u128 → ask_wf o.
Proof.
  unfold is_resting_ask. intros [[_ H%bool_decide_eq_true]%andb_prop Ht]%andb_prop Hp Hm.
  split; [done|]. split; [lia|done].
Qed.

(** The amounts of an order as the book reports them. *)
Definition order_in_range (o : OrderBookOrder) : Prop :=
  in_range u128 (ob_price_per_tick o) ∧ in_range u128 (ob_ticks o).

Lemma coalesced_wf orders asks :
  Forall order_in_range orders → coalesce_equivalent_resting_asks orders = Ok asks →
  Forall ask_wf asks ∧ (∀ o, o ∈ asks → o ∈ orders) ∧ StronglySorted price_id_le asks.
Proof.
  intros Hr Hc. destruct (coalesce_sound orders asks Hc) as (Hs & Hin & _).
  split_and!; [|naive_solver|done]. apply Forall_forall. intros o Ho.
  destruct (Hin o Ho) as [Hoo Hro]. rewrite Forall_forall in Hr. destruct (Hr o Hoo) as [[? ?] [? ?]].
  by apply resting_ask_wf.
Qed.

(** An executable quote never promises more than the book or the budget holds.  Every
    fill is a part of one resting ask at that ask's price, its cost is exactly the
    fee-inclusive price of its ticks, and the reported totals are the exact sums (no
    saturation occurs).  A request for ticks is never exceeded and is [complete] exactly
    when it is filled to the tick; a budget is never exceeded and is [complete] exactly
    when it buys something. *)
Theorem quote_exact orders wanted budget q :
  Forall order_in_range orders →
  (∀ w, wanted = Some w → in_range u128 w) → (∀ b, budget = Some b → in_range u128 b) →
  executable_quote orders wanted budget = Ok q →
  (∀ f, f ∈ fills q → fill_of orders f) ∧
  filled_ticks q = sum_ticks (fills q) ∧ total_with_fee q = sum_cost (fills q) ∧
  match wanted, budget with
  | Some w, None => filled_ticks q ≤ w ∧ (complete q = true ↔ filled_ticks q = w)
  | None, Some b => total_with_fee q ≤ b ∧ (complete q = true ↔ 0 < filled_ticks q)
  | _, _ => False
  end.
Proof.
  intros Hr Hw Hb Hq. unfold executable_quote in Hq.
  destruct (Bool.eqb _ _) eqn:Hsel; [done|]. apply bind_Ok in Hq as (asks & Hc & Hq).
  destruct (coalesced_wf orders asks Hr Hc) as (Hwf & Hin & _).
  assert (Hrt : in_range u128 (unwrap_or (umax u128) wanted))
    by (destruct wanted; cbn; [auto|unfold in_range; cbn; lia]).
  assert (Hrb : in_range u128 (unwrap_or (umax u128) budget))
    by (destruct budget; cbn; [auto|unfold in_range; cbn; lia]).
  unfold in_range in Hrt, Hrb.
  rewrite quote_loop_refines in Hq by (auto; lia). injection Hq as <-. cbn [fills filled_ticks total_with_fee complete app].
  destruct (new_fills_sound asks _ _ Hwf (proj1 Hrt) Hrb) as (Hs & Ht & Hcost).
  split_and!; [|lia|lia|].
  - intros f Hf. rewrite Forall_forall in Hs. destruct (Hs f Hf) as (o & Ho & Hrest).
    exists o. split; [by apply Hin|done].
  - destruct wanted as [w|], budget as [b|]; cbn [unwrap_or umax] in *; try done.
    + split; [lia|]. rewrite Z.geb_leb, Z.leb_le. lia.
    + split; [lia|]. rewrite Z.gtb_ltb, Z.ltb_lt. lia.
Qed.

Lemma quote_exact_witness :
  ∃ q, executable_quote sample_asks (Some 6) None = Ok q ∧ filled_ticks q = 6 ∧
       total_with_fee q = sum_cost (fills q).
Proof.
  eexists. split; [by vm_compute|]. split; [done|].
  eapply (quote_exact sample_asks (Some 6) None).
  - repeat constructor; by vm_compute.
  - intros w [= <-]. by vm_compute.
  - done.
  - by vm_compute.
Defined.

(** Price priority.  If a quote buys at some price, then every coalesced ask that is
    executable at a strictly lower price is in the quote with its whole capacity: no tick
    is bought dear while a cheaper one is left. *)
Theorem quote_price_priority orders asks wanted budget q f o :
  Forall order_in_range orders →
  (∀ w, wanted = Some w → in_range u128 w) → (∀ b, budget = Some b → in_range u128 b) →
  coalesce_equivalent_resting_asks orders = Ok asks →
  executable_quote orders wanted budget = Ok q →
  f ∈ fills q → o ∈ asks → executable o → ob_price_per_tick o < qf_price_per_tick f →
  ∃ f', f' ∈ fills q ∧ qf_order_id f' = ob_order_id o ∧ qf_ticks f' = ob_ticks o.
Proof.
  intros Hr Hw Hb Hc Hq Hf Ho Hex Hlt. unfold executable_quote in Hq. rewrite Hc in Hq.
  destruct (Bool.eqb _ _); [done|]. cbn [rbind] in Hq.
  destruct (coalesced_wf orders asks Hr Hc) as (Hwf & _ & Hsort).
  assert (Hrt : in_range u128 (unwrap_or (umax u128) wanted))
    by (destruct wanted; cbn; [auto|unfold in_range; cbn; lia]).
  assert (Hrb : in_range u128 (unwrap_or (umax u128) budget))
    by (destruct budget; cbn; [auto|unfold in_range; cbn; lia]).
  unfold in_range in Hrt, Hrb.
  rewrite quote_loop_refines in Hq by (auto; lia). injection Hq as <-. cbn [fills app] in *.
  destruct (new_fills_priority asks _ _ f o Hwf Hsort (proj1 Hrt) Hrb Hf Ho Hex Hlt) as (f' & ? & ? & _ & ?).
  eauto.
Qed.

Lemma quote_price_priority_witness :
  ∃ q, executable_quote sample_asks (Some 6) None = Ok q ∧
    ∃ f', f' ∈ fills q ∧ qf_order_id f' = 2 ∧ qf_ticks f' = 4.
Proof.
  eexists. split; [by vm_compute|].
  eapply (quote_price_priority sample_asks [sample_ask 2 "0:A" 1000 4; sample_ask 3 "0:B" 2000 5]
    (Some 6) None _ {| qf_order_id := 3; qf_token_contract := "0:B"; qf_ticks := 2;
                       qf_price_per_tick := 2000; qf_cost_with_fee := 4100 |} (sample_ask 2 "0:A" 1000 4)).
  - repeat constructor; by vm_compute.
  - intros w [= <-]. by vm_compute.
  - done.
  - by vm_compute.
  - by vm_compute.
  - by right; left.
  - by left.
  - repeat split; by vm_compute.
  - by vm_compute.
Defined.
