(* ===== verification/Recovery.v ===== *)
(** * Pre-flight checks of the money actions: crates/core/src/market/accounting.rs, mod.rs

    The pure gates evaluated before a write: classification of a reported match, recover,
    dispute, reclaim, release-dispute, withdraw, and the seller's resume check.  Note keys
    are 32-byte public keys.

    The second part is [ClaimBounds], the figures by which the client claims, and the
    [HeartbeatGuard] repeated before a submit. *)
From S2P Require Import Prelude RustText Params Address DealTypes.

Definition PubkeyBytes : Type := list Byte.byte.

Inductive MatchedTokenContractStatus : Type :=
  | Opened
  | FundedNeverOpened (funded_time cleanup_after_unix : option Z) (cleanup_ready : bool)
                      (remaining_secs : option Z).

Definition exact_never_opened_funded_time (state : DealChainState) : option Z :=
  let* funded_time :=
    match cs_funded_time state with
    | Some value => if value >? 0 then Some value else None
    | None => None
    end in
  if cs_funded state && negb (cs_opened state) && negb (cs_probe_accepted state)
     && negb (cs_disputed state) && (cs_deposit state >? 0) && (cs_probe_tick state =? 0)
     && (cs_finalized_owed state =? 0) && (cs_tokens_final state =? 0)
     && (cs_tokens_pending state =? 0) && (cs_probe_time state =? 0)
     && (cs_last_claim_time state =? funded_time) && (cs_dispute_time state =? 0)
  then Some funded_time else None.

Definition check_matched_token_contract_state (token_contract : string) (state : DealChainState)
    (now_secs match_open_timeout_secs : Z) : Result text MatchedTokenContractStatus :=
  let token_contract := display_self_dapp token_contract in
  if cs_disputed state then
    Err f["reported match "; token_contract; " is disputed immediately after fill: funded="; Flag (cs_funded state); " opened="; Flag (cs_opened state); " deposit="; shell_amount (cs_deposit state); " tokensFinal="; cs_tokens_final state; " fundedTime="; OptNum (cs_funded_time state); " lastClaimTime="; cs_last_claim_time state; ". Refusing to wait for handover."]
  else if negb (cs_funded state) then
    Err f["reported match "; token_contract; " is not funded after the fill event: funded=false opened="; Flag (cs_opened state); " deposit="; cs_deposit state; " fundedTime="; OptNum (cs_funded_time state); " lastClaimTime="; cs_last_claim_time state; ". The book/fill event and TokenContract state disagree; refusing to wait for handover or treat this as recoverable."]
  else if cs_opened state then Ok Opened
  else
  let? funded_time := ok_or (exact_never_opened_funded_time state)
    f["reported match "; token_contract; " is not the authoritative funded-never-opened shape: probeAccepted="; Flag (cs_probe_accepted state); " deposit="; cs_deposit state; " probeTick="; cs_probe_tick state; " finalizedOwed="; cs_finalized_owed state; " tokensFinal="; cs_tokens_final state; " tokensPending="; cs_tokens_pending state; " probeTime="; cs_probe_time state; " lastClaimTime="; cs_last_claim_time state; " fundedTime="; OptNum (cs_funded_time state); " disputeTime="; cs_dispute_time state; ". Refusing to wait for handover or offer cleanup."] in
  let cleanup_after_unix := saturating_add u64 funded_time match_open_timeout_secs in
  let cleanup_ready := now_secs >=? cleanup_after_unix in
  let remaining_secs := saturating_sub cleanup_after_unix now_secs in
  Ok (FundedNeverOpened (Some funded_time) (Some cleanup_after_unix) cleanup_ready (Some remaining_secs)).

Definition check_recoverable (opened disputed : bool) (buyer_note : option string) (note_addr : string)
    (buyer_pubkey : option PubkeyBytes) (note_ed_pubkey : PubkeyBytes) : Result text () :=
  if negb opened then Err f["recover: deal is not OPEN (already closed, or never matched) -- nothing to STOP"]
  else if disputed then Err f["recover: deal is DISPUTED -- resolve via the dispute path, not recover"]
  else
  match buyer_note with
  | None => Err f["recover: deal has no recorded buyer note (not matched) -- nothing to STOP"]
  | Some buyer =>
      if negb (String.eqb buyer note_addr) then
        Err f["recover: --note-addr is not the deal's buyer note -- only the buyer note can STOP (TokenContract.stop() enforces msg.sender == _buyer)"]
      else Ok ()
  end ;?
  match buyer_pubkey with
  | None => Err f["recover: deal has no recorded buyer (not matched) -- nothing to STOP"]
  | Some bpk =>
      if negb (bool_decide (bpk = note_ed_pubkey)) then
        Err f["recover: --note-key is not the deal's buyer key -- only the buyer can STOP (TokenContract.stop() enforces msg.sender == _buyer)"]
      else Ok ()
  end.

Definition DISPUTE_BUYER_ENFORCEMENT : string :=
  "the TokenContract enforces msg.sender == _buyer for this action".
Definition RECLAIM_BUYER_ENFORCEMENT : string :=
  "this client only submits the never-opened cleanup through the deal's own owner-keyed PrivateNote.streamCleanup wrapper, and refuses a recovery record the chain contradicts; TokenContract.cleanupUnopened() itself is permissionless with contract-fixed payouts, so no key of ours can redirect that money".

Definition check_buyer_owns (action enforcement : string) (buyer_note : option string) (note_addr : string)
    (buyer_pubkey : option PubkeyBytes) (note_ed_pubkey : PubkeyBytes) : Result text () :=
  match buyer_note with
  | None => Err f[action; ": deal has no recorded buyer note (not matched) -- nothing to "; action]
  | Some buyer =>
      if negb (String.eqb buyer note_addr) then
        Err f[action; ": --note-addr is not the deal's buyer note -- only the buyer note can "; action; " ("; enforcement; ")"]
      else Ok ()
  end ;?
  match buyer_pubkey with
  | None => Err f[action; ": deal has no recorded buyer (not matched) -- nothing to "; action]
  | Some bpk =>
      if negb (bool_decide (bpk = note_ed_pubkey)) then
        Err f[action; ": --note-key is not the deal's buyer key -- only the buyer can "; action; " ("; enforcement; ")"]
      else Ok ()
  end.

Definition check_disputable (opened disputed : bool) (buyer_note : option string) (note_addr : string)
    (buyer_pubkey : option PubkeyBytes) (note_ed_pubkey : PubkeyBytes) : Result text () :=
  if negb opened then Err f["dispute: deal is not OPEN (already closed, or never matched) -- nothing to dispute"]
  else if disputed then Err f["dispute: deal is ALREADY disputed -- wait for releaseDispute/arbitration"]
  else check_buyer_owns "dispute" DISPUTE_BUYER_ENFORCEMENT buyer_note note_addr buyer_pubkey note_ed_pubkey.

Definition check_reclaimable (state : DealChainState) (buyer_note : option string) (note_addr : string)
    (buyer_pubkey : option PubkeyBytes) (note_ed_pubkey : PubkeyBytes) (now match_open_timeout : Z)
    : Result text () :=
  if cs_disputed state then
    Err f["reclaim: deal is DISPUTED -- resolve via the dispute path (releaseDispute/resolveDisputeTimeout), not reclaim"]
  else
  check_buyer_owns "reclaim" RECLAIM_BUYER_ENFORCEMENT buyer_note note_addr buyer_pubkey note_ed_pubkey ;?
  if negb (cs_funded state) then Err f["reclaim: deal is not funded (not matched) -- nothing to reclaim"]
  else if cs_opened state then
    Err f["reclaim: deal is OPEN -- use explicit `dexdo close` or `dexdo recover` to STOP it"]
  else if is_stopped state then
    Err f["reclaim: deal is already terminal/drained; refusing streamCleanup before submit"]
  else
  let? funded_time := ok_or (exact_never_opened_funded_time state)
    f["reclaim: CLOSED deal is not the authoritative never-opened shape; refusing streamCleanup before submit (probeAccepted="; Flag (cs_probe_accepted state); " deposit="; cs_deposit state; " probeTick="; cs_probe_tick state; " finalizedOwed="; cs_finalized_owed state; " tokensFinal="; cs_tokens_final state; " tokensPending="; cs_tokens_pending state; " probeTime="; cs_probe_time state; " lastClaimTime="; cs_last_claim_time state; " fundedTime="; OptNum (cs_funded_time state); " disputeTime="; cs_dispute_time state; ")"] in
  let deadline := saturating_add u64 funded_time match_open_timeout in
  if now <? deadline then
    Err f["reclaim: too early -- the NEVER-OPENED deal's MATCH_OPEN_TIMEOUT is not reached: fundedTime "; funded_time; " + matchOpenTimeout "; match_open_timeout; " = "; deadline; " > now "; now; " ("; saturating_sub deadline now; " s remaining). The seller can still open; cleanup only after the timeout."]
  else Ok ().

Definition check_release_disputable (disputed : bool) : Result text () :=
  if disputed then Ok () else Err f["release-dispute: deal is not DISPUTED -- nothing to release"].

(** The closure [norm] of [check_seller_pubkey]. *)
Definition norm_pubkey (s : string) : string :=
  trim_start_matches "0" (to_ascii_lowercase
    (trim_start_matches "0X" (trim_start_matches "0x" (trim s)))).

Definition check_seller_pubkey (action : string) (seller_pubkey : option string)
    (signing_pubkey_hex : string) : Result text () :=
  let? seller := ok_or
    (match seller_pubkey with
     | Some s => if String.eqb (trim s) "" then None else Some s
     | None => None
     end) f[action; ": TokenContract exposes no seller pubkey"] in
  if String.eqb (norm_pubkey seller) (norm_pubkey signing_pubkey_hex) then Ok ()
  else Err f[action; ": --note-key is not the deal's seller key -- TokenContract onlyOwnerPubkey(_sellerPubkey) will reject it (contract seller 0x"; norm_pubkey seller; ", signing key 0x"; norm_pubkey signing_pubkey_hex; ")"].

Definition check_withdrawable_shell (finalized_owed : Z) (amount : option Z) : Result text Z :=
  let amount := unwrap_or finalized_owed amount in
  if amount =? 0 then Err f["withdraw-shell: no finalized SHELL is withdrawable"]
  else if amount >? finalized_owed then
    Err f["withdraw-shell: amount "; shell_amount amount; " SHELL exceeds finalizedOwed "; shell_amount finalized_owed]
  else Ok amount.

(** [validate_seller_resume_state] of mod.rs. *)
Definition resume_blockers (state : DealChainState) (price_per_tick : Shell) : list text :=
  (if negb (cs_funded state) then [f["funded=false"]] else []) ++
  (if cs_disputed state then [f["disputed"]] else []) ++
  (if cs_probe_accepted state && negb (cs_opened state) then [f["probeAccepted without opened"]] else []) ++
  (if negb (cs_opened state) then
     (if cs_deposit state <? price_per_tick then
        [f["deposit="; cs_deposit state; ", price_per_tick="; price_per_tick; ": TokenContract cannot be opened"]]
      else []) ++
     used_field "probeTick" (cs_probe_tick state) ++ used_field "finalizedOwed" (cs_finalized_owed state) ++
     used_field "tokensFinal" (cs_tokens_final state) ++ used_field "tokensPending" (cs_tokens_pending state)
   else []).
Definition validate_seller_resume_state (token_contract : string) (state : DealChainState)
    (price_per_tick : Shell) : Result ChainError () :=
  let blockers := resume_blockers state price_per_tick in
  match blockers with
  | [] => Ok ()
  | _ => Err (Chain (f["TokenContract "; display_self_dapp token_contract; " is matched but not openable for seller resume ("]
                     ++ join ", " blockers
                     ++ f[") -- use a fresh --nonce for a new TokenContract, or close/destroy the old TokenContract"]))
  end.

(** * Properties *)

(** The shape written at match time, before the seller has opened. *)
Definition never_opened (t : Z) (s : DealChainState) : Prop :=
  0 < t ∧ cs_funded s = true ∧ cs_opened s = false ∧ cs_probe_accepted s = false ∧
  cs_disputed s = false ∧ 0 < cs_deposit s ∧ cs_probe_tick s = 0 ∧ cs_finalized_owed s = 0 ∧
  cs_tokens_final s = 0 ∧ cs_tokens_pending s = 0 ∧ cs_funded_time s = Some t ∧
  cs_probe_time s = 0 ∧ cs_last_claim_time s = t ∧ cs_dispute_time s = 0.

Lemma exact_never_opened_spec s t : exact_never_opened_funded_time s = Some t ↔ never_opened t s.
Proof.
  unfold exact_never_opened_funded_time, never_opened. split.
  - destruct (cs_funded_time s) as [ft|]; [|done].
    destruct (Z.gtb_spec ft 0); [|done]. cbn [obind].
    destruct (_ && _) eqn:Hb; [|done]. intros [= <-].
    rewrite !andb_true_iff, !negb_true_iff, !Z.eqb_eq, Z.gtb_lt in Hb. naive_solver lia.
  - intros (Ht & -> & -> & -> & -> & Hd & -> & -> & -> & -> & -> & -> & -> & ->).
    destruct (Z.gtb_spec t 0); [|lia]. cbn [obind]. rewrite !Z.eqb_refl.
    destruct (Z.gtb_spec (cs_deposit s) 0); [done|lia].
Qed.

Lemma check_buyer_owns_Ok action enf bn na bpk nk :
  check_buyer_owns action enf bn na bpk nk = Ok () ↔ bn = Some na ∧ bpk = Some nk.
Proof.
  unfold check_buyer_owns. destruct bn as [b|]; cbn; [|naive_solver].
  destruct (String.eqb_spec b na); cbn; [|naive_solver].
  destruct bpk as [k|]; [|naive_solver].
  destruct (bool_decide_reflect (k = nk)); cbn; naive_solver.
Qed.

Lemma never_opened_not_stopped t s : never_opened t s → is_stopped s = false.
Proof.
  intros (_ & H1 & H2 & _ & H3 & H4 & _). unfold is_stopped. rewrite H1, H2, H3. cbn.
  destruct (Z.eqb_spec (cs_deposit s) 0); [lia|done].
Qed.

(** The reclaim gate answers [Ok] if and only if the deal is this buyer's by note address
    and by key, has the exact shape that funding wrote and nobody has touched since, and
    the open timeout counted from that funding has passed on the caller's clock. *)
Lemma check_reclaimable_Ok state buyer_note note_addr buyer_pubkey note_key now timeout :
  check_reclaimable state buyer_note note_addr buyer_pubkey note_key now timeout = Ok () ↔
  buyer_note = Some note_addr ∧ buyer_pubkey = Some note_key ∧
  ∃ t, never_opened t state ∧ saturating_add u64 t timeout ≤ now.
Proof.
  unfold check_reclaimable. split.
  - destruct (cs_disputed state) eqn:Hdis; [done|]. intros ([] & Ho & Hc)%bind_Ok.
    apply check_buyer_owns_Ok in Ho as [-> ->]. split; [done|]. split; [done|].
    destruct (negb _); [done|]. destruct (cs_opened state); [done|]. destruct (is_stopped state); [done|].
    apply bind_Ok in Hc as (t & Ht%ok_or_Ok%exact_never_opened_spec & Hc).
    destruct (Z.ltb_spec now (saturating_add u64 t timeout)); [done|]. eauto.
  - intros (-> & -> & t & Hn & Hle). pose proof (never_opened_not_stopped t state Hn) as Hs.
    pose proof Hn as He%exact_never_opened_spec. destruct Hn as (_ & Hf & Ho & _ & Hd & _).
    rewrite Hd, Hf, Ho, Hs, He. rewrite (proj2 (check_buyer_owns_Ok _ _ _ _ _ _)) by done.
    cbn. destruct (Z.ltb_spec now (saturating_add u64 t timeout)); [lia|done].
Qed.

(** After a fill, the classification is exhaustive and fails loudly.  A deal is reported
    as waiting for its seller only in the shape reclaim will accept later, with the very
    instant from which reclaim admits it, and [cleanup_ready] says exactly that this
    instant has passed; an opened deal is reported open; a disputed or unfunded deal is an
    error. *)
Theorem matched_status_agrees_with_reclaim tc state now timeout na nk status :
  check_matched_token_contract_state tc state now timeout = Ok status →
  match status with
  | Opened => cs_funded state = true ∧ cs_opened state = true ∧ cs_disputed state = false
  | FundedNeverOpened ft after ready remaining =>
      ∃ t, ft = Some t ∧ never_opened t state ∧ after = Some (saturating_add u64 t timeout) ∧
        remaining = Some (saturating_sub (saturating_add u64 t timeout) now) ∧
        (ready = true ↔ remaining = Some 0) ∧
        ready = is_ok (check_reclaimable state (Some na) na (Some nk) nk now timeout)
  end.
Proof.
  intros H. unfold check_matched_token_contract_state in H.
  destruct (cs_disputed state) eqn:Hd; [done|]. destruct (cs_funded state) eqn:Hf; [|done].
  cbn [negb] in H. destruct (cs_opened state) eqn:Ho; [by injection H as <-|].
  apply bind_Ok in H as (t & Ht%ok_or_Ok & [= <-]).
  pose proof Ht as Hn%exact_never_opened_spec. exists t. split_and!; [done|done|done|done|..].
  - unfold saturating_sub. rewrite Z.geb_leb, Z.leb_le. split; [intros; f_equal; lia|intros [= ?]; lia].
  - unfold check_reclaimable. rewrite Hd, Hf, Ho, Ht, (never_opened_not_stopped t state Hn).
    rewrite (proj2 (check_buyer_owns_Ok _ _ _ _ _ _)) by done. cbn. rewrite Z.geb_leb.
    destruct (Z.ltb_spec now (saturating_add u64 t timeout)), (Z.leb_spec (saturating_add u64 t timeout) now);
      try done; lia.
Qed.

Definition sample_never_opened : DealChainState := {|
  cs_funded := true; cs_opened := false; cs_probe_accepted := false; cs_disputed := false;
  cs_deposit := 4100; cs_finalized_owed := 0; cs_tokens_final := 0; cs_tokens_pending := 0;
  cs_probe_tick := 0; cs_funded_time := Some 1000; cs_probe_time := 0; cs_last_claim_time := 1000;
  cs_dispute_time := 0 |}.

Lemma matched_status_witness :
  check_matched_token_contract_state "0:tc" sample_never_opened 1700 600
    = Ok (FundedNeverOpened (Some 1000) (Some 1600) true (Some 0)) ∧
  true = is_ok (check_reclaimable sample_never_opened (Some "n"%string) "n" (Some []) [] 1700 600).
Proof.
  split; [by vm_compute|].
  destruct (matched_status_agrees_with_reclaim "0:tc" sample_never_opened 1700 600 "n" []
    (FundedNeverOpened (Some 1000) (Some 1600) true (Some 0))) as (t & _ & _ & _ & _ & _ & Hr);
    [by vm_compute|exact Hr].
Defined.

Lemma used_field_nil field v : used_field field v = [] ↔ v ≤ 0.
Proof. unfold used_field. destruct (Z.gtb_spec v 0); split; try done; lia. Qed.

(** An unused deal is in its constructor state.  For figures in their width,
    [used_reason] answers [None] exactly when every flag is unset, every figure is zero and
    no funding time is recorded; so a deal that was ever funded is never relisted. *)
Theorem used_reason_None s :
  0 ≤ cs_deposit s → 0 ≤ cs_probe_tick s → 0 ≤ cs_finalized_owed s → 0 ≤ cs_tokens_final s →
  0 ≤ cs_tokens_pending s → 0 ≤ cs_probe_time s → 0 ≤ cs_last_claim_time s → 0 ≤ cs_dispute_time s →
  used_reason s = None ↔
  s = {| cs_funded := false; cs_opened := false; cs_probe_accepted := false; cs_disputed := false;
         cs_deposit := 0; cs_finalized_owed := 0; cs_tokens_final := 0; cs_tokens_pending := 0;
         cs_probe_tick := 0; cs_funded_time := None; cs_probe_time := 0; cs_last_claim_time := 0;
         cs_dispute_time := 0 |}.
Proof.
  intros. unfold used_reason. split; [|by intros ->].
  destruct (used_parts s) eqn:Hp; [|done]. intros _. unfold used_parts in Hp.
  repeat match goal with H : _ ++ _ = [] |- _ => apply app_eq_nil in H as [? H] end.
  rewrite used_field_nil in *. destruct s as [fu op pa di de fo tf tp pt [ft|] pr lc dt]; cbn in *; [done|].
  repeat match goal with H : (if ?b then _ else _) = [] |- _ => destruct b; [done|] end.
  f_equal; lia.
Qed.

Lemma used_reason_None_witness :
  used_reason sample_never_opened ≠ None.
Proof. intros H. apply used_reason_None in H; [discriminate|vm_compute; discriminate..]. Defined.

(** * Bounds of the claim loop: crates/core/src/market/mod.rs

    [ClaimBounds] mirrors the contract's configuration; its delta limit is the one figure
    the client claims by.  [HeartbeatGuard] is the check repeated right before a submit; the
    atomics it reads are arguments, read at the time of the call. *)

Record ClaimBounds : Type := {
  cb_min_claim_interval : Duration;
  cb_min_seconds_per_tick : Duration;
  cb_promote_window : Duration;
  cb_probe_window : Duration;
  cb_dispute_window : Duration;
}.

Definition ClaimBounds_canonical : ClaimBounds :=
  let c := ProtocolConsts_canonical in {|
    cb_min_claim_interval := min_claim_interval c;
    cb_min_seconds_per_tick := min_seconds_per_tick c;
    cb_promote_window := claim_promote_window c;
    cb_probe_window := probe_window c;
    cb_dispute_window := dispute_window c;
  |}.

Definition ClaimBounds_from_config (min_claim_interval min_seconds_per_tick dispute_window : Z) : ClaimBounds := {|
  cb_min_claim_interval := from_secs min_claim_interval;
  cb_min_seconds_per_tick := from_secs min_seconds_per_tick;
  cb_promote_window := from_secs min_seconds_per_tick;
  cb_probe_window := PROBE_WINDOW;
  cb_dispute_window := from_secs dispute_window;
|}.

Definition ClaimBounds_max_claim_delta (b : ClaimBounds) (elapsed : Duration) : Z :=
  claim_delta_limit elapsed (cb_min_seconds_per_tick b).

(** [expected] is the generation at creation; [stop_veto] says whether a veto was attached. *)
Record HeartbeatGuard : Type := { hb_expected : Z; hb_stop_veto : bool }.
Definition HeartbeatGuard_new (generation : Z) : HeartbeatGuard :=
  {| hb_expected := generation; hb_stop_veto := false |}.
Definition with_stop_veto (g : HeartbeatGuard) : HeartbeatGuard :=
  {| hb_expected := hb_expected g; hb_stop_veto := true |}.
Definition unchanged (generation : Z) (veto : bool) (g : HeartbeatGuard) : bool :=
  (generation =? hb_expected g) && negb (hb_stop_veto g && veto).

(** * Properties *)

(** The bounds the contract's configuration gives at its canonical values. *)
Lemma canonical_from_config : ClaimBounds_from_config 60 60 600 = ClaimBounds_canonical.
Proof. reflexivity. Qed.

(** The delta limit of the client is exactly the contract's two claim guards: an
    increment is within the limit if and only if it is at most the hard per-call maximum and
    the physical rate allows it, [delta * min_seconds_per_tick <= elapsed * TICK_SIZE]; the
    [u128] product behind it never wraps, and the limit grows with the elapsed time. *)
Theorem claim_delta_limit_exact (b : ClaimBounds) (elapsed : Duration) :
  in_range u64 (as_secs elapsed) → in_range u64 (as_secs (cb_min_seconds_per_tick b)) →
  (∀ delta, 0 ≤ delta →
     delta ≤ ClaimBounds_max_claim_delta b elapsed ↔
     delta ≤ MAX_CLAIM_DELTA ∧ delta * as_secs (cb_min_seconds_per_tick b) ≤ as_secs elapsed * TICK_SIZE) ∧
  (∀ later, as_secs elapsed ≤ as_secs later → in_range u64 (as_secs later) →
     ClaimBounds_max_claim_delta b elapsed ≤ ClaimBounds_max_claim_delta b later).
Proof.
  unfold ClaimBounds_max_claim_delta, claim_delta_limit, in_range. cbn [umax].
  set (f := as_secs (cb_min_seconds_per_tick b)). intros He Hf.
  assert (∀ e, 0 ≤ e ≤ umax u64 → umul u128 e TICK_SIZE = e * TICK_SIZE) as Hm.
  { intros e H. apply umul_exact; unfold TICK_SIZE; cbn [umax] in *; lia. }
  assert (∀ e d, 0 < f → d ≤ e * TICK_SIZE / f ↔ d * f ≤ e * TICK_SIZE) as Hd.
  { intros e d H. rewrite (Z.mul_comm d f). split; [|intros; apply Z.div_le_lower_bound; lia].
    intros Hle. pose proof (Z.mul_div_le (e * TICK_SIZE) f H). nia. }
  split.
  - intros delta H0. destruct (Z.eqb_spec f 0) as [->|Hf0].
    + rewrite Z.ltb_irrefl, Z.mul_0_r. unfold TICK_SIZE. lia.
    + rewrite Hm by (cbn [umax]; lia).
      pose proof (Hd (as_secs elapsed) delta). pose proof (Hd (as_secs elapsed) MAX_CLAIM_DELTA).
      destruct (Z.ltb_spec (as_secs elapsed * TICK_SIZE / f) MAX_CLAIM_DELTA); lia.
  - intros later Hle Hl. destruct (Z.eqb_spec f 0) as [_|Hf0]; [lia|].
    rewrite !Hm by (cbn [umax]; lia).
    assert (as_secs elapsed * TICK_SIZE / f ≤ as_secs later * TICK_SIZE / f) as Hmono
      by (apply Z.div_le_mono; unfold TICK_SIZE; lia).
    destruct (Z.ltb_spec (as_secs elapsed * TICK_SIZE / f) MAX_CLAIM_DELTA),
      (Z.ltb_spec (as_secs later * TICK_SIZE / f) MAX_CLAIM_DELTA); lia.
Qed.

Lemma claim_delta_limit_exact_witness :
  500000 ≤ ClaimBounds_max_claim_delta ClaimBounds_canonical (from_secs 30) ∧
  ¬ 500001 ≤ ClaimBounds_max_claim_delta ClaimBounds_canonical (from_secs 30).
Proof.
  destruct (claim_delta_limit_exact ClaimBounds_canonical (from_secs 30)) as [H _];
    [vm_compute; split; discriminate..|].
  split.
  - apply H; [lia|]. split; vm_compute; discriminate.
  - intros [_ Hr]%H; [|lia]. revert Hr. vm_compute. auto.
Defined.
