(* ===== verification/Monitor.v ===== *)
(** * Accounting views: crates/core/src/market/accounting.rs, types.rs

    The monitor's fold over the notes of a tree, the per-model breakdown and the anomaly
    flags.  The main theorem says that the breakdown, built by finding or pushing buckets
    one deal at a time, holds for every bucket the saturated sum of exactly its deals. *)
From S2P Require Import Prelude RustText Params DealTypes Quote.

#[local] Arguments umax : simpl never.

Inductive DealRole : Type := Buyer | Seller.
#[export] Instance DealRole_eq_dec : EqDecision DealRole.
Proof. solve_decision. Defined.

Record DealView : Type := {
  dv_token_contract : string;
  dv_role : DealRole;
  dv_counterparty : option string;
  dv_price_per_tick : Shell;
  dv_model : option string;
  dv_snapshot : option StreamSnapshot;
}.

Record NoteSnapshot : Type := {
  ns_note_id : string;
  ns_offers : list OfferListing;
  ns_deals : list DealView;
  ns_exposure : Shell;
}.
Record TreeSnapshot : Type := {
  ts_note_ids : list string;
  ts_offers : list OfferListing;
  ts_deals : list DealView;
  ts_exposure : Shell;
}.

Definition UNKNOWN_MODEL : string := "(unknown)".

Record CounterpartyTally : Type := mkTally {
  ct_counterparty : option string;
  ct_tokens : Z;
  ct_money : Shell;
  ct_locked : Shell;
  ct_burned : Shell;
}.
Record ModelBreakdown : Type := mkBreakdown {
  md_model : string;
  md_role : DealRole;
  md_counterparties : list CounterpartyTally;
  md_tokens : Z;
  md_money : Shell;
  md_locked : Shell;
  md_burned : Shell;
}.
Inductive DealAnomaly : Type :=
  | LockedNoMatch (locked : Shell)
  | LockedAfterClose (locked : Shell)
  | BuyerLockExceedsTwoTicks (buyer_lead ceiling : Shell).

Definition aggregate_tree (snaps : list NoteSnapshot) : TreeSnapshot :=
  foldl (λ t s, {|
    ts_note_ids := ts_note_ids t ++ [ns_note_id s];
    ts_offers := ts_offers t ++ ns_offers s;
    ts_deals := ts_deals t ++ ns_deals s;
    ts_exposure := saturating_add u64 (ts_exposure t) (ns_exposure s) |})
    {| ts_note_ids := []; ts_offers := []; ts_deals := []; ts_exposure := 0 |} snaps.

Definition finalized_ticks (snapshot : option StreamSnapshot) : Z :=
  match snapshot with
  | Some s => unwrap_or (umax u64) (try_into u64 (ss_tokens_final s / TICK_SIZE))
  | None => 0
  end.

Definition summary_shell (amount : Z) : Shell := unwrap_or SHELL_MAX (try_into u64 amount).

(** [iter().position(p)], and the find-or-push of a bucket that is then updated in place. *)
Fixpoint position {A} (p : A → bool) (l : list A) : option nat :=
  match l with
  | [] => None
  | a :: l => if p a then Some O else option_map S (position p l)
  end.
Definition upsert {A} (p : A → bool) (new : A) (f : A → A) (l : list A) : list A :=
  match position p l with
  | Some i => alter f i l
  | None => alter f (length l) (l ++ [new])
  end.

(** The figures one deal adds to its buckets: ticks, money, lock, burn. *)
Definition deal_figures (role : DealRole) (d : DealView) : Z * Z * Z * Z :=
  let tokens := finalized_ticks (dv_snapshot d) in
  match dv_snapshot d with
  | Some s =>
      let locked := match role with Seller => ss_seller_locked s | Buyer => ss_buyer_locked s end in
      (tokens, summary_shell (ss_seller_received s), summary_shell locked, summary_shell (ss_burned s))
  | None => (tokens, 0, 0, 0)
  end.
Definition deal_model (d : DealView) : string := unwrap_or UNKNOWN_MODEL (dv_model d).

Definition bump_tally (figures : Z * Z * Z * Z) (c : CounterpartyTally) : CounterpartyTally :=
  let '(tokens, money, locked, burned) := figures in {|
    ct_counterparty := ct_counterparty c;
    ct_tokens := saturating_add u64 (ct_tokens c) tokens;
    ct_money := saturating_add u64 (ct_money c) money;
    ct_locked := saturating_add u64 (ct_locked c) locked;
    ct_burned := saturating_add u64 (ct_burned c) burned |}.
Definition bump_counterparty (figures : Z * Z * Z * Z) (cp : option string) (cs : list CounterpartyTally)
    : list CounterpartyTally :=
  upsert (λ c, bool_decide (ct_counterparty c = cp)) (mkTally cp 0 0 0 0) (bump_tally figures) cs.
Definition bump_model (figures : Z * Z * Z * Z) (cp : option string) (m : ModelBreakdown) : ModelBreakdown :=
  let '(tokens, money, locked, burned) := figures in {|
    md_model := md_model m; md_role := md_role m;
    md_tokens := saturating_add u64 (md_tokens m) tokens;
    md_money := saturating_add u64 (md_money m) money;
    md_locked := saturating_add u64 (md_locked m) locked;
    md_burned := saturating_add u64 (md_burned m) burned;
    md_counterparties := bump_counterparty figures cp (md_counterparties m) |}.

Definition add_deal (role : DealRole) (models : list ModelBreakdown) (d : DealView) : list ModelBreakdown :=
  let model_id := deal_model d in
  upsert (λ m, String.eqb (md_model m) model_id) (mkBreakdown model_id role [] 0 0 0 0)
    (bump_model (deal_figures role d) (dv_counterparty d)) models.

Definition per_model_breakdown (deals : list DealView) (role : DealRole) : list ModelBreakdown :=
  foldl (add_deal role) [] (filter (λ d, dv_role d = role) deals).

Definition deal_anomalies (deal : DealView) : list DealAnomaly :=
  match dv_snapshot deal with
  | None => []
  | Some snap =>
      let locked := summary_shell (saturating_add u128 (ss_seller_locked snap) (ss_buyer_locked snap)) in
      (if (locked >? 0) && bool_decide (dv_counterparty deal = None) then [LockedNoMatch locked] else [])
      ++ (if ss_closed snap && (locked >? 0) then [LockedAfterClose locked] else [])
      ++ (if dv_price_per_tick deal >? 0 then
            let ceiling := wrapping u64 (Z.min (required_escrow_for_buy 2 (dv_price_per_tick deal)) SHELL_MAX) in
            let buyer_lead := summary_shell (ss_buyer_lead snap) in
            if buyer_lead >? ceiling then [BuyerLockExceedsTwoTicks buyer_lead ceiling] else []
          else [])
  end.

(** * Properties *)

Section Upsert.
Context {A K : Type} `{EqDecision K} (key : A → K) (k : K) (new : A) (f : A → A).
Context (Hnew : key new = k) (Hf : ∀ a, key (f a) = key a).

Lemma position_Some p (l : list A) i :
  position p l = Some i → ∃ l1 a l2, l = l1 ++ a :: l2 ∧ length l1 = i ∧ p a = true.
Proof.
  revert i. induction l as [|a l IH]; intros i; cbn; [done|].
  destruct (p a) eqn:Hp; [intros [= <-]; by exists [], a, l|].
  destruct (position p l) as [j|]; [|done]. intros [= <-].
  destruct (IH j eq_refl) as (l1 & b & l2 & -> & <- & Hb). by exists (a :: l1), b, l2.
Qed.

Lemma position_None p (l : list A) : position p l = None → ∀ a, a ∈ l → p a = false.
Proof.
  induction l as [|a l IH]; cbn; [intros _ b Hb; by apply elem_of_nil in Hb|].
  destruct (p a) eqn:Hp; [done|]. destruct (position p l); [done|].
  intros _ b [->|Hb]%elem_of_cons; auto.
Qed.

Lemma alter_mid (l1 l2 : list A) a : alter f (length l1) (l1 ++ a :: l2) = l1 ++ f a :: l2.
Proof. induction l1 as [|b l1 IH]; cbn; [done|]. by f_equal. Qed.

(** A bucket is updated once and every other bucket is left alone. *)
Lemma upsert_spec p l :
  (∀ a, p a = true ↔ key a = k) → NoDup (map key l) →
  NoDup (map key (upsert p new f l)) ∧
  ∃ y, ((y ∈ l ∧ key y = k) ∨ (y = new ∧ ∀ z, z ∈ l → key z ≠ k)) ∧
       ∀ x, x ∈ upsert p new f l ↔ (x ∈ l ∧ key x ≠ k) ∨ x = f y.
Proof.
  intros Hp Hnd. unfold upsert. destruct (position p l) as [i|] eqn:Hpos.
  - apply position_Some in Hpos as (l1 & y & l2 & -> & <- & Hy%Hp). rewrite alter_mid.
    rewrite map_app in *. cbn [map] in *. rewrite Hf. split; [done|]. exists y.
    split; [left; split; [set_solver|done]|].
    apply NoDup_app in Hnd as (_ & Hd1 & Hd2). apply NoDup_cons in Hd2 as [Hd2 _].
    intros x. rewrite !elem_of_app, !elem_of_cons. split; [|naive_solver].
    intros [Hx|[->|Hx]]; [left|by right|left]; (split; [tauto|]); intros Hk.
    + apply (Hd1 (key x)); [by apply list_elem_of_fmap_2|]. rewrite Hy, Hk. by left.
    + apply Hd2. rewrite Hy, <- Hk. by apply list_elem_of_fmap_2.
  - pose proof (position_None p l Hpos) as Hn. rewrite alter_mid.
    assert (Hne : ∀ z, z ∈ l → key z ≠ k).
    { intros z Hz Hk. apply Hn in Hz. apply Hp in Hk. congruence. }
    rewrite map_app. cbn [map]. rewrite Hf, Hnew. split.
    + apply NoDup_app. split; [done|]. split; [|apply NoDup_singleton].
      intros x (z & -> & Hz)%list_elem_of_fmap. rewrite list_elem_of_singleton. by apply Hne.
    + exists new. split; [by right|]. intros x. rewrite elem_of_app, list_elem_of_singleton.
      naive_solver.
Qed.
End Upsert.

(** The saturated sum of a figure over deals. *)
Definition sum_over (g : DealView → Z) (ds : list DealView) : Z := foldr (λ d n, g d + n) 0 ds.
Definition sat_sum (g : DealView → Z) (ds : list DealView) : Z := Z.min (umax u64) (sum_over g ds).

Lemma sum_over_app g ds es : sum_over g (ds ++ es) = sum_over g ds + sum_over g es.
Proof. induction ds as [|d ds IH]; cbn; [done|]. unfold sum_over in *. lia. Qed.

Lemma sat_sum_snoc g ds d :
  0 ≤ g d → sat_sum g (ds ++ [d]) = saturating_add u64 (sat_sum g ds) (g d).
Proof. intros. unfold sat_sum, saturating_add. rewrite sum_over_app. cbn. lia. Qed.

Definition fig_tokens role d := (deal_figures role d).1.1.1.
Definition fig_money role d := (deal_figures role d).1.1.2.
Definition fig_locked role d := (deal_figures role d).1.2.
Definition fig_burned role d := (deal_figures role d).2.

(** What the chain reports fits its width. *)
Definition snapshot_in_range (s : StreamSnapshot) : Prop :=
  0 ≤ ss_tokens_final s ∧ 0 ≤ ss_seller_received s ∧ 0 ≤ ss_seller_locked s ∧
  0 ≤ ss_buyer_locked s ∧ 0 ≤ ss_burned s.
Definition deal_in_range (d : DealView) : Prop :=
  match dv_snapshot d with Some s => snapshot_in_range s | None => True end.

Lemma summary_shell_nonneg a : 0 ≤ a → 0 ≤ summary_shell a.
Proof.
  intros. unfold summary_shell, try_into. destruct (a <=? umax u64); cbn; [done|]. by vm_compute.
Qed.

Lemma figures_nonneg role d :
  deal_in_range d →
  0 ≤ fig_tokens role d ∧ 0 ≤ fig_money role d ∧ 0 ≤ fig_locked role d ∧ 0 ≤ fig_burned role d.
Proof.
  unfold deal_in_range, fig_tokens, fig_money, fig_locked, fig_burned, deal_figures, finalized_ticks.
  destruct (dv_snapshot d) as [s|]; cbn; [|lia]. intros (Ht & Hm & Hs & Hb & Hu).
  split_and!; [|apply summary_shell_nonneg; by destruct role..].
  unfold try_into. destruct (_ <=? _); cbn; [by apply Z.div_pos|by vm_compute].
Qed.

(** A bucket holds the saturated sums of the given deals. *)
Definition tally_of (role : DealRole) (c : CounterpartyTally) (ds : list DealView) : Prop :=
  ct_tokens c = sat_sum (fig_tokens role) ds ∧ ct_money c = sat_sum (fig_money role) ds ∧
  ct_locked c = sat_sum (fig_locked role) ds ∧ ct_burned c = sat_sum (fig_burned role) ds.
Definition with_counterparty (ds : list DealView) (cp : option string) : list DealView :=
  filter (λ d, dv_counterparty d = cp) ds.
Definition with_model (ds : list DealView) (model : string) : list DealView :=
  filter (λ d, deal_model d = model) ds.
Definition breakdown_of (role : DealRole) (m : ModelBreakdown) (ds : list DealView) : Prop :=
  md_role m = role ∧
  md_tokens m = sat_sum (fig_tokens role) ds ∧ md_money m = sat_sum (fig_money role) ds ∧
  md_locked m = sat_sum (fig_locked role) ds ∧ md_burned m = sat_sum (fig_burned role) ds ∧
  NoDup (map ct_counterparty (md_counterparties m)) ∧
  (∀ c, c ∈ md_counterparties m → tally_of role c (with_counterparty ds (ct_counterparty c))) ∧
  (∀ d, d ∈ ds → ∃ c, c ∈ md_counterparties m ∧ ct_counterparty c = dv_counterparty d).
Definition breakdowns_of (role : DealRole) (ms : list ModelBreakdown) (ds : list DealView) : Prop :=
  NoDup (map md_model ms) ∧
  (∀ m, m ∈ ms → breakdown_of role m (with_model ds (md_model m))) ∧
  (∀ d, d ∈ ds → ∃ m, m ∈ ms ∧ md_model m = deal_model d).

Lemma sat_sum_nil g : sat_sum g [] = 0.
Proof. unfold sat_sum. cbn. pose proof (umax_pos u64). lia. Qed.

Lemma filter_snoc_yes {A} (P : A → Prop) `{∀ x, Decision (P x)} l x :
  P x → filter P (l ++ [x]) = filter P l ++ [x].
Proof. intros. rewrite filter_app. by rewrite filter_cons_True. Qed.
Lemma filter_snoc_no {A} (P : A → Prop) `{∀ x, Decision (P x)} l x :
  ¬ P x → filter P (l ++ [x]) = filter P l.
Proof. intros. rewrite filter_app, filter_cons_False by done. apply app_nil_r. Qed.
Lemma filter_none {A} (P : A → Prop) `{∀ x, Decision (P x)} l :
  (∀ x, x ∈ l → ¬ P x) → filter P l = [].
Proof.
  induction l as [|x l IH]; intros Hl; [done|]. rewrite filter_cons_False by (apply Hl; by left).
  apply IH. intros y Hy. apply Hl. by right.
Qed.

Lemma figures_snoc role d t m l b :
  deal_in_range d → deal_figures role d = (t, m, l, b) → ∀ ds,
  sat_sum (fig_tokens role) (ds ++ [d]) = saturating_add u64 (sat_sum (fig_tokens role) ds) t ∧
  sat_sum (fig_money role) (ds ++ [d]) = saturating_add u64 (sat_sum (fig_money role) ds) m ∧
  sat_sum (fig_locked role) (ds ++ [d]) = saturating_add u64 (sat_sum (fig_locked role) ds) l ∧
  sat_sum (fig_burned role) (ds ++ [d]) = saturating_add u64 (sat_sum (fig_burned role) ds) b.
Proof.
  intros Hd Hf ds. pose proof (figures_nonneg role d Hd) as (Ft & Fm & Fl & Fb).
  rewrite !sat_sum_snoc by done. unfold fig_tokens, fig_money, fig_locked, fig_burned. by rewrite Hf.
Qed.

Lemma bump_tally_key fs c : ct_counterparty (bump_tally fs c) = ct_counterparty c.
Proof. by destruct fs as [[[? ?] ?] ?]. Qed.
Lemma bump_model_key fs cp m : md_model (bump_model fs cp m) = md_model m.
Proof. by destruct fs as [[[? ?] ?] ?]. Qed.

Lemma bump_tally_spec role d c ds :
  deal_in_range d → tally_of role c ds → tally_of role (bump_tally (deal_figures role d) c) (ds ++ [d]).
Proof.
  intros Hd (H1 & H2 & H3 & H4). unfold tally_of.
  destruct (deal_figures role d) as [[[t m] l] b] eqn:Hf.
  destruct (figures_snoc role d t m l b Hd Hf ds) as (-> & -> & -> & ->). cbn. by rewrite H1, H2, H3, H4.
Qed.

Lemma bump_counterparty_spec role d cs ds :
  deal_in_range d → NoDup (map ct_counterparty cs) →
  (∀ c, c ∈ cs → tally_of role c (with_counterparty ds (ct_counterparty c))) →
  (∀ e, e ∈ ds → ∃ c, c ∈ cs ∧ ct_counterparty c = dv_counterparty e) →
  let cs' := bump_counterparty (deal_figures role d) (dv_counterparty d) cs in
  NoDup (map ct_counterparty cs') ∧
  (∀ c, c ∈ cs' → tally_of role c (with_counterparty (ds ++ [d]) (ct_counterparty c))) ∧
  (∀ e, e ∈ ds ++ [d] → ∃ c, c ∈ cs' ∧ ct_counterparty c = dv_counterparty e).
Proof.
  intros Hd Hnd Hc Hin cs'. set (f := bump_tally (deal_figures role d)).
  destruct (upsert_spec ct_counterparty (dv_counterparty d) (mkTally (dv_counterparty d) 0 0 0 0) f
    eq_refl (bump_tally_key _) (λ c, bool_decide (ct_counterparty c = dv_counterparty d))
    cs (λ c, bool_decide_eq_true _) Hnd) as (Hnd' & y & Hy & Hx).
  assert (Hyk : ct_counterparty y = dv_counterparty d) by (destruct Hy as [[_ ?]|[-> _]]; done).
  split; [done|]. split.
  - intros c [[Hc1 Hc2]| ->]%Hx.
    + unfold with_counterparty. rewrite filter_snoc_no by congruence. by apply Hc.
    + unfold f, with_counterparty. rewrite bump_tally_key, Hyk, filter_snoc_yes by done.
      apply bump_tally_spec; [done|]. destruct Hy as [[Hyin <-]|[-> Hnone]]; [by apply Hc|].
      rewrite filter_none.
      * unfold tally_of. cbn. by rewrite !sat_sum_nil.
      * intros e He Hk. destruct (Hin e He) as (c & Hcin & Hck). apply (Hnone c Hcin). congruence.
  - assert (Hfy : f y ∈ cs' ∧ ct_counterparty (f y) = dv_counterparty d)
      by (split; [apply Hx; by right|unfold f; by rewrite bump_tally_key]).
    intros e [He| ->%list_elem_of_singleton]%elem_of_app; [|by exists (f y)].
    destruct (Hin e He) as (c & Hcin & Hck).
    destruct (decide (ct_counterparty c = dv_counterparty d)) as [Hk|Hk].
    + exists (f y). destruct Hfy. split; [done|congruence].
    + exists c. split; [apply Hx; by left|done].
Qed.

Lemma bump_model_spec role d m ds :
  deal_in_range d → breakdown_of role m ds →
  breakdown_of role (bump_model (deal_figures role d) (dv_counterparty d) m) (ds ++ [d]).
Proof.
  intros Hd (Hr & Ht & Hm & Hl & Hb & Hnd & Hc & Hin).
  destruct (bump_counterparty_spec role d _ ds Hd Hnd Hc Hin) as (Hnd' & Hc' & Hin').
  unfold breakdown_of, bump_model. destruct (deal_figures role d) as [[[t mo] l] b] eqn:Hf.
  cbn [md_role md_tokens md_money md_locked md_burned md_counterparties].
  destruct (figures_snoc role d t mo l b Hd Hf ds) as (-> & -> & -> & ->).
  rewrite Ht, Hm, Hl, Hb. split_and!; done.
Qed.

Lemma add_deal_spec role ms ds d :
  deal_in_range d → breakdowns_of role ms ds → breakdowns_of role (add_deal role ms d) (ds ++ [d]).
Proof.
  intros Hd (Hnd & Hm & Hin). unfold add_deal.
  set (f := bump_model (deal_figures role d) (dv_counterparty d)).
  destruct (upsert_spec md_model (deal_model d) (mkBreakdown (deal_model d) role [] 0 0 0 0) f
    eq_refl (bump_model_key _ _) (λ m, String.eqb (md_model m) (deal_model d)) ms
    (λ m, String.eqb_eq _ _) Hnd) as (Hnd' & y & Hy & Hx).
  assert (Hyk : md_model y = deal_model d) by (destruct Hy as [[_ ?]|[-> _]]; done).
  assert (Hfy : md_model (f y) = deal_model d) by (unfold f; by rewrite bump_model_key).
  split; [done|]. split.
  - intros m [[Hm1 Hm2]| ->]%Hx.
    + unfold with_model. rewrite filter_snoc_no by congruence. by apply Hm.
    + unfold with_model. rewrite Hfy, filter_snoc_yes by done. apply bump_model_spec; [done|].
      destruct Hy as [[Hyin <-]|[-> Hnone]]; [by apply Hm|]. rewrite filter_none.
      * unfold breakdown_of. cbn. rewrite !sat_sum_nil.
        split_and!; try done; [constructor|intros c Hc; by apply elem_of_nil in Hc|intros c Hc; by apply elem_of_nil in Hc].
      * intros e He Hk. destruct (Hin e He) as (m & Hmin & Hmk). apply (Hnone m Hmin). congruence.
  - intros e [He| ->%list_elem_of_singleton]%elem_of_app.
    + destruct (Hin e He) as (m & Hmin & Hmk). destruct (decide (md_model m = deal_model d)) as [Hk|Hk].
      * exists (f y). split; [apply Hx; by right|congruence].
      * exists m. split; [apply Hx; by left|done].
    + exists (f y). split; [apply Hx; by right|done].
Qed.

Lemma foldl_add_deal role ds ms es :
  Forall deal_in_range es → breakdowns_of role ms ds → breakdowns_of role (foldl (add_deal role) ms es) (ds ++ es).
Proof.
  intros Hes. revert ms ds. induction Hes as [|e es He Hes IH]; intros ms ds Hb; cbn [foldl].
  - by rewrite app_nil_r.
  - replace (ds ++ e :: es) with ((ds ++ [e]) ++ es) by (by rewrite <- app_assoc).
    apply IH. by apply add_deal_spec.
Qed.

(** The accounting breakdown is complete and exact.  There is one bucket per served
    model and inside it one tally per counterparty; every deal of the role, also one
    without a snapshot, falls in exactly one of each; and each figure of a bucket or tally
    is the sum over exactly its deals, saturated once at the width. *)
Theorem breakdown_exact deals role :
  Forall deal_in_range deals →
  breakdowns_of role (per_model_breakdown deals role) (filter (λ d, dv_role d = role) deals).
Proof.
  intros Hd. unfold per_model_breakdown. apply (foldl_add_deal role []).
  - apply Forall_forall. intros d [_ Hin]%list_elem_of_filter. rewrite Forall_forall in Hd. auto.
  - split; [constructor|]. split; intros ? H; by apply elem_of_nil in H.
Qed.

Definition sample_view (model cp : option string) (tokens received : Z) : DealView := {|
  dv_token_contract := "0:tc"; dv_role := Seller; dv_counterparty := cp; dv_price_per_tick := 5;
  dv_model := model;
  dv_snapshot := Some {| ss_seller_locked := 7; ss_buyer_locked := 9; ss_buyer_lead := 0;
    ss_tokens_final := tokens; ss_seller_received := received; ss_buyer_refunded := 0;
    ss_burned := 0; ss_closed := false |} |}.
Definition sample_views : list DealView :=
  [sample_view (Some "m"%string) (Some "a"%string) 3000000 10; sample_view None None 0 0;
   sample_view (Some "m"%string) (Some "b"%string) 1000000 (umax u64)].

Lemma breakdown_exact_witness :
  Forall deal_in_range sample_views ∧
  ∀ m, m ∈ per_model_breakdown sample_views Seller →
    md_money m = sat_sum (fig_money Seller) (with_model sample_views (md_model m)).
Proof.
  assert (Hd : Forall deal_in_range sample_views) by (repeat constructor; vm_compute; discriminate).
  split; [exact Hd|]. intros m Hm.
  apply (proj1 (proj2 (breakdown_exact sample_views Seller Hd))) in Hm. apply Hm.
Defined.
