(* ===== verification/Conservation.v ===== *)
(** * Deal money conservation: crates/core/src/market/deal_conservation.rs

    The ledger that replays a deal's money movements.  [apply] returns the ledger after the
    transition; an error leaves the caller the ledger it had.  The theorems relate a replay
    to the plain sums of the movements it was given. *)
From S2P Require Import Prelude RustText.

#[local] Arguments umax : simpl never.

Inductive DealMoneyFlow : Type :=
  | EscrowFunded (amount : Z)
  | SellerBondFunded (amount : Z)
  | BuyerBondFunded (amount : Z)
  | CreditedToNote (note : string) (amount : Z)
  | WrittenOff (amount : Z).

Definition flow_amount (f : DealMoneyFlow) : Z :=
  match f with
  | EscrowFunded amount | SellerBondFunded amount | BuyerBondFunded amount
  | CreditedToNote _ amount | WrittenOff amount => amount
  end.
Definition is_inflow (f : DealMoneyFlow) : bool :=
  match f with
  | EscrowFunded _ | SellerBondFunded _ | BuyerBondFunded _ => true
  | CreditedToNote _ _ | WrittenOff _ => false
  end.
Definition flow_label (f : DealMoneyFlow) : string :=
  match f with
  | EscrowFunded _ => "escrow_funded"
  | SellerBondFunded _ => "seller_bond_funded"
  | BuyerBondFunded _ => "buyer_bond_funded"
  | CreditedToNote _ _ => "credited_to_note"
  | WrittenOff _ => "written_off"
  end.

Inductive ConservationBreach : Type :=
  | Overdraft (transition : string) (balance amount : Z)
  | Overflow (transition : string) (balance amount : Z)
  | ResidualAtDestruction (balance : Z)
  | NotConserved (funded_in credited_out written_off balance : Z)
  | DeclaredPayoutDisagreesWithCredits (declared credited : Z)
  | PayoutExceedsFunding (funded_in declared : Z).

Definition ConservationBreach_fmt (b : ConservationBreach) : text :=
  match b with
  | Overdraft transition balance amount =>
      f["deal conservation: "; transition; " moves "; amount; " out of a balance of "; balance]
  | Overflow transition balance amount =>
      f["deal conservation: "; transition; " adds "; amount; " to a balance of "; balance; " and overflows u128"]
  | ResidualAtDestruction balance =>
      f["deal conservation: deal destroyed still holding "; balance; " SHELL, which pays nobody"]
  | NotConserved funded_in credited_out written_off balance =>
      f["deal conservation: funded in "; funded_in; " != credited out "; credited_out; " + written off "; written_off; " + held "; balance]
  | DeclaredPayoutDisagreesWithCredits declared credited =>
      f["deal conservation: the deal declared a payout of "; declared; " but the notes report being credited "; credited]
  | PayoutExceedsFunding funded_in declared =>
      f["deal conservation: declared payout "; declared; " exceeds everything the deal was funded, "; funded_in]
  end.

Record DealLedgerStep : Type := mkStep {
  step_flow : DealMoneyFlow;
  balance_before : Z;
  balance_after : Z;
}.

Record DealSettlement : Type := {
  ds_funded_in : Z;
  ds_credited_out : Z;
  ds_written_off : Z;
  ds_balance : Z;
  ds_credited_by_note : gmap string Z;
}.
Definition DealSettlement_credited_to (s : DealSettlement) (note : string) : Z :=
  unwrap_or 0 (ds_credited_by_note s !! note).

Record DealLedger : Type := mkLedger {
  balance : Z;
  funded_in : Z;
  credited_out : Z;
  written_off : Z;
  credited_by_note : gmap string Z;
  steps : list DealLedgerStep;
}.
Definition DealLedger_new : DealLedger := mkLedger 0 0 0 0 ∅ [].

Definition apply (l : DealLedger) (flow : DealMoneyFlow)
    : Result ConservationBreach (DealLedger * DealLedgerStep) :=
  let amount := flow_amount flow in
  let before := balance l in
  let? '(after, funded, credited, written, by_note) :=
    if is_inflow flow then
      let? after := ok_or (checked_add u128 before amount) (Overflow (flow_label flow) before amount) in
      let? funded := ok_or (checked_add u128 (funded_in l) amount) (Overflow (flow_label flow) before amount) in
      Ok (after, funded, credited_out l, written_off l, credited_by_note l)
    else
      let? after := ok_or (checked_sub before amount) (Overdraft (flow_label flow) before amount) in
      match flow with
      | CreditedToNote note _ =>
          Ok (after, funded_in l, saturating_add u128 (credited_out l) amount, written_off l,
              <[note := saturating_add u128 (unwrap_or 0 (credited_by_note l !! note)) amount]> (credited_by_note l))
      | _ => Ok (after, funded_in l, credited_out l, saturating_add u128 (written_off l) amount, credited_by_note l)
      end in
  let steps := steps l ++ [mkStep flow before after] in
  let? step := ok_or (last steps) (NotConserved funded credited written after) in
  Ok (mkLedger after funded credited written by_note steps, step).

Fixpoint replay_from (l : DealLedger) (flows : list DealMoneyFlow) : Result ConservationBreach DealLedger :=
  match flows with
  | [] => Ok l
  | flow :: flows => let? '(l, _step) := apply l flow in replay_from l flows
  end.
Definition replay (flows : list DealMoneyFlow) : Result ConservationBreach DealLedger :=
  replay_from DealLedger_new flows.

Definition DealLedger_credited_to (l : DealLedger) (note : string) : Z :=
  unwrap_or 0 (credited_by_note l !! note).

Definition settle (l : DealLedger) : Result ConservationBreach DealSettlement :=
  let breach := NotConserved (funded_in l) (credited_out l) (written_off l) (balance l) in
  let? out := ok_or
    (let* out := checked_add u128 (credited_out l) (written_off l) in checked_add u128 out (balance l))
    breach in
  if negb (out =? funded_in l) then Err breach
  else Ok {| ds_funded_in := funded_in l; ds_credited_out := credited_out l;
             ds_written_off := written_off l; ds_balance := balance l;
             ds_credited_by_note := credited_by_note l |}.

Definition settle_destroyed (l : DealLedger) : Result ConservationBreach DealSettlement :=
  let? settlement := settle l in
  if negb (ds_balance settlement =? 0) then Err (ResidualAtDestruction (ds_balance settlement))
  else Ok settlement.

Definition buyer_total_debit (deposit buyer_bond : Z) : option Z := checked_add u128 deposit buyer_bond.

(** [i128] bounds of the buyer's net result. *)
Definition i128_max : Z := 2 ^ 127 - 1.
Definition i128_min : Z := - 2 ^ 127.
Definition try_into_i128 (x : Z) : option Z := if x <=? i128_max then Some x else None.
Definition buyer_net_result (credited_to_buyer total_debit : Z) : Z :=
  let credited := unwrap_or i128_max (try_into_i128 credited_to_buyer) in
  let debited := unwrap_or i128_max (try_into_i128 total_debit) in
  Z.max i128_min (Z.min i128_max (credited - debited)).

Definition implied_write_off (funded_in declared_payout : Z) : Result ConservationBreach Z :=
  ok_or (checked_sub funded_in declared_payout) (PayoutExceedsFunding funded_in declared_payout).

Definition check_declared_payout_against_credits (declared_payout credited : Z)
    : Result ConservationBreach () :=
  ok_or (if declared_payout =? credited then Some () else None)
    (DeclaredPayoutDisagreesWithCredits declared_payout credited).

(** * The plain sums of a list of movements *)

Definition sum_of (p : DealMoneyFlow → bool) (flows : list DealMoneyFlow) : Z :=
  foldr (λ f n, (if p f then flow_amount f else 0) + n) 0 flows.
Definition is_write_off (f : DealMoneyFlow) : bool := match f with WrittenOff _ => true | _ => false end.
Definition is_credit (f : DealMoneyFlow) : bool := match f with CreditedToNote _ _ => true | _ => false end.
Definition is_credit_to (note : string) (f : DealMoneyFlow) : bool :=
  match f with CreditedToNote n _ => String.eqb n note | _ => false end.
Definition net (flows : list DealMoneyFlow) : Z :=
  sum_of is_inflow flows - sum_of is_credit flows - sum_of is_write_off flows.

Definition flow_in_range (f : DealMoneyFlow) : Prop := in_range u128 (flow_amount f).

Lemma sum_of_cons p f fs : sum_of p (f :: fs) = (if p f then flow_amount f else 0) + sum_of p fs.
Proof. done. Qed.

Lemma sum_of_app p fs gs : sum_of p (fs ++ gs) = sum_of p fs + sum_of p gs.
Proof.
  induction fs as [|f fs IH]; [done|]. rewrite <- app_comm_cons, !sum_of_cons, IH. lia.
Qed.

Lemma sum_of_one p f : sum_of p [f] = if p f then flow_amount f else 0.
Proof. rewrite sum_of_cons. apply Z.add_0_r. Qed.

Lemma sum_of_nonneg p fs : Forall flow_in_range fs → 0 ≤ sum_of p fs.
Proof.
  induction 1 as [|f fs [Hf _] _ IH]; [done|]. rewrite sum_of_cons. destruct (p f); lia.
Qed.

(** The ledger after a list of movements, if none of them was refused. *)
Definition ledger_of (flows : list DealMoneyFlow) (l : DealLedger) : Prop :=
  balance l = net flows ∧ funded_in l = sum_of is_inflow flows ∧
  credited_out l = sum_of is_credit flows ∧ written_off l = sum_of is_write_off flows ∧
  (∀ note, unwrap_or 0 (credited_by_note l !! note) = sum_of (is_credit_to note) flows) ∧
  map step_flow (steps l) = flows ∧
  0 ≤ balance l ∧ funded_in l ≤ umax u128.

(** A movement is accepted in a ledger exactly under these conditions. *)
Definition acceptable (l : DealLedger) (f : DealMoneyFlow) : Prop :=
  if is_inflow f then funded_in l + flow_amount f ≤ umax u128 else flow_amount f ≤ balance l.

Lemma sum_credit_to_le note fs :
  Forall flow_in_range fs → sum_of (is_credit_to note) fs ≤ sum_of is_credit fs.
Proof.
  induction 1 as [|f fs [Hf _] _ IH]; [done|]. rewrite !sum_of_cons.
  destruct f; cbn [is_credit is_credit_to flow_amount] in *; try lia. destruct (String.eqb _ _); lia.
Qed.

Lemma apply_spec fs l f :
  Forall flow_in_range fs → flow_in_range f → ledger_of fs l →
  (acceptable l f → ∃ l' s, apply l f = Ok (l', s) ∧ ledger_of (fs ++ [f]) l' ∧
     s = mkStep f (balance l) (balance l')) ∧
  (¬ acceptable l f → apply l f =
     Err (if is_inflow f then Overflow (flow_label f) (balance l) (flow_amount f)
          else Overdraft (flow_label f) (balance l) (flow_amount f))).
Proof.
  intros Hfs [Hf0 Hf1] (Hb & Hfi & Hco & Hwo & Hby & Hst & Hb0 & Hmax).
  pose proof (sum_of_nonneg is_credit fs Hfs). pose proof (sum_of_nonneg is_write_off fs Hfs).
  assert (Hle : balance l ≤ funded_in l) by (unfold net in Hb; lia).
  unfold apply, acceptable. destruct (is_inflow f) eqn:Hi.
  - split; intros Ha.
    + rewrite (proj2 (checked_add_Some u128 (balance l) _ _)) by (split; [reflexivity|lia]).
      rewrite (proj2 (checked_add_Some u128 (funded_in l) _ _)) by (split; [reflexivity|lia]).
      cbn [ok_or rbind]. rewrite last_snoc. cbn [ok_or rbind]. eexists _, _. split; [reflexivity|].
      split; [|done]. unfold ledger_of, net; cbn. rewrite !sum_of_app, !sum_of_one, map_app, Hst, Hi.
      destruct f; try done; cbn in *; unfold net in Hb; split_and!; try lia; try done;
        intros note; rewrite sum_of_app, Hby; cbn; lia.
    + destruct (checked_add u128 (balance l) (flow_amount f)) eqn:Hc; [|done].
      cbn [ok_or rbind]. by rewrite (proj2 (checked_add_None u128 (funded_in l) _)) by lia.
  - split; intros Ha.
    + rewrite (proj2 (checked_sub_Some (balance l) _ _)) by (split; [reflexivity|lia]).
      cbn [ok_or rbind].
      destruct f as [| | |note amount|amount]; try done; cbn [flow_amount] in *; cbn [rbind];
        rewrite last_snoc; cbn [ok_or rbind]; eexists _, _; (split; [reflexivity|]); (split; [|done]);
        unfold ledger_of, net, saturating_add; cbn;
        rewrite !sum_of_app, map_app, Hst; cbn; unfold net in Hb; split_and!; try lia; try done;
        intros note'; rewrite sum_of_app; cbn; try (rewrite Hby; lia).
      pose proof (sum_credit_to_le note fs Hfs).
      destruct (String.eqb_spec note note') as [->|Hne].
      * rewrite lookup_insert_eq. cbn. rewrite Hby. lia.
      * rewrite lookup_insert_ne by done. rewrite Hby. lia.
    + by rewrite (proj2 (checked_sub_None (balance l) _)) by lia.
Qed.

Lemma ledger_of_new : ledger_of [] DealLedger_new.
Proof. pose proof (umax_pos u128). repeat split; cbn; lia. Qed.

(** The movements all prefixes of which the deal can cover. *)
Definition covered (flows : list DealMoneyFlow) : Prop :=
  sum_of is_inflow flows ≤ umax u128 ∧ ∀ k, 0 ≤ net (take k flows).

Lemma replay_from_Ok done_ l flows l' :
  Forall flow_in_range done_ → Forall flow_in_range flows → ledger_of done_ l →
  replay_from l flows = Ok l' → ledger_of (done_ ++ flows) l'.
Proof.
  intros Hd Hf. revert done_ Hd l. induction Hf as [|f flows Hf Hfs IH]; intros done_ Hd l Hl Hr; cbn in Hr.
  - rewrite app_nil_r. by injection Hr as <-.
  - apply bind_Ok in Hr as ([l1 s] & Ha & Hr).
    destruct (apply_spec done_ l f Hd Hf Hl) as [Hok Hno].
    assert (Hacc : acceptable l f).
    { unfold acceptable in *. destruct (is_inflow f);
        [destruct (decide (funded_in l + flow_amount f ≤ umax u128)) as [|Hn]|
         destruct (decide (flow_amount f ≤ balance l)) as [|Hn]]; try done;
        rewrite Hno in Ha by done; done. }
    destruct (Hok Hacc) as (l2 & s2 & Ha2 & Hl2 & _). rewrite Ha in Ha2. injection Ha2 as <- <-.
    replace (done_ ++ f :: flows) with ((done_ ++ [f]) ++ flows) by (by rewrite <- app_assoc).
    eapply IH, Hr; [|done]. by apply Forall_app_2; [|constructor].
Qed.

Lemma net_app fs gs : net (fs ++ gs) = net fs + net gs.
Proof. unfold net. rewrite !sum_of_app. lia. Qed.

Lemma replay_from_total done_ l flows :
  Forall flow_in_range done_ → Forall flow_in_range flows → ledger_of done_ l →
  sum_of is_inflow (done_ ++ flows) ≤ umax u128 → (∀ k, 0 ≤ net done_ + net (take k flows)) →
  ∃ l', replay_from l flows = Ok l'.
Proof.
  intros Hd Hf. revert done_ Hd l. induction Hf as [|f flows Hf Hfs IH]; intros done_ Hd l Hl Hm Hn; cbn [replay_from].
  - by eexists.
  - destruct (apply_spec done_ l f Hd Hf Hl) as [Hok _].
    pose proof (sum_of_nonneg is_inflow flows Hfs) as Hin0.
    assert (Hacc : acceptable l f).
    { pose proof Hl as (Hb & Hfi & _). rewrite sum_of_app in Hm. cbn in Hm. fold (sum_of is_inflow flows) in Hm.
      specialize (Hn 1%nat). unfold acceptable. destruct (is_inflow f) eqn:Hi; [lia|].
      cbn [take] in Hn. unfold net at 2 in Hn. rewrite !sum_of_one, Hi in Hn.
      destruct f; try done; cbn in *; lia. }
    destruct (Hok Hacc) as (l1 & s & Ha & Hl1 & _). rewrite Ha. cbn [rbind].
    apply (IH (done_ ++ [f])); [by apply Forall_app_2; [|constructor]|done|by rewrite <- app_assoc|].
    intros k. specialize (Hn (S k)). cbn [take] in Hn. change (f :: take k flows) with ([f] ++ take k flows) in Hn.
    rewrite net_app in *. lia.
Qed.

Lemma ledger_of_prefix fs l k :
  Forall flow_in_range fs → replay fs = Ok l → 0 ≤ net (take k fs).
Proof.
  intros Hfs Hr. unfold replay in Hr.
  assert (Hsplit : ∃ l1, replay_from DealLedger_new (take k fs) = Ok l1).
  { rewrite <- (take_drop k fs) in Hr. revert Hr. generalize DealLedger_new, (take k fs), (drop k fs).
    intros l0 xs ys. revert l0. induction xs as [|x xs IH]; intros l0 H; cbn in *; [by eexists|].
    destruct (apply l0 x) as [[l1 s]|e]; [|done]. cbn in *. by apply IH in H. }
  destruct Hsplit as [l1 Hl1].
  eapply (replay_from_Ok [] _ (take k fs)) in Hl1 as (Hb & _ & _ & _ & _ & _ & H0 & _);
    [cbn in Hb; lia|constructor|by apply Forall_take|apply ledger_of_new].
Qed.

(** The replay of a deal is exact.  A list of movements is accepted exactly when no
    prefix of it pays out more than was funded before it and the total funded fits the
    width; otherwise it is a breach, never a clamp.  An accepted replay holds the plain
    sums of the movements: balance, funded, credited (in total and to every note) and
    written off; each step is recorded with the balance either side. *)
Theorem replay_exact flows :
  Forall flow_in_range flows →
  ((∃ l, replay flows = Ok l) ↔ covered flows) ∧
  ∀ l, replay flows = Ok l →
    balance l = net flows ∧ funded_in l = sum_of is_inflow flows ∧
    credited_out l = sum_of is_credit flows ∧ written_off l = sum_of is_write_off flows ∧
    (∀ note, DealLedger_credited_to l note = sum_of (is_credit_to note) flows) ∧
    map step_flow (steps l) = flows.
Proof.
  intros Hfs. split.
  - split.
    + intros [l Hr]. split; [|intros k; by eapply ledger_of_prefix].
      eapply (replay_from_Ok [] _ flows) in Hr; [|constructor|done|apply ledger_of_new].
      destruct Hr as (_ & Hfi & _ & _ & _ & _ & _ & Hm). cbn [app] in *. lia.
    + intros [Hm Hn]. apply (replay_from_total []); [constructor|done|apply ledger_of_new|done|].
      intros k. cbn. apply Hn.
  - intros l Hr. eapply (replay_from_Ok [] _ flows) in Hr; [|constructor|done|apply ledger_of_new].
    by destruct Hr as (? & ? & ? & ? & ? & ? & _).
Qed.

Definition sample_flows : list DealMoneyFlow :=
  [EscrowFunded 4100; SellerBondFunded 2000; BuyerBondFunded 2000; CreditedToNote "seller" 3000;
   WrittenOff 1100; CreditedToNote "buyer" 4000].

Lemma replay_exact_witness :
  Forall flow_in_range sample_flows ∧
  (∀ l, replay sample_flows = Ok l → balance l = net sample_flows).
Proof.
  assert (Hw : Forall flow_in_range sample_flows) by (repeat constructor; by vm_compute).
  split; [exact Hw|]. intros l Hl. exact (proj1 (proj2 (replay_exact sample_flows Hw) l Hl)).
Defined.

(** Every replayed deal settles.  The whole-deal identity funded = credited + written off
    + held is an invariant of the replay, so [settle] cannot fail on its result; a
    destroyed deal settles exactly when it holds nothing, and then the write-off implied by
    the declared payout is the write-off that was recorded. *)
Theorem replay_settles flows l :
  Forall flow_in_range flows → replay flows = Ok l →
  (∃ s, settle l = Ok s ∧ ds_funded_in s = ds_credited_out s + ds_written_off s + ds_balance s ∧
        ds_balance s = balance l ∧ ds_funded_in s = funded_in l) ∧
  (balance l = 0 →
     settle_destroyed l = settle l ∧ implied_write_off (funded_in l) (credited_out l) = Ok (written_off l)) ∧
  (balance l ≠ 0 → settle_destroyed l = Err (ResidualAtDestruction (balance l))).
Proof.
  intros Hfs Hr. eapply (replay_from_Ok [] _ flows) in Hr; [|constructor|done|apply ledger_of_new].
  destruct Hr as (Hb & Hfi & Hco & Hwo & _ & _ & Hb0 & Hm). cbn [app] in *.
  pose proof (sum_of_nonneg is_credit flows Hfs). pose proof (sum_of_nonneg is_write_off flows Hfs).
  unfold net in Hb.
  assert (Hs : settle l = Ok {| ds_funded_in := funded_in l; ds_credited_out := credited_out l;
      ds_written_off := written_off l; ds_balance := balance l; ds_credited_by_note := credited_by_note l |}).
  { unfold settle. rewrite (proj2 (checked_add_Some u128 _ _ (credited_out l + written_off l))) by lia.
    cbn [obind]. rewrite (proj2 (checked_add_Some u128 _ _ (funded_in l))) by lia. cbn. by rewrite Z.eqb_refl. }
  split; [eexists; split; [exact Hs|]; cbn; lia|]. unfold settle_destroyed. rewrite Hs. cbn. split.
  - intros Hz. rewrite Hz. split; [done|]. unfold implied_write_off.
    rewrite (proj2 (checked_sub_Some _ _ (written_off l))) by lia. done.
  - intros Hz. destruct (Z.eqb_spec (balance l) 0); [done|]. done.
Qed.

Lemma replay_settles_witness :
  ∃ l, replay sample_flows = Ok l ∧ settle_destroyed l = settle l.
Proof.
  eexists. split; [by vm_compute|].
  eapply (replay_settles sample_flows); [repeat constructor; by vm_compute|by vm_compute|by vm_compute].
Defined.

(** A refused movement is refused for the reason it names and a step moves the balance by
    exactly its figure.  From any replayed ledger, an inflow is refused only as an overflow
    of the total funded and an outflow only as an overdraft, with the figures that
    disagree; an accepted one adds or subtracts exactly its amount. *)
Theorem apply_step_exact flows l f :
  Forall flow_in_range flows → flow_in_range f → replay flows = Ok l →
  match apply l f with
  | Ok (l', s) => s = mkStep f (balance l) (balance l') ∧
      balance l' = (if is_inflow f then balance l + flow_amount f else balance l - flow_amount f) ∧
      funded_in l' = credited_out l' + written_off l' + balance l'
  | Err (Overflow label b a) => is_inflow f = true ∧ label = flow_label f ∧ b = balance l ∧
      a = flow_amount f ∧ umax u128 < funded_in l + a
  | Err (Overdraft label b a) => is_inflow f = false ∧ label = flow_label f ∧ b = balance l ∧
      a = flow_amount f ∧ b < a
  | Err _ => False
  end.
Proof.
  intros Hfs Hf Hr. eapply (replay_from_Ok [] _ flows) in Hr; [|constructor|done|apply ledger_of_new].
  cbn [app] in Hr. destruct (apply_spec flows l f Hfs Hf Hr) as [Hok Hno].
  assert (Hdec : acceptable l f ∨ ¬ acceptable l f) by (unfold acceptable; destruct (is_inflow f); lia).
  destruct Hdec as [Ha|Ha].
  - destruct (Hok Ha) as (l' & s & -> & (Hb' & Hf' & Hc' & Hw' & _) & ->).
    destruct Hr as (Hb & _). split; [done|].
    rewrite Hb', Hb, Hf', Hc', Hw', net_app. unfold net. rewrite !sum_of_app, !sum_of_one.
    destruct f; cbn [is_inflow is_credit is_write_off flow_amount]; lia.
  - rewrite (Hno Ha). unfold acceptable in Ha. destruct (is_inflow f); split_and!; try done; lia.
Qed.

Lemma apply_step_exact_witness :
  ∃ l, replay [EscrowFunded 10] = Ok l ∧
    apply l (WrittenOff 11) = Err (Overdraft "written_off" 10 11) ∧ 10 < 11.
Proof.
  eexists. split; [by vm_compute|]. split; [by vm_compute|].
  assert (Hw : Forall flow_in_range [EscrowFunded 10]) by (repeat constructor; by vm_compute).
  assert (Hf : flow_in_range (WrittenOff 11)) by by vm_compute.
  exact (proj2 (proj2 (proj2 (proj2 (apply_step_exact [EscrowFunded 10]
    (mkLedger 10 10 0 0 ∅ [mkStep (EscrowFunded 10) 0 10]) (WrittenOff 11) Hw Hf eq_refl))))).
Defined.
