(* ===== verification/Accumulator.v ===== *)
(** * The SHELL accumulator: crates/core/src/accumulator.rs

    The plan of a sale (one message per lot, four lot sizes), the plan of a purchase, the
    figures they print, and the decoders of the root's and the lots' getters.  The main
    theorem says that the greedy plan converts exactly what was asked in the fewest
    messages. *)
From S2P Require Import Prelude RustText Params DealGetters.

(** ** The plan of a sale *)

Record SellLot : Type := { lot_denom : Z; lot_shell_raw : Z }.
Record SellPlan : Type := {
  sp_lots : list SellLot;
  sp_usdc_whole : Z;
  sp_shell_committed_raw : Z;
  sp_usdc_expected_raw : Z;
}.
Inductive SellPlanError : Type :=
  | SellZeroAmount
  | SellOverflow
  | InsufficientShell (required_raw available_raw : Z).

Definition max_whole_usdc_from_shell (shell_raw : Z) : Z := shell_raw / ACCUMULATOR_SHELL_PER_USDC_RAW.
Definition shell_remainder_raw (shell_raw : Z) : Z := shell_raw mod ACCUMULATOR_SHELL_PER_USDC_RAW.

Definition decimal_units (raw unit_ : Z) (decimals : nat) : string :=
  to_string (raw / unit_) +:+ "." +:+ pad_zero decimals (raw mod unit_).
Definition whole_shell_from_raw (raw : Z) : string := decimal_units raw SHELL_UNIT 9.
Definition whole_usdc_from_raw (raw : Z) : string := decimal_units raw USDC_UNIT 6.

Definition SellPlanError_fmt (e : SellPlanError) : text :=
  match e with
  | SellZeroAmount =>
      f["refusing to sell 0 eccUSDC worth of SHELL: the accumulator's smallest lot is "; List.last ACCUMULATOR_DENOMS 0; " eccUSDC ("; whole_shell_from_raw ACCUMULATOR_SHELL_PER_USDC_RAW; " SHELL)"]
  | SellOverflow =>
      f["refusing to sell: the amount exceeds the uint128 arithmetic the accumulator uses"]
  | InsufficientShell required_raw available_raw =>
      f["funding wallet holds insufficient SHELL ECC[2]: required="; required_raw; " raw ("; whole_shell_from_raw required_raw; " SHELL), available="; available_raw; " raw ("; whole_shell_from_raw available_raw; " SHELL), missing="; saturating_sub required_raw available_raw; " raw; nothing was submitted."]
  end.

(** The [try_fold] that counts the lots before any is allocated: the count so far and what
    is left to convert. *)
Fixpoint count_lots (denoms : list Z) (total left_ : Z) : option (Z * Z) :=
  match denoms with
  | [] => Some (total, left_)
  | denom :: denoms =>
      let* total := checked_add u128 total (left_ / denom) in
      count_lots denoms total (left_ mod denom)
  end.

(** The loop over the denominations. *)
Fixpoint push_lots (denoms : list Z) (left_ : Z) (lots : list SellLot) : list SellLot :=
  match denoms with
  | [] => lots
  | denom :: denoms =>
      let count := left_ / denom in
      let lot := {| lot_denom := denom; lot_shell_raw := umul u128 denom ACCUMULATOR_SHELL_PER_USDC_RAW |} in
      push_lots denoms (usub u128 left_ (umul u128 count denom)) (lots ++ replicate (Z.to_nat count) lot)
  end.

(** [reserves n] says whether the allocator grants room for [n] lots
    ([Vec::try_reserve_exact]). *)
Definition SellPlan_for_whole_usdc (reserves : Z → bool) (usdc_whole : Z) : Result SellPlanError SellPlan :=
  if usdc_whole =? 0 then Err SellZeroAmount else
  let? shell_committed_raw := ok_or (checked_mul u128 usdc_whole ACCUMULATOR_SHELL_PER_USDC_RAW) SellOverflow in
  let? usdc_expected_raw := ok_or (checked_mul u128 usdc_whole USDC_UNIT) SellOverflow in
  let? '(lot_count, _left) := ok_or (count_lots ACCUMULATOR_DENOMS 0 usdc_whole) SellOverflow in
  let? lot_count := ok_or (try_into u64 lot_count) SellOverflow in
  if negb (reserves lot_count) then Err SellOverflow else
  Ok {| sp_lots := push_lots ACCUMULATOR_DENOMS usdc_whole [];
        sp_usdc_whole := usdc_whole;
        sp_shell_committed_raw := shell_committed_raw;
        sp_usdc_expected_raw := usdc_expected_raw |}.

Definition SellPlan_for_available_shell (reserves : Z → bool) (shell_available_raw : Z) : Result SellPlanError SellPlan :=
  SellPlan_for_whole_usdc reserves (max_whole_usdc_from_shell shell_available_raw).

Definition SellPlan_require_funded (p : SellPlan) (available_raw : Z) : Result SellPlanError () :=
  if sp_shell_committed_raw p >? available_raw
  then Err (InsufficientShell (sp_shell_committed_raw p) available_raw) else Ok ().
Definition SellPlan_lot_count (p : SellPlan) : Z := Z.of_nat (length (sp_lots p)).
Definition SellPlan_shell_left_raw (p : SellPlan) (available_raw : Z) : Z :=
  saturating_sub available_raw (sp_shell_committed_raw p).
Definition SellPlan_denomination_counts (p : SellPlan) : list (Z * Z) :=
  omap (λ denom,
    let count := Z.of_nat (length (filter (λ lot, lot_denom lot = denom) (sp_lots p))) in
    if count >? 0 then Some (denom, count) else None) ACCUMULATOR_DENOMS.

(** ** The plan of a purchase *)

Record BuyPlan : Type := { bp_usdc_whole : Z; bp_usdc_raw : Z; bp_shell_expected_raw : Z }.
Inductive BuyPlanError : Type :=
  | BuyZeroAmount
  | BuyOverflow
  | InsufficientUsdc (required_raw available_raw : Z).

Definition BuyPlanError_fmt (e : BuyPlanError) : text :=
  match e with
  | BuyZeroAmount =>
      f["refusing to buy with 0 eccUSDC: the accumulator refuses any amount that is not a whole eccUSDC"]
  | BuyOverflow =>
      f["refusing to buy: the amount exceeds the uint128 arithmetic the accumulator uses"]
  | InsufficientUsdc required_raw available_raw =>
      f["funding wallet holds insufficient eccUSDC ECC[3]: required="; required_raw; " raw ("; whole_usdc_from_raw required_raw; " eccUSDC), available="; available_raw; " raw ("; whole_usdc_from_raw available_raw; " eccUSDC), missing="; saturating_sub required_raw available_raw; " raw; nothing was submitted."]
  end.

Definition BuyPlan_for_whole_usdc (usdc_whole : Z) : Result BuyPlanError BuyPlan :=
  if usdc_whole =? 0 then Err BuyZeroAmount else
  let? usdc_raw := ok_or (checked_mul u128 usdc_whole USDC_UNIT) BuyOverflow in
  let? shell_expected_raw := ok_or (checked_mul u128 usdc_whole ACCUMULATOR_SHELL_PER_USDC_RAW) BuyOverflow in
  Ok {| bp_usdc_whole := usdc_whole; bp_usdc_raw := usdc_raw; bp_shell_expected_raw := shell_expected_raw |}.
Definition BuyPlan_require_funded (p : BuyPlan) (available_raw : Z) : Result BuyPlanError () :=
  if bp_usdc_raw p >? available_raw then Err (InsufficientUsdc (bp_usdc_raw p) available_raw) else Ok ().

(** ** What the accumulator root reports *)

Record LotId : Type := { lot_id_denom : Z; lot_id_order_id : Z }.
Record QueueState : Type := { next_id : Z; available : Z; sold_prefix : Z; owed_count : Z }.
Record LotDetails : Type := {
  ld_root : string; ld_owner : string; ld_denom : Z; ld_order_id : Z; ld_claimed : bool;
}.
Record RootDetails : Type := {
  rd_seller_shell_pool_raw : Z; rd_usdc_balance_raw : Z; rd_owed_total_raw : Z;
}.

Definition QueueState_is_sold (q : QueueState) (order_id : Z) : bool :=
  negb (order_id =? 0) && (order_id <=? sold_prefix q).
(** [1..next_id]. *)
Definition QueueState_issued_order_ids (q : QueueState) : list Z := seqZ 1 (next_id q - 1).
Definition LotDetails_id (d : LotDetails) : LotId :=
  {| lot_id_denom := ld_denom d; lot_id_order_id := ld_order_id d |}.
Definition RootDetails_free_reserve_raw (d : RootDetails) : Z :=
  saturating_sub (rd_usdc_balance_raw d) (rd_owed_total_raw d).

(** serde_json's [as_u64] next to the accessors of [JsonValue]. *)
Class JsonNumber (V : Type) : Type := { as_u64 : V → option Z }.

Section Getters.
Context {V : Type} `{JsonValue V, JsonNumber V}.

(** [value.get(field)] of a value that is not an object is [None]. *)
Definition acc_getter_field (value : V) (field : string) : Result text V :=
  ok_or (let* object := as_object value in object !! field) f["getter field '"; field; "' missing"].
Definition acc_getter_uint (w : uint) (value : V) (field : string) : Result text Z :=
  let? raw := acc_getter_field value field in
  match as_u64 raw with
  | Some n => Ok n
  | None =>
      let? s := ok_or (as_str raw) f["getter field '"; field; "' is neither a string nor an integer"] in
      map_err (λ e : string, f["getter field '"; field; "': "; e]) (parse_num w s)
  end.
Definition acc_getter_u64 : V → string → Result text Z := acc_getter_uint u64.
Definition acc_getter_u128 : V → string → Result text Z := acc_getter_uint u128.
Definition acc_getter_string (value : V) (field : string) : Result text string :=
  let? raw := acc_getter_field value field in
  ok_or (as_str raw) f["getter field '"; field; "' is not a string"].

Definition QueueState_decode_getter (value : V) : Result text QueueState :=
  let? next_id := acc_getter_u64 value "nextId" in
  let? available := acc_getter_u64 value "available" in
  let? sold_prefix := acc_getter_u64 value "soldPrefix" in
  let? owed_count := acc_getter_u64 value "owedCount" in
  Ok {| next_id := next_id; available := available; sold_prefix := sold_prefix; owed_count := owed_count |}.

Definition LotDetails_decode_getter (value : V) : Result text LotDetails :=
  let? root := acc_getter_string value "root" in
  let? owner := acc_getter_string value "owner" in
  let? denom := acc_getter_u64 value "denom" in
  let? denom := ok_or (try_into u16 denom) f["getDetails.denom does not fit a uint16"] in
  let? order_id := acc_getter_u64 value "orderId" in
  let? claimed := ok_or
    (let* object := as_object value in let* v := object !! "claimed"%string in as_bool v)
    f["getDetails.claimed missing or not a bool"] in
  Ok {| ld_root := root; ld_owner := owner; ld_denom := denom; ld_order_id := order_id; ld_claimed := claimed |}.

Definition RootDetails_decode_getter (value : V) : Result text RootDetails :=
  let? seller_shell_pool_raw := acc_getter_u128 value "sellerShellPool" in
  let? usdc_balance_raw := acc_getter_u128 value "usdcBalance" in
  let? owed_total_raw := acc_getter_u128 value "owedTotal" in
  Ok {| rd_seller_shell_pool_raw := seller_shell_pool_raw; rd_usdc_balance_raw := usdc_balance_raw;
        rd_owed_total_raw := owed_total_raw |}.
End Getters.

(** * The greedy plan *)

(** How many lots of each size a list of lots holds. *)
Definition legal_lot (lot : SellLot) : Prop :=
  lot_denom lot ∈ ACCUMULATOR_DENOMS ∧ lot_shell_raw lot = lot_denom lot * ACCUMULATOR_SHELL_PER_USDC_RAW.

(** The lots the loop pushes for [n] whole eccUSDC. *)
Definition lot (denom : Z) : SellLot :=
  {| lot_denom := denom; lot_shell_raw := denom * ACCUMULATOR_SHELL_PER_USDC_RAW |}.
Definition greedy_lots (n : Z) : list SellLot :=
  replicate (Z.to_nat (n / 1000)) (lot 1000) ++ replicate (Z.to_nat (n mod 1000 / 100)) (lot 100)
  ++ replicate (Z.to_nat (n mod 100 / 10)) (lot 10) ++ replicate (Z.to_nat (n mod 10)) (lot 1).
Definition greedy_count (n : Z) : Z := n / 1000 + n mod 1000 / 100 + n mod 100 / 10 + n mod 10.

Lemma push_step denom left_ : 0 < denom → 0 ≤ left_ ≤ umax u128 →
  usub u128 left_ (umul u128 (left_ / denom) denom) = left_ mod denom.
Proof.
  intros Hd Hl. pose proof (Z.div_mod left_ denom ltac:(lia)). pose proof (Z.mod_pos_bound left_ denom Hd).
  pose proof (Z.div_pos left_ denom ltac:(lia) Hd).
  rewrite umul_exact by nia. rewrite usub_exact by nia. lia.
Qed.

Lemma push_lots_greedy n : 0 ≤ n ≤ umax u128 → push_lots ACCUMULATOR_DENOMS n [] = greedy_lots n.
Proof.
  intros Hn. unfold ACCUMULATOR_DENOMS. cbn [push_lots app].
  pose proof (Z.mod_pos_bound n 1000 eq_refl). pose proof (Z.mod_pos_bound (n mod 1000) 100 eq_refl).
  pose proof (Z.mod_pos_bound ((n mod 1000) mod 100) 10 eq_refl).
  rewrite !push_step by (cbn [umax] in *; lia).
  assert ((n mod 1000) mod 100 = n mod 100) as -> by divlia.
  assert ((n mod 100) mod 10 = n mod 10) as -> by divlia. rewrite Z.div_1_r.
  unfold greedy_lots. by rewrite <- !app_assoc.
Qed.

Lemma count_lots_greedy n : 0 ≤ n ≤ umax u128 →
  count_lots ACCUMULATOR_DENOMS 0 n = Some (greedy_count n, 0).
Proof.
  intros Hn. unfold ACCUMULATOR_DENOMS. cbn [count_lots].
  assert (∀ a b, 0 ≤ a → 0 ≤ b → a + b ≤ n → checked_add u128 a b = Some (a + b)) as Hadd
    by (intros; apply checked_add_fits; lia).
  rewrite Hadd by divlia. cbn [obind]. rewrite Hadd by divlia. cbn [obind].
  rewrite Hadd by divlia. cbn [obind]. rewrite Hadd by divlia. cbn [obind].
  unfold greedy_count. f_equal. f_equal; divlia.
Qed.

Lemma zsum_greedy f n : 0 ≤ n →
  zsum f (greedy_lots n) = n / 1000 * f (lot 1000) + n mod 1000 / 100 * f (lot 100)
                         + n mod 100 / 10 * f (lot 10) + n mod 10 * f (lot 1).
Proof.
  intros. unfold greedy_lots. rewrite !zsum_app, !zsum_replicate.
  rewrite !Z2Nat.id by divlia. lia.
Qed.

Lemma zsum_one {A} (l : list A) : zsum (λ _, 1) l = Z.of_nat (length l).
Proof. induction l as [|a l IH]; [done|]. rewrite zsum_cons, IH. cbn [length]. lia. Qed.

Lemma length_greedy n : 0 ≤ n → Z.of_nat (length (greedy_lots n)) = greedy_count n.
Proof. intros. rewrite <- zsum_one, zsum_greedy by done. unfold greedy_count. lia. Qed.

Lemma greedy_legal n : Forall legal_lot (greedy_lots n).
Proof.
  unfold greedy_lots. rewrite !Forall_app.
  split_and!; apply Forall_replicate; (split; [unfold ACCUMULATOR_DENOMS; set_solver|done]).
Qed.

(** Lots of the four sizes as the numbers of lots of each. *)
Lemma legal_counts lots : Forall legal_lot lots → ∃ a b c d,
  0 ≤ a ∧ 0 ≤ b ∧ 0 ≤ c ∧ 0 ≤ d ∧ Z.of_nat (length lots) = a + b + c + d ∧
  zsum lot_denom lots = 1000 * a + 100 * b + 10 * c + d.
Proof.
  induction 1 as [|l lots [Hl _] _ (a & b & c & d & ? & ? & ? & ? & Hn & Hs)].
  { by exists 0, 0, 0, 0. }
  rewrite zsum_cons. cbn [length]. unfold ACCUMULATOR_DENOMS in Hl.
  rewrite !elem_of_cons, elem_of_nil in Hl.
  destruct Hl as [->|[->|[->|[->|[]]]]].
  - exists (a + 1), b, c, d. lia.
  - exists a, (b + 1), c, d. lia.
  - exists a, b, (c + 1), d. lia.
  - exists a, b, c, (d + 1). lia.
Qed.

(** The count of a greedy plan in the digits of the amount. *)
Lemma greedy_digits n : 0 ≤ n → ∃ a b c d, n = 1000 * a + 100 * b + 10 * c + d ∧
  greedy_count n = a + b + c + d ∧ 0 ≤ a ∧ 0 ≤ b < 10 ∧ 0 ≤ c < 10 ∧ 0 ≤ d < 10.
Proof.
  intros. exists (n / 1000), (n mod 1000 / 100), (n mod 100 / 10), (n mod 10). unfold greedy_count.
  split_and!; try divlia.
Qed.

Lemma greedy_fewest lots : Forall legal_lot lots →
  greedy_count (zsum lot_denom lots) ≤ Z.of_nat (length lots).
Proof.
  intros (a & b & c & d & ? & ? & ? & ? & -> & ->)%legal_counts.
  destruct (greedy_digits (1000 * a + 100 * b + 10 * c + d)) as (a' & b' & c' & d' & ? & -> & ? & ? & ? & ?); lia.
Qed.

(** When a plan is formed and which one it is. *)
Lemma sell_plan_Ok reserves n : in_range u128 n →
  SellPlan_for_whole_usdc reserves n =
    if (0 <? n) && (n * ACCUMULATOR_SHELL_PER_USDC_RAW <=? umax u128) && (greedy_count n <=? umax u64)
       && reserves (greedy_count n)
    then Ok {| sp_lots := greedy_lots n; sp_usdc_whole := n;
               sp_shell_committed_raw := n * ACCUMULATOR_SHELL_PER_USDC_RAW;
               sp_usdc_expected_raw := n * USDC_UNIT |}
    else if n =? 0 then Err SellZeroAmount else Err SellOverflow.
Proof.
  intros [H0 H1]. unfold SellPlan_for_whole_usdc. rewrite count_lots_greedy, push_lots_greedy by done.
  destruct (Z.eqb_spec n 0) as [->|]; [done|]. rewrite (proj2 (Z.ltb_lt 0 n)) by lia. cbn [andb].
  unfold checked_mul at 1. destruct (Z.leb_spec (n * ACCUMULATOR_SHELL_PER_USDC_RAW) (umax u128)); [|done].
  cbn [ok_or rbind andb].
  rewrite checked_mul_fits by (unfold USDC_UNIT, ACCUMULATOR_SHELL_PER_USDC_RAW, SHELL_UNIT in *; lia).
  cbn [ok_or rbind]. unfold try_into. destruct (greedy_count n <=? umax u64); [|done].
  cbn [ok_or rbind andb]. by destruct (reserves (greedy_count n)).
Qed.

Lemma greedy_totals n : 0 ≤ n →
  zsum lot_denom (greedy_lots n) = n ∧
  zsum lot_shell_raw (greedy_lots n) = n * ACCUMULATOR_SHELL_PER_USDC_RAW.
Proof.
  intros Hn. assert (zsum lot_denom (greedy_lots n) = n) as Hsum by (rewrite zsum_greedy by done; cbn; divlia).
  split; [done|]. rewrite <- Hsum at 2. rewrite Z.mul_comm, <- zsum_mul. apply zsum_ext. intros l Hl.
  pose proof (proj1 (Forall_forall _ _) (greedy_legal n) l Hl) as [_ ->]. lia.
Qed.

(** * Properties *)

(** A sale converts exactly what was asked, in the fewest messages.  A plan for [n] whole
    eccUSDC is formed exactly when [n] is positive, its SHELL fits [uint128] and its lots fit
    the memory that is granted; it commits [n] times the fixed rate, its lots are of the four
    sizes the contract takes and add up to [n] and to the committed SHELL, and no other list
    of such lots that converts [n] is shorter. *)
Theorem sell_plan_exact reserves n :
  in_range u128 n →
  (is_Some (result_ok (SellPlan_for_whole_usdc reserves n)) ↔
     0 < n ∧ n * ACCUMULATOR_SHELL_PER_USDC_RAW ≤ umax u128 ∧ greedy_count n ≤ umax u64 ∧
     reserves (greedy_count n) = true) ∧
  ∀ p, SellPlan_for_whole_usdc reserves n = Ok p →
    sp_usdc_whole p = n ∧ sp_shell_committed_raw p = n * ACCUMULATOR_SHELL_PER_USDC_RAW ∧
    sp_usdc_expected_raw p = n * USDC_UNIT ∧ Forall legal_lot (sp_lots p) ∧
    zsum lot_denom (sp_lots p) = n ∧ zsum lot_shell_raw (sp_lots p) = sp_shell_committed_raw p ∧
    ∀ lots, Forall legal_lot lots → zsum lot_denom lots = n → SellPlan_lot_count p ≤ Z.of_nat (length lots).
Proof.
  intros Hn. pose proof Hn as [H0 _]. rewrite sell_plan_Ok by done.
  destruct (_ && _) eqn:Hb.
  - rewrite !andb_true_iff, !Z.leb_le, Z.ltb_lt in Hb. split; [cbn; naive_solver|]. intros p [= <-]. cbn.
    destruct (greedy_totals n H0) as [-> ->]. split_and!; try done; [apply greedy_legal|].
    intros lots Hl <-. unfold SellPlan_lot_count. cbn [sp_lots]. rewrite length_greedy by done. by apply greedy_fewest.
  - split; [|by destruct (n =? 0)].
    split; [intros [? He]; by destruct (n =? 0)|]. intros (H1 & H2 & H3 & H4). exfalso.
    rewrite (proj2 (Z.ltb_lt _ _) H1), (proj2 (Z.leb_le _ _) H2), (proj2 (Z.leb_le _ _) H3), H4 in Hb. done.
Qed.

(** A sale of a whole balance commits all of it but the dust below one eccUSDC. *)
Lemma available_shell_split reserves raw p :
  in_range u128 raw → SellPlan_for_available_shell reserves raw = Ok p →
  sp_shell_committed_raw p + shell_remainder_raw raw = raw ∧
  SellPlan_shell_left_raw p raw = shell_remainder_raw raw ∧ SellPlan_require_funded p raw = Ok () ∧
  0 ≤ shell_remainder_raw raw < ACCUMULATOR_SHELL_PER_USDC_RAW.
Proof.
  intros [H0 H1]. unfold SellPlan_for_available_shell, max_whole_usdc_from_shell.
  rewrite sell_plan_Ok by (split; [by apply Z.div_pos|]; unfold ACCUMULATOR_SHELL_PER_USDC_RAW, SHELL_UNIT; divlia).
  destruct (_ && _); [|by destruct (_ =? 0)]. intros [= <-].
  unfold SellPlan_shell_left_raw, SellPlan_require_funded, shell_remainder_raw, saturating_sub.
  cbn [sp_shell_committed_raw].
  pose proof (Z.div_mod raw ACCUMULATOR_SHELL_PER_USDC_RAW ltac:(done)).
  pose proof (Z.mod_pos_bound raw ACCUMULATOR_SHELL_PER_USDC_RAW eq_refl).
  destruct (Z.gtb_spec (raw / ACCUMULATOR_SHELL_PER_USDC_RAW * ACCUMULATOR_SHELL_PER_USDC_RAW) raw); [lia|].
  split_and!; try done; lia.
Qed.

(** The figures of a refusal are read back by the amount grammar. *)
Lemma whole_shell_reads_back raw : in_range u128 raw → shell_amount_raw (whole_shell_from_raw raw) = Ok raw.
Proof.
  intros [H0 H1]. unfold whole_shell_from_raw, decimal_units.
  pose proof (Z.mod_pos_bound raw SHELL_UNIT eq_refl) as Hr. pose proof (Z.div_mod raw SHELL_UNIT ltac:(done)) as Hraw.
  destruct (pad_zero_9 _ Hr) as (Hpv & Hpd & Hpl).
  assert (0 ≤ raw / SHELL_UNIT) by (by apply Z.div_pos).
  rewrite (raw_of_decimals _ _ (raw mod SHELL_UNIT)); rewrite ?Hpl; cbn [Z.of_nat Z.sub]; try done.
  - f_equal. change (9 - Z.of_nat 9) with 0. lia.
  - intros He. by rewrite He in Hpl.
  - lia.
  - change (9 - Z.of_nat 9) with 0. lia.
Qed.

Lemma sell_plan_exact_witness :
  ∃ p, SellPlan_for_whole_usdc (λ _, true) 2346 = Ok p ∧ zsum lot_denom (sp_lots p) = 2346 ∧
       SellPlan_lot_count p = 15.
Proof.
  eexists. split; [reflexivity|]. split; [|reflexivity].
  eapply (proj2 (sell_plan_exact (λ _, true) 2346 ltac:(vm_compute; split; discriminate))). reflexivity.
Defined.
