(* ===== verification/Capacity.v ===== *)
(** * The delivery capacity of a seller

    crates/dexdo/src/seller/capacity.rs: one durable record per funded deal, and the requests
    that draw on it.  A reservation holds a reference to its deal's entry, so entries live in
    a heap: an entry that was removed from the manager is still the one its requests see.
    The JSON codec of the record file is a parameter; [CapacityFaults] says which call of the operating system fails.

    The first part is the data and the checks of a record, the second the calls on an entry and
    on a reservation, the third the manager, its drops and restarts, and runs of calls. *)
From Stdlib Require Import Strings.Ascii.
From S2P Require Import Prelude RustText Params Address DealTypes.

Definition CAPACITY_RECORD_VERSION : Z := 1.
Definition SELLER_UNCLAIMED_BILLABLE_RISK_LIMIT : Z := TICK_SIZE.
Definition CAPACITY_PERSIST_TOKEN_INTERVAL : Z := 1000.

Record DurableCapacityRecord : Type := {
  dr_version : Z;
  dr_token_contract : string;
  dr_funded_tokens : Z;
  dr_authoritative_cap : Z;
  dr_tokens_pending_anchor : Z;
  dr_local_delivered_after_anchor : Z;
  dr_outstanding_reservation : Z;
  dr_shared_requests : Z;
  dr_probe_delivery_at_decision : option Z;
}.
#[export] Instance DurableCapacityRecord_eq_dec : EqDecision DurableCapacityRecord.
Proof. solve_decision. Defined.

Definition set_outstanding (v : Z) (r : DurableCapacityRecord) : DurableCapacityRecord := {|
  dr_version := dr_version r; dr_token_contract := dr_token_contract r; dr_funded_tokens := dr_funded_tokens r;
  dr_authoritative_cap := dr_authoritative_cap r; dr_tokens_pending_anchor := dr_tokens_pending_anchor r;
  dr_local_delivered_after_anchor := dr_local_delivered_after_anchor r; dr_outstanding_reservation := v;
  dr_shared_requests := dr_shared_requests r; dr_probe_delivery_at_decision := dr_probe_delivery_at_decision r |}.
Definition set_local_delivered (v : Z) (r : DurableCapacityRecord) : DurableCapacityRecord := {|
  dr_version := dr_version r; dr_token_contract := dr_token_contract r; dr_funded_tokens := dr_funded_tokens r;
  dr_authoritative_cap := dr_authoritative_cap r; dr_tokens_pending_anchor := dr_tokens_pending_anchor r;
  dr_local_delivered_after_anchor := v; dr_outstanding_reservation := dr_outstanding_reservation r;
  dr_shared_requests := dr_shared_requests r; dr_probe_delivery_at_decision := dr_probe_delivery_at_decision r |}.
Definition set_probe_decision (v : option Z) (r : DurableCapacityRecord) : DurableCapacityRecord := {|
  dr_version := dr_version r; dr_token_contract := dr_token_contract r; dr_funded_tokens := dr_funded_tokens r;
  dr_authoritative_cap := dr_authoritative_cap r; dr_tokens_pending_anchor := dr_tokens_pending_anchor r;
  dr_local_delivered_after_anchor := dr_local_delivered_after_anchor r;
  dr_outstanding_reservation := dr_outstanding_reservation r;
  dr_shared_requests := dr_shared_requests r; dr_probe_delivery_at_decision := v |}.

Record CapacitySnapshot : Type := {
  sp_funded_tokens : Z; sp_authoritative_cap : Z; sp_tokens_pending_anchor : Z;
  sp_local_delivered_after_anchor : Z; sp_outstanding_reservation : Z;
}.
#[export] Instance CapacitySnapshot_eq_dec : EqDecision CapacitySnapshot.
Proof. solve_decision. Defined.
Definition capacity_snapshot (r : DurableCapacityRecord) : CapacitySnapshot := {|
  sp_funded_tokens := dr_funded_tokens r; sp_authoritative_cap := dr_authoritative_cap r;
  sp_tokens_pending_anchor := dr_tokens_pending_anchor r;
  sp_local_delivered_after_anchor := dr_local_delivered_after_anchor r;
  sp_outstanding_reservation := dr_outstanding_reservation r |}.

Definition committed (s : CapacitySnapshot) : Result text Z :=
  ok_or (let* value := checked_add u128 (sp_tokens_pending_anchor s) (sp_local_delivered_after_anchor s) in
         checked_add u128 value (sp_outstanding_reservation s))
    f["seller capacity committed-token sum overflows uint128"].
Definition available (s : CapacitySnapshot) : Result text Z :=
  let? committed := committed s in
  ok_or (checked_sub (sp_authoritative_cap s) committed) f["seller capacity invariant is already exceeded"].

(** ** The checks *)

Definition authoritative_cap (state : DealChainState) (deal : DealSubscription) : Result text Z :=
  if is_subscription deal && (week_index deal >=? sub_weeks deal) then Ok (cs_tokens_pending state)
  else if negb (cs_probe_accepted state) then Ok (Z.min TICK_SIZE (funded_tokens deal))
  else if negb (is_subscription deal) then Ok (funded_tokens deal)
  else ok_or (option_map (λ cap, Z.min cap (funded_tokens deal))
                (checked_add u128 (week_base_tokens deal) (tokens_per_week deal)))
         f["subscription weekBaseTokens + tokensPerWeek overflows uint128"].

Definition bail_if (condition : bool) (message : text) : Result text () := if condition then Err message else Ok ().

Definition validate_live_deal_shape (token_contract : string) (state : DealChainState) (deal : DealSubscription)
    : Result text () :=
  let tc := display_self_dapp token_contract in
  bail_if (negb (Bool.eqb (is_subscription deal) (has_flag (deal_flags deal) flags.SUBSCRIPTION)))
    f["TokenContract "; tc; " has contradictory subscription flag/subWeeks shape"] ;?
  bail_if (negb (is_subscription deal)
           && (negb (week_index deal =? 0) || negb (tokens_per_week deal =? funded_tokens deal)
               || negb (week_base_tokens deal =? 0)))
    f["TokenContract "; tc; " has contradictory ordinary deal capacity shape"] ;?
  bail_if (negb (cs_funded state)) f["TokenContract "; tc; " is not funded"] ;?
  bail_if (cs_disputed state) f["TokenContract "; tc; " is disputed; refusing to serve"] ;?
  bail_if (negb (cs_opened state) && cs_probe_accepted state)
    f["TokenContract "; tc; " reports accepted probe while not open and not terminal"] ;?
  bail_if (funded_tokens deal =? 0) f["TokenContract "; tc; " fundedTokens is zero"] ;?
  bail_if (cs_tokens_pending state >? funded_tokens deal)
    f["TokenContract "; tc; " tokensPending "; cs_tokens_pending state; " exceeds fundedTokens "; funded_tokens deal] ;?
  (if cs_probe_accepted state then
     bail_if (cs_tokens_pending state <? TICK_SIZE)
       f["TokenContract "; tc; " accepted probe has tokensPending "; cs_tokens_pending state; " below TICK_SIZE "; TICK_SIZE]
   else
     bail_if (negb (cs_tokens_pending state =? 0))
       f["TokenContract "; tc; " pre-probe tokensPending must be zero, got "; cs_tokens_pending state]) ;?
  let? cap := authoritative_cap state deal in
  bail_if (cs_tokens_pending state >? cap)
    f["TokenContract "; tc; " tokensPending "; cs_tokens_pending state; " exceeds current authoritative cap "; cap].

Definition validate_record (r : DurableCapacityRecord) : Result text () :=
  bail_if (negb (dr_version r =? CAPACITY_RECORD_VERSION))
    f["seller capacity "; display_self_dapp (dr_token_contract r); " has version "; dr_version r; "; expected ";
      CAPACITY_RECORD_VERSION] ;?
  bail_if (String.eqb (trim (dr_token_contract r)) "") f["seller capacity record has empty token_contract"] ;?
  bail_if (match dr_probe_delivery_at_decision r with
           | Some delivered => negb (dr_tokens_pending_anchor r =? 0) || (delivered =? 0) || (delivered >? TICK_SIZE)
                               || (delivered >? dr_local_delivered_after_anchor r)
           | None => false
           end) f["seller capacity record has an invalid probe decision prefix"] ;?
  let snapshot := capacity_snapshot r in
  let? sum := committed snapshot in
  bail_if (sum >? sp_authoritative_cap snapshot)
    f["seller capacity invariant violated: pending "; sp_tokens_pending_anchor snapshot; " + local ";
      sp_local_delivered_after_anchor snapshot; " + reserved "; sp_outstanding_reservation snapshot; " = "; sum;
      " > cap "; sp_authoritative_cap snapshot] ;?
  bail_if (sp_authoritative_cap snapshot >? sp_funded_tokens snapshot)
    f["seller capacity invariant violated: cap "; sp_authoritative_cap snapshot; " > fundedTokens ";
      sp_funded_tokens snapshot].

(** [Path::join] of a relative name. *)
Definition path_join (directory name : string) : string :=
  match List.rev (String.list_ascii_of_string directory) with
  | [] => name
  | c :: _ => if Ascii.eqb c "/"%char then directory +:+ name else directory +:+ "/" +:+ name
  end.
(** The file of a deal (the text of an address is ASCII, one byte a character). *)
Definition is_ascii_alphanumeric (c : ascii) : bool :=
  is_ascii_digit c || is_ascii_upper c || ((97 <=? code c) && (code c <=? 122)).
Definition capacity_path (directory token_contract : string) : string :=
  let safe := str_map (λ c, if is_ascii_alphanumeric c then lower_char c else "-"%char) (trim token_contract) in
  path_join directory ("deal-" +:+ safe +:+ "-seller-capacity.json").
Definition in_deals_dir (deals_dir : string) : option string := Some (path_join deals_dir "seller-capacity").

(** ** The manager *)

Record CapacityEntryState : Type := {
  es_path : option string;
  es_record : DurableCapacityRecord;
  es_terminal : bool;
  es_probe_accepted : bool;
  es_unpersisted_delivered : Z;
  es_active_shared_requests : Z;
}.
Definition set_record (v : DurableCapacityRecord) (e : CapacityEntryState) : CapacityEntryState := {|
  es_path := es_path e; es_record := v; es_terminal := es_terminal e; es_probe_accepted := es_probe_accepted e;
  es_unpersisted_delivered := es_unpersisted_delivered e; es_active_shared_requests := es_active_shared_requests e |}.
Definition set_terminal (e : CapacityEntryState) : CapacityEntryState := {|
  es_path := es_path e; es_record := es_record e; es_terminal := true; es_probe_accepted := es_probe_accepted e;
  es_unpersisted_delivered := es_unpersisted_delivered e; es_active_shared_requests := es_active_shared_requests e |}.
Definition set_probe_accepted (v : bool) (e : CapacityEntryState) : CapacityEntryState := {|
  es_path := es_path e; es_record := es_record e; es_terminal := es_terminal e; es_probe_accepted := v;
  es_unpersisted_delivered := es_unpersisted_delivered e; es_active_shared_requests := es_active_shared_requests e |}.
Definition set_unpersisted (v : Z) (e : CapacityEntryState) : CapacityEntryState := {|
  es_path := es_path e; es_record := es_record e; es_terminal := es_terminal e; es_probe_accepted := es_probe_accepted e;
  es_unpersisted_delivered := v; es_active_shared_requests := es_active_shared_requests e |}.
Definition set_active_shared (v : Z) (e : CapacityEntryState) : CapacityEntryState := {|
  es_path := es_path e; es_record := es_record e; es_terminal := es_terminal e; es_probe_accepted := es_probe_accepted e;
  es_unpersisted_delivered := es_unpersisted_delivered e; es_active_shared_requests := v |}.

(** A reservation, and the entry it refers to. *)
Record RequestReservation : Type := {
  rr_entry : nat; rr_initial : Z; rr_remaining : Z; rr_finished : bool; rr_shared : bool;
}.
Definition set_remaining (v : Z) (r : RequestReservation) : RequestReservation := {|
  rr_entry := rr_entry r; rr_initial := rr_initial r; rr_remaining := v; rr_finished := rr_finished r; rr_shared := rr_shared r |}.
Definition set_finished (r : RequestReservation) : RequestReservation := {|
  rr_entry := rr_entry r; rr_initial := rr_initial r; rr_remaining := 0; rr_finished := true; rr_shared := rr_shared r |}.

Inductive ReserveError : Type := UnknownDeal | Terminal | Exhausted | OnchainLimit | Concurrency | InvalidState (error : text).
Definition ReserveError_fmt (e : ReserveError) : text :=
  match e with
  | UnknownDeal => f["deal capacity is not registered"]
  | Terminal => f["deal capacity is terminal"]
  | Exhausted => f["deal capacity is exhausted"]
  | OnchainLimit => f["deal unclaimed billable backlog reached the on-chain limit"]
  | Concurrency => f["deal request concurrency limit reached"]
  | InvalidState error => Lit "invalid deal capacity: " :: error
  end.

Record CapacityFaults : Type := {
  cf_load : option text; cf_flush : option FileFault; cf_persist : option FileFault; cf_remove : option FileFault;
}.
Definition no_capacity_faults : CapacityFaults :=
  {| cf_load := None; cf_flush := None; cf_persist := None; cf_remove := None |}.

(** * The operations of the delivery capacity

    crates/dexdo/src/seller/capacity.rs.  Three layers of state: a [Slot] is one entry with its
    record file, a pair of a slot and a [RequestReservation] is what a call on a reservation
    holds the locks of, and [Manager] is the whole ledger.  [on_entry] and [on_request] take an
    operation of an inner layer to the manager.  Every operation is total, and what it wrote
    before an error stays written. *)

Section Ops.
(** The JSON codec of the record file, and the empty file. *)
Context {Bytes : Type} (to_vec : DurableCapacityRecord → Bytes) (is_empty : Bytes → bool)
  (from_slice : Bytes → Result text DurableCapacityRecord).

Record Slot : Type := { sl_file : option Bytes; sl_entry : CapacityEntryState }.
Definition with_file (v : option Bytes) (s : Slot) : Slot := {| sl_file := v; sl_entry := sl_entry s |}.
Definition with_entry (f : CapacityEntryState → CapacityEntryState) (s : Slot) : Slot :=
  {| sl_file := sl_file s; sl_entry := f (sl_entry s) |}.

Definition load_record (ft : CapacityFaults) (path : string) (file : option Bytes)
    : Result text (option DurableCapacityRecord) :=
  match cf_load ft with
  | Some error => Err (Lit "read seller capacity " :: Lit path :: Lit ": " :: error)
  | None =>
      match file with
      | None => Ok None
      | Some bytes =>
          bail_if (is_empty bytes) f["seller capacity "; path; " is empty"] ;?
          rmap Some (map_err (λ error, Lit "parse seller capacity " :: Lit path :: Lit ": " :: error) (from_slice bytes))
      end
  end.

(** The temporary file is synced and renamed over the record file; then the directory is synced. *)
Definition persist_candidate (fault : option FileFault) (record : DurableCapacityRecord) : Op Slot text () := λ s,
  match es_path (sl_entry s) with
  | None => (Ok (), s)
  | Some _ =>
      match fault with
      | None => (Ok (), with_file (Some (to_vec record)) s)
      | Some (BeforePublish error) => (Err error, s)
      | Some (AfterPublish error) => (Err error, with_file (Some (to_vec record)) s)
      end
  end.

Definition the_entry {E} : Op Slot E CapacityEntryState := op_read (λ s, Ok (sl_entry s)).

Definition flushed (record : DurableCapacityRecord) (pending : Z) : Result text DurableCapacityRecord :=
  let? outstanding := ok_or (checked_sub (dr_outstanding_reservation record) pending) f["aggregate reservation underflow"] in
  let? local := ok_or (checked_add u128 (dr_local_delivered_after_anchor record) pending)
                  f["local delivered counter overflows uint128"] in
  Ok (set_local_delivered local (set_outstanding outstanding record)).
Definition flush_delivered (ft : CapacityFaults) : Op Slot text Z :=
  do e <- the_entry;
  let pending := es_unpersisted_delivered e in
  if pending =? 0 then op_ret (Ok 0) else
  do candidate <- op_ret (flushed (es_record e) pending);
  do _a <- op_ret (validate_record candidate);
  do _b <- persist_candidate (cf_flush ft) candidate;
  do _c <- op_write (with_entry (λ e, set_unpersisted 0 (set_record candidate e)));
  op_ret (ok_or (try_into u64 pending) f["durable delivered delta does not fit u64"]).

(** ** Operations on an entry *)

Definition subscription_term_ended (deal : DealSubscription) : bool :=
  is_subscription deal && (week_index deal >=? sub_weeks deal).
(** The record that a paired read of the chain turns [old] into. *)
Definition reconciled (token_contract : string) (state : DealChainState) (deal : DealSubscription) (cap : Z)
    (old : DurableCapacityRecord) : Result text DurableCapacityRecord :=
  let tc := display_self_dapp token_contract in
  bail_if (negb (dr_funded_tokens old =? funded_tokens deal))
    f["TokenContract "; tc; " fundedTokens changed from "; dr_funded_tokens old; " to "; funded_tokens deal] ;?
  bail_if (cs_tokens_pending state <? dr_tokens_pending_anchor old)
    f["TokenContract "; tc; " tokensPending regressed from "; dr_tokens_pending_anchor old; " to "; cs_tokens_pending state] ;?
  bail_if ((cap <? dr_authoritative_cap old) && negb (subscription_term_ended deal))
    f["TokenContract "; tc; " authoritative capacity regressed from "; dr_authoritative_cap old; " to "; cap] ;?
  let? delivered := ok_or (checked_add u128 (dr_tokens_pending_anchor old) (dr_local_delivered_after_anchor old))
                      f["seller capacity durable delivery overflows uint128"] in
  let backed := if cs_probe_accepted state then Z.max delivered PROBE_SEED_TOKENS else delivered in
  bail_if ((cs_tokens_pending state >? backed) && negb (subscription_term_ended deal))
    f["TokenContract "; tc; " tokensPending "; cs_tokens_pending state; " is beyond durable local delivery "; delivered;
      " and the protocol probe seed"] ;?
  let tokens_pending_anchor := Z.min (cs_tokens_pending state) delivered in
  let? cap := if subscription_term_ended deal
              then ok_or (checked_add u128 delivered (dr_outstanding_reservation old))
                     f["post-term seller capacity commitment overflows uint128"]
              else Ok cap in
  let candidate := {|
    dr_version := CAPACITY_RECORD_VERSION; dr_token_contract := token_contract;
    dr_funded_tokens := funded_tokens deal; dr_authoritative_cap := cap;
    dr_tokens_pending_anchor := tokens_pending_anchor;
    dr_local_delivered_after_anchor := delivered - tokens_pending_anchor;
    dr_outstanding_reservation := dr_outstanding_reservation old; dr_shared_requests := 0;
    dr_probe_delivery_at_decision := if cs_probe_accepted state then None else dr_probe_delivery_at_decision old |} in
  validate_record candidate ;? Ok candidate.

Definition refresh (ft : CapacityFaults) (token_contract : string) (state : DealChainState) (deal : DealSubscription)
    (cap : Z) : Op Slot text CapacitySnapshot :=
  do e <- the_entry;
  do _a <- op_ret (bail_if (es_terminal e) f["TokenContract "; display_self_dapp token_contract; " capacity is terminal"]);
  do candidate <- op_ret (reconciled token_contract state deal cap (es_record e));
  do _b <- (if bool_decide (candidate = es_record e) then op_ret (Ok ())
            else do _c <- persist_candidate (cf_persist ft) candidate; op_write (with_entry (set_record candidate)));
  do _d <- op_write (with_entry (set_probe_accepted (cs_probe_accepted state)));
  op_read (λ s, Ok (capacity_snapshot (es_record (sl_entry s)))).

Definition save_probe (ft : CapacityFaults) (delivered : Z) : Op Slot text Z :=
  do e <- the_entry;
  do _a <- op_ret (bail_if (es_terminal e || negb (dr_tokens_pending_anchor (es_record e) =? 0))
                     f["probe decision requires live pre-probe capacity"]);
  do _b <- op_ret (bail_if ((delivered =? 0) || (delivered >? TICK_SIZE)
                            || (delivered >? dr_local_delivered_after_anchor (es_record e)))
                     f["probe decision prefix "; delivered; " is not backed by durable delivery within one tick"]);
  match dr_probe_delivery_at_decision (es_record e) with
  | Some saved => op_ret (Ok saved)
  | None =>
      let candidate := set_probe_decision (Some delivered) (es_record e) in
      do _c <- op_ret (validate_record candidate);
      do _d <- persist_candidate (cf_persist ft) candidate;
      do _e <- op_write (with_entry (set_record candidate));
      op_ret (Ok delivered)
  end.

(** The refusal of an entry whose unclaimed delivery reached the limit. *)
Definition risk_limit (e : CapacityEntryState) : Result ReserveError () :=
  if dr_local_delivered_after_anchor (es_record e) >=? SELLER_UNCLAIMED_BILLABLE_RISK_LIMIT
  then Err (if es_probe_accepted e then OnchainLimit else Exhausted) else Ok ().

(** The terms of a new reservation: its amount, and whether it is shared. *)
Definition admit_amount (requested limit : Z) (e : CapacityEntryState) : Result ReserveError Z :=
  (if es_terminal e then Err Terminal else Ok ()) ;?
  map_err InvalidState (validate_record (es_record e)) ;?
  risk_limit e ;?
  (if negb (dr_outstanding_reservation (es_record e) =? 0) then Err Exhausted else Ok ()) ;?
  (if es_active_shared_requests e >=? limit then Err Concurrency else Ok ()) ;?
  let? available := map_err InvalidState (available (capacity_snapshot (es_record e))) in
  let amount := Z.min available requested in
  if amount =? 0 then Err Exhausted else Ok amount.
Definition admit_entry (requested limit : Z) : Op Slot ReserveError Z :=
  do e <- the_entry;
  do amount <- op_ret (admit_amount requested limit e);
  do _a <- op_write (with_entry (set_active_shared (es_active_shared_requests e + 1)));
  op_ret (Ok amount).

Definition reserve_amount (requested : Z) (exclusive : bool) (e : CapacityEntryState) : Result ReserveError Z :=
  (if es_terminal e then Err Terminal else Ok ()) ;?
  (if negb (es_active_shared_requests e =? 0) || exclusive && negb (dr_outstanding_reservation (es_record e) =? 0)
   then Err Concurrency else Ok ()) ;?
  map_err InvalidState (validate_record (es_record e)) ;?
  risk_limit e ;?
  let? available := map_err InvalidState (available (capacity_snapshot (es_record e))) in
  let amount := Z.min available requested in
  if amount =? 0 then Err Exhausted else Ok amount.
Definition take (ft : CapacityFaults) (requested : Z) (exclusive : bool) : Op Slot ReserveError Z :=
  do e <- the_entry;
  do amount <- op_ret (reserve_amount requested exclusive e);
  do outstanding <- op_ret (ok_or (checked_add u128 (dr_outstanding_reservation (es_record e)) amount)
                              (InvalidState f["request reservation overflows uint128"]));
  let candidate := set_outstanding outstanding (es_record e) in
  do _a <- op_ret (map_err InvalidState (validate_record candidate));
  do _b <- op_map_err InvalidState (persist_candidate (cf_persist ft) candidate);
  do _c <- op_write (with_entry (λ e, set_record candidate (set_unpersisted 0 e)));
  op_ret (Ok amount).

(** ** Operations on a reservation *)

Definition Held : Type := Slot * RequestReservation.
Definition of_slot {E A} (m : Op Slot E A) : Op Held E A := λ h, let '(r, s) := m h.1 in (r, (s, h.2)).
Definition upd_request (f : RequestReservation → RequestReservation) (h : Held) : Held := (h.1, f h.2).
Definition upd_entry (f : CapacityEntryState → CapacityEntryState) (h : Held) : Held := (with_entry f h.1, h.2).
Definition the_request {E} : Op Held E RequestReservation := op_read (λ h, Ok h.2).

Definition unfinished (r : RequestReservation) : Result text () :=
  bail_if (rr_finished r) f["capacity reservation already finished"].
Definition not_terminal (e : CapacityEntryState) : Result text () :=
  bail_if (es_terminal e) f["deal capacity became terminal"].

Definition finish_shared (ft : CapacityFaults) (tokens : Z) (ambiguous : bool) : Op Held text Z :=
  do r <- the_request;
  do _a <- op_ret (unfinished r);
  do e <- of_slot the_entry;
  do _b <- op_ret (not_terminal e);
  do available <- op_ret (available (capacity_snapshot (es_record e)));
  let charged := if ambiguous then 0 else Z.min (Z.min tokens (rr_remaining r)) available in
  do local <- op_ret (ok_or (checked_add u128 (dr_local_delivered_after_anchor (es_record e)) charged)
                        f["local billable counter overflows uint128"]);
  let candidate := set_local_delivered local (es_record e) in
  do _c <- op_ret (validate_record candidate);
  do _d <- of_slot (persist_candidate (cf_persist ft) candidate);
  do _e <- op_write (upd_entry (set_record candidate));
  do active <- op_ret (ok_or (checked_sub (es_active_shared_requests e) 1) f["active shared request count underflow"]);
  do _f <- op_write (upd_entry (set_active_shared active));
  do _g <- op_write (upd_request set_finished);
  op_ret (Ok (wrapping u64 charged)).

Definition finish_with_delivery (ft : CapacityFaults) (tokens : Z) : Op Held text Z :=
  do _z <- op_ret (bail_if (tokens =? 0) f["terminal billable token total must be positive"]);
  do r <- the_request;
  if rr_shared r then finish_shared ft tokens false else
  do _a <- op_ret (unfinished r);
  do _b <- op_ret (bail_if (tokens >? rr_remaining r)
             f["terminal billable total "; tokens; " exceeds request reservation "; rr_remaining r]);
  do e <- of_slot the_entry;
  do _c <- op_ret (not_terminal e);
  do _d <- op_ret (bail_if (negb (es_unpersisted_delivered e =? 0))
             f["terminal billing cannot follow partial per-chunk delivery accounting"]);
  do outstanding <- op_ret (ok_or (checked_sub (dr_outstanding_reservation (es_record e)) (rr_remaining r))
                              f["aggregate reservation underflow"]);
  do local <- op_ret (ok_or (checked_add u128 (dr_local_delivered_after_anchor (es_record e)) tokens)
                        f["local billable counter overflows uint128"]);
  let candidate := set_local_delivered local (set_outstanding outstanding (es_record e)) in
  do _e <- op_ret (validate_record candidate);
  do _f <- of_slot (persist_candidate (cf_persist ft) candidate);
  do _g <- op_write (λ h, upd_request set_finished (upd_entry (set_record candidate) h));
  op_ret (ok_or (try_into u64 tokens) f["terminal billable total does not fit u64"]).

Definition authorize_exposure (min_billable : Z) (r : RequestReservation) : Result ReserveError () :=
  if rr_finished r || (rr_remaining r <? Z.max min_billable 1) then Err Exhausted else Ok ().

Definition record_delivered (ft : CapacityFaults) (tokens : Z) : Op Held text Z :=
  do _z <- op_ret (bail_if (tokens =? 0) f["authoritative delivered delta must be positive"]);
  do r <- the_request;
  do _a <- op_ret (unfinished r);
  do _b <- op_ret (bail_if (tokens >? rr_remaining r)
             f["authoritative delivered delta "; tokens; " exceeds request reservation "; rr_remaining r]);
  do e <- of_slot the_entry;
  do _c <- op_ret (not_terminal e);
  do unpersisted <- op_ret (ok_or (checked_add u128 (es_unpersisted_delivered e) tokens)
                              f["local delivered counter overflows uint128"]);
  do _d <- op_ret (bail_if (unpersisted >? dr_outstanding_reservation (es_record e)) f["aggregate reservation underflow"]);
  do _e <- op_write (upd_entry (set_unpersisted unpersisted));
  do durable <- (if (unpersisted >=? CAPACITY_PERSIST_TOKEN_INTERVAL) || bool_decide (es_path e = None)
                 then of_slot (flush_delivered ft) else op_ret (Ok 0));
  do _f <- op_write (upd_request (set_remaining (rr_remaining r - tokens)));
  op_ret (Ok durable).

Definition finish_exact (ft : CapacityFaults) : Op Held text Z :=
  do r <- the_request;
  if rr_shared r then finish_shared ft 0 false else
  do _a <- op_ret (unfinished r);
  do e <- of_slot the_entry;
  if es_terminal e then do _b <- op_write (upd_request set_finished); op_ret (Ok 0) else
  do durable <- of_slot (flush_delivered ft);
  do e <- of_slot the_entry;
  do outstanding <- op_ret (ok_or (checked_sub (dr_outstanding_reservation (es_record e)) (rr_remaining r))
                              f["aggregate reservation underflow"]);
  let candidate := set_outstanding outstanding (es_record e) in
  do _c <- op_ret (validate_record candidate);
  do _d <- of_slot (persist_candidate (cf_persist ft) candidate);
  do _e <- op_write (λ h, upd_request set_finished (upd_entry (set_record candidate) h));
  op_ret (Ok durable).

Definition finish_ambiguous (ft : CapacityFaults) : Op Held text Z :=
  do r <- the_request;
  if rr_shared r then finish_shared ft 0 true else
  do _a <- op_ret (unfinished r);
  do e <- of_slot the_entry;
  do durable <- (if es_terminal e then op_ret (Ok 0) else of_slot (flush_delivered ft));
  do _b <- op_write (upd_request set_finished);
  op_ret (Ok durable).

(** The end of a reservation's life: an unfinished shared one frees its slot. *)
Definition drop (h : Held) : Slot :=
  if rr_shared h.2 && negb (rr_finished h.2)
  then with_entry (λ e, set_active_shared (saturating_sub (es_active_shared_requests e) 1) e) h.1 else h.1.
End Ops.

(** * The seller's capacity manager and its runs

    crates/dexdo/src/seller/capacity.rs: [CapacityManager] with the calls of the gateway, the
    reservations it handed out, and a restart of the process, which keeps the record files only.
    A concurrent run is a sequence of [CapCall]s: an entry's lock is held over all that a call
    does with the entry, and [CStale] is the rest of a call whose entry was looked up before
    other calls came between.  The two halves of [mark_terminal] are one step. *)

Section Manager.
Context {Bytes : Type} (to_vec : DurableCapacityRecord → Bytes) (is_empty : Bytes → bool)
  (from_slice : Bytes → Result text DurableCapacityRecord).

(** The entries map holds references into the heap of entries; so do the reservations. *)
Record Manager : Type := {
  mg_store_dir : option string;
  mg_files : gmap string Bytes;
  mg_entries : gmap string nat;
  mg_heap : gmap nat CapacityEntryState;
  mg_requests : gmap nat RequestReservation;
}.
Definition set_files (v : gmap string Bytes) (m : Manager) : Manager := {|
  mg_store_dir := mg_store_dir m; mg_files := v; mg_entries := mg_entries m; mg_heap := mg_heap m;
  mg_requests := mg_requests m |}.
Definition set_entries (v : gmap string nat) (m : Manager) : Manager := {|
  mg_store_dir := mg_store_dir m; mg_files := mg_files m; mg_entries := v; mg_heap := mg_heap m;
  mg_requests := mg_requests m |}.
Definition set_heap (v : gmap nat CapacityEntryState) (m : Manager) : Manager := {|
  mg_store_dir := mg_store_dir m; mg_files := mg_files m; mg_entries := mg_entries m; mg_heap := v;
  mg_requests := mg_requests m |}.
Definition set_requests (v : gmap nat RequestReservation) (m : Manager) : Manager := {|
  mg_store_dir := mg_store_dir m; mg_files := mg_files m; mg_entries := mg_entries m; mg_heap := mg_heap m;
  mg_requests := v |}.

(** A manager of a new process, over the files it finds. *)
Definition fresh_manager (store_dir : option string) (files : gmap string Bytes) : Manager := {|
  mg_store_dir := store_dir; mg_files := files; mg_entries := ∅; mg_heap := ∅; mg_requests := ∅ |}.
Definition restart (m : Manager) : Manager := fresh_manager (mg_store_dir m) (mg_files m).

(** ** Inner operations at the manager *)

Definition slot_of (e : CapacityEntryState) (m : Manager) : Slot (Bytes := Bytes) :=
  {| sl_file := es_path e ≫= λ p, mg_files m !! p; sl_entry := e |}.
Definition put_slot (id : nat) (s : Slot (Bytes := Bytes)) (m : Manager) : Manager :=
  set_heap (<[id := sl_entry s]> (mg_heap m))
    (match es_path (sl_entry s) with
     | Some p => set_files (partial_alter (λ _, sl_file s) p (mg_files m)) m
     | None => m
     end).
(** [e] is the entry that [id] refers to. *)
Definition on_entry {E A} (id : nat) (e : CapacityEntryState) (op : Op Slot E A) : Op Manager E A := λ m,
  let '(r, s) := op (slot_of e m) in (r, put_slot id s m).
Definition on_request {E A} (rid : nat) (e : CapacityEntryState) (r : RequestReservation) (op : Op Held E A)
    : Op Manager E A := λ m,
  let '(res, (s, r')) := op (slot_of e m, r) in
  (res, set_requests (<[rid := r']> (mg_requests m)) (put_slot (rr_entry r) s m)).

Definition find_entry (token_contract : string) (m : Manager) : option (nat * CapacityEntryState) :=
  mg_entries m !! token_contract ≫= λ id, (λ e, (id, e)) <$> mg_heap m !! id.
Definition lookup_entry {E} (unknown : E) (token_contract : string) : Op Manager E (nat * CapacityEntryState) :=
  op_read (λ m, ok_or (find_entry token_contract m) unknown).

(** ** The calls on the manager *)

Definition remove_if_present (ft : CapacityFaults) (path : string) : Op Manager text () := λ m,
  match cf_remove ft with
  | Some (BeforePublish error) => (Err (Lit "remove terminal seller capacity " :: Lit path :: Lit ": " :: error), m)
  | fault =>
      match mg_files m !! path with
      | None => (Ok (), m)
      | Some _ => (match fault with None => Ok () | Some (BeforePublish e) | Some (AfterPublish e) => Err e end,
                   set_files (delete path (mg_files m)) m)
      end
  end.

Definition mark_terminal (ft : CapacityFaults) (token_contract : string) : Op Manager text () :=
  do found <- op_read (λ m, Ok (find_entry token_contract m));
  do _a <- op_write (λ m, set_entries (delete token_contract (mg_entries m)) m);
  match found with
  | Some (id, e) =>
      do _b <- op_write (λ m, set_heap (<[id := set_terminal e]> (mg_heap m)) m);
      match es_path e with
      | Some path => remove_if_present ft path
      | None => op_ret (Ok ())
      end
  | None =>
      do directory <- op_read (λ m, Ok (mg_store_dir m));
      match directory with
      | Some directory => remove_if_present ft (capacity_path directory token_contract)
      | None => op_ret (Ok ())
      end
  end.

(** The record of a deal that has no file yet. *)
Definition new_record (token_contract : string) (state : DealChainState) (deal : DealSubscription) (cap : Z)
    : DurableCapacityRecord := {|
  dr_version := CAPACITY_RECORD_VERSION; dr_token_contract := token_contract; dr_funded_tokens := funded_tokens deal;
  dr_authoritative_cap := cap; dr_tokens_pending_anchor := cs_tokens_pending state;
  dr_local_delivered_after_anchor := 0; dr_outstanding_reservation := 0; dr_shared_requests := 0;
  dr_probe_delivery_at_decision := None |}.
Definition initial_record (ft : CapacityFaults) (token_contract : string) (state : DealChainState)
    (deal : DealSubscription) (cap : Z) (path : option string) (m : Manager) : Result text DurableCapacityRecord :=
  match path with
  | None => Ok (new_record token_contract state deal cap)
  | Some path =>
      let? loaded := load_record is_empty from_slice ft path (mg_files m !! path) in
      match loaded with
      | None => Ok (new_record token_contract state deal cap)
      | Some record =>
          validate_record record ;?
          bail_if (negb (String.eqb (dr_token_contract record) token_contract))
            f["seller capacity file is for TokenContract "; display_self_dapp (dr_token_contract record); ", not ";
              display_self_dapp token_contract] ;?
          Ok record
      end
  end.
Definition find_or_register (ft : CapacityFaults) (token_contract : string) (state : DealChainState)
    (deal : DealSubscription) (cap : Z) : Op Manager text (nat * CapacityEntryState) :=
  do found <- op_read (λ m, Ok (find_entry token_contract m));
  match found with
  | Some found => op_ret (Ok found)
  | None =>
      do path <- op_read (λ m, Ok (option_map (λ directory, capacity_path directory token_contract) (mg_store_dir m)));
      do record <- op_read (initial_record ft token_contract state deal cap path);
      let e := {| es_path := path; es_record := record; es_terminal := false;
                  es_probe_accepted := cs_probe_accepted state; es_unpersisted_delivered := 0;
                  es_active_shared_requests := 0 |} in
      do id <- op_read (λ m, Ok (fresh (dom (mg_heap m))));
      do _a <- op_write (λ m, set_entries (<[token_contract := id]> (mg_entries m)) (set_heap (<[id := e]> (mg_heap m)) m));
      op_ret (Ok (id, e))
  end.
Definition reconcile_deal (ft : CapacityFaults) (token_contract : string) (state : DealChainState)
    (deal : DealSubscription) : Op Manager text (option CapacitySnapshot) :=
  if is_stopped state then do _a <- mark_terminal ft token_contract; op_ret (Ok None) else
  do _b <- op_ret (validate_live_deal_shape token_contract state deal);
  do cap <- op_ret (authoritative_cap state deal);
  do found <- find_or_register ft token_contract state deal cap;
  do snapshot <- on_entry found.1 found.2 (refresh to_vec ft token_contract state deal cap);
  op_ret (Ok (Some snapshot)).

Definition prepare_probe (ft : CapacityFaults) (token_contract : string) (delivered : Z) : Op Manager text Z :=
  do found <- lookup_entry f["deal capacity is not registered"] token_contract;
  on_entry found.1 found.2 (save_probe to_vec ft delivered).

(** The reservation that a call hands out; its amount is what the entry granted. *)
Definition hand_out (entry : nat) (amount : Z) (shared : bool) : Op Manager ReserveError nat :=
  do rid <- op_read (λ m, Ok (fresh (dom (mg_requests m))));
  do _a <- op_write (λ m, set_requests (<[rid := {|
      rr_entry := entry; rr_initial := amount; rr_remaining := amount; rr_finished := false; rr_shared := shared |}]>
    (mg_requests m)) m);
  op_ret (Ok rid).
Definition admit_shared (token_contract : string) (requested limit : Z) : Op Manager ReserveError nat :=
  do found <- lookup_entry UnknownDeal token_contract;
  do amount <- on_entry found.1 found.2 (admit_entry requested limit);
  hand_out found.1 amount true.
Definition reserve_inner (ft : CapacityFaults) (token_contract : string) (requested : Z) (exclusive : bool)
    : Op Manager ReserveError nat :=
  if requested =? 0 then op_ret (Err Exhausted) else
  do found <- lookup_entry UnknownDeal token_contract;
  do amount <- on_entry found.1 found.2 (take to_vec ft requested exclusive);
  hand_out found.1 amount false.
Definition reserve (ft : CapacityFaults) (token_contract : string) (requested : Z) := reserve_inner ft token_contract requested false.
Definition reserve_exclusive (ft : CapacityFaults) (token_contract : string) (requested : Z) :=
  reserve_inner ft token_contract requested true.

Definition snapshot (token_contract : string) (m : Manager) : Result text (option CapacitySnapshot) :=
  match find_entry token_contract m with
  | None => Ok None
  | Some (_, e) =>
      if es_terminal e then Ok None
      else validate_record (es_record e) ;? Ok (Some (capacity_snapshot (es_record e)))
  end.
Definition active_shared_requests (token_contract : string) (m : Manager) : Z :=
  match find_entry token_contract m with Some (_, e) => es_active_shared_requests e | None => 0 end.

(** ** Runs *)

(** What a call does with the entry it found. *)
Inductive EntryCall : Type :=
| ERefresh (token_contract : string) (state : DealChainState) (deal : DealSubscription) (cap : Z)
| ESaveProbe (delivered : Z)
| EAdmit (requested limit : Z)
| ETake (requested : Z) (exclusive : bool).
Definition entry_call (ft : CapacityFaults) (c : EntryCall) (id : nat) (e : CapacityEntryState) (m : Manager) : Manager :=
  match c with
  | ERefresh tc state deal cap => (on_entry id e (refresh to_vec ft tc state deal cap) m).2
  | ESaveProbe delivered => (on_entry id e (save_probe to_vec ft delivered) m).2
  | EAdmit requested limit => ((do amount <- on_entry id e (admit_entry requested limit); hand_out id amount true) m).2
  | ETake requested exclusive =>
      ((do amount <- on_entry id e (take to_vec ft requested exclusive); hand_out id amount false) m).2
  end.

Inductive CapCall : Type :=
| CReconcile (token_contract : string) (state : DealChainState) (deal : DealSubscription)
| CPrepareProbe (token_contract : string) (delivered : Z)
| CAdmitShared (token_contract : string) (requested limit : Z)
| CReserve (token_contract : string) (requested : Z) (exclusive : bool)
| CMarkTerminal (token_contract : string)
| CStale (id : nat) (c : EntryCall)
| CFinishWithDelivery (rid : nat) (tokens : Z)
| CRecordDelivered (rid : nat) (tokens : Z)
| CFinishExact (rid : nat)
| CFinishAmbiguous (rid : nat)
| CDrop (rid : nat)
| CRestart.

(** A call on a reservation, for a caller who holds it: the tokens it reports as durable. *)
Definition with_request (rid : nat) (op : Op Held text Z) (m : Manager) : Result text Z * Manager :=
  match mg_requests m !! rid with
  | Some r => match mg_heap m !! rr_entry r with
              | Some e => on_request rid e r op m
              | None => (Err [], m)
              end
  | None => (Err [], m)
  end.
Definition drop_request (rid : nat) (m : Manager) : Manager :=
  match mg_requests m !! rid with
  | Some r => match mg_heap m !! rr_entry r with
              | Some e => set_requests (delete rid (mg_requests m)) (put_slot (rr_entry r) (drop (slot_of e m, r)) m)
              | None => m
              end
  | None => m
  end.

(** The manager after a call, and the delivered tokens the call reports. *)
Definition quiet {E A} (r : Result E A * Manager) : option Z * Manager := (Some 0, r.2).
Definition report (r : Result text Z * Manager) : option Z * Manager := (result_ok r.1, r.2).
Definition cap_step (ft : CapacityFaults) (c : CapCall) (m : Manager) : option Z * Manager :=
  match c with
  | CReconcile tc state deal => quiet (reconcile_deal ft tc state deal m)
  | CPrepareProbe tc delivered => quiet (prepare_probe ft tc delivered m)
  | CAdmitShared tc requested limit => quiet (admit_shared tc requested limit m)
  | CReserve tc requested exclusive => quiet (reserve_inner ft tc requested exclusive m)
  | CMarkTerminal tc => quiet (mark_terminal ft tc m)
  | CStale id c => (Some 0, match mg_heap m !! id with Some e => entry_call ft c id e m | None => m end)
  | CFinishWithDelivery rid tokens => report (with_request rid (finish_with_delivery to_vec ft tokens) m)
  | CRecordDelivered rid tokens => report (with_request rid (record_delivered to_vec ft tokens) m)
  | CFinishExact rid => report (with_request rid (finish_exact to_vec ft) m)
  | CFinishAmbiguous rid => report (with_request rid (finish_ambiguous to_vec ft) m)
  | CDrop rid => (Some 0, drop_request rid m)
  | CRestart => (Some 0, restart m)
  end.
End Manager.
