(* ===== verification/CapacityInv.v ===== *)
(** * The delivery capacity: what every operation keeps

    The capacity of a valid record is never oversold, and an entry counts its shared requests.
    [held_ok] and [slot_ok] are the invariants of the inner layers; each operation of
    CapacityOps keeps them whatever the operating system does. *)
From S2P Require Import Prelude RustText Params Address DealTypes Capacity.

#[local] Arguments umax : simpl never.
#[local] Arguments display_self_dapp : simpl never.

Lemma bail_if_Ok c m u : bail_if c m = Ok u ↔ c = false.
Proof. destruct u. unfold bail_if. by destruct c. Qed.

(** ** Records *)

(** The ranges of the types of the fields. *)
Definition typed_record (r : DurableCapacityRecord) : Prop :=
  0 ≤ dr_funded_tokens r ≤ umax u128 ∧ 0 ≤ dr_authoritative_cap r ∧ 0 ≤ dr_tokens_pending_anchor r ∧
  0 ≤ dr_local_delivered_after_anchor r ∧ 0 ≤ dr_outstanding_reservation r.
Definition record_delivery (r : DurableCapacityRecord) : Z := dr_tokens_pending_anchor r + dr_local_delivered_after_anchor r.
Definition probe_prefix_ok (r : DurableCapacityRecord) : bool :=
  match dr_probe_delivery_at_decision r with
  | Some d => (dr_tokens_pending_anchor r =? 0) && negb (d =? 0) && (d <=? TICK_SIZE) && (d <=? dr_local_delivered_after_anchor r)
  | None => true
  end.

Record record_ok (r : DurableCapacityRecord) : Prop := {
  ro_typed : typed_record r;
  ro_version : dr_version r = CAPACITY_RECORD_VERSION;
  ro_contract : trim (dr_token_contract r) ≠ "";
  ro_probe : probe_prefix_ok r = true;
  ro_sum : record_delivery r + dr_outstanding_reservation r ≤ dr_authoritative_cap r;
  ro_cap : dr_authoritative_cap r ≤ dr_funded_tokens r;
}.

Lemma committed_Ok r c :
  committed (capacity_snapshot r) = Ok c ↔
  c = record_delivery r + dr_outstanding_reservation r ∧ record_delivery r ≤ umax u128 ∧ c ≤ umax u128.
Proof.
  unfold committed, record_delivery. rewrite ok_or_Ok, obind_Some. cbn. split.
  - intros (a & [-> ?]%checked_add_Some & [-> ?]%checked_add_Some). lia.
  - intros (-> & H1 & H2). eexists. rewrite checked_add_fits by lia. split; [done|]. apply checked_add_Some. lia.
Qed.

Lemma validate_record_Ok r u : typed_record r → validate_record r = Ok u ↔ record_ok r.
Proof.
  destruct u. intros Ht. pose proof Ht as (?&?&?&?&?). unfold validate_record. split.
  - intros Hv. repeat (apply bind_Ok in Hv as (? & ?%bail_if_Ok & Hv)).
    apply bind_Ok in Hv as (c & (->&?&?)%committed_Ok & Hv).
    apply bind_Ok in Hv as (? & ?%bail_if_Ok & Hv%bail_if_Ok). cbn in *.
    constructor; try done; try (unfold record_delivery in *; lia).
    + destruct (String.eqb_spec (trim (dr_token_contract r)) ""); [discriminate|done].
    + unfold probe_prefix_ok. destruct (dr_probe_delivery_at_decision r); [lia|done].
  - intros [_ Hv Hc Hp Hs Hcap]. rewrite (proj2 (bail_if_Ok _ _ ())) by lia.
    rewrite (proj2 (String.eqb_neq _ _) Hc). cbn.
    rewrite (proj2 (bail_if_Ok _ _ ())); [|unfold probe_prefix_ok in Hp; destruct (dr_probe_delivery_at_decision r); [lia|done]].
    cbn. rewrite (proj2 (committed_Ok r _)) by (split; [done|]; unfold record_delivery in *; lia).
    cbn. rewrite (proj2 (bail_if_Ok _ _ ())) by (unfold record_delivery in *; lia). cbn. apply bail_if_Ok. lia.
Qed.

Lemma available_Ok r a :
  record_ok r → available (capacity_snapshot r) = Ok a ↔
  a = dr_authoritative_cap r - (record_delivery r + dr_outstanding_reservation r).
Proof.
  intros Hr. pose proof (ro_typed _ Hr) as (?&?&?&?&?). pose proof (ro_sum _ Hr). pose proof (ro_cap _ Hr).
  unfold available. rewrite (proj2 (committed_Ok r _)) by (split; [done|]; unfold record_delivery in *; lia).
  cbn. rewrite ok_or_Ok, checked_sub_Some. lia.
Qed.

(** A candidate that the check accepted: its counters are what they were, moved. *)
Lemma moved_ok r d o u :
  record_ok r → 0 ≤ d → 0 ≤ o →
  validate_record (set_local_delivered d (set_outstanding o r)) = Ok u → record_ok (set_local_delivered d (set_outstanding o r)).
Proof. intros Hr Hd Ho. apply validate_record_Ok. pose proof (ro_typed _ Hr). unfold typed_record in *. cbn. lia. Qed.

(** ** Entries and reservations *)

Record entry_ok (e : CapacityEntryState) : Prop := {
  eo_record : record_ok (es_record e);
  eo_unpersisted : 0 ≤ es_unpersisted_delivered e ≤ dr_outstanding_reservation (es_record e);
  eo_exclusive : es_active_shared_requests e ≠ 0 → dr_outstanding_reservation (es_record e) = 0;
}.
Record request_ok (r : RequestReservation) : Prop := {
  qo_remaining : 0 ≤ rr_remaining r ≤ rr_initial r;
  qo_initial : rr_initial r ≤ umax u64;
}.
(** An unfinished shared request holds one slot, an unfinished exclusive one its remainder. *)
Definition shared_slot (r : RequestReservation) : Z := if rr_shared r && negb (rr_finished r) then 1 else 0.
Definition held_tokens (r : RequestReservation) : Z :=
  if negb (rr_shared r) && negb (rr_finished r) then rr_remaining r else 0.

(** ** Moves of the counters *)

(** [d] tokens are delivered, [o] leave the reserved ones. *)
Definition deliver (d o : Z) (r : DurableCapacityRecord) : DurableCapacityRecord :=
  set_local_delivered (dr_local_delivered_after_anchor r + d) (set_outstanding (dr_outstanding_reservation r - o) r).
Definition on_record (f : DurableCapacityRecord → DurableCapacityRecord) (e : CapacityEntryState) : CapacityEntryState :=
  set_record (f (es_record e)) e.
Definition flush_entry (e : CapacityEntryState) : CapacityEntryState :=
  set_unpersisted 0 (on_record (deliver (es_unpersisted_delivered e) (es_unpersisted_delivered e)) e).
(** The tokens that neither were delivered nor are reserved. *)
Definition headroom (r : DurableCapacityRecord) : Z :=
  dr_authoritative_cap r - (record_delivery r + dr_outstanding_reservation r).

Lemma deliver_ok d o r :
  record_ok r → 0 ≤ d → o ≤ dr_outstanding_reservation r → d - o ≤ headroom r → record_ok (deliver d o r).
Proof.
  intros Hr Hd Ho Hh. pose proof Hr as [(?&?&?&?&?) ?? Hp ??]. unfold headroom, record_delivery in *. constructor; cbn; try done.
  - unfold typed_record. cbn. lia.
  - unfold probe_prefix_ok in *. cbn. destruct (dr_probe_delivery_at_decision r); [lia|done].
  - unfold record_delivery. cbn. lia.
Qed.
Lemma deliver_valid d o r :
  record_ok r → 0 ≤ d → o ≤ dr_outstanding_reservation r → d - o ≤ headroom r → validate_record (deliver d o r) = Ok ().
Proof. intros Hr Hd Ho Hh. pose proof (deliver_ok d o r Hr Hd Ho Hh) as H. by apply validate_record_Ok; [apply H|]. Qed.
Lemma headroom_nonneg r : record_ok r → 0 ≤ headroom r.
Proof. intros Hr. pose proof (ro_sum _ Hr). unfold headroom. lia. Qed.

Lemma deliver_0 r : deliver 0 0 r = r.
Proof. destruct r. unfold deliver, set_local_delivered, set_outstanding; cbn. by rewrite Z.add_0_r, Z.sub_0_r. Qed.
Lemma flush_entry_0 e : es_unpersisted_delivered e = 0 → flush_entry e = e.
Proof. intros He. unfold flush_entry, on_record. rewrite He, deliver_0. destruct e; cbn in *. by subst. Qed.
Lemma deliver_deliver d o d' o' r : deliver d' o' (deliver d o r) = deliver (d + d') (o + o') r.
Proof. unfold deliver, set_local_delivered, set_outstanding; cbn. f_equal; lia. Qed.
Lemma set_outstanding_deliver r : set_outstanding (dr_outstanding_reservation r) r = r.
Proof. by destruct r. Qed.
Lemma flushed_Ok r p c : flushed r p = Ok c → c = deliver p p r ∧ p ≤ dr_outstanding_reservation r.
Proof.
  unfold flushed. intros (o & [-> Ho]%ok_or_Ok%checked_sub_Some & Hc)%bind_Ok.
  apply bind_Ok in Hc as (l & [-> Hl]%ok_or_Ok%checked_add_Some & [= <-]). done.
Qed.

(** ** The life of a reservation

    What a call on a reservation may do to its entry and to itself, and the delivered tokens it
    reports ([None]: it reports an error).  The record file is not part of it.  A call that
    [may_stick] can fail with delivered tokens counted that it did not take from itself. *)
Inductive reservation_step (may_stick : bool) (e : CapacityEntryState) (r : RequestReservation)
    : option Z → CapacityEntryState → RequestReservation → Prop :=
| StepRefused : reservation_step may_stick e r None e r
| StepFlushedOnly : reservation_step may_stick e r None (flush_entry e) r
| StepStuck n : may_stick = true → 0 < n → es_unpersisted_delivered e + n ≤ dr_outstanding_reservation (es_record e) →
    reservation_step may_stick e r None (set_unpersisted (es_unpersisted_delivered e + n) e) r
| StepStuckFlushed n : may_stick = true → 0 < n → es_unpersisted_delivered e + n ≤ dr_outstanding_reservation (es_record e) →
    reservation_step may_stick e r None (flush_entry (set_unpersisted (es_unpersisted_delivered e + n) e)) r
| StepShared n : rr_shared r = true → rr_finished r = false → es_terminal e = false →
    0 ≤ n ≤ rr_remaining r → n ≤ headroom (es_record e) → 1 ≤ es_active_shared_requests e →
    reservation_step may_stick e r (Some n)
      (set_active_shared (es_active_shared_requests e - 1) (on_record (deliver n 0) e)) (set_finished r)
| StepBilled n : rr_shared r = false → rr_finished r = false → es_terminal e = false →
    0 < n ≤ rr_remaining r → es_unpersisted_delivered e = 0 →
    rr_remaining r ≤ dr_outstanding_reservation (es_record e) →
    reservation_step may_stick e r (Some n) (on_record (deliver n (rr_remaining r)) e) (set_finished r)
| StepBuffered n : rr_finished r = false → es_terminal e = false → 0 < n ≤ rr_remaining r →
    es_unpersisted_delivered e + n ≤ dr_outstanding_reservation (es_record e) →
    es_unpersisted_delivered e + n < CAPACITY_PERSIST_TOKEN_INTERVAL →
    reservation_step may_stick e r (Some 0)
      (set_unpersisted (es_unpersisted_delivered e + n) e) (set_remaining (rr_remaining r - n) r)
| StepRecorded n : rr_finished r = false → es_terminal e = false → 0 < n ≤ rr_remaining r →
    es_unpersisted_delivered e + n ≤ dr_outstanding_reservation (es_record e) →
    reservation_step may_stick e r (Some (es_unpersisted_delivered e + n))
      (flush_entry (set_unpersisted (es_unpersisted_delivered e + n) e)) (set_remaining (rr_remaining r - n) r)
| StepReleased : rr_shared r = false → rr_finished r = false → es_terminal e = false →
    es_unpersisted_delivered e + rr_remaining r ≤ dr_outstanding_reservation (es_record e) →
    reservation_step may_stick e r (Some (es_unpersisted_delivered e))
      (on_record (deliver 0 (rr_remaining r)) (flush_entry e)) (set_finished r)
| StepAbandoned : rr_shared r = false → rr_finished r = false → es_terminal e = false →
    reservation_step may_stick e r (Some (es_unpersisted_delivered e)) (flush_entry e) (set_finished r)
| StepClosed : rr_shared r = false → rr_finished r = false → es_terminal e = true →
    reservation_step may_stick e r (Some 0) e (set_finished r).

Section Refinement.
Context {Bytes : Type} (to_vec : DurableCapacityRecord → Bytes).
Implicit Types (s : Slot (Bytes := Bytes)) (h : Held (Bytes := Bytes)).

(** Persisting a record never changes the entry in memory. *)
Lemma persist_entry fault record s Q :
  (∀ r s', sl_entry s' = sl_entry s → (fault = None → r = Ok ()) → Q r s') → wp (persist_candidate to_vec fault record) Q s.
Proof.
  intros HQ. unfold wp, persist_candidate.
  destruct (es_path (sl_entry s)); [destruct fault as [[e|e]|]|]; cbn; by apply HQ.
Qed.

Lemma flush_spec ft s Q :
  record_ok (es_record (sl_entry s)) → 0 ≤ es_unpersisted_delivered (sl_entry s) ≤ dr_outstanding_reservation (es_record (sl_entry s)) →
  (∀ s', sl_entry s' = flush_entry (sl_entry s) → Q (Ok (es_unpersisted_delivered (sl_entry s))) s') →
  (∀ err s', sl_entry s' = sl_entry s → cf_flush ft ≠ None → Q (Err err) s') →
  (∀ err s', sl_entry s' = flush_entry (sl_entry s) → umax u64 < es_unpersisted_delivered (sl_entry s) → Q (Err err) s') →
  wp (flush_delivered to_vec ft) Q s.
Proof.
  intros Hr Hu HOk HSame HLanded. unfold flush_delivered, the_entry. op_step. set (e := sl_entry s) in *. cbv zeta.
  destruct (Z.eqb_spec (es_unpersisted_delivered e) 0) as [H0|H0].
  { apply wp_ret. rewrite H0 in HOk. apply HOk. by rewrite flush_entry_0. }
  pose proof (headroom_nonneg _ Hr) as Hh.
  set (u := es_unpersisted_delivered e) in *.
  assert (flushed (es_record e) u = Ok (deliver u u (es_record e))) as ->.
  { pose proof (ro_typed _ Hr) as (?&?&?&?&?). unfold flushed, headroom, record_delivery in *. rewrite checked_sub_fits by lia. cbn.
    pose proof (ro_cap _ Hr). rewrite checked_add_fits by lia. done. }
  apply wp_bind, wp_ret. rewrite (deliver_valid u u (es_record e) Hr) by lia. apply wp_bind, wp_ret.
  apply wp_bind, persist_entry. intros [[]|err] s' Hs' Hf.
  - op_step. apply wp_ret. cbn.
    assert (sl_entry (with_entry (λ e0, set_unpersisted 0 (set_record (deliver u u (es_record e)) e0)) s') = flush_entry e) as Heq
      by (cbn; by rewrite Hs').
    unfold try_into. destruct (Z.leb_spec u (umax u64)); cbn; [by apply HOk|by apply HLanded].
  - apply HSame; [done|]. intros Hft. by specialize (Hf Hft).
Qed.
End Refinement.
