(* ===== verification/CapacityEntry.v ===== *)
(** * The calls on a reservation refine its life

    Every call of CapacityOps on a reservation, whatever the operating system does, is a
    [reservation_step]; without faults the calls that end a reservation succeed.

    The second part shows what such a call keeps of the entry that it works on. *)
From S2P Require Import Prelude RustText Params Address DealTypes Capacity CapacityInv.

#[local] Arguments umax : simpl never.
#[local] Arguments validate_record : simpl never.
#[local] Arguments available : simpl never.

(** A reservation and its entry: [others] are the slots that other shared requests hold. *)
Record held_ok (others : Z) (e : CapacityEntryState) (r : RequestReservation) : Prop := {
  ho_entry : entry_ok e;
  ho_request : request_ok r;
  ho_others : 0 ≤ others;
  ho_active : es_active_shared_requests e = others + shared_slot r;
}.

Section Refine.
Context {Bytes : Type} (to_vec : DurableCapacityRecord → Bytes).
Implicit Types (h : Held (Bytes := Bytes)) (ft : CapacityFaults).

(** The reservation of [h] and what a call left of it. *)
Definition refines (may_stick : bool) h (op : Op (Held (Bytes := Bytes)) text Z) : Prop :=
  wp op (λ res h', reservation_step may_stick (sl_entry h.1) h.2 (result_ok res) (sl_entry h'.1) h'.2) h.

Lemma of_slot_wp {E A} (m : Op Slot E A) Q h : wp m (λ r s, Q r (s, h.2)) h.1 → wp (of_slot m) Q h.
Proof. unfold wp, of_slot. by destruct (m h.1). Qed.
Lemma the_request_bind {B} (k : RequestReservation → Op Held text B) Q h : wp (k h.2) Q h → wp (op_bind the_request k) Q h.
Proof. intros H. by apply wp_look. Qed.
Lemma the_entry_bind {B} (k : CapacityEntryState → Op Held text B) Q h :
  wp (k (sl_entry h.1)) Q h → wp (op_bind (of_slot the_entry) k) Q h.
Proof. intros H. apply wp_bind, of_slot_wp. by destruct h. Qed.
Lemma persist_bind {B} fault record (k : () → Op Held text B) Q h :
  (∀ s', sl_entry s' = sl_entry h.1 → wp (k ()) Q (s', h.2)) →
  (∀ err s', sl_entry s' = sl_entry h.1 → Q (Err err) (s', h.2)) →
  wp (op_bind (of_slot (persist_candidate to_vec fault record)) k) Q h.
Proof. intros HOk HErr. apply wp_bind, of_slot_wp, persist_entry. intros [[]|err] s' Hs' _; [by apply HOk|by apply HErr]. Qed.
Lemma deliver_only n r : set_local_delivered (dr_local_delivered_after_anchor r + n) r = deliver n 0 r.
Proof. unfold deliver. rewrite Z.sub_0_r. by destruct r. Qed.
Lemma release_only n r : set_outstanding (dr_outstanding_reservation r - n) r = deliver 0 n r.
Proof. unfold deliver, set_local_delivered. cbn. rewrite Z.add_0_r. by destruct r. Qed.
Lemma ok_or_Err {E A} (o : option A) (d e : E) : ok_or o d = Err e → o = None.
Proof. by destruct o. Qed.
Lemma unfinished_Ok r u : unfinished r = Ok u → rr_finished r = false.
Proof. intros H%bail_if_Ok. done. Qed.
Lemma not_terminal_Ok e u : not_terminal e = Ok u → es_terminal e = false.
Proof. intros H%bail_if_Ok. done. Qed.

Ltac held_step :=
  let Hs := fresh "Hs" in
  lazymatch goal with
  | |- wp (op_bind the_request _) _ _ => apply the_request_bind
  | |- wp (op_bind (of_slot the_entry) _) _ _ => apply the_entry_bind
  | |- wp (op_bind (of_slot (persist_candidate _ _ _)) _) _ _ => apply persist_bind; [intros ? Hs|intros ? ? Hs]
  | _ => op_step
  end; cbv zeta.
(** Closes the branches that changed nothing. *)
Ltac refuse :=
  lazymatch goal with
  | |- wp _ _ _ => idtac
  | Hs : sl_entry _ = sl_entry _ |- _ => try solve [cbn; rewrite Hs; apply StepRefused]
  | |- _ => try solve [cbn; apply StepRefused]
  end.
Ltac check_facts := repeat match goal with
  | H : bail_if _ _ = Ok _ |- _ => apply bail_if_Ok in H
  | H : unfinished _ = Ok _ |- _ => apply unfinished_Ok in H
  | H : not_terminal _ = Ok _ |- _ => apply not_terminal_Ok in H
  | H : ok_or _ _ = Err _ |- _ => apply ok_or_Err in H
  | H : checked_sub _ _ = None |- _ => apply checked_sub_None in H
  | H : ok_or _ _ = Ok _ |- _ => apply ok_or_Ok in H
  | H : checked_add _ _ _ = Some _ |- _ => apply checked_add_Some in H as [-> ?]
  | H : checked_sub _ _ = Some _ |- _ => apply checked_sub_Some in H as [-> ?]
  end.

Lemma finish_shared_refines others ft tokens ambiguous h :
  held_ok others (sl_entry h.1) h.2 → rr_shared h.2 = true → 0 ≤ tokens →
  refines false h (finish_shared to_vec ft tokens ambiguous).
Proof.
  intros [He Hr Ho Ha] Hshared Ht. unfold refines, finish_shared. repeat (held_step; refuse).
  all: check_facts; pose proof (eo_record _ He) as Hrec.
  all: match goal with H : available _ = Ok _ |- _ => apply (available_Ok _ _ Hrec) in H as -> end.
  - set (e := sl_entry h.1) in *. set (r := h.2) in *.
    set (n := if ambiguous then 0 else Z.min (Z.min tokens (rr_remaining r)) (headroom (es_record e))).
    pose proof (headroom_nonneg _ Hrec). pose proof (qo_remaining _ Hr). pose proof (qo_initial _ Hr).
    assert (0 ≤ n ≤ rr_remaining r ∧ n ≤ headroom (es_record e)) as [??] by (unfold n; destruct ambiguous; lia).
    cbn. fold r e. replace (sl_entry _) with e. fold (headroom (es_record e)) n.
    rewrite wrapping_exact by (unfold in_range; lia). rewrite deliver_only. by apply (StepShared false e r n).
  - exfalso. unfold shared_slot in Ha. rewrite Hshared in Ha.
    match goal with H : rr_finished _ = false |- _ => rewrite H in Ha end. cbn in Ha. lia.
Qed.

Lemma finish_with_delivery_refines others ft tokens h :
  held_ok others (sl_entry h.1) h.2 → 0 ≤ tokens ≤ umax u64 → refines false h (finish_with_delivery to_vec ft tokens).
Proof.
  intros Hok Ht. unfold refines, finish_with_delivery. held_step; [|refuse]. held_step.
  destruct (rr_shared h.2) eqn:Hshared; [apply (finish_shared_refines others); [done..|lia]|].
  repeat (held_step; refuse). all: check_facts; pose proof (eo_record _ (ho_entry _ _ _ Hok)) as Hrec.
  cbn. unfold try_into. rewrite (proj2 (Z.leb_le _ _)) by lia. cbn. rewrite Hs.
  apply StepBilled; try done; lia.
Qed.

Lemma flush_refines others ft h Q :
  held_ok others (sl_entry h.1) h.2 →
  (∀ s', sl_entry s' = flush_entry (sl_entry h.1) → Q (Ok (es_unpersisted_delivered (sl_entry h.1))) (s', h.2)) →
  (∀ err s', reservation_step false (sl_entry h.1) h.2 None (sl_entry s') h.2 → Q (Err err) (s', h.2)) →
  wp (of_slot (flush_delivered to_vec ft)) Q h.
Proof.
  intros [[Hr Hu _] _ _ _] HOk HErr. apply of_slot_wp, flush_spec; [done..| |].
  - intros err s' Hs _. apply HErr. rewrite Hs. apply StepRefused.
  - intros err s' Hs _. apply HErr. rewrite Hs. apply StepFlushedOnly.
Qed.

Lemma finish_exact_refines others ft h : held_ok others (sl_entry h.1) h.2 → refines false h (finish_exact to_vec ft).
Proof.
  intros Hok. unfold refines, finish_exact. held_step.
  destruct (rr_shared h.2) eqn:Hshared; [by apply (finish_shared_refines others)|].
  held_step; [|refuse]. check_facts. held_step. destruct (es_terminal (sl_entry h.1)) eqn:Hterm.
  { op_step. apply wp_ret. by apply StepClosed. }
  apply wp_bind, (flush_refines others); [done| |done]. intros s' Hs.
  held_step. repeat (held_step; refuse). all: cbn [fst snd] in *; rewrite Hs in *.
  all: check_facts; try apply StepFlushedOnly.
  all: cbn [result_ok upd_request upd_entry with_entry sl_entry fst snd]; rewrite Hs0.
  - rewrite release_only. apply StepReleased; try done. cbn in *. lia.
  - apply StepFlushedOnly.
Qed.

Lemma finish_ambiguous_refines others ft h : held_ok others (sl_entry h.1) h.2 → refines false h (finish_ambiguous to_vec ft).
Proof.
  intros Hok. unfold refines, finish_ambiguous. held_step.
  destruct (rr_shared h.2) eqn:Hshared; [by apply (finish_shared_refines others)|].
  held_step; [|refuse]. check_facts. held_step. destruct (es_terminal (sl_entry h.1)) eqn:Hterm.
  - apply wp_bind, wp_ret. op_step. apply wp_ret. by apply StepClosed.
  - apply wp_bind, (flush_refines others); [done| |done]. intros s' Hs. op_step. apply wp_ret. cbn. rewrite Hs. by apply StepAbandoned.
Qed.

Lemma record_delivered_refines others ft tokens h :
  held_ok others (sl_entry h.1) h.2 → 0 ≤ tokens → refines true h (record_delivered to_vec ft tokens).
Proof.
  intros Hok Ht. unfold refines, record_delivered. do 9 (held_step; refuse). all: check_facts.
  pose proof Hok as [[Hr Hu _] _ _ _]. apply wp_bind.
  destruct (_ || _) eqn:Hflush.
  - apply of_slot_wp, flush_spec; cbn; [done|lia| | |].
    + intros s' Hs. op_step. apply wp_ret. cbn. rewrite Hs. apply StepRecorded; try done; lia.
    + intros err s' Hs _. rewrite Hs. by apply StepStuck; [|lia|lia].
    + intros err s' Hs _. rewrite Hs. by apply StepStuckFlushed; [|lia|lia].
  - apply wp_ret. op_step. apply wp_ret. apply orb_false_iff in Hflush as [Hflush _]. cbn. apply StepBuffered; try done; lia.
Qed.

(** ** Calls that end a reservation succeed when nothing fails *)

Lemma persist_succeeds {B} record (k : () → Op Held text B) Q h :
  (∀ s', sl_entry s' = sl_entry h.1 → wp (k ()) Q (s', h.2)) →
  wp (op_bind (of_slot (persist_candidate to_vec None record)) k) Q h.
Proof. intros HOk. apply wp_bind, of_slot_wp, persist_entry. intros r s' Hs ->; [|done]. by apply HOk. Qed.

Lemma finish_exact_succeeds h :
  entry_ok (sl_entry h.1) → rr_shared h.2 = false → rr_finished h.2 = false → es_terminal (sl_entry h.1) = false →
  0 ≤ rr_remaining h.2 → es_unpersisted_delivered (sl_entry h.1) ≤ umax u64 →
  rr_remaining h.2 + es_unpersisted_delivered (sl_entry h.1) ≤ dr_outstanding_reservation (es_record (sl_entry h.1)) →
  wp (finish_exact to_vec no_capacity_faults)
     (λ res h', res = Ok (es_unpersisted_delivered (sl_entry h.1)) ∧ h'.2 = set_finished h.2 ∧
                sl_entry h'.1 = on_record (deliver 0 (rr_remaining h.2)) (flush_entry (sl_entry h.1))) h.
Proof.
  intros [Hr Hu _] Hshared Hfin Hterm Hrem Hu64 Hcover. unfold finish_exact. held_step. rewrite Hshared.
  unfold unfinished, bail_if. rewrite Hfin. apply wp_bind, wp_ret. held_step. rewrite Hterm.
  apply wp_bind, of_slot_wp, flush_spec; [done|done| |done|lia].
  intros s' Hs. held_step. cbn [fst snd]. rewrite Hs.
  set (e := sl_entry h.1) in *. set (u := es_unpersisted_delivered e) in *.
  assert (checked_sub (dr_outstanding_reservation (es_record (flush_entry e))) (rr_remaining h.2)
          = Some (dr_outstanding_reservation (es_record (flush_entry e)) - rr_remaining h.2)) as ->
    by (apply checked_sub_fits; cbn; fold u; lia).
  apply wp_bind, wp_ret. cbn [ok_or]. cbv beta iota zeta. rewrite release_only.
  assert (record_ok (es_record (flush_entry e))) as Hflushed.
  { apply deliver_ok; [done|lia..|]. pose proof (headroom_nonneg _ Hr). lia. }
  rewrite deliver_valid; [|done|lia|cbn; fold u; lia|pose proof (headroom_nonneg _ Hflushed); lia].
  apply wp_bind, wp_ret. apply persist_succeeds. intros s'' Hs''. op_step. apply wp_ret. cbn in *. by rewrite Hs'', Hs.
Qed.

Lemma finish_with_delivery_succeeds tokens h :
  entry_ok (sl_entry h.1) → rr_shared h.2 = false → rr_finished h.2 = false → es_terminal (sl_entry h.1) = false →
  es_unpersisted_delivered (sl_entry h.1) = 0 → 0 < tokens ≤ rr_remaining h.2 → tokens ≤ umax u64 →
  rr_remaining h.2 ≤ dr_outstanding_reservation (es_record (sl_entry h.1)) →
  wp (finish_with_delivery to_vec no_capacity_faults tokens)
     (λ res h', res = Ok tokens ∧ h'.2 = set_finished h.2 ∧
                sl_entry h'.1 = on_record (deliver tokens (rr_remaining h.2)) (sl_entry h.1)) h.
Proof.
  intros [Hr _ _] Hshared Hfin Hterm Hu Ht Ht64 Hcover. unfold finish_with_delivery.
  unfold unfinished, not_terminal, bail_if. rewrite (proj2 (Z.eqb_neq tokens 0)) by lia.
  apply wp_bind, wp_ret. held_step. rewrite Hshared, Hfin. apply wp_bind, wp_ret.
  replace (tokens >? rr_remaining h.2) with false by lia. apply wp_bind, wp_ret. held_step.
  rewrite Hterm, Hu. do 2 apply wp_bind, wp_ret. rewrite checked_sub_fits by lia. apply wp_bind, wp_ret.
  pose proof (headroom_nonneg _ Hr). pose proof (ro_typed _ Hr) as (?&?&?&?&?). pose proof (ro_sum _ Hr). pose proof (ro_cap _ Hr).
  unfold record_delivery in *. rewrite checked_add_fits by lia. apply wp_bind, wp_ret. cbn [ok_or]. cbv beta iota zeta.
  change (set_local_delivered _ _) with (deliver tokens (rr_remaining h.2) (es_record (sl_entry h.1))).
  rewrite deliver_valid by (done || lia). apply wp_bind, wp_ret. apply persist_succeeds. intros s' Hs. op_step. apply wp_ret.
  unfold try_into. rewrite (proj2 (Z.leb_le _ _)) by done. cbn. by rewrite Hs.
Qed.
End Refine.

(** * What the calls on an entry and on a reservation keep

    The steps of a reservation keep its entry sound and cover what it holds; the calls that
    go through the entry (refresh, probe decision, admission, reservation) do so too, and say
    exactly what they change. *)

#[local] Arguments umax : simpl never.
#[local] Arguments validate_record : simpl never.
#[local] Arguments available : simpl never.
#[local] Arguments display_self_dapp : simpl never.

(** ** The steps of a reservation *)

(** The tokens that wait for a write: fewer than the interval between two writes. *)
Definition covers (others : Z) (e : CapacityEntryState) (r : RequestReservation) : Prop :=
  others + held_tokens r + es_unpersisted_delivered e ≤ dr_outstanding_reservation (es_record e).
Definition entry_delivery (e : CapacityEntryState) : Z := record_delivery (es_record e).

Lemma flush_entry_ok e : entry_ok e → entry_ok (flush_entry e).
Proof.
  intros [Hr Hu Hx]. pose proof (headroom_nonneg _ Hr). constructor; cbn.
  - apply deliver_ok; [done|lia..].
  - lia.
  - intros Ha. rewrite (Hx Ha) in *. lia.
Qed.
Lemma unpersisted_ok e u : entry_ok e → 0 ≤ u ≤ dr_outstanding_reservation (es_record e) → entry_ok (set_unpersisted u e).
Proof. intros [Hr _ Hx] Hu. by constructor. Qed.

Lemma step_held_ok stick others e r rep e' r' :
  held_ok others e r → reservation_step stick e r rep e' r' → held_ok others e' r'.
Proof.
  intros [He Hq Ho Ha] Hstep. pose proof He as [Hr Hu Hx]. pose proof Hq as [Hrem Hinit].
  pose proof (headroom_nonneg _ Hr) as Hh.
  assert (request_ok (set_finished r)) as Hfin by (constructor; cbn; lia).
  destruct Hstep; (constructor; [|by try (constructor; cbn; lia)|done|]); try exact Ha; try done.
  all: try (unfold shared_slot in *; cbn in *;
            repeat match goal with H : rr_shared _ = _ |- _ => rewrite H in * | H : rr_finished _ = _ |- _ => rewrite H in * end;
            cbn in *; rewrite ?andb_true_r, ?andb_false_r in *; cbn in *; done || lia).
  all: try by apply flush_entry_ok.
  all: try (apply unpersisted_ok; [done|lia]).
  all: try (apply flush_entry_ok, unpersisted_ok; [done|lia]).
  - constructor; cbn; [apply deliver_ok; [done|lia..]|lia|]. intros _. rewrite Z.sub_0_r. apply Hx. lia.
  - constructor; cbn; [apply deliver_ok; [done|lia..]|lia|]. intros Hne. specialize (Hx Hne). lia.
  - pose proof (flush_entry_ok _ He) as [Hr' _ _]. pose proof (headroom_nonneg _ Hr').
    constructor; [apply deliver_ok; [done|lia|cbn; lia|lia]|cbn; lia|].
    intros Hne. specialize (Hx Hne). cbn. lia.
Qed.

Lemma step_delivery stick e r rep e' r' n :
  reservation_step stick e r rep e' r' → rep = Some n → entry_delivery e' = entry_delivery e + n.
Proof. intros Hstep. unfold entry_delivery, record_delivery. destruct Hstep; intros [= <-]; cbn; lia. Qed.
Lemma step_delivery_mono stick e r rep e' r' :
  entry_ok e → reservation_step stick e r rep e' r' → entry_delivery e ≤ entry_delivery e'.
Proof. intros [_ Hu _] Hstep. unfold entry_delivery, record_delivery. destruct Hstep; cbn; lia. Qed.

Lemma step_covers stick slots others e r rep e' r' :
  held_ok slots e r → stick = false ∨ is_Some rep → covers others e r → reservation_step stick e r rep e' r' → covers others e' r'.
Proof.
  intros [[_ Hu Hx] [Hrem _] Ho Ha] Hstick Hc Hstep. unfold covers, held_tokens, shared_slot in *. destruct Hstep; cbn;
    repeat match goal with H : rr_shared _ = _ |- _ => rewrite H in * | H : rr_finished _ = _ |- _ => rewrite H in * end;
    cbn in *; rewrite ?andb_false_r; try lia.
  all: try (destruct Hstick as [->|[? [=]]]; discriminate).
  all: destruct (rr_shared r); cbn in *; [rewrite Hx in * by lia|]; lia.
Qed.
Lemma step_waiting stick e r rep e' r' :
  stick = false ∨ is_Some rep → es_unpersisted_delivered e < CAPACITY_PERSIST_TOKEN_INTERVAL →
  reservation_step stick e r rep e' r' → es_unpersisted_delivered e' < CAPACITY_PERSIST_TOKEN_INTERVAL.
Proof.
  intros Hstick Hu Hstep. destruct Hstep; cbn; try done. destruct Hstick as [->|[? [=]]]; discriminate.
Qed.

(** ** The calls through an entry *)

(** What such a call may do, and the reservation it grants: its amount, and whether it is shared. *)
Inductive entry_step (e : CapacityEntryState) : option (Z * bool) → CapacityEntryState → Prop :=
| EntryRefused : entry_step e None e
| EntryRecorded new accepted : es_terminal e = false → record_ok new →
    record_delivery new = entry_delivery e →
    dr_outstanding_reservation new = dr_outstanding_reservation (es_record e) →
    entry_step e None (set_probe_accepted accepted (set_record new e))
| EntryAdmitted n limit : n ≤ umax u64 → es_terminal e = false → dr_outstanding_reservation (es_record e) = 0 →
    es_active_shared_requests e < limit → 0 < n ≤ headroom (es_record e) →
    entry_step e (Some (n, true)) (set_active_shared (es_active_shared_requests e + 1) e)
| EntryTaken n : n ≤ umax u64 → es_terminal e = false → es_active_shared_requests e = 0 → 0 < n ≤ headroom (es_record e) →
    entry_step e (Some (n, false))
      (set_record (set_outstanding (dr_outstanding_reservation (es_record e) + n) (es_record e)) (set_unpersisted 0 e)).

Lemma reconciled_spec token_contract state deal cap old new :
  record_ok old → 0 ≤ cs_tokens_pending state → 0 ≤ cap → 0 ≤ funded_tokens deal ≤ umax u128 →
  reconciled token_contract state deal cap old = Ok new →
  record_ok new ∧ record_delivery new = record_delivery old ∧
  dr_outstanding_reservation new = dr_outstanding_reservation old ∧
  dr_tokens_pending_anchor new = Z.min (cs_tokens_pending state) (record_delivery old) ∧
  dr_authoritative_cap new = (if subscription_term_ended deal
                              then record_delivery old + dr_outstanding_reservation old else cap).
Proof.
  intros Hold Htp Hcap Hf. unfold reconciled. intros Hrec. pose proof (ro_typed _ Hold) as (?&?&?&?&?).
  pose proof (ro_sum _ Hold). pose proof (ro_cap _ Hold).
  do 3 apply bind_Ok in Hrec as (? & _ & Hrec).
  apply bind_Ok in Hrec as (d & [-> Hd]%ok_or_Ok%checked_add_Some & Hrec). fold (record_delivery old) in *.
  apply bind_Ok in Hrec as (? & _ & Hrec). apply bind_Ok in Hrec as (c & Hc & Hrec).
  apply bind_Ok in Hrec as ([] & Hv & [= <-]).
  assert (c = if subscription_term_ended deal then record_delivery old + dr_outstanding_reservation old else cap) as ->.
  { destruct (subscription_term_ended deal); [by apply ok_or_Ok, checked_add_Some in Hc as [-> _]|by injection Hc]. }
  assert (0 ≤ record_delivery old) by (unfold record_delivery; lia).
  split_and!; [| |done|done|done]; [|unfold record_delivery; cbn; unfold record_delivery; lia].
  apply validate_record_Ok in Hv; [done|]. unfold typed_record. cbn. destruct (subscription_term_ended deal); lia.
Qed.

Section EntryCalls.
Context {Bytes : Type} (to_vec : DurableCapacityRecord → Bytes).
Implicit Types (s : Slot (Bytes := Bytes)) (ft : CapacityFaults).

(** What the call on [s] granted is read off its result. *)
Definition steps {E A} (grant : A → option (Z * bool)) s (op : Op (Slot (Bytes := Bytes)) E A) : Prop :=
  wp op (λ res s', entry_step (sl_entry s) (match res with Ok a => grant a | Err _ => None end) (sl_entry s')) s.

Lemma the_entry_step {E B} (k : CapacityEntryState → Op Slot E B) Q s : wp (k (sl_entry s)) Q s → wp (op_bind the_entry k) Q s.
Proof. intros H. by apply wp_look. Qed.
Lemma set_record_eq e : set_record (es_record e) e = e.
Proof. by destruct e. Qed.
Lemma set_probe_accepted_eq e : set_probe_accepted (es_probe_accepted e) e = e.
Proof. by destruct e. Qed.

Lemma refresh_steps ft token_contract state deal cap s :
  record_ok (es_record (sl_entry s)) → 0 ≤ cs_tokens_pending state → 0 ≤ cap → 0 ≤ funded_tokens deal ≤ umax u128 →
  steps (λ _, None) s (refresh to_vec ft token_contract state deal cap).
Proof.
  intros Hr Htp Hcap Hf. unfold steps, refresh. apply the_entry_step. op_step; [|apply EntryRefused].
  op_step; [|apply EntryRefused]. rename a0 into new.
  match goal with H : bail_if _ _ = Ok _ |- _ => apply bail_if_Ok in H as Hlive end.
  match goal with H : reconciled _ _ _ _ _ = Ok _ |- _ => apply reconciled_spec in H as (Hnew & Hd & Ho & _); [|done..] end.
  apply wp_bind. destruct (bool_decide _) eqn:Heq.
  - apply bool_decide_eq_true in Heq. apply wp_ret. op_step. unfold wp. cbn.
    rewrite <- (set_record_eq (sl_entry s)) at 2. rewrite <- Heq. by apply EntryRecorded.
  - apply wp_bind, persist_entry. intros [[]|err] s' Hs _.
    + unfold wp. cbn. rewrite Hs. by apply EntryRecorded.
    + rewrite Hs. apply EntryRefused.
Qed.

Lemma save_probe_steps ft delivered s :
  record_ok (es_record (sl_entry s)) → steps (λ _, None) s (save_probe to_vec ft delivered).
Proof.
  intros Hr. unfold steps, save_probe. apply the_entry_step. op_step; [|apply EntryRefused].
  match goal with H : bail_if _ _ = Ok _ |- _ => apply bail_if_Ok, orb_false_iff in H as [Hlive _] end.
  op_step; [|apply EntryRefused].
  destruct (dr_probe_delivery_at_decision _); [apply wp_ret, EntryRefused|].
  op_step; [|apply EntryRefused]. apply wp_bind, persist_entry. intros [[]|err] s' Hs _; [|rewrite Hs; apply EntryRefused].
  op_step. apply wp_ret. cbn. rewrite Hs. rewrite <- (set_probe_accepted_eq (set_record _ _)).
  apply EntryRecorded; try done. match goal with H : validate_record _ = Ok _ |- _ => by apply validate_record_Ok in H; [|apply Hr] end.
Qed.

Lemma admit_steps requested limit s :
  record_ok (es_record (sl_entry s)) → 0 ≤ requested ≤ umax u64 →
  steps (λ n, Some (n, true)) s (admit_entry (Bytes := Bytes) requested limit).
Proof.
  intros Hr Hreq. unfold steps, admit_entry. apply the_entry_step. op_step; [|apply EntryRefused].
  op_step. apply wp_ret. cbn.
  match goal with H : admit_amount _ _ _ = Ok _ |- _ => rename H into Ham end. unfold admit_amount in Ham.
  destruct (es_terminal (sl_entry s)) eqn:Hterm; [discriminate Ham|].
  do 3 apply bind_Ok in Ham as ([] & _ & Ham).
  apply bind_Ok in Ham as ([] & Hout & Ham). destruct (Z.eqb_spec (dr_outstanding_reservation (es_record (sl_entry s))) 0); [|discriminate Hout].
  apply bind_Ok in Ham as ([] & Hlim & Ham). destruct (_ >=? _) eqn:?; [discriminate Hlim|].
  apply bind_Ok in Ham as (av & Hav%map_err_Ok & Ham). apply (available_Ok _ _ Hr) in Hav as ->. fold (headroom (es_record (sl_entry s))) in Ham.
  pose proof (headroom_nonneg _ Hr). destruct (Z.eqb_spec (Z.min (headroom (es_record (sl_entry s))) requested) 0); [discriminate Ham|].
  injection Ham as <-. apply (EntryAdmitted _ _ limit); [lia|done|done|lia|lia].
Qed.

Lemma take_steps ft requested exclusive s :
  record_ok (es_record (sl_entry s)) → 0 ≤ requested ≤ umax u64 →
  steps (λ n, Some (n, false)) s (take to_vec ft requested exclusive).
Proof.
  intros Hr Hreq. unfold steps, take. apply the_entry_step. op_step; [|apply EntryRefused].
  op_step; [|apply EntryRefused]. op_step; [|apply EntryRefused].
  apply wp_bind. unfold op_map_err, wp. pose proof (persist_entry to_vec (cf_persist ft) (set_outstanding a0 (es_record (sl_entry s))) s
    (λ _ s', sl_entry s' = sl_entry s) ltac:(done)) as Hp. unfold wp in Hp.
  destruct (persist_candidate _ _ _ s) as [[[]|err] s']; cbn in *; rewrite Hp; [|apply EntryRefused].
  match goal with H : reserve_amount _ _ _ = Ok _ |- _ => rename H into Ham end. unfold reserve_amount in Ham.
  destruct (es_terminal (sl_entry s)) eqn:Hterm; [discriminate Ham|].
  do 1 apply bind_Ok in Ham as ([] & _ & Ham). apply bind_Ok in Ham as ([] & Hact & Ham).
  destruct (Z.eqb_spec (es_active_shared_requests (sl_entry s)) 0); [|discriminate Hact].
  do 2 apply bind_Ok in Ham as ([] & _ & Ham).
  apply bind_Ok in Ham as (av & Hav%map_err_Ok & Ham). apply (available_Ok _ _ Hr) in Hav as ->. fold (headroom (es_record (sl_entry s))) in Ham.
  pose proof (headroom_nonneg _ Hr). destruct (Z.eqb_spec (Z.min (headroom (es_record (sl_entry s))) requested) 0); [discriminate Ham|].
  injection Ham as <-. match goal with H : ok_or _ _ = Ok _ |- _ => apply ok_or_Ok, checked_add_Some in H as [-> _] end.
  apply EntryTaken; [lia|done|done|lia].
Qed.
End EntryCalls.

Lemma entry_step_ok e grant e' : entry_ok e → entry_step e grant e' → entry_ok e'.
Proof.
  intros [Hr Hu Hx] Hstep. destruct Hstep as [|new b Hlive Hnew Hd Ho|n limit|n Hn64 Hlive Ha Hn].
  - done.
  - constructor; cbn; rewrite ?Ho; done.
  - constructor; cbn; done.
  - constructor; cbn; [|lia|done].
    replace (set_outstanding _ _) with (deliver 0 (- n) (es_record e)); [apply deliver_ok; [done|lia..]|].
    unfold deliver. cbn. rewrite Z.add_0_r, Z.sub_opp_r. by destruct (es_record e).
Qed.
Lemma entry_step_delivery e grant e' : entry_step e grant e' → entry_delivery e' = entry_delivery e.
Proof. intros Hstep. by destruct Hstep. Qed.
