(* ===== verification/CapacityReach.v ===== *)
(** * Every manager that the calls of a gateway can reach

    The manager's invariant, and that every call keeps it, with whatever faults of the
    operating system: its entries are sound, and each counts the shared reservations that
    refer to it.  [mgr_covers] adds that what the exclusive ones hold stays reserved. *)
From S2P Require Import Prelude RustText Params Address DealTypes Capacity.
From S2P Require Import CapacityInv CapacityEntry.

#[local] Arguments umax : simpl never.
#[local] Arguments validate_record : simpl never.
#[local] Arguments display_self_dapp : simpl never.

(** ** Sums over the reservations of an entry *)

Definition weight (f : RequestReservation → Z) (id : nat) (reqs : gmap nat RequestReservation) : Z :=
  map_sum (λ _ r, if bool_decide (rr_entry r = id) then f r else 0) reqs.
Definition slots (id : nat) (reqs : gmap nat RequestReservation) : Z := weight shared_slot id reqs.
Definition held (id : nat) (reqs : gmap nat RequestReservation) : Z := weight held_tokens id reqs.

Section Weight.
Context (f : RequestReservation → Z).
Lemma weight_empty id : weight f id ∅ = 0.
Proof. apply map_sum_empty. Qed.
Lemma weight_update id reqs rid r r' :
  reqs !! rid = Some r → rr_entry r' = rr_entry r →
  weight f id (<[rid := r']> reqs) = weight f id reqs + (if bool_decide (rr_entry r = id) then f r' - f r else 0).
Proof. intros Hr Hid. unfold weight. rewrite (map_sum_update _ _ _ _ _ Hr), Hid. case_bool_decide; lia. Qed.
Lemma weight_fresh id reqs rid r :
  reqs !! rid = None → weight f id (<[rid := r]> reqs) = weight f id reqs + (if bool_decide (rr_entry r = id) then f r else 0).
Proof. intros Hr. unfold weight. rewrite (map_sum_fresh _ _ _ _ Hr). lia. Qed.
Lemma weight_delete id reqs rid r :
  reqs !! rid = Some r → weight f id (delete rid reqs) = weight f id reqs - (if bool_decide (rr_entry r = id) then f r else 0).
Proof. intros Hr. unfold weight. rewrite (map_sum_delete _ reqs _ _ Hr). lia. Qed.
Lemma weight_nonneg id reqs : (∀ rid r, reqs !! rid = Some r → 0 ≤ f r) → 0 ≤ weight f id reqs.
Proof. intros Hf. apply map_sum_nonneg. intros k r Hr. case_bool_decide; [by eapply Hf|done]. Qed.
(** Without reservations nothing weighs. *)
Lemma weight_unused id reqs : (∀ rid r, reqs !! rid = Some r → rr_entry r ≠ id) → weight f id reqs = 0.
Proof. intros Hf. apply map_sum_zero. intros k r Hr. rewrite bool_decide_eq_false_2; [done|by eapply Hf]. Qed.
End Weight.

Section Reach.
Context {Bytes : Type} (to_vec : DurableCapacityRecord → Bytes) (is_empty : Bytes → bool)
  (from_slice : Bytes → Result text DurableCapacityRecord).
(** A parsed record has the types of its fields. *)
Context (from_slice_typed : ∀ bytes r, from_slice bytes = Ok r → typed_record r).
Implicit Types (m : Manager (Bytes := Bytes)) (ft : CapacityFaults).

Record mgr_ok m : Prop := {
  mo_entry : ∀ id e, mg_heap m !! id = Some e → entry_ok e;
  mo_active : ∀ id e, mg_heap m !! id = Some e → es_active_shared_requests e = slots id (mg_requests m);
  mo_request : ∀ rid r, mg_requests m !! rid = Some r → request_ok r ∧ is_Some (mg_heap m !! rr_entry r);
  mo_ref : ∀ tc id, mg_entries m !! tc = Some id → is_Some (mg_heap m !! id);
}.
(** What the exclusive reservations hold, and what waits for a write, is reserved. *)
Definition mgr_covers m : Prop := ∀ id e, mg_heap m !! id = Some e →
  held id (mg_requests m) + es_unpersisted_delivered e ≤ dr_outstanding_reservation (es_record e) ∧
  es_unpersisted_delivered e < CAPACITY_PERSIST_TOKEN_INTERVAL.

(** Every entry is still there, with the same delivery. *)
Definition keeps_delivery m m' : Prop := ∀ id e, mg_heap m !! id = Some e →
  ∃ e', mg_heap m' !! id = Some e' ∧ entry_delivery e' = entry_delivery e.
Definition safe_step m m' : Prop := mgr_ok m' ∧ (mgr_covers m → mgr_covers m') ∧ keeps_delivery m m'.

Lemma keeps_delivery_refl m : keeps_delivery m m.
Proof. intros id e He. eauto. Qed.
Lemma keeps_delivery_trans m1 m2 m3 : keeps_delivery m1 m2 → keeps_delivery m2 m3 → keeps_delivery m1 m3.
Proof. intros H1 H2 id e (e2 & He2 & Hd2)%H1. destruct (H2 _ _ He2) as (e3 & He3 & Hd3). exists e3. split; [done|congruence]. Qed.
Lemma keeps_delivery_insert m m' id e' :
  mg_heap m' = <[id := e']> (mg_heap m) →
  (∀ e, mg_heap m !! id = Some e → entry_delivery e' = entry_delivery e) → keeps_delivery m m'.
Proof.
  intros Hheap Hd x y Hx. rewrite Hheap. destruct (decide (id = x)) as [<-|].
  - rewrite lookup_insert_eq. eauto.
  - rewrite lookup_insert_ne by done. eauto.
Qed.

(** [m'] differs from [m] in the entry [id] and in the files only. *)
Definition entry_becomes (id : nat) (e' : CapacityEntryState) m m' : Prop :=
  mg_heap m' = <[id := e']> (mg_heap m) ∧ mg_entries m' = mg_entries m.

Lemma put_slot_heap id (s : Slot) m : mg_heap (put_slot id s m) = <[id := sl_entry s]> (mg_heap m).
Proof. unfold put_slot. by destruct (es_path (sl_entry s)). Qed.
Lemma put_slot_entries id (s : Slot) m : mg_entries (put_slot id s m) = mg_entries m.
Proof. unfold put_slot. by destruct (es_path (sl_entry s)). Qed.
Lemma put_slot_requests id (s : Slot) m : mg_requests (put_slot id s m) = mg_requests m.
Proof. unfold put_slot. by destruct (es_path (sl_entry s)). Qed.

Lemma slots_nonneg id reqs : 0 ≤ slots id reqs.
Proof. apply weight_nonneg. intros _ r _. unfold shared_slot. by destruct (_ && _). Qed.

(** ** A reservation moves *)

(** The slots of the other reservations of the entry. *)
Lemma held_ok_of m rid r e :
  mgr_ok m → mg_requests m !! rid = Some r → mg_heap m !! rr_entry r = Some e →
  held_ok (slots (rr_entry r) (mg_requests m) - shared_slot r) e r.
Proof.
  intros Hm Hr He. destruct (mo_request _ Hm _ _ Hr) as [Hq _].
  constructor; [by eapply mo_entry|done| |].
  - pose proof (slots_nonneg (rr_entry r) (delete rid (mg_requests m))) as H. unfold slots in *.
    rewrite (weight_delete _ _ _ _ _ Hr), bool_decide_eq_true_2 in H by done. lia.
  - rewrite (mo_active _ Hm _ _ He). lia.
Qed.

Lemma step_entry stick e r rep e' r' : reservation_step stick e r rep e' r' → rr_entry r' = rr_entry r.
Proof. intros Hstep. by destruct Hstep. Qed.

Lemma reservation_moves stick m m' rid r e rep e' r' :
  mgr_ok m → mg_requests m !! rid = Some r → mg_heap m !! rr_entry r = Some e →
  reservation_step stick e r rep e' r' → entry_becomes (rr_entry r) e' m m' →
  mg_requests m' = <[rid := r']> (mg_requests m) →
  mgr_ok m' ∧ (stick = false ∨ is_Some rep → mgr_covers m → mgr_covers m').
Proof.
  intros Hm Hr He Hstep [Hheap Hents] Hreqs. pose proof (held_ok_of m rid r e Hm Hr He) as Hh.
  pose proof (step_held_ok _ _ _ _ _ _ _ Hh Hstep) as [He' Hr' _ Ha'].
  pose proof (step_entry _ _ _ _ _ _ Hstep) as Hid.
  assert (∀ f id, weight f id (mg_requests m') = weight f id (mg_requests m)
                  + (if bool_decide (rr_entry r = id) then f r' - f r else 0)) as Hw
    by (intros f id; rewrite Hreqs; by apply weight_update).
  split; [constructor|].
  - intros id x. rewrite Hheap. intros [[<- <-]|[Hne Hx]]%lookup_insert_Some; [done|by eapply mo_entry].
  - intros id x. rewrite Hheap. unfold slots in *. rewrite Hw. intros [[<- <-]|[Hne Hx]]%lookup_insert_Some.
    + rewrite bool_decide_eq_true_2 by done. rewrite Ha'. lia.
    + rewrite bool_decide_eq_false_2 by done. rewrite (mo_active _ Hm _ _ Hx). unfold slots. lia.
  - intros rid' x. rewrite Hreqs, Hheap. intros [[<- <-]|[Hne Hx]]%lookup_insert_Some.
    + split; [done|]. rewrite Hid. rewrite lookup_insert_eq. eauto.
    + destruct (mo_request _ Hm _ _ Hx) as [? [y Hy]]. split; [done|].
      destruct (decide (rr_entry r = rr_entry x)) as [Heq|]; [rewrite Heq, lookup_insert_eq; eauto|].
      rewrite lookup_insert_ne by done. eauto.
  - intros tc id. rewrite Hents, Hheap. intros [y Hy]%(mo_ref _ Hm).
    destruct (decide (rr_entry r = id)) as [<-|]; [rewrite lookup_insert_eq; eauto|]. rewrite lookup_insert_ne by done. eauto.
  - intros Hstick Hcov id x. rewrite Hheap. unfold held. rewrite Hw. intros [[<- <-]|[Hne Hx]]%lookup_insert_Some.
    + rewrite bool_decide_eq_true_2 by done. destruct (Hcov _ _ He) as [Hc Hu]. split; [|by eapply step_waiting].
      pose proof (step_covers stick _ (held (rr_entry r) (mg_requests m) - held_tokens r) e r rep e' r' Hh Hstick) as H.
      unfold covers in H. specialize (H ltac:(lia) Hstep). unfold held in *. lia.
    + rewrite bool_decide_eq_false_2 by done. destruct (Hcov _ _ Hx). unfold held in *. lia.
Qed.

Lemma with_request_moves stick m rid r e (op : Op Held text Z) :
  mg_requests m !! rid = Some r → mg_heap m !! rr_entry r = Some e →
  (refines stick (slot_of e m, r) op) →
  ∃ e' r', reservation_step stick e r (result_ok (with_request rid op m).1) e' r' ∧
           entry_becomes (rr_entry r) e' m (with_request rid op m).2 ∧
           mg_requests (with_request rid op m).2 = <[rid := r']> (mg_requests m).
Proof.
  intros Hr He Href. unfold with_request, on_request. rewrite Hr, He. unfold refines, wp in Href. cbn in Href.
  destruct (op (slot_of e m, r)) as [res [s' r']]. cbn in *. exists (sl_entry s'), r'.
  split; [done|]. split; [|done]. split; [apply put_slot_heap|apply put_slot_entries].
Qed.

(** ** A call goes through an entry *)

Definition granted (id : nat) (n : Z) (shared : bool) : RequestReservation :=
  {| rr_entry := id; rr_initial := n; rr_remaining := n; rr_finished := false; rr_shared := shared |}.
Definition requests_after (id : nat) (grant : option (Z * bool)) m : gmap nat RequestReservation :=
  match grant with
  | None => mg_requests m
  | Some (n, shared) => <[fresh (dom (mg_requests m)) := granted id n shared]> (mg_requests m)
  end.
Lemma fresh_request m : mg_requests m !! fresh (dom (mg_requests m)) = None.
Proof. apply not_elem_of_dom, is_fresh. Qed.

Lemma entry_moves m m' id e grant e' :
  mgr_ok m → mg_heap m !! id = Some e → entry_step e grant e' → entry_becomes id e' m m' →
  mg_requests m' = requests_after id grant m →
  safe_step m m'.
Proof.
  intros Hm He Hstep [Hheap Hents] Hreqs. pose proof (entry_step_ok _ _ _ (mo_entry _ Hm _ _ He) Hstep) as He'.
  assert (∀ f x, weight f x (mg_requests m') = weight f x (mg_requests m)
    + match grant with Some (n, sh) => if bool_decide (id = x) then f (granted id n sh) else 0 | None => 0 end) as Hw.
  { intros f x. rewrite Hreqs. unfold requests_after. destruct grant as [[n sh]|]; [|lia].
    rewrite weight_fresh by apply fresh_request. done. }
  assert (∀ x y, mg_heap m !! x = Some y → is_Some (mg_heap m' !! x)) as Hdom.
  { intros x y Hx. rewrite Hheap. destruct (decide (id = x)) as [<-|]; [rewrite lookup_insert_eq|rewrite lookup_insert_ne by done]; eauto. }
  split_and!; [constructor| |].
  - intros x y. rewrite Hheap. intros [[<- <-]|[Hne Hx]]%lookup_insert_Some; [done|by eapply mo_entry].
  - intros x y. rewrite Hheap. unfold slots. rewrite Hw. intros [[<- <-]|[Hne Hx]]%lookup_insert_Some.
    + rewrite ?bool_decide_eq_true_2 by done. pose proof (mo_active _ Hm _ _ He). unfold slots in *. destruct Hstep; cbn in *; lia.
    + rewrite ?bool_decide_eq_false_2 by done. rewrite (mo_active _ Hm _ _ Hx). unfold slots. destruct grant as [[]|]; lia.
  - intros rid x Hx. assert ((mg_requests m !! rid = Some x) ∨ (rr_entry x = id ∧ request_ok x)) as [Hold|[<- Hok]].
    { rewrite Hreqs in Hx. destruct Hstep; cbn in Hx; try (by left).
      all: apply lookup_insert_Some in Hx as [[<- <-]|[_ Hx]]; [right; split; [done|constructor; cbn; lia]|by left]. }
    + destruct (mo_request _ Hm _ _ Hold) as [? [y Hy]]. split; [done|by eapply Hdom].
    + split; [done|by eapply Hdom].
  - intros tc x. rewrite Hents. intros [y Hy]%(mo_ref _ Hm). by eapply Hdom.
  - intros Hcov x y. rewrite Hheap. unfold held. rewrite Hw. intros [[<- <-]|[Hne Hx]]%lookup_insert_Some.
    + rewrite ?bool_decide_eq_true_2 by done. destruct (Hcov _ _ He) as [Hc Hu]. unfold held in *.
      pose proof (eo_unpersisted _ (mo_entry _ Hm _ _ He)).
      set (w := weight held_tokens id (mg_requests m)) in *. clearbody w. unfold CAPACITY_PERSIST_TOKEN_INTERVAL in *.
      destruct Hstep; cbn in *; unfold held_tokens; cbn; lia.
    + rewrite ?bool_decide_eq_false_2 by done. destruct (Hcov _ _ Hx). unfold held in *. destruct grant as [[]|]; lia.
  - apply (keeps_delivery_insert _ _ id e' Hheap). intros x Hx. rewrite He in Hx. injection Hx as <-. by eapply entry_step_delivery.
Qed.

Lemma on_entry_moves {E A} m id e (op : Op Slot E A) grant :
  mg_heap m !! id = Some e → steps grant (slot_of e m) op →
  ∃ e', entry_step e (match (on_entry id e op m).1 with Ok a => grant a | Err _ => None end) e' ∧
        entry_becomes id e' m (on_entry id e op m).2 ∧ mg_requests (on_entry id e op m).2 = mg_requests m.
Proof.
  intros He Hsteps. unfold steps, wp in Hsteps. unfold on_entry. destruct (op (slot_of e m)) as [res s']. cbn in *.
  exists (sl_entry s'). split; [done|]. split; [|exact (put_slot_requests id s' m)].
  split; [exact (put_slot_heap id s' m)|exact (put_slot_entries id s' m)].
Qed.

(** A call that grants nothing, and one that hands out a reservation. *)
Lemma quiet_moves {E A} m id e (op : Op Slot E A) :
  mgr_ok m → mg_heap m !! id = Some e → steps (λ _, None) (slot_of e m) op →
  safe_step m (on_entry id e op m).2.
Proof.
  intros Hm He Hsteps. destruct (on_entry_moves m id e op _ He Hsteps) as (e' & Hstep & Hb & Hr).
  apply (entry_moves m _ id e None e'); [done|done| |done|done]. by destruct (on_entry id e op m).1.
Qed.
Lemma grant_moves m id e (op : Op Slot ReserveError Z) shared :
  mgr_ok m → mg_heap m !! id = Some e → steps (λ n, Some (n, shared)) (slot_of e m) op →
  let m' := ((do amount <- on_entry id e op; hand_out id amount shared) m).2 in
  safe_step m m'.
Proof.
  intros Hm He Hsteps. destruct (on_entry_moves m id e op _ He Hsteps) as (e' & Hstep & [Hh He'] & Hr).
  unfold op_bind. destruct (on_entry id e op m) as [[n|err] m1]; cbn in *.
  - eapply entry_moves; [done|exact He|exact Hstep|by split|]. cbn. by rewrite Hr.
  - eapply entry_moves; [done|exact He|exact Hstep|by split|]. done.
Qed.

(** ** Calls that change which entries there are *)

Definition deal_typed (state : DealChainState) (deal : DealSubscription) : Prop :=
  0 ≤ cs_tokens_pending state ∧ 0 ≤ funded_tokens deal ≤ umax u128 ∧ 0 ≤ week_base_tokens deal ∧ 0 ≤ tokens_per_week deal.

Lemma authoritative_cap_typed state deal cap : deal_typed state deal → authoritative_cap state deal = Ok cap → 0 ≤ cap.
Proof.
  intros (Htp & Hf & Hb & Hw). unfold authoritative_cap. destruct (_ && _); [intros [= <-]; done|].
  destruct (negb (cs_probe_accepted state)); [intros [= <-]; unfold TICK_SIZE; lia|].
  destruct (negb _); [intros [= <-]; lia|]. intros (x & Hx & Hcap)%ok_or_Ok%fmap_Some_1.
  apply checked_add_Some in Hx as [-> _]. lia.
Qed.
Lemma authoritative_cap_funded state deal cap :
  cs_tokens_pending state ≤ funded_tokens deal → authoritative_cap state deal = Ok cap → cap ≤ funded_tokens deal.
Proof.
  intros Htp. unfold authoritative_cap. destruct (_ && _); [intros [= <-]; done|].
  destruct (negb (cs_probe_accepted state)); [intros [= <-]; lia|].
  destruct (negb _); [intros [= <-]; lia|]. intros (x & Hx & Hcap)%ok_or_Ok%fmap_Some_1. lia.
Qed.
Lemma live_shape_pending tc state deal u cap :
  validate_live_deal_shape tc state deal = Ok u → authoritative_cap state deal = Ok cap →
  cs_tokens_pending state ≤ funded_tokens deal ∧ cs_tokens_pending state ≤ cap.
Proof.
  unfold validate_live_deal_shape. intros H Hcap. do 6 apply bind_Ok in H as (? & _ & H).
  apply bind_Ok in H as (? & Hf%bail_if_Ok & H). apply bind_Ok in H as (? & _ & H).
  apply bind_Ok in H as (c & Hc & H%bail_if_Ok). rewrite Hcap in Hc. injection Hc as <-. lia.
Qed.

Lemma new_record_ok tc state deal cap u :
  trim tc ≠ "" → deal_typed state deal → validate_live_deal_shape tc state deal = Ok u →
  authoritative_cap state deal = Ok cap → record_ok (new_record tc state deal cap).
Proof.
  intros Htc Ht Hshape Hcap. pose proof (live_shape_pending _ _ _ _ _ Hshape Hcap) as [Hf Hp].
  pose proof (authoritative_cap_funded _ _ _ Hf Hcap). destruct Ht as (?&?&?&?).
  constructor; cbn; try done; unfold typed_record, record_delivery; cbn; lia.
Qed.

Lemma initial_record_ok ft tc state deal cap u path m r :
  trim tc ≠ "" → deal_typed state deal → validate_live_deal_shape tc state deal = Ok u →
  authoritative_cap state deal = Ok cap → initial_record is_empty from_slice ft tc state deal cap path m = Ok r → record_ok r.
Proof.
  intros Htc Ht Hshape Hcap. pose proof (new_record_ok _ _ _ _ _ Htc Ht Hshape Hcap) as Hnew.
  unfold initial_record. destruct path as [path|]; [|intros [= <-]; done].
  intros (loaded & Hl & Hr)%bind_Ok. destruct loaded as [rec|]; [|injection Hr as <-; done].
  apply bind_Ok in Hr as (? & Hv & Hr). apply bind_Ok in Hr as (? & _ & [= <-]).
  apply validate_record_Ok in Hv; [done|]. unfold load_record in Hl.
  destruct (cf_load ft); [discriminate|]. destruct (mg_files m !! path); [|discriminate].
  apply bind_Ok in Hl as (? & _ & (parsed & Hx%map_err_Ok & [= ->])%rmap_Ok). by eapply from_slice_typed.
Qed.

(** A new entry, under an identifier that nothing refers to. *)
Lemma register_moves m tc id e m' :
  mgr_ok m → mg_heap m !! id = None → record_ok (es_record e) → es_unpersisted_delivered e = 0 → es_active_shared_requests e = 0 →
  mg_heap m' = <[id := e]> (mg_heap m) → mg_entries m' = <[tc := id]> (mg_entries m) → mg_requests m' = mg_requests m →
  safe_step m m'.
Proof.
  intros Hm Hid Hrec Hu Ha Hheap Hents Hreqs.
  assert (∀ f, weight f id (mg_requests m') = 0) as Hw.
  { intros f. apply weight_unused. rewrite Hreqs. intros rid r Hr Heq. destruct (mo_request _ Hm _ _ Hr) as [_ [y Hy]].
    rewrite Heq, Hid in Hy. discriminate. }
  pose proof (ro_typed _ Hrec) as (?&?&?&?&?).
  split_and!; [constructor| |].
  - intros x y. rewrite Hheap. intros [[<- <-]|[Hne Hx]]%lookup_insert_Some; [|by eapply mo_entry].
    constructor; [done|lia|congruence].
  - intros x y. rewrite Hheap. intros [[<- <-]|[Hne Hx]]%lookup_insert_Some; [unfold slots; by rewrite Hw|].
    rewrite Hreqs. by apply mo_active.
  - intros rid r. rewrite Hreqs, Hheap. intros Hr. destruct (mo_request _ Hm _ _ Hr) as [? [y Hy]]. split; [done|].
    rewrite lookup_insert_ne by congruence. eauto.
  - intros tc' x. rewrite Hents, Hheap. intros [[<- <-]|[Hne Hx]]%lookup_insert_Some; [rewrite lookup_insert_eq; eauto|].
    destruct (mo_ref _ Hm _ _ Hx) as [y Hy]. rewrite lookup_insert_ne by congruence. eauto.
  - intros Hcov x y. rewrite Hheap. intros [[<- <-]|[Hne Hx]]%lookup_insert_Some.
    + unfold held. rewrite Hw. unfold CAPACITY_PERSIST_TOKEN_INTERVAL. lia.
    + rewrite Hreqs. by apply Hcov.
  - apply (keeps_delivery_insert _ _ id e Hheap). congruence.
Qed.

(** An entry that is closed, or that loses a slot with the reservation that held it. *)
Lemma same_counters_moves m m' id e e' :
  mgr_ok m → mg_heap m !! id = Some e → mg_heap m' = <[id := e']> (mg_heap m) →
  (∀ tc x, mg_entries m' !! tc = Some x → mg_entries m !! tc = Some x) →
  entry_ok e' → es_record e' = es_record e → es_unpersisted_delivered e' = es_unpersisted_delivered e →
  (∀ x, slots x (mg_requests m') = slots x (mg_requests m) + (if bool_decide (id = x)
          then es_active_shared_requests e' - es_active_shared_requests e else 0)) →
  (∀ x, held x (mg_requests m') ≤ held x (mg_requests m)) →
  (∀ rid r, mg_requests m' !! rid = Some r → mg_requests m !! rid = Some r) →
  safe_step m m'.
Proof.
  intros Hm He Hheap Hents He' Hrec Hu Hs Hh Hreqs.
  assert (∀ x y, mg_heap m !! x = Some y → is_Some (mg_heap m' !! x)) as Hdom.
  { intros x y Hx. rewrite Hheap. destruct (decide (id = x)) as [<-|]; [rewrite lookup_insert_eq|rewrite lookup_insert_ne by done]; eauto. }
  split_and!; [constructor| |].
  - intros x y. rewrite Hheap. intros [[<- <-]|[Hne Hx]]%lookup_insert_Some; [done|by eapply mo_entry].
  - intros x y. rewrite Hheap, Hs. intros [[<- <-]|[Hne Hx]]%lookup_insert_Some.
    + rewrite bool_decide_eq_true_2 by done. rewrite <- (mo_active _ Hm _ _ He). lia.
    + rewrite bool_decide_eq_false_2 by done. rewrite (mo_active _ Hm _ _ Hx). lia.
  - intros rid r Hr%Hreqs. destruct (mo_request _ Hm _ _ Hr) as [? [y Hy]]. split; [done|by eapply Hdom].
  - intros tc x Hx%Hents. destruct (mo_ref _ Hm _ _ Hx) as [y Hy]. by eapply Hdom.
  - intros Hcov x y. rewrite Hheap. pose proof (Hh x). intros [[<- <-]|[Hne Hx]]%lookup_insert_Some.
    + destruct (Hcov _ _ He). rewrite Hrec, Hu. lia.
    + destruct (Hcov _ _ Hx). lia.
  - apply (keeps_delivery_insert _ _ id e' Hheap). intros x Hx. rewrite He in Hx. injection Hx as <-.
    unfold entry_delivery. by rewrite Hrec.
Qed.
End Reach.
