(* ===== verification/CapacityRun.v ===== *)
(** * Runs of the capacity manager

    [cap_reached] are the managers that calls reach from a manager of a new process; every
    one is [mgr_ok], and covers its reservations if no [record_delivered] failed half-way. *)
From S2P Require Import Prelude RustText Params Address DealTypes Capacity.
From S2P Require Import CapacityInv CapacityEntry CapacityReach.

#[local] Arguments umax : simpl never.

Definition entry_call_typed (c : EntryCall) : Prop :=
  match c with
  | ERefresh _ state deal cap => deal_typed state deal ∧ 0 ≤ cap
  | ESaveProbe _ => True
  | EAdmit requested _ | ETake requested _ => 0 ≤ requested ≤ umax u64
  end.
(** The arguments of a call have the ranges of their types, and an address is not blank. *)
Definition call_typed (c : CapCall) : Prop :=
  match c with
  | CReconcile tc state deal => trim tc ≠ "" ∧ deal_typed state deal
  | CAdmitShared _ requested _ | CReserve _ requested _ => 0 ≤ requested ≤ umax u64
  | CStale _ c => entry_call_typed c
  | CFinishWithDelivery _ tokens | CRecordDelivered _ tokens => 0 ≤ tokens ≤ umax u64
  | _ => True
  end.

Section Run.
Context {Bytes : Type} (to_vec : DurableCapacityRecord → Bytes) (is_empty : Bytes → bool)
  (from_slice : Bytes → Result text DurableCapacityRecord).
Context (from_slice_typed : ∀ bytes r, from_slice bytes = Ok r → typed_record r).
Implicit Types (m : Manager (Bytes := Bytes)) (ft : CapacityFaults) (c : CapCall).

(** An incremental count that failed after it had counted. *)
Definition half_counted c (rep : option Z) : Prop := match c with CRecordDelivered _ _ => rep = None | _ => False end.

Lemma safe_same m : mgr_ok m → safe_step m m.
Proof. intros Hm. split_and!; [done|done|apply keeps_delivery_refl]. Qed.
#[local] Hint Resolve safe_same : core.
Lemma remove_safe ft path m : mgr_ok m → safe_step m (remove_if_present ft path m).2.
Proof.
  intros Hm. unfold remove_if_present.
  destruct (cf_remove ft) as [[err|err]|]; [by apply safe_same|..]; (destruct (mg_files m !! path); [|by apply safe_same]);
    (split_and!; [by destruct Hm as [????]|done|exact (keeps_delivery_refl m)]).
Qed.
Lemma safe_trans m1 m2 m3 : safe_step m1 m2 → (mgr_ok m2 → safe_step m2 m3) → safe_step m1 m3.
Proof. intros (H1 & Hc1 & Hd1) H2. destruct (H2 H1) as (? & Hc2 & Hd2). split_and!; [done|auto|by eapply keeps_delivery_trans]. Qed.

Lemma find_entry_Some tc m id e :
  find_entry tc m = Some (id, e) ↔ mg_entries m !! tc = Some id ∧ mg_heap m !! id = Some e.
Proof.
  unfold find_entry. rewrite bind_Some. split.
  - intros (x & Hx & (y & Hy & [= <- <-])%fmap_Some_1). done.
  - intros [Hx Hy]. exists id. by rewrite Hx, Hy.
Qed.

Lemma mark_terminal_safe ft tc m : mgr_ok m → safe_step m (mark_terminal ft tc m).2.
Proof.
  intros Hm. unfold mark_terminal, op_bind, op_read, op_write. destruct (find_entry tc m) as [[id e]|] eqn:Hfind.
  - apply find_entry_Some in Hfind as [Hid He].
    set (m1 := set_heap (<[id := set_terminal e]> (mg_heap (set_entries (delete tc (mg_entries m)) m)))
                 (set_entries (delete tc (mg_entries m)) m)).
    assert (safe_step m m1) as H1.
    { eapply (same_counters_moves m m1 id e (set_terminal e)); try done.
      - intros x y Hx. cbn in Hx. by apply lookup_delete_Some in Hx as [_ ?].
      - pose proof (mo_entry _ Hm _ _ He) as [??]. by constructor.
      - intros x. cbn. case_bool_decide; lia. }
    cbv beta iota. destruct (es_path e) as [path|]; [|exact H1]. eapply safe_trans; [exact H1|apply remove_safe].
  - set (m1 := set_entries (delete tc (mg_entries m)) m).
    assert (safe_step m m1) as H1.
    { split_and!; [|done|exact (keeps_delivery_refl m)]. destruct Hm as [????]. constructor; try done. cbn. intros x y [_ Hx]%lookup_delete_Some. eauto. }
    cbv beta iota. destruct (mg_store_dir m1) as [directory|]; [|exact H1]. eapply safe_trans; [exact H1|apply remove_safe].
Qed.

Lemma register_safe ft tc state deal cap u m :
  mgr_ok m → trim tc ≠ "" → deal_typed state deal → validate_live_deal_shape tc state deal = Ok u →
  authoritative_cap state deal = Ok cap →
  wp (find_or_register is_empty from_slice ft tc state deal cap)
     (λ res m', safe_step m m' ∧ match res with Ok (id, e) => mg_heap m' !! id = Some e | Err _ => True end) m.
Proof.
  intros Hm Htc Ht Hshape Hcap. unfold find_or_register. op_step.
  destruct (find_entry tc m) as [[id e]|] eqn:Hfind.
  { apply wp_ret. apply find_entry_Some in Hfind as [_ He]. split; [by apply safe_same|done]. }
  op_step. apply wp_look. destruct (initial_record _ _ _ _ _ _ _ _ _) as [record|err] eqn:Hinit; [|split; [by apply safe_same|done]].
  apply (initial_record_ok is_empty from_slice from_slice_typed _ _ _ _ _ u) in Hinit; [|done..].
  cbv zeta. op_step. op_step. apply wp_ret. cbn.
  assert (mg_heap m !! fresh (dom (mg_heap m)) = None) as Hfresh by apply not_elem_of_dom, is_fresh.
  split; [|apply lookup_insert_eq].
  eapply register_moves; [done|exact Hfresh| | | |reflexivity|reflexivity|reflexivity]; done.
Qed.

Lemma reconcile_safe ft tc state deal m :
  mgr_ok m → trim tc ≠ "" → deal_typed state deal → safe_step m (reconcile_deal to_vec is_empty from_slice ft tc state deal m).2.
Proof.
  intros Hm Htc Ht. change (wp (reconcile_deal to_vec is_empty from_slice ft tc state deal) (λ _ m', safe_step m m') m).
  unfold reconcile_deal. destruct (is_stopped state).
  { apply wp_bind. pose proof (mark_terminal_safe ft tc m Hm) as H. unfold wp.
    destruct (mark_terminal ft tc m) as [[[]|err] m']; done. }
  op_step; [|by apply safe_same]. op_step; [|by apply safe_same]. apply wp_bind. rename a0 into cap.
  eapply wp_mono; [by eapply (register_safe ft tc state deal cap)|]. intros [[id e]|err] m1 [H1 He]; [|done].
  apply wp_bind. cbn [fst snd]. pose proof (proj1 H1) as Hm1.
  pose proof (quiet_moves m1 id e (refresh to_vec ft tc state deal cap) Hm1 He) as Hq.
  assert (safe_step m1 (on_entry id e (refresh to_vec ft tc state deal cap) m1).2) as H2.
  { apply Hq, refresh_steps; [apply (eo_record _ (mo_entry _ Hm1 _ _ He))|apply Ht| |apply Ht]. by eapply authoritative_cap_typed. }
  unfold wp. destruct (on_entry id e _ m1) as [[snap|err] m2]; cbn in *; by eapply safe_trans.
Qed.

Lemma drop_safe rid m : mgr_ok m → safe_step m (drop_request rid m).
Proof.
  intros Hm. unfold drop_request. destruct (mg_requests m !! rid) as [r|] eqn:Hr; [|by apply safe_same].
  destruct (mg_heap m !! rr_entry r) as [e|] eqn:He; [|by apply safe_same].
  pose proof (held_ok_of m rid r e Hm Hr He) as [Hok Hq Ho Ha].
  eapply (same_counters_moves m _ (rr_entry r) e (sl_entry (drop (slot_of e m, r)))); [done|done|exact (put_slot_heap _ _ _)| | | | | | |].
  - intros x y Hx. change (mg_entries (put_slot (rr_entry r) (drop (slot_of e m, r)) m) !! x = Some y) in Hx.
    by rewrite put_slot_entries in Hx.
  - unfold drop. destruct (_ && _) eqn:Hs; [|done]. destruct Hok as [Hrec Hu Hx]. constructor; cbn; try done.
    unfold shared_slot in Ha, Ho. cbn in Hs. rewrite Hs in Ha, Ho. cbn in Ha, Ho. intros _. apply Hx. lia.
  - unfold drop. by destruct (_ && _).
  - unfold drop. by destruct (_ && _).
  - intros x. cbn. unfold slots. rewrite (weight_delete _ _ _ _ _ Hr).
    case_bool_decide; [|lia]. unfold drop, shared_slot in *. cbn.
    destruct (rr_shared r && negb (rr_finished r)); cbn; [unfold saturating_sub|]; lia.
  - intros x. cbn. unfold held. rewrite (weight_delete _ _ _ _ _ Hr). case_bool_decide; [|lia].
    unfold held_tokens. destruct (_ && _); [|lia]. pose proof (qo_remaining _ Hq). lia.
  - intros x y Hx. cbn in Hx. by apply lookup_delete_Some in Hx as [_ ?].
Qed.

Lemma request_safe stick rid op m :
  mgr_ok m → (∀ others h, held_ok others (sl_entry h.1) h.2 → refines (Bytes := Bytes) stick h op) →
  mgr_ok (with_request rid op m).2 ∧
  (stick = false ∨ is_Some (result_ok (with_request rid op m).1) → mgr_covers m → mgr_covers (with_request rid op m).2).
Proof.
  intros Hm Href.
  destruct (mg_requests m !! rid) as [r|] eqn:Hr; [|unfold with_request; rewrite Hr; done].
  destruct (mg_heap m !! rr_entry r) as [e|] eqn:He; [|unfold with_request; rewrite Hr, He; done].
  destruct (with_request_moves stick m rid r e op Hr He) as (e' & r' & Hstep & Hb & Hreqs).
  { by eapply Href, (held_ok_of m rid r e). }
  by eapply reservation_moves.
Qed.

Lemma entry_call_safe ft (call : EntryCall) id e m :
  mgr_ok m → mg_heap m !! id = Some e → entry_call_typed call → safe_step m (entry_call to_vec ft call id e m).
Proof.
  intros Hm He Hc. pose proof (eo_record _ (mo_entry _ Hm _ _ He)) as Hr. destruct call; cbn in *.
  - destruct Hc as [(?&?&?) ?]. apply quiet_moves; [done|done|]. by apply refresh_steps.
  - apply quiet_moves; [done|done|]. by apply save_probe_steps.
  - apply grant_moves; [done|done|]. by apply admit_steps.
  - apply grant_moves; [done|done|]. by apply take_steps.
Qed.

(** A call that looks its entry up. *)
Lemma lookup_safe {E A} (unknown : E) tc (k : nat * CapacityEntryState → Op Manager E A) m :
  mgr_ok m → (∀ id e, mg_heap m !! id = Some e → safe_step m (k (id, e) m).2) →
  safe_step m ((do found <- lookup_entry unknown tc; k found) m).2.
Proof.
  intros Hm Hk. unfold op_bind, lookup_entry, op_read. destruct (find_entry tc m) as [[id e]|] eqn:Hf; cbn; [|by apply safe_same].
  apply find_entry_Some in Hf as [_ He]. by apply Hk.
Qed.

Definition is_restart c : bool := match c with CRestart => true | _ => false end.
(** The reservation a call is about. *)
Definition call_request c : option nat :=
  match c with
  | CFinishWithDelivery rid _ | CRecordDelivered rid _ | CFinishExact rid | CFinishAmbiguous rid => Some rid
  | _ => None
  end.

Lemma other_call_safe ft c m :
  mgr_ok m → call_typed c → call_request c = None → is_restart c = false →
  ∃ m', cap_step to_vec is_empty from_slice ft c m = (Some 0, m') ∧ safe_step m m'.
Proof.
  intros Hm Hc Hreq Hrestart.
  destruct c as [tc state deal|tc d|tc req lim|tc req ex|tc|id c|rid n|rid n|rid|rid|rid|]; try discriminate Hreq; try discriminate Hrestart;
    (eexists; split; [reflexivity|]); cbn in Hc.
  - destruct Hc. by apply reconcile_safe.
  - apply lookup_safe; [done|]. intros id e He. by apply (entry_call_safe ft (ESaveProbe d)).
  - apply lookup_safe; [done|]. intros id e He. by apply (entry_call_safe ft (EAdmit req lim)).
  - unfold reserve_inner. destruct (req =? 0); [by apply safe_same|]. apply lookup_safe; [done|].
    intros id e He. by apply (entry_call_safe ft (ETake req ex)).
  - by apply mark_terminal_safe.
  - destruct (mg_heap m !! id) eqn:He; [by apply entry_call_safe|by apply safe_same].
  - by apply drop_safe.
Qed.

(** The operation of a call on a reservation, and that it refines the life of the reservation. *)
Lemma request_call_refines ft c rid :
  call_typed c → call_request c = Some rid →
  ∃ op, (∀ m, cap_step to_vec is_empty from_slice ft c m = report (with_request rid op m)) ∧
    ∀ others h, held_ok others (sl_entry h.1) h.2 →
      refines (match c with CRecordDelivered _ _ => true | _ => false end) h op.
Proof.
  intros Hc Hreq. destruct c; try discriminate Hreq; injection Hreq as ->; cbn in Hc; (eexists; split; [reflexivity|]); intros.
  - by eapply finish_with_delivery_refines.
  - eapply record_delivered_refines; [done|lia].
  - by eapply finish_exact_refines.
  - by eapply finish_ambiguous_refines.
Qed.

Lemma step_safe ft c m rep m' :
  mgr_ok m → call_typed c → cap_step to_vec is_empty from_slice ft c m = (rep, m') →
  mgr_ok m' ∧ (¬ half_counted c rep → mgr_covers m → mgr_covers m').
Proof.
  intros Hm Hc Hstep. destruct (is_restart c) eqn:Hrestart.
  { destruct c; try discriminate Hrestart. injection Hstep as <- <-. split; [by constructor|done]. }
  destruct (call_request c) as [rid|] eqn:Hreq.
  - destruct (request_call_refines ft c rid Hc Hreq) as (op & Hop & Href). rewrite Hop in Hstep. injection Hstep as <- <-.
    destruct (request_safe _ rid op m Hm Href) as [? Hcov]. split; [done|]. intros Hh. apply Hcov.
    destruct c; try (by left). right. cbn in Hh. destruct (result_ok _); [eauto|by destruct Hh].
  - destruct (other_call_safe ft c m Hm Hc Hreq Hrestart) as (m2 & Heq & ? & ? & _). rewrite Heq in Hstep.
    injection Hstep as <- <-. done.
Qed.

(** ** What a call reports of an entry's delivery *)

Definition addressed c m : option nat := call_request c ≫= λ rid, rr_entry <$> mg_requests m !! rid.
Definition reported (id : nat) c (rep : option Z) m : Z := if bool_decide (addressed c m = Some id) then default 0 rep else 0.

Lemma step_reports ft c m rep m' id e :
  mgr_ok m → call_typed c → is_restart c = false → cap_step to_vec is_empty from_slice ft c m = (rep, m') → mg_heap m !! id = Some e →
  ∃ e', mg_heap m' !! id = Some e' ∧ entry_delivery e + reported id c rep m ≤ entry_delivery e' ∧
        (is_Some rep → entry_delivery e' = entry_delivery e + reported id c rep m).
Proof.
  intros Hm Hc Hrestart Hstep He. unfold reported, addressed. destruct (call_request c) as [rid|] eqn:Hreq; cbn.
  - destruct (request_call_refines ft c rid Hc Hreq) as (op & Hop & Href). rewrite Hop in Hstep. injection Hstep as <- <-.
    destruct (mg_requests m !! rid) as [r|] eqn:Hr; cbn; [|exists e; unfold with_request; rewrite Hr, bool_decide_eq_false_2 by done; cbn; split_and!; [done|lia|by intros []]].
    destruct (mo_request _ Hm _ _ Hr) as [Hq [er Her]].
    pose proof (held_ok_of m rid r er Hm Hr Her) as Hok.
    destruct (with_request_moves _ m rid r er op Hr Her (Href _ (slot_of er m, r) Hok)) as (e' & r' & Hrs & [Hheap _] & _).
    rewrite Hheap. destruct (decide (rr_entry r = id)) as [<-|Hne].
    + rewrite bool_decide_eq_true_2, lookup_insert_eq by done. exists e'. rewrite He in Her. injection Her as <-.
      pose proof (step_delivery_mono _ _ _ _ _ _ (mo_entry _ Hm _ _ He) Hrs) as Hmono.
      destruct (result_ok _) as [n|] eqn:Hn; cbn.
      * pose proof (step_delivery _ _ _ _ _ _ n Hrs eq_refl) as ->. done.
      * split_and!; [done|lia|by intros []].
    + rewrite bool_decide_eq_false_2, lookup_insert_ne by congruence. exists e. split_and!; [done|lia|lia].
  - destruct (other_call_safe ft c m Hm Hc Hreq Hrestart) as (m2 & Heq & _ & _ & Hk). rewrite Heq in Hstep.
    injection Hstep as <- <-. destruct (Hk _ _ He) as (e' & He' & Hd). exists e'.
    rewrite bool_decide_eq_false_2 by done. split_and!; [done|lia|lia].
Qed.

(** ** The managers that calls reach *)

Inductive cap_reached : bool → Manager (Bytes := Bytes) → Prop :=
| reached_start clean store_dir files : cap_reached clean (fresh_manager store_dir files)
| reached_step clean m ft c rep m' :
    cap_reached clean m → call_typed c → (clean = true → ¬ half_counted c rep) →
    cap_step to_vec is_empty from_slice ft c m = (rep, m') → cap_reached clean m'.

(** ** Runs without a restart *)

Fixpoint cap_run (calls : list (CapacityFaults * CapCall)) m : Manager :=
  match calls with
  | [] => m
  | (ft, c) :: calls => cap_run calls (cap_step to_vec is_empty from_slice ft c m).2
  end.
(** The tokens that the calls of a run reported for an entry, and whether all of them did. *)
Fixpoint run_reported (id : nat) (calls : list (CapacityFaults * CapCall)) m : Z :=
  match calls with
  | [] => 0
  | (ft, c) :: calls =>
      let '(rep, m') := cap_step to_vec is_empty from_slice ft c m in reported id c rep m + run_reported id calls m'
  end.
Fixpoint all_reported (calls : list (CapacityFaults * CapCall)) m : bool :=
  match calls with
  | [] => true
  | (ft, c) :: calls =>
      let '(rep, m') := cap_step to_vec is_empty from_slice ft c m in bool_decide (is_Some rep) && all_reported calls m'
  end.

Lemma run_reports calls m id e :
  mgr_ok m → Forall (λ fc, call_typed fc.2 ∧ is_restart fc.2 = false) calls → mg_heap m !! id = Some e →
  ∃ e', mg_heap (cap_run calls m) !! id = Some e' ∧
        entry_delivery e + run_reported id calls m ≤ entry_delivery e' ∧
        (all_reported calls m = true → entry_delivery e' = entry_delivery e + run_reported id calls m).
Proof.
  revert m e. induction calls as [|[ft c] calls IH]; intros m e Hm Hcalls He; cbn.
  { exists e. split_and!; [done|lia|lia]. }
  apply Forall_cons in Hcalls as [[Hc Hrestart] Hcalls]. cbn in Hc, Hrestart.
  destruct (cap_step to_vec is_empty from_slice ft c m) as [rep m'] eqn:Hstep. cbn.
  destruct (step_safe ft c m rep m' Hm Hc Hstep) as [Hm' _].
  destruct (step_reports ft c m rep m' id e Hm Hc Hrestart Hstep He) as (e1 & He1 & Hle1 & Heq1).
  destruct (IH m' e1 Hm' Hcalls He1) as (e2 & He2 & Hle2 & Heq2).
  exists e2. split_and!; [done|lia|]. intros [Hs Ha]%andb_true_iff. apply bool_decide_eq_true in Hs.
  specialize (Heq1 Hs). specialize (Heq2 Ha). lia.
Qed.

Lemma cap_reached_ok clean m : cap_reached clean m → mgr_ok m ∧ (clean = true → mgr_covers m).
Proof.
  intros Hr. induction Hr as [clean store_dir files|clean m ft c rep m' _ [Hm Hcov] Hc Hclean Hstep].
  - split; [by constructor|done].
  - destruct (step_safe ft c m rep m' Hm Hc Hstep) as [Hm' Hcov']. split; [done|]. intros H. apply Hcov'; auto.
Qed.
End Run.
