(* ===== verification/CapacityProps.v ===== *)
(** * What a gateway may report is on disk

    Whatever the operating system does, a call on a reservation that reports delivered tokens
    leaves the entry's record in its file, and a restart that reads this file resumes with
    the same counters.

    The second part states the properties of every manager that calls reach; the last part is a
    run of a gateway's calls, with the properties applied to it. *)
From S2P Require Import Prelude RustText Params Address DealTypes Capacity.
From S2P Require Import CapacityInv CapacityEntry CapacityReach CapacityRun.

#[local] Arguments umax : simpl never.
#[local] Arguments validate_record : simpl never.
#[local] Arguments available : simpl never.

Section Durable.
Context {Bytes : Type} (to_vec : DurableCapacityRecord → Bytes).
Implicit Types (s : Slot (Bytes := Bytes)) (h : Held (Bytes := Bytes)) (ft : CapacityFaults).

(** The file holds the record of the entry; an entry of a manager without a directory has none. *)
Definition on_disk s : Prop := es_path (sl_entry s) = None ∨ sl_file s = Some (to_vec (es_record (sl_entry s))).
Definition published record s s' : Prop :=
  sl_entry s' = sl_entry s ∧ (es_path (sl_entry s) = None ∨ sl_file s' = Some (to_vec record)).
Lemma persist_publishes fault record s Q :
  (∀ s', published record s s' → Q (Ok ()) s') → (∀ err s', Q (Err err) s') → wp (persist_candidate to_vec fault record) Q s.
Proof.
  intros HOk HErr. unfold wp, persist_candidate, published in *.
  destruct (es_path (sl_entry s)) eqn:Hp; [destruct fault as [[e|e]|]|]; cbn; try apply HErr; apply HOk; auto.
Qed.

(** Only a success that reports tokens says anything. *)
Definition reports_on_disk (res : Result text Z) h : Prop := match res with Ok n => n ≠ 0 → on_disk h.1 | Err _ => True end.

Lemma reports_zero h : reports_on_disk (Ok 0) h.
Proof. intros Hne. by destruct Hne. Qed.

Lemma persist_held {B} fault record (k : () → Op Held text B) (Q : Result text B → Held → Prop) h :
  (∀ s', published record h.1 s' → wp (k ()) Q (s', h.2)) → (∀ err h', Q (Err err) h') →
  wp (op_bind (of_slot (persist_candidate to_vec fault record)) k) Q h.
Proof. intros HOk HErr. apply wp_bind, of_slot_wp, persist_publishes; [intros s' Hs; by apply HOk|intros; apply HErr]. Qed.

Ltac disk_step :=
  lazymatch goal with
  | |- wp (op_bind the_request _) _ _ => apply the_request_bind
  | |- wp (op_bind (of_slot the_entry) _) _ _ => apply the_entry_bind
  | |- wp (op_bind (of_slot (persist_candidate _ _ _)) _) _ _ => apply persist_held; [intros ? [? ?]|done]
  | _ => op_step
  end; cbv zeta; try done.

Lemma finish_shared_disk ft tokens ambiguous h : wp (finish_shared to_vec ft tokens ambiguous) reports_on_disk h.
Proof. unfold finish_shared. repeat disk_step. intros _. unfold on_disk. cbn. congruence. Qed.

Lemma finish_with_delivery_disk ft tokens h : wp (finish_with_delivery to_vec ft tokens) reports_on_disk h.
Proof.
  unfold finish_with_delivery. do 2 disk_step. destruct (rr_shared h.2); [apply finish_shared_disk|].
  repeat disk_step. unfold reports_on_disk. destruct (ok_or (try_into u64 tokens) _); [|done]. intros _. unfold on_disk. cbn. congruence.
Qed.

Lemma flush_disk ft s :
  wp (flush_delivered to_vec ft) (λ res s', match res with Ok n => n ≠ 0 → on_disk s' | Err _ => True end) s.
Proof.
  unfold flush_delivered. apply the_entry_step. cbv zeta. destruct (_ =? 0); [by apply wp_ret|].
  do 2 (op_step; [|done]). apply wp_bind, persist_publishes; [|done]. intros s' [Hs Hf]. op_step. apply wp_ret.
  destruct (ok_or (try_into u64 _) _); [|done]. intros _. unfold on_disk. cbn. rewrite Hs. destruct Hf; [by left|by right].
Qed.

Lemma record_delivered_disk ft tokens h : wp (record_delivered to_vec ft tokens) reports_on_disk h.
Proof.
  unfold record_delivered. do 9 disk_step. apply wp_bind. destruct (_ || _).
  - apply of_slot_wp. eapply wp_mono; [apply flush_disk|]. intros [n|err] s' Hn; [|done]. op_step. by apply wp_ret.
  - apply wp_ret. op_step. apply wp_ret, reports_zero.
Qed.

Lemma finish_exact_disk ft h : wp (finish_exact to_vec ft) reports_on_disk h.
Proof.
  unfold finish_exact. disk_step. destruct (rr_shared h.2); [apply finish_shared_disk|]. do 2 disk_step.
  destruct (es_terminal _); [op_step; apply wp_ret, reports_zero|]. apply wp_bind, of_slot_wp.
  eapply wp_mono; [apply flush_disk|]. intros [n|err] s' _; [|done].
  repeat disk_step. intros _. unfold on_disk. cbn in *. congruence.
Qed.

Lemma finish_ambiguous_disk ft h : wp (finish_ambiguous to_vec ft) reports_on_disk h.
Proof.
  unfold finish_ambiguous. disk_step. destruct (rr_shared h.2); [apply finish_shared_disk|]. do 2 disk_step. apply wp_bind.
  destruct (es_terminal _); [apply wp_ret; op_step; apply wp_ret, reports_zero|].
  apply of_slot_wp. eapply wp_mono; [apply flush_disk|]. intros [n|err] s' Hn; [|done]. op_step. by apply wp_ret.
Qed.

Context (is_empty : Bytes → bool) (from_slice : Bytes → Result text DurableCapacityRecord).

Lemma request_call_disk ft c rid m n m' r e :
  call_request c = Some rid → cap_step to_vec is_empty from_slice ft c m = (Some n, m') →
  mg_requests m !! rid = Some r → mg_heap m !! rr_entry r = Some e → n ≠ 0 →
  ∃ e', mg_heap m' !! rr_entry r = Some e' ∧ ∀ path, es_path e' = Some path → mg_files m' !! path = Some (to_vec (es_record e')).
Proof.
  intros Hreq Hstep Hr He Hn.
  assert (∃ op, cap_step to_vec is_empty from_slice ft c m = report (with_request rid op m) ∧ ∀ h, wp op reports_on_disk h)
    as (op & Hop & Hdisk).
  { destruct c; try discriminate Hreq; injection Hreq as ->; (eexists; split; [reflexivity|]).
    - apply finish_with_delivery_disk. - apply record_delivered_disk. - apply finish_exact_disk. - apply finish_ambiguous_disk. }
  rewrite Hop in Hstep. unfold report, with_request, on_request in Hstep. rewrite Hr, He in Hstep.
  specialize (Hdisk (slot_of e m, r)). unfold wp in Hdisk. destruct (op (slot_of e m, r)) as [res [s' r']]. cbn in *.
  injection Hstep as Hres <-. destruct res as [k|err]; [|done]. injection Hres as ->. specialize (Hdisk Hn). cbn in Hdisk.
  exists (sl_entry s'). split.
  - change (mg_heap (put_slot (rr_entry r) s' m) !! rr_entry r = Some (sl_entry s')). rewrite put_slot_heap. apply lookup_insert_eq.
  - intros path Hp. change (mg_files (put_slot (rr_entry r) s' m) !! path = Some (to_vec (es_record (sl_entry s')))).
    destruct Hdisk as [Hnone|Hfile]; [congruence|]. unfold put_slot. rewrite Hp. cbn. by rewrite lookup_partial_alter_eq.
Qed.

(** ** A restart *)

(** What [refresh] answers depends on the record and the closing only. *)
Lemma refresh_result tc state deal cap s new :
  es_terminal (sl_entry s) = false → reconciled tc state deal cap (es_record (sl_entry s)) = Ok new →
  wp (refresh to_vec no_capacity_faults tc state deal cap) (λ res s', res = Ok (capacity_snapshot new) ∧ es_record (sl_entry s') = new) s.
Proof.
  intros Hterm Hnew. unfold refresh. apply the_entry_step. rewrite Hterm, Hnew. do 2 apply wp_bind, wp_ret. apply wp_bind.
  destruct (bool_decide _) eqn:Heq.
  - apply bool_decide_eq_true in Heq as ->. by apply wp_ret.
  - apply wp_bind, persist_entry. intros [[]|err] s' Hs Hok; [done|by specialize (Hok eq_refl)].
Qed.
Lemma refresh_Ok ft tc state deal cap s snap :
  (refresh to_vec ft tc state deal cap s).1 = Ok snap →
  es_terminal (sl_entry s) = false ∧ ∃ new, reconciled tc state deal cap (es_record (sl_entry s)) = Ok new ∧ snap = capacity_snapshot new.
Proof.
  assert (wp (refresh to_vec ft tc state deal cap) (λ res _, ∀ x, res = Ok x → es_terminal (sl_entry s) = false ∧
    ∃ new, reconciled tc state deal cap (es_record (sl_entry s)) = Ok new ∧ x = capacity_snapshot new) s) as H.
  { unfold refresh. apply the_entry_step. op_step; [|done]. op_step; [|done]. rename a0 into new.
    match goal with H : bail_if _ _ = Ok _ |- _ => apply bail_if_Ok in H end.
    apply wp_bind. destruct (bool_decide _) eqn:Heq.
    - apply bool_decide_eq_true in Heq. apply wp_ret. intros x [= <-]. split; [done|]. exists new. split; [assumption|by rewrite Heq].
    - apply wp_bind, persist_entry. intros [[]|err] s' Hs _; [|done]. intros x [= <-]. split; [done|]. by exists new. }
  intros Hs. by apply H.
Qed.
End Durable.

(** * Properties of the delivery capacity

    What the seller may rely on in every manager that its calls reach, with a codec of record
    files of which only the types of a parsed record are known. *)

#[local] Arguments umax : simpl never.
#[local] Arguments validate_record : simpl never.
#[local] Arguments available : simpl never.

Section Props.
Context {Bytes : Type} (to_vec : DurableCapacityRecord → Bytes) (is_empty : Bytes → bool)
  (from_slice : Bytes → Result text DurableCapacityRecord).
Definition codec_typed : Prop := ∀ bytes r, from_slice bytes = Ok r → typed_record r.
Implicit Types (m : Manager (Bytes := Bytes)) (ft : CapacityFaults) (c : CapCall).

Lemma held_nonneg m rid r : mgr_ok m → mg_requests m !! rid = Some r → 0 ≤ held_tokens r.
Proof.
  intros Hm Hr. unfold held_tokens. destruct (_ && _); [|done]. pose proof (mo_request _ Hm _ _ Hr) as [[? _] _]. lia.
Qed.

(** C22: the seller never sells more than the deal allows: in every manager that the gateway's
    calls reach, with whatever faults of the operating system and restarts, the snapshot of a
    deal can be read, and what was delivered plus what is reserved is within the authoritative
    cap, which is within the funded tokens; the rest is what [available] answers. *)
Theorem capacity_never_oversold clean m tc :
  codec_typed → cap_reached to_vec is_empty from_slice clean m →
  ∃ answer, snapshot tc m = Ok answer ∧
    ∀ s, answer = Some s → ∃ sum, committed s = Ok sum ∧
      0 ≤ sum ≤ sp_authoritative_cap s ∧ sp_authoritative_cap s ≤ sp_funded_tokens s ∧
      available s = Ok (sp_authoritative_cap s - sum).
Proof.
  intros Hcodec Hm. apply (cap_reached_ok to_vec is_empty from_slice Hcodec) in Hm as [Hm _].
  unfold snapshot. destruct (find_entry tc m) as [[id e]|] eqn:Hf; [|by eexists].
  apply find_entry_Some in Hf as [_ He]. pose proof (eo_record _ (mo_entry _ Hm _ _ He)) as Hr.
  destruct (es_terminal e); [by eexists|]. rewrite (proj2 (validate_record_Ok _ () (ro_typed _ Hr)) Hr). cbn.
  eexists. split; [done|]. intros s [= <-]. pose proof (ro_typed _ Hr) as (?&?&?&?&?). pose proof (ro_sum _ Hr). pose proof (ro_cap _ Hr).
  eexists. split; [apply committed_Ok; split; [done|]; unfold record_delivery in *; lia|]. cbn.
  split_and!; [unfold record_delivery; lia|lia|lia|by apply available_Ok].
Qed.

(** C23: along any run without a restart, an entry's delivery grows by at least the tokens that
    the calls reported for it, so the seller never claims a token that it did not deliver; and
    by exactly these when no call on a reservation failed. *)
Theorem delivery_is_what_calls_report clean m calls id e :
  codec_typed → cap_reached to_vec is_empty from_slice clean m →
  Forall (λ fc, call_typed fc.2 ∧ is_restart fc.2 = false) calls → mg_heap m !! id = Some e →
  ∃ e', mg_heap (cap_run to_vec is_empty from_slice calls m) !! id = Some e' ∧
        entry_delivery e + run_reported to_vec is_empty from_slice id calls m ≤ entry_delivery e' ∧
        (all_reported to_vec is_empty from_slice calls m = true →
         entry_delivery e' = entry_delivery e + run_reported to_vec is_empty from_slice id calls m).
Proof.
  intros Hcodec Hm Hcalls He. apply (cap_reached_ok to_vec is_empty from_slice Hcodec) in Hm as [Hm _].
  by apply run_reports.
Qed.

(** A reservation can always be finished: in every manager reached without a half-failed
    count, an open exclusive reservation of a live deal is released by [finish_exact], which
    makes the waiting tokens durable and returns its whole remainder to the deal, and nothing
    else changes. *)
Theorem reservation_can_be_released m rid r e :
  codec_typed → cap_reached to_vec is_empty from_slice true m →
  mg_requests m !! rid = Some r → rr_shared r = false → rr_finished r = false →
  mg_heap m !! rr_entry r = Some e → es_terminal e = false →
  ∃ m', cap_step to_vec is_empty from_slice no_capacity_faults (CFinishExact rid) m = (Some (es_unpersisted_delivered e), m') ∧
    mg_requests m' !! rid = Some (set_finished r) ∧
    mg_heap m' = <[rr_entry r := on_record (deliver 0 (rr_remaining r)) (flush_entry e)]> (mg_heap m).
Proof.
  intros Hcodec Hm Hr Hsh Hfin He Hterm. apply (cap_reached_ok to_vec is_empty from_slice Hcodec) in Hm as [Hm Hcov].
  destruct (Hcov eq_refl _ _ He) as [Hc Hu]. pose proof (mo_entry _ Hm _ _ He) as Hok.
  pose proof (mo_request _ Hm _ _ Hr) as [[Hrem _] _].
  assert (rr_remaining r ≤ held (rr_entry r) (mg_requests m)) as Hheld.
  { pose proof (map_sum_term (λ _ x, if bool_decide (rr_entry x = rr_entry r) then held_tokens x else 0) (mg_requests m) rid r) as Hterms.
    cbn in Hterms. rewrite bool_decide_eq_true_2 in Hterms by done.
    assert (held_tokens r = rr_remaining r) as Hr' by (unfold held_tokens; by rewrite Hsh, Hfin).
    rewrite Hr' in Hterms. apply Hterms; [|done]. intros k v Hk. case_bool_decide; [|done]. by eapply held_nonneg. }
  pose proof (finish_exact_succeeds to_vec (slot_of e m, r) Hok Hsh Hfin Hterm ltac:(cbn; lia)
    ltac:(cbn; unfold CAPACITY_PERSIST_TOKEN_INTERVAL in *; unfold umax; cbn; lia) ltac:(cbn; lia)) as Hfe.
  unfold wp in Hfe. cbn [cap_step]. unfold report, with_request, on_request. rewrite Hr, He.
  destruct (finish_exact to_vec no_capacity_faults (slot_of e m, r)) as [res [s' r']]. cbn in Hfe. destruct Hfe as (-> & -> & Hs').
  eexists. split; [reflexivity|]. split; [apply lookup_insert_eq|]. cbn. rewrite <- Hs'. exact (put_slot_heap _ s' m).
Qed.

(** Shared and exclusive admission never meet: in every reached manager an entry counts
    exactly its unfinished shared reservations, and while there is one, nothing of the deal is
    reserved; a call that admits or reserves leaves it so. *)
Theorem shared_excludes_exclusive clean m id e :
  codec_typed → cap_reached to_vec is_empty from_slice clean m → mg_heap m !! id = Some e →
  es_active_shared_requests e = slots id (mg_requests m) ∧
  (0 < slots id (mg_requests m) → dr_outstanding_reservation (es_record e) = 0 ∧ (clean = true → held id (mg_requests m) = 0)).
Proof.
  intros Hcodec Hm He. apply (cap_reached_ok to_vec is_empty from_slice Hcodec) in Hm as [Hm Hcov].
  pose proof (mo_active _ Hm _ _ He) as Ha. pose proof (mo_entry _ Hm _ _ He) as [_ Hu Hx]. split; [done|]. intros Hpos.
  rewrite (Hx ltac:(lia)) in *. split; [done|]. intros Hclean. destruct (Hcov Hclean _ _ He) as [Hc _].
  assert (0 ≤ held id (mg_requests m)); [|rewrite (Hx ltac:(lia)) in *; lia]. apply weight_nonneg. intros rid r Hr.
  by eapply held_nonneg.
Qed.

(** C24: tokens that a call reported survive a crash: when a call on a reservation of a deal
    reports delivered tokens, then, whatever faults it met, a new process over the files finds
    the deal's counters: it accepts the chain reads that the old one accepts, with the same
    snapshot. *)
Theorem reported_tokens_survive_a_crash ft c rid r e n m m' tc id e' state deal s directory :
  call_request c = Some rid → mg_requests m !! rid = Some r → mg_heap m !! rr_entry r = Some e → n ≠ 0 →
  cap_step to_vec is_empty from_slice ft c m = (Some n, m') →
  find_entry tc m' = Some (id, e') → id = rr_entry r → dr_token_contract (es_record e') = tc →
  mg_store_dir m' = Some directory → es_path e' = Some (capacity_path directory tc) →
  from_slice (to_vec (es_record e')) = Ok (es_record e') → is_empty (to_vec (es_record e')) = false → record_ok (es_record e') →
  (reconcile_deal to_vec is_empty from_slice no_capacity_faults tc state deal m').1 = Ok (Some s) →
  (reconcile_deal to_vec is_empty from_slice no_capacity_faults tc state deal (restart m')).1 = Ok (Some s).
Proof.
  intros Hreq Hr He Hn Hstep Hfind -> Htc Hdir Hpath Hcodec Hne Hok.
  destruct (request_call_disk to_vec is_empty from_slice ft c rid m n m' r e Hreq Hstep Hr He Hn) as (e1 & He1 & Hfile).
  pose proof (proj1 (find_entry_Some tc m' _ _) Hfind) as [_ He']. rewrite He1 in He'. injection He' as ->.
  specialize (Hfile _ Hpath). unfold reconcile_deal. destruct (is_stopped state).
  { intros Habs. exfalso. unfold op_bind in Habs. destruct (mark_terminal _ _ m') as [[]]; discriminate Habs. }
  unfold op_bind, op_ret. destruct (validate_live_deal_shape tc state deal) as [[]|]; [|done].
  destruct (authoritative_cap state deal) as [cap|]; [|done]. unfold find_or_register, op_bind, op_read. rewrite Hfind. cbv beta iota.
  change (find_entry tc (restart m')) with (@None (nat * CapacityEntryState)). cbv beta iota.
  change (mg_store_dir (restart m')) with (mg_store_dir m'). rewrite Hdir. cbn [option_map]. unfold initial_record, load_record.
  change (mg_files (restart m')) with (mg_files m'). rewrite Hfile. cbn [cf_load no_capacity_faults]. rewrite Hne, Hcodec. cbn [rbind bail_if map_err rmap].
  rewrite (proj2 (validate_record_Ok _ () (ro_typed _ Hok)) Hok). cbn [rbind]. rewrite Htc, String.eqb_refl. cbn [negb bail_if rbind op_write fst snd].
  unfold on_entry, op_ret. cbv beta iota. cbn [fst snd]. destruct (refresh to_vec no_capacity_faults tc state deal cap (slot_of e' m')) as [[snap|] s1] eqn:Hrf; [|intros Hbad; discriminate Hbad].
  cbv beta iota. cbn [fst]. intros [= ->].
  destruct (refresh_Ok to_vec no_capacity_faults tc state deal cap (slot_of e' m') s ltac:(by rewrite Hrf)) as (Hterm & new & Hnew & ->).
  cbn in Hnew.
  match goal with |- context [refresh to_vec no_capacity_faults tc state deal cap ?x] =>
    pose proof (refresh_result to_vec tc state deal cap x new eq_refl Hnew) as Hres; unfold wp in Hres;
    destruct (refresh to_vec no_capacity_faults tc state deal cap x) as [res s2] end.
  cbn in Hres. destruct Hres as [-> _]. done.
Qed.
End Props.

(** * A run of the capacity manager, and the witnesses of its properties

    One deal of ten ticks; the record file is the record itself.  The two examples at the end
    are what the incremental accounting of the compatibility calls does with tokens that wait
    for a write. *)

Definition sample_from_slice (r : DurableCapacityRecord) : Result text DurableCapacityRecord :=
  if bool_decide (typed_record r) then Ok r else Err f["invalid type"].
Lemma sample_codec_typed : codec_typed sample_from_slice.
Proof. intros b r. unfold sample_from_slice. case_bool_decide; [by intros [= <-]|done]. Qed.
Definition sample_step := cap_step (λ r : DurableCapacityRecord, r) (λ _, false) sample_from_slice.
Definition sample_run := cap_run (λ r : DurableCapacityRecord, r) (λ _, false) sample_from_slice.
Definition sample_reached := cap_reached (λ r : DurableCapacityRecord, r) (λ _, false) sample_from_slice.

Definition sample_tc : string := "0:11".
Definition sample_deal : DealSubscription :=
  mkSubscription 0 0 0 (10 * TICK_SIZE) (10 * TICK_SIZE) 0 0 0.
Definition sample_state : DealChainState := {|
  cs_funded := true; cs_opened := true; cs_probe_accepted := false; cs_disputed := false; cs_deposit := 100;
  cs_finalized_owed := 0; cs_tokens_final := 0; cs_tokens_pending := 0; cs_probe_tick := 0;
  cs_funded_time := Some 1; cs_probe_time := 0; cs_last_claim_time := 0; cs_dispute_time := 0 |}.
Definition nf (c : CapCall) : CapacityFaults * CapCall := (no_capacity_faults, c).
Definition sample_empty : Manager (Bytes := DurableCapacityRecord) := fresh_manager (in_deals_dir "/deals") ∅.
(** The deal is registered; a request reserves 5000 tokens and delivers ten. *)
Definition sample_opening : list (CapacityFaults * CapCall) :=
  [nf (CReconcile sample_tc sample_state sample_deal); nf (CReserve sample_tc 5000 false)].
Definition sample_calls : list (CapacityFaults * CapCall) := sample_opening ++ [nf (CRecordDelivered 0 10)].
Definition sample_m : Manager := sample_run sample_calls sample_empty.

Definition sample_rest : list (CapacityFaults * CapCall) := [nf (CRecordDelivered 0 2000); nf (CFinishExact 0)].

(** ** Reaching a manager along a run *)

Fixpoint no_half (calls : list (CapacityFaults * CapCall)) (m : Manager) : bool :=
  match calls with
  | [] => true
  | (ft, c) :: calls =>
      let '(rep, m') := sample_step ft c m in
      match c, rep with CRecordDelivered _ _, None => false | _, _ => no_half calls m' end
  end.
Lemma cap_run_reached clean calls m :
  sample_reached clean m → Forall (λ fc, call_typed fc.2) calls → no_half calls m = true → sample_reached clean (sample_run calls m).
Proof.
  revert m. induction calls as [|[ft c] calls IH]; intros m Hm Hc Hh; [done|]. apply Forall_cons in Hc as [Hc Hcalls].
  cbn in Hc, Hh. unfold sample_run. cbn [cap_run]. unfold sample_step in Hh.
  destruct (cap_step _ _ _ ft c m) as [rep m'] eqn:Hstep.
  assert (no_half calls m' = true ∧ ¬ half_counted c rep) as [Hh' Hhalf]
    by (split; [by destruct c, rep|intros Hx; by destruct c, rep]).
  apply IH; [|done|done]. by eapply reached_step.
Qed.
Lemma sample_typed : Forall (λ fc, call_typed fc.2) sample_calls.
Proof. repeat constructor; cbn; try lia; vm_compute; discriminate. Qed.
Lemma sample_m_reached clean : sample_reached clean sample_m.
Proof. apply cap_run_reached; [apply reached_start|apply sample_typed|vm_compute; reflexivity]. Qed.
Lemma sample_rest_typed : Forall (λ fc, call_typed fc.2 ∧ is_restart fc.2 = false) sample_rest.
Proof. repeat constructor; cbn; lia || vm_compute; discriminate. Qed.

(** ** What becomes of the tokens that wait for a write *)

(** A second reservation while ten delivered tokens wait: they are never applied, and stay
    reserved although both requests are finished. *)
Example waiting_tokens_are_forgotten :
  let calls := sample_calls ++ [nf (CReserve sample_tc 5 false); nf (CFinishExact 0); nf (CFinishExact 1)] in
  let m := sample_run calls sample_empty in
  run_reported (λ r, r) (λ _, false) sample_from_slice 0 calls sample_empty = 0
  ∧ option_map rr_finished (mg_requests m !! 0%nat) = Some true
  ∧ option_map rr_finished (mg_requests m !! 1%nat) = Some true
  ∧ option_map (λ e, (entry_delivery e, dr_outstanding_reservation (es_record e), es_unpersisted_delivered e)) (mg_heap m !! 0%nat)
    = Some (0, 10, 0).
Proof. vm_compute. done. Qed.

(** A write that fails after the tokens were counted: the request does not lose them, so a
    retry counts them twice. *)
Example failed_count_is_repeated :
  let failing := {| cf_load := None; cf_flush := Some (BeforePublish f["disk full"]); cf_persist := None; cf_remove := None |} in
  let calls := sample_opening ++ [(failing, CRecordDelivered 0 2000); nf (CRecordDelivered 0 2000)] in
  let m := sample_run calls sample_empty in
  option_map rr_remaining (mg_requests m !! 0%nat) = Some 3000
  ∧ option_map entry_delivery (mg_heap m !! 0%nat) = Some 4000.
Proof. vm_compute. done. Qed.

(** ** Witnesses *)

Lemma capacity_never_oversold_witness :
  ∃ answer, snapshot sample_tc sample_m = Ok answer ∧
    ∀ s, answer = Some s → ∃ sum, committed s = Ok sum ∧
      0 ≤ sum ≤ sp_authoritative_cap s ∧ sp_authoritative_cap s ≤ sp_funded_tokens s ∧
      available s = Ok (sp_authoritative_cap s - sum).
Proof.
  exact (capacity_never_oversold (λ r, r) (λ _, false) sample_from_slice true sample_m sample_tc
           sample_codec_typed (sample_m_reached true)).
Defined.

Definition sample_entry : CapacityEntryState := {|
  es_path := Some (capacity_path "/deals/seller-capacity" sample_tc);
  es_record := {| dr_version := 1; dr_token_contract := sample_tc; dr_funded_tokens := 10000000; dr_authoritative_cap := 1000000;
    dr_tokens_pending_anchor := 0; dr_local_delivered_after_anchor := 0; dr_outstanding_reservation := 5000;
    dr_shared_requests := 0; dr_probe_delivery_at_decision := None |};
  es_terminal := false; es_probe_accepted := false; es_unpersisted_delivered := 10; es_active_shared_requests := 0 |}.
Definition sample_request : RequestReservation :=
  {| rr_entry := 0; rr_initial := 5000; rr_remaining := 4990; rr_finished := false; rr_shared := false |}.
Lemma sample_entry_there : mg_heap sample_m !! 0%nat = Some sample_entry.
Proof. vm_compute. reflexivity. Qed.
Lemma sample_request_there : mg_requests sample_m !! 0%nat = Some sample_request.
Proof. vm_compute. reflexivity. Qed.

Lemma delivery_is_what_calls_report_witness :
  ∃ e', mg_heap (sample_run sample_rest sample_m) !! 0%nat = Some e' ∧
        0 + 2010 ≤ entry_delivery e' ∧ (true = true → entry_delivery e' = 0 + 2010).
Proof.
  assert (run_reported (λ r, r) (λ _, false) sample_from_slice 0 sample_rest sample_m = 2010) as Hrep by (vm_compute; reflexivity).
  assert (all_reported (λ r, r) (λ _, false) sample_from_slice sample_rest sample_m = true) as Hall by (vm_compute; reflexivity).
  pose proof (delivery_is_what_calls_report (λ r, r) (λ _, false) sample_from_slice true sample_m sample_rest 0 sample_entry
           sample_codec_typed (sample_m_reached true) sample_rest_typed sample_entry_there) as H.
  rewrite Hrep, Hall in H. exact H.
Defined.

Lemma reservation_can_be_released_witness :
  ∃ m', sample_step no_capacity_faults (CFinishExact 0) sample_m = (Some 10, m') ∧
    mg_requests m' !! 0%nat = Some (set_finished sample_request) ∧
    mg_heap m' = <[0%nat := on_record (deliver 0 4990) (flush_entry sample_entry)]> (mg_heap sample_m).
Proof.
  exact (reservation_can_be_released (λ r, r) (λ _, false) sample_from_slice sample_m 0 sample_request sample_entry
           sample_codec_typed (sample_m_reached true) sample_request_there eq_refl eq_refl sample_entry_there eq_refl).
Defined.

(** A manager in which one shared request is open. *)
Definition shared_calls : list (CapacityFaults * CapCall) :=
  [nf (CReconcile sample_tc sample_state sample_deal); nf (CAdmitShared sample_tc 700 4)].
Definition shared_m : Manager := sample_run shared_calls sample_empty.
Lemma shared_m_reached : sample_reached true shared_m.
Proof.
  apply cap_run_reached; [apply reached_start| |vm_compute; reflexivity].
  repeat constructor; cbn; try lia; vm_compute; discriminate.
Qed.
Definition shared_entry : CapacityEntryState := {|
  es_path := Some (capacity_path "/deals/seller-capacity" sample_tc);
  es_record := {| dr_version := 1; dr_token_contract := sample_tc; dr_funded_tokens := 10000000; dr_authoritative_cap := 1000000;
    dr_tokens_pending_anchor := 0; dr_local_delivered_after_anchor := 0; dr_outstanding_reservation := 0;
    dr_shared_requests := 0; dr_probe_delivery_at_decision := None |};
  es_terminal := false; es_probe_accepted := false; es_unpersisted_delivered := 0; es_active_shared_requests := 1 |}.
Lemma shared_entry_there : mg_heap shared_m !! 0%nat = Some shared_entry.
Proof. vm_compute. reflexivity. Qed.
Lemma shared_excludes_exclusive_witness :
  1 = slots 0 (mg_requests shared_m) ∧ (0 < slots 0 (mg_requests shared_m) → 0 = 0 ∧ (true = true → held 0 (mg_requests shared_m) = 0)).
Proof.
  exact (shared_excludes_exclusive (λ r, r) (λ _, false) sample_from_slice true shared_m 0 shared_entry
           sample_codec_typed shared_m_reached shared_entry_there).
Defined.

(** The request finishes with 7 tokens; then the process dies. *)
Definition crash_m : Manager := sample_run sample_opening sample_empty.
Definition crash_entry_before : CapacityEntryState := set_unpersisted 0 sample_entry.
Definition crash_m' : Manager := (sample_step no_capacity_faults (CFinishWithDelivery 0 7) crash_m).2.
Definition crash_entry : CapacityEntryState := on_record (deliver 7 5000) crash_entry_before.
Definition crash_snapshot : CapacitySnapshot := {|
  sp_funded_tokens := 10000000; sp_authoritative_cap := 1000000; sp_tokens_pending_anchor := 0;
  sp_local_delivered_after_anchor := 7; sp_outstanding_reservation := 0 |}.
Lemma crash_entry_ok : record_ok (es_record crash_entry).
Proof. by constructor; vm_compute. Qed.
Lemma reported_tokens_survive_a_crash_witness :
  (reconcile_deal (λ r, r) (λ _, false) sample_from_slice no_capacity_faults sample_tc sample_state sample_deal (restart crash_m')).1
  = Ok (Some crash_snapshot).
Proof.
  apply (reported_tokens_survive_a_crash (λ r, r) (λ _, false) sample_from_slice no_capacity_faults (CFinishWithDelivery 0 7) 0
           (granted 0 5000 false) crash_entry_before 7 crash_m crash_m' sample_tc 0 crash_entry sample_state sample_deal
           crash_snapshot "/deals/seller-capacity"); try reflexivity; try apply crash_entry_ok; try done; vm_compute; reflexivity.
Defined.
