(* ===== verification/UsageData.v ===== *)
(** * The buyer's usage history: its tables

    crates/dexdo/src/buyer/usage.rs keeps the requests of a buyer and the SHELL its deals
    cost in a SQLite file; crates/dexdo-proto/src/lib.rs validates the billing record of a
    call.  Every statement restricts to the store's own network, so the model is the rows
    of one network: a table is a finite map from the rest of its primary key, a row a
    record of its columns.  A TEXT column that holds an unsigned figure is kept as the
    figure: it is only ever written as [n.to_string()] and read by [parse], which
    [parse_uint_to_string] shows to be inverse.  The one current purchase and its journal
    keep their texts, because the code compares those. *)
From S2P Require Import Prelude RustText Params.

(** ** Billing records *)

Record BillingUsage : Type := {
  bu_input_tokens : Z;
  bu_output_tokens : Z;
  bu_total_tokens : Z;
  bu_charged_tokens : option Z;
  bu_cache_read_tokens : Z;
  bu_cache_write_tokens : Z;
}.
#[export] Instance BillingUsage_eq_dec : EqDecision BillingUsage.
Proof. solve_decision. Defined.

Definition BillingUsage_new (input_tokens output_tokens : Z) (declared_total : option Z)
    : Result text BillingUsage :=
  let? total_tokens := ok_or (checked_add u64 input_tokens output_tokens)
    f["billing usage input + output overflows u64"] in
  if match declared_total with Some declared => negb (declared =? total_tokens) | None => false end then
    Err f["billing usage total does not equal input + output"]
  else Ok {|
    bu_input_tokens := input_tokens; bu_output_tokens := output_tokens; bu_total_tokens := total_tokens;
    bu_charged_tokens := None; bu_cache_read_tokens := 0; bu_cache_write_tokens := 0 |}.

Definition non_cached_tokens (u : BillingUsage) : Z :=
  saturating_sub (saturating_sub (bu_total_tokens u) (bu_cache_read_tokens u)) (bu_cache_write_tokens u).
Definition billable_tokens (u : BillingUsage) : Z :=
  unwrap_or (non_cached_tokens u) (bu_charged_tokens u).

Definition BillingUsage_validate (u : BillingUsage) : Result text () :=
  let? _ := BillingUsage_new (bu_input_tokens u) (bu_output_tokens u) (Some (bu_total_tokens u)) in
  let? cached := ok_or (checked_add u64 (bu_cache_read_tokens u) (bu_cache_write_tokens u))
    f["cache token counts overflow u64"] in
  if cached >? bu_input_tokens u then Err f["cache tokens exceed provider input usage"]
  else if match bu_charged_tokens u with Some charged => charged >? non_cached_tokens u | None => false end then
    Err f["charged tokens exceed non-cached provider usage"]
  else Ok ().

(** ** Rows *)

(** A row of [requests]; the key is the request id. *)
Record RequestRow : Type := {
  rq_runtime_id : string;
  rq_model : string;
  rq_protocol : string;
  rq_streamed : bool;
  rq_deal_id : option string;
  rq_started_at : Z;
  rq_finished_at : option Z;
  rq_outcome : string;
  rq_http_status : option Z;
  rq_finish_reason : option string;
  rq_failure_stage : option string;
  rq_history_complete : bool;
}.

(** A row of [request_usage].  The key is the request id, then the phase and the call id;
    the table is the map from a request to the rows of its calls. *)
Record UsageRow : Type := {
  us_input_tokens : Z;
  us_output_tokens : Z;
  us_total_tokens : Z;
  us_charged_tokens : Z;
  us_accepted : bool;
  us_cache_read_tokens : Z;
  us_cache_write_tokens : Z;
  us_accepted_at : option Z;
  us_deal_id : option string;
}.

(** A row of [deals]; the key is the deal id. *)
Record DealRow : Type := {
  dl_model : string;
  dl_registered_at : Z;
  dl_closed_at : option Z;
  dl_status : string;
  dl_incomplete_reason : option string;
  dl_operations_complete : bool;
  dl_operations_reason : option string;
}.

(** A row of [money_facts]; the key is the source id. *)
Inductive FactKind : Type := KSettlement | KAccrual | KOperational.
#[export] Instance FactKind_eq_dec : EqDecision FactKind.
Proof. solve_decision. Defined.
Record FactRow : Type := {
  fa_kind : FactKind;
  fa_deal_id : option string;
  fa_model : option string;
  fa_occurred_at : Z;
  fa_recorded_at : Z;
  fa_escrow_raw : option Z;
  fa_buyer_bond_raw : option Z;
  fa_buyer_credit_raw : option Z;
  fa_spent_raw : option Z;
  fa_consumption_raw : Z;
  fa_commission_raw : Z;
  fa_burns_raw : Z;
  fa_unused_capacity_raw : Z;
  fa_probe_consumption_tokens : option Z;
}.

(** The one row of [deal_quota] a network has, and a row of [note_operations]. *)
Record QuotaRow : Type := { qr_deal_id : string; qr_filled_ticks : string; qr_price_raw : string; qr_closed : bool }.
Record NoteRow : Type := { no_complete : bool; no_reason : option string; no_registered_at : Z }.

(** A row of [admission_models]: non-cached input, output, cache reads, cache writes and
    incomplete requests. *)
Record ModelTotals : Type := {
  mt_input : Z; mt_output : Z; mt_cache_read : Z; mt_cache_write : Z; mt_incomplete : Z;
}.
#[export] Instance ModelTotals_eq_dec : EqDecision ModelTotals.
Proof. solve_decision. Defined.
Definition no_totals : ModelTotals := {|
  mt_input := 0; mt_output := 0; mt_cache_read := 0; mt_cache_write := 0; mt_incomplete := 0 |}.

Definition call_key : Type := string * string.

Record UsageDb : Type := {
  db_requests : gmap string RequestRow;
  db_request_usage : gmap string (gmap call_key UsageRow);
  db_deals : gmap string DealRow;
  db_money_facts : gmap string FactRow;
  db_deal_quota : option QuotaRow;
  db_deal_prices : gmap string Z;
  db_note_operations : gmap string NoteRow;
  db_admission_models : gmap string ModelTotals;
  db_admission_deals : gmap string Z;
  db_facts_revision : Z;
}.

Definition empty_db : UsageDb := {|
  db_requests := ∅; db_request_usage := ∅; db_deals := ∅; db_money_facts := ∅; db_deal_quota := None;
  db_deal_prices := ∅; db_note_operations := ∅; db_admission_models := ∅; db_admission_deals := ∅;
  db_facts_revision := 0 |}.

(** ** Writing a column or a table *)

Definition set_rq_streamed (v : bool) (r : RequestRow) : RequestRow :=
  {| rq_runtime_id := rq_runtime_id r; rq_model := rq_model r; rq_protocol := rq_protocol r; rq_streamed :=
     v; rq_deal_id := rq_deal_id r; rq_started_at := rq_started_at r; rq_finished_at := rq_finished_at r;
     rq_outcome := rq_outcome r; rq_http_status := rq_http_status r; rq_finish_reason := rq_finish_reason r;
     rq_failure_stage := rq_failure_stage r; rq_history_complete := rq_history_complete r |}.
Definition set_rq_deal_id (v : option string) (r : RequestRow) : RequestRow :=
  {| rq_runtime_id := rq_runtime_id r; rq_model := rq_model r; rq_protocol := rq_protocol r; rq_streamed :=
     rq_streamed r; rq_deal_id := v; rq_started_at := rq_started_at r; rq_finished_at := rq_finished_at r;
     rq_outcome := rq_outcome r; rq_http_status := rq_http_status r; rq_finish_reason := rq_finish_reason r;
     rq_failure_stage := rq_failure_stage r; rq_history_complete := rq_history_complete r |}.
Definition set_rq_history_complete (v : bool) (r : RequestRow) : RequestRow :=
  {| rq_runtime_id := rq_runtime_id r; rq_model := rq_model r; rq_protocol := rq_protocol r; rq_streamed :=
     rq_streamed r; rq_deal_id := rq_deal_id r; rq_started_at := rq_started_at r; rq_finished_at :=
     rq_finished_at r; rq_outcome := rq_outcome r; rq_http_status := rq_http_status r; rq_finish_reason :=
     rq_finish_reason r; rq_failure_stage := rq_failure_stage r; rq_history_complete := v |}.
Definition set_us_accepted (v : bool) (r : UsageRow) : UsageRow :=
  {| us_input_tokens := us_input_tokens r; us_output_tokens := us_output_tokens r; us_total_tokens :=
     us_total_tokens r; us_charged_tokens := us_charged_tokens r; us_accepted := v; us_cache_read_tokens :=
     us_cache_read_tokens r; us_cache_write_tokens := us_cache_write_tokens r; us_accepted_at :=
     us_accepted_at r; us_deal_id := us_deal_id r |}.
Definition set_us_accepted_at (v : option Z) (r : UsageRow) : UsageRow :=
  {| us_input_tokens := us_input_tokens r; us_output_tokens := us_output_tokens r; us_total_tokens :=
     us_total_tokens r; us_charged_tokens := us_charged_tokens r; us_accepted := us_accepted r;
     us_cache_read_tokens := us_cache_read_tokens r; us_cache_write_tokens := us_cache_write_tokens r;
     us_accepted_at := v; us_deal_id := us_deal_id r |}.
Definition set_us_deal_id (v : option string) (r : UsageRow) : UsageRow :=
  {| us_input_tokens := us_input_tokens r; us_output_tokens := us_output_tokens r; us_total_tokens :=
     us_total_tokens r; us_charged_tokens := us_charged_tokens r; us_accepted := us_accepted r;
     us_cache_read_tokens := us_cache_read_tokens r; us_cache_write_tokens := us_cache_write_tokens r;
     us_accepted_at := us_accepted_at r; us_deal_id := v |}.
Definition set_fa_model (v : option string) (r : FactRow) : FactRow :=
  {| fa_kind := fa_kind r; fa_deal_id := fa_deal_id r; fa_model := v; fa_occurred_at := fa_occurred_at r;
     fa_recorded_at := fa_recorded_at r; fa_escrow_raw := fa_escrow_raw r; fa_buyer_bond_raw :=
     fa_buyer_bond_raw r; fa_buyer_credit_raw := fa_buyer_credit_raw r; fa_spent_raw := fa_spent_raw r;
     fa_consumption_raw := fa_consumption_raw r; fa_commission_raw := fa_commission_raw r; fa_burns_raw :=
     fa_burns_raw r; fa_unused_capacity_raw := fa_unused_capacity_raw r; fa_probe_consumption_tokens :=
     fa_probe_consumption_tokens r |}.
Definition set_fa_recorded_at (v : Z) (r : FactRow) : FactRow :=
  {| fa_kind := fa_kind r; fa_deal_id := fa_deal_id r; fa_model := fa_model r; fa_occurred_at :=
     fa_occurred_at r; fa_recorded_at := v; fa_escrow_raw := fa_escrow_raw r; fa_buyer_bond_raw :=
     fa_buyer_bond_raw r; fa_buyer_credit_raw := fa_buyer_credit_raw r; fa_spent_raw := fa_spent_raw r;
     fa_consumption_raw := fa_consumption_raw r; fa_commission_raw := fa_commission_raw r; fa_burns_raw :=
     fa_burns_raw r; fa_unused_capacity_raw := fa_unused_capacity_raw r; fa_probe_consumption_tokens :=
     fa_probe_consumption_tokens r |}.
Definition set_fa_buyer_credit_raw (v : option Z) (r : FactRow) : FactRow :=
  {| fa_kind := fa_kind r; fa_deal_id := fa_deal_id r; fa_model := fa_model r; fa_occurred_at :=
     fa_occurred_at r; fa_recorded_at := fa_recorded_at r; fa_escrow_raw := fa_escrow_raw r;
     fa_buyer_bond_raw := fa_buyer_bond_raw r; fa_buyer_credit_raw := v; fa_spent_raw := fa_spent_raw r;
     fa_consumption_raw := fa_consumption_raw r; fa_commission_raw := fa_commission_raw r; fa_burns_raw :=
     fa_burns_raw r; fa_unused_capacity_raw := fa_unused_capacity_raw r; fa_probe_consumption_tokens :=
     fa_probe_consumption_tokens r |}.
Definition set_fa_spent_raw (v : option Z) (r : FactRow) : FactRow :=
  {| fa_kind := fa_kind r; fa_deal_id := fa_deal_id r; fa_model := fa_model r; fa_occurred_at :=
     fa_occurred_at r; fa_recorded_at := fa_recorded_at r; fa_escrow_raw := fa_escrow_raw r;
     fa_buyer_bond_raw := fa_buyer_bond_raw r; fa_buyer_credit_raw := fa_buyer_credit_raw r; fa_spent_raw :=
     v; fa_consumption_raw := fa_consumption_raw r; fa_commission_raw := fa_commission_raw r; fa_burns_raw
     := fa_burns_raw r; fa_unused_capacity_raw := fa_unused_capacity_raw r; fa_probe_consumption_tokens :=
     fa_probe_consumption_tokens r |}.
Definition set_db_requests (v : gmap string RequestRow) (r : UsageDb) : UsageDb :=
  {| db_requests := v; db_request_usage := db_request_usage r; db_deals := db_deals r; db_money_facts :=
     db_money_facts r; db_deal_quota := db_deal_quota r; db_deal_prices := db_deal_prices r;
     db_note_operations := db_note_operations r; db_admission_models := db_admission_models r;
     db_admission_deals := db_admission_deals r; db_facts_revision := db_facts_revision r |}.
Definition set_db_request_usage (v : gmap string (gmap call_key UsageRow)) (r : UsageDb) : UsageDb :=
  {| db_requests := db_requests r; db_request_usage := v; db_deals := db_deals r; db_money_facts :=
     db_money_facts r; db_deal_quota := db_deal_quota r; db_deal_prices := db_deal_prices r;
     db_note_operations := db_note_operations r; db_admission_models := db_admission_models r;
     db_admission_deals := db_admission_deals r; db_facts_revision := db_facts_revision r |}.
Definition set_db_deals (v : gmap string DealRow) (r : UsageDb) : UsageDb :=
  {| db_requests := db_requests r; db_request_usage := db_request_usage r; db_deals := v; db_money_facts :=
     db_money_facts r; db_deal_quota := db_deal_quota r; db_deal_prices := db_deal_prices r;
     db_note_operations := db_note_operations r; db_admission_models := db_admission_models r;
     db_admission_deals := db_admission_deals r; db_facts_revision := db_facts_revision r |}.
Definition set_db_money_facts (v : gmap string FactRow) (r : UsageDb) : UsageDb :=
  {| db_requests := db_requests r; db_request_usage := db_request_usage r; db_deals := db_deals r;
     db_money_facts := v; db_deal_quota := db_deal_quota r; db_deal_prices := db_deal_prices r;
     db_note_operations := db_note_operations r; db_admission_models := db_admission_models r;
     db_admission_deals := db_admission_deals r; db_facts_revision := db_facts_revision r |}.
Definition set_db_deal_quota (v : option QuotaRow) (r : UsageDb) : UsageDb :=
  {| db_requests := db_requests r; db_request_usage := db_request_usage r; db_deals := db_deals r;
     db_money_facts := db_money_facts r; db_deal_quota := v; db_deal_prices := db_deal_prices r;
     db_note_operations := db_note_operations r; db_admission_models := db_admission_models r;
     db_admission_deals := db_admission_deals r; db_facts_revision := db_facts_revision r |}.
Definition set_db_deal_prices (v : gmap string Z) (r : UsageDb) : UsageDb :=
  {| db_requests := db_requests r; db_request_usage := db_request_usage r; db_deals := db_deals r;
     db_money_facts := db_money_facts r; db_deal_quota := db_deal_quota r; db_deal_prices := v;
     db_note_operations := db_note_operations r; db_admission_models := db_admission_models r;
     db_admission_deals := db_admission_deals r; db_facts_revision := db_facts_revision r |}.
Definition set_db_note_operations (v : gmap string NoteRow) (r : UsageDb) : UsageDb :=
  {| db_requests := db_requests r; db_request_usage := db_request_usage r; db_deals := db_deals r;
     db_money_facts := db_money_facts r; db_deal_quota := db_deal_quota r; db_deal_prices := db_deal_prices
     r; db_note_operations := v; db_admission_models := db_admission_models r; db_admission_deals :=
     db_admission_deals r; db_facts_revision := db_facts_revision r |}.
Definition set_db_admission_models (v : gmap string ModelTotals) (r : UsageDb) : UsageDb :=
  {| db_requests := db_requests r; db_request_usage := db_request_usage r; db_deals := db_deals r;
     db_money_facts := db_money_facts r; db_deal_quota := db_deal_quota r; db_deal_prices := db_deal_prices
     r; db_note_operations := db_note_operations r; db_admission_models := v; db_admission_deals :=
     db_admission_deals r; db_facts_revision := db_facts_revision r |}.
Definition set_db_admission_deals (v : gmap string Z) (r : UsageDb) : UsageDb :=
  {| db_requests := db_requests r; db_request_usage := db_request_usage r; db_deals := db_deals r;
     db_money_facts := db_money_facts r; db_deal_quota := db_deal_quota r; db_deal_prices := db_deal_prices
     r; db_note_operations := db_note_operations r; db_admission_models := db_admission_models r;
     db_admission_deals := v; db_facts_revision := db_facts_revision r |}.
Definition set_db_facts_revision (v : Z) (r : UsageDb) : UsageDb :=
  {| db_requests := db_requests r; db_request_usage := db_request_usage r; db_deals := db_deals r;
     db_money_facts := db_money_facts r; db_deal_quota := db_deal_quota r; db_deal_prices := db_deal_prices
     r; db_note_operations := db_note_operations r; db_admission_models := db_admission_models r;
     db_admission_deals := db_admission_deals r; db_facts_revision := v |}.
