(* ===== verification/Meter.v ===== *)
(** * The billing record of a provider's response

    crates/dexdo/src/seller/upstream/meter.rs.  A meter that refuses an event is dropped with
    its stream, so an observation is a function from the meter to a refusal or the meter after. *)
From S2P Require Import Prelude RustText ApiFormat UsageData.

(** A gRPC status: its code, its message, and whether it carries the retry tag of
    crates/dexdo-proto/src/lib.rs. *)
Inductive Code : Type :=
  DataLoss | FailedPrecondition | Unavailable | DeadlineExceeded | ResourceExhausted | InvalidArgument | Unauthenticated | PermissionDenied | Aborted.
Record Status : Type := { st_code : Code; st_message : text; st_retryable : bool }.
Definition status (code : Code) (message : text) : Status := {| st_code := code; st_message := message; st_retryable := false |}.
Definition data_loss : text → Status := status DataLoss.
Definition retryable_upstream_status (s : Status) : Status :=
  {| st_code := st_code s; st_message := st_message s; st_retryable := true |}.

Abbreviation Metered := (Result Status).

(** ** Reading counts *)

Definition token (object : JsonMap) (field : string) : Metered Z :=
  ok_or (let* v := assoc field object in as_u64 v)
    (data_loss f["provider usage."; field; " is missing or is not a token count"]).
Definition optional_count (container : Value) (field : string) : Metered (option Z) :=
  match get field container with
  | None => Ok None
  | Some value => rmap Some (ok_or (as_u64 value) (data_loss f["provider usage "; field; " is not a token count"]))
  end.
Definition option_or {A} (a b : option A) : option A := match a with Some _ => a | None => b end.
Definition matching_count (first second : option Z) : Metered (option Z) :=
  match first, second with
  | Some a, Some b => if negb (a =? b) then Err (data_loss f["provider cache counters disagree"]) else Ok first
  | _, _ => Ok (option_or first second)
  end.

Definition input_cache_counts (container : Value) (details : string) : Metered (option Z * option Z) :=
  let? read := optional_count container "prompt_cache_hit_tokens" in
  match non_null (get details container) with
  | None => Ok (read, None)
  | Some details =>
      if negb (is_object details) then Err (data_loss f["provider input token details is not an object"]) else
      let? cached := optional_count details "cached_tokens" in
      let? cache_read := optional_count details "cache_read_tokens" in
      let? stated := matching_count cached cache_read in
      let? read := matching_count read stated in
      let? cache_write := optional_count details "cache_write_tokens" in
      let? creation := optional_count details "cache_creation_tokens" in
      let? write := matching_count cache_write creation in
      Ok (read, write)
  end.
Definition check_cache_miss (container : Value) (usage : BillingUsage) : Metered () :=
  let? miss := optional_count container "prompt_cache_miss_tokens" in
  match miss with
  | Some miss =>
      if negb (miss =? bu_input_tokens usage - bu_cache_read_tokens usage)
      then Err (data_loss f["provider cache hit/miss counts disagree with input"]) else Ok ()
  | None => Ok ()
  end.

Definition with_cache (read write : Z) (u : BillingUsage) : BillingUsage := {|
  bu_input_tokens := bu_input_tokens u; bu_output_tokens := bu_output_tokens u; bu_total_tokens := bu_total_tokens u;
  bu_charged_tokens := bu_charged_tokens u; bu_cache_read_tokens := read; bu_cache_write_tokens := write |}.
Definition has_key (field : string) (object : JsonMap) : bool := match assoc field object with Some _ => true | None => false end.

(** A record of total input and output, with the cache counts of its details. *)
Definition stated_usage (container : Value) (object : JsonMap) (input output details : string) : Metered BillingUsage :=
  let? declared_total := match assoc "total_tokens"%string object with
                         | Some _ => rmap Some (token object "total_tokens") | None => Ok None end in
  let? input := token object input in
  let? output := token object output in
  let? usage := map_err data_loss (BillingUsage_new input output declared_total) in
  let? '(read, write) := input_cache_counts container details in
  let usage := with_cache (unwrap_or 0 read) (unwrap_or 0 write) usage in
  map_err data_loss (BillingUsage_validate usage) ;?
  check_cache_miss container usage ;?
  Ok usage.

Definition chat_usage (container : option Value) : Metered (option BillingUsage) :=
  match non_null container with
  | None => Ok None
  | Some container =>
      let? object := ok_or (as_object container) (data_loss f["provider usage is not an object"]) in
      if negb (existsb (λ field, has_key field object) ["prompt_tokens"; "completion_tokens"; "total_tokens"]%string) then
        let? '(read, write) := input_cache_counts container "prompt_tokens_details" in
        if bool_decide (is_Some read) || bool_decide (is_Some write)
           || bool_decide (is_Some (get "prompt_cache_miss_tokens" container))
        then Err (data_loss f["provider cache usage is missing input/output totals"]) else Ok None
      else rmap Some (stated_usage container object "prompt_tokens" "completion_tokens" "prompt_tokens_details")
  end.

Definition chat_frame_usage (value : Value) : Metered (option BillingUsage) :=
  let? standard := chat_usage (get "usage" value) in
  let? groq := chat_usage (let* groq := get "x_groq" value in get "usage" groq) in
  match standard, groq with
  | Some standard, Some groq =>
      if negb ((bu_input_tokens standard =? bu_input_tokens groq) && (bu_output_tokens standard =? bu_output_tokens groq)
               && (bu_total_tokens standard =? bu_total_tokens groq))
      then Err (data_loss f["provider usage totals disagree"]) else
      let own := index "usage" value in
      let mirror := index "usage" (index "x_groq" value) in
      let? '(read, write) := input_cache_counts own "prompt_tokens_details" in
      let? '(mirror_read, mirror_write) := input_cache_counts mirror "prompt_tokens_details" in
      let? read := matching_count read mirror_read in
      let? write := matching_count write mirror_write in
      let usage := with_cache (unwrap_or 0 read) (unwrap_or 0 write) standard in
      map_err data_loss (BillingUsage_validate usage) ;?
      check_cache_miss own usage ;?
      check_cache_miss mirror usage ;?
      Ok (Some usage)
  | Some usage, None | None, Some usage => Ok (Some usage)
  | None, None => Ok None
  end.

Definition responses_usage (container : option Value) : Metered (option BillingUsage) :=
  match non_null container with
  | None => Ok None
  | Some container =>
      let? object := ok_or (as_object container) (data_loss f["provider usage is not an object"]) in
      rmap Some (stated_usage container object "input_tokens" "output_tokens" "input_tokens_details")
  end.

Definition aggregate_verdict (usage : option BillingUsage) (saw_output : bool) : Metered (option BillingUsage) :=
  if negb saw_output then
    let? usage := ok_or usage (data_loss f["provider response ended without terminal billing usage"]) in
    if negb (bu_total_tokens usage =? 0)
    then Err (data_loss f["provider usage reports billable tokens without delivered output"]) else Ok None
  else
    rmap Some (ok_or (let* usage := usage in if bu_output_tokens usage >? 0 then Some usage else None)
                 (data_loss f["provider output ended without positive terminal output usage"])).

(** ** Anthropic Messages *)

Record MessagesCounts : Type := { mc_input : option Z; mc_output : option Z; mc_cache_read : option Z; mc_cache_write : option Z }.

Definition cache_creation_entry (total : option Z) (entry : string * Value) : Metered (option Z) :=
  let '(field, value) := entry in
  if negb (starts_with "ephemeral_" field) || negb (ends_with "_input_tokens" field) then Ok total else
  let? count := ok_or (as_u64 value) (data_loss f["Anthropic cache creation is not a token count"]) in
  rmap Some (ok_or (checked_add u64 (unwrap_or 0 total) count) (data_loss f["Anthropic cache creation overflows u64"])).
Fixpoint cache_creation_total (total : option Z) (entries : JsonMap) : Metered (option Z) :=
  match entries with
  | [] => Ok total
  | entry :: entries => let? total := cache_creation_entry total entry in cache_creation_total total entries
  end.
Definition messages_counts (usage : option Value) : Metered MessagesCounts :=
  match non_null usage with
  | None => Ok {| mc_input := None; mc_output := None; mc_cache_read := None; mc_cache_write := None |}
  | Some usage =>
      if negb (is_object usage) then Err (data_loss f["Anthropic usage is not an object"]) else
      let optional := λ field, match get field usage with Some Null => Ok None | _ => optional_count usage field end in
      let? creation := optional "cache_creation_input_tokens"%string in
      let? cache_write := match non_null (get "cache_creation" usage) with
                          | None => Ok creation
                          | Some details =>
                              let? object := ok_or (as_object details) (data_loss f["Anthropic cache_creation is not an object"]) in
                              let? total := cache_creation_total None object in
                              matching_count creation total
                          end in
      let? input := optional "input_tokens"%string in
      let? output := optional_count usage "output_tokens" in
      let? cache_read := optional "cache_read_input_tokens"%string in
      Ok {| mc_input := input; mc_output := output; mc_cache_read := cache_read; mc_cache_write := cache_write |}
  end.

Definition messages_verdict (input output cache_read cache_write : Z) (saw_output : bool) : Metered (option BillingUsage) :=
  if negb saw_output then
    if negb (output =? 0) then Err (data_loss f["Anthropic usage reports output tokens without delivered output"]) else Ok None
  else if output =? 0 then Err (data_loss f["Anthropic output ended without positive output_tokens"])
  else
    let? input := ok_or (let* count := checked_add u64 input cache_read in checked_add u64 count cache_write)
                    (data_loss f["Anthropic input usage overflows u64"]) in
    let? usage := map_err data_loss (BillingUsage_new input output None) in
    let usage := with_cache cache_read cache_write usage in
    map_err data_loss (BillingUsage_validate usage) ;?
    Ok (Some usage).

Record MessagesMeter : Type := {
  mm_started : bool; mm_input : option Z; mm_output : option Z; mm_post_output : option Z;
  mm_cache_read : Z; mm_cache_write : Z;
}.
Definition MessagesMeter_default : MessagesMeter := {|
  mm_started := false; mm_input := None; mm_output := None; mm_post_output := None; mm_cache_read := 0; mm_cache_write := 0 |}.
Definition set_output (v : Z) (m : MessagesMeter) : MessagesMeter := {|
  mm_started := mm_started m; mm_input := mm_input m; mm_output := Some v; mm_post_output := mm_post_output m;
  mm_cache_read := mm_cache_read m; mm_cache_write := mm_cache_write m |}.
Definition set_post_output (v : option Z) (m : MessagesMeter) : MessagesMeter := {|
  mm_started := mm_started m; mm_input := mm_input m; mm_output := mm_output m; mm_post_output := v;
  mm_cache_read := mm_cache_read m; mm_cache_write := mm_cache_write m |}.

Definition below (count : option Z) (bound : Z) : bool := match count with Some c => c <? bound | None => false end.
Definition advance_output (output : Z) (m : MessagesMeter) : Metered MessagesMeter :=
  if match mm_output m with Some previous => output <? previous | None => false end
  then Err (data_loss f["Anthropic cumulative output_tokens decreased"]) else Ok (set_output output m).

Definition MessagesMeter_start (value : Value) (m : MessagesMeter) : Metered MessagesMeter :=
  if mm_started m then Err (data_loss f["Anthropic message_start usage repeated within one stream"]) else
  let? counts := messages_counts (let* message := get "message" value in get "usage" message) in
  let? input := ok_or (mc_input counts) (data_loss f["Anthropic initial usage is missing input_tokens"]) in
  advance_output (unwrap_or 0 (mc_output counts)) {|
    mm_started := true; mm_input := Some input; mm_output := mm_output m; mm_post_output := mm_post_output m;
    mm_cache_read := unwrap_or 0 (mc_cache_read counts); mm_cache_write := unwrap_or 0 (mc_cache_write counts) |}.
Definition MessagesMeter_delta (value : Value) (m : MessagesMeter) : Metered MessagesMeter :=
  if negb (mm_started m) then Err (data_loss f["Anthropic message_delta usage arrived before message_start usage"]) else
  let? counts := messages_counts (get "usage" value) in
  if below (mc_cache_read counts) (mm_cache_read m) || below (mc_cache_write counts) (mm_cache_write m)
  then Err (data_loss f["Anthropic cumulative cache usage decreased"])
  else if match mm_input m with Some initial => below (mc_input counts) initial | None => false end
  then Err (data_loss f["Anthropic cumulative input_tokens decreased"])
  else
    let m := {| mm_started := mm_started m; mm_input := option_or (mc_input counts) (mm_input m); mm_output := mm_output m;
                mm_post_output := mm_post_output m; mm_cache_read := unwrap_or (mm_cache_read m) (mc_cache_read counts);
                mm_cache_write := unwrap_or (mm_cache_write m) (mc_cache_write counts) |} in
    let? output := ok_or (mc_output counts) (data_loss f["Anthropic cumulative usage is missing output_tokens"]) in
    let? m := advance_output output m in
    Ok (set_post_output (Some output) m).
Definition MessagesMeter_observe (value : Value) (facts : ResponseFacts) (m : MessagesMeter) : Metered MessagesMeter :=
  let kind := type_of value in
  if String.eqb kind "message_start" then MessagesMeter_start value m
  else if String.eqb kind "message_delta" then MessagesMeter_delta value m
  else if has_output facts then
    if negb (mm_started m) then Err (data_loss f["Anthropic content arrived before message_start usage"])
    else Ok (set_post_output None m)
  else Ok m.
Definition MessagesMeter_finish (saw_output : bool) (m : MessagesMeter) : Metered (option BillingUsage) :=
  let? input := ok_or (mm_input m) (data_loss f["Anthropic output ended without initial input_tokens"]) in
  let? output := ok_or (mm_post_output m) (data_loss f["Anthropic output ended without final cumulative output_tokens"]) in
  messages_verdict input output (mm_cache_read m) (mm_cache_write m) saw_output.

(** ** The meter *)

Inductive UsageMeter : Type :=
| Aggregate (format : ApiFormat) (usage : option BillingUsage)
| MessagesOf (meter : MessagesMeter).

Definition UsageMeter_new (format : ApiFormat) : UsageMeter :=
  match format with Messages => MessagesOf MessagesMeter_default | _ => Aggregate format None end.

(** The record that an event of an aggregate format states. *)
Definition event_usage (format : ApiFormat) (value : Value) (facts : ResponseFacts) : Metered (option BillingUsage) :=
  match format with
  | Responses => if rf_done facts then responses_usage (let* r := get "response" value in get "usage" r) else Ok None
  | _ => chat_frame_usage value
  end.
Definition UsageMeter_observe (value : Value) (facts : ResponseFacts) (meter : UsageMeter) : Metered UsageMeter :=
  match meter with
  | Aggregate format usage =>
      let? reported := event_usage format value facts in
      match reported with
      | Some reported =>
          if has_output facts then
            Err (data_loss f["provider usage is attached to an output delta, not a terminal record"])
          else if match usage with Some recorded => negb (bool_decide (recorded = reported)) | None => false end then
            Err (data_loss f["provider stream reported contradictory terminal usage totals"])
          else Ok (Aggregate format (Some reported))
      | None =>
          if has_output facts && bool_decide (is_Some usage)
          then Err (data_loss f["provider output continued after the terminal usage record"])
          else Ok meter
      end
  | MessagesOf m => rmap MessagesOf (MessagesMeter_observe value facts m)
  end.
Definition UsageMeter_finish (saw_output : bool) (meter : UsageMeter) : Metered (option BillingUsage) :=
  match meter with
  | Aggregate _ usage => aggregate_verdict usage saw_output
  | MessagesOf m => MessagesMeter_finish saw_output m
  end.
Definition UsageMeter_body (format : ApiFormat) (value : Value) (facts : ResponseFacts) : Metered (option BillingUsage) :=
  let saw_output := has_output facts in
  match format with
  | ChatCompletions => let? usage := chat_frame_usage value in aggregate_verdict usage saw_output
  | Responses => let? usage := responses_usage (get "usage" value) in aggregate_verdict usage saw_output
  | Messages =>
      let? counts := messages_counts (get "usage" value) in
      let? input := ok_or (mc_input counts) (data_loss f["Anthropic usage is missing input_tokens"]) in
      let? output := ok_or (mc_output counts) (data_loss f["Anthropic usage is missing output_tokens"]) in
      messages_verdict input output (unwrap_or 0 (mc_cache_read counts)) (unwrap_or 0 (mc_cache_write counts)) saw_output
  end.
