(* ===== verification/MeterProps.v ===== *)
(** * Properties of the billing record

    A bill is a valid record with positive output, and exists exactly when output was seen; an
    aggregate stream is accepted exactly when its output comes first and its one record after
    it; a Messages bill covers every count the stream stated. *)
From S2P Require Import Prelude RustText ApiFormat UsageData Meter.

#[local] Arguments umax : simpl never.

(** ** Valid records *)

Definition usage_ok (u : BillingUsage) : Prop := BillingUsage_validate u = Ok () ∧ bu_charged_tokens u = None.

Lemma validated u : bu_charged_tokens u = None → map_err data_loss (BillingUsage_validate u) = Ok () → usage_ok u.
Proof. intros Hc Hv%map_err_Ok. done. Qed.
Lemma BillingUsage_new_charged i o d u : BillingUsage_new i o d = Ok u → bu_charged_tokens u = None ∧ bu_output_tokens u = o ∧ bu_input_tokens u = i.
Proof.
  unfold BillingUsage_new. intros (t & Ht & H)%bind_Ok. destruct (match d with Some _ => _ | None => _ end); [done|].
  by injection H as <-.
Qed.

Lemma stated_usage_ok container object input output details u :
  stated_usage container object input output details = Ok u → usage_ok u.
Proof.
  unfold stated_usage. intros (d & Hd & H)%bind_Ok. apply bind_Ok in H as (i & Hi & H). apply bind_Ok in H as (o & Ho & H).
  apply bind_Ok in H as (b & Hb%map_err_Ok%BillingUsage_new_charged & H). apply bind_Ok in H as ([read write] & Hrw & H).
  apply bind_Ok in H as ([] & Hv & H). apply bind_Ok in H as ([] & _ & [= <-]). apply validated; [apply Hb|done].
Qed.
Lemma chat_usage_ok c u : chat_usage c = Ok (Some u) → usage_ok u.
Proof.
  unfold chat_usage. destruct (non_null c) as [v|]; [|done]. intros (object & _ & H)%bind_Ok.
  destruct (negb _).
  - apply bind_Ok in H as ([read write] & _ & H). by destruct (_ || _).
  - apply rmap_Ok in H as (x & Hx & [= ->]). by eapply stated_usage_ok.
Qed.
Lemma chat_frame_usage_ok v u : chat_frame_usage v = Ok (Some u) → usage_ok u.
Proof.
  unfold chat_frame_usage. intros (s & Hs & H)%bind_Ok. apply bind_Ok in H as (g & Hg & H).
  destruct s as [s|], g as [g|]; try done; try (injection H as ->; by eapply chat_usage_ok).
  destruct (negb _); [done|]. apply bind_Ok in H as ([read write] & _ & H). apply bind_Ok in H as ([mr mw] & _ & H).
  apply bind_Ok in H as (r & _ & H). apply bind_Ok in H as (w & _ & H). apply bind_Ok in H as ([] & Hv & H).
  apply bind_Ok in H as ([] & _ & H). apply bind_Ok in H as ([] & _ & [= <-]).
  apply validated; [|done]. cbn. by apply chat_usage_ok in Hs as [_ ?].
Qed.
Lemma responses_usage_ok c u : responses_usage c = Ok (Some u) → usage_ok u.
Proof.
  unfold responses_usage. destruct (non_null c) as [v|]; [|done]. intros (object & _ & H)%bind_Ok.
  apply rmap_Ok in H as (x & Hx & [= ->]). by eapply stated_usage_ok.
Qed.
Lemma event_usage_ok format v facts u : event_usage format v facts = Ok (Some u) → usage_ok u.
Proof.
  unfold event_usage. destruct format; try apply chat_frame_usage_ok. destruct (rf_done facts); [apply responses_usage_ok|done].
Qed.

(** ** Verdicts *)

(** What a verdict may be: no bill without output, a valid bill of positive output with it. *)
Definition sound_bill (saw_output : bool) (bill : option BillingUsage) : Prop :=
  if saw_output then ∃ u, bill = Some u ∧ usage_ok u ∧ 0 < bu_output_tokens u else bill = None.

Lemma aggregate_verdict_sound usage saw bill :
  (∀ u, usage = Some u → usage_ok u) → aggregate_verdict usage saw = Ok bill → sound_bill saw bill.
Proof.
  intros Hu. unfold aggregate_verdict, sound_bill. destruct saw; cbn.
  - intros (x & Hx%ok_or_Ok & ->)%rmap_Ok. destruct usage as [u|]; [|done]. cbn in Hx.
    destruct (bu_output_tokens u >? 0) eqn:Ho; [|done]. injection Hx as <-. exists u. split_and!; [done|by apply Hu|lia].
  - intros (x & _ & H)%bind_Ok. destruct (negb _); [done|by injection H as <-].
Qed.
Lemma messages_verdict_sound i o r w saw bill :
  0 ≤ o → messages_verdict i o r w saw = Ok bill → sound_bill saw bill.
Proof.
  intros Ho. unfold messages_verdict, sound_bill. destruct saw; cbn.
  - destruct (Z.eqb_spec o 0); [done|]. intros (input & _ & H)%bind_Ok.
    apply bind_Ok in H as (u & (Hc & Hout & _)%map_err_Ok%BillingUsage_new_charged & H). apply bind_Ok in H as ([] & Hv & [= <-]).
    eexists. split; [done|]. split; [by apply validated|cbn; lia].
  - destruct (negb _); [done|]. by intros [= <-].
Qed.

(** ** The meter *)

(** The counts of a JSON number that is a [u64]. *)
Fixpoint typed_value (v : Value) : Prop :=
  match v with
  | Num (PosInt n) => in_range u64 n
  | Array l => (fix all l := match l with [] => True | v :: l => typed_value v ∧ all l end) l
  | Object m => (fix all m := match m with [] => True | (_, v) :: m => typed_value v ∧ all m end) m
  | _ => True
  end.
Lemma typed_get field v x : typed_value v → get field v = Some x → typed_value x.
Proof.
  destruct v as [| | | | |m]; try done. cbn. induction m as [|[k w] m IH]; [done|]. intros [Hw Hm]. cbn.
  destruct (String.eqb field k); [by intros [= ->]|by apply IH].
Qed.

Lemma optional_count_range v field c : typed_value v → optional_count v field = Ok (Some c) → in_range u64 c.
Proof.
  intros Hv. unfold optional_count. destruct (get field v) as [x|] eqn:Hx; [|done]. pose proof (typed_get _ _ _ Hv Hx) as Hty.
  intros (y & Hy%ok_or_Ok & [= ->])%rmap_Ok. destruct x as [| |[n| |]| | |]; try done. by injection Hy as <-.
Qed.

Definition meter_ok (meter : UsageMeter) : Prop :=
  match meter with
  | Aggregate format usage => format ≠ Messages ∧ ∀ u, usage = Some u → usage_ok u
  | MessagesOf m => ∀ o, mm_post_output m = Some o → 0 ≤ o
  end.
Lemma meter_ok_new format : meter_ok (UsageMeter_new format).
Proof. by destruct format. Qed.

Lemma messages_counts_output usage c o :
  (∀ u, usage = Some u → typed_value u) → messages_counts usage = Ok c → mc_output c = Some o → 0 ≤ o.
Proof.
  unfold messages_counts. intros Ht. unfold non_null. destruct usage as [v|]; [|by intros [= <-]]. cbn. specialize (Ht v eq_refl).
  destruct (is_null v); [by intros [= <-]|]. destruct (negb _); [done|].
  intros (creation & _ & H)%bind_Ok. apply bind_Ok in H as (cw & _ & H). apply bind_Ok in H as (i & _ & H).
  apply bind_Ok in H as (out & Ho & H). apply bind_Ok in H as (cr & _ & [= <-]). cbn. intros ->.
  by apply (optional_count_range v) in Ho as [? _].
Qed.

Lemma observe_ok value facts meter meter' :
  typed_value value → meter_ok meter → UsageMeter_observe value facts meter = Ok meter' → meter_ok meter'.
Proof.
  intros Ht Hm. destruct meter as [format usage|m]; cbn.
  - intros (reported & Hr & H)%bind_Ok. destruct reported as [u|].
    + destruct (has_output facts); [done|]. destruct (match usage with Some _ => _ | None => _ end); [done|].
      injection H as <-. split; [apply Hm|]. intros x [= <-]. by eapply event_usage_ok.
    + destruct (_ && _); [done|]. by injection H as <-.
  - intros (m' & H & ->)%rmap_Ok. cbn in *. unfold MessagesMeter_observe in H.
    destruct (String.eqb (type_of value) "message_start").
    + unfold MessagesMeter_start in H. destruct (mm_started m); [done|]. apply bind_Ok in H as (c & _ & H).
      apply bind_Ok in H as (i & _ & H). unfold advance_output in H. cbn in H. destruct (match mm_output m with Some _ => _ | None => _ end); [done|].
      injection H as <-. done.
    + destruct (String.eqb (type_of value) "message_delta").
      * unfold MessagesMeter_delta in H. destruct (negb _); [done|]. apply bind_Ok in H as (c & Hc & H).
        destruct (_ || _); [done|]. destruct (match mm_input m with Some _ => _ | None => _ end); [done|].
        apply bind_Ok in H as (out & Ho%ok_or_Ok & H). apply bind_Ok in H as (m1 & _ & [= <-]). cbn. intros o [= <-].
        eapply messages_counts_output; [|exact Hc|exact Ho]. intros u Hu. by eapply typed_get.
      * destruct (has_output facts); [destruct (negb _); [done|]|]; by injection H as <-.
Qed.

(** An event of a stream: its JSON value and what it states. *)
Fixpoint observe_all (events : list (Value * ResponseFacts)) (meter : UsageMeter) : Metered UsageMeter :=
  match events with
  | [] => Ok meter
  | (value, facts) :: events => let? meter := UsageMeter_observe value facts meter in observe_all events meter
  end.

Lemma finish_sound saw meter bill : meter_ok meter → UsageMeter_finish saw meter = Ok bill → sound_bill saw bill.
Proof.
  destruct meter as [format usage|m]; cbn; intros Hm H.
  - by eapply aggregate_verdict_sound; [apply Hm|].
  - unfold MessagesMeter_finish in H. apply bind_Ok in H as (i & _ & H). apply bind_Ok in H as (o & Ho%ok_or_Ok & H).
    eapply messages_verdict_sound; [|exact H]. by apply Hm.
Qed.

(** ** Aggregate streams: output first, then the one record *)

(** What an event states: its record, and whether it carries output. *)
Definition statement : Type := option BillingUsage * bool.
Definition statement_of (format : ApiFormat) (event : Value * ResponseFacts) : Metered statement :=
  rmap (λ usage, (usage, has_output event.2)) (event_usage format event.1 event.2).

(** Before the record nothing is stated; from its first statement on there is no output, and
    whatever states a record states this one. *)
Definition bill_follows (l : list statement) (usage : option BillingUsage) : Prop :=
  ∃ before after, l = before ++ after ∧ Forall (λ s : statement, s.1 = None) before ∧
    match usage with
    | None => after = []
    | Some u => (∃ rest, after = (Some u, false) :: rest) ∧ Forall (λ s : statement, s.2 = false ∧ (s.1 = None ∨ s.1 = Some u)) after
    end.

Lemma observe_statement format usage value facts meter :
  UsageMeter_observe value facts (Aggregate format usage) = Ok meter ↔
  ∃ s, statement_of format (value, facts) = Ok s ∧
    match s, usage with
    | (Some u, out), _ => out = false ∧ (usage = None ∨ usage = Some u) ∧ meter = Aggregate format (Some u)
    | (None, out), _ => (out = false ∨ usage = None) ∧ meter = Aggregate format usage
    end.
Proof.
  unfold statement_of. cbn. destruct (event_usage format value facts) as [[u|]|err]; cbn.
  - destruct (has_output facts); cbn; [|destruct usage as [r|]; cbn; [case_bool_decide as Heq; cbn|]].
    + split; [done|]. by intros (s & [= <-] & ? & _).
    + subst r. split; [intros [= <-]; exists (Some u, false); by repeat split; auto|by intros (s & [= <-] & _ & _ & ->)].
    + split; [done|]. intros (s & [= <-] & _ & [?|[= ->]] & _); done.
    + split; [intros [= <-]; exists (Some u, false); by repeat split; auto|by intros (s & [= <-] & _ & _ & ->)].
  - destruct (has_output facts), usage; cbn; (split; [first [done|intros [= <-]; eexists; by repeat split; auto]|]).
    all: intros (s & [= <-] & Hor & ->); first [done|by destruct Hor].
  - split; [done|by intros (s & ? & _)].
Qed.

Lemma observe_aggregate format events usage u' :
  observe_all events (Aggregate format usage) = Ok (Aggregate format u') ↔
  ∃ l, collect (statement_of format) events = Ok l ∧
    match usage with
    | None => bill_follows l u'
    | Some u => u' = Some u ∧ Forall (λ s : statement, s.2 = false ∧ (s.1 = None ∨ s.1 = Some u)) l
    end.
Proof.
  revert usage. induction events as [|[value facts] events IH]; intros usage; cbn [observe_all collect].
  - split.
    + intros [= <-]. exists []. split; [done|]. destruct usage as [u|]; [by repeat split|]. by exists [], [].
    + intros (l & [= <-] & H). destruct usage as [u|]; [by destruct H as [-> _]|].
      destruct H as (before & after & Hl & _ & H). symmetry in Hl. apply app_nil in Hl as [-> ->].
      destruct u' as [u|]; [|done]. by destruct H as [(rest & ?) _].
  - rewrite bind_Ok. split.
    + intros (m1 & (s & Hs & Hm1)%observe_statement & Hrest). destruct s as [[u|] out].
      * destruct Hm1 as (-> & Hor & ->). apply IH in Hrest as (l & Hl & -> & Hall). exists ((Some u, false) :: l).
        rewrite Hs, Hl. split; [done|]. destruct Hor as [->| ->].
        -- exists [], ((Some u, false) :: l). split_and!; [done|constructor|by exists l|]. constructor; [by split; [|right]|done].
        -- split; [done|]. constructor; [by split; [|right]|done].
      * destruct Hm1 as (Hor & ->). apply IH in Hrest as (l & Hl & H). exists ((None, out) :: l). rewrite Hs, Hl. split; [done|].
        destruct usage as [u|].
        -- destruct H as [-> Hall]. split; [done|]. destruct Hor as [->|]; [|done]. constructor; [by split; [|left]|done].
        -- destruct H as (before & after & -> & Hb & H). exists ((None, out) :: before), after. split_and!; [done|by constructor|done].
    + intros (l & (s & Hs & Hl)%bind_Ok & H). apply bind_Ok in Hl as (l' & Hl & [= <-]).
      destruct s as [[u|] out].
      * exists (Aggregate format (Some u)). assert (out = false ∧ (usage = None ∨ usage = Some u) ∧ u' = Some u ∧
          Forall (λ s : statement, s.2 = false ∧ (s.1 = None ∨ s.1 = Some u)) l') as (-> & Hor & -> & Hall).
        { destruct usage as [w|].
          - destruct H as (-> & [[Ho Hw] Hall]%Forall_cons). cbn in *. destruct Hw as [|[= ->]]; [done|]. by repeat split; auto.
          - destruct H as (before & after & Hla & Hb & H). destruct before as [|b before].
            + cbn in Hla. subst after. destruct u' as [w|]; [|done]. destruct H as [(rest & [= -> -> ->]) [_ Hall]%Forall_cons].
              by repeat split; auto.
            + injection Hla as <- _. by apply Forall_cons in Hb as [? _]. }
        split; [apply observe_statement; exists (Some u, false); by repeat split|]. apply IH. by exists l'.
      * exists (Aggregate format usage). split.
        -- apply observe_statement. exists (None, out). split; [done|]. split; [|done]. destruct usage as [w|]; [|by right].
           destruct H as (-> & [[Ho Hw] Hall]%Forall_cons). by left.
        -- apply IH. exists l'. split; [done|]. destruct usage as [w|].
           ++ by destruct H as (-> & [_ Hall]%Forall_cons).
           ++ destruct H as (before & after & Hla & Hb & H). destruct before as [|b before].
              ** cbn in Hla. subst after. destruct u' as [w|]; [by destruct H as [(rest & ?) _]|done].
              ** injection Hla as <- ->. exists before, after. split_and!; [done|by apply Forall_cons in Hb as [_ ?]|done].
Qed.

(** ** Messages streams: the bill covers what was stated *)

Definition no_counts : MessagesCounts := {| mc_input := None; mc_output := None; mc_cache_read := None; mc_cache_write := None |}.
(** The counts that an event states. *)
Definition stated_counts (value : Value) : Metered MessagesCounts :=
  if String.eqb (type_of value) "message_start" then messages_counts (let* message := get "message" value in get "usage" message)
  else if String.eqb (type_of value) "message_delta" then messages_counts (get "usage" value)
  else Ok no_counts.

Definition opt_le (o : option Z) (n : Z) : Prop := match o with Some x => x ≤ n | None => True end.
Definition opt_nonneg (o : option Z) : Prop := match o with Some x => 0 ≤ x | None => True end.
Definition counts_nonneg (c : MessagesCounts) : Prop :=
  opt_nonneg (mc_input c) ∧ opt_nonneg (mc_output c) ∧ opt_nonneg (mc_cache_read c) ∧ opt_nonneg (mc_cache_write c).

Lemma optional_nonneg v field c : typed_value v → optional_count v field = Ok c → opt_nonneg c.
Proof. intros Hv H. destruct c as [c|]; [|done]. by apply (optional_count_range v) in H as [? _]. Qed.
Lemma matching_nonneg a b c : opt_nonneg a → opt_nonneg b → matching_count a b = Ok c → opt_nonneg c.
Proof. intros Ha Hb. destruct a, b; cbn; try destruct (negb _); intros [= <-]; done. Qed.
Lemma cache_creation_nonneg total entries c :
  typed_value (Object entries) → opt_nonneg total → cache_creation_total total entries = Ok c → opt_nonneg c.
Proof.
  revert total. induction entries as [|[field v] entries IH]; intros total; [by intros _ ? [= <-]|].
  intros [Hv Hrest] Ht. cbn. intros (t & H & Hc)%bind_Ok. apply (IH t Hrest); [|done].
  destruct (_ || _); [by injection H as <-|]. apply bind_Ok in H as (n & Hn%ok_or_Ok & H).
  apply rmap_Ok in H as (x & [-> _]%ok_or_Ok%checked_add_Some & ->). destruct v as [| |[k| |]| | |]; try done. injection Hn as <-.
  destruct Hv. destruct total; cbn in *; lia.
Qed.
Lemma messages_counts_nonneg usage c :
  (∀ u, usage = Some u → typed_value u) → messages_counts usage = Ok c → counts_nonneg c.
Proof.
  unfold messages_counts, non_null. intros Ht. destruct usage as [v|]; [|by intros [= <-]]. cbn. specialize (Ht v eq_refl).
  destruct (is_null v); [by intros [= <-]|]. destruct (negb _); [done|].
  assert (∀ field x, match get field v with Some Null => Ok None | _ => optional_count v field end = Ok x → opt_nonneg x) as Hopt.
  { intros field x. pose proof (optional_nonneg v field x Ht). destruct (get field v) as [[]|]; auto. by intros [= <-]. }
  intros (creation & Hcr%Hopt & H)%bind_Ok. apply bind_Ok in H as (cw & Hcw & H). apply bind_Ok in H as (i & Hi%Hopt & H).
  apply bind_Ok in H as (out & Ho & H). apply bind_Ok in H as (cr & Hcrd%Hopt & [= <-]).
  split_and!; [done|by eapply optional_nonneg|done|]. cbn. destruct (get "cache_creation" v) as [d|] eqn:Hd; cbn in Hcw; [|by injection Hcw as <-].
  destruct (is_null d); [by injection Hcw as <-|]. apply bind_Ok in Hcw as (object & Hob%ok_or_Ok & Hcw).
  apply bind_Ok in Hcw as (total & Htot & Hcw). eapply matching_nonneg; [exact Hcr| |exact Hcw].
  eapply (cache_creation_nonneg None object); [|done|exact Htot]. apply (typed_get _ _ _ Ht) in Hd. destruct d; try done. by injection Hob as ->.
Qed.
Lemma stated_counts_nonneg v c : typed_value v → stated_counts v = Ok c → counts_nonneg c.
Proof.
  intros Hv. unfold stated_counts. destruct (String.eqb _ _); [|destruct (String.eqb _ _); [|by intros [= <-]]];
    apply messages_counts_nonneg; intros u Hu.
  - apply obind_Some in Hu as (x & Hx & Hu). by eapply typed_get, Hu; eapply typed_get.
  - by eapply typed_get.
Qed.

(** The meter holds at least [c]. *)
Definition covers_counts (m : MessagesMeter) (c : MessagesCounts) : Prop :=
  opt_le (mc_input c) (unwrap_or (-1) (mm_input m)) ∧ opt_le (mc_output c) (unwrap_or (-1) (mm_output m)) ∧
  opt_le (mc_cache_read c) (mm_cache_read m) ∧ opt_le (mc_cache_write c) (mm_cache_write m).
Definition meter_le (m m' : MessagesMeter) : Prop :=
  unwrap_or (-1) (mm_input m) ≤ unwrap_or (-1) (mm_input m') ∧ unwrap_or (-1) (mm_output m) ≤ unwrap_or (-1) (mm_output m') ∧
  mm_cache_read m ≤ mm_cache_read m' ∧ mm_cache_write m ≤ mm_cache_write m'.
Record meter_sane (m : MessagesMeter) : Prop := {
  ms_fresh : mm_started m = false → m = MessagesMeter_default;
  ms_post : ∀ o, mm_post_output m = Some o → mm_output m = Some o;
}.

Lemma advance_output_Ok o m m' :
  advance_output o m = Ok m' ↔ m' = set_output o m ∧ ∀ p, mm_output m = Some p → p ≤ o.
Proof.
  unfold advance_output. destruct (mm_output m) as [p|].
  - destruct (Z.ltb_spec o p); (split; [|intros [-> H']]); try done; [specialize (H' p eq_refl); lia|].
    intros [= <-]. split; [done|]. intros q [= <-]. lia.
  - split; [by intros [= <-]|by intros [-> _]].
Qed.

Lemma opt_le_mono o a b : opt_le o a → a ≤ b → opt_le o b.
Proof. destruct o; cbn; lia. Qed.
Lemma covers_mono m m' c : covers_counts m c → meter_le m m' → covers_counts m' c.
Proof. intros (H1&H2&H3&H4) (G1&G2&G3&G4). split_and!; by eapply opt_le_mono. Qed.
Lemma meter_le_refl m : meter_le m m.
Proof. unfold meter_le. lia. Qed.
Lemma meter_le_trans m1 m2 m3 : meter_le m1 m2 → meter_le m2 m3 → meter_le m1 m3.
Proof. unfold meter_le. lia. Qed.
Lemma below_false o b : below o b = false → o = None ∨ ∃ x, o = Some x ∧ b ≤ x.
Proof. destruct o as [x|]; cbn; [|by left]. right. exists x. split; [done|lia]. Qed.

(** One event: the meter grows to cover what the event states. *)
Lemma messages_observe value facts m m' :
  typed_value value → meter_sane m → MessagesMeter_observe value facts m = Ok m' →
  meter_sane m' ∧ meter_le m m' ∧ ∃ c, stated_counts value = Ok c ∧ covers_counts m' c.
Proof.
  intros Hty [Hf Hp] H. unfold MessagesMeter_observe in H.
  pose proof (stated_counts_nonneg value) as Hnn. unfold stated_counts in *.
  destruct (String.eqb (type_of value) "message_start").
  - unfold MessagesMeter_start in H. destruct (mm_started m); [done|]. rewrite (Hf eq_refl) in *.
    apply bind_Ok in H as (c & Hc & H). destruct (Hnn c Hty Hc) as (N1&N2&N3&N4).
    apply bind_Ok in H as (i & Hi%ok_or_Ok & H). apply advance_output_Ok in H as [-> _]. rewrite Hi in *.
    destruct c as [ci co cr cw]. cbn in Hi, N1, N2, N3, N4. subst ci.
    split; [by constructor|]. unfold meter_le, covers_counts. split; [destruct co, cr, cw; cbn in *; lia|].
    eexists. split; [done|]. destruct co, cr, cw; cbn in *; lia.
  - destruct (String.eqb (type_of value) "message_delta").
    + unfold MessagesMeter_delta in H. destruct (mm_started m) eqn:Hst; [cbn in H|done].
      apply bind_Ok in H as (c & Hc & H). destruct (Hnn c Hty Hc) as (N1&N2&N3&N4).
      destruct (_ || _) eqn:Hdec; [done|]. apply orb_false_iff in Hdec as [Hr%below_false Hw%below_false].
      destruct (match mm_input m with Some _ => _ | None => _ end) eqn:Hin; [done|].
      apply bind_Ok in H as (o & Ho%ok_or_Ok & H). apply bind_Ok in H as (m1 & [-> Hadv]%advance_output_Ok & [= <-]).
      cbn in Hadv. split; [constructor; cbn; [congruence|by intros x [= <-]]|]. rewrite Ho in *.
      assert (unwrap_or (-1) (mm_output m) ≤ o) as Hout.
      { destruct (mm_output m) as [p|]; cbn in *; [by apply Hadv|lia]. }
      assert (unwrap_or (-1) (mm_input m) ≤ unwrap_or (-1) (option_or (mc_input c) (mm_input m)) ∧
              opt_le (mc_input c) (unwrap_or (-1) (option_or (mc_input c) (mm_input m)))) as [Hi1 Hi2].
      { destruct (mc_input c) as [x|]; cbn in *; [|lia]. destruct (mm_input m) as [y|]; cbn in *; lia. }
      unfold meter_le, covers_counts. cbn.
      assert (∀ (x : option Z) b, x = None ∨ (∃ k, x = Some k ∧ b ≤ k) → b ≤ unwrap_or b x ∧ opt_le x (unwrap_or b x)) as Hgrow
        by (intros x b [->|(k & -> & ?)]; cbn; lia).
      destruct (Hgrow _ _ Hr), (Hgrow _ _ Hw). split; [split_and!; [done|done|lia|lia]|].
      exists c. rewrite Ho. split_and!; first [done|cbn; lia].
    + destruct (has_output facts).
      * destruct (mm_started m) eqn:Hst; [|done]. injection H as <-. split; [by constructor; cbn; [congruence|]|].
        split; [unfold meter_le; cbn; lia|]. by exists no_counts.
      * injection H as <-. split; [by constructor|]. split; [apply meter_le_refl|]. by exists no_counts.
Qed.

Lemma observe_all_ok events meter meter' :
  Forall (λ e : Value * ResponseFacts, typed_value e.1) events → meter_ok meter →
  observe_all events meter = Ok meter' → meter_ok meter'.
Proof.
  revert meter. induction events as [|[value facts] events IH]; intros meter Ht Hm; cbn; [by intros [= <-]|].
  apply Forall_cons in Ht as [Hv Ht]. intros (m1 & H1 & H)%bind_Ok. apply (IH m1 Ht); [|done]. by eapply observe_ok.
Qed.

Lemma messages_observe_all events m meter' :
  Forall (λ e : Value * ResponseFacts, typed_value e.1) events → meter_sane m →
  observe_all events (MessagesOf m) = Ok meter' →
  ∃ m', meter' = MessagesOf m' ∧ meter_sane m' ∧ meter_le m m' ∧
    Forall (λ e, ∃ c, stated_counts e.1 = Ok c ∧ covers_counts m' c) events.
Proof.
  revert m. induction events as [|[value facts] events IH]; intros m Ht Hs; cbn.
  { intros [= <-]. exists m. split_and!; [done|done|apply meter_le_refl|constructor]. }
  apply Forall_cons in Ht as [Hv Ht]. intros (meter1 & (m1 & H1 & ->)%rmap_Ok & H)%bind_Ok.
  apply (messages_observe _ _ _ _ Hv Hs) in H1 as (Hs1 & Hle & c & Hc & Hcov).
  apply (IH m1 Ht Hs1) in H as (m' & -> & Hs' & Hle' & Hall). exists m'. split_and!; [done|done|by eapply meter_le_trans|].
  constructor; [|done]. exists c. split; [done|]. by eapply covers_mono.
Qed.

(** The bill of a Messages stream is its last record. *)
Lemma messages_bill m u :
  meter_sane m → UsageMeter_finish true (MessagesOf m) = Ok (Some u) →
  ∃ i o, mm_input m = Some i ∧ mm_output m = Some o ∧ bu_output_tokens u = o ∧
    bu_cache_read_tokens u = mm_cache_read m ∧ bu_cache_write_tokens u = mm_cache_write m ∧
    bu_input_tokens u = i + mm_cache_read m + mm_cache_write m.
Proof.
  intros [_ Hp] H. cbn in H. unfold MessagesMeter_finish in H. apply bind_Ok in H as (i & Hi%ok_or_Ok & H).
  apply bind_Ok in H as (o & Ho%ok_or_Ok & H). unfold messages_verdict in H. cbn in H. destruct (o =? 0); [done|].
  apply bind_Ok in H as (input & (t & [-> _]%checked_add_Some & [-> _]%checked_add_Some)%ok_or_Ok%obind_Some & H).
  apply bind_Ok in H as (v & (_ & Ho' & Hi')%map_err_Ok%BillingUsage_new_charged & H). apply bind_Ok in H as ([] & _ & [= <-]).
  exists i, o. cbn. split_and!; [done|by apply Hp|done..].
Qed.

(** ** Properties *)

(** Whatever a stream states, its bill is sound: no output, no bill; output, and a valid
    record of a positive output and no charge of its own. *)
Theorem bill_is_sound format events meter saw_output bill :
  Forall (λ e : Value * ResponseFacts, typed_value e.1) events →
  observe_all events (UsageMeter_new format) = Ok meter →
  UsageMeter_finish saw_output meter = Ok bill →
  sound_bill saw_output bill.
Proof. intros Ht Ho. apply finish_sound. by eapply observe_all_ok; [|apply meter_ok_new|]. Qed.

(** A stream of an aggregate format is billed [u] exactly when its events state no record
    up to the end of its output, then one whose output count is positive, and after that only
    this one again; the record of the bill is the one that was stated. *)
Theorem aggregate_bill_exact format events u :
  format ≠ Messages →
  (let? meter := observe_all events (UsageMeter_new format) in UsageMeter_finish true meter) = Ok (Some u) ↔
  0 < bu_output_tokens u ∧ ∃ l, collect (statement_of format) events = Ok l ∧ bill_follows l (Some u).
Proof.
  intros Hf. assert (UsageMeter_new format = Aggregate format None) as -> by (by destruct format).
  split.
  - intros (meter & Ho & H)%bind_Ok. assert (∃ usage, meter = Aggregate format usage) as (usage & ->).
    { revert Ho. generalize (@None BillingUsage). induction events as [|[value facts] events IH]; intros usage; cbn [observe_all].
      - intros [= <-]. by exists usage.
      - intros (m1 & (s & _ & Hs)%observe_statement & Hr)%bind_Ok.
        destruct s as [[w|] out]; [destruct Hs as (_ & _ & ->)|destruct Hs as (_ & ->)]; by eapply IH. }
    cbn in H. unfold aggregate_verdict in H. cbn in H. apply rmap_Ok in H as (x & Hx%ok_or_Ok & [= ->]).
    destruct usage as [w|]; [|done]. cbn in Hx. destruct (bu_output_tokens w >? 0) eqn:Hpos; [|done]. injection Hx as ->.
    split; [lia|]. by apply observe_aggregate in Ho.
  - intros (Hpos & l & Hl & Hb). assert (observe_all events (Aggregate format None) = Ok (Aggregate format (Some u))) as ->.
    { apply observe_aggregate. by exists l. }
    cbn. unfold aggregate_verdict. cbn. destruct (bu_output_tokens u >? 0) eqn:Hp; [done|lia].
Qed.

(** The bill of a Messages stream covers every count that its events stated, although
    they state them piecewise and cumulatively: no more output, cache reads, cache writes or
    uncached input was ever stated than is billed. *)
Theorem messages_bill_covers_the_stream events meter u :
  Forall (λ e : Value * ResponseFacts, typed_value e.1) events →
  observe_all events (UsageMeter_new Messages) = Ok meter →
  UsageMeter_finish true meter = Ok (Some u) →
  Forall (λ e, ∃ c, stated_counts e.1 = Ok c ∧
    opt_le (mc_output c) (bu_output_tokens u) ∧
    opt_le (mc_cache_read c) (bu_cache_read_tokens u) ∧ opt_le (mc_cache_write c) (bu_cache_write_tokens u) ∧
    opt_le (mc_input c) (bu_input_tokens u - bu_cache_read_tokens u - bu_cache_write_tokens u)) events.
Proof.
  intros Ht Ho Hf. apply (messages_observe_all _ _ _ Ht) in Ho as (m & -> & Hs & _ & Hall); [|by split].
  apply (messages_bill m u Hs) in Hf as (i & o & Hi & Hout & -> & -> & -> & ->).
  eapply Forall_impl; [exact Hall|]. intros e (c & Hc & H1 & H2 & H3 & H4). exists c. rewrite Hi, Hout in *. cbn in *.
  split_and!; [done|done|done|done|]. by replace (_ - _ - _) with i by lia.
Qed.
