(* ===== verification/Relay.v ===== *)
(** * The relay of a provider's response

    crates/dexdo/src/seller/upstream/forward.rs: the response to one request goes to the buyer
    frame by frame, judged before it is forwarded, and its bill follows it.  What the network
    does is the list of [ReadItem]s (its end is the end of the body); the buyer takes [room]
    events and is gone after them.  JSON parsing, the served-model verdict and the texts of a
    transport error and of an HTTP status are parameters. *)
From S2P Require Import Prelude RustText SseFrames ApiFormat UsageData Meter.
From Stdlib Require Import Strings.Ascii.

Inductive ReadItem : Type :=
| Chunk (b : bytes)
| ReadError (error : text) (retryable : bool)   (** the body decoder failed *)
| Deadline                                      (** the seller's deadline for a first output *)
| Closed.                                       (** the buyer's channel is closed *)

Record ResponseHead : Type := { rh_status : Z; rh_headers : list Header }.
Inductive UpstreamEvent : Type :=
| Head (head : ResponseHead)
| Data (b : bytes) (output : bool)
| Usage (usage : BillingUsage).

Definition UPSTREAM_ERROR_KEY_ECHO_PREFIX_CHARS : nat := 32.

(** ** Failures *)

Definition no_output_before_deadline : Status :=
  retryable_upstream_status (status DeadlineExceeded f["upstream produced no output before the seller deadline"]).
Definition read_failure (error : text) (retryable answered : bool) : Status :=
  let s := status Unavailable (Lit "upstream read failed: " :: error) in
  if negb answered && retryable then retryable_upstream_status s else s.
Definition http_failure (shown : string) (code : Z) : Status :=
  let s := status Unavailable f["upstream HTTP "; shown] in
  if (code =? 429) || (code =? 502) || (code =? 503) then retryable_upstream_status s else s.
Definition key_named_failure : Status := status Unavailable f["the provider's answer named the seller's key and is not relayed"].

(** ** The seller's key *)

(** The bytes of the first [n] characters. *)
Fixpoint char_prefix (n : nat) (b : bytes) : bytes :=
  match n, b with
  | O, _ | _, [] => []
  | S n, c :: rest =>
      match utf8_next c rest with Utf8Valid k | Utf8Invalid k => take k b ++ char_prefix n (drop k b) end
  end.
Fixpoint has_window (w b : bytes) : bool :=
  match strip_bytes w b with
  | Some _ => true
  | None => match b with [] => false | _ :: b => has_window w b end
  end.
Definition key_echo (value : string) : bytes :=
  let key := trim (unwrap_or value (strip_prefix "Bearer " value)) in
  char_prefix UPSTREAM_ERROR_KEY_ECHO_PREFIX_CHARS (to_bytes key).
Definition echoes_seller_key (credentials : list (string * string)) (body : bytes) : bool :=
  existsb (λ credential, let echo := key_echo credential.2 in
             negb (bool_decide (echo = [])) && has_window echo body) credentials.
Definition head_names_seller_key (credentials : list (string * string)) (head : ResponseHead) : bool :=
  existsb (λ header, echoes_seller_key credentials (to_bytes (hd_name header)) || echoes_seller_key credentials (hd_value header))
    (rh_headers head).

Section Relay.
Context (from_str : string → Result string Value) (status_text : Z → string) (credentials : list (string * string))
  (served_model : option (string → option text)) (format : ApiFormat).

Definition unframed_error (t : string) : option string :=
  let* value := result_ok (from_str (trim t)) in
  let* _e := stated_error value in
  Some (unwrap_or ""%string (error_detail value)).
Definition check_served_model (reported : string) (saw_output : bool) : Metered () :=
  match (let* check := served_model in check reported) with
  | None => Ok ()
  | Some mismatch => if negb saw_output then Err (status FailedPrecondition mismatch) else Ok ()
  end.

(** ** What has been sent *)

Record Outbox : Type := { ob_sent : list UpstreamEvent; ob_room : nat }.
(** [send_event]: the outbox after it, or the buyer is gone. *)
Definition send (event : UpstreamEvent) (o : Outbox) : option Outbox :=
  match ob_room o with
  | O => None
  | S room => Some {| ob_sent := ob_sent o ++ [event]; ob_room := room |}
  end.
Definition send_last (event : UpstreamEvent) (o : Outbox) : Outbox := unwrap_or o (send event o).

(** ** A streamed response *)

Record RelayState : Type := {
  rl_frames : SseFrames; rl_meter : UsageMeter; rl_saw_output : bool; rl_stated_error : bool;
  rl_model_settled : bool; rl_outbox : Outbox;
}.
Definition relay_start (o : Outbox) : RelayState := {|
  rl_frames := SseFrames_default; rl_meter := UsageMeter_new format; rl_saw_output := false; rl_stated_error := false;
  rl_model_settled := bool_decide (served_model = None); rl_outbox := o |}.
Definition set_rl_frames (v : SseFrames) (st : RelayState) : RelayState := {|
  rl_frames := v; rl_meter := rl_meter st; rl_saw_output := rl_saw_output st; rl_stated_error := rl_stated_error st;
  rl_model_settled := rl_model_settled st; rl_outbox := rl_outbox st |}.

(** The loop goes on, has seen the final event, or the response is over for the buyer. *)
Inductive Step : Type :=
| Next (st : RelayState)
| Finished (st : RelayState)
| Gone (o : Outbox)
| Failed (s : Status) (o : Outbox).

(** What a frame says: its output, whether it is final, and the state it leaves. *)
Definition judge_frame (text : string) (st : RelayState) : Metered (bool * bool * RelayState) :=
  let? frame := map_err (λ e : string, data_loss f[e]) (parse_frame from_str format text) in
  match frame with
  | FrameEmpty =>
      match unframed_error text with
      | Some reason => Err (status FailedPrecondition f["provider error object instead of a stream: "; reason])
      | None => Ok (false, false, st)
      end
  | FrameDone => Ok (false, true, st)
  | FrameEvent value facts =>
      let? settled := match rl_model_settled st, rf_model facts with
                      | false, Some reported => check_served_model reported (rl_saw_output st) ;? Ok true
                      | settled, _ => Ok settled
                      end in
      let? meter := UsageMeter_observe value facts (rl_meter st) in
      Ok (has_output facts, rf_done facts, {|
        rl_frames := rl_frames st; rl_meter := meter; rl_saw_output := rl_saw_output st;
        rl_stated_error := rl_stated_error st || bool_decide (is_Some (rf_error facts));
        rl_model_settled := settled; rl_outbox := rl_outbox st |})
  end.
Definition relay_frame (frame : SseFrame) (st : RelayState) : Step :=
  if echoes_seller_key credentials (fr_bytes frame) then Failed key_named_failure (rl_outbox st) else
  match judge_frame (fr_text frame) st with
  | Err s => Failed s (rl_outbox st)
  | Ok (output, done, st) =>
      match send (Data (fr_bytes frame) output) (rl_outbox st) with
      | None => Gone (rl_outbox st)
      | Some o =>
          let st := {| rl_frames := rl_frames st; rl_meter := rl_meter st; rl_saw_output := rl_saw_output st || output;
                       rl_stated_error := rl_stated_error st; rl_model_settled := rl_model_settled st; rl_outbox := o |} in
          if (done : bool) then Finished st else Next st
      end
  end.
Fixpoint relay_frames (frames : list SseFrame) (st : RelayState) : Step :=
  match frames with
  | [] => Next st
  | frame :: frames => match relay_frame frame st with Next st => relay_frames frames st | over => over end
  end.
Definition relay_bytes (b : bytes) (st : RelayState) : Step :=
  match push b (rl_frames st) with
  | (Err e, _) => Failed (data_loss f[e]) (rl_outbox st)
  | (Ok frames, sse) => relay_frames frames (set_rl_frames sse st)
  end.

Fixpoint relay_items (items : list ReadItem) (st : RelayState) : Step :=
  match items with
  | [] => if is_empty_frames (rl_frames st) then Next st else relay_bytes [LF; LF] st
  | Closed :: _ => Gone (rl_outbox st)
  | ReadError error retryable :: _ =>
      Failed (read_failure error retryable (rl_saw_output st || rl_stated_error st)) (rl_outbox st)
  | Deadline :: items => if rl_saw_output st then relay_items items st else Failed no_output_before_deadline (rl_outbox st)
  | Chunk b :: items => match relay_bytes b st with Next st => relay_items items st | over => over end
  end.
Definition relay_stream (items : list ReadItem) (o : Outbox) : Metered () * Outbox :=
  match relay_items items (relay_start o) with
  | Gone o => (Ok (), o)
  | Failed s o => (Err s, o)
  | Finished st =>
      match UsageMeter_finish (rl_saw_output st) (rl_meter st) with
      | Err s => (Err s, rl_outbox st)
      | Ok None => (Ok (), rl_outbox st)
      | Ok (Some usage) => (Ok (), send_last (Usage usage) (rl_outbox st))
      end
  | Next st =>
      let s := data_loss f["provider stream ended before its final event"] in
      (Err (if rl_saw_output st || rl_stated_error st then s else retryable_upstream_status s), rl_outbox st)
  end.

(** ** A whole response *)

(** The body read whole, [None] when the buyer is gone. *)
Fixpoint read_whole (too_large : Status) (read_answered : bool) (items : list ReadItem) (got : bytes) : Metered (option bytes) :=
  match items with
  | [] => Ok (Some got)
  | Closed :: _ => Ok None
  | Deadline :: _ => Err no_output_before_deadline
  | ReadError error retryable :: _ => Err (read_failure error retryable read_answered)
  | Chunk b :: items =>
      let got := got ++ b in
      if Z.of_nat (length got) >? UPSTREAM_RESPONSE_BODY_MAX_BYTES then Err too_large
      else read_whole too_large read_answered items got
  end.
Definition judge_body (b : bytes) : Metered (bool * option BillingUsage) :=
  match b with
  | [] => Err (retryable_upstream_status (data_loss f["provider response ended before its answer"]))
  | _ =>
      if echoes_seller_key credentials b then Err key_named_failure else
      let? value := map_err (λ error : string, data_loss f["provider response is not JSON: "; error]) (from_str (of_bytes b)) in
      let facts := inspect_body format value in
      match rf_model facts with Some reported => check_served_model reported false | None => Ok () end ;?
      let? usage := UsageMeter_body format value facts in
      Ok (has_output facts, usage)
  end.
Definition relay_body (items : list ReadItem) (o : Outbox) : Metered () * Outbox :=
  match read_whole (status ResourceExhausted f["provider response exceeds the seller's response size limit"]) false items [] with
  | Err s => (Err s, o)
  | Ok None => (Ok (), o)
  | Ok (Some b) =>
      match judge_body b with
      | Err s => (Err s, o)
      | Ok (output, usage) =>
          match send (Data b output) o with
          | None => (Ok (), o)
          | Some o => (Ok (), match usage with Some usage => send_last (Usage usage) o | None => o end)
          end
      end
  end.

(** ** The response to a request *)

Definition is_redirection (code : Z) : bool := (300 <=? code) && (code <? 400).
Definition is_success (code : Z) : bool := (200 <=? code) && (code <? 300).
Definition forward_response (stream : bool) (code : Z) (headers : list Header) (items : list ReadItem) (o : Outbox)
    : Metered () * Outbox :=
  if (code =? 401) || (code =? 403) || is_redirection code then (Err (http_failure (status_text code) code), o) else
  let head := {| rh_status := code; rh_headers := forwarded_response_headers headers |} in
  if head_names_seller_key credentials head then (Err key_named_failure, o) else
  if negb (is_success code) then
    match read_whole (status ResourceExhausted f["provider error answer exceeds the seller's response size limit"]) true items [] with
    | Err s => (Err s, o)
    | Ok None => (Ok (), o)
    | Ok (Some error) =>
        if echoes_seller_key credentials error then (Err key_named_failure, o) else
        match send (Head head) o with
        | None => (Ok (), o)
        | Some o => (Ok (), match error with [] => o | _ => send_last (Data error false) o end)
        end
    end
  else
    match send (Head head) o with
    | None => (Ok (), o)
    | Some o => if stream then relay_stream items o else relay_body items o
    end.
End Relay.
