(* ===== verification/RelayProps.v ===== *)
(** * Properties of the relay

    What the buyer of a streamed response receives: a prefix of the provider's frames, each
    with its exact bytes, then the bill of exactly these frames; the seller's key is in none of
    it, and a failure that invites a retry comes before any output.

    The last part applies this to the answers of two providers. *)
From S2P Require Import Prelude RustText SseFrames ApiFormat UsageData Meter MeterProps Relay.
From Stdlib Require Import Strings.Ascii.

(** ** Refusals of the response are final *)

Definition is_final {A} (r : Metered A) : Prop := ∀ s, r = Err s → st_retryable s = false.

Lemma final_Ok {A} (a : A) : is_final (Ok a).
Proof. done. Qed.
Lemma final_status {A} code message : is_final (@Err _ A (status code message)).
Proof. by intros s [= <-]. Qed.
Lemma final_data_loss {A} message : is_final (@Err _ A (data_loss message)).
Proof. apply final_status. Qed.
Lemma final_bind {A B} (m : Metered A) (k : A → Metered B) : is_final m → (∀ a, m = Ok a → is_final (k a)) → is_final (rbind m k).
Proof. intros Hm Hk s. destruct m as [a|e]; cbn; [by apply Hk|]. intros [= <-]. by apply Hm. Qed.
Lemma final_rmap {A B} (f : A → B) (m : Metered A) : is_final m → is_final (rmap f m).
Proof. intros Hm s. destruct m; cbn; [done|]. intros [= <-]. by apply Hm. Qed.
Lemma final_ok_or {A} (o : option A) message : is_final (ok_or o (data_loss message)).
Proof. destruct o; [done|apply final_data_loss]. Qed.
Lemma final_map_err {A E} (f : E → text) (r : Result E A) : is_final (map_err (λ e, data_loss (f e)) r).
Proof. destruct r; [done|apply final_data_loss]. Qed.
Lemma final_map_err_data_loss {A} (r : Result text A) : is_final (map_err data_loss r).
Proof. destruct r; [done|apply final_data_loss]. Qed.

Create HintDb final.
#[export] Hint Resolve final_Ok final_status final_data_loss final_ok_or final_map_err final_map_err_data_loss : final.
(** Walks through a computation that only refuses with plain statuses. *)
Ltac final_step :=
  match goal with
  | |- is_final (rbind _ _) => apply final_bind; [|intros ? _]
  | |- is_final (rmap _ _) => apply final_rmap
  | |- is_final (let '(_, _) := ?x in _) => destruct x
  | |- is_final (match ?x with _ => _ end) => destruct x
  | |- _ => solve [eauto with final]
  end.
Ltac final := repeat final_step.

Lemma optional_count_final v field : is_final (optional_count v field).
Proof. unfold optional_count. final. Qed.
Lemma matching_count_final a b : is_final (matching_count a b).
Proof. unfold matching_count. final. Qed.
#[export] Hint Resolve optional_count_final matching_count_final : final.
Lemma input_cache_counts_final v details : is_final (input_cache_counts v details).
Proof. unfold input_cache_counts. final. Qed.
Lemma check_cache_miss_final v u : is_final (check_cache_miss v u).
Proof. unfold check_cache_miss. final. Qed.
Lemma token_final object field : is_final (token object field).
Proof. unfold token. final. Qed.
#[export] Hint Resolve input_cache_counts_final check_cache_miss_final token_final : final.
Lemma stated_usage_final v object i o d : is_final (stated_usage v object i o d).
Proof. unfold stated_usage. final. Qed.
#[export] Hint Resolve stated_usage_final : final.
Lemma chat_usage_final v : is_final (chat_usage v).
Proof. unfold chat_usage. final. Qed.
Lemma responses_usage_final v : is_final (responses_usage v).
Proof. unfold responses_usage. final. Qed.
#[export] Hint Resolve chat_usage_final responses_usage_final : final.
Lemma chat_frame_usage_final v : is_final (chat_frame_usage v).
Proof. unfold chat_frame_usage. final. Qed.
#[export] Hint Resolve chat_frame_usage_final : final.
Lemma event_usage_final format v facts : is_final (event_usage format v facts).
Proof. unfold event_usage. final. Qed.
Lemma aggregate_verdict_final usage saw : is_final (aggregate_verdict usage saw).
Proof. unfold aggregate_verdict. final. Qed.
Lemma messages_verdict_final i o r w saw : is_final (messages_verdict i o r w saw).
Proof. unfold messages_verdict. final. Qed.
#[export] Hint Resolve event_usage_final aggregate_verdict_final messages_verdict_final : final.
Lemma cache_creation_total_final total entries : is_final (cache_creation_total total entries).
Proof. revert total. induction entries as [|[field v] entries IH]; intros total; cbn; final. Qed.
#[export] Hint Resolve cache_creation_total_final : final.
Lemma messages_counts_final usage : is_final (messages_counts usage).
Proof. unfold messages_counts. final. Qed.
Lemma advance_output_final o m : is_final (advance_output o m).
Proof. unfold advance_output. final. Qed.
#[export] Hint Resolve messages_counts_final advance_output_final : final.
Lemma UsageMeter_observe_final v facts meter : is_final (UsageMeter_observe v facts meter).
Proof.
  destruct meter as [format usage|m]; cbn; [final|]. apply final_rmap. unfold MessagesMeter_observe, MessagesMeter_start, MessagesMeter_delta.
  final.
Qed.
Lemma UsageMeter_finish_final saw meter : is_final (UsageMeter_finish saw meter).
Proof. destruct meter; cbn; [final|]. unfold MessagesMeter_finish. final. Qed.
#[export] Hint Resolve UsageMeter_observe_final UsageMeter_finish_final : final.

(** ** Windows *)

Lemma strip_bytes_Some w b rest : strip_bytes w b = Some rest ↔ b = w ++ rest.
Proof.
  revert b. induction w as [|c w IH]; intros b; cbn; [by split; [intros [= <-]|intros ->]|].
  destruct b as [|d b]; [done|]. destruct (Ascii.eqb_spec c d) as [->|Hne].
  - rewrite IH. split; [by intros ->|by intros [= ->]].
  - split; [done|]. by intros [= <-].
Qed.
Lemma has_window_spec w b : has_window w b = true ↔ ∃ p s, b = p ++ w ++ s.
Proof.
  induction b as [|c b IH]; cbn.
  - destruct (strip_bytes w []) as [rest|] eqn:Hs.
    + apply strip_bytes_Some in Hs. split; [|done]. intros _. by exists [], rest.
    + split; [done|]. intros (p & s & Hb). symmetry in Hb. apply app_nil in Hb as [-> Hb]. cbn in Hb.
      by rewrite (proj2 (strip_bytes_Some w [] s)) in Hs.
  - destruct (strip_bytes w (c :: b)) as [rest|] eqn:Hs.
    + apply strip_bytes_Some in Hs. split; [|done]. intros _. by exists [], rest.
    + rewrite IH. split.
      * intros (p & s & ->). by exists (c :: p), s.
      * intros (p & s & Hb). destruct p as [|d p]; [by rewrite (proj2 (strip_bytes_Some w (c :: b) s)) in Hs|].
        injection Hb as _ ->. by exists p, s.
Qed.

(** A window without line feed lies on one side of a line feed. *)
Lemma window_around_lf w x b : LF ∉ w → has_window w ((x ++ [LF]) ++ b) = true → has_window w (x ++ [LF]) = true ∨ has_window w b = true.
Proof.
  rewrite !has_window_spec. intros Hlf (p & s & Hb). rewrite <- app_assoc in Hb. cbn in Hb.
  apply app_eq_inv in Hb as [(k & -> & Hb)|(k & -> & Hb)].
  - symmetry in Hb. apply app_eq_inv in Hb as [(j & -> & Hb)|(j & -> & Hb)].
    + left. exists p, (j ++ [LF]). by rewrite <- !app_assoc.
    + destruct j as [|c j]; cbn in Hb.
      * left. exists p, [LF]. by rewrite app_nil_r, <- app_assoc.
      * injection Hb as <- _. destruct Hlf. apply elem_of_app. right. apply list_elem_of_here.
  - destruct k as [|c k]; cbn in Hb.
    + destruct w as [|d w]; [left; exists [], (x ++ [LF]); done|]. cbn in Hb. injection Hb as <- _. destruct Hlf. apply list_elem_of_here.
    + injection Hb as <- ->. right. by exists k, s.
Qed.
Lemma no_window_concat w l :
  LF ∉ w → Forall (λ b : bytes, (∃ x, b = x ++ [LF]) ∧ has_window w b = false) l → w ≠ [] → has_window w (List.concat l) = false.
Proof.
  intros Hlf Hl Hw. induction Hl as [|b l [[x ->] Hb] _ IH]; [by destruct w|]. cbn [List.concat].
  apply not_true_iff_false. intros [H|H]%window_around_lf; [| |done]; congruence.
Qed.

Section Relay.
Context (from_str : string → Result string Value) (credentials : list (string * string))
  (served_model : option (string → option text)) (format : ApiFormat).

(** ** What a frame says *)

Definition parsed (f : SseFrame) : Result string Frame := parse_frame from_str format (fr_text f).
Definition frame_event (f : SseFrame) : option (Value * ResponseFacts) :=
  match parsed f with Ok (FrameEvent value facts) => Some (value, facts) | _ => None end.
Definition frame_fact (p : ResponseFacts → bool) (f : SseFrame) : bool :=
  match frame_event f with Some (_, facts) => p facts | None => false end.
Definition frame_output : SseFrame → bool := frame_fact has_output.
Definition frame_error : SseFrame → bool := frame_fact (λ facts, bool_decide (is_Some (rf_error facts))).
Definition frame_model (f : SseFrame) : option string := let* e := frame_event f in rf_model e.2.
Definition ends_response (f : SseFrame) : bool :=
  match parsed f with Ok FrameDone => true | _ => frame_fact rf_done f end.
Definition data_event (f : SseFrame) : UpstreamEvent := Data (fr_bytes f) (frame_output f).
Definition saw (fs : list SseFrame) : bool := existsb frame_output fs.
(** A frame of the provider's bytes: a text, and one frame when it is read again. *)
Definition whole_frame (f : SseFrame) : Prop :=
  ∃ t, f = frame_of t ∧ split_frames (t ++ [LF; LF]) = ([t], []) ∧ utf8_valid t = true.
Definition readable (f : SseFrame) : Prop := whole_frame f ∧ is_ok (parsed f) = true.
Lemma whole_frames b : all_utf8 b → Forall whole_frame (map frame_of (split_frames b).1).
Proof.
  intros Hall. apply Forall_map. pose proof (split_frames_ends b) as Hends. unfold all_utf8 in Hall. rewrite Forall_forall in *.
  intros t Ht. exists t. split_and!; [done| |by apply Hall]. rewrite (split_frames_step _ _ (Hends t Ht)).
  by rewrite take_app_length, drop_ge by (rewrite length_app; cbn; lia).
Qed.

(** The first model that the provider names before output is one the seller accepts. *)
Definition vetted (fs : list SseFrame) : Prop :=
  ∀ before f after check m,
    fs = before ++ f :: after → served_model = Some check → frame_model f = Some m →
    saw before = false → Forall (λ g, frame_model g = None) before → check m = None.

Lemma vetted_snoc fs f :
  vetted fs →
  (∀ check m, served_model = Some check → frame_model f = Some m → saw fs = false →
     Forall (λ g, frame_model g = None) fs → check m = None) →
  vetted (fs ++ [f]).
Proof.
  intros Hv Hf before g after check m Heq. destruct after as [|x after' _] using rev_ind.
  - apply app_inj_tail in Heq as [-> ->]. eauto.
  - rewrite app_comm_cons, app_assoc in Heq. apply app_inj_tail in Heq as [-> _]. by eapply Hv.
Qed.

(** ** The invariant: [fs] was sent since [o0] *)

Record relayed (o0 : Outbox) (fs : list SseFrame) (st : RelayState) : Prop := {
  rd_sent : ob_sent (rl_outbox st) = ob_sent o0 ++ map data_event fs;
  rd_meter : observe_all (omap frame_event fs) (UsageMeter_new format) = Ok (rl_meter st);
  rd_saw : rl_saw_output st = saw fs;
  rd_error : rl_stated_error st = existsb frame_error fs;
  rd_clean : Forall (λ f, echoes_seller_key credentials (fr_bytes f) = false) fs;
  rd_settled : rl_model_settled st = bool_decide (served_model = None) || existsb (λ f, bool_decide (is_Some (frame_model f))) fs;
  rd_vetted : vetted fs;
  rd_readable : Forall readable fs;
}.

Lemma relayed_start o : relayed o [] (relay_start served_model format o).
Proof. constructor; cbn; try done; [by rewrite app_nil_r|by rewrite orb_false_r|]. by intros [|? ?]. Qed.
Lemma relayed_frames o0 fs st sse : relayed o0 fs st → relayed o0 fs (set_rl_frames sse st).
Proof. by intros []. Qed.

Lemma observe_all_app events1 events2 meter :
  observe_all (events1 ++ events2) meter = (let? m := observe_all events1 meter in observe_all events2 m).
Proof.
  revert meter. induction events1 as [|[value facts] events1 IH]; intros meter; [done|]. cbn.
  destruct (UsageMeter_observe value facts meter) as [m|e]; cbn; [apply IH|done].
Qed.
Lemma check_served_model_Ok m saw_output :
  check_served_model served_model m saw_output = Ok () ↔
  saw_output = true ∨ ∀ check, served_model = Some check → check m = None.
Proof.
  unfold check_served_model. destruct served_model as [check|]; cbn.
  - destruct (check m) as [mismatch|] eqn:Hm.
    + destruct saw_output; cbn; split; auto; [done|]. intros [?|H]; [done|]. specialize (H check eq_refl). congruence.
    + split; [intros _; right; by intros ? [= <-]|done].
  - split; [intros _; by right|done].
Qed.
Lemma check_served_model_final m saw_output : is_final (check_served_model served_model m saw_output).
Proof. unfold check_served_model. final. Qed.

Lemma judge_frame_final text st : is_final (judge_frame from_str served_model format text st).
Proof.
  unfold judge_frame. apply final_bind; [apply (final_map_err (λ e : string, f[e]))|]. intros [] _; [final|final|].
  apply final_bind; [|intros settled _; final].
  destruct (rl_model_settled st), (rf_model facts); try apply final_Ok.
  apply final_bind; [apply check_served_model_final|intros; apply final_Ok].
Qed.

Lemma relayed_snoc o0 fs st f sse meter settled o :
  relayed o0 fs st → readable f → echoes_seller_key credentials (fr_bytes f) = false →
  match frame_event f with Some (value, facts) => UsageMeter_observe value facts (rl_meter st) | None => Ok (rl_meter st) end = Ok meter →
  settled = rl_model_settled st || bool_decide (is_Some (frame_model f)) →
  (∀ m, rl_model_settled st = false → frame_model f = Some m → check_served_model served_model m (rl_saw_output st) = Ok ()) →
  ob_sent o = ob_sent (rl_outbox st) ++ [data_event f] →
  relayed o0 (fs ++ [f])
    {| rl_frames := sse; rl_meter := meter; rl_saw_output := rl_saw_output st || frame_output f;
       rl_stated_error := rl_stated_error st || frame_error f; rl_model_settled := settled; rl_outbox := o |}.
Proof.
  intros [Hsent Hmeter Hsaw Herr Hclean Hset Hvet Hread] Hf Hecho Hobs -> Hcheck Ho. constructor; cbn; try (apply Forall_app; split; [done|by apply Forall_singleton]).
  - by rewrite Ho, Hsent, map_app, app_assoc.
  - rewrite omap_app, observe_all_app, Hmeter. cbn. destruct (frame_event f) as [[value facts]|]; cbn; [|done]. by rewrite Hobs.
  - unfold saw. by rewrite existsb_app, Hsaw; cbn; rewrite orb_false_r.
  - by rewrite existsb_app, Herr; cbn; rewrite orb_false_r.
  - by rewrite existsb_app, Hset; cbn; rewrite orb_false_r, orb_assoc.
  - apply vetted_snoc; [done|]. intros check m Hserved Hm Hs Hnone.
    assert (rl_model_settled st = false) as Hno.
    { rewrite Hset, (bool_decide_eq_false_2 (served_model = None)) by congruence. apply not_true_iff_false. cbn.
      rewrite existsb_exists. intros (g & Hg%list_elem_of_In & Hgm%bool_decide_eq_true).
      rewrite Forall_forall in Hnone. rewrite (Hnone g Hg) in Hgm. by destruct Hgm. }
    apply (Hcheck m Hno), check_served_model_Ok in Hm as [Hs'|Hc]; [congruence|by apply Hc].
Qed.

(** The judgement of a frame, and the state once the frame is sent. *)
Lemma judge_frame_spec o0 fs st f output done st1 :
  relayed o0 fs st → whole_frame f → echoes_seller_key credentials (fr_bytes f) = false →
  judge_frame from_str served_model format (fr_text f) st = Ok (output, done, st1) →
  output = frame_output f ∧ done = ends_response f ∧ rl_frames st1 = rl_frames st ∧ rl_outbox st1 = rl_outbox st ∧
  ∀ o, ob_sent o = ob_sent (rl_outbox st) ++ [data_event f] → relayed o0 (fs ++ [f])
    {| rl_frames := rl_frames st1; rl_meter := rl_meter st1; rl_saw_output := rl_saw_output st1 || output;
       rl_stated_error := rl_stated_error st1; rl_model_settled := rl_model_settled st1; rl_outbox := o |}.
Proof.
  intros Hr Hwhole Hecho. unfold judge_frame. intros (frame & Hp%map_err_Ok & H)%bind_Ok. fold (parsed f) in Hp.
  assert (readable f) as Hread by (split; [done|by rewrite Hp]).
  assert (frame_event f = match frame with FrameEvent value facts => Some (value, facts) | _ => None end) as Hfe.
  { unfold frame_event. rewrite Hp. by destruct frame. }
  pose proof (relayed_snoc o0 fs st f (rl_frames st)) as Hsnoc.
  unfold ends_response, frame_output, frame_error, frame_model, frame_fact in *. rewrite Hp, Hfe in *.
  destruct frame as [| |value facts].
  - destruct (unframed_error from_str (fr_text f)); [done|]. injection H as <- <- <-. split_and!; [done..|].
    intros o Ho. specialize (Hsnoc (rl_meter st) (rl_model_settled st) o Hr Hread Hecho eq_refl). rewrite !orb_false_r in *. by apply Hsnoc.
  - injection H as <- <- <-. split_and!; [done..|].
    intros o Ho. specialize (Hsnoc (rl_meter st) (rl_model_settled st) o Hr Hread Hecho eq_refl). rewrite !orb_false_r in *. by apply Hsnoc.
  - apply bind_Ok in H as (settled & Hset & H). apply bind_Ok in H as (meter & Hm & [= <- <- <-]). split_and!; [done..|].
    intros o Ho. apply Hsnoc; try done; cbn.
    + destruct (rl_model_settled st), (rf_model facts); cbn in *; try (by injection Hset as <-).
      by apply bind_Ok in Hset as (? & _ & [= <-]).
    + intros m Hno Hmod. rewrite Hno, Hmod in Hset. by apply bind_Ok in Hset as ([] & Hc & _).
Qed.

(** One frame: it is sent, or nothing more is. *)
Lemma relay_frame_spec o0 fs st f :
  relayed o0 fs st → whole_frame f →
  match relay_frame from_str credentials served_model format f st with
  | Next st' => relayed o0 (fs ++ [f]) st' ∧ rl_frames st' = rl_frames st ∧ ends_response f = false
  | Finished st' => relayed o0 (fs ++ [f]) st' ∧ ends_response f = true
  | Gone o => o = rl_outbox st ∧ ob_room o = 0%nat
  | Failed s o => o = rl_outbox st ∧ st_retryable s = false
  end.
Proof.
  intros Hr Hwhole. unfold relay_frame. destruct (echoes_seller_key credentials (fr_bytes f)) eqn:Hecho; [done|].
  destruct (judge_frame from_str served_model format (fr_text f) st) as [[[output fin] st1]|s] eqn:Hj; [|split; [done|by eapply judge_frame_final]].
  apply (judge_frame_spec o0 fs _ _ _ _ _ Hr Hwhole Hecho) in Hj as (-> & -> & Hsse & <- & Hnew).
  unfold send. destruct (ob_room (rl_outbox st1)) as [|room] eqn:Hroom; [by rewrite Hroom|].
  destruct (ends_response f) eqn:He; cbn; split_and!; try done; by apply Hnew.
Qed.

(** ** The whole stream *)

(** The response is over, and [all] are the provider's frames. *)
Definition over (o0 : Outbox) (all : list SseFrame) (closed : Prop) (step : Step) : Prop :=
  ∃ fs st, relayed o0 fs st ∧ fs `prefix_of` all ∧
    match step with
    | Next st' => st' = st ∧ Forall (λ f, ends_response f = false) fs
    | Finished st' => st' = st ∧ ∃ before f, fs = before ++ [f] ∧ Forall (λ f, ends_response f = false) before ∧ ends_response f = true
    | Gone o => o = rl_outbox st ∧ (ob_room o = 0%nat ∨ closed)
    | Failed s o => o = rl_outbox st ∧ (st_retryable s = true → saw fs = false ∧ (existsb frame_error fs = false ∨ s = no_output_before_deadline))
    end.
Lemma over_mono o0 all all' (closed closed' : Prop) step :
  over o0 all closed step → all `prefix_of` all' → (closed → closed') → over o0 all' closed' step.
Proof.
  intros (fs & st & Hr & Hp & H) Hall Hc. exists fs, st. split_and!; [done|by etrans|]. destruct step; [done|done| |done].
  destruct H as [-> H]. split; [done|tauto].
Qed.

Lemma relay_frames_spec o0 fs frames st closed :
  relayed o0 fs st → Forall whole_frame frames → Forall (λ f, ends_response f = false) fs →
  match relay_frames from_str credentials served_model format frames st with
  | Next st' => relayed o0 (fs ++ frames) st' ∧ rl_frames st' = rl_frames st ∧ Forall (λ f, ends_response f = false) (fs ++ frames)
  | step => over o0 (fs ++ frames) closed step
  end.
Proof.
  revert fs st. induction frames as [|f frames IH]; intros fs st Hr Hwhole Hend; cbn; [by rewrite app_nil_r|].
  apply Forall_cons in Hwhole as [Hwf Hwhole]. pose proof (relay_frame_spec o0 fs st f Hr Hwf) as Hf. revert Hf.
  destruct (relay_frame from_str credentials served_model format f st) as [st'|st'|o|s o].
  - intros (Hr' & Hsse & He). specialize (IH (fs ++ [f]) st' Hr' Hwhole). rewrite <- app_assoc in IH. cbn in IH.
    assert (Forall (λ f, ends_response f = false) (fs ++ [f])) as Hend' by (apply Forall_app; by repeat constructor).
    specialize (IH Hend'). rewrite Hsse in IH. apply IH.
  - intros [Hr' He]. exists (fs ++ [f]), st'. split_and!; [done| |done|by exists fs, f].
    exists frames. by rewrite <- app_assoc.
  - intros [-> Hroom]. exists fs, st. split_and!; [done|by exists (f :: frames)|done|by left].
  - intros [-> Hs]. exists fs, st. split_and!; [done|by exists (f :: frames)|done|congruence].
Qed.

Definition frames_of (b : bytes) : list SseFrame := map frame_of (split_frames b).1.
Lemma frames_of_app b c : frames_of (b ++ c) = frames_of b ++ frames_of ((split_frames b).2 ++ c).
Proof. unfold frames_of. rewrite split_frames_app. apply map_app. Qed.

(** Between reads: the frames of the bytes [b] so far are sent. *)
Record reading (o0 : Outbox) (b : bytes) (st : RelayState) : Prop := {
  rg_relayed : relayed o0 (frames_of b) st;
  rg_rest : at_rest (rl_frames st) (split_frames b).2;
  rg_open : Forall (λ f, ends_response f = false) (frames_of b);
}.
Lemma reading_start o : reading o [] (relay_start served_model format o).
Proof. constructor; [apply relayed_start|apply at_rest_default|constructor]. Qed.
Lemma over_here o0 b c st closed step :
  reading o0 b st →
  match step with
  | Next st' => st' = st
  | Finished _ => False
  | Gone o => o = rl_outbox st ∧ closed
  | Failed s o => o = rl_outbox st ∧ (st_retryable s = true → rl_saw_output st = false ∧ (rl_stated_error st = false ∨ s = no_output_before_deadline))
  end → over o0 (frames_of (b ++ c)) closed step.
Proof.
  intros [Hr _ Ho] H. exists (frames_of b), st. split_and!; [done|eexists; apply frames_of_app|].
  destruct step; [by subst|done| |]; destruct H as [-> H]; split; try done; [by right|].
  intros Hs. specialize (H Hs). destruct Hr as [_ _ Hsaw Herr _ _ _]. by rewrite Hsaw, Herr in H.
Qed.

Lemma relay_bytes_spec o0 b c st closed :
  reading o0 b st →
  match relay_bytes from_str credentials served_model format c st with
  | Next st' => reading o0 (b ++ c) st'
  | step => over o0 (frames_of (b ++ c)) closed step
  end.
Proof.
  intros Hrd. unfold relay_bytes. pose proof (push_spec c (rl_frames st) _ (rg_rest _ _ _ Hrd)) as Hp. revert Hp.
  destruct (push c (rl_frames st)) as [[frames|e] sse].
  - intros (-> & Hrest & Hutf & _). destruct Hrd as [Hr _ Hopen].
    pose proof (relay_frames_spec o0 _ (map frame_of (split_frames ((split_frames b).2 ++ c)).1) _ closed (relayed_frames _ _ _ sse Hr) (whole_frames _ Hutf) Hopen) as Hs.
    fold (frames_of ((split_frames b).2 ++ c)) in *. rewrite <- frames_of_app in Hs. revert Hs.
    destruct (relay_frames _ _ _ _ _ _) as [st'| | |]; try done. intros (Hr' & Hsse & Ho').
    constructor; [done| |done]. rewrite Hsse, split_frames_app. cbn. done.
  - intros _. apply (over_here o0 b c st closed); [done|]. by split.
Qed.

(** The bytes that the provider sends, and the line feeds that end an unterminated frame. *)
Definition sent_bytes (items : list ReadItem) : bytes :=
  List.concat (omap (λ item, match item with Chunk b => Some b | _ => None end) items).
Definition provider_frames (items : list ReadItem) : list SseFrame := frames_of (sent_bytes items ++ [LF; LF]).

Lemma relay_items_spec o0 b items st :
  reading o0 b st →
  over o0 (frames_of (b ++ sent_bytes items ++ [LF; LF])) (Closed ∈ items)
    (relay_items from_str credentials served_model format items st).
Proof.
  revert b st. induction items as [|[c|error retryable| |] items IH]; intros b st Hrd; cbn [relay_items].
  - destruct (is_empty_frames (rl_frames st)); [by apply (over_here o0 b _ st)|].
    pose proof (relay_bytes_spec o0 b [LF; LF] st (Closed ∈ []) Hrd) as Hb. revert Hb. cbn [sent_bytes omap list_omap List.concat app].
    destruct (relay_bytes _ _ _ _ _ _) as [st'| | |]; try done. intros Hrd'.
    pose proof (over_here o0 _ [] st' (Closed ∈ []) (Next st') Hrd' eq_refl) as H. by rewrite app_nil_r in H.
  - pose proof (relay_bytes_spec o0 b c st (Closed ∈ Chunk c :: items) Hrd) as Hb. revert Hb.
    assert (b ++ sent_bytes (Chunk c :: items) ++ [LF; LF] = (b ++ c) ++ sent_bytes items ++ [LF; LF]) as ->.
    { unfold sent_bytes. cbn. by rewrite <- !app_assoc. }
    destruct (relay_bytes _ _ _ _ _ _) as [st'| | |]; [intros Hrd'; eapply over_mono; [by apply IH|done|by right]|..];
      intros Ho; (eapply over_mono; [exact Ho|rewrite (frames_of_app (b ++ c)); by eexists|done]).
  - apply (over_here o0 b _ st); [done|]. split; [done|]. unfold read_failure.
    destruct (rl_saw_output st), (rl_stated_error st), retryable; try done. cbn. intros _. split; [done|by left].
  - destruct (rl_saw_output st) eqn:Hsaw.
    + eapply over_mono; [by apply IH|done|by right].
    + apply (over_here o0 b _ st); [done|]. split; [done|]. intros _. split; [done|by right].
  - apply (over_here o0 b _ st); [done|]. split; [done|]. apply list_elem_of_here.
Qed.

Lemma over_prefix o0 all closed step : over o0 all closed step → ∃ fs st, relayed o0 fs st ∧ fs `prefix_of` all.
Proof. intros (fs & st & Hr & Hp & _). by exists fs, st. Qed.

Lemma send_last_sent event o :
  ob_sent (send_last event o) = ob_sent o ++ (if bool_decide (ob_room o = 0%nat) then [] else [event]).
Proof. unfold send_last, send. destruct (ob_room o); cbn; [by rewrite app_nil_r|done]. Qed.

(** A streamed response, whole: the frames sent, the bill, and what the result means. *)
Definition stream_outcome (items : list ReadItem) (o : Outbox) (r : Metered ()) (o' : Outbox) (fs : list SseFrame)
    (bill : option BillingUsage) : Prop :=
  fs `prefix_of` provider_frames items ∧
  ob_sent o' = ob_sent o ++ map data_event fs ++ map Usage (option_list bill) ∧
  Forall (λ f, echoes_seller_key credentials (fr_bytes f) = false) fs ∧ vetted fs ∧ Forall readable fs ∧
  (∃ meter, observe_all (omap frame_event fs) (UsageMeter_new format) = Ok meter ∧
     ∀ u, bill = Some u → r = Ok () ∧ UsageMeter_finish (saw fs) meter = Ok (Some u)) ∧
  match r with
  | Ok () => Closed ∉ items → ob_room o' ≠ 0%nat →
      ∃ before f meter, fs = before ++ [f] ∧ Forall (λ f, ends_response f = false) before ∧ ends_response f = true ∧
        observe_all (omap frame_event fs) (UsageMeter_new format) = Ok meter ∧ UsageMeter_finish (saw fs) meter = Ok bill
  | Err s => st_retryable s = true → saw fs = false ∧ (existsb frame_error fs = false ∨ s = no_output_before_deadline)
  end.

Lemma relay_stream_outcome items o :
  let '(r, o') := relay_stream from_str credentials served_model format items o in
  ∃ fs bill, stream_outcome items o r o' fs bill.
Proof.
  unfold relay_stream. pose proof (relay_items_spec o [] items _ (reading_start o)) as (fs & st & Hr & Hp & H).
  cbn [app] in Hp. fold (provider_frames items) in Hp.
  assert (∀ r o', ob_sent o' = ob_sent (rl_outbox st) → match r with Ok () => Closed ∉ items → ob_room o' ≠ 0%nat →
      ∃ before f meter, fs = before ++ [f] ∧ Forall (λ f, ends_response f = false) before ∧ ends_response f = true ∧
        observe_all (omap frame_event fs) (UsageMeter_new format) = Ok meter ∧ UsageMeter_finish (saw fs) meter = Ok None
      | Err s => st_retryable s = true → saw fs = false ∧ (existsb frame_error fs = false ∨ s = no_output_before_deadline) end →
    ∃ fs bill, stream_outcome items o r o' fs bill) as Hnone.
  { intros r o' Hsent Hres. exists fs, None. unfold stream_outcome. rewrite Hsent, (rd_sent _ _ _ Hr). cbn. rewrite app_nil_r.
    split_and!; [done|done|apply Hr|apply Hr|apply Hr| |done]. exists (rl_meter st). by split; [apply Hr|]. }
  destruct (relay_items _ _ _ _ _ _) as [st'|st'|o'|s o']; [| | |].
  - destruct H as [-> Hend]. apply Hnone; [done|]. rewrite (rd_saw _ _ _ Hr), (rd_error _ _ _ Hr).
    destruct (saw fs), (existsb frame_error fs); try done. intros _. split; [done|by left].
  - destruct H as (-> & before & f & -> & Hb & Hf). rewrite (rd_saw _ _ _ Hr).
    pose proof (rd_meter _ _ _ Hr) as Hm. destruct (UsageMeter_finish (saw (before ++ [f])) (rl_meter st)) as [[u|]|s] eqn:Hfin.
    + exists (before ++ [f]), (if bool_decide (ob_room (rl_outbox st) = 0%nat) then None else Some u). unfold stream_outcome.
      rewrite send_last_sent, (rd_sent _ _ _ Hr). case_bool_decide as Hroom; cbn; rewrite <- app_assoc.
      * split_and!; [done|done|apply Hr|apply Hr|apply Hr|exists (rl_meter st); by split|].
        intros _ Hno. destruct Hno. unfold send_last, send. by rewrite Hroom; cbn.
      * split_and!; [done|done|apply Hr|apply Hr|apply Hr| |intros _ _; by exists before, f, (rl_meter st)].
        exists (rl_meter st). split; [done|]. by intros ? [= <-].
    + apply Hnone; [done|]. intros _ _. by exists before, f, (rl_meter st).
    + apply Hnone; [done|]. apply UsageMeter_finish_final in Hfin. congruence.
  - destruct H as [-> Hgone]. apply Hnone; [done|]. intros Hc Hroom. by destruct Hgone.
  - destruct H as [-> Hs]. by apply Hnone.
Qed.

(** ** Properties *)

(** Of a streamed response the buyer receives a prefix of the provider's frames, in order
    and byte for byte, each marked with whether it carries output, and after them at most one
    bill; no frame that names the seller's key is sent; the first model that the provider
    names before output is one the seller accepts; and a failure that invites a retry comes
    before any output, and before any error the provider stated unless it is the deadline. *)
Theorem provider_frames_unaltered items o :
  let '(r, o') := relay_stream from_str credentials served_model format items o in
  ∃ fs bill,
    fs `prefix_of` provider_frames items ∧
    ob_sent o' = ob_sent o ++ map data_event fs ++ map Usage (option_list bill) ∧
    Forall (λ f, echoes_seller_key credentials (fr_bytes f) = false) fs ∧
    vetted fs ∧
    ∀ s, r = Err s → bill = None ∧
      (st_retryable s = true → saw fs = false ∧ (existsb frame_error fs = false ∨ s = no_output_before_deadline)).
Proof.
  pose proof (relay_stream_outcome items o) as H. revert H.
  destruct (relay_stream _ _ _ _ _ _) as [r o']. intros (fs & bill & Hp & Hsent & Hc & Hv & _ & (meter & _ & Hb) & Hr).
  exists fs, bill. split_and!; [done..|]. intros s ->. split; [|done]. destruct bill as [u|]; [by destruct (Hb u eq_refl)|done].
Qed.

(** The verdict of the meter on frames is a sound bill. *)
Lemma bill_of_frames fs meter bill :
  (∀ s v, from_str s = Ok v → typed_value v) →
  observe_all (omap frame_event fs) (UsageMeter_new format) = Ok meter → UsageMeter_finish (saw fs) meter = Ok bill → sound_bill (saw fs) bill.
Proof.
  intros Htyped Hm. apply finish_sound. eapply observe_all_ok; [|apply meter_ok_new|exact Hm].
  apply Forall_forall. intros [v facts] (f & _ & Hf)%list_elem_of_omap.
  unfold frame_event, parsed, parse_frame in Hf. destruct (frame_parts (fr_text f)) as [name data].
  destruct (String.eqb data ""); [done|]. destruct (String.eqb (trim data) "[DONE]"); [done|].
  destruct (from_str data) as [w|] eqn:Hw; [|done]. cbn in Hf. injection Hf as <- _. by eapply Htyped.
Qed.

(** C25: a streamed response is billed for what was delivered and for nothing else.  A bill is
    a valid record of positive output, it is the verdict of the meter on exactly the frames
    that were sent, some of which carry output, and the relay succeeds with it; and when the
    relay succeeds for a buyer who is still there, the response was complete, and output was
    delivered exactly if it is billed. *)
Theorem delivered_output_is_billed items o :
  (∀ s v, from_str s = Ok v → typed_value v) →
  let result := relay_stream from_str credentials served_model format items o in
  ∃ fs bill,
    ob_sent result.2 = ob_sent o ++ map data_event fs ++ map Usage (option_list bill) ∧
    (∀ u, bill = Some u → result.1 = Ok () ∧ saw fs = true ∧ usage_ok u ∧ 0 < bu_output_tokens u ∧
       ∃ meter, observe_all (omap frame_event fs) (UsageMeter_new format) = Ok meter ∧ UsageMeter_finish true meter = Ok (Some u)) ∧
    (result.1 = Ok () → Closed ∉ items → ob_room result.2 ≠ 0%nat →
       existsb ends_response fs = true ∧ saw fs = bool_decide (is_Some bill)).
Proof.
  intros Htyped result. subst result. pose proof (relay_stream_outcome items o) as H. revert H.
  destruct (relay_stream _ _ _ _ _ _) as [r o']. cbn [fst snd]. intros (fs & bill & Hp & Hsent & _ & _ & _ & (meter & Hm & Hb) & Hr).
  exists fs, bill. split_and!; [done| |].
  - intros u Hu. destruct (Hb u Hu) as [-> Hfin]. pose proof (bill_of_frames _ _ _ Htyped Hm Hfin) as Hs.
    destruct (saw fs); [|done]. destruct Hs as (w & [= <-] & Hw & Hpos). split_and!; [done..|]. by exists meter.
  - intros -> Hc Hroom. destruct (Hr Hc Hroom) as (before & f & meter' & -> & _ & Hf & Hm' & Hfin).
    split; [rewrite existsb_app; cbn; by rewrite Hf, orb_true_r|]. rewrite Hm in Hm'. injection Hm' as <-.
    pose proof (bill_of_frames _ _ _ Htyped Hm Hfin) as Hs. destruct (saw (before ++ [f])); cbn in Hs; [by destruct Hs as (w & -> & _)|by subst].
Qed.

(** What of an event is the provider's: the bytes of its payload. *)
Definition payload (event : UpstreamEvent) : bytes := match event with Data b _ => b | _ => [] end.
Definition payloads (events : list UpstreamEvent) : bytes := List.concat (map payload events).
Definition heads_clean (events : list UpstreamEvent) : Prop :=
  ∀ head, Head head ∈ events → head_names_seller_key credentials head = false.
Definition keyless (w : bytes) (events : list UpstreamEvent) : Prop := has_window w (payloads events) = false.

Lemma echoes_none c b : c ∈ credentials → key_echo c.2 ≠ [] → echoes_seller_key credentials b = false → has_window (key_echo c.2) b = false.
Proof.
  intros Hc Hne Hb. apply not_true_iff_false. intros Hw. apply not_true_iff_false in Hb. apply Hb. unfold echoes_seller_key.
  rewrite existsb_exists. exists c. split; [by apply list_elem_of_In|]. by rewrite bool_decide_eq_false_2.
Qed.

Lemma payloads_app l1 l2 : payloads (l1 ++ l2) = payloads l1 ++ payloads l2.
Proof. unfold payloads. by rewrite map_app, List.concat_app. Qed.
Lemma payloads_bill bill : payloads (map Usage (option_list bill)) = [].
Proof. by destruct bill. Qed.
Lemma payloads_frames fs : payloads (map data_event fs) = List.concat (map fr_bytes fs).
Proof. unfold payloads. by rewrite map_map. Qed.
Lemma send_Some event o o' : send event o = Some o' → ob_sent o' = ob_sent o ++ [event].
Proof. unfold send. destruct (ob_room o); [done|by intros [= <-]]. Qed.

(** What a response adds to the events sent before: no head, and no key. *)
Definition adds_no_key (o o' : Outbox) : Prop :=
  ∃ new, ob_sent o' = ob_sent o ++ new ∧ (∀ head, Head head ∉ new) ∧
    ∀ c, c ∈ credentials → key_echo c.2 ≠ [] → LF ∉ key_echo c.2 → keyless (key_echo c.2) new.
Lemma adds_nothing o : adds_no_key o o.
Proof. exists []. split_and!; [by rewrite app_nil_r|intros head; apply not_elem_of_nil|]. intros c _ Hne _. unfold keyless. by destruct (key_echo c.2). Qed.
Lemma adds_data o b output bill o' :
  echoes_seller_key credentials b = false →
  ob_sent o' = ob_sent o ++ Data b output :: map Usage (option_list bill) → adds_no_key o o'.
Proof.
  intros Hb Ho. exists (Data b output :: map Usage (option_list bill)). split_and!; [done|destruct bill; set_solver|].
  intros c Hc Hne _. unfold keyless. change (payloads (Data b output :: ?l)) with (b ++ payloads l). rewrite payloads_bill, app_nil_r.
  by apply echoes_none.
Qed.

Lemma relay_stream_adds items o :
  adds_no_key o (relay_stream from_str credentials served_model format items o).2.
Proof.
  pose proof (relay_stream_outcome items o) as H. revert H. destruct (relay_stream _ _ _ _ _ _) as [r o'].
  intros (fs & bill & [rest Hp] & Hsent & Hc & _). exists (map data_event fs ++ map Usage (option_list bill)). split_and!; [done| |].
  - intros head [(f & [=] & _)%list_elem_of_In%in_map_iff|Hu]%elem_of_app. destruct bill; set_solver.
  - intros c Hin Hne Hlf. unfold keyless. rewrite payloads_app, payloads_bill, app_nil_r, payloads_frames.
    apply no_window_concat; [done| |done]. apply Forall_map. rewrite Forall_forall in Hc. apply Forall_forall.
    intros f Hf. split; [|apply echoes_none; auto].
    assert (f ∈ provider_frames items) as Hpf by (rewrite Hp; apply elem_of_app; by left).
    apply list_elem_of_In, in_map_iff in Hpf as (t & <- & _). exists (t ++ [LF]). cbn. by rewrite <- app_assoc.
Qed.
Lemma relay_body_adds items o :
  adds_no_key o (relay_body from_str credentials served_model format items o).2.
Proof.
  unfold relay_body. destruct (read_whole _ _ _ _) as [[b|]|s]; [|apply adds_nothing..].
  destruct (judge_body _ _ _ _ b) as [[output usage]|s] eqn:Hj; [|apply adds_nothing].
  destruct (send (Data b output) o) as [o1|] eqn:Hs; [|apply adds_nothing]. apply send_Some in Hs.
  assert (echoes_seller_key credentials b = false) as Hb.
  { unfold judge_body in Hj. destruct b; [done|]. by destruct (echoes_seller_key credentials _). }
  destruct usage as [u|]; cbn.
  - eapply (adds_data _ b output (if bool_decide (ob_room o1 = 0%nat) then None else Some u)); [done|].
    rewrite send_last_sent, Hs, <- app_assoc. by case_bool_decide.
  - by eapply (adds_data _ b output None).
Qed.

(** No header names the key, and neither do the payloads put together. *)
Definition no_key_in (events : list UpstreamEvent) : Prop :=
  (∀ head, Head head ∈ events → head_names_seller_key credentials head = false) ∧
  ∀ c, c ∈ credentials → key_echo c.2 ≠ [] → LF ∉ key_echo c.2 → keyless (key_echo c.2) events.
Lemma no_key_in_nothing o : ob_sent o = [] → no_key_in (ob_sent o).
Proof. intros ->. split; [intros head Hh; by apply not_elem_of_nil in Hh|]. intros c _ Hne _. unfold keyless. by destruct (key_echo c.2). Qed.
Lemma no_key_after_head o head o1 o' :
  ob_sent o = [] → send (Head head) o = Some o1 → head_names_seller_key credentials head = false →
  adds_no_key o1 o' → no_key_in (ob_sent o').
Proof.
  intros Ho Ho1%send_Some Hh (new & -> & Hnew & Hk). rewrite Ho1, Ho. split.
  - intros head' [[= ->]%list_elem_of_singleton|Hin]%elem_of_app; [done|by destruct (Hnew head')].
  - intros c Hc Hne Hlf. unfold keyless. rewrite payloads_app. exact (Hk c Hc Hne Hlf).
Qed.

(** C27: the seller's key stays with the seller.  Whatever the provider answers and however its
    answer is cut, no header that reaches the buyer names the key, and neither do the bytes of
    the answer that reach the buyer, put together. *)
Theorem seller_key_stays_home status_text stream code headers items o :
  ob_sent o = [] →
  no_key_in (ob_sent (forward_response from_str status_text credentials served_model format stream code headers items o).2).
Proof.
  intros Ho. pose proof (no_key_in_nothing o Ho) as Hnone. unfold forward_response. destruct (_ || _ || _); [done|]. cbv zeta.
  set (head := {| rh_status := code; rh_headers := forwarded_response_headers headers |}).
  destruct (head_names_seller_key credentials head) eqn:Hhead; [done|]. destruct (negb (is_success code)).
  - destruct (read_whole _ _ _ _) as [[error|]|s]; [|done..].
    destruct (echoes_seller_key credentials error) eqn:Hecho; [done|].
    destruct (send (Head head) o) as [o1|] eqn:Hs; [|done]. apply (no_key_after_head o head o1); [done..|].
    destruct error as [|b error]; [apply adds_nothing|]. destruct (decide (ob_room o1 = 0%nat)) as [Hroom|Hroom].
    + unfold send_last, send. rewrite Hroom. apply adds_nothing.
    + apply (adds_data _ (b :: error) false None); [done|]. cbn [snd]. by rewrite send_last_sent, bool_decide_eq_false_2.
  - destruct (send (Head head) o) as [o1|] eqn:Hs; [|done]. apply (no_key_after_head o head o1); [done..|].
    destruct stream; [apply relay_stream_adds|apply relay_body_adds].
Qed.
End Relay.

(** * Responses: examples

    Two providers' streams, cut at odd places, with the frames and the bill that the buyer
    gets; the properties of the meter and of the relay at these inputs. *)

(** A text with apostrophes for quotation marks and [|] for the line feed. *)
Definition quoted (s : string) : string :=
  of_bytes (map (λ c, if Ascii.eqb c "'"%char then char 34 else if Ascii.eqb c "|"%char then LF else c) (to_bytes s)).
Definition count (field : string) (n : Z) : string * Value := (field, RustText.Num (PosInt n)).

(** ** A chat completion *)

Definition chat_delta : Value :=
  Object [("model"%string, Str "m-1"); ("choices"%string, Array [Object [("delta"%string, Object [("content"%string, Str "Hi")])]])].
Definition chat_record : Value := Object [("usage"%string, Object [count "prompt_tokens" 10; count "completion_tokens" 2; count "total_tokens" 12])].
(** ** A message *)

Definition message_start : Value :=
  Object [("type"%string, Str "message_start");
    ("message"%string, Object [("usage"%string, Object [count "input_tokens" 10; count "cache_read_input_tokens" 3; count "output_tokens" 1])])].
Definition text_delta : Value :=
  Object [("type"%string, Str "content_block_delta"); ("delta"%string, Object [("type"%string, Str "text_delta"); ("text"%string, Str "Hi")])].
Definition message_delta : Value :=
  Object [("type"%string, Str "message_delta"); ("usage"%string, Object [count "output_tokens" 7; count "cache_read_input_tokens" 4])].
Definition message_stop : Value := Object [("type"%string, Str "message_stop")].

(** The texts of these values. *)
Definition documents : list (string * Value) := [
  (quoted "{'model':'m-1','choices':[{'delta':{'content':'Hi'}}]}", chat_delta);
  (quoted "{'usage':{'prompt_tokens':10,'completion_tokens':2,'total_tokens':12}}", chat_record);
  (quoted "{'type':'message_start','message':{'usage':{'input_tokens':10,'cache_read_input_tokens':3,'output_tokens':1}}}", message_start);
  (quoted "{'type':'content_block_delta','delta':{'type':'text_delta','text':'Hi'}}", text_delta);
  (quoted "{'type':'message_delta','usage':{'output_tokens':7,'cache_read_input_tokens':4}}", message_delta);
  (quoted "{'type':'message_stop'}", message_stop)].
Definition sample_from_str (s : string) : Result string Value := ok_or (assoc s documents) "expected value"%string.

Lemma documents_typed s v : sample_from_str s = Ok v → typed_value v.
Proof.
  unfold sample_from_str. intros H%ok_or_Ok. assert (Forall (λ d, typed_value d.2) documents) as Hall.
  { repeat constructor; cbn; unfold in_range; cbn; lia. }
  revert H. generalize dependent documents. intros l Hl. induction Hl as [|[k w] l Hw _ IH]; [done|]. cbn.
  destruct (String.eqb s k); [by intros [= <-]|done].
Qed.

Definition chat_events : list (Value * ResponseFacts) := map (λ v, (v, event_facts ChatCompletions v)) [chat_delta; chat_record].
Definition chat_bill : BillingUsage := {|
  bu_input_tokens := 10; bu_output_tokens := 2; bu_total_tokens := 12; bu_charged_tokens := None; bu_cache_read_tokens := 0; bu_cache_write_tokens := 0 |}.
Definition message_events : list (Value * ResponseFacts) :=
  map (λ v, (v, event_facts Messages v)) [message_start; text_delta; message_delta; message_stop].
Definition message_bill : BillingUsage := {|
  bu_input_tokens := 14; bu_output_tokens := 7; bu_total_tokens := 21; bu_charged_tokens := None; bu_cache_read_tokens := 4; bu_cache_write_tokens := 0 |}.

Lemma message_events_typed : Forall (λ e : Value * ResponseFacts, typed_value e.1) message_events.
Proof. repeat constructor; cbn; unfold in_range; cbn; lia. Qed.

Definition chat_final_meter : UsageMeter := Aggregate ChatCompletions (Some chat_bill).
Definition message_final_meter : UsageMeter := MessagesOf {|
  mm_started := true; mm_input := Some 10; mm_output := Some 7; mm_post_output := Some 7; mm_cache_read := 4; mm_cache_write := 0 |}.

Lemma aggregate_bill_exact_witness : 0 < bu_output_tokens chat_bill ∧ ∃ l, collect (statement_of ChatCompletions) chat_events = Ok l ∧ bill_follows l (Some chat_bill).
Proof. apply (aggregate_bill_exact ChatCompletions chat_events chat_bill); [done|vm_compute; reflexivity]. Defined.

Lemma bill_is_sound_witness : sound_bill true (Some message_bill).
Proof.
  apply (bill_is_sound Messages message_events message_final_meter true (Some message_bill));
    [exact message_events_typed|vm_compute; reflexivity|vm_compute; reflexivity].
Defined.

Lemma messages_bill_covers_the_stream_witness :
  Forall (λ e, ∃ c, stated_counts e.1 = Ok c ∧
    opt_le (mc_output c) 7 ∧ opt_le (mc_cache_read c) 4 ∧ opt_le (mc_cache_write c) 0 ∧ opt_le (mc_input c) 10) message_events.
Proof.
  apply (messages_bill_covers_the_stream message_events message_final_meter message_bill);
    [exact message_events_typed|vm_compute; reflexivity|vm_compute; reflexivity].
Defined.

(** ** The relay *)

Definition seller_credentials : list (string * string) := [("authorization"%string, "Bearer sk-42"%string)].
Definition provider_stream : string :=
  quoted "data: {'model':'m-1','choices':[{'delta':{'content':'Hi'}}]}||data: {'usage':{'prompt_tokens':10,'completion_tokens':2,'total_tokens':12}}||data: [DONE]||".
(** The reads cut the first frame, and the end of the second. *)
Definition provider_reads : list ReadItem :=
  let b := to_bytes provider_stream in [Chunk (take 20 b); Chunk (drop 20 (take 132 b)); Deadline; Chunk (drop 132 b)].
Definition fresh_outbox : Outbox := {| ob_sent := []; ob_room := 9 |}.
Definition relayed_sample : Metered () * Outbox := relay_stream sample_from_str seller_credentials None ChatCompletions provider_reads fresh_outbox.
Example the_buyer_gets_frames_and_bill :
  relayed_sample.1 = Ok () ∧ map (λ e, of_bytes (payload e)) (ob_sent relayed_sample.2) =
    [quoted "data: {'model':'m-1','choices':[{'delta':{'content':'Hi'}}]}||";
     quoted "data: {'usage':{'prompt_tokens':10,'completion_tokens':2,'total_tokens':12}}||"; quoted "data: [DONE]||"; ""%string] ∧
  last (ob_sent relayed_sample.2) = Some (Usage chat_bill).
Proof. vm_compute. done. Qed.

Lemma delivered_output_is_billed_witness :
  ∃ fs bill,
    ob_sent relayed_sample.2 = ob_sent fresh_outbox ++ map (data_event sample_from_str ChatCompletions) fs ++ map Usage (option_list bill) ∧
    existsb (ends_response sample_from_str ChatCompletions) fs = true ∧ saw sample_from_str ChatCompletions fs = bool_decide (is_Some bill).
Proof.
  destruct (delivered_output_is_billed sample_from_str seller_credentials None ChatCompletions provider_reads fresh_outbox documents_typed)
    as (fs & bill & Hsent & _ & Hdone).
  exists fs, bill. split; [exact Hsent|]. apply Hdone; [vm_compute; reflexivity| |vm_compute; discriminate].
  unfold provider_reads. intros H. repeat (apply elem_of_cons in H as [H|H]; [discriminate H|]). by apply not_elem_of_nil in H.
Defined.

(** A provider that echoes the seller's key in an error: the seller's own error instead. *)
Definition provider_error : list ReadItem := [Chunk (to_bytes "bad key sk-"); Chunk (to_bytes "42 (revoked)")].
Definition refused_sample : Metered () * Outbox :=
  forward_response sample_from_str (λ _, "Bad Request"%string) seller_credentials None ChatCompletions true 400
    [{| hd_name := "content-type"; hd_value := to_bytes "text/plain" |}] provider_error fresh_outbox.
Example nothing_of_the_error_is_sent : refused_sample = (Err key_named_failure, fresh_outbox).
Proof. vm_compute. done. Qed.

Lemma seller_key_stays_home_witness : no_key_in seller_credentials (ob_sent refused_sample.2).
Proof.
  apply (seller_key_stays_home sample_from_str seller_credentials None ChatCompletions (λ _, "Bad Request"%string) true 400
           [{| hd_name := "content-type"; hd_value := to_bytes "text/plain" |}] provider_error fresh_outbox).
  vm_compute. reflexivity.
Defined.
