(* ===== verification/ChainEvents.v ===== *)
(** * Events of the chain's contracts

    The decoders of crates/core/src/chain/book_events.rs, order_events.rs and note_events.rs:
    from the tokens of an event or call to what the client uses of it.  Base64, the cell format
    and the ABI codec are third-party: a body is [unpack]ed to nothing (not an event of the
    contract), or to the name of the event and its decoded input. *)
From S2P Require Import Prelude RustText Params DealTypes.

(** ** Tokens *)

Inductive TokenValue : Type := UintToken (n : Z) | BoolToken (b : bool) | AddressToken (a : string) | OtherToken.
Definition Token : Type := string * TokenValue.

(** [value.number.to_string().parse().ok()]. *)
Definition uint_at (w : uint) (n : Z) : option Z := if (0 <=? n) && (n <=? umax w) then Some n else None.

(** The first token of the name from which [read] reads something. *)
Fixpoint find_token {A} (read : TokenValue → option A) (name : string) (tokens : list Token) : option A :=
  match tokens with
  | [] => None
  | (got, value) :: tokens =>
      match (if String.eqb got name then read value else None) with
      | Some a => Some a
      | None => find_token read name tokens
      end
  end.
Definition missing (name : string) : text := f["event body missing or invalid "; name].
Definition named {A} (read : TokenValue → option A) (tokens : list Token) (name : string) : Result text A :=
  ok_or (find_token read name tokens) (missing name).
Definition named_uint (w : uint) : list Token → string → Result text Z :=
  named (λ value, match value with UintToken n => uint_at w n | _ => None end).
Definition named_u128 : list Token → string → Result text Z := named_uint u128.
Definition named_u64 : list Token → string → Result text Z := named_uint u64.
Definition named_u8 : list Token → string → Result text Z := named_uint u8.
Definition named_uint_decimal : list Token → string → Result text string :=
  named (λ value, match value with UintToken n => Some (to_string n) | _ => None end).
Definition named_bool : list Token → string → Result text bool :=
  named (λ value, match value with BoolToken b => Some b | _ => None end).
Definition named_address : list Token → string → Result text string :=
  named (λ value, match value with AddressToken a => Some a | _ => None end).

(** ** Events of the order book *)

Record LiveBookOrder : Type := {
  lb_order_id : Z; lb_is_buy : bool; lb_price : Z; lb_ticks_remaining : Z; lb_note : string; lb_token_contract : string;
  lb_deadline : Z; lb_flags : Z; lb_expired_by_event : bool;
}.
Definition is_live_at (o : LiveBookOrder) (now_unix : Z) : bool :=
  negb (lb_expired_by_event o) && order_deadline_is_live (lb_is_buy o) (lb_deadline o) now_unix.

Inductive BookEvent : Type :=
| BookPlaced (order : LiveBookOrder)
| BookCancelled (order_id : Z)
| BookCancelRejected (order_id reason : Z) (note : string)
| BookFilled (maker_id taker_id ticks : Z)
| BookExpired (order_id : Z) (is_buy : bool) (note token_contract : string).

Record BookFillCandidate : Type := {
  bc_maker_id : Z; bc_taker_id : Z; bc_ticks : Z; bc_clearing_price : string;
  bc_seller_token_contract : string; bc_buyer_note : string; bc_seller_note : string;
}.

Section Decode.
(** The contract's codec, and [Address::parse] of the SDK. *)
Context (unpack : string → option (string * Result text (list Token))) (parse_address : string → Result text string).

Definition decode_input (body : string) (accepted_names : list string) : Result text (option (string * list Token)) :=
  match unpack body with
  | None => Ok None
  | Some (name, tokens) =>
      if negb (bool_decide (name ∈ accepted_names)) then Ok None else
      let? tokens := map_err (λ e, Lit "decode " :: Lit name :: Lit " body: " :: e) tokens in
      Ok (Some (name, tokens))
  end.

Definition decode_book_event (body : string) : Result text (option BookEvent) :=
  let? input := decode_input body ["InferenceOrderPlaced"; "InferenceOrderCancelled"; "InferenceOrderCancelRejected";
                                   "InferenceFilled"; "InferenceOrderExpired"]%string in
  match input with
  | None => Ok None
  | Some (name, tokens) =>
      if String.eqb name "InferenceOrderPlaced" then
        let? order_id := named_u128 tokens "orderId" in
        let? is_buy := named_bool tokens "isBuy" in
        let? price := named_u128 tokens "price" in
        let? ticks := named_u128 tokens "ticks" in
        let? note := named_address tokens "note" in
        let? token_contract := named_address tokens "tokenContract" in
        let? deadline := named_u64 tokens "deadline" in
        let? flags := named_u8 tokens "flags" in
        Ok (Some (BookPlaced {| lb_order_id := order_id; lb_is_buy := is_buy; lb_price := price; lb_ticks_remaining := ticks;
                                lb_note := note; lb_token_contract := token_contract; lb_deadline := deadline; lb_flags := flags;
                                lb_expired_by_event := false |}))
      else if String.eqb name "InferenceOrderCancelled" then
        let? order_id := named_u128 tokens "orderId" in
        Ok (Some (BookCancelled order_id))
      else if String.eqb name "InferenceOrderCancelRejected" then
        let? order_id := named_u128 tokens "orderId" in
        let? reason := named_u8 tokens "reason" in
        let? note := named_address tokens "note" in
        Ok (Some (BookCancelRejected order_id reason note))
      else if String.eqb name "InferenceFilled" then
        let? maker_id := named_u128 tokens "makerId" in
        let? taker_id := named_u128 tokens "takerId" in
        let? ticks := named_u128 tokens "ticks" in
        Ok (Some (BookFilled maker_id taker_id ticks))
      else
        let? order_id := named_u128 tokens "orderId" in
        let? is_buy := named_bool tokens "isBuy" in
        let? note := named_address tokens "note" in
        let? token_contract := named_address tokens "tokenContract" in
        Ok (Some (BookExpired order_id is_buy note token_contract))
  end.

Definition decode_seller_placement (body note tc : string) : Result text (option Z) :=
  let? event := decode_book_event body in
  match event with
  | Some (BookPlaced order) =>
      if negb (lb_is_buy order) && eq_ignore_ascii_case (lb_note order) note && eq_ignore_ascii_case (lb_token_contract order) tc
      then Ok (Some (lb_order_id order)) else Ok None
  | _ => Ok None
  end.

Definition normalize_book_address (raw : string) : Result text string := rmap to_ascii_lowercase (parse_address raw).
Definition decode_book_fill_candidate (body normalized_buyer_note : string) : Result text (option BookFillCandidate) :=
  let? input := decode_input body ["InferenceFilled"%string] in
  match input with
  | None => Ok None
  | Some (_, tokens) =>
      let? raw := named_address tokens "buyerNote" in
      let? buyer_note := normalize_book_address raw in
      if negb (String.eqb buyer_note normalized_buyer_note) then Ok None else
      let? maker_id := named_u128 tokens "makerId" in
      let? taker_id := named_u128 tokens "takerId" in
      let? ticks := named_u128 tokens "ticks" in
      let? clearing_price := named_uint_decimal tokens "clearingPrice" in
      let? tc := named_address tokens "sellerTC" in
      let? tc := normalize_book_address tc in
      let? seller := named_address tokens "sellerNote" in
      let? seller := normalize_book_address seller in
      Ok (Some {| bc_maker_id := maker_id; bc_taker_id := taker_id; bc_ticks := ticks; bc_clearing_price := clearing_price;
                  bc_seller_token_contract := tc; bc_buyer_note := buyer_note; bc_seller_note := seller |})
  end.

(** [None] inside: the event is the other side's. *)
Definition buyer_order_fact_kind (name : string) (tokens : list Token) : Result text (option BuyerOrderFactKind) :=
  if String.eqb name "InferenceOrderPlaced" then
    let? is_buy := named_bool tokens "isBuy" in
    if negb is_buy then Ok None else
    let? order_id := named_u128 tokens "orderId" in
    let? price := named_u128 tokens "price" in
    let? ticks := named_u128 tokens "ticks" in
    let? deadline := named_u64 tokens "deadline" in
    Ok (Some (FactPlaced order_id price ticks deadline))
  else if String.eqb name "InferenceOrderCancelled" then
    let? order_id := named_u128 tokens "orderId" in
    let? refunded := named_u128 tokens "refunded" in
    Ok (Some (FactCancelled order_id refunded))
  else if String.eqb name "InferenceOrderExpired" then
    let? is_buy := named_bool tokens "isBuy" in
    if negb is_buy then Ok None else
    let? order_id := named_u128 tokens "orderId" in
    Ok (Some (FactExpired order_id))
  else if String.eqb name "InferenceRefunded" then
    let? order_id := named_u128 tokens "orderId" in
    let? amount := named_u128 tokens "amount" in
    Ok (Some (FactRefunded order_id amount))
  else
    let? reason := named_u128 tokens "reason" in
    let? refund := named_u128 tokens "refund" in
    Ok (Some (FactRejected (unwrap_or 255 (uint_at u8 reason)) refund)).
Definition decode_buyer_order_fact (body : string) (created_at : Z) : Result text (option BuyerOrderFact) :=
  let? input := decode_input body ["InferenceOrderPlaced"; "InferenceOrderCancelled"; "InferenceOrderExpired";
                                   "InferenceRefunded"; "InferenceOrderRejected"]%string in
  match input with
  | None => Ok None
  | Some (name, tokens) =>
      let? kind := buyer_order_fact_kind name tokens in
      match kind with
      | None => Ok None
      | Some kind =>
          let? note := named_address tokens "note" in
          Ok (Some {| fact_created_at := created_at; fact_note := note; fact_kind := kind |})
      end
  end.

(** order_events.rs: the placement of a subscription. *)
Definition decode_subscription_placement (body : string) : Result text (option InferenceSubscriptionPlacement) :=
  let? input := decode_input body ["InferenceOrderPlaced"%string] in
  match input with
  | None => Ok None
  | Some (_, tokens) =>
      let? is_buy := named_bool tokens "isBuy" in
      if negb is_buy then Ok None else
      let? raw_flags := named_u128 tokens "flags" in
      if negb (unwrap_or 0 (uint_at u8 raw_flags) =? Z.lor flags.AON flags.SUBSCRIPTION) then Ok None else
      let? order_id := named_u128 tokens "orderId" in
      let? note := named_address tokens "note" in
      let? price := named_u128 tokens "price" in
      let? ticks := named_u128 tokens "ticks" in
      let? deadline := named_u128 tokens "deadline" in
      Ok (Some {| ip_order_id := order_id; ip_buyer_note := note; ip_max_price_per_tick := price; ip_ticks := ticks;
                  ip_sub_weeks := SUBSCRIPTION_WEEKS; ip_deadline := unwrap_or (umax u64) (uint_at u64 deadline);
                  ip_created_at := 0 |})
  end.

(** ** Events and calls of a note *)

(** The loop over the tokens: every token of the name and the type sets the value anew, and a
    number out of range clears it. *)
Definition last_token {A} (read : TokenValue → option (option A)) (name : string) (tokens : list Token) : option A :=
  fold_left (λ acc token, match (if String.eqb token.1 name then read token.2 else None) with Some v => v | None => acc end)
    tokens None.
Definition last_address : string → list Token → option string :=
  last_token (λ value, match value with AddressToken a => Some (Some a) | _ => None end).
Definition last_u128 : string → list Token → option Z :=
  last_token (λ value, match value with UintToken n => Some (uint_at u128 n) | _ => None end).
Definition last_bool : string → list Token → option bool :=
  last_token (λ value, match value with BoolToken b => Some (Some b) | _ => None end).

Record InferencePlaced : Type := { pl_order_book : string; pl_token_contract : string; pl_order_id : Z; pl_is_buy : bool }.
Definition decode_inference_placed (body : string) : Result text (option InferencePlaced) :=
  let? input := decode_input body ["InferenceOrderPlacedConfirmed"%string] in
  match input with
  | None => Ok None
  | Some (_, tokens) =>
      match last_address "orderBook" tokens, last_address "tokenContract" tokens, last_u128 "orderId" tokens, last_bool "isBuy" tokens with
      | Some order_book, Some token_contract, Some order_id, Some is_buy =>
          Ok (Some {| pl_order_book := order_book; pl_token_contract := token_contract; pl_order_id := order_id; pl_is_buy := is_buy |})
      | _, _, _, _ =>
          Err f["InferenceOrderPlacedConfirmed body missing orderBook/tokenContract/orderId/isBuy -- ABI drift"]
      end
  end.

Record InferenceFilled : Type := {
  nf_order_book : string; nf_token_contract : string; nf_order_id : Z; nf_ticks : Z; nf_price_per_tick : Z; nf_is_buy : bool }.
Definition decode_inference_filled (body : string) : Result text (option InferenceFilled) :=
  let? input := decode_input body ["InferenceFilledConfirmed"%string] in
  match input with
  | None => Ok None
  | Some (_, tokens) =>
      match last_address "orderBook" tokens, last_address "tokenContract" tokens, last_u128 "orderId" tokens,
            last_u128 "ticks" tokens, last_u128 "clearingPrice" tokens, last_bool "isBuy" tokens with
      | Some order_book, Some token_contract, Some order_id, Some ticks, Some price, Some is_buy =>
          Ok (Some {| nf_order_book := order_book; nf_token_contract := token_contract; nf_order_id := order_id;
                      nf_ticks := ticks; nf_price_per_tick := price; nf_is_buy := is_buy |})
      | _, _, _, _, _, _ =>
          Err f["InferenceFilledConfirmed body missing orderBook/tokenContract/orderId/ticks/clearingPrice/isBuy -- ABI drift"]
      end
  end.

Record AttributedInferenceFilled : Type := {
  af_order_book : string; af_token_contract : string; af_order_id : Z; af_ticks : Z; af_price_per_tick : Z; af_is_buy : bool }.
Definition decode_attributed_inference_filled (body : string) : Result text (option AttributedInferenceFilled) :=
  let? filled := decode_inference_filled body in
  Ok (let* f := filled in
      Some {| af_order_book := nf_order_book f; af_token_contract := nf_token_contract f; af_order_id := nf_order_id f;
              af_ticks := nf_ticks f; af_price_per_tick := nf_price_per_tick f; af_is_buy := nf_is_buy f |}).

(** ** Calls of the book into a note *)

Record InferenceOrderCall : Type := { ic_model_hash : string; ic_order_id : Z }.
(** [{:064x}]. *)
Fixpoint hex_digits (width : nat) (n : Z) (acc : string) : string :=
  match width with O => acc | S width => hex_digits width (n / 16) (String (hex_char (n mod 16)) acc) end.
(** A body that is no call of the contract is unpacked to nothing. *)
Definition decode_note_call (unpack_call : string → option (string * Result text (list Token))) (body : string)
    : Result text (option (string * list Token)) :=
  match unpack_call body with
  | None => Ok None
  | Some (name, tokens) =>
      let? tokens := map_err (λ e, Lit "decode PrivateNote." :: Lit name :: Lit " inbound body: " :: e) tokens in
      Ok (Some (name, tokens))
  end.
Definition last_model_hash : list Token → option string :=
  last_token (λ value, match value with UintToken n => Some (Some ("0x" +:+ hex_digits 64 n EmptyString)) | _ => None end) "modelHash".
Definition inference_order_call_fields (tokens : list Token) : option InferenceOrderCall :=
  let* model_hash := last_model_hash tokens in
  let* order_id := last_u128 "orderId" tokens in
  Some {| ic_model_hash := model_hash; ic_order_id := order_id |}.
Definition decode_order_call (call : string) (unpack_call : string → option (string * Result text (list Token))) (body : string)
    : Result text (option InferenceOrderCall) :=
  let? input := decode_note_call unpack_call body in
  match input with
  | Some (name, tokens) =>
      if String.eqb name call then
        rmap Some (ok_or (inference_order_call_fields tokens) f[call; " body missing modelHash/orderId -- ABI drift"])
      else Ok None
  | None => Ok None
  end.
Definition decode_inference_placed_call := decode_order_call "onInferencePlaced".
Definition decode_inference_order_removed_call := decode_order_call "onInferenceOrderRemoved".
End Decode.
