(* ===== verification/BookFold.v ===== *)
(** * The view of the order book, folded from its events

    crates/core/src/chain/book_events.rs: [BookEventFold], the effect of one event, and the
    incremental reading of the paged history.  The page source is an argument: what it answers
    may depend on how often it was asked. *)
From S2P Require Import Prelude RustText DealTypes ChainEvents.

Record BookEventFold : Type := {
  bf_orders : gmap Z LiveBookOrder;
  bf_cancel_rejections : gmap (Z * string) Z;
  bf_last_seen_id : option string;
}.
Definition BookEventFold_default : BookEventFold := {| bf_orders := ∅; bf_cancel_rejections := ∅; bf_last_seen_id := None |}.
Definition set_bf_orders (v : gmap Z LiveBookOrder) (f : BookEventFold) : BookEventFold := {|
  bf_orders := v; bf_cancel_rejections := bf_cancel_rejections f; bf_last_seen_id := bf_last_seen_id f |}.
Definition set_bf_last_seen_id (v : option string) (f : BookEventFold) : BookEventFold := {|
  bf_orders := bf_orders f; bf_cancel_rejections := bf_cancel_rejections f; bf_last_seen_id := v |}.
Definition after_event_marker (event_marker : option string) : BookEventFold := set_bf_last_seen_id event_marker BookEventFold_default.

(** ** Views *)

Definition orders_in_order (m : gmap Z LiveBookOrder) : list LiveBookOrder :=
  map snd (stable_sort (λ a b : Z * LiveBookOrder, a.1 <=? b.1) (map_to_list m)).
Definition all_orders (f : BookEventFold) : list LiveBookOrder := orders_in_order (bf_orders f).
Definition live_orders_at (f : BookEventFold) (now_unix : Z) : list LiveBookOrder :=
  List.filter (λ o, is_live_at o now_unix) (all_orders f).
Definition live_sell_for_token_contract_at (f : BookEventFold) (token_contract : string) (now_unix : Z) : option LiveBookOrder :=
  List.find (λ o, negb (lb_is_buy o) && String.eqb (lb_token_contract o) token_contract) (live_orders_at f now_unix).

Definition rejection_le (a b : (Z * string) * Z) : bool :=
  (a.1.1 <? b.1.1) || ((a.1.1 =? b.1.1) && String.leb a.1.2 b.1.2).
Definition cancel_rejection_reason (f : BookEventFold) (order_id : Z) (owner_note : string) : option Z :=
  option_map snd (List.find (λ r, (r.1.1 =? order_id) && eq_ignore_ascii_case r.1.2 owner_note)
                    (stable_sort rejection_le (map_to_list (bf_cancel_rejections f)))).

(** ** One event *)

Definition set_ticks_remaining (v : Z) (o : LiveBookOrder) : LiveBookOrder := {|
  lb_order_id := lb_order_id o; lb_is_buy := lb_is_buy o; lb_price := lb_price o; lb_ticks_remaining := v; lb_note := lb_note o;
  lb_token_contract := lb_token_contract o; lb_deadline := lb_deadline o; lb_flags := lb_flags o; lb_expired_by_event := lb_expired_by_event o |}.
Definition set_expired (o : LiveBookOrder) : LiveBookOrder := {|
  lb_order_id := lb_order_id o; lb_is_buy := lb_is_buy o; lb_price := lb_price o; lb_ticks_remaining := lb_ticks_remaining o;
  lb_note := lb_note o; lb_token_contract := lb_token_contract o; lb_deadline := lb_deadline o; lb_flags := lb_flags o;
  lb_expired_by_event := true |}.

(** One side of a fill: a sell leaves the book, a buy is reduced. *)
Definition fill (order_id ticks : Z) (orders : gmap Z LiveBookOrder) : gmap Z LiveBookOrder :=
  match orders !! order_id with
  | None => orders
  | Some order =>
      if negb (lb_is_buy order) then delete order_id orders else
      let order := set_ticks_remaining (saturating_sub (lb_ticks_remaining order) ticks) order in
      if lb_ticks_remaining order =? 0 then delete order_id orders else <[order_id := order]> orders
  end.
Definition apply_event (event : BookEvent) (f : BookEventFold) : BookEventFold :=
  match event with
  | BookPlaced order => set_bf_orders (<[lb_order_id order := order]> (bf_orders f)) f
  | BookCancelled order_id => set_bf_orders (delete order_id (bf_orders f)) f
  | BookCancelRejected order_id reason note =>
      {| bf_orders := bf_orders f; bf_cancel_rejections := <[(order_id, note) := reason]> (bf_cancel_rejections f);
         bf_last_seen_id := bf_last_seen_id f |}
  | BookFilled maker_id taker_id ticks => set_bf_orders (fill taker_id ticks (fill maker_id ticks (bf_orders f))) f
  | BookExpired order_id _ _ _ =>
      match bf_orders f !! order_id with
      | None => f
      | Some order => set_bf_orders (<[order_id := set_expired order]> (bf_orders f)) f
      end
  end.

(** ** The paged history *)

Record BookEventMessage : Type := { bm_id : string; bm_created_at : Z; bm_cursor : string; bm_body : string }.
Record BookEventPage : Type := { bp_messages : list BookEventMessage; bp_previous_cursor : option string }.

(** The messages of a page that were not seen, in order. *)
Fixpoint take_new (page : list BookEventMessage) (seen_ids : gset string) (messages : list BookEventMessage)
    : gset string * list BookEventMessage :=
  match page with
  | [] => (seen_ids, messages)
  | message :: page =>
      if bool_decide (bm_id message ∈ seen_ids) then take_new page seen_ids messages
      else take_new page ({[bm_id message]} ∪ seen_ids) (messages ++ [message])
  end.
Definition holds_id (since_id : option string) (page : list BookEventMessage) : bool :=
  existsb (λ message, bool_decide (since_id = Some (bm_id message))) page.
Definition message_le (a b : BookEventMessage) : bool :=
  (bm_created_at a <? bm_created_at b) || ((bm_created_at a =? bm_created_at b) && String.leb (bm_cursor a) (bm_cursor b)).

Fixpoint index_of {A} (p : A → bool) (l : list A) : option nat :=
  match l with
  | [] => None
  | x :: l => if p x then Some O else option_map S (index_of p l)
  end.

Section Fold.
Context (decode : string → Result text (option BookEvent)) (fetch_page : nat → option string → Result text BookEventPage).

(** The loop over the pages, newest first: [None] when the fuel does not suffice. *)
Fixpoint read_pages (fuel calls : nat) (since_id before : option string) (found_since : bool) (seen_ids : gset string)
    (messages : list BookEventMessage) : option (Result text (bool * list BookEventMessage)) :=
  match fuel with
  | O => None
  | S fuel =>
      match fetch_page calls before with
      | Err e => Some (Err e)
      | Ok page =>
          let found_since := found_since || holds_id since_id (bp_messages page) in
          let '(seen_ids, messages) := take_new (bp_messages page) seen_ids messages in
          if bool_decide (is_Some since_id) && found_since then Some (Ok (found_since, messages)) else
          match bp_previous_cursor page with
          | None => Some (Ok (found_since, messages))
          | Some previous =>
              if bool_decide (before = Some previous) then Some (Err f["order-book ext-out pagination made no progress"])
              else read_pages fuel (S calls) since_id (Some previous) found_since seen_ids messages
          end
      end
  end.

Fixpoint apply_messages (messages : list BookEventMessage) (f : BookEventFold) : Result text BookEventFold :=
  match messages with
  | [] => Ok f
  | message :: messages =>
      let? event := decode (bm_body message) in
      apply_messages messages (match event with Some event => apply_event event f | None => f end)
  end.
Definition fold_messages (found_since : bool) (messages : list BookEventMessage) (f : BookEventFold) : Result text BookEventFold :=
  let since_id := bf_last_seen_id f in
  if bool_decide (is_Some since_id) && negb found_since then
    Err f["order-book ext-out history no longer contains last-seen id "; unwrap_or ""%string since_id]
  else
    let messages := stable_sort message_le messages in
    let newest_id := option_map bm_id (last messages) in
    let start := match (let* id := since_id in index_of (λ m, String.eqb (bm_id m) id) messages) with
                 | Some position => S position | None => O end in
    let? f := apply_messages (drop start messages) f in
    Ok (match newest_id with Some _ => set_bf_last_seen_id newest_id f | None => f end).
Definition fold_book_event_pages (fuel : nat) (f : BookEventFold) : option (Result text BookEventFold) :=
  match read_pages fuel 0 (bf_last_seen_id f) None false ∅ [] with
  | None => None
  | Some (Err e) => Some (Err e)
  | Some (Ok (found_since, messages)) => Some (fold_messages found_since messages f)
  end.
End Fold.

(** * Properties of the folded book

    An order is in the view exactly when its last placement was neither cancelled nor filled
    up, whatever happened to other orders; and reading on from a marker gives the view of the
    whole history, however the pages overlap. *)

(** ** One order *)

Definition reduce (ticks : Z) (v : option LiveBookOrder) : option LiveBookOrder :=
  let* o := v in
  if negb (lb_is_buy o) then None else
  let o := set_ticks_remaining (saturating_sub (lb_ticks_remaining o) ticks) o in
  if lb_ticks_remaining o =? 0 then None else Some o.
(** What an event does to the order [id]. *)
Definition order_step (id : Z) (v : option LiveBookOrder) (event : BookEvent) : option LiveBookOrder :=
  match event with
  | BookPlaced o => if lb_order_id o =? id then Some o else v
  | BookCancelled i => if i =? id then None else v
  | BookCancelRejected _ _ _ => v
  | BookFilled maker taker ticks =>
      let v := if maker =? id then reduce ticks v else v in if taker =? id then reduce ticks v else v
  | BookExpired i _ _ _ => if i =? id then option_map set_expired v else v
  end.

Lemma fill_lookup i ticks orders id : fill i ticks orders !! id = if i =? id then reduce ticks (orders !! id) else orders !! id.
Proof.
  unfold fill, reduce. destruct (Z.eqb_spec i id) as [->|Hne].
  - destruct (orders !! id) as [o|] eqn:Ho; cbn; [|done]. destruct (negb (lb_is_buy o)); [apply lookup_delete_eq|].
    destruct (_ =? 0); [apply lookup_delete_eq|apply lookup_insert_eq].
  - destruct (orders !! i) as [o|]; [|done]. destruct (negb (lb_is_buy o)); [by apply lookup_delete_ne|]. cbn.
    destruct (_ =? 0); [by apply lookup_delete_ne|by apply lookup_insert_ne].
Qed.
Lemma apply_event_lookup event f id : bf_orders (apply_event event f) !! id = order_step id (bf_orders f !! id) event.
Proof.
  destruct event as [o|i|i r n|maker taker ticks|i b n t]; cbn.
  - destruct (Z.eqb_spec (lb_order_id o) id) as [<-|]; [apply lookup_insert_eq|by apply lookup_insert_ne].
  - destruct (Z.eqb_spec i id) as [<-|]; [apply lookup_delete_eq|by apply lookup_delete_ne].
  - done.
  - by rewrite !fill_lookup.
  - destruct (Z.eqb_spec i id) as [<-|Hne].
    + destruct (bf_orders f !! i) as [o|] eqn:Ho; cbn; [apply lookup_insert_eq|done].
    + destruct (bf_orders f !! i); [by apply lookup_insert_ne|done].
Qed.

Definition replay (events : list BookEvent) (f : BookEventFold) : BookEventFold := foldl (λ f e, apply_event e f) f events.
Lemma replay_lookup events f id : bf_orders (replay events f) !! id = foldl (order_step id) (bf_orders f !! id) events.
Proof. revert f. induction events as [|e events IH]; intros f; [done|]. cbn. by rewrite <- apply_event_lookup, <- IH. Qed.

(** ** The last placement *)

Definition ends_order (id : Z) (event : BookEvent) : bool :=
  match event with BookPlaced o => lb_order_id o =? id | BookCancelled i => i =? id | _ => false end.
(** The fills of the order: how many, and of how many ticks together. *)
Definition fill_sides (id : Z) (event : BookEvent) : Z :=
  match event with BookFilled maker taker _ => Z.b2z (maker =? id) + Z.b2z (taker =? id) | _ => 0 end.
Definition fill_ticks (id : Z) (event : BookEvent) : Z :=
  match event with BookFilled maker taker ticks => (Z.b2z (maker =? id) + Z.b2z (taker =? id)) * ticks | _ => 0 end.
Definition names_expired (id : Z) (event : BookEvent) : bool :=
  match event with BookExpired i _ _ _ => i =? id | _ => false end.
Definition sane_event (event : BookEvent) : Prop := match event with BookFilled _ _ ticks => 0 ≤ ticks | _ => True end.

(** The order after [sides] fills of [ticks] ticks together, and after its expiry. *)
Definition remaining_order (o : LiveBookOrder) (sides ticks : Z) (expired : bool) : option LiveBookOrder :=
  if (sides =? 0) || (lb_is_buy o && (ticks <? lb_ticks_remaining o)) then
    Some {| lb_order_id := lb_order_id o; lb_is_buy := lb_is_buy o; lb_price := lb_price o;
            lb_ticks_remaining := lb_ticks_remaining o - ticks; lb_note := lb_note o;
            lb_token_contract := lb_token_contract o; lb_deadline := lb_deadline o; lb_flags := lb_flags o;
            lb_expired_by_event := lb_expired_by_event o || expired |}
  else None.
(** The order [o] after [events] none of which places or cancels it. *)
Definition after_events (id : Z) (o : LiveBookOrder) (events : list BookEvent) : option LiveBookOrder :=
  remaining_order o (zsum (fill_sides id) events) (zsum (fill_ticks id) events) (existsb (names_expired id) events).

Lemma fill_sides_nonneg id event : 0 ≤ fill_sides id event.
Proof. destruct event as [| | |m t k|]; cbn; try lia. destruct (m =? id), (t =? id); cbn; lia. Qed.
Lemma fill_ticks_nonneg id event : sane_event event → 0 ≤ fill_ticks id event.
Proof. destruct event as [| | |m t k|]; cbn; try lia. destruct (m =? id), (t =? id); cbn; lia. Qed.
(** The counts of a sane history. *)
Definition fills_sane (sides ticks : Z) : Prop := 0 ≤ sides ∧ 0 ≤ ticks ∧ (sides = 0 → ticks = 0).
Lemma fills_sane_sum id events : Forall sane_event events → fills_sane (zsum (fill_sides id) events) (zsum (fill_ticks id) events).
Proof.
  induction 1 as [|e events He _ (H1 & H2 & H3)]; [done|]. unfold fills_sane. rewrite !zsum_cons.
  pose proof (fill_sides_nonneg id e). pose proof (fill_ticks_nonneg id e He). split_and!; [lia|lia|]. intros Hz. rewrite H3 by lia.
  assert (fill_sides id e = 0) as Hs by lia. destruct e; cbn in *; nia.
Qed.

Lemma nothing_left r ticks k : (Z.max 0 (r - ticks - k) =? 0) = negb (ticks + k <? r).
Proof. destruct (Z.eqb_spec (Z.max 0 (r - ticks - k)) 0), (Z.ltb_spec (ticks + k) r); cbn; done || lia. Qed.
Lemma reduce_remaining o sides ticks expired k :
  fills_sane sides ticks → 0 ≤ k → reduce k (remaining_order o sides ticks expired) = remaining_order o (sides + 1) (ticks + k) expired.
Proof.
  intros (H1 & H2 & H3) Hk. unfold remaining_order. rewrite (proj2 (Z.eqb_neq (sides + 1) 0)) by lia. cbn [orb].
  destruct (_ || _) eqn:Hleft; unfold reduce, saturating_sub, obind; cbn [lb_is_buy lb_ticks_remaining set_ticks_remaining].
  - destruct (lb_is_buy o); cbn [negb andb]; [|done]. rewrite nothing_left.
    destruct (Z.ltb_spec (ticks + k) (lb_ticks_remaining o)); [|done]. unfold set_ticks_remaining. cbn. do 2 f_equal. unfold saturating_sub. lia.
  - apply orb_false_iff in Hleft as [_ Hleft]. destruct (lb_is_buy o); [|done]. cbn in *.
    by destruct (Z.ltb_spec (ticks + k) (lb_ticks_remaining o)); [lia|].
Qed.

Lemma after_events_step id o events event :
  Forall sane_event events → sane_event event → ends_order id event = false →
  order_step id (after_events id o events) event = after_events id o (events ++ [event]).
Proof.
  intros Hs He Hend. pose proof (fills_sane_sum id events Hs) as Hsum. unfold after_events. rewrite !zsum_app, existsb_app, !zsum_cons. cbn [existsb].
  change (zsum (fill_sides id) []) with 0. change (zsum (fill_ticks id) []) with 0. rewrite orb_false_r.
  destruct event as [p|i|i r n|m t k|i b n c]; cbn in *; rewrite ?Hend, ?orb_false_r, ?Z.add_0_r; try done.
  - destruct (m =? id), (t =? id); cbn [Z.b2z].
    + rewrite reduce_remaining by done. rewrite reduce_remaining; [f_equal; lia| |done].
      destruct Hsum as (? & ? & ?). split_and!; lia.
    + rewrite reduce_remaining by done. f_equal; lia.
    + rewrite reduce_remaining by done. f_equal; lia.
    + f_equal; lia.
  - destruct (i =? id); [|by rewrite orb_false_r]. unfold remaining_order. destruct (_ || _); cbn; [|done].
    unfold set_expired. cbn. by rewrite !orb_true_r.
Qed.

(** ** The view *)

(** Where the present placement of [id] stands in the history. *)
Definition last_placement (id : Z) (events before after : list BookEvent) (o : LiveBookOrder) : Prop :=
  events = before ++ BookPlaced o :: after ∧ lb_order_id o = id ∧ Forall (λ e, ends_order id e = false) after.

Lemma replay_after_placement id o after :
  Forall sane_event after → Forall (λ e, ends_order id e = false) after →
  foldl (order_step id) (Some o) after = after_events id o after.
Proof.
  induction after as [|e after IH] using rev_ind.
  - intros _ _. unfold after_events, remaining_order. cbn. destruct o. cbn. by rewrite Z.sub_0_r, orb_false_r.
  - intros [Hs [He _]%Forall_cons]%Forall_app [Hall [Hend _]%Forall_cons]%Forall_app. rewrite foldl_app, IH by done. by apply after_events_step.
Qed.
Lemma replay_placed id events o' :
  foldl (order_step id) None events = Some o' → ∃ before o after, last_placement id events before after o.
Proof.
  revert o'. induction events as [|e events IH] using rev_ind; intros o'; [done|]. rewrite foldl_app. cbn. intros Hstep.
  destruct (ends_order id e) eqn:Hend.
  - destruct e as [p|i| | |]; try done; cbn in *; [|by rewrite Hend in Hstep]. exists events, p, []. split_and!; [done|lia|done].
  - assert (∃ o1, foldl (order_step id) None events = Some o1) as (o1 & Ho1).
    { destruct (foldl (order_step id) None events) as [o1|]; [by exists o1|]. exfalso. revert Hstep.
      destruct e; cbn in *; rewrite ?Hend; repeat case_match; done. }
    destruct (IH o1 Ho1) as (before & o & after & -> & Hid & Hall). exists before, o, (after ++ [e]).
    split_and!; [by rewrite <- app_assoc|done|]. apply Forall_app. by repeat constructor.
Qed.
Lemma replay_order_exact id events o' :
  Forall sane_event events →
  foldl (order_step id) None events = Some o' ↔
  ∃ before o after, last_placement id events before after o ∧ after_events id o after = Some o'.
Proof.
  intros Hs. assert (∀ before o after, last_placement id events before after o →
    foldl (order_step id) None events = after_events id o after) as Hrun.
  { intros before o after (-> & Hid & Hall). rewrite foldl_app. cbn. rewrite Hid, Z.eqb_refl.
    apply Forall_app in Hs as [_ [_ Hs]%Forall_cons]. by apply replay_after_placement. }
  split.
  - intros Ho'. destruct (replay_placed id events o' Ho') as (before & o & after & Hlp). exists before, o, after.
    split; [done|]. by rewrite <- (Hrun _ _ _ Hlp).
  - intros (before & o & after & Hlp & Ha). by rewrite (Hrun _ _ _ Hlp).
Qed.

Lemma elem_of_orders_in_order m o : o ∈ orders_in_order m ↔ ∃ id, m !! id = Some o.
Proof.
  unfold orders_in_order. rewrite list_elem_of_In, in_map_iff. setoid_rewrite <- list_elem_of_In. setoid_rewrite stable_sort_perm.
  split.
  - intros ([id o'] & <- & H%elem_of_map_to_list). by exists id.
  - intros (id & H%elem_of_map_to_list). by exists (id, o).
Qed.
Lemma elem_of_live_orders f now o : o ∈ live_orders_at f now ↔ (∃ id, bf_orders f !! id = Some o) ∧ is_live_at o now = true.
Proof. unfold live_orders_at. rewrite list_elem_of_In, filter_In, <- list_elem_of_In. unfold all_orders. by rewrite elem_of_orders_in_order. Qed.

(** C31: the market shows exactly the orders that can still be matched.  An order is shown at a
    moment if and only if the history has a last placement of it, no cancellation after it, no
    expiry of it by the book, its deadline has not passed, and either nothing of it was filled
    or it is a buy with ticks left; it is shown with the ticks that the fills, on either side
    of a trade, have left, and a sell leaves the view with its first fill. *)
Theorem market_shows_matchable_orders events now o' :
  Forall sane_event events →
  o' ∈ live_orders_at (replay events BookEventFold_default) now ↔
  ∃ id before o after, last_placement id events before after o ∧
    (zsum (fill_sides id) after = 0 ∨ (lb_is_buy o = true ∧ zsum (fill_ticks id) after < lb_ticks_remaining o)) ∧
    lb_expired_by_event o = false ∧ Forall (λ e, names_expired id e = false) after ∧
    order_deadline_is_live (lb_is_buy o) (lb_deadline o) now = true ∧
    o' = set_ticks_remaining (lb_ticks_remaining o - zsum (fill_ticks id) after) o.
Proof.
  intros Hs. rewrite elem_of_live_orders.
  assert (∀ id o after, (after_events id o after = Some o' ∧ is_live_at o' now = true) ↔
    (zsum (fill_sides id) after = 0 ∨ (lb_is_buy o = true ∧ zsum (fill_ticks id) after < lb_ticks_remaining o)) ∧
    lb_expired_by_event o = false ∧ Forall (λ e, names_expired id e = false) after ∧
    order_deadline_is_live (lb_is_buy o) (lb_deadline o) now = true ∧
    o' = set_ticks_remaining (lb_ticks_remaining o - zsum (fill_ticks id) after) o) as Hiff.
  { intros id o after. unfold after_events, remaining_order.
    assert (existsb (names_expired id) after = false ↔ Forall (λ e, names_expired id e = false) after) as Hex.
    { rewrite <- not_true_iff_false, existsb_exists, Forall_forall. split.
      - intros Hno e He. apply not_true_iff_false. intros ?. apply Hno. exists e. by rewrite <- list_elem_of_In.
      - intros Hall (e & He%list_elem_of_In & Ht). rewrite (Hall e He) in Ht. done. }
    split.
    - intros [Ha Hlive]. destruct (_ || _) eqn:Hleft; [|done]. injection Ha as <-. unfold is_live_at in Hlive. cbn in Hlive.
      apply andb_true_iff in Hlive as [[Hne He]%negb_true_iff%orb_false_iff Hd].
      split_and!; [|done|by apply Hex|done|by rewrite Hne, He; destruct o; cbn in *; subst].
      apply orb_true_iff in Hleft as [?%Z.eqb_eq|[? ?%Z.ltb_lt]%andb_true_iff]; auto.
    - intros (Hleft & Hne & Hall%Hex & Hd & ->). rewrite Hall, Hne. split.
      + replace (_ || _) with true; [by destruct o; cbn in *; subst|]. symmetry. apply orb_true_iff.
        destruct Hleft as [->|[-> Hlt]]; [by left|right]. cbn. lia.
      + unfold is_live_at. cbn. by rewrite Hne. }
  split.
  - intros [(id & Hid) Hlive]. rewrite replay_lookup in Hid. apply (replay_order_exact id events o' Hs) in Hid as (before & o & after & Hlp & Ha).
    exists id, before, o, after. split; [done|]. by apply Hiff.
  - intros (id & before & o & after & Hlp & H). apply Hiff in H as [Ha Hlive]. split; [|done]. exists id.
    rewrite replay_lookup. apply (replay_order_exact id events o' Hs). by exists before, o, after.
Qed.
