(* ===== verification/BookPages.v ===== *)
(** * Reading the paged history

    However a source cuts the history into pages and however they overlap, the reading ends
    and gives the view of the whole history: at once, or from the view of an earlier one.

    The second part is a book read in three pages, with the properties of BookFold applied. *)
From S2P Require Import Prelude RustText DealTypes ChainEvents BookFold.

(** ** Histories and sources *)

Definition message_lt (a b : BookEventMessage) : Prop := message_le a b = true ∧ message_le b a = false.
(** The history: in chronological order, every message once. *)
Record history (H : list BookEventMessage) : Prop := {
  hi_sorted : StronglySorted message_lt H;
  hi_ids : NoDup (map bm_id H);
}.

(** [fetch_page] serves [H]: the page before the cursor [b], which stands at the place [pos b],
    holds a run of the history that reaches from some earlier place at least up to there, and
    its cursor stands at that earlier place. *)
Definition serves (fetch_page : nat → option string → Result text BookEventPage) (pos : option string → nat)
    (H : list BookEventMessage) : Prop :=
  pos None = length H ∧
  ∀ calls b, ∃ page lo hi, fetch_page calls b = Ok page ∧
    bp_messages page ≡ₚ take (hi - lo) (drop lo H) ∧ (lo ≤ pos b ≤ hi)%nat ∧ (hi ≤ length H)%nat ∧
    match bp_previous_cursor page with None => lo = 0%nat | Some c => pos (Some c) = lo ∧ (lo < pos b)%nat end.

(** ** The sort *)

Lemma message_le_total a b : message_le a b = true ∨ message_le b a = true.
Proof.
  unfold message_le. destruct (Z.ltb_spec (bm_created_at a) (bm_created_at b)); [by left|].
  destruct (Z.ltb_spec (bm_created_at b) (bm_created_at a)); [by right|]. assert (bm_created_at a = bm_created_at b) as -> by lia.
  rewrite Z.eqb_refl. cbn. apply (String.leb_total (bm_cursor a) (bm_cursor b)).
Qed.
Lemma message_le_trans a b c : message_le a b = true → message_le b c = true → message_le a c = true.
Proof.
  unfold message_le. rewrite !orb_true_iff, !andb_true_iff, !Z.ltb_lt, !Z.eqb_eq.
  intros [?|[? H1]] [?|[? H2]]; try (left; lia). right. split; [lia|]. pose proof (transitivity (R := str_le) H1 H2). done.
Qed.
Lemma sorted_trichotomy {A} (R : relation A) l x y : StronglySorted R l → x ∈ l → y ∈ l → x = y ∨ R x y ∨ R y x.
Proof.
  induction 1 as [|z l _ IH Hz]; [by intros ?%not_elem_of_nil|]. rewrite Forall_forall in Hz.
  intros [->|Hx]%elem_of_cons [->|Hy]%elem_of_cons; auto.
Qed.
Lemma sorted_weaken {A} (R R' : relation A) l : (∀ x y, R x y → R' x y) → StronglySorted R l → StronglySorted R' l.
Proof. intros Hw. induction 1; constructor; [done|]. eapply Forall_impl; eauto. Qed.
Lemma sorted_drop {A} (R : relation A) n l : StronglySorted R l → StronglySorted R (drop n l).
Proof. revert l. induction n as [|n IH]; intros l Hl; [by rewrite drop_0|]. destruct Hl; cbn; [constructor|by apply IH]. Qed.
Lemma sorted_history H msgs : history H → msgs ≡ₚ H → stable_sort message_le msgs = H.
Proof.
  intros [Hs Hn] Hp. apply (StronglySorted_unique_strong (λ a b, message_le a b = true)).
  - intros x1 x2 Hx1 Hx2 H12 H21. rewrite stable_sort_perm, Hp in Hx1.
    destruct (sorted_trichotomy _ _ _ _ Hs Hx1 Hx2) as [|[[??]|[??]]]; congruence.
  - apply stable_sort_sorted; [apply message_le_total|apply message_le_trans].
  - eapply sorted_weaken; [|exact Hs]. by intros ? ? [? _].
  - by rewrite stable_sort_perm.
Qed.
Lemma history_drop n H : history H → history (drop n H).
Proof.
  intros [Hs Hn]. split; [by apply sorted_drop|]. rewrite <- skipn_map.
  by eapply sublist_NoDup; [|apply sublist_drop].
Qed.
Lemma history_app_l H1 H2 : history (H1 ++ H2) → history H1.
Proof. intros [Hs Hn]. rewrite map_app in Hn. split; [by apply StronglySorted_app in Hs as (_ & ? & _)|by apply NoDup_app in Hn as (? & _)]. Qed.
Lemma history_same_id H x y : history H → x ∈ H → y ∈ H → bm_id x = bm_id y → x = y.
Proof.
  intros [_ Hn]. induction H as [|z H IH]; [by intros ?%not_elem_of_nil|]. cbn in Hn. apply NoDup_cons in Hn as [Hz Hn].
  assert (∀ w, w ∈ H → bm_id w ≠ bm_id z) as Hne.
  { intros w Hw Heq. apply Hz. rewrite <- Heq. apply list_elem_of_In, in_map. by apply list_elem_of_In. }
  intros [->|Hx]%elem_of_cons [->|Hy]%elem_of_cons Heq; [done| | |by apply IH].
  - by destruct (Hne y Hy). - by destruct (Hne x Hx).
Qed.

Lemma elem_of_drop {A} (x : A) n l : x ∈ drop n l ↔ ∃ i, l !! i = Some x ∧ (n ≤ i)%nat.
Proof.
  rewrite list_elem_of_lookup. setoid_rewrite lookup_drop. split.
  - intros (i & Hi). exists (n + i)%nat. split; [done|lia].
  - intros (i & Hi & Hle). exists (i - n)%nat. by replace (n + (i - n))%nat with i by lia.
Qed.
Lemma elem_of_run {A} (x : A) lo hi l : x ∈ take (hi - lo) (drop lo l) ↔ ∃ i, l !! i = Some x ∧ (lo ≤ i < hi)%nat.
Proof.
  rewrite elem_of_take. setoid_rewrite lookup_drop. split.
  - intros (i & Hi & Hlt). exists (lo + i)%nat. split; [done|lia].
  - intros (i & Hi & Hle). exists (i - lo)%nat. replace (lo + (i - lo))%nat with i by lia. split; [done|lia].
Qed.

(** ** Collecting the pages *)

Lemma take_new_spec page seen messages :
  (∀ id, id ∈ seen ↔ id ∈ map bm_id messages) → NoDup (map bm_id messages) →
  ∃ seen' new, take_new page seen messages = (seen', messages ++ new) ∧
    (∀ id, id ∈ seen' ↔ id ∈ map bm_id (messages ++ new)) ∧ NoDup (map bm_id (messages ++ new)) ∧
    (∀ m, m ∈ new → m ∈ page) ∧ (∀ m, m ∈ page → bm_id m ∈ map bm_id (messages ++ new)).
Proof.
  revert seen messages. induction page as [|m page IH]; intros seen messages Hseen Hn; cbn.
  { exists seen, []. rewrite app_nil_r. split_and!; [done..|]. intros m Hm. by apply not_elem_of_nil in Hm. }
  case_bool_decide as Hm.
  - destruct (IH seen messages Hseen Hn) as (seen' & new & -> & Hs' & Hn' & Hin & Hall). exists seen', new.
    split_and!; [done..| |]; [intros x Hx; apply elem_of_cons; auto|]. intros x [->|Hx]%elem_of_cons; [|by apply Hall].
    rewrite map_app. apply elem_of_app. left. by apply Hseen.
  - destruct (IH ({[bm_id m]} ∪ seen) (messages ++ [m])) as (seen' & new & -> & Hs' & Hn' & Hin & Hall).
    + intros id. rewrite map_app, elem_of_app, elem_of_union, elem_of_singleton. cbn. rewrite list_elem_of_singleton, Hseen. tauto.
    + rewrite map_app. cbn. apply NoDup_app. split_and!; [done| |apply NoDup_singleton]. intros id Hid ->%list_elem_of_singleton. by apply Hm, Hseen.
    + rewrite <- app_assoc in Hs', Hn', Hall |- *. cbn in *. exists seen', (m :: new). split_and!; [done..| |].
      * intros x [->|Hx]%elem_of_cons; apply elem_of_cons; auto.
      * intros x [->|Hx]%elem_of_cons; [|by apply Hall]. rewrite map_app. apply elem_of_app. right. apply list_elem_of_here.
Qed.

(** What was collected when the reading stands at the place [p]. *)
Definition collected (H : list BookEventMessage) (p : nat) (seen : gset string) (messages : list BookEventMessage) : Prop :=
  messages ≡ₚ drop p H ∧ ∀ id, id ∈ seen ↔ id ∈ map bm_id messages.

Lemma collect_page H p lo hi page seen messages :
  history H → collected H p seen messages → page ≡ₚ take (hi - lo) (drop lo H) → (lo ≤ p ≤ hi)%nat →
  collected H lo (take_new page seen messages).1 (take_new page seen messages).2 ∧
  ∀ m, m ∈ (take_new page seen messages).2 ↔ m ∈ messages ∨ m ∈ page.
Proof.
  intros Hh [Hm Hseen] Hp Hpos. pose proof (history_drop p H Hh) as [_ Hnp].
  assert (NoDup (map bm_id messages)) as Hn by (by rewrite Hm).
  destruct (take_new_spec page seen messages Hseen Hn) as (seen' & new & -> & Hs' & Hn' & Hin & Hall). cbn [fst snd].
  pose proof (history_drop lo H Hh) as Hlo.
  assert (∀ m, m ∈ page → m ∈ drop lo H) as Hpage.
  { intros m. rewrite Hp, elem_of_run, elem_of_drop. intros (i & Hi & ? & _). by exists i. }
  assert (∀ m, m ∈ messages → m ∈ drop lo H) as Hold.
  { intros m. rewrite Hm, !elem_of_drop. intros (i & Hi & Hle). exists i. split; [done|lia]. }
  assert (messages ++ new ≡ₚ drop lo H) as Hperm.
  { apply NoDup_Permutation; [by eapply NoDup_fmap_1|eapply NoDup_fmap_1, Hlo|].
    assert (∀ m, m ∈ messages ++ new → m ∈ drop lo H) as Hsub by (intros m [?|?]%elem_of_app; auto).
    intros m. split; [apply Hsub|]. intros Hx. assert (bm_id m ∈ map bm_id (messages ++ new)) as Hid.
    { apply elem_of_drop in Hx as (i & Hi & Hle). destruct (decide (p ≤ i)%nat) as [Hpi|Hpi].
      - rewrite map_app. apply elem_of_app. left. rewrite Hm. apply list_elem_of_In, in_map, list_elem_of_In, elem_of_drop. by exists i.
      - apply Hall. rewrite Hp, elem_of_run. exists i. split; [done|lia]. }
    apply list_elem_of_In, in_map_iff in Hid as (m' & Heq & Hm'%list_elem_of_In).
    by rewrite <- (history_same_id _ _ _ Hlo (Hsub _ Hm') Hx Heq). }
  split; [by split|]. intros m. split.
  - intros [?|?]%elem_of_app; auto.
  - intros [?|?]; [apply elem_of_app; by left|]. rewrite Hperm. by apply Hpage.
Qed.

(** ** The reading ends *)

Lemma holds_id_spec since msgs : holds_id since msgs = true ↔ ∃ m, m ∈ msgs ∧ since = Some (bm_id m).
Proof.
  unfold holds_id. rewrite existsb_exists. split.
  - intros (m & Hm & Hid%bool_decide_eq_true). exists m. by rewrite list_elem_of_In.
  - intros (m & Hm & Hid). exists m. by rewrite bool_decide_eq_true, <- list_elem_of_In.
Qed.

Lemma read_pages_spec fetch_page pos H since fuel calls before seen messages :
  history H → serves fetch_page pos H → (pos before < fuel)%nat → collected H (pos before) seen messages →
  ∃ msgs lo, read_pages fetch_page fuel calls since before (holds_id since messages) seen messages = Some (Ok (holds_id since msgs, msgs)) ∧
    msgs ≡ₚ drop lo H ∧ (lo = 0%nat ∨ (is_Some since ∧ holds_id since msgs = true)).
Proof.
  intros Hh [Hnone Hserve]. revert calls before seen messages.
  induction fuel as [|fuel IH]; intros calls before seen messages Hfuel Hcol; [lia|]. cbn [read_pages].
  destruct (Hserve calls before) as (page & lo & hi & -> & Hpage & Hpos & Hhi & Hprev).
  destruct (collect_page H _ lo hi _ _ _ Hh Hcol Hpage Hpos) as [Hcol' Hmem].
  destruct (take_new (bp_messages page) seen messages) as [seen' msgs']. cbn [fst snd] in *.
  assert (holds_id since messages || holds_id since (bp_messages page) = holds_id since msgs') as ->.
  { apply eq_true_iff_eq. rewrite orb_true_iff, !holds_id_spec. setoid_rewrite Hmem. naive_solver. }
  destruct (bool_decide (is_Some since) && holds_id since msgs') eqn:Hstop.
  - apply andb_true_iff in Hstop as [Hs%bool_decide_eq_true Hh']. exists msgs', lo. split_and!; [done|apply Hcol'|by right].
  - destruct (bp_previous_cursor page) as [previous|].
    + destruct Hprev as [Hlo Hlt]. rewrite bool_decide_eq_false_2 by (intros ->; lia). rewrite <- Hlo in Hcol'. apply IH; [lia|done].
    + subst lo. exists msgs', 0%nat. split_and!; [done|apply Hcol'|by left].
Qed.

Lemma apply_messages_app decode l1 l2 f :
  apply_messages decode (l1 ++ l2) f = (let? f := apply_messages decode l1 f in apply_messages decode l2 f).
Proof.
  revert f. induction l1 as [|m l1 IH]; intros f; [done|]. cbn. destruct (decode (bm_body m)) as [[event|]|e]; cbn; [apply IH|apply IH|done].
Qed.
Lemma apply_messages_seen decode l f f' : apply_messages decode l f = Ok f' → bf_last_seen_id f' = bf_last_seen_id f.
Proof.
  revert f. induction l as [|m l IH]; intros f; cbn; [by intros [= <-]|]. intros (event & _ & H)%bind_Ok. rewrite (IH _ H).
  destruct event as [[]|]; try done. cbn. by destruct (bf_orders f !! _).
Qed.
Lemma apply_messages_frame decode l f id :
  apply_messages decode l (set_bf_last_seen_id id f) = rmap (set_bf_last_seen_id id) (apply_messages decode l f).
Proof.
  revert f. induction l as [|m l IH]; intros f; cbn; [done|]. destruct (decode (bm_body m)) as [[event|]|e]; cbn; [|apply IH|done].
  rewrite <- IH. f_equal. destruct event; try done. cbn. by destruct (bf_orders f !! _).
Qed.

(** The view of a whole history. *)
Definition view_of (decode : string → Result text (option BookEvent)) (H : list BookEventMessage) : Result text BookEventFold :=
  rmap (set_bf_last_seen_id (option_map bm_id (last H))) (apply_messages decode H BookEventFold_default).

Lemma fold_all decode H msgs : history H → msgs ≡ₚ H → fold_messages decode false msgs BookEventFold_default = view_of decode H.
Proof.
  intros Hh Hp. unfold fold_messages, view_of. cbn. rewrite (sorted_history H msgs Hh Hp), drop_0.
  destruct (apply_messages decode H BookEventFold_default) as [f|e] eqn:Ha; cbn; [|done]. destruct (last H); cbn; [done|].
  apply apply_messages_seen in Ha. by destruct f; cbn in *; subst.
Qed.

Lemma index_of_split {A} (p : A → bool) l1 x l2 :
  (∀ y, y ∈ l1 → p y = false) → p x = true → index_of p (l1 ++ x :: l2) = Some (length l1).
Proof.
  intros Hl Hx. induction l1 as [|y l1 IH]; cbn; [by rewrite Hx|]. rewrite (Hl y) by apply list_elem_of_here.
  rewrite IH; [done|]. intros z Hz. apply Hl. by apply list_elem_of_further.
Qed.

Lemma fold_on decode B m H2 msgs lo f1 :
  history ((B ++ [m]) ++ H2) → msgs ≡ₚ drop lo ((B ++ [m]) ++ H2) →
  lo = 0%nat ∨ holds_id (Some (bm_id m)) msgs = true →
  view_of decode (B ++ [m]) = Ok f1 →
  fold_messages decode (holds_id (Some (bm_id m)) msgs) msgs f1 = view_of decode ((B ++ [m]) ++ H2).
Proof.
  intros Hh Hp Hlo Hf1. pose proof (hi_ids _ Hh) as Hn.
  assert (bf_last_seen_id f1 = Some (bm_id m)) as Hseen.
  { revert Hf1. unfold view_of. rewrite last_snoc. by intros (f & _ & ->)%rmap_Ok. }
  assert (m ∈ msgs ∧ (lo ≤ length B)%nat) as [Hin Hle].
  { assert (∀ i, ((B ++ [m]) ++ H2) !! i = Some m → i = length B) as Hat.
    { intros i Hi. apply (NoDup_lookup _ i (length B) (bm_id m) Hn); rewrite list_lookup_fmap; [by rewrite Hi|].
      rewrite <- app_assoc. cbn [app]. by rewrite list_lookup_middle. }
    destruct Hlo as [->|Hf%holds_id_spec].
    - split; [|lia]. rewrite Hp, drop_0. set_solver.
    - destruct Hf as (m' & Hm' & [= Hid]). assert (m' = m) as ->.
      { apply (history_same_id _ m' m Hh); [|set_solver|done]. rewrite Hp in Hm'. apply elem_of_drop in Hm' as (i & Hi & _).
        by eapply list_elem_of_lookup_2. }
      split; [done|]. rewrite Hp in Hm'. apply elem_of_drop in Hm' as (i & Hi & Hge). rewrite (Hat i Hi) in Hge. done. }
  assert (holds_id (Some (bm_id m)) msgs = true) as -> by (apply holds_id_spec; by exists m).
  unfold fold_messages. rewrite Hseen. cbn. rewrite (sorted_history _ msgs (history_drop lo _ Hh) Hp).
  assert (drop lo ((B ++ [m]) ++ H2) = drop lo B ++ m :: H2) as ->.
  { rewrite <- app_assoc. cbn. by rewrite drop_app_le. }
  rewrite (index_of_split _ (drop lo B) m H2).
  - replace (drop (S (length (drop lo B))) (drop lo B ++ m :: H2)) with H2.
    2: { rewrite (app_assoc _ [m] H2 : drop lo B ++ m :: H2 = _). rewrite drop_app_length'; [done|]. rewrite length_app. cbn. lia. }
    apply rmap_Ok in Hf1 as (f0 & Hf0 & ->). unfold view_of. rewrite (apply_messages_app decode (B ++ [m]) H2), Hf0. cbn [rbind].
    rewrite apply_messages_frame. destruct (apply_messages decode H2 f0) as [f|e] eqn:Hf; cbn [rmap rbind]; [|done].
    rewrite <- (app_assoc B [m] H2). cbn [app]. rewrite !last_app_cons. by destruct (last (m :: H2)) eqn:Hl; [|by apply last_None in Hl].
  - intros y Hy. apply String.eqb_neq. intros Heq. pose proof (sublist_drop B lo) as Hsub. 
    rewrite !map_app in Hn. apply NoDup_app in Hn as (Hn & _ & _). apply NoDup_app in Hn as (_ & Hn & _).
    apply (Hn (bm_id y)); [|rewrite Heq; apply list_elem_of_here]. apply elem_of_drop in Hy as (i & Hi & _).
    apply list_elem_of_In, in_map, list_elem_of_In. by eapply list_elem_of_lookup_2.
  - apply String.eqb_refl.
Qed.

(** ** Properties *)

(** Reading on is reading anew.  Whatever pages a source serves a history in, in any order
    within a page and overlapping as they may, the first reading ends with the view of the
    whole history; and a later reading that starts from that view, on a source that serves the
    longer history, ends with the view of all of it, each event applied once and in
    chronological order, or with the error of the first event that cannot be decoded. *)
Theorem reading_on_is_reading_anew decode H1 H2 fetch1 pos1 fetch2 pos2 fuel :
  history (H1 ++ H2) → serves fetch1 pos1 H1 → serves fetch2 pos2 (H1 ++ H2) → (length (H1 ++ H2) < fuel)%nat →
  fold_book_event_pages decode fetch1 fuel BookEventFold_default = Some (view_of decode H1) ∧
  ∀ f1, view_of decode H1 = Ok f1 → fold_book_event_pages decode fetch2 fuel f1 = Some (view_of decode (H1 ++ H2)).
Proof.
  intros Hh Hs1 Hs2 Hfuel.
  assert (∀ H fetch pos since, history H → serves fetch pos H → (length H < fuel)%nat → ∃ msgs lo,
    read_pages fetch fuel 0 since None false ∅ [] = Some (Ok (holds_id since msgs, msgs)) ∧
    msgs ≡ₚ drop lo H ∧ (lo = 0%nat ∨ (is_Some since ∧ holds_id since msgs = true))) as Hread.
  { intros H fetch pos since HH Hs Hl. apply (read_pages_spec fetch pos H since fuel 0 None ∅ [] HH Hs).
    - destruct Hs as [-> _]. done.
    - destruct Hs as [-> _]. split; [by rewrite drop_all|]. intros id. set_solver. }
  assert (∀ H fetch pos, history H → serves fetch pos H → (length H < fuel)%nat →
    fold_book_event_pages decode fetch fuel BookEventFold_default = Some (view_of decode H)) as Hfresh.
  { intros H fetch pos HH Hs Hl. destruct (Hread H fetch pos None HH Hs Hl) as (msgs & lo & Hr & Hp & [->|[[? ?] _]]); [|done].
    unfold fold_book_event_pages. cbn [bf_last_seen_id BookEventFold_default]. rewrite Hr. f_equal.
    assert (holds_id None msgs = false) as -> by (by apply not_true_iff_false; intros (? & _ & ?)%holds_id_spec). by apply fold_all. }
  rewrite length_app in Hfuel. split; [eapply Hfresh; [by eapply history_app_l|done|lia]|].
  intros f1 Hf1. destruct H1 as [|m B _] using rev_ind.
  { cbn in *. injection Hf1 as <-. eapply (Hfresh H2); [done..|lia]. }
  assert (bf_last_seen_id f1 = Some (bm_id m)) as Hseen.
  { revert Hf1. unfold view_of. rewrite last_snoc. by intros (f & _ & ->)%rmap_Ok. }
  destruct (Hread _ fetch2 pos2 (Some (bm_id m)) Hh Hs2) as (msgs & lo & Hr & Hp & Hlo); [rewrite length_app; lia|].
  unfold fold_book_event_pages. rewrite Hseen, Hr. f_equal. eapply fold_on; [done..| |done]. destruct Hlo as [|[_ ?]]; auto.
Qed.

(** A history that lost the marker is refused, not replayed into the view. *)
Lemma lost_marker_refused decode H fetch_page pos fuel f id :
  history H → serves fetch_page pos H → (length H < fuel)%nat → bf_last_seen_id f = Some id → id ∉ map bm_id H →
  ∃ e, fold_book_event_pages decode fetch_page fuel f = Some (Err e).
Proof.
  intros Hh Hs Hfuel Hid Hno. destruct (read_pages_spec fetch_page pos H (Some id) fuel 0 None ∅ [] Hh Hs) as (msgs & lo & Hr & Hp & Hlo).
  - by destruct Hs as [-> _].
  - destruct Hs as [-> _]. split; [by rewrite drop_all|]. intros x. set_solver.
  - unfold fold_book_event_pages. rewrite Hid. cbn [holds_id existsb] in Hr. rewrite Hr.
    assert (holds_id (Some id) msgs = false) as ->; [|eexists; unfold fold_messages; by rewrite Hid].
    apply not_true_iff_false. intros (m & Hm & [= ->])%holds_id_spec. apply Hno. apply list_elem_of_In, in_map, list_elem_of_In.
    rewrite Hp in Hm. apply elem_of_drop in Hm as (i & Hi & _). by eapply list_elem_of_lookup_2.
Qed.

(** The guard against a source that makes no progress only sees a cursor repeated at once. *)
Definition circling (calls : nat) (before : option string) : Result text BookEventPage :=
  Ok {| bp_messages := []; bp_previous_cursor := Some (if bool_decide (before = Some "a"%string) then "b"%string else "a"%string) |}.
Lemma circling_never_ends decode fuel : fold_book_event_pages decode circling fuel BookEventFold_default = None.
Proof.
  unfold fold_book_event_pages. cbn.
  assert (∀ calls before seen, read_pages circling fuel calls None before false seen [] = None) as ->; [|done].
  induction fuel as [|fuel IH]; intros calls before seen; [done|]. cbn.
  destruct (decide (before = Some "a"%string)) as [->|Hb].
  - rewrite (bool_decide_eq_true_2 (Some "a"%string = Some "a"%string)) by done. rewrite bool_decide_eq_false_2 by done. apply IH.
  - rewrite (bool_decide_eq_false_2 (before = Some "a"%string)) by done. rewrite bool_decide_eq_false_2 by done. apply IH.
Qed.

(** * The folded book: examples

    A history of four messages, served in overlapping pages; the view after it and the
    properties of the fold at these inputs. *)

Definition sample_sell : LiveBookOrder := {|
  lb_order_id := 1; lb_is_buy := false; lb_price := 5; lb_ticks_remaining := 10; lb_note := "0:aa"; lb_token_contract := "0:cc";
  lb_deadline := 100; lb_flags := 0; lb_expired_by_event := false |}.
Definition sample_buy : LiveBookOrder := {|
  lb_order_id := 2; lb_is_buy := true; lb_price := 5; lb_ticks_remaining := 10; lb_note := "0:bb"; lb_token_contract := "0:00";
  lb_deadline := 0; lb_flags := 0; lb_expired_by_event := false |}.

Definition book_message (n : Z) (body : string) : BookEventMessage :=
  {| bm_id := "m" +:+ to_string n; bm_created_at := n; bm_cursor := to_string n; bm_body := body |}.
Definition book_decode (body : string) : Result text (option BookEvent) :=
  if String.eqb body "sell" then Ok (Some (BookPlaced sample_sell))
  else if String.eqb body "buy" then Ok (Some (BookPlaced sample_buy))
  else if String.eqb body "fill" then Ok (Some (BookFilled 2 1 4))
  else Ok None.

Definition early : list BookEventMessage := [book_message 1 "sell"; book_message 2 "buy"].
Definition late : list BookEventMessage := [book_message 3 "other contract"; book_message 4 "fill"].
(** Two pages, the older one repeats a message of the newer one. *)
Definition early_pages (calls : nat) (before : option string) : Result text BookEventPage :=
  Ok {| bp_messages := [book_message 2 "buy"; book_message 1 "sell"]; bp_previous_cursor := None |}.
Definition late_pages (calls : nat) (before : option string) : Result text BookEventPage :=
  if bool_decide (before = Some "c2"%string)
  then Ok {| bp_messages := [book_message 3 "other contract"; book_message 2 "buy"; book_message 1 "sell"]; bp_previous_cursor := None |}
  else Ok {| bp_messages := [book_message 4 "fill"; book_message 3 "other contract"]; bp_previous_cursor := Some "c2"%string |}.

Lemma sample_history : history (early ++ late).
Proof.
  split.
  - repeat constructor.
  - change (NoDup ["m1"; "m2"; "m3"; "m4"]%string). repeat (constructor; [set_solver|]). constructor.
Qed.
Lemma early_serves : serves early_pages (λ _, 2%nat) early.
Proof. split; [done|]. intros calls b. eexists _, 0%nat, 2%nat. split; [done|]. cbn. split_and!; try lia. apply perm_swap. Qed.
Lemma late_serves : serves late_pages (λ b, if bool_decide (b = Some "c2"%string) then 2%nat else 4%nat) (early ++ late).
Proof.
  split; [done|]. intros calls b. unfold late_pages. case_bool_decide as Hb.
  - eexists _, 0%nat, 3%nat. split; [done|]. cbn. split_and!; try lia.
    symmetry. apply (Permutation_rev [book_message 1 "sell"; book_message 2 "buy"; book_message 3 "other contract"]).
  - eexists _, 2%nat, 4%nat. split; [done|]. cbn. split_and!; try lia; [apply perm_swap|]. done.
Qed.

Example view_after_the_fill :
  rmap (λ f, (map lb_order_id (all_orders f), map lb_ticks_remaining (live_orders_at f 50), bf_last_seen_id f))
    (view_of book_decode (early ++ late)) = Ok ([2], [6], Some "m4"%string).
Proof. vm_compute. done. Qed.

Lemma reading_on_is_reading_anew_witness :
  ∃ f1, fold_book_event_pages book_decode early_pages 9 BookEventFold_default = Some (Ok f1) ∧
    fold_book_event_pages book_decode late_pages 9 f1 = Some (view_of book_decode (early ++ late)).
Proof.
  destruct (reading_on_is_reading_anew book_decode early late early_pages _ late_pages _ 9
    sample_history early_serves late_serves ltac:(cbn; lia)) as [Hfirst Hnext].
  eexists. split; [exact Hfirst|]. apply Hnext. reflexivity.
Defined.

Definition sample_events : list BookEvent := [BookPlaced sample_sell; BookPlaced sample_buy; BookFilled 2 1 4].
Lemma sample_events_sane : Forall sane_event sample_events.
Proof. repeat constructor; cbn; lia. Qed.
Lemma market_shows_matchable_orders_witness :
  set_ticks_remaining 6 sample_buy ∈ live_orders_at (replay sample_events BookEventFold_default) 50 ∧
  sample_sell ∉ live_orders_at (replay sample_events BookEventFold_default) 50.
Proof.
  split.
  - apply (market_shows_matchable_orders sample_events 50 (set_ticks_remaining 6 sample_buy) sample_events_sane).
    exists 2, [BookPlaced sample_sell], sample_buy, [BookFilled 2 1 4]. split_and!; try done; [by repeat constructor|right; done|by repeat constructor].
  - vm_compute. intros H. repeat (apply elem_of_cons in H as [H|H]; [discriminate H|]). by apply not_elem_of_nil in H.
Defined.
