(* ===== verification/SellerPlacement.v ===== *)
(** * One outstanding SELL

    crates/core/src/chain/seller_placement.rs: the journal of a submitted offer, and
    [reconcile_seller_placement], which follows the submitted note call through its dispatches
    until the book accepts the offer or nothing is left to follow.  Every state it goes through
    is saved, and a later call resumes from the saved one.

    The chain answers the [n]-th read with [fetch n]; a read may fail, and answers may change
    until a transaction is final.  The printing of JSON, the SDK's addresses and the diagnosis
    that enriches a rejection are parameters; a diagnosis that the caller cancels is [None]. *)
From S2P Require Import Prelude RustText Params Address ChainEvents.

Record SellerPlacement : Type := {
  sp_network : string; sp_note : string; sp_token_contract : string; sp_order_book : string; sp_message_id : string; sp_since : Z;
  sp_pending : list (string * option string); sp_seen : gset string;
  sp_accepted_order_id : option Z; sp_terminal : option string; sp_rejection : option string;
}.
(** [new]; the addresses with their workchain. *)
Definition SellerPlacement_new (network note tc book message_id : string) (since : Z) : SellerPlacement := {|
  sp_network := network; sp_note := note; sp_token_contract := tc; sp_order_book := book; sp_message_id := message_id; sp_since := since;
  sp_pending := [(message_id, None)]; sp_seen := ∅; sp_accepted_order_id := None; sp_terminal := None; sp_rejection := None |}.
Definition set_outcome (accepted : option Z) (terminal : option string) (p : SellerPlacement) : SellerPlacement := {|
  sp_network := sp_network p; sp_note := sp_note p; sp_token_contract := sp_token_contract p; sp_order_book := sp_order_book p;
  sp_message_id := sp_message_id p; sp_since := sp_since p; sp_pending := sp_pending p; sp_seen := sp_seen p;
  sp_accepted_order_id := accepted; sp_terminal := terminal; sp_rejection := sp_rejection p |}.
Definition set_sp_rejection (v : option string) (p : SellerPlacement) : SellerPlacement := {|
  sp_network := sp_network p; sp_note := sp_note p; sp_token_contract := sp_token_contract p; sp_order_book := sp_order_book p;
  sp_message_id := sp_message_id p; sp_since := sp_since p; sp_pending := sp_pending p; sp_seen := sp_seen p;
  sp_accepted_order_id := sp_accepted_order_id p; sp_terminal := sp_terminal p; sp_rejection := v |}.
Definition set_walk (pending : list (string * option string)) (seen : gset string) (p : SellerPlacement) : SellerPlacement := {|
  sp_network := sp_network p; sp_note := sp_note p; sp_token_contract := sp_token_contract p; sp_order_book := sp_order_book p;
  sp_message_id := sp_message_id p; sp_since := sp_since p; sp_pending := pending; sp_seen := seen;
  sp_accepted_order_id := sp_accepted_order_id p; sp_terminal := sp_terminal p; sp_rejection := sp_rejection p |}.

Definition tc_rejection (p : SellerPlacement) : option string :=
  let* reason := sp_rejection p in
  if contains "postFromNote was submitted" reason || contains "postFromNote was rejected" reason then Some reason else None.

Definition placement_validate (network note tc book : string) (p : SellerPlacement) : Result string () :=
  if negb (String.eqb (sp_network p) network) || negb (String.eqb (sp_note p) note) || negb (String.eqb (sp_token_contract p) tc)
     || negb (String.eqb (sp_order_book p) book) || String.eqb (sp_message_id p) ""
  then Err "SELL submission journal identity does not match this network/note/TC/book"%string else Ok ().

(** ** Reading a message *)

Definition as_i64 (v : Value) : option Z :=
  match v with Num (PosInt n) => if n <=? 2 ^ 63 - 1 then Some n else None | Num (NegInt n) => Some n | _ => None end.
(** client.rs: [getter_u128], [successful_inbound_call]. *)
Definition getter_number (v : Value) (key : string) : option Z :=
  let raw := index key v in
  match as_u64 raw with
  | Some n => Some n
  | None => let* s := as_str raw in parse_prefixed u128 (trim s)
  end.
Definition stage_succeeded (stage : Value) (code : string) : bool :=
  if is_null stage then false else
  let success := as_bool (index "success" stage) in
  let exit_code := getter_number stage code in
  negb (bool_decide (success = Some false))
  && match exit_code with None => true | Some value => value =? 0 end
  && (bool_decide (success = Some true) || bool_decide (exit_code = Some 0)).
Definition successful_inbound_call (node : Value) : bool :=
  let transaction := index "dst_transaction" node in
  if is_null transaction || negb (bool_decide (as_bool (index "aborted" transaction) = Some false)) then false else
  stage_succeeded (index "compute" transaction) "exit_code" && stage_succeeded (index "action" transaction) "result_code".

Definition nonempty_str (v : Value) : option string := let* s := as_str v in if String.eqb s "" then None else Some s.
Definition finalized (transaction : Value) : bool :=
  bool_decide (as_i64 (index "status" transaction) = Some 3) || bool_decide (as_str (index "status" transaction) = Some "Finalized"%string).
Definition source_of (node : Value) : string := unwrap_or ""%string (as_str (index "src" node)).
Definition destination_of (node : Value) : string := unwrap_or ""%string (as_str (index "dst" node)).

(** The message of the submission, its dispatch to the deal contract, that one's call of the
    book, and the book's calls of itself. *)
Definition relevant (p : SellerPlacement) (id source destination : string) : bool :=
  String.eqb id (sp_message_id p)
  || (eq_ignore_ascii_case source (sp_note p) && eq_ignore_ascii_case destination (sp_token_contract p))
  || (eq_ignore_ascii_case source (sp_token_contract p) && eq_ignore_ascii_case destination (sp_order_book p))
  || (eq_ignore_ascii_case source (sp_order_book p) && eq_ignore_ascii_case destination (sp_order_book p)).

(** The children of a message: every one new. *)
Fixpoint collect_children (id destination : string) (outputs : list Value) (p : SellerPlacement) (children : list (string * option string))
    : Result string (list (string * option string)) :=
  match outputs with
  | [] => Ok children
  | output :: outputs =>
      let? child := ok_or (nonempty_str output) ("SELL transaction " +:+ id +:+ " has an invalid outgoing message id")%string in
      if bool_decide (child ∈ sp_seen p) || existsb (λ q, String.eqb q.1 child) (sp_pending p) || existsb (λ q, String.eqb q.1 child) children
      then Err ("SELL execution message cycle at " +:+ child)%string
      else collect_children id destination outputs p (children ++ [(child, Some destination)])
  end.

(** ** The process: the value in memory, the saved one, and how much was asked of the world *)

Inductive Stop : Type := StopErr (e : string) | OutOfFuel.
Record Journal : Type := { jn_post : SellerPlacement; jn_file : option SellerPlacement; jn_clock : nat }.
Definition with_post (f : SellerPlacement → SellerPlacement) (j : Journal) : Journal :=
  {| jn_post := f (jn_post j); jn_file := jn_file j; jn_clock := jn_clock j |}.
Definition tick (j : Journal) : Journal := {| jn_post := jn_post j; jn_file := jn_file j; jn_clock := S (jn_clock j) |}.

Section Reconcile.
Context (show : Value → string) (unpack : string → option (string * Result text (list Token)))
  (parse_address : string → Result string string) (show_text : text → string).
(** The world: reads, saves that fail, diagnoses; and whether a journal file is kept. *)
Context (fetch : nat → string → Result string Value) (save_fault : nat → option string) (observe : nat → option string) (path : bool).

Definition ask {A} (world : nat → Result Stop A) : Op Journal Stop A := λ j, (world (jn_clock j), tick j).
Definition fail {A} (e : string) : Op Journal Stop A := op_ret (Err (StopErr e)).
Definition of_result {A} (r : Result string A) : Op Journal Stop A := op_ret (map_err StopErr r).
Definition update (f : SellerPlacement → SellerPlacement) : Op Journal Stop () := op_write (with_post f).

Definition save : Op Journal Stop () :=
  if path then
    do _ <- ask (λ n, match save_fault n with Some e => Err (StopErr e) | None => Ok () end);
    op_write (λ j, {| jn_post := jn_post j; jn_file := Some (jn_post j); jn_clock := jn_clock j |})
  else op_ret (Ok ()).
Definition seller_placement_message (id : string) : Op Journal Stop Value := ask (λ n, map_err StopErr (fetch n id)).

(** The text of a diagnosed rejection. *)
Definition diagnosed (p : SellerPlacement) (note tc observation reason : string) : string :=
  observation +:+ ": TokenContract " +:+ display_self_dapp tc +:+ ": postFromNote was submitted via seller note " +:+ display note
    +:+ "; note_message_hash=" +:+ sp_message_id p +:+ "; required_operation_charge_raw=" +:+ to_string DEAL_BURN_POST_FROM_NOTE_RAW
    +:+ "; recovery state must be retained; settlement is unconfirmed until an authoritative terminal fact: " +:+ reason.
Definition unproven_rejection (p : SellerPlacement) (id transaction_id : string) : string :=
  "TokenContract " +:+ display_self_dapp (sp_token_contract p) +:+ ": postFromNote was rejected; note_message_hash=" +:+ sp_message_id p
    +:+ " message_hash=" +:+ id +:+ " transaction_hash=" +:+ transaction_id
    +:+ "; finalized aborted=true compute_exit=0 action_result=38; reserve cause unproven; observed_reserve_raw=unavailable required_operation_charge_raw="
    +:+ to_string DEAL_BURN_POST_FROM_NOTE_RAW
    +:+ "; recovery state must be retained; settlement is unconfirmed until an authoritative terminal fact".

(** A relevant message whose transaction was aborted and sent nothing. *)
Definition note_rejection (id source destination : string) (transaction : Value) : Op Journal Stop () :=
  let code := index "exit_code" (index "compute" transaction) in
  let result := index "result_code" (index "action" transaction) in
  let reason := ("rejected message_id=" +:+ id +:+ " transaction_id=" +:+ show (index "id" transaction) +:+ " compute_exit="
                 +:+ show code +:+ " action_result=" +:+ show result)%string in
  do post <- op_read (λ j, Ok (jn_post j));
  if eq_ignore_ascii_case source (sp_note post) && eq_ignore_ascii_case destination (sp_token_contract post)
     && bool_decide (as_i64 code = Some 0) && bool_decide (as_i64 result = Some 38) then
    do _s <- update (set_sp_rejection (Some (unproven_rejection post id (unwrap_or ""%string (as_str (index "id" transaction))))));
    do _f <- save;
    do note <- of_result (parse_address (sp_note post));
    do tc <- of_result (parse_address (sp_token_contract post));
    do observation <- ask (λ n, ok_or (observe n) (StopErr "cancelled"));
    update (set_sp_rejection (Some (diagnosed post note tc observation reason)))
  else update (set_sp_rejection (Some reason)).

Definition inspect (id source destination : string) (node : Value) : Op Journal Stop (list (string * option string)) :=
  let transaction := index "dst_transaction" node in
  if negb (bool_decide (is_Some (nonempty_str (index "id" transaction))))
  then fail ("missing SELL destination transaction id for message " +:+ id)
  else if negb (finalized transaction) then fail ("missing finalized SELL destination transaction for message " +:+ id)
  else
    do outputs <- of_result (ok_or (as_array (index "out_msgs" transaction)) ("SELL transaction for " +:+ id +:+ " has no out_msgs")%string);
    do _r <- (if bool_decide (as_bool (index "aborted" transaction) = Some true) && bool_decide (outputs = [])
              then note_rejection id source destination transaction
              else if negb (successful_inbound_call node)
              then fail ("SELL transaction execution is unproven for message " +:+ id +:+ ": " +:+ show transaction)
              else op_ret (Ok ()));
    do post <- op_read (λ j, Ok (jn_post j));
    of_result (collect_children id destination outputs post []).

(** The order that a message of the book places. *)
Definition placed_by (p : SellerPlacement) (node : Value) : Result text (option Z) :=
  if eq_ignore_ascii_case (source_of node) (sp_order_book p) then
    match as_str (index "body" node) with
    | Some body => decode_seller_placement unpack body (sp_note p) (sp_token_contract p)
    | None => Ok None
    end
  else Ok None.

(** One message: [true] when the offer is accepted. *)
Definition visit (id : string) (expected_source : option string) : Op Journal Stop bool :=
  do node <- seller_placement_message id;
  if is_null node then fail ("missing SELL message " +:+ id) else
  do post <- op_read (λ j, Ok (jn_post j));
  let source := source_of node in
  let destination := destination_of node in
  if match expected_source with Some expected => negb (eq_ignore_ascii_case source expected) | None => false end
  then fail ("SELL message " +:+ id +:+ " source does not match its finalized parent transaction")
  else if bool_decide (id ∈ sp_seen post) then fail ("SELL execution message cycle at " +:+ id)
  else if String.eqb id (sp_message_id post) && negb (eq_ignore_ascii_case destination (sp_note post))
  then fail ("SELL message " +:+ id +:+ " has the wrong note destination")
  else
    do placed <- of_result (map_err show_text (placed_by post node));
    match placed with
    | Some order_id =>
        do _u <- update (set_outcome (Some order_id) (Some ("accepted order_id=" +:+ to_string order_id +:+ " message_id=" +:+ id)%string));
        do _s <- save;
        op_ret (Ok true)
    | None =>
        do children <- (if relevant post id source destination then inspect id source destination node else op_ret (Ok []));
        do _u <- update (λ p, set_walk (removelast (sp_pending p) ++ children) ({[id]} ∪ sp_seen p) p);
        do _s <- save;
        op_ret (Ok false)
    end.

(** The loop over the pending messages, the last first. *)
Fixpoint walk (fuel : nat) : Op Journal Stop bool :=
  match fuel with
  | O => op_ret (Err OutOfFuel)
  | S fuel =>
      do post <- op_read (λ j, Ok (jn_post j));
      match sp_terminal post with
      | Some _ => op_ret (Ok false)
      | None =>
          match last (sp_pending post) with
          | None =>
              do _u <- update (λ p, set_outcome (sp_accepted_order_id p)
                                      (Some (unwrap_or "execution_completed_without_observed_placement"%string (sp_rejection p))) p);
              do _s <- save;
              op_ret (Ok false)
          | Some (id, expected_source) =>
              do accepted <- visit id expected_source;
              if (accepted : bool) then op_ret (Ok true) else walk fuel
          end
      end
  end.
Definition refuse_rejected : Op Journal Stop () :=
  op_read (λ j, match tc_rejection (jn_post j) with Some reason => Err (StopErr reason) | None => Ok () end).
Definition reconcile_seller_placement (fuel : nat) : Op Journal Stop () :=
  do _s <- save;
  do _r <- refuse_rejected;
  do accepted <- walk fuel;
  if (accepted : bool) then op_ret (Ok ()) else refuse_rejected.
End Reconcile.
