(* ===== verification/SellerPlacementProps.v ===== *)
(** * Properties of the SELL reconciliation

    However often the calls fail or the process restarts, the verdict of the journal is about
    the submission's own calls: an accepted order was placed by one of them, and a terminal
    verdict without one means that none of them placed an order.  A call always ends.

    The last part follows one offer through its dispatches. *)
From S2P Require Import Prelude RustText Params Address ChainEvents SellerPlacement.

(** ** What the chain holds *)

(** The identities that a transaction lists as its outgoing messages. *)
Definition outputs_of (node : Value) : list string :=
  omap nonempty_str (unwrap_or [] (as_array (index "out_msgs" (index "dst_transaction" node)))).
Definition is_final_node (node : Value) : bool :=
  let transaction := index "dst_transaction" node in
  bool_decide (is_Some (nonempty_str (index "id" transaction))) && finalized transaction.
(** What is known of a message never changes; its transaction does not once it is final. *)
Definition same_message (v w : Value) : Prop :=
  source_of v = source_of w ∧ destination_of v = destination_of w ∧ index "body" v = index "body" w ∧
  (is_final_node v = true → is_final_node w = true ∧ outputs_of v = outputs_of w).

Section Placement.
Context (show : Value → string) (unpack : string → option (string * Result text (list Token)))
  (parse_address : string → Result string string) (show_text : text → string) (path : bool).
Context (p0 : SellerPlacement) (msg : string → Value).

(** The submission's own calls: the submitted message, and what the relevant ones of them
    dispatched, with the contract that dispatched it. *)
Inductive dispatched : string → option string → Prop :=
| dispatched_root : dispatched (sp_message_id p0) None
| dispatched_child id expected child :
    dispatched id expected → relevant p0 id (source_of (msg id)) (destination_of (msg id)) = true →
    child ∈ outputs_of (msg id) → dispatched child (Some (destination_of (msg id))).

Definition places (id : string) (order : option Z) : Prop := placed_by unpack p0 (msg id) = Ok order.

Record same_submission (p : SellerPlacement) : Prop := {
  ss_note : sp_note p = sp_note p0;
  ss_tc : sp_token_contract p = sp_token_contract p0;
  ss_book : sp_order_book p = sp_order_book p0;
  ss_id : sp_message_id p = sp_message_id p0;
}.
Definition known (p : SellerPlacement) (id : string) : Prop := id ∈ sp_seen p ∨ id ∈ map fst (sp_pending p).

Record walk_inv (p : SellerPlacement) : Prop := {
  wi_same : same_submission p;
  wi_pending : ∀ id e, (id, e) ∈ sp_pending p → dispatched id e;
  wi_fresh : NoDup (map fst (sp_pending p));
  wi_seen : ∀ id, id ∈ sp_seen p → (∃ e, dispatched id e) ∧ places id None ∧
    (relevant p0 id (source_of (msg id)) (destination_of (msg id)) = true → ∀ child, child ∈ outputs_of (msg id) → known p child);
  wi_root : known p (sp_message_id p0);
  wi_accepted : ∀ n, sp_accepted_order_id p = Some n → ∃ id e, dispatched id e ∧ places id (Some n);
  wi_done : is_Some (sp_terminal p) → sp_accepted_order_id p = None → sp_pending p = [];
}.

Lemma walk_inv_rejection r p : walk_inv p → walk_inv (set_sp_rejection r p).
Proof. by intros [[] ? ? ? ? ? ?]. Qed.

Lemma relevant_same p id source destination : same_submission p → relevant p id source destination = relevant p0 id source destination.
Proof. intros [H1 H2 H3 H4]. unfold relevant. by rewrite H1, H2, H3, H4. Qed.
Lemma placed_by_same p node id : same_submission p → same_message node (msg id) → placed_by unpack p node = placed_by unpack p0 (msg id).
Proof. intros [H1 H2 H3 H4] (Hs & _ & Hb & _). unfold placed_by. by rewrite Hs, Hb, H1, H2, H3. Qed.

(** The verdict of a state. *)
Lemma all_seen p id e : walk_inv p → sp_pending p = [] → dispatched id e → id ∈ sp_seen p.
Proof.
  intros Hi Hp Hd. assert (∀ x, known p x → x ∈ sp_seen p) as Hk by (intros x [?|Hx]; [done|rewrite Hp in Hx; by apply not_elem_of_nil in Hx]).
  induction Hd as [|id e child Hd IH Hrel Hc]; [apply Hk, Hi|]. destruct (wi_seen p Hi id IH) as (_ & _ & Hchildren). by apply Hk, Hchildren.
Qed.
Lemma nothing_placed p : walk_inv p → is_Some (sp_terminal p) → sp_accepted_order_id p = None → ∀ id e, dispatched id e → places id None.
Proof. intros Hi Ht Ha id e Hd. eapply (wi_seen p Hi), all_seen; [done| |done]. by apply Hi. Qed.

(** ** The steps *)

Lemma walk_inv_visited p id e children :
  walk_inv p → last (sp_pending p) = Some (id, e) → places id None →
  (relevant p0 id (source_of (msg id)) (destination_of (msg id)) = true → map fst children = outputs_of (msg id)) →
  (∀ c s, (c, s) ∈ children → relevant p0 id (source_of (msg id)) (destination_of (msg id)) = true ∧ c ∈ outputs_of (msg id) ∧
     s = Some (destination_of (msg id))) →
  NoDup (map fst (removelast (sp_pending p) ++ children)) →
  sp_terminal p = None →
  walk_inv (set_walk (removelast (sp_pending p) ++ children) ({[id]} ∪ sp_seen p) p).
Proof.
  intros Hi Hlast Hnone Hall Hch Hnd Hterm. destruct Hi as [Hs Hp Hf Hseen Hroot Hacc Hdone].
  assert (sp_pending p = removelast (sp_pending p) ++ [(id, e)]) as Heq.
  { apply last_Some in Hlast as (l & Hl). by rewrite Hl, removelast_last. }
  assert (dispatched id e) as Hid by (apply Hp; rewrite Heq; set_solver).
  assert (∀ x, known p x → known (set_walk (removelast (sp_pending p) ++ children) ({[id]} ∪ sp_seen p) p) x) as Hknown.
  { intros x [Hx|Hx]; [left; cbn; set_solver|]. rewrite Heq, map_app, elem_of_app in Hx. cbn in Hx.
    destruct Hx as [Hx| ->%list_elem_of_singleton]; [right|left]; cbn; [rewrite map_app; set_solver|set_solver]. }
  constructor; cbn.
  - by destruct Hs.
  - intros x s [Hx|Hx]%elem_of_app; [apply Hp; rewrite Heq; set_solver|]. destruct (Hch x s Hx) as (Hrel & Hc & ->). by eapply dispatched_child.
  - done.
  - intros x [->%elem_of_singleton|Hx]%elem_of_union.
    + split_and!; [by exists e|done|]. intros Hrel child Hc. right. cbn. rewrite map_app, Hall by done. set_solver.
    + destruct (Hseen x Hx) as (? & ? & Hc). split_and!; [done|done|]. intros Hrel child Hchild. by apply Hknown, Hc.
  - by apply Hknown.
  - done.
  - by rewrite Hterm.
Qed.

(** ** The calls *)

Lemma collect_children_spec id destination outputs p acc children :
  collect_children id destination outputs p acc = Ok children →
  ∃ new, children = acc ++ map (λ c, (c, Some destination)) new ∧ omap nonempty_str outputs = new ∧
    NoDup new ∧ (∀ c, c ∈ new → (c ∉ sp_seen p) ∧ (c ∉ map fst (sp_pending p)) ∧ (c ∉ map fst acc)).
Proof.
  revert acc. induction outputs as [|output outputs IH]; intros acc; cbn.
  { intros [= <-]. exists []. rewrite app_nil_r. split_and!; [done|done|constructor|]. intros c Hc. by apply not_elem_of_nil in Hc. }
  intros (child & Hchild%ok_or_Ok & H)%bind_Ok. rewrite Hchild. destruct (_ || _ || _) eqn:Hnew; [done|].
  apply orb_false_iff in Hnew as [[Hs%bool_decide_eq_false Hp]%orb_false_iff Ha].
  assert (∀ l : list (string * option string), existsb (λ q, String.eqb q.1 child) l = false → child ∉ map fst l) as Hnot.
  { intros l Hl Hin. apply not_true_iff_false in Hl. apply Hl, existsb_exists. apply list_elem_of_In, in_map_iff in Hin as (q & <- & Hq).
    exists q. split; [done|apply String.eqb_refl]. }
  apply IH in H as (new & -> & <- & Hn & Hall). exists (child :: omap nonempty_str outputs). split_and!.
  - by rewrite <- app_assoc.
  - done.
  - constructor; [|done]. intros Hin. destruct (Hall child Hin) as (_ & _ & Hacc). apply Hacc. rewrite map_app. set_solver.
  - intros c [->|Hc]%elem_of_cons; [by auto|]. destruct (Hall c Hc) as (? & ? & Hacc). split_and!; [done|done|].
    intros Hin. apply Hacc. rewrite map_app. set_solver.
Qed.

Context (fetch : nat → string → Result string Value) (save_fault : nat → option string) (observe : nat → option string).
Hypothesis fetch_stable : ∀ n id v, fetch n id = Ok v → is_null v = true ∨ same_message v (msg id).

Record journal_inv (j : Journal) : Prop := {
  ji_post : walk_inv (jn_post j);
  ji_file : ∀ p, jn_file j = Some p → walk_inv p;
}.
Lemma journal_inv_post f j : journal_inv j → walk_inv (f (jn_post j)) → journal_inv (with_post f j).
Proof. by intros []. Qed.
Lemma journal_inv_tick j : journal_inv j → journal_inv (tick j).
Proof. by intros []. Qed.

(** The call did not give up for want of fuel. *)
Definition ends {A} (r : Result Stop A) : Prop := r ≠ Err OutOfFuel.
Lemma ends_err {A} (r : Result string A) : ends (map_err StopErr r).
Proof. by destruct r. Qed.
Lemma ends_of {A B} (r : Result string A) s : map_err StopErr r = Err s → ends (@Err _ B s).
Proof. destruct r; [done|]. by intros [= <-]. Qed.
Lemma ends_cast {A B} (s : Stop) : ends (@Err _ A s) → ends (@Err _ B s).
Proof. intros H [= ->]. by apply H. Qed.

Lemma save_spec j : journal_inv j → wp (save save_fault path) (λ r j', journal_inv j' ∧ ends r ∧ jn_post j' = jn_post j) j.
Proof.
  intros Hj. unfold save. destruct path; [|by apply wp_ret]. apply wp_bind. unfold wp, ask. cbn.
  destruct (save_fault (jn_clock j)); cbn; [by split; [apply journal_inv_tick|]|]. split; [|done]. constructor; cbn; [apply Hj|].
  intros p [= <-]. apply Hj.
Qed.

(** A part that changes no more than the recorded rejection. *)
Definition same_walk (p p' : SellerPlacement) : Prop := ∃ r, p' = set_sp_rejection r p.
Lemma same_walk_refl p : same_walk p p.
Proof. exists (sp_rejection p). by destruct p. Qed.
Lemma same_walk_trans p p' p'' : same_walk p p' → same_walk p' p'' → same_walk p p''.
Proof. intros [r ->] [r' ->]. by exists r'. Qed.

Lemma note_rejection_spec id source destination transaction j :
  journal_inv j →
  wp (note_rejection show parse_address save_fault observe path id source destination transaction)
    (λ r j', journal_inv j' ∧ ends r ∧ same_walk (jn_post j) (jn_post j')) j.
Proof.
  intros Hj. unfold note_rejection. cbv zeta. apply wp_look. destruct (_ && _ && _ && _).
  - apply wp_set. set (j1 := with_post _ j).
    assert (journal_inv j1) as Hj1 by (apply journal_inv_post; [done|apply walk_inv_rejection, Hj]).
    assert (same_walk (jn_post j) (jn_post j1)) as Hw1 by (eexists; done).
    apply wp_bind. eapply wp_mono; [by apply save_spec|]. intros [[]|e] j2 (Hj2 & He & Hpost); rewrite <- Hpost in Hw1; [|by split_and!].
    unfold of_result. apply wp_check; [intros note _|intros e He'; split_and!; [done|by eapply ends_of|done]].
    apply wp_check; [intros tc _|intros e He'; split_and!; [done|by eapply ends_of|done]].
    apply wp_bind. unfold wp, ask. cbn. destruct (observe (jn_clock j2)) as [observation|]; cbn; [|by split_and!; [apply journal_inv_tick|..]].
    split_and!; [|done|by eapply same_walk_trans; [exact Hw1|eexists]].
    apply journal_inv_post; [by apply journal_inv_tick|]. apply walk_inv_rejection, Hj2.
  - split_and!; [apply journal_inv_post; [done|apply walk_inv_rejection, Hj]|done|by eexists].
Qed.

Lemma inspect_spec id source destination node j :
  journal_inv j →
  wp (inspect show parse_address save_fault observe path id source destination node)
    (λ r j', journal_inv j' ∧ ends r ∧ same_walk (jn_post j) (jn_post j') ∧
       ∀ children, r = Ok children → is_final_node node = true ∧
         ∃ outputs p, same_walk (jn_post j) p ∧ as_array (index "out_msgs" (index "dst_transaction" node)) = Some outputs ∧
           collect_children id destination outputs p [] = Ok children) j.
Proof.
  intros Hj. unfold inspect. cbv zeta. unfold is_final_node.
  destruct (bool_decide (is_Some (nonempty_str _))) eqn:Hid; cbn [negb andb]; [|by split_and!; [..|apply same_walk_refl|]].
  destruct (finalized _) eqn:Hfin; cbn [negb]; [|by split_and!; [..|apply same_walk_refl|]].
  unfold of_result. apply wp_check; [intros outputs Ho|intros e He; split_and!; [done|by eapply ends_of|apply same_walk_refl|done]].
  apply map_err_Ok, ok_or_Ok in Ho. apply wp_bind.
  assert (∀ j', journal_inv j' → same_walk (jn_post j) (jn_post j') →
    wp (op_bind (op_read (λ j, Ok (jn_post j))) (λ post, op_ret (map_err StopErr (collect_children id destination outputs post []))))
      (λ r j'', journal_inv j'' ∧ ends r ∧ same_walk (jn_post j) (jn_post j'') ∧
       ∀ children, r = Ok children → true = true ∧ ∃ outputs0 p, same_walk (jn_post j) p ∧
         as_array (index "out_msgs" (index "dst_transaction" node)) = Some outputs0 ∧ collect_children id destination outputs0 p [] = Ok children) j') as Hrest.
  { intros j' Hj' Hw. apply wp_look. split_and!; [done|apply ends_err|done|]. intros children H%map_err_Ok. split; [done|]. by exists outputs, (jn_post j'). }
  destruct (_ && _).
  - eapply wp_mono; [by apply note_rejection_spec|]. intros [[]|e] j' (Hj' & He & Hw); [by apply Hrest|split_and!; [done|by eapply ends_cast|done|done]].
  - destruct (negb _); [by split_and!; [..|apply same_walk_refl|]|]. apply wp_ret. by apply Hrest; [|apply same_walk_refl].
Qed.

Lemma walk_inv_accepted n t p id e :
  walk_inv p → dispatched id e → places id (Some n) → walk_inv (set_outcome (Some n) (Some t) p).
Proof.
  intros [Hs Hp Hf Hseen Hroot Hacc Hdone] Hd Hpl. constructor; cbn; try done; [by destruct Hs|].
  intros m [= <-]. by exists id, e.
Qed.

Lemma visit_spec id e j :
  journal_inv j → sp_terminal (jn_post j) = None → last (sp_pending (jn_post j)) = Some (id, e) →
  wp (visit show unpack parse_address show_text fetch save_fault observe path id e)
    (λ r j', journal_inv j' ∧ match r with
       | Ok true => is_Some (sp_accepted_order_id (jn_post j'))
       | Ok false => sp_terminal (jn_post j') = None ∧ sp_seen (jn_post j') = {[id]} ∪ sp_seen (jn_post j) ∧ id ∉ sp_seen (jn_post j)
       | Err s => ends (@Err _ () s) end) j.
Proof.
  intros Hj Hterm Hlast. assert (dispatched id e) as Hd.
  { apply (wi_pending _ (ji_post j Hj)). apply last_Some in Hlast as (l & ->). set_solver. }
  unfold visit. apply wp_bind. unfold wp at 1, seller_placement_message, ask. cbn.
  destruct (fetch (jn_clock j) id) as [node|err] eqn:Hfetch; cbn [map_err]; [|by split; [apply journal_inv_tick|]].
  destruct (is_null node) eqn:Hnull; [by split; [apply journal_inv_tick|]|].
  destruct (fetch_stable _ _ _ Hfetch) as [?|Hsame]; [congruence|]. apply wp_look. cbn [jn_post tick].
  set (post := jn_post j) in *. pose proof (ji_post j Hj) as Hi. fold post in Hi. apply journal_inv_tick in Hj.
  destruct (match e with Some _ => _ | None => _ end); [by split|].
  case_bool_decide as Hseen; [by split|]. destruct (_ && _); [by split|]. unfold of_result.
  apply wp_check; [intros placed Hplaced|intros s Hs; split; [done|by eapply ends_of]].
  apply map_err_Ok, map_err_Ok in Hplaced.
  rewrite (placed_by_same post node id (wi_same _ Hi) Hsame) in Hplaced. destruct placed as [n|].
  - apply wp_set. apply wp_bind. eapply wp_mono; [apply save_spec, journal_inv_post; [done|by eapply walk_inv_accepted]|].
    intros [[]|s] j' (Hj' & He & Hpost); [|done]. apply wp_ret. split; [done|]. rewrite Hpost. by eexists.
  - apply wp_bind. destruct Hsame as (Hsrc & Hdst & Hbody & Hfinal). rewrite (relevant_same _ _ _ _ (wi_same _ Hi)), Hsrc, Hdst.
    assert (∀ children j', journal_inv j' → same_walk post (jn_post j') →
      (relevant p0 id (source_of (msg id)) (destination_of (msg id)) = true → map fst children = outputs_of (msg id)) →
      (∀ c s, (c, s) ∈ children → relevant p0 id (source_of (msg id)) (destination_of (msg id)) = true ∧ c ∈ outputs_of (msg id) ∧
         s = Some (destination_of (msg id))) →
      NoDup (map fst (removelast (sp_pending post) ++ children)) →
      wp (op_bind (update (λ p, set_walk (removelast (sp_pending p) ++ children) ({[id]} ∪ sp_seen p) p))
            (λ _, op_bind (save save_fault path) (λ _, op_ret (Ok false))))
        (λ r j', journal_inv j' ∧ match r with
           | Ok true => is_Some (sp_accepted_order_id (jn_post j'))
           | Ok false => sp_terminal (jn_post j') = None ∧ sp_seen (jn_post j') = {[id]} ∪ sp_seen post ∧ id ∉ sp_seen post
           | Err s => ends (@Err _ () s) end) j') as Hrest.
    { intros children j' Hj' [r Hr] Hall Hch Hn. apply wp_set. apply wp_bind. eapply wp_mono.
      - apply save_spec, journal_inv_post; [done|]. rewrite Hr. apply (walk_inv_visited _ id e children); try done. by apply walk_inv_rejection.
      - intros [[]|s] j'' (Hj'' & He & Hpost); [|done]. apply wp_ret. split; [done|]. rewrite Hpost. cbn. by rewrite Hr. }
    assert (sp_pending post = removelast (sp_pending post) ++ [(id, e)]) as Hpend.
    { apply last_Some in Hlast as (l & Hl). by rewrite Hl, removelast_last. }
    pose proof (wi_fresh _ Hi) as Hold. rewrite Hpend, map_app in Hold. apply NoDup_app in Hold as (Hold & _ & _).
    destruct (relevant p0 id _ _) eqn:Hrel.
    + eapply wp_mono; [apply inspect_spec, Hj|]. intros [children|s] j' (Hj' & He & Hw & Hok); [|split; [done|by eapply ends_cast]].
      destruct (Hok children eq_refl) as (Hfin & outputs & p & [r' ->] & Ho & Hc). destruct (Hfinal Hfin) as [_ Hout].
      apply collect_children_spec in Hc as (new & -> & Hnew & Hnd & Hfresh). cbn [app].
      assert (new = outputs_of (msg id)) as -> by (unfold outputs_of in *; by rewrite <- Hout, Ho).
      apply Hrest; [done|done| | |].
      * intros _. rewrite map_map. apply map_id.
      * intros c s (c' & [= -> ->] & Hc)%list_elem_of_In%in_map_iff. by rewrite list_elem_of_In.
      * rewrite map_app, map_map, map_id. apply NoDup_app. split_and!; [done| |done]. intros x Hx Hx'.
        destruct (Hfresh x Hx') as (_ & Hno & _). apply Hno. change (x ∈ map fst (sp_pending post)). rewrite Hpend, map_app. set_solver.
    + apply wp_ret. apply Hrest; [done|apply same_walk_refl|done| |by rewrite app_nil_r].
      intros c s Hc. by apply not_elem_of_nil in Hc.
Qed.

(** ** Calls and restarts *)

Section Measure.
Context (ids : list string).
Hypothesis ids_all : ∀ id e, dispatched id e → id ∈ ids.

(** The messages that were not visited. *)
Definition unvisited (p : SellerPlacement) : nat := length (List.filter (λ id, negb (bool_decide (id ∈ sp_seen p))) ids).

Lemma unvisited_decreases p p' id :
  id ∈ ids → id ∉ sp_seen p → sp_seen p' = {[id]} ∪ sp_seen p → (unvisited p' < unvisited p)%nat.
Proof.
  unfold unvisited. intros Hin Hno ->. assert (∀ l, (length (List.filter (λ x, negb (bool_decide (x ∈ ({[id]} ∪ sp_seen p)))) l)
    ≤ length (List.filter (λ x, negb (bool_decide (x ∈ sp_seen p))) l))%nat) as Hle.
  { induction l as [|x l IH]; [done|]. cbn. repeat case_bool_decide; cbn; try lia. set_solver. }
  apply list_elem_of_split in Hin as (l1 & l2 & ->). rewrite !List.filter_app, !length_app. cbn.
  rewrite (bool_decide_eq_true_2 (id ∈ {[id]} ∪ sp_seen p)) by set_solver. rewrite (bool_decide_eq_false_2 (id ∈ sp_seen p)) by done. cbn.
  pose proof (Hle l1). pose proof (Hle l2). lia.
Qed.

Lemma walk_spec fuel j :
  journal_inv j → (S (unvisited (jn_post j)) < fuel)%nat →
  wp (walk show unpack parse_address show_text fetch save_fault observe path fuel) (λ r j', journal_inv j' ∧ ends r) j.
Proof.
  revert j. induction fuel as [|fuel IH]; intros j Hj Hf; [lia|]. cbn [walk]. apply wp_look.
  destruct (sp_terminal (jn_post j)) eqn:Hterm; [by apply wp_ret|].
  destruct (last (sp_pending (jn_post j))) as [[id e]|] eqn:Hlast.
  - apply wp_bind. eapply wp_mono; [by apply visit_spec|]. intros [[]|s] j' [Hj' H]; [by apply wp_ret| |split; [done|by eapply ends_cast]].
    destruct H as (_ & Hseen & Hno). apply IH; [done|].
    assert (id ∈ ids) as Hin.
    { apply (ids_all id e), (wi_pending _ (ji_post j Hj)). apply last_Some in Hlast as (l & ->). set_solver. }
    pose proof (unvisited_decreases _ _ _ Hin Hno Hseen). lia.
  - apply wp_set. apply wp_bind. apply last_None in Hlast. pose proof (ji_post j Hj) as [Hs Hp Hn Hseen Hroot Hacc Hdone].
    eapply wp_mono; [apply save_spec, journal_inv_post; [done|]|].
    + constructor; cbn; try done. by destruct Hs.
    + intros [[]|s] j' (Hj' & He & _); [by apply wp_ret|]. split; [done|by eapply ends_cast].
Qed.

Lemma reconcile_spec fuel j :
  journal_inv j → (S (length ids) < fuel)%nat →
  wp (reconcile_seller_placement show unpack parse_address show_text fetch save_fault observe path fuel)
    (λ r j', journal_inv j' ∧ ends r) j.
Proof.
  intros Hj Hf. unfold reconcile_seller_placement. apply wp_bind. eapply wp_mono; [by apply save_spec|].
  intros [[]|s] j1 (Hj1 & He & _); [|done]. unfold refuse_rejected. apply wp_look. destruct (tc_rejection (jn_post j1)); [done|].
  apply wp_bind. eapply wp_mono; [apply walk_spec; [done|]|].
  - assert (unvisited (jn_post j1) ≤ length ids)%nat by (unfold unvisited; apply List.filter_length_le). lia.
  - intros [[]|s] j2 [Hj2 He2]; [by apply wp_ret| |split; [done|by eapply ends_cast]].
    unfold wp, op_read. cbn. split; [done|]. by destruct (tc_rejection (jn_post j2)).
Qed.

(** A process calls, and may be restarted from the file. *)
Inductive Act : Type := Reconcile | Restart.
Definition act (fuel : nat) (a : Act) (j : Journal) : Journal :=
  match a with
  | Reconcile => (reconcile_seller_placement show unpack parse_address show_text fetch save_fault observe path fuel j).2
  | Restart => {| jn_post := unwrap_or (jn_post j) (jn_file j); jn_file := jn_file j; jn_clock := jn_clock j |}
  end.
Definition acts (fuel : nat) (l : list Act) (j : Journal) : Journal := foldl (λ j a, act fuel a j) j l.
Lemma acts_inv fuel l j : journal_inv j → (S (length ids) < fuel)%nat → journal_inv (acts fuel l j).
Proof.
  intros Hj Hf. revert j Hj. induction l as [|a l IH]; intros j Hj; [done|]. cbn. apply IH. destruct a; cbn.
  - by apply (reconcile_spec fuel j Hj Hf).
  - destruct Hj as [Hp Hfile]. constructor; cbn; [|done]. destruct (jn_file j) as [p|]; [by apply Hfile|done].
Qed.

(** A submission just recorded, in memory and on disk or not yet there. *)
Definition fresh_journal (j : Journal) : Prop :=
  sp_pending p0 = [(sp_message_id p0, None)] ∧ sp_seen p0 = ∅ ∧ sp_accepted_order_id p0 = None ∧ sp_terminal p0 = None ∧
  jn_post j = p0 ∧ (jn_file j = None ∨ jn_file j = Some p0).
Lemma fresh_journal_inv j : fresh_journal j → journal_inv j.
Proof.
  intros (Hp & Hs & Ha & Ht & Hpost & Hfile). assert (walk_inv p0) as Hi.
  { constructor; rewrite ?Hp, ?Hs, ?Ha, ?Ht; cbn.
    - done.
    - intros id e [= -> ->]%list_elem_of_singleton. constructor.
    - apply NoDup_singleton.
    - intros id Hid. set_solver.
    - right. rewrite Hp. cbn. set_solver.
    - done.
    - by intros []. }
  constructor; [by rewrite Hpost|]. destruct Hfile as [-> | ->]; [done|by intros p [= <-]].
Qed.

(** C32: following a submitted offer gives a sound verdict however often a call fails, is
    cancelled or the process restarts from the journal: a recorded acceptance names an order
    placed by one of the submission's own calls, and a terminal verdict without an acceptance
    is recorded only if no call of the submission placed an order. *)
Theorem placement_verdict_sound fuel l j p :
  fresh_journal j → (S (length ids) < fuel)%nat → jn_post (acts fuel l j) = p →
  (∀ n, sp_accepted_order_id p = Some n → ∃ id e, dispatched id e ∧ places id (Some n)) ∧
  (is_Some (sp_terminal p) → sp_accepted_order_id p = None → ∀ id e, dispatched id e → places id None).
Proof.
  intros Hj Hf <-. assert (walk_inv (jn_post (acts fuel l j))) as Hi by (apply acts_inv; [by apply fresh_journal_inv|done]).
  split; [apply Hi|by apply nothing_placed].
Qed.

(** C33: every call that follows the submitted offer ends, resumed from any earlier state, within
    as many rounds as the submission has calls: no message is visited twice. *)
Theorem reconcile_ends fuel l j :
  fresh_journal j → (S (length ids) < fuel)%nat →
  (reconcile_seller_placement show unpack parse_address show_text fetch save_fault observe path fuel (acts fuel l j)).1 ≠ Err OutOfFuel.
Proof.
  intros Hj Hf. by apply (reconcile_spec fuel); [apply acts_inv; [apply fresh_journal_inv|]|].
Qed.
End Measure.
End Placement.

(** * One SELL followed through: an example

    The note's call is dispatched to the deal contract and from there to the book, which places
    order 7.  The third read of the chain fails and the process restarts once. *)

Definition sample_submission : SellerPlacement := SellerPlacement_new "net" "0:aa" "0:cc" "0:bb" "m0" 1700.
Definition succeeded_with (outputs : list string) : Value :=
  Object [("id", Str "t"); ("status", Num (PosInt 3)); ("aborted", Bool false); ("out_msgs", Array (map Str outputs));
          ("compute", Object [("success", Bool true); ("exit_code", Num (PosInt 0))]);
          ("action", Object [("success", Bool true); ("result_code", Num (PosInt 0))])]%string.
Definition sample_message (id : string) : Value :=
  if String.eqb id "m0" then Object [("src", Str ""); ("dst", Str "0:aa"); ("dst_transaction", succeeded_with ["m1"])]%string
  else if String.eqb id "m1" then Object [("src", Str "0:aa"); ("dst", Str "0:cc"); ("dst_transaction", succeeded_with ["m2"])]%string
  else if String.eqb id "m2" then Object [("src", Str "0:cc"); ("dst", Str "0:bb"); ("dst_transaction", succeeded_with ["m3"])]%string
  else if String.eqb id "m3" then Object [("src", Str "0:bb"); ("dst", Str ""); ("body", Str "placed")]%string
  else Null.
Definition sample_unpack (body : string) : option (string * Result text (list Token)) :=
  if String.eqb body "placed" then
    Some ("InferenceOrderPlaced",
          Ok [("orderId", UintToken 7); ("isBuy", BoolToken false); ("price", UintToken 5); ("ticks", UintToken 10);
              ("note", AddressToken "0:aa"); ("tokenContract", AddressToken "0:cc"); ("deadline", UintToken 100); ("flags", UintToken 0)])%string
  else None.
Definition sample_fetch (n : nat) (id : string) : Result string Value :=
  if bool_decide (n = 3%nat) then Err "timeout"%string else Ok (sample_message id).
Definition no_save_fault (n : nat) : option string := None.
Definition no_diagnosis (n : nat) : option string := None.
Definition sample_journal : Journal := {| jn_post := sample_submission; jn_file := Some sample_submission; jn_clock := 0 |}.
Definition sample_messages : list string := ["m0"; "m1"; "m2"; "m3"]%string.
Definition sample_acts (l : list Act) : Journal :=
  acts (λ _, ""%string) sample_unpack (λ s, Ok s) (λ _, ""%string) true sample_fetch no_save_fault no_diagnosis 9 l sample_journal.

Example first_call_stops : sp_terminal (jn_post (sample_acts [Reconcile])) = None ∧
  map fst (sp_pending (jn_post (sample_acts [Reconcile]))) = ["m1"%string].
Proof. vm_compute. done. Qed.

Lemma sample_fetch_stable n id v : sample_fetch n id = Ok v → is_null v = true ∨ same_message v (sample_message id).
Proof. unfold sample_fetch. case_bool_decide; [done|]. intros [= <-]. by right. Qed.
Lemma sample_dispatched id e : dispatched sample_submission sample_message id e → id ∈ sample_messages.
Proof.
  induction 1 as [|id e child _ IH _ Hc]; [apply list_elem_of_here|].
  unfold sample_messages in IH. rewrite !elem_of_cons in IH. destruct IH as [->|[->|[->|[->|IH]]]]; [..|by apply not_elem_of_nil in IH];
    vm_compute in Hc; rewrite ?list_elem_of_singleton in Hc; [subst; vm_compute; set_solver..|by apply not_elem_of_nil in Hc].
Qed.
Lemma sample_fresh : fresh_journal sample_submission sample_journal.
Proof. repeat split. by right. Qed.

Lemma placement_verdict_sound_witness :
  sp_accepted_order_id (jn_post (sample_acts [Reconcile; Restart; Reconcile])) = Some 7 ∧
  ∃ id e, dispatched sample_submission sample_message id e ∧ places sample_unpack sample_submission sample_message id (Some 7).
Proof.
  split; [vm_compute; reflexivity|].
  refine (proj1 (placement_verdict_sound (λ _, ""%string) sample_unpack (λ s, Ok s) (λ _, ""%string) true sample_submission sample_message
    sample_fetch no_save_fault no_diagnosis sample_fetch_stable sample_messages sample_dispatched 9
    [Reconcile; Restart; Reconcile] sample_journal _ sample_fresh ltac:(cbn; lia) eq_refl) 7 _).
  vm_compute; reflexivity.
Defined.

Lemma reconcile_ends_witness :
  (reconcile_seller_placement (λ _, ""%string) sample_unpack (λ s, Ok s) (λ _, ""%string) sample_fetch no_save_fault no_diagnosis true 9
    (sample_acts [Reconcile])).1 ≠ Err OutOfFuel.
Proof.
  exact (reconcile_ends (λ _, ""%string) sample_unpack (λ s, Ok s) (λ _, ""%string) true sample_submission sample_message
    sample_fetch no_save_fault no_diagnosis sample_fetch_stable sample_messages sample_dispatched 9
    [Reconcile] sample_journal sample_fresh ltac:(cbn; lia)).
Defined.
