(* ===== verification/Onchain.v ===== *)
(** * Diagnosing the answer to a submitted message

    crates/core/src/onchain_diagnostics.rs: [validate_onchain_submit_response], which accepts an
    answer or refuses it with a message and a payload without the credentials it echoes; the
    search for exit codes and action result codes; the names of the contracts' error codes.
    Printing a JSON value is a parameter.  The order of a hash set is not specified, so masking
    takes the secrets in the order of a list.

    The second part shows which answers are accepted, and that the payload of a refusal repeats
    no credential of the answer. *)
From S2P Require Import Prelude RustText.
From Stdlib Require Import Strings.Ascii.

Definition REDACTED : string := "<redacted>".

Record OnchainSubmitError : Type := { os_message : text; os_sanitized_payload : Value }.
Record ExitCode : Type := { ec_code : Z; ec_stage : string }.

(** ** Credentials *)

Definition is_ext_message_token_key (key : string) : bool :=
  bool_decide (to_ascii_lowercase key ∈ ["extmessagetoken"; "ext_message_token"]%string).
Definition credential_keys : list string :=
  ["extmessagetoken"; "ext_message_token"; "authorization"; "accesstoken"; "access_token"; "refreshtoken"; "refresh_token";
   "api_key"; "apikey"; "provider_api_key"; "providerapikey"; "secret"; "secretkey"; "secret_key"; "secret_hash"; "seed";
   "seedphrase"; "seed_phrase"; "mnemonic"; "password"; "password_hash"; "passwd"; "privatekey"; "private_key"; "signature";
   "unsigned"; "signedmessagebody"; "signed_message_body"; "messageboc"; "message_boc"; "signedboc"; "signed_boc"]%string.
Definition is_credential_key (key : string) : bool := bool_decide (to_ascii_lowercase key ∈ credential_keys).

Fixpoint collect_strings (value : Value) : gset string :=
  match value with
  | Str secret => if String.eqb secret "" then ∅ else {[secret]}
  | Object entries => foldr (λ e acc, collect_strings e.2 ∪ acc) ∅ entries
  | Array items => foldr (λ v acc, collect_strings v ∪ acc) ∅ items
  | _ => ∅
  end.
(** The token that identifies a message is hidden where it stands and may be echoed. *)
Fixpoint collect_echo_secrets (value : Value) : gset string :=
  match value with
  | Object entries =>
      foldr (λ e acc, (if is_credential_key e.1 && negb (is_ext_message_token_key e.1) then collect_strings e.2
                       else collect_echo_secrets e.2) ∪ acc) ∅ entries
  | Array items => foldr (λ v acc, collect_echo_secrets v ∪ acc) ∅ items
  | _ => ∅
  end.

(** [str::replace]: the occurrences from the left, not overlapping; the pattern is not empty. *)
Fixpoint replace_go (fuel : nat) (pattern by_ s : string) : string :=
  match fuel with
  | O => s
  | S fuel =>
      match split_once pattern s with
      | Some (before, rest) => before +:+ by_ +:+ replace_go fuel pattern by_ rest
      | None => s
      end
  end.
Definition replace (pattern by_ s : string) : string := replace_go (String.length s) pattern by_ s.

(** The longest first. *)
Definition longer (a b : string) : Prop := (String.length b ≤ String.length a)%nat.
#[export] Instance longer_dec : RelDecision longer.
Proof. intros a b. unfold longer. apply _. Defined.
Definition mask_exact_secrets (text : string) (secrets : list string) : string :=
  foldl (λ masked secret, replace secret REDACTED masked) text
    (merge_sort longer (List.filter (λ secret, bool_decide (8 ≤ String.length secret)%nat) secrets)).

Fixpoint sanitize_value (secrets : list string) (value : Value) : Value :=
  match value with
  | Object entries =>
      Object (map (λ e, (e.1, if is_credential_key e.1 then Str REDACTED else sanitize_value secrets e.2)) entries)
  | Array items => Array (map (sanitize_value secrets) items)
  | Str text => Str (mask_exact_secrets text secrets)
  | _ => value
  end.
(** [order] gives the order in which the hash set is read. *)
Definition sanitize_onchain_submit_payload (order : gset string → list string) (value : Value) : Value :=
  sanitize_value (order (collect_echo_secrets value)) value.

(** ** Codes *)

(** [parse::<i64>], [from_str_radix(_, 16)]: an optional sign. *)
Definition in_i64 (n : Z) : option Z := if (- 2 ^ 63 <=? n) && (n <? 2 ^ 63) then Some n else None.
Definition parse_signed (digits : Z → string → option Z) (s : string) : option Z :=
  let nonempty (s : string) := if String.eqb s "" then None else digits 0 s in
  match strip_prefix "-" s with
  | Some r => let* n := nonempty r in in_i64 (- n)
  | None => let* n := nonempty (match strip_prefix "+" s with Some r => r | None => s end) in in_i64 n
  end.
Definition value_i64 (value : Value) : option Z :=
  match value with
  | Num (PosInt n) => in_i64 n
  | Num (NegInt n) => Some n
  | Str s =>
      let s := trim s in
      match match strip_prefix "0x" s with Some hex => Some hex | None => strip_prefix "0X" s end with
      | Some hex => parse_signed hex_digits_value hex
      | None => parse_signed digits_value s
      end
  | _ => None
  end.

Definition is_exit_code_key (key : string) : bool := bool_decide (key ∈ ["exit_code"; "exitCode"; "vm_exit_code"; "vmExitCode"]%string).
Definition is_action_result_code_key (key : string) : bool :=
  bool_decide (key ∈ ["result_code"; "resultCode"; "action_result_code"; "actionResultCode"]%string).

(** [collect_exit_codes_recursive] and [collect_action_result_codes_recursive], which differ in
    the keys they look for. *)
Definition child_path (path key : string) : string := if String.eqb path "" then key else path +:+ "." +:+ key.
Definition item_path (path : string) (i : nat) : string := path +:+ "[" +:+ to_string (Z.of_nat i) +:+ "]".
Fixpoint collect_codes_recursive (is_key : string → bool) (path : string) (value : Value) : list ExitCode :=
  match value with
  | Object entries =>
      flat_map (λ e,
        (if is_key e.1 then match value_i64 e.2 with Some code => [{| ec_code := code; ec_stage := path |}] | None => [] end else [])
        ++ collect_codes_recursive is_key (child_path path e.1) e.2) entries
  | Array items =>
      (fix go (i : nat) (items : list Value) : list ExitCode :=
         match items with
         | [] => []
         | child :: items => collect_codes_recursive is_key (item_path path i) child ++ go (S i) items
         end) 0%nat items
  | _ => []
  end.
Definition all_exit_codes (value : Value) : list ExitCode := collect_codes_recursive is_exit_code_key "" value.
Definition all_action_result_codes (value : Value) : list ExitCode := collect_codes_recursive is_action_result_code_key "" value.
Definition nonzero (l : list ExitCode) : option ExitCode := List.find (λ e, negb (ec_code e =? 0)) l.
Definition first_exit_code (value : Value) : option ExitCode := head (all_exit_codes value).
Definition first_nonzero_exit_code (value : Value) : option ExitCode := nonzero (all_exit_codes value).
Definition action_result_code (value : Value) : option ExitCode := head (all_action_result_codes value).
Definition first_nonzero_action_result_code (value : Value) : option ExitCode := nonzero (all_action_result_codes value).

Fixpoint value_at_path (value : Value) (path : list string) : option Value :=
  match path with
  | [] => Some value
  | segment :: path => match get segment value with Some v => value_at_path v path | None => None end
  end.

(** Depth first, an entry before what it holds. *)
Fixpoint find_named_value (wanted : string) (value : Value) : option Value :=
  match value with
  | Object entries =>
      foldr (λ e rest, if String.eqb e.1 wanted then Some e.2
                       else match find_named_value wanted e.2 with Some found => Some found | None => rest end) None entries
  | Array items => foldr (λ v rest, match find_named_value wanted v with Some found => Some found | None => rest end) None items
  | _ => None
  end.
Definition value_to_string (value : option Value) : option string :=
  match value with
  | Some (Str s) => Some s
  | Some (Num (PosInt n)) => Some (to_string n)
  | Some (Num (NegInt n)) => Some ("-" +:+ to_string (- n))
  | Some (Num (Float digits)) => Some digits
  | Some (Bool b) => Some (if b then "true" else "false")%string
  | _ => None
  end.

(** ** Names *)

Definition contract_error_table : list (Z * list string) := [
  (100, ["modelregistry::ERR_NOT_OWNER"]); (101, ["dex::ERR_INVALID_SENDER"; "modelregistry::ERR_NO_PUBKEY"]);
  (102, ["dex::ERR_LOW_VALUE"; "modelregistry::ERR_NOT_MODEL"]); (103, ["dex::ERR_ALREADY_RESOLVED"; "modelregistry::ERR_NAME_TOO_LONG"]);
  (107, ["dex::ERR_ALREADY_INITIALIZED"]); (114, ["dex::ERR_NOT_INITIALIZED"]); (116, ["dex::ERR_NOT_APPROVED"]);
  (120, ["dex::ERR_STAKE_PERIOD_ENDED"]); (121, ["dex::ERR_NOTE_BUSY"]); (122, ["dex::ERR_STAKE_NOT_APPROVED"]);
  (124, ["dex::ERR_STAKE_NOT_STARTED"]); (125, ["dex::ERR_RESULT_NOT_STARTED"]); (126, ["dex::ERR_RESULT_ENDED"]);
  (128, ["dex::ERR_ZERO_TOKEN_AMOUNT"]); (129, ["dex::ERR_INVALID_PARAMS"]); (130, ["dex::ERR_INVALID_OUTCOME_ID"]);
  (132, ["dex::ERR_ALREADY_CANCELLED"]); (133, ["dex::ERR_NOT_CANCELLED"]); (137, ["dex::ERR_INVALID_ZKPROOF"]);
  (138, ["dex::ERR_INVALID_TOKEN_TYPE"]); (141, ["dex::ERR_NOT_ALLOWED"]); (142, ["dex::ERR_STAKE_NOT_EXISTS"]); (143, ["dex::ERR_HAS_DEBT"]);
  (144, ["dex::ERR_NON_ZERO_BALANCE"]); (145, ["dex::ERR_COUPON_POOL_LIMIT_EXCEEDED"]); (146, ["dex::ERR_NO_COUPON_AVAILABLE"]);
  (147, ["dex::ERR_INVALID_BET_TYPE"]); (148, ["dex::ERR_COUPON_ALREADY_EXISTS"]); (149, ["dex::ERR_COUPON_ACTIVE"]);
  (150, ["dex::ERR_DEBT_NON_ZERO"]); (151, ["dex::ERR_INVALID_STATE"]); (154, ["dex::ERR_ALREADY_FROZEN"]); (156, ["dex::ERR_NOT_STAKEEND"]);
  (158, ["dex::ERR_ORDER_NOT_FOUND"]); (160, ["dex::ERR_ORDER_TOO_SMALL"]); (161, ["dex::ERR_BATCH_TOO_LARGE"]); (162, ["dex::ERR_EMPTY_BATCH"]);
  (163, ["dex::ERR_AMOUNT_NOT_LOT_MULTIPLE"]); (164, ["dex::ERR_PRICE_NOT_TICK_MULTIPLE"]); (165, ["dex::ERR_ORDERBOOK_NOT_SHUTDOWN"]);
  (167, ["dex::ERR_OPEN_ORDERS_EXIST"]); (168, ["dex::ERR_NOTIONAL_OVERFLOW"]); (169, ["dex::ERR_STAKE_EXISTS"]);
  (170, ["dex::ERR_NOT_ALLOWED_CONSTRUCTOR"]); (301, ["airegistry::ERR_NOT_OWNER"]); (302, ["airegistry::ERR_INVALID_SENDER"]);
  (303, ["airegistry::ERR_ZERO_AMOUNT"]); (304, ["airegistry::ERR_ALREADY_REGISTERED"]); (306, ["airegistry::ERR_INSUFFICIENT_TOKENS"]);
  (311, ["airegistry::ERR_NO_SHELL"]); (313, ["airegistry::ERR_BAD_PARAM"]); (314, ["airegistry::ERR_OVERFLOW"]);
  (316, ["airegistry::ERR_BAD_CODE_HASH"]); (318, ["airegistry::ERR_NOT_FUNDED"]); (319, ["airegistry::ERR_ALREADY_FUNDED"]);
  (320, ["airegistry::ERR_NOT_OPEN"]); (321, ["airegistry::ERR_ALREADY_OPEN"]); (322, ["airegistry::ERR_NOT_BUYER"]);
  (323, ["airegistry::ERR_SETTLE_WINDOW_OPEN"]); (324, ["airegistry::ERR_DISPUTED"]); (325, ["airegistry::ERR_NOT_DISPUTED"]);
  (326, ["airegistry::ERR_DISPUTE_WINDOW_OPEN"]); (327, ["airegistry::ERR_STREAM_TIMEOUT_OPEN"]); (328, ["airegistry::ERR_INSUFFICIENT_DEPOSIT"]);
  (329, ["airegistry::ERR_STILL_OPEN"]); (332, ["airegistry::ERR_BOND_NOT_FUNDED"]); (333, ["airegistry::ERR_BOND_ALREADY_FUNDED"]);
  (334, ["iob::ERR_NO_LIQUIDITY"]); (335, ["iob::ERR_BAD_FLAGS"]); (336, ["airegistry::ERR_OFFER_LIVE"]); (340, ["iob::ERR_QUEUE_FULL"]);
  (342, ["iob::ERR_BAD_TOKEN_CONTRACT"]); (343, ["iob::ERR_NAME_TOO_LONG"]); (344, ["iob::ERR_BAD_MODEL_NAME"]);
  (345, ["iob::ERR_NOT_DEPLOYER_NOTE"]); (346, ["iob::ERR_EXPIRED"]); (350, ["oracleeventlist::ERR_NOT_RANGE_EVENT"]);
  (400, ["dex::ERR_MESSAGE_IS_EXIST"]); (401, ["dex::ERR_MESSAGE_WITH_HUGE_EXPIREAT"]); (402, ["dex::ERR_MESSAGE_EXPIRED"]);
  (403, ["dex::ERR_INVALID_HISTORY_PROOF"]); (404, ["dex::ERR_NORM_REFUND_PENDING"]); (405, ["dex::ERR_SELL_DEADLINE_TOO_LONG"]);
  (407, ["dex::ERR_BAD_GAS_MIX"]); (408, ["dex::ERR_BELOW_GAS_DEPOSIT"]); (409, ["dex::ERR_FEE_TYPE_NOT_DEPOSITABLE"])
]%string.
Definition contract_error_names (code : Z) : list string :=
  match List.find (λ row, row.1 =? code) contract_error_table with Some row => row.2 | None => [] end.
Definition join (sep : string) (l : list string) : string := String.concat sep l.
Definition contract_error_label (code : Z) : option string :=
  if code =? 0 then None else
  Some match contract_error_names code with
       | [] => "unknown contract error code"
       | [only] => only
       | many => "ambiguous: " +:+ join "|" many
       end%string.
Definition unvendored_contract_error_label (contract : string) (code : Z) : option string :=
  if negb (code =? 0) then Some (contract +:+ " exit code; this repo vendors no source that declares its error codes") else None.
Definition action_result_code_label (code : Z) : option string :=
  if code =? 38 then Some "insufficient extra currency / no_funds"%string else None.
Definition print_i64 (n : Z) : string := if n <? 0 then "-" +:+ to_string (- n) else to_string n.
Definition parenthesised (label : option string) : string := match label with Some l => " (" +:+ l +:+ ")" | None => "" end.
Definition exit_code_fragment (e : ExitCode) : string :=
  "exit_code=" +:+ print_i64 (ec_code e) +:+ parenthesised (contract_error_label (ec_code e)) +:+ " stage=" +:+ ec_stage e.
Definition action_result_code_fragment (a : ExitCode) : string :=
  "action_result_code=" +:+ print_i64 (ec_code a) +:+ parenthesised (action_result_code_label (ec_code a)) +:+ " stage=" +:+ ec_stage a.

(** ** Messages *)

Section Submit.
Context (order : gset string → list string) (show : Value → string).

Definition join_text (l : list text) : text :=
  match l with [] => [] | first :: rest => first ++ flat_map (λ t, Lit "; " :: t) rest end.
Definition fragments {A} (f : A → string) (o : option A) : list text := match o with Some a => [[Lit (f a)]] | None => [] end.
Definition or_else {A} (a b : option A) : option A := match a with Some _ => a | None => b end.

Definition bm_detail_fragments (err : Value) : list text :=
  match get "data" err with
  | None => []
  | Some data =>
      flat_map (λ key, match value_to_string (find_named_value key data) with
                       | Some value => [[Lit (key +:+ "=" +:+ value)]] | None => [] end)
        ["category"; "raw_category"; "phase"; "stage"; "vm_step"; "vmStep"; "vm_step_name"]%string
  end.
Definition block_manager_error_message (err : Value) : text :=
  let code := unwrap_or "UNKNOWN"%string (value_to_string (get "code" err)) in
  let message := unwrap_or "(no message)"%string (value_to_string (get "message" err)) in
  join_text (
    [f["block manager rejected message code="; code; " message="; Dbg message]]
    ++ fragments exit_code_fragment (or_else (first_nonzero_exit_code err) (first_exit_code err))
    ++ fragments action_result_code_fragment (or_else (first_nonzero_action_result_code err) (action_result_code err))
    ++ bm_detail_fragments err
    ++ [[Lit ("tvm_sdk_error=" +:+ show (sanitize_onchain_submit_payload order err))]]).
Definition exit_code_error_message (e : ExitCode) : text := [Lit ("on-chain submit failed: " +:+ exit_code_fragment e)].
Definition action_result_code_error_message (a : ExitCode) : text := [Lit ("on-chain submit failed: " +:+ action_result_code_fragment a)].
Definition aborted_error_message (resp : Value) : text :=
  join_text (
    [[Lit "on-chain submit failed: aborted=true"]]
    ++ fragments exit_code_fragment (or_else (first_nonzero_exit_code resp) (first_exit_code resp))
    ++ fragments action_result_code_fragment (action_result_code resp)).

Definition submit_error (message : text) (payload : Value) : OnchainSubmitError :=
  {| os_message := message; os_sanitized_payload := sanitize_onchain_submit_payload order payload |}.

Definition validate_onchain_submit_response (resp : Value) : Result OnchainSubmitError Value :=
  if match get "error" resp with Some v => negb (is_null v) | None => false end then
    let sanitized := sanitize_onchain_submit_payload order resp in
    Err {| os_message := block_manager_error_message (index "error" sanitized); os_sanitized_payload := sanitized |}
  else
    match first_nonzero_exit_code resp with
    | Some exit => Err (submit_error (exit_code_error_message exit) resp)
    | None =>
        match first_nonzero_action_result_code resp with
        | Some action => Err (submit_error (action_result_code_error_message action) resp)
        | None =>
            if match value_at_path resp ["result"; "aborted"]%string with Some (Bool true) => true | _ => false end
            then Err (submit_error (aborted_error_message resp) resp)
            else Ok resp
        end
    end.
End Submit.

(** * Properties of the diagnosis of an answer

    Which answers are accepted, and that a refusal's payload repeats no credential of the
    answer. *)

(** ** Occurrences *)

Definition occurs (a s : string) : Prop := ∃ p q, s = p +:+ a +:+ q.
Fixpoint has_char (c : ascii) (s : string) : bool :=
  match s with EmptyString => false | String d s => Ascii.eqb c d || has_char c s end.

Lemma strip_prefix_spec p s r : strip_prefix p s = Some r ↔ s = p +:+ r.
Proof.
  revert s. induction p as [|a p IH]; intros s; cbn; [split; [by intros [= <-]|by intros ->]|].
  destruct s as [|b s]; [done|].
  destruct (Ascii.eqb_spec a b) as [->|Hne]; [rewrite IH|]; rewrite append_cons; split; congruence.
Qed.
Lemma split_once_left sep s a b :
  split_once sep s = Some (a, b) → s = a +:+ sep +:+ b ∧ ∀ p q, s = p +:+ sep +:+ q → (String.length a ≤ String.length p)%nat.
Proof.
  revert a b. induction s as [|c s IH]; intros a b; cbn.
  - destruct (strip_prefix sep "") as [r|] eqn:Hr; [|done]. intros [= <- <-]. apply strip_prefix_spec in Hr. split; [done|]. cbn. lia.
  - destruct (strip_prefix sep (String c s)) as [r|] eqn:Hr.
    { intros [= <- <-]. apply strip_prefix_spec in Hr. split; [done|]. cbn. lia. }
    destruct (split_once sep s) as [[a' b']|] eqn:Hs; [|done]. intros [= <- <-]. destruct (IH a' b' eq_refl) as [Heq Hmin].
    split; [by rewrite Heq|]. intros [|d p] q Hq; cbn.
    + change (String c s = sep +:+ q) in Hq. by rewrite Hq, strip_prefix_app in Hr.
    + rewrite append_cons in Hq. injection Hq as _ Hq. apply le_n_S. by eapply Hmin.
Qed.
Lemma split_once_none sep s : split_once sep s = None → ¬ occurs sep s.
Proof.
  induction s as [|c s IH]; cbn.
  - destruct (strip_prefix sep "") as [r|] eqn:Hr; [done|]. intros _ ([|] & q & Hq); [|done]. change ("" = sep +:+ q)%string in Hq.
    by rewrite Hq, strip_prefix_app in Hr.
  - destruct (strip_prefix sep (String c s)) as [r|] eqn:Hr; [done|]. destruct (split_once sep s) as [[]|]; [done|].
    intros H ([|d p] & q & Hq); [change (String c s = sep +:+ q) in Hq; by rewrite Hq, strip_prefix_app in Hr|].
    rewrite append_cons in Hq. injection Hq as _ Hq.
    apply IH; [done|]. by exists p, q.
Qed.
Lemma contains_occurs sep s : contains sep s = true ↔ occurs sep s.
Proof.
  unfold contains. destruct (split_once sep s) as [[a b]|] eqn:Hs; split; try done.
  - intros _. apply split_once_left in Hs as [Hs _]. by exists a, b.
  - intros H. by apply split_once_none in Hs.
Qed.

Lemma occurs_left a s t : occurs a s → occurs a (s +:+ t).
Proof. intros (p & q & ->). exists p, (q +:+ t). by rewrite !append_assoc. Qed.
Lemma occurs_right a s t : occurs a t → occurs a (s +:+ t).
Proof. intros (p & q & ->). exists (s +:+ p), q. by rewrite append_assoc. Qed.
Lemma occurs_length a s : occurs a s → (String.length a ≤ String.length s)%nat.
Proof. intros (p & q & ->). rewrite !length_app_string. lia. Qed.

(** An occurrence of a text without the character [c] is on one side of it. *)
Lemma append_split s t x y : s +:+ t = x +:+ y → (∃ u, s = x +:+ u ∧ y = u +:+ t) ∨ (∃ u, x = s +:+ u ∧ t = u +:+ y).
Proof.
  revert x. induction s as [|a s IH]; intros [|b x] H.
  - left. by exists "".
  - right. by exists (String b x).
  - left. by exists (String a s).
  - rewrite !append_cons in H. injection H as -> H. destruct (IH x H) as [(u & -> & ->)|(u & -> & ->)]; [left|right]; by exists u.
Qed.
Lemma has_char_app c s t : has_char c (s +:+ t) = has_char c s || has_char c t.
Proof. induction s as [|d s IH]; [done|]. rewrite append_cons. cbn. by rewrite IH, orb_assoc. Qed.
Lemma occurs_around a c s t : has_char c a = false → occurs a (s +:+ String c t) → occurs a s ∨ occurs a t.
Proof.
  intros Hc (p & q & H). apply append_split in H as [(u & -> & H)|(u & -> & H)].
  - apply append_split in H as [(v & -> & H)|(v & -> & _)]; [|left; by exists p, v]. destruct v as [|d v].
    + left. exists p, "". by rewrite !append_nil_r.
    + rewrite append_cons in H. injection H as <- _. rewrite has_char_app in Hc. cbn in Hc. by rewrite Ascii.eqb_refl, orb_true_r in Hc.
  - destruct u as [|d u].
    + cbn in H. destruct a as [|d a]; [left; by exists s, ""; rewrite !append_nil_r|]. rewrite append_cons in H. injection H as <- _.
      cbn in Hc. by rewrite Ascii.eqb_refl in Hc.
    + rewrite append_cons in H. injection H as _ ->. right. by exists u, q.
Qed.

(** ** Masking *)

(** A secret that the mark itself cannot spell. *)
Definition maskable (secret : string) : Prop :=
  (8 ≤ String.length secret)%nat ∧ has_char "<" secret = false ∧ has_char ">" secret = false ∧ secret ≠ "redacted"%string.

Lemma occurs_full a s : occurs a s → (String.length s ≤ String.length a)%nat → a = s.
Proof.
  intros (p & q & ->) H. rewrite !length_app_string in H. destruct p, q; cbn in H; try lia. by rewrite append_nil_r.
Qed.
Lemma maskable_around secret s t : maskable secret → occurs secret (s +:+ REDACTED +:+ t) → occurs secret s ∨ occurs secret t.
Proof.
  intros (Hlen & Hl & Hr & Hne) H. change (REDACTED +:+ t) with (String "<" ("redacted" +:+ String ">" t)) in H.
  apply occurs_around in H as [H|H]; [by left| |done]. apply occurs_around in H as [H|H]; [|by right|done].
  destruct Hne. by apply occurs_full.
Qed.
Lemma maskable_redacted secret : maskable secret → ¬ occurs secret REDACTED.
Proof.
  intros Hm H. pose proof (maskable_around secret "" "" Hm) as Ha. destruct Hm as [Hlen _].
  destruct (Ha H) as [Ho|Ho]; apply occurs_length in Ho; cbn in Ho; lia.
Qed.

Lemma replace_go_keeps_out fuel pattern secret s :
  maskable secret → ¬ occurs secret s → ¬ occurs secret (replace_go fuel pattern REDACTED s).
Proof.
  intros Hm. revert s. induction fuel as [|fuel IH]; intros s Hs; cbn [replace_go]; [done|].
  destruct (split_once pattern s) as [[before rest]|] eqn:Hp; [|done]. apply split_once_left in Hp as [-> _].
  intros [H|H]%(maskable_around _ _ _ Hm); [by apply Hs, occurs_left|].
  revert H. apply IH. intros H. by apply Hs, occurs_right, occurs_right.
Qed.
Lemma replace_go_removes fuel secret s :
  maskable secret → (String.length s ≤ fuel)%nat → ¬ occurs secret (replace_go fuel secret REDACTED s).
Proof.
  intros Hm. assert (8 ≤ String.length secret)%nat as Hlen by apply Hm.
  revert s. induction fuel as [|fuel IH]; intros s Hs; cbn [replace_go]; [intros H%occurs_length; lia|].
  destruct (split_once secret s) as [[before rest]|] eqn:Hp; [|by apply split_once_none]. apply split_once_left in Hp as [-> Hmin].
  rewrite !length_app_string in Hs. intros [(p & q & Hpq)|H]%(maskable_around _ _ _ Hm).
  - specialize (Hmin p (q +:+ secret +:+ rest)). rewrite Hpq, !append_assoc, !length_app_string in Hmin. specialize (Hmin eq_refl). lia.
  - revert H. apply IH. lia.
Qed.

Lemma mask_hides secrets secret s :
  secret ∈ secrets → maskable secret → ¬ occurs secret (mask_exact_secrets s secrets).
Proof.
  intros Hin Hm. unfold mask_exact_secrets. set (l := merge_sort _ _). assert (secret ∈ l) as Hl.
  { unfold l. rewrite merge_sort_Permutation. apply list_elem_of_In, filter_In. rewrite <- list_elem_of_In. split; [done|].
    apply bool_decide_eq_true_2, Hm. }
  clearbody l. clear Hin. assert (∀ l s, ¬ occurs secret s → ¬ occurs secret (foldl (λ masked secret, replace secret REDACTED masked) s l)) as Hkeep.
  { intros k. induction k as [|x k IH]; intros t Ht; [done|]. cbn. by apply IH, replace_go_keeps_out. }
  revert s. induction l as [|x l IH]; intros s; [by apply not_elem_of_nil in Hl|]. cbn.
  apply elem_of_cons in Hl as [<-|Hl]; [by apply Hkeep, replace_go_removes|by apply IH].
Qed.

(** ** The payload of a refusal *)

(** The texts of a value, and its entries. *)
Inductive text_in : Value → string → Prop :=
| text_here s : text_in (Str s) s
| text_entry entries k v s : (k, v) ∈ entries → text_in v s → text_in (Object entries) s
| text_item items v s : v ∈ items → text_in v s → text_in (Array items) s.
Inductive entry_in : Value → string → Value → Prop :=
| entry_here entries k v : (k, v) ∈ entries → entry_in (Object entries) k v
| entry_entry entries k' v' k v : (k', v') ∈ entries → entry_in v' k v → entry_in (Object entries) k v
| entry_item items v' k v : v' ∈ items → entry_in v' k v → entry_in (Array items) k v.

Lemma sanitize_texts secrets secret v s :
  secret ∈ secrets → maskable secret → text_in (sanitize_value secrets v) s → ¬ occurs secret s.
Proof.
  intros Hin Hm. remember (sanitize_value secrets v) as w eqn:Hw. intros Ht. revert v Hw.
  induction Ht as [s|entries k v' s Hk Ht IH|items v' s Hi Ht IH]; intros v Hw; destruct v; cbn in Hw; try done.
  - injection Hw as ->. by apply mask_hides.
  - injection Hw as ->. apply list_elem_of_In, in_map_iff in Hk as ([k0 v0] & [= -> <-] & _). cbn in *.
    destruct (is_credential_key k); [|by eapply IH]. inversion Ht; subst. by apply maskable_redacted.
  - injection Hw as ->. apply list_elem_of_In, in_map_iff in Hi as (v0 & <- & _). by eapply IH.
Qed.
Lemma sanitize_entries secrets v k w : entry_in (sanitize_value secrets v) k w → is_credential_key k = true → w = Str REDACTED.
Proof.
  remember (sanitize_value secrets v) as u eqn:Hu. intros He Hk. revert v Hu.
  induction He as [entries k w He|entries k' v' k w He Hin IH|items v' k w He Hin IH]; intros v Hu; destruct v; cbn in Hu; try done; injection Hu as ->.
  - apply list_elem_of_In, in_map_iff in He as ([k0 v0] & [= -> <-] & _). cbn. by rewrite Hk.
  - apply list_elem_of_In, in_map_iff in He as ([k0 v0] & [= -> <-] & _). cbn in *.
    destruct (is_credential_key k'); [inversion Hin|by eapply IH].
  - apply list_elem_of_In, in_map_iff in He as (v0 & <- & _). by eapply IH.
Qed.

(** ** What is accepted *)

Section ValueInduction.
Context (P : Value → Prop) (HNull : P Null) (HBool : ∀ b, P (Bool b)) (HNum : ∀ n, P (Num n)) (HStr : ∀ s, P (Str s))
  (HArray : ∀ items, Forall P items → P (Array items)) (HObject : ∀ entries, Forall (λ e, P e.2) entries → P (Object entries)).
Fixpoint value_induction (v : Value) : P v :=
  match v with
  | Null => HNull
  | Bool b => HBool b
  | Num n => HNum n
  | Str s => HStr s
  | Array items =>
      HArray items ((fix go (l : list Value) : Forall P l :=
        match l with [] => @List.Forall_nil _ P | v :: l => @List.Forall_cons _ P v l (value_induction v) (go l) end) items)
  | Object entries =>
      HObject entries ((fix go (l : list (string * Value)) : Forall (λ e, P e.2) l :=
        match l with [] => @List.Forall_nil _ _ | e :: l => @List.Forall_cons _ (λ e, P e.2) e l (value_induction e.2) (go l) end) entries)
  end.
End ValueInduction.

Lemma collect_codes_items is_key path items i c :
  c ∈ (fix go (i : nat) (items : list Value) : list ExitCode :=
         match items with
         | [] => []
         | child :: items => collect_codes_recursive is_key (item_path path i) child ++ go (S i) items
         end) i items ↔
  ∃ j v, items !! j = Some v ∧ c ∈ collect_codes_recursive is_key (item_path path (i + j)) v.
Proof.
  revert i. induction items as [|v items IH]; intros i; cbn.
  - split; [intros H; by apply not_elem_of_nil in H|]. by intros (j & v & H & _).
  - rewrite elem_of_app, IH. split.
    + intros [H|(j & w & Hj & H)]; [exists 0%nat, v; by rewrite Nat.add_0_r|]. exists (S j), w. by rewrite Nat.add_succ_r.
    + intros ([|j] & w & Hj & H); [left; injection Hj as ->; by rewrite Nat.add_0_r in H|right]. exists j, w.
      by rewrite Nat.add_succ_r in H.
Qed.

(** The codes found are those of the entries named so, at any depth. *)
Lemma collected_code_entry is_key v : ∀ path e, e ∈ collect_codes_recursive is_key path v →
  ∃ k w, entry_in v k w ∧ is_key k = true ∧ value_i64 w = Some (ec_code e).
Proof.
  induction v as [| | | |items IH|entries IH] using value_induction; intros path e He; cbn in He; try (by apply not_elem_of_nil in He).
  - apply collect_codes_items in He as (j & v & Hj & He). apply list_elem_of_lookup_2 in Hj as Hin.
    rewrite List.Forall_forall in IH. destruct (IH v (proj1 (list_elem_of_In _ _) Hin) _ _ He) as (k & w & Hw & ?).
    exists k, w. split; [by eapply entry_item|done].
  - apply list_elem_of_In, in_flat_map in He as ([k v] & Hk & He). cbn in He. rewrite List.Forall_forall in IH.
    pose proof (IH _ Hk) as Hv. rewrite <- !list_elem_of_In in *. apply elem_of_app in He as [He|He].
    + destruct (is_key k) eqn:Hkey; [|by apply not_elem_of_nil in He]. destruct (value_i64 v) eqn:Hcode; [|by apply not_elem_of_nil in He].
      apply list_elem_of_singleton in He as ->. exists k, v. split; [by apply entry_here|done].
    + destruct (Hv _ _ He) as (k' & w & Hw & ?). exists k', w. split; [by eapply entry_entry|done].
Qed.
Lemma entry_code_collected is_key v k w n : entry_in v k w → is_key k = true → value_i64 w = Some n →
  ∀ path, ∃ e, e ∈ collect_codes_recursive is_key path v ∧ ec_code e = n.
Proof.
  intros Hin Hkey Hn. induction Hin as [entries k w Hk|entries k' v k w Hk Hin IH|items v k w Hi Hin IH]; intros path; cbn.
  - exists {| ec_code := n; ec_stage := path |}. rewrite list_elem_of_In, in_flat_map. split; [|done]. exists (k, w). rewrite <- !list_elem_of_In. split; [done|].
    cbn. rewrite Hkey, Hn. apply elem_of_app. left. by apply list_elem_of_singleton.
  - destruct (IH Hkey Hn (child_path path k')) as (e & He & Hc). exists e. rewrite list_elem_of_In, in_flat_map. split; [|done].
    exists (k', v). rewrite <- !list_elem_of_In. split; [done|]. cbn. apply elem_of_app. by right.
  - apply list_elem_of_lookup in Hi as [j Hj]. destruct (IH Hkey Hn (item_path path j)) as (e & He & Hc). exists e.
    split; [|done]. apply collect_codes_items. by exists j, v.
Qed.
Lemma nonzero_None l : nonzero l = None ↔ ∀ e, e ∈ l → ec_code e = 0.
Proof.
  unfold nonzero. split.
  - intros H e He. pose proof (find_none _ _ H e (proj1 (list_elem_of_In _ _) He)) as Hz. cbn in Hz. lia.
  - intros H. destruct (List.find _ l) as [e|] eqn:He; [|done]. apply find_some in He as [He Hz]. rewrite <- list_elem_of_In in He.
    apply H in He. lia.
Qed.
(** No code of such a name is other than zero. *)
Definition clean (is_key : string → bool) (v : Value) : Prop :=
  ∀ k w n, entry_in v k w → is_key k = true → value_i64 w = Some n → n = 0.
Lemma nonzero_clean is_key v : nonzero (collect_codes_recursive is_key "" v) = None ↔ clean is_key v.
Proof.
  rewrite nonzero_None. split.
  - intros H k w n Hin Hk Hn. destruct (entry_code_collected _ _ _ _ _ Hin Hk Hn "") as (e & He & <-). by apply H.
  - intros H e (k & w & Hin & Hk & Hn)%collected_code_entry. by eapply H.
Qed.

Section Validate.
Context (order : gset string → list string) (show : Value → string).
Hypothesis order_elements : ∀ X x, x ∈ order X ↔ x ∈ X.

(** An answer is accepted, unchanged, exactly when it carries no error object, none of its
    exit codes and action result codes, at any depth and in any spelling the program reads, is
    other than zero, and its transaction was not aborted. *)
Theorem accepted_answers resp r :
  validate_onchain_submit_response order show resp = Ok r ↔
  r = resp ∧ (∀ e, get "error" resp = Some e → e = Null) ∧ clean is_exit_code_key resp ∧ clean is_action_result_code_key resp ∧
  value_at_path resp ["result"; "aborted"]%string ≠ Some (Bool true).
Proof.
  rewrite <- !nonzero_clean. unfold validate_onchain_submit_response, first_nonzero_exit_code, first_nonzero_action_result_code, all_exit_codes, all_action_result_codes.
  assert ((match get "error" resp with Some v => negb (is_null v) | None => false end) = false ↔ (∀ e, get "error" resp = Some e → e = Null)) as Herr.
  { destruct (get "error" resp) as [e|]; [|split; [by intros _ e [=]|done]]. split; [intros He e' [= <-]; by destruct e|intros H; by rewrite (H e eq_refl)]. }
  destruct (match get "error" resp with Some v => negb (is_null v) | None => false end).
  { split; [done|]. intros (_ & H%Herr & _). done. }
  destruct (nonzero (collect_codes_recursive is_exit_code_key "" resp)); [split; [done|by intros (_ & _ & ? & _)]|].
  destruct (nonzero (collect_codes_recursive is_action_result_code_key "" resp)); [split; [done|by intros (_ & _ & _ & ? & _)]|].
  destruct (value_at_path resp _) as [[| [] | | | |]|]; (split; [try done; intros [= <-]; split_and!; try done; by apply Herr|]);
    by intros (-> & _ & _ & _ & H).
Qed.

(** A refusal's payload repeats no credential of the answer: whatever value stands under a
    credential's key is replaced, and no text anywhere in it contains one of the secrets (of
    eight bytes or more) that stood under such a key, in whatever order the secrets are
    replaced.  A message token is only hidden under its own key. *)
Theorem refusal_hides_credentials resp err :
  validate_onchain_submit_response order show resp = Err err →
  (∀ k w, entry_in (os_sanitized_payload err) k w → is_credential_key k = true → w = Str REDACTED) ∧
  (∀ secret s, secret ∈ collect_echo_secrets resp → maskable secret → text_in (os_sanitized_payload err) s → contains secret s = false).
Proof.
  intros H. assert (os_sanitized_payload err = sanitize_onchain_submit_payload order resp) as ->.
  { unfold validate_onchain_submit_response in H. destruct (match get _ _ with Some v => _ | None => _ end); [by injection H as <-|].
    destruct (first_nonzero_exit_code resp); [by injection H as <-|]. destruct (first_nonzero_action_result_code resp); [by injection H as <-|].
    destruct (match value_at_path _ _ with Some _ => _ | None => _ end); [by injection H as <-|done]. }
  split; [intros k w; apply sanitize_entries|]. intros secret s Hin Hm Ht. apply not_true_iff_false. rewrite contains_occurs.
  by eapply sanitize_texts; [apply order_elements| |].
Qed.
End Validate.

(** ** Examples *)

Definition sample_answer : Value :=
  Object [("authorization", Str "Bearer abcdef"); ("result", Object [("aborted", Bool true); ("exit_code", Str "0x79"); ("note", Str "sent Bearer abcdef")])]%string.
Definition sample_order (X : gset string) : list string := elements X.

Example sample_refusal :
  validate_onchain_submit_response sample_order (λ _, ""%string) sample_answer
  = Err {| os_message := [Lit "on-chain submit failed: exit_code=121 (dex::ERR_NOTE_BUSY) stage=result"];
           os_sanitized_payload :=
             Object [("authorization", Str "<redacted>");
                     ("result", Object [("aborted", Bool true); ("exit_code", Str "0x79"); ("note", Str "sent <redacted>")])]%string |}.
Proof. vm_compute. reflexivity. Qed.

Lemma refusal_hides_credentials_witness :
  ∃ err, validate_onchain_submit_response sample_order (λ _, ""%string) sample_answer = Err err ∧
    ∀ s, text_in (os_sanitized_payload err) s → contains "Bearer abcdef" s = false.
Proof.
  eexists. split; [vm_compute; reflexivity|].
  refine (λ s, proj2 (refusal_hides_credentials sample_order (λ _, ""%string) (λ X x, elem_of_elements X x) sample_answer _ _) "Bearer abcdef"%string s _ _).
  - vm_compute. reflexivity.
  - apply (bool_decide_unpack _). vm_compute. exact I.
  - split_and!; [cbn; lia|done|done|done].
Defined.
