(* ===== verification/NoteGate.v ===== *)
(** * Which gate holds a note's money

    crates/core/src/note_withdraw_gate.rs: the reading of the eleven conditions of
    [PrivateNote.withdrawTokens] from one decoded storage snapshot, its rendering, the exit
    codes that it explains, and the check that a withdrawal arrived.  The contract's own
    conditions (contracts/dex/PrivateNote.sol, [withdrawTokens]) are written beside them.

    The second part shows that the verdict on a storage snapshot is the contract's, in every
    rendering the decoder uses. *)
From S2P Require Import Prelude RustText.
From S2P Require Import Onchain.

(** ** The gates *)

Inductive WithdrawGate : Type :=
| HasWithdrawn
| Busy (with_ : string)
| Stakes (count : Z)
| Debt (raw : Z)
| LockedInOrders (token_type locked : Z)
| PendingPlaceBuyLock (raw : Z)
| PendingBatchBuyLock (raw : Z)
| OpenOrders (count : Z)
| RestingInference (count : Z)
| PendingInference (count : Z)
| LiveDeals (count : Z).

Definition field (g : WithdrawGate) : string :=
  match g with
  | HasWithdrawn => "_hasWithdrawn" | Busy _ => "_busy" | Stakes _ => "_stakes" | Debt _ => "_debt"
  | LockedInOrders _ _ => "_lockedInOrders" | PendingPlaceBuyLock _ => "_pendingPlaceBuyLock"
  | PendingBatchBuyLock _ => "_pendingBatchBuyLock" | OpenOrders _ => "_openOrderCount" | RestingInference _ => "_restingInf"
  | PendingInference _ => "_pendingInf" | LiveDeals _ => "_liveDeals"
  end.
Definition contract_line (g : WithdrawGate) : Z :=
  match g with
  | HasWithdrawn => 2649 | Busy _ => 2650 | Stakes _ => 2651 | Debt _ => 2652 | LockedInOrders _ _ => 2659
  | PendingPlaceBuyLock _ => 2661 | PendingBatchBuyLock _ => 2662 | OpenOrders _ => 2663 | RestingInference _ => 2677
  | PendingInference _ => 2682 | LiveDeals _ => 2683
  end.
Definition exit_code (g : WithdrawGate) : Z :=
  match g with
  | HasWithdrawn => 151
  | Busy _ | Stakes _ => 121
  | Debt _ => 150
  | LockedInOrders _ _ | PendingPlaceBuyLock _ | PendingBatchBuyLock _ => 144
  | OpenOrders _ | RestingInference _ | PendingInference _ | LiveDeals _ => 167
  end.
Definition holds (g : WithdrawGate) : string :=
  match g with
  | HasWithdrawn => "the note has already withdrawn once"
  | Busy with_ => "an in-flight operation with " +:+ with_
  | Stakes count => to_string count +:+ " PMP stake(s)"
  | Debt raw => "a debt of " +:+ to_string raw
  | LockedInOrders token_type locked => to_string locked +:+ " locked in orders for token type " +:+ to_string token_type
  | PendingPlaceBuyLock raw => "a pending place-buy lock of " +:+ to_string raw
  | PendingBatchBuyLock raw => "a pending batch-buy lock of " +:+ to_string raw
  | OpenOrders count => to_string count +:+ " open order(s)"
  | RestingInference count => to_string count +:+ " resting inference order(s)"
  | PendingInference count => to_string count +:+ " pending inference buy(s)"
  | LiveDeals count => to_string count +:+ " live deal(s)"
  end.
Definition next_step (g : WithdrawGate) : string :=
  match g with
  | HasWithdrawn =>
      "the trading record is spent and `withdrawTokens` is one-shot, so no further withdrawal is possible -- but SHELL that ARRIVES after the withdrawal is not lost: `dexdo note sweep --note-addr '<note-addr>' --to '<dapp_id>::<account_id>'` moves the note's physical ECC[2] pocket out through the contract's own `sweepShell`. It lands there as ECC[2], not as spendable gas"
  | Busy _ =>
      "the latch clears only on the acknowledgement of the operation that set it, or when that message bounces; resolve that counterparty -- waiting does not clear it"
  | Stakes _ =>
      "cancel the stake with `dexdo oracle cancel-stake`, which needs the (eventId, oracleListHash, tokenType) triple. The run's artefacts are the quickest source but NOT the only one: this note's own stake record already carries oracleListHash and tokenType, and eventId is recoverable by recomputing the stake key over the oracle's event list until it matches -- so what you must still supply is the oracle NAME, not a 256-bit hash. If cancel-stake refuses because the market cannot be cancelled, `dexdo oracle forfeit-stake` is the way out that has no lifecycle gate -- it ABANDONS the stake, so read its refusal before using it"
  | Debt _ => "the note owes; the debt must be settled before it can pay out"
  | LockedInOrders _ _ => "cancel the orders holding the escrow (`dexdo orders cancel-all`)"
  | PendingPlaceBuyLock _ | PendingBatchBuyLock _ =>
      "a buy is in flight; the lock clears when the book answers, so re-read before acting"
  | OpenOrders _ => "cancel them (`dexdo orders cancel-all`)"
  | RestingInference _ => "cancel the resting inference orders (`dexdo orders cancel-all`)"
  | PendingInference _ => "a buy is in flight; it clears when the book answers, so re-read before acting"
  | LiveDeals _ =>
      "close them: `dexdo note outstanding --note-addr '<note-addr>'` names them from the same note address this reading was taken from, then stop or finalize each"
  end.

Inductive NoteWithdrawGate : Type :=
| Clear
| Held (g : WithdrawGate)
| Unreadable (field reason : string).

Definition WITHDRAW_GATE_FIELDS : list string :=
  ["_hasWithdrawn"; "_busy"; "_stakes"; "_debt"; "_lockedInOrders"; "_pendingPlaceBuyLock"; "_pendingBatchBuyLock";
   "_openOrderCount"; "_restingInf"; "_pendingInf"; "_liveDeals"]%string.
Definition WITHDRAW_GATE_EXIT_CODES : list Z := [121; 144; 150; 151; 167].
Definition refusal_carries_a_withdraw_gate_code (error_text : string) : bool :=
  existsb (λ code, contains ("exit_code=" +:+ to_string code +:+ " (") error_text) WITHDRAW_GATE_EXIT_CODES.

(** ** Reading the storage *)

Definition storage_u128 (fields : Value) (name : string) : Result string Z :=
  let? raw := ok_or (get name fields) (name +:+ " is absent from the decoded storage") in
  match as_u64 raw with
  | Some n => Ok n
  | None =>
      let? text := ok_or (as_str raw) (name +:+ " is not a number") in
      let text := trim text in
      ok_or (parse_prefixed u128 text) (name +:+ " does not parse as an integer: " +:+ text)
  end.
Definition storage_map_len (fields : Value) (name : string) : Result string Z :=
  match get name fields with
  | None | Some Null => Err (name +:+ " is absent from the decoded storage")
  | Some (Object entries) => Ok (Z.of_nat (length entries))
  | Some (Array entries) => Ok (Z.of_nat (length entries))
  | Some _ => Err (name +:+ " is neither an object nor an array")
  end.
Definition storage_bool (fields : Value) (name : string) : Result string bool :=
  match get name fields with
  | Some (Bool value) => Ok value
  | Some (Str text) =>
      let other := to_ascii_lowercase (trim text) in
      if bool_decide (other ∈ ["true"; "1"]%string) then Ok true
      else if bool_decide (other ∈ ["false"; "0"]%string) then Ok false
      else Err (name +:+ " is not a bool: " +:+ other)
  | Some _ => Err (name +:+ " is not a bool")
  | None => Err (name +:+ " is absent from the decoded storage")
  end.
Definition first_of (o : list (option Value)) : option Value :=
  foldr (λ a b, match a with Some _ => a | None => b end) None o.
(** An optional address: null is the empty one, a missing key is not. *)
Definition storage_address (fields : Value) (name : string) : Result string (option string) :=
  match get name fields with
  | None => Err (name +:+ " is absent from the decoded storage")
  | Some Null => Ok None
  | Some (Str address) => if String.eqb (trim address) "" then Err (name +:+ " decoded as an empty string") else Ok (Some (trim address))
  | Some (Object object) =>
      match (let* v := first_of [assoc "value" object; assoc "0" object] in as_str v) with
      | Some address => Ok (if String.eqb (trim address) "" then None else Some (trim address))
      | None => Ok None
      end
  | Some _ => Err (name +:+ " is not an address")
  end.

Definition parse_u (v : Value) : option Z :=
  match as_u64 v with
  | Some n => Some n
  | None => let* s := as_str v in parse_prefixed u128 (trim s)
  end.
Definition token_type_of (v : Value) : option Z := let* id := parse_u v in try_into u32 id.
Definition array_pair (entry : Value) : option Value * option Value :=
  match entry with
  | Object object => (first_of [assoc "key" object; assoc "0" object], first_of [assoc "value" object; assoc "1" object])
  | Array [key; value] => (Some key, Some value)
  | _ => (None, None)
  end.
Definition locked_in_orders (fields : Value) : Result string (list (Z * Z)) :=
  let name := "_lockedInOrders"%string in
  match get name fields with
  | None | Some Null => Err (name +:+ " is absent from the decoded storage")
  | Some (Object entries) =>
      collect (λ e : string * Value,
        let? id := ok_or (token_type_of (Str e.1)) (name +:+ " key " +:+ e.1 +:+ " is not a token type") in
        let? locked := ok_or (parse_u e.2) (name +:+ "[" +:+ e.1 +:+ "] is not an amount") in
        Ok (id, locked)) entries
  | Some (Array entries) =>
      collect (λ entry,
        let? key := ok_or (array_pair entry).1 (name +:+ " row carries no key") in
        let? value := ok_or (array_pair entry).2 (name +:+ " row carries no value") in
        let? id := ok_or (token_type_of key) (name +:+ " key is not a token type") in
        let? locked := ok_or (parse_u value) (name +:+ " value is not an amount") in
        Ok (id, locked)) entries
  | Some _ => Err (name +:+ " is neither an object nor an array")
  end.

(** [read!]: an error is the verdict. *)
Definition read {A} (name : string) (r : Result string A) (k : A → NoteWithdrawGate) : NoteWithdrawGate :=
  match r with Ok value => k value | Err reason => Unreadable name reason end.

Definition note_withdraw_gate_from_storage (fields : Value) : NoteWithdrawGate :=
  read "_hasWithdrawn" (storage_bool fields "_hasWithdrawn") (λ has_withdrawn : bool,
  if has_withdrawn then Held HasWithdrawn else
  read "_busy" (storage_address fields "_busy") (λ busy,
  match busy with Some with_ => Held (Busy with_) | None =>
  read "_stakes" (storage_map_len fields "_stakes") (λ stakes,
  if 0 <? stakes then Held (Stakes stakes) else
  read "_debt" (storage_u128 fields "_debt") (λ debt,
  if negb (debt =? 0) then Held (Debt debt) else
  read "_lockedInOrders" (locked_in_orders fields) (λ locked,
  match List.find (λ e, negb (e.2 =? 0)) locked with Some (token_type, amount) => Held (LockedInOrders token_type amount) | None =>
  read "_pendingPlaceBuyLock" (storage_u128 fields "_pendingPlaceBuyLock") (λ place,
  if negb (place =? 0) then Held (PendingPlaceBuyLock place) else
  read "_pendingBatchBuyLock" (storage_u128 fields "_pendingBatchBuyLock") (λ batch,
  if negb (batch =? 0) then Held (PendingBatchBuyLock batch) else
  read "_openOrderCount" (storage_u128 fields "_openOrderCount") (λ open,
  if negb (open =? 0) then Held (OpenOrders (unwrap_or (umax u32) (try_into u32 open))) else
  read "_restingInf" (storage_map_len fields "_restingInf") (λ resting,
  if 0 <? resting then Held (RestingInference resting) else
  read "_pendingInf" (storage_map_len fields "_pendingInf") (λ pending,
  if 0 <? pending then Held (PendingInference pending) else
  read "_liveDeals" (storage_map_len fields "_liveDeals") (λ live,
  if 0 <? live then Held (LiveDeals live) else Clear))))))
  end))) end)).

Definition withdraw_gate_line (reading : NoteWithdrawGate) : string :=
  let gates := to_string (Z.of_nat (length WITHDRAW_GATE_FIELDS)) in
  match reading with
  | Clear =>
      "all " +:+ gates +:+ " withdrawTokens STATE gates read and closed -- the eleven are note STATE only; gas and amounts are settled when the message is sent and are NOT among them, so this is NOT a statement that a withdrawal will succeed"
  | Held g =>
      "held by " +:+ field g +:+ " (" +:+ to_string (exit_code g) +:+ "): " +:+ holds g +:+ " -- " +:+ next_step g
        +:+ " [PrivateNote.sol:" +:+ to_string (contract_line g) +:+ ", exit_code=" +:+ to_string (exit_code g) +:+ "]"
  | Unreadable name reason =>
      "unknown -- " +:+ name +:+ " could not be read (" +:+ reason +:+ "); fewer than " +:+ gates
        +:+ " gates were checked, so this is NOT a statement that the note can withdraw"
  end.

(** ** Did the withdrawal arrive *)

Record NoteWithdrawalArrival : Type :=
  { note_trading_record : Z; note_ecc_pocket : Z; destination_before : Z; destination_after : Z }.
Definition expected (a : NoteWithdrawalArrival) : option Z := checked_add u128 (note_trading_record a) (note_ecc_pocket a).
Definition observed (a : NoteWithdrawalArrival) : option Z := checked_sub (destination_after a) (destination_before a).
Definition check_withdrawal_arrival (a : NoteWithdrawalArrival) : Result string Z :=
  let? want := ok_or (expected a)
    ("note withdrawal: trading record " +:+ to_string (note_trading_record a) +:+ " + ECC pocket " +:+ to_string (note_ecc_pocket a)
       +:+ " overflows u128") in
  let? got := ok_or (observed a)
    ("note withdrawal: destination ECC[2] FELL from " +:+ to_string (destination_before a) +:+ " to " +:+ to_string (destination_after a)
       +:+ " across the withdrawal") in
  if negb (got =? want) then
    Err ("note withdrawal did not arrive: destination ECC[2] gained " +:+ to_string got +:+ " raw, expected              "
           +:+ to_string want +:+ " raw (= trading record " +:+ to_string (note_trading_record a) +:+ " + ECC pocket "
           +:+ to_string (note_ecc_pocket a) +:+ "); destination went " +:+ to_string (destination_before a) +:+ " -> "
           +:+ to_string (destination_after a))
  else Ok got.

(** ** The contract: PrivateNote.sol, the conditions of [withdrawTokens] on the note's state

    An address is its printed form. *)

Record NoteStorage : Type := {
  ns_hasWithdrawn : bool; ns_busy : option string; ns_stakes : list string; ns_debt : Z; ns_lockedInOrders : list (Z * Z);
  ns_pendingPlaceBuyLock : Z; ns_pendingBatchBuyLock : Z; ns_openOrderCount : Z;
  ns_restingInf : list string; ns_pendingInf : list string; ns_liveDeals : list string;
}.
Definition ERR_NOTE_BUSY : Z := 121.
Definition ERR_NON_ZERO_BALANCE : Z := 144.
Definition ERR_DEBT_NON_ZERO : Z := 150.
Definition ERR_INVALID_STATE : Z := 151.
Definition ERR_OPEN_ORDERS_EXIST : Z := 167.
Definition require (condition : bool) (code : Z) : Result Z () := if condition then Ok () else Err code.
Definition is_nil {A} (l : list A) : bool := match l with [] => true | _ => false end.
Definition withdrawTokens_requires (s : NoteStorage) : Result Z () :=
  require (negb (ns_hasWithdrawn s)) ERR_INVALID_STATE ;?
  require (match ns_busy s with Some _ => false | None => true end) ERR_NOTE_BUSY ;?
  require (is_nil (ns_stakes s)) ERR_NOTE_BUSY ;?
  require (ns_debt s =? 0) ERR_DEBT_NON_ZERO ;?
  for_each (λ e : Z * Z, require (e.2 =? 0) ERR_NON_ZERO_BALANCE) (ns_lockedInOrders s) ;?
  require (ns_pendingPlaceBuyLock s =? 0) ERR_NON_ZERO_BALANCE ;?
  require (ns_pendingBatchBuyLock s =? 0) ERR_NON_ZERO_BALANCE ;?
  require (ns_openOrderCount s =? 0) ERR_OPEN_ORDERS_EXIST ;?
  require (is_nil (ns_restingInf s)) ERR_OPEN_ORDERS_EXIST ;?
  require (is_nil (ns_pendingInf s)) ERR_OPEN_ORDERS_EXIST ;?
  require (is_nil (ns_liveDeals s)) ERR_OPEN_ORDERS_EXIST.

(** * The withdraw gate and the contract

    The verdict on a note's storage is the contract's: for every snapshot that renders a state
    of the note, in any of the renderings the decoder uses. *)

(** ** How the decoder renders a state *)

Inductive renders_uint (n : Z) : Value → Prop :=
| renders_number : n ≤ umax u64 → renders_uint n (Num (PosInt n))
| renders_decimal : renders_uint n (Str (to_string n))
| renders_hex : renders_uint n (Str ("0x" +:+ to_hex n)).
Inductive renders_bool (b : bool) : Value → Prop :=
| renders_flag : renders_bool b (Bool b)
| renders_word : renders_bool b (Str (if b then "true" else "false")%string).
Inductive renders_address : option string → Value → Prop :=
| renders_absent : renders_address None Null
| renders_text a : a ≠ ""%string → trim a = a → renders_address (Some a) (Str a)
| renders_optional a : a ≠ ""%string → trim a = a → renders_address (Some a) (Object [("value", Str a)]%string)
| renders_nothing : renders_address None (Object []).
Inductive renders_keys (keys : list string) : Value → Prop :=
| renders_object entries : map fst entries = keys → renders_keys keys (Object entries)
| renders_array items : length items = length keys → renders_keys keys (Array items).
Inductive renders_row (p : Z * Z) : Value → Prop :=
| renders_named k v : renders_uint p.1 k → renders_uint p.2 v → renders_row p (Object [("key", k); ("value", v)]%string)
| renders_pair k v : renders_uint p.1 k → renders_uint p.2 v → renders_row p (Array [k; v]).
Inductive renders_amounts (l : list (Z * Z)) : Value → Prop :=
| renders_amount_object entries :
    Forall2 (λ p e, renders_uint p.1 (Str e.1) ∧ renders_uint p.2 e.2) l entries → renders_amounts l (Object entries)
| renders_amount_rows rows : Forall2 renders_row l rows → renders_amounts l (Array rows).

Definition field_renders (fields : Value) (name : string) (R : Value → Prop) : Prop := ∃ v, get name fields = Some v ∧ R v.
Record renders (s : NoteStorage) (fields : Value) : Prop := {
  r_withdrawn : field_renders fields "_hasWithdrawn" (renders_bool (ns_hasWithdrawn s));
  r_busy : field_renders fields "_busy" (renders_address (ns_busy s));
  r_stakes : field_renders fields "_stakes" (renders_keys (ns_stakes s));
  r_debt : field_renders fields "_debt" (renders_uint (ns_debt s));
  r_locked : field_renders fields "_lockedInOrders" (renders_amounts (ns_lockedInOrders s));
  r_place : field_renders fields "_pendingPlaceBuyLock" (renders_uint (ns_pendingPlaceBuyLock s));
  r_batch : field_renders fields "_pendingBatchBuyLock" (renders_uint (ns_pendingBatchBuyLock s));
  r_open : field_renders fields "_openOrderCount" (renders_uint (ns_openOrderCount s));
  r_resting : field_renders fields "_restingInf" (renders_keys (ns_restingInf s));
  r_pending : field_renders fields "_pendingInf" (renders_keys (ns_pendingInf s));
  r_live : field_renders fields "_liveDeals" (renders_keys (ns_liveDeals s));
}.
(** The widths of the contract's fields. *)
Record storage_widths (s : NoteStorage) : Prop := {
  w_debt : in_range u128 (ns_debt s);
  w_locked : Forall (λ p, in_range u32 p.1 ∧ in_range u128 p.2) (ns_lockedInOrders s);
  w_place : in_range u128 (ns_pendingPlaceBuyLock s);
  w_batch : in_range u128 (ns_pendingBatchBuyLock s);
  w_open : in_range u32 (ns_openOrderCount s);
}.

(** ** Each reading *)

#[local] Arguments umax : simpl never.

Lemma renders_parse_u n v : in_range u128 n → renders_uint n v → parse_u v = Some n.
Proof.
  intros Hn []; unfold parse_u; cbn [as_u64 as_str obind]; [done|by rewrite trim_to_string, parse_prefixed_decimal|].
  rewrite trim_to_hex by apply Hn. by rewrite parse_prefixed_hex.
Qed.
Lemma renders_storage_u128 fields name n : in_range u128 n → field_renders fields name (renders_uint n) → storage_u128 fields name = Ok n.
Proof.
  intros Hn (v & Hv & Hr). unfold storage_u128. rewrite Hv. cbn [ok_or rbind]. destruct Hr; cbn [as_u64 as_str ok_or rbind]; cbv zeta; [done|by rewrite trim_to_string, parse_prefixed_decimal|].
  rewrite trim_to_hex by apply Hn. by rewrite parse_prefixed_hex.
Qed.
Lemma renders_storage_bool fields name b : field_renders fields name (renders_bool b) → storage_bool fields name = Ok b.
Proof. intros (v & Hv & Hr). unfold storage_bool. rewrite Hv. destruct Hr; [done|]. by destruct b. Qed.
Lemma renders_storage_address fields name a : field_renders fields name (renders_address a) → storage_address fields name = Ok a.
Proof.
  intros (v & Hv & Hr). unfold storage_address. rewrite Hv. destruct Hr as [|a Ha Ht|a Ha Ht|]; cbn [first_of foldr assoc String.eqb Ascii.eqb Bool.eqb obind as_str]; rewrite ?Ht; try done;
    by rewrite (proj2 (String.eqb_neq a "") Ha).
Qed.
Lemma renders_storage_map_len fields name keys :
  field_renders fields name (renders_keys keys) → storage_map_len fields name = Ok (Z.of_nat (length keys)).
Proof.
  intros (v & Hv & Hr). unfold storage_map_len. rewrite Hv. destruct Hr as [entries He|items H]; [by rewrite <- He, length_map|by rewrite H].
Qed.
Lemma renders_locked fields l :
  Forall (λ p, in_range u32 p.1 ∧ in_range u128 p.2) l → field_renders fields "_lockedInOrders" (renders_amounts l) →
  locked_in_orders fields = Ok l.
Proof.
  intros Hl (v & Hv & Hr). unfold locked_in_orders. rewrite Hv. clear Hv.
  assert (∀ n k, in_range u32 n → renders_uint n k → token_type_of k = Some n) as Htoken.
  { intros n k Hn Hk. unfold token_type_of. rewrite (renders_parse_u n k) by (done || (unfold in_range, umax in *; lia)). cbn.
    apply try_into_fits. unfold in_range in Hn. lia. }
  destruct Hr as [entries H|rows H]; apply collect_Ok.
  - induction H as [|[id n] [k v] l entries [Hk Hn] H IH]; [constructor|]. inversion Hl as [|? ? [? ?]]; subst.
    constructor; [|by apply IH]. cbn in *. by rewrite (Htoken id), (renders_parse_u n) by done.
  - induction H as [|[id n] row l rows Hrow H IH]; [constructor|]. inversion Hl as [|? ? [? ?]]; subst.
    constructor; [|by apply IH]. destruct Hrow as [k v Hk Hn|k v Hk Hn]; cbn in *; by rewrite (Htoken id), (renders_parse_u n) by done.
Qed.

(** ** The contract *)

Lemma require_Ok b c : require b c = Ok () ↔ b = true.
Proof. by destruct b. Qed.
Lemma len_is_nil {A} (l : list A) : is_nil l = negb (0 <? Z.of_nat (length l)).
Proof. by destruct l. Qed.
Lemma locked_requires l :
  for_each (λ e : Z * Z, require (e.2 =? 0) ERR_NON_ZERO_BALANCE) l
  = match List.find (λ e, negb (e.2 =? 0)) l with Some _ => Err ERR_NON_ZERO_BALANCE | None => Ok () end.
Proof. induction l as [|[t n] l IH]; [done|]. cbn. destruct (n =? 0); cbn; [done|done]. Qed.

Lemma gate_code_explained g stage :
  refusal_carries_a_withdraw_gate_code ("on-chain submit failed: " +:+ exit_code_fragment {| ec_code := exit_code g; ec_stage := stage |}) = true.
Proof.
  unfold refusal_carries_a_withdraw_gate_code. apply existsb_exists. exists (exit_code g). split; [destruct g; vm_compute; tauto|].
  apply contains_occurs. exists "on-chain submit failed: "%string.
  destruct g; eexists; by repeat rewrite append_cons.
Qed.

(** C34: for every storage snapshot that renders a note's state, the verdict is the contract's:
    clear exactly when [withdrawTokens] passes all its conditions; otherwise the gate named
    raises the exit code of the condition that the contract fails first, and a refusal that
    carries this code is recognised as one that a gate explains. *)
Theorem gate_is_the_contracts s fields :
  renders s fields → storage_widths s →
  match withdrawTokens_requires s with
  | Ok () => note_withdraw_gate_from_storage fields = Clear
  | Err code => ∃ g, note_withdraw_gate_from_storage fields = Held g ∧ exit_code g = code ∧
      ∀ stage, refusal_carries_a_withdraw_gate_code
        ("on-chain submit failed: " +:+ exit_code_fragment {| ec_code := code; ec_stage := stage |}) = true
  end.
Proof.
  intros [Rwithdrawn Rbusy Rstakes Rdebt Rlocked Rplace Rbatch Ropen Rresting Rpending Rlive] [Wdebt Wlocked Wplace Wbatch Wopen].
  assert (in_range u128 (ns_openOrderCount s)) as Wopen' by (unfold in_range, umax in *; lia).
  assert (∃ r, withdrawTokens_requires s = r ∧ match r with
    | Ok () => note_withdraw_gate_from_storage fields = Clear
    | Err code => ∃ g, note_withdraw_gate_from_storage fields = Held g ∧ exit_code g = code end) as (r & -> & Hr).
  { eexists. split; [done|]. unfold note_withdraw_gate_from_storage, withdrawTokens_requires.
    rewrite (renders_storage_bool _ _ _ Rwithdrawn). cbn [read]. destruct (ns_hasWithdrawn s); cbn [negb require rbind]; [by eexists|].
    rewrite (renders_storage_address _ _ _ Rbusy). cbn [read]. destruct (ns_busy s); cbn [require rbind]; [by eexists|].
    rewrite !len_is_nil.
    rewrite (renders_storage_map_len _ _ _ Rstakes). cbn [read]. destruct (0 <? Z.of_nat (length (ns_stakes s))); cbn [negb require rbind]; [by eexists|].
    rewrite (renders_storage_u128 _ _ _ Wdebt Rdebt). cbn [read]. destruct (ns_debt s =? 0); cbn [negb require rbind]; [|by eexists].
    rewrite (renders_locked _ _ Wlocked Rlocked). cbn [read]. rewrite locked_requires.
    destruct (List.find _ (ns_lockedInOrders s)) as [[t n]|]; cbn [rbind]; [by eexists|].
    rewrite (renders_storage_u128 _ _ _ Wplace Rplace). cbn [read]. destruct (ns_pendingPlaceBuyLock s =? 0); cbn [negb require rbind]; [|by eexists].
    rewrite (renders_storage_u128 _ _ _ Wbatch Rbatch). cbn [read]. destruct (ns_pendingBatchBuyLock s =? 0); cbn [negb require rbind]; [|by eexists].
    rewrite (renders_storage_u128 _ _ _ Wopen' Ropen). cbn [read].
    destruct (ns_openOrderCount s =? 0); cbn [negb require rbind]; [|by eexists].
    rewrite (renders_storage_map_len _ _ _ Rresting). cbn [read]. destruct (0 <? Z.of_nat (length (ns_restingInf s))); cbn [negb require rbind]; [by eexists|].
    rewrite (renders_storage_map_len _ _ _ Rpending). cbn [read]. destruct (0 <? Z.of_nat (length (ns_pendingInf s))); cbn [negb require rbind]; [by eexists|].
    rewrite (renders_storage_map_len _ _ _ Rlive). cbn [read]. destruct (0 <? Z.of_nat (length (ns_liveDeals s))); cbn [negb require]; by eexists. }
  destruct r as [[]|code]; [done|]. destruct Hr as (g & Hg & <-). exists g. split_and!; [done|done|]. intros stage. apply gate_code_explained.
Qed.

(** ** Any storage at all *)

(** Nothing is reported closed that was not read: the clear verdict means that every field is
    there and reads as closed. *)
Lemma clear_reads_everything fields :
  note_withdraw_gate_from_storage fields = Clear → ∀ name, name ∈ WITHDRAW_GATE_FIELDS → ∃ v, get name fields = Some v.
Proof.
  unfold note_withdraw_gate_from_storage, storage_bool, storage_address, storage_map_len, storage_u128, locked_in_orders.
  intros H name Hname. unfold WITHDRAW_GATE_FIELDS in Hname. rewrite !elem_of_cons in Hname.
  destruct (get name fields) as [v|] eqn:Hv; [by exists v|]. exfalso.
  destruct_or! Hname; try (by apply not_elem_of_nil in Hname); subst name; rewrite Hv in H; cbn [ok_or rbind read] in H; try discriminate H;
    repeat match type of H with
    | read _ ?r _ = _ => destruct r as [|]; cbn [read] in H; try done
    | (match ?x with _ => _ end) = _ => destruct x; try done
    end.
Qed.

(** ** The arrival *)

(** A withdrawal counts as arrived, with the amount returned, exactly when the destination
    gained what the note gave up from both of its planes, to the unit. *)
Theorem arrival_is_exact a n :
  in_range u128 (note_trading_record a) → in_range u128 (note_ecc_pocket a) →
  in_range u128 (destination_before a) → in_range u128 (destination_after a) →
  check_withdrawal_arrival a = Ok n ↔
  n = note_trading_record a + note_ecc_pocket a ∧ destination_after a = destination_before a + n.
Proof.
  intros H1 H2 H3 H4. unfold in_range in *. unfold check_withdrawal_arrival, expected, observed, checked_add, checked_sub.
  destruct (Z.leb_spec (note_trading_record a + note_ecc_pocket a) (umax u128)); cbn [ok_or rbind]; [|split; [done|lia]].
  destruct (Z.leb_spec (destination_before a) (destination_after a)); cbn [ok_or rbind]; [|split; [done|lia]].
  destruct (Z.eqb_spec (destination_after a - destination_before a) (note_trading_record a + note_ecc_pocket a)); cbn [negb].
  - split; [intros [= <-]; lia|]. intros [-> ?]. f_equal. lia.
  - split; [done|lia].
Qed.

(** ** Examples *)

Definition sample_note : NoteStorage := {|
  ns_hasWithdrawn := false; ns_busy := None; ns_stakes := []; ns_debt := 0; ns_lockedInOrders := [(2, 0); (3, 40)];
  ns_pendingPlaceBuyLock := 0; ns_pendingBatchBuyLock := 7; ns_openOrderCount := 1; ns_restingInf := []; ns_pendingInf := []; ns_liveDeals := [] |}.
Definition sample_fields : Value := Object [
  ("_hasWithdrawn", Str "false"); ("_busy", Null); ("_stakes", Object []); ("_debt", Str "0x0");
  ("_lockedInOrders", Object [("2", Str "0"); ("3", Str "0x28")]); ("_pendingPlaceBuyLock", Num (PosInt 0));
  ("_pendingBatchBuyLock", Str "7"); ("_openOrderCount", Str "0x1"); ("_restingInf", Array []); ("_pendingInf", Object []);
  ("_liveDeals", Object [])]%string.

Lemma gate_is_the_contracts_witness :
  withdrawTokens_requires sample_note = Err 144 ∧ ∃ g, note_withdraw_gate_from_storage sample_fields = Held g ∧ exit_code g = 144.
Proof.
  split; [vm_compute; reflexivity|].
  assert (renders sample_note sample_fields) as Hr.
  { constructor; (eexists; split; [vm_compute; reflexivity|]); cbn.
    - apply (renders_word false).
    - constructor.
    - by constructor.
    - apply (renders_hex 0).
    - constructor. constructor; [split; [apply (renders_decimal 2)|apply (renders_decimal 0)]|].
      constructor; [split; [apply (renders_decimal 3)|apply (renders_hex 40)]|constructor].
    - apply (renders_number 0). by vm_compute.
    - apply (renders_decimal 7).
    - apply (renders_hex 1).
    - by constructor.
    - by constructor.
    - by constructor. }
  assert (storage_widths sample_note) as Hw by (constructor; repeat constructor; by vm_compute).
  pose proof (gate_is_the_contracts sample_note sample_fields Hr Hw) as H.
  change (withdrawTokens_requires sample_note) with (@Err Z () 144) in H. cbv iota beta in H.
  destruct H as (g & Hg & Hc & _). exists g. split; [exact Hg|exact Hc].
Defined.

Lemma arrival_is_exact_witness :
  check_withdrawal_arrival {| note_trading_record := 70; note_ecc_pocket := 5; destination_before := 100; destination_after := 175 |} = Ok 75.
Proof. apply arrival_is_exact; cbn; [split; by vm_compute..|lia]. Defined.
