(* ===== verification/UsageRequests.v ===== *)
(** * The buyer's usage history: requests and admission counters

    crates/dexdo/src/buyer/usage.rs (the life of a request and the usage of its calls),
    usage_snapshot.rs (the counters updated in the same transaction) and
    usage_consumption.rs (what accepted work costs).  An operation runs in one
    transaction: [Err] leaves the tables as they were.  [now] is the reading of the clock
    in milliseconds and [timestamp] chrono's range check of one. *)
From S2P Require Import Prelude RustText Params UsageData.

(** ** What accepted work costs (usage_consumption.rs) *)

Definition consumption_cost (price tokens : Z) : Result text Z :=
  ok_or
    (let* whole := checked_mul u128 (tokens / TICK_SIZE) price in
     let tail := tokens mod TICK_SIZE in
     let* part := checked_mul u128 (price / TICK_SIZE) tail in
     let* part := checked_add u128 part (umul u128 (price mod TICK_SIZE) tail / TICK_SIZE) in
     checked_add u128 whole part)
    f["billable consumption overflow"].

Definition paid_probe_cost (amount tokens : Z) : Z :=
  let tokens := Z.min tokens TICK_SIZE in
  uadd u128 (umul u128 (amount / TICK_SIZE) tokens) (umul u128 (amount mod TICK_SIZE) tokens / TICK_SIZE).

(** ** Totals of one request (usage_snapshot.rs) *)

Record RequestTotals : Type := {
  rt_model : string;
  rt_deal : option string;
  rt_model_totals : ModelTotals;
  rt_charged : Z;
}.
#[export] Instance RequestTotals_eq_dec : EqDecision RequestTotals.
Proof. solve_decision. Defined.

Definition counter_add (left_ right_ : Z) : Result text Z :=
  ok_or (checked_add u128 left_ right_) f["admission counter overflow"].

(** The rows of [request_usage] of one request. *)
Definition calls_of (db : UsageDb) (request : string) : gmap call_key UsageRow :=
  unwrap_or ∅ (db_request_usage db !! request).
Definition usage_rows (db : UsageDb) (request : string) : list (call_key * UsageRow) :=
  map_to_list (calls_of db request).
Definition IN_PROGRESS : string := "in_progress".

Definition parsed_usage (row : UsageRow) : Result text BillingUsage :=
  let? usage := BillingUsage_new (us_input_tokens row) (us_output_tokens row) (Some (us_total_tokens row)) in
  let usage := {|
    bu_input_tokens := bu_input_tokens usage; bu_output_tokens := bu_output_tokens usage;
    bu_total_tokens := bu_total_tokens usage; bu_charged_tokens := bu_charged_tokens usage;
    bu_cache_read_tokens := us_cache_read_tokens row; bu_cache_write_tokens := us_cache_write_tokens row |} in
  BillingUsage_validate usage ;? Ok usage.

(** One round of the loop over the rows of a request. *)
Definition count_row (acc : ModelTotals * Z) (key : call_key) (row : UsageRow) : Result text (ModelTotals * Z) :=
  let '(totals, charged) := acc in
  if negb (us_accepted row) || String.eqb key.2 IN_PROGRESS then Ok acc
  else
  let? usage := parsed_usage row in
  let? input := counter_add (mt_input totals)
    (usub u64 (usub u64 (bu_input_tokens usage) (bu_cache_read_tokens usage)) (bu_cache_write_tokens usage)) in
  let? output := counter_add (mt_output totals) (bu_output_tokens usage) in
  let? cache_read := counter_add (mt_cache_read totals) (bu_cache_read_tokens usage) in
  let? cache_write := counter_add (mt_cache_write totals) (bu_cache_write_tokens usage) in
  let? charged := counter_add charged (us_charged_tokens row) in
  Ok ({| mt_input := input; mt_output := output; mt_cache_read := cache_read; mt_cache_write := cache_write;
         mt_incomplete := mt_incomplete totals |}, charged).
Fixpoint count_rows (acc : ModelTotals * Z) (rows : list (call_key * UsageRow)) : Result text (ModelTotals * Z) :=
  match rows with
  | [] => Ok acc
  | (key, row) :: rows => let? acc := count_row acc key row in count_rows acc rows
  end.

Definition request_totals_in (db : UsageDb) (request : string) : Result text RequestTotals :=
  let? row := ok_or (db_requests db !! request) f["Query returned no rows"] in
  let rows := usage_rows db request in
  let? '(totals, charged) := count_rows (no_totals, 0) rows in
  let answer := existsb (λ kv, String.eqb (kv.1.1) "answer") rows in
  let complete :=
    bool_decide (is_Some (rq_finished_at row)) && rq_history_complete row
    && forallb (λ kv, us_accepted kv.2) rows
    && (answer || (String.eqb (rq_outcome row) "rejected" && bool_decide (rq_deal_id row = None))) in
  Ok {| rt_model := rq_model row; rt_deal := rq_deal_id row;
        rt_model_totals := {|
          mt_input := mt_input totals; mt_output := mt_output totals; mt_cache_read := mt_cache_read totals;
          mt_cache_write := mt_cache_write totals; mt_incomplete := if complete then 0 else 1 |};
        rt_charged := charged |}.

Definition read_model (db : UsageDb) (model : string) : ModelTotals :=
  unwrap_or no_totals (db_admission_models db !! model).
Definition read_deal (db : UsageDb) (deal : string) : Z := unwrap_or 0 (db_admission_deals db !! deal).

(** One counter of the model: what the request counted before goes, what it counts now comes. *)
Definition replace_counter (total old new : Z) : Result text Z :=
  let? rest := ok_or (checked_sub total old) f["admission counter underflow"] in
  counter_add rest new.

Definition update_totals_in (db : UsageDb) (request : string) (before : option RequestTotals) : Result text UsageDb :=
  let? after := request_totals_in db request in
  if bool_decide (before = Some after) then Ok db else
  let totals := read_model db (rt_model after) in
  let previous := unwrap_or no_totals (option_map rt_model_totals before) in
  let next := rt_model_totals after in
  let? input := replace_counter (mt_input totals) (mt_input previous) (mt_input next) in
  let? output := replace_counter (mt_output totals) (mt_output previous) (mt_output next) in
  let? cache_read := replace_counter (mt_cache_read totals) (mt_cache_read previous) (mt_cache_read next) in
  let? cache_write := replace_counter (mt_cache_write totals) (mt_cache_write previous) (mt_cache_write next) in
  let? incomplete := replace_counter (mt_incomplete totals) (mt_incomplete previous) (mt_incomplete next) in
  let db := set_db_admission_models (<[rt_model after := {|
      mt_input := input; mt_output := output; mt_cache_read := cache_read; mt_cache_write := cache_write;
      mt_incomplete := incomplete |}]> (db_admission_models db)) db in
  match rt_deal after with
  | None => Ok db
  | Some deal =>
      let old := match before with
                 | Some value => if bool_decide (rt_deal value = rt_deal after) then rt_charged value else 0
                 | None => 0
                 end in
      let? rest := ok_or (checked_sub (read_deal db deal) old) f["admission deal counter underflow"] in
      let? total := counter_add rest (rt_charged after) in
      Ok (set_db_admission_deals (<[deal := total]> (db_admission_deals db)) db)
  end.

(** [migrate_admission]: the counters of an older file, from its requests. *)
Definition migrate_admission (db : UsageDb) : Result text UsageDb :=
  let fix go (requests : list string) (db : UsageDb) : Result text UsageDb :=
    match requests with
    | [] => Ok db
    | request :: requests => let? db := update_totals_in db request None in go requests db
    end in
  go (map fst (map_to_list (db_requests db)))
     (set_db_admission_deals ∅ (set_db_admission_models ∅ db)).

(** ** The life of a request (usage.rs) *)

Section Requests.
Context (timestamp : Z → bool) (runtime_id : string).

Definition put_request (request : string) (row : RequestRow) (db : UsageDb) : UsageDb :=
  set_db_requests (<[request := row]> (db_requests db)) db.
Definition put_calls (request : string) (calls : gmap call_key UsageRow) (db : UsageDb) : UsageDb :=
  set_db_request_usage (<[request := calls]> (db_request_usage db)) db.
Definition check_timestamp (at_ms : Z) : Result text () :=
  if timestamp at_ms then Ok () else Err f["usage timestamp out of range"].

Definition start_request_at (request_id model protocol : string) (streamed : bool) (at_ms : Z) (db : UsageDb)
    : Result text UsageDb :=
  if String.eqb request_id "" then Err f["usage request ID is empty"] else
  check_timestamp at_ms ;?
  match db_requests db !! request_id with
  | Some old =>
      if String.eqb (rq_model old) model && String.eqb (rq_protocol old) protocol && Bool.eqb (rq_streamed old) streamed
      then Ok db else Err f["conflicting replay of buyer request start"]
  | None =>
      let row := {|
        rq_runtime_id := runtime_id; rq_model := model; rq_protocol := protocol; rq_streamed := streamed;
        rq_deal_id := None; rq_started_at := at_ms; rq_finished_at := None; rq_outcome := IN_PROGRESS;
        rq_http_status := None; rq_finish_reason := None; rq_failure_stage := None;
        rq_history_complete := true |} in
      update_totals_in (put_request request_id row db) request_id None
  end.

Definition link_deal (request_id deal_id : string) (db : UsageDb) : Result text UsageDb :=
  let? before := request_totals_in db request_id in
  let? row := ok_or (db_requests db !! request_id) f["usage request not found"] in
  if match rq_deal_id row with Some id => negb (String.eqb id deal_id) | None => false end then
    Err f["usage request deal changed"]
  else
  let db := put_request request_id (set_rq_deal_id (Some deal_id) row) db in
  let db := put_calls request_id (set_us_deal_id (Some deal_id) <$> calls_of db request_id) db in
  update_totals_in db request_id (Some before).

Definition set_request_streamed (request_id : string) (streamed : bool) (db : UsageDb) : Result text UsageDb :=
  let? row := ok_or (db_requests db !! request_id) f["usage request not found"] in
  Ok (put_request request_id (set_rq_streamed streamed row) db).

Definition known_phase (phase : string) : bool :=
  existsb (String.eqb phase) ["answer"; "verification_b8"; "verification_b7"]%string.

Definition record_call_usage (request_id phase call_id : string) (usage : BillingUsage) (accepted : bool)
    (now : Z) (db : UsageDb) : Result text UsageDb :=
  if negb (known_phase phase) then Err f["unknown usage phase"] else
  if String.eqb call_id "" then Err f["usage call ID is empty"] else
  BillingUsage_validate usage ;?
  let? before := request_totals_in db request_id in
  let calls := calls_of db request_id in
  let charged := billable_tokens usage in
  let? calls :=
    match calls !! (phase, call_id) with
    | Some old =>
        if negb ((us_input_tokens old =? bu_input_tokens usage) && (us_output_tokens old =? bu_output_tokens usage)
                 && (us_total_tokens old =? bu_total_tokens usage) && (us_charged_tokens old =? charged)
                 && (us_cache_read_tokens old =? bu_cache_read_tokens usage)
                 && (us_cache_write_tokens old =? bu_cache_write_tokens usage))
        then Err f["conflicting replay of buyer usage call"]
        else if accepted && negb (us_accepted old)
        then Ok (<[(phase, call_id) := set_us_accepted_at (Some now) (set_us_accepted true old)]> calls)
        else Ok calls
    | None =>
        Ok (<[(phase, call_id) := {|
          us_input_tokens := bu_input_tokens usage; us_output_tokens := bu_output_tokens usage;
          us_total_tokens := bu_total_tokens usage; us_charged_tokens := charged; us_accepted := accepted;
          us_cache_read_tokens := bu_cache_read_tokens usage; us_cache_write_tokens := bu_cache_write_tokens usage;
          us_accepted_at := if accepted then Some now else None;
          us_deal_id := let* row := db_requests db !! request_id in rq_deal_id row |}]> calls)
    end in
  let calls :=
    if accepted && String.eqb phase call_id then
      match calls !! (phase, IN_PROGRESS) with
      | Some marker => <[(phase, IN_PROGRESS) := set_us_accepted true marker]> calls
      | None => calls
      end
    else calls in
  update_totals_in (put_calls request_id calls db) request_id (Some before).

(** The three [EXISTS] of [UNRESOLVED_OUTPUT_USAGE_SQL]. *)
Definition has_unresolved_output_usage (deal_id : string) (db : UsageDb) : bool :=
  let of_deal (row : RequestRow) := bool_decide (rq_deal_id row = Some deal_id) in
  let unfinished (row : RequestRow) := bool_decide (rq_finished_at row = None) in
  let requests := map_to_list (db_requests db) in
  existsb (λ kv, of_deal kv.2 && negb (rq_history_complete kv.2)) requests
  || existsb (λ kv, of_deal kv.2 && unfinished kv.2 && negb (String.eqb (rq_runtime_id kv.2) runtime_id)) requests
  || existsb (λ kv : string * RequestRow,
       of_deal kv.2 && existsb (λ call : call_key * UsageRow,
         bool_decide (us_deal_id call.2 = Some deal_id) && String.eqb call.1.2 IN_PROGRESS
         && negb (us_accepted call.2)
         && (String.eqb call.1.1 "answer" || negb (unfinished kv.2)
             || negb (String.eqb (rq_runtime_id kv.2) runtime_id))) (usage_rows db kv.1)) requests.

Definition mark_request_history_incomplete (request_id : string) (db : UsageDb) : Result text UsageDb :=
  let? before := request_totals_in db request_id in
  let? row := ok_or (db_requests db !! request_id) f["usage request not found"] in
  update_totals_in (put_request request_id (set_rq_history_complete false row) db) request_id (Some before).

Definition request_outcome (http_status : Z) (finish_reason failure_stage : option string) : string :=
  if (http_status =? 499) || bool_decide (finish_reason = Some "cancelled"%string) then "cancelled"
  else if http_status >=? 500 then "failed"
  else if http_status >=? 400 then "rejected"
  else if bool_decide (is_Some failure_stage)
          || match finish_reason with
             | Some reason => String.eqb reason "error" || String.eqb reason "empty_output"
             | None => false
             end
  then "failed"
  else "succeeded".

Definition finish_request_at (request_id : string) (http_status : Z) (finish_reason failure_stage : option string)
    (at_ms : Z) (db : UsageDb) : Result text UsageDb :=
  check_timestamp at_ms ;?
  let outcome := request_outcome http_status finish_reason failure_stage in
  let? before := request_totals_in db request_id in
  let? existing := ok_or (db_requests db !! request_id) f["usage request not found"] in
  if negb (at_ms >=? rq_started_at existing) then Err f["usage request finished before it started"]
  else if bool_decide (is_Some (rq_finished_at existing)) then
    if bool_decide (rq_http_status existing = Some http_status) && bool_decide (rq_finish_reason existing = finish_reason)
       && bool_decide (rq_failure_stage existing = failure_stage)
    then Ok db else Err f["conflicting replay of buyer request completion"]
  else
  let row := {|
    rq_runtime_id := rq_runtime_id existing; rq_model := rq_model existing; rq_protocol := rq_protocol existing;
    rq_streamed := rq_streamed existing; rq_deal_id := rq_deal_id existing; rq_started_at := rq_started_at existing;
    rq_finished_at := Some at_ms; rq_outcome := outcome; rq_http_status := Some http_status;
    rq_finish_reason := finish_reason; rq_failure_stage := failure_stage;
    rq_history_complete := rq_history_complete existing |} in
  update_totals_in (put_request request_id row db) request_id (Some before).

(** Every request of an earlier process that is still in progress. *)
Definition interrupted_row (row : RequestRow) : bool :=
  String.eqb (rq_outcome row) IN_PROGRESS && negb (String.eqb (rq_runtime_id row) runtime_id).
Definition interrupt_row (row : RequestRow) : RequestRow :=
  if interrupted_row row then {|
    rq_runtime_id := rq_runtime_id row; rq_model := rq_model row; rq_protocol := rq_protocol row;
    rq_streamed := rq_streamed row; rq_deal_id := rq_deal_id row; rq_started_at := rq_started_at row;
    rq_finished_at := rq_finished_at row; rq_outcome := "interrupted"; rq_http_status := rq_http_status row;
    rq_finish_reason := rq_finish_reason row; rq_failure_stage := Some "process_interrupted"%string;
    rq_history_complete := rq_history_complete row |}
  else row.
Definition recover_interrupted_requests (db : UsageDb) : UsageDb * Z :=
  (set_db_requests (interrupt_row <$> db_requests db) db,
   Z.of_nat (length (filter (λ kv, interrupted_row kv.2 = true) (map_to_list (db_requests db))))).
End Requests.

(** ** Reading the consumption of a deal (usage.rs, usage_consumption.rs) *)

(** The charged tokens of the joined rows a condition selects, in the order the rows come. *)
Definition joined_charges (select : RequestRow → call_key → UsageRow → bool) (db : UsageDb) : list Z :=
  flat_map (λ kv : string * RequestRow,
    omap (λ call : call_key * UsageRow,
      if select kv.2 call.1 call.2 then Some (us_charged_tokens call.2) else None) (usage_rows db kv.1))
    (map_to_list (db_requests db)).

(** [accepted_tokens]: the accepted work of finished requests of a deal. *)
Definition accepted_tokens (deal_id : string) (db : UsageDb) : Result text Z :=
  checked_sum u128 f["accepted consumption overflow"] 0
    (joined_charges (λ row _ usage,
       bool_decide (rq_deal_id row = Some deal_id) && us_accepted usage && bool_decide (is_Some (rq_finished_at row))) db).

Definition consumed_cost_in (db : UsageDb) (deal : string) (price : Z) : Result text Z :=
  let? tokens := checked_sum u128 f["accepted consumption overflow"] 0
    (joined_charges (λ row key usage,
       bool_decide (rq_deal_id row = Some deal) && us_accepted usage && negb (String.eqb key.2 IN_PROGRESS)) db) in
  consumption_cost price tokens.

(** ** The price of an execution, and the cost of each call (usage_consumption.rs) *)

Definition record_deal_price_in (deal : string) (price : Z) (db : UsageDb) : Result text UsageDb :=
  if negb (price >? 0) then Err f["empty execution price"] else
  match db_deal_prices db !! deal with
  | Some previous =>
      if negb (previous =? price) then Err f["execution price changed for "; deal] else Ok db
  | None => Ok (set_db_deal_prices (<[deal := price]> (db_deal_prices db)) db)
  end.
Definition has_deal_price_in (deal : option string) (db : UsageDb) : bool :=
  match deal with Some deal => bool_decide (is_Some (db_deal_prices db !! deal)) | None => false end.

(** A row of the join of [consumption_in]. *)
Record CallCost : Type := {
  cc_deal : string; cc_model : string; cc_accepted_at : option Z; cc_charged : Z; cc_price : Z;
  cc_order : Z * (string * call_key);
}.
(** [ORDER BY accepted_at, request_id, phase, call_id]. *)
Definition cost_before (a b : CallCost) : Prop :=
  let '(at1, (r1, (p1, c1))) := cc_order a in
  let '(at2, (r2, (p2, c2))) := cc_order b in
  at1 < at2 ∨ at1 = at2 ∧ (r1 ≠ r2 ∧ str_le r1 r2 ∨ r1 = r2 ∧ (p1 ≠ p2 ∧ str_le p1 p2 ∨ p1 = p2 ∧ str_le c1 c2)).
#[export] Instance cost_before_dec : RelDecision cost_before.
Proof. intros a b. unfold cost_before. destruct (cc_order a) as [? [? [? ?]]], (cc_order b) as [? [? [? ?]]]. apply _. Defined.

Definition call_costs (db : UsageDb) : list CallCost :=
  merge_sort cost_before
    (flat_map (λ kv : string * RequestRow,
      omap (λ call : call_key * UsageRow,
        let* deal := rq_deal_id kv.2 in
        let* price := db_deal_prices db !! deal in
        if us_accepted call.2 && negb (String.eqb call.1.2 IN_PROGRESS) then Some {|
          cc_deal := deal; cc_model := rq_model kv.2; cc_accepted_at := us_accepted_at call.2;
          cc_charged := us_charged_tokens call.2; cc_price := price;
          cc_order := (unwrap_or 0 (us_accepted_at call.2), (kv.1, call.1)) |}
        else None) (usage_rows db kv.1))
      (map_to_list (db_requests db))).

(** The loop, with the total of each deal so far.  It gives the calls with the cost each is
    reported with; the callback of the code receives the acceptance time, the model and
    that cost. *)
Fixpoint consumption_loop (rows : list CallCost) (totals : gmap string Z) : Result text (list (CallCost * Z)) :=
  match rows with
  | [] => Ok []
  | row :: rows =>
      let previous := unwrap_or 0 (totals !! cc_deal row) in
      let? next := ok_or (checked_add u128 previous (cc_charged row)) f["accepted consumption overflow"] in
      let? upto := consumption_cost (cc_price row) next in
      let? before := consumption_cost (cc_price row) previous in
      let? delta := ok_or (checked_sub upto before) f["consumption decreased"] in
      let? _at := ok_or (cc_accepted_at row) f["Invalid column type Null at index: 2, name: accepted_at"] in
      let? rest := consumption_loop rows (<[cc_deal row := next]> totals) in
      Ok ((row, delta) :: rest)
  end.
Definition consumption_in (db : UsageDb) : Result text (list (CallCost * Z)) :=
  consumption_loop (call_costs db) ∅.
