(* ===== verification/UsageTotals.v ===== *)
(** * The admission counters are exact

    The counters of a model and of a deal are updated from what one request counted before
    and counts after an operation.  [totals_ok] says that they are the sums over the
    requests; every operation on requests preserves it. *)
From S2P Require Import Prelude RustText Params UsageData UsageRequests.

(** ** The five counters of a model *)

Inductive Counter : Type := CInput | COutput | CCacheRead | CCacheWrite | CIncomplete.
Definition counter (k : Counter) (t : ModelTotals) : Z :=
  match k with
  | CInput => mt_input t | COutput => mt_output t | CCacheRead => mt_cache_read t
  | CCacheWrite => mt_cache_write t | CIncomplete => mt_incomplete t
  end.

(** What a request counts now. *)
Definition no_request : RequestTotals :=
  {| rt_model := ""; rt_deal := None; rt_model_totals := no_totals; rt_charged := 0 |}.
Definition counts (db : UsageDb) (request : string) : RequestTotals :=
  match request_totals_in db request with Ok t => t | Err _ => no_request end.

Definition model_share (db : UsageDb) (k : Counter) (model : string) (request : string) (row : RequestRow) : Z :=
  if String.eqb (rq_model row) model then counter k (rt_model_totals (counts db request)) else 0.
Definition deal_share (db : UsageDb) (deal : string) (request : string) (row : RequestRow) : Z :=
  if bool_decide (rq_deal_id row = Some deal) then rt_charged (counts db request) else 0.

Record totals_ok (db : UsageDb) : Prop := {
  to_foreign_key : ∀ request, db_requests db !! request = None → calls_of db request = ∅;
  to_counted : ∀ request, is_Some (db_requests db !! request) → is_Some (result_ok (request_totals_in db request));
  to_model : ∀ k model, counter k (read_model db model) = map_sum (model_share db k model) (db_requests db);
  to_deal : ∀ deal, read_deal db deal = map_sum (deal_share db deal) (db_requests db);
}.

(** ** Counting one request *)

Lemma request_totals_fields db request t :
  request_totals_in db request = Ok t →
  ∃ row, db_requests db !! request = Some row ∧ rt_model t = rq_model row ∧ rt_deal t = rq_deal_id row.
Proof.
  unfold request_totals_in. intros (row & Hrow%ok_or_Ok & H)%bind_Ok.
  apply bind_Ok in H as ([totals charged] & _ & [= <-]). by exists row.
Qed.

(** The counts depend on the row and on the calls of the request alone. *)
Lemma request_totals_local db db' request :
  db_requests db' !! request = db_requests db !! request → calls_of db' request = calls_of db request →
  request_totals_in db' request = request_totals_in db request.
Proof. intros H1 H2. unfold request_totals_in, usage_rows. by rewrite H1, H2. Qed.

Lemma counts_Ok db request t : request_totals_in db request = Ok t → counts db request = t.
Proof. unfold counts. by intros ->. Qed.

(** ** One update of the counters *)

Lemma replace_counter_Ok total old new r : replace_counter total old new = Ok r → r = total - old + new.
Proof. unfold replace_counter, counter_add. intros H. ok_inv. lia. Qed.

Lemma read_model_insert db model t model' :
  read_model (set_db_admission_models (<[model := t]> (db_admission_models db)) db) model'
  = if String.eqb model model' then t else read_model db model'.
Proof.
  unfold read_model. cbn. destruct (String.eqb_spec model model') as [->|Hne].
  - by rewrite lookup_insert_eq.
  - by rewrite lookup_insert_ne.
Qed.

Lemma read_deal_insert db deal n deal' :
  read_deal (set_db_admission_deals (<[deal := n]> (db_admission_deals db)) db) deal'
  = if String.eqb deal deal' then n else read_deal db deal'.
Proof.
  unfold read_deal. cbn. destruct (String.eqb_spec deal deal') as [->|Hne].
  - by rewrite lookup_insert_eq.
  - by rewrite lookup_insert_ne.
Qed.

(** The totals a request had before, and the share its row had in the counters of a deal. *)
Definition old_totals (before : option RequestTotals) : ModelTotals :=
  unwrap_or no_totals (option_map rt_model_totals before).
Definition old_charge (before : option RequestTotals) (deal : string) : Z :=
  match before with
  | Some value => if bool_decide (rt_deal value = Some deal) then rt_charged value else 0
  | None => 0
  end.

(** A successful update replaces what the request counted, and touches nothing else.  The
    request may bind to a deal, but not move to another one. *)
Lemma update_totals_Ok db request before db' :
  update_totals_in db request before = Ok db' →
  (∀ value, before = Some value → rt_model value = rt_model (counts db request) ∧
     (rt_deal value = rt_deal (counts db request) ∨ rt_deal value = None)) →
  let after := counts db request in
  request_totals_in db request = Ok after ∧
  db_requests db' = db_requests db ∧ db_request_usage db' = db_request_usage db ∧
  (∀ k model, counter k (read_model db' model) = counter k (read_model db model)
     + if String.eqb (rt_model after) model then counter k (rt_model_totals after) - counter k (old_totals before) else 0) ∧
  (∀ deal, read_deal db' deal = read_deal db deal
     + if bool_decide (rt_deal after = Some deal) then rt_charged after - old_charge before deal else 0).
Proof.
  unfold update_totals_in. intros (after & Hafter & Hup)%bind_Ok Hbefore.
  rewrite (counts_Ok _ _ _ Hafter) in *. cbv zeta. split; [done|].
  destruct (bool_decide_reflect (before = Some after)) as [->|Hne].
  - injection Hup as <-. split; [done|]. split; [done|]. split.
    + intros k model. cbn [old_totals option_map unwrap_or]. destruct (String.eqb _ _); lia.
    + intros deal. unfold old_charge. destruct (bool_decide _) eqn:Hd; lia.
  - clear Hne. apply bind_Ok in Hup as (i1 & H1%replace_counter_Ok & Hup).
    apply bind_Ok in Hup as (i2 & H2%replace_counter_Ok & Hup).
    apply bind_Ok in Hup as (i3 & H3%replace_counter_Ok & Hup).
    apply bind_Ok in Hup as (i4 & H4%replace_counter_Ok & Hup).
    apply bind_Ok in Hup as (i5 & H5%replace_counter_Ok & Hup).
    set (db1 := set_db_admission_models _ db) in Hup.
    assert (∀ k model, counter k (read_model db1 model) = counter k (read_model db model)
      + if String.eqb (rt_model after) model then counter k (rt_model_totals after) - counter k (old_totals before) else 0)
      as Hmodel.
    { intros k model. unfold db1. rewrite read_model_insert.
      destruct (String.eqb_spec (rt_model after) model) as [<-|]; [|lia].
      unfold old_totals. destruct k; cbn [counter mt_input mt_output mt_cache_read mt_cache_write mt_incomplete]; lia. }
    destruct (rt_deal after) as [d|] eqn:Hd.
    + apply bind_Ok in Hup as (rest & [-> Hle]%ok_or_Ok%checked_sub_Some & Hup).
      unfold counter_add in Hup. apply bind_Ok in Hup as (total & [-> _]%ok_or_Ok%checked_add_Some & [= <-]).
      split; [done|]. split; [done|]. split; [exact Hmodel|]. intros deal.
      etrans; [apply (read_deal_insert db1)|].
      change (read_deal db1) with (read_deal db).
      destruct (String.eqb_spec d deal) as [<-|Hne]; [|rewrite bool_decide_eq_false_2 by congruence; lia].
      rewrite (bool_decide_eq_true_2 (Some d = Some d)) by done. unfold old_charge.
      destruct before as [value|]; lia.
    + injection Hup as <-. split; [done|]. split; [done|]. split; [exact Hmodel|]. intros deal.
      rewrite bool_decide_eq_false_2 by done. change (read_deal db1) with (read_deal db). lia.
Qed.

(** ** One operation on one request *)

(** The tables around an operation that rewrote one request, before its counters. *)
Record rewrites (db db1 : UsageDb) (request : string) (row1 : RequestRow) : Prop := {
  rw_requests : db_requests db1 = <[request := row1]> (db_requests db);
  rw_calls : ∀ other, other ≠ request → calls_of db1 other = calls_of db other;
  rw_models : db_admission_models db1 = db_admission_models db;
  rw_deals : db_admission_deals db1 = db_admission_deals db;
}.

Lemma rewrites_counts db db1 request row1 other :
  rewrites db db1 request row1 → other ≠ request → request_totals_in db1 other = request_totals_in db other.
Proof.
  intros [Hr Hc _ _] Hne. apply request_totals_local; [|by apply Hc]. rewrite Hr. by apply lookup_insert_ne.
Qed.

(** What the request was before the operation. *)
Definition known_before (db : UsageDb) (request : string) (row1 : RequestRow) (before : option RequestTotals) : Prop :=
  match db_requests db !! request with
  | Some row => rq_model row1 = rq_model row ∧ (rq_deal_id row1 = rq_deal_id row ∨ rq_deal_id row = None) ∧
      before = Some (counts db request)
  | None => before = None
  end.

Lemma counts_fields db request row : totals_ok db → db_requests db !! request = Some row →
  rt_model (counts db request) = rq_model row ∧ rt_deal (counts db request) = rq_deal_id row.
Proof.
  intros Hok Hrow. destruct (to_counted _ Hok request) as [t Ht]; [by eexists|]. unfold counts.
  destruct (request_totals_in db request) as [t'|] eqn:Ht'; [|done].
  destruct (request_totals_fields _ _ _ Ht') as (row' & Hrow' & -> & ->). naive_solver congruence.
Qed.

(** The tables after the operation and its update of the counters. *)
Record counted_after (db db' : UsageDb) (request : string) (row1 : RequestRow) (before : option RequestTotals)
    (after : RequestTotals) : Prop := {
  ca_requests : db_requests db' = <[request := row1]> (db_requests db);
  ca_calls : ∀ other, other ≠ request → calls_of db' other = calls_of db other;
  ca_other : ∀ other, other ≠ request → request_totals_in db' other = request_totals_in db other;
  ca_self : request_totals_in db' request = Ok after;
  ca_fields : rt_model after = rq_model row1 ∧ rt_deal after = rq_deal_id row1;
  ca_model : ∀ k model, counter k (read_model db' model) = counter k (read_model db model)
     + if String.eqb (rq_model row1) model then counter k (rt_model_totals after) - counter k (old_totals before) else 0;
  ca_deal : ∀ deal, read_deal db' deal = read_deal db deal
     + if bool_decide (rq_deal_id row1 = Some deal) then rt_charged after - old_charge before deal else 0;
}.

Lemma update_counts db db1 db' request row1 before :
  totals_ok db → rewrites db db1 request row1 → known_before db request row1 before →
  update_totals_in db1 request before = Ok db' → counted_after db db' request row1 before (counts db1 request).
Proof.
  intros Hok Hrw Hold Hup. pose proof (update_totals_Ok db1 request before db' Hup) as Hspec.
  assert (rt_model (counts db1 request) = rq_model row1 ∧ rt_deal (counts db1 request) = rq_deal_id row1) as [Ham Had].
  { unfold update_totals_in in Hup. apply bind_Ok in Hup as (after & Hcount & _). rewrite (counts_Ok _ _ _ Hcount).
    apply request_totals_fields in Hcount as (row & Hrow & -> & ->).
    rewrite (rw_requests _ _ _ _ Hrw), lookup_insert_eq in Hrow. by injection Hrow as ->. }
  destruct Hspec as (Hcount & Hreq & Hcalls & Hkm & Hkd).
  { intros value ->. unfold known_before in Hold. destruct (db_requests db !! request) as [row|] eqn:Hrow; [|done].
    destruct Hold as (E1 & E2 & [= ->]). destruct (counts_fields db request row Hok Hrow) as [-> ->].
    rewrite Ham, Had. split; [congruence|naive_solver congruence]. }
  assert (∀ other, request_totals_in db' other = request_totals_in db1 other) as Hsame
    by (intros; apply request_totals_local; unfold calls_of; by rewrite ?Hreq, ?Hcalls).
  assert (∀ model, read_model db1 model = read_model db model) as Hm1
    by (intros; unfold read_model; by rewrite (rw_models _ _ _ _ Hrw)).
  assert (∀ deal, read_deal db1 deal = read_deal db deal) as Hd1
    by (intros; unfold read_deal; by rewrite (rw_deals _ _ _ _ Hrw)).
  constructor; [by rewrite Hreq, (rw_requests _ _ _ _ Hrw)| | |by rewrite Hsame|done| |].
  - intros other Hne. unfold calls_of. rewrite Hcalls. by apply (rw_calls _ _ _ _ Hrw).
  - intros other Hne. rewrite Hsame. by apply rewrites_counts with request row1.
  - intros k model. by rewrite Hkm, Hm1, Ham.
  - intros deal. by rewrite Hkd, Hd1, Had.
Qed.

Lemma model_after db db' request row1 before after k model :
  totals_ok db → counted_after db db' request row1 before after → known_before db request row1 before →
  counter k (read_model db' model) = map_sum (model_share db' k model) (db_requests db').
Proof.
  intros Hok [Hreq _ Hother Hself _ Hkm _] Hold. rewrite Hkm, (to_model _ Hok), Hreq.
  assert (∀ row, model_share db' k model request row = if String.eqb (rq_model row) model then counter k (rt_model_totals after) else 0)
    as Hsh by (intros; unfold model_share; by rewrite (counts_Ok _ _ _ Hself)).
  assert (∀ other row, other ≠ request → model_share db k model other row = model_share db' k model other row) as Hsame
    by (intros other row Hne; unfold model_share, counts; by rewrite Hother).
  unfold known_before in Hold. destruct (db_requests db !! request) as [row|] eqn:Hrow.
  - destruct Hold as (E1 & _ & ->). rewrite (map_sum_change (model_share db k model) _ _ _ row) by auto.
    rewrite Hsh. unfold model_share, old_totals. cbn [option_map unwrap_or]. rewrite E1. destruct (String.eqb _ _); lia.
  - subst before. rewrite (map_sum_new (model_share db k model)) by (done || intros; apply Hsame; congruence).
    rewrite Hsh. unfold old_totals. cbn [option_map unwrap_or]. destruct (String.eqb _ _), k; cbn; lia.
Qed.

Lemma deal_after db db' request row1 before after deal :
  totals_ok db → counted_after db db' request row1 before after → known_before db request row1 before →
  read_deal db' deal = map_sum (deal_share db' deal) (db_requests db').
Proof.
  intros Hok [Hreq _ Hother Hself _ _ Hkd] Hold. rewrite Hkd, (to_deal _ Hok), Hreq.
  assert (∀ row, deal_share db' deal request row = if bool_decide (rq_deal_id row = Some deal) then rt_charged after else 0)
    as Hsh by (intros; unfold deal_share; by rewrite (counts_Ok _ _ _ Hself)).
  assert (∀ other row, other ≠ request → deal_share db deal other row = deal_share db' deal other row) as Hsame
    by (intros other row Hne; unfold deal_share, counts; by rewrite Hother).
  unfold known_before in Hold. destruct (db_requests db !! request) as [row|] eqn:Hrow.
  - destruct Hold as (_ & E2 & ->). rewrite (map_sum_change (deal_share db deal) _ _ _ row) by auto.
    rewrite Hsh. unfold deal_share, old_charge. destruct (counts_fields db request row Hok Hrow) as [_ ->].
    destruct E2 as [->| ->]; [destruct (bool_decide _); lia|].
    rewrite (bool_decide_eq_false_2 (None = Some deal)) by done. destruct (bool_decide _); lia.
  - subst before. rewrite (map_sum_new (deal_share db deal)) by (done || intros; apply Hsame; congruence).
    rewrite Hsh. unfold old_charge. destruct (bool_decide _); lia.
Qed.

Lemma totals_ok_step db db1 db' request row1 before :
  totals_ok db → rewrites db db1 request row1 → known_before db request row1 before →
  update_totals_in db1 request before = Ok db' → totals_ok db'.
Proof.
  intros Hok Hrw Hold Hup. pose proof (update_counts _ _ _ _ _ _ Hok Hrw Hold Hup) as Hca.
  constructor.
  - intros other. rewrite (ca_requests _ _ _ _ _ _ Hca). intros [Hn Hne]%lookup_insert_None.
    rewrite (ca_calls _ _ _ _ _ _ Hca) by done. by apply (to_foreign_key _ Hok).
  - intros other Hs. destruct (decide (other = request)) as [->|Hne]; [by rewrite (ca_self _ _ _ _ _ _ Hca)|].
    rewrite (ca_other _ _ _ _ _ _ Hca) by done. apply (to_counted _ Hok).
    by rewrite (ca_requests _ _ _ _ _ _ Hca), lookup_insert_ne in Hs.
  - intros k model. by eapply model_after.
  - intros deal. by eapply deal_after.
Qed.

(** An operation that reads [before] from the request it is about to rewrite. *)
Lemma totals_ok_rewrite db db1 db' request row row1 before :
  totals_ok db → db_requests db !! request = Some row → request_totals_in db request = Ok before →
  rq_model row1 = rq_model row → rq_deal_id row1 = rq_deal_id row ∨ rq_deal_id row = None →
  rewrites db db1 request row1 → update_totals_in db1 request (Some before) = Ok db' → totals_ok db'.
Proof.
  intros Hok Hrow Hb Hm Hd Hrw Hup. eapply (totals_ok_step db db1 db' request row1); try done.
  unfold known_before. rewrite Hrow. by rewrite (counts_Ok _ _ _ Hb).
Qed.

(** ** Every operation on requests keeps the counters exact *)

Lemma calls_of_put db request calls other :
  calls_of (put_calls request calls db) other = if decide (request = other) then calls else calls_of db other.
Proof.
  unfold calls_of, put_calls. cbn. destruct (decide (request = other)) as [->|Hne].
  - by rewrite lookup_insert_eq.
  - by rewrite lookup_insert_ne.
Qed.

Lemma put_request_rewrites db request row1 : rewrites db (put_request request row1 db) request row1.
Proof. by constructor. Qed.

Lemma put_calls_rewrites db request row calls : db_requests db !! request = Some row →
  rewrites db (put_calls request calls db) request row.
Proof.
  intros Hrow. constructor; [cbn; by rewrite insert_id| |done..].
  intros other Hne. rewrite calls_of_put. by rewrite decide_False by congruence.
Qed.

Lemma totals_ok_empty : totals_ok empty_db.
Proof.
  constructor; try done.
  - intros request [row Hrow]. cbn in Hrow. discriminate Hrow.
  - intros k model. change (db_requests empty_db) with (∅ : gmap string RequestRow). rewrite map_sum_empty. by destruct k.
Qed.

Lemma start_request_totals timestamp runtime request model protocol streamed at_ms db db' :
  totals_ok db → start_request_at timestamp runtime request model protocol streamed at_ms db = Ok db' → totals_ok db'.
Proof.
  intros Hok H. unfold start_request_at in H. ok_inv.
  destruct (db_requests db !! request) as [old|] eqn:Hold; [by ok_inv|].
  eapply totals_ok_step; [exact Hok|apply put_request_rewrites| |eassumption].
  unfold known_before. by rewrite Hold.
Qed.

Lemma link_deal_totals request deal db db' : totals_ok db → link_deal request deal db = Ok db' → totals_ok db'.
Proof.
  intros Hok H. unfold link_deal in H. apply bind_Ok in H as (before & Hb & H).
  apply bind_Ok in H as (row & Hrow%ok_or_Ok & H).
  destruct (rq_deal_id row) as [d|] eqn:Hd; [destruct (negb _) eqn:He; [done|]|];
    (eapply (totals_ok_rewrite db _ db' request row (set_rq_deal_id (Some deal) row)); [done..| | |exact H]).
  1: left; cbn; apply negb_false_iff, String.eqb_eq in He; congruence.
  2: by right.
  all: constructor; [done| |done..]; intros other Hne; rewrite calls_of_put, decide_False by congruence; done.
Qed.

Lemma set_request_streamed_totals request streamed db db' :
  totals_ok db → set_request_streamed request streamed db = Ok db' → totals_ok db'.
Proof.
  intros Hok H. unfold set_request_streamed in H. apply bind_Ok in H as (row & Hrow%ok_or_Ok & [= <-]).
  assert (∀ other, request_totals_in (put_request request (set_rq_streamed streamed row) db) other = request_totals_in db other)
    as Hsame.
  { intros other. unfold request_totals_in. cbn. destruct (decide (request = other)) as [->|Hne].
    - by rewrite lookup_insert_eq, Hrow.
    - by rewrite lookup_insert_ne. }
  destruct Hok as [H1 H2 H3 H4]. constructor.
  - intros other. cbn. intros [Hn _]%lookup_insert_None. by apply H1.
  - intros other. rewrite Hsame. cbn. destruct (decide (request = other)) as [->|Hne].
    + intros _. apply H2. by eexists.
    + rewrite lookup_insert_ne by done. apply H2.
  - intros k model. change (read_model _ model) with (read_model db model). rewrite H3. symmetry. cbn.
    rewrite (map_sum_change (model_share db k model) _ _ _ row) by (done || intros; unfold model_share, counts; by rewrite Hsame).
    unfold model_share, counts. rewrite Hsame. cbn. lia.
  - intros deal. change (read_deal _ deal) with (read_deal db deal). rewrite H4. symmetry. cbn.
    rewrite (map_sum_change (deal_share db deal) _ _ _ row) by (done || intros; unfold deal_share, counts; by rewrite Hsame).
    unfold deal_share, counts. rewrite Hsame. cbn. lia.
Qed.

Lemma record_call_totals request phase call usage accepted now db db' :
  totals_ok db → record_call_usage request phase call usage accepted now db = Ok db' → totals_ok db'.
Proof.
  intros Hok H. unfold record_call_usage in H. ok_inv.
  match goal with Hb : request_totals_in db request = Ok ?b |- _ =>
    destruct (request_totals_fields _ _ _ Hb) as (row & Hrow & _) end.
  eapply (totals_ok_rewrite db _ db' request row row); [done|done|eassumption|done|by left| |eassumption].
  by apply put_calls_rewrites.
Qed.

Lemma mark_history_totals request db db' :
  totals_ok db → mark_request_history_incomplete request db = Ok db' → totals_ok db'.
Proof.
  intros Hok H. unfold mark_request_history_incomplete in H. apply bind_Ok in H as (before & Hb & H).
  apply bind_Ok in H as (row & Hrow%ok_or_Ok & H).
  eapply (totals_ok_rewrite db _ db' request row (set_rq_history_complete false row)); try done; [by left|].
  apply put_request_rewrites.
Qed.

Lemma finish_request_totals timestamp request status reason stage at_ms db db' :
  totals_ok db → finish_request_at timestamp request status reason stage at_ms db = Ok db' → totals_ok db'.
Proof.
  intros Hok H. unfold finish_request_at in H. ok_inv.
  match goal with Hb : request_totals_in db request = Ok _ |- _ => rename Hb into Hbefore end.
  destruct (bool_decide _); [by ok_inv|].
  eapply (totals_ok_rewrite db _ db' request); [done|eassumption|exact Hbefore| | |apply put_request_rewrites|eassumption];
    [done|by left].
Qed.

(** Marking a request as interrupted changes nothing it counts: it was not [rejected]. *)
Lemma recover_interrupted_totals runtime db : totals_ok db → totals_ok (recover_interrupted_requests runtime db).1.
Proof.
  intros [H1 H2 H3 H4]. set (db' := (recover_interrupted_requests runtime db).1).
  assert (∀ row, rq_model (interrupt_row runtime row) = rq_model row ∧ rq_deal_id (interrupt_row runtime row) = rq_deal_id row
    ∧ rq_finished_at (interrupt_row runtime row) = rq_finished_at row
    ∧ rq_history_complete (interrupt_row runtime row) = rq_history_complete row
    ∧ String.eqb (rq_outcome (interrupt_row runtime row)) "rejected" = String.eqb (rq_outcome row) "rejected") as Hrow.
  { intros row. unfold interrupt_row. destruct (interrupted_row runtime row) eqn:Hi; [|done]. cbn. split_and!; try done.
    apply andb_prop in Hi as [->%String.eqb_eq _]. done. }
  assert (∀ other, request_totals_in db' other = request_totals_in db other) as Hsame.
  { intros other. unfold request_totals_in, db'. cbn. rewrite lookup_fmap.
    destruct (db_requests db !! other) as [row|]; [|done]. cbn. destruct (Hrow row) as (-> & -> & -> & -> & ->). done. }
  constructor.
  - intros other. cbn. rewrite lookup_fmap, fmap_None. apply H1.
  - intros other. rewrite Hsame. cbn. rewrite lookup_fmap, fmap_is_Some. apply H2.
  - intros k model. change (read_model db' model) with (read_model db model). rewrite H3. cbn.
    rewrite map_sum_fmap. apply map_sum_ext. intros other row _. unfold model_share, counts. rewrite Hsame.
    by destruct (Hrow row) as (-> & _).
  - intros deal. change (read_deal db' deal) with (read_deal db deal). rewrite H4. cbn.
    rewrite map_sum_fmap. apply map_sum_ext. intros other row _. unfold deal_share, counts. rewrite Hsame.
    by destruct (Hrow row) as (_ & -> & _).
Qed.
