(* ===== verification/UsageConsumption.v ===== *)
(** * What accepted work costs

    The cost of a number of tokens at a price, exact although no product overflows; the
    cost the report computes from the calls is the one the admission snapshot computes
    from the counters; and the shares of the calls of a deal add up to the cost of all. *)
From S2P Require Import Prelude RustText Params UsageData UsageRequests UsageTotals.

#[local] Arguments umax : simpl never.

(** ** The price of tokens *)

Lemma cost_split price tokens : 0 ≤ price → 0 ≤ tokens →
  price * tokens / TICK_SIZE
  = tokens / TICK_SIZE * price + (price / TICK_SIZE * (tokens mod TICK_SIZE)
    + price mod TICK_SIZE * (tokens mod TICK_SIZE) / TICK_SIZE).
Proof.
  intros Hp Ht. pose proof (Z.div_mod tokens TICK_SIZE ltac:(done)) as Et.
  pose proof (Z.div_mod price TICK_SIZE ltac:(done)) as Ep.
  set (q := tokens / TICK_SIZE) in *. set (t := tokens mod TICK_SIZE) in *.
  set (p := price / TICK_SIZE) in *. set (s := price mod TICK_SIZE) in *.
  replace (price * tokens) with (s * t + (q * price + p * t) * TICK_SIZE) by (rewrite Et, Ep; ring).
  rewrite Z.div_add by done. lia.
Qed.

Lemma remainder_product a b : 0 ≤ b ≤ TICK_SIZE → 0 ≤ a mod TICK_SIZE * b ≤ umax u128.
Proof.
  intros Hb. pose proof (Z.mod_pos_bound a TICK_SIZE eq_refl). unfold TICK_SIZE, umax in *. nia.
Qed.

Lemma consumption_cost_spec price tokens : 0 ≤ price → 0 ≤ tokens →
  consumption_cost price tokens
  = if price * tokens / TICK_SIZE <=? umax u128 then Ok (price * tokens / TICK_SIZE)
    else Err f["billable consumption overflow"].
Proof.
  intros Hp Ht. rewrite (cost_split price tokens Hp Ht). unfold consumption_cost.
  set (whole := tokens / TICK_SIZE * price).
  assert (0 ≤ whole) as Hw by (apply Z.mul_nonneg_nonneg; [by apply Z.div_pos|done]).
  assert (0 ≤ tokens mod TICK_SIZE ≤ TICK_SIZE) as Htail by (pose proof (Z.mod_pos_bound tokens TICK_SIZE eq_refl); lia).
  set (major := price / TICK_SIZE * (tokens mod TICK_SIZE)).
  assert (0 ≤ major) as Hmaj by (apply Z.mul_nonneg_nonneg; [by apply Z.div_pos|lia]).
  pose proof (remainder_product price _ Htail) as Hmin.
  rewrite (umul_exact u128) by (pose proof (Z.mod_pos_bound price TICK_SIZE eq_refl); lia).
  set (minor := price mod TICK_SIZE * (tokens mod TICK_SIZE) / TICK_SIZE).
  assert (0 ≤ minor) as Hmn by (apply Z.div_pos; [lia|done]).
  unfold checked_mul. fold whole major. destruct (Z.leb_spec whole (umax u128)); cbn [obind].
  2:{ destruct (Z.leb_spec (whole + (major + minor)) (umax u128)); [lia|done]. }
  destruct (Z.leb_spec major (umax u128)); cbn [obind].
  2:{ destruct (Z.leb_spec (whole + (major + minor)) (umax u128)); [lia|done]. }
  unfold checked_add at 1. destruct (Z.leb_spec (major + minor) (umax u128)); cbn [obind].
  2:{ destruct (Z.leb_spec (whole + (major + minor)) (umax u128)); [lia|done]. }
  unfold checked_add. by destruct (Z.leb_spec (whole + (major + minor)) (umax u128)).
Qed.

Lemma consumption_cost_Ok price tokens c : 0 ≤ price → 0 ≤ tokens →
  consumption_cost price tokens = Ok c ↔ c = price * tokens / TICK_SIZE ∧ c ≤ umax u128.
Proof.
  intros Hp Ht. rewrite consumption_cost_spec by done.
  destruct (Z.leb_spec (price * tokens / TICK_SIZE) (umax u128)); naive_solver lia.
Qed.

Lemma paid_probe_cost_exact amount tokens : in_range u128 amount → 0 ≤ tokens →
  paid_probe_cost amount tokens = amount * Z.min tokens TICK_SIZE / TICK_SIZE ∧
  0 ≤ paid_probe_cost amount tokens ≤ amount.
Proof.
  intros [H0 H1] Ht. unfold paid_probe_cost. set (n := Z.min tokens TICK_SIZE).
  assert (0 ≤ n ≤ TICK_SIZE) as Hn by (unfold n, TICK_SIZE; lia).
  pose proof (Z.div_mod amount TICK_SIZE ltac:(done)) as Ea. pose proof (Z.mod_pos_bound amount TICK_SIZE eq_refl) as Hs.
  set (p := amount / TICK_SIZE) in *. set (s := amount mod TICK_SIZE) in *.
  assert (0 ≤ p) by (by apply Z.div_pos).
  assert (amount * n / TICK_SIZE = p * n + s * n / TICK_SIZE) as E.
  { replace (amount * n) with (s * n + p * n * TICK_SIZE) by (rewrite Ea; ring). rewrite Z.div_add by done. lia. }
  assert (0 ≤ amount * n / TICK_SIZE ≤ amount) as Hb.
  { split; [by apply Z.div_pos; [nia|]|]. apply Z.div_le_upper_bound; [done|]. unfold TICK_SIZE in *. nia. }
  assert (0 ≤ s * n / TICK_SIZE) by (by apply Z.div_pos; [nia|]). assert (0 ≤ p * n) by nia.
  rewrite (umul_exact u128 p n) by lia. rewrite (umul_exact u128 s n) by (unfold TICK_SIZE, umax in *; nia).
  rewrite uadd_exact by lia. lia.
Qed.

(** ** The calls of a deal *)

(** A call whose work was accepted and charged. *)
Definition counted_call (key : call_key) (row : UsageRow) : bool :=
  us_accepted row && negb (String.eqb key.2 IN_PROGRESS).
Definition call_charge (call : call_key * UsageRow) : Z :=
  if counted_call call.1 call.2 then us_charged_tokens call.2 else 0.

Lemma count_rows_charged acc rows totals charged :
  count_rows acc rows = Ok (totals, charged) → charged = acc.2 + zsum call_charge rows.
Proof.
  revert acc. induction rows as [|[key row] rows IH]; intros [t c] H; cbn [count_rows] in H.
  { injection H as -> ->. cbn. unfold zsum. cbn. lia. }
  apply bind_Ok in H as (acc' & Hrow & H). apply IH in H as ->. rewrite zsum_cons. unfold call_charge at 2, counted_call.
  unfold count_row in Hrow. cbn [fst snd]. rewrite <- negb_involutive with (us_accepted row && _).
  rewrite negb_andb, negb_involutive. destruct (negb (us_accepted row) || _); [injection Hrow as <-; cbn; lia|].
  unfold counter_add in Hrow. ok_inv. simplify_eq. cbn. lia.
Qed.

Lemma request_charged db request t : request_totals_in db request = Ok t →
  rt_charged t = zsum call_charge (usage_rows db request).
Proof.
  unfold request_totals_in. intros (row & _ & H)%bind_Ok. apply bind_Ok in H as ([totals charged] & H & [= <-]).
  by apply count_rows_charged in H as ->.
Qed.

Definition charges_nonneg (db : UsageDb) : Prop :=
  ∀ request key row, calls_of db request !! key = Some row → 0 ≤ us_charged_tokens row.

Lemma joined_charges_nonneg select db : charges_nonneg db → Forall (λ n, 0 ≤ n) (joined_charges select db).
Proof.
  intros Hnn. apply Forall_forall. intros n (kv & _ & Hn)%list_elem_of_In%in_flat_map.
  apply list_elem_of_In, list_elem_of_omap in Hn as ([key row] & Hin & Hs). cbn in Hs.
  destruct (select _ _ _); [|done]. injection Hs as <-. apply elem_of_map_to_list in Hin. by eapply Hnn.
Qed.

(** The joined rows of a deal add up to its counter. *)
Lemma joined_deal_charges db deal : totals_ok db →
  zsum id (joined_charges (λ row key usage,
    bool_decide (rq_deal_id row = Some deal) && us_accepted usage && negb (String.eqb key.2 IN_PROGRESS)) db)
  = read_deal db deal.
Proof.
  intros Hok. rewrite (to_deal _ Hok). unfold joined_charges. rewrite zsum_flat_map. unfold map_sum.
  apply zsum_ext. intros [request row] Hin%elem_of_map_to_list. cbn [fst snd]. rewrite zsum_omap. unfold deal_share.
  destruct (to_counted _ Hok request) as [t Ht]; [by eexists|]. destruct (request_totals_in db request) as [t'|] eqn:Et; [|done].
  rewrite (counts_Ok _ _ _ Et), (request_charged _ _ _ Et). destruct (bool_decide (rq_deal_id row = Some deal)).
  - apply zsum_ext. intros [key usage] _. unfold call_charge, counted_call. cbn.
    by destruct (us_accepted usage && negb (key.2 =? IN_PROGRESS)%string).
  - induction (usage_rows db request) as [|a l IH]; [done|]. rewrite zsum_cons, IH. done.
Qed.

Lemma consumed_cost_counter db deal price :
  totals_ok db → charges_nonneg db → read_deal db deal ≤ umax u128 →
  consumed_cost_in db deal price = consumption_cost price (read_deal db deal).
Proof.
  intros Hok Hnn Hmax. unfold consumed_cost_in.
  rewrite (proj2 (checked_sum_Ok u128 _ _ (read_deal db deal) (joined_charges_nonneg _ _ Hnn))); [done|].
  rewrite joined_deal_charges by done. done.
Qed.

(** * The cost of each call adds up to the cost of the deal

    [consumption_in] walks the accepted calls in the order of their acceptance and gives each
    the growth of the deal's exact price, so rounding never loses or invents a unit: the
    shares of a deal's calls telescope to the cost of all its tokens. *)

#[local] Arguments umax : simpl never.

(** Charged tokens, and the reported shares, of one deal. *)
Definition tokens_of (deal : string) (row : CallCost) : Z :=
  if String.eqb (cc_deal row) deal then cc_charged row else 0.
Definition share_of (deal : string) (item : CallCost * Z) : Z :=
  if String.eqb (cc_deal item.1) deal then item.2 else 0.

Definition exact_cost (price tokens : Z) : Z := price * tokens / TICK_SIZE.
Definition total_of (totals : gmap string Z) (deal : string) : Z := unwrap_or 0 (totals !! deal).

Lemma exact_cost_mono price t1 t2 : 0 ≤ price → t1 ≤ t2 → exact_cost price t1 ≤ exact_cost price t2.
Proof. intros Hp Ht. apply Z.div_le_mono; [done|]. by apply Z.mul_le_mono_nonneg_l. Qed.

Definition row_ok (row : CallCost) : Prop := 0 ≤ cc_charged row ∧ 0 ≤ cc_price row.

Lemma total_insert totals d n deal :
  total_of (<[d := n]> totals) deal = if String.eqb d deal then n else total_of totals deal.
Proof.
  unfold total_of. destruct (String.eqb_spec d deal) as [->|]; [by rewrite lookup_insert_eq|by rewrite lookup_insert_ne].
Qed.

Lemma total_insert_nonneg totals d n :
  (∀ deal, 0 ≤ total_of totals deal) → 0 ≤ n → ∀ deal, 0 ≤ total_of (<[d := n]> totals) deal.
Proof. intros Ht Hn deal. rewrite total_insert. by destruct (String.eqb d deal). Qed.

(** What one round of the loop does. *)
Lemma consumption_loop_cons row rows totals out :
  row_ok row → 0 ≤ total_of totals (cc_deal row) →
  consumption_loop (row :: rows) totals = Ok out →
  let previous := total_of totals (cc_deal row) in
  let next := previous + cc_charged row in
  next ≤ umax u128 ∧ exact_cost (cc_price row) next ≤ umax u128 ∧ is_Some (cc_accepted_at row) ∧
  ∃ rest, out = (row, exact_cost (cc_price row) next - exact_cost (cc_price row) previous) :: rest ∧
    consumption_loop rows (<[cc_deal row := next]> totals) = Ok rest.
Proof.
  intros [Hc Hp] Ht H. cbn [consumption_loop] in H. fold (total_of totals (cc_deal row)) in H.
  apply bind_Ok in H as (next & Hn%ok_or_Ok & H). unfold checked_add in Hn.
  destruct (Z.leb_spec (total_of totals (cc_deal row) + cc_charged row) (umax u128)); [|done]. injection Hn as <-.
  apply bind_Ok in H as (upto & Hu & H). apply consumption_cost_Ok in Hu as [-> Hu]; [|done|lia].
  apply bind_Ok in H as (before & Hb & H). apply consumption_cost_Ok in Hb as [-> _]; [|done|lia].
  apply bind_Ok in H as (delta & Hd%ok_or_Ok & H). unfold checked_sub in Hd. destruct (_ <=? _); [|done]. injection Hd as <-.
  apply bind_Ok in H as (at_ & Ha%ok_or_Ok & H). apply bind_Ok in H as (rest & H & [= <-]).
  split; [lia|]. split; [exact Hu|]. split; [by eexists|]. by exists rest.
Qed.

Lemma consumption_loop_rows rows totals out :
  Forall row_ok rows → (∀ deal, 0 ≤ total_of totals deal) → consumption_loop rows totals = Ok out →
  map fst out = rows ∧ Forall (λ item, 0 ≤ item.2) out.
Proof.
  intros Hrows. revert totals out. induction Hrows as [|row rows Hr _ IH]; intros totals out Ht H.
  { injection H as <-. by split. }
  pose proof Hr as [Hc Hp]. pose proof (Ht (cc_deal row)) as Hd.
  destruct (consumption_loop_cons _ _ _ _ Hr Hd H) as (_ & _ & _ & rest & -> & H').
  destruct (IH _ rest (total_insert_nonneg totals (cc_deal row) (total_of totals (cc_deal row) + cc_charged row) Ht ltac:(lia)) H') as [Hfst Hn].
  split; [cbn; by rewrite Hfst|]. constructor; [|done]. cbn.
  pose proof (exact_cost_mono (cc_price row) (total_of totals (cc_deal row)) (total_of totals (cc_deal row) + cc_charged row) Hp ltac:(lia)) as Hm. lia.
Qed.

(** The shares of a deal telescope. *)
Lemma consumption_loop_telescopes deal price rows totals out :
  Forall row_ok rows → (∀ deal, 0 ≤ total_of totals deal) →
  (∀ row, row ∈ rows → cc_deal row = deal → cc_price row = price) → consumption_loop rows totals = Ok out →
  let t := total_of totals deal in
  let t' := t + zsum (tokens_of deal) rows in
  zsum (share_of deal) out = exact_cost price t' - exact_cost price t ∧
  (t ≤ umax u128 → exact_cost price t ≤ umax u128 → t' ≤ umax u128 ∧ exact_cost price t' ≤ umax u128).
Proof.
  intros Hrows. revert totals out. induction Hrows as [|row rows Hr _ IH]; intros totals out Ht Hprice H t t'.
  { injection H as <-. subst t t'. change (zsum (tokens_of deal) []) with 0. rewrite Z.add_0_r.
    split; [|done]. change (zsum (share_of deal) []) with 0. lia. }
  pose proof Hr as [Hc Hp]. pose proof (Ht (cc_deal row)) as Hd.
  destruct (consumption_loop_cons _ _ _ _ Hr Hd H) as (Hmax & Hcost & _ & rest & -> & H').
  destruct (IH _ rest (total_insert_nonneg totals (cc_deal row) (total_of totals (cc_deal row) + cc_charged row) Ht ltac:(lia)) (λ r Hin, Hprice r (list_elem_of_further _ _ _ Hin)) H')
    as [IH1 IH2].
  rewrite total_insert in IH1, IH2. unfold t', t. rewrite !zsum_cons. unfold share_of at 1, tokens_of at 1 3 5. cbn [fst snd].
  destruct (String.eqb_spec (cc_deal row) deal) as [Heq|Hne].
  - pose proof (Hprice row (list_elem_of_here _ _) Heq) as Epr. rewrite Heq, Epr in *. rewrite <- Z.add_assoc in IH1, IH2.
    split; [lia|]. intros _ _. by apply IH2.
  - rewrite !Z.add_0_l. by split.
Qed.

(** ** The rows of the report *)

Definition prices_nonneg (db : UsageDb) : Prop := ∀ deal price, db_deal_prices db !! deal = Some price → 0 ≤ price.

Lemma elem_of_call_costs db row : row ∈ call_costs db → ∃ request rq key us,
  db_requests db !! request = Some rq ∧ calls_of db request !! key = Some us ∧ rq_deal_id rq = Some (cc_deal row) ∧
  db_deal_prices db !! cc_deal row = Some (cc_price row) ∧ cc_charged row = us_charged_tokens us ∧ counted_call key us = true.
Proof.
  unfold call_costs. rewrite merge_sort_Permutation. intros ([request rq] & Hin & Ho)%list_elem_of_In%in_flat_map.
  apply list_elem_of_In, list_elem_of_omap in Ho as ([key us] & Hk & Ho). cbn [fst snd] in *.
  apply list_elem_of_In, elem_of_map_to_list in Hin. apply elem_of_map_to_list in Hk.
  destruct (rq_deal_id rq) as [deal|] eqn:Hd; [cbn in Ho|done].
  destruct (db_deal_prices db !! deal) as [price|] eqn:Hpr; [cbn in Ho|done].
  destruct (us_accepted us && _) eqn:Hacc; [|done]. injection Ho as <-. exists request, rq, key, us. by repeat split.
Qed.

Lemma call_costs_ok db : charges_nonneg db → prices_nonneg db → Forall row_ok (call_costs db).
Proof.
  intros Hc Hp. apply Forall_forall. intros row (request & rq & key & us & _ & Hu & _ & Hpr & Hch & _)%elem_of_call_costs.
  split; [rewrite Hch; by eapply Hc|by eapply Hp].
Qed.

Lemma call_costs_tokens db deal price : db_deal_prices db !! deal = Some price →
  zsum (tokens_of deal) (call_costs db)
  = zsum id (joined_charges (λ row key usage,
      bool_decide (rq_deal_id row = Some deal) && us_accepted usage && negb (String.eqb key.2 IN_PROGRESS)) db).
Proof.
  intros Hpr. unfold call_costs, joined_charges. rewrite (zsum_Permutation _ _ _ (merge_sort_Permutation _ _)), !zsum_flat_map.
  apply zsum_ext. intros [request rq] _. rewrite !zsum_omap. apply zsum_ext. intros [key us] _. cbn [fst snd].
  destruct (rq_deal_id rq) as [d|] eqn:Hd; [|by rewrite bool_decide_eq_false_2].
  cbn [obind]. destruct (decide (d = deal)) as [->|Hne].
  - rewrite bool_decide_eq_true_2 by done. rewrite Hpr. cbn [andb obind]. destruct (us_accepted us && _); [|done].
    unfold tokens_of. cbn. by rewrite String.eqb_refl.
  - rewrite bool_decide_eq_false_2 by congruence. cbn [andb]. destruct (db_deal_prices db !! d); [|done]. cbn [obind].
    destruct (us_accepted us && _); [|done]. unfold tokens_of. cbn. by destruct (String.eqb_spec d deal).
Qed.

(** The report walks every accepted call once, gives none a negative cost, and the costs of
    the calls of a deal add up to the unit to what all its tokens cost at its price. *)
Lemma consumption_telescopes db out :
  charges_nonneg db → prices_nonneg db → consumption_in db = Ok out →
  map fst out = call_costs db ∧ Forall (λ item, 0 ≤ item.2) out ∧
  ∀ deal price, db_deal_prices db !! deal = Some price →
    consumed_cost_in db deal price = Ok (zsum (share_of deal) out).
Proof.
  intros Hc Hp H. unfold consumption_in in H. pose proof (call_costs_ok db Hc Hp) as Hok.
  assert (∀ deal, 0 ≤ total_of ∅ deal) as H0 by (intros deal; unfold total_of; by rewrite lookup_empty).
  destruct (consumption_loop_rows _ _ _ Hok H0 H) as [Hrows Hn]. split; [done|]. split; [done|].
  intros deal price Hpr. destruct (consumption_loop_telescopes deal price _ _ out Hok H0) with (2 := H) as [Hsum Hmax].
  { intros row Hin Hd. destruct (elem_of_call_costs _ _ Hin) as (_ & _ & _ & _ & _ & _ & _ & Hr & _). congruence. }
  change (total_of ∅ deal) with 0 in *. rewrite Z.add_0_l, (call_costs_tokens db deal price Hpr) in Hsum, Hmax.
  pose proof (Hp deal price Hpr) as Hprice. pose proof (joined_charges_nonneg (λ row key usage,
    bool_decide (rq_deal_id row = Some deal) && us_accepted usage && negb (String.eqb key.2 IN_PROGRESS)) db Hc) as Hnn.
  assert (exact_cost price 0 = 0) as Ez by (unfold exact_cost; by rewrite Z.mul_0_r).
  destruct Hmax as [Hm1 Hm2]; [unfold umax; lia|rewrite Ez; unfold umax; lia|].
  unfold consumed_cost_in. set (charges := joined_charges _ db) in *.
  rewrite (proj2 (checked_sum_Ok u128 _ charges (zsum id charges) Hnn)) by done. cbn [rbind].
  assert (0 ≤ zsum id charges) as Hz by (apply zsum_nonneg; intros n; by apply (proj1 (Forall_forall _ charges) Hnn)).
  apply consumption_cost_Ok; [done..|]. fold (exact_cost price (zsum id charges)). lia.
Qed.
