(* ===== verification/UsageMoney.v ===== *)
(** * The buyer's usage history: what the deals cost

    crates/dexdo/src/buyer/usage.rs: deals, the financial facts of a deal (accruals while it
    runs, one settlement at its end, operational expenses), their classification, and the
    completeness marks.  An operation runs in one transaction: [Err] leaves the tables as
    they were. *)
From S2P Require Import Prelude RustText Params UsageData UsageRequests.

Record SettlementFact : Type := {
  sf_source_id : string; sf_deal_id : string; sf_occurred_at : Z;
  sf_escrow_raw : Z; sf_buyer_bond_raw : Z; sf_buyer_credit_raw : option Z;
}.
Record OperationalFact : Type := {
  of_source_id : string; of_deal_id : option string; of_model : option string;
  of_occurred_at : Z; of_spent_raw : Z;
}.
Record AccrualFact : Type := { ac_source_id : string; ac_occurred_at : Z; ac_spent_raw : Z }.
Record ExpenseBreakdown : Type := {
  eb_consumption_raw : Z; eb_commission_raw : Z; eb_burns_raw : Z; eb_unused_capacity_raw : Z;
  eb_probe_consumption_tokens : option Z;
}.

Definition ExpenseBreakdown_total (b : ExpenseBreakdown) : Result text Z :=
  ok_or
    (let* sum := checked_add u128 (eb_consumption_raw b) (eb_commission_raw b) in
     let* sum := checked_add u128 sum (eb_burns_raw b) in
     checked_add u128 sum (eb_unused_capacity_raw b))
    f["expense breakdown overflow"].

(** [ensure!(condition, message)]. *)
Definition ensure (condition : bool) (message : text) : Result text () :=
  if condition then Ok () else Err message.

(** An [INSERT] or [UPDATE] of a row of [money_facts]: its trigger bumps the revision. *)
Definition put_fact (source_id : string) (row : FactRow) (db : UsageDb) : UsageDb :=
  set_db_facts_revision (db_facts_revision db + 1)
    (set_db_money_facts (<[source_id := row]> (db_money_facts db)) db).

(** The confirmed amount of a fact; [None] while its settlement has no credits. *)
Definition fact_amount (row : FactRow) : Result text (option Z) :=
  let column (c : option Z) := ok_or c f["Invalid column type Null"] in
  match fa_kind row with
  | KSettlement =>
      match fa_buyer_credit_raw row, fa_spent_raw row with
      | Some _, Some residual => Ok (Some residual)
      | Some credit, None =>
          let? escrow := column (fa_escrow_raw row) in
          let? bond := column (fa_buyer_bond_raw row) in
          let? amount := ok_or (let* sum := checked_add u128 escrow bond in checked_sub sum credit)
            f["invalid or overflowing settlement expense"] in
          Ok (Some amount)
      | None, _ => Ok None
      end
  | _ => let? spent := column (fa_spent_raw row) in Ok (Some spent)
  end.

Section Money.
Context (timestamp : Z → bool).

Definition chain_millis (seconds : Z) : Result text Z :=
  let millis := seconds * 1000 in
  ensure ((- 2 ^ 63 <=? millis) && (millis <? 2 ^ 63)) f["chain timestamp overflow"] ;?
  check_timestamp timestamp millis ;? Ok millis.

(** ** Deals and completeness marks *)

Definition put_deal (deal_id : string) (row : DealRow) (db : UsageDb) : UsageDb :=
  set_db_deals (<[deal_id := row]> (db_deals db)) db.

Definition register_deal (deal_id model : string) (now : Z) (db : UsageDb) : Result text UsageDb :=
  match db_deals db !! deal_id with
  | Some old => if String.eqb (dl_model old) model then Ok db else Err f["usage deal model changed"]
  | None => Ok (put_deal deal_id {|
      dl_model := model; dl_registered_at := now; dl_closed_at := None; dl_status := "pending";
      dl_incomplete_reason := None; dl_operations_complete := false; dl_operations_reason := None |} db)
  end.

Definition with_status (status : string) (closed_at : option Z) (reason : option string) (row : DealRow) : DealRow := {|
  dl_model := dl_model row; dl_registered_at := dl_registered_at row; dl_closed_at := closed_at; dl_status := status;
  dl_incomplete_reason := reason; dl_operations_complete := dl_operations_complete row;
  dl_operations_reason := dl_operations_reason row |}.
Definition with_operations (complete : bool) (reason : option string) (row : DealRow) : DealRow := {|
  dl_model := dl_model row; dl_registered_at := dl_registered_at row; dl_closed_at := dl_closed_at row;
  dl_status := dl_status row; dl_incomplete_reason := dl_incomplete_reason row;
  dl_operations_complete := complete; dl_operations_reason := reason |}.

Definition mark_deal_incomplete (deal_id reason : string) (db : UsageDb) : Result text UsageDb :=
  ensure (negb (String.eqb reason "")) f["missing incomplete-deal reason"] ;?
  let? row := ok_or (db_deals db !! deal_id) f["usage deal not found"] in
  Ok (put_deal deal_id (with_status "incomplete" None (Some reason) row) db).

Definition mark_operations_incomplete (deal_id reason : string) (db : UsageDb) : Result text UsageDb :=
  ensure (negb (String.eqb reason "")) f["missing incomplete-operations reason"] ;?
  let? row := ok_or (db_deals db !! deal_id) f["usage deal not found"] in
  Ok (put_deal deal_id (with_operations false (Some reason) row) db).
Definition mark_operations_complete (deal_id : string) (db : UsageDb) : Result text UsageDb :=
  let? row := ok_or (db_deals db !! deal_id) f["usage deal not found"] in
  Ok (put_deal deal_id (with_operations true None row) db).

Definition put_note (note_id : string) (complete : bool) (reason : option string) (now : Z) (db : UsageDb) : UsageDb :=
  let registered_at := match db_note_operations db !! note_id with
                       | Some row => no_registered_at row
                       | None => now
                       end in
  set_db_note_operations
    (<[note_id := {| no_complete := complete; no_reason := reason; no_registered_at := registered_at |}]>
       (db_note_operations db)) db.
Definition mark_note_operations_incomplete (note_id reason : string) (now : Z) (db : UsageDb) : Result text UsageDb :=
  ensure (negb (String.eqb note_id "") && negb (String.eqb reason ""))
    f["missing note operations evidence identity/reason"] ;?
  Ok (put_note note_id false (Some reason) now db).
Definition mark_note_operations_complete (note_id : string) (now : Z) (db : UsageDb) : Result text UsageDb :=
  ensure (negb (String.eqb note_id "")) f["missing note operations evidence identity"] ;?
  Ok (put_note note_id true None now db).

(** ** Classification *)

Definition classify_expense (source_id : string) (parts : ExpenseBreakdown) (db : UsageDb) : Result text UsageDb :=
  let? row := ok_or
    (let* row := db_money_facts db !! source_id in
     if bool_decide (fa_kind row = KOperational) then None else Some row) f["financial fact not found"] in
  let? amount := fact_amount row in
  match amount with
  | None => Ok db
  | Some amount =>
      let? total := ExpenseBreakdown_total parts in
      ensure (total <=? amount) f["expense breakdown exceeds confirmed expense"] ;?
      (match eb_probe_consumption_tokens parts with
       | Some tokens =>
           ensure (bool_decide (fa_kind row = KAccrual) && (amount >? 0) && (tokens <=? TICK_SIZE)
                   && (eb_consumption_raw parts =? paid_probe_cost amount tokens)
                   && (eb_commission_raw parts =? 0) && (eb_burns_raw parts =? 0)
                   && (eb_unused_capacity_raw parts =? 0)) f["invalid paid probe consumption proof"]
       | None => Ok ()
       end) ;?
      (match fa_probe_consumption_tokens row with
       | Some previous =>
           ensure (match eb_probe_consumption_tokens parts with Some tokens => tokens >=? previous | None => false end)
             f["paid probe consumption proof cannot decrease or disappear"]
       | None => Ok ()
       end) ;?
      if (fa_consumption_raw row =? eb_consumption_raw parts) && (fa_commission_raw row =? eb_commission_raw parts)
         && (fa_burns_raw row =? eb_burns_raw parts) && (fa_unused_capacity_raw row =? eb_unused_capacity_raw parts)
         && bool_decide (fa_probe_consumption_tokens row = eb_probe_consumption_tokens parts)
      then Ok db
      else Ok (put_fact source_id {|
        fa_kind := fa_kind row; fa_deal_id := fa_deal_id row; fa_model := fa_model row;
        fa_occurred_at := fa_occurred_at row; fa_recorded_at := fa_recorded_at row;
        fa_escrow_raw := fa_escrow_raw row; fa_buyer_bond_raw := fa_buyer_bond_raw row;
        fa_buyer_credit_raw := fa_buyer_credit_raw row; fa_spent_raw := fa_spent_raw row;
        fa_consumption_raw := eb_consumption_raw parts; fa_commission_raw := eb_commission_raw parts;
        fa_burns_raw := eb_burns_raw parts; fa_unused_capacity_raw := eb_unused_capacity_raw parts;
        fa_probe_consumption_tokens := eb_probe_consumption_tokens parts |} db)
  end.

(** ** Accruals and the settlement of a deal *)

Definition of_deal (kind : FactKind) (deal_id : string) (row : FactRow) : bool :=
  bool_decide (fa_kind row = kind) && bool_decide (fa_deal_id row = Some deal_id).

(** [SELECT spent_raw ... WHERE deal_id AND kind='settlement' AND buyer_credit_raw IS NOT NULL]. *)
Definition prior_terminal (deal_id : string) (db : UsageDb) : option (option Z) :=
  head (omap (λ kv : string * FactRow,
    if of_deal KSettlement deal_id kv.2 && bool_decide (is_Some (fa_buyer_credit_raw kv.2))
    then Some (fa_spent_raw kv.2) else None) (map_to_list (db_money_facts db))).

Definition new_fact (kind : FactKind) (deal_id model : option string) (occurred_at now : Z)
    (escrow bond credit spent : option Z) : FactRow := {|
  fa_kind := kind; fa_deal_id := deal_id; fa_model := model; fa_occurred_at := occurred_at; fa_recorded_at := now;
  fa_escrow_raw := escrow; fa_buyer_bond_raw := bond; fa_buyer_credit_raw := credit; fa_spent_raw := spent;
  fa_consumption_raw := 0; fa_commission_raw := 0; fa_burns_raw := 0; fa_unused_capacity_raw := 0;
  fa_probe_consumption_tokens := None |}.

(** One round of the loop over the accruals. *)
Definition apply_accrual (deal_id model : string) (prior : option (option Z)) (now : Z) (fact : AccrualFact)
    (db : UsageDb) : Result text UsageDb :=
  ensure (negb (String.eqb (ac_source_id fact) "")) f["accrual source ID is empty"] ;?
  ensure (ac_spent_raw fact >? 0) f["accrual expense is zero"] ;?
  let? at_ := chain_millis (ac_occurred_at fact) in
  match db_money_facts db !! ac_source_id fact with
  | Some old =>
      ensure (bool_decide (fa_kind old = KAccrual) && bool_decide (fa_deal_id old = Some deal_id)
              && (fa_occurred_at old =? at_) && bool_decide (fa_spent_raw old = Some (ac_spent_raw fact)))
        f["conflicting replay of accrual fact"] ;?
      Ok db
  | None =>
      ensure (match prior with Some (Some _) => false | _ => true end)
        f["cannot add an accrual after confirmed terminal partition"] ;?
      Ok (put_fact (ac_source_id fact)
        (new_fact KAccrual (Some deal_id) (Some model) at_ now None None None (Some (ac_spent_raw fact))) db)
  end.
Fixpoint apply_accruals (deal_id model : string) (prior : option (option Z)) (now : Z) (facts : list AccrualFact)
    (db : UsageDb) : Result text UsageDb :=
  match facts with
  | [] => Ok db
  | fact :: facts => let? db := apply_accrual deal_id model prior now fact db in apply_accruals deal_id model prior now facts db
  end.

(** The column [spent_raw] of the accruals of a deal, and the loop that sums it. *)
Definition accruals_of (deal_id : string) (db : UsageDb) : list (option Z) :=
  omap (λ kv : string * FactRow, if of_deal KAccrual deal_id kv.2 then Some (fa_spent_raw kv.2) else None)
    (map_to_list (db_money_facts db)).
Definition accrual_total (deal_id : string) (db : UsageDb) : Result text Z :=
  let? amounts := collect (λ spent, ok_or spent f["Invalid column type Null"]) (accruals_of deal_id db) in
  checked_sum u128 f["accrual total overflow"] 0 amounts.

Definition close_quota_row (deal_id : string) (db : UsageDb) : UsageDb :=
  match db_deal_quota db with
  | Some q =>
      if String.eqb (qr_deal_id q) deal_id then
        set_db_deal_quota (Some {| qr_deal_id := qr_deal_id q; qr_filled_ticks := qr_filled_ticks q;
                                   qr_price_raw := qr_price_raw q; qr_closed := true |}) db
      else db
  | None => db
  end.

(** The last two statements of a settlement: the status of the deal and its quota. *)
Definition close_deal_rows (fact : SettlementFact) (at_ : Z) (db : UsageDb) : UsageDb :=
  let settled := bool_decide (is_Some (sf_buyer_credit_raw fact)) in
  let db := match db_deals db !! sf_deal_id fact with
            | Some row => put_deal (sf_deal_id fact)
                (with_status (if settled then "settled" else "incomplete") (Some at_)
                   (if settled then None else Some "buyer credits not reconciled"%string) row) db
            | None => db
            end in
  close_quota_row (sf_deal_id fact) db.

Definition apply_settlement_in (model : string) (now : Z) (fact : SettlementFact) (db : UsageDb) : Result text UsageDb :=
  ensure (negb (String.eqb (sf_source_id fact) "")) f["settlement source ID is empty"] ;?
  let? at_ := chain_millis (sf_occurred_at fact) in
  let? contributions := ok_or (checked_add u128 (sf_escrow_raw fact) (sf_buyer_bond_raw fact))
    f["buyer contributions overflow"] in
  (match sf_buyer_credit_raw fact with
   | Some credit => ensure (credit <=? contributions) f["buyer credits exceed buyer contributions"]
   | None => Ok ()
   end) ;?
  let? accrued := accrual_total (sf_deal_id fact) db in
  ensure (accrued <=? contributions) f["accruals exceed buyer contributions"] ;?
  let? residual := transpose (option_map (λ credit,
    ok_or (let* net := checked_sub contributions credit in checked_sub net accrued)
      f["accruals exceed confirmed settlement expense"]) (sf_buyer_credit_raw fact)) in
  let? db :=
    match db_money_facts db !! sf_source_id fact with
    | Some old =>
        ensure (bool_decide (fa_kind old = KSettlement) && bool_decide (fa_deal_id old = Some (sf_deal_id fact))
                && (fa_occurred_at old =? at_) && bool_decide (fa_escrow_raw old = Some (sf_escrow_raw fact))
                && bool_decide (fa_buyer_bond_raw old = Some (sf_buyer_bond_raw fact))
                && match fa_buyer_credit_raw old with
                   | Some credit => bool_decide (Some credit = sf_buyer_credit_raw fact)
                   | None => true
                   end) f["conflicting replay of settlement fact"] ;?
        ensure (match fa_spent_raw old with None => true | Some _ => bool_decide (fa_spent_raw old = residual) end)
          f["conflicting terminal residual"] ;?
        if bool_decide (fa_spent_raw old = None) && bool_decide (is_Some (sf_buyer_credit_raw fact)) then
          Ok (put_fact (sf_source_id fact)
            (set_fa_recorded_at now (set_fa_spent_raw residual (set_fa_buyer_credit_raw (sf_buyer_credit_raw fact) old))) db)
        else Ok db
    | None =>
        (* the unique index [one_settlement_per_deal] *)
        ensure (negb (existsb (λ kv : string * FactRow, of_deal KSettlement (sf_deal_id fact) kv.2) (map_to_list (db_money_facts db))))
          f["UNIQUE constraint failed: money_facts.network, money_facts.deal_id"] ;?
        Ok (put_fact (sf_source_id fact)
          (new_fact KSettlement (Some (sf_deal_id fact)) (Some model) at_ now (Some (sf_escrow_raw fact))
             (Some (sf_buyer_bond_raw fact)) (sf_buyer_credit_raw fact) residual) db)
    end in
  Ok (close_deal_rows fact at_ db).

(** The transaction of [apply_deal_expenses]. *)
Definition apply_deal_expenses_in (deal_id : string) (accruals : list AccrualFact) (settlement : option SettlementFact)
    (now : Z) (db : UsageDb) : Result text UsageDb :=
  let? model := ok_or (option_map dl_model (db_deals db !! deal_id)) f["usage deal not registered"] in
  let prior := prior_terminal deal_id db in
  ensure (negb (bool_decide (prior = Some None)) || bool_decide (accruals = [])
          || match settlement with Some fact => bool_decide (is_Some (sf_buyer_credit_raw fact)) | None => false end)
    f["existing terminal expense needs an atomic accrual/residual partition"] ;?
  let? db := apply_accruals deal_id model prior now accruals db in
  match settlement with
  | Some fact =>
      ensure (String.eqb (sf_deal_id fact) deal_id) f["settlement belongs to a different deal"] ;?
      apply_settlement_in model now fact db
  | None => Ok db
  end.

Definition apply_operational_expense (fact : OperationalFact) (now : Z) (db : UsageDb) : Result text UsageDb :=
  ensure (negb (String.eqb (of_source_id fact) "")) f["operational source ID is empty"] ;?
  let? at_ := chain_millis (of_occurred_at fact) in
  match db_money_facts db !! of_source_id fact with
  | Some old =>
      ensure (bool_decide (fa_kind old = KOperational) && bool_decide (fa_deal_id old = of_deal_id fact)
              && (bool_decide (fa_model old = None) || bool_decide (of_model fact = None)
                  || bool_decide (fa_model old = of_model fact))
              && (fa_occurred_at old =? at_) && bool_decide (fa_spent_raw old = Some (of_spent_raw fact)))
        f["conflicting replay of operational expense"] ;?
      if bool_decide (fa_model old = None) && bool_decide (is_Some (of_model fact)) then
        Ok (put_fact (of_source_id fact) (set_fa_recorded_at now (set_fa_model (of_model fact) old)) db)
      else Ok db
  | None =>
      Ok (put_fact (of_source_id fact)
        (new_fact KOperational (of_deal_id fact) (of_model fact) at_ now None None None (Some (of_spent_raw fact))) db)
  end.
End Money.
