(* ===== verification/UsageMoneyInv.v ===== *)
(** * The facts of a deal partition what it cost

    [facts_ok] is the invariant of [money_facts]: every row has the columns of its kind, a
    deal has one settlement, and the accruals of a settled deal and the amount of its
    settlement add up to what the buyer put in less what it was credited.  Every operation
    preserves it. *)
From S2P Require Import Prelude RustText Params UsageData UsageRequests UsageConsumption UsageMoney.

#[local] Arguments umax : simpl never.

(** ** What a deal accrued *)

Definition accrual_share (deal : string) (_ : string) (row : FactRow) : Z :=
  if of_deal KAccrual deal row then unwrap_or 0 (fa_spent_raw row) else 0.
Definition accrued (db : UsageDb) (deal : string) : Z := map_sum (accrual_share deal) (db_money_facts db).

Definition classified (row : FactRow) : Z :=
  fa_consumption_raw row + fa_commission_raw row + fa_burns_raw row + fa_unused_capacity_raw row.

(** A settlement: contributions [e + b], credit and residual.  [exempt] is a deal whose
    settlement of an older file is being split into accruals and residual. *)
Definition settlement_ok (exempt : option string) (db : UsageDb) (row : FactRow) : Prop :=
  ∃ d e b, fa_deal_id row = Some d ∧ fa_escrow_raw row = Some e ∧ fa_buyer_bond_raw row = Some b ∧
    0 ≤ e ∧ 0 ≤ b ∧ e + b ≤ umax u128 ∧
    match fa_buyer_credit_raw row, fa_spent_raw row with
    | None, None => True
    | None, Some _ => False
    | Some c, None => 0 ≤ c ≤ e + b ∧ (exempt = Some d ∨ accrued db d = 0)
    | Some c, Some r => 0 ≤ c ∧ 0 ≤ r ∧ accrued db d + r = e + b - c
    end.
Definition fact_ok (exempt : option string) (db : UsageDb) (row : FactRow) : Prop :=
  match fa_kind row with
  | KSettlement => settlement_ok exempt db row
  | KAccrual => ∃ d n, fa_deal_id row = Some d ∧ fa_spent_raw row = Some n ∧ 0 < n ≤ umax u128
  | KOperational => ∃ n, fa_spent_raw row = Some n ∧ in_range u128 n
  end.
Record facts_ok_but (exempt : option string) (db : UsageDb) : Prop := {
  fo_fact : ∀ source row, db_money_facts db !! source = Some row → fact_ok exempt db row;
  fo_unique : ∀ s1 s2 r1 r2 deal, db_money_facts db !! s1 = Some r1 → db_money_facts db !! s2 = Some r2 →
    of_deal KSettlement deal r1 = true → of_deal KSettlement deal r2 = true → s1 = s2;
}.
Abbreviation facts_ok := (facts_ok_but None).

(** ** Lemmas *)

Lemma of_deal_true kind deal row : of_deal kind deal row = true ↔ fa_kind row = kind ∧ fa_deal_id row = Some deal.
Proof. unfold of_deal. rewrite andb_true_iff, !bool_decide_eq_true. done. Qed.

Lemma accrual_nonneg exempt db deal source row : facts_ok_but exempt db →
  db_money_facts db !! source = Some row → 0 ≤ accrual_share deal source row.
Proof.
  intros [Hf _] Hrow. specialize (Hf _ _ Hrow). unfold accrual_share.
  destruct (of_deal KAccrual deal row) eqn:Ho; [|done]. apply of_deal_true in Ho as [Hk _].
  unfold fact_ok in Hf. rewrite Hk in Hf. destruct Hf as (d & n & _ & -> & Hn). cbn. lia.
Qed.

Lemma accrued_nonneg exempt db deal : facts_ok_but exempt db → 0 ≤ accrued db deal.
Proof. intros Hok. apply map_sum_nonneg. intros. by eapply accrual_nonneg. Qed.

(** The sum the code computes, when it fits. *)
Lemma accrual_total_Ok exempt db deal n : facts_ok_but exempt db →
  accrual_total deal db = Ok n ↔ n = accrued db deal ∧ accrued db deal ≤ umax u128.
Proof.
  intros Hok. set (rows := map_to_list (db_money_facts db)).
  assert (∀ source row, (source, row) ∈ rows → db_money_facts db !! source = Some row) as Hin
    by (intros; by apply elem_of_map_to_list).
  assert (∃ amounts, collect (λ spent, ok_or spent f["Invalid column type Null"]) (accruals_of deal db) = Ok amounts ∧
    Forall (λ n, 0 ≤ n) amounts ∧ zsum id amounts = zsum (λ kv, accrual_share deal kv.1 kv.2) rows) as (amounts & Hc & Hnn & Hs).
  { unfold accruals_of. fold rows. clearbody rows. induction rows as [|[source row] rows IH]; [by exists []|].
    destruct IH as (amounts & Hc & Hnn & Hs); [intros; apply Hin; by right|].
    pose proof (Hin source row (list_elem_of_here _ _)) as Hrow. pose proof (fo_fact _ _ Hok _ _ Hrow) as Hf.
    rewrite zsum_cons. cbn [omap list_omap fst snd]. unfold accrual_share at 1.
    destruct (of_deal KAccrual deal row) eqn:Ho.
    - apply of_deal_true in Ho as [Hk _]. unfold fact_ok in Hf. rewrite Hk in Hf. destruct Hf as (d & k & _ & Hsp & Hk').
      rewrite Hsp. exists (k :: amounts). cbn [collect ok_or rbind]. unfold accruals_of in Hc. rewrite Hc. cbn.
      split; [done|]. split; [constructor; [lia|done]|]. by rewrite zsum_cons, Hs.
    - exists amounts. done. }
  unfold accrual_total. rewrite Hc. cbn [rbind]. rewrite (checked_sum_Ok u128 _ amounts n Hnn), Hs. done.
Qed.

(** Where the one settlement of a deal is. *)
Lemma prior_terminal_spec exempt db deal : facts_ok_but exempt db →
  match prior_terminal deal db with
  | Some spent => ∃ source row, db_money_facts db !! source = Some row ∧ of_deal KSettlement deal row = true ∧
      is_Some (fa_buyer_credit_raw row) ∧ fa_spent_raw row = spent
  | None => ∀ source row, db_money_facts db !! source = Some row → of_deal KSettlement deal row = true →
      fa_buyer_credit_raw row = None
  end.
Proof.
  intros Hok. unfold prior_terminal. destruct (head _) as [spent|] eqn:Hh.
  - assert (spent ∈ omap (λ kv : string * FactRow,
      if of_deal KSettlement deal kv.2 && bool_decide (is_Some (fa_buyer_credit_raw kv.2))
      then Some (fa_spent_raw kv.2) else None) (map_to_list (db_money_facts db))) as Hin.
    { destruct (omap _ _) as [|x l]; [done|]. injection Hh as ->. by left. }
    apply list_elem_of_omap in Hin as ([source row] & Hin%elem_of_map_to_list & Hs). cbn in Hs.
    destruct (of_deal KSettlement deal row) eqn:Ho; [|done]. cbn [andb] in Hs.
    destruct (bool_decide_reflect (is_Some (fa_buyer_credit_raw row))) as [Hc|]; [|done]. injection Hs as <-.
    by exists source, row.
  - intros source row Hrow Ho. destruct (fa_buyer_credit_raw row) as [c|] eqn:Hc; [|done]. exfalso.
    assert (fa_spent_raw row ∈ omap (λ kv : string * FactRow,
      if of_deal KSettlement deal kv.2 && bool_decide (is_Some (fa_buyer_credit_raw kv.2))
      then Some (fa_spent_raw kv.2) else None) (map_to_list (db_money_facts db))) as Hin.
    { apply list_elem_of_omap. exists (source, row). split; [by apply elem_of_map_to_list|]. cbn. rewrite Ho, Hc. done. }
    destruct (omap _ _); [by apply elem_of_nil in Hin|done].
Qed.

(** ** Writing one fact *)

Lemma accrued_put_new db source row deal : db_money_facts db !! source = None →
  accrued (put_fact source row db) deal = accrued db deal + accrual_share deal source row.
Proof. intros Hn. unfold accrued, put_fact. cbn. rewrite map_sum_fresh by done. lia. Qed.

Lemma accrued_put_same db source old row deal : db_money_facts db !! source = Some old →
  accrual_share deal source row = accrual_share deal source old →
  accrued (put_fact source row db) deal = accrued db deal.
Proof. intros Ho He. unfold accrued, put_fact. cbn. rewrite (map_sum_update _ _ _ old) by done. lia. Qed.

Lemma fact_ok_accrued exempt db db' row : (∀ deal, accrued db' deal = accrued db deal) →
  fact_ok exempt db row → fact_ok exempt db' row.
Proof.
  intros Ha. unfold fact_ok, settlement_ok. destruct (fa_kind row); [|done..].
  intros (d & e & b & H). exists d, e, b. rewrite Ha. exact H.
Qed.

(** A write that leaves every sum of accruals alone. *)
Lemma facts_ok_put exempt db source row :
  facts_ok_but exempt db → (∀ deal, accrued (put_fact source row db) deal = accrued db deal) →
  fact_ok exempt db row →
  (∀ deal s r, of_deal KSettlement deal row = true → db_money_facts db !! s = Some r →
     of_deal KSettlement deal r = true → s = source) →
  facts_ok_but exempt (put_fact source row db).
Proof.
  intros [Hf Hu] Ha Hrow Hone. constructor.
  - intros s r Hr. apply fact_ok_accrued with db; [done|]. cbn in Hr.
    destruct (decide (source = s)) as [->|Hne].
    + rewrite lookup_insert_eq in Hr. by injection Hr as <-.
    + rewrite lookup_insert_ne in Hr by done. by apply Hf with s.
  - intros s1 s2 r1 r2 deal H1 H2 O1 O2. cbn in H1, H2.
    rewrite lookup_insert_Some in H1, H2.
    destruct H1 as [[<- <-]|[? H1]], H2 as [[<- <-]|[? H2]]; [done|symmetry; by eapply Hone|by eapply Hone|by eapply Hu].
Qed.

(** An update of a fact that keeps its kind, deal and amount. *)
Lemma facts_ok_update exempt db source old row :
  facts_ok_but exempt db → db_money_facts db !! source = Some old →
  fa_kind row = fa_kind old → fa_deal_id row = fa_deal_id old → (fa_kind old = KAccrual → fa_spent_raw row = fa_spent_raw old) →
  fact_ok exempt db row → facts_ok_but exempt (put_fact source row db).
Proof.
  intros Hok Ho Hk Hd Hs Hrow. apply facts_ok_put; try done.
  - intros deal. apply (accrued_put_same _ _ old); [done|]. unfold accrual_share, of_deal. rewrite Hk, Hd.
    destruct (bool_decide_reflect (fa_kind old = KAccrual)) as [E|]; [|done]. by rewrite (Hs E).
  - intros deal s r Hr Hsr Hor. apply (fo_unique _ _ Hok s source r old deal); try done.
    unfold of_deal in *. by rewrite <- Hk, <- Hd.
Qed.

Lemma of_deal_new kind deal deal' model at_ now e b c s :
  of_deal kind deal' (new_fact kind (Some deal) model at_ now e b c s) = String.eqb deal deal'.
Proof.
  unfold of_deal. cbn. rewrite bool_decide_eq_true_2 by done. cbn.
  destruct (String.eqb_spec deal deal') as [->|Hne]; [by rewrite bool_decide_eq_true_2|by rewrite bool_decide_eq_false_2 by congruence].
Qed.

(** While accruals of [deal] are being added, its settlement is not confirmed yet, unless it
    is one of an older file. *)
Definition open_settlement (deal : string) (db : UsageDb) : Prop :=
  ∀ source row, db_money_facts db !! source = Some row → of_deal KSettlement deal row = true → fa_spent_raw row = None.

Lemma facts_ok_new_accrual db source deal model at_ now n :
  facts_ok_but (Some deal) db → open_settlement deal db → db_money_facts db !! source = None → 0 < n ≤ umax u128 →
  let row := new_fact KAccrual (Some deal) model at_ now None None None (Some n) in
  facts_ok_but (Some deal) (put_fact source row db) ∧ open_settlement deal (put_fact source row db).
Proof.
  intros [Hf Hu] Hopen Hn Hr row.
  assert (∀ d, accrued (put_fact source row db) d = accrued db d + if String.eqb deal d then n else 0) as Ha.
  { intros d. rewrite accrued_put_new by done. unfold accrual_share, row. by rewrite of_deal_new. }
  split; [constructor|].
  - intros s r Hs. cbn in Hs. destruct (decide (source = s)) as [->|Hne].
    { rewrite lookup_insert_eq in Hs. injection Hs as <-. by exists deal, n. }
    rewrite lookup_insert_ne in Hs by done. specialize (Hf s r Hs). unfold fact_ok in *.
    destruct (fa_kind r) eqn:Hk; [|done..]. destruct Hf as (d & e & b & E1 & E2 & E3 & H1 & H2 & H3 & H4).
    exists d, e, b. do 6 (split; [done|]). rewrite Ha.
    destruct (String.eqb_spec deal d) as [<-|Hd].
    + rewrite (Hopen s r Hs) in H4 |- * by (by apply of_deal_true). destruct (fa_buyer_credit_raw r); [|done].
      split; [apply H4|by left].
    + by rewrite Z.add_0_r.
  - intros s1 s2 r1 r2 d H1 H2 O1 O2. cbn in H1, H2. rewrite lookup_insert_Some in H1, H2.
    destruct H1 as [[<- <-]|[? H1]]; [by apply of_deal_true in O1 as [? _]|].
    destruct H2 as [[<- <-]|[? H2]]; [by apply of_deal_true in O2 as [? _]|]. by eapply Hu.
  - intros s r Hs Ho. cbn in Hs. rewrite lookup_insert_Some in Hs. destruct Hs as [[<- <-]|[_ Hs]]; [|by apply (Hopen s)].
    by apply of_deal_true in Ho as [? _].
Qed.

Lemma facts_ok_weaken deal db : facts_ok db → facts_ok_but (Some deal) db.
Proof.
  intros [Hf Hu]. constructor; [|done]. intros s row Hs. specialize (Hf s row Hs). unfold fact_ok in *.
  destruct (fa_kind row); [|done..]. destruct Hf as (d & e & b & H). exists d, e, b.
  destruct (fa_buyer_credit_raw row), (fa_spent_raw row); naive_solver.
Qed.

Lemma facts_ok_lift deal db : facts_ok_but (Some deal) db →
  (∀ s row, db_money_facts db !! s = Some row → of_deal KSettlement deal row = true →
     is_Some (fa_buyer_credit_raw row) → is_Some (fa_spent_raw row) ∨ accrued db deal = 0) → facts_ok db.
Proof.
  intros [Hf Hu] Hset. constructor; [|done]. intros s row Hs. specialize (Hf s row Hs). specialize (Hset s row Hs).
  unfold fact_ok in *. destruct (fa_kind row) eqn:Hk; [|done..].
  destruct Hf as (d & e & b & E1 & E2 & E3 & H1 & H2 & H3 & H4). exists d, e, b. do 6 (split; [done|]).
  destruct (fa_buyer_credit_raw row) as [c|] eqn:Hc, (fa_spent_raw row) as [r|] eqn:Hsp; try done.
  split; [apply H4|]. right. destruct H4 as [_ [[= ->]|?]]; [|done].
  destruct Hset as [[? ?]|?]; [by apply of_deal_true|by eexists|done|done].
Qed.
(** ** The operations *)

Section Operations.
Context (timestamp : Z → bool).

Definition accrual_wf (fact : AccrualFact) : Prop := in_range u128 (ac_spent_raw fact).
Definition settlement_wf (fact : SettlementFact) : Prop :=
  in_range u128 (sf_escrow_raw fact) ∧ in_range u128 (sf_buyer_bond_raw fact) ∧
  ∀ c, sf_buyer_credit_raw fact = Some c → in_range u128 c.

Lemma ensure_Ok b e : ensure b e = Ok () ↔ b = true.
Proof. unfold ensure. by destruct b. Qed.

Lemma apply_accruals_ok deal model prior now facts db db' :
  Forall accrual_wf facts → facts_ok_but (Some deal) db →
  (prior = None ∨ prior = Some None → open_settlement deal db) →
  apply_accruals timestamp deal model prior now facts db = Ok db' →
  facts_ok_but (Some deal) db' ∧ (prior = None ∨ prior = Some None → open_settlement deal db') ∧
  (facts = [] → db' = db) ∧
  (∀ s row, fa_kind row = KSettlement → db_money_facts db' !! s = Some row ↔ db_money_facts db !! s = Some row).
Proof.
  intros Hwf. revert db. induction Hwf as [|fact facts Hw Hwf IH]; intros db Hok Hopen H; cbn [apply_accruals] in H.
  { injection H as <-. done. }
  apply bind_Ok in H as (db1 & H1 & H). unfold apply_accrual in H1.
  apply bind_Ok in H1 as ([] & _ & H1). apply bind_Ok in H1 as ([] & Hpos%ensure_Ok & H1).
  apply bind_Ok in H1 as (at_ & _ & H1).
  destruct (db_money_facts db !! ac_source_id fact) as [old|] eqn:Hold.
  - apply bind_Ok in H1 as ([] & _ & [= <-]). destruct (IH db Hok Hopen H) as (? & ? & _ & ?). done.
  - apply bind_Ok in H1 as ([] & Hp%ensure_Ok & [= <-]).
    assert (open_settlement deal db) as Ho by (apply Hopen; destruct prior as [[]|]; auto; done).
    destruct (facts_ok_new_accrual db (ac_source_id fact) deal (Some model) at_ now (ac_spent_raw fact) Hok Ho Hold) as [Hok1 Ho1].
    { destruct Hw as [_ ?]. split; [|done]. by apply Z.gtb_lt in Hpos. }
    destruct (IH _ Hok1 (λ _, Ho1) H) as (? & ? & _ & Hset). split; [done|]. split; [done|]. split; [done|].
    intros s row Hk. rewrite (Hset s row Hk). cbn. rewrite lookup_insert_Some.
    split; [intros [[_ <-]|[_ ?]]; [done|done]|]. intros Hs. right. split; [congruence|done].
Qed.

End Operations.

Section Settlement.
Context (timestamp : Z → bool).

Lemma close_rows_facts fact at_ db : db_money_facts (close_deal_rows fact at_ db) = db_money_facts db.
Proof.
  unfold close_deal_rows, close_quota_row. set (db1 := match db_deals db !! _ with Some _ => _ | None => _ end).
  assert (db_money_facts db1 = db_money_facts db) as <- by (unfold db1; by destruct (db_deals db !! _)).
  destruct (db_deal_quota db1) as [q|]; [|done]. by destruct (String.eqb _ _).
Qed.

Lemma facts_ok_same exempt db db' : db_money_facts db' = db_money_facts db → facts_ok_but exempt db → facts_ok_but exempt db'.
Proof.
  intros E [Hf Hu]. constructor; rewrite E; [|done]. intros s row Hs. apply fact_ok_accrued with db; [|by apply Hf with s].
  intros d. unfold accrued. by rewrite E.
Qed.

(** The residual of a settlement, when its contributions and credits are in order. *)
Definition residual_of (db : UsageDb) (fact : SettlementFact) : option Z :=
  option_map (λ c, sf_escrow_raw fact + sf_buyer_bond_raw fact - c - accrued db (sf_deal_id fact)) (sf_buyer_credit_raw fact).

(** What the checks before the write establish. *)
Record settlement_checked (db : UsageDb) (fact : SettlementFact) (at_ : Z) : Prop := {
  sc_time : chain_millis timestamp (sf_occurred_at fact) = Ok at_;
  sc_contributions : sf_escrow_raw fact + sf_buyer_bond_raw fact ≤ umax u128;
  sc_accrued : accrued db (sf_deal_id fact) ≤ sf_escrow_raw fact + sf_buyer_bond_raw fact;
  sc_credit : ∀ c, sf_buyer_credit_raw fact = Some c →
    c + accrued db (sf_deal_id fact) ≤ sf_escrow_raw fact + sf_buyer_bond_raw fact;
}.

(** The write of a settlement: the row of an earlier report or a new one. *)
Definition settlement_write (model : string) (now at_ : Z) (fact : SettlementFact) (db : UsageDb) : Result text UsageDb :=
  match db_money_facts db !! sf_source_id fact with
  | Some old =>
      ensure (bool_decide (fa_kind old = KSettlement) && bool_decide (fa_deal_id old = Some (sf_deal_id fact))
              && (fa_occurred_at old =? at_) && bool_decide (fa_escrow_raw old = Some (sf_escrow_raw fact))
              && bool_decide (fa_buyer_bond_raw old = Some (sf_buyer_bond_raw fact))
              && match fa_buyer_credit_raw old with
                 | Some credit => bool_decide (Some credit = sf_buyer_credit_raw fact)
                 | None => true
                 end) f["conflicting replay of settlement fact"] ;?
      ensure (match fa_spent_raw old with None => true | Some _ => bool_decide (fa_spent_raw old = residual_of db fact) end)
        f["conflicting terminal residual"] ;?
      if bool_decide (fa_spent_raw old = None) && bool_decide (is_Some (sf_buyer_credit_raw fact)) then
        Ok (put_fact (sf_source_id fact)
          (set_fa_recorded_at now (set_fa_spent_raw (residual_of db fact) (set_fa_buyer_credit_raw (sf_buyer_credit_raw fact) old))) db)
      else Ok db
  | None =>
      ensure (negb (existsb (λ kv : string * FactRow, of_deal KSettlement (sf_deal_id fact) kv.2) (map_to_list (db_money_facts db))))
        f["UNIQUE constraint failed: money_facts.network, money_facts.deal_id"] ;?
      Ok (put_fact (sf_source_id fact)
        (new_fact KSettlement (Some (sf_deal_id fact)) (Some model) at_ now (Some (sf_escrow_raw fact))
           (Some (sf_buyer_bond_raw fact)) (sf_buyer_credit_raw fact) (residual_of db fact)) db)
  end.

(** A settlement succeeds exactly when it is checked and its write does. *)
Lemma apply_settlement_Ok exempt model now fact db db' :
  facts_ok_but exempt db → settlement_wf fact →
  apply_settlement_in timestamp model now fact db = Ok db' ↔
  sf_source_id fact ≠ ""%string ∧ ∃ at_ db1, settlement_checked db fact at_ ∧
    settlement_write model now at_ fact db = Ok db1 ∧ db' = close_deal_rows fact at_ db1.
Proof.
  intros Hok ([He0 He1] & [Hb0 Hb1] & Hc). unfold apply_settlement_in. rewrite bind_Ok.
  assert (∀ A (r : Result text A) x, (∃ a : (), ensure (negb (sf_source_id fact =? "")%string) f["settlement source ID is empty"] = Ok a ∧ r = Ok x)
    ↔ sf_source_id fact ≠ ""%string ∧ r = Ok x) as -> .
  { intros A r x. split.
    - intros ([] & He%ensure_Ok & Hr). split; [|done]. intros E. by rewrite E in He.
    - intros [E Hr]. exists (). split; [apply ensure_Ok|done]. by destruct (String.eqb_spec (sf_source_id fact) ""). }
  apply and_iff_compat_l. rewrite bind_Ok. apply exist_proper. intros at_.
  pose proof (accrued_nonneg exempt db (sf_deal_id fact) Hok) as Ha0.
  split.
  - intros (Ht & H). apply bind_Ok in H as (k & [-> Hk]%ok_or_Ok%checked_add_Some & H).
    apply bind_Ok in H as ([] & Hcr & H). apply bind_Ok in H as (A & [-> HA]%(accrual_total_Ok exempt _ _ _ Hok) & H).
    apply bind_Ok in H as ([] & Hle%ensure_Ok & H). apply Z.leb_le in Hle.
    apply bind_Ok in H as (res & Hres & H). apply bind_Ok in H as (db1 & Hw & [= <-]).
    assert (res = residual_of db fact ∧ ∀ c, sf_buyer_credit_raw fact = Some c →
      c + accrued db (sf_deal_id fact) ≤ sf_escrow_raw fact + sf_buyer_bond_raw fact) as [-> Hcc].
    { unfold residual_of. destruct (sf_buyer_credit_raw fact) as [c|]; cbn in Hres |- *; [|injection Hres as <-; done].
      apply ensure_Ok, Z.leb_le in Hcr. rewrite checked_sub_fits in Hres by lia. cbn [obind] in Hres.
      destruct (checked_sub _ _) as [r|] eqn:Hr in Hres; [|done]. apply checked_sub_Some in Hr as [-> Hr]. injection Hres as <-.
      split; [done|]. intros ? [= <-]. lia. }
    exists db1. done.
  - intros (db1 & [Ht Hk HA Hcc] & Hw & ->). split; [done|]. rewrite checked_add_fits by done. cbn [ok_or rbind].
    rewrite bind_Ok. exists (). split.
    { destruct (sf_buyer_credit_raw fact) as [c|]; [|done]. apply ensure_Ok, Z.leb_le. specialize (Hcc c eq_refl). lia. }
    rewrite (proj2 (accrual_total_Ok exempt db (sf_deal_id fact) _ Hok)) by (split; [done|lia]). cbn [rbind].
    rewrite (proj2 (ensure_Ok _ _)) by (apply Z.leb_le; lia). cbn [rbind].
    eapply (bind_step _ _ (residual_of db fact)).
    { unfold residual_of. destruct (sf_buyer_credit_raw fact) as [c|]; [|done]. specialize (Hcc c eq_refl). cbn.
      rewrite checked_sub_fits by lia. cbn [obind]. rewrite checked_sub_fits by lia. done. }
    unfold settlement_write in Hw. rewrite Hw. done.
Qed.
End Settlement.

Section Settlement.
Context (timestamp : Z → bool).

(** A confirmed settlement of these figures. *)
Lemma settlement_row_ok db fact at_ row :
  settlement_checked timestamp db fact at_ → settlement_wf fact → fa_kind row = KSettlement →
  fa_deal_id row = Some (sf_deal_id fact) → fa_escrow_raw row = Some (sf_escrow_raw fact) →
  fa_buyer_bond_raw row = Some (sf_buyer_bond_raw fact) → fa_buyer_credit_raw row = sf_buyer_credit_raw fact →
  fa_spent_raw row = residual_of db fact → ∀ exempt, fact_ok exempt db row.
Proof.
  intros [_ Hk HA Hc] ([He _] & [Hb _] & Hcw) Hkd Hd Hes Hbo Hcr Hsp exempt. unfold fact_ok. rewrite Hkd.
  exists (sf_deal_id fact), (sf_escrow_raw fact), (sf_buyer_bond_raw fact). do 6 (split; [done|]). rewrite Hcr, Hsp.
  unfold residual_of. destruct (sf_buyer_credit_raw fact) as [c|]; [|done]. cbn.
  specialize (Hc c eq_refl). destruct (Hcw c eq_refl). lia.
Qed.

Lemma settlement_write_ok model now at_ fact db db' :
  facts_ok_but (Some (sf_deal_id fact)) db → settlement_wf fact → settlement_checked timestamp db fact at_ →
  settlement_write model now at_ fact db = Ok db' → facts_ok db'.
Proof.
  intros Hok Hwf Hck H. unfold settlement_write in H. set (deal := sf_deal_id fact) in *.
  destruct (db_money_facts db !! sf_source_id fact) as [old|] eqn:Hold.
  - apply bind_Ok in H as ([] & Hm%ensure_Ok & H). rewrite !andb_true_iff, !bool_decide_eq_true, Z.eqb_eq in Hm.
    destruct Hm as (((((Hk & Hd) & _) & He) & Hb) & Hc). apply bind_Ok in H as ([] & Hr%ensure_Ok & H).
    assert (∀ s row, db_money_facts db !! s = Some row → of_deal KSettlement deal row = true → s = sf_source_id fact) as Hone
      by (intros s row Hs Ho; apply (fo_unique _ _ Hok s _ row old deal); [done..|by apply of_deal_true]).
    destruct (bool_decide (fa_spent_raw old = None) && _) eqn:Hup.
    + injection H as <-. set (row := set_fa_recorded_at _ _).
      assert (facts_ok_but (Some deal) (put_fact (sf_source_id fact) row db)) as Hok'.
      { apply (facts_ok_update _ _ _ old); [done|done|done|done|by rewrite Hk|].
        by apply (settlement_row_ok db fact at_). }
      apply (facts_ok_lift deal); [done|]. intros s r Hs Ho _. left. cbn in Hs.
      rewrite lookup_insert_Some in Hs. destruct Hs as [[_ <-]|[Hne Hs]]; [|by destruct Hne; symmetry; apply (Hone s r)].
      apply andb_prop in Hup as [_ [c Hcr]%bool_decide_eq_true]. cbn. unfold residual_of. rewrite Hcr. by eexists.
    + injection H as <-. apply (facts_ok_lift deal); [done|]. intros s r Hs Ho [c Hcr]. left.
      pose proof (Hone s r Hs Ho) as ->. rewrite Hold in Hs. injection Hs as <-.
      destruct (fa_spent_raw old) as [n|]; [by eexists|]. exfalso.
      rewrite Hcr in Hc. apply bool_decide_eq_true in Hc. by rewrite <- Hc in Hup.
  - apply bind_Ok in H as ([] & Hno%ensure_Ok & [= <-]). set (row := new_fact _ _ _ _ _ _ _ _ _).
    assert (∀ s r, db_money_facts db !! s = Some r → of_deal KSettlement deal r = true → False) as Hnone.
    { intros s r Hs Ho. apply negb_true_iff in Hno. apply not_true_iff_false in Hno. apply Hno. apply existsb_exists.
      exists (s, r). split; [|done]. by apply list_elem_of_In, elem_of_map_to_list. }
    assert (facts_ok_but (Some deal) (put_fact (sf_source_id fact) row db)) as Hok'.
    { apply facts_ok_put; [done| |by apply (settlement_row_ok db fact at_)|].
      - intros d. rewrite accrued_put_new by done. change (accrual_share d _ row) with 0. lia.
      - intros d s r Hr Hs Ho. unfold row in Hr. rewrite of_deal_new in Hr. apply String.eqb_eq in Hr as <-.
        by destruct (Hnone s r). }
    apply (facts_ok_lift deal); [done|]. intros s r Hs Ho [c Hcr]. left. cbn in Hs.
    rewrite lookup_insert_Some in Hs. destruct Hs as [[_ <-]|[Hne Hs]]; [|by destruct (Hnone s r)].
    cbn in Hcr |- *. unfold residual_of. rewrite Hcr. by eexists.
Qed.

(** Without a confirmed partition the settlement of a deal has no residual yet. *)
Lemma unconfirmed_is_open deal db : facts_ok db →
  prior_terminal deal db = None ∨ prior_terminal deal db = Some None → open_settlement deal db.
Proof.
  intros Hok Hp s row Hs Ho. pose proof (prior_terminal_spec _ _ deal Hok) as Hprior.
  destruct (prior_terminal deal db) as [spent|].
  - destruct Hp as [|[= ->]]; [done|]. destruct Hprior as (s' & row' & Hs' & Ho' & _ & Hsp).
    assert (s = s') as -> by (by eapply (fo_unique _ _ Hok)). congruence.
  - specialize (Hprior s row Hs Ho). pose proof (fo_fact _ _ Hok s row Hs) as Hf. apply of_deal_true in Ho as [Hk _].
    unfold fact_ok in Hf. rewrite Hk in Hf. destruct Hf as (d & e & b & _ & _ & _ & _ & _ & _ & Hf).
    rewrite Hprior in Hf. by destruct (fa_spent_raw row).
Qed.

Lemma apply_expenses_ok deal accruals settlement now db db' :
  facts_ok db → Forall accrual_wf accruals → (∀ fact, settlement = Some fact → settlement_wf fact) →
  apply_deal_expenses_in timestamp deal accruals settlement now db = Ok db' → facts_ok db'.
Proof.
  intros Hok Hwa Hws H. unfold apply_deal_expenses_in in H. apply bind_Ok in H as (model & _ & H).
  apply bind_Ok in H as ([] & Hguard%ensure_Ok & H). apply bind_Ok in H as (db1 & Hacc & H).
  pose proof (prior_terminal_spec _ _ deal Hok) as Hprior. pose proof (unconfirmed_is_open deal db Hok) as Hopen.
  destruct (apply_accruals_ok timestamp deal model _ now accruals db db1 Hwa (facts_ok_weaken deal db Hok) Hopen Hacc)
    as (Hok1 & Hopen1 & Hnil & Hset).
  destruct settlement as [fact|].
  - apply bind_Ok in H as ([] & Hd%ensure_Ok%String.eqb_eq & H). subst deal.
    apply (apply_settlement_Ok timestamp _ _ _ _ _ _ Hok1 (Hws _ eq_refl)) in H as (_ & at_ & db2 & Hck & Hw & ->).
    apply facts_ok_same with db2; [apply close_rows_facts|]. by eapply settlement_write_ok; [|by apply Hws|..].
  - injection H as <-. rewrite orb_false_r in Hguard. apply orb_prop in Hguard as [Hp|Hn].
    + apply (facts_ok_lift deal); [done|]. intros s row Hs Ho Hc. left.
      apply of_deal_true in Ho as Hk. destruct Hk as [Hk _]. apply (Hset s row Hk) in Hs as Hs0.
      destruct (prior_terminal deal db) as [[spent|]|]; [|done|].
      * destruct Hprior as (s' & row' & Hs' & Ho' & _ & Hsp).
        assert (s = s') as -> by (by eapply (fo_unique _ _ Hok)). assert (row = row') as -> by congruence. rewrite Hsp. by eexists.
      * rewrite (Hprior s row Hs0 Ho) in Hc. by destruct Hc.
    + apply bool_decide_eq_true in Hn. by rewrite (Hnil Hn).
Qed.
End Settlement.

(** ** Operations that write financial facts only *)

Definition only_facts (db db' : UsageDb) : Prop :=
  ∃ facts revision, db' = set_db_facts_revision revision (set_db_money_facts facts db).
Lemma only_facts_refl db : only_facts db db.
Proof. exists (db_money_facts db), (db_facts_revision db). by destruct db. Qed.
Lemma only_facts_trans db1 db2 db3 : only_facts db1 db2 → only_facts db2 db3 → only_facts db1 db3.
Proof. intros (f1 & r1 & ->) (f2 & r2 & ->). by exists f2, r2. Qed.
Lemma put_fact_only_facts source row db : only_facts db (put_fact source row db).
Proof. by eexists _, _. Qed.
Lemma only_facts_deals db db' : only_facts db db' → db_deals db' = db_deals db.
Proof. by intros (? & ? & ->). Qed.
#[export] Hint Resolve only_facts_refl put_fact_only_facts : core.

Lemma accruals_only_facts timestamp deal model prior now facts db db' :
  apply_accruals timestamp deal model prior now facts db = Ok db' → only_facts db db'.
Proof.
  revert db. induction facts as [|fact facts IH]; intros db H; cbn [apply_accruals] in H; [by injection H as <-|].
  apply bind_Ok in H as (db1 & H1 & H). apply only_facts_trans with db1; [|by apply IH]. clear IH H. unfold apply_accrual in H1.
  apply bind_Ok in H1 as ([] & _ & H1). apply bind_Ok in H1 as ([] & _ & H1). apply bind_Ok in H1 as (at_ & _ & H1).
  destruct (db_money_facts db !! _); apply bind_Ok in H1 as ([] & _ & [= <-]); auto.
Qed.

Lemma settlement_write_only_facts model now at_ fact db db' :
  settlement_write model now at_ fact db = Ok db' → only_facts db db'.
Proof.
  unfold settlement_write. destruct (db_money_facts db !! _); intros H; apply bind_Ok in H as ([] & _ & H);
    [apply bind_Ok in H as ([] & _ & H); destruct (_ && _)|]; injection H as <-; auto.
Qed.

(** A settlement writes facts, and then closes the rows of its deal. *)
Lemma apply_settlement_shape timestamp model now fact db db' :
  apply_settlement_in timestamp model now fact db = Ok db' →
  ∃ at_ db1, only_facts db db1 ∧ db' = close_deal_rows fact at_ db1.
Proof.
  unfold apply_settlement_in. intros H. apply bind_Ok in H as ([] & _ & H). apply bind_Ok in H as (at_ & _ & H).
  apply bind_Ok in H as (n & _ & H). apply bind_Ok in H as ([] & _ & H). apply bind_Ok in H as (a & _ & H).
  apply bind_Ok in H as ([] & _ & H). apply bind_Ok in H as (residual & _ & H). apply bind_Ok in H as (db1 & H & [= <-]).
  exists at_, db1. split; [|done]. destruct (db_money_facts db !! _); apply bind_Ok in H as ([] & _ & H);
    [apply bind_Ok in H as ([] & _ & H); destruct (_ && _)|]; injection H as <-; auto.
Qed.
