(* ===== verification/UsageReplay.v ===== *)
(** * Reporting the same expenses again changes nothing

    A closed deal is read again after a restart, and its accruals and settlement are
    reported again.  The second report succeeds and leaves every table as it is.

    The second part shows that every fact of a store can be shown: its classification, its source
    and its time are within what the financial pages print. *)
From S2P Require Import Prelude RustText Params UsageData UsageRequests UsageConsumption UsageMoney UsageMoneyInv.

#[local] Arguments umax : simpl never.

Section Replay.
Context (timestamp : Z → bool).

(** The row of an accrual that has been reported. *)
Definition accrual_recorded (deal : string) (db : UsageDb) (fact : AccrualFact) : Prop :=
  ac_source_id fact ≠ ""%string ∧ 0 < ac_spent_raw fact ∧
  ∃ at_ row, chain_millis timestamp (ac_occurred_at fact) = Ok at_ ∧
    db_money_facts db !! ac_source_id fact = Some row ∧ fa_kind row = KAccrual ∧ fa_deal_id row = Some deal ∧
    fa_occurred_at row = at_ ∧ fa_spent_raw row = Some (ac_spent_raw fact).

(** Writes that leave the accruals of [db] alone. *)
Definition keeps_accruals (db db' : UsageDb) : Prop :=
  ∀ source row, fa_kind row = KAccrual → db_money_facts db !! source = Some row → db_money_facts db' !! source = Some row.

Lemma recorded_kept deal db db' fact : keeps_accruals db db' → accrual_recorded deal db fact → accrual_recorded deal db' fact.
Proof. intros Hk (? & ? & at_ & row & ? & Hr & ? & ?). split; [done|]. split; [done|]. exists at_, row. by auto. Qed.

Lemma apply_accrual_records deal model prior now fact db db' :
  apply_accrual timestamp deal model prior now fact db = Ok db' →
  accrual_recorded deal db' fact ∧ keeps_accruals db db'.
Proof.
  unfold apply_accrual. intros H. apply bind_Ok in H as ([] & Hs%ensure_Ok & H).
  apply bind_Ok in H as ([] & Hp%ensure_Ok & H). apply bind_Ok in H as (at_ & Ht & H).
  assert (ac_source_id fact ≠ ""%string) as Hne by (intros E; by rewrite E in Hs).
  apply Z.gtb_lt in Hp. destruct (db_money_facts db !! ac_source_id fact) as [old|] eqn:Hold.
  - apply bind_Ok in H as ([] & Hm%ensure_Ok & [= <-]). rewrite !andb_true_iff, !bool_decide_eq_true, Z.eqb_eq in Hm.
    split; [|by intros ? ?]. split; [done|]. split; [done|]. exists at_, old. naive_solver.
  - apply bind_Ok in H as ([] & _ & [= <-]). split.
    + split; [done|]. split; [done|]. eexists at_, _. split; [done|]. cbn. rewrite lookup_insert_eq. by split.
    + intros source row _ Hr. cbn. rewrite lookup_insert_ne by congruence. done.
Qed.

Lemma apply_accruals_record deal model prior now facts db db' :
  apply_accruals timestamp deal model prior now facts db = Ok db' →
  Forall (accrual_recorded deal db') facts ∧ keeps_accruals db db'.
Proof.
  revert db. induction facts as [|fact facts IH]; intros db H; cbn [apply_accruals] in H.
  { injection H as <-. split; [constructor|by intros ? ?]. }
  apply bind_Ok in H as (db1 & H1%apply_accrual_records & H). destruct H1 as [Hr1 Hk1].
  destruct (IH db1 H) as [Hr Hk]. split; [constructor; [by eapply recorded_kept|done]|].
  intros s row Hkind Hs. by apply Hk, Hk1.
Qed.

Lemma apply_accruals_again deal model prior now facts db :
  Forall (accrual_recorded deal db) facts → apply_accruals timestamp deal model prior now facts db = Ok db.
Proof.
  induction 1 as [|fact facts (Hne & Hp & at_ & row & Ht & Hr & Hk & Hd & Ho & Hs) _ IH]; [done|].
  cbn [apply_accruals]. unfold apply_accrual. destruct (String.eqb_spec (ac_source_id fact) ""); [done|].
  rewrite (proj2 (Z.gtb_lt _ _)) by done. cbn [ensure negb rbind]. rewrite Ht, Hr. cbn [rbind].
  rewrite Hk, Hd, Ho, Hs, !bool_decide_eq_true_2, Z.eqb_refl by done. cbn. exact IH.
Qed.

(** The row of a settlement that has been reported. *)
Definition settlement_recorded (db : UsageDb) (fact : SettlementFact) (at_ : Z) : Prop :=
  ∃ row, db_money_facts db !! sf_source_id fact = Some row ∧ fa_kind row = KSettlement ∧
    fa_deal_id row = Some (sf_deal_id fact) ∧ fa_occurred_at row = at_ ∧ fa_escrow_raw row = Some (sf_escrow_raw fact) ∧
    fa_buyer_bond_raw row = Some (sf_buyer_bond_raw fact) ∧ fa_buyer_credit_raw row = sf_buyer_credit_raw fact ∧
    fa_spent_raw row = residual_of db fact.

Lemma settlement_write_records exempt model now at_ fact db db' :
  facts_ok_but exempt db → settlement_write model now at_ fact db = Ok db' →
  settlement_recorded db' fact at_ ∧ keeps_accruals db db' ∧ ∀ deal, accrued db' deal = accrued db deal.
Proof.
  intros Hok H. unfold settlement_write in H.
  destruct (db_money_facts db !! sf_source_id fact) as [old|] eqn:Hold.
  - apply bind_Ok in H as ([] & Hm%ensure_Ok & H). rewrite !andb_true_iff, !bool_decide_eq_true, Z.eqb_eq in Hm.
    destruct Hm as (((((Hk & Hd) & Ht) & He) & Hb) & Hc). apply bind_Ok in H as ([] & Hr%ensure_Ok & H).
    destruct (bool_decide (fa_spent_raw old = None) && _) eqn:Hup.
    + injection H as <-. set (row := set_fa_recorded_at _ _).
      assert (∀ deal, accrued (put_fact (sf_source_id fact) row db) deal = accrued db deal) as Ha.
      { intros deal. apply (accrued_put_same _ _ old); [done|]. unfold accrual_share, of_deal. cbn. by rewrite Hk. }
      split; [|split; [|exact Ha]].
      * exists row. cbn. rewrite lookup_insert_eq. unfold residual_of. by rewrite Ha.
      * intros s r Hkind Hs. cbn. rewrite lookup_insert_ne; [done|congruence].
    + injection H as <-. split; [|by split; [intros ? ?|]].
      exists old. do 6 (split; [done|]).
      pose proof (fo_fact _ _ Hok _ _ Hold) as Hf. unfold fact_ok in Hf. rewrite Hk in Hf.
      destruct Hf as (d & e & b & _ & _ & _ & _ & _ & _ & Hf).
      destruct (fa_buyer_credit_raw old) as [c|].
      * apply bool_decide_eq_true in Hc. split; [done|]. destruct (fa_spent_raw old); [by apply bool_decide_eq_true in Hr|].
        by rewrite <- Hc in Hup.
      * destruct (fa_spent_raw old); [done|]. unfold residual_of. destruct (sf_buyer_credit_raw fact); [done|]. done.
  - apply bind_Ok in H as ([] & _ & [= <-]). set (row := new_fact _ _ _ _ _ _ _ _ _).
    assert (∀ deal, accrued (put_fact (sf_source_id fact) row db) deal = accrued db deal) as Ha.
    { intros deal. rewrite accrued_put_new by done. change (accrual_share deal _ row) with 0. lia. }
    split; [|split; [|exact Ha]].
    + exists row. cbn. rewrite lookup_insert_eq. unfold residual_of. by rewrite Ha.
    + intros s r _ Hs. cbn. rewrite lookup_insert_ne; [done|congruence].
Qed.

Lemma settlement_write_again model now at_ fact db :
  settlement_recorded db fact at_ → settlement_write model now at_ fact db = Ok db.
Proof.
  intros (row & Hr & Hk & Hd & Ht & He & Hb & Hc & Hs). unfold settlement_write. rewrite Hr, Hk, Hd, Ht, He, Hb, Hc, Hs.
  rewrite !bool_decide_eq_true_2, Z.eqb_refl by done. cbn [andb].
  assert (match sf_buyer_credit_raw fact with Some c => bool_decide (Some c = sf_buyer_credit_raw fact) | None => true end = true)
    as -> by (destruct (sf_buyer_credit_raw fact); [by apply bool_decide_eq_true|done]).
  cbn [ensure rbind]. unfold residual_of. by destruct (sf_buyer_credit_raw fact).
Qed.

Lemma close_rows_again fact at_ db : close_deal_rows fact at_ (close_deal_rows fact at_ db) = close_deal_rows fact at_ db.
Proof.
  destruct db as [rq ru dl mf dq dp no am ad rv]. unfold close_deal_rows, close_quota_row, put_deal. cbn.
  destruct (dl !! sf_deal_id fact) as [row|] eqn:Hrow; cbn.
  - destruct dq as [q|]; cbn; [destruct (String.eqb (qr_deal_id q) (sf_deal_id fact)) eqn:Hq; cbn|];
      rewrite lookup_insert_eq; cbn; rewrite ?Hq; by rewrite insert_insert_eq.
  - destruct dq as [q|]; cbn; [destruct (String.eqb (qr_deal_id q) (sf_deal_id fact)) eqn:Hq; cbn|];
      rewrite Hrow; cbn; by rewrite ?Hq.
Qed.

Lemma close_rows_has_deal fact at_ deal db :
  is_Some (db_deals (close_deal_rows fact at_ db) !! deal) ↔ is_Some (db_deals db !! deal).
Proof.
  destruct db as [rq ru dl mf dq dp no am ad rv]. unfold close_deal_rows, close_quota_row, put_deal. cbn.
  destruct (dl !! sf_deal_id fact) as [row|] eqn:Hrow; cbn; destruct dq as [q|]; cbn;
    try destruct (String.eqb (qr_deal_id q) _); cbn; try done;
    (destruct (decide (sf_deal_id fact = deal)) as [<-|];
      [rewrite lookup_insert_eq, Hrow; split; by eexists|by rewrite lookup_insert_ne]).
Qed.

(** A write without credits confirms no settlement. *)
Lemma settlement_write_unconfirmed model now at_ fact db db' source row :
  sf_buyer_credit_raw fact = None → settlement_write model now at_ fact db = Ok db' →
  is_Some (fa_buyer_credit_raw row) → db_money_facts db' !! source = Some row → db_money_facts db !! source = Some row.
Proof.
  unfold settlement_write. intros Hc H [c Hr] Hs. destruct (db_money_facts db !! sf_source_id fact) as [old|] eqn:Hold.
  - apply bind_Ok in H as ([] & _ & H). apply bind_Ok in H as ([] & _ & H). rewrite Hc, andb_false_r in H. by simplify_eq.
  - apply bind_Ok in H as ([] & _ & [= <-]). cbn in Hs. apply lookup_insert_Some in Hs as [[<- <-]|[_ ?]]; [|done].
    cbn in Hr. congruence.
Qed.

(** The settlement part of a report, as it is found in the tables afterwards. *)
Definition expenses_recorded (deal : string) (accruals : list AccrualFact) (settlement : option SettlementFact)
    (db : UsageDb) : Prop :=
  is_Some (db_deals db !! deal) ∧ Forall (accrual_recorded deal db) accruals ∧
  (prior_terminal deal db = Some None → accruals = [] ∨ ∃ fact, settlement = Some fact ∧ is_Some (sf_buyer_credit_raw fact)) ∧
  ∀ fact, settlement = Some fact → sf_deal_id fact = deal ∧ settlement_wf fact ∧ sf_source_id fact ≠ ""%string ∧
    ∃ at_, settlement_checked timestamp db fact at_ ∧ settlement_recorded db fact at_ ∧ close_deal_rows fact at_ db = db.

Lemma recorded_replays deal accruals settlement now db :
  facts_ok db → expenses_recorded deal accruals settlement db →
  apply_deal_expenses_in timestamp deal accruals settlement now db = Ok db.
Proof.
  intros Hok ([row Hrow] & Hacc & Hprior & Hset). unfold apply_deal_expenses_in. rewrite Hrow. cbn [option_map ok_or rbind].
  assert (negb (bool_decide (prior_terminal deal db = Some None)) || bool_decide (accruals = [])
    || match settlement with Some fact => bool_decide (is_Some (sf_buyer_credit_raw fact)) | None => false end = true) as ->.
  { case_bool_decide as Hp; [|done]. destruct (Hprior Hp) as [->|(fact & -> & Hc)]; [by rewrite bool_decide_eq_true_2|].
    rewrite (bool_decide_eq_true_2 _ Hc). by rewrite orb_true_r. }
  cbn [ensure rbind]. rewrite apply_accruals_again by done. cbn [rbind].
  destruct settlement as [fact|]; [|done]. destruct (Hset fact eq_refl) as (<- & Hwf & Hne & at_ & Hck & Hrec & Hclose).
  rewrite String.eqb_refl. cbn [ensure rbind].
  apply (apply_settlement_Ok _ None); [done..|]. split; [done|]. exists at_, db.
  split; [done|]. split; [by apply settlement_write_again|done].
Qed.

Lemma checked_same db db' fact at_ : (∀ deal, accrued db' deal = accrued db deal) →
  settlement_checked timestamp db fact at_ → settlement_checked timestamp db' fact at_.
Proof. intros Ha []. constructor; rewrite ?Ha; auto. Qed.

Lemma recorded_same db db' fact at_ : db_money_facts db' = db_money_facts db →
  settlement_recorded db fact at_ → settlement_recorded db' fact at_.
Proof. unfold settlement_recorded, residual_of, accrued. by intros ->. Qed.

Lemma unsettled_stays deal model prior now accruals db db1 db2 :
  facts_ok db → Forall accrual_wf accruals → prior = prior_terminal deal db → prior ≠ Some None →
  facts_ok_but (Some deal) db2 → apply_accruals timestamp deal model prior now accruals db = Ok db1 →
  (∀ s row, is_Some (fa_buyer_credit_raw row) → db_money_facts db2 !! s = Some row → db_money_facts db1 !! s = Some row) →
  prior_terminal deal db2 ≠ Some None.
Proof.
  intros Hok Hwf -> Hne Hok2 Hacc Hkeep Hp. pose proof (prior_terminal_spec _ _ deal Hok2) as H2. rewrite Hp in H2.
  destruct H2 as (s & row & Hs & Hd & Hc & Hn). pose proof (Hkeep s row Hc Hs) as Hs1.
  pose proof (prior_terminal_spec _ _ deal Hok) as H0.
  pose proof Hd as [Hk _]%of_deal_true.
  assert (db_money_facts db !! s = Some row) as Hs0.
  { apply (apply_accruals_ok timestamp deal model (prior_terminal deal db) now accruals db db1 Hwf); [by apply facts_ok_weaken| |done..].
    by apply unconfirmed_is_open. }
  destruct (prior_terminal deal db) as [spent|].
  - destruct H0 as (s0 & r0 & Hr0 & Hd0 & _ & Hsp).
    assert (s0 = s) as -> by (by eapply (fo_unique _ _ Hok)). simplify_eq. by rewrite Hn in Hne.
  - rewrite (H0 _ _ Hs0 Hd) in Hc. by destruct Hc.
Qed.

Lemma expenses_are_recorded deal accruals settlement now db db' :
  facts_ok db → Forall accrual_wf accruals → (∀ fact, settlement = Some fact → settlement_wf fact) →
  apply_deal_expenses_in timestamp deal accruals settlement now db = Ok db' →
  expenses_recorded deal accruals settlement db'.
Proof.
  intros Hok Hwa Hws H. pose proof (apply_expenses_ok _ _ _ _ _ _ _ Hok Hwa Hws H) as Hok'.
  unfold apply_deal_expenses_in in H. apply bind_Ok in H as (model & Hm%ok_or_Ok & H).
  apply bind_Ok in H as ([] & Hguard%ensure_Ok & H). apply bind_Ok in H as (db1 & Hacc & H).
  assert (is_Some (db_deals db !! deal)) as Hdeal by (destruct (db_deals db !! deal); [by eexists|done]).
  rewrite <- (only_facts_deals _ _ (accruals_only_facts _ _ _ _ _ _ _ _ Hacc)) in Hdeal.
  pose proof (apply_accruals_record _ _ _ _ _ _ _ Hacc) as [Hrec1 _].
  destruct (apply_accruals_ok timestamp deal model _ now accruals db db1 Hwa (facts_ok_weaken deal db Hok)
    (unconfirmed_is_open deal db Hok) Hacc) as (Hok1 & _).
  destruct settlement as [fact|].
  - apply bind_Ok in H as ([] & Hd%ensure_Ok%String.eqb_eq & H). subst deal.
    apply (apply_settlement_Ok timestamp _ _ _ _ _ _ Hok1 (Hws _ eq_refl)) in H as (Hne & at_ & db2 & Hck & Hw & ->).
    destruct (settlement_write_records _ _ _ _ _ _ _ Hok1 Hw) as (Hset & Hkeep & Hsame).
    pose proof (close_rows_facts fact at_ db2) as Hf.
    split; [by rewrite close_rows_has_deal, (only_facts_deals _ _ (settlement_write_only_facts _ _ _ _ _ _ Hw))|].
    split. { eapply Forall_impl; [exact Hrec1|]. intros a. apply recorded_kept. intros s row. rewrite Hf. apply Hkeep. }
    split.
    + intros Hp. destruct (sf_buyer_credit_raw fact) as [c|] eqn:Hc; [right; exists fact; rewrite Hc; by split|].
      left. rewrite (bool_decide_eq_false_2 (is_Some None)), orb_false_r in Hguard by (by intros []).
      apply orb_prop in Hguard as [Hg|Hg]; [|by apply bool_decide_eq_true in Hg].
      exfalso. revert Hp. eapply (unsettled_stays _ model _ now accruals db db1); try done.
      * intros E. by rewrite E, bool_decide_eq_true_2 in Hg.
      * by apply facts_ok_weaken.
      * intros s row Hr. rewrite Hf. by eapply settlement_write_unconfirmed.
    + intros fact' [= <-]. split; [done|]. split; [by apply Hws|]. split; [done|]. exists at_.
      split; [|split; [by apply (recorded_same db2)|apply close_rows_again]].
      apply (checked_same db1); [|done]. intros d. rewrite <- Hsame. unfold accrued. by rewrite Hf.
  - injection H as <-. split; [done|]. split; [done|]. split; [|done].
    intros Hp. left. rewrite orb_false_r in Hguard. apply orb_prop in Hguard as [Hg|Hg]; [|by apply bool_decide_eq_true in Hg].
    exfalso. revert Hp. eapply (unsettled_stays _ model _ now accruals db db1); try done.
    intros E. by rewrite E, bool_decide_eq_true_2 in Hg.
Qed.

End Replay.

(** * Every financial fact can be shown

    The classification of an expense never exceeds its confirmed amount, the proof of a paid
    probe recomputes, and every fact has a source and a time that can be printed: the rows the
    facts pages read.  The tables are those this version wrote: a settlement with its credits
    has its residual. *)

#[local] Arguments umax : simpl never.

Section Class.
Context (timestamp : Z → bool).

(** The classes of a fact against its amount, [None] while the amount is not confirmed. *)
Definition class_ok (row : FactRow) (amount : option Z) : Prop :=
  0 ≤ fa_consumption_raw row ∧ 0 ≤ fa_commission_raw row ∧ 0 ≤ fa_burns_raw row ∧ 0 ≤ fa_unused_capacity_raw row ∧
  classified row ≤ unwrap_or 0 amount ∧
  match fa_probe_consumption_tokens row with
  | Some tokens => fa_kind row = KAccrual ∧ tokens ≤ TICK_SIZE ∧
      ∃ a, amount = Some a ∧ 0 < a ∧ fa_consumption_raw row = paid_probe_cost a tokens
  | None => True
  end.
Record fact_sane (source : string) (row : FactRow) : Prop := {
  fs_source : source ≠ ""%string;
  fs_time : timestamp (fa_occurred_at row) = true;
  fs_partition : fa_kind row = KSettlement → is_Some (fa_buyer_credit_raw row) ↔ is_Some (fa_spent_raw row);
  fs_class : ∃ amount, fact_amount row = Ok amount ∧ class_ok row amount;
}.
Definition facts_sane (db : UsageDb) : Prop := ∀ source row, db_money_facts db !! source = Some row → fact_sane source row.

Lemma facts_sane_empty : facts_sane empty_db.
Proof. intros source row H. discriminate H. Qed.

Lemma facts_sane_put db source row : facts_sane db → fact_sane source row → facts_sane (put_fact source row db).
Proof. intros Hdb Hrow s r. cbn. intros [[<- <-]|[_ ?]]%lookup_insert_Some; [done|by apply Hdb]. Qed.

Lemma facts_sane_same db db' : db_money_facts db' = db_money_facts db → facts_sane db → facts_sane db'.
Proof. intros E H s r. rewrite E. apply H. Qed.

(** The amount of a fact with a confirmed partition. *)
Lemma amount_spent row n : fa_spent_raw row = Some n → (fa_kind row = KSettlement → is_Some (fa_buyer_credit_raw row)) →
  fact_amount row = Ok (Some n).
Proof.
  unfold fact_amount. intros -> Hc. destruct (fa_kind row); [|done..]. destruct (Hc eq_refl) as [c ->]. done.
Qed.
Lemma amount_unconfirmed row : fa_kind row = KSettlement → fa_buyer_credit_raw row = None → fact_amount row = Ok None.
Proof. unfold fact_amount. by intros -> ->. Qed.

Lemma class_ok_new kind deal model at_ now e b c s amount : 0 ≤ unwrap_or 0 amount →
  class_ok (new_fact kind deal model at_ now e b c s) amount.
Proof. intros. by repeat split. Qed.

Lemma chain_millis_timestamp seconds at_ : chain_millis timestamp seconds = Ok at_ → timestamp at_ = true.
Proof.
  unfold chain_millis, check_timestamp. intros ([] & _ & H)%bind_Ok. apply bind_Ok in H as ([] & H & [= <-]).
  by destruct (timestamp _).
Qed.

(** ** The operations *)

Lemma classified_nonneg source row : fact_sane source row → 0 ≤ classified row.
Proof. intros [_ _ _ (a & _ & H1 & H2 & H3 & H4 & _)]. unfold classified. lia. Qed.

Definition breakdown_wf (parts : ExpenseBreakdown) : Prop :=
  0 ≤ eb_consumption_raw parts ∧ 0 ≤ eb_commission_raw parts ∧ 0 ≤ eb_burns_raw parts ∧ 0 ≤ eb_unused_capacity_raw parts.

Lemma breakdown_total parts total : ExpenseBreakdown_total parts = Ok total →
  total = eb_consumption_raw parts + eb_commission_raw parts + eb_burns_raw parts + eb_unused_capacity_raw parts.
Proof.
  unfold ExpenseBreakdown_total. intros H%ok_or_Ok. apply obind_Some in H as (a & [-> _]%checked_add_Some & H).
  apply obind_Some in H as (b & [-> _]%checked_add_Some & [-> _]%checked_add_Some). done.
Qed.

Lemma classify_sane source parts db db' : facts_sane db → breakdown_wf parts →
  classify_expense source parts db = Ok db' → facts_sane db'.
Proof.
  intros Hdb (Hw1 & Hw2 & Hw3 & Hw4) H. unfold classify_expense in H. apply bind_Ok in H as (row & Hrow%ok_or_Ok & H).
  apply obind_Some in Hrow as (row' & Hrow & Hop). destruct (bool_decide (fa_kind row' = KOperational)); [done|].
  injection Hop as ->. apply bind_Ok in H as (amount & Ha & H). destruct amount as [a|]; [|by injection H as <-].
  apply bind_Ok in H as (total & ->%breakdown_total & H). apply bind_Ok in H as ([] & Htot%ensure_Ok%Z.leb_le & H).
  apply bind_Ok in H as ([] & Hprobe & H). apply bind_Ok in H as ([] & _ & H).
  set (same := _ && _) in H. destruct same; injection H as <-; [done|]. destruct (Hdb _ _ Hrow) as [Hs Ht Hp _].
  apply facts_sane_put; [done|]. constructor; [done..|]. exists (Some a). split; [exact Ha|].
  repeat split; try done. cbn. destruct (eb_probe_consumption_tokens parts) as [tokens|]; [|done].
  apply ensure_Ok in Hprobe. rewrite !andb_true_iff, bool_decide_eq_true, Z.gtb_lt, Z.leb_le, !Z.eqb_eq in Hprobe.
  destruct Hprobe as ((((((Hk & Hpos) & Htok) & Hc) & _) & _) & _). split; [done|]. split; [done|]. by exists a.
Qed.

Lemma new_accrual_sane source deal model at_ now n : source ≠ ""%string → timestamp at_ = true → 0 < n →
  fact_sane source (new_fact KAccrual (Some deal) (Some model) at_ now None None None (Some n)).
Proof.
  intros Hs Ht Hn. constructor; [done..|]. exists (Some n). split; [done|]. apply class_ok_new. cbn. lia.
Qed.

Lemma accruals_sane deal model prior now facts db db' :
  facts_sane db → apply_accruals timestamp deal model prior now facts db = Ok db' → facts_sane db'.
Proof.
  revert db. induction facts as [|fact facts IH]; intros db Hdb H; cbn [apply_accruals] in H; [by injection H as <-|].
  apply bind_Ok in H as (db1 & H1 & H). apply (IH db1); [|done]. unfold apply_accrual in H1.
  apply bind_Ok in H1 as ([] & Hs%ensure_Ok & H1). apply bind_Ok in H1 as ([] & Hn%ensure_Ok%Z.gtb_lt & H1).
  apply bind_Ok in H1 as (at_ & Ht%chain_millis_timestamp & H1).
  destruct (db_money_facts db !! _); apply bind_Ok in H1 as ([] & _ & [= <-]); [done|].
  apply facts_sane_put; [done|]. apply new_accrual_sane; [|done..]. intros E. by rewrite E in Hs.
Qed.

(** A settlement row of these credits and residual, whose amount was not classified before. *)
Lemma settlement_sane source row residual : source ≠ ""%string → timestamp (fa_occurred_at row) = true →
  fa_kind row = KSettlement → fa_buyer_credit_raw row = None ∨ fa_spent_raw row = Some residual ∧ 0 ≤ residual →
  (is_Some (fa_buyer_credit_raw row) ↔ is_Some (fa_spent_raw row)) →
  (∀ amount, 0 ≤ unwrap_or 0 amount → class_ok row amount) → fact_sane source row.
Proof.
  intros Hs Ht Hk Hr Hp Hc. constructor; [done..|]. destruct Hr as [Hr|[Hr H0]].
  - exists None. split; [by apply amount_unconfirmed|by apply Hc].
  - exists (Some residual). split; [apply amount_spent; [done|]; intros _; apply Hp; by eexists|by apply Hc].
Qed.

Lemma settlement_write_sane model now at_ fact db db' :
  facts_sane db → sf_source_id fact ≠ ""%string → settlement_checked timestamp db fact at_ →
  settlement_write model now at_ fact db = Ok db' → facts_sane db'.
Proof.
  intros Hdb Hs [Ht _ _ Hcr] H. apply chain_millis_timestamp in Ht. unfold settlement_write in H.
  assert (∀ c, sf_buyer_credit_raw fact = Some c → residual_of db fact
    = Some (sf_escrow_raw fact + sf_buyer_bond_raw fact - c - accrued db (sf_deal_id fact)) ∧
    0 ≤ sf_escrow_raw fact + sf_buyer_bond_raw fact - c - accrued db (sf_deal_id fact)) as Hres.
  { intros c Hc. unfold residual_of. rewrite Hc. split; [done|]. specialize (Hcr c Hc). lia. }
  destruct (db_money_facts db !! sf_source_id fact) as [old|] eqn:Hold.
  - apply bind_Ok in H as ([] & Hm%ensure_Ok & H). apply bind_Ok in H as ([] & _ & H).
    destruct (bool_decide (fa_spent_raw old = None) && _) eqn:Hup; injection H as <-; [|done].
    apply andb_true_iff in Hup as [Hn%bool_decide_eq_true [c Hc]%bool_decide_eq_true].
    rewrite !andb_true_iff, !bool_decide_eq_true in Hm. destruct Hm as (((((Hk & _) & _) & _) & _) & _).
    destruct (Hdb _ _ Hold) as [_ Ht' Hp (a & Ha & Hcl)]. destruct (Hres c Hc) as [Er H0].
    assert (fa_buyer_credit_raw old = None) as Hoc.
    { destruct (fa_buyer_credit_raw old) as [c'|] eqn:Eo; [|done]. destruct (proj1 (Hp Hk)) as [? ?]; [by eexists|congruence]. }
    rewrite (amount_unconfirmed old Hk Hoc) in Ha. injection Ha as <-.
    apply facts_sane_put; [done|]. eapply settlement_sane with (residual := _); try done.
    + right. split; [exact Er|done].
    + intros amount Hamount. destruct Hcl as (H1 & H2 & H3 & H4 & H5 & H6). unfold classified in H5. cbn in H5.
      repeat split; try done; [unfold classified; cbn; lia|]. cbn. destruct (fa_probe_consumption_tokens old); [|done].
      destruct H6 as (_ & _ & ? & [=] & _).
  - apply bind_Ok in H as ([] & _ & [= <-]). apply facts_sane_put; [done|].
    destruct (sf_buyer_credit_raw fact) as [c|] eqn:Hc.
    + destruct (Hres c eq_refl) as [Er H0]. eapply settlement_sane; try done. by right.
    + eapply (settlement_sane _ _ 0); try done; [by left|]. cbn. unfold residual_of. by rewrite Hc.
Qed.

Lemma expenses_sane deal accruals settlement now db db' :
  facts_ok db → facts_sane db → Forall accrual_wf accruals → (∀ fact, settlement = Some fact → settlement_wf fact) →
  apply_deal_expenses_in timestamp deal accruals settlement now db = Ok db' → facts_sane db'.
Proof.
  intros Hok Hsane Hwa Hws H. unfold apply_deal_expenses_in in H. apply bind_Ok in H as (model & _ & H).
  apply bind_Ok in H as ([] & _ & H). apply bind_Ok in H as (db1 & Hacc & H).
  destruct (apply_accruals_ok timestamp deal model _ now accruals db db1 Hwa (facts_ok_weaken deal db Hok)
    (unconfirmed_is_open deal db Hok) Hacc) as (Hok1 & _).
  pose proof (accruals_sane _ _ _ _ _ _ _ Hsane Hacc) as Hsane1.
  destruct settlement as [fact|]; [|by injection H as <-].
  apply bind_Ok in H as ([] & _ & H). apply (apply_settlement_Ok timestamp _ _ _ _ _ _ Hok1 (Hws _ eq_refl)) in H
    as (Hne & at_ & db2 & Hck & Hw & ->).
  apply (facts_sane_same db2); [apply close_rows_facts|]. by eapply settlement_write_sane.
Qed.

Lemma operational_sane fact now db db' : 0 ≤ of_spent_raw fact → facts_sane db →
  apply_operational_expense timestamp fact now db = Ok db' → facts_sane db'.
Proof.
  intros H0 Hdb H. unfold apply_operational_expense in H. apply bind_Ok in H as ([] & Hs%ensure_Ok & H).
  assert (of_source_id fact ≠ ""%string) as Hne by (intros E; by rewrite E in Hs).
  apply bind_Ok in H as (at_ & Ht%chain_millis_timestamp & H).
  destruct (db_money_facts db !! of_source_id fact) as [old|] eqn:Hold.
  - apply bind_Ok in H as ([] & _ & H). destruct (_ && _); injection H as <-; [|done].
    apply facts_sane_put; [done|]. destruct (Hdb _ _ Hold) as [H1 H2 H3 H4]. by constructor.
  - injection H as <-. apply facts_sane_put; [done|]. constructor; try done.
    exists (Some (of_spent_raw fact)). split; [done|]. by apply class_ok_new.
Qed.
End Class.
