(* ===== verification/UsageFacts.v ===== *)
(** * The financial facts, page by page

    crates/dexdo/src/buyer/usage_facts.rs: keyset pages over the confirmed facts of one
    unchanged revision of the tables.  The RFC 3339 reader and the printer of a time (chrono)
    and the codec of a cursor (serde_json and hex) are parameters; a time is the number of
    nanoseconds since the epoch.

    The second part shows that following the cursors gives every confirmed fact exactly once. *)
From S2P Require Import Prelude RustText Params UsageData UsageRequests UsageMoney.
From S2P Require Import UsageMoneyInv UsageReplay.

Definition BUYER_USAGE_FACTS_DEFAULT_LIMIT : Z := 100.
Definition BUYER_USAGE_FACTS_MIN_LIMIT : Z := 1.
Definition BUYER_USAGE_FACTS_MAX_LIMIT : Z := 1000.
Definition BUYER_USAGE_FACTS_MAX_CURSOR_BYTES : Z := 4096.

Record UsageFactsQuery : Type := {
  fq_from : option string; fq_to : option string; fq_limit : option Z; fq_cursor : option string;
}.

(** A position in the order of the facts: the time in milliseconds and the source. *)
Definition fact_key : Type := Z * string.

Record FactsCursor : Type := {
  fc_store : string; fc_network : string; fc_revision : Z; fc_complete : bool;
  fc_from : option Z; fc_to : option Z; fc_after : fact_key;
}.

Record PaidProbeConsumption : Type := { pp_accepted_tokens : string; pp_tick_size : string }.
Record UsageFact : Type := {
  uf_network : string; uf_source_id : string; uf_amount : string; uf_cost : string;
  uf_paid_probe : option PaidProbeConsumption; uf_occurred_at : string; uf_model : option string;
}.
Record UsageFacts : Type := { ufs_complete : bool; ufs_next_cursor : option string; ufs_facts : list UsageFact }.

(** An error, and the one the caller answers by starting again without a cursor. *)
Inductive FactsError : Type := FactsFailed (message : text) | UsageFactsCursorExpired.

(** [fn shell] of usage.rs. *)
Definition shell (raw : Z) : string :=
  let whole := raw / SHELL_UNIT in
  let remainder := raw mod SHELL_UNIT in
  if remainder =? 0 then to_string whole
  else to_string whole +:+ "." +:+ drop_trailing_zeros (pad_zero 9 remainder).

(** The order of the rows: by time, then by the bytes of the source. *)
Definition key_le (a b : fact_key) : Prop := a.1 < b.1 ∨ a.1 = b.1 ∧ str_le a.2 b.2.
#[export] Instance key_le_dec : RelDecision key_le.
Proof. intros a b. unfold key_le. apply _. Defined.
(** SQL's row value comparison [a > b]. *)
Definition key_gt (a b : fact_key) : bool := negb (bool_decide (key_le a b)).

Definition row_key (kv : string * FactRow) : fact_key := (fa_occurred_at kv.2, kv.1).
Definition row_before (a b : string * FactRow) : Prop := key_le (row_key a) (row_key b).
#[export] Instance row_before_dec : RelDecision row_before.
Proof. intros a b. unfold row_before. apply _. Defined.

(** [kind!='settlement' OR (spent_raw IS NOT NULL AND buyer_credit_raw IS NOT NULL)]. *)
Definition eligible (row : FactRow) : bool :=
  negb (bool_decide (fa_kind row = KSettlement))
  || (bool_decide (is_Some (fa_spent_raw row)) && bool_decide (is_Some (fa_buyer_credit_raw row))).

(** [FACTS_PAGE_SQL] without its [LIMIT]. *)
Definition facts_page_rows (db : UsageDb) (after : fact_key) (until : Z) : list (string * FactRow) :=
  List.filter (λ kv, key_gt (row_key kv) after && (fa_occurred_at kv.2 <? until) && eligible kv.2)
    (merge_sort row_before (map_to_list (db_money_facts db))).

Definition facts_complete (db : UsageDb) : bool :=
  negb (existsb (λ kv : string * DealRow, negb (String.eqb (dl_status kv.2) "settled") || negb (dl_operations_complete kv.2))
         (map_to_list (db_deals db)))
  && negb (existsb (λ kv : string * NoteRow, negb (no_complete kv.2)) (map_to_list (db_note_operations db)))
  && negb (existsb (λ kv : string * FactRow, bool_decide (fa_kind kv.2 = KSettlement) && bool_decide (fa_spent_raw kv.2 = None))
         (map_to_list (db_money_facts db))).

Section Facts.
Context (parse_from_rfc3339 : string → option Z) (iso : Z → string).
Context (encode_cursor : FactsCursor → string) (decode_cursor : string → option FactsCursor).
Context (store network : string).

(** The first millisecond that is not before an instant. *)
Definition instant_millis (at_ : Z) : Z := at_ / 1000000 + (if is_multiple_of at_ 1000000 then 0 else 1).

Definition facts_bounds (q : UsageFactsQuery) : Result text (option Z * option Z) :=
  let parse (txt : option string) :=
    transpose (option_map (λ txt, ok_or (parse_from_rfc3339 txt) f["usage facts from/to must be RFC3339 timestamps"]) txt) in
  let? from := parse (fq_from q) in
  let? to := parse (fq_to q) in
  ensure (match from, to with Some from, Some to => from <? to | _, _ => true end) f["usage facts from must precede to"] ;?
  Ok (option_map instant_millis from, option_map instant_millis to).

Definition page_limit (q : UsageFactsQuery) : Result text Z :=
  let limit := unwrap_or BUYER_USAGE_FACTS_DEFAULT_LIMIT (fq_limit q) in
  ensure ((BUYER_USAGE_FACTS_MIN_LIMIT <=? limit) && (limit <=? BUYER_USAGE_FACTS_MAX_LIMIT))
    f["usage facts limit must be between "; BUYER_USAGE_FACTS_MIN_LIMIT; " and "; BUYER_USAGE_FACTS_MAX_LIMIT] ;?
  Ok limit.

Definition check_cursor (q : UsageFactsQuery) (encoded : string) : Result text FactsCursor :=
  ensure (Z.of_nat (String.length encoded) <=? BUYER_USAGE_FACTS_MAX_CURSOR_BYTES) f["usage facts cursor is too long"] ;?
  let? cursor := ok_or (decode_cursor encoded) f["invalid usage facts cursor"] in
  let? '(from, to) := facts_bounds q in
  ensure (bool_decide (fc_from cursor = from) && bool_decide (fc_to cursor = to)) f["usage facts cursor filters changed"] ;?
  ensure (negb (String.eqb (fc_after cursor).2 "") && (fc_revision cursor >=? 0)
          && match from with Some from => (fc_after cursor).1 >=? from | None => true end
          && match to with Some to => (fc_after cursor).1 <? to | None => true end)
    f["invalid usage facts cursor position"] ;?
  Ok cursor.
Definition decoded_cursor (q : UsageFactsQuery) : Result text (option FactsCursor) :=
  transpose (option_map (check_cursor q) (fq_cursor q)).

Definition UsageFactsQuery_validate (q : UsageFactsQuery) : Result text () :=
  let? _b := facts_bounds q in let? _l := page_limit q in let? _c := decoded_cursor q in Ok ().

(** One row of a page. *)
Definition read_fact (source_id : string) (row : FactRow) : Result text UsageFact :=
  let? amount := fact_amount row in
  let? amount := ok_or amount f["eligible financial fact has no amount"] in
  let cost := if bool_decide (fa_kind row = KOperational) then 0 else fa_consumption_raw row in
  ensure (cost <=? amount) f["consumption exceeds confirmed expense"] ;?
  let? paid_probe := transpose (option_map (λ accepted,
    ensure (bool_decide (fa_kind row = KAccrual) && (amount >? 0) && (accepted <=? TICK_SIZE)
            && (cost =? paid_probe_cost amount accepted)) f["invalid paid probe consumption proof"] ;?
    Ok {| pp_accepted_tokens := to_string accepted; pp_tick_size := to_string TICK_SIZE |})
    (fa_probe_consumption_tokens row)) in
  Ok {| uf_network := network; uf_source_id := source_id; uf_amount := shell amount; uf_cost := shell cost;
        uf_paid_probe := paid_probe; uf_occurred_at := iso (fa_occurred_at row); uf_model := fa_model row |}.

(** The loop over the rows: the facts, whether a row was left, and the position it stopped at. *)
Fixpoint page_loop (limit : nat) (rows : list (string * FactRow)) (after : fact_key)
    : Result text (list UsageFact * bool * fact_key) :=
  match rows with
  | [] => Ok ([], false, after)
  | (source_id, row) :: rows =>
      match limit with
      | O => Ok ([], true, after)
      | S limit =>
          let? fact := read_fact source_id row in
          let? '(facts, has_more, after) := page_loop limit rows (fa_occurred_at row, source_id) in
          Ok (fact :: facts, has_more, after)
      end
  end.

Definition fail {A} (r : Result text A) : Result FactsError A := map_err FactsFailed r.
Definition anchor_exists (db : UsageDb) (key : fact_key) : bool :=
  match db_money_facts db !! key.2 with Some row => fa_occurred_at row =? key.1 | None => false end.

Definition facts (q : UsageFactsQuery) (db : UsageDb) : Result FactsError UsageFacts :=
  let? '(from, to) := fail (facts_bounds q) in
  let? limit := fail (page_limit q) in
  let? cursor := fail (decoded_cursor q) in
  let revision := db_facts_revision db in
  let complete := facts_complete db in
  (match cursor with
   | Some cursor =>
       if negb (String.eqb (fc_store cursor) store && String.eqb (fc_network cursor) network
                && (fc_revision cursor =? revision) && Bool.eqb (fc_complete cursor) complete)
          || negb (anchor_exists db (fc_after cursor))
       then Err UsageFactsCursorExpired else Ok ()
   | None => Ok ()
   end) ;?
  let after := match cursor with Some cursor => fc_after cursor | None => (unwrap_or (- 2 ^ 63) from, ""%string) end in
  let rows := take (S (Z.to_nat limit)) (facts_page_rows db after (unwrap_or (2 ^ 63 - 1) to)) in
  let? '(facts, has_more, after) := fail (page_loop (Z.to_nat limit) rows after) in
  Ok {| ufs_complete := complete;
        ufs_next_cursor := if has_more then Some (encode_cursor {|
          fc_store := store; fc_network := network; fc_revision := revision; fc_complete := complete;
          fc_from := from; fc_to := to; fc_after := after |}) else None;
        ufs_facts := facts |}.

(** A client that reads every page of an unchanged history. *)
Definition with_cursor (cursor : option string) (q : UsageFactsQuery) : UsageFactsQuery :=
  {| fq_from := fq_from q; fq_to := fq_to q; fq_limit := fq_limit q; fq_cursor := cursor |}.
Fixpoint traverse (fuel : nat) (q : UsageFactsQuery) (cursor : option string) (db : UsageDb)
    : option (Result FactsError (list UsageFact)) :=
  match fuel with
  | O => None
  | S fuel =>
      match facts (with_cursor cursor q) db with
      | Err e => Some (Err e)
      | Ok page =>
          match ufs_next_cursor page with
          | None => Some (Ok (ufs_facts page))
          | Some next => option_map (rmap (λ rest, ufs_facts page ++ rest)) (traverse fuel q (Some next) db)
          end
      end
  end.
End Facts.

(** * Following the cursors gives every confirmed fact exactly once

    The pages of an unchanged history concatenate to all its facts of the period, in the
    order of their times, and the last page comes after at most one page per fact. *)

#[local] Arguments umax : simpl never.

(** ** The order of the keys *)

#[export] Instance key_le_trans : Transitive key_le.
Proof.
  intros [t1 s1] [t2 s2] [t3 s3]. unfold key_le. cbn. intros [?|[-> ?]] [?|[-> ?]]; [left; lia|by left|by left|right].
  split; [done|]. by transitivity s2.
Qed.
#[export] Instance key_le_total : Total key_le.
Proof.
  intros [t1 s1] [t2 s2]. unfold key_le. cbn. destruct (Z.lt_trichotomy t1 t2) as [?|[->|?]]; [by left; left| |by right; left].
  destruct (total str_le s1 s2); [left|right]; by right.
Qed.
Lemma key_le_antisym a b : key_le a b → key_le b a → a = b.
Proof.
  destruct a as [t1 s1], b as [t2 s2]. unfold key_le. cbn. intros [?|[-> ?]] [?|[? ?]]; try lia. f_equal. by apply (anti_symm str_le).
Qed.
#[export] Instance row_before_trans : Transitive row_before.
Proof. intros a b c. apply key_le_trans. Qed.
#[export] Instance row_before_total : Total row_before.
Proof. intros a b. apply key_le_total. Qed.

Lemma key_gt_spec a b : key_gt a b = true ↔ ¬ key_le a b.
Proof. unfold key_gt. by rewrite negb_true_iff, bool_decide_eq_false. Qed.

(** ** What follows a position *)

Definition in_order (rows : list (string * FactRow)) : Prop :=
  StronglySorted row_before rows ∧ NoDup (map row_key rows).

Lemma in_order_cons row rows : in_order (row :: rows) → in_order rows ∧ ∀ other, other ∈ rows → key_gt (row_key other) (row_key row) = true.
Proof.
  intros [Hs Hn]. inversion Hs as [|? ? Hs' Hall]; subst. inversion Hn as [|? ? Hnot Hn']; subst. split; [by split|].
  intros other Hin. apply key_gt_spec. intros Hle. apply Hnot. rewrite Forall_forall in Hall.
  rewrite <- (key_le_antisym _ _ Hle (Hall _ Hin)). apply list_elem_of_In, in_map. by apply list_elem_of_In.
Qed.

Lemma key_le_self a : key_le a a.
Proof. right. split; [done|]. by destruct (total str_le a.2 a.2). Qed.

Lemma nothing_kept {A} (p : A → bool) l : (∀ x, x ∈ l → p x = false) → List.filter p l = [].
Proof.
  induction l as [|x l IH]; intros H; [done|]. cbn. rewrite (H x (list_elem_of_here _ _)). apply IH. intros y Hy. by apply H, list_elem_of_further.
Qed.
Lemma all_kept {A} (p : A → bool) l : (∀ x, x ∈ l → p x = true) → List.filter p l = l.
Proof.
  induction l as [|x l IH]; intros H; [done|]. cbn. rewrite (H x (list_elem_of_here _ _)). f_equal. apply IH. intros y Hy. by apply H, list_elem_of_further.
Qed.
Lemma filter_filter {A} (p q : A → bool) l : List.filter p (List.filter q l) = List.filter (λ x, q x && p x) l.
Proof. induction l as [|x l IH]; [done|]. cbn. destruct (q x); cbn; [destruct (p x); by rewrite IH|done]. Qed.

(** The rows after the last row of a prefix are the rest. *)
Lemma after_prefix pre row suffix : in_order (pre ++ row :: suffix) →
  List.filter (λ kv, key_gt (row_key kv) (row_key row)) (pre ++ row :: suffix) = suffix.
Proof.
  intros [Hs Hn]. rewrite List.filter_app. rewrite nothing_kept.
  - cbn. unfold key_gt at 1. rewrite bool_decide_eq_true_2 by apply key_le_self. cbn. apply all_kept.
    apply StronglySorted_app in Hs as (_ & _ & Hs). rewrite map_app in Hn. apply NoDup_app in Hn as (_ & _ & Hn).
    by apply (in_order_cons row suffix).
  - intros x Hx. unfold key_gt. rewrite bool_decide_eq_true_2; [done|].
    apply (StronglySorted_app_1_elem_of row_before pre (row :: suffix)); [done..|apply list_elem_of_here].
Qed.

Section Facts.
Context (timestamp : Z → bool).
(** chrono's dates lie well inside the range of an [i64]. *)
Context (timestamp_range : ∀ at_, timestamp at_ = true → - 2 ^ 63 ≤ at_ < 2 ^ 63 - 1).

Definition ordered_facts (db : UsageDb) : list (string * FactRow) := merge_sort row_before (map_to_list (db_money_facts db)).

Lemma elem_of_ordered db source row : (source, row) ∈ ordered_facts db ↔ db_money_facts db !! source = Some row.
Proof. unfold ordered_facts. by rewrite merge_sort_Permutation, elem_of_map_to_list. Qed.

Lemma ordered_in_order db : in_order (ordered_facts db).
Proof.
  split; [apply StronglySorted_merge_sort; apply _|]. unfold ordered_facts.
  assert (map row_key (merge_sort row_before (map_to_list (db_money_facts db))) ≡ₚ map row_key (map_to_list (db_money_facts db))) as ->
    by (apply Permutation_map, merge_sort_Permutation).
  pose proof (NoDup_fst_map_to_list (db_money_facts db)) as Hn.
  induction (map_to_list (db_money_facts db)) as [|kv l IH]; [constructor|]. cbn in *. inversion Hn as [|? ? Hnot Hn']; subst.
  constructor; [|by apply IH]. rewrite list_elem_of_In, in_map_iff. intros (other & E & Hin). apply Hnot.
  injection E as _ <-. apply list_elem_of_In, in_map. exact Hin.
Qed.

Lemma filter_sorted p rows : in_order rows → in_order (List.filter p rows).
Proof.
  induction rows as [|row rows IH]; [done|]. intros Hr. pose proof (in_order_cons row rows Hr) as [Hrows Hgt]. specialize (IH Hrows).
  cbn. destruct (p row); [|done]. destruct IH as [Hs Hn]. split.
  - constructor; [done|]. apply Forall_forall. intros x [Hx _]%list_elem_of_In%filter_In. destruct Hr as [Hr _].
    inversion Hr as [|? ? _ Hall]; subst. rewrite Forall_forall in Hall. by apply Hall, list_elem_of_In.
  - cbn. constructor; [|done]. rewrite list_elem_of_In, in_map_iff. intros (other & E & [Hin _]%filter_In).
    apply list_elem_of_In, Hgt in Hin. rewrite key_gt_spec, E in Hin. apply Hin, key_le_self.
Qed.

(** The facts of a period, as the query means it. *)
Definition facts_of_period (from to : option Z) (db : UsageDb) : list (string * FactRow) :=
  List.filter (λ kv, match from with Some from => from <=? fa_occurred_at kv.2 | None => true end
                     && match to with Some to => fa_occurred_at kv.2 <? to | None => true end && eligible kv.2) (ordered_facts db).

Lemma period_in_order from to db : in_order (facts_of_period from to db).
Proof. apply filter_sorted, ordered_in_order. Qed.

(** The first page starts before all of them. *)
Lemma first_page_rows from to db : facts_sane timestamp db →
  facts_page_rows db (unwrap_or (- 2 ^ 63) from, ""%string) (unwrap_or (2 ^ 63 - 1) to) = facts_of_period from to db.
Proof.
  intros Hdb. unfold facts_page_rows, facts_of_period. apply filter_ext_in. intros [source row] Hin.
  apply list_elem_of_In, elem_of_ordered in Hin. destruct (Hdb _ _ Hin) as [Hs Ht _ _]. apply timestamp_range in Ht. cbn [fst snd].
  f_equal. f_equal.
  - apply eq_true_iff_eq. rewrite key_gt_spec. unfold key_le, row_key. cbn.
    assert (¬ str_le source "") as Hne by (destruct source; [done|intros H; discriminate H]). destruct from as [from|]; cbn; [rewrite Z.leb_le|]; split; try done; try lia.
    + intros Hle [?|[? ?]]; [lia|done].
    + intros _ [?|[? ?]]; [lia|done].
  - destruct to as [to|]; cbn; [done|]. apply Z.ltb_lt. lia.
Qed.

(** A later page goes on after the row the previous one ended with. *)
Lemma next_page_rows from to db pre row suffix : facts_sane timestamp db →
  facts_of_period from to db = pre ++ row :: suffix →
  facts_page_rows db (row_key row) (unwrap_or (2 ^ 63 - 1) to) = suffix.
Proof.
  intros Hdb E. pose proof (period_in_order from to db) as Hord. rewrite E in Hord.
  rewrite <- (after_prefix pre row suffix Hord), <- E. unfold facts_page_rows, facts_of_period. rewrite filter_filter.
  apply filter_ext_in. intros [source r] Hin. apply list_elem_of_In, elem_of_ordered in Hin.
  destruct (Hdb _ _ Hin) as [_ Ht _ _]. apply timestamp_range in Ht. cbn [fst snd].
  destruct (key_gt (row_key (source, r)) (row_key row)) eqn:Hgt; [|by rewrite andb_false_r]. rewrite andb_true_r.
  assert (match from with Some from => from <=? fa_occurred_at r | None => true end = true) as ->.
  { destruct from as [from|]; [|done]. apply Z.leb_le. assert (row ∈ facts_of_period (Some from) to db) as Hrow.
    { rewrite E. apply elem_of_app. right. apply list_elem_of_here. }
    apply list_elem_of_In, filter_In in Hrow as [_ Hrow]. rewrite !andb_true_iff, Z.leb_le in Hrow. destruct Hrow as [[Hrow _] _].
    apply key_gt_spec in Hgt. unfold key_le, row_key in Hgt. cbn in Hgt.
    destruct (Z.le_gt_cases from (fa_occurred_at r)); [done|]. exfalso. apply Hgt. left. lia. }
  cbn. f_equal. destruct to as [to|]; cbn; [done|]. apply Z.ltb_lt. lia.
Qed.

(** ** One page *)

Context (parse_from_rfc3339 : string → option Z) (iso : Z → string).
Context (encode_cursor : FactsCursor → string) (decode_cursor : string → option FactsCursor).
Context (store network : string).

Abbreviation read := (read_fact iso network).
Abbreviation page := (facts parse_from_rfc3339 iso encode_cursor decode_cursor store network).

Lemma sane_fact_reads db source row : fact_sane timestamp source row → eligible row = true →
  db_money_facts db !! source = Some row → is_Some (result_ok (read source row)).
Proof.
  intros [_ _ Hp (amount & Ha & H1 & H2 & H3 & H4 & Hc & Hprobe)] He _. unfold read_fact. rewrite Ha. cbn [rbind].
  assert (∃ a, amount = Some a ∧ 0 ≤ a) as (a & -> & Ha0).
  { destruct amount as [a|]; [exists a; split; [done|]; unfold classified in Hc; cbn in Hc; lia|]. exfalso.
    unfold fact_amount in Ha. unfold eligible in He. destruct (fa_kind row).
    - cbn in He. apply andb_true_iff in He as [[s Es]%bool_decide_eq_true [c Ec]%bool_decide_eq_true]. rewrite Es, Ec in Ha. done.
    - by destruct (fa_spent_raw row).
    - by destruct (fa_spent_raw row). }
  cbn [ok_or rbind]. unfold classified in Hc. cbn in Hc.
  assert (((if bool_decide (fa_kind row = KOperational) then 0 else fa_consumption_raw row) <=? a) = true) as ->
    by (apply Z.leb_le; destruct (bool_decide _); lia).
  cbn [ensure rbind]. destruct (fa_probe_consumption_tokens row) as [tokens|]; [|by eexists].
  destruct Hprobe as (Hk & Ht & a' & [= <-] & Hpos & Hcost). cbn [option_map transpose].
  rewrite Hk, bool_decide_eq_true_2, bool_decide_eq_false_2 by done. rewrite (proj2 (Z.gtb_lt a 0)), (proj2 (Z.leb_le tokens TICK_SIZE)) by done.
  rewrite Hcost, Z.eqb_refl. cbn. by eexists.
Qed.

Definition last_key (after : fact_key) (rows : list (string * FactRow)) : fact_key := foldl (λ _ kv, row_key kv) after rows.
Definition shown (rows : list (string * FactRow)) (out : list UsageFact) : Prop := Forall2 (λ kv fact, read kv.1 kv.2 = Ok fact) rows out.

Lemma page_loop_spec limit rows after : (∀ source row, (source, row) ∈ rows → is_Some (result_ok (read source row))) →
  ∃ out, page_loop iso network limit rows after = Ok (out, (limit <? length rows)%nat, last_key after (take limit rows)) ∧
    shown (take limit rows) out.
Proof.
  revert limit after. induction rows as [|[source row] rows IH]; intros limit after H.
  { exists []. by destruct limit; cbn; split; try constructor. }
  destruct limit as [|limit]; cbn [page_loop]. { exists []. split; [done|constructor]. }
  destruct (H source row (list_elem_of_here _ _)) as [fact Hfact].
  destruct (read source row) as [fact'|] eqn:Er; [|done]. cbn [rbind].
  destruct (IH limit (fa_occurred_at row, source)) as (out & -> & Hout).
  { intros s r Hin. by apply H, list_elem_of_further. }
  exists (fact' :: out). split; [done|]. by constructor.
Qed.

(** The cursor the store issues for a position. *)
Definition cursor_at (from to : option Z) (db : UsageDb) (key : fact_key) : FactsCursor := {|
  fc_store := store; fc_network := network; fc_revision := db_facts_revision db; fc_complete := facts_complete db;
  fc_from := from; fc_to := to; fc_after := key |}.

Section Traversal.
Context (q : UsageFactsQuery) (db : UsageDb) (from to : option Z) (limit : Z).
Context (Hsane : facts_sane timestamp db) (Hrevision : 0 ≤ db_facts_revision db).
Context (Hbounds : facts_bounds parse_from_rfc3339 q = Ok (from, to)) (Hlimit : page_limit q = Ok limit).
(** What the codec does with the cursors of this history. *)
Context (Hcodec : ∀ key, anchor_exists db key = true →
  decode_cursor (encode_cursor (cursor_at from to db key)) = Some (cursor_at from to db key) ∧
  Z.of_nat (String.length (encode_cursor (cursor_at from to db key))) ≤ BUYER_USAGE_FACTS_MAX_CURSOR_BYTES).

Lemma limit_positive : (0 < Z.to_nat limit)%nat.
Proof.
  unfold page_limit in Hlimit. apply bind_Ok in Hlimit as ([] & Hl%ensure_Ok & [= <-]).
  apply andb_true_iff in Hl as [Hl _]. apply Z.leb_le in Hl. unfold BUYER_USAGE_FACTS_MIN_LIMIT in Hl. lia.
Qed.

Lemma elem_of_period source row : (source, row) ∈ facts_of_period from to db →
  db_money_facts db !! source = Some row ∧ eligible row = true ∧
  (∀ n, from = Some n → n ≤ fa_occurred_at row) ∧ (∀ n, to = Some n → fa_occurred_at row < n).
Proof.
  intros [Hin Hf]%list_elem_of_In%filter_In. apply list_elem_of_In, elem_of_ordered in Hin.
  rewrite !andb_true_iff in Hf. cbn in Hf. destruct Hf as [[Hf Ht] He]. split; [done|]. split; [done|].
  split; intros m E; [rewrite E in Hf; by apply Z.leb_le|rewrite E in Ht; by apply Z.ltb_lt].
Qed.

Lemma period_anchor row : row ∈ facts_of_period from to db → anchor_exists db (row_key row) = true.
Proof.
  destruct row as [source row]. intros (Hr & _)%elem_of_period. unfold anchor_exists. cbn. rewrite Hr. apply Z.eqb_refl.
Qed.

(** The store accepts the cursor it issued. *)
Lemma issued_cursor_decodes row : row ∈ facts_of_period from to db →
  check_cursor parse_from_rfc3339 decode_cursor q (encode_cursor (cursor_at from to db (row_key row)))
  = Ok (cursor_at from to db (row_key row)).
Proof.
  intros Hin. destruct (Hcodec _ (period_anchor row Hin)) as [Hdec Hlen]. unfold check_cursor.
  rewrite (proj2 (Z.leb_le _ _) Hlen), Hdec, Hbounds. cbn [ensure rbind ok_or fc_from fc_to fc_revision fc_after cursor_at].
  rewrite !bool_decide_eq_true_2 by done. cbn [andb ensure rbind]. destruct row as [source row].
  destruct (elem_of_period _ _ Hin) as (Hr & _ & Hfrom & Hto). destruct (Hsane _ _ Hr) as [Hs _ _ _]. cbn [row_key fst snd].
  destruct (String.eqb_spec source "") as [|Hne]; [done|]. rewrite (proj2 (Z.geb_le _ 0) Hrevision). cbn [negb andb].
  destruct from as [n|]; [rewrite (proj2 (Z.geb_le _ _) (Hfrom n eq_refl))|];
    (destruct to as [m|]; [rewrite (proj2 (Z.ltb_lt _ _) (Hto m eq_refl))|]); done.
Qed.

(** How far the pages got: [seen] was shown, and the cursor stands behind its last fact. *)
Inductive position : list (string * FactRow) → option string → Prop :=
| at_start : position [] None
| behind seen row : position (seen ++ [row]) (Some (encode_cursor (cursor_at from to db (row_key row)))).

Lemma period_reads (rows : list (string * FactRow)) source row : (∀ kv, kv ∈ rows → kv ∈ facts_of_period from to db) → (source, row) ∈ rows →
  is_Some (result_ok (read source row)).
Proof.
  intros Hsub Hin. apply Hsub, elem_of_period in Hin as (Hr & He & _). by eapply sane_fact_reads; [apply Hsane| |].
Qed.

Lemma facts_page seen rest cursor : facts_of_period from to db = seen ++ rest → position seen cursor →
  ∃ out after, page (with_cursor cursor q) db = Ok {|
    ufs_complete := facts_complete db;
    ufs_next_cursor := if (Z.to_nat limit <? length rest)%nat
      then Some (encode_cursor (cursor_at from to db (last_key after (take (Z.to_nat limit) rest)))) else None;
    ufs_facts := out |} ∧ shown (take (Z.to_nat limit) rest) out.
Proof.
  intros E Hpos. unfold facts. change (facts_bounds parse_from_rfc3339 (with_cursor cursor q)) with (facts_bounds parse_from_rfc3339 q).
  change (page_limit (with_cursor cursor q)) with (page_limit q). rewrite Hbounds, Hlimit. cbn [fail map_err rbind].
  assert (∃ current after, decoded_cursor parse_from_rfc3339 decode_cursor (with_cursor cursor q) = Ok current ∧
    match current with
    | Some c => c = cursor_at from to db after ∧ anchor_exists db after = true
    | None => after = (unwrap_or (- 2 ^ 63) from, ""%string)
    end ∧ facts_page_rows db after (unwrap_or (2 ^ 63 - 1) to) = rest) as (current & after & -> & Hcur & Hrows).
  { destruct Hpos as [|seen row].
    - eexists None, _. split; [done|]. split; [done|]. by rewrite (first_page_rows from to db Hsane).
    - rewrite <- app_assoc in E. cbn [app] in E. exists (Some (cursor_at from to db (row_key row))), (row_key row).
      assert (row ∈ facts_of_period from to db) as Hin by (rewrite E; apply elem_of_app; right; apply list_elem_of_here).
      split; [|split; [split; [done|by apply period_anchor]|by apply (next_page_rows from to db seen row rest)]].
      unfold decoded_cursor. cbn [option_map with_cursor fq_cursor transpose].
      change (check_cursor _ _ (with_cursor _ q) ?c) with (check_cursor parse_from_rfc3339 decode_cursor q c).
      by rewrite issued_cursor_decodes. }
  cbn [fail map_err rbind].
  assert ((match current with
    | Some c => if negb (String.eqb (fc_store c) store && String.eqb (fc_network c) network
                && (fc_revision c =? db_facts_revision db) && Bool.eqb (fc_complete c) (facts_complete db))
          || negb (anchor_exists db (fc_after c)) then Err UsageFactsCursorExpired else Ok ()
    | None => Ok () end) = Ok ()) as ->.
  { destruct current as [c|]; [|done]. destruct Hcur as [-> Hanchor]. cbn [fc_store fc_network fc_revision fc_complete fc_after cursor_at].
    by rewrite !String.eqb_refl, Z.eqb_refl, Bool.eqb_reflx, Hanchor. }
  cbn [rbind]. assert (match current with Some c => fc_after c | None => (unwrap_or (- 2 ^ 63) from, ""%string) end = after) as ->
    by (destruct current as [c|]; [by destruct Hcur as [-> _]|done]).
  rewrite Hrows. destruct (page_loop_spec (Z.to_nat limit) (take (S (Z.to_nat limit)) rest) after) as (out & -> & Hout).
  { intros source row Hin. eapply period_reads; [|exact Hin]. intros kv Hkv. rewrite E. apply elem_of_app. right.
    rewrite <- (take_drop (S (Z.to_nat limit)) rest). apply elem_of_app. by left. }
  rewrite take_take, Nat.min_l in * by lia. cbn [fail map_err rbind]. exists out, after. split; [|done]. repeat f_equal.
  rewrite length_take. destruct (Nat.ltb_spec (Z.to_nat limit) (length rest)) as [Hl|Hl].
  - by rewrite (proj2 (Nat.ltb_lt _ _)) by lia.
  - by rewrite (proj2 (Nat.ltb_ge _ _)) by lia.
Qed.

Lemma last_key_snoc after rows row : last_key after (rows ++ [row]) = row_key row.
Proof. unfold last_key. by rewrite foldl_app. Qed.

(** The rest of the traversal from a position. *)
Lemma traverse_from fuel seen rest cursor :
  facts_of_period from to db = seen ++ rest → position seen cursor → (length rest < fuel)%nat →
  ∃ out, traverse parse_from_rfc3339 iso encode_cursor decode_cursor store network fuel q cursor db = Some (Ok out) ∧ shown rest out.
Proof.
  revert seen rest cursor. induction fuel as [|fuel IH]; intros seen rest cursor E Hpos Hfuel; [lia|].
  cbn [traverse]. destruct (facts_page seen rest cursor E Hpos) as (out & after & -> & Hout). cbn [ufs_next_cursor ufs_facts].
  destruct (Nat.ltb_spec (Z.to_nat limit) (length rest)) as [Hl|Hl].
  - pose proof limit_positive as Hpl. set (n := Z.to_nat limit) in *.
    assert (∃ front row, take n rest = front ++ [row]) as (front & row & Ht).
    { destruct (exists_last (l := take n rest)) as (front & row & ->); [|by exists front, row].
      intros Hn. apply (f_equal length) in Hn. rewrite length_take in Hn. cbn in Hn. lia. }
    rewrite Ht, last_key_snoc.
    destruct (IH (seen ++ take n rest) (drop n rest) (Some (encode_cursor (cursor_at from to db (row_key row))))) as (more & -> & Hmore).
    + by rewrite <- app_assoc, take_drop.
    + rewrite Ht, app_assoc. constructor.
    + rewrite length_drop. lia.
    + exists (out ++ more). split; [done|]. rewrite <- (take_drop n rest). by apply Forall2_app.
  - exists out. split; [done|]. rewrite take_ge in Hout by lia. done.
Qed.

(** A client that follows the cursors of an unchanged history always comes to an end, after
    at most one page more than there are facts, and has then seen every confirmed fact of the
    period exactly once, ordered by time: no page fails, repeats a fact or leaves one out. *)
Lemma traverse_all fuel : (length (facts_of_period from to db) < fuel)%nat →
  ∃ out, traverse parse_from_rfc3339 iso encode_cursor decode_cursor store network fuel q None db = Some (Ok out) ∧
    shown (facts_of_period from to db) out ∧ in_order (facts_of_period from to db).
Proof.
  intros Hfuel. destruct (traverse_from fuel [] (facts_of_period from to db) None) as (out & Ht & Hout); [done|constructor|done|].
  exists out. split; [done|]. split; [done|apply period_in_order].
Qed.
End Traversal.
End Facts.
