(* ===== verification/UsageFrame.v ===== *)
(** * Which tables an operation of the usage history writes

    The invariants of the requests and those of the money read disjoint tables, so each
    operation is shown once to leave the other side alone. *)
From S2P Require Import Prelude RustText Params UsageData UsageRequests UsageTotals UsageConsumption UsageMoney UsageMoneyInv.

#[local] Arguments umax : simpl never.

(** Operations on requests and their counters. *)
Definition only_requests (db db' : UsageDb) : Prop := ∃ requests calls models deals,
  db' = set_db_admission_deals deals (set_db_admission_models models (set_db_request_usage calls (set_db_requests requests db))).
Lemma only_requests_refl db : only_requests db db.
Proof. exists (db_requests db), (db_request_usage db), (db_admission_models db), (db_admission_deals db). by destruct db. Qed.
Lemma only_requests_trans db1 db2 db3 : only_requests db1 db2 → only_requests db2 db3 → only_requests db1 db3.
Proof. intros (a & b & c & d & ->) (e & f & g & h & ->). by exists e, f, g, h. Qed.
Lemma put_request_only request row db : only_requests db (put_request request row db).
Proof. by exists (<[request := row]> (db_requests db)), (db_request_usage db), (db_admission_models db), (db_admission_deals db). Qed.
Lemma put_calls_only request calls db : only_requests db (put_calls request calls db).
Proof. by exists (db_requests db), (<[request := calls]> (db_request_usage db)), (db_admission_models db), (db_admission_deals db). Qed.
#[export] Hint Resolve only_requests_refl put_request_only put_calls_only : core.

(** The counters fit their columns, and an update keeps it so. *)
Definition deals_fit (db : UsageDb) : Prop := ∀ deal, read_deal db deal ≤ umax u128.

Lemma update_totals_frame db request before db' : update_totals_in db request before = Ok db' →
  only_requests db db' ∧ db_request_usage db' = db_request_usage db ∧ (deals_fit db → deals_fit db').
Proof.
  unfold update_totals_in. intros H. apply bind_Ok in H as (after & _ & H). destruct (bool_decide _); [by injection H as <-|].
  do 5 (apply bind_Ok in H as (? & _ & H)). set (db1 := set_db_admission_models _ db) in H.
  assert (only_requests db db1) as H1 by (exists (db_requests db), (db_request_usage db), (db_admission_models db1), (db_admission_deals db); by destruct db).
  destruct (rt_deal after) as [deal|]; [|by injection H as <-].
  apply bind_Ok in H as (rest & _ & H). apply bind_Ok in H as (total & Ht & [= <-]).
  split; [|split; [done|]].
  - apply (only_requests_trans _ db1); [done|].
    exists (db_requests db1), (db_request_usage db1), (db_admission_models db1), (<[deal := total]> (db_admission_deals db1)).
    by destruct db.
  - intros Hfit d. rewrite (read_deal_insert db1). destruct (String.eqb deal d); [|apply Hfit].
    unfold counter_add in Ht. apply ok_or_Ok, checked_add_Some in Ht as [-> ?]. done.
Qed.

(** What the operations on requests keep. *)
Record request_step (db db' : UsageDb) : Prop := {
  rs_only : only_requests db db';
  rs_fit : deals_fit db → deals_fit db';
  rs_charges : charges_nonneg db → charges_nonneg db';
}.
Lemma request_step_refl db : request_step db db.
Proof. by constructor. Qed.
#[export] Hint Resolve request_step_refl : core.

Lemma update_step db db1 request before db' : only_requests db db1 → db_admission_deals db1 = db_admission_deals db →
  (charges_nonneg db → charges_nonneg db1) → update_totals_in db1 request before = Ok db' → request_step db db'.
Proof.
  intros Ho Hd Hc (Ho' & Hu & Hf)%update_totals_frame. constructor.
  - by eapply only_requests_trans.
  - intros Hfit. apply Hf. intros deal. unfold read_deal. rewrite Hd. apply Hfit.
  - intros Hn r k row. unfold calls_of. rewrite Hu. by apply Hc.
Qed.

(** Writing the request row keeps its calls. *)
Lemma update_row_step db request row before db' :
  update_totals_in (put_request request row db) request before = Ok db' → request_step db db'.
Proof. by apply update_step. Qed.

Lemma put_calls_charges db request calls : charges_nonneg db → (∀ key row, calls !! key = Some row → 0 ≤ us_charged_tokens row) →
  charges_nonneg (put_calls request calls db).
Proof.
  intros Hn Hc r key row. rewrite calls_of_put. destruct (decide (request = r)); [apply Hc|apply Hn].
Qed.

Lemma start_request_step timestamp runtime request model protocol streamed at_ms db db' :
  start_request_at timestamp runtime request model protocol streamed at_ms db = Ok db' → request_step db db'.
Proof.
  unfold start_request_at. destruct (String.eqb request ""); [done|]. intros H. apply bind_Ok in H as ([] & _ & H).
  destruct (db_requests db !! request); [destruct (_ && _); [by injection H as <-|done]|by eapply update_row_step].
Qed.

Lemma link_deal_step request deal db db' : link_deal request deal db = Ok db' → request_step db db'.
Proof.
  unfold link_deal. intros H. apply bind_Ok in H as (before & _ & H). apply bind_Ok in H as (row & _ & H).
  set (conflict := match rq_deal_id row with Some _ => _ | None => _ end) in H. destruct conflict; [done|].
  eapply update_step; [| | |exact H]; [|done|].
  - eapply only_requests_trans; [apply put_request_only|apply put_calls_only].
  - intros Hn. apply put_calls_charges; [done|]. intros key us. change (calls_of (put_request _ _ db) request) with (calls_of db request).
    intros (old & <- & Ho)%lookup_fmap_Some. by apply (Hn request key old).
Qed.

Lemma set_request_streamed_step request streamed db db' : set_request_streamed request streamed db = Ok db' → request_step db db'.
Proof. unfold set_request_streamed. intros (row & _ & [= <-])%bind_Ok. by constructor. Qed.

(** A billing record with unsigned counts. *)
Definition usage_wf (usage : BillingUsage) : Prop :=
  0 ≤ bu_total_tokens usage ∧ ∀ n, bu_charged_tokens usage = Some n → 0 ≤ n.

Lemma billable_nonneg usage : usage_wf usage → 0 ≤ billable_tokens usage.
Proof.
  intros [Ht Hc]. unfold billable_tokens. destruct (bu_charged_tokens usage) as [n|]; [by apply Hc|].
  unfold non_cached_tokens, saturating_sub. cbn. lia.
Qed.

Lemma record_call_step request phase call usage accepted now db db' : usage_wf usage →
  record_call_usage request phase call usage accepted now db = Ok db' → request_step db db'.
Proof.
  intros Hwf%billable_nonneg. unfold record_call_usage. destruct (negb _); [done|]. destruct (String.eqb call ""); [done|].
  intros H. apply bind_Ok in H as ([] & _ & H). apply bind_Ok in H as (before & _ & H). apply bind_Ok in H as (calls & Hcalls & H).
  eapply update_step; [| | |exact H]; [auto|done|]. intros Hn. apply put_calls_charges; [done|].
  assert (∀ key row, calls !! key = Some row → 0 ≤ us_charged_tokens row) as Hnn.
  { destruct (calls_of db request !! (phase, call)) as [old|] eqn:Hold.
    - destruct (negb _); [done|]. destruct (accepted && _); injection Hcalls as <-; [|apply Hn].
      intros key row [[<- <-]|[_ Hr]]%lookup_insert_Some; [by apply (Hn _ _ _ Hold)|by eapply Hn].
    - injection Hcalls as <-. intros key row [[<- <-]|[_ Hr]]%lookup_insert_Some; [done|by eapply Hn]. }
  destruct (accepted && _); [|exact Hnn]. destruct (calls !! (phase, IN_PROGRESS)) as [marker|] eqn:Hm; [|exact Hnn].
  intros key row [[<- <-]|[_ Hr]]%lookup_insert_Some; [by apply (Hnn _ _ Hm)|by eapply Hnn].
Qed.

Lemma mark_history_step request db db' : mark_request_history_incomplete request db = Ok db' → request_step db db'.
Proof.
  unfold mark_request_history_incomplete. intros H. apply bind_Ok in H as (before & _ & H). apply bind_Ok in H as (row & _ & H).
  by eapply update_row_step.
Qed.

Lemma finish_request_step timestamp request status reason stage at_ms db db' :
  finish_request_at timestamp request status reason stage at_ms db = Ok db' → request_step db db'.
Proof.
  unfold finish_request_at. intros H. apply bind_Ok in H as ([] & _ & H). apply bind_Ok in H as (before & _ & H).
  apply bind_Ok in H as (row & _ & H). destruct (negb _); [done|]. destruct (bool_decide (is_Some _)).
  - set (same := _ && _ && _) in H. destruct same; [by injection H as <-|done].
  - by eapply update_row_step.
Qed.

Lemma recover_step runtime db : request_step db (recover_interrupted_requests runtime db).1.
Proof.
  constructor; [|done|done]. exists (interrupt_row runtime <$> db_requests db), (db_request_usage db), (db_admission_models db), (db_admission_deals db).
  by destruct db.
Qed.

(** Operations on deals and notes write neither side. *)
Definition only_marks (db db' : UsageDb) : Prop := ∃ deals notes, db' = set_db_note_operations notes (set_db_deals deals db).
Lemma only_marks_refl db : only_marks db db.
Proof. exists (db_deals db), (db_note_operations db). by destruct db. Qed.
Lemma put_deal_only deal row db : only_marks db (put_deal deal row db).
Proof. exists (<[deal := row]> (db_deals db)), (db_note_operations db). by destruct db. Qed.
Lemma put_note_only note complete reason now db : only_marks db (put_note note complete reason now db).
Proof. exists (db_deals db), (db_note_operations (put_note note complete reason now db)). by destruct db. Qed.
#[export] Hint Resolve only_marks_refl put_deal_only put_note_only : core.

Lemma register_deal_only deal model now db db' : register_deal deal model now db = Ok db' → only_marks db db'.
Proof. unfold register_deal. destruct (db_deals db !! deal); [destruct (String.eqb _ _); [|done]|]; intros [= <-]; auto. Qed.
Lemma mark_deal_only deal reason db db' : mark_deal_incomplete deal reason db = Ok db' → only_marks db db'.
Proof. unfold mark_deal_incomplete. intros H. apply bind_Ok in H as ([] & _ & H). apply bind_Ok in H as (row & _ & [= <-]). auto. Qed.
Lemma mark_operations_only deal reason db db' : mark_operations_incomplete deal reason db = Ok db' → only_marks db db'.
Proof. unfold mark_operations_incomplete. intros H. apply bind_Ok in H as ([] & _ & H). apply bind_Ok in H as (row & _ & [= <-]). auto. Qed.
Lemma operations_complete_only deal db db' : mark_operations_complete deal db = Ok db' → only_marks db db'.
Proof. unfold mark_operations_complete. intros H. apply bind_Ok in H as (row & _ & [= <-]). auto. Qed.
Lemma note_incomplete_only note reason now db db' : mark_note_operations_incomplete note reason now db = Ok db' → only_marks db db'.
Proof. unfold mark_note_operations_incomplete. intros H. apply bind_Ok in H as ([] & _ & [= <-]). auto. Qed.
Lemma note_complete_only note now db db' : mark_note_operations_complete note now db = Ok db' → only_marks db db'.
Proof. unfold mark_note_operations_complete. intros H. apply bind_Ok in H as ([] & _ & [= <-]). auto. Qed.
