(* ===== verification/UsageQuota.v ===== *)
(** * The buyer's usage history: the current purchase and its write-ahead journal

    crates/dexdo/src/buyer/usage_quota_journal.rs and the quota operations of usage.rs.  The
    current purchase is written to a journal file before the row of [deal_quota], so a failed
    or interrupted SQLite write never loses it.  An operation is a state transformer: its
    writes stay although it ends in an error.  The content of the journal file and its JSON
    codec are parameters; [Faults] says which call of the operating system or of SQLite fails. *)
From S2P Require Import Prelude RustText Params UsageData UsageRequests UsageMoney.

Record QuotaJournal : Type := {
  qj_deal_id : string;
  qj_filled_ticks : option string;
  qj_price_raw : option string;
  qj_closed : bool;
  qj_pending_deals : list string;
}.
#[export] Instance QuotaJournal_eq_dec : EqDecision QuotaJournal.
Proof. solve_decision. Defined.

Definition set_qj_closed (v : bool) (r : QuotaJournal) : QuotaJournal := {|
  qj_deal_id := qj_deal_id r; qj_filled_ticks := qj_filled_ticks r; qj_price_raw := qj_price_raw r;
  qj_closed := v; qj_pending_deals := qj_pending_deals r |}.
Definition set_qj_pending (v : list string) (r : QuotaJournal) : QuotaJournal := {|
  qj_deal_id := qj_deal_id r; qj_filled_ticks := qj_filled_ticks r; qj_price_raw := qj_price_raw r;
  qj_closed := qj_closed r; qj_pending_deals := v |}.

(** The failures of one operation: reading the file, replacing it, removing it, the SELECT of
    the quota row, the statements on [deal_prices], and the last write of [deal_quota]. *)
Record Faults : Type := {
  ft_read : option text; ft_write : option FileFault; ft_remove : option FileFault;
  ft_select : option text; ft_price : option text; ft_quota : option text;
}.
Definition no_faults : Faults := {|
  ft_read := None; ft_write := None; ft_remove := None; ft_select := None; ft_price := None; ft_quota := None |}.

Definition parse_u128 (value : string) : Result text Z :=
  ok_or (parse_uint u128 value) f["invalid persisted SHELL amount"].
Definition no_fault (fault : option text) : Result text () :=
  match fault with Some e => Err e | None => Ok () end.

Section Journal.
Context {Bytes : Type} (to_vec : QuotaJournal → Bytes) (from_slice : Bytes → option QuotaJournal).

(** The SQLite tables and the journal file; [None] when there is no file. *)
Record Store : Type := { st_db : UsageDb; st_journal : option Bytes }.
Definition with_db (db : UsageDb) (s : Store) : Store := {| st_db := db; st_journal := st_journal s |}.
Definition with_journal (j : option Bytes) (s : Store) : Store := {| st_db := st_db s; st_journal := j |}.

Definition read_quota_journal (ft : Faults) : Op Store text (option QuotaJournal) := op_read (λ s,
  no_fault (ft_read ft) ;?
  match st_journal s with
  | None => Ok None
  | Some bytes =>
      let? record := ok_or (from_slice bytes) f["invalid purchase quota journal"] in
      Ok (Some
        (if bool_decide (qj_filled_ticks record = None) && bool_decide (qj_price_raw record = None)
            && bool_decide (qj_pending_deals record = [])
         then set_qj_pending [qj_deal_id record] record
         else record))
  end).

(** The temporary file is synced and renamed; a failure before the rename removes it. *)
Definition write_quota_journal (ft : Faults) (record : QuotaJournal) : Op Store text () := λ s,
  match ft_write ft with
  | None => (Ok (), with_journal (Some (to_vec record)) s)
  | Some (BeforePublish e) => (Err e, s)
  | Some (AfterPublish e) => (Err e, with_journal (Some (to_vec record)) s)
  end.

Definition remove_quota_journal (ft : Faults) : Op Store text () := λ s,
  match ft_remove ft with
  | None => (Ok (), with_journal None s)
  | Some (BeforePublish e) => (Err e, s)
  | Some (AfterPublish e) => (Err e, with_journal None s)
  end.

Definition begin_deal_quota (ft : Faults) (deal_id : string) : Op Store text () :=
  do previous <- read_quota_journal ft;
  let record := unwrap_or {|
    qj_deal_id := deal_id; qj_filled_ticks := None; qj_price_raw := None; qj_closed := false;
    qj_pending_deals := [] |} previous in
  if existsb (String.eqb deal_id) (qj_pending_deals record) then op_ret (Ok ())
  else write_quota_journal ft (set_qj_pending (qj_pending_deals record ++ [deal_id]) record).

Definition discard_unopened_deal_quota (ft : Faults) (deal_id : string) : Op Store text () :=
  do previous <- read_quota_journal ft;
  match previous with
  | None => op_ret (Ok ())
  | Some record =>
      if negb (existsb (String.eqb deal_id) (qj_pending_deals record)) then op_ret (Ok ())
      else
      let record := set_qj_pending (List.filter (λ id, negb (String.eqb deal_id id)) (qj_pending_deals record)) record in
      if bool_decide (is_Some (qj_filled_ticks record)) || bool_decide (is_Some (qj_price_raw record))
         || negb (bool_decide (qj_pending_deals record = []))
      then write_quota_journal ft record
      else remove_quota_journal ft
  end.

Definition journal_of_row (row : QuotaRow) : QuotaJournal := {|
  qj_deal_id := qr_deal_id row; qj_filled_ticks := Some (qr_filled_ticks row);
  qj_price_raw := Some (qr_price_raw row); qj_closed := qr_closed row; qj_pending_deals := [] |}.
Definition quota_row (ft : Faults) : Op Store text (option QuotaJournal) := op_read (λ s,
  no_fault (ft_select ft) ;? Ok (option_map journal_of_row (db_deal_quota (st_db s)))).

Definition has_settlement (deal : string) (db : UsageDb) : bool :=
  existsb (λ kv : string * FactRow, of_deal KSettlement deal kv.2) (map_to_list (db_money_facts db)).

(** The upsert of the row. *)
Definition put_quota (ft : Faults) (deal ticks price : string) (closed : bool) : Op Store text () := λ s,
  match ft_quota ft with
  | Some e => (Err e, s)
  | None => (Ok (), with_db (set_db_deal_quota (Some {|
      qr_deal_id := deal; qr_filled_ticks := ticks; qr_price_raw := price;
      qr_closed := closed || has_settlement deal (st_db s) |}) (st_db s)) s)
  end.
Definition record_price (ft : Faults) (deal : string) (price : Z) : Op Store text () := λ s,
  match (no_fault (ft_price ft) ;? record_deal_price_in deal price (st_db s)) with
  | Ok db => (Ok (), with_db db s)
  | Err e => (Err e, s)
  end.

Definition restore_quota (ft : Faults) (require_terms : bool) : Op Store text () :=
  do previous <- read_quota_journal ft;
  match previous with
  | None => op_ret (Ok ())
  | Some record =>
      if negb (bool_decide (qj_pending_deals record = [])) then
        op_ret (ensure (negb require_terms) f["current deal purchase state unavailable"])
      else
      match qj_filled_ticks record, qj_price_raw record with
      | Some ticks, Some price =>
          do ticks_raw <- op_ret (parse_u128 ticks);
          do price_raw <- op_ret (parse_u128 price);
          do _a <- op_ret (ensure ((ticks_raw >? 0) && (price_raw >? 0)) f["empty purchased quota"]);
          do _b <- op_ret (ok_or (checked_mul u128 ticks_raw price_raw) f["purchased quota overflow"]);
          do _c <- record_price ft (qj_deal_id record) price_raw;
          do old <- quota_row ft;
          match old with
          | Some old =>
              if String.eqb (qj_deal_id old) (qj_deal_id record) then
                do _d <- op_ret (ensure (bool_decide (qj_filled_ticks old = qj_filled_ticks record)
                                         && bool_decide (qj_price_raw old = qj_price_raw record))
                  f["purchased quota terms changed for "; qj_deal_id record]);
                if qj_closed old || negb (qj_closed record) then op_ret (Ok ())
                else put_quota ft (qj_deal_id record) ticks price (qj_closed record)
              else put_quota ft (qj_deal_id record) ticks price (qj_closed record)
          | None => put_quota ft (qj_deal_id record) ticks price (qj_closed record)
          end
      | _, _ => op_ret (ensure (negb require_terms) f["current deal purchase terms unavailable"])
      end
  end.

(** The purchase the journal, or without one the table, holds. *)
Definition previous_quota (ft : Faults) : Op Store text (option QuotaJournal) :=
  do journal <- read_quota_journal ft;
  match journal with
  | Some record => op_ret (Ok (Some record))
  | None => quota_row ft
  end.

Definition open_deal_quota (ft : Faults) (deal_id : string) (filled_ticks price_raw : Z) : Op Store text () :=
  do _a <- op_ret (ensure ((filled_ticks >? 0) && (price_raw >? 0)) f["empty purchased quota"]);
  do _b <- op_ret (ok_or (checked_mul u128 filled_ticks price_raw) f["purchased quota overflow"]);
  do previous <- previous_quota ft;
  do closed <- op_ret
    (match previous with
     | Some row =>
         if String.eqb (qj_deal_id row) deal_id then
           ensure (match qj_filled_ticks row with Some t => String.eqb t (to_string filled_ticks) | None => true end
                   && match qj_price_raw row with Some p => String.eqb p (to_string price_raw) | None => true end)
             f["purchased quota terms changed for "; deal_id] ;?
           Ok (qj_closed row)
         else Ok false
     | None => Ok false
     end);
  do _c <- write_quota_journal ft {|
    qj_deal_id := deal_id; qj_filled_ticks := Some (to_string filled_ticks);
    qj_price_raw := Some (to_string price_raw); qj_closed := closed; qj_pending_deals := [] |};
  restore_quota ft true.

Definition has_deal_quota (ft : Faults) (deal_id : string) : Op Store text bool :=
  do journal <- read_quota_journal ft;
  match journal with
  | Some record => op_ret (Ok (bool_decide (qj_pending_deals record = []) && String.eqb (qj_deal_id record) deal_id
      && bool_decide (is_Some (qj_filled_ticks record)) && bool_decide (is_Some (qj_price_raw record))))
  | None => op_read (λ s, no_fault (ft_select ft) ;?
      Ok (match db_deal_quota (st_db s) with Some row => String.eqb (qr_deal_id row) deal_id | None => false end))
  end.

Definition close_deal_quota (ft : Faults) (deal_id : string) : Op Store text () :=
  do previous <- previous_quota ft;
  do _a <-
    match previous with
    | Some record =>
        if String.eqb (qj_deal_id record) deal_id && negb (qj_closed record)
        then write_quota_journal ft (set_qj_closed true record) else op_ret (Ok ())
    | None => op_ret (Ok ())
    end;
  λ s, match ft_quota ft with
       | Some e => (Err e, s)
       | None => (Ok (), with_db (close_quota_row deal_id (st_db s)) s)
       end.

(** An operation on the tables alone: one transaction, which leaves them as they were when it fails. *)
Definition transaction (f : UsageDb → Result text UsageDb) : Op Store text () := λ s,
  match f (st_db s) with Ok db => (Ok (), with_db db s) | Err e => (Err e, s) end.

Definition apply_deal_expenses (timestamp : Z → bool) (ft : Faults) (deal_id : string) (accruals : list AccrualFact)
    (settlement : option SettlementFact) (now : Z) : Op Store text () :=
  do _a <- transaction (apply_deal_expenses_in timestamp deal_id accruals settlement now);
  match settlement with Some _ => close_deal_quota ft deal_id | None => op_ret (Ok ()) end.

(** The start of a process, after the transaction that brings the schema up to date. *)
Definition open_store (ft : Faults) : Op Store text () := restore_quota ft false.
End Journal.
Arguments Store : clear implicits.

(** ** The prices the tables prove, recorded when the file is opened *)

Definition quota_price (db : UsageDb) : list (string * Result text Z) :=
  match db_deal_quota db with Some row => [(qr_deal_id row, parse_u128 (qr_price_raw row))] | None => [] end.
Definition probe_prices (db : UsageDb) : Result text (list (string * Result text Z)) :=
  collect (λ kv : string * FactRow,
      let? deal := ok_or (fa_deal_id kv.2) f["Invalid column type Null"] in
      let? spent := ok_or (fa_spent_raw kv.2) f["Invalid column type Null"] in
      Ok (deal, Ok spent))
    (List.filter (λ kv : string * FactRow, bool_decide (fa_kind kv.2 = KAccrual)
       && bool_decide (is_Some (fa_probe_consumption_tokens kv.2))) (map_to_list (db_money_facts db))).
Fixpoint record_prices (prices : list (string * Result text Z)) (db : UsageDb) : Result text UsageDb :=
  match prices with
  | [] => Ok db
  | (deal, price) :: prices =>
      let? price := price in
      let? db := record_deal_price_in deal price db in
      record_prices prices db
  end.
Definition recover_prices (db : UsageDb) : Result text UsageDb :=
  let? probes := probe_prices db in
  record_prices (quota_price db ++ probes) db.

(** ** What is left of the current purchase (usage.rs, usage_snapshot.rs) *)

Record Quota : Type := { qo_limit : Z; qo_used : Z; qo_remaining : Z }.
#[export] Instance Quota_eq_dec : EqDecision Quota.
Proof. solve_decision. Defined.

Definition quota_with_cost_in (db : UsageDb) (consumed : string → Z → Result text Z) : Result text Quota :=
  match db_deal_quota db with
  | Some row =>
      let? price := parse_u128 (qr_price_raw row) in
      let? ticks := parse_u128 (qr_filled_ticks row) in
      let? limit := ok_or (checked_mul u128 ticks price) f["purchased quota overflow"] in
      let? used := consumed (qr_deal_id row) price in
      Ok {| qo_limit := limit; qo_used := used; qo_remaining := if qr_closed row then 0 else saturating_sub limit used |}
  | None => Ok {| qo_limit := 0; qo_used := 0; qo_remaining := 0 |}
  end.

(** The quota of the history report, summed over the calls. *)
Definition quota_in (db : UsageDb) : Result text Quota := quota_with_cost_in db (consumed_cost_in db).

Record AdmissionSnapshot : Type := {
  sn_model : string; sn_complete : bool; sn_quota : Quota;
  sn_input : Z; sn_output : Z; sn_cache_read : Z; sn_cache_write : Z;
}.
(** The transaction of [admission_snapshot], after [restore_quota]: from the counters alone. *)
Definition admission_snapshot_in (model : string) (db : UsageDb) : Result text AdmissionSnapshot :=
  let totals := read_model db model in
  let? quota := quota_with_cost_in db (λ id price, consumption_cost price (read_deal db id)) in
  Ok {| sn_model := model; sn_complete := mt_incomplete totals =? 0; sn_quota := quota;
        sn_input := mt_input totals; sn_output := mt_output totals;
        sn_cache_read := mt_cache_read totals; sn_cache_write := mt_cache_write totals |}.
