(* ===== verification/UsageCrash.v ===== *)
(** * The current purchase survives crashes and stays closed

    The effect of each operation on the store whatever
    fails, and the two guarantees of the journal: a purchase that reached the journal is in
    the table after the next start, and a closed quota is not reopened. *)
From S2P Require Import Prelude RustText Params UsageData UsageRequests UsageMoney UsageQuota.
From S2P Require Import UsageMoneyInv.

#[local] Arguments umax : simpl never.

Section Quota.
Context {Bytes : Type} (to_vec : QuotaJournal → Bytes) (from_slice : Bytes → option QuotaJournal).
Abbreviation state := (Store Bytes).
Implicit Types (P : state → Prop) (s : state).

(** Writing the journal leaves the tables alone. *)
Definition about_tables (P : UsageDb → Prop) : state → Prop := λ s, P (st_db s).

Lemma write_keeps_tables T ft record : keeps (about_tables T) (write_quota_journal to_vec ft record).
Proof. intros s Hs. unfold write_quota_journal. destruct (ft_write ft) as [[]|]; done. Qed.
Lemma remove_keeps_tables T ft : keeps (about_tables T) (remove_quota_journal ft).
Proof. intros s Hs. unfold remove_quota_journal. destruct (ft_remove ft) as [[]|]; done. Qed.
#[local] Hint Resolve write_keeps_tables remove_keeps_tables : op_keeps.

Lemma begin_keeps_tables T ft deal : keeps (about_tables T) (begin_deal_quota to_vec from_slice ft deal).
Proof. unfold begin_deal_quota, read_quota_journal. cbv zeta. auto 10 with op_keeps. Qed.
Lemma discard_keeps_tables T ft deal : keeps (about_tables T) (discard_unopened_deal_quota to_vec from_slice ft deal).
Proof. unfold discard_unopened_deal_quota, read_quota_journal. cbv zeta. auto 10 with op_keeps. Qed.

(** A property of the tables that the writes of the quota operations preserve. *)
Definition terms_ok (ticks price : string) (p : Z) : Prop :=
  ∃ t, parse_u128 ticks = Ok t ∧ parse_u128 price = Ok p ∧ 0 < t ∧ 0 < p ∧ t * p ≤ umax u128.
Record quota_stable (T : UsageDb → Prop) : Prop := {
  qs_price : ∀ deal price db db', T db → record_deal_price_in deal price db = Ok db' → T db';
  qs_row : ∀ deal ticks price p closed db, T db → terms_ok ticks price p → db_deal_prices db !! deal = Some p →
    T (set_db_deal_quota (Some {| qr_deal_id := deal; qr_filled_ticks := ticks; qr_price_raw := price;
         qr_closed := closed || has_settlement deal db |}) db);
  qs_close : ∀ deal db, T db → T (close_quota_row deal db);
}.

Lemma record_price_Ok deal price db db' : record_deal_price_in deal price db = Ok db' →
  0 < price ∧ db_deal_prices db' !! deal = Some price ∧
  (db' = db ∨ db_deal_prices db !! deal = None ∧ db' = set_db_deal_prices (<[deal := price]> (db_deal_prices db)) db).
Proof.
  unfold record_deal_price_in. destruct (Z.gtb_spec price 0); [cbn [negb]|done].
  destruct (db_deal_prices db !! deal) as [previous|] eqn:Hp.
  - destruct (Z.eqb_spec previous price); [subst|done]. intros [= <-]. auto.
  - intros [= <-]. split; [done|]. split; [apply lookup_insert_eq|by right].
Qed.

Lemma put_op_keeps T ft deal ticks price p closed : quota_stable T → terms_ok ticks price p →
  triple (λ s, T (st_db s) ∧ db_deal_prices (st_db s) !! deal = Some p)
    (put_quota (Bytes := Bytes) ft deal ticks price closed) (λ _ s, T (st_db s)).
Proof.
  intros HT Ht s [Hs Hp]. unfold put_quota. destruct (ft_quota ft); [done|]. by apply (qs_row _ HT _ _ _ p).
Qed.

Lemma restore_keeps_tables T ft b : quota_stable T → keeps (about_tables T) (restore_quota from_slice ft b).
Proof.
  intros HT. unfold restore_quota, read_quota_journal. apply keeps_bind; [apply keeps_read|intros [record|]]; [|apply keeps_ret].
  destruct (negb _); [apply keeps_ret|]. destruct (qj_filled_ticks record) as [ticks|]; [|apply keeps_ret].
  destruct (qj_price_raw record) as [price|]; [|apply keeps_ret].
  apply (triple_bind _ _ _ (λ t s, T (st_db s) ∧ parse_u128 ticks = Ok t)); [apply triple_ret; intros s Hs; by destruct (parse_u128 ticks)|].
  intros t. apply (triple_bind _ _ _ (λ p s, T (st_db s) ∧ parse_u128 ticks = Ok t ∧ parse_u128 price = Ok p)).
  { apply triple_ret. intros s []. by destruct (parse_u128 price). }
  intros p. apply (triple_bind _ _ _ (λ _ s, T (st_db s) ∧ parse_u128 ticks = Ok t ∧ parse_u128 price = Ok p ∧ 0 < t ∧ 0 < p)).
  { apply triple_ret. intros s (? & ? & ?). destruct (Z.gtb_spec t 0), (Z.gtb_spec p 0); cbn; auto. }
  intros _. apply (triple_bind _ _ _ (λ _ s, T (st_db s) ∧ terms_ok ticks price p)).
  { apply triple_ret. intros s (? & ? & ? & ? & ?). destruct (checked_mul u128 t p) as [n|] eqn:Hm; [|done].
    apply checked_mul_Some in Hm as [-> ?]. split; [done|]. by exists t. }
  intros _. apply (triple_bind _ _ _ (λ _ s, (T (st_db s) ∧ db_deal_prices (st_db s) !! qj_deal_id record = Some p) ∧ terms_ok ticks price p)).
  { intros s [Hs Ht]. unfold record_price. destruct (ft_price ft); [done|]. cbn [no_fault rbind].
    destruct (record_deal_price_in _ p (st_db s)) as [db|] eqn:Hr; [|done]. cbn.
    split; [|done]. split; [by eapply qs_price|by destruct (record_price_Ok _ _ _ _ Hr) as (_ & ? & _)]. }
  intros _. apply (triple_bind _ _ _ (λ _ s, (T (st_db s) ∧ db_deal_prices (st_db s) !! qj_deal_id record = Some p) ∧ terms_ok ticks price p)).
  { apply triple_read. intros s [[] ?]. by destruct (_ ;? _). }
  assert (∀ closed, triple (λ s, (T (st_db s) ∧ db_deal_prices (st_db s) !! qj_deal_id record = Some p) ∧ terms_ok ticks price p)
    (put_quota (Bytes := Bytes) ft (qj_deal_id record) ticks price closed) (λ _ s, about_tables T s)) as Hput.
  { intros closed s [Hs Ht]. by apply (put_op_keeps T ft _ _ _ p closed HT Ht). }
  intros [old|]; [|apply Hput]. destruct (String.eqb _ _); [|apply Hput].
  apply (triple_bind _ _ _ (λ _ s, (T (st_db s) ∧ db_deal_prices (st_db s) !! qj_deal_id record = Some p) ∧ terms_ok ticks price p)).
  { apply triple_ret. intros s [[] ?]. by destruct (ensure _ _). }
  intros _. destruct (_ || _); [|apply Hput]. apply triple_ret. by intros s [[] _].
Qed.

Lemma close_keeps_tables T ft deal : quota_stable T → keeps (about_tables T) (close_deal_quota to_vec from_slice ft deal).
Proof.
  intros HT. unfold close_deal_quota, previous_quota, read_quota_journal, quota_row.
  apply keeps_bind; [auto with op_keeps|intros previous]. apply keeps_bind; [auto with op_keeps|intros _].
  intros s Hs. destruct (ft_quota ft); [done|]. by apply (qs_close _ HT).
Qed.

Lemma open_keeps_tables T ft deal ticks price : quota_stable T →
  keeps (about_tables T) (open_deal_quota to_vec from_slice ft deal ticks price).
Proof.
  intros HT. unfold open_deal_quota, previous_quota, read_quota_journal, quota_row.
  do 5 (apply keeps_bind; [auto with op_keeps|intros ?]). by apply restore_keeps_tables.
Qed.
End Quota.

(** * What the journal guarantees

    A purchase or a stop that reached the journal is in the table after the next start,
    wherever the operation failed or the process died; a candidate that is discarded leaves
    no trace; and no operation reopens a closed quota. *)

#[local] Arguments umax : simpl never.
#[local] Arguments to_string : simpl never.

Section Crash.
Context {Bytes : Type} (to_vec : QuotaJournal → Bytes) (from_slice : Bytes → option QuotaJournal).
Context (codec : ∀ record, from_slice (to_vec record) = Some record).
Abbreviation state := (Store Bytes).

(** The record of an opened purchase. *)
Definition purchase (deal : string) (ticks price : Z) (closed : bool) : QuotaJournal := {|
  qj_deal_id := deal; qj_filled_ticks := Some (to_string ticks); qj_price_raw := Some (to_string price);
  qj_closed := closed; qj_pending_deals := [] |}.
Definition purchase_valid (ticks price : Z) : Prop :=
  0 < ticks ∧ 0 < price ∧ ticks ≤ umax u128 ∧ price ≤ umax u128 ∧ ticks * price ≤ umax u128.

(** The tables hold no other terms for the deal. *)
Definition agrees (deal : string) (ticks price : Z) (db : UsageDb) : Prop :=
  (∀ q, db_deal_prices db !! deal = Some q → q = price) ∧
  ∀ row, db_deal_quota db = Some row → qr_deal_id row = deal →
    qr_filled_ticks row = to_string ticks ∧ qr_price_raw row = to_string price.

(** The row of the purchase in the table. *)
Definition installed (deal : string) (ticks price : Z) (closed : bool) (db : UsageDb) : Prop :=
  db_deal_prices db !! deal = Some price ∧ ∃ row, db_deal_quota db = Some row ∧ qr_deal_id row = deal ∧
    qr_filled_ticks row = to_string ticks ∧ qr_price_raw row = to_string price ∧ (closed = true → qr_closed row = true).

Lemma parse_u128_to_string n : 0 ≤ n → n ≤ umax u128 → parse_u128 (to_string n) = Ok n.
Proof. intros. unfold parse_u128. by rewrite parse_uint_to_string. Qed.

Lemma read_purchase ft (s : state) deal ticks price closed :
  st_journal s = Some (to_vec (purchase deal ticks price closed)) →
  read_quota_journal from_slice ft s
  = (match ft_read ft with Some e => Err e | None => Ok (Some (purchase deal ticks price closed)) end, s).
Proof. intros Hj. unfold read_quota_journal, op_read. rewrite Hj, codec. by destruct (ft_read ft). Qed.

Lemma record_price_agrees deal ticks price db : agrees deal ticks price db → 0 < price →
  ∃ db', record_deal_price_in deal price db = Ok db' ∧ db_deal_prices db' !! deal = Some price ∧
    db_deal_quota db' = db_deal_quota db ∧ agrees deal ticks price db'.
Proof.
  intros [Hp Hq] Hpos. unfold record_deal_price_in. rewrite (proj2 (Z.gtb_lt price 0)) by done. cbn [negb].
  destruct (db_deal_prices db !! deal) as [q|] eqn:E.
  - rewrite (Hp q eq_refl), Z.eqb_refl. cbn [negb]. exists db. pose proof (Hp q eq_refl) as ->.
    split; [done|]. split; [done|]. split; [done|]. split; [by rewrite E|done].
  - eexists. split; [done|]. cbn. rewrite lookup_insert_eq. split; [done|]. split; [done|]. split; [|done].
    intros q. cbn. rewrite lookup_insert_eq. congruence.
Qed.

Lemma put_quota_installs ft (s : state) deal ticks price closed :
  agrees deal ticks price (st_db s) → db_deal_prices (st_db s) !! deal = Some price →
  let '(r, s') := put_quota ft deal (to_string ticks) (to_string price) closed s in
  st_journal s' = st_journal s ∧ agrees deal ticks price (st_db s') ∧
  (if ft_quota ft is Some _ then ∃ e, r = Err e else r = Ok () ∧ installed deal ticks price closed (st_db s')).
Proof.
  intros Ha Hp. unfold put_quota. destruct (ft_quota ft) as [e|]; [eauto|]. cbn. split; [done|].
  destruct Ha as [Ha1 Ha2]. split; [split; [done|]; intros row [= <-]; by cbn|].
  split; [done|]. split; [done|]. eexists. split; [done|]. cbn. repeat split; try done. by intros ->.
Qed.

Ltac stopped_early := split; [done|]; split; [done|]; split; [done|]; intros ->.

(** Restoring a purchase, whatever fails: the journal stays, the tables stay consistent with
    it, and if nothing fails the purchase is installed. *)
Lemma restore_purchase ft b (s : state) deal ticks price closed :
  st_journal s = Some (to_vec (purchase deal ticks price closed)) → purchase_valid ticks price →
  agrees deal ticks price (st_db s) →
  let '(r, s') := restore_quota from_slice ft b s in
  st_journal s' = st_journal s ∧ agrees deal ticks price (st_db s') ∧
  (r = Ok () → installed deal ticks price closed (st_db s')) ∧ (ft = no_faults → r = Ok ()).
Proof.
  intros Hj (Ht & Hp & Ht' & Hp' & Htp) Ha. unfold restore_quota, op_bind. rewrite (read_purchase ft s deal ticks price closed Hj).
  destruct (ft_read ft) as [e|] eqn:Hfr; [by stopped_early|].
  cbn [qj_pending_deals qj_filled_ticks qj_price_raw qj_deal_id qj_closed purchase]. rewrite bool_decide_eq_true_2 by done. cbn [negb].
  rewrite !parse_u128_to_string by lia. unfold op_ret. rewrite (proj2 (Z.gtb_lt ticks 0)), (proj2 (Z.gtb_lt price 0)) by done. cbn [andb ensure].
  rewrite checked_mul_fits by done. cbn [ok_or]. unfold record_price.
  destruct (ft_price ft) as [e|] eqn:Hfp; [by stopped_early|].
  destruct (record_price_agrees deal ticks price (st_db s) Ha Hp) as (db & -> & Hpr & Hq & Ha'). cbn [no_fault rbind].
  unfold quota_row, op_read. destruct (ft_select ft) as [e|] eqn:Hfs; [by stopped_early|].
  cbn [no_fault rbind with_db st_db st_journal].
  assert (let '(r, s') := put_quota ft deal (to_string ticks) (to_string price) closed (with_db db s) in
    st_journal s' = st_journal s ∧ agrees deal ticks price (st_db s') ∧
    (r = Ok () → installed deal ticks price closed (st_db s')) ∧ (ft = no_faults → r = Ok ())) as Hput.
  { pose proof (put_quota_installs ft (with_db db s) deal ticks price closed Ha' Hpr) as Hput.
    destruct (put_quota ft deal _ _ closed (with_db db s)) as [r s'].
    destruct Hput as (Hj' & Ha'' & Hr). split; [done|]. split; [done|].
    destruct (ft_quota ft) as [e|] eqn:Hfq; [|by destruct Hr]. destruct Hr as [e' ->]. split; [done|]. by intros ->. }
  destruct (db_deal_quota db) as [row|] eqn:Hrow; cbn [option_map]; [|exact Hput]. cbn [qj_deal_id journal_of_row].
  destruct (String.eqb_spec (qr_deal_id row) deal) as [Hd|]; [|exact Hput].
  destruct (proj2 Ha' row Hrow Hd) as [Et Ep]. cbn [qj_filled_ticks qj_price_raw journal_of_row qj_closed].
  rewrite !bool_decide_eq_true_2 by congruence. cbn [andb ensure].
  destruct (qr_closed row || negb closed) eqn:Hc; [|exact Hput]. cbn. split; [done|]. split; [done|]. split; [|done].
  intros _. split; [done|]. exists row. repeat split; try done. intros ->. by rewrite orb_false_r in Hc.
Qed.

(** Opening a purchase stops before anything is written, or reaches the journal. *)
Lemma open_reaches_journal ft (s : state) deal ticks price r s1 :
  purchase_valid ticks price → agrees deal ticks price (st_db s) →
  open_deal_quota to_vec from_slice ft deal ticks price s = (r, s1) →
  (∃ e, r = Err e ∧ s1 = s) ∨
  ∃ closed, st_journal s1 = Some (to_vec (purchase deal ticks price closed)) ∧ agrees deal ticks price (st_db s1) ∧
    (r = Ok () → installed deal ticks price closed (st_db s1)).
Proof.
  intros (Ht & Hp & Ht' & Hp' & Htp) Ha H. unfold open_deal_quota, op_bind at 1 2, op_ret in H.
  rewrite (proj2 (Z.gtb_lt ticks 0)), (proj2 (Z.gtb_lt price 0)), checked_mul_fits in H by done. cbn [andb ensure ok_or] in H.
  assert ((previous_quota from_slice ft s).2 = s) as Hsame.
  { unfold previous_quota, op_bind, read_quota_journal, quota_row, op_read, op_ret. by destruct (_ ;? _) as [[]|]. }
  unfold op_bind at 1 in H. destruct (previous_quota from_slice ft s) as [[previous|e] s0]; cbn [snd] in Hsame; subst s0.
  2:{ left. exists e. by simplify_eq. }
  unfold op_bind at 1 in H. destruct (match previous with Some _ => _ | None => _ end) as [closed|e].
  2:{ left. exists e. by simplify_eq. }
  unfold op_bind, write_quota_journal in H. fold (purchase deal ticks price closed) in H.
  destruct (ft_write ft) as [[e|e]|].
  - left. exists e. by simplify_eq.
  - right. exists closed. simplify_eq. split; [done|]. split; [done|]. done.
  - right. exists closed. set (s2 := with_journal _ s) in H.
    pose proof (restore_purchase ft true s2 deal ticks price closed eq_refl) as Hr. rewrite H in Hr.
    by destruct Hr as (-> & ? & ? & _).
Qed.

(** C36: a purchase whose opening got as far as the journal is in the table, with its exact terms,
    after the next start of the process, whichever later call failed; otherwise nothing was
    written at all.  The tables must hold no other terms for the deal: a deal's terms on the
    chain do not change. *)
Theorem purchase_survives ft (s : state) deal ticks price r s1 :
  purchase_valid ticks price → agrees deal ticks price (st_db s) →
  open_deal_quota to_vec from_slice ft deal ticks price s = (r, s1) →
  (∃ e, r = Err e ∧ s1 = s) ∨
  ∃ closed s2, open_store from_slice no_faults s1 = (Ok (), s2) ∧ installed deal ticks price closed (st_db s2) ∧
    st_journal s2 = st_journal s1 ∧ st_journal s1 = Some (to_vec (purchase deal ticks price closed)).
Proof.
  intros Hv Ha H. destruct (open_reaches_journal ft s deal ticks price r s1 Hv Ha H) as [|(closed & Hj & Ha1 & _)]; [by left|].
  right. pose proof (restore_purchase no_faults false s1 deal ticks price closed Hj Hv Ha1) as Hr. unfold open_store.
  destruct (restore_quota from_slice no_faults false s1) as [r2 s2]. destruct Hr as (Hj2 & _ & Hi & Hok).
  exists closed, s2. rewrite (Hok eq_refl). split; [done|]. split; [apply Hi, Hok, eq_refl|]. by split.
Qed.

Lemma close_rows_agrees deal ticks price db : agrees deal ticks price db → agrees deal ticks price (close_quota_row deal db).
Proof.
  intros [Hp Hq]. unfold close_quota_row. destruct (db_deal_quota db) as [q|] eqn:Hrow; [|by split; rewrite ?Hrow].
  destruct (String.eqb _ _); [|by split; rewrite ?Hrow]. split; [done|]. cbn. intros row [= <-] Hd. by apply (Hq q).
Qed.

(** A stop of the current purchase that changed anything at all is durable: after the next
    start its quota is closed, whichever call failed. *)
Theorem stop_survives ft (s : state) deal ticks price closed r s1 :
  purchase_valid ticks price → agrees deal ticks price (st_db s) →
  st_journal s = Some (to_vec (purchase deal ticks price closed)) →
  close_deal_quota to_vec from_slice ft deal s = (r, s1) →
  (∃ e, r = Err e ∧ s1 = s) ∨
  ∃ s2, open_store from_slice no_faults s1 = (Ok (), s2) ∧ installed deal ticks price true (st_db s2).
Proof.
  intros Hv Ha Hj H. unfold close_deal_quota, previous_quota, op_bind at 1 2 in H.
  rewrite (read_purchase ft s deal ticks price closed Hj) in H.
  destruct (ft_read ft) as [e|]; [left; exists e; by simplify_eq|]. cbn [op_ret qj_deal_id qj_closed purchase] in H.
  rewrite String.eqb_refl in H. cbn [andb] in H.
  assert (∀ s', st_journal s' = Some (to_vec (purchase deal ticks price true)) → agrees deal ticks price (st_db s') →
    ∃ s2, open_store from_slice no_faults s' = (Ok (), s2) ∧ installed deal ticks price true (st_db s2)) as Hdone.
  { intros s' Hj' Ha'. pose proof (restore_purchase no_faults false s' deal ticks price true Hj' Hv Ha') as Hr. unfold open_store.
    destruct (restore_quota from_slice no_faults false s') as [r2 s2]. destruct Hr as (_ & _ & Hi & Hok).
    exists s2. rewrite (Hok eq_refl). split; [done|]. apply Hi, Hok, eq_refl. }
  unfold op_bind in H. destruct closed; cbn [negb op_ret] in H.
  - destruct (ft_quota ft) as [e|]; simplify_eq; [left; by exists e|right].
    apply Hdone; [done|by apply close_rows_agrees].
  - unfold write_quota_journal in H. change (set_qj_closed true _) with (purchase deal ticks price true) in H.
    destruct (ft_write ft) as [[e|e]|]; [left; exists e; by simplify_eq|right; simplify_eq; by apply Hdone|right].
    destruct (ft_quota ft) as [e|]; simplify_eq; apply Hdone; try done. by apply close_rows_agrees.
Qed.

(** What the journal says. *)
Definition journal_reads (s : state) (j : option QuotaJournal) : Prop := read_quota_journal from_slice no_faults s = (Ok j, s).

(** A record that counts as it is written: it has terms, or routes that wait for them. *)
Definition resolved (record : QuotaJournal) : bool :=
  negb (bool_decide (qj_filled_ticks record = None) && bool_decide (qj_price_raw record = None)
        && bool_decide (qj_pending_deals record = [])).

Lemma reads_resolved (s : state) record : journal_reads s (Some record) → resolved record = true.
Proof.
  unfold journal_reads, read_quota_journal, op_read, resolved. cbn [ft_read no_faults no_fault rbind]. intros [= H].
  destruct (st_journal s) as [bytes|]; [|done]. destruct (from_slice bytes) as [raw|]; [|done]. cbn [ok_or rbind] in H.
  destruct (bool_decide (qj_filled_ticks raw = None) && _ && _) eqn:Hn; simplify_eq.
  - cbn. by rewrite ?andb_false_r.
  - by rewrite Hn.
Qed.

Lemma written_reads (s : state) record : resolved record = true → journal_reads (with_journal (Some (to_vec record)) s) (Some record).
Proof.
  unfold journal_reads, read_quota_journal, op_read, resolved. intros H%negb_true_iff. cbn. rewrite codec. cbn [ok_or rbind].
  by rewrite H.
Qed.

Lemma filter_other deal pending : deal ∉ pending →
  List.filter (λ id, negb (String.eqb deal id)) (pending ++ [deal]) = pending.
Proof.
  intros Hn. rewrite List.filter_app. cbn. rewrite String.eqb_refl. cbn. rewrite app_nil_r.
  induction pending as [|id pending IH]; [done|]. cbn. apply not_elem_of_cons in Hn as [Hne Hn].
  destruct (String.eqb_spec deal id); [done|]. cbn. by rewrite IH.
Qed.

Lemma existsb_eqb deal ids : existsb (String.eqb deal) ids = bool_decide (deal ∈ ids).
Proof.
  apply eq_true_iff_eq. rewrite existsb_exists, bool_decide_eq_true. split.
  - intros (id & Hin & <-%String.eqb_eq). by apply list_elem_of_In.
  - intros Hin. exists deal. split; [by apply list_elem_of_In|apply String.eqb_refl].
Qed.

(** The journal of a candidate. *)
Lemma begin_writes (s : state) deal j : journal_reads s j → (∀ record, j = Some record → deal ∉ qj_pending_deals record) →
  let record := unwrap_or {| qj_deal_id := deal; qj_filled_ticks := None; qj_price_raw := None; qj_closed := false;
    qj_pending_deals := [] |} j in
  begin_deal_quota to_vec from_slice no_faults deal s
  = (Ok (), with_journal (Some (to_vec (set_qj_pending (qj_pending_deals record ++ [deal]) record))) s) ∧
  deal ∉ qj_pending_deals record.
Proof.
  intros Hr Hn record. assert (deal ∉ qj_pending_deals record) as Hnot by (destruct j as [r|]; [by apply Hn|by intros ?%elem_of_nil]).
  split; [|done]. unfold begin_deal_quota, op_bind. rewrite Hr. fold record.
  rewrite existsb_eqb, bool_decide_eq_false_2 by done. done.
Qed.

(** A candidate that begins and proves never opened leaves the journal reading as before. *)
Lemma begin_then_discard (s : state) deal j :
  journal_reads s j → (∀ record, j = Some record → deal ∉ qj_pending_deals record) →
  ∃ s1 s2, begin_deal_quota to_vec from_slice no_faults deal s = (Ok (), s1) ∧
    discard_unopened_deal_quota to_vec from_slice no_faults deal s1 = (Ok (), s2) ∧
    journal_reads s2 j ∧ st_db s2 = st_db s.
Proof.
  intros Hr Hn. destruct (begin_writes s deal j Hr Hn) as [Hb Hnot].
  set (record := unwrap_or _ j) in *. set (candidate := set_qj_pending _ record) in *. set (s1 := with_journal _ s) in *.
  assert (journal_reads s1 (Some candidate)) as Hr1.
  { apply written_reads. unfold resolved. rewrite (bool_decide_eq_false_2 (qj_pending_deals candidate = [])).
    - by rewrite andb_false_r.
    - cbn. by intros [_ ?]%app_eq_nil. }
  assert (set_qj_pending (List.filter (λ id, negb (String.eqb deal id)) (qj_pending_deals candidate)) candidate = record) as Hback.
  { cbn [qj_pending_deals candidate set_qj_pending]. rewrite filter_other by done. by destruct record. }
  unfold discard_unopened_deal_quota, op_bind. exists s1.
  assert (existsb (String.eqb deal) (qj_pending_deals candidate) = true) as Hin.
  { rewrite existsb_eqb. apply bool_decide_eq_true. cbn. set_solver. }
  destruct j as [record'|].
  - exists (with_journal (Some (to_vec record)) s1). split; [done|]. rewrite Hr1, Hin. cbn [negb].
    rewrite Hback. pose proof (reads_resolved s record' Hr) as Hres. change (unwrap_or _ _) with record' in record. subst record.
    split; [|split; [by apply written_reads|done]].
    unfold resolved in Hres. destruct (qj_filled_ticks record'), (qj_price_raw record'), (qj_pending_deals record'); done.
  - exists (with_journal None s1). split; [done|]. rewrite Hr1, Hin. cbn [negb]. rewrite Hback. by repeat split.
Qed.

(** ** A closed quota *)

(** The row is the closed [old], or it belongs to another deal. *)
Definition stays_closed (old : QuotaRow) (db : UsageDb) : Prop :=
  ∃ row, db_deal_quota db = Some row ∧ (qr_deal_id row = qr_deal_id old → row = old).

Definition holds_row (old : QuotaRow) (s : state) : Prop := db_deal_quota (st_db s) = Some old.
Lemma holds_stays old (s : state) : holds_row old s → stays_closed old (st_db s).
Proof. intros H. by exists old. Qed.

(** A step of an operation that does not write the row. *)
Lemma row_step {A B} old (m : Op state text A) (k : A → Op state text B) :
  keeps (holds_row old) m → (∀ a, triple (holds_row old) (k a) (λ _ s, stays_closed old (st_db s))) →
  triple (holds_row old) (op_bind m k) (λ _ s, stays_closed old (st_db s)).
Proof.
  intros Hm Hk. apply (triple_bind _ m k (λ _, holds_row old)); [|exact Hk].
  eapply triple_weaken; [exact Hm|done|]. intros [a|e] s Hs; [done|by apply holds_stays].
Qed.

Lemma row_ret {A} old (r : Result text A) : triple (holds_row old) (op_ret r) (λ _ s, stays_closed old (st_db s)).
Proof. apply triple_ret. intros s. apply holds_stays. Qed.

Lemma price_keeps_row old ft deal price : keeps (holds_row old) (record_price (Bytes := Bytes) ft deal price).
Proof.
  intros s Hs. unfold record_price. destruct (no_fault (ft_price ft) ;? _) as [db|] eqn:E; [|done].
  apply bind_Ok in E as ([] & _ & E). apply record_price_Ok in E as (_ & _ & [->|[_ ->]]); done.
Qed.

Lemma restore_stays_closed old ft b : qr_closed old = true →
  triple (holds_row old) (restore_quota from_slice ft b) (λ _ s, stays_closed old (st_db s)).
Proof.
  intros Hc. unfold restore_quota, read_quota_journal. apply row_step; [apply keeps_read|intros [record|]]; [|apply row_ret].
  destruct (negb _); [apply row_ret|]. destruct (qj_filled_ticks record) as [ticks|]; [|apply row_ret].
  destruct (qj_price_raw record) as [price|]; [|apply row_ret].
  do 4 (apply row_step; [apply keeps_ret|intros ?]). apply row_step; [apply price_keeps_row|intros _].
  apply (triple_bind _ _ _ (λ row s, holds_row old s ∧ row = Some (journal_of_row old))).
  { apply triple_read. intros s Hs. destruct (ft_select ft); cbn [no_fault rbind]; [by apply holds_stays|].
    unfold holds_row in Hs. by rewrite Hs. }
  intros row s [Hs ->]. cbn [journal_of_row qj_deal_id qj_closed]. destruct (String.eqb_spec (qr_deal_id old) (qj_deal_id record)) as [E|Hne].
  - rewrite Hc. cbn [orb]. unfold op_bind, op_ret. by destruct (ensure _ _); apply holds_stays.
  - unfold put_quota. destruct (ft_quota ft); [by apply holds_stays|]. eexists. split; [done|]. cbn. congruence.
Qed.

Lemma close_stays_closed old deal db : qr_closed old = true → db_deal_quota db = Some old →
  db_deal_quota (close_quota_row deal db) = Some old.
Proof.
  intros Hc Hq. unfold close_quota_row. rewrite Hq. destruct (String.eqb _ _); [|done]. destruct old. cbn in *. by subst.
Qed.

(** The operations on the current purchase. *)
Context (timestamp : Z → bool).
Inductive QuotaOp : Type :=
| QBegin (deal : string) | QDiscard (deal : string) | QOpen (deal : string) (ticks price : Z)
| QClose (deal : string) | QRestore (require_terms : bool)
| QSettle (deal : string) (accruals : list AccrualFact) (settlement : option SettlementFact) (now : Z).
Definition quota_step (ft : Faults) (op : QuotaOp) : Op (Store Bytes) text () :=
  match op with
  | QBegin deal => begin_deal_quota to_vec from_slice ft deal
  | QDiscard deal => discard_unopened_deal_quota to_vec from_slice ft deal
  | QOpen deal ticks price => open_deal_quota to_vec from_slice ft deal ticks price
  | QClose deal => close_deal_quota to_vec from_slice ft deal
  | QRestore require_terms => restore_quota from_slice ft require_terms
  | QSettle deal accruals settlement now =>
      apply_deal_expenses to_vec from_slice timestamp ft deal accruals settlement now
  end.

Lemma close_op_stays_closed old ft deal : qr_closed old = true →
  triple (holds_row old) (close_deal_quota to_vec from_slice ft deal) (λ _ s, stays_closed old (st_db s)).
Proof.
  intros Hc. unfold close_deal_quota, previous_quota, read_quota_journal, quota_row.
  apply row_step; [auto with op_keeps|intros previous].
  apply row_step.
  { destruct previous as [record|]; [|apply keeps_ret]. destruct (_ && _); [|apply keeps_ret].
    apply (write_keeps_tables to_vec (λ db, db_deal_quota db = Some old)). }
  intros _ s Hs. destruct (ft_quota ft); apply holds_stays; [done|]. by apply close_stays_closed.
Qed.

Lemma expenses_keep_row deal accruals settlement now old db db' :
  qr_closed old = true → db_deal_quota db = Some old →
  apply_deal_expenses_in timestamp deal accruals settlement now db = Ok db' → db_deal_quota db' = Some old.
Proof.
  unfold apply_deal_expenses_in. intros Hc Hq H. apply bind_Ok in H as (model & _ & H). apply bind_Ok in H as ([] & _ & H).
  apply bind_Ok in H as (db1 & (f1 & r1 & ->)%accruals_only_facts & H). destruct settlement as [fact|].
  - apply bind_Ok in H as ([] & _ & H). apply apply_settlement_shape in H as (at_ & db2 & (f2 & r2 & ->) & ->).
    unfold close_deal_rows. apply close_stays_closed; [done|]. by destruct (_ !! _).
  - by injection H as <-.
Qed.

(** Whatever fails in it, no operation on the current purchase reopens a closed quota or
    changes its terms: only the purchase of another deal takes its place. *)
Theorem closed_quota_stays_closed ft op (s : state) old :
  db_deal_quota (st_db s) = Some old → qr_closed old = true →
  stays_closed old (st_db (quota_step ft op s).2).
Proof.
  intros Hq Hc. revert s Hq. change (triple (holds_row old) (quota_step ft op) (λ _ s, stays_closed old (st_db s))).
  destruct op as [deal|deal|deal ticks price|deal|b|deal accruals settlement now]; cbn [quota_step].
  - eapply triple_weaken; [apply (begin_keeps_tables _ _ (λ db, db_deal_quota db = Some old))|done|]. intros r s. apply holds_stays.
  - eapply triple_weaken; [apply (discard_keeps_tables _ _ (λ db, db_deal_quota db = Some old))|done|]. intros r s. apply holds_stays.
  - unfold open_deal_quota, previous_quota, read_quota_journal, quota_row.
    do 4 (apply row_step; [auto with op_keeps|intros ?]).
    apply row_step; [apply (write_keeps_tables to_vec (λ db, db_deal_quota db = Some old))|intros _]. by apply restore_stays_closed.
  - by apply close_op_stays_closed.
  - by apply restore_stays_closed.
  - unfold apply_deal_expenses, transaction. intros s Hs. unfold op_bind.
    destruct (apply_deal_expenses_in _ _ _ _ _ (st_db s)) as [db|e] eqn:E; [|by apply holds_stays].
    assert (holds_row old (with_db db s)) as Hrow by (by eapply expenses_keep_row).
    destruct settlement as [fact|]; [by apply close_op_stays_closed|by apply holds_stays].
Qed.
End Crash.
