(* ===== verification/UsageRun.v ===== *)
(** * Every history the buyer can record

    The operations of the usage history as steps on the store, with the failures of the
    operating system and of SQLite, and the invariant of every store they reach. *)
From S2P Require Import Prelude RustText Params UsageData UsageRequests UsageTotals UsageConsumption UsageMoney UsageMoneyInv.
From S2P Require Import UsageReplay UsageFrame UsageQuota UsageCrash.

#[local] Arguments umax : simpl never.

(** ** The invariant *)

(** A settled deal offers no quota. *)
Definition settled_closed (db : UsageDb) : Prop := ∀ row, db_deal_quota db = Some row →
  has_settlement (qr_deal_id row) db = true → qr_closed row = true.
(** The current purchase has terms that multiply, and its price is the one recorded for the deal. *)
Definition quota_recorded (db : UsageDb) : Prop := ∀ row, db_deal_quota db = Some row →
  ∃ price, terms_ok (qr_filled_ticks row) (qr_price_raw row) price ∧ db_deal_prices db !! qr_deal_id row = Some price.
Definition prices_positive (db : UsageDb) : Prop := ∀ deal price, db_deal_prices db !! deal = Some price → 0 < price.

Record requests_ok (db : UsageDb) : Prop := {
  ro_totals : totals_ok db; ro_fit : deals_fit db; ro_charges : charges_nonneg db;
}.
Record money_ok (timestamp : Z → bool) (db : UsageDb) : Prop := {
  mo_facts : facts_ok db; mo_sane : facts_sane timestamp db; mo_revision : 0 ≤ db_facts_revision db;
  mo_settled : settled_closed db; mo_recorded : quota_recorded db; mo_prices : prices_positive db;
}.
Definition usage_ok (timestamp : Z → bool) (db : UsageDb) : Prop := requests_ok db ∧ money_ok timestamp db.

Section Invariant.
Context (timestamp : Z → bool).

Lemma requests_ok_frame db db' : db_requests db' = db_requests db → db_request_usage db' = db_request_usage db →
  db_admission_models db' = db_admission_models db → db_admission_deals db' = db_admission_deals db →
  requests_ok db → requests_ok db'.
Proof.
  intros E1 E2 E3 E4 [[T1 T2 T3 T4] Hf Hc].
  assert (∀ request, calls_of db' request = calls_of db request) as Ec by (intros; unfold calls_of; by rewrite E2).
  assert (∀ request, request_totals_in db' request = request_totals_in db request) as Er
    by (intros; apply request_totals_local; [by rewrite E1|done]).
  constructor.
  - constructor.
    + intros request. rewrite E1, Ec. apply T1.
    + intros request. rewrite E1, Er. apply T2.
    + intros k model. unfold read_model. rewrite E3, E1. fold (read_model db model). rewrite T3. apply map_sum_ext.
      intros request row _. unfold model_share, counts. by rewrite Er.
    + intros deal. unfold read_deal. rewrite E4, E1. fold (read_deal db deal). rewrite T4. apply map_sum_ext.
      intros request row _. unfold deal_share, counts. by rewrite Er.
  - intros deal. unfold read_deal. rewrite E4. apply Hf.
  - intros request key row. rewrite Ec. apply Hc.
Qed.

Lemma money_ok_frame db db' : db_money_facts db' = db_money_facts db → db_facts_revision db' = db_facts_revision db →
  db_deal_quota db' = db_deal_quota db → db_deal_prices db' = db_deal_prices db → money_ok timestamp db → money_ok timestamp db'.
Proof.
  intros E1 E2 E3 E4 [H1 H2 H3 H4 H5 H6]. constructor.
  - by apply (facts_ok_same None db).
  - by apply (facts_sane_same timestamp db).
  - by rewrite E2.
  - intros row. unfold has_settlement. rewrite E3, E1. apply H4.
  - intros row. rewrite E3, E4. apply H5.
  - intros deal price. rewrite E4. apply H6.
Qed.

Lemma request_step_money db db' : only_requests db db' → money_ok timestamp db → money_ok timestamp db'.
Proof. intros (? & ? & ? & ? & ->). by apply money_ok_frame. Qed.

Lemma request_step_ok db db' : request_step db db' → totals_ok db' → usage_ok timestamp db → usage_ok timestamp db'.
Proof.
  intros [Ho Hf Hc] Ht [[T F C] M]. split; [constructor; [done|by apply Hf|by apply Hc]|by eapply request_step_money].
Qed.

Lemma marks_ok db db' : only_marks db db' → usage_ok timestamp db → usage_ok timestamp db'.
Proof. intros (? & ? & ->) [R M]. split; [by apply (requests_ok_frame db)|by apply (money_ok_frame db)]. Qed.

(** ** Facts and the settlements among them *)

Lemma has_settlement_spec deal db : has_settlement deal db = true ↔
  ∃ source row, db_money_facts db !! source = Some row ∧ of_deal KSettlement deal row = true.
Proof.
  unfold has_settlement. rewrite existsb_exists. split.
  - intros ([source row] & Hin%list_elem_of_In%elem_of_map_to_list & Ho). by exists source, row.
  - intros (source & row & Hin & Ho). exists (source, row). split; [by apply list_elem_of_In, elem_of_map_to_list|done].
Qed.

Lemma has_settlement_put deal source row db : has_settlement deal (put_fact source row db) = true →
  has_settlement deal db = true ∨ of_deal KSettlement deal row = true.
Proof.
  rewrite !has_settlement_spec. intros (s & r & Hr & Ho). cbn in Hr.
  apply lookup_insert_Some in Hr as [[_ ->]|[_ Hr]]; [by right|left; by exists s, r].
Qed.

(** A write of one fact that is no new settlement. *)
Lemma put_fact_settled source row db : settled_closed db →
  (∀ deal, of_deal KSettlement deal row = true → has_settlement deal db = true) → settled_closed (put_fact source row db).
Proof.
  intros Hdb Hn q Hq Hs. apply has_settlement_put in Hs as [Hs|Hs]; [by apply Hdb|]. apply Hdb; [done|by apply Hn].
Qed.

(** One fact was written, of the kind and deal of the row it replaces if it is a settlement. *)
Inductive one_fact (db : UsageDb) : UsageDb → Prop :=
| same_facts : one_fact db db
| wrote_fact source row : (∀ deal, of_deal KSettlement deal row = true → has_settlement deal db = true) →
    one_fact db (put_fact source row db).

Lemma one_fact_ok db db' : one_fact db db' → facts_ok db' → facts_sane timestamp db' → usage_ok timestamp db → usage_ok timestamp db'.
Proof.
  intros [|source row Hn] Hf Hs [R [M1 M2 M3 M4 M5 M6]]; [by split|]. split; [by apply (requests_ok_frame db)|].
  constructor; try done; [cbn; lia|by apply put_fact_settled].
Qed.

Lemma of_deal_kind kind deal row : fa_kind row ≠ kind → of_deal kind deal row = false.
Proof. intros H. unfold of_deal. by rewrite bool_decide_eq_false_2. Qed.

Lemma accruals_settled deal model prior now facts db db' :
  apply_accruals timestamp deal model prior now facts db = Ok db' → settled_closed db →
  settled_closed db' ∧ db_facts_revision db ≤ db_facts_revision db'.
Proof.
  revert db. induction facts as [|fact facts IH]; intros db H Hs; cbn [apply_accruals] in H; [by injection H as <-|].
  apply bind_Ok in H as (db1 & H1 & H). unfold apply_accrual in H1.
  apply bind_Ok in H1 as ([] & _ & H1). apply bind_Ok in H1 as ([] & _ & H1). apply bind_Ok in H1 as (at_ & _ & H1).
  destruct (db_money_facts db !! _); apply bind_Ok in H1 as ([] & _ & [= <-]); [by apply IH|].
  destruct (IH _ H) as [IH1 IH2]; [|split; [done|cbn in IH2; lia]].
  apply put_fact_settled; [done|]. intros d Hd. by rewrite of_deal_kind in Hd.
Qed.

(** The settlement of a deal closes its quota in the same transaction. *)
Lemma close_rows_quota fact at_ db : db_deal_quota (close_deal_rows fact at_ db) = db_deal_quota (close_quota_row (sf_deal_id fact) db).
Proof.
  unfold close_deal_rows, close_quota_row, put_deal. destruct (db_deals db !! sf_deal_id fact); cbn; [|done].
  destruct (db_deal_quota db); [|done]. by destruct (String.eqb _ _).
Qed.
Lemma close_rows_frame fact at_ db : ∃ deals quota, close_deal_rows fact at_ db = set_db_deal_quota quota (set_db_deals deals db).
Proof.
  exists (db_deals (close_deal_rows fact at_ db)), (db_deal_quota (close_deal_rows fact at_ db)).
  destruct db as [rq ru dl mf dq dp no am ad rv]. unfold close_deal_rows, close_quota_row, put_deal. cbn.
  destruct (dl !! sf_deal_id fact) as [row|]; cbn; destruct dq as [q|]; cbn; try destruct (String.eqb _ _); done.
Qed.

(** The row after a close: the same purchase, closed if it is of that deal. *)
Lemma closed_row deal db row : db_deal_quota (close_quota_row deal db) = Some row →
  ∃ old, db_deal_quota db = Some old ∧ qr_deal_id row = qr_deal_id old ∧ qr_filled_ticks row = qr_filled_ticks old ∧
    qr_price_raw row = qr_price_raw old ∧ (qr_deal_id old = deal ∧ qr_closed row = true ∨ qr_deal_id old ≠ deal ∧ row = old).
Proof.
  unfold close_quota_row. destruct (db_deal_quota db) as [old|] eqn:Hq; [|by rewrite Hq].
  destruct (String.eqb_spec (qr_deal_id old) deal) as [E|Hne]; [|rewrite Hq]; intros [= <-]; exists old; repeat split; auto.
Qed.

Lemma settlement_write_settled model now at_ fact db db' : settlement_write model now at_ fact db = Ok db' →
  db_deal_quota db' = db_deal_quota db ∧ db_deal_prices db' = db_deal_prices db ∧
  db_facts_revision db ≤ db_facts_revision db' ∧
  ∀ deal, deal ≠ sf_deal_id fact → has_settlement deal db' = true → has_settlement deal db = true.
Proof.
  unfold settlement_write. destruct (db_money_facts db !! sf_source_id fact) as [old|] eqn:Hold; intros H.
  - apply bind_Ok in H as ([] & Hm%ensure_Ok & H). apply bind_Ok in H as ([] & _ & H).
    rewrite !andb_true_iff, !bool_decide_eq_true in Hm. destruct Hm as (((((Hk & Hd) & _) & _) & _) & _).
    destruct (_ && _); injection H as <-; [|done]. repeat split; [cbn; lia|]. intros deal Hne [Hs|Ho%of_deal_true]%has_settlement_put; [done|].
    destruct Ho as [_ Ho]. cbn in Ho. congruence.
  - apply bind_Ok in H as ([] & _ & [= <-]). repeat split; [cbn; lia|]. intros deal Hne [Hs|Ho%of_deal_true]%has_settlement_put; [done|].
    destruct Ho as [_ Ho]. cbn in Ho. congruence.
Qed.

Lemma expenses_usage_ok deal accruals settlement now db db' :
  usage_ok timestamp db → Forall accrual_wf accruals → (∀ fact, settlement = Some fact → settlement_wf fact) →
  apply_deal_expenses_in timestamp deal accruals settlement now db = Ok db' → usage_ok timestamp db'.
Proof.
  intros [R [M1 M2 M3 M4 M5 M6]] Hwa Hws H.
  pose proof (apply_expenses_ok timestamp deal accruals settlement now db db' M1 Hwa Hws H) as Hfacts.
  pose proof (expenses_sane timestamp deal accruals settlement now db db' M1 M2 Hwa Hws H) as Hsane.
  unfold apply_deal_expenses_in in H. apply bind_Ok in H as (model & _ & H). apply bind_Ok in H as ([] & _ & H).
  apply bind_Ok in H as (db1 & Hacc & H).
  destruct (apply_accruals_ok timestamp deal model _ now accruals db db1 Hwa (facts_ok_weaken deal db M1)
    (unconfirmed_is_open deal db M1) Hacc) as (Hok1 & _).
  destruct (accruals_settled _ _ _ _ _ _ _ Hacc M4) as [Hs1 Hr1].
  apply accruals_only_facts in Hacc as (facts1 & revision1 & ->). destruct settlement as [fact|].
  2:{ injection H as <-. split; [by apply (requests_ok_frame db)|]. constructor; try done. cbn in *. lia. }
  apply bind_Ok in H as ([] & _ & H). apply (apply_settlement_Ok timestamp _ _ _ _ _ _ Hok1 (Hws _ eq_refl)) in H
    as (_ & at_ & db2 & _ & Hw & ->).
  destruct (settlement_write_settled _ _ _ _ _ _ Hw) as (Hq2 & Hp2 & Hr2 & Hs2).
  apply settlement_write_only_facts in Hw as (facts2 & revision2 & ->).
  set (db2 := set_db_facts_revision revision2 _) in *.
  pose proof (close_rows_quota fact at_ db2) as Hq. destruct (close_rows_frame fact at_ db2) as (deals & quota & E). rewrite E in *.
  split; [by apply (requests_ok_frame db)|]. constructor; try done.
  - cbn in *. lia.
  - intros row Hrow Hset. rewrite Hq in Hrow. destruct (closed_row _ _ _ Hrow) as (old & Ho & Hd & _ & _ & [[_ Hc]|[Hne ->]]); [done|].
    apply Hs1; [done|]. by apply Hs2.
  - intros row Hrow. rewrite Hq in Hrow. destruct (closed_row _ _ _ Hrow) as (old & Ho & -> & -> & -> & _). by apply M5.
Qed.

Lemma classify_usage_ok source parts db db' : usage_ok timestamp db → breakdown_wf parts →
  classify_expense source parts db = Ok db' → usage_ok timestamp db'.
Proof.
  intros Hok Hwf H. pose proof (classify_sane timestamp source parts db db' (mo_sane _ _ (proj2 Hok)) Hwf H) as Hsane.
  pose proof Hok as [_ [M1 _ _ _ _ _]]. unfold classify_expense in H. apply bind_Ok in H as (row & Hrow%ok_or_Ok & H).
  apply obind_Some in Hrow as (row' & Hrow & Hop). destruct (bool_decide (fa_kind row' = KOperational)); [done|]. injection Hop as ->.
  apply bind_Ok in H as (amount & _ & H). destruct amount as [a|]; [|by injection H as <-].
  apply bind_Ok in H as (total & _ & H). apply bind_Ok in H as ([] & _ & H). apply bind_Ok in H as ([] & _ & H).
  apply bind_Ok in H as ([] & _ & H). set (same := _ && _) in H. destruct same; injection H as <-; [done|].
  eapply one_fact_ok; [| |exact Hsane|exact Hok].
  - constructor. intros deal Ho. apply has_settlement_spec. by exists source, row.
  - apply (facts_ok_update None db source row); try done. pose proof (fo_fact _ _ M1 _ _ Hrow) as Hf.
    unfold fact_ok, settlement_ok in *. cbn. by destruct (fa_kind row).
Qed.

Definition operational_wf (fact : OperationalFact) : Prop := in_range u128 (of_spent_raw fact).

Lemma operational_usage_ok fact now db db' : usage_ok timestamp db → operational_wf fact →
  apply_operational_expense timestamp fact now db = Ok db' → usage_ok timestamp db'.
Proof.
  intros Hok Hwf H. pose proof (operational_sane timestamp fact now db db' (proj1 Hwf) (mo_sane _ _ (proj2 Hok)) H) as Hsane.
  pose proof Hok as [_ [M1 _ _ _ _ _]]. unfold apply_operational_expense in H. apply bind_Ok in H as ([] & _ & H).
  apply bind_Ok in H as (at_ & _ & H). destruct (db_money_facts db !! of_source_id fact) as [old|] eqn:Hold.
  - apply bind_Ok in H as ([] & Hm%ensure_Ok & H). rewrite !andb_true_iff, bool_decide_eq_true in Hm.
    destruct Hm as ((((Hk & _) & _) & _) & _). destruct (_ && _); injection H as <-; [|done].
    eapply one_fact_ok; [| |exact Hsane|exact Hok].
    + constructor. intros deal Ho. by rewrite of_deal_kind in Ho by (cbn; congruence).
    + apply (facts_ok_update None db _ old); try done. pose proof (fo_fact _ _ M1 _ _ Hold) as Hf.
      unfold fact_ok in *. cbn. rewrite Hk in *. done.
  - injection H as <-. eapply one_fact_ok; [| |exact Hsane|exact Hok].
    + constructor. intros deal Ho. by rewrite of_deal_kind in Ho.
    + apply facts_ok_put; [done| |by exists (of_spent_raw fact)|].
      * intros deal. rewrite accrued_put_new by done. unfold accrual_share. rewrite of_deal_kind by done. lia.
      * intros deal s r Ho. by rewrite of_deal_kind in Ho.
Qed.
End Invariant.

(** * What holds of every history

    The steps of the store, the stores they reach, and what the buyer is told from one: the
    admission snapshot agrees with the report, settled deals offer nothing, and every
    settlement is split without loss. *)

#[local] Arguments umax : simpl never.

Lemma transaction_keeps {Bytes} (T : UsageDb → Prop) f : (∀ db db', T db → f db = Ok db' → T db') →
  keeps (S := Store Bytes) (about_tables T) (transaction f).
Proof. intros H s Hs. unfold transaction. destruct (f (st_db s)) as [db|e] eqn:E; [by eapply H|done]. Qed.

Section Reach.
Context {Bytes : Type} (to_vec : QuotaJournal → Bytes) (from_slice : Bytes → option QuotaJournal).
Context (timestamp : Z → bool).
Abbreviation state := (Store Bytes).

(** An operation of the store with its arguments; [now] is the clock where it reads one. *)
Inductive UsageOp : Type :=
| OStart (runtime request model protocol : string) (streamed : bool) (at_ms : Z)
| OLink (request deal : string)
| OStreamed (request : string) (streamed : bool)
| OCall (request phase call : string) (usage : BillingUsage) (accepted : bool) (now : Z)
| OHistory (request : string)
| OFinish (request : string) (http_status : Z) (finish_reason failure_stage : option string) (at_ms : Z)
| ORecover (runtime : string)
| ORegister (deal model : string) (now : Z)
| ODealIncomplete (deal reason : string)
| OOperationsIncomplete (deal reason : string)
| OOperationsComplete (deal : string)
| ONoteIncomplete (note reason : string) (now : Z)
| ONoteComplete (note : string) (now : Z)
| OPrice (deal : string) (price : Z)
| ORecoverPrices
| OClassify (source : string) (parts : ExpenseBreakdown)
| OOperational (fact : OperationalFact) (now : Z)
| OQuota (op : QuotaOp).

Definition usage_step (ft : Faults) (op : UsageOp) : Op (Store Bytes) text () :=
  match op with
  | OStart runtime request model protocol streamed at_ms =>
      transaction (start_request_at timestamp runtime request model protocol streamed at_ms)
  | OLink request deal => transaction (link_deal request deal)
  | OStreamed request streamed => transaction (set_request_streamed request streamed)
  | OCall request phase call usage accepted now => transaction (record_call_usage request phase call usage accepted now)
  | OHistory request => transaction (mark_request_history_incomplete request)
  | OFinish request status reason stage at_ms => transaction (finish_request_at timestamp request status reason stage at_ms)
  | ORecover runtime => transaction (λ db, Ok (recover_interrupted_requests runtime db).1)
  | ORegister deal model now => transaction (register_deal deal model now)
  | ODealIncomplete deal reason => transaction (mark_deal_incomplete deal reason)
  | OOperationsIncomplete deal reason => transaction (mark_operations_incomplete deal reason)
  | OOperationsComplete deal => transaction (mark_operations_complete deal)
  | ONoteIncomplete note reason now => transaction (mark_note_operations_incomplete note reason now)
  | ONoteComplete note now => transaction (mark_note_operations_complete note now)
  | OPrice deal price => transaction (record_deal_price_in deal price)
  | ORecoverPrices => transaction recover_prices
  | OClassify source parts => transaction (classify_expense source parts)
  | OOperational fact now => transaction (apply_operational_expense timestamp fact now)
  | OQuota op => quota_step to_vec from_slice timestamp ft op
  end.

(** Arguments the types of the code allow. *)
Definition op_wf (op : UsageOp) : Prop :=
  match op with
  | OCall _ _ _ usage _ _ => usage_wf usage
  | OClassify _ parts => breakdown_wf parts
  | OOperational fact _ => operational_wf fact
  | OQuota (QSettle _ accruals settlement _) =>
      Forall accrual_wf accruals ∧ ∀ fact, settlement = Some fact → settlement_wf fact
  | _ => True
  end.

(** The stores reached from an empty database and any file found in the journal's place. *)
Inductive reached : state → Prop :=
| reached_start journal : reached {| st_db := empty_db; st_journal := journal |}
| reached_step s ft op : reached s → op_wf op → reached (usage_step ft op s).2.

Lemma empty_usage_ok : usage_ok timestamp empty_db.
Proof.
  split.
  - constructor; [apply totals_ok_empty|intros deal; unfold umax; done|]. intros request key row H. discriminate H.
  - constructor; [constructor| |done|done|done|]; try done; intros ?; done.
Qed.

(** A new row of the quota does not disturb the invariant, and neither does a price. *)
Lemma usage_ok_stable : quota_stable (usage_ok timestamp).
Proof.
  constructor.
  - intros deal price db db' [R [M1 M2 M3 M4 M5 M6]] (Hp & _ & [->|[Hnew ->]])%record_price_Ok; [by split|].
    split; [by apply (requests_ok_frame db)|]. constructor; [by apply (facts_ok_same None db)|try done..].
    + intros row Hrow. destruct (M5 row Hrow) as (p & Ht & Hd). exists p. split; [done|]. cbn.
      rewrite lookup_insert_ne; [done|congruence].
    + intros d q. cbn. intros [[<- <-]|[_ Hd]]%lookup_insert_Some; [done|by eapply M6].
  - intros deal ticks price p closed db [R [M1 M2 M3 M4 M5 M6]] Ht Hp. split; [by apply (requests_ok_frame db)|]. constructor; [by apply (facts_ok_same None db)|try done..].
    + intros row [= <-] Hs. cbn in *. unfold has_settlement in *. cbn in Hs. rewrite Hs. apply orb_true_r.
    + intros row [= <-]. cbn. by exists p.
  - intros deal db [R M]. assert (∃ quota, close_quota_row deal db = set_db_deal_quota quota db) as [quota E].
    { exists (db_deal_quota (close_quota_row deal db)). unfold close_quota_row.
      destruct db as [? ? ? ? [q|] ? ? ? ? ?]; cbn; [by destruct (String.eqb _ _)|done]. }
    pose proof (closed_row deal db) as Hc. rewrite E in *. destruct M as [M1 M2 M3 M4 M5 M6].
    split; [by apply (requests_ok_frame db)|]. constructor; [by apply (facts_ok_same None db)|try done..].
    + intros row Hrow Hs. destruct (Hc row Hrow) as (old & Ho & Hd & _ & _ & [[_ ?]|[_ ->]]); [done|]. by apply M4.
    + intros row Hrow. destruct (Hc row Hrow) as (old & Ho & -> & -> & -> & _). by apply M5.
Qed.

Lemma record_prices_ok prices db db' : usage_ok timestamp db → record_prices prices db = Ok db' → usage_ok timestamp db'.
Proof.
  revert db. induction prices as [|[deal price] prices IH]; intros db Hdb H; cbn [record_prices] in H; [by injection H as <-|].
  apply bind_Ok in H as (p & _ & H). apply bind_Ok in H as (db1 & H1 & H). apply (IH db1); [|done].
  by eapply (qs_price _ usage_ok_stable).
Qed.

Lemma quota_step_ok ft op : op_wf (OQuota op) → keeps (about_tables (usage_ok timestamp)) (quota_step to_vec from_slice timestamp ft op).
Proof.
  intros Hwf. pose proof usage_ok_stable as Hst.
  destruct op as [deal|deal|deal ticks price|deal|b|deal accruals settlement now]; cbn [quota_step].
  - apply begin_keeps_tables.
  - apply discard_keeps_tables.
  - by apply open_keeps_tables.
  - by apply close_keeps_tables.
  - by apply restore_keeps_tables.
  - destruct Hwf as [Hwa Hws]. unfold apply_deal_expenses. apply keeps_bind.
    + apply transaction_keeps. intros db db' Hdb. by apply expenses_usage_ok.
    + intros _. destruct settlement as [fact|]; [by apply close_keeps_tables|apply keeps_ret].
Qed.

Lemma usage_step_ok ft op : op_wf op → keeps (about_tables (usage_ok timestamp)) (usage_step ft op).
Proof.
  intros Hwf. destruct op; cbn [usage_step]; try by apply quota_step_ok.
  all: apply transaction_keeps; intros db db' Hdb H; pose proof (ro_totals _ (proj1 Hdb)) as Ht.
  - eapply request_step_ok; [by eapply start_request_step|by eapply start_request_totals|done].
  - eapply request_step_ok; [by eapply link_deal_step|by eapply link_deal_totals|done].
  - eapply request_step_ok; [by eapply set_request_streamed_step|by eapply set_request_streamed_totals|done].
  - eapply request_step_ok; [by eapply record_call_step|by eapply record_call_totals|done].
  - eapply request_step_ok; [by eapply mark_history_step|by eapply mark_history_totals|done].
  - eapply request_step_ok; [by eapply finish_request_step|by eapply finish_request_totals|done].
  - injection H as <-. eapply request_step_ok; [apply recover_step|by apply recover_interrupted_totals|done].
  - eapply marks_ok; [by eapply register_deal_only|done].
  - eapply marks_ok; [by eapply mark_deal_only|done].
  - eapply marks_ok; [by eapply mark_operations_only|done].
  - eapply marks_ok; [by eapply operations_complete_only|done].
  - eapply marks_ok; [by eapply note_incomplete_only|done].
  - eapply marks_ok; [by eapply note_complete_only|done].
  - by eapply (qs_price _ usage_ok_stable).
  - unfold recover_prices in H. apply bind_Ok in H as (probes & _ & H). by eapply record_prices_ok.
  - by eapply classify_usage_ok.
  - by eapply operational_usage_ok.
Qed.

Lemma reached_ok s : reached s → usage_ok timestamp (st_db s).
Proof. induction 1 as [journal|s ft op _ IH Hwf]; [apply empty_usage_ok|by apply usage_step_ok]. Qed.
End Reach.
