(* ===== verification/UsageProps.v ===== *)
(** * What the buyer's usage history promises

    The properties of every reached store: the admission snapshot and the report agree, costs
    and settlements add up to the unit, replays change nothing, settled deals offer nothing,
    and the facts can be paged through completely.  Each comes with a recorded history in
    which it applies. *)
From S2P Require Import Prelude RustText Params UsageData UsageRequests UsageTotals UsageConsumption UsageMoney.
From S2P Require Import UsageMoneyInv UsageReplay UsageFacts UsageFrame UsageQuota UsageCrash.
From S2P Require Import UsageRun.

Section Props.
#[local] Arguments umax : simpl never.
Context {Bytes : Type} (to_vec : QuotaJournal → Bytes) (from_slice : Bytes → option QuotaJournal).
Context (timestamp : Z → bool).
Abbreviation reached := (reached to_vec from_slice timestamp).

(** C35: whatever requests, restarts, settlements and failures came before, the quota the
    constant-time admission snapshot reads from its counters is the one the history report
    adds up from every call, errors included. *)
Theorem snapshot_matches_report (s : Store Bytes) model : reached s →
  rmap sn_quota (admission_snapshot_in model (st_db s)) = quota_in (st_db s).
Proof.
  intros [[Ht Hf Hc] _]%reached_ok. unfold admission_snapshot_in, quota_in, quota_with_cost_in.
  destruct (db_deal_quota (st_db s)) as [row|]; [|done]. destruct (parse_u128 (qr_price_raw row)) as [price|]; [cbn [rbind]|done].
  destruct (parse_u128 (qr_filled_ticks row)) as [ticks|]; [cbn [rbind]|done].
  destruct (checked_mul u128 ticks price) as [limit|]; [cbn [ok_or rbind]|done].
  rewrite consumed_cost_counter by done. by destruct (consumption_cost _ _).
Qed.

(** C38: in every history, whatever file was found in the journal's place, the current purchase
    has terms that parse, are positive and multiply, so its quota can be read whenever the cost
    of its calls can; and once a settlement of it is recorded the buyer is offered nothing of
    it, whatever is reopened, restored or fails afterwards. *)
Theorem settled_purchase_offers_nothing (s : Store Bytes) row : reached s → db_deal_quota (st_db s) = Some row →
  ∃ ticks price, parse_u128 (qr_filled_ticks row) = Ok ticks ∧ parse_u128 (qr_price_raw row) = Ok price ∧
    0 < ticks ∧ 0 < price ∧ ticks * price ≤ umax u128 ∧
    quota_in (st_db s) = (let? used := consumed_cost_in (st_db s) (qr_deal_id row) price in
      Ok {| qo_limit := ticks * price; qo_used := used;
            qo_remaining := if qr_closed row || has_settlement (qr_deal_id row) (st_db s) then 0
                            else Z.max 0 (ticks * price - used) |}).
Proof.
  intros [_ M]%reached_ok Hrow. destruct (mo_recorded _ _ M row Hrow) as (price & (ticks & Et & Ep & Ht & Hp & Hm) & _).
  exists ticks, price. split_and!; [done..|]. unfold quota_in, quota_with_cost_in.
  rewrite Hrow, Ep, Et. cbn [rbind]. rewrite checked_mul_fits by done. cbn [ok_or rbind].
  destruct (consumed_cost_in _ _ _) as [used|]; [cbn [rbind]|done]. do 2 f_equal. unfold saturating_sub.
  destruct (has_settlement (qr_deal_id row) (st_db s)) eqn:Hs; [by rewrite (mo_settled _ _ M row Hrow Hs)|]. by rewrite orb_false_r.
Qed.

(** C37: in every history no fact is classified beyond its confirmed amount, of whatever kind it
    is; a settlement confirmed with the buyer's credits is split without loss: what the deal
    accrued while it ran and the residual of its settlement add up to the contributions less the
    credits; and a deal has one settlement. *)
Theorem settlement_partition (s : Store Bytes) : reached s →
  (∀ source row, db_money_facts (st_db s) !! source = Some row →
     ∃ amount, fact_amount row = Ok amount ∧ 0 ≤ classified row ≤ unwrap_or 0 amount) ∧
  ∀ source row deal, db_money_facts (st_db s) !! source = Some row → of_deal KSettlement deal row = true →
    (∀ credit, fa_buyer_credit_raw row = Some credit →
       ∃ escrow bond residual, fa_escrow_raw row = Some escrow ∧ fa_buyer_bond_raw row = Some bond ∧ fa_spent_raw row = Some residual ∧
         fact_amount row = Ok (Some residual) ∧ accrued (st_db s) deal + residual = escrow + bond - credit ∧ 0 ≤ residual) ∧
    ∀ source' row', db_money_facts (st_db s) !! source' = Some row' → of_deal KSettlement deal row' = true → source' = source.
Proof.
  intros [_ M]%reached_ok. split.
  { intros source row Hrow. pose proof (mo_sane _ _ M _ _ Hrow) as Hsane. pose proof (classified_nonneg timestamp _ _ Hsane).
    destruct Hsane as [_ _ _ (amount & Ha & _ & _ & _ & _ & Hcl & _)]. by exists amount. }
  intros source row deal Hrow Ho. split; [|intros; by eapply (fo_unique _ _ (mo_facts _ _ M))]. intros credit Hc.
  pose proof (fo_fact _ _ (mo_facts _ _ M) _ _ Hrow) as Hf. apply of_deal_true in Ho as [Hk Hd].
  unfold fact_ok in Hf. rewrite Hk in Hf. destruct Hf as (d & e & b & E1 & E2 & E3 & _ & _ & _ & Hf). rewrite Hc in Hf.
  destruct (mo_sane _ _ M _ _ Hrow) as [_ _ Hp _].
  destruct (proj1 (Hp Hk)) as [residual Er]; [by eexists|]. rewrite Er in Hf.
  exists e, b, residual. assert (d = deal) as -> by congruence. repeat split; try done; try lia.
  apply amount_spent; [done|]. intros _. by eexists.
Qed.

(** In every history, reporting the accruals and the settlement of a deal a second time (as
    the buyer does after a restart, whatever the time of recording) succeeds and changes no
    table. *)
Theorem expenses_replay (s : Store Bytes) deal accruals settlement now later db' : reached s →
  Forall accrual_wf accruals → (∀ fact, settlement = Some fact → settlement_wf fact) →
  apply_deal_expenses_in timestamp deal accruals settlement now (st_db s) = Ok db' →
  apply_deal_expenses_in timestamp deal accruals settlement later db' = Ok db'.
Proof.
  intros [_ M]%reached_ok Hwa Hws H. pose proof (mo_facts _ _ M) as Hok.
  apply recorded_replays; [by eapply apply_expenses_ok|by eapply expenses_are_recorded].
Qed.

(** The report walks every accepted call of a history once, gives none a negative cost, and
    the costs of the calls of a deal add up to the unit to what all its tokens cost at its
    price. *)
Theorem consumption_adds_up (s : Store Bytes) out : reached s → consumption_in (st_db s) = Ok out →
  map fst out = call_costs (st_db s) ∧ Forall (λ item, 0 ≤ item.2) out ∧
  ∀ deal price, db_deal_prices (st_db s) !! deal = Some price →
    consumed_cost_in (st_db s) deal price = Ok (zsum (share_of deal) out).
Proof.
  intros [[_ _ Hc] M]%reached_ok. apply consumption_telescopes; [done|]. intros deal price Hp.
  apply Z.lt_le_incl. by apply (mo_prices _ _ M deal).
Qed.

Section Pages.
Context (parse_from_rfc3339 : string → option Z) (iso : Z → string).
Context (encode_cursor : FactsCursor → string) (decode_cursor : string → option FactsCursor).
Context (store network : string).

(** A client that follows the cursors of an unchanged history comes to an end, after at most
    one page more than there are facts, and has then seen every confirmed fact of the period
    exactly once, ordered by time: no page fails, repeats a fact or leaves one out. *)
Theorem facts_traversal_exact (s : Store Bytes) q from to limit fuel :
  reached s → (∀ at_, timestamp at_ = true → - 2 ^ 63 ≤ at_ < 2 ^ 63 - 1) →
  facts_bounds parse_from_rfc3339 q = Ok (from, to) → page_limit q = Ok limit →
  (∀ key, anchor_exists (st_db s) key = true →
    decode_cursor (encode_cursor (cursor_at store network from to (st_db s) key)) = Some (cursor_at store network from to (st_db s) key) ∧
    Z.of_nat (String.length (encode_cursor (cursor_at store network from to (st_db s) key))) ≤ BUYER_USAGE_FACTS_MAX_CURSOR_BYTES) →
  (length (facts_of_period from to (st_db s)) < fuel)%nat →
  ∃ out, traverse parse_from_rfc3339 iso encode_cursor decode_cursor store network fuel q None (st_db s) = Some (Ok out) ∧
    shown iso network (facts_of_period from to (st_db s)) out ∧ in_order (facts_of_period from to (st_db s)).
Proof.
  intros [_ M]%reached_ok Htime Hb Hl Hcodec Hfuel.
  by apply (traverse_all timestamp Htime _ _ _ _ _ _ _ _ _ _ limit (mo_sane _ _ M) (mo_revision _ _ M)).
Qed.
End Pages.
End Props.

(** * A recorded history

    A deal bought, used, stopped by a settlement and accounted for, with one failed SQLite
    write on the way: the history at which the properties of the usage store are evaluated. *)

Module Sample.
Definition timestamp (at_ : Z) : bool := (-8000000000000000 <=? at_) && (at_ <=? 8000000000000000).
Lemma timestamp_range at_ : timestamp at_ = true → - 2 ^ 63 ≤ at_ < 2 ^ 63 - 1.
Proof. unfold timestamp. rewrite andb_true_iff, !Z.leb_le. lia. Qed.

(** A file whose content is the record itself. *)
Abbreviation file := QuotaJournal.
Definition to_vec (record : QuotaJournal) : file := record.
Definition from_slice (bytes : file) : option QuotaJournal := Some bytes.
Lemma codec record : from_slice (to_vec record) = Some record.
Proof. done. Qed.
Abbreviation step := (usage_step to_vec from_slice timestamp).
Abbreviation history := (reached to_vec from_slice timestamp).

Fixpoint run (ops : list (Faults * UsageOp)) (s : Store file) : Store file :=
  match ops with [] => s | (ft, op) :: ops => run ops (step ft op s).2 end.
Lemma run_reached ops s : Forall (λ o, op_wf o.2) ops → history s → history (run ops s).
Proof. intros H. revert s. induction H as [|[ft op] ops Hop _ IH]; intros s Hs; [done|]. cbn. apply IH. by constructor. Qed.

Definition quota_busy : Faults := {|
  ft_read := None; ft_write := None; ft_remove := None; ft_select := None; ft_price := None;
  ft_quota := Some f["database is locked"] |}.
Definition start : Store file := {| st_db := empty_db; st_journal := None |}.
Definition usage : BillingUsage := {|
  bu_input_tokens := 1200000; bu_output_tokens := 300000; bu_total_tokens := 1500000; bu_charged_tokens := None;
  bu_cache_read_tokens := 0; bu_cache_write_tokens := 0 |}.
Definition accrual : AccrualFact := {| ac_source_id := "tick-1"; ac_occurred_at := 3; ac_spent_raw := 2000000000 |}.
Definition settlement : SettlementFact := {|
  sf_source_id := "end"; sf_deal_id := "d"; sf_occurred_at := 5; sf_escrow_raw := 4000000000;
  sf_buyer_bond_raw := 0; sf_buyer_credit_raw := Some 1500000000 |}.
Definition buy_fee : OperationalFact := {|
  of_source_id := "fee"; of_deal_id := Some "d"%string; of_model := None; of_occurred_at := 1; of_spent_raw := 7 |}.
Definition consumed : ExpenseBreakdown := {|
  eb_consumption_raw := 2000000000; eb_commission_raw := 0; eb_burns_raw := 0; eb_unused_capacity_raw := 0;
  eb_probe_consumption_tokens := None |}.

Definition serving_ops : list (Faults * UsageOp) := [
  (no_faults, ORegister "d" "m" 1000);
  (no_faults, OQuota (QBegin "d"));
  (quota_busy, OQuota (QOpen "d" 4 1000000000));
  (no_faults, OQuota (QRestore true));
  (no_faults, OStart "r" "q1" "m" "openai" false 2000);
  (no_faults, OLink "q1" "d");
  (no_faults, OCall "q1" "answer" "answer" usage true 2100);
  (no_faults, OFinish "q1" 200 (Some "stop"%string) None 2200);
  (no_faults, OOperational buy_fee 2300);
  (no_faults, OQuota (QSettle "d" [accrual] None 3000));
  (no_faults, OClassify "tick-1" consumed)].
Definition serving : Store file := run serving_ops start.
Definition settled : Store file := run [(no_faults, OQuota (QSettle "d" [] (Some settlement) 6000))] serving.

Lemma serving_reached : history serving.
Proof. apply run_reached; [|constructor]. unfold serving_ops. repeat constructor; cbn; try done; try lia. Qed.
End Sample.
Import Sample.

Lemma settled_reached : history settled.
Proof.
  apply run_reached; [|apply serving_reached]. constructor; [|constructor]. split; [constructor|].
  - intros fact [= <-]. unfold settlement_wf, in_range. cbn. split_and!; try lia. intros c [= <-]. lia.
Qed.

Lemma snapshot_matches_report_witness :
  rmap sn_quota (admission_snapshot_in "m" (st_db serving)) = quota_in (st_db serving) ∧
  quota_in (st_db serving) = Ok {| qo_limit := 4000000000; qo_used := 1500000000; qo_remaining := 2500000000 |}.
Proof. split; [apply (snapshot_matches_report to_vec from_slice timestamp), serving_reached|by vm_compute]. Defined.

Definition settled_row : QuotaRow :=
  {| qr_deal_id := "d"; qr_filled_ticks := "4"; qr_price_raw := "1000000000"; qr_closed := true |}.
Lemma settled_purchase_offers_nothing_witness :
  has_settlement "d" (st_db settled) = true ∧ ∃ ticks price,
    parse_u128 (qr_filled_ticks settled_row) = Ok ticks ∧ parse_u128 (qr_price_raw settled_row) = Ok price ∧
    0 < ticks ∧ 0 < price ∧ ticks * price ≤ umax u128 ∧
    quota_in (st_db settled) = (let? used := consumed_cost_in (st_db settled) "d" price in
      Ok {| qo_limit := ticks * price; qo_used := used;
            qo_remaining := if qr_closed settled_row || has_settlement "d" (st_db settled) then 0
                            else Z.max 0 (ticks * price - used) |}).
Proof.
  split; [by vm_compute|].
  apply (settled_purchase_offers_nothing to_vec from_slice timestamp settled settled_row settled_reached). by vm_compute.
Defined.
Example settled_quota : quota_in (st_db settled) = Ok {| qo_limit := 4000000000; qo_used := 1500000000; qo_remaining := 0 |}.
Proof. by vm_compute. Qed.

Definition settled_fact : FactRow := {|
  fa_kind := KSettlement; fa_deal_id := Some "d"%string; fa_model := Some "m"%string; fa_occurred_at := 5000;
  fa_recorded_at := 6000; fa_escrow_raw := Some 4000000000; fa_buyer_bond_raw := Some 0;
  fa_buyer_credit_raw := Some 1500000000; fa_spent_raw := Some 500000000; fa_consumption_raw := 0;
  fa_commission_raw := 0; fa_burns_raw := 0; fa_unused_capacity_raw := 0; fa_probe_consumption_tokens := None |}.

Lemma settlement_partition_witness :
  accrued (st_db settled) "d" = 2000000000 ∧ ∃ escrow bond residual, fa_escrow_raw settled_fact = Some escrow ∧
    fa_buyer_bond_raw settled_fact = Some bond ∧ fa_spent_raw settled_fact = Some residual ∧
    fact_amount settled_fact = Ok (Some residual) ∧
    accrued (st_db settled) "d" + residual = escrow + bond - 1500000000 ∧ 0 ≤ residual.
Proof.
  split; [by vm_compute|].
  apply (proj2 (settlement_partition to_vec from_slice timestamp settled settled_reached) "end" settled_fact "d"); by vm_compute.
Defined.

Definition replayed : UsageDb :=
  match apply_deal_expenses_in timestamp "d" [accrual] (Some settlement) 6000 (st_db serving) with Ok db => db | Err _ => empty_db end.
Lemma expenses_replay_witness :
  apply_deal_expenses_in timestamp "d" [accrual] (Some settlement) 9999 replayed = Ok replayed.
Proof.
  apply (expenses_replay to_vec from_slice timestamp serving "d" [accrual] (Some settlement) 6000 9999 replayed serving_reached).
  - repeat constructor; cbn; lia.
  - intros fact [= <-]. unfold settlement_wf, in_range. cbn. split_and!; try lia. intros c [= <-]. lia.
  - by vm_compute.
Defined.

Definition serving_costs : list (CallCost * Z) :=
  match consumption_in (st_db serving) with Ok out => out | Err _ => [] end.
Lemma consumption_adds_up_witness :
  map snd serving_costs = [1500000000] ∧
  (map fst serving_costs = call_costs (st_db serving) ∧ Forall (λ item, 0 ≤ item.2) serving_costs ∧
   ∀ deal price, db_deal_prices (st_db serving) !! deal = Some price →
     consumed_cost_in (st_db serving) deal price = Ok (zsum (share_of deal) serving_costs)).
Proof.
  split; [by vm_compute|].
  apply (consumption_adds_up to_vec from_slice timestamp serving serving_costs serving_reached). by vm_compute.
Defined.

Module Pages.
Definition query : UsageFactsQuery := {| fq_from := None; fq_to := None; fq_limit := Some 1; fq_cursor := None |}.
Definition parse_from_rfc3339 (_ : string) : option Z := None.
Definition encode_cursor (c : FactsCursor) : string := (fc_after c).2.
Definition decode_cursor (db : UsageDb) (s : string) : option FactsCursor :=
  option_map (λ row, cursor_at "store" "net" None None db (fa_occurred_at row, s)) (db_money_facts db !! s).
Definition pages (fuel : nat) : option (Result FactsError (list UsageFact)) :=
  traverse parse_from_rfc3339 to_string encode_cursor (decode_cursor (st_db settled)) "store" "net" fuel query None (st_db settled).
Definition short (facts : gmap string FactRow) : bool :=
  forallb (λ kv, Z.of_nat (String.length kv.1) <=? BUYER_USAGE_FACTS_MAX_CURSOR_BYTES) (map_to_list facts).
Lemma short_source facts source row : short facts = true → facts !! source = Some row →
  Z.of_nat (String.length source) ≤ BUYER_USAGE_FACTS_MAX_CURSOR_BYTES.
Proof.
  unfold short. rewrite forallb_forall. intros H Hrow. apply Z.leb_le, (H (source, row)).
  by apply list_elem_of_In, elem_of_map_to_list.
Qed.
Lemma codec_ok db key : short (db_money_facts db) = true → anchor_exists db key = true →
  decode_cursor db (encode_cursor (cursor_at "store" "net" None None db key)) = Some (cursor_at "store" "net" None None db key) ∧
  Z.of_nat (String.length (encode_cursor (cursor_at "store" "net" None None db key))) ≤ BUYER_USAGE_FACTS_MAX_CURSOR_BYTES.
Proof.
  destruct key as [at_ source]. unfold anchor_exists, decode_cursor, encode_cursor. cbn. intros Hs Ha.
  destruct (db_money_facts db !! source) as [row|] eqn:Hrow; [|done]. apply Z.eqb_eq in Ha. subst at_.
  split; [done|]. by eapply short_source.
Qed.
End Pages.

Lemma facts_traversal_exact_witness :
  option_map (rmap (map uf_source_id)) (Pages.pages 4) = Some (Ok ["fee"; "tick-1"; "end"]%string) ∧
  ∃ out, Pages.pages 4 = Some (Ok out) ∧ shown to_string "net" (facts_of_period None None (st_db settled)) out ∧
    in_order (facts_of_period None None (st_db settled)).
Proof.
  split; [by vm_compute|].
  apply (facts_traversal_exact to_vec from_slice timestamp Pages.parse_from_rfc3339 to_string Pages.encode_cursor (Pages.decode_cursor (st_db settled))
    "store" "net" settled Pages.query None None 1 4 settled_reached timestamp_range);
    [vm_compute; reflexivity|vm_compute; reflexivity| |apply Nat.ltb_lt; vm_compute; reflexivity].
  intros key. apply Pages.codec_ok. vm_compute. reflexivity.
Defined.

(** The crash of the sample: the purchase reached the journal, but not the table. *)
Definition opening : Store file := run (take 2 serving_ops) start.
Definition crashed : Result text () * Store file := open_deal_quota to_vec from_slice quota_busy "d" 4 1000000000 opening.
Lemma purchase_survives_witness :
  (∃ e, crashed.1 = Err e ∧ crashed.2 = opening) ∨
  ∃ closed s2, open_store from_slice no_faults crashed.2 = (Ok (), s2) ∧ installed "d" 4 1000000000 closed (st_db s2) ∧
    st_journal s2 = st_journal crashed.2 ∧ st_journal crashed.2 = Some (to_vec (purchase "d" 4 1000000000 closed)).
Proof.
  apply (purchase_survives to_vec from_slice codec quota_busy opening "d" 4 1000000000 crashed.1 crashed.2);
    [by repeat split| |unfold crashed; apply surjective_pairing].
  split; [intros q H; vm_compute in H; discriminate H|intros row H; vm_compute in H; discriminate H].
Defined.

Definition stopped : Result text () * Store file := close_deal_quota to_vec from_slice quota_busy "d" serving.
Lemma stop_survives_witness :
  (∃ e, stopped.1 = Err e ∧ stopped.2 = serving) ∨
  ∃ s2, open_store from_slice no_faults stopped.2 = (Ok (), s2) ∧ installed "d" 4 1000000000 true (st_db s2).
Proof.
  apply (stop_survives to_vec from_slice codec quota_busy serving "d" 4 1000000000 false stopped.1 stopped.2);
    [by repeat split| |by vm_compute|unfold stopped; apply surjective_pairing].
  split; [intros q H; vm_compute in H; by injection H as <-|intros row H; vm_compute in H; by injection H as <-].
Defined.

Lemma closed_quota_stays_closed_witness :
  stays_closed settled_row (st_db (quota_step to_vec from_slice timestamp no_faults (QOpen "d" 4 1000000000) settled).2).
Proof. apply (closed_quota_stays_closed to_vec from_slice timestamp); by vm_compute. Defined.
