(* ===== verification/MockData.v ===== *)
(** * State of the mock chain: crates/core/src/market/mock.rs

    The persisted state, its default, field updates (one function per field, standing for
    the assignments of the code) and the validation every load runs.  The iteration order
    of a [HashMap] is unspecified; the loops of the validation visit the keys in the order
    of [map_to_list], and nothing depends on which of several errors comes first. *)
From S2P Require Import Prelude RustText Params Address DealTypes Machine.
From Stdlib Require Import Strings.Byte Strings.Ascii.

(** The endpoints file: the handover ciphertext of each deal. *)
Record EndpointsFile : Type := { handovers : gmap string (list Byte.byte) }.

(** One deal: the stream machine and the money of its contract. *)
Record StreamCell : Type := mkCell {
  sc_schema_version : Z;
  sc_machine : StreamMachine;
  sc_probe_accepted : bool;
  sc_buyer_pubkey : NotePubkey;
  sc_seller_locked : Z;
  sc_buyer_locked : Z;
  sc_probe_locked : Z;
  sc_probe_time : Z;
  sc_buyer_bond : Z;
  sc_fee_accrued : Z;
  sc_tokens_final : Z;
  sc_tokens_pending : Z;
  sc_last_claim_time : Z;
  sc_seller_received : Z;
  sc_buyer_refunded : Z;
  sc_burned : Z;
  sc_closed : bool;
  sc_max_ticks : Z;
  sc_disputed : bool;
  sc_dispute_time : Z;
  sc_buyer_stop_settlement : option (Z * Z);
}.

Definition STREAM_CELL_SCHEMA_VERSION : Z := 3.

Inductive MockSubscriptionExit : Type := Cancelled | Expired.
Record MockSubscriptionTerminal : Type := {
  mt_order : OrderBookOrder;
  mt_order_book : string;
  mt_reason : MockSubscriptionExit;
  mt_refunded : Z;
}.

Record MockState : Type := mkState {
  ms_offers : gmap string SellOffer;
  ms_matched_offers : gmap string SellOffer;
  ms_matched_ticks : gmap string Z;
  ms_deal_subscriptions : gmap string DealSubscription;
  ms_offer_sellers : gmap string string;
  ms_offer_deadlines : gmap string Z;
  ms_deal_terms : gmap string (Z * Z);
  ms_expired_generations : gmap string Z;
  ms_matches : gmap string Match;
  ms_match_created_at : gmap string Z;
  ms_streams : gmap string StreamCell;
  ms_subscription_orders : gmap Z OrderBookOrder;
  ms_subscription_order_books : gmap Z string;
  ms_subscription_terminal_orders : gmap Z MockSubscriptionTerminal;
  ms_next_subscription_order_id : Z;
}.

Definition MockState_default : MockState :=
  mkState ∅ ∅ ∅ ∅ ∅ ∅ ∅ ∅ ∅ ∅ ∅ ∅ ∅ ∅ 0.

(** ** Field updates *)

Definition set_sc_schema_version (v : Z) (c : StreamCell) : StreamCell :=
  mkCell v (sc_machine c) (sc_probe_accepted c) (sc_buyer_pubkey c) (sc_seller_locked c)
    (sc_buyer_locked c) (sc_probe_locked c) (sc_probe_time c) (sc_buyer_bond c) (sc_fee_accrued
    c) (sc_tokens_final c) (sc_tokens_pending c) (sc_last_claim_time c) (sc_seller_received c)
    (sc_buyer_refunded c) (sc_burned c) (sc_closed c) (sc_max_ticks c) (sc_disputed c)
    (sc_dispute_time c) (sc_buyer_stop_settlement c).
Definition set_sc_machine (v : StreamMachine) (c : StreamCell) : StreamCell :=
  mkCell (sc_schema_version c) v (sc_probe_accepted c) (sc_buyer_pubkey c) (sc_seller_locked c)
    (sc_buyer_locked c) (sc_probe_locked c) (sc_probe_time c) (sc_buyer_bond c) (sc_fee_accrued
    c) (sc_tokens_final c) (sc_tokens_pending c) (sc_last_claim_time c) (sc_seller_received c)
    (sc_buyer_refunded c) (sc_burned c) (sc_closed c) (sc_max_ticks c) (sc_disputed c)
    (sc_dispute_time c) (sc_buyer_stop_settlement c).
Definition set_sc_probe_accepted (v : bool) (c : StreamCell) : StreamCell :=
  mkCell (sc_schema_version c) (sc_machine c) v (sc_buyer_pubkey c) (sc_seller_locked c)
    (sc_buyer_locked c) (sc_probe_locked c) (sc_probe_time c) (sc_buyer_bond c) (sc_fee_accrued
    c) (sc_tokens_final c) (sc_tokens_pending c) (sc_last_claim_time c) (sc_seller_received c)
    (sc_buyer_refunded c) (sc_burned c) (sc_closed c) (sc_max_ticks c) (sc_disputed c)
    (sc_dispute_time c) (sc_buyer_stop_settlement c).
Definition set_sc_buyer_pubkey (v : NotePubkey) (c : StreamCell) : StreamCell :=
  mkCell (sc_schema_version c) (sc_machine c) (sc_probe_accepted c) v (sc_seller_locked c)
    (sc_buyer_locked c) (sc_probe_locked c) (sc_probe_time c) (sc_buyer_bond c) (sc_fee_accrued
    c) (sc_tokens_final c) (sc_tokens_pending c) (sc_last_claim_time c) (sc_seller_received c)
    (sc_buyer_refunded c) (sc_burned c) (sc_closed c) (sc_max_ticks c) (sc_disputed c)
    (sc_dispute_time c) (sc_buyer_stop_settlement c).
Definition set_sc_seller_locked (v : Z) (c : StreamCell) : StreamCell :=
  mkCell (sc_schema_version c) (sc_machine c) (sc_probe_accepted c) (sc_buyer_pubkey c) v
    (sc_buyer_locked c) (sc_probe_locked c) (sc_probe_time c) (sc_buyer_bond c) (sc_fee_accrued
    c) (sc_tokens_final c) (sc_tokens_pending c) (sc_last_claim_time c) (sc_seller_received c)
    (sc_buyer_refunded c) (sc_burned c) (sc_closed c) (sc_max_ticks c) (sc_disputed c)
    (sc_dispute_time c) (sc_buyer_stop_settlement c).
Definition set_sc_buyer_locked (v : Z) (c : StreamCell) : StreamCell :=
  mkCell (sc_schema_version c) (sc_machine c) (sc_probe_accepted c) (sc_buyer_pubkey c)
    (sc_seller_locked c) v (sc_probe_locked c) (sc_probe_time c) (sc_buyer_bond c)
    (sc_fee_accrued c) (sc_tokens_final c) (sc_tokens_pending c) (sc_last_claim_time c)
    (sc_seller_received c) (sc_buyer_refunded c) (sc_burned c) (sc_closed c) (sc_max_ticks c)
    (sc_disputed c) (sc_dispute_time c) (sc_buyer_stop_settlement c).
Definition set_sc_probe_locked (v : Z) (c : StreamCell) : StreamCell :=
  mkCell (sc_schema_version c) (sc_machine c) (sc_probe_accepted c) (sc_buyer_pubkey c)
    (sc_seller_locked c) (sc_buyer_locked c) v (sc_probe_time c) (sc_buyer_bond c)
    (sc_fee_accrued c) (sc_tokens_final c) (sc_tokens_pending c) (sc_last_claim_time c)
    (sc_seller_received c) (sc_buyer_refunded c) (sc_burned c) (sc_closed c) (sc_max_ticks c)
    (sc_disputed c) (sc_dispute_time c) (sc_buyer_stop_settlement c).
Definition set_sc_probe_time (v : Z) (c : StreamCell) : StreamCell :=
  mkCell (sc_schema_version c) (sc_machine c) (sc_probe_accepted c) (sc_buyer_pubkey c)
    (sc_seller_locked c) (sc_buyer_locked c) (sc_probe_locked c) v (sc_buyer_bond c)
    (sc_fee_accrued c) (sc_tokens_final c) (sc_tokens_pending c) (sc_last_claim_time c)
    (sc_seller_received c) (sc_buyer_refunded c) (sc_burned c) (sc_closed c) (sc_max_ticks c)
    (sc_disputed c) (sc_dispute_time c) (sc_buyer_stop_settlement c).
Definition set_sc_buyer_bond (v : Z) (c : StreamCell) : StreamCell :=
  mkCell (sc_schema_version c) (sc_machine c) (sc_probe_accepted c) (sc_buyer_pubkey c)
    (sc_seller_locked c) (sc_buyer_locked c) (sc_probe_locked c) (sc_probe_time c) v
    (sc_fee_accrued c) (sc_tokens_final c) (sc_tokens_pending c) (sc_last_claim_time c)
    (sc_seller_received c) (sc_buyer_refunded c) (sc_burned c) (sc_closed c) (sc_max_ticks c)
    (sc_disputed c) (sc_dispute_time c) (sc_buyer_stop_settlement c).
Definition set_sc_fee_accrued (v : Z) (c : StreamCell) : StreamCell :=
  mkCell (sc_schema_version c) (sc_machine c) (sc_probe_accepted c) (sc_buyer_pubkey c)
    (sc_seller_locked c) (sc_buyer_locked c) (sc_probe_locked c) (sc_probe_time c)
    (sc_buyer_bond c) v (sc_tokens_final c) (sc_tokens_pending c) (sc_last_claim_time c)
    (sc_seller_received c) (sc_buyer_refunded c) (sc_burned c) (sc_closed c) (sc_max_ticks c)
    (sc_disputed c) (sc_dispute_time c) (sc_buyer_stop_settlement c).
Definition set_sc_tokens_final (v : Z) (c : StreamCell) : StreamCell :=
  mkCell (sc_schema_version c) (sc_machine c) (sc_probe_accepted c) (sc_buyer_pubkey c)
    (sc_seller_locked c) (sc_buyer_locked c) (sc_probe_locked c) (sc_probe_time c)
    (sc_buyer_bond c) (sc_fee_accrued c) v (sc_tokens_pending c) (sc_last_claim_time c)
    (sc_seller_received c) (sc_buyer_refunded c) (sc_burned c) (sc_closed c) (sc_max_ticks c)
    (sc_disputed c) (sc_dispute_time c) (sc_buyer_stop_settlement c).
Definition set_sc_tokens_pending (v : Z) (c : StreamCell) : StreamCell :=
  mkCell (sc_schema_version c) (sc_machine c) (sc_probe_accepted c) (sc_buyer_pubkey c)
    (sc_seller_locked c) (sc_buyer_locked c) (sc_probe_locked c) (sc_probe_time c)
    (sc_buyer_bond c) (sc_fee_accrued c) (sc_tokens_final c) v (sc_last_claim_time c)
    (sc_seller_received c) (sc_buyer_refunded c) (sc_burned c) (sc_closed c) (sc_max_ticks c)
    (sc_disputed c) (sc_dispute_time c) (sc_buyer_stop_settlement c).
Definition set_sc_last_claim_time (v : Z) (c : StreamCell) : StreamCell :=
  mkCell (sc_schema_version c) (sc_machine c) (sc_probe_accepted c) (sc_buyer_pubkey c)
    (sc_seller_locked c) (sc_buyer_locked c) (sc_probe_locked c) (sc_probe_time c)
    (sc_buyer_bond c) (sc_fee_accrued c) (sc_tokens_final c) (sc_tokens_pending c) v
    (sc_seller_received c) (sc_buyer_refunded c) (sc_burned c) (sc_closed c) (sc_max_ticks c)
    (sc_disputed c) (sc_dispute_time c) (sc_buyer_stop_settlement c).
Definition set_sc_seller_received (v : Z) (c : StreamCell) : StreamCell :=
  mkCell (sc_schema_version c) (sc_machine c) (sc_probe_accepted c) (sc_buyer_pubkey c)
    (sc_seller_locked c) (sc_buyer_locked c) (sc_probe_locked c) (sc_probe_time c)
    (sc_buyer_bond c) (sc_fee_accrued c) (sc_tokens_final c) (sc_tokens_pending c)
    (sc_last_claim_time c) v (sc_buyer_refunded c) (sc_burned c) (sc_closed c) (sc_max_ticks c)
    (sc_disputed c) (sc_dispute_time c) (sc_buyer_stop_settlement c).
Definition set_sc_buyer_refunded (v : Z) (c : StreamCell) : StreamCell :=
  mkCell (sc_schema_version c) (sc_machine c) (sc_probe_accepted c) (sc_buyer_pubkey c)
    (sc_seller_locked c) (sc_buyer_locked c) (sc_probe_locked c) (sc_probe_time c)
    (sc_buyer_bond c) (sc_fee_accrued c) (sc_tokens_final c) (sc_tokens_pending c)
    (sc_last_claim_time c) (sc_seller_received c) v (sc_burned c) (sc_closed c) (sc_max_ticks c)
    (sc_disputed c) (sc_dispute_time c) (sc_buyer_stop_settlement c).
Definition set_sc_burned (v : Z) (c : StreamCell) : StreamCell :=
  mkCell (sc_schema_version c) (sc_machine c) (sc_probe_accepted c) (sc_buyer_pubkey c)
    (sc_seller_locked c) (sc_buyer_locked c) (sc_probe_locked c) (sc_probe_time c)
    (sc_buyer_bond c) (sc_fee_accrued c) (sc_tokens_final c) (sc_tokens_pending c)
    (sc_last_claim_time c) (sc_seller_received c) (sc_buyer_refunded c) v (sc_closed c)
    (sc_max_ticks c) (sc_disputed c) (sc_dispute_time c) (sc_buyer_stop_settlement c).
Definition set_sc_closed (v : bool) (c : StreamCell) : StreamCell :=
  mkCell (sc_schema_version c) (sc_machine c) (sc_probe_accepted c) (sc_buyer_pubkey c)
    (sc_seller_locked c) (sc_buyer_locked c) (sc_probe_locked c) (sc_probe_time c)
    (sc_buyer_bond c) (sc_fee_accrued c) (sc_tokens_final c) (sc_tokens_pending c)
    (sc_last_claim_time c) (sc_seller_received c) (sc_buyer_refunded c) (sc_burned c) v
    (sc_max_ticks c) (sc_disputed c) (sc_dispute_time c) (sc_buyer_stop_settlement c).
Definition set_sc_max_ticks (v : Z) (c : StreamCell) : StreamCell :=
  mkCell (sc_schema_version c) (sc_machine c) (sc_probe_accepted c) (sc_buyer_pubkey c)
    (sc_seller_locked c) (sc_buyer_locked c) (sc_probe_locked c) (sc_probe_time c)
    (sc_buyer_bond c) (sc_fee_accrued c) (sc_tokens_final c) (sc_tokens_pending c)
    (sc_last_claim_time c) (sc_seller_received c) (sc_buyer_refunded c) (sc_burned c) (sc_closed
    c) v (sc_disputed c) (sc_dispute_time c) (sc_buyer_stop_settlement c).
Definition set_sc_disputed (v : bool) (c : StreamCell) : StreamCell :=
  mkCell (sc_schema_version c) (sc_machine c) (sc_probe_accepted c) (sc_buyer_pubkey c)
    (sc_seller_locked c) (sc_buyer_locked c) (sc_probe_locked c) (sc_probe_time c)
    (sc_buyer_bond c) (sc_fee_accrued c) (sc_tokens_final c) (sc_tokens_pending c)
    (sc_last_claim_time c) (sc_seller_received c) (sc_buyer_refunded c) (sc_burned c) (sc_closed
    c) (sc_max_ticks c) v (sc_dispute_time c) (sc_buyer_stop_settlement c).
Definition set_sc_dispute_time (v : Z) (c : StreamCell) : StreamCell :=
  mkCell (sc_schema_version c) (sc_machine c) (sc_probe_accepted c) (sc_buyer_pubkey c)
    (sc_seller_locked c) (sc_buyer_locked c) (sc_probe_locked c) (sc_probe_time c)
    (sc_buyer_bond c) (sc_fee_accrued c) (sc_tokens_final c) (sc_tokens_pending c)
    (sc_last_claim_time c) (sc_seller_received c) (sc_buyer_refunded c) (sc_burned c) (sc_closed
    c) (sc_max_ticks c) (sc_disputed c) v (sc_buyer_stop_settlement c).
Definition set_sc_buyer_stop_settlement (v : option (Z * Z)) (c : StreamCell) : StreamCell :=
  mkCell (sc_schema_version c) (sc_machine c) (sc_probe_accepted c) (sc_buyer_pubkey c)
    (sc_seller_locked c) (sc_buyer_locked c) (sc_probe_locked c) (sc_probe_time c)
    (sc_buyer_bond c) (sc_fee_accrued c) (sc_tokens_final c) (sc_tokens_pending c)
    (sc_last_claim_time c) (sc_seller_received c) (sc_buyer_refunded c) (sc_burned c) (sc_closed
    c) (sc_max_ticks c) (sc_disputed c) (sc_dispute_time c) v.

Definition set_ms_offers (v : gmap string SellOffer) (st : MockState) : MockState :=
  mkState v (ms_matched_offers st) (ms_matched_ticks st) (ms_deal_subscriptions st)
    (ms_offer_sellers st) (ms_offer_deadlines st) (ms_deal_terms st) (ms_expired_generations st)
    (ms_matches st) (ms_match_created_at st) (ms_streams st) (ms_subscription_orders st)
    (ms_subscription_order_books st) (ms_subscription_terminal_orders st)
    (ms_next_subscription_order_id st).
Definition set_ms_matched_offers (v : gmap string SellOffer) (st : MockState) : MockState :=
  mkState (ms_offers st) v (ms_matched_ticks st) (ms_deal_subscriptions st) (ms_offer_sellers
    st) (ms_offer_deadlines st) (ms_deal_terms st) (ms_expired_generations st) (ms_matches st)
    (ms_match_created_at st) (ms_streams st) (ms_subscription_orders st)
    (ms_subscription_order_books st) (ms_subscription_terminal_orders st)
    (ms_next_subscription_order_id st).
Definition set_ms_matched_ticks (v : gmap string Z) (st : MockState) : MockState :=
  mkState (ms_offers st) (ms_matched_offers st) v (ms_deal_subscriptions st) (ms_offer_sellers
    st) (ms_offer_deadlines st) (ms_deal_terms st) (ms_expired_generations st) (ms_matches st)
    (ms_match_created_at st) (ms_streams st) (ms_subscription_orders st)
    (ms_subscription_order_books st) (ms_subscription_terminal_orders st)
    (ms_next_subscription_order_id st).
Definition set_ms_deal_subscriptions (v : gmap string DealSubscription) (st : MockState) : MockState :=
  mkState (ms_offers st) (ms_matched_offers st) (ms_matched_ticks st) v (ms_offer_sellers st)
    (ms_offer_deadlines st) (ms_deal_terms st) (ms_expired_generations st) (ms_matches st)
    (ms_match_created_at st) (ms_streams st) (ms_subscription_orders st)
    (ms_subscription_order_books st) (ms_subscription_terminal_orders st)
    (ms_next_subscription_order_id st).
Definition set_ms_offer_sellers (v : gmap string string) (st : MockState) : MockState :=
  mkState (ms_offers st) (ms_matched_offers st) (ms_matched_ticks st) (ms_deal_subscriptions st)
    v (ms_offer_deadlines st) (ms_deal_terms st) (ms_expired_generations st) (ms_matches st)
    (ms_match_created_at st) (ms_streams st) (ms_subscription_orders st)
    (ms_subscription_order_books st) (ms_subscription_terminal_orders st)
    (ms_next_subscription_order_id st).
Definition set_ms_offer_deadlines (v : gmap string Z) (st : MockState) : MockState :=
  mkState (ms_offers st) (ms_matched_offers st) (ms_matched_ticks st) (ms_deal_subscriptions st)
    (ms_offer_sellers st) v (ms_deal_terms st) (ms_expired_generations st) (ms_matches st)
    (ms_match_created_at st) (ms_streams st) (ms_subscription_orders st)
    (ms_subscription_order_books st) (ms_subscription_terminal_orders st)
    (ms_next_subscription_order_id st).
Definition set_ms_deal_terms (v : gmap string (Z * Z)) (st : MockState) : MockState :=
  mkState (ms_offers st) (ms_matched_offers st) (ms_matched_ticks st) (ms_deal_subscriptions st)
    (ms_offer_sellers st) (ms_offer_deadlines st) v (ms_expired_generations st) (ms_matches st)
    (ms_match_created_at st) (ms_streams st) (ms_subscription_orders st)
    (ms_subscription_order_books st) (ms_subscription_terminal_orders st)
    (ms_next_subscription_order_id st).
Definition set_ms_expired_generations (v : gmap string Z) (st : MockState) : MockState :=
  mkState (ms_offers st) (ms_matched_offers st) (ms_matched_ticks st) (ms_deal_subscriptions st)
    (ms_offer_sellers st) (ms_offer_deadlines st) (ms_deal_terms st) v (ms_matches st)
    (ms_match_created_at st) (ms_streams st) (ms_subscription_orders st)
    (ms_subscription_order_books st) (ms_subscription_terminal_orders st)
    (ms_next_subscription_order_id st).
Definition set_ms_matches (v : gmap string Match) (st : MockState) : MockState :=
  mkState (ms_offers st) (ms_matched_offers st) (ms_matched_ticks st) (ms_deal_subscriptions st)
    (ms_offer_sellers st) (ms_offer_deadlines st) (ms_deal_terms st) (ms_expired_generations st)
    v (ms_match_created_at st) (ms_streams st) (ms_subscription_orders st)
    (ms_subscription_order_books st) (ms_subscription_terminal_orders st)
    (ms_next_subscription_order_id st).
Definition set_ms_match_created_at (v : gmap string Z) (st : MockState) : MockState :=
  mkState (ms_offers st) (ms_matched_offers st) (ms_matched_ticks st) (ms_deal_subscriptions st)
    (ms_offer_sellers st) (ms_offer_deadlines st) (ms_deal_terms st) (ms_expired_generations st)
    (ms_matches st) v (ms_streams st) (ms_subscription_orders st) (ms_subscription_order_books
    st) (ms_subscription_terminal_orders st) (ms_next_subscription_order_id st).
Definition set_ms_streams (v : gmap string StreamCell) (st : MockState) : MockState :=
  mkState (ms_offers st) (ms_matched_offers st) (ms_matched_ticks st) (ms_deal_subscriptions st)
    (ms_offer_sellers st) (ms_offer_deadlines st) (ms_deal_terms st) (ms_expired_generations st)
    (ms_matches st) (ms_match_created_at st) v (ms_subscription_orders st)
    (ms_subscription_order_books st) (ms_subscription_terminal_orders st)
    (ms_next_subscription_order_id st).
Definition set_ms_subscription_orders (v : gmap Z OrderBookOrder) (st : MockState) : MockState :=
  mkState (ms_offers st) (ms_matched_offers st) (ms_matched_ticks st) (ms_deal_subscriptions st)
    (ms_offer_sellers st) (ms_offer_deadlines st) (ms_deal_terms st) (ms_expired_generations st)
    (ms_matches st) (ms_match_created_at st) (ms_streams st) v (ms_subscription_order_books st)
    (ms_subscription_terminal_orders st) (ms_next_subscription_order_id st).
Definition set_ms_subscription_order_books (v : gmap Z string) (st : MockState) : MockState :=
  mkState (ms_offers st) (ms_matched_offers st) (ms_matched_ticks st) (ms_deal_subscriptions st)
    (ms_offer_sellers st) (ms_offer_deadlines st) (ms_deal_terms st) (ms_expired_generations st)
    (ms_matches st) (ms_match_created_at st) (ms_streams st) (ms_subscription_orders st) v
    (ms_subscription_terminal_orders st) (ms_next_subscription_order_id st).
Definition set_ms_subscription_terminal_orders (v : gmap Z MockSubscriptionTerminal) (st : MockState) : MockState :=
  mkState (ms_offers st) (ms_matched_offers st) (ms_matched_ticks st) (ms_deal_subscriptions st)
    (ms_offer_sellers st) (ms_offer_deadlines st) (ms_deal_terms st) (ms_expired_generations st)
    (ms_matches st) (ms_match_created_at st) (ms_streams st) (ms_subscription_orders st)
    (ms_subscription_order_books st) v (ms_next_subscription_order_id st).
Definition set_ms_next_subscription_order_id (v : Z) (st : MockState) : MockState :=
  mkState (ms_offers st) (ms_matched_offers st) (ms_matched_ticks st) (ms_deal_subscriptions st)
    (ms_offer_sellers st) (ms_offer_deadlines st) (ms_deal_terms st) (ms_expired_generations st)
    (ms_matches st) (ms_match_created_at st) (ms_streams st) (ms_subscription_orders st)
    (ms_subscription_order_books st) (ms_subscription_terminal_orders st) v.

(** The deal a handler borrowed mutably, written back into its two maps. *)
Definition set_deal (tc : string) (cell : StreamCell) (subscription : DealSubscription) (st : MockState)
    : MockState :=
  set_ms_deal_subscriptions (<[tc := subscription]> (ms_deal_subscriptions st))
    (set_ms_streams (<[tc := cell]> (ms_streams st)) st).

(** ** Identity of a note: hexadecimal of its ed25519 key (mod.rs) *)

Definition byte_value (b : Byte.byte) : Z := Z.of_N (Byte.to_N b).
Definition note_id_hex (pk : NotePubkey) : string :=
  foldr (λ b s, hex2 (byte_value b) +:+ s) EmptyString (pk_ed pk).

(** ** Validation of a loaded state *)

Definition invalid_persisted_state (token_contract : string) (reason : text) : ChainError :=
  EndpointsFile_error (f["mock TokenContract "; token_contract; ": invalid persisted state: "] ++ reason).

Definition validate_persisted_subscription (token_contract : string) (s : DealSubscription) (now : Z)
    : Result ChainError () :=
  let invalid (reason : text) : Result ChainError () := Err (invalid_persisted_state token_contract reason) in
  let unknown := Z.land (deal_flags s) (255 - flags.DEAL_MASK) in
  if negb (unknown =? 0) then
    invalid f["dealFlags contains unknown deal-shape bits 0x"; Hex2 unknown]
  else
  let subscription_flag := has_flag (deal_flags s) flags.SUBSCRIPTION in
  if negb (Bool.eqb subscription_flag (negb (sub_weeks s =? 0))) then
    invalid f["contradictory subscription flag/subWeeks shape: dealFlags=0x"; Hex2 (deal_flags s); ", subWeeks="; sub_weeks s]
  else if week_index s >? sub_weeks s then
    invalid f["weekIndex "; week_index s; " exceeds subWeeks "; sub_weeks s]
  else if tokens_paid s >? funded_tokens s then
    invalid f["tokensPaid "; tokens_paid s; " exceeds fundedTokens "; funded_tokens s]
  else if week_base_tokens s >? funded_tokens s then
    invalid f["weekBaseTokens "; week_base_tokens s; " exceeds fundedTokens "; funded_tokens s]
  else if period_start s >? now then
    invalid f["periodStart "; period_start s; " is in the future relative to "; now]
  else if subscription_flag then
    if negb (sub_weeks s =? SUBSCRIPTION_WEEKS) then
      invalid f["subWeeks "; sub_weeks s; " does not equal the canonical "; SUBSCRIPTION_WEEKS; "-week term"]
    else
    let? expected_funded :=
      ok_or (checked_mul u128 (tokens_per_week s) (sub_weeks s))
        (invalid_persisted_state token_contract f["tokensPerWeek multiplied by subWeeks overflows uint128"]) in
    if negb (expected_funded =? funded_tokens s) then
      invalid f["subscription quota "; tokens_per_week s; " x "; sub_weeks s; " does not equal fundedTokens "; funded_tokens s]
    else Ok ()
  else if negb (week_index s =? 0) || negb (tokens_per_week s =? funded_tokens s)
          || negb (week_base_tokens s =? 0) then
    invalid f["ordinary deal has contradictory weekly state: weekIndex="; week_index s; ", tokensPerWeek="; tokens_per_week s; ", fundedTokens="; funded_tokens s; ", weekBaseTokens="; week_base_tokens s]
  else Ok ().

(** [checked_add] and comparison of the machine's counters are on [u64]. *)
Definition lifecycle_coherent (cell : StreamCell) : bool :=
  match sm_state (sc_machine cell) with
  | Probe tick =>
      negb (sc_closed cell) && negb (sc_disputed cell) && negb (sc_probe_accepted cell)
      && (tick_price tick =? sm_price (sc_machine cell))
  | Streaming trusted pending =>
      negb (sc_closed cell) && negb (sc_disputed cell) && sc_probe_accepted cell && (trusted <=? pending)
  | Disputed trusted contested =>
      negb (sc_closed cell) && sc_disputed cell
      && bool_decide (is_Some (checked_add u64 trusted contested))
  | Closed => sc_closed cell && negb (sc_disputed cell)
  | Opening | Stopping => false
  end.

Definition raw_ticks (token_contract field : string) (tokens : Z) : Result ChainError Z :=
  ok_or (try_into u64 (div_ceil tokens TICK_SIZE))
    (invalid_persisted_state token_contract f[field; " does not fit the StreamMachine tick counter"]).

Definition validate_machine_ticks (token_contract : string) (cell : StreamCell) : Result ChainError () :=
  let invalid (reason : text) : Result ChainError () := Err (invalid_persisted_state token_contract reason) in
  match sm_state (sc_machine cell) with
  | Streaming trusted pending =>
      let? raw_final := raw_ticks token_contract "tokensFinal" (sc_tokens_final cell) in
      let? raw_pending := raw_ticks token_contract "tokensPending" (sc_tokens_pending cell) in
      if negb (pending =? raw_pending) then
        invalid f["machine pending ticks "; pending; " disagree with raw pending ticks "; raw_pending]
      else if negb (trusted =? raw_final) then
        invalid f["machine trusted ticks "; trusted; " disagree with raw trusted ticks "; raw_final]
      else Ok ()
  | Disputed trusted contested =>
      let? raw_final := raw_ticks token_contract "tokensFinal" (sc_tokens_final cell) in
      let? raw_pending := raw_ticks token_contract "tokensPending" (sc_tokens_pending cell) in
      let? machine_pending := ok_or (checked_add u64 trusted contested)
        (invalid_persisted_state token_contract f["disputed machine tick total overflows uint64"]) in
      if negb (machine_pending =? raw_pending) then
        invalid f["machine disputed total ticks "; machine_pending; " disagree with raw pending ticks "; raw_pending]
      else if negb (trusted =? raw_final) then
        invalid f["machine trusted ticks "; trusted; " disagree with raw trusted ticks "; raw_final]
      else Ok ()
  | Opening | Probe _ | Stopping | Closed => Ok ()
  end.

Definition validate_persisted_stream (token_contract : string) (cell : StreamCell) (now : Z)
    : Result ChainError () :=
  let invalid (reason : text) : Result ChainError () := Err (invalid_persisted_state token_contract reason) in
  if (sc_probe_time cell =? 0) || (sc_probe_time cell >? now) then
    invalid f["probeTime "; sc_probe_time cell; " must be a non-zero timestamp no later than "; now]
  else if sc_tokens_final cell >? sc_tokens_pending cell then
    invalid f["claim pipeline is not monotonic: tokensFinal="; sc_tokens_final cell; " tokensPending="; sc_tokens_pending cell]
  else if sc_last_claim_time cell >? now then
    invalid f["claim timestamp is in the future: lastClaimTime="; sc_last_claim_time cell; " now="; now]
  else if negb (sc_tokens_pending cell =? 0) && (sc_last_claim_time cell =? 0) then
    invalid f["non-zero claim pipeline has no landing timestamp"]
  else if sc_dispute_time cell >? now then
    invalid f["disputeTime "; sc_dispute_time cell; " is in the future relative to "; now]
  else if sc_disputed cell && (sc_dispute_time cell =? 0) then
    invalid f["disputed stream has no disputeTime"]
  else if negb (sc_disputed cell) && negb (sc_closed cell) && negb (sc_dispute_time cell =? 0) then
    invalid f["open undisputed stream retains a disputeTime"]
  else if negb (sc_dispute_time cell =? 0) && (sc_last_claim_time cell >? sc_dispute_time cell) then
    invalid f["claim timestamp is later than disputeTime"]
  else if negb (sc_probe_accepted cell) && negb (sc_tokens_pending cell =? 0) then
    invalid f["unaccepted probe carries a non-zero claim pipeline"]
  else if sc_probe_accepted cell && (sc_tokens_final cell <? TICK_SIZE) then
    invalid f["accepted probe does not seed one canonical tick"]
  else if sc_probe_accepted cell && negb (sc_probe_locked cell =? 0) then
    invalid f["accepted probe still carries locked probe value"]
  else if negb (lifecycle_coherent cell) then
    invalid (f["closed/disputed/probe flags disagree with machine state "] ++ StreamState_dbg (sm_state (sc_machine cell)))
  else validate_machine_ticks token_contract cell.

Definition is_lower_hex_digit (c : ascii) : bool :=
  is_ascii_digit c || ((97 <=? code c) && (code c <=? 102)).

Definition validate_persisted_deal_binding (st : MockState) (token_contract : string)
    (subscription : DealSubscription) (cell : option StreamCell) : Result ChainError () :=
  let invalid (reason : text) : ChainError := invalid_persisted_state token_contract reason in
  let? matched := ok_or (ms_matches st !! token_contract) (invalid f["funded deal has no persisted Match"]) in
  if negb (String.eqb (m_token_contract matched) token_contract) then
    Err (invalid f["Match TokenContract "; m_token_contract matched; " disagrees with its persisted key"])
  else
  let? offer := ok_or
    (match ms_matched_offers st !! token_contract with Some o => Some o | None => ms_offers st !! token_contract end)
    (invalid f["funded deal has no persisted filled offer"]) in
  if negb (String.eqb (so_token_contract offer) token_contract) then
    Err (invalid f["filled offer TokenContract "; so_token_contract offer; " disagrees with its persisted key"])
  else
  let? seller := ok_or (ms_offer_sellers st !! token_contract) (invalid f["funded deal has no persisted seller actor"]) in
  if negb (String.length seller =? 64)%nat || negb (str_all is_lower_hex_digit seller) then
    Err (invalid f["persisted seller actor is not a canonical ed25519 pubkey"])
  else if negb (m_price_per_tick matched =? so_price_per_tick offer) then
    Err (invalid f["Match price "; m_price_per_tick matched; " disagrees with filled offer price "; so_price_per_tick offer])
  else
  let matched_ticks := unwrap_or (so_max_ticks offer) (ms_matched_ticks st !! token_contract) in
  if (matched_ticks <? MIN_STREAM_BUY_TICKS) || (matched_ticks >? so_max_ticks offer) then
    Err (invalid f["matched ticks "; matched_ticks; " are outside filled offer volume "; MIN_STREAM_BUY_TICKS; "..="; so_max_ticks offer])
  else
  let? funded_tokens_ := ok_or (checked_mul u128 matched_ticks TICK_SIZE)
    (invalid f["matched ticks multiplied by TICK_SIZE overflows uint128"]) in
  if negb (funded_tokens subscription =? funded_tokens_) then
    Err (invalid f["fundedTokens "; funded_tokens subscription; " disagree with matched volume "; funded_tokens_])
  else
  let deal_flags_ := Z.land (so_flags offer) flags.DEAL_MASK in
  if negb (deal_flags subscription =? deal_flags_) then
    Err (invalid f["dealFlags 0x"; Hex2 (deal_flags subscription); " disagree with filled offer deal flags 0x"; Hex2 deal_flags_])
  else
  match cell with
  | None => Ok ()
  | Some cell =>
      if negb (bool_decide (sc_buyer_pubkey cell = m_buyer_pubkey matched)) then
        Err (invalid f["stream buyer does not match persisted Match buyer"])
      else if negb (sm_price (sc_machine cell) =? m_price_per_tick matched) then
        Err (invalid f["machine price "; sm_price (sc_machine cell); " disagrees with matched price "; m_price_per_tick matched])
      else if negb (sc_max_ticks cell =? matched_ticks) then
        Err (invalid f["stream maxTicks "; sc_max_ticks cell; " disagree with matched ticks "; matched_ticks])
      else if sc_tokens_pending cell >? funded_tokens_ then
        Err (invalid f["tokensPending "; sc_tokens_pending cell; " exceed matched fundedTokens "; funded_tokens_])
      else Ok ()
  end.

(** [u64::try_from] of the [i64] creation time. *)
Definition mock_funded_time (st : MockState) (token_contract : string) : Result ChainError Z :=
  let? created_at := ok_or (ms_match_created_at st !! token_contract)
    (invalid_persisted_state token_contract f["funded deal has no match creation time"]) in
  if created_at <? 0 then
    Err (invalid_persisted_state token_contract f["match creation time "; created_at; " is negative"])
  else Ok created_at.

Definition validate_match (st : MockState) (now : Z) (token_contract : string) : Result ChainError () :=
  if negb (bool_decide (is_Some (ms_deal_subscriptions st !! token_contract))) then
    Err (invalid_persisted_state token_contract f["funded Match has no persisted deal shape"])
  else
  let? funded_time := mock_funded_time st token_contract in
  if (funded_time =? 0) || (funded_time >? now) then
    Err (invalid_persisted_state token_contract f["fundedTime "; funded_time; " must be a non-zero timestamp no later than "; now])
  else Ok ().

Definition validate_stream (st : MockState) (now : Z) (entry : string * StreamCell) : Result ChainError () :=
  let '(token_contract, cell) := entry in
  if negb (sc_schema_version cell =? STREAM_CELL_SCHEMA_VERSION) then
    Err (EndpointsFile_error f["mock TokenContract "; token_contract; ": unsupported persisted stream schema "; sc_schema_version cell; ", expected "; STREAM_CELL_SCHEMA_VERSION])
  else if negb (bool_decide (is_Some (ms_deal_subscriptions st !! token_contract))) then
    Err (invalid_persisted_state token_contract f["stream has no persisted deal shape"])
  else validate_persisted_stream token_contract cell now.

Definition validate_persisted_state (st : MockState) (now : Z) : Result ChainError () :=
  for_each (validate_match st now) (map fst (map_to_list (ms_matches st))) ;?
  for_each (λ tc,
      if negb (bool_decide (is_Some (ms_matches st !! tc))) then
        Err (invalid_persisted_state tc f["orphan match creation time has no persisted Match"])
      else Ok ())
    (map fst (map_to_list (ms_match_created_at st))) ;?
  for_each (λ '(tc, subscription),
      validate_persisted_subscription tc subscription now ;?
      validate_persisted_deal_binding st tc subscription (ms_streams st !! tc))
    (map_to_list (ms_deal_subscriptions st)) ;?
  for_each (validate_stream st now) (map_to_list (ms_streams st)).
