(* ===== verification/MockMoney.v ===== *)
(** * Money of one mock deal: crates/core/src/market/mock.rs

    The functions that move a deal's money: payment and fee of a token volume, crediting,
    weekly charging of a subscription, promotion and voiding of claims, the fee settlement
    of a close, the clean close and the resolution of a dispute.  A function the code gives
    [&mut StreamCell] and [&mut DealSubscription] returns both; after an [Err] the caller
    drops them, because every handler returns before it stores the state. *)
From S2P Require Import Prelude RustText Params DealTypes Machine MockData.

Definition claim_deadline_reached (token_contract : string) (landed_at : Z) (window : Duration) (now : Z)
    : Result ChainError bool :=
  let? due := ok_or (checked_add u64 landed_at (as_secs window))
    (Chain f["mock TokenContract "; token_contract; ": claim promotion deadline overflows uint64"]) in
  Ok (now >=? due).

Definition promote_once (cell : StreamCell) : StreamCell :=
  if sc_tokens_pending cell >? sc_tokens_final cell
  then set_sc_tokens_final (sc_tokens_pending cell) cell else cell.

Definition promote_due (token_contract : string) (cell : StreamCell) (now : Z) (consts : ProtocolConsts)
    : Result ChainError StreamCell :=
  let? due := claim_deadline_reached token_contract (sc_last_claim_time cell) (claim_promote_window consts) now in
  Ok (if due : bool then promote_once cell else cell).

(** [&&] does not evaluate the deadline when nothing is pending. *)
Definition has_due_claim (token_contract : string) (cell : StreamCell) (now : Z) (consts : ProtocolConsts)
    : Result ChainError bool :=
  if sc_tokens_pending cell >? sc_tokens_final cell
  then claim_deadline_reached token_contract (sc_last_claim_time cell) (claim_promote_window consts) now
  else Ok false.

Definition void_claims_at (token_contract : string) (cell : StreamCell) (at_ : Z) (consts : ProtocolConsts)
    : Result ChainError StreamCell :=
  let? due := has_due_claim token_contract cell at_ consts in
  let cell := if due : bool then set_sc_tokens_final (sc_tokens_pending cell) cell else cell in
  Ok (set_sc_tokens_pending (sc_tokens_final cell) cell).

Definition mock_finalized_ticks (token_contract : string) (tokens : Z) : Result ChainError Z :=
  ok_or (try_into u64 (tokens / TICK_SIZE))
    (Chain f["mock TokenContract "; token_contract; ": finalized token total "; tokens; " exceeds the tick counter"]).

Definition mul_div_floor_opt (value multiplier denominator : Z) : option Z :=
  let whole := value / denominator in
  let remainder := value mod denominator in
  let* amount := checked_mul u128 whole multiplier in
  let* tail := option_map (λ tail, tail / denominator) (checked_mul u128 remainder multiplier) in
  checked_add u128 amount tail.
Definition checked_mul_div_floor (token_contract : string) (value multiplier denominator : Z) (context : string)
    : Result ChainError Z :=
  ok_or (mul_div_floor_opt value multiplier denominator)
    (Chain f["mock TokenContract "; token_contract; ": "; context; " overflows uint128"]).

Definition token_pay_and_fee (token_contract : string) (tokens price : Z) (consts : ProtocolConsts)
    : Result ChainError (Z * Z) :=
  let? pay := checked_mul_div_floor token_contract tokens price TICK_SIZE "token payment" in
  let? fee := checked_mul_div_floor token_contract pay (platform_fee_bps consts) 10000 "platform fee" in
  Ok (pay, fee).

(** Moves [pay] to the seller and [fee] to the accrued fees, out of the buyer's escrow. *)
Definition debit_escrow (token_contract : string) (cell : StreamCell) (pay fee debit : Z)
    : Result ChainError StreamCell :=
  let cell := set_sc_buyer_locked (usub u128 (sc_buyer_locked cell) debit) cell in
  let? seller_received := ok_or (checked_add u128 (sc_seller_received cell) pay)
    (Chain f["mock TokenContract "; token_contract; ": seller proceeds overflow uint128"]) in
  let cell := set_sc_seller_received seller_received cell in
  let? fee_accrued := ok_or (checked_add u128 (sc_fee_accrued cell) fee)
    (Chain f["mock TokenContract "; token_contract; ": accrued fee overflows uint128"]) in
  Ok (set_sc_fee_accrued fee_accrued cell).

Definition credit_token_delta (token_contract : string) (cell : StreamCell) (tokens : Z) (consts : ProtocolConsts)
    : Result ChainError StreamCell :=
  let? '(pay, fee) := token_pay_and_fee token_contract tokens (sm_price (sc_machine cell)) consts in
  let? debit := ok_or (checked_add u128 pay fee)
    (Chain f["mock TokenContract "; token_contract; ": token payment plus fee overflows uint128"]) in
  if debit >? sc_buyer_locked cell then
    Err (Chain f["mock TokenContract "; token_contract; ": token payment plus fee "; debit; " exceeds buyer escrow "; sc_buyer_locked cell])
  else debit_escrow token_contract cell pay fee debit.

Definition credit_tokens_through (token_contract : string) (cell : StreamCell) (subscription : DealSubscription)
    (target_tokens_paid : Z) (consts : ProtocolConsts) : Result ChainError (StreamCell * DealSubscription) :=
  if target_tokens_paid <? tokens_paid subscription then
    Err (Chain f["mock TokenContract "; token_contract; ": payment target "; target_tokens_paid; " regresses tokensPaid "; tokens_paid subscription])
  else if target_tokens_paid >? funded_tokens subscription then
    Err (Chain f["mock TokenContract "; token_contract; ": payment target "; target_tokens_paid; " exceeds fundedTokens "; funded_tokens subscription])
  else
  let price := sm_price (sc_machine cell) in
  let? '(paid_value, paid_fee) := token_pay_and_fee token_contract (tokens_paid subscription) price consts in
  let? '(target_value, target_fee) := token_pay_and_fee token_contract target_tokens_paid price consts in
  let? pay := ok_or (checked_sub target_value paid_value)
    (Chain f["mock TokenContract "; token_contract; ": cumulative seller payment regresses"]) in
  let? fee := ok_or (checked_sub target_fee paid_fee)
    (Chain f["mock TokenContract "; token_contract; ": cumulative fee regresses"]) in
  let? debit := ok_or (checked_add u128 pay fee)
    (Chain f["mock TokenContract "; token_contract; ": payment plus fee overflows uint128"]) in
  if debit >? sc_buyer_locked cell then
    Err (Chain f["mock TokenContract "; token_contract; ": payment plus fee "; debit; " exceeds buyer escrow "; sc_buyer_locked cell])
  else
  let? cell := debit_escrow token_contract cell pay fee debit in
  Ok (cell, set_tokens_paid target_tokens_paid subscription).

Definition subscription_weeks_at (token_contract : string) (subscription : DealSubscription) (now : Z)
    (include_started : bool) : Result ChainError Z :=
  let? elapsed := ok_or (checked_sub now (period_start subscription))
    (Chain f["subscription clock: current time precedes "; token_contract; " periodStart"]) in
  let elapsed_weeks := elapsed / as_secs SUB_WEEK_LEN in
  let elapsed_weeks := Z.min elapsed_weeks (sub_weeks subscription) in
  let target := if include_started && (elapsed_weeks <? sub_weeks subscription)
                then uadd u64 elapsed_weeks 1 else elapsed_weeks in
  ok_or (try_into u8 target)
    (Chain f["subscription clock: week count does not fit "; token_contract; " weekIndex"]).

Definition charge_subscription_through (token_contract : string) (cell : StreamCell)
    (subscription : DealSubscription) (target_week : Z) (consts : ProtocolConsts)
    : Result ChainError (StreamCell * DealSubscription * bool) :=
  if target_week <=? week_index subscription then Ok (cell, subscription, false)
  else
  let? target_tokens_paid := ok_or (checked_mul u128 target_week (tokens_per_week subscription))
    (Chain f["settle_week: "; token_contract; " cumulative weekly payment overflows uint128"]) in
  let? '(cell, subscription) :=
    credit_tokens_through token_contract cell subscription target_tokens_paid consts in
  Ok (cell, set_week_base_tokens (sc_tokens_pending cell) (set_week_index target_week subscription), true).

Definition charge_elapsed_subscription_weeks (token_contract : string) (cell : StreamCell)
    (subscription : DealSubscription) (now : Z) (consts : ProtocolConsts)
    : Result ChainError (StreamCell * DealSubscription * bool) :=
  if negb (is_subscription subscription) then Ok (cell, subscription, false)
  else if negb (sc_probe_accepted cell) || sc_closed cell || sc_disputed cell then
    Err (Chain f["settle_week: "; token_contract; " is not an open accepted subscription"])
  else
  let? due := subscription_weeks_at token_contract subscription now false in
  charge_subscription_through token_contract cell subscription due consts.

Definition delivered_ticks (token_contract : string) (cell : StreamCell) : Result ChainError Z :=
  let? ticks := mock_finalized_ticks token_contract (sc_tokens_final cell) in
  Ok (Z.max ticks (if sc_probe_accepted cell then 1 else 0)).

Definition settle_mock_fees (token_contract : string) (cell : StreamCell) (delivered : Z)
    (consts : ProtocolConsts) (clean : bool) : Result ChainError StreamCell :=
  let? rebate :=
    if clean then
      let? gross := ok_or (checked_mul u128 delivered (sm_price (sc_machine cell)))
        (Chain f["mock TokenContract "; token_contract; ": rebate volume overflows uint128"]) in
      let rate := Z.min (saturating_mul u128 (rebate_slope_bps consts) delivered) (rebate_max_bps consts) in
      let? rebate := checked_mul_div_floor token_contract gross rate 10000 "seller rebate" in
      Ok (Z.min rebate (sc_fee_accrued cell))
    else Ok 0 in
  let? seller_received := ok_or (checked_add u128 (sc_seller_received cell) rebate)
    (Chain f["mock TokenContract "; token_contract; ": seller rebate overflows uint128"]) in
  let cell := set_sc_seller_received seller_received cell in
  let? burned := ok_or (checked_add u128 (sc_burned cell) (usub u128 (sc_fee_accrued cell) rebate))
    (Chain f["mock TokenContract "; token_contract; ": fee burn overflows uint128"]) in
  Ok (set_sc_fee_accrued 0 (set_sc_burned burned cell)).

(** The assignments every terminal path ends with. *)
Definition zero_locks (cell : StreamCell) : StreamCell :=
  set_sc_seller_locked 0 (set_sc_buyer_bond 0 (set_sc_probe_locked 0 (set_sc_buyer_locked 0 cell))).

Definition close_mock_clean (token_contract : string) (cell : StreamCell) (delivered : Z)
    (consts : ProtocolConsts) : Result ChainError (StreamCell * Z) :=
  let? cell := settle_mock_fees token_contract cell delivered consts true in
  let? refund := ok_or
    (let* amount := checked_add u128 (sc_buyer_locked cell) (sc_probe_locked cell) in
     checked_add u128 amount (sc_buyer_bond cell))
    (Chain f["mock TokenContract "; token_contract; ": clean buyer refund overflows uint128"]) in
  let? buyer_refunded := ok_or (checked_add u128 (sc_buyer_refunded cell) refund)
    (Chain f["mock TokenContract "; token_contract; ": cumulative buyer refund overflows uint128"]) in
  let cell := set_sc_buyer_refunded buyer_refunded cell in
  let? seller_received := ok_or (checked_add u128 (sc_seller_received cell) (sc_seller_locked cell))
    (Chain f["mock TokenContract "; token_contract; ": finalized seller amount overflows uint128"]) in
  let cell := set_sc_seller_received seller_received cell in
  let cell := zero_locks cell in
  let cell := set_sc_machine (machine_close (sc_machine cell)) cell in
  Ok (set_sc_closed true cell, refund).

(** The base from which tokens of the current week count. *)
Definition dispute_base (subscription : DealSubscription) : Z :=
  if is_subscription subscription && (week_index subscription >? 0)
  then week_base_tokens subscription else tokens_paid subscription.

(** The stake of a dispute, before any claim is voided. *)
Definition dispute_stake (token_contract : string) (cell : StreamCell) (subscription : DealSubscription)
    (consts : ProtocolConsts) : Result ChainError Z :=
  let claimed_unpaid := saturating_sub (sc_tokens_pending cell) (dispute_base subscription) in
  let? '(claimed_pay, claimed_fee) :=
    token_pay_and_fee token_contract claimed_unpaid (sm_price (sc_machine cell)) consts in
  let? claimed_value := ok_or (checked_add u128 claimed_pay claimed_fee)
    (Chain f["release_dispute: "; token_contract; " dispute stake overflows uint128"]) in
  let price := sm_price (sc_machine cell) in
  let stake := Z.min (Z.min (Z.max claimed_value price) (umul u128 2 price)) (sc_seller_locked cell) in
  Ok (if is_subscription subscription then Z.min stake (sc_buyer_bond cell)
      else Z.min stake (sc_buyer_locked cell)).

(** The part of the remaining deposit that goes back to the buyer. *)
Definition refundable_deposit (token_contract : string) (cell : StreamCell) (subscription : DealSubscription)
    (consts : ProtocolConsts) (remaining_deposit : Z) : Result ChainError Z :=
  if is_subscription subscription && sc_probe_accepted cell then
    let? started := subscription_weeks_at token_contract subscription (sc_dispute_time cell) true in
    let unstarted := saturating_sub (sub_weeks subscription) started in
    let? future_tokens := ok_or (checked_mul u128 unstarted (tokens_per_week subscription))
      (Chain f["release_dispute: "; token_contract; " future token refund overflows uint128"]) in
    let? '(future_pay, future_fee) :=
      token_pay_and_fee token_contract future_tokens (sm_price (sc_machine cell)) consts in
    let? future := ok_or (checked_add u128 future_pay future_fee)
      (Chain f["release_dispute: "; token_contract; " future refund overflows uint128"]) in
    Ok (Z.min future remaining_deposit)
  else Ok remaining_deposit.

(** The first half of the resolution: claims, credit, stakes and fees. *)
Definition settle_dispute_claims (token_contract : string) (cell : StreamCell) (subscription : DealSubscription)
    (consts : ProtocolConsts) (timed_out : bool) : Result ChainError (StreamCell * DealSubscription) :=
  let? stake := dispute_stake token_contract cell subscription consts in
  let? cell := void_claims_at token_contract cell (sc_dispute_time cell) consts in
  let trusted_tokens := sc_tokens_final cell in
  let trusted_owed := saturating_sub trusted_tokens (dispute_base subscription) in
  let? cell := credit_token_delta token_contract cell trusted_owed consts in
  let subscription := set_tokens_paid (Z.max (tokens_paid subscription) trusted_tokens) subscription in
  let '(cell, stake) :=
    if is_subscription subscription then
      (set_sc_buyer_bond (usub u128 (sc_buyer_bond cell) stake) cell, stake)
    else
      let stake := Z.min stake (sc_buyer_locked cell) in
      (set_sc_buyer_locked (usub u128 (sc_buyer_locked cell) stake) cell, stake) in
  let? burned := ok_or (checked_add u128 (sc_burned cell) stake)
    (Chain f["release_dispute: "; token_contract; " buyer stake burn overflows uint128"]) in
  let cell := set_sc_burned burned cell in
  let seller_burn := if timed_out then Z.min stake (sc_seller_locked cell) else 0 in
  let cell := set_sc_seller_locked (usub u128 (sc_seller_locked cell) seller_burn) cell in
  let? burned := ok_or (checked_add u128 (sc_burned cell) seller_burn)
    (Chain f["release_dispute: "; token_contract; " seller stake burn overflows uint128"]) in
  let cell := set_sc_burned burned cell in
  let? delivered := delivered_ticks token_contract cell in
  let? cell := settle_mock_fees token_contract cell delivered consts false in
  Ok (cell, subscription).

(** The second half: what is left goes back, is burned or is returned, and the deal closes.
    A panic of the machine's [release_dispute] unwinds out of the call: [None]. *)
Definition close_dispute (token_contract : string) (cell : StreamCell) (subscription : DealSubscription)
    (consts : ProtocolConsts) (timed_out : bool) : Result ChainError (option (StreamCell * (Z * Z))) :=
  let? remaining_deposit := ok_or (checked_add u128 (sc_buyer_locked cell) (sc_probe_locked cell))
    (Chain f["release_dispute: "; token_contract; " remaining deposit overflows uint128"]) in
  let? refundable := refundable_deposit token_contract cell subscription consts remaining_deposit in
  let unearned_burn := usub u128 remaining_deposit refundable in
  let? burned := ok_or (checked_add u128 (sc_burned cell) unearned_burn)
    (Chain f["release_dispute: "; token_contract; " unearned-period burn overflows uint128"]) in
  let cell := set_sc_burned burned cell in
  let? refund := ok_or (checked_add u128 refundable (sc_buyer_bond cell))
    (Chain f["release_dispute: "; token_contract; " buyer refund overflows uint128"]) in
  let? buyer_refunded := ok_or (checked_add u128 (sc_buyer_refunded cell) refund)
    (Chain f["release_dispute: "; token_contract; " cumulative buyer refund overflows uint128"]) in
  let cell := set_sc_buyer_refunded buyer_refunded cell in
  let seller_refund := sc_seller_locked cell in
  let? seller_received := ok_or (checked_add u128 (sc_seller_received cell) seller_refund)
    (Chain f["release_dispute: "; token_contract; " finalized seller amount overflows uint128"]) in
  let cell := set_sc_seller_received seller_received cell in
  let cell := set_sc_disputed false (zero_locks cell) in
  let machine :=
    if timed_out then Some (machine_resolve_dispute_timeout (sc_machine cell)).2
    else option_map snd (result_ok (machine_release_dispute (sc_machine cell))) in
  Ok (option_map (λ machine, (set_sc_closed true (set_sc_machine machine cell), (refund, seller_refund))) machine).

Definition resolve_mock_dispute (token_contract : string) (cell : StreamCell) (subscription : DealSubscription)
    (consts : ProtocolConsts) (timed_out : bool)
    : Result ChainError (option (StreamCell * DealSubscription * (Z * Z))) :=
  if negb (sc_disputed cell) then
    Err (Chain f["release_dispute: "; token_contract; " not in dispute"])
  else
  let? '(cell, subscription) :=
    if is_subscription subscription && sc_probe_accepted cell then
      let? completed := subscription_weeks_at token_contract subscription (sc_dispute_time cell) false in
      let? '(cell, subscription, _charged) :=
        charge_subscription_through token_contract cell subscription completed consts in
      Ok (cell, subscription)
    else Ok (cell, subscription) in
  let? '(cell, subscription) := settle_dispute_claims token_contract cell subscription consts timed_out in
  let? closed := close_dispute token_contract cell subscription consts timed_out in
  Ok (option_map (λ '(cell, refunds), (cell, subscription, refunds)) closed).
