(* ===== verification/MockBook.v ===== *)
(** * The book of the mock chain: crates/core/src/market/mock.rs

    Sell offers, buys, fills and subscription orders.  A handler takes the state
    [load_state] returned and gives the state it stores; each call of the wall clock is an
    argument [now] (two calls, two arguments), SHA-256 is a parameter.  Readers return their
    answer only.  A method that stores a state before it fails returns the stored state
    beside its result. *)
From S2P Require Import Prelude RustText Params Address DealTypes Machine Quote.
From S2P Require Import MockData MockMoney.
From Stdlib Require Import Strings.Byte.

(** ** Validation of an ask and the shape of its deal *)

Definition SUPPORTED_FLAGS : Z :=
  Z.lor flags.IOC (Z.lor flags.FOK (Z.lor flags.MARKET (Z.lor flags.POST_ONLY
    (Z.lor flags.TEE (Z.lor flags.AON flags.SUBSCRIPTION))))).
Definition TAKER_FLAGS : Z := Z.lor flags.IOC (Z.lor flags.FOK flags.MARKET).

Definition validate_mock_sell_offer (offer : SellOffer) (consts : ProtocolConsts) : Result ChainError () :=
  let invalid (reason : text) : Result ChainError () :=
    Err (Chain (f["mock TokenContract "; so_token_contract offer; ": "] ++ reason)) in
  let ticks := so_max_ticks offer in
  let price := so_price_per_tick offer in
  let fl := so_flags offer in
  let unknown := Z.land fl (255 - SUPPORTED_FLAGS) in
  if ticks <? MIN_STREAM_BUY_TICKS then
    invalid f["sell offer needs at least "; MIN_STREAM_BUY_TICKS; " ticks, got "; ticks]
  else if (price =? 0) || negb (is_multiple_of price PRICE_STEP) then
    invalid f["price_per_tick "; price; " must be a positive multiple of PRICE_STEP "; PRICE_STEP]
  else if negb (unknown =? 0) then invalid f["sell offer has unsupported flags 0x"; Hex2 unknown]
  else if has_flag fl flags.MARKET then invalid f["a sell offer cannot be a MARKET order"]
  else if has_flag fl flags.POST_ONLY && has_flag fl TAKER_FLAGS then
    invalid f["POST_ONLY cannot be combined with taker flags"]
  else if has_flag fl flags.IOC && has_flag fl flags.FOK then invalid f["IOC and FOK are mutually exclusive"]
  else if has_flag fl flags.SUBSCRIPTION && negb (has_flag fl flags.AON) then
    invalid f["SUBSCRIPTION requires AON"]
  else if has_flag fl flags.SUBSCRIPTION
          && (negb (is_multiple_of ticks SUBSCRIPTION_WEEKS) || (ticks >? SUBSCRIPTION_MAX_TICKS)) then
    invalid f["subscription ticks must divide into "; SUBSCRIPTION_WEEKS; " weeks and not exceed "; SUBSCRIPTION_MAX_TICKS; ", got "; ticks]
  else
  let? funded := ok_or (checked_mul u128 ticks TICK_SIZE)
    (Chain f["mock TokenContract "; so_token_contract offer; ": offer token volume overflows uint128"]) in
  let? '(pay, fee) := token_pay_and_fee (so_token_contract offer) funded price consts in
  let? _value := ok_or (checked_add u128 pay fee)
    (Chain f["mock TokenContract "; so_token_contract offer; ": offer value plus fee overflows uint128"]) in
  Ok ().

Definition mock_deal_shape (offer : SellOffer) (funded_ticks period_start : Z) : Result ChainError DealSubscription :=
  let? funded := ok_or (checked_mul u128 funded_ticks TICK_SIZE)
    (Chain f["mock TokenContract "; so_token_contract offer; ": funded token volume overflows uint128"]) in
  let deal_flags := Z.land (so_flags offer) flags.DEAL_MASK in
  if has_flag deal_flags flags.SUBSCRIPTION then
    if negb (is_multiple_of funded_ticks SUBSCRIPTION_WEEKS) then
      Err (Chain f["mock TokenContract "; so_token_contract offer; ": subscription funded ticks "; funded_ticks; " is not divisible by "; SUBSCRIPTION_WEEKS])
    else Ok (mkSubscription deal_flags SUBSCRIPTION_WEEKS 0 (funded / SUBSCRIPTION_WEEKS) funded 0 period_start 0)
  else Ok (mkSubscription deal_flags 0 0 funded funded 0 period_start 0).

Definition or_else {A} (a b : option A) : option A := match a with Some x => Some x | None => b end.

Definition mock_deal_subscription (st : MockState) (token_contract : string)
    : Result ChainError (option DealSubscription) :=
  match ms_deal_subscriptions st !! token_contract with
  | Some subscription => Ok (Some subscription)
  | None =>
      match or_else (ms_matched_offers st !! token_contract) (ms_offers st !! token_contract) with
      | None => Ok None
      | Some offer =>
          let funded_ticks := unwrap_or (so_max_ticks offer) (ms_matched_ticks st !! token_contract) in
          rmap Some (mock_deal_shape offer funded_ticks 0)
      end
  end.

(** The state of a deal as its contract would report it. *)
Definition opened_deal_state (cell : StreamCell) (funded_time : Z) : DealChainState := {|
  cs_funded := true;
  cs_opened := negb (sc_closed cell);
  cs_probe_accepted := sc_probe_accepted cell;
  cs_disputed := sc_disputed cell;
  cs_deposit := if sc_closed cell then 0 else sc_buyer_locked cell;
  cs_finalized_owed := sc_seller_received cell;
  cs_tokens_final := sc_tokens_final cell;
  cs_tokens_pending := sc_tokens_pending cell;
  cs_probe_tick := sc_probe_locked cell;
  cs_funded_time := Some funded_time;
  cs_probe_time := sc_probe_time cell;
  cs_last_claim_time := sc_last_claim_time cell;
  cs_dispute_time := sc_dispute_time cell;
|}.
Definition funded_deal_state (deposit funded_time : Z) : DealChainState := {|
  cs_funded := true; cs_opened := false; cs_probe_accepted := false; cs_disputed := false;
  cs_deposit := deposit; cs_finalized_owed := 0; cs_tokens_final := 0; cs_tokens_pending := 0;
  cs_probe_tick := 0; cs_funded_time := Some funded_time; cs_probe_time := 0;
  cs_last_claim_time := funded_time; cs_dispute_time := 0;
|}.
Definition mock_deal_state (st : MockState) (token_contract : string) (consts : ProtocolConsts)
    : Result ChainError (option DealChainState) :=
  let? funded_time :=
    if bool_decide (is_Some (ms_matches st !! token_contract))
    then rmap Some (mock_funded_time st token_contract) else Ok None in
  match ms_streams st !! token_contract with
  | Some cell =>
      let? funded_time := ok_or funded_time
        (invalid_persisted_state token_contract f["stream has no funded match"]) in
      Ok (Some (opened_deal_state cell funded_time))
  | None =>
      match funded_time with
      | None => Ok None
      | Some funded_time =>
          let? subscription := ok_or (ms_deal_subscriptions st !! token_contract)
            (invalid_persisted_state token_contract f["funded deal has no persisted deal shape"]) in
          let? matched := ok_or (ms_matches st !! token_contract)
            (invalid_persisted_state token_contract f["funded deal has no persisted Match"]) in
          let? '(pay, fee) :=
            token_pay_and_fee token_contract (funded_tokens subscription) (m_price_per_tick matched) consts in
          let? deposit := ok_or (checked_add u128 pay fee)
            (Chain f["mock TokenContract "; token_contract; ": buyer deposit plus fee overflows uint128"]) in
          Ok (Some (funded_deal_state deposit funded_time))
      end
  end.

(** ** Sell side *)

(** [duration.as_secs() as i64]. *)
Definition mock_now_unix (now : Z) : Z := if now <? 2 ^ 63 then now else now - 2 ^ 64.

Definition discover_offers (st : MockState) : list OfferListing :=
  map (λ '(_tc, o), {|
    ol_seller_id := unwrap_or EmptyString (ms_offer_sellers st !! so_token_contract o);
    ol_token_contract := so_token_contract o;
    ol_price_per_tick := so_price_per_tick o;
    ol_max_ticks := so_max_ticks o;
  |}) (map_to_list (ms_offers st)).

(** The names under which a contract already carries a deal. *)
Definition already_filled (st : MockState) (tc : string) : bool :=
  bool_decide (is_Some (ms_matches st !! tc)) || bool_decide (is_Some (ms_matched_offers st !! tc))
  || bool_decide (is_Some (ms_matched_ticks st !! tc)) || bool_decide (is_Some (ms_deal_subscriptions st !! tc))
  || bool_decide (is_Some (ms_streams st !! tc)).

(** [entry(k).or_insert(v)]. *)
Definition or_insert {A} (k : string) (v : A) (m : gmap string A) : gmap string A :=
  match m !! k with Some _ => m | None => <[k := v]> m end.

Definition post_offer (consts : ProtocolConsts) (now : Z) (offer : SellOffer) (note : NotePubkey) (st : MockState)
    : Result ChainError MockState :=
  validate_mock_sell_offer offer consts ;?
  let tc := so_token_contract offer in
  let seller_id := note_id_hex note in
  if bool_decide (is_Some (ms_offers st !! tc)) then
    Err (Chain f["duplicate active sell order for TokenContract "; tc; ": cancel/fill the old order before reposting"])
  else if already_filled st tc then
    Err (Chain f["mock TokenContract "; tc; " was already filled/matched; refusing to replace its seller"])
  else if match ms_offer_sellers st !! tc with Some original => negb (String.eqb original seller_id) | None => false end then
    Err (Chain f["mock TokenContract "; tc; " remains bound to its original seller after cancellation"])
  else
  let st := set_ms_offer_sellers (or_insert tc seller_id (ms_offer_sellers st)) st in
  let st := set_ms_offer_deadlines (<[tc := uadd u64 now (as_secs MAX_SELL_TTL)]> (ms_offer_deadlines st)) st in
  let st := set_ms_deal_terms (or_insert tc (so_price_per_tick offer, so_max_ticks offer) (ms_deal_terms st)) st in
  Ok (set_ms_offers (<[tc := offer]> (ms_offers st)) st).

Section OrderIds.
Context (sha256 : string → list Byte.byte).

Definition be_value (bytes : list Byte.byte) : Z := foldl (λ n b, 256 * n + byte_value b) 0 bytes.
Definition mock_order_id (token_contract : string) : Z := be_value (take 16 (sha256 token_contract)).
Definition mock_current_order_id (st : MockState) (token_contract : string) : Z :=
  uadd u128 (mock_order_id token_contract) (unwrap_or 0 (ms_expired_generations st !! token_contract)).

(** The early [return Ok(())] of the code stores nothing: the state is unchanged. *)
Definition expire_resting_sell_order (now : Z) (token_contract : string) (order_id : Z) (st : MockState) : MockState :=
  if negb (bool_decide (is_Some (ms_offers st !! token_contract)))
     || negb (mock_current_order_id st token_contract =? order_id) then st
  else
  let live := match ms_offer_deadlines st !! token_contract with
              | Some deadline => now <? deadline
              | None => true
              end in
  if live then st
  else
  let st := set_ms_offers (delete token_contract (ms_offers st)) st in
  let generation := unwrap_or 0 (ms_expired_generations st !! token_contract) in
  set_ms_expired_generations (<[token_contract := uadd u128 generation 1]> (ms_expired_generations st)) st.

Definition token_contract_offer_latch (st : MockState) (token_contract : string) : option DealOfferLatch :=
  if negb (bool_decide (is_Some (ms_deal_terms st !! token_contract)))
     && negb (bool_decide (is_Some (ms_offers st !! token_contract)))
  then None
  else Some {| offer_posted := bool_decide (is_Some (ms_offers st !! token_contract)) |}.

Definition confirm_offer_outcome (st : MockState) (token_contract : string) : option SellOfferOutcome :=
  if bool_decide (is_Some (ms_matches st !! token_contract)) then Some Matched
  else if bool_decide (is_Some (ms_offers st !! token_contract))
  then Some (Rested (mock_current_order_id st token_contract)) else None.

Definition raw_resting_sell_orders_for_tc (now : Z) (st : MockState) (token_contract : string)
    : list OrderBookOrder :=
  match ms_offers st !! token_contract with
  | None => []
  | Some offer => [{|
      ob_order_id := mock_current_order_id st token_contract;
      ob_owner_note := match ms_offer_sellers st !! token_contract with
                       | Some seller => "0:" +:+ seller
                       | None => EmptyString
                       end;
      ob_token_contract := Some token_contract;
      ob_is_buy := false;
      ob_price_per_tick := so_price_per_tick offer;
      ob_ticks := so_max_ticks offer;
      ob_escrow := 0;
      ob_deadline := unwrap_or (uadd u64 now (as_secs MAX_SELL_TTL)) (ms_offer_deadlines st !! token_contract);
      ob_flags := so_flags offer;
      ob_timestamp := 0;
    |}]
  end.

Definition cancel_resting_sell_order (token_contract : string) (order_id : Z) (st : MockState)
    : Result ChainError MockState :=
  if negb (order_id =? mock_current_order_id st token_contract)
     || negb (bool_decide (is_Some (ms_offers st !! token_contract))) then
    Err (Chain f["resting SELL "; order_id; " is absent for TokenContract "; token_contract])
  else Ok (set_ms_offers (delete token_contract (ms_offers st)) st).
End OrderIds.

Definition sell_offer_terms (st : MockState) (token_contract : string) : option (Z * Z) :=
  or_else (ms_deal_terms st !! token_contract)
    (option_map (λ offer, (so_price_per_tick offer, so_max_ticks offer))
      (or_else (ms_offers st !! token_contract) (ms_matched_offers st !! token_contract))).

(** ** Buy side *)

Definition place_buy_ticks_inner (now now' : Z) (token_contract : string) (note : NotePubkey) (ticks : option Z)
    (st : MockState) : Result ChainError MockState :=
  if bool_decide (is_Some (ms_matches st !! token_contract)) then
    Err (Chain f["mock TokenContract "; token_contract; " is already matched; refusing to replace its buyer"])
  else
  let? offer := ok_or (ms_offers st !! token_contract) (NoMatch token_contract) in
  let matched := unwrap_or (so_max_ticks offer) ticks in
  if (matched <? MIN_STREAM_BUY_TICKS) || (matched >? so_max_ticks offer) then
    Err (Chain f["mock buy ticks must be within "; MIN_STREAM_BUY_TICKS; "..="; so_max_ticks offer; ", got "; matched])
  else if has_flag (so_flags offer) flags.AON && negb (matched =? so_max_ticks offer) then
    Err (Chain f["mock AON sell offer for "; token_contract; " requires its full "; so_max_ticks offer; " ticks, got "; matched])
  else
  let st := set_ms_offers (delete token_contract (ms_offers st)) st in
  let st := set_ms_matched_offers (<[token_contract := offer]> (ms_matched_offers st)) st in
  let st := set_ms_matched_ticks (<[token_contract := matched]> (ms_matched_ticks st)) st in
  let? subscription := mock_deal_shape offer matched now in
  let st := set_ms_deal_subscriptions (<[token_contract := subscription]> (ms_deal_subscriptions st)) st in
  let st := set_ms_matches (<[token_contract := {|
      m_token_contract := token_contract;
      m_buyer_pubkey := note;
      m_price_per_tick := so_price_per_tick offer;
    |}]> (ms_matches st)) st in
  Ok (set_ms_match_created_at (<[token_contract := mock_now_unix now']> (ms_match_created_at st)) st).

Definition place_buy (now now' : Z) (token_contract : string) (note : NotePubkey) (st : MockState)
    : Result ChainError MockState :=
  place_buy_ticks_inner now now' token_contract note None st.
Definition place_buy_ticks (now now' : Z) (token_contract : string) (note : NotePubkey) (ticks : Z) (st : MockState)
    : Result ChainError MockState :=
  place_buy_ticks_inner now now' token_contract note (Some ticks) st.

Definition read_match (st : MockState) (token_contract : string) : Result ChainError Match :=
  ok_or (ms_matches st !! token_contract) (NoMatch token_contract).

Definition lifecycle_name (cell : StreamCell) : string :=
  if sc_closed cell then "terminal" else "already open".
Definition read_openable_match_now (st : MockState) (token_contract : string) : Result ChainError (option Match) :=
  match ms_streams st !! token_contract with
  | Some cell =>
      Err (Chain f["mock TokenContract "; token_contract; " is "; lifecycle_name cell; ", not openable for seller resume"])
  | None => Ok (ms_matches st !! token_contract)
  end.

(** One fill not yet seen by the cursor, with its source time. *)
Definition seller_fill (sha256 : string → list Byte.byte) (st : MockState) (seller_id : string)
    (cursor : MatchWatchCursor) (token_contract : string) : option (Z * MatchedFill) :=
  if negb (bool_decide (ms_offer_sellers st !! token_contract = Some seller_id)) then None
  else
  let* offer := ms_matched_offers st !! token_contract in
  let created_at := unwrap_or (since_unix cursor) (ms_match_created_at st !! token_contract) in
  if has_seen cursor created_at token_contract then None
  else Some (created_at, {|
    mf_order_id := mock_current_order_id sha256 st token_contract;
    mf_token_contract := token_contract;
    mf_ticks := unwrap_or (so_max_ticks offer) (ms_matched_ticks st !! token_contract);
    mf_price_per_tick := so_price_per_tick offer;
  |}).

(** The order of the batch: by time, then by contract. *)
Definition fill_le (a b : Z * MatchedFill) : Prop :=
  a.1 < b.1 ∨ a.1 = b.1 ∧ str_le (mf_token_contract a.2) (mf_token_contract b.2).
#[export] Instance fill_le_dec : RelDecision fill_le.
Proof. intros a b. unfold fill_le. apply _. Defined.

Definition poll_seller_fills (sha256 : string → list Byte.byte) (st : MockState) (note : NotePubkey)
    (cursor : MatchWatchCursor) : list MatchedFill * MatchWatchCursor :=
  let seller_id := note_id_hex note in
  let batch := merge_sort fill_le
    (omap (seller_fill sha256 st seller_id cursor) (map fst (map_to_list (ms_matches st)))) in
  (map snd batch,
   record_seen_batch (map (λ '(created_at, fill), (created_at, mf_token_contract fill)) batch) cursor).

(** ** Subscription orders *)

Definition owner_of (note : NotePubkey) : string := "0:" +:+ note_id_hex note.

Definition place_subscription_order (now : Z) (order_book : string) (note : NotePubkey)
    (max_price_per_tick ticks escrow fl deadline : Z) (st : MockState)
    : Result ChainError (MockState * OrderBookOrder) :=
  let expected_flags := Z.lor flags.AON flags.SUBSCRIPTION in
  if negb (fl =? expected_flags) || has_flag fl flags.MARKET then
    Err (Chain f["mock subscription flags must be exactly AON|SUBSCRIPTION (0x"; Hex2 expected_flags; ")"])
  else
  let? _reserve := map_err Chain (check_subscription_buy_reserve escrow ticks max_price_per_tick) in
  let order_id := Z.max (ms_next_subscription_order_id st) 1 in
  let? next := ok_or (checked_add u128 order_id 1) (Chain f["mock subscription order id overflows u128"]) in
  let st := set_ms_next_subscription_order_id next st in
  let order := {|
    ob_order_id := order_id; ob_owner_note := owner_of note; ob_token_contract := None; ob_is_buy := true;
    ob_price_per_tick := max_price_per_tick; ob_ticks := ticks; ob_escrow := escrow; ob_deadline := deadline;
    ob_flags := fl; ob_timestamp := now |} in
  if bool_decide (is_Some (ms_subscription_orders st !! order_id)) then
    Err (Chain f["mock subscription order id "; order_id; " already exists"])
  else
  let st := set_ms_subscription_orders (<[order_id := order]> (ms_subscription_orders st)) st in
  Ok (set_ms_subscription_order_books (<[order_id := order_book]> (ms_subscription_order_books st)) st, order).

Definition remove_subscription_order_from_book (order_id : Z) (reason : MockSubscriptionExit) (refunded : Z)
    (st : MockState) : MockState :=
  match ms_subscription_orders st !! order_id with
  | None => st
  | Some order =>
      let st := set_ms_subscription_orders (delete order_id (ms_subscription_orders st)) st in
      let order_book := unwrap_or EmptyString (ms_subscription_order_books st !! order_id) in
      let st := set_ms_subscription_order_books (delete order_id (ms_subscription_order_books st)) st in
      set_ms_subscription_terminal_orders (<[order_id := {|
          mt_order := order; mt_order_book := order_book; mt_reason := reason; mt_refunded := refunded
        |}]> (ms_subscription_terminal_orders st)) st
  end.

(** The state after the sweep of one order; it is stored when the order had expired. *)
Definition swept_state (now : Z) (order_id : Z) (st : MockState) : MockState :=
  match ms_subscription_orders st !! order_id with
  | Some order =>
      if negb (ob_deadline order =? 0) && (ob_deadline order <=? now)
      then remove_subscription_order_from_book order_id Expired (ob_escrow order) st else st
  | None => st
  end.

Definition owned_subscription_order (st : MockState) (order_book : string) (order_id : Z) (note : NotePubkey)
    : option OrderBookOrder :=
  let* order := ms_subscription_orders st !! order_id in
  if String.eqb (ob_owner_note order) (owner_of note)
     && bool_decide (ms_subscription_order_books st !! order_id = Some order_book)
  then Some order else None.

Definition subscription_order (now : Z) (order_book : string) (order_id : Z) (note : NotePubkey) (st : MockState)
    : MockState * option OrderBookOrder :=
  let st := swept_state now order_id st in (st, owned_subscription_order st order_book order_id note).

Definition subscription_terminal_order (now : Z) (order_book : string) (order_id : Z) (note : NotePubkey)
    (st : MockState) : MockState * option MockSubscriptionTerminal :=
  let st := swept_state now order_id st in
  (st,
   let* terminal := ms_subscription_terminal_orders st !! order_id in
   if String.eqb (ob_owner_note (mt_order terminal)) (owner_of note)
      && String.eqb (mt_order_book terminal) order_book
   then Some terminal else None).

Definition cancel_subscription_order (now : Z) (order_book : string) (order_id : Z) (note : NotePubkey)
    (st : MockState) : MockState * Result ChainError OrderBookOrder :=
  let st := swept_state now order_id st in
  match owned_subscription_order st order_book order_id note with
  | None =>
      (st, Err (Chain f["mock subscription order "; order_id; " is absent or owned by another note"]))
  | Some order =>
      (remove_subscription_order_from_book order_id Cancelled (ob_escrow order) st, Ok order)
  end.

(** ** The deal that was never opened *)

Definition cleanup_unopened (consts : ProtocolConsts) (now : Z) (token_contract : string) (st : MockState)
    : Result ChainError (MockState * Settlement) :=
  if bool_decide (is_Some (ms_streams st !! token_contract)) then
    Err (Chain f["cleanup_unopened: "; token_contract; " is already opened"])
  else if negb (bool_decide (is_Some (ms_matches st !! token_contract))) then Err (NoMatch token_contract)
  else
  let? state := mock_deal_state st token_contract consts in
  let? state := ok_or state (NoMatch token_contract) in
  let? funded_time := ok_or (cs_funded_time state)
    (invalid_persisted_state token_contract f["funded deal has no fundedTime"]) in
  let? cleanup_at := ok_or (checked_add u64 funded_time MATCH_OPEN_TIMEOUT_SECS)
    (Chain f["cleanup_unopened: "; token_contract; " cleanup deadline overflows uint64"]) in
  if now <? cleanup_at then
    Err (Chain f["cleanup_unopened: "; token_contract; " MATCH_OPEN_TIMEOUT is still open until "; cleanup_at])
  else
  let? subscription := ok_or (ms_deal_subscriptions st !! token_contract)
    (invalid_persisted_state token_contract f["funded deal has no persisted deal shape"]) in
  let? matched := ok_or (ms_matches st !! token_contract)
    (invalid_persisted_state token_contract f["funded deal has no persisted Match"]) in
  let? seller_bond := ok_or (checked_mul u128 (m_price_per_tick matched) 2)
    (Chain f["cleanup_unopened: "; token_contract; " seller bond overflows uint128"]) in
  let buyer_bond := if is_subscription subscription then seller_bond else 0 in
  let? buyer_refund := ok_or (checked_add u128 (cs_deposit state) buyer_bond)
    (Chain f["cleanup_unopened: "; token_contract; " buyer deposit plus bond overflows uint128"]) in
  let st := set_ms_matches (delete token_contract (ms_matches st)) st in
  let st := set_ms_match_created_at (delete token_contract (ms_match_created_at st)) st in
  let st := set_ms_matched_offers (delete token_contract (ms_matched_offers st)) st in
  let st := set_ms_matched_ticks (delete token_contract (ms_matched_ticks st)) st in
  let st := set_ms_deal_subscriptions (delete token_contract (ms_deal_subscriptions st)) st in
  Ok (st, SellerNoShow buyer_refund seller_bond).
