(* ===== verification/MockDeal.v ===== *)
(** * Deals of the mock chain: crates/core/src/market/mock.rs

    The handlers of an open deal, from [open_stream] to its close, and the readers of the
    deal.  As in MockBook, a handler gives the state it stores and each wall-clock call is
    an argument.  [stop] and the two resolutions call machine methods that may panic: they
    return [Ok None] then, with nothing stored. *)
From S2P Require Import Prelude RustText Params Address DealTypes Machine Monitor MockData.
From S2P Require Import MockMoney MockBook.

(** ** Actors *)

Definition require_mock_seller_actor (st : MockState) (token_contract : string) (note : NotePubkey) (action : string)
    : Result ChainError () :=
  let? expected := ok_or (ms_offer_sellers st !! token_contract)
    (Chain f[action; ": "; token_contract; " has no persisted seller actor"]) in
  if negb (String.eqb (note_id_hex note) expected) then
    Err (Chain f[action; ": "; token_contract; " requires the matched seller note"])
  else Ok ().

Definition require_mock_buyer_actor (st : MockState) (token_contract : string) (note : NotePubkey) (action : string)
    : Result ChainError () :=
  let? cell := ok_or (ms_streams st !! token_contract) (NoStream token_contract) in
  if negb (String.eqb (note_id_hex note) (note_id_hex (sc_buyer_pubkey cell))) then
    Err (Chain f[action; ": "; token_contract; " requires the matched buyer note"])
  else Ok ().

Definition require_mock_buyer_note_addr (st : MockState) (token_contract buyer_note_addr action : string)
    : Result ChainError () :=
  let? cell := ok_or (ms_streams st !! token_contract) (NoStream token_contract) in
  let expected := "mock:" +:+ note_id_hex (sc_buyer_pubkey cell) in
  if negb (String.eqb (to_ascii_lowercase (trim buyer_note_addr)) expected) then
    Err (Chain f[action; ": "; token_contract; " requires the matched buyer note"])
  else Ok ().

(** The two mutable borrows every deal handler starts with. *)
Definition borrow_deal (action token_contract : string) (st : MockState)
    : Result ChainError (StreamCell * DealSubscription) :=
  let? cell := ok_or (ms_streams st !! token_contract) (NoStream token_contract) in
  let? subscription := ok_or (ms_deal_subscriptions st !! token_contract)
    (Chain f[action; ": "; token_contract; " has no persisted deal shape"]) in
  Ok (cell, subscription).

(** [map_err(|e| ChainError::EndpointsFile(e.0.to_string()))] on a machine call. *)
Definition machine_call (r : StreamMachine * Result InvariantError ()) : Result ChainError StreamMachine :=
  match r with (m, Ok ()) => Ok m | (_, Err e) => Err (EndpointsFile_error f[e]) end.

(** ** Opening *)

Definition opened_cell (m : Match) (machine : StreamMachine) (buyer_locked probe opened_at max_ticks : Z)
    (subscription : bool) : StreamCell := {|
  sc_schema_version := STREAM_CELL_SCHEMA_VERSION;
  sc_machine := machine;
  sc_probe_accepted := false;
  sc_buyer_pubkey := m_buyer_pubkey m;
  sc_seller_locked := umul u128 2 (m_price_per_tick m);
  sc_buyer_locked := buyer_locked;
  sc_probe_locked := probe;
  sc_probe_time := opened_at;
  sc_buyer_bond := if subscription then umul u128 2 probe else 0;
  sc_fee_accrued := 0;
  sc_tokens_final := 0;
  sc_tokens_pending := 0;
  sc_last_claim_time := opened_at;
  sc_seller_received := 0;
  sc_buyer_refunded := 0;
  sc_burned := 0;
  sc_closed := false;
  sc_max_ticks := max_ticks;
  sc_disputed := false;
  sc_dispute_time := 0;
  sc_buyer_stop_settlement := None;
|}.

(** The state [open_stream] stores. *)
Definition open_stream_state (consts : ProtocolConsts) (params : DobParams) (now : Z) (token_contract : string)
    (note : NotePubkey) (st : MockState) : Result ChainError MockState :=
  require_mock_seller_actor st token_contract note "open_stream" ;?
  match ms_streams st !! token_contract with
  | Some cell =>
      Err (Chain f["open_stream: "; token_contract; " has an "; lifecycle_name cell; " persisted stream"])
  | None =>
  let? m := ok_or (ms_matches st !! token_contract) (NoMatch token_contract) in
  let max_ticks := unwrap_or (umax u64)
    (or_else (ms_matched_ticks st !! token_contract)
      (option_map so_max_ticks
        (or_else (ms_matched_offers st !! token_contract) (ms_offers st !! token_contract)))) in
  let? subscription := ok_or (ms_deal_subscriptions st !! token_contract)
    (Chain f["open_stream: "; token_contract; " has no persisted deal shape"]) in
  let? '(pay, fee) :=
    token_pay_and_fee token_contract (funded_tokens subscription) (m_price_per_tick m) consts in
  let? gross_deposit := ok_or (checked_add u128 pay fee)
    (Chain f["open_stream: "; token_contract; " buyer deposit plus fee overflows uint128"]) in
  let probe := m_price_per_tick m in
  let? buyer_locked := ok_or (checked_sub gross_deposit probe)
    (Chain f["open_stream: "; token_contract; " buyer deposit cannot freeze the probe"]) in
  let machine := StreamMachine_open (m_price_per_tick m) params in
  let cell := opened_cell m machine buyer_locked probe now max_ticks (is_subscription subscription) in
  Ok (set_ms_streams (<[token_contract := cell]> (ms_streams st)) st)
  end.

(** The whole call.  [endpoints] is what reading the endpoints file gives and [write] what
    writing it gives; a failure there comes after the state was stored. *)
Definition open_stream (consts : ProtocolConsts) (params : DobParams) (now : Z) (token_contract : string)
    (enc_endpoint : list Byte.byte) (note : NotePubkey) (endpoints : Result ChainError EndpointsFile)
    (write : EndpointsFile → Result ChainError ()) (st : MockState)
    : Result ChainError (MockState * Result ChainError EndpointsFile) :=
  let? st := open_stream_state consts params now token_contract note st in
  Ok (st,
    let? ef := endpoints in
    let ef := {| handovers := <[token_contract := enc_endpoint]> (handovers ef) |} in
    write ef ;? Ok ef).

Definition read_handover (endpoints : Result ChainError EndpointsFile) (token_contract : string)
    : Result ChainError (option (list Byte.byte)) :=
  let? ef := endpoints in Ok (handovers ef !! token_contract).

(** ** Promotion, the probe and claims *)

(** [!closed && !disputed && probe_accepted], refused with one message per handler. *)
Definition open_accepted (cell : StreamCell) : bool :=
  negb (sc_closed cell || sc_disputed cell || negb (sc_probe_accepted cell)).

(** [if tokens_final == tokens_pending { machine.on_promote()? }]. *)
Definition promote_machine (cell : StreamCell) : Result ChainError StreamCell :=
  if sc_tokens_final cell =? sc_tokens_pending cell then
    let? machine := machine_call (on_promote (sc_machine cell)) in
    Ok (set_sc_machine machine cell)
  else Ok cell.

Definition finalize (consts : ProtocolConsts) (now : Z) (token_contract : string) (st : MockState)
    : Result ChainError MockState :=
  let? '(cell, subscription) := borrow_deal "finalize" token_contract st in
  if negb (open_accepted cell) then
    Err (Chain f["finalize: "; token_contract; " is not an open undisputed accepted deal"])
  else
  let? due := has_due_claim token_contract cell now consts in
  if negb due then
    Err (Chain f["finalize: "; token_contract; " has no claim whose promotion window elapsed"])
  else
  let? cell := promote_due token_contract cell now consts in
  let? cell := promote_machine cell in
  if negb (is_subscription subscription) && (sc_tokens_final cell >=? funded_tokens subscription) then
    let? '(cell, subscription) :=
      credit_tokens_through token_contract cell subscription (sc_tokens_final cell) consts in
    let? delivered := delivered_ticks token_contract cell in
    let? '(cell, _refund) := close_mock_clean token_contract cell delivered consts in
    Ok (set_deal token_contract cell subscription st)
  else Ok (set_deal token_contract cell subscription st).

(** The assignments of an accepted probe, after its fee was found to fit. *)
Definition accept_probe_money (token_contract : string) (cell : StreamCell) (fee : Z)
    : Result ChainError StreamCell :=
  let probe := sc_probe_locked cell in
  let cell := set_sc_buyer_locked (usub u128 (sc_buyer_locked cell) fee) cell in
  let cell := set_sc_probe_locked 0 cell in
  let? seller_received := ok_or (checked_add u128 (sc_seller_received cell) probe)
    (Chain f["accept_probe: "; token_contract; " seller proceeds overflow uint128"]) in
  let cell := set_sc_seller_received seller_received cell in
  let? fee_accrued := ok_or (checked_add u128 (sc_fee_accrued cell) fee)
    (Chain f["accept_probe: "; token_contract; " accrued fee overflows uint128"]) in
  Ok (set_sc_fee_accrued fee_accrued cell).

Definition accept_probe (consts : ProtocolConsts) (now : Z) (token_contract : string) (st : MockState)
    : Result ChainError MockState :=
  let? '(cell, subscription) := borrow_deal "accept_probe" token_contract st in
  if sc_closed cell || sc_disputed cell || sc_probe_accepted cell then
    Err (Chain f["accept_probe: "; token_contract; " is not an open undisputed probe"])
  else
  let? deadline := ok_or (checked_add u64 (sc_probe_time cell) (as_secs (probe_window consts)))
    (Chain f["accept_probe: "; token_contract; " probe deadline overflows uint64"]) in
  if now <? deadline then
    Err (Chain f["accept_probe: "; token_contract; " probe window is still open"])
  else
  let? machine := machine_call (on_probe_accepted (sc_machine cell)) in
  let cell := set_sc_probe_accepted true (set_sc_machine machine cell) in
  let? '(_pay, fee) := token_pay_and_fee token_contract TICK_SIZE (sm_price (sc_machine cell)) consts in
  if fee >? sc_buyer_locked cell then
    Err (Chain f["accept_probe: "; token_contract; " probe fee "; fee; " exceeds buyer escrow "; sc_buyer_locked cell])
  else
  let? cell := accept_probe_money token_contract cell fee in
  let subscription := set_week_base_tokens 0 (set_period_start now (set_tokens_paid TICK_SIZE subscription)) in
  let cell := set_sc_last_claim_time now (set_sc_tokens_pending TICK_SIZE (set_sc_tokens_final TICK_SIZE cell)) in
  Ok (set_deal token_contract cell subscription st).

(** The ceiling of a claim in the current week, after the elapsed weeks were charged. *)
Definition claim_cap (token_contract : string) (cell : StreamCell) (subscription : DealSubscription)
    : Result ChainError Z :=
  if week_index subscription >=? sub_weeks subscription then Ok (sc_tokens_pending cell)
  else
  let? cap := ok_or (checked_add u128 (week_base_tokens subscription) (tokens_per_week subscription))
    (Chain f["claim_tokens: "; token_contract; " subscription weekBaseTokens + tokensPerWeek overflows uint128"]) in
  Ok (Z.min cap (funded_tokens subscription)).

(** The pacing guards: spacing, hard delta and physical rate. *)
Definition check_claim_rate (consts : ProtocolConsts) (claim_time : Z) (token_contract : string) (cell : StreamCell)
    (cumulative_tokens : Z) : Result ChainError () :=
  let? elapsed := ok_or (checked_sub claim_time (sc_last_claim_time cell))
    (Chain f["claim_tokens: "; token_contract; " logical claim clock regresses"]) in
  if elapsed <? as_secs (min_claim_interval consts) then
    Err (Chain f["claim_tokens: "; token_contract; " minimum claim interval is still open"])
  else
  let delta := usub u128 cumulative_tokens (sc_tokens_pending cell) in
  if delta >? MAX_CLAIM_DELTA then
    Err (Limit f["claim_tokens: delta "; delta; " exceeds MAX_CLAIM_DELTA "; MAX_CLAIM_DELTA])
  else
  let? produced_time := ok_or (checked_mul u128 delta (as_secs (min_seconds_per_tick consts)))
    (Chain f["claim_tokens: "; token_contract; " physical-rate numerator overflows uint128"]) in
  let? allowed_time := ok_or (checked_mul u128 elapsed TICK_SIZE)
    (Chain f["claim_tokens: "; token_contract; " physical-rate allowance overflows uint128"]) in
  if produced_time >? allowed_time then
    Err (Limit f["claim_tokens: delta "; delta; " exceeds the physical rate allowance"])
  else Ok ().

(** The volume guards: the offer, then the week of a subscription. *)
Definition check_claim_volume (token_contract : string) (cell : StreamCell) (subscription : DealSubscription)
    (cumulative_tokens : Z) : Result ChainError () :=
  let? max_tokens := ok_or (checked_mul u128 (sc_max_ticks cell) TICK_SIZE)
    (Chain f["claim_tokens: "; token_contract; " maximum token volume overflows uint128"]) in
  if cumulative_tokens >? max_tokens then
    Err (Limit f["claim_tokens: cumulative "; cumulative_tokens; " tokens exceeds max_tokens ("; max_tokens; ") -- the mock does not deliver beyond the offer"])
  else if is_subscription subscription then
    let? cap := claim_cap token_contract cell subscription in
    if cumulative_tokens >? cap then
      Err (Limit f["claim_tokens: cumulative "; cumulative_tokens; " tokens exceeds current subscription cap "; cap; "; unused weekly quota does not roll forward"])
    else Ok ()
  else Ok ().

(** Promotion of the previous claim and landing of the new one. *)
Definition land_claim (consts : ProtocolConsts) (claim_time : Z) (token_contract : string) (cell : StreamCell)
    (cumulative_tokens : Z) : Result ChainError StreamCell :=
  let? cell := promote_due token_contract cell claim_time consts in
  if negb (sc_tokens_pending cell =? sc_tokens_final cell) then
    Err (Chain f["claim_tokens: "; token_contract; " pending claim slot is still inside its promotion window"])
  else
  let? machine_ticks := ok_or (try_into u64 (div_ceil cumulative_tokens TICK_SIZE))
    (Chain f["claim_tokens: cumulative "; cumulative_tokens; " tokens does not fit the lifecycle tick counter"]) in
  let? machine := machine_call (on_claim (sc_machine cell) machine_ticks) in
  Ok (set_sc_last_claim_time claim_time
       (set_sc_tokens_pending cumulative_tokens (set_sc_machine machine cell))).

(** [now] is the clock of the weekly charge, [claim_time] the later reading. *)
Definition claim_tokens (consts : ProtocolConsts) (now claim_time : Z) (token_contract : string) (note : NotePubkey)
    (cumulative_tokens : Z) (st : MockState) : Result ChainError MockState :=
  require_mock_seller_actor st token_contract note "claim_tokens" ;?
  let? '(cell, subscription) := borrow_deal "claim_tokens" token_contract st in
  if negb (open_accepted cell) then
    Err (Chain f["claim_tokens: "; token_contract; " is not an open undisputed accepted deal"])
  else if machine_on_probe (sc_machine cell) then
    Err (Chain f["claim_tokens: "; token_contract; " persisted lifecycle disagrees with probe acceptance"])
  else if cumulative_tokens <? sc_tokens_pending cell then
    Err (Chain f["claim_tokens: cumulative "; cumulative_tokens; " tokens regresses pending total "; sc_tokens_pending cell])
  else if cumulative_tokens =? sc_tokens_pending cell then Ok st
  else
  let? '(cell, subscription) :=
    if is_subscription subscription then
      let? '(cell, subscription, _crossed) :=
        charge_elapsed_subscription_weeks token_contract cell subscription now consts in
      Ok (cell, subscription)
    else Ok (cell, subscription) in
  check_claim_volume token_contract cell subscription cumulative_tokens ;?
  check_claim_rate consts claim_time token_contract cell cumulative_tokens ;?
  let? cell := land_claim consts claim_time token_contract cell cumulative_tokens in
  Ok (set_deal token_contract cell subscription st).

(** The close of a subscription whose term is over and whose last claim is due. *)
Definition settle_term (consts : ProtocolConsts) (now : Z) (token_contract : string) (cell : StreamCell)
    (subscription : DealSubscription) : Result ChainError (StreamCell * DealSubscription) :=
  let? cell := promote_due token_contract cell now consts in
  let? cell := promote_machine cell in
  let trusted := sc_tokens_final cell in
  let? '(cell, subscription) :=
    if trusted >? tokens_paid subscription
    then credit_tokens_through token_contract cell subscription trusted consts
    else Ok (cell, subscription) in
  let? delivered := delivered_ticks token_contract cell in
  let? '(cell, _refund) := close_mock_clean token_contract cell delivered consts in
  Ok (cell, subscription).

Definition settle_week (consts : ProtocolConsts) (now : Z) (token_contract : string) (st : MockState)
    : Result ChainError MockState :=
  let? '(cell, subscription) := borrow_deal "settle_week" token_contract st in
  if negb (is_subscription subscription) then
    Err (Chain f["settle_week: "; token_contract; " is an ordinary deal"])
  else
  let? '(cell, subscription, crossed) :=
    charge_elapsed_subscription_weeks token_contract cell subscription now consts in
  if negb crossed && (week_index subscription <? sub_weeks subscription) then
    Err (Chain f["settle_week: "; token_contract; " has no crossed weekly boundary"])
  else
  let? due :=
    if week_index subscription >=? sub_weeks subscription
    then claim_deadline_reached token_contract (sc_last_claim_time cell) (claim_promote_window consts) now
    else Ok false in
  let? '(cell, subscription) :=
    if due : bool then settle_term consts now token_contract cell subscription else Ok (cell, subscription) in
  Ok (set_deal token_contract cell subscription st).

(** ** Stops *)

(** The pre-probe branch: the probe and one tick of the seller bond are burned. *)
Definition stop_probe (token_contract : string) (cell : StreamCell) (burn : ContestedBurn) (machine : StreamMachine)
    : Result ChainError (StreamCell * Settlement) :=
  let cell := set_sc_machine machine cell in
  let probe := sc_probe_locked cell in
  let seller_burn := Z.min probe (sc_seller_locked cell) in
  let? refund := ok_or (checked_add u128 (sc_buyer_locked cell) (sc_buyer_bond cell))
    (Chain f["stop: "; token_contract; " pre-probe buyer refund overflows uint128"]) in
  let? burned := ok_or
    (let* amount := checked_add u128 (sc_burned cell) probe in checked_add u128 amount seller_burn)
    (Chain f["stop: "; token_contract; " pre-probe burn overflows uint128"]) in
  let cell := set_sc_burned burned cell in
  let? buyer_refunded := ok_or (checked_add u128 (sc_buyer_refunded cell) refund)
    (Chain f["stop: "; token_contract; " cumulative buyer refund overflows uint128"]) in
  let cell := set_sc_buyer_refunded buyer_refunded cell in
  let? seller_received := ok_or
    (checked_add u128 (sc_seller_received cell) (usub u128 (sc_seller_locked cell) seller_burn))
    (Chain f["stop: "; token_contract; " finalized seller amount overflows uint128"]) in
  let cell := set_sc_seller_received seller_received cell in
  let cell := zero_locks cell in
  let cell := set_sc_closed true (set_sc_machine (machine_close (sc_machine cell)) cell) in
  Ok (cell, BurnBoth {|
    burn_buyer := burn_buyer burn; burn_seller := burn_seller burn;
    burn_buyer_refund := refund; burn_seller_refund := burn_seller_refund burn |}).

(** The accepted branch: due claims, started weeks, trusted tokens, then the clean close. *)
Definition stop_accepted (consts : ProtocolConsts) (now now' : Z) (token_contract : string) (cell : StreamCell)
    (subscription : DealSubscription) : Result ChainError (option (StreamCell * DealSubscription * Settlement)) :=
  let? cell := promote_due token_contract cell now consts in
  let? '(cell, subscription) :=
    if is_subscription subscription then
      let? started := subscription_weeks_at token_contract subscription now' true in
      let? '(cell, subscription, _charged) :=
        charge_subscription_through token_contract cell subscription started consts in
      Ok (cell, subscription)
    else Ok (cell, subscription) in
  let trusted := sc_tokens_final cell in
  let? '(cell, subscription) :=
    if trusted >? tokens_paid subscription
    then credit_tokens_through token_contract cell subscription trusted consts
    else Ok (cell, subscription) in
  let? delivered := delivered_ticks token_contract cell in
  match machine_buyer_stop (sc_machine cell) with
  | Err _ => Ok None
  | Ok (_settlement, machine) =>
      let? '(cell, refund) := close_mock_clean token_contract (set_sc_machine machine cell) delivered consts in
      let? paid_ticks := mock_finalized_ticks token_contract (tokens_paid subscription) in
      let cell := set_sc_buyer_stop_settlement (Some (sc_seller_received cell, refund)) cell in
      Ok (Some (cell, subscription, AmicableSplit paid_ticks refund))
  end.

Definition stop_mock_stream (consts : ProtocolConsts) (now now' : Z) (token_contract : string) (st : MockState)
    : Result ChainError (option (MockState * Settlement)) :=
  let? '(cell, subscription) := borrow_deal "stop" token_contract st in
  if sc_closed cell then Err (Chain f["stop: "; token_contract; " is already closed"])
  else if sc_disputed cell then Err (Chain f["stop: "; token_contract; " is disputed"])
  else if negb (sc_probe_accepted cell) then
    match machine_buyer_stop (sc_machine cell) with
    | Err _ => Ok None
    | Ok (BurnBoth burn, machine) =>
        let? '(cell, settlement) := stop_probe token_contract cell burn machine in
        Ok (Some (set_deal token_contract cell subscription st, settlement))
    | Ok (_, _) => Err (Chain f["stop: "; token_contract; " pre-probe state did not produce ProbeBurned"])
    end
  else
    let? stopped := stop_accepted consts now now' token_contract cell subscription in
    Ok (option_map (λ '(cell, subscription, settlement),
      (set_deal token_contract cell subscription st, settlement)) stopped).

Definition stop (consts : ProtocolConsts) (now now' : Z) (token_contract : string) (note : NotePubkey) (st : MockState)
    : Result ChainError (option (MockState * Settlement)) :=
  require_mock_buyer_actor st token_contract note "stop" ;?
  stop_mock_stream consts now now' token_contract st.

Definition stop_by_buyer_note_addr (consts : ProtocolConsts) (now now' : Z) (token_contract buyer_note_addr : string)
    (st : MockState) : Result ChainError (option (MockState * Settlement)) :=
  require_mock_buyer_note_addr st token_contract buyer_note_addr "stop" ;?
  stop_mock_stream consts now now' token_contract st.

(** The pre-probe branch of the seller's stop: one tick of its bond is burned. *)
Definition seller_stop_probe (token_contract : string) (cell : StreamCell) : Result ChainError (StreamCell * Settlement) :=
  let seller_burn := Z.min (sm_price (sc_machine cell)) (sc_seller_locked cell) in
  let? refund := ok_or
    (let* amount := checked_add u128 (sc_buyer_locked cell) (sc_probe_locked cell) in
     checked_add u128 amount (sc_buyer_bond cell))
    (Chain f["seller_stop: "; token_contract; " pre-probe buyer refund overflows uint128"]) in
  let? burned := ok_or (checked_add u128 (sc_burned cell) seller_burn)
    (Chain f["seller_stop: "; token_contract; " seller burn overflows uint128"]) in
  let cell := set_sc_burned burned cell in
  let? buyer_refunded := ok_or (checked_add u128 (sc_buyer_refunded cell) refund)
    (Chain f["seller_stop: "; token_contract; " cumulative buyer refund overflows uint128"]) in
  let cell := set_sc_buyer_refunded buyer_refunded cell in
  let? seller_received := ok_or
    (checked_add u128 (sc_seller_received cell) (usub u128 (sc_seller_locked cell) seller_burn))
    (Chain f["seller_stop: "; token_contract; " finalized seller amount overflows uint128"]) in
  let cell := set_sc_seller_received seller_received cell in
  let cell := zero_locks cell in
  let cell := set_sc_closed true (set_sc_machine (machine_close (sc_machine cell)) cell) in
  Ok (cell, AmicableSplit 0 refund).

Definition seller_stop_accepted (consts : ProtocolConsts) (now now' : Z) (token_contract : string) (cell : StreamCell)
    (subscription : DealSubscription) : Result ChainError (option (StreamCell * DealSubscription * Settlement)) :=
  let? cell := promote_due token_contract cell now consts in
  let? '(cell, subscription) :=
    if is_subscription subscription then
      let? elapsed := subscription_weeks_at token_contract subscription now' false in
      let? '(cell, subscription, _charged) :=
        charge_subscription_through token_contract cell subscription elapsed consts in
      Ok (cell, subscription)
    else Ok (cell, subscription) in
  let trusted := sc_tokens_final cell in
  let? '(cell, subscription) :=
    if negb (is_subscription subscription) && (trusted >? tokens_paid subscription)
    then credit_tokens_through token_contract cell subscription trusted consts
    else Ok (cell, subscription) in
  let? delivered := delivered_ticks token_contract cell in
  match machine_seller_stop (sc_machine cell) with
  | Err _ => Ok None
  | Ok (_settlement, machine) =>
      let? '(cell, refund) := close_mock_clean token_contract (set_sc_machine machine cell) delivered consts in
      let? paid_ticks := mock_finalized_ticks token_contract (tokens_paid subscription) in
      Ok (Some (cell, subscription, AmicableSplit paid_ticks refund))
  end.

Definition seller_stop (consts : ProtocolConsts) (now now' : Z) (token_contract : string) (st : MockState)
    : Result ChainError (option (MockState * Settlement)) :=
  let? '(cell, subscription) := borrow_deal "seller_stop" token_contract st in
  if sc_closed cell then Err (Chain f["seller_stop: "; token_contract; " is already closed"])
  else if sc_disputed cell then Err (Chain f["seller_stop: "; token_contract; " is disputed"])
  else if negb (sc_probe_accepted cell) then
    let? '(cell, settlement) := seller_stop_probe token_contract cell in
    Ok (Some (set_deal token_contract cell subscription st, settlement))
  else
    let? stopped := seller_stop_accepted consts now now' token_contract cell subscription in
    Ok (option_map (λ '(cell, subscription, settlement),
      (set_deal token_contract cell subscription st, settlement)) stopped).

(** ** Disputes *)

(** What [dispute] reports: the bonds before, the event, and the state after. *)
Definition dispute_receipt (token_contract : string) (cell : StreamCell) (is_sub : bool) (bond_required at_ : Z)
    : SettlementActionReceipt :=
  let buyer := ("mock:" +:+ note_id_hex (sc_buyer_pubkey cell))%string in
  let buyer_required := if is_sub then bond_required else 0 in {|
    rc_token_contract := token_contract;
    rc_action := Dispute;
    rc_message_id := ("mock:" +:+ token_contract +:+ ":dispute:" +:+ to_string at_)%string;
    rc_created_at := at_;
    rc_event := StreamDisputed buyer at_;
    rc_pre_bonds := {|
      pre_seller_bond_held := mkRawUint128 (sc_seller_locked cell);
      pre_seller_bond_required := mkRawUint128 bond_required;
      pre_buyer_bond_held := mkRawUint128 (sc_buyer_bond cell);
      pre_buyer_bond_required := mkRawUint128 buyer_required;
    |};
    rc_post_state := Some {|
      ps_tokens_final := mkRawUint128 (sc_tokens_final cell);
      ps_tokens_pending := mkRawUint128 (sc_tokens_pending cell);
      ps_seller_bond_held := mkRawUint128 (sc_seller_locked cell);
      ps_seller_bond_required := mkRawUint128 bond_required;
      ps_buyer_bond_held := mkRawUint128 (sc_buyer_bond cell);
      ps_buyer_bond_required := mkRawUint128 buyer_required;
      ps_opened := true;
      ps_disputed := true;
    |};
  |}.

Definition dispute (now : Z) (token_contract : string) (note : NotePubkey) (st : MockState)
    : Result ChainError (MockState * Settlement) :=
  require_mock_buyer_actor st token_contract note "dispute" ;?
  let? subscription := ok_or (ms_deal_subscriptions st !! token_contract)
    (Chain f["dispute: "; token_contract; " has no persisted deal shape"]) in
  let? cell := ok_or (ms_streams st !! token_contract) (NoStream token_contract) in
  if sc_closed cell || sc_disputed cell then
    Err (Chain f["dispute: "; token_contract; " is not an undisputed open deal"])
  else
  let? bond_required := ok_or (checked_mul u128 (sm_price (sc_machine cell)) 2)
    (Chain f["dispute: "; token_contract; " two-tick bond overflows uint128"]) in
  let receipt := dispute_receipt token_contract cell (is_subscription subscription) bond_required now in
  let cell := set_sc_machine (machine_buyer_dispute (sc_machine cell)) cell in
  let cell := set_sc_dispute_time now (set_sc_disputed true cell) in
  Ok (set_ms_streams (<[token_contract := cell]> (ms_streams st)) st, AuthoritativeReceipt receipt).

Definition release_dispute (consts : ProtocolConsts) (token_contract : string) (st : MockState)
    : Result ChainError (option (MockState * Settlement)) :=
  let? '(cell, subscription) := borrow_deal "release_dispute" token_contract st in
  let? resolved := resolve_mock_dispute token_contract cell subscription consts false in
  Ok (option_map (λ '(cell, subscription, (to_buyer, seller_bond)),
    (set_deal token_contract cell subscription st, SellerNoShow to_buyer seller_bond)) resolved).

Definition resolve_dispute_timeout (consts : ProtocolConsts) (now : Z) (token_contract : string) (st : MockState)
    : Result ChainError (option (MockState * Settlement)) :=
  let? cell := ok_or (ms_streams st !! token_contract) (NoStream token_contract) in
  if negb (sc_disputed cell) || (sc_dispute_time cell =? 0) then
    Err (Chain f["resolve_dispute_timeout: "; token_contract; " is not in a timed dispute"])
  else
  let? deadline := ok_or (checked_add u64 (sc_dispute_time cell) (as_secs (dispute_window consts)))
    (Chain f["resolve_dispute_timeout: "; token_contract; " dispute deadline overflows uint64"]) in
  if now <? deadline then
    Err (Chain f["resolve_dispute_timeout: "; token_contract; " dispute window is still open"])
  else
  let? subscription := ok_or (ms_deal_subscriptions st !! token_contract)
    (Chain f["resolve_dispute_timeout: "; token_contract; " has no persisted deal shape"]) in
  let? resolved := resolve_mock_dispute token_contract cell subscription consts true in
  Ok (option_map (λ '(cell, subscription, (to_buyer, seller_bond)),
    (set_deal token_contract cell subscription st, SellerNoShow to_buyer seller_bond)) resolved).

(** ** Readers *)

Definition checked_snapshot (st : MockState) (token_contract : string) : Result ChainError (option StreamSnapshot) :=
  match ms_streams st !! token_contract with
  | None => Ok None
  | Some cell =>
      let? locked := ok_or
        (let* amount := checked_add u128 (sc_buyer_locked cell) (sc_probe_locked cell) in
         checked_add u128 amount (sc_buyer_bond cell))
        (Chain f["mock TokenContract "; token_contract; ": total buyer lock overflows uint128"]) in
      let? contested := ok_or (checked_sub (sc_tokens_pending cell) (sc_tokens_final cell))
        (Chain f["mock TokenContract "; token_contract; ": pending tokens are below finalized tokens"]) in
      let? contested_value := checked_mul_div_floor token_contract contested (sm_price (sc_machine cell)) TICK_SIZE
        "buyer exposure" in
      let? buyer_lead := ok_or (checked_add u128 (sc_probe_locked cell) contested_value)
        (Chain f["mock TokenContract "; token_contract; ": buyer exposure overflows uint128"]) in
      Ok (Some {|
        ss_seller_locked := sc_seller_locked cell;
        ss_buyer_locked := locked;
        ss_buyer_lead := buyer_lead;
        ss_tokens_final := sc_tokens_final cell;
        ss_seller_received := sc_seller_received cell;
        ss_buyer_refunded := sc_buyer_refunded cell;
        ss_burned := sc_burned cell;
        ss_closed := sc_closed cell;
      |})
  end.
Definition snapshot (st : MockState) (token_contract : string) : option StreamSnapshot :=
  unwrap_or None (result_ok (checked_snapshot st token_contract)).

Definition buyer_stop_settlement (st : MockState) (token_contract : string) : option (Z * Z) :=
  let* cell := ms_streams st !! token_contract in sc_buyer_stop_settlement cell.
Definition deal_purchase_terms (st : MockState) (token_contract : string) : option (Z * Z) :=
  let* offer := ms_matched_offers st !! token_contract in
  option_map (λ ticks, (ticks, so_price_per_tick offer)) (ms_matched_ticks st !! token_contract).

Definition deal_snapshot (consts : ProtocolConsts) (st : MockState) (token_contract : string)
    : Result ChainError (option DealChainSnapshot) :=
  let? state := mock_deal_state st token_contract consts in
  match state with
  | None => Ok None
  | Some state =>
      let? subscription := mock_deal_subscription st token_contract in
      let? subscription := ok_or subscription
        (Chain f["mock TokenContract "; token_contract; ": state exists without matched deal terms"]) in
      let? offer := ok_or (ms_matched_offers st !! token_contract)
        (Chain f["mock TokenContract "; token_contract; ": state exists without a consumed offer"]) in
      let? bond_required := ok_or (checked_mul u128 (so_price_per_tick offer) 2)
        (Chain f["mock TokenContract "; token_contract; ": two-tick bond overflows uint128"]) in
      let cell := ms_streams st !! token_contract in
      let subscription_bond := if is_subscription subscription then bond_required else 0 in
      let snapshot := {|
        account_code_hash := "mock-token-contract";
        account_boc_hash := "mock:" +:+ token_contract;
        snap_state := state;
        snap_subscription := subscription;
        snap_seller_bond := {|
          sb_bond_funded := true;
          sb_bond_held := unwrap_or bond_required (option_map sc_seller_locked cell);
          sb_bond_required := bond_required |};
        snap_buyer_bond := {|
          bb_bond_held := unwrap_or subscription_bond (option_map sc_buyer_bond cell);
          bb_bond_required := subscription_bond |};
      |} in
      map_err (invalid_persisted_state token_contract) (validate_cross_getter_invariants snapshot) ;?
      Ok (Some snapshot)
  end.

(** The deals a note takes part in, as seller first, then as buyer of the others. *)
Definition deal_key : Type := string * DealRole * option string * Shell.
Definition seller_deal_keys (st : MockState) (note_id : string) : list deal_key :=
  omap (λ '(tc, seller),
    if String.eqb seller note_id
       && (bool_decide (is_Some (ms_offers st !! tc)) || bool_decide (is_Some (ms_matches st !! tc))
           || bool_decide (is_Some (ms_matched_offers st !! tc)) || bool_decide (is_Some (ms_streams st !! tc)))
    then Some (tc, Seller, option_map (λ m, note_id_hex (m_buyer_pubkey m)) (ms_matches st !! tc),
           unwrap_or 0 (or_else (option_map m_price_per_tick (ms_matches st !! tc))
             (or_else (option_map so_price_per_tick (ms_matched_offers st !! tc))
               (option_map so_price_per_tick (ms_offers st !! tc)))))
    else None) (map_to_list (ms_offer_sellers st)).
Definition buyer_deal_keys (st : MockState) (note_id : string) (seen : list deal_key) : list deal_key :=
  omap (λ '(tc, m),
    if String.eqb (note_id_hex (m_buyer_pubkey m)) note_id
       && negb (existsb (λ k : deal_key, String.eqb k.1.1.1 tc) seen)
    then Some (tc, Buyer, ms_offer_sellers st !! tc, m_price_per_tick m)
    else None) (map_to_list (ms_matches st)).

Definition deal_view (st : MockState) (key : deal_key) : DealView :=
  let '(tc, role, counterparty, price) := key in {|
    dv_token_contract := tc; dv_role := role; dv_counterparty := counterparty; dv_price_per_tick := price;
    dv_model := None; dv_snapshot := snapshot st tc |}.
(** What one deal adds to the exposure of the note. *)
Definition deal_exposure (d : DealView) : Z :=
  match dv_snapshot d with
  | Some s =>
      if ss_closed s then 0
      else unwrap_or SHELL_MAX (try_into u64
             match dv_role d with Buyer => ss_buyer_locked s | Seller => ss_seller_locked s end)
  | None => 0
  end.

(** The two maps are iterated in an unspecified order; [st'] is the state the later
    [snapshot] calls load, after the lock was released. *)
Definition note_snapshot (st st' : MockState) (note : NotePubkey) : NoteSnapshot :=
  let note_id := note_id_hex note in
  let own_offers := omap (λ '(tc, o),
    if bool_decide (ms_offer_sellers st !! tc = Some note_id)
    then Some {| ol_seller_id := note_id; ol_token_contract := tc;
                 ol_price_per_tick := so_price_per_tick o; ol_max_ticks := so_max_ticks o |}
    else None) (map_to_list (ms_offers st)) in
  let seller_keys := seller_deal_keys st note_id in
  let keys := seller_keys ++ buyer_deal_keys st note_id seller_keys in
  let deals := map (deal_view st') keys in {|
    ns_note_id := note_id;
    ns_offers := own_offers;
    ns_deals := deals;
    ns_exposure := foldl (λ n d, saturating_add u64 n (deal_exposure d)) 0 deals;
  |}.

(** ** The sidecar file

    Names of contracts and notes are written in their public form and read back in the
    workchain form (the [#[serde(with = ...)]] attributes of market/types.rs); the keys of
    the maps are written as they are.  [MockState_with] applies a codec to every such field:
    [MockState_serialize] is the value handed to the JSON library and [MockState_deserialize]
    makes the state of the value it returns. *)
Definition SellOffer_with (self_dapp : string → string) (o : SellOffer) : SellOffer := {|
  so_price_per_tick := so_price_per_tick o; so_max_ticks := so_max_ticks o;
  so_token_contract := self_dapp (so_token_contract o); so_flags := so_flags o |}.
Definition Match_with (self_dapp : string → string) (m : Match) : Match := {|
  m_token_contract := self_dapp (m_token_contract m); m_buyer_pubkey := m_buyer_pubkey m;
  m_price_per_tick := m_price_per_tick m |}.
Definition OrderBookOrder_with (canonical : string → string) (self_dapp_opt : option string → option string)
    (o : OrderBookOrder) : OrderBookOrder := {|
  ob_order_id := ob_order_id o; ob_owner_note := canonical (ob_owner_note o);
  ob_token_contract := self_dapp_opt (ob_token_contract o); ob_is_buy := ob_is_buy o;
  ob_price_per_tick := ob_price_per_tick o; ob_ticks := ob_ticks o; ob_escrow := ob_escrow o;
  ob_deadline := ob_deadline o; ob_flags := ob_flags o; ob_timestamp := ob_timestamp o |}.
Definition MockSubscriptionTerminal_with (order : OrderBookOrder → OrderBookOrder) (t : MockSubscriptionTerminal)
    : MockSubscriptionTerminal := {|
  mt_order := order (mt_order t); mt_order_book := mt_order_book t; mt_reason := mt_reason t; mt_refunded := mt_refunded t |}.
Definition MockState_with (self_dapp canonical : string → string) (self_dapp_opt : option string → option string)
    (st : MockState) : MockState :=
  let order := OrderBookOrder_with canonical self_dapp_opt in
  mkState (SellOffer_with self_dapp <$> ms_offers st) (SellOffer_with self_dapp <$> ms_matched_offers st)
    (ms_matched_ticks st) (ms_deal_subscriptions st) (ms_offer_sellers st) (ms_offer_deadlines st) (ms_deal_terms st)
    (ms_expired_generations st) (Match_with self_dapp <$> ms_matches st) (ms_match_created_at st) (ms_streams st)
    (order <$> ms_subscription_orders st) (ms_subscription_order_books st)
    (MockSubscriptionTerminal_with order <$> ms_subscription_terminal_orders st) (ms_next_subscription_order_id st).
Definition MockState_serialize : MockState → MockState :=
  MockState_with serde_self_dapp_serialize serde_canonical_serialize serde_self_dapp_opt_serialize.
Definition MockState_deserialize : MockState → MockState :=
  MockState_with serde_self_dapp_deserialize serde_canonical_deserialize serde_self_dapp_opt_deserialize.

(** [decode] and [encode] stand for the JSON library.  A missing or empty file is the
    default state; anything else is decoded and validated. *)
Inductive FileRead : Type := NotFound | ReadError (msg : text) | Bytes (content : list Byte.byte).

Section Sidecar.
Context (decode : list Byte.byte → Result text MockState) (encode : MockState → Result text (list Byte.byte)).

Definition load_state (now : Z) (file : FileRead) : Result ChainError MockState :=
  match file with
  | Bytes (b :: bs) =>
      let? st := rmap MockState_deserialize (map_err EndpointsFile_error (decode (b :: bs))) in
      validate_persisted_state st now ;? Ok st
  | Bytes [] | NotFound => Ok MockState_default
  | ReadError e => Err (EndpointsFile_error e)
  end.

(** The bytes given to the write. *)
Definition store_state (st : MockState) : Result ChainError (list Byte.byte) :=
  map_err EndpointsFile_error (encode (MockState_serialize st)).
End Sidecar.
