(* ===== verification/DealSpec.v ===== *)
(** * What the money functions of MockMoney compute

    [pay], [fee_of] and [cost] are the exact payment, fee and their sum for a token volume;
    the lemmas say that the checked arithmetic of mock.rs computes exactly them whenever
    the result fits a [u128], and collect the monotonicity the escrow argument rests on.

    The second part is the abstract deal: its terms, the phases it goes through, the cell of each
    phase, and the payout of every way it can end. *)
From S2P Require Import Prelude RustText Params DealTypes Machine MockData MockMoney.
From S2P Require Import MockBook MockDeal.

#[local] Arguments umax : simpl never.

Definition pay (price tokens : Z) : Z := tokens * price / TICK_SIZE.
Definition fee_of (c : ProtocolConsts) (price tokens : Z) : Z :=
  pay price tokens * platform_fee_bps c / 10000.
Definition cost (c : ProtocolConsts) (price tokens : Z) : Z := pay price tokens + fee_of c price tokens.

(** The rebate of a clean close of [delivered] ticks with [fee] accrued. *)
Definition rebate_of (c : ProtocolConsts) (price delivered fee : Z) : Z :=
  let rate := Z.min (Z.min (rebate_slope_bps c * delivered) (umax u128)) (rebate_max_bps c) in
  Z.min (delivered * price * rate / 10000) fee.

(** ** Exactness of the checked arithmetic *)

Lemma mul_div_floor_split v m d : 0 < d → v * m / d = v / d * m + (v mod d) * m / d.
Proof.
  intros Hd. rewrite (Z.div_mod v d) at 1 by lia.
  replace ((d * (v / d) + v mod d) * m) with ((v mod d) * m + v / d * m * d) by lia.
  rewrite Z.div_add by lia. lia.
Qed.

Lemma mul_div_floor_opt_spec v m d :
  0 ≤ v → 0 ≤ m → 0 < d → (d - 1) * m ≤ umax u128 →
  mul_div_floor_opt v m d = if v * m / d <=? umax u128 then Some (v * m / d) else None.
Proof.
  intros Hv Hm Hd Hfit. unfold mul_div_floor_opt. rewrite (mul_div_floor_split v m d) by lia.
  pose proof (Z.mod_pos_bound v d Hd). pose proof (Z.div_pos v d Hv Hd).
  assert (v mod d * m ≤ umax u128) by nia.
  assert (0 ≤ v mod d * m / d) by (apply Z.div_pos; nia).
  unfold checked_mul, checked_add.
  destruct (Z.leb_spec (v / d * m) (umax u128)); cbn.
  - destruct (Z.leb_spec (v mod d * m) (umax u128)); [|lia]. cbn. done.
  - destruct (Z.leb_spec (v / d * m + v mod d * m / d) (umax u128)); [lia|done].
Qed.

Section Money.
Context (c : ProtocolConsts) (price : Z).
Hypotheses (Hc : consts_wf c) (Hprice : in_range u64 price).

Lemma bps_range : 0 ≤ platform_fee_bps c ≤ umax u32.
Proof. apply Hc. Qed.

Lemma pay_nonneg t : 0 ≤ t → 0 ≤ pay price t.
Proof. intros. apply Z.div_pos; [|done]. destruct Hprice. nia. Qed.

Lemma fee_nonneg t : 0 ≤ t → 0 ≤ fee_of c price t.
Proof. intros. apply Z.div_pos; [|done]. pose proof (pay_nonneg t). pose proof bps_range. nia. Qed.

Lemma cost_nonneg t : 0 ≤ t → 0 ≤ cost c price t.
Proof. intros. unfold cost. pose proof (pay_nonneg t). pose proof (fee_nonneg t). lia. Qed.

Lemma div_superadd a b d : 0 < d → a / d + b / d ≤ (a + b) / d.
Proof.
  intros. apply Z.div_le_lower_bound; [done|].
  pose proof (Z.mul_div_le a d). pose proof (Z.mul_div_le b d). lia.
Qed.

Lemma pay_superadd s t : pay price s + pay price t ≤ pay price (s + t).
Proof. unfold pay. rewrite Z.mul_add_distr_r. by apply div_superadd. Qed.

Lemma pay_mono s t : s ≤ t → pay price s ≤ pay price t.
Proof. intros. apply Z.div_le_mono; [done|]. destruct Hprice. nia. Qed.

Lemma fee_superadd s t : fee_of c price s + fee_of c price t ≤ fee_of c price (s + t).
Proof.
  unfold fee_of. etransitivity; [by apply div_superadd|]. apply Z.div_le_mono; [done|].
  pose proof (pay_superadd s t). pose proof bps_range. nia.
Qed.

Lemma fee_mono s t : s ≤ t → fee_of c price s ≤ fee_of c price t.
Proof. intros. apply Z.div_le_mono; [done|]. pose proof (pay_mono s t). pose proof bps_range. nia. Qed.

Lemma cost_mono s t : s ≤ t → cost c price s ≤ cost c price t.
Proof. intros. unfold cost. pose proof (pay_mono s t). pose proof (fee_mono s t). lia. Qed.

Lemma cost_superadd s t : cost c price s + cost c price t ≤ cost c price (s + t).
Proof. unfold cost. pose proof (pay_superadd s t). pose proof (fee_superadd s t). lia. Qed.

Lemma pay_ticks k : pay price (k * TICK_SIZE) = k * price.
Proof. unfold pay. replace (k * TICK_SIZE * price) with (k * price * TICK_SIZE) by lia. by apply Z.div_mul. Qed.

Lemma pay_tick : pay price TICK_SIZE = price.
Proof. rewrite <- (Z.mul_1_l TICK_SIZE). rewrite pay_ticks. lia. Qed.

Lemma pay_zero : pay price 0 = 0.
Proof. done. Qed.
Lemma cost_zero : cost c price 0 = 0.
Proof. done. Qed.

(** [token_pay_and_fee] is exact whenever payment plus fee fit. *)
Lemma token_pay_and_fee_Ok tc t :
  0 ≤ t → cost c price t ≤ umax u128 →
  token_pay_and_fee tc t price c = Ok (pay price t, fee_of c price t).
Proof.
  intros Ht Hfit. unfold cost in Hfit. pose proof (pay_nonneg t Ht). pose proof (fee_nonneg t Ht).
  pose proof bps_range. destruct Hprice as [? Hp].
  unfold token_pay_and_fee, checked_mul_div_floor.
  rewrite mul_div_floor_opt_spec; [|lia|lia|done|].
  2:{ unfold TICK_SIZE, umax in *. lia. }
  fold (pay price t). rewrite (proj2 (Z.leb_le _ _)) by lia. cbn.
  rewrite mul_div_floor_opt_spec; [|lia|lia|done|].
  2:{ unfold umax in *. lia. }
  fold (fee_of c price t). rewrite (proj2 (Z.leb_le _ _)) by lia. done.
Qed.

Lemma token_pay_and_fee_inv tc t a b :
  0 ≤ t → token_pay_and_fee tc t price c = Ok (a, b) → a = pay price t ∧ b = fee_of c price t.
Proof.
  intros Ht. pose proof bps_range. destruct Hprice as [? Hp]. pose proof (pay_nonneg t Ht).
  unfold token_pay_and_fee, checked_mul_div_floor.
  rewrite mul_div_floor_opt_spec; [|lia|lia|done|]; [|unfold TICK_SIZE, umax in *; lia].
  fold (pay price t). destruct (_ <=? _); cbn; [|done].
  rewrite mul_div_floor_opt_spec; [|lia|lia|done|]; [|unfold umax in *; lia].
  fold (fee_of c price t). destruct (_ <=? _); cbn; [|done]. by intros [= <- <-].
Qed.

Lemma token_pay_and_fee_iff tc t :
  0 ≤ t → (∃ a b, token_pay_and_fee tc t price c = Ok (a, b) ∧ a + b ≤ umax u128) ↔ cost c price t ≤ umax u128.
Proof.
  intros Ht. split.
  - intros (a & b & H & Hab). apply token_pay_and_fee_inv in H as [-> ->]; done.
  - intros H. exists (pay price t), (fee_of c price t). by rewrite token_pay_and_fee_Ok.
Qed.
End Money.

(** ** The rebate *)

Lemma rebate_bounds c price delivered fee :
  consts_wf c → in_range u64 price → 0 ≤ delivered → 0 ≤ fee → 0 ≤ rebate_of c price delivered fee ≤ fee.
Proof.
  intros (_ & _ & _ & _ & _ & _ & Hm & Hs) [Hp _] Hd Hf. unfold rebate_of.
  destruct Hm as [Hm _], Hs as [Hs _]. pose proof (umax_pos u128).
  assert (0 ≤ delivered * price * Z.min (Z.min (rebate_slope_bps c * delivered) (umax u128)) (rebate_max_bps c) / 10000).
  { apply Z.div_pos; [|done]. assert (0 ≤ rebate_slope_bps c * delivered) by nia.
    apply Z.mul_nonneg_nonneg; [nia|lia]. }
  lia.
Qed.

(** A maximal rebate rate of at most 100%, as the canonical constants have. *)
Definition rebate_is_fraction (c : ProtocolConsts) : Prop := rebate_max_bps c ≤ 10000.

Lemma canonical_rebate : rebate_is_fraction ProtocolConsts_canonical.
Proof. by vm_compute. Qed.

Lemma rebate_computed tc c price delivered fee :
  consts_wf c → rebate_is_fraction c → in_range u64 price → 0 ≤ delivered → delivered * price ≤ umax u128 →
  (let? rebate := checked_mul_div_floor tc (delivered * price)
     (Z.min (saturating_mul u128 (rebate_slope_bps c) delivered) (rebate_max_bps c)) 10000 "seller rebate" in
   Ok (Z.min rebate fee)) = @Ok ChainError _ (rebate_of c price delivered fee).
Proof.
  intros (_ & _ & _ & _ & _ & _ & Hm & Hs) Hfr [Hp _] Hd Hfit. unfold rebate_is_fraction in Hfr.
  destruct Hm as [Hm _], Hs as [Hs _].
  unfold checked_mul_div_floor, saturating_mul. set (rate := Z.min _ (rebate_max_bps c)).
  assert (0 ≤ rate ≤ 10000) as Hr.
  { subst rate. assert (0 ≤ rebate_slope_bps c * delivered) by nia. pose proof (umax_pos u128). lia. }
  rewrite mul_div_floor_opt_spec; [|nia|lia|done|unfold umax; lia].
  assert (delivered * price * rate / 10000 ≤ delivered * price).
  { apply Z.div_le_upper_bound; [done|]. nia. }
  rewrite (proj2 (Z.leb_le _ _)) by lia. done.
Qed.

(** * The abstract deal

    What a deal of the mock chain is, independently of how mock.rs stores it: its terms,
    the phases it goes through, and the payout of every way it can end.  [probe_cell],
    [open_cell], [disputed_cell] and [closed_cell] give the concrete cell of each phase; the
    lemmas of this file say that each helper of MockMoney, run on the cell of a phase, gives
    the cell of the next one. *)

#[local] Arguments umax : simpl never.

(** ** Terms *)

Record Terms : Type := {
  tm_price : Z;
  tm_ticks : Z;
  tm_flags : Z;
  tm_buyer : NotePubkey;
}.
Section Terms.
Context (c : ProtocolConsts) (t : Terms).
Definition tm_sub : bool := has_flag (tm_flags t) flags.SUBSCRIPTION.
Definition tm_weeks : Z := if tm_sub then SUBSCRIPTION_WEEKS else 0.
Definition tm_funded : Z := tm_ticks t * TICK_SIZE.
Definition tm_per_week : Z := if tm_sub then tm_funded / SUBSCRIPTION_WEEKS else tm_funded.
Definition tm_bond : Z := if tm_sub then 2 * tm_price t else 0.
Definition tm_deposit : Z := cost c (tm_price t) tm_funded.
(** Everything the two parties put into the deal. *)
Definition tm_total : Z := tm_deposit + 2 * tm_price t + tm_bond.

Record terms_ok : Prop := {
  ok_price : 0 < tm_price t ≤ umax u64;
  ok_ticks : 2 ≤ tm_ticks t ≤ umax u64;
  ok_flags : Z.land (tm_flags t) flags.DEAL_MASK = tm_flags t;
  ok_weeks : tm_sub = true → (SUBSCRIPTION_WEEKS | tm_ticks t);
  ok_deposit : tm_deposit ≤ umax u128;
}.
(** What the liveness results add: the sum of all money fits the counters, and no deadline
    computed from a reachable time overflows. *)
Record funds_fit : Prop := {
  fit_total : tm_total ≤ umax u128;
  fit_rebate : rebate_is_fraction c;
  fit_promote : as_secs (claim_promote_window c) < 2 ^ 63;
  fit_probe : as_secs (probe_window c) < 2 ^ 63;
  fit_dispute : as_secs (dispute_window c) < 2 ^ 63;
}.
End Terms.

(** ** Phases *)

(** The shape getter of a deal with [wi] weeks charged and [tp] tokens paid. *)
Definition sub_of (t : Terms) (wi tp period base : Z) : DealSubscription :=
  mkSubscription (tm_flags t) (tm_weeks t) wi (tm_per_week t) (tm_funded t) tp period base.

Definition live_cell (t : Terms) (s : StreamState) (accepted : bool) (opened locked probe fee tf tq last received : Z)
    (disputed : bool) (dispute_time : Z) : StreamCell :=
  mkCell STREAM_CELL_SCHEMA_VERSION (mkMachine s (tm_price t) (2 * tm_price t)) accepted (tm_buyer t)
    (2 * tm_price t) locked probe opened (tm_bond t) fee tf tq last received 0 0 false (tm_ticks t)
    disputed dispute_time None.

Definition probe_cell (c : ProtocolConsts) (t : Terms) (opened : Z) : StreamCell :=
  live_cell t (Probe {| tick_index := 0; tick_price := tm_price t |}) false opened
    (tm_deposit c t - tm_price t) (tm_price t) 0 0 0 opened 0 false 0.

(** An accepted deal with [tp] tokens paid for, [tf] trusted and [tq] claimed. *)
Definition accepted_cell (c : ProtocolConsts) (t : Terms) (s : StreamState) (opened tp tf tq last : Z)
    (disputed : bool) (dispute_time : Z) : StreamCell :=
  live_cell t s true opened (tm_deposit c t - cost c (tm_price t) tp) 0 (fee_of c (tm_price t) tp)
    tf tq last (pay (tm_price t) tp) disputed dispute_time.
Definition ticks_of (tokens : Z) : Z := div_ceil tokens TICK_SIZE.
Definition open_cell (c : ProtocolConsts) (t : Terms) (opened tp tf tq last : Z) : StreamCell :=
  accepted_cell c t (Streaming (ticks_of tf) (ticks_of tq)) opened tp tf tq last false 0.
Definition disputed_probe_cell (c : ProtocolConsts) (t : Terms) (opened at_ : Z) : StreamCell :=
  live_cell t (Disputed 0 0) false opened (tm_deposit c t - tm_price t) (tm_price t) 0 0 0 opened 0 true at_.
Definition disputed_cell (c : ProtocolConsts) (t : Terms) (opened tp tf tq last at_ : Z) : StreamCell :=
  accepted_cell c t (Disputed (ticks_of tf) (ticks_of tq - ticks_of tf)) opened tp tf tq last true at_.

(** How a deal ended. *)
Record Payout : Type := mkPayout { to_seller : Z; to_buyer : Z; to_burn : Z }.
Definition closed_cell (t : Terms) (accepted : bool) (opened tf tq last dispute_time : Z) (p : Payout)
    (settlement : option (Z * Z)) : StreamCell :=
  mkCell STREAM_CELL_SCHEMA_VERSION (mkMachine Closed (tm_price t) (2 * tm_price t)) accepted (tm_buyer t)
    0 0 0 opened 0 0 tf tq last (to_seller p) (to_buyer p) (to_burn p) true (tm_ticks t) false dispute_time settlement.

(** ** Payouts *)

Definition payout_total (p : Payout) : Z := to_seller p + to_buyer p + to_burn p.

(** The buyer walks away from the probe: probe and one tick of the seller's bond burn. *)
Definition probe_stop_payout (c : ProtocolConsts) (t : Terms) : Payout :=
  mkPayout (tm_price t) (tm_deposit c t - tm_price t + tm_bond t) (2 * tm_price t).
(** The seller walks away from the probe: one tick of its bond burns. *)
Definition probe_abandon_payout (c : ProtocolConsts) (t : Terms) : Payout :=
  mkPayout (tm_price t) (tm_deposit c t + tm_bond t) (tm_price t).
(** A clean close with [tp] tokens paid for and [tf] trusted. *)
Definition clean_payout (c : ProtocolConsts) (t : Terms) (tp tf : Z) : Payout :=
  let fee := fee_of c (tm_price t) tp in
  let rebate := rebate_of c (tm_price t) (tf / TICK_SIZE) fee in
  mkPayout (pay (tm_price t) tp + rebate + 2 * tm_price t)
    (tm_deposit c t - cost c (tm_price t) tp + tm_bond t) (fee - rebate).

(** ** What an accepted deal keeps *)

Record accepted_ok (t : Terms) (wi tp tf tq base : Z) : Prop := {
  acc_claims : TICK_SIZE ≤ tf ≤ tq;
  acc_lead : tq - tf ≤ MAX_CLAIM_DELTA;
  acc_funded : tq ≤ tm_funded t;
  acc_weeks : wi = 0 ∧ tp = TICK_SIZE ∧ base = 0
    ∨ tm_sub t = true ∧ 1 ≤ wi ≤ SUBSCRIPTION_WEEKS ∧ tp = wi * tm_per_week t ∧ 0 ≤ base ≤ tp ∧ base ≤ tq;
  acc_cap : tm_sub t = true → if wi <? SUBSCRIPTION_WEEKS then tq ≤ base + tm_per_week t else tq = base;
}.

Section Facts.
Context (c : ProtocolConsts) (t : Terms) (Hc : consts_wf c) (Ht : terms_ok c t).

Lemma price_u64 : in_range u64 (tm_price t).
Proof. destruct (ok_price _ _ Ht). split; lia. Qed.

Lemma funded_bounds : 2 * TICK_SIZE ≤ tm_funded t ≤ umax u64 * TICK_SIZE.
Proof. destruct (ok_ticks _ _ Ht). unfold tm_funded, TICK_SIZE. lia. Qed.

Lemma per_week_bounds :
  TICK_SIZE ≤ tm_per_week t ≤ tm_funded t ∧ (tm_sub t = true → SUBSCRIPTION_WEEKS * tm_per_week t = tm_funded t).
Proof.
  pose proof funded_bounds. unfold tm_per_week. destruct (tm_sub t) eqn:Hs.
  - destruct (ok_weeks _ _ Ht Hs) as [q Hq]. destruct (ok_ticks _ _ Ht). unfold tm_funded in *.
    rewrite Hq in *. unfold SUBSCRIPTION_WEEKS, TICK_SIZE in *.
    replace (q * 4 * 1000000) with (q * 1000000 * 4) by lia. rewrite Z.div_mul by lia. lia.
  - unfold TICK_SIZE in *. split; [lia|done].
Qed.

Lemma funded_pay : pay (tm_price t) (tm_funded t) = tm_ticks t * tm_price t.
Proof. apply pay_ticks. Qed.

Lemma accepted_paid wi tp tf tq base :
  accepted_ok t wi tp tf tq base → TICK_SIZE ≤ tp ≤ tm_funded t ∧ 0 ≤ base ≤ tp ∧ base ≤ tq ∧ 0 ≤ wi ≤ tm_weeks t.
Proof.
  intros [Hcl _ Hf Hw _]. pose proof funded_bounds. pose proof per_week_bounds as [Hp1 Hp2].
  unfold tm_weeks, SUBSCRIPTION_WEEKS, TICK_SIZE in *.
  destruct Hw as [(-> & -> & ->)|(Hs & Hwi & -> & Hb & Hbq)].
  - destruct (tm_sub t); lia.
  - rewrite Hs. specialize (Hp2 Hs). nia.
Qed.

(** A volume within the funding costs at most the deposit. *)
Lemma cost_deposit n : n ≤ tm_funded t → cost c (tm_price t) n ≤ tm_deposit c t.
Proof. intros. apply cost_mono; auto using price_u64. Qed.

Lemma cost_fits n : n ≤ tm_funded t → cost c (tm_price t) n ≤ umax u128.
Proof. intros. etransitivity; [by apply cost_deposit|]. apply Ht. Qed.
End Facts.

(** ** The helpers of MockMoney on the cell of a phase *)

(** Computes the field reads and updates of the cells and subscriptions in sight. *)
Ltac cells :=
  cbv beta iota zeta delta [
    set_sc_schema_version set_sc_machine set_sc_probe_accepted set_sc_buyer_pubkey
    set_sc_seller_locked set_sc_buyer_locked set_sc_probe_locked set_sc_probe_time
    set_sc_buyer_bond set_sc_fee_accrued set_sc_tokens_final set_sc_tokens_pending
    set_sc_last_claim_time set_sc_seller_received set_sc_buyer_refunded set_sc_burned
    set_sc_closed set_sc_max_ticks set_sc_disputed set_sc_dispute_time
    set_sc_buyer_stop_settlement zero_locks with_state sc_schema_version sc_machine
    sc_probe_accepted sc_buyer_pubkey sc_seller_locked sc_buyer_locked sc_probe_locked
    sc_probe_time sc_buyer_bond sc_fee_accrued sc_tokens_final sc_tokens_pending
    sc_last_claim_time sc_seller_received sc_buyer_refunded sc_burned sc_closed sc_max_ticks
    sc_disputed sc_dispute_time sc_buyer_stop_settlement sm_state sm_price sm_seller_bond
    live_cell accepted_cell probe_cell open_cell disputed_cell disputed_probe_cell closed_cell
    sub_of set_tokens_paid set_week_index set_week_base_tokens set_period_start deal_flags
    sub_weeks week_index tokens_per_week funded_tokens tokens_paid period_start week_base_tokens].
Ltac cells_in H :=
  cbv beta iota zeta delta [
    set_sc_schema_version set_sc_machine set_sc_probe_accepted set_sc_buyer_pubkey
    set_sc_seller_locked set_sc_buyer_locked set_sc_probe_locked set_sc_probe_time
    set_sc_buyer_bond set_sc_fee_accrued set_sc_tokens_final set_sc_tokens_pending
    set_sc_last_claim_time set_sc_seller_received set_sc_buyer_refunded set_sc_burned
    set_sc_closed set_sc_max_ticks set_sc_disputed set_sc_dispute_time
    set_sc_buyer_stop_settlement zero_locks with_state sc_schema_version sc_machine
    sc_probe_accepted sc_buyer_pubkey sc_seller_locked sc_buyer_locked sc_probe_locked
    sc_probe_time sc_buyer_bond sc_fee_accrued sc_tokens_final sc_tokens_pending
    sc_last_claim_time sc_seller_received sc_buyer_refunded sc_burned sc_closed sc_max_ticks
    sc_disputed sc_dispute_time sc_buyer_stop_settlement sm_state sm_price sm_seller_bond
    live_cell accepted_cell probe_cell open_cell disputed_cell disputed_probe_cell closed_cell
    sub_of set_tokens_paid set_week_index set_week_base_tokens set_period_start deal_flags
    sub_weeks week_index tokens_per_week funded_tokens tokens_paid period_start week_base_tokens] in H.

(** Rewrites a checked operation whose result fits. *)
Ltac fits :=
  repeat first
    [ rewrite checked_add_fits by lia
    | rewrite checked_sub_fits by lia
    | rewrite checked_mul_fits by lia
    | rewrite try_into_fits by lia
    | rewrite usub_exact by lia
    | rewrite (proj2 (Z.ltb_ge _ _)) by lia
    | rewrite (proj2 (Z.leb_le _ _)) by lia
    | rewrite (proj2 (Z.ltb_lt _ _)) by lia
    | rewrite Z.gtb_ltb | rewrite Z.geb_leb ];
  cbn [ok_or rbind obind option_map].

Section Money.
Context (c : ProtocolConsts) (t : Terms) (tc : string) (Hc : consts_wf c) (Ht : terms_ok c t).
#[local] Abbreviation P := (tm_price t).
#[local] Abbreviation D := (tm_deposit c t).

Lemma deposit_nonneg : 0 ≤ D.
Proof.
  apply cost_nonneg; [done|by apply price_u64 with c|].
  pose proof (funded_bounds c t Ht). unfold TICK_SIZE in *. lia.
Qed.

Lemma tpf_funded n : 0 ≤ n ≤ tm_funded t →
  token_pay_and_fee tc n P c = Ok (pay P n, fee_of c P n).
Proof. intros. apply token_pay_and_fee_Ok; [done|by apply price_u64 with c|lia|]. apply cost_fits; [done..|lia]. Qed.

Lemma credit_through s opened tp tf tq last d dt wi period base target :
  0 ≤ tp ≤ target → target ≤ tm_funded t →
  credit_tokens_through tc (accepted_cell c t s opened tp tf tq last d dt) (sub_of t wi tp period base) target c
  = Ok (accepted_cell c t s opened target tf tq last d dt, sub_of t wi target period base).
Proof.
  intros Htp Htg. pose proof (price_u64 c t Ht) as Hp. unfold credit_tokens_through. cells. fits. rewrite !tpf_funded by lia. cbn [rbind].
  pose proof (pay_mono P Hp tp target ltac:(lia)). pose proof (fee_mono c P Hc Hp tp target ltac:(lia)).
  pose proof (pay_nonneg P Hp tp ltac:(lia)). pose proof (fee_nonneg c P Hc Hp tp ltac:(lia)).
  pose proof (cost_deposit c t Hc Ht target ltac:(lia)). pose proof (ok_deposit c t Ht).
  assert (cost c P tp = pay P tp + fee_of c P tp) by done.
  assert (cost c P target = pay P target + fee_of c P target) by done.
  fits. unfold debit_escrow. cells. fits. cells. fits. cells. do 3 f_equal; lia.
Qed.

(** Weeks. *)
Lemma accepted_charge wi tp tf tq base target :
  accepted_ok t wi tp tf tq base → tm_sub t = true → wi < target ≤ SUBSCRIPTION_WEEKS →
  tp ≤ target * tm_per_week t ≤ tm_funded t ∧ accepted_ok t target (target * tm_per_week t) tf tq tq.
Proof.
  intros Hacc Hs Htg. pose proof (accepted_paid c t Ht _ _ _ _ _ Hacc).
  pose proof (per_week_bounds c t Ht) as [Hp1 Hp2]. specialize (Hp2 Hs).
  destruct Hacc as [Hcl Hlead Hf Hw Hcap]. specialize (Hcap Hs).
  unfold tm_weeks, SUBSCRIPTION_WEEKS, TICK_SIZE in *. rewrite Hs in *.
  assert (0 ≤ wi) by lia. destruct (Z.ltb_spec wi 4); [|lia].
  split; [destruct Hw as [(-> & -> & ->)|(_ & Hwi & -> & Hb & Hbq)]; nia|].
  split; unfold SUBSCRIPTION_WEEKS, TICK_SIZE in *; [lia|lia|lia| |].
  - right. split_and!; try done; try lia.
    destruct Hw as [(-> & -> & ->)|(_ & Hwi & -> & Hb & Hbq)]; nia.
  - intros _. destruct (Z.ltb_spec target 4); lia.
Qed.

Lemma charge_through s opened wi tp tf tq base last d dt period target :
  accepted_ok t wi tp tf tq base → tm_sub t = true → 0 ≤ target ≤ SUBSCRIPTION_WEEKS →
  charge_subscription_through tc (accepted_cell c t s opened tp tf tq last d dt) (sub_of t wi tp period base) target c
  = Ok (if target <=? wi
        then (accepted_cell c t s opened tp tf tq last d dt, sub_of t wi tp period base, false)
        else (accepted_cell c t s opened (target * tm_per_week t) tf tq last d dt,
              sub_of t target (target * tm_per_week t) period tq, true)).
Proof.
  intros Hacc Hs Htg. pose proof (accepted_paid c t Ht _ _ _ _ _ Hacc).
  unfold charge_subscription_through. cbn [week_index sub_of tokens_per_week].
  destruct (Z.leb_spec target wi); [done|].
  destruct (accepted_charge _ _ _ _ _ target Hacc Hs) as [Hb _]; [lia|].
  pose proof (funded_bounds c t Ht). assert (target * tm_per_week t ≤ umax u128) by (unfold umax, TICK_SIZE in *; lia).
  fits. rewrite credit_through by (unfold TICK_SIZE in *; lia). done.
Qed.

(** The number of weeks begun ([incl]) or completed at [now]. *)
Definition weeks_at (period now : Z) (incl : bool) : Z :=
  let elapsed := Z.min ((now - period) / as_secs SUB_WEEK_LEN) (tm_weeks t) in
  if incl && (elapsed <? tm_weeks t) then elapsed + 1 else elapsed.

Lemma weeks_at_bounds period now incl : period ≤ now → 0 ≤ weeks_at period now incl ≤ tm_weeks t.
Proof.
  intros H. unfold weeks_at. assert (0 ≤ (now - period) / as_secs SUB_WEEK_LEN) by (apply Z.div_pos; [lia|done]).
  assert (0 ≤ tm_weeks t) by (unfold tm_weeks; by destruct (tm_sub t)).
  set (elapsed := (now - period) / as_secs SUB_WEEK_LEN) in *. destruct incl; cbn; [|lia].
  destruct (Z.ltb_spec (Z.min elapsed (tm_weeks t)) (tm_weeks t)); lia.
Qed.

Lemma subscription_weeks wi tp period base now incl :
  period ≤ now →
  subscription_weeks_at tc (sub_of t wi tp period base) now incl = Ok (weeks_at period now incl).
Proof.
  intros H. pose proof (weeks_at_bounds period now incl H) as Hw.
  pose proof (weeks_at_bounds period now false H) as He. unfold weeks_at in *. cbn [andb] in He.
  assert (tm_weeks t ≤ 4) by (unfold tm_weeks, SUBSCRIPTION_WEEKS; destruct (tm_sub t); lia).
  unfold subscription_weeks_at. cbn [period_start sub_of sub_weeks]. fits.
  set (elapsed := Z.min _ (tm_weeks t)) in *.
  revert Hw. destruct (incl && (elapsed <? tm_weeks t)); intros Hw.
  - rewrite uadd_exact by (unfold umax; lia).
    by rewrite try_into_fits by (unfold umax; lia).
  - by rewrite try_into_fits by (unfold umax; lia).
Qed.

(** Ticks and promotion. *)
Lemma delivered_open s opened tp tf tq last d dt :
  TICK_SIZE ≤ tf ≤ tm_funded t →
  delivered_ticks tc (accepted_cell c t s opened tp tf tq last d dt) = Ok (tf / TICK_SIZE).
Proof.
  intros Hf. pose proof (funded_bounds c t Ht).
  assert (1 ≤ tf / TICK_SIZE ≤ umax u64).
  { split; [apply Z.div_le_lower_bound|apply Z.div_le_upper_bound]; unfold TICK_SIZE in *; lia. }
  unfold delivered_ticks, mock_finalized_ticks. cells. fits. f_equal. lia.
Qed.

(** The trusted total at [now] of a claim of [tq] that landed at [last]. *)
Definition promoted (tf tq last now : Z) : Z :=
  if now >=? last + as_secs (claim_promote_window c) then tq else tf.

Lemma deadline_reached last window now :
  0 ≤ last ≤ now → now < 2 ^ 63 → as_secs window < 2 ^ 63 →
  claim_deadline_reached tc last window now = Ok (now >=? last + as_secs window).
Proof.
  intros Hl Hn Hw. unfold claim_deadline_reached.
  by rewrite checked_add_fits by (unfold umax; lia).
Qed.

Lemma promote_due_open s opened tp tf tq last d dt now :
  tf ≤ tq → 0 ≤ last ≤ now → now < 2 ^ 63 → as_secs (claim_promote_window c) < 2 ^ 63 →
  promote_due tc (accepted_cell c t s opened tp tf tq last d dt) now c
  = Ok (accepted_cell c t s opened tp (promoted tf tq last now) tq last d dt).
Proof.
  intros Hq Hl Hn Hw. unfold promote_due. cbn [sc_last_claim_time accepted_cell live_cell].
  rewrite deadline_reached by done. cbn. unfold promoted.
  destruct (now >=? last + as_secs (claim_promote_window c)); [|done].
  unfold promote_once. cells. destruct (tq >? tf) eqn:He; [done|].
  rewrite Z.gtb_ltb, Z.ltb_ge in He. do 2 f_equal. lia.
Qed.

Lemma promoted_ok wi tp tf tq base last now :
  accepted_ok t wi tp tf tq base → accepted_ok t wi tp (promoted tf tq last now) tq base.
Proof.
  intros [Hcl Hlead Hf Hw Hcap]. unfold promoted. split; try done; unfold MAX_CLAIM_DELTA in *; destruct (now >=? _); lia.
Qed.

(** ** The weekly books *)

Lemma is_subscription_sub_of wi tp period base : is_subscription (sub_of t wi tp period base) = tm_sub t.
Proof. unfold is_subscription, sub_of, tm_weeks. cbn. by destruct (tm_sub t). Qed.

(** The weeks charged, the tokens paid for and the base of the current week. *)
Record Books : Type := mkBooks { bk_week : Z; bk_paid : Z; bk_base : Z }.
Definition charge (target tq : Z) (b : Books) : Books :=
  if target <=? bk_week b then b else mkBooks target (target * tm_per_week t) tq.
Definition books_at (period now : Z) (incl : bool) (tq : Z) (b : Books) : Books :=
  if tm_sub t then charge (weeks_at period now incl) tq b else b.
Definition books_ok (tf tq : Z) (b : Books) : Prop := accepted_ok t (bk_week b) (bk_paid b) tf tq (bk_base b).
Definition sub_at (period : Z) (b : Books) : DealSubscription :=
  sub_of t (bk_week b) (bk_paid b) period (bk_base b).
Definition at_books (s : StreamState) (opened tf tq last : Z) (d : bool) (dt : Z) (b : Books) : StreamCell :=
  accepted_cell c t s opened (bk_paid b) tf tq last d dt.

Lemma weeks_at_sub period now incl : tm_sub t = true → period ≤ now →
  0 ≤ weeks_at period now incl ≤ SUBSCRIPTION_WEEKS.
Proof.
  intros Hs Hn. pose proof (weeks_at_bounds period now incl Hn) as H.
  unfold tm_weeks in H. by rewrite Hs in H.
Qed.

Lemma books_at_ok period now incl tf tq b :
  books_ok tf tq b → period ≤ now → books_ok tf tq (books_at period now incl tq b).
Proof.
  intros Hb Hn. unfold books_at, charge. destruct (tm_sub t) eqn:Hs; [|done].
  destruct (Z.leb_spec (weeks_at period now incl) (bk_week b)); [done|].
  apply (accepted_charge _ _ _ _ _ (weeks_at period now incl) Hb Hs).
  pose proof (weeks_at_sub period now incl Hs Hn). lia.
Qed.

(** A charge never lowers what was paid. *)
Lemma books_at_paid period now incl tf tq b :
  books_ok tf tq b → period ≤ now →
  bk_paid b ≤ bk_paid (books_at period now incl tq b) ∧ bk_week b ≤ bk_week (books_at period now incl tq b).
Proof.
  intros Hb Hn. unfold books_at, charge. destruct (tm_sub t) eqn:Hs; [|lia].
  destruct (Z.leb_spec (weeks_at period now incl) (bk_week b)); [lia|]. cbn.
  pose proof (weeks_at_sub period now incl Hs Hn).
  destruct (accepted_charge _ _ _ _ _ (weeks_at period now incl) Hb Hs); lia.
Qed.

Lemma charge_books s opened tf tq last d dt period now incl b :
  books_ok tf tq b → tm_sub t = true → period ≤ now →
  charge_subscription_through tc (at_books s opened tf tq last d dt b) (sub_at period b)
    (weeks_at period now incl) c
  = Ok (at_books s opened tf tq last d dt (books_at period now incl tq b),
        sub_at period (books_at period now incl tq b), negb (weeks_at period now incl <=? bk_week b)).
Proof.
  intros Hb Hs Hn. unfold at_books, sub_at. rewrite (charge_through _ _ _ _ _ _ _ _ _ _ _ _ Hb Hs).
  2:{ by apply weeks_at_sub. }
  unfold books_at, charge. rewrite Hs. destruct (weeks_at period now incl <=? bk_week b); done.
Qed.

(** The charge both stops and the resolution of a dispute make. *)
Lemma charge_weeks s opened tf tq last d dt period now incl b :
  books_ok tf tq b → period ≤ now →
  (if is_subscription (sub_at period b) then
     let? w := subscription_weeks_at tc (sub_at period b) now incl in
     let? '(cell, subscription, _charged) :=
       charge_subscription_through tc (at_books s opened tf tq last d dt b) (sub_at period b) w c in
     Ok (cell, subscription)
   else Ok (at_books s opened tf tq last d dt b, sub_at period b))
  = Ok (at_books s opened tf tq last d dt (books_at period now incl tq b),
        sub_at period (books_at period now incl tq b)).
Proof.
  intros Hb Hn. unfold sub_at at 1. rewrite is_subscription_sub_of. destruct (tm_sub t) eqn:Hs.
  - unfold sub_at at 1. rewrite subscription_weeks by done. cbn [rbind].
    by rewrite charge_books by done.
  - unfold books_at. by rewrite Hs.
Qed.

(** The charge a claim and [settle_week] make. *)
Lemma charge_elapsed s opened tf tq last period now b :
  books_ok tf tq b → tm_sub t = true → period ≤ now →
  charge_elapsed_subscription_weeks tc (at_books s opened tf tq last false 0 b) (sub_at period b) now c
  = Ok (at_books s opened tf tq last false 0 (books_at period now false tq b),
        sub_at period (books_at period now false tq b), negb (weeks_at period now false <=? bk_week b)).
Proof.
  intros Hb Hs Hn. unfold charge_elapsed_subscription_weeks.
  unfold sub_at at 1. rewrite is_subscription_sub_of, Hs. cbn [negb].
  unfold sub_at at 1. rewrite subscription_weeks by done. cbn [rbind orb negb sc_probe_accepted sc_closed sc_disputed at_books accepted_cell live_cell].
  by apply charge_books.
Qed.
End Money.
