(* ===== verification/DealExits.v ===== *)
(** * How a deal ends

    For every way a deal of the mock chain can end, the handler's concrete run on the cell
    of a phase is shown to succeed and to give the closed cell of the abstract payout: the
    stops of both parties before and after the probe, the close of a finished deal and the
    two resolutions of a dispute. *)
From S2P Require Import Prelude RustText Params DealTypes Machine MockData MockMoney.
From S2P Require Import MockBook MockDeal DealSpec.

#[local] Arguments umax : simpl never.

Section Exits.
Context (c : ProtocolConsts) (t : Terms) (tc : string).
Context (Hc : consts_wf c) (Ht : terms_ok c t) (Hfit : funds_fit c t).
#[local] Abbreviation P := (tm_price t).
#[local] Abbreviation D := (tm_deposit c t).

Lemma bond_nonneg : 0 ≤ tm_bond t ≤ 2 * P.
Proof. destruct (ok_price _ _ Ht). unfold tm_bond. destruct (tm_sub t); lia. Qed.

Lemma total_fits : D + 2 * P + tm_bond t ≤ umax u128.
Proof. apply Hfit. Qed.

(** The facts about the money of an accepted deal every exit needs. *)
Lemma paid_facts n : 0 ≤ n ≤ tm_funded t →
  0 ≤ pay P n ∧ 0 ≤ fee_of c P n ∧ cost c P n = pay P n + fee_of c P n ∧ cost c P n ≤ D.
Proof.
  intros Hn. pose proof (price_u64 c t Ht) as Hp. split_and!.
  - apply pay_nonneg; [done|lia].
  - apply fee_nonneg; [done..|lia].
  - done.
  - apply cost_deposit; [done..|lia].
Qed.

(** A volume of whole ticks within the funding is worth at most the deposit. *)
Lemma ticks_value n : 0 ≤ n ≤ tm_funded t → 0 ≤ n / TICK_SIZE ∧ n / TICK_SIZE * P ≤ D.
Proof.
  intros Hn. assert (0 ≤ n / TICK_SIZE ≤ tm_ticks t).
  { unfold tm_funded in Hn. split; [apply Z.div_pos|apply Z.div_le_upper_bound]; unfold TICK_SIZE in *; lia. }
  destruct (paid_facts (tm_funded t)) as (_ & ? & ? & ?); [lia|]. rewrite funded_pay in *.
  destruct (ok_price _ _ Ht). nia.
Qed.

Lemma close_clean s opened tp tf tq last :
  0 ≤ tp ≤ tm_funded t → 0 ≤ tf ≤ tm_funded t →
  close_mock_clean tc (accepted_cell c t s opened tp tf tq last false 0) (tf / TICK_SIZE) c
  = Ok (closed_cell t true opened tf tq last 0 (clean_payout c t tp tf) None, to_buyer (clean_payout c t tp tf)).
Proof.
  intros Htp Htf. destruct (paid_facts tp Htp) as (? & ? & Hcost & ?). destruct (ticks_value tf Htf).
  pose proof total_fits. pose proof bond_nonneg. pose proof (deposit_nonneg c t Hc Ht).
  pose proof (rebate_bounds c P (tf / TICK_SIZE) (fee_of c P tp) Hc (price_u64 c t Ht)) as Hr.
  unfold close_mock_clean, settle_mock_fees. cells. fits.
  rewrite rebate_computed; [|done|apply Hfit|exact (price_u64 c t Ht)|lia|lia].
  cbn [rbind]. fits. cells. fits. cells. fits. cells. fits. cells.
  unfold clean_payout, machine_close, with_state. cbv zeta. cbn [to_seller to_buyer to_burn sm_price sm_seller_bond].
  do 2 f_equal; [|lia]. f_equal; lia.
Qed.

(** The credit of trusted tokens not yet paid, as both stops and the term's end do it. *)
Lemma credit_trusted s opened wi tp tf tq base last d dt period :
  accepted_ok t wi tp tf tq base →
  (if tf >? tp
   then credit_tokens_through tc (accepted_cell c t s opened tp tf tq last d dt) (sub_of t wi tp period base) tf c
   else Ok (accepted_cell c t s opened tp tf tq last d dt, sub_of t wi tp period base))
  = Ok (accepted_cell c t s opened (Z.max tp tf) tf tq last d dt, sub_of t wi (Z.max tp tf) period base).
Proof.
  intros Hacc. pose proof (accepted_paid c t Ht _ _ _ _ _ Hacc). destruct Hacc as [Hcl _ Hf _ _].
  unfold TICK_SIZE in *. destruct (Z.gtb_spec tf tp).
  - rewrite credit_through by (auto; lia). by rewrite Z.max_r by lia.
  - by rewrite Z.max_l by lia.
Qed.

Lemma finalized_fits n : 0 ≤ n ≤ tm_funded t → mock_finalized_ticks tc n = Ok (n / TICK_SIZE).
Proof.
  intros Hn. unfold mock_finalized_ticks. rewrite try_into_fits; [done|].
  pose proof (funded_bounds c t Ht). apply Z.div_le_upper_bound; unfold TICK_SIZE in *; lia.
Qed.

(** ** Stops of an accepted deal *)

Definition pay_trusted (tf : Z) (b : Books) : Books := mkBooks (bk_week b) (Z.max (bk_paid b) tf) (bk_base b).
(** The buyer pays every started week and the trusted tokens; the seller's own stop leaves
    the unfinished week of a subscription unpaid. *)
Definition stop_books (period now tf tq : Z) (b : Books) : Books :=
  pay_trusted tf (books_at t period now true tq b).
Definition seller_stop_books (period now tf tq : Z) (b : Books) : Books :=
  let b := books_at t period now false tq b in if tm_sub t then b else pay_trusted tf b.

Lemma books_paid tf tq b : books_ok t tf tq b → 0 ≤ bk_paid b ≤ tm_funded t ∧ TICK_SIZE ≤ tf ≤ tm_funded t ∧ (tf ≤ tq ≤ tm_funded t ∧ tq - tf ≤ MAX_CLAIM_DELTA).
Proof.
  intros Hb. pose proof (accepted_paid c t Ht _ _ _ _ _ Hb). destruct Hb as [Hcl Hlead Hf _ _].
  unfold TICK_SIZE in *. lia.
Qed.

Lemma pay_trusted_paid tf tq b : books_ok t tf tq b → 0 ≤ bk_paid (pay_trusted tf b) ≤ tm_funded t.
Proof. intros Hb. pose proof (books_paid _ _ _ Hb). cbn. lia. Qed.

Lemma trusted_nonneg tf tq b : books_ok t tf tq b → 0 ≤ tf ≤ tm_funded t.
Proof. intros Hb. pose proof (books_paid _ _ _ Hb). unfold TICK_SIZE in *. lia. Qed.

(** The end of both stops: the machine stops, the deal closes cleanly. *)
Lemma close_stopped opened tf tq last b :
  0 ≤ bk_paid b ≤ tm_funded t → 0 ≤ tf ≤ tm_funded t →
  close_mock_clean tc (set_sc_machine (mkMachine Stopping P (2 * P))
    (at_books c t (Streaming (ticks_of tf) (ticks_of tq)) opened tf tq last false 0 b)) (tf / TICK_SIZE) c
  = Ok (closed_cell t true opened tf tq last 0 (clean_payout c t (bk_paid b) tf) None,
        to_buyer (clean_payout c t (bk_paid b) tf)).
Proof. intros Hp Hf. exact (close_clean Stopping opened (bk_paid b) tf tq last Hp Hf). Qed.

Lemma stop_accepted_spec now now' s opened tf tq last period b :
  books_ok t tf tq b → 0 ≤ last ≤ now → period ≤ now' → now < 2 ^ 63 →
  (∃ trusted pending, s = Streaming trusted pending) →
  let tf' := promoted c tf tq last now in
  let b' := stop_books period now' tf' tq b in
  let p := clean_payout c t (bk_paid b') tf' in
  stop_accepted c now now' tc (at_books c t s opened tf tq last false 0 b) (sub_at t period b)
  = Ok (Some (closed_cell t true opened tf' tq last 0 p (Some (to_seller p, to_buyer p)),
              sub_at t period b', AmicableSplit (bk_paid b' / TICK_SIZE) (to_buyer p))).
Proof.
  intros Hb Hlast Hper Hnow (trusted & pending & ->). cbv zeta.
  pose proof (promoted_ok c t _ _ tf tq _ last now Hb) as Hb1. fold (books_ok t (promoted c tf tq last now) tq b) in Hb1.
  set (tf' := promoted c tf tq last now) in *.
  pose proof (books_at_ok c t Ht period now' true tf' tq b Hb1 Hper) as Hb2.
  pose proof (pay_trusted_paid _ _ _ Hb2) as Hpaid. pose proof (books_paid _ _ _ Hb2) as (_ & Htf & Htq).
  unfold stop_accepted.
  eapply bind_step; [apply promote_due_open; [apply Hb|done|done|apply Hfit]|].
  eapply bind_step; [apply (charge_weeks c t tc Hc Ht); [exact Hb1|done]|]. cbn iota.
  eapply bind_step; [exact (credit_trusted _ _ _ _ _ _ _ _ _ _ _ Hb2)|]. cbn iota.
  eapply bind_step; [by apply (delivered_open c t tc Ht)|].
  cbn [machine_buyer_stop sc_machine accepted_cell live_cell sm_state rbind].
  eapply bind_step; [by apply (close_stopped opened tf' tq last _ Hpaid), trusted_nonneg with tq (books_at t period now' true tq b)|].
  eapply bind_step; [by apply finalized_fits|]. done.
Qed.

Lemma seller_credit opened tf tq last period s b :
  books_ok t tf tq b →
  (if negb (is_subscription (sub_at t period b)) && (tf >? bk_paid b)
   then credit_tokens_through tc (at_books c t s opened tf tq last false 0 b) (sub_at t period b) tf c
   else Ok (at_books c t s opened tf tq last false 0 b, sub_at t period b))
  = let b := if tm_sub t then b else pay_trusted tf b in
    Ok (at_books c t s opened tf tq last false 0 b, sub_at t period b).
Proof.
  intros Hb. unfold sub_at at 1. rewrite is_subscription_sub_of. destruct (tm_sub t); [done|].
  exact (credit_trusted _ _ _ _ _ _ _ _ _ _ _ Hb).
Qed.

Lemma seller_stop_accepted_spec now now' s opened tf tq last period b :
  books_ok t tf tq b → 0 ≤ last ≤ now → period ≤ now' → now < 2 ^ 63 →
  (∃ trusted pending, s = Streaming trusted pending) →
  let tf' := promoted c tf tq last now in
  let b' := seller_stop_books period now' tf' tq b in
  let p := clean_payout c t (bk_paid b') tf' in
  seller_stop_accepted c now now' tc (at_books c t s opened tf tq last false 0 b) (sub_at t period b)
  = Ok (Some (closed_cell t true opened tf' tq last 0 p None,
              sub_at t period b', AmicableSplit (bk_paid b' / TICK_SIZE) (to_buyer p))).
Proof.
  intros Hb Hlast Hper Hnow (trusted & pending & ->). cbv zeta.
  pose proof (promoted_ok c t _ _ tf tq _ last now Hb) as Hb1. fold (books_ok t (promoted c tf tq last now) tq b) in Hb1.
  set (tf' := promoted c tf tq last now) in *.
  pose proof (books_at_ok c t Ht period now' false tf' tq b Hb1 Hper) as Hb2.
  pose proof (books_paid _ _ _ Hb2) as (Hpaid0 & Htf & Htq).
  assert (0 ≤ bk_paid (seller_stop_books period now' tf' tq b) ≤ tm_funded t) as Hpaid.
  { unfold seller_stop_books. destruct (tm_sub t); [done|]. exact (pay_trusted_paid _ _ _ Hb2). }
  unfold seller_stop_accepted.
  eapply bind_step; [apply promote_due_open; [apply Hb|done|done|apply Hfit]|].
  eapply bind_step; [apply (charge_weeks c t tc Hc Ht); [exact Hb1|done]|]. cbn iota.
  eapply bind_step; [exact (seller_credit _ _ _ _ _ _ _ Hb2)|]. cbn iota.
  eapply bind_step; [by apply (delivered_open c t tc Ht)|].
  cbn [machine_seller_stop sc_machine at_books accepted_cell live_cell sm_state rbind].
  eapply bind_step; [by apply (close_stopped opened tf' tq last _ Hpaid), trusted_nonneg with tq (books_at t period now' false tq b)|].
  eapply bind_step; [by apply finalized_fits|]. done.
Qed.

(** ** Stops of an unaccepted probe *)

Lemma probe_money : 0 ≤ D - P ∧ D ≤ umax u128 ∧ 0 < P ∧ 0 ≤ tm_bond t ≤ 2 * P ∧ D + 2 * P + tm_bond t ≤ umax u128.
Proof.
  pose proof total_fits. pose proof bond_nonneg. destruct (ok_price _ _ Ht). pose proof (ok_deposit _ _ Ht).
  pose proof (funded_bounds c t Ht). destruct (paid_facts (tm_funded t)) as (_ & ? & ? & ?); [unfold TICK_SIZE in *; lia|].
  rewrite funded_pay in *. destruct (ok_ticks _ _ Ht). nia.
Qed.

Definition probe_burn_receipt : ContestedBurn :=
  let burn := probe_burn P (bond_as_shell (mkMachine (Probe {| tick_index := 0; tick_price := P |}) P (2 * P))) in {|
    burn_buyer := burn_buyer burn; burn_seller := burn_seller burn;
    burn_buyer_refund := D - P + tm_bond t; burn_seller_refund := burn_seller_refund burn |}.

Lemma stop_probe_spec opened burn :
  stop_probe tc (probe_cell c t opened) burn (mkMachine Stopping P (2 * P))
  = Ok (closed_cell t false opened 0 0 opened 0 (probe_stop_payout c t) None,
        BurnBoth {| burn_buyer := burn_buyer burn; burn_seller := burn_seller burn;
                    burn_buyer_refund := D - P + tm_bond t; burn_seller_refund := burn_seller_refund burn |}).
Proof.
  pose proof probe_money. unfold stop_probe. cells. fits. rewrite Z.min_l by lia. fits. cells. fits. cells. fits. cells.
  unfold probe_stop_payout, machine_close, with_state. cbn [to_seller to_buyer to_burn sm_price sm_seller_bond].
  do 2 f_equal. f_equal; lia.
Qed.

Lemma seller_stop_probe_spec opened :
  seller_stop_probe tc (probe_cell c t opened)
  = Ok (closed_cell t false opened 0 0 opened 0 (probe_abandon_payout c t) None,
        AmicableSplit 0 (D + tm_bond t)).
Proof.
  pose proof probe_money. unfold seller_stop_probe. cells. rewrite Z.min_l by lia. fits. cells. fits. cells. fits. cells.
  unfold probe_abandon_payout, machine_close, with_state. cbn [to_seller to_buyer to_burn sm_price sm_seller_bond].
  do 2 f_equal; [|f_equal; lia]. f_equal; lia.
Qed.

(** ** The end of an ordinary deal and of a subscription's term *)

Lemma on_promote_streaming trusted pending b s' :
  machine_call (on_promote (mkMachine (Streaming trusted pending) b s')) = Ok (mkMachine (Streaming pending pending) b s').
Proof. unfold on_promote, check_invariant. cbn. by rewrite Z.ltb_irrefl. Qed.

Lemma settle_term_spec now trusted pending opened tf tq last period b :
  books_ok t tf tq b → 0 ≤ last ≤ now → now < 2 ^ 63 →
  let tf' := promoted c tf tq last now in
  let b' := pay_trusted tf' b in
  let p := clean_payout c t (bk_paid b') tf' in
  settle_term c now tc (at_books c t (Streaming trusted pending) opened tf tq last false 0 b) (sub_at t period b)
  = Ok (closed_cell t true opened tf' tq last 0 p None, sub_at t period b').
Proof.
  intros Hb Hlast Hnow. cbv zeta.
  pose proof (promoted_ok c t _ _ tf tq _ last now Hb) as Hb1. fold (books_ok t (promoted c tf tq last now) tq b) in Hb1.
  set (tf' := promoted c tf tq last now) in *.
  pose proof (pay_trusted_paid _ _ _ Hb1) as Hpaid. pose proof (books_paid _ _ _ Hb1) as (_ & Htf & Htq).
  pose proof (trusted_nonneg _ _ _ Hb1).
  unfold settle_term.
  eapply bind_step; [apply promote_due_open; [apply Hb|done|done|apply Hfit]|].
  eapply (bind_step _ _ (at_books c t (if tf' =? tq then Streaming pending pending else Streaming trusted pending)
    opened tf' tq last false 0 b)).
  { unfold promote_machine. cbn [sc_tokens_final sc_tokens_pending at_books accepted_cell live_cell].
    fold tf'. destruct (tf' =? tq); [|done]. cbn [sc_machine accepted_cell live_cell].
    by rewrite on_promote_streaming. }
  eapply bind_step; [exact (credit_trusted _ _ _ _ _ _ _ _ _ _ _ Hb1)|]. cbn iota.
  eapply bind_step; [by apply (delivered_open c t tc Ht)|].
  eapply bind_step; [by apply close_clean|]. done.
Qed.
End Exits.

(** * How a dispute is resolved

    The payout of a disputed deal, and the proof that [resolve_mock_dispute] computes it on
    every disputed cell, whether the probe was accepted or not. *)

#[local] Arguments umax : simpl never.

(** Where the buyer's deposit stands when the dispute is resolved: still locked, frozen in
    the probe, accrued as fee, or paid. *)
Record Escrow : Type := mkEscrow { es_locked : Z; es_probe : Z; es_fee : Z; es_paid : Z }.

Section Payout.
Context (c : ProtocolConsts) (t : Terms).
#[local] Abbreviation P := (tm_price t).
#[local] Abbreviation D := (tm_deposit c t).

(** The base from which the tokens of the current week count. *)
Definition week_base (b : Books) : Z := if tm_sub t && (bk_week b >? 0) then bk_base b else bk_paid b.
Definition owed_tokens (tokens : Z) (b : Books) : Z := saturating_sub tokens (week_base b).

(** The stake put at risk by the claimed volume, between one tick and two. *)
Definition claimed_stake (e : Escrow) (tq : Z) (b : Books) : Z :=
  let stake := Z.min (Z.min (Z.max (cost c P (owed_tokens tq b)) P) (2 * P)) (2 * P) in
  if tm_sub t then Z.min stake (tm_bond t) else Z.min stake (es_locked e).
Definition left_after_credit (e : Escrow) (tf : Z) (b : Books) : Z := es_locked e - cost c P (owed_tokens tf b).
(** What the buyer loses: from its bond, or from what is left of an ordinary deposit. *)
Definition buyer_stake (e : Escrow) (tf tq : Z) (b : Books) : Z :=
  if tm_sub t then claimed_stake e tq b else Z.min (claimed_stake e tq b) (left_after_credit e tf b).
Definition seller_stake (timed_out : bool) (e : Escrow) (tf tq : Z) (b : Books) : Z :=
  if timed_out then Z.min (buyer_stake e tf tq b) (2 * P) else 0.
Definition remaining (e : Escrow) (tf tq : Z) (b : Books) : Z :=
  left_after_credit e tf b - (if tm_sub t then 0 else buyer_stake e tf tq b) + es_probe e.
(** An accepted subscription gives back the weeks not begun when the dispute was raised. *)
Definition refundable (accepted : bool) (e : Escrow) (tf tq period at_ : Z) (b : Books) : Z :=
  let rem := remaining e tf tq b in
  if tm_sub t && accepted
  then Z.min (cost c P ((tm_weeks t - weeks_at t period at_ true) * tm_per_week t)) rem else rem.

Definition dispute_payout (timed_out accepted : bool) (e : Escrow) (tf tq period at_ : Z) (b : Books) : Payout :=
  let stake := buyer_stake e tf tq b in
  let owed := owed_tokens tf b in
  let back := refundable accepted e tf tq period at_ b in
  mkPayout (es_paid e + pay P owed + (2 * P - seller_stake timed_out e tf tq b))
    (back + (tm_bond t - (if tm_sub t then stake else 0)))
    (stake + seller_stake timed_out e tf tq b + (es_fee e + fee_of c P owed) + (remaining e tf tq b - back)).

Definition escrow_total (e : Escrow) : Z := es_locked e + es_probe e + es_fee e + es_paid e.

(** The resolution pays out everything, whoever it favours. *)
Lemma dispute_payout_total timed_out accepted e tf tq period at_ b :
  escrow_total e = D → payout_total (dispute_payout timed_out accepted e tf tq period at_ b) = tm_total c t.
Proof.
  unfold escrow_total, payout_total, dispute_payout, tm_total, remaining, left_after_credit, cost. cbn.
  destruct (tm_sub t); lia.
Qed.
End Payout.

Section Resolve.
Context (c : ProtocolConsts) (t : Terms) (tc : string).
Context (Hc : consts_wf c) (Ht : terms_ok c t) (Hfit : funds_fit c t).
#[local] Abbreviation P := (tm_price t).
#[local] Abbreviation D := (tm_deposit c t).

(** A disputed cell, accepted or not. *)
Definition frozen_cell (s : StreamState) (accepted : bool) (opened tf tq last at_ : Z) (e : Escrow) : StreamCell :=
  live_cell t s accepted opened (es_locked e) (es_probe e) (es_fee e) tf tq last (es_paid e) true at_.

Record frozen_ok (tf tq last at_ : Z) (e : Escrow) (b : Books) : Prop := {
  fr_escrow : escrow_total e = D;
  fr_parts : 0 ≤ es_locked e ∧ 0 ≤ es_probe e ∧ 0 ≤ es_fee e ∧ 0 ≤ es_paid e;
  fr_tokens : 0 ≤ tf ≤ tq ∧ tq ≤ tm_funded t;
  fr_base : 0 ≤ week_base t b;
  fr_owed : cost c P (owed_tokens t tq b) ≤ es_locked e;
  fr_time : 0 ≤ last ≤ at_ ∧ at_ < 2 ^ 63;
}.

Lemma dispute_base_sub period b : 0 ≤ bk_week b → dispute_base (sub_at t period b) = week_base t b.
Proof.
  intros Hw. unfold dispute_base, week_base. unfold sub_at at 1. rewrite is_subscription_sub_of. done.
Qed.

Section Facts.
Context (tf tq last at_ : Z) (e : Escrow) (b : Books) (Hfr : frozen_ok tf tq last at_ e b) (Hw : 0 ≤ bk_week b).

Lemma owed_bounds n : 0 ≤ n ≤ tm_funded t → 0 ≤ owed_tokens t n b ≤ tm_funded t.
Proof. pose proof (fr_base _ _ _ _ _ _ Hfr). unfold owed_tokens, saturating_sub. lia. Qed.

Lemma stake_spec s accepted opened period :
  dispute_stake tc (frozen_cell s accepted opened tf tq last at_ e) (sub_at t period b) c
  = Ok (claimed_stake c t e tq b).
Proof.
  destruct Hfr as [He Hp Htk Hb Ho Htm]. destruct (ok_price _ _ Ht).
  unfold dispute_stake. rewrite dispute_base_sub by done.
  cbn [frozen_cell live_cell sc_tokens_pending sc_machine sm_price sc_seller_locked sc_buyer_bond sc_buyer_locked].
  fold (owed_tokens t tq b). pose proof (owed_bounds tq ltac:(lia)) as Hq.
  destruct (paid_facts c t Hc Ht _ Hq) as (? & ? & Hcost & ?). pose proof (ok_deposit _ _ Ht).
  eapply bind_step; [by apply (tpf_funded c t tc Hc Ht)|]. cbn iota. fits. rewrite <- Hcost.
  rewrite umul_exact by (unfold umax in *; lia).
  unfold sub_at. rewrite is_subscription_sub_of. unfold claimed_stake. by destruct (tm_sub t).
Qed.

Lemma void_spec s accepted opened :
  void_claims_at tc (frozen_cell s accepted opened tf tq last at_ e) at_ c
  = Ok (frozen_cell s accepted opened (promoted c tf tq last at_) (promoted c tf tq last at_) last at_ e).
Proof.
  destruct Hfr as [He Hp Htk Hb Ho Htm]. unfold void_claims_at, has_due_claim, promoted.
  cbn [frozen_cell live_cell sc_tokens_pending sc_tokens_final sc_last_claim_time].
  destruct (Z.gtb_spec tq tf) as [Hgt|Hle].
  - rewrite deadline_reached by (try done; try lia; apply Hfit). cbn [rbind].
    destruct (at_ >=? last + as_secs (claim_promote_window c)); done.
  - cbn. assert (tq = tf) as -> by lia. destruct (at_ >=? last + as_secs (claim_promote_window c)); done.
Qed.

Lemma promoted_between : tf ≤ promoted c tf tq last at_ ≤ tq.
Proof. destruct Hfr as [_ _ Htk _ _ _]. unfold promoted. destruct (at_ >=? _); lia. Qed.

(** The escrow after the trusted tokens were credited. *)
Definition credited (tf' : Z) : Escrow :=
  mkEscrow (es_locked e - cost c P (owed_tokens t tf' b)) (es_probe e)
    (es_fee e + fee_of c P (owed_tokens t tf' b)) (es_paid e + pay P (owed_tokens t tf' b)).

Lemma credit_frozen s accepted opened tf' :
  tf ≤ tf' ≤ tq →
  credit_token_delta tc (frozen_cell s accepted opened tf' tf' last at_ e) (owed_tokens t tf' b) c
  = Ok (frozen_cell s accepted opened tf' tf' last at_ (credited tf')).
Proof.
  intros Htf'. pose proof (owed_bounds tf' ltac:(destruct (fr_tokens _ _ _ _ _ _ Hfr); lia)) as Hq.
  pose proof (fr_base _ _ _ _ _ _ Hfr) as Hb.
  assert (cost c P (owed_tokens t tf' b) ≤ cost c P (owed_tokens t tq b)) as Hle.
  { apply cost_mono; [done|by apply price_u64 with c|]. unfold owed_tokens, saturating_sub. lia. }
  destruct Hfr as [He Hp Htk _ Ho Htm]. unfold escrow_total in He. pose proof (ok_deposit _ _ Ht).
  destruct (paid_facts c t Hc Ht _ Hq) as (? & ? & Hcost & ?).
  unfold credit_token_delta. cbn [frozen_cell live_cell sc_machine sm_price].
  eapply bind_step; [by apply (tpf_funded c t tc Hc Ht)|]. cbn iota. fits. cbn [sc_buyer_locked].
  fits. unfold debit_escrow, frozen_cell, credited. cells. cbn [es_locked es_probe es_fee es_paid].
  fits. cells. fits. cells. do 2 f_equal; lia.
Qed.

(** The stakes, once the trusted tokens are credited. *)
Lemma stake_bounds tf' : tf ≤ tf' ≤ tq →
  0 ≤ buyer_stake c t e tf' tq b ∧ buyer_stake c t e tf' tq b ≤ 2 * P ∧
  (tm_sub t = true → buyer_stake c t e tf' tq b ≤ tm_bond t) ∧
  (tm_sub t = false → buyer_stake c t e tf' tq b ≤ left_after_credit c t e tf' b) ∧
  0 ≤ left_after_credit c t e tf' b ≤ es_locked e ∧
  0 ≤ pay P (owed_tokens t tf' b) ∧ 0 ≤ fee_of c P (owed_tokens t tf' b).
Proof.
  intros Htf'. pose proof (owed_bounds tf' ltac:(destruct (fr_tokens _ _ _ _ _ _ Hfr); lia)) as Hq.
  pose proof (fr_base _ _ _ _ _ _ Hfr) as Hb.
  assert (cost c P (owed_tokens t tf' b) ≤ cost c P (owed_tokens t tq b)) as Hle.
  { apply cost_mono; [done|by apply price_u64 with c|]. unfold owed_tokens, saturating_sub. lia. }
  destruct (paid_facts c t Hc Ht _ Hq) as (? & ? & Hcost & ?). destruct (ok_price _ _ Ht).
  pose proof (bond_nonneg c t Ht). destruct Hfr as [_ Hp _ _ Ho _].
  unfold buyer_stake, claimed_stake, left_after_credit. destruct (tm_sub t); lia.
Qed.

Definition settled_cell (s : StreamState) (timed_out accepted : bool) (opened tf' : Z) : StreamCell :=
  mkCell STREAM_CELL_SCHEMA_VERSION (mkMachine s P (2 * P)) accepted (tm_buyer t)
    (2 * P - seller_stake c t timed_out e tf' tq b) (remaining c t e tf' tq b - es_probe e) (es_probe e) opened
    (tm_bond t - (if tm_sub t then buyer_stake c t e tf' tq b else 0)) 0 tf' tf' last (es_paid (credited tf')) 0
    (buyer_stake c t e tf' tq b + seller_stake c t timed_out e tf' tq b + es_fee (credited tf'))
    false (tm_ticks t) true at_ None.

Lemma claims_spec s timed_out accepted opened period :
  let tf' := promoted c tf tq last at_ in
  settle_dispute_claims tc (frozen_cell s accepted opened tf tq last at_ e) (sub_at t period b) c timed_out
  = Ok (settled_cell s timed_out accepted opened tf', sub_at t period (pay_trusted tf' b)).
Proof.
  cbv zeta. pose proof promoted_between as Hpr. set (tf' := promoted c tf tq last at_) in *.
  destruct (stake_bounds tf' Hpr) as (Hs0 & Hs2 & Hssub & Hsord & Hleft & Hpay & Hfee).
  pose proof (total_fits c t Hfit) as Htot. pose proof (bond_nonneg c t Ht) as Hbond.
  pose proof (fr_escrow _ _ _ _ _ _ Hfr) as He. pose proof (fr_parts _ _ _ _ _ _ Hfr) as Hp.
  unfold settle_dispute_claims.
  eapply bind_step; [apply stake_spec|]. eapply bind_step; [exact (void_spec s accepted opened)|].
  fold tf'. cbn [sc_tokens_final frozen_cell live_cell]. rewrite dispute_base_sub by done.
  eapply bind_step; [exact (credit_frozen s accepted opened tf' Hpr)|].
  assert (is_subscription (set_tokens_paid (Z.max (tokens_paid (sub_at t period b)) tf') (sub_at t period b)) = tm_sub t)
    as -> by apply is_subscription_sub_of.
  set (stake := buyer_stake c t e tf' tq b) in *.
  assert (seller_stake c t timed_out e tf' tq b = if timed_out then Z.min stake (2 * P) else 0) as Hss by done.
  unfold left_after_credit in *. assert (cost c P (owed_tokens t tf' b) =
    pay P (owed_tokens t tf' b) + fee_of c P (owed_tokens t tf' b)) as Hcost by done.
  unfold escrow_total in He. destruct (ok_price _ _ Ht).
  assert (Hdel : ∀ cell, sc_tokens_final cell = tf' → sc_probe_accepted cell = accepted →
    delivered_ticks tc cell = Ok (Z.max (tf' / TICK_SIZE) (if accepted then 1 else 0))).
  { intros cell H1 H2. unfold delivered_ticks. rewrite H1, H2.
    rewrite (finalized_fits c t tc Ht); [done|]. pose proof (fr_tokens _ _ _ _ _ _ Hfr). lia. }
  set (burn := seller_stake c t timed_out e tf' tq b) in *.
  assert (0 ≤ burn ≤ stake) as Hburn by (rewrite Hss; destruct timed_out; lia).
  unfold settled_cell, remaining, left_after_credit. fold stake burn.
  destruct (tm_sub t) eqn:Hs; cbv iota zeta.
  - assert (claimed_stake c t e tq b = stake) as -> by (unfold stake, buyer_stake; by rewrite Hs).
    specialize (Hssub eq_refl). unfold frozen_cell, credited. cells. cbn [es_locked es_probe es_fee es_paid].
    fits. rewrite <- Hss. fits. eapply bind_step; [by apply Hdel|].
    unfold settle_mock_fees. cells. fits. cells. fits. cells. do 2 f_equal. f_equal; lia.
  - assert (Z.min (claimed_stake c t e tq b) (es_locked e - cost c P (owed_tokens t tf' b)) = stake) as Hst
      by (unfold stake, buyer_stake; by rewrite Hs).
    specialize (Hsord eq_refl). unfold frozen_cell, credited. cells. cbn [es_locked es_probe es_fee es_paid].
    rewrite Hst. fits. rewrite <- Hss. fits. eapply bind_step; [by apply Hdel|].
    unfold settle_mock_fees. cells. fits. cells. fits. cells. do 2 f_equal. f_equal; lia.
Qed.

Lemma refundable_spec s timed_out accepted opened period tf' b' :
  tf ≤ tf' ≤ tq → (accepted = true → period ≤ at_) →
  refundable_deposit tc (settled_cell s timed_out accepted opened tf') (sub_at t period b') c
    (remaining c t e tf' tq b)
  = Ok (refundable c t accepted e tf' tq period at_ b)
  ∧ 0 ≤ refundable c t accepted e tf' tq period at_ b ≤ remaining c t e tf' tq b.
Proof.
  intros Htf' Hper. destruct (stake_bounds tf' Htf') as (Hs0 & Hs2 & Hssub & Hsord & Hleft & _).
  pose proof (fr_parts _ _ _ _ _ _ Hfr) as Hp.
  assert (0 ≤ remaining c t e tf' tq b) by (unfold remaining; destruct (tm_sub t); [lia|specialize (Hsord eq_refl); lia]).
  unfold refundable_deposit, refundable. unfold sub_at at 1. rewrite is_subscription_sub_of.
  cbn [sc_probe_accepted settled_cell sc_dispute_time sc_machine sm_price].
  destruct (tm_sub t) eqn:Hs; cbn [andb]; [|split; [done|lia]].
  destruct accepted; [|split; [done|lia]]. specialize (Hper eq_refl).
  pose proof (weeks_at_sub t period at_ true Hs Hper) as Hw'.
  pose proof (per_week_bounds c t Ht) as [Hpw1 Hpw2]. specialize (Hpw2 Hs).
  pose proof (funded_bounds c t Ht).
  assert (tm_weeks t = SUBSCRIPTION_WEEKS) as Hwk by (unfold tm_weeks; by rewrite Hs).
  set (future := (tm_weeks t - weeks_at t period at_ true) * tm_per_week t).
  assert (0 ≤ future ≤ tm_funded t) as Hfut by (unfold future, SUBSCRIPTION_WEEKS, TICK_SIZE in *; rewrite Hwk; nia).
  destruct (paid_facts c t Hc Ht _ Hfut) as (? & ? & Hcost & ?). pose proof (ok_deposit _ _ Ht).
  split; [|lia].
  eapply bind_step; [apply (subscription_weeks t tc); exact Hper|].
  assert (saturating_sub (sub_weeks (sub_at t period b')) (weeks_at t period at_ true)
    = tm_weeks t - weeks_at t period at_ true) as -> by (unfold saturating_sub; cbn [sub_at sub_of sub_weeks]; lia).
  cbn [sub_at sub_of tokens_per_week]. fold future.
  assert (future ≤ umax u128) by (unfold umax, TICK_SIZE in *; lia). fits.
  eapply bind_step; [by apply (tpf_funded c t tc Hc Ht)|]. cbn iota.
  fold future. fits. done.
Qed.

Lemma close_spec x y timed_out accepted opened period :
  (accepted = true → period ≤ at_) →
  let tf' := promoted c tf tq last at_ in
  let p := dispute_payout c t timed_out accepted e tf' tq period at_ b in
  close_dispute tc (settled_cell (Disputed x y) timed_out accepted opened tf') (sub_at t period (pay_trusted tf' b)) c timed_out
  = Ok (Some (closed_cell t accepted opened tf' tf' last at_ p None,
              (to_buyer p, 2 * P - seller_stake c t timed_out e tf' tq b))).
Proof.
  intros Hper. cbv zeta. pose proof promoted_between as Hpr. set (tf' := promoted c tf tq last at_) in *.
  destruct (stake_bounds tf' Hpr) as (Hs0 & Hs2 & Hssub & Hsord & Hleft & Hpay & Hfee).
  destruct (refundable_spec (Disputed x y) timed_out accepted opened period tf' (pay_trusted tf' b) Hpr Hper) as [Href Hb].
  pose proof (total_fits c t Hfit). pose proof (bond_nonneg c t Ht).
  pose proof (fr_escrow _ _ _ _ _ _ Hfr) as He. pose proof (fr_parts _ _ _ _ _ _ Hfr) as Hp.
  assert (0 ≤ seller_stake c t timed_out e tf' tq b ≤ buyer_stake c t e tf' tq b) as Hburn
    by (unfold seller_stake; destruct timed_out; lia).
  assert (cost c P (owed_tokens t tf' b) =
    pay P (owed_tokens t tf' b) + fee_of c P (owed_tokens t tf' b)) as Hcost by done.
  assert (0 ≤ (if tm_sub t then buyer_stake c t e tf' tq b else 0) ≤ tm_bond t) as Hbs
    by (destruct (tm_sub t); [auto with lia|lia]).
  assert (remaining c t e tf' tq b = left_after_credit c t e tf' b
    - (if tm_sub t then 0 else buyer_stake c t e tf' tq b) + es_probe e) as Hrem by done.
  assert (0 ≤ (if tm_sub t then 0 else buyer_stake c t e tf' tq b)) as Hos by (destruct (tm_sub t); lia).
  assert ((if tm_sub t then 0 else buyer_stake c t e tf' tq b)
    + (if tm_sub t then buyer_stake c t e tf' tq b else 0) = buyer_stake c t e tf' tq b) as Hsum
    by (destruct (tm_sub t); lia).
  unfold left_after_credit, escrow_total in *. destruct (ok_price _ _ Ht).
  unfold close_dispute, settled_cell. cells. cbn [es_paid es_fee credited].
  set (sb := if tm_sub t then _ else 0) in *. set (rem := remaining c t e tf' tq b) in *.
  rewrite checked_add_fits by lia. cbn [ok_or rbind]. replace (rem - es_probe e + es_probe e) with rem by lia.
  eapply bind_step; [exact Href|]. fits. cells. fits. cells. fits. cells.
  assert ((if timed_out then Some (machine_resolve_dispute_timeout (mkMachine (Disputed x y) P (2 * P))).2
    else option_map snd (result_ok (machine_release_dispute (mkMachine (Disputed x y) P (2 * P)))))
    = Some (mkMachine Closed P (2 * P))) as -> by by destruct timed_out.
  cbn [option_map]. unfold dispute_payout, closed_cell. cbn [to_seller to_buyer to_burn es_paid es_fee].
  fold sb rem. do 3 f_equal; lia.
Qed.
End Facts.

(** ** The two disputed phases *)

Definition escrow_of (b : Books) : Escrow :=
  mkEscrow (D - cost c P (bk_paid b)) 0 (fee_of c P (bk_paid b)) (pay P (bk_paid b)).
Definition probe_escrow : Escrow := mkEscrow (D - P) P 0 0.
Definition no_books : Books := mkBooks 0 0 0.

Lemma frozen_accepted tf tq last at_ b :
  books_ok t tf tq b → 0 ≤ last ≤ at_ → at_ < 2 ^ 63 → frozen_ok tf tq last at_ (escrow_of b) b.
Proof.
  intros Hb Hl Hat. pose proof (accepted_paid c t Ht _ _ _ _ _ Hb) as (Hpaid & Hbase & Hbq & Hw).
  pose proof (per_week_bounds c t Ht) as [_ Hpw]. pose proof (price_u64 c t Ht) as Hp.
  destruct Hb as [Hcl _ Hf Hwk Hcap]. unfold TICK_SIZE in *.
  destruct (paid_facts c t Hc Ht (bk_paid b)) as (? & ? & Hcost & ?); [lia|].
  assert (0 ≤ week_base t b) as Hwb by (unfold week_base; destruct (tm_sub t && _); lia).
  assert (owed_tokens t tq b + bk_paid b ≤ tm_funded t ∧ 0 ≤ owed_tokens t tq b) as [Hsum Ho].
  { unfold owed_tokens, saturating_sub, week_base in *. destruct (tm_sub t) eqn:Hs; cbn [andb] in *; [|lia].
    specialize (Hcap eq_refl). specialize (Hpw eq_refl). unfold SUBSCRIPTION_WEEKS in *.
    destruct (Z.gtb_spec (bk_week b) 0); [|lia].
    destruct Hwk as [(? & _)|(_ & ? & Hpd & _)]; [lia|].
    destruct (Z.ltb_spec (bk_week b) 4); nia. }
  split; cbn; try done; try lia.
  - unfold escrow_total. cbn. lia.
  - pose proof (cost_superadd c P Hc (owed_tokens t tq b) (bk_paid b)).
    pose proof (cost_deposit c t Hc Ht _ Hsum). lia.
Qed.

Lemma frozen_probe opened at_ : 0 ≤ opened ≤ at_ → at_ < 2 ^ 63 → frozen_ok 0 0 opened at_ probe_escrow no_books.
Proof.
  intros Ho Hat. pose proof (probe_money c t Hc Ht Hfit). pose proof (funded_bounds c t Ht).
  assert (week_base t no_books = 0) as Hw by (unfold week_base; cbn; by destruct (tm_sub t)).
  split; cbn; try lia.
  - unfold escrow_total. cbn. lia.
  - unfold TICK_SIZE in *. lia.
  - unfold owed_tokens. rewrite Hw. rewrite cost_zero. lia.
Qed.

Theorem resolve_accepted timed_out opened tf tq last at_ period b :
  books_ok t tf tq b → 0 ≤ last ≤ at_ → period ≤ at_ → at_ < 2 ^ 63 →
  let b' := books_at t period at_ false tq b in
  let tf' := promoted c tf tq last at_ in
  let p := dispute_payout c t timed_out true (escrow_of b') tf' tq period at_ b' in
  resolve_mock_dispute tc (disputed_cell c t opened (bk_paid b) tf tq last at_) (sub_at t period b) c timed_out
  = Ok (Some (closed_cell t true opened tf' tf' last at_ p None, sub_at t period (pay_trusted tf' b'),
              (to_buyer p, 2 * P - seller_stake c t timed_out (escrow_of b') tf' tq b'))).
Proof.
  intros Hb Hl Hper Hat. cbv zeta.
  pose proof (books_at_ok c t Ht period at_ false tf tq b Hb Hper) as Hb'.
  set (b' := books_at t period at_ false tq b) in *.
  pose proof (frozen_accepted tf tq last at_ b' Hb' Hl Hat) as Hfr.
  assert (0 ≤ bk_week b') as Hw by apply (accepted_paid c t Ht _ _ _ _ _ Hb').
  unfold resolve_mock_dispute. cbn [disputed_cell accepted_cell live_cell sc_disputed negb sc_probe_accepted sc_dispute_time].
  rewrite Bool.andb_true_r.
  eapply bind_step; [apply (charge_weeks c t tc Hc Ht); [exact Hb|exact Hper]|]. cbn iota. fold b'.
  eapply bind_step; [exact (claims_spec tf tq last at_ (escrow_of b') b' Hfr Hw _ timed_out true opened period)|]. cbn iota.
  eapply bind_step; [by apply (close_spec tf tq last at_ _ _ Hfr)|]. done.
Qed.

Theorem resolve_probe timed_out opened at_ period :
  0 ≤ opened ≤ at_ → at_ < 2 ^ 63 →
  let p := dispute_payout c t timed_out false probe_escrow 0 0 period at_ no_books in
  resolve_mock_dispute tc (disputed_probe_cell c t opened at_) (sub_at t period no_books) c timed_out
  = Ok (Some (closed_cell t false opened 0 0 opened at_ p None, sub_at t period no_books,
              (to_buyer p, 2 * P - seller_stake c t timed_out probe_escrow 0 0 no_books))).
Proof.
  intros Ho Hat. cbv zeta. pose proof (frozen_probe opened at_ Ho Hat) as Hfr.
  unfold resolve_mock_dispute. cbn [disputed_probe_cell live_cell sc_disputed negb sc_probe_accepted sc_dispute_time].
  rewrite Bool.andb_false_r.
  assert (promoted c 0 0 opened at_ = 0) as Hpr by (unfold promoted; by destruct (at_ >=? _)).
  eapply bind_step; [done|]. cbn iota.
  eapply bind_step; [exact (claims_spec 0 0 opened at_ probe_escrow no_books Hfr ltac:(done) _ timed_out false opened period)|]. cbn iota.
  eapply bind_step; [by apply (close_spec 0 0 opened at_ probe_escrow no_books Hfr)|]. by rewrite Hpr.
Qed.
End Resolve.
