(* ===== verification/DealPhase.v ===== *)
(** * The abstract state machine of a deal

    A deal that was opened is in one of five phases.  The [phase_*] functions are the
    specification of the handlers of MockDeal: [None] is a refusal.  This file shows what
    holds of every phase they reach; MockRefine.v shows that the handlers compute them. *)
From S2P Require Import Prelude RustText Params DealTypes Machine MockData MockMoney.
From S2P Require Import MockBook MockDeal DealSpec DealExits.

#[local] Arguments umax : simpl never.

Inductive Phase : Type :=
  | PhProbe (opened period : Z)
  | PhOpen (opened period last tf tq : Z) (b : Books)
  | PhDisputedProbe (opened period at_ : Z)
  | PhDisputed (opened period last tf tq : Z) (b : Books) (at_ : Z)
  | PhClosed (accepted : bool) (opened period last tf tq : Z) (b : Books) (at_ : Z) (p : Payout)
      (settlement : option (Z * Z)).

Section Phases.
Context (c : ProtocolConsts) (t : Terms).
#[local] Abbreviation P := (tm_price t).
#[local] Abbreviation D := (tm_deposit c t).

Definition phase_cell (ph : Phase) : StreamCell :=
  match ph with
  | PhProbe opened _ => probe_cell c t opened
  | PhOpen opened _ last tf tq b => open_cell c t opened (bk_paid b) tf tq last
  | PhDisputedProbe opened _ at_ => disputed_probe_cell c t opened at_
  | PhDisputed opened _ last tf tq b at_ => disputed_cell c t opened (bk_paid b) tf tq last at_
  | PhClosed accepted opened _ last tf tq _ at_ p settlement =>
      closed_cell t accepted opened tf tq last at_ p settlement
  end.
Definition phase_sub (ph : Phase) : DealSubscription :=
  match ph with
  | PhProbe _ period | PhDisputedProbe _ period _ => sub_at t period no_books
  | PhOpen _ period _ _ _ b | PhDisputed _ period _ _ _ b _ | PhClosed _ _ period _ _ _ b _ _ _ => sub_at t period b
  end.

(** ** What every phase keeps *)

Definition closed_books_ok (b : Books) : Prop :=
  0 ≤ bk_week b ≤ tm_weeks t ∧ 0 ≤ bk_paid b ≤ tm_funded t ∧ 0 ≤ bk_base b ≤ tm_funded t ∧
  (tm_sub t = false → bk_base b = 0).
Definition payout_ok (p : Payout) : Prop :=
  0 ≤ to_seller p ∧ 0 ≤ to_buyer p ∧ 0 ≤ to_burn p ∧ payout_total p = tm_total c t.

Definition phase_ok (now : Z) (ph : Phase) : Prop :=
  match ph with
  | PhProbe opened period => 1 ≤ opened ≤ now ∧ 0 ≤ period ≤ now
  | PhOpen opened period last tf tq b =>
      1 ≤ opened ≤ period ∧ period ≤ last ≤ now ∧ books_ok t tf tq b
  | PhDisputedProbe opened period at_ => 1 ≤ opened ≤ at_ ∧ at_ ≤ now ∧ 0 ≤ period ≤ now
  | PhDisputed opened period last tf tq b at_ =>
      1 ≤ opened ≤ period ∧ period ≤ last ≤ at_ ∧ at_ ≤ now ∧ books_ok t tf tq b
  | PhClosed accepted opened period last tf tq b at_ p _ =>
      1 ≤ opened ≤ now ∧ 0 ≤ period ≤ now ∧ 1 ≤ last ≤ now ∧ (at_ = 0 ∨ last ≤ at_ ≤ now) ∧
      (0 ≤ tf ≤ tq ∧ tq - tf ≤ MAX_CLAIM_DELTA) ∧ tq ≤ tm_funded t ∧ (if accepted then TICK_SIZE ≤ tf else tq = 0) ∧
      closed_books_ok b ∧ payout_ok p
  end.

(** ** The specification of the handlers *)

Definition close_phase (opened period last tf tq : Z) (b : Books) (settled : bool) : Phase :=
  let p := clean_payout c t (bk_paid b) tf in
  PhClosed true opened period last tf tq b 0 p (if settled then Some (to_seller p, to_buyer p) else None).

Definition phase_accept_probe (now : Z) (ph : Phase) : option Phase :=
  match ph with
  | PhProbe opened _ =>
      if opened + as_secs (probe_window c) <=? now
      then Some (PhOpen opened now now TICK_SIZE TICK_SIZE (mkBooks 0 TICK_SIZE 0)) else None
  | _ => None
  end.

(** The ceiling of a claim with the books of the current week. *)
Definition week_cap (tq : Z) (b : Books) : Z :=
  if tm_sub t then
    if bk_week b >=? SUBSCRIPTION_WEEKS then tq else Z.min (bk_base b + tm_per_week t) (tm_funded t)
  else tm_funded t.
Definition claim_paced (last claim_time delta : Z) : bool :=
  (last <=? claim_time) && (as_secs (min_claim_interval c) <=? claim_time - last)
  && (delta <=? MAX_CLAIM_DELTA)
  && (delta * as_secs (min_seconds_per_tick c) <=? (claim_time - last) * TICK_SIZE).
Definition phase_claim_tokens (now claim_time cumulative : Z) (ph : Phase) : option Phase :=
  match ph with
  | PhOpen opened period last tf tq b =>
      if cumulative =? tq then Some ph
      else
      let b := books_at t period now false tq b in
      if (tq <? cumulative) && (cumulative <=? tm_funded t) && (cumulative <=? week_cap tq b)
         && claim_paced last claim_time (cumulative - tq) && (promoted c tf tq last claim_time =? tq)
      then Some (PhOpen opened period claim_time tq cumulative b) else None
  | _ => None
  end.

Definition phase_finalize (now : Z) (ph : Phase) : option Phase :=
  match ph with
  | PhOpen opened period last tf tq b =>
      if (tf <? tq) && (last + as_secs (claim_promote_window c) <=? now) then
        if negb (tm_sub t) && (tm_funded t <=? tq)
        then Some (close_phase opened period last tq tq (pay_trusted tq b) false)
        else Some (PhOpen opened period last tq tq b)
      else None
  | _ => None
  end.

Definition phase_settle_week (now : Z) (ph : Phase) : option Phase :=
  match ph with
  | PhOpen opened period last tf tq b =>
      if negb (tm_sub t) then None
      else
      let b' := books_at t period now false tq b in
      let crossed := negb (weeks_at t period now false <=? bk_week b) in
      if negb crossed && (bk_week b' <? SUBSCRIPTION_WEEKS) then None
      else if (bk_week b' >=? SUBSCRIPTION_WEEKS) && (now >=? last + as_secs (claim_promote_window c)) then
        let tf := promoted c tf tq last now in
        Some (close_phase opened period last tf tq (pay_trusted tf b') false)
      else Some (PhOpen opened period last tf tq b')
  | _ => None
  end.

Definition phase_stop (now now' : Z) (ph : Phase) : option (Phase * Settlement) :=
  match ph with
  | PhProbe opened period =>
      Some (PhClosed false opened period opened 0 0 no_books 0 (probe_stop_payout c t) None,
            BurnBoth (probe_burn_receipt c t))
  | PhOpen opened period last tf tq b =>
      let tf := promoted c tf tq last now in
      let b := stop_books t period now' tf tq b in
      Some (close_phase opened period last tf tq b true,
            AmicableSplit (bk_paid b / TICK_SIZE) (to_buyer (clean_payout c t (bk_paid b) tf)))
  | _ => None
  end.

Definition phase_seller_stop (now now' : Z) (ph : Phase) : option (Phase * Settlement) :=
  match ph with
  | PhProbe opened period =>
      Some (PhClosed false opened period opened 0 0 no_books 0 (probe_abandon_payout c t) None,
            AmicableSplit 0 (to_buyer (probe_abandon_payout c t)))
  | PhOpen opened period last tf tq b =>
      let tf := promoted c tf tq last now in
      let b := seller_stop_books t period now' tf tq b in
      Some (close_phase opened period last tf tq b false,
            AmicableSplit (bk_paid b / TICK_SIZE) (to_buyer (clean_payout c t (bk_paid b) tf)))
  | _ => None
  end.

Definition phase_dispute (now : Z) (ph : Phase) : option Phase :=
  match ph with
  | PhProbe opened period => Some (PhDisputedProbe opened period now)
  | PhOpen opened period last tf tq b => Some (PhDisputed opened period last tf tq b now)
  | _ => None
  end.

Definition phase_resolve (timed_out : bool) (ph : Phase) : option (Phase * Settlement) :=
  match ph with
  | PhDisputedProbe opened period at_ =>
      let e := probe_escrow c t in
      let p := dispute_payout c t timed_out false e 0 0 period at_ no_books in
      Some (PhClosed false opened period opened 0 0 no_books at_ p None,
            SellerNoShow (to_buyer p) (2 * P - seller_stake c t timed_out e 0 0 no_books))
  | PhDisputed opened period last tf tq b at_ =>
      let b := books_at t period at_ false tq b in
      let e := escrow_of c t b in
      let tf := promoted c tf tq last at_ in
      let p := dispute_payout c t timed_out true e tf tq period at_ b in
      Some (PhClosed true opened period last tf tf (pay_trusted tf b) at_ p None,
            SellerNoShow (to_buyer p) (2 * P - seller_stake c t timed_out e tf tq b))
  | _ => None
  end.
Definition phase_disputed_at (ph : Phase) : option Z :=
  match ph with PhDisputedProbe _ _ at_ | PhDisputed _ _ _ _ _ _ at_ => Some at_ | _ => None end.
Definition phase_resolve_timeout (now : Z) (ph : Phase) : option (Phase * Settlement) :=
  let* at_ := phase_disputed_at ph in
  if at_ + as_secs (dispute_window c) <=? now then phase_resolve true ph else None.

(** One move of a deal, the clock reading [now] and then [now'] during it. *)
Inductive deal_move (now now' : Z) (ph : Phase) : Phase → Prop :=
  | MoveAccept ph' : phase_accept_probe now ph = Some ph' → deal_move now now' ph ph'
  | MoveClaim n ph' : phase_claim_tokens now now' n ph = Some ph' → deal_move now now' ph ph'
  | MoveFinalize ph' : phase_finalize now ph = Some ph' → deal_move now now' ph ph'
  | MoveSettle ph' : phase_settle_week now ph = Some ph' → deal_move now now' ph ph'
  | MoveStop ph' s : phase_stop now now' ph = Some (ph', s) → deal_move now now' ph ph'
  | MoveSellerStop ph' s : phase_seller_stop now now' ph = Some (ph', s) → deal_move now now' ph ph'
  | MoveDispute ph' : phase_dispute now ph = Some ph' → deal_move now now' ph ph'
  | MoveRelease ph' s : phase_resolve false ph = Some (ph', s) → deal_move now now' ph ph'
  | MoveTimeout ph' s : phase_resolve_timeout now ph = Some (ph', s) → deal_move now now' ph ph'.
End Phases.

(** * What the phases keep *)

Section Preserved.
Context (c : ProtocolConsts) (t : Terms) (Hc : consts_wf c) (Ht : terms_ok c t) (Hfit : funds_fit c t).
#[local] Abbreviation P := (tm_price t).
#[local] Abbreviation D := (tm_deposit c t).

Lemma phase_ok_mono now now' ph : phase_ok c t now ph → now ≤ now' → phase_ok c t now' ph.
Proof. destruct ph; cbn; intros; naive_solver lia. Qed.

Lemma clean_payout_ok tp tf : 0 ≤ tp ≤ tm_funded t → 0 ≤ tf ≤ tm_funded t → payout_ok c t (clean_payout c t tp tf).
Proof.
  intros Htp Htf. destruct (paid_facts c t Hc Ht tp Htp) as (? & ? & Hcost & ?). destruct (ok_price _ _ Ht).
  destruct (ticks_value c t Hc Ht tf Htf). pose proof (bond_nonneg c t Ht).
  pose proof (rebate_bounds c P (tf / TICK_SIZE) (fee_of c P tp) Hc (price_u64 c t Ht)) as Hr.
  unfold payout_ok, payout_total, clean_payout, tm_total. cbn. lia.
Qed.

Lemma open_closed_books tf tq b : books_ok t tf tq b → closed_books_ok t b.
Proof.
  intros Hb. pose proof (accepted_paid c t Ht _ _ _ _ _ Hb). pose proof (funded_bounds c t Ht).
  unfold closed_books_ok, TICK_SIZE in *. split_and!; try lia.
  intros Hs. destruct Hb as [_ _ _ [(_ & _ & ->)|(Hs' & _)] _]; [done|congruence].
Qed.

Lemma pay_trusted_books tf tq b : books_ok t tf tq b → closed_books_ok t (pay_trusted tf b).
Proof.
  intros Hb. pose proof (open_closed_books _ _ _ Hb) as (? & ? & ? & ?).
  pose proof (pay_trusted_paid c t Ht _ _ _ Hb). unfold closed_books_ok. cbn in *. tauto.
Qed.

(** Every way a clean close is reached. *)
Lemma close_phase_ok now opened period last tf tq b settled :
  1 ≤ opened ≤ period → period ≤ last ≤ now → TICK_SIZE ≤ tf ≤ tq → tq ≤ tm_funded t → tq - tf ≤ MAX_CLAIM_DELTA →
  closed_books_ok t b → phase_ok c t now (close_phase c t opened period last tf tq b settled).
Proof.
  intros Ho Hl Htf Htq Hlead Hb. cbn. pose proof Hb as (_ & Hp & _ & _). unfold TICK_SIZE in *.
  split_and!; try lia; try done. apply clean_payout_ok; [done|lia].
Qed.

Lemma accept_probe_ok now0 now ph ph' :
  phase_ok c t now0 ph → now0 ≤ now → phase_accept_probe c now ph = Some ph' → phase_ok c t now ph'.
Proof.
  intros Hok Hn. destruct ph; cbn in *; try done. destruct (Z.leb_spec (opened + as_secs (probe_window c)) now); [|done].
  intros [= <-]. cbn. pose proof (funded_bounds c t Ht). pose proof (per_week_bounds c t Ht) as [Hp1 Hp2].
  split_and!; try lia. unfold TICK_SIZE in *. split; cbn; unfold MAX_CLAIM_DELTA, TICK_SIZE in *; [lia|lia|lia|lia|intros; lia].
Qed.

Lemma claim_tokens_ok now0 now claim_time n ph ph' :
  phase_ok c t now0 ph → now0 ≤ now → now ≤ claim_time →
  phase_claim_tokens c t now claim_time n ph = Some ph' → phase_ok c t claim_time ph'.
Proof.
  intros Hok Hn Hn'. destruct ph as [|opened period last tf tq b| | |]; cbn in *; try done.
  destruct (Z.eqb_spec n tq); [intros [= <-]; cbn; naive_solver lia|].
  destruct Hok as (Ho & Hl & Hb). pose proof (books_at_ok c t Ht period now false tf tq b Hb ltac:(lia)) as Hb'.
  set (b' := books_at t period now false tq b) in *.
  destruct (_ && _) eqn:Hg; [|done]. intros [= <-]. cbn.
  rewrite !Bool.andb_true_iff in Hg. destruct Hg as [[[[H1 H2] H3] H4] H5].
  apply Z.ltb_lt in H1. apply Z.leb_le in H2, H3. apply Z.eqb_eq in H5.
  unfold claim_paced in H4. rewrite !Bool.andb_true_iff in H4. destruct H4 as [[_ H4%Z.leb_le] _].
  split_and!; try lia.
  destruct Hb' as [Hcl Hlead Hf Hw Hcap]. split; try done; try lia.
  - destruct Hw as [?|(? & ? & ? & ? & ?)]; [by left|right; split_and!; try done; lia].
  - intros Hs. specialize (Hcap Hs). unfold week_cap in H3. rewrite Hs, Z.geb_leb in H3.
    destruct (Z.ltb_spec (bk_week b') SUBSCRIPTION_WEEKS), (Z.leb_spec SUBSCRIPTION_WEEKS (bk_week b')); lia.
Qed.

Lemma finalize_ok now0 now ph ph' :
  phase_ok c t now0 ph → now0 ≤ now → phase_finalize c t now ph = Some ph' → phase_ok c t now ph'.
Proof.
  intros Hok Hn. destruct ph as [|opened period last tf tq b| | |]; cbn in *; try done.
  destruct Hok as (Ho & Hl & Hb). destruct ((tf <? tq) && _); [|done].
  assert (books_ok t tq tq b) as Hb' by (destruct Hb as [Hcl ? ? ? ?]; split; try done; unfold MAX_CLAIM_DELTA, TICK_SIZE in *; lia).
  pose proof (books_paid c t Ht _ _ _ Hb') as (? & ? & ?).
  destruct (negb (tm_sub t) && _); intros [= <-]; [|cbn; split_and!; try done; lia].
  apply close_phase_ok; try lia. by apply pay_trusted_books with tq.
Qed.

Lemma settle_week_ok now0 now ph ph' :
  phase_ok c t now0 ph → now0 ≤ now → phase_settle_week c t now ph = Some ph' → phase_ok c t now ph'.
Proof.
  intros Hok Hn. destruct ph as [|opened period last tf tq b| | |]; cbn in *; try done.
  destruct Hok as (Ho & Hl & Hb). pose proof (books_at_ok c t Ht period now false tf tq b Hb ltac:(lia)) as Hb'.
  destruct (negb (tm_sub t)); [done|]. destruct (negb (negb _) && _); [done|].
  destruct ((bk_week _ >=? _) && _); intros [= <-]; [|cbn; split_and!; try done; lia].
  pose proof (promoted_ok c t _ _ _ _ _ last now Hb') as Hb2.
  fold (books_ok t (promoted c tf tq last now) tq (books_at t period now false tq b)) in Hb2.
  pose proof (books_paid c t Ht _ _ _ Hb2) as (? & ? & ?).
  apply close_phase_ok; try lia. by apply pay_trusted_books with tq.
Qed.

Lemma no_books_ok : closed_books_ok t no_books.
Proof.
  pose proof (funded_bounds c t Ht). unfold TICK_SIZE in *.
  split_and!; cbn; try lia; try done. unfold tm_weeks. by destruct (tm_sub t).
Qed.

Lemma probe_payouts_ok : payout_ok c t (probe_stop_payout c t) ∧ payout_ok c t (probe_abandon_payout c t).
Proof.
  pose proof (probe_money c t Hc Ht Hfit). unfold payout_ok, payout_total, tm_total. cbn. lia.
Qed.

Lemma stop_ok now0 now now' ph ph' s :
  phase_ok c t now0 ph → now0 ≤ now → now ≤ now' →
  phase_stop c t now now' ph = Some (ph', s) → phase_ok c t now' ph'.
Proof.
  intros Hok Hn Hn'. pose proof (funded_bounds c t Ht). unfold TICK_SIZE in *.
  destruct ph as [opened period|opened period last tf tq b| | |]; cbn in *; try done; intros [= <- _].
  - cbn. split_and!; try lia; try apply no_books_ok; try apply probe_payouts_ok. done.
  - destruct Hok as (Ho & Hl & Hb).
    pose proof (promoted_ok c t _ _ _ _ _ last now Hb) as Hb1.
    fold (books_ok t (promoted c tf tq last now) tq b) in Hb1.
    pose proof (books_at_ok c t Ht period now' true _ tq b Hb1 ltac:(lia)) as Hb2.
    pose proof (books_paid c t Ht _ _ _ Hb2) as (? & ? & ?).
    apply close_phase_ok; try lia. by apply pay_trusted_books with tq.
Qed.

Lemma seller_stop_ok now0 now now' ph ph' s :
  phase_ok c t now0 ph → now0 ≤ now → now ≤ now' →
  phase_seller_stop c t now now' ph = Some (ph', s) → phase_ok c t now' ph'.
Proof.
  intros Hok Hn Hn'. pose proof (funded_bounds c t Ht). unfold TICK_SIZE in *.
  destruct ph as [opened period|opened period last tf tq b| | |]; cbn in *; try done; intros [= <- _].
  - cbn. split_and!; try lia; try apply no_books_ok; try apply probe_payouts_ok. done.
  - destruct Hok as (Ho & Hl & Hb).
    pose proof (promoted_ok c t _ _ _ _ _ last now Hb) as Hb1.
    fold (books_ok t (promoted c tf tq last now) tq b) in Hb1.
    pose proof (books_at_ok c t Ht period now' false _ tq b Hb1 ltac:(lia)) as Hb2.
    pose proof (books_paid c t Ht _ _ _ Hb2) as (? & ? & ?).
    apply close_phase_ok; try lia. unfold seller_stop_books.
    destruct (tm_sub t); [by apply open_closed_books with (promoted c tf tq last now) tq|].
    by apply pay_trusted_books with tq.
Qed.

Lemma dispute_ok now0 now ph ph' :
  phase_ok c t now0 ph → now0 ≤ now → phase_dispute now ph = Some ph' → phase_ok c t now ph'.
Proof. intros Hok Hn. destruct ph; cbn in *; intros; simplify_eq; cbn; naive_solver lia. Qed.

Lemma dispute_payout_ok timed_out accepted tf tq last at_ e b period :
  frozen_ok c t tf tq last at_ e b → (accepted = true → period ≤ at_) →
  payout_ok c t (dispute_payout c t timed_out accepted e (promoted c tf tq last at_) tq period at_ b).
Proof.
  intros Hfr Hper. pose proof (promoted_between c t tf tq last at_ e b Hfr) as Hpr.
  set (tf' := promoted c tf tq last at_) in *.
  destruct (stake_bounds c t Hc Ht _ _ _ _ _ _ Hfr tf' Hpr) as (? & ? & Hsub & Hord & ? & ? & ?).
  destruct (refundable_spec c t EmptyString Hc Ht _ _ _ _ _ _ Hfr Opening timed_out accepted 0 period tf' b Hpr Hper)
    as [_ Href].
  pose proof (dispute_payout_total c t timed_out accepted e tf' tq period at_ b (fr_escrow _ _ _ _ _ _ _ _ Hfr)).
  pose proof (fr_parts _ _ _ _ _ _ _ _ Hfr). destruct (ok_price _ _ Ht). pose proof (bond_nonneg c t Ht).
  assert (0 ≤ seller_stake c t timed_out e tf' tq b ≤ 2 * P) by (unfold seller_stake; destruct timed_out; lia).
  unfold payout_ok. split_and!; try done; cbn; try lia.
  destruct (tm_sub t); [specialize (Hsub eq_refl)|]; lia.
Qed.

Lemma resolve_ok timed_out now ph ph' s :
  phase_ok c t now ph → now < 2 ^ 63 → phase_resolve c t timed_out ph = Some (ph', s) → phase_ok c t now ph'.
Proof.
  intros Hok Hn. pose proof (funded_bounds c t Ht).
  destruct ph as [| |opened period at_|opened period last tf tq b at_|]; cbn in *; try done; intros [= <- _]; cbn.
  - destruct Hok as (Ho & Hat & Hp). split_and!; try lia.
    + done.
    + unfold TICK_SIZE in *. lia.
    + apply no_books_ok.
    + pose proof (frozen_probe c t Hc Ht Hfit opened at_ ltac:(lia) ltac:(lia)) as Hfr.
      assert (promoted c 0 0 opened at_ = 0) as Hpr by (unfold promoted; by destruct (at_ >=? _)).
      pose proof (dispute_payout_ok timed_out false _ _ _ _ _ _ period Hfr ltac:(done)) as Hpay. by rewrite Hpr in Hpay.
  - destruct Hok as (Ho & Hl & Hat & Hb).
    pose proof (books_at_ok c t Ht period at_ false tf tq b Hb ltac:(lia)) as Hb'.
    pose proof (frozen_accepted c t Hc Ht tf tq last at_ _ Hb' ltac:(lia) ltac:(lia)) as Hfr.
    pose proof (promoted_ok c t _ _ _ _ _ last at_ Hb') as Hb2.
    fold (books_ok t (promoted c tf tq last at_) tq (books_at t period at_ false tq b)) in Hb2.
    pose proof (books_paid c t Ht _ _ _ Hb2) as (? & ? & ?). unfold TICK_SIZE in *.
    split_and!; try (unfold MAX_CLAIM_DELTA, TICK_SIZE; lia); [by apply pay_trusted_books with tq|]. apply dispute_payout_ok; [done|lia].
Qed.

Lemma resolve_timeout_ok now ph ph' s :
  phase_ok c t now ph → now < 2 ^ 63 → phase_resolve_timeout c t now ph = Some (ph', s) → phase_ok c t now ph'.
Proof.
  intros Hok Hn. unfold phase_resolve_timeout. destruct (phase_disputed_at ph); cbn; [|done].
  destruct (_ <=? _); [|done]. by apply resolve_ok.
Qed.

Lemma deal_move_ok now0 now now' ph ph' :
  phase_ok c t now0 ph → now0 ≤ now → now ≤ now' → now' < 2 ^ 63 → deal_move c t now now' ph ph' → phase_ok c t now' ph'.
Proof.
  intros Hok Hn Hn' Hlt Hm.
  assert (∀ ph, phase_ok c t now ph → phase_ok c t now' ph) as Hlater by (intros; by apply phase_ok_mono with now).
  assert (phase_ok c t now ph) as Hnow by by apply phase_ok_mono with now0.
  destruct Hm.
  - by apply Hlater, (accept_probe_ok now0 now ph).
  - by apply (claim_tokens_ok now0 now now' n ph).
  - by apply Hlater, (finalize_ok now0 now ph).
  - by apply Hlater, (settle_week_ok now0 now ph).
  - by apply (stop_ok now0 now now' ph ph' s).
  - by apply (seller_stop_ok now0 now now' ph ph' s).
  - by apply Hlater, (dispute_ok now0 now ph).
  - apply Hlater, (resolve_ok false now ph ph' s); [done|lia|done].
  - apply Hlater, (resolve_timeout_ok now ph ph' s); [done|lia|done].
Qed.
End Preserved.
