(* ===== verification/MockRefine.v ===== *)
(** * The handlers implement the abstract deal

    For a state whose deal at a contract is in some phase, every handler of MockDeal
    succeeds exactly when its specification in DealPhase does, and stores exactly the phase
    the specification gives.  In particular no reachable call panics. *)
From S2P Require Import Prelude RustText Params DealTypes Machine MockData MockMoney.
From S2P Require Import MockBook MockDeal DealSpec DealExits DealPhase.

#[local] Arguments umax : simpl never.

(** Reduces a refinement goal whose specification succeeds to the exact result of the call. *)
Ltac succeed_as :=
  cbn [option_map];
  match goal with
  | |- result_ok ?m = Some ?r => cut (m = Ok r); [intros ->; reflexivity|]
  end.

Section Refine.
Context (c : ProtocolConsts) (t : Terms) (tc : string).
Context (Hc : consts_wf c) (Ht : terms_ok c t) (Hfit : funds_fit c t).

(** The state holds the deal in the given phase. *)
Definition holds (st : MockState) (ph : Phase) : Prop :=
  ms_streams st !! tc = Some (phase_cell c t ph) ∧ ms_deal_subscriptions st !! tc = Some (phase_sub t ph).
(** The state with the deal moved to another phase. *)
Definition put (ph : Phase) (st : MockState) : MockState := set_deal tc (phase_cell c t ph) (phase_sub t ph) st.

Lemma borrow_holds action st ph : holds st ph →
  borrow_deal action tc st = Ok (phase_cell c t ph, phase_sub t ph).
Proof. intros [H1 H2]. unfold borrow_deal. by rewrite H1, H2. Qed.

Lemma put_same st ph : holds st ph → put ph st = st.
Proof. intros [H1 H2]. unfold put, set_deal. destruct st; cbn in *. by rewrite !insert_id. Qed.

Lemma put_stream st ph cell : holds st ph → cell = phase_cell c t ph →
  set_deal tc cell (phase_sub t ph) st = put ph st.
Proof. by intros _ ->. Qed.

Section Calls.
Context (st : MockState) (ph : Phase) (now0 : Z) (Hst : holds st ph) (Hok : phase_ok c t now0 ph).

Lemma accept_probe_refines now :
  now0 ≤ now → now < 2 ^ 63 →
  result_ok (accept_probe c now tc st) = option_map (λ ph', put ph' st) (phase_accept_probe c now ph).
Proof.
  intros Hn Hn'. unfold accept_probe. rewrite (borrow_holds _ _ _ Hst). cbn [rbind].
  destruct ph as [opened period| | | |]; try done; cbn in Hok.
  cbn [phase_cell phase_sub probe_cell live_cell sc_closed sc_disputed sc_probe_accepted sc_probe_time sc_machine orb].
  pose proof (fit_probe _ _ Hfit) as Hw. rewrite checked_add_fits by (unfold umax; lia). cbn [ok_or rbind].
  unfold phase_accept_probe. destruct (Z.ltb_spec now (opened + as_secs (probe_window c))),
    (Z.leb_spec (opened + as_secs (probe_window c)) now); try lia; [done|].
  cbn [machine_call on_probe_accepted sm_state with_state rbind].
  pose proof (funded_bounds c t Ht). pose proof (probe_money c t Hc Ht Hfit).
  assert (0 ≤ 2 * TICK_SIZE ≤ tm_funded t) as Htwo by (unfold TICK_SIZE in *; lia).
  assert (0 ≤ TICK_SIZE ≤ tm_funded t) as Hone by (unfold TICK_SIZE in *; lia).
  destruct (paid_facts c t Hc Ht _ Hone) as (? & ? & ? & ?). destruct (paid_facts c t Hc Ht _ Htwo) as (? & ? & ? & ?).
  assert (pay (tm_price t) TICK_SIZE = tm_price t) as Hp1 by apply pay_tick.
  assert (fee_of c (tm_price t) TICK_SIZE ≤ tm_deposit c t - tm_price t) by lia.
  unfold set_sc_machine, set_sc_probe_accepted. cbn [sc_machine sm_price].
  rewrite (tpf_funded c t tc Hc Ht) by lia. cbn [rbind]. cells. fits.
  unfold accept_probe_money. cells. fits. cells. fits. cells. cbn [result_ok option_map]. f_equal.
  unfold put. f_equal. unfold phase_cell, open_cell. cells. cbn [bk_paid].
  change (ticks_of TICK_SIZE) with 1. f_equal; lia.
Qed.

(** The cell of an open deal, as the helper lemmas of DealSpec name it. *)
Definition streaming (tf tq : Z) : StreamState := Streaming (ticks_of tf) (ticks_of tq).

Lemma promoted_due tf tq last now : last + as_secs (claim_promote_window c) ≤ now → promoted c tf tq last now = tq.
Proof. intros. unfold promoted. destruct (Z.geb_spec now (last + as_secs (claim_promote_window c))); [done|lia]. Qed.

Lemma promote_machine_open tf tq opened last b :
  promote_machine (at_books c t (streaming tf tq) opened tq tq last false 0 b)
  = Ok (phase_cell c t (PhOpen opened 0 last tq tq b)).
Proof.
  unfold promote_machine. cbn [sc_tokens_final sc_tokens_pending at_books accepted_cell live_cell].
  rewrite Z.eqb_refl. cbn [sc_machine at_books accepted_cell live_cell]. unfold streaming. by rewrite on_promote_streaming.
Qed.

Lemma has_due_open opened tp tf tq last now :
  0 ≤ last ≤ now → now < 2 ^ 63 →
  has_due_claim tc (open_cell c t opened tp tf tq last) now c
  = Ok ((tf <? tq) && (last + as_secs (claim_promote_window c) <=? now)).
Proof.
  intros Hl Hn. unfold has_due_claim. cbn [sc_tokens_pending sc_tokens_final sc_last_claim_time open_cell accepted_cell live_cell].
  rewrite Z.gtb_ltb. destruct (tf <? tq); [|done].
  rewrite deadline_reached by (try done; apply Hfit). by rewrite Z.geb_leb.
Qed.

(** The close of an open deal with its trusted tokens credited first. *)
Lemma close_trusted opened tq last period b :
  books_ok t tq tq b → bk_paid b ≤ tq →
  (let? '(cell, subscription) := credit_tokens_through tc
      (phase_cell c t (PhOpen opened period last tq tq b)) (sub_at t period b) tq c in
   let? delivered := delivered_ticks tc cell in
   let? '(cell, _refund) := close_mock_clean tc cell delivered c in
   Ok (set_deal tc cell subscription st))
  = Ok (put (close_phase c t opened period last tq tq (pay_trusted tq b) false) st).
Proof.
  intros Hb Hle. pose proof (books_paid c t Ht _ _ _ Hb) as (? & Htf & _).
  assert (0 ≤ tq ≤ tm_funded t) as Hq by (unfold TICK_SIZE in *; lia).
  eapply bind_step; [apply (credit_through c t tc Hc Ht); lia|]. cbn iota.
  eapply bind_step; [by apply (delivered_open c t tc Ht)|].
  eapply bind_step; [by apply (close_clean c t tc Hc Ht Hfit)|]. cbn iota. f_equal.
  assert (pay_trusted tq b = mkBooks (bk_week b) tq (bk_base b)) as -> by (unfold pay_trusted; f_equal; lia). done.
Qed.

Lemma finalize_refines now :
  now0 ≤ now → now < 2 ^ 63 →
  result_ok (finalize c now tc st) = option_map (λ ph', put ph' st) (phase_finalize c t now ph).
Proof.
  intros Hn Hn'. unfold finalize. rewrite (borrow_holds _ _ _ Hst). cbn [rbind].
  destruct ph as [|opened period last tf tq b| | |]; try done.
  cbn in Hok. destruct Hok as (Ho & Hl & Hb). pose proof (books_paid c t Ht _ _ _ Hb) as (? & Htf & Htq).
  cbn [phase_cell phase_sub phase_finalize].
  change (open_accepted (open_cell c t opened (bk_paid b) tf tq last)) with true. cbn [negb].
  rewrite has_due_open by (try done; lia). cbn [rbind].
  destruct ((tf <? tq) && (last + as_secs (claim_promote_window c) <=? now)) eqn:Hdue; [|done].
  apply Bool.andb_true_iff in Hdue as [Hlt%Z.ltb_lt Hdue%Z.leb_le]. cbn [negb].
  assert (books_ok t tq tq b) as Hb' by (destruct Hb as [Hcl ? ? ? ?]; split; try done; unfold MAX_CLAIM_DELTA, TICK_SIZE in *; lia).
  destruct (negb (tm_sub t) && (tm_funded t <=? tq)) eqn:Hend; succeed_as.
  all: eapply bind_step; [apply (promote_due_open c t tc); [lia|lia|done|apply Hfit]|]; rewrite promoted_due by done.
  all: eapply bind_step; [exact (promote_machine_open tf tq opened last b)|].
  all: unfold sub_at at 1; rewrite is_subscription_sub_of, Z.geb_leb.
  all: cbn [sc_tokens_final phase_cell open_cell accepted_cell live_cell sub_at sub_of funded_tokens]; rewrite Hend.
  2: done.
  apply close_trusted; [done|]. destruct Hb as [Hcl _ _ [(_ & -> & _)|(Hs & _)] _]; [lia|]. by rewrite Hs in Hend.
Qed.

(** ** Claims *)

Lemma claim_volume opened tf tq last period b n :
  books_ok t tf tq b → 0 ≤ n →
  result_ok (check_claim_volume tc (at_books c t (streaming tf tq) opened tf tq last false 0 b) (sub_at t period b) n)
  = if (n <=? tm_funded t) && (n <=? week_cap t tq b) then Some () else None.
Proof.
  intros Hb Hn. pose proof (accepted_paid c t Ht _ _ _ _ _ Hb) as (? & ? & ? & ?).
  pose proof (funded_bounds c t Ht). pose proof (per_week_bounds c t Ht) as [Hpw _].
  assert (tm_ticks t * TICK_SIZE = tm_funded t) as Hfund by done.
  unfold check_claim_volume, week_cap. cbn [sc_max_ticks at_books accepted_cell live_cell].
  rewrite checked_mul_fits by (rewrite Hfund; unfold umax, TICK_SIZE in *; lia). rewrite Hfund. cbn [ok_or rbind].
  rewrite Z.gtb_ltb. destruct (Z.ltb_spec (tm_funded t) n), (Z.leb_spec n (tm_funded t)); try lia; [done|]. cbn [andb].
  unfold sub_at at 1. rewrite is_subscription_sub_of. destruct (tm_sub t) eqn:Hs.
  2:{ by rewrite (proj2 (Z.leb_le n (tm_funded t))) by lia. }
  unfold claim_cap. cbn [sub_at sub_of week_index sub_weeks week_base_tokens tokens_per_week funded_tokens
    sc_tokens_pending at_books accepted_cell live_cell].
  unfold tm_weeks. rewrite Hs. rewrite Z.geb_leb.
  rewrite checked_add_fits by (unfold umax, TICK_SIZE in *; lia).
  destruct (SUBSCRIPTION_WEEKS <=? bk_week b); cbn [ok_or rbind].
  - rewrite Z.gtb_ltb. destruct (Z.ltb_spec tq n), (Z.leb_spec n tq); try lia; done.
  - rewrite Z.gtb_ltb. destruct (Z.ltb_spec (Z.min (bk_base b + tm_per_week t) (tm_funded t)) n),
      (Z.leb_spec n (Z.min (bk_base b + tm_per_week t) (tm_funded t))); try lia; done.
Qed.

Lemma claim_rate s opened tp tf tq last claim_time n :
  0 ≤ tq < n → n ≤ tm_funded t → 0 ≤ last → claim_time < 2 ^ 63 →
  result_ok (check_claim_rate c claim_time tc (accepted_cell c t s opened tp tf tq last false 0) n)
  = if claim_paced c last claim_time (n - tq) then Some () else None.
Proof.
  intros Hn Hf Hl Hct. pose proof (funded_bounds c t Ht). destruct Hc as (_ & _ & [Hf0 Hf1] & _).
  unfold check_claim_rate, claim_paced. cbn [sc_last_claim_time sc_tokens_pending accepted_cell live_cell].
  destruct (Z.leb_spec last claim_time).
  2:{ unfold checked_sub. by destruct (Z.leb_spec last claim_time); [lia|]. }
  rewrite checked_sub_fits by lia. cbn [ok_or rbind andb].
  destruct (Z.ltb_spec (claim_time - last) (as_secs (min_claim_interval c))),
    (Z.leb_spec (as_secs (min_claim_interval c)) (claim_time - last)); try lia; [done|]. cbn [andb].
  rewrite usub_exact by (unfold umax, TICK_SIZE in *; lia). rewrite Z.gtb_ltb.
  destruct (Z.ltb_spec MAX_CLAIM_DELTA (n - tq)), (Z.leb_spec (n - tq) MAX_CLAIM_DELTA); try lia; [done|]. cbn [andb].
  unfold MAX_CLAIM_DELTA, TICK_SIZE, umax in *.
  rewrite checked_mul_fits by (unfold umax; nia). rewrite checked_mul_fits by (unfold umax; lia). cbn [ok_or rbind].
  rewrite Z.gtb_ltb. destruct (Z.ltb_spec ((claim_time - last) * 1000000) ((n - tq) * as_secs (min_seconds_per_tick c))),
    (Z.leb_spec ((n - tq) * as_secs (min_seconds_per_tick c)) ((claim_time - last) * 1000000)); try lia; done.
Qed.

Lemma claim_lands opened tp tf tq last claim_time n :
  0 ≤ tf ≤ tq → tq < n ≤ tm_funded t → 0 ≤ last ≤ claim_time → claim_time < 2 ^ 63 →
  result_ok (land_claim c claim_time tc (open_cell c t opened tp tf tq last) n)
  = if promoted c tf tq last claim_time =? tq then Some (open_cell c t opened tp tq n claim_time) else None.
Proof.
  intros Htf Hn Hl Hct. unfold land_claim, open_cell.
  rewrite promote_due_open by (try done; try lia; apply Hfit). cbn [rbind].
  cbn [sc_tokens_pending sc_tokens_final accepted_cell live_cell]. rewrite Z.eqb_sym.
  destruct (Z.eqb_spec (promoted c tf tq last claim_time) tq) as [->|]; [|done]. cbn [negb].
  pose proof (funded_bounds c t Ht). destruct (ok_ticks _ _ Ht).
  assert (div_ceil n TICK_SIZE ≤ tm_ticks t).
  { rewrite <- (div_ceil_mul (tm_ticks t) TICK_SIZE) by done. apply div_ceil_mono; [done|]. apply Hn. }
  rewrite try_into_fits by lia. cbn [ok_or rbind].
  assert (ticks_of tq ≤ div_ceil n TICK_SIZE) by (apply div_ceil_mono; [done|lia]).
  unfold on_claim, check_invariant, with_state.
  cbn [sc_machine sm_state sm_price sm_seller_bond accepted_cell live_cell].
  rewrite (proj2 (Z.ltb_ge _ _)) by lia. done.
Qed.

Lemma claim_tokens_refines now claim_time note n :
  require_mock_seller_actor st tc note "claim_tokens" = Ok () →
  now0 ≤ now → now ≤ claim_time → claim_time < 2 ^ 63 → 0 ≤ n →
  result_ok (claim_tokens c now claim_time tc note n st)
  = option_map (λ ph', put ph' st) (phase_claim_tokens c t now claim_time n ph).
Proof.
  intros Hactor Hn Hn' Hct Hn0. unfold claim_tokens. rewrite Hactor. cbn [rbind].
  rewrite (borrow_holds _ _ _ Hst). cbn [rbind].
  destruct ph as [|opened period last tf tq b| | |]; try done.
  cbn in Hok. destruct Hok as (Ho & Hl & Hb). cbn [phase_claim_tokens phase_sub].
  change (open_accepted (phase_cell c t (PhOpen opened period last tf tq b))) with true.
  change (machine_on_probe (sc_machine (phase_cell c t (PhOpen opened period last tf tq b)))) with false.
  change (sc_tokens_pending (phase_cell c t (PhOpen opened period last tf tq b))) with tq. cbn [negb].
  pose proof (books_at_ok c t Ht period now false tf tq b Hb ltac:(lia)) as Hb'.
  pose proof (books_paid c t Ht _ _ _ Hb') as (? & Htf & Htq). set (b' := books_at t period now false tq b) in *.
  destruct (Z.eqb_spec n tq) as [->|Hne].
  { rewrite Z.ltb_irrefl. cbn [result_ok option_map]. by rewrite (put_same _ _ Hst). }
  destruct (Z.ltb_spec n tq), (Z.ltb_spec tq n); try lia; [done|]. cbn [andb].
  rewrite result_ok_bind.
  assert ((if is_subscription (sub_at t period b) then
      let? '(cell, subscription, _crossed) := charge_elapsed_subscription_weeks tc
        (phase_cell c t (PhOpen opened period last tf tq b)) (sub_at t period b) now c in Ok (cell, subscription)
    else Ok (phase_cell c t (PhOpen opened period last tf tq b), sub_at t period b))
    = Ok (at_books c t (streaming tf tq) opened tf tq last false 0 b', sub_at t period b')) as ->.
  { unfold sub_at at 1. rewrite is_subscription_sub_of. destruct (tm_sub t) eqn:Hs.
    - eapply bind_step; [apply (charge_elapsed c t tc Hc Ht (streaming tf tq)); [exact Hb|done|lia]|]. done.
    - unfold b', books_at. by rewrite Hs. }
  cbn [result_ok obind]. rewrite !result_ok_bind, claim_volume by (done || lia).
  destruct (Z.leb_spec n (tm_funded t)); cbn [andb obind]; [|done].
  destruct (n <=? week_cap t tq b'); cbn [andb obind]; [|done].
  rewrite ?result_ok_bind. unfold at_books. unfold TICK_SIZE in *. rewrite claim_rate by lia.
  destruct (claim_paced c last claim_time (n - tq)) eqn:Hp; cbn [andb obind]; [|done].
  assert (last ≤ claim_time) by lia.
  rewrite ?result_ok_bind.
  change (accepted_cell c t (streaming tf tq) opened (bk_paid b') tf tq last false 0)
    with (open_cell c t opened (bk_paid b') tf tq last).
  rewrite claim_lands by lia. destruct (promoted c tf tq last claim_time =? tq); done.
Qed.

(** ** The weekly settlement, the stops and the disputes *)

(** A deal that is not open cannot cross a week. *)
Lemma charge_refused now :
  tm_sub t = true → (∀ opened period last tf tq b, ph ≠ PhOpen opened period last tf tq b) →
  result_ok (charge_elapsed_subscription_weeks tc (phase_cell c t ph) (phase_sub t ph) now c) = None.
Proof.
  intros Hs Hno. unfold charge_elapsed_subscription_weeks.
  assert (is_subscription (phase_sub t ph) = true) as -> by (rewrite <- Hs; destruct ph; apply is_subscription_sub_of).
  destruct ph as [|opened period last tf tq b| | |[]]; try done. by destruct (Hno opened period last tf tq b).
Qed.

Lemma settle_week_refines now :
  now0 ≤ now → now < 2 ^ 63 →
  result_ok (settle_week c now tc st) = option_map (λ ph', put ph' st) (phase_settle_week c t now ph).
Proof.
  intros Hn Hn'. unfold settle_week. rewrite (borrow_holds _ _ _ Hst). cbn [rbind].
  assert (is_subscription (phase_sub t ph) = tm_sub t) as -> by (destruct ph; apply is_subscription_sub_of).
  destruct (tm_sub t) eqn:Hs; cbn [negb].
  2:{ by destruct ph; cbn; rewrite ?Hs. }
  pose proof (charge_refused now Hs) as Hcr. destruct ph as [|opened period last tf tq b| | |].
  1,3,4,5: by rewrite result_ok_bind, Hcr.
  cbn in Hok. destruct Hok as (Ho & Hl & Hb). cbn [phase_settle_week]. rewrite Hs. cbn [negb phase_sub].
  pose proof (books_at_ok c t Ht period now false tf tq b Hb ltac:(lia)) as Hb'.
  change (phase_cell c t (PhOpen opened period last tf tq b))
    with (at_books c t (streaming tf tq) opened tf tq last false 0 b).
  rewrite (charge_elapsed c t tc Hc Ht) by (done || lia). cbn [rbind].
  set (b' := books_at t period now false tq b) in *.
  set (crossed := negb (weeks_at t period now false <=? bk_week b)).
  assert (sub_weeks (sub_at t period b') = SUBSCRIPTION_WEEKS) as ->
    by (cbn [sub_at sub_of sub_weeks]; unfold tm_weeks; by rewrite Hs).
  change (week_index (sub_at t period b')) with (bk_week b').
  destruct (negb crossed && (bk_week b' <? SUBSCRIPTION_WEEKS)); [done|].
  destruct (bk_week b' >=? SUBSCRIPTION_WEEKS); cbn [andb rbind]; [|done].
  cbn [sc_last_claim_time at_books accepted_cell live_cell].
  rewrite deadline_reached by (try done; try lia; apply Hfit). cbn [rbind].
  destruct (now >=? last + as_secs (claim_promote_window c)); [|done]. succeed_as.
  eapply bind_step; [apply (settle_term_spec c t tc Hc Ht Hfit); [exact Hb'|lia|done]|]. done.
Qed.

Lemma stop_refines now now' :
  now0 ≤ now → now ≤ now' → now' < 2 ^ 63 →
  result_ok (stop_mock_stream c now now' tc st)
  = option_map (λ '(ph', s), Some (put ph' st, s)) (phase_stop c t now now' ph).
Proof.
  intros Hn Hn' Hlt. unfold stop_mock_stream. rewrite (borrow_holds _ _ _ Hst). cbn [rbind].
  destruct ph as [opened period|opened period last tf tq b| | |]; try done.
  - cbn [phase_stop]. succeed_as. cbn [phase_cell probe_cell live_cell sc_closed sc_disputed sc_probe_accepted negb].
    cbn [machine_buyer_stop sc_machine sm_state rbind with_state].
    eapply bind_step; [by apply (stop_probe_spec c t tc Hc Ht Hfit)|]. done.
  - cbn in Hok. destruct Hok as (Ho & Hl & Hb). cbn [phase_stop]. succeed_as.
    change (sc_closed (phase_cell c t (PhOpen opened period last tf tq b))) with false.
    change (sc_disputed (phase_cell c t (PhOpen opened period last tf tq b))) with false.
    change (sc_probe_accepted (phase_cell c t (PhOpen opened period last tf tq b))) with true. cbn [negb].
    eapply bind_step; [apply (stop_accepted_spec c t tc Hc Ht Hfit now now' (streaming tf tq) opened tf tq last period b);
      [done|lia|lia|lia|unfold streaming; eauto]|]. done.
Qed.

Lemma seller_stop_refines now now' :
  now0 ≤ now → now ≤ now' → now' < 2 ^ 63 →
  result_ok (seller_stop c now now' tc st)
  = option_map (λ '(ph', s), Some (put ph' st, s)) (phase_seller_stop c t now now' ph).
Proof.
  intros Hn Hn' Hlt. unfold seller_stop. rewrite (borrow_holds _ _ _ Hst). cbn [rbind].
  destruct ph as [opened period|opened period last tf tq b| | |]; try done.
  - cbn [phase_seller_stop]. succeed_as.
    eapply bind_step; [by apply (seller_stop_probe_spec c t tc Hc Ht Hfit)|]. done.
  - cbn in Hok. destruct Hok as (Ho & Hl & Hb). cbn [phase_seller_stop]. succeed_as.
    change (sc_closed (phase_cell c t (PhOpen opened period last tf tq b))) with false.
    change (sc_disputed (phase_cell c t (PhOpen opened period last tf tq b))) with false.
    change (sc_probe_accepted (phase_cell c t (PhOpen opened period last tf tq b))) with true. cbn [negb].
    eapply bind_step; [apply (seller_stop_accepted_spec c t tc Hc Ht Hfit now now' (streaming tf tq) opened tf tq last period b);
      [done|lia|lia|lia|unfold streaming; eauto]|]. done.
Qed.

Lemma dispute_refines now note :
  require_mock_buyer_actor st tc note "dispute" = Ok () →
  option_map fst (result_ok (dispute now tc note st)) = option_map (λ ph', put ph' st) (phase_dispute now ph).
Proof.
  intros Hactor. destruct Hst as [Hstream Hsub].
  unfold dispute. rewrite Hactor. cbn [rbind]. rewrite Hsub, Hstream. cbn [ok_or rbind].
  assert (checked_mul u128 (tm_price t) 2 = Some (tm_price t * 2)) as Hbond.
  { apply checked_mul_fits. destruct (ok_price _ _ Ht). unfold umax in *. lia. }
  assert (sm_price (sc_machine (phase_cell c t ph)) = tm_price t) as -> by (by destruct ph). rewrite Hbond.
  assert (∀ v, set_ms_streams (<[tc := v]> (ms_streams st)) st = set_deal tc v (phase_sub t ph) st) as Hput.
  { intros v. unfold set_deal. destruct st; cbn in *. by rewrite (insert_id ms_deal_subscriptions). }
  destruct ph as [opened period|opened period last tf tq b| | |accepted]; try done.
  - cbn [result_ok option_map fst phase_dispute]. by rewrite Hput.
  - cbn in Hok. destruct Hok as (Ho & Hl & Hb). pose proof (books_paid c t Ht _ _ _ Hb) as (? & Htf & Htq).
    cbn [result_ok option_map fst phase_dispute]. rewrite Hput. f_equal. unfold put. f_equal.
    unfold phase_cell, open_cell, disputed_cell, machine_buyer_dispute, saturating_sub. cells. do 2 f_equal.
    rewrite Z.max_r; [done|]. assert (ticks_of tf ≤ ticks_of tq) by (apply div_ceil_mono; [done|lia]). lia.
Qed.

Lemma resolve_refines timed_out :
  now0 < 2 ^ 63 →
  result_ok (let? '(cell, subscription) := borrow_deal "release_dispute" tc st in
    let? resolved := resolve_mock_dispute tc cell subscription c timed_out in
    Ok (option_map (λ '(cell, subscription, (to_buyer, seller_bond)),
      (set_deal tc cell subscription st, SellerNoShow to_buyer seller_bond)) resolved))
  = option_map (λ '(ph', s), Some (put ph' st, s)) (phase_resolve c t timed_out ph).
Proof.
  intros Hlt. rewrite (borrow_holds _ _ _ Hst). cbn [rbind].
  destruct ph as [| |opened period at_|opened period last tf tq b at_|]; try done; cbn in Hok; cbn [phase_resolve].
  - succeed_as. eapply bind_step; [apply (resolve_probe c t tc Hc Ht Hfit); lia|]. done.
  - destruct Hok as (Ho & Hl & Hat & Hb). succeed_as.
    eapply bind_step; [apply (resolve_accepted c t tc Hc Ht Hfit); [exact Hb|lia|lia|lia]|]. done.
Qed.

Lemma resolve_timeout_refines now :
  now0 < 2 ^ 63 →
  result_ok (resolve_dispute_timeout c now tc st)
  = option_map (λ '(ph', s), Some (put ph' st, s)) (phase_resolve_timeout c t now ph).
Proof.
  intros Hlt. pose proof (resolve_refines true Hlt) as Hres. unfold borrow_deal in Hres.
  destruct Hst as [Hstream Hsub]. rewrite Hstream, Hsub in Hres. cbn [ok_or rbind] in Hres.
  unfold resolve_dispute_timeout, phase_resolve_timeout. rewrite Hstream, Hsub. cbn [ok_or rbind].
  assert (∀ at_, 1 ≤ at_ ≤ now0 → sc_disputed (phase_cell c t ph) = true → sc_dispute_time (phase_cell c t ph) = at_ →
    result_ok
      (if negb (sc_disputed (phase_cell c t ph)) || (sc_dispute_time (phase_cell c t ph) =? 0)
       then Err (Chain f["resolve_dispute_timeout: "; tc; " is not in a timed dispute"])
       else let? deadline := ok_or (checked_add u64 (sc_dispute_time (phase_cell c t ph)) (as_secs (dispute_window c)))
              (Chain f["resolve_dispute_timeout: "; tc; " dispute deadline overflows uint64"]) in
            if now <? deadline then Err (Chain f["resolve_dispute_timeout: "; tc; " dispute window is still open"])
            else let? resolved := resolve_mock_dispute tc (phase_cell c t ph) (phase_sub t ph) c true in
              Ok (option_map (λ '(cell, subscription, (to_buyer, seller_bond)),
                (set_deal tc cell subscription st, SellerNoShow to_buyer seller_bond)) resolved))
    = option_map (λ '(ph', s), Some (put ph' st, s))
        (if at_ + as_secs (dispute_window c) <=? now then phase_resolve c t true ph else None)) as Htimed.
  { intros at_ Hat -> ->. rewrite (proj2 (Z.eqb_neq _ _)) by lia. cbn [negb orb].
    pose proof (fit_dispute _ _ Hfit). rewrite checked_add_fits by (unfold umax; lia). cbn [ok_or rbind].
    destruct (Z.ltb_spec now (at_ + as_secs (dispute_window c))), (Z.leb_spec (at_ + as_secs (dispute_window c)) now);
      [lia|done|exact Hres|lia]. }
  destruct ph; try done; cbn [phase_disputed_at obind]; apply Htimed; cbn in Hok; try done; lia.
Qed.
End Calls.
End Refine.
