(* ===== verification/MockInv.v ===== *)
(** * The invariant of the mock chain's state

    At every contract the state holds one of four things: nothing, a resting ask, a funded
    deal waiting to be opened, or an opened deal in a phase of DealPhase.  This file states
    that as [Inv], shows that a state satisfying it passes the validation of every load, and
    that every operation preserves it. *)
From S2P Require Import Prelude RustText Params Address DealTypes Machine Quote MockData.
From S2P Require Import MockMoney MockBook MockDeal DealSpec DealExits.
From S2P Require Import DealPhase MockRefine.

#[local] Arguments umax : simpl never.

(** ** The four shapes of a contract's entries *)

(** Protocol constants of a deployment: a rebate of at most all fees, windows far from the
    range of the clock. *)
Record consts_ok (c : ProtocolConsts) : Prop := {
  co_wf : consts_wf c;
  co_rebate : rebate_is_fraction c;
  co_promote : as_secs (claim_promote_window c) < 2 ^ 63;
  co_probe : as_secs (probe_window c) < 2 ^ 63;
  co_dispute : as_secs (dispute_window c) < 2 ^ 63;
}.

Lemma canonical_ok : consts_ok ProtocolConsts_canonical.
Proof. split; [apply canonical_wf|by vm_compute..]. Qed.

(** An ask the mock accepts and whose whole money, bonds included, fits a [u128]. *)
Record offer_ok (c : ProtocolConsts) (tc : string) (o : SellOffer) : Prop := {
  of_key : so_token_contract o = tc;
  of_valid : validate_mock_sell_offer o c = Ok ();
  of_price : in_range u64 (so_price_per_tick o);
  of_ticks : in_range u64 (so_max_ticks o);
  of_flags : in_range u8 (so_flags o);
  of_fits : cost c (so_price_per_tick o) (so_max_ticks o * TICK_SIZE) + 4 * so_price_per_tick o ≤ umax u128;
}.
Definition canonical_seller (s : string) : Prop :=
  String.length s = 64%nat ∧ str_all is_lower_hex_digit s = true.

Definition terms_of (o : SellOffer) (k : Z) (buyer : NotePubkey) : Terms := {|
  tm_price := so_price_per_tick o;
  tm_ticks := k;
  tm_flags := Z.land (so_flags o) flags.DEAL_MASK;
  tm_buyer := buyer;
|}.
Definition fill_ok (o : SellOffer) (k : Z) : Prop :=
  MIN_STREAM_BUY_TICKS ≤ k ≤ so_max_ticks o ∧ (has_flag (so_flags o) flags.AON = true → k = so_max_ticks o).
Definition match_of (tc : string) (t : Terms) : Match := {|
  m_token_contract := tc; m_buyer_pubkey := tm_buyer t; m_price_per_tick := tm_price t |}.

(** What the maps hold at one contract. *)
Record slot : Type := mkSlot {
  sl_offer : option SellOffer;
  sl_matched : option SellOffer;
  sl_ticks : option Z;
  sl_sub : option DealSubscription;
  sl_seller : option string;
  sl_match : option Match;
  sl_created : option Z;
  sl_stream : option StreamCell;
}.
Definition slot_at (st : MockState) (tc : string) : slot :=
  mkSlot (ms_offers st !! tc) (ms_matched_offers st !! tc) (ms_matched_ticks st !! tc)
    (ms_deal_subscriptions st !! tc) (ms_offer_sellers st !! tc) (ms_matches st !! tc)
    (ms_match_created_at st !! tc) (ms_streams st !! tc).

Inductive slot_ok (c : ProtocolConsts) (now : Z) (tc : string) : slot → Prop :=
  | SlotIdle seller :
      (∀ s, seller = Some s → canonical_seller s) →
      slot_ok c now tc (mkSlot None None None None seller None None None)
  | SlotResting o s :
      offer_ok c tc o → canonical_seller s →
      slot_ok c now tc (mkSlot (Some o) None None None (Some s) None None None)
  | SlotFunded o s k buyer period created :
      offer_ok c tc o → canonical_seller s → fill_ok o k → 1 ≤ created ≤ now → 0 ≤ period ≤ now →
      slot_ok c now tc (mkSlot None (Some o) (Some k) (Some (sub_at (terms_of o k buyer) period no_books))
        (Some s) (Some (match_of tc (terms_of o k buyer))) (Some created) None)
  | SlotOpened o s k buyer created ph :
      offer_ok c tc o → canonical_seller s → fill_ok o k → 1 ≤ created ≤ now →
      phase_ok c (terms_of o k buyer) now ph →
      slot_ok c now tc (mkSlot None (Some o) (Some k) (Some (phase_sub (terms_of o k buyer) ph))
        (Some s) (Some (match_of tc (terms_of o k buyer))) (Some created)
        (Some (phase_cell c (terms_of o k buyer) ph))).

Definition Inv (c : ProtocolConsts) (now : Z) (st : MockState) : Prop := ∀ tc, slot_ok c now tc (slot_at st tc).

Lemma Inv_default c now : Inv c now MockState_default.
Proof. intros tc. unfold slot_at. cbn. rewrite !lookup_empty. by constructor. Qed.

Lemma slot_ok_mono c now now' tc s : slot_ok c now tc s → now ≤ now' → slot_ok c now' tc s.
Proof.
  intros [] Hle; econstructor; eauto; try lia. by eapply phase_ok_mono.
Qed.

Lemma Inv_mono c now now' st : Inv c now st → now ≤ now' → Inv c now' st.
Proof. intros H Hle tc. by apply slot_ok_mono with now. Qed.

(** ** The terms of a fill *)

Lemma land_mask_sub fl : has_flag (Z.land fl flags.DEAL_MASK) flags.SUBSCRIPTION = has_flag fl flags.SUBSCRIPTION.
Proof. unfold has_flag. by rewrite <- Z.land_assoc. Qed.

Lemma offer_facts c tc o : consts_ok c → offer_ok c tc o →
  0 < so_price_per_tick o ∧ 2 ≤ so_max_ticks o ∧
  (has_flag (so_flags o) flags.SUBSCRIPTION = true →
     has_flag (so_flags o) flags.AON = true ∧ (SUBSCRIPTION_WEEKS | so_max_ticks o)).
Proof.
  intros Hc [_ Hv [Hp0 _] _ _ _]. unfold validate_mock_sell_offer in Hv.
  repeat match type of Hv with (if ?b then Err _ else _) = Ok _ => destruct b eqn:?; [done|] end.
  rewrite Z.ltb_ge, !Bool.orb_false_iff, !Z.eqb_neq in *. unfold MIN_STREAM_BUY_TICKS in *. split_and!; [lia|lia|].
  intros Hs. rewrite Hs in *. cbn [andb] in *. split.
  - by destruct (has_flag (so_flags o) flags.AON).
  - apply (is_multiple_of_spec (so_max_ticks o) SUBSCRIPTION_WEEKS); [done|].
    by destruct (is_multiple_of (so_max_ticks o) SUBSCRIPTION_WEEKS).
Qed.

Lemma fill_terms c tc o k buyer : consts_ok c → offer_ok c tc o → fill_ok o k →
  terms_ok c (terms_of o k buyer) ∧ funds_fit c (terms_of o k buyer).
Proof.
  intros Hc Ho [Hk Haon]. destruct (offer_facts c tc o Hc Ho) as (Hp & Ht & Hs).
  destruct Ho as [_ _ [Hp0 Hp1] [Ht0 Ht1] [Hf0 Hf1] Hfits]. unfold MIN_STREAM_BUY_TICKS in *.
  assert (tm_sub (terms_of o k buyer) = has_flag (so_flags o) flags.SUBSCRIPTION) as Hsub by apply land_mask_sub.
  assert (tm_deposit c (terms_of o k buyer) ≤ cost c (so_price_per_tick o) (so_max_ticks o * TICK_SIZE)) as Hd.
  { apply cost_mono; [apply Hc|done|]. unfold tm_funded, TICK_SIZE. cbn. lia. }
  split; split; cbn; try lia; try apply Hc.
  - by rewrite <- Z.land_assoc.
  - intros Hsb. rewrite Hsub in Hsb. destruct (Hs Hsb) as [Ha Hw]. by rewrite (Haon Ha).
  - unfold tm_total, tm_bond. cbn. destruct (tm_sub _); lia.
Qed.

(** ** Reading a slot *)

(** No deal at the contract. *)
Record no_deal (st : MockState) (tc : string) : Prop := {
  nd_matched : ms_matched_offers st !! tc = None;
  nd_ticks : ms_matched_ticks st !! tc = None;
  nd_sub : ms_deal_subscriptions st !! tc = None;
  nd_match : ms_matches st !! tc = None;
  nd_created : ms_match_created_at st !! tc = None;
  nd_stream : ms_streams st !! tc = None;
}.
(** A deal at the contract: the consumed ask, its seller and the terms of the fill. *)
Record deal_at (c : ProtocolConsts) (now : Z) (st : MockState) (tc : string)
    (o : SellOffer) (s : string) (k : Z) (buyer : NotePubkey) (created : Z) : Prop := {
  da_offer : offer_ok c tc o;
  da_seller : canonical_seller s;
  da_fill : fill_ok o k;
  da_time : 1 ≤ created ≤ now;
  da_offers : ms_offers st !! tc = None;
  da_matched : ms_matched_offers st !! tc = Some o;
  da_ticks : ms_matched_ticks st !! tc = Some k;
  da_sellers : ms_offer_sellers st !! tc = Some s;
  da_match : ms_matches st !! tc = Some (match_of tc (terms_of o k buyer));
  da_created : ms_match_created_at st !! tc = Some created;
}.
Definition unopened_at (st : MockState) (tc : string) (t : Terms) (now period : Z) : Prop :=
  ms_streams st !! tc = None ∧ ms_deal_subscriptions st !! tc = Some (sub_at t period no_books) ∧ 0 ≤ period ≤ now.

Lemma slot_cases c now st tc : slot_ok c now tc (slot_at st tc) →
  (no_deal st tc ∧ (ms_offers st !! tc = None ∧ (∀ s, ms_offer_sellers st !! tc = Some s → canonical_seller s)
     ∨ ∃ o s, ms_offers st !! tc = Some o ∧ ms_offer_sellers st !! tc = Some s ∧ offer_ok c tc o ∧ canonical_seller s)) ∨
  ∃ o s k buyer created, deal_at c now st tc o s k buyer created ∧
    ((∃ period, unopened_at st tc (terms_of o k buyer) now period) ∨
     (∃ ph, holds c (terms_of o k buyer) tc st ph ∧ phase_ok c (terms_of o k buyer) now ph)).
Proof.
  intros Hs. remember (slot_at st tc) as sl eqn:Hsl. unfold slot_at in Hsl.
  destruct Hs; injection Hsl as H1' H2' H3' H4' H5' H6' H7' H8'; symmetry in H1', H2', H3', H4', H5', H6', H7', H8'.
  - left. split; [done|]. left. split; [done|]. intros s Hs. apply H. congruence.
  - left. split; [done|]. right. exists o, s. done.
  - right. exists o, s, k, buyer, created. split; [done|]. left. by exists period.
  - right. exists o, s, k, buyer, created. split; [done|]. right. by exists ph.
Qed.

(** * A state satisfying the invariant passes the validation of a load *)

#[local] Arguments umax : simpl never.

(** Passes the next guard of a chain of early returns. *)
Lemma pass_guard {A} (b : bool) (e k r : A) : b = false → k = r → (if b then e else k) = r.
Proof. by intros -> ->. Qed.
Lemma pass_test {A} (b : bool) (e k r : A) : b = true → k = r → (if b then k else e) = r.
Proof. by intros -> ->. Qed.
Tactic Notation "pass" "by" tactic3(tac) := first [apply pass_guard; [tac|] | apply pass_test; [tac|]].
Ltac boolprop :=
  repeat first
    [ rewrite Bool.orb_false_iff | rewrite Bool.negb_false_iff | rewrite Z.gtb_ltb | rewrite Z.ltb_ge
    | rewrite Z.eqb_neq | rewrite Z.eqb_eq | rewrite Bool.andb_false_iff ].

Section Valid.
Context (c : ProtocolConsts) (t : Terms) (tc : string) (now : Z).
Context (Hc : consts_wf c) (Ht : terms_ok c t).

Lemma valid_subscription period b :
  0 ≤ period ≤ now → closed_books_ok t b →
  validate_persisted_subscription tc (sub_at t period b) now = Ok ().
Proof.
  intros Hp (Hw & Hpaid & Hb & Hord). pose proof (per_week_bounds c t Ht) as [_ Hpw].
  pose proof (funded_bounds c t Ht). pose proof (ok_flags _ _ Ht) as Hfl.
  unfold validate_persisted_subscription. cbn [sub_at sub_of deal_flags sub_weeks week_index tokens_per_week
    funded_tokens tokens_paid period_start week_base_tokens]. cbv zeta.
  fold (tm_sub t).
  assert (negb (tm_weeks t =? 0) = tm_sub t) as -> by (unfold tm_weeks; by destruct (tm_sub t)).
  rewrite Bool.eqb_reflx.
  pass by (rewrite <- Hfl, <- Z.land_assoc; by rewrite Z.land_0_r).
  pass by done. pass by (boolprop; lia). pass by (boolprop; lia). pass by (boolprop; lia). pass by (boolprop; lia).
  unfold tm_per_week, tm_weeks in *. destruct (tm_sub t) eqn:Hs.
  - pass by done. specialize (Hpw eq_refl). unfold umax, TICK_SIZE in *. unfold SUBSCRIPTION_WEEKS in *.
    rewrite checked_mul_fits by (unfold umax; lia). cbn [ok_or rbind]. pass by (boolprop; lia). done.
  - specialize (Hord eq_refl). pass by (boolprop; lia). done.
Qed.

Lemma ticks_fit n field : 0 ≤ n ≤ tm_funded t → raw_ticks tc field n = Ok (ticks_of n).
Proof.
  intros Hn. unfold raw_ticks, ticks_of. rewrite try_into_fits; [done|]. destruct (ok_ticks _ _ Ht).
  etransitivity; [|apply H0]. rewrite <- (div_ceil_mul (tm_ticks t) TICK_SIZE) by done. apply div_ceil_mono; [done|apply Hn].
Qed.

Lemma valid_stream ph : phase_ok c t now ph → now < 2 ^ 63 →
  validate_persisted_stream tc (phase_cell c t ph) now = Ok ().
Proof.
  intros Hok Hn. unfold validate_persisted_stream.
  destruct ph as [opened period|opened period last tf tq b|opened period at_|opened period last tf tq b at_|
    accepted opened period last tf tq b at_ p settlement]; cbn in Hok;
  cbn [phase_cell probe_cell open_cell disputed_probe_cell disputed_cell closed_cell accepted_cell live_cell
    sc_probe_time sc_tokens_final sc_tokens_pending sc_last_claim_time sc_dispute_time sc_disputed sc_closed
    sc_probe_accepted sc_probe_locked sc_machine sm_state negb andb orb].
  - do 3 (pass by (boolprop; lia)). pass by done. pass by (boolprop; lia). do 3 (pass by done).
    pass by (unfold lifecycle_coherent; cbn; by rewrite Z.eqb_refl). done.
  - destruct Hok as (Ho & Hl & Hb). pose proof (books_paid c t Ht _ _ _ Hb) as (? & Htf & Htq).
    unfold TICK_SIZE in *. do 3 (pass by (boolprop; lia)). pass by (boolprop; right; lia). pass by (boolprop; lia).
    do 2 (pass by done). pass by (boolprop; lia). pass by done.
    assert (ticks_of tf ≤ ticks_of tq) by (apply div_ceil_mono; [done|lia]).
    pass by (apply Bool.negb_false_iff; by apply Z.leb_le).
    eapply bind_step; [by apply ticks_fit; cbn; lia|]. eapply bind_step; [by apply ticks_fit; cbn; lia|].
    cbn. by rewrite !Z.eqb_refl.
  - do 3 (pass by (boolprop; lia)). pass by done. do 2 (pass by (boolprop; lia)).
    pass by (boolprop; lia). do 2 (pass by done). done.
  - destruct Hok as (Ho & Hl & Hat & Hb). pose proof (books_paid c t Ht _ _ _ Hb) as (? & Htf & Htq).
    unfold TICK_SIZE in *. do 3 (pass by (boolprop; lia)). pass by (boolprop; right; lia). do 3 (pass by (boolprop; lia)).
    pass by (boolprop; lia). pass by done.
    assert (0 ≤ ticks_of tf ≤ ticks_of tq ∧ ticks_of tq ≤ umax u64) as Htk.
    { split; [split; [apply Z.div_pos; unfold TICK_SIZE; lia|apply div_ceil_mono; [done|lia]]|].
      pose proof (ticks_fit tq EmptyString ltac:(lia)) as Hr. unfold raw_ticks in Hr. by apply ok_or_Ok, try_into_Some in Hr as [_ ?]. }
    assert (checked_add u64 (ticks_of tf) (ticks_of tq - ticks_of tf) = Some (ticks_of tq)) as Hadd.
    { rewrite checked_add_fits by lia. f_equal. lia. }
    pass by (apply Bool.negb_false_iff; apply (bool_decide_eq_true_2 (is_Some (checked_add u64 _ _))); rewrite Hadd; eauto).
    eapply bind_step; [by apply ticks_fit; cbn; lia|]. eapply bind_step; [by apply ticks_fit; cbn; lia|].
    eapply bind_step; [by rewrite Hadd|]. cbn. by rewrite !Z.eqb_refl.
  - destruct Hok as (Ho & Hp & Hl & Hat & Htf & Htq & Hacc & _ & _).
    do 3 (pass by (boolprop; lia)). pass by (boolprop; right; lia). pass by (boolprop; lia).
    pass by (boolprop; lia).
    destruct accepted; cbn [negb andb].
    + unfold TICK_SIZE in *. pass by (boolprop; lia). do 2 (pass by done). done.
    + pass by (boolprop; lia). pass by done. done.
Qed.
End Valid.

(** The binding of a funded deal to its match, offer, seller and stream. *)
Lemma valid_binding c st tc o s k buyer sub cell :
  consts_ok c → offer_ok c tc o → canonical_seller s → fill_ok o k →
  let t := terms_of o k buyer in
  ms_matches st !! tc = Some (match_of tc t) → ms_matched_offers st !! tc = Some o →
  ms_matched_ticks st !! tc = Some k → ms_offer_sellers st !! tc = Some s →
  funded_tokens sub = tm_funded t → deal_flags sub = tm_flags t →
  (∀ cl, cell = Some cl → sc_buyer_pubkey cl = buyer ∧ sm_price (sc_machine cl) = tm_price t ∧
     sc_max_ticks cl = k ∧ sc_tokens_pending cl ≤ tm_funded t) →
  validate_persisted_deal_binding st tc sub cell = Ok ().
Proof.
  cbv zeta. intros Hc Ho [Hlen Hhex] Hfill Hm Hmo Hk Hs Hfun Hfl Hcell.
  destruct (fill_terms c tc o k buyer Hc Ho Hfill) as [Ht _]. destruct Hfill as [Hrange _].
  pose proof (funded_bounds c _ Ht) as Hfb. destruct Ho as [Hkey _ _ _ _ _].
  unfold validate_persisted_deal_binding. rewrite Hm, Hmo, Hs, Hk. cbn [ok_or rbind unwrap_or match_of m_token_contract].
  pass by (by rewrite String.eqb_refl). pass by (by rewrite Hkey, String.eqb_refl).
  pass by (by rewrite Hlen, Hhex). cbn [m_price_per_tick terms_of tm_price]. pass by (by rewrite Z.eqb_refl).
  pass by (unfold MIN_STREAM_BUY_TICKS in *; boolprop; lia).
  rewrite checked_mul_fits by (unfold tm_funded, umax, TICK_SIZE in *; cbn in Hfb; lia). cbn [ok_or rbind].
  pass by (rewrite Hfun; boolprop; done). pass by (rewrite Hfl; boolprop; done).
  destruct cell as [cl|]; [|done]. destruct (Hcell cl eq_refl) as (Hb & Hp & Hmax & Hpend).
  pass by (rewrite Hb; by rewrite bool_decide_eq_true_2). pass by (rewrite Hp; boolprop; done).
  pass by (rewrite Hmax; boolprop; done). pass by (unfold tm_funded in *; cbn in Hpend; boolprop; lia). done.
Qed.

Lemma phase_cell_binding c t now ph : consts_wf c → terms_ok c t → phase_ok c t now ph →
  sc_buyer_pubkey (phase_cell c t ph) = tm_buyer t ∧ sm_price (sc_machine (phase_cell c t ph)) = tm_price t ∧
  sc_max_ticks (phase_cell c t ph) = tm_ticks t ∧ sc_tokens_pending (phase_cell c t ph) ≤ tm_funded t ∧
  sc_schema_version (phase_cell c t ph) = STREAM_CELL_SCHEMA_VERSION.
Proof.
  intros Hc Ht Hok. pose proof (funded_bounds c t Ht) as Hf. unfold TICK_SIZE in Hf.
  destruct ph; cbn in *; split_and!; try done; try lia;
    repeat match goal with H : _ ∧ _ |- _ => destruct H end; try lia;
    match goal with H : books_ok _ _ _ _ |- _ => destruct (books_paid c t Ht _ _ _ H) as (_ & _ & ?); lia end.
Qed.

Lemma phase_sub_fields t ph :
  funded_tokens (phase_sub t ph) = tm_funded t ∧ deal_flags (phase_sub t ph) = tm_flags t.
Proof. by destruct ph. Qed.

Lemma phase_sub_valid c t tc now ph : consts_wf c → terms_ok c t → phase_ok c t now ph →
  validate_persisted_subscription tc (phase_sub t ph) now = Ok ().
Proof.
  intros Hc Ht Hok. destruct ph; cbn [phase_sub]; cbn in Hok;
    apply (valid_subscription c t tc now Ht); try lia; try by apply (no_books_ok c).
  - destruct Hok as (_ & _ & Hb). by apply (open_closed_books c t Ht _ _ _ Hb).
  - destruct Hok as (_ & _ & _ & Hb). by apply (open_closed_books c t Ht _ _ _ Hb).
  - by destruct Hok as (_ & _ & _ & _ & _ & _ & _ & Hb & _).
Qed.

(** ** The whole state *)

Lemma Forall_map_to_list {A} (m : gmap string A) (Q : string * A → Prop) :
  (∀ k v, m !! k = Some v → Q (k, v)) → Forall Q (map_to_list m).
Proof. intros H. apply Forall_forall. intros [k v] Hin. apply H. by apply elem_of_map_to_list. Qed.

Lemma Forall_map_keys {A} (m : gmap string A) (Q : string → Prop) :
  (∀ k v, m !! k = Some v → Q k) → Forall Q (map fst (map_to_list m)).
Proof. intros H. apply Forall_map, Forall_map_to_list. intros k v. apply H. Qed.

Section State.
Context (c : ProtocolConsts) (now : Z) (st : MockState).
Context (Hc : consts_ok c) (Hn : now < 2 ^ 63) (HI : Inv c now st).

(** Every entry of a deal map belongs to a deal. *)
Lemma deal_of tc :
  ms_deal_subscriptions st !! tc = None ∧ ms_matches st !! tc = None ∧ ms_match_created_at st !! tc = None ∧
    ms_streams st !! tc = None ∨
  ∃ o s k buyer created, deal_at c now st tc o s k buyer created ∧
    ((∃ period, unopened_at st tc (terms_of o k buyer) now period) ∨
     (∃ ph, holds c (terms_of o k buyer) tc st ph ∧ phase_ok c (terms_of o k buyer) now ph)).
Proof. destruct (slot_cases _ _ _ _ (HI tc)) as [[[] _]|H]; [by left|by right]. Qed.

Lemma valid_matches tc m : ms_matches st !! tc = Some m → validate_match st now tc = Ok ().
Proof.
  intros Hm. destruct (deal_of tc) as [?|(o & s & k & buyer & created & Hd & Hphase)]; [naive_solver|].
  unfold validate_match, mock_funded_time. rewrite (da_created _ _ _ _ _ _ _ _ _ Hd).
  rewrite bool_decide_eq_true_2.
  2:{ destruct Hphase as [(? & _ & -> & _)|(? & [_ ->] & _)]; eauto. }
  pose proof (da_time _ _ _ _ _ _ _ _ _ Hd). cbn [negb ok_or rbind].
  destruct (Z.ltb_spec created 0); [lia|]. cbn [rbind]. by pass by (boolprop; lia).
Qed.

Lemma valid_created tc t0 : ms_match_created_at st !! tc = Some t0 → is_Some (ms_matches st !! tc).
Proof.
  intros Hm. destruct (deal_of tc) as [?|(o & s & k & buyer & created & Hd & _)]; [naive_solver|].
  rewrite (da_match _ _ _ _ _ _ _ _ _ Hd). eauto.
Qed.

Lemma valid_subs tc sub : ms_deal_subscriptions st !! tc = Some sub →
  validate_persisted_subscription tc sub now = Ok () ∧
  validate_persisted_deal_binding st tc sub (ms_streams st !! tc) = Ok ().
Proof.
  intros Hm. destruct (deal_of tc) as [?|(o & s & k & buyer & created & Hd & Hphase)]; [naive_solver|].
  destruct Hd as [Ho Hs Hf _ _ Hmo Hk Hse Hma _]. destruct (fill_terms c tc o k buyer Hc Ho Hf) as [Ht _].
  destruct Hphase as [(period & Hstr & Hsub & Hper)|(ph & [Hstr Hsub] & Hph)]; rewrite Hm in Hsub; injection Hsub as ->;
    (split; [|eapply valid_binding with (s := s); eauto]).
  - apply (valid_subscription c _ tc now Ht); [done|by apply (no_books_ok c)].
  - rewrite Hstr. done.
  - apply (phase_sub_valid c _ tc now ph); [apply Hc|done..].
  - apply phase_sub_fields.
  - apply phase_sub_fields.
  - rewrite Hstr. intros cl [= <-].
    destruct (phase_cell_binding c _ now ph (co_wf _ Hc) Ht Hph) as (? & ? & ? & ? & ?). done.
Qed.

Lemma valid_streams tc cell : ms_streams st !! tc = Some cell → validate_stream st now (tc, cell) = Ok ().
Proof.
  intros Hm. destruct (deal_of tc) as [?|(o & s & k & buyer & created & Hd & Hphase)]; [naive_solver|].
  destruct Hd as [Ho Hs Hf _ _ Hmo Hk Hse Hma _]. destruct (fill_terms c tc o k buyer Hc Ho Hf) as [Ht _].
  destruct Hphase as [(period & Hstr & _)|(ph & [Hstr Hsub] & Hph)]; rewrite Hm in Hstr; [done|]. injection Hstr as ->.
  destruct (phase_cell_binding c _ now ph (co_wf _ Hc) Ht Hph) as (_ & _ & _ & _ & Hsch).
  unfold validate_stream. pass by (by rewrite Hsch). pass by (by rewrite Hsub, bool_decide_eq_true_2 by eauto).
  apply (valid_stream c _ tc now Ht); done.
Qed.

(** The invariant implies the validation, so a stored state can always be loaded again. *)
Lemma Inv_valid : validate_persisted_state st now = Ok ().
Proof.
  unfold validate_persisted_state.
  rewrite (proj2 (for_each_Ok _ _)) by (apply Forall_map_keys; eauto using valid_matches). cbn [rbind].
  rewrite (proj2 (for_each_Ok _ _)); cbn [rbind].
  2:{ apply Forall_map_keys. intros tc t0 H. rewrite bool_decide_eq_true_2; [done|]. by eapply valid_created. }
  rewrite (proj2 (for_each_Ok _ _)); cbn [rbind].
  2:{ apply Forall_map_to_list. intros tc sub H. destruct (valid_subs tc sub H) as [-> ->]. done. }
  apply for_each_Ok. apply Forall_map_to_list. exact valid_streams.
Qed.
End State.
