(* ===== verification/MockRun.v ===== *)
(** * Every operation of the mock chain preserves the invariant

    [mock_step] runs one operation on the state; [Reach] is the set of states reachable from
    the default one, under a clock that never goes back.  The theorems of this file hold for
    every sequence of operations.  The code stores the state after an operation and loads it
    before the next; that gives the same state as long as the file gives the names of the
    contracts back (MockProps); for other names [Reach] composes the operations in memory.

    The second part executes scripts of operations: the theorems about reachable states are applied to
    the states that the scripts reach. *)
From S2P Require Import Prelude RustText Params Address DealTypes Machine Quote.
From S2P Require Import MockData MockMoney MockBook MockDeal DealSpec.
From S2P Require Import DealExits DealPhase MockRefine MockInv.
From Stdlib Require Import Strings.Byte.

#[local] Arguments umax : simpl never.

Inductive MockOp : Type :=
  | DoPostOffer (offer : SellOffer) (note : NotePubkey)
  | DoExpireSell (tc : string) (order_id : Z)
  | DoCancelSell (tc : string) (order_id : Z)
  | DoPlaceBuy (tc : string) (note : NotePubkey) (ticks : option Z)
  | DoPlaceSubscription (book : string) (note : NotePubkey) (price ticks escrow fl deadline : Z)
  | DoReadSubscription (order_id : Z)
  | DoCancelSubscription (book : string) (order_id : Z) (note : NotePubkey)
  | DoCleanup (tc : string)
  | DoOpen (tc : string) (note : NotePubkey)
  | DoAcceptProbe (tc : string)
  | DoClaim (tc : string) (note : NotePubkey) (cumulative : Z)
  | DoFinalize (tc : string)
  | DoSettleWeek (tc : string)
  | DoStop (tc : string) (note : NotePubkey)
  | DoStopByAddr (tc addr : string)
  | DoSellerStop (tc : string)
  | DoDispute (tc : string) (note : NotePubkey)
  | DoRelease (tc : string)
  | DoResolveTimeout (tc : string).

(** A handler that may panic: the state it stores, if any. *)
Definition stored {A} (r : Result ChainError (option (MockState * A))) : option MockState :=
  let* stopped := result_ok r in option_map fst stopped.

Section Run.
Context (c : ProtocolConsts) (params : DobParams) (sha256 : string → list Byte.byte).

(** The state after one operation, the clock reading [now] and then [now'] during it;
    [None] when the operation fails, which leaves the stored state as it was. *)
Definition mock_step (op : MockOp) (now now' : Z) (st : MockState) : option MockState :=
  match op with
  | DoPostOffer offer note => result_ok (post_offer c now offer note st)
  | DoExpireSell tc id => Some (expire_resting_sell_order sha256 now tc id st)
  | DoCancelSell tc id => result_ok (cancel_resting_sell_order sha256 tc id st)
  | DoPlaceBuy tc note ticks => result_ok (place_buy_ticks_inner now now' tc note ticks st)
  | DoPlaceSubscription book note price ticks escrow fl deadline =>
      option_map fst (result_ok (place_subscription_order now book note price ticks escrow fl deadline st))
  | DoReadSubscription id => Some (swept_state now id st)
  | DoCancelSubscription book id note => Some (cancel_subscription_order now book id note st).1
  | DoCleanup tc => option_map fst (result_ok (cleanup_unopened c now tc st))
  | DoOpen tc note => result_ok (open_stream_state c params now tc note st)
  | DoAcceptProbe tc => result_ok (accept_probe c now tc st)
  | DoClaim tc note n => result_ok (claim_tokens c now now' tc note n st)
  | DoFinalize tc => result_ok (finalize c now tc st)
  | DoSettleWeek tc => result_ok (settle_week c now tc st)
  | DoStop tc note => stored (stop c now now' tc note st)
  | DoStopByAddr tc addr => stored (stop_by_buyer_note_addr c now now' tc addr st)
  | DoSellerStop tc => stored (seller_stop c now now' tc st)
  | DoDispute tc note => option_map fst (result_ok (dispute now tc note st))
  | DoRelease tc => stored (release_dispute c tc st)
  | DoResolveTimeout tc => stored (resolve_dispute_timeout c now tc st)
  end.

(** Arguments as their types allow them, and asks whose money fits the counters. *)
Definition op_ok (op : MockOp) : Prop :=
  match op with
  | DoPostOffer o note =>
      in_range u64 (so_price_per_tick o) ∧ in_range u64 (so_max_ticks o) ∧ in_range u8 (so_flags o) ∧
      cost c (so_price_per_tick o) (so_max_ticks o * TICK_SIZE) + 4 * so_price_per_tick o ≤ umax u128 ∧
      length (pk_ed note) = 32%nat
  | DoClaim _ _ n => 0 ≤ n
  | _ => True
  end.

Inductive Reach : Z → MockState → Prop :=
  | ReachDefault now : 1 ≤ now → Reach now MockState_default
  | ReachStep now0 now now' op st st' :
      Reach now0 st → now0 ≤ now → now ≤ now' → now' < 2 ^ 63 → op_ok op →
      mock_step op now now' st = Some st' → Reach now' st'
  | ReachWait now0 now st : Reach now0 st → now0 ≤ now → Reach now st.
End Run.

(** ** A change at one contract *)

Lemma Inv_update c now now' tc st st' :
  Inv c now st → now ≤ now' → (∀ tc', tc' ≠ tc → slot_at st' tc' = slot_at st tc') →
  slot_ok c now' tc (slot_at st' tc) → Inv c now' st'.
Proof.
  intros HI Hle Helse Htc tc'. destruct (decide (tc' = tc)) as [->|Hne]; [done|].
  rewrite Helse by done. by apply slot_ok_mono with now.
Qed.

Lemma Inv_same c now now' st st' :
  Inv c now st → now ≤ now' → (∀ tc, slot_at st' tc = slot_at st tc) → Inv c now' st'.
Proof. intros HI Hle He tc. rewrite He. by apply slot_ok_mono with now. Qed.

(** Reads of an updated state. *)
Ltac slots :=
  unfold slot_at; cbn [set_deal set_ms_offers set_ms_matched_offers set_ms_matched_ticks set_ms_deal_subscriptions
    set_ms_offer_sellers set_ms_offer_deadlines set_ms_deal_terms set_ms_expired_generations set_ms_matches
    set_ms_match_created_at set_ms_streams set_ms_subscription_orders set_ms_subscription_order_books
    set_ms_subscription_terminal_orders set_ms_next_subscription_order_id
    ms_offers ms_matched_offers ms_matched_ticks ms_deal_subscriptions ms_offer_sellers ms_matches
    ms_match_created_at ms_streams put];
  rewrite ?lookup_insert_ne, ?lookup_delete_ne, ?lookup_insert_eq, ?lookup_delete_eq by done.

(** An opened deal moved to another phase. *)
Lemma Inv_put c now now' tc st o s k buyer created ph ph' :
  Inv c now st → now ≤ now' → deal_at c now st tc o s k buyer created →
  holds c (terms_of o k buyer) tc st ph → phase_ok c (terms_of o k buyer) now' ph' →
  Inv c now' (put c (terms_of o k buyer) tc ph' st).
Proof.
  intros HI Hle Hd _ Hph. apply Inv_update with now tc st; [done|done|intros tc' Hne; by slots|].
  destruct Hd as [Ho Hs Hf Ht Hoff Hmo Hk Hse Hma Hcr]. slots. rewrite Hoff, Hmo, Hk, Hse, Hma, Hcr.
  constructor; try done. lia.
Qed.

Lemma opened_at c now st tc cell : Inv c now st → ms_streams st !! tc = Some cell →
  ∃ o s k buyer created ph, deal_at c now st tc o s k buyer created ∧
    holds c (terms_of o k buyer) tc st ph ∧ phase_ok c (terms_of o k buyer) now ph.
Proof.
  intros HI Hc. destruct (slot_cases _ _ _ _ (HI tc)) as [[[] _]|(o & s & k & buyer & created & Hd & [(p & [Hn _])|(ph & Hph)])];
    try congruence. by exists o, s, k, buyer, created, ph.
Qed.

(** ** The sell side and the orders *)

Section Ops.
Context (c : ProtocolConsts) (params : DobParams) (sha256 : string → list Byte.byte) (Hc : consts_ok c).

Lemma hex2_canonical b : String.length (hex2 (byte_value b)) = 2%nat ∧ str_all is_lower_hex_digit (hex2 (byte_value b)) = true.
Proof. by destruct b. Qed.

Lemma note_id_canonical note : length (pk_ed note) = 32%nat → canonical_seller (note_id_hex note).
Proof.
  unfold note_id_hex, canonical_seller. intros Hl.
  assert (∀ l, String.length (foldr (λ b s, hex2 (byte_value b) +:+ s) EmptyString l) = (2 * length l)%nat ∧
    str_all is_lower_hex_digit (foldr (λ b s, hex2 (byte_value b) +:+ s) EmptyString l) = true) as H.
  { intros l. induction l as [|b l [IH1 IH2]]; [done|]. destruct (hex2_canonical b) as [H1 H2]. split.
    - change (foldr _ _ (b :: l)) with (hex2 (byte_value b) +:+ foldr (λ b s, hex2 (byte_value b) +:+ s) EmptyString l).
      rewrite length_app_string, H1, IH1. cbn [length]. lia.
    - change (foldr _ _ (b :: l)) with (hex2 (byte_value b) +:+ foldr (λ b s, hex2 (byte_value b) +:+ s) EmptyString l).
      by rewrite str_all_app, H2, IH2. }
  destruct (H (pk_ed note)) as [H1 H2]. rewrite Hl in H1. done.
Qed.

Lemma post_offer_inv now0 now o note st st' :
  Inv c now0 st → now0 ≤ now → op_ok c (DoPostOffer o note) → post_offer c now o note st = Ok st' → Inv c now st'.
Proof.
  intros HI Hle (Hp & Ht & Hf & Hfit & Hed) Hpost. unfold post_offer in Hpost. ok_inv.
  set (tc := so_token_contract o) in *.
  assert (no_deal st tc) as Hnd by (destruct (slot_cases _ _ _ _ (HI tc)) as [[? _]|(? & ? & ? & ? & ? & Hd & _)];
    [done|unfold already_filled in *; rewrite (da_match _ _ _ _ _ _ _ _ _ Hd) in *; done]).
  pose proof (note_id_canonical note Hed) as Hcan. destruct Hnd as [H1 H2 H3 H4 H5 H6].
  assert (or_insert tc (note_id_hex note) (ms_offer_sellers st) !! tc = Some (note_id_hex note)) as Hse.
  { unfold or_insert. destruct (ms_offer_sellers st !! tc) eqn:He; [|by rewrite lookup_insert_eq].
    apply Bool.negb_false_iff, String.eqb_eq in Heqb1. by subst. }
  apply Inv_update with now0 tc st; [done|done| |].
  - intros tc' Hne. slots. f_equal. unfold or_insert. destruct (ms_offer_sellers st !! tc); by rewrite ?lookup_insert_ne.
  - slots. rewrite H1, H2, H3, H4, H5, H6, Hse. constructor; [|done]. by split.
Qed.

(** Removing the ask of a contract leaves it idle. *)
Lemma remove_offer_inv now0 now tc st : Inv c now0 st → now0 ≤ now → is_Some (ms_offers st !! tc) →
  Inv c now (set_ms_offers (delete tc (ms_offers st)) st).
Proof.
  intros HI Hle [o Ho]. apply Inv_update with now0 tc st; [done|done|intros tc' Hne; by slots|].
  destruct (slot_cases _ _ _ _ (HI tc)) as [[[H1 H2 H3 H4 H5 H6] [[? _]|(o' & s & _ & Hs & _ & Hcan)]]|
    (? & ? & ? & ? & ? & Hd & _)]; [congruence| |by rewrite (da_offers _ _ _ _ _ _ _ _ _ Hd) in Ho].
  slots. rewrite H1, H2, H3, H4, H5, H6, Hs. constructor. by intros ? [= <-].
Qed.

Lemma expire_inv now0 now tc id st :
  Inv c now0 st → now0 ≤ now → Inv c now (expire_resting_sell_order sha256 now tc id st).
Proof.
  intros HI Hle. unfold expire_resting_sell_order.
  destruct (bool_decide_reflect (is_Some (ms_offers st !! tc))) as [Ho|]; cbn [negb orb]; [|by apply Inv_mono with now0].
  destruct (negb _); [by apply Inv_mono with now0|]. cbv zeta.
  match goal with |- context [if ?live then st else _] => destruct live end; [by apply Inv_mono with now0|].
  apply Inv_same with now (set_ms_offers (delete tc (ms_offers st)) st); [by apply remove_offer_inv with now0|lia|done].
Qed.

Lemma cancel_sell_inv now0 now tc id st st' :
  Inv c now0 st → now0 ≤ now → cancel_resting_sell_order sha256 tc id st = Ok st' → Inv c now st'.
Proof.
  intros HI Hle Hcan. unfold cancel_resting_sell_order in Hcan. ok_inv.
  apply Bool.orb_false_iff in Heqb as [_ Hb%Bool.negb_false_iff%bool_decide_eq_true_1]. by apply remove_offer_inv with now0.
Qed.

(** The subscription orders live in maps of their own. *)
Lemma remove_order_slots id reason refunded st tc :
  slot_at (remove_subscription_order_from_book id reason refunded st) tc = slot_at st tc.
Proof. unfold remove_subscription_order_from_book. by destruct (ms_subscription_orders st !! id). Qed.

Lemma swept_slots now id st tc : slot_at (swept_state now id st) tc = slot_at st tc.
Proof.
  unfold swept_state. destruct (ms_subscription_orders st !! id); [|done].
  destruct (_ && _); [apply remove_order_slots|done].
Qed.

Lemma cancel_order_slots now book id note st tc :
  slot_at (cancel_subscription_order now book id note st).1 tc = slot_at st tc.
Proof.
  unfold cancel_subscription_order. destruct (owned_subscription_order _ _ _ _); cbn [fst].
  - by rewrite remove_order_slots, swept_slots.
  - apply swept_slots.
Qed.

Lemma place_subscription_slots now book note price ticks escrow fl deadline st st' o tc :
  place_subscription_order now book note price ticks escrow fl deadline st = Ok (st', o) → slot_at st' tc = slot_at st tc.
Proof. unfold place_subscription_order. intros H. ok_inv. by simplify_eq. Qed.

(** ** The buy *)

Lemma deal_shape o k buyer period : consts_ok c → offer_ok c (so_token_contract o) o → fill_ok o k →
  mock_deal_shape o k period = Ok (sub_at (terms_of o k buyer) period no_books).
Proof.
  intros _ Ho Hf. destruct (fill_terms c _ o k buyer Hc Ho Hf) as [Ht _]. pose proof (funded_bounds c _ Ht) as Hfb.
  unfold mock_deal_shape. assert (k * TICK_SIZE = tm_funded (terms_of o k buyer)) as Hk by done.
  rewrite checked_mul_fits by (rewrite Hk; unfold umax, TICK_SIZE in *; lia). rewrite Hk. cbn [ok_or rbind].
  change (has_flag (Z.land (so_flags o) flags.DEAL_MASK) flags.SUBSCRIPTION) with (tm_sub (terms_of o k buyer)).
  unfold sub_at, sub_of, tm_weeks, tm_per_week. destruct (tm_sub (terms_of o k buyer)) eqn:Hs; [|done].
  rewrite (proj2 (is_multiple_of_spec k SUBSCRIPTION_WEEKS ltac:(done))); [done|]. by apply (ok_weeks _ _ Ht).
Qed.

(** The funded but unopened deal of a fill. *)
Lemma place_buy_inv now0 now now' tc note ticks st st' :
  Inv c now0 st → 1 ≤ now0 → now0 ≤ now → now ≤ now' → now' < 2 ^ 63 →
  place_buy_ticks_inner now now' tc note ticks st = Ok st' → Inv c now' st'.
Proof.
  intros HI H1 Hle Hle' Hlt Hbuy. unfold place_buy_ticks_inner in Hbuy. ok_inv.
  destruct (slot_cases _ _ _ _ (HI tc)) as [[Hnd [[? _]|(o & s & Ho & Hs & Hof & Hcan)]]|(? & ? & ? & ? & ? & Hd & _)];
    [congruence| |by rewrite (da_match _ _ _ _ _ _ _ _ _ Hd) in *].
  assert (a = o) as -> by congruence. pose proof (of_key _ _ _ Hof) as Hkey.
  set (k := unwrap_or (so_max_ticks o) ticks) in *.
  assert (fill_ok o k) as Hfill.
  { apply Bool.orb_false_iff in Heqb0 as [Hmin%Z.ltb_ge Hmax]. rewrite Z.gtb_ltb in Hmax. apply Z.ltb_ge in Hmax. split; [lia|].
    intros Ha. rewrite Ha in Heqb1. cbn [andb] in Heqb1. by apply Bool.negb_false_iff, Z.eqb_eq in Heqb1. }
  match goal with H : mock_deal_shape _ _ _ = Ok _ |- _ => rewrite (deal_shape o k note now Hc) in H by (by rewrite ?Hkey) end.
  clear Hkey. ok_inv.
  assert (mock_now_unix now' = now') as Hunix by (unfold mock_now_unix; by rewrite (proj2 (Z.ltb_lt _ _))).
  apply Inv_update with now0 tc st; [done|lia|intros tc' Hne; by slots|].
  slots. rewrite Hs, Hunix, (nd_stream _ _ Hnd).
  apply (SlotFunded c now' tc o s k note now now'); try done; lia.
Qed.

(** A state whose deal at the contract is funded and not opened. *)
Lemma unopened_deal now st tc : Inv c now st → is_Some (ms_matches st !! tc) → ms_streams st !! tc = None →
  ∃ o s k buyer created period, deal_at c now st tc o s k buyer created ∧
    unopened_at st tc (terms_of o k buyer) now period.
Proof.
  intros HI Hm Hs. destruct (slot_cases _ _ _ _ (HI tc)) as [[Hnd _]|(o & s & k & buyer & created & Hd & [(p & Hp)|(ph & [Hh _] & _)])];
    [rewrite (nd_match _ _ Hnd) in Hm; by destruct Hm| |congruence].
  by exists o, s, k, buyer, created, p.
Qed.

Lemma deal_terms_ok now st tc o s k buyer created : deal_at c now st tc o s k buyer created →
  consts_wf c ∧ terms_ok c (terms_of o k buyer) ∧ funds_fit c (terms_of o k buyer).
Proof. intros [Ho _ Hf _ _ _ _ _ _ _]. split; [apply Hc|]. by apply (fill_terms c tc). Qed.

(** What the readers report of it. *)
Lemma unopened_state now st tc o s k buyer created period :
  deal_at c now st tc o s k buyer created → unopened_at st tc (terms_of o k buyer) now period →
  mock_deal_state st tc c = Ok (Some (funded_deal_state (tm_deposit c (terms_of o k buyer)) created)).
Proof.
  intros Hd (Hs & Hsub & Hper). destruct (deal_terms_ok _ _ _ _ _ _ _ _ Hd) as (Hwf & Ht & _).
  unfold mock_deal_state, mock_funded_time. rewrite (da_match _ _ _ _ _ _ _ _ _ Hd), (da_created _ _ _ _ _ _ _ _ _ Hd), Hs, Hsub.
  rewrite bool_decide_eq_true_2 by eauto. cbn [ok_or rbind rmap].
  pose proof (da_time _ _ _ _ _ _ _ _ _ Hd). destruct (Z.ltb_spec created 0); [lia|]. cbn [ok_or rbind rmap].
  pose proof (funded_bounds c _ Ht). unfold TICK_SIZE in *.
  eapply bind_step; [apply (tpf_funded c (terms_of o k buyer) tc Hwf Ht); cbn [sub_at sub_of funded_tokens]; lia|].
  cbn iota. pose proof (ok_deposit _ _ Ht) as Hdep. unfold tm_deposit, cost in Hdep.
  rewrite checked_add_fits by exact Hdep. done.
Qed.

Lemma cleanup_inv now0 now tc st st' x :
  Inv c now0 st → now0 ≤ now → cleanup_unopened c now tc st = Ok (st', x) → Inv c now st'.
Proof.
  intros HI Hle Hcl. unfold cleanup_unopened in Hcl.
  destruct (bool_decide_reflect (is_Some (ms_streams st !! tc))) as [|Hns]; [done|].
  destruct (bool_decide_reflect (is_Some (ms_matches st !! tc))) as [Hm|]; [|done]. cbn [negb] in Hcl.
  apply eq_None_not_Some in Hns.
  destruct (unopened_deal now0 st tc HI Hm Hns) as (o & s & k & buyer & created & period & Hd & Hun).
  ok_inv. simplify_eq. apply Inv_update with now0 tc st; [done|done|intros tc' Hne; by slots|].
  slots. rewrite (da_offers _ _ _ _ _ _ _ _ _ Hd), (da_sellers _ _ _ _ _ _ _ _ _ Hd), Hns.
  constructor. intros ? [= <-]. apply Hd.
Qed.

(** ** Opening *)

Lemma opened_cell_probe t opened : consts_wf c → terms_ok c t →
  opened_cell {| m_token_contract := EmptyString; m_buyer_pubkey := tm_buyer t; m_price_per_tick := tm_price t |}
    (StreamMachine_open (tm_price t) params) (tm_deposit c t - tm_price t) (tm_price t) opened (tm_ticks t) (tm_sub t)
  = probe_cell c t opened.
Proof.
  intros Hwf Ht. destruct (ok_price _ _ Ht). unfold opened_cell, probe_cell, StreamMachine_open, live_cell, tm_bond.
  cbn [m_buyer_pubkey m_price_per_tick]. rewrite !umul_exact by (unfold umax in *; lia).
  f_equal. f_equal. lia.
Qed.

Lemma open_stream_result now0 now tc note st o s k buyer created period :
  deal_at c now0 st tc o s k buyer created → unopened_at st tc (terms_of o k buyer) now0 period →
  require_mock_seller_actor st tc note "open_stream" = Ok () →
  open_stream_state c params now tc note st = Ok (put c (terms_of o k buyer) tc (PhProbe now period) st).
Proof.
  intros Hd Hun Hactor. destruct (deal_terms_ok _ _ _ _ _ _ _ _ Hd) as (Hwf & Ht & Hfit).
  destruct Hun as (Hs & Hsub & Hper). pose proof (probe_money c _ Hwf Ht Hfit) as (? & ? & ? & ? & ?).
  unfold open_stream_state. rewrite Hactor. cbn [rbind].
  rewrite Hs, (da_match _ _ _ _ _ _ _ _ _ Hd), (da_ticks _ _ _ _ _ _ _ _ _ Hd), Hsub. cbn [ok_or rbind or_else unwrap_or].
  pose proof (funded_bounds c _ Ht). unfold TICK_SIZE in *. set (t := terms_of o k buyer) in *.
  eapply bind_step; [apply (tpf_funded c t tc Hwf Ht); cbn [sub_at sub_of funded_tokens]; lia|].
  cbn iota. pose proof (ok_deposit _ _ Ht) as Hdep.
  eapply (bind_step _ _ (tm_deposit c t)); [apply ok_or_Ok, checked_add_Some; split; [done|exact Hdep]|].
  eapply (bind_step _ _ (tm_deposit c t - tm_price t)); [apply ok_or_Ok, checked_sub_Some; split; [done|cbn in *; lia]|].
  assert (is_subscription (sub_at t period no_books) = tm_sub t) as -> by apply is_subscription_sub_of.
  f_equal. unfold put. cbn [phase_cell phase_sub]. rewrite <- opened_cell_probe by done.
  unfold set_deal. destruct st; cbn in *. by rewrite (insert_id ms_deal_subscriptions).
Qed.

Lemma open_inv now0 now tc note st st' :
  Inv c now0 st → 1 ≤ now0 → now0 ≤ now → open_stream_state c params now tc note st = Ok st' → Inv c now st'.
Proof.
  intros HI H1 Hle Hop. assert (ms_streams st !! tc = None ∧ is_Some (ms_matches st !! tc) ∧
    require_mock_seller_actor st tc note "open_stream" = Ok ()) as (Hns & Hm & Hactor).
  { unfold open_stream_state in Hop. destruct (ms_streams st !! tc); ok_inv; eauto. }
  destruct (unopened_deal now0 st tc HI Hm Hns) as (o & s & k & buyer & created & period & Hd & Hun).
  rewrite (open_stream_result now0 now tc note st o s k buyer created period Hd Hun Hactor) in Hop. injection Hop as <-.
  destruct Hun as (_ & _ & Hper). apply Inv_update with now0 tc st; [done|done|intros tc' Hne; by slots|].
  destruct Hd as [Ho Hs Hf Ht Hoff Hmo Hk Hse Hma Hcr]. slots. rewrite Hoff, Hmo, Hk, Hse, Hma, Hcr.
  constructor; try done; cbn; lia.
Qed.

(** ** Operations of an opened deal *)

(** The deal at [tc] made one move, and nothing else in the state changed. *)
Definition deal_moved (now0 now now' : Z) (tc : string) (st st' : MockState) : Prop :=
  ∃ o s k buyer created ph ph', let t := terms_of o k buyer in
    deal_at c now0 st tc o s k buyer created ∧ holds c t tc st ph ∧ phase_ok c t now0 ph ∧
    deal_move c t now now' ph ph' ∧ st' = put c t tc ph' st.

(** The shape of every proof below: the call is its specification on the phase of the deal. *)
Lemma deal_step now0 now now' tc st cell (run : option MockState) (spec : Terms → Phase → option Phase) :
  Inv c now0 st → ms_streams st !! tc = Some cell →
  (∀ o s k buyer created ph, deal_at c now0 st tc o s k buyer created →
     let t := terms_of o k buyer in
     terms_ok c t → funds_fit c t → holds c t tc st ph → phase_ok c t now0 ph →
     run = option_map (λ ph', put c t tc ph' st) (spec t ph) ∧
     (∀ ph', spec t ph = Some ph' → deal_move c t now now' ph ph')) →
  ∀ st', run = Some st' → deal_moved now0 now now' tc st st'.
Proof.
  intros HI Hcell Hspec st' Hrun.
  destruct (opened_at c now0 st tc cell HI Hcell) as (o & s & k & buyer & created & ph & Hd & Hh & Hph).
  destruct (deal_terms_ok _ _ _ _ _ _ _ _ Hd) as (Hwf & Ht & Hfit).
  destruct (Hspec o s k buyer created ph Hd Ht Hfit Hh Hph) as [Heq Hok]. rewrite Hrun in Heq.
  destruct (spec (terms_of o k buyer) ph) as [ph'|] eqn:Hs; [|done]. injection Heq as ->.
  exists o, s, k, buyer, created, ph, ph'. cbv zeta. auto 10.
Qed.

Lemma deal_moved_inv now0 now now' tc st st' :
  Inv c now0 st → now0 ≤ now → now ≤ now' → now' < 2 ^ 63 → deal_moved now0 now now' tc st st' → Inv c now' st'.
Proof.
  intros HI Hle Hle' Hlt (o & s & k & buyer & created & ph & ph' & Hd & Hh & Hph & Hm & ->).
  destruct (deal_terms_ok _ _ _ _ _ _ _ _ Hd) as (Hwf & Ht & Hfit).
  apply (Inv_put c now0 now' tc st o s k buyer created ph ph'); try done; [lia|].
  by apply (deal_move_ok c _ Hwf Ht Hfit now0 now now' ph).
Qed.

(** Every such call fails on a contract without a stream. *)
Lemma borrow_stream {A} action tc st (f : StreamCell * DealSubscription → Result ChainError A) a :
  rbind (borrow_deal action tc st) f = Ok a → ∃ cell, ms_streams st !! tc = Some cell.
Proof. unfold borrow_deal. destruct (ms_streams st !! tc); [eauto|done]. Qed.

Lemma result_ok_Some {E A} (r : Result E A) a : result_ok r = Some a → r = Ok a.
Proof. destruct r; cbn; congruence. Qed.

Lemma accept_probe_moves now0 now now' tc st st' :
  Inv c now0 st → now0 ≤ now → now < 2 ^ 63 → result_ok (accept_probe c now tc st) = Some st' →
  deal_moved now0 now now' tc st st'.
Proof.
  intros HI Hle Hlt Hrun. pose proof (result_ok_Some _ _ Hrun) as [cell Hcell]%borrow_stream. revert Hrun.
  apply (deal_step now0 now now' tc st cell _ (λ _, phase_accept_probe c now)); [done..|].
  intros o s k buyer created ph Hd t Ht Hfit Hh Hph. split; [|by intros; apply MoveAccept].
  by apply (accept_probe_refines c t tc (co_wf _ Hc) Ht Hfit st ph now0 Hh Hph).
Qed.

Lemma claim_moves now0 now now' tc note n st st' :
  Inv c now0 st → now0 ≤ now → now ≤ now' → now' < 2 ^ 63 → 0 ≤ n →
  result_ok (claim_tokens c now now' tc note n st) = Some st' → deal_moved now0 now now' tc st st'.
Proof.
  intros HI Hle Hle' Hlt Hn Hrun. pose proof (result_ok_Some _ _ Hrun) as Hok.
  unfold claim_tokens in Hok. apply bind_Ok in Hok as ([] & Hactor & [cell Hcell]%borrow_stream). revert Hrun.
  apply (deal_step now0 now now' tc st cell _ (λ t, phase_claim_tokens c t now now' n)); [done..|].
  intros o s k buyer created ph Hd t Ht Hfit Hh Hph. split; [|by intros; apply MoveClaim with n].
  by apply (claim_tokens_refines c t tc (co_wf _ Hc) Ht Hfit st ph now0 Hh Hph).
Qed.

Lemma finalize_moves now0 now now' tc st st' :
  Inv c now0 st → now0 ≤ now → now < 2 ^ 63 → result_ok (finalize c now tc st) = Some st' →
  deal_moved now0 now now' tc st st'.
Proof.
  intros HI Hle Hlt Hrun. pose proof (result_ok_Some _ _ Hrun) as [cell Hcell]%borrow_stream. revert Hrun.
  apply (deal_step now0 now now' tc st cell _ (λ t, phase_finalize c t now)); [done..|].
  intros o s k buyer created ph Hd t Ht Hfit Hh Hph. split; [|by intros; apply MoveFinalize].
  by apply (finalize_refines c t tc (co_wf _ Hc) Ht Hfit st ph now0 Hh Hph).
Qed.

Lemma settle_week_moves now0 now now' tc st st' :
  Inv c now0 st → now0 ≤ now → now < 2 ^ 63 → result_ok (settle_week c now tc st) = Some st' →
  deal_moved now0 now now' tc st st'.
Proof.
  intros HI Hle Hlt Hrun. pose proof (result_ok_Some _ _ Hrun) as [cell Hcell]%borrow_stream. revert Hrun.
  apply (deal_step now0 now now' tc st cell _ (λ t, phase_settle_week c t now)); [done..|].
  intros o s k buyer created ph Hd t Ht Hfit Hh Hph. split; [|by intros; apply MoveSettle].
  by apply (settle_week_refines c t tc (co_wf _ Hc) Ht Hfit st ph now0 Hh Hph).
Qed.

(** The state a call that may panic stores, from its refinement. *)
Lemma stored_refines {A} (r : Result ChainError (option (MockState * A))) t tc st (spec : option (Phase * A)) :
  result_ok r = option_map (λ '(ph', s), Some (put c t tc ph' st, s)) spec →
  stored r = option_map (λ ph', put c t tc ph' st) (option_map fst spec).
Proof. unfold stored. intros ->. by destruct spec as [[ph' s]|]. Qed.

Lemma stored_Some {A} (r : Result ChainError (option (MockState * A))) st' :
  stored r = Some st' → ∃ s, r = Ok (Some (st', s)).
Proof. unfold stored. destruct r as [[[st s]|]|]; cbn; try done. intros [= ->]. eauto. Qed.

(** The phase of a specification that also gives a settlement. *)
Lemma fst_Some {A B} (o : option (A * B)) a : option_map fst o = Some a → ∃ b, o = Some (a, b).
Proof. destruct o as [[a' b]|]; cbn; [intros [= ->]; eauto|done]. Qed.

Lemma stop_moves now0 now now' tc st st' :
  Inv c now0 st → now0 ≤ now → now ≤ now' → now' < 2 ^ 63 →
  stored (stop_mock_stream c now now' tc st) = Some st' → deal_moved now0 now now' tc st st'.
Proof.
  intros HI Hle Hle' Hlt Hrun. destruct (stored_Some _ _ Hrun) as [s0 [cell Hcell]%borrow_stream]. revert Hrun.
  apply (deal_step now0 now now' tc st cell _ (λ t ph, option_map fst (phase_stop c t now now' ph))); [done..|].
  intros o s k buyer created ph Hd t Ht Hfit Hh Hph. split; [|by intros ph' [s1 ?]%fst_Some; apply MoveStop with s1].
  apply stored_refines. by apply (stop_refines c t tc (co_wf _ Hc) Ht Hfit st ph now0 Hh Hph).
Qed.

Lemma seller_stop_moves now0 now now' tc st st' :
  Inv c now0 st → now0 ≤ now → now ≤ now' → now' < 2 ^ 63 →
  stored (seller_stop c now now' tc st) = Some st' → deal_moved now0 now now' tc st st'.
Proof.
  intros HI Hle Hle' Hlt Hrun. destruct (stored_Some _ _ Hrun) as [s0 [cell Hcell]%borrow_stream]. revert Hrun.
  apply (deal_step now0 now now' tc st cell _ (λ t ph, option_map fst (phase_seller_stop c t now now' ph))); [done..|].
  intros o s k buyer created ph Hd t Ht Hfit Hh Hph. split; [|by intros ph' [s1 ?]%fst_Some; apply MoveSellerStop with s1].
  apply stored_refines. by apply (seller_stop_refines c t tc (co_wf _ Hc) Ht Hfit st ph now0 Hh Hph).
Qed.

Lemma dispute_moves now0 now now' tc note st st' :
  Inv c now0 st → option_map fst (result_ok (dispute now tc note st)) = Some st' → deal_moved now0 now now' tc st st'.
Proof.
  intros HI Hrun. destruct (fst_Some _ _ Hrun) as [s0 Hok%result_ok_Some].
  assert (∃ cell, ms_streams st !! tc = Some cell) as [cell Hcell].
  { unfold dispute in Hok. ok_inv. eauto. }
  assert (require_mock_buyer_actor st tc note "dispute" = Ok ()) as Hactor.
  { unfold dispute in Hok. by apply bind_Ok in Hok as ([] & ? & _). }
  revert Hrun. apply (deal_step now0 now now' tc st cell _ (λ t, phase_dispute now)); [done..|].
  intros o s k buyer created ph Hd t Ht Hfit Hh Hph. split; [|by intros; apply MoveDispute].
  by apply (dispute_refines c t tc Ht st ph now0 Hh Hph).
Qed.

Lemma release_moves now0 now now' tc st st' :
  Inv c now0 st → now0 < 2 ^ 63 → stored (release_dispute c tc st) = Some st' → deal_moved now0 now now' tc st st'.
Proof.
  intros HI Hlt Hrun. destruct (stored_Some _ _ Hrun) as [s0 [cell Hcell]%borrow_stream]. revert Hrun.
  apply (deal_step now0 now now' tc st cell _ (λ t ph, option_map fst (phase_resolve c t false ph))); [done..|].
  intros o s k buyer created ph Hd t Ht Hfit Hh Hph. split; [|by intros ph' [s1 ?]%fst_Some; apply MoveRelease with s1].
  apply stored_refines. by apply (resolve_refines c t tc (co_wf _ Hc) Ht Hfit st ph now0 Hh Hph).
Qed.

Lemma resolve_timeout_moves now0 now now' tc st st' :
  Inv c now0 st → now0 < 2 ^ 63 → stored (resolve_dispute_timeout c now tc st) = Some st' →
  deal_moved now0 now now' tc st st'.
Proof.
  intros HI Hlt Hrun. destruct (stored_Some _ _ Hrun) as [s0 Hok].
  assert (∃ cell, ms_streams st !! tc = Some cell) as [cell Hcell].
  { unfold resolve_dispute_timeout in Hok. destruct (ms_streams st !! tc); [eauto|done]. }
  revert Hrun.
  apply (deal_step now0 now now' tc st cell _ (λ t ph, option_map fst (phase_resolve_timeout c t now ph))); [done..|].
  intros o s k buyer created ph Hd t Ht Hfit Hh Hph. split; [|by intros ph' [s1 ?]%fst_Some; apply MoveTimeout with s1].
  apply stored_refines. by apply (resolve_timeout_refines c t tc (co_wf _ Hc) Ht Hfit st ph now0 Hh Hph).
Qed.

(** ** All operations *)

(** The contract whose opened deal an operation moves. *)
Definition op_deal (op : MockOp) : option string :=
  match op with
  | DoAcceptProbe tc | DoClaim tc _ _ | DoFinalize tc | DoSettleWeek tc | DoStop tc _ | DoStopByAddr tc _
  | DoSellerStop tc | DoDispute tc _ | DoRelease tc | DoResolveTimeout tc => Some tc
  | _ => None
  end.

Lemma mock_step_moves now0 now now' op tc st st' :
  Inv c now0 st → now0 ≤ now → now ≤ now' → now' < 2 ^ 63 → op_ok c op → op_deal op = Some tc →
  mock_step c params sha256 op now now' st = Some st' → deal_moved now0 now now' tc st st'.
Proof.
  intros HI Hle Hle' Hlt Hop Hdeal Hstep.
  destruct op; cbn [op_deal] in Hdeal; try done; injection Hdeal as ->; cbn [mock_step] in Hstep.
  - apply accept_probe_moves; try done. lia.
  - by apply claim_moves with note cumulative.
  - apply finalize_moves; try done. lia.
  - apply settle_week_moves; try done. lia.
  - unfold stop in Hstep. destruct (require_mock_buyer_actor st tc note "stop") as [[]|]; [|done]. by apply stop_moves.
  - unfold stop_by_buyer_note_addr in Hstep. destruct (require_mock_buyer_note_addr st tc addr "stop") as [[]|]; [|done].
    by apply stop_moves.
  - by apply seller_stop_moves.
  - by apply dispute_moves with note.
  - apply release_moves; try done. lia.
  - apply resolve_timeout_moves; try done. lia.
Qed.

Lemma mock_step_inv now0 now now' op st st' :
  Inv c now0 st → 1 ≤ now0 → now0 ≤ now → now ≤ now' → now' < 2 ^ 63 → op_ok c op →
  mock_step c params sha256 op now now' st = Some st' → Inv c now' st'.
Proof.
  intros HI H1 Hle Hle' Hlt Hop Hstep. destruct (op_deal op) as [tc|] eqn:Hdeal.
  { apply (deal_moved_inv now0 now now' tc st); try done. by apply mock_step_moves with op. }
  assert (∀ st'', Inv c now st'' → Inv c now' st'') as Hlater by (intros; by apply Inv_mono with now).
  destruct op; try done; cbn [mock_step] in Hstep.
  - apply result_ok_Some in Hstep. by apply Hlater, (post_offer_inv now0 now offer note st).
  - injection Hstep as <-. by apply Hlater, expire_inv with now0.
  - apply result_ok_Some in Hstep. by apply Hlater, (cancel_sell_inv now0 now tc order_id st).
  - apply result_ok_Some in Hstep. by apply (place_buy_inv now0 now now' tc note ticks st).
  - destruct (fst_Some _ _ Hstep) as [o Hok%result_ok_Some].
    apply Inv_same with now0 st; [done|lia|]. intros tc. by eapply place_subscription_slots.
  - injection Hstep as <-. apply Inv_same with now0 st; [done|lia|]. intros tc. apply swept_slots.
  - injection Hstep as <-. apply Inv_same with now0 st; [done|lia|]. intros tc. apply cancel_order_slots.
  - destruct (fst_Some _ _ Hstep) as [s Hok%result_ok_Some]. by apply Hlater, (cleanup_inv now0 now tc st st' s).
  - apply result_ok_Some in Hstep. by apply Hlater, (open_inv now0 now tc note st).
Qed.

Lemma Reach_inv now st : Reach c params sha256 now st → Inv c now st ∧ 1 ≤ now.
Proof.
  induction 1 as [now H1|now0 now now' op st st' _ [IH H1] Hle Hle' Hlt Hop Hstep|now0 now st _ [IH H1] Hle].
  - split; [apply Inv_default|done].
  - split; [by apply (mock_step_inv now0 now now' op st)|lia].
  - split; [by apply Inv_mono with now0|lia].
Qed.
End Ops.

(** * Concrete runs of the mock chain

    [mock_run] executes a script of operations; [sample_script] lists the operations of one
    deal from its ask to the phase a witness needs.  The theorems about reachable states are
    applied to the states these scripts reach. *)

(** An operation with the two clock readings of its call. *)
Definition timed_op : Type := MockOp * Z * Z.

Section Script.
Context (c : ProtocolConsts) (params : DobParams) (sha256 : string → list Byte.byte).

Fixpoint mock_run (script : list timed_op) (st : MockState) : option MockState :=
  match script with
  | [] => Some st
  | (op, now, now') :: script =>
      let* st := mock_step c params sha256 op now now' st in mock_run script st
  end.

Fixpoint script_end (now0 : Z) (script : list timed_op) : Z :=
  match script with [] => now0 | (_, _, now') :: script => script_end now' script end.
Fixpoint script_ok (now0 : Z) (script : list timed_op) : Prop :=
  match script with
  | [] => True
  | (op, now, now') :: script => (now0 ≤ now ≤ now' ∧ now' < 2 ^ 63) ∧ op_ok c op ∧ script_ok now' script
  end.

Lemma mock_run_reach now0 script st st' :
  Reach c params sha256 now0 st → script_ok now0 script → mock_run script st = Some st' →
  Reach c params sha256 (script_end now0 script) st'.
Proof.
  revert now0 st. induction script as [|[[op now] now'] script IH]; intros now0 st HR; cbn.
  - by intros _ [= <-].
  - intros ([[? ?] ?] & Hop & Hok) Hrun. destruct (mock_step _ _ _ op now now' st) as [st1|] eqn:Hstep; [|done].
    apply IH with st1; [|done|done]. by apply (ReachStep c params sha256 now0 now now' op st st1).
Qed.
End Script.

(** ** One deal *)

Definition sample_note (n : Byte.byte) : NotePubkey := {| pk_x := []; pk_ed := repeat n 32 |}.
Definition sample_seller : NotePubkey := sample_note x01.
Definition sample_buyer : NotePubkey := sample_note x02.
Definition sample_offer (fl : Z) : SellOffer := {|
  so_token_contract := "tc"; so_price_per_tick := PRICE_STEP; so_max_ticks := 8; so_flags := fl |}.
Definition ordinary : Z := 0.
Definition subscription : Z := Z.lor flags.AON flags.SUBSCRIPTION.

(** SHA-256 is not used by these scripts: any function does. *)
Definition sample_sha256 (_ : string) : list Byte.byte := repeat x07 32.

(** The operations up to the accepted probe, at second 1000 and, the probe over, at 10000. *)
Definition posted (fl : Z) : list timed_op := [(DoPostOffer (sample_offer fl) sample_seller, 1000, 1000)].
Definition bought (fl : Z) : list timed_op := posted fl ++ [(DoPlaceBuy "tc" sample_buyer (Some 8), 1001, 1002)].
Definition opened (fl : Z) : list timed_op := bought fl ++ [(DoOpen "tc" sample_seller, 1010, 1010)].
Definition accepted (fl : Z) : list timed_op := opened fl ++ [(DoAcceptProbe "tc", 10000, 10000)].
(** One claim of a second tick, and the dispute of the buyer. *)
Definition claimed (fl : Z) : list timed_op :=
  accepted fl ++ [(DoClaim "tc" sample_seller (2 * TICK_SIZE), 10100, 10100)].
Definition disputed (fl : Z) : list timed_op := claimed fl ++ [(DoDispute "tc" sample_buyer, 10200, 10200)].
Definition stopped (fl : Z) : list timed_op := claimed fl ++ [(DoStop "tc" sample_buyer, 10300, 10300)].

Definition canonical_run (script : list timed_op) : option MockState :=
  mock_run ProtocolConsts_canonical DobParams_canonical sample_sha256 script MockState_default.
Definition sample_state (script : list timed_op) : MockState :=
  unwrap_or MockState_default (canonical_run script).
Definition canonical_reach : Z → MockState → Prop := Reach ProtocolConsts_canonical DobParams_canonical sample_sha256.

Lemma sample_reach now script :
  script_end 1000 script = now → script_ok ProtocolConsts_canonical 1000 script → is_Some (canonical_run script) →
  canonical_reach now (sample_state script).
Proof.
  unfold sample_state. intros <- Hok [st Hrun]. rewrite Hrun. cbn [unwrap_or].
  by apply (mock_run_reach _ _ _ 1000 script MockState_default); [constructor|..].
Qed.

(** Evaluates the two premises on a concrete script. *)
Ltac reach_script :=
  apply sample_reach; [by vm_compute | cbn; repeat (split || exact I); by vm_compute | vm_compute; eexists; reflexivity].

(** Discharges a premise of a theorem at a concrete run by evaluating it. *)
Ltac evaluated := first [apply canonical_ok | reach_script | lia | vm_compute; reflexivity | vm_compute; done].

(** The cell and the shape of the deal of a script. *)
Definition sample_cell (script : list timed_op) : StreamCell :=
  unwrap_or (phase_cell ProtocolConsts_canonical (terms_of (sample_offer 0) 8 sample_buyer) (PhProbe 0 0))
    (ms_streams (sample_state script) !! "tc"%string).
Definition sample_shape (script : list timed_op) : DealSubscription :=
  unwrap_or (sub_at (terms_of (sample_offer 0) 8 sample_buyer) 0 no_books)
    (ms_deal_subscriptions (sample_state script) !! "tc"%string).

Example sample_stopped fl : fl = ordinary ∨ fl = subscription →
  canonical_reach 10300 (sample_state (stopped fl)).
Proof. intros [-> | ->]; reach_script. Qed.

Example sample_disputed fl : fl = ordinary ∨ fl = subscription →
  canonical_reach 10200 (sample_state (disputed fl)).
Proof. intros [-> | ->]; reach_script. Qed.
(** The runs are computed by [evaluated] only, never by unification. *)
#[global] Opaque canonical_run sample_state sample_cell sample_shape.
