(* ===== verification/MockFrame.v ===== *)
(** * The mock chain simulates the abstract deal

    What one operation does at a contract whose deal was opened: it leaves the deal alone,
    or makes one move of the state machine of DealPhase.  With it, the theorems about single
    phases hold of every reachable state of the chain and of every step. *)
From S2P Require Import Prelude RustText Params Address DealTypes Machine Quote.
From S2P Require Import MockData MockMoney MockBook MockDeal DealSpec.
From S2P Require Import DealExits DealPhase MockRefine MockInv MockRun.
From Stdlib Require Import Strings.Byte.

#[local] Arguments umax : simpl never.

Section Frame.
Context (c : ProtocolConsts) (params : DobParams) (sha256 : string → list Byte.byte) (Hc : consts_ok c).

Lemma mock_step_frame now0 now now' op st st' tc cell :
  Inv c now0 st → now0 ≤ now → now ≤ now' → now' < 2 ^ 63 → op_ok c op →
  mock_step c params sha256 op now now' st = Some st' →
  ms_streams st !! tc = Some cell → op_deal op ≠ Some tc → slot_at st' tc = slot_at st tc.
Proof.
  intros HI Hle Hle' Hlt Hop Hstep Hcell Hnot.
  destruct (op_deal op) as [tc'|] eqn:Hdeal.
  { destruct (mock_step_moves c params sha256 Hc now0 now now' op tc' st st' HI Hle Hle' Hlt Hop Hdeal Hstep)
      as (o & s & k & buyer & created & ph & ph' & _ & _ & _ & _ & ->).
    assert (tc' ≠ tc) by congruence. by slots. }
  destruct (opened_at c now0 st tc cell HI Hcell) as (o & s & k & buyer & created & ph & Hd & _).
  destruct Hd as [_ _ _ _ Hoff Hmo Hk Hse Hma Hcr].
  destruct op as [offer note|tc' id|tc' id|tc' note ticks| | | |tc'|tc' note| | | | | | | | | | ]; try done; cbn [mock_step] in Hstep.
  - apply result_ok_Some in Hstep. unfold post_offer in Hstep. ok_inv. destruct (decide (so_token_contract offer = tc)) as [<-|Hne].
    + unfold already_filled in *. by rewrite Hma in *.
    + slots. f_equal. unfold or_insert. destruct (ms_offer_sellers st !! so_token_contract offer); by rewrite ?lookup_insert_ne.
  - injection Hstep as <-. unfold expire_resting_sell_order.
    destruct (negb _ || negb _); [done|]. cbv zeta. match goal with |- context [if ?live then st else _] => destruct live end; [done|].
    destruct (decide (tc' = tc)) as [->|Hne]; slots; by rewrite ?Hoff.
  - apply result_ok_Some in Hstep. unfold cancel_resting_sell_order in Hstep. ok_inv.
    destruct (decide (tc' = tc)) as [->|Hne]; slots; by rewrite ?Hoff.
  - apply result_ok_Some in Hstep. unfold place_buy_ticks_inner in Hstep. ok_inv.
    destruct (decide (tc' = tc)) as [->|Hne]; [by rewrite Hma in *|by slots].
  - destruct (fst_Some _ _ Hstep) as [o' Hok%result_ok_Some]. by eapply place_subscription_slots.
  - injection Hstep as <-. apply swept_slots.
  - injection Hstep as <-. apply cancel_order_slots.
  - destruct (fst_Some _ _ Hstep) as [s' Hok%result_ok_Some]. unfold cleanup_unopened in Hok. ok_inv.
    destruct (decide (tc' = tc)) as [->|Hne]; [by rewrite Hcell in *|simplify_eq; by slots].
  - apply result_ok_Some in Hstep. unfold open_stream_state in Hstep.
    destruct (decide (tc' = tc)) as [->|Hne]; [rewrite Hcell in Hstep; by ok_inv|].
    destruct (ms_streams st !! tc'); ok_inv. by slots.
Qed.

(** One operation seen from the deal of one contract. *)
Record deal_step_at (now0 now now' : Z) (tc : string) (st st' : MockState) (t : Terms) (ph ph' : Phase) : Prop := {
  ds_terms : consts_wf c ∧ terms_ok c t ∧ funds_fit c t;
  ds_before : holds c t tc st ph;
  ds_after : holds c t tc st' ph';
  ds_ok : phase_ok c t now0 ph;
  ds_ok' : phase_ok c t now' ph';
  ds_move : ph' = ph ∨ deal_move c t now now' ph ph';
}.

Lemma step_at now0 now now' op st st' tc cell :
  Inv c now0 st → now0 ≤ now → now ≤ now' → now' < 2 ^ 63 → op_ok c op →
  mock_step c params sha256 op now now' st = Some st' → ms_streams st !! tc = Some cell →
  ∃ t ph ph', deal_step_at now0 now now' tc st st' t ph ph'.
Proof.
  intros HI Hle Hle' Hlt Hop Hstep Hcell.
  destruct (decide (op_deal op = Some tc)) as [Hdeal|Hno].
  - destruct (mock_step_moves c params sha256 Hc now0 now now' op tc st st' HI Hle Hle' Hlt Hop Hdeal Hstep)
      as (o & s & k & buyer & created & ph & ph' & Hd & Hh & Hph & Hm & ->).
    pose proof (deal_terms_ok c Hc _ _ _ _ _ _ _ _ Hd) as (Hwf & Ht & Hfit).
    exists (terms_of o k buyer), ph, ph'. split; try done.
    + split; by slots.
    + by apply (deal_move_ok c _ Hwf Ht Hfit now0 now now' ph).
    + by right.
  - pose proof (mock_step_frame now0 now now' op st st' tc cell HI Hle Hle' Hlt Hop Hstep Hcell Hno) as Heq.
    destruct (opened_at c now0 st tc cell HI Hcell) as (o & s & k & buyer & created & ph & Hd & [H1 H2] & Hph).
    pose proof (deal_terms_ok c Hc _ _ _ _ _ _ _ _ Hd) as (Hwf & Ht & Hfit).
    exists (terms_of o k buyer), ph, ph. split; try done.
    + unfold slot_at in Heq. injection Heq as _ _ _ E1 _ _ _ E2. split; congruence.
    + apply (phase_ok_mono c _ now0); [done|lia].
    + by left.
Qed.

(** No move leaves a closed deal. *)
Lemma closed_no_move t now now' accepted opened period last tf tq b at_ p settlement ph' :
  ¬ deal_move c t now now' (PhClosed accepted opened period last tf tq b at_ p settlement) ph'.
Proof. by intros []. Qed.
End Frame.

(** ** What a move adds to the totals of a deal *)

Section Totals.
Context (c : ProtocolConsts) (t : Terms) (Hc : consts_wf c) (Ht : terms_ok c t) (Hfit : funds_fit c t).

Definition no_loss (ph ph' : Phase) : Prop :=
  let cell := phase_cell c t ph in
  let cell' := phase_cell c t ph' in
  sc_tokens_final cell ≤ sc_tokens_final cell' ∧ tokens_paid (phase_sub t ph) ≤ tokens_paid (phase_sub t ph') ∧
  sc_seller_received cell ≤ sc_seller_received cell' ∧ sc_buyer_refunded cell ≤ sc_buyer_refunded cell' ∧
  sc_burned cell ≤ sc_burned cell'.

Lemma no_loss_same ph : no_loss ph ph.
Proof. unfold no_loss. lia. Qed.

Lemma no_loss_open opened period last last' tf tf' tq tq' b b' :
  tf ≤ tf' → bk_paid b ≤ bk_paid b' →
  no_loss (PhOpen opened period last tf tq b) (PhOpen opened period last' tf' tq' b').
Proof.
  intros Htf Hp. unfold no_loss. cbn. pose proof (pay_mono _ (price_u64 c t Ht) _ _ Hp). lia.
Qed.

Lemma no_loss_close opened period last tf tf' tq tq' b b' settled :
  tf ≤ tf' → 0 ≤ tf' ≤ tm_funded t → 0 ≤ bk_paid b ≤ bk_paid b' → bk_paid b' ≤ tm_funded t →
  no_loss (PhOpen opened period last tf tq b) (close_phase c t opened period last tf' tq' b' settled).
Proof.
  intros Htf Hf Hp Hp'. pose proof (clean_payout_ok c t Hc Ht (bk_paid b') tf' ltac:(lia) Hf) as (_ & ? & ? & _).
  pose proof (pay_mono _ (price_u64 c t Ht) (bk_paid b) (bk_paid b') ltac:(lia)).
  destruct (paid_facts c t Hc Ht (bk_paid b') ltac:(lia)) as (_ & ? & _). destruct (ticks_value c t Hc Ht tf' Hf).
  pose proof (rebate_bounds c (tm_price t) (tf' / TICK_SIZE) (fee_of c (tm_price t) (bk_paid b')) Hc (price_u64 c t Ht)).
  destruct (ok_price _ _ Ht). unfold no_loss. cbn in *. lia.
Qed.

Lemma promoted_ge tf tq last now : tf ≤ tq → tf ≤ promoted c tf tq last now ≤ tq.
Proof. unfold promoted. destruct (now >=? _); lia. Qed.

(** The seller of a dispute keeps what it had received. *)
Lemma dispute_seller timed_out accepted tf tq last at_ e b period :
  frozen_ok c t tf tq last at_ e b →
  es_paid e ≤ to_seller (dispute_payout c t timed_out accepted e (promoted c tf tq last at_) tq period at_ b).
Proof.
  intros Hfr. pose proof (promoted_between c t tf tq last at_ e b Hfr) as Hpr.
  destruct (stake_bounds c t Hc Ht _ _ _ _ _ _ Hfr _ Hpr) as (? & ? & _ & _ & _ & ? & _).
  destruct (ok_price _ _ Ht). cbn. unfold seller_stake. destruct timed_out; lia.
Qed.

Lemma resolve_no_loss timed_out now ph ph' s :
  phase_ok c t now ph → now < 2 ^ 63 → phase_resolve c t timed_out ph = Some (ph', s) → no_loss ph ph'.
Proof.
  intros Hok Hlt. destruct ph as [| |opened period at_|opened period last tf tq b at_|]; try done; cbn [phase_resolve];
    intros [= <- _]; cbn in Hok.
  - destruct Hok as (Ho & Hat & _).
    pose proof (frozen_probe c t Hc Ht Hfit opened at_ ltac:(lia) ltac:(lia)) as Hfr.
    assert (promoted c 0 0 opened at_ = 0) as Hpr by (unfold promoted; by destruct (at_ >=? _)).
    pose proof (dispute_payout_ok c t Hc Ht timed_out false _ _ _ _ _ _ period Hfr ltac:(done)) as Hpay.
    rewrite Hpr in Hpay. destruct Hpay as (? & ? & ? & _). unfold no_loss. cbn in *. lia.
  - destruct Hok as (Ho & Hl & Hat & Hb).
    pose proof (books_at_ok c t Ht period at_ false tf tq b Hb ltac:(lia)) as Hb'.
    destruct (books_at_paid c t Ht period at_ false tf tq b Hb ltac:(lia)) as [Hpaid _].
    set (b' := books_at t period at_ false tq b) in *.
    pose proof (frozen_accepted c t Hc Ht tf tq last at_ b' Hb' ltac:(lia) ltac:(lia)) as Hfr.
    pose proof (dispute_payout_ok c t Hc Ht timed_out true _ _ _ _ _ _ period Hfr ltac:(intros; lia)) as (_ & ? & ? & _).
    pose proof (dispute_seller timed_out true _ _ _ _ _ _ period Hfr) as Hsel.
    pose proof (pay_mono _ (price_u64 c t Ht) _ _ Hpaid).
    pose proof (promoted_ge tf tq last at_ ltac:(destruct Hb; lia)).
    unfold no_loss. cbn in *. lia.
Qed.

Lemma open_no_loss now0 now now' opened period last tf tq b ph' :
  phase_ok c t now0 (PhOpen opened period last tf tq b) → now0 ≤ now → now ≤ now' →
  deal_move c t now now' (PhOpen opened period last tf tq b) ph' → no_loss (PhOpen opened period last tf tq b) ph'.
Proof.
  intros (Ho & Hl & Hb) Hn Hn' Hm. pose proof (books_paid c t Ht _ _ _ Hb) as (? & Htf & Htq).
  assert (∀ now incl, period ≤ now → bk_paid b ≤ bk_paid (books_at t period now incl tq b)
    ∧ bk_paid (books_at t period now incl tq b) ≤ tm_funded t) as Hpaid.
  { intros m incl Hm'. split; [by apply (books_at_paid c t Ht period m incl tf tq b)|].
    apply (books_paid c t Ht tf tq). by apply (books_at_ok c t Ht). }
  assert (∀ last now, tf ≤ promoted c tf tq last now ≤ tq) as Hpr by (intros; apply promoted_ge; lia).
  unfold TICK_SIZE in *. destruct Hm as [ph' Hmv|n ph' Hmv|ph' Hmv|ph' Hmv|ph' s Hmv|ph' s Hmv|ph' Hmv|ph' s Hmv|ph' s Hmv]; try done.
  - cbn in Hmv. destruct (n =? tq); [injection Hmv as <-; apply no_loss_same|].
    destruct (_ && _); [|done]. injection Hmv as <-. apply no_loss_open; [lia|]. apply (Hpaid now false). lia.
  - cbn in Hmv. destruct ((tf <? tq) && _); [|done].
    destruct (negb (tm_sub t) && _); injection Hmv as <-; [|apply no_loss_open; lia].
    apply no_loss_close; cbn; lia.
  - cbn in Hmv. pose proof (Hpaid now false ltac:(lia)). destruct (negb (tm_sub t)); [done|]. destruct (negb (negb _) && _); [done|].
    destruct ((bk_week _ >=? _) && _); injection Hmv as <-; [|apply no_loss_open; lia].
    pose proof (Hpr last now). apply no_loss_close; cbn; lia.
  - injection Hmv as <- _. pose proof (Hpr last now). pose proof (Hpaid now' true ltac:(lia)).
    apply no_loss_close; cbn; lia.
  - injection Hmv as <- _. pose proof (Hpr last now). pose proof (Hpaid now' false ltac:(lia)).
    apply no_loss_close; unfold seller_stop_books; destruct (tm_sub t); cbn; lia.
  - injection Hmv as <-. unfold no_loss. cbn. lia.
Qed.

Lemma probe_no_loss now now' opened period ph' :
  deal_move c t now now' (PhProbe opened period) ph' → no_loss (PhProbe opened period) ph'.
Proof.
  intros Hm. pose proof (probe_payouts_ok c t Hc Ht Hfit) as [(? & ? & ? & _) (? & ? & ? & _)].
  pose proof (pay_nonneg _ (price_u64 c t Ht) TICK_SIZE ltac:(done)).
  destruct Hm as [ph' Hmv|n ph' Hmv|ph' Hmv|ph' Hmv|ph' s Hmv|ph' s Hmv|ph' Hmv|ph' s Hmv|ph' s Hmv]; try done; cbn in Hmv;
    try (destruct (_ <=? now); [|done]); injection Hmv as <-; unfold no_loss, TICK_SIZE in *; cbn in *; lia.
Qed.

Lemma move_no_loss now0 now now' ph ph' :
  phase_ok c t now0 ph → now0 ≤ now → now ≤ now' → now' < 2 ^ 63 → deal_move c t now now' ph ph' → no_loss ph ph'.
Proof.
  intros Hok Hn Hn' Hlt Hm. destruct ph.
  - by apply probe_no_loss with now now'.
  - by apply open_no_loss with now0 now now'.
  - destruct Hm as [| | | | | | |ph' s Hmv|ph' s Hmv]; try done.
    + eapply (resolve_no_loss false now0); [done|lia|done].
    + unfold phase_resolve_timeout in Hmv. cbn [phase_disputed_at obind] in Hmv. destruct (_ <=? now); [|done].
      eapply (resolve_no_loss true now0); [done|lia|done].
  - destruct Hm as [| | | | | | |ph' s Hmv|ph' s Hmv]; try done.
    + eapply (resolve_no_loss false now0); [done|lia|done].
    + unfold phase_resolve_timeout in Hmv. cbn [phase_disputed_at obind] in Hmv. destruct (_ <=? now); [|done].
      eapply (resolve_no_loss true now0); [done|lia|done].
  - by apply closed_no_move in Hm.
Qed.
End Totals.

Section Props.
Context (c : ProtocolConsts) (params : DobParams) (sha256 : string → list Byte.byte).

(** C1: Refinement.  At every contract with an opened deal, an operation of the mock chain
    on a reachable state either leaves the deal as it is or makes one move of the abstract
    state machine: the stored cell and shape are those of a phase before and of a phase
    after, under the same terms, and both phases are well formed at their clock. *)
Theorem mock_step_simulates now0 now now' op st st' tc cell :
  consts_ok c → Reach c params sha256 now0 st → now0 ≤ now ≤ now' → now' < 2 ^ 63 → op_ok c op →
  mock_step c params sha256 op now now' st = Some st' → ms_streams st !! tc = Some cell →
  ∃ t ph ph', terms_ok c t ∧ holds c t tc st ph ∧ phase_ok c t now0 ph ∧
    holds c t tc st' ph' ∧ phase_ok c t now' ph' ∧ (ph' = ph ∨ deal_move c t now now' ph ph').
Proof.
  intros Hc HR [Hle Hle'] Hlt Hop Hstep Hcell. destruct (Reach_inv c params sha256 Hc now0 st HR) as [HI _].
  destruct (step_at c params sha256 Hc now0 now now' op st st' tc cell) as (t & ph & ph' & [(? & ? & ?) ? ? ? ? ?]); try done.
  exists t, ph, ph'. done.
Qed.

(** C6: The handlers are their specification.  At an opened deal of a reachable state each
    deal handler succeeds exactly when the state machine allows its move in the phase of the
    deal, stores exactly the phase the move leads to, changes nothing else, and reports the
    settlement of the move; it never panics. *)
Theorem handlers_implement_phases now0 now now' st tc cell :
  consts_ok c → Reach c params sha256 now0 st → now0 ≤ now ≤ now' → now' < 2 ^ 63 → ms_streams st !! tc = Some cell →
  ∃ t ph, terms_ok c t ∧ holds c t tc st ph ∧
    let stores (ph' : Phase) := put c t tc ph' st in
    let settles (r : Phase * Settlement) := let '(ph', s) := r in Some (stores ph', s) in
    result_ok (accept_probe c now tc st) = option_map stores (phase_accept_probe c now ph) ∧
    (∀ note n, 0 ≤ n → require_mock_seller_actor st tc note "claim_tokens" = Ok () →
       result_ok (claim_tokens c now now' tc note n st) = option_map stores (phase_claim_tokens c t now now' n ph)) ∧
    result_ok (finalize c now tc st) = option_map stores (phase_finalize c t now ph) ∧
    result_ok (settle_week c now tc st) = option_map stores (phase_settle_week c t now ph) ∧
    (∀ note, require_mock_buyer_actor st tc note "stop" = Ok () →
       result_ok (stop c now now' tc note st) = option_map settles (phase_stop c t now now' ph)) ∧
    result_ok (seller_stop c now now' tc st) = option_map settles (phase_seller_stop c t now now' ph) ∧
    (∀ note, require_mock_buyer_actor st tc note "dispute" = Ok () →
       option_map fst (result_ok (dispute now tc note st)) = option_map stores (phase_dispute now ph)) ∧
    result_ok (release_dispute c tc st) = option_map settles (phase_resolve c t false ph) ∧
    result_ok (resolve_dispute_timeout c now tc st) = option_map settles (phase_resolve_timeout c t now ph).
Proof.
  intros Hc HR [Hle Hle'] Hlt Hcell. destruct (Reach_inv c params sha256 Hc now0 st HR) as [HI _].
  destruct (opened_at c now0 st tc cell HI Hcell) as (o & s & k & buyer & created & ph & Hd & Hh & Hph).
  pose proof (deal_terms_ok c Hc _ _ _ _ _ _ _ _ Hd) as (Hwf & Ht & Hfit).
  exists (terms_of o k buyer), ph. set (t := terms_of o k buyer) in *. split; [done|]. split; [done|]. cbv zeta. split_and!.
  - apply (accept_probe_refines c t tc Hwf Ht Hfit st ph now0 Hh Hph); lia.
  - intros note n Hn Hactor. by apply (claim_tokens_refines c t tc Hwf Ht Hfit st ph now0 Hh Hph).
  - apply (finalize_refines c t tc Hwf Ht Hfit st ph now0 Hh Hph); lia.
  - apply (settle_week_refines c t tc Hwf Ht Hfit st ph now0 Hh Hph); lia.
  - intros note Hactor. unfold stop. rewrite Hactor. by apply (stop_refines c t tc Hwf Ht Hfit st ph now0 Hh Hph).
  - by apply (seller_stop_refines c t tc Hwf Ht Hfit st ph now0 Hh Hph).
  - intros note Hactor. by apply (dispute_refines c t tc Ht st ph now0 Hh Hph).
  - apply (resolve_refines c t tc Hwf Ht Hfit st ph now0 Hh Hph). lia.
  - apply (resolve_timeout_refines c t tc Hwf Ht Hfit st ph now0 Hh Hph). lia.
Qed.

(** C5: Finality.  Once a deal is closed no operation changes it any more: its cell and its
    shape stay what they were at the close. *)
Theorem closed_deal_is_final now0 now now' op st st' tc cell :
  consts_ok c → Reach c params sha256 now0 st → now0 ≤ now ≤ now' → now' < 2 ^ 63 → op_ok c op →
  mock_step c params sha256 op now now' st = Some st' →
  ms_streams st !! tc = Some cell → sc_closed cell = true →
  ms_streams st' !! tc = Some cell ∧ ms_deal_subscriptions st' !! tc = ms_deal_subscriptions st !! tc.
Proof.
  intros Hc HR [Hle Hle'] Hlt Hop Hstep Hcell Hclosed. destruct (Reach_inv c params sha256 Hc now0 st HR) as [HI _].
  destruct (step_at c params sha256 Hc now0 now now' op st st' tc cell)
    as (t & ph & ph' & [_ [H1 H2] [H3 H4] _ _ [->|Hm]]); try done; [split; congruence|].
  rewrite Hcell in H1. injection H1 as ->. destruct ph; try done. by apply closed_no_move in Hm.
Qed.

(** Nothing is taken back.  From one operation to the next the trusted tokens, the tokens
    paid for and the amounts received by the seller, refunded to the buyer and burned never
    decrease. *)
Theorem settled_amounts_never_decrease now0 now now' op st st' tc cell sub :
  consts_ok c → Reach c params sha256 now0 st → now0 ≤ now ≤ now' → now' < 2 ^ 63 → op_ok c op →
  mock_step c params sha256 op now now' st = Some st' →
  ms_streams st !! tc = Some cell → ms_deal_subscriptions st !! tc = Some sub →
  ∃ cell' sub', ms_streams st' !! tc = Some cell' ∧ ms_deal_subscriptions st' !! tc = Some sub' ∧
    sc_tokens_final cell ≤ sc_tokens_final cell' ∧ tokens_paid sub ≤ tokens_paid sub' ∧
    sc_seller_received cell ≤ sc_seller_received cell' ∧ sc_buyer_refunded cell ≤ sc_buyer_refunded cell' ∧
    sc_burned cell ≤ sc_burned cell'.
Proof.
  intros Hc HR [Hle Hle'] Hlt Hop Hstep Hcell Hsub. destruct (Reach_inv c params sha256 Hc now0 st HR) as [HI _].
  destruct (step_at c params sha256 Hc now0 now now' op st st' tc cell)
    as (t & ph & ph' & [(? & ? & ?) [H1 H2] [H3 H4] Hok _ Hm]); try done.
  exists (phase_cell c t ph'), (phase_sub t ph'). split; [done|]. split; [done|].
  assert (cell = phase_cell c t ph) as -> by congruence. assert (sub = phase_sub t ph) as -> by congruence.
  destruct Hm as [->|Hm]; [lia|]. by apply (move_no_loss c t) with now0 now now'.
Qed.
End Props.

(** ** At a stopped subscription *)

Lemma mock_step_simulates_witness :
  ∃ t ph ph', holds ProtocolConsts_canonical t "tc" (sample_state (claimed subscription)) ph ∧
    holds ProtocolConsts_canonical t "tc" (sample_state (stopped subscription)) ph' ∧
    (ph' = ph ∨ deal_move ProtocolConsts_canonical t 10300 10300 ph ph').
Proof.
  destruct (mock_step_simulates ProtocolConsts_canonical DobParams_canonical sample_sha256 10100 10300 10300
    (DoStop "tc" sample_buyer) (sample_state (claimed subscription)) (sample_state (stopped subscription)) "tc"
    (sample_cell (claimed subscription))) as (t & ph & ph' & _ & H1 & _ & H2 & _ & H3); [evaluated..|].
  by exists t, ph, ph'.
Defined.

Lemma closed_deal_is_final_witness :
  let st := sample_state (stopped subscription) in
  let st' := unwrap_or st (mock_step ProtocolConsts_canonical DobParams_canonical sample_sha256
    (DoReadSubscription 1) 10400 10400 st) in
  ms_streams st' !! "tc"%string = Some (sample_cell (stopped subscription)).
Proof.
  intros st st'.
  apply (closed_deal_is_final ProtocolConsts_canonical DobParams_canonical sample_sha256 10300 10400 10400
    (DoReadSubscription 1) st st' "tc" (sample_cell (stopped subscription))); evaluated.
Defined.

Lemma settled_amounts_never_decrease_witness :
  ∃ cell', ms_streams (sample_state (stopped ordinary)) !! "tc"%string = Some cell' ∧
    sc_seller_received (sample_cell (claimed ordinary)) ≤ sc_seller_received cell'.
Proof.
  destruct (settled_amounts_never_decrease ProtocolConsts_canonical DobParams_canonical sample_sha256 10100 10300 10300
    (DoStop "tc" sample_buyer) (sample_state (claimed ordinary)) (sample_state (stopped ordinary)) "tc"
    (sample_cell (claimed ordinary)) (sample_shape (claimed ordinary)))
    as (cell' & sub' & H1 & _ & _ & _ & H2 & _ & _); [evaluated..|]. exists cell'. split; [exact H1|exact H2].
Defined.

Lemma handlers_implement_phases_witness :
  ∃ t ph, holds ProtocolConsts_canonical t "tc" (sample_state (claimed ordinary)) ph ∧
    result_ok (accept_probe ProtocolConsts_canonical 10200 "tc" (sample_state (claimed ordinary)))
    = option_map (λ ph', put ProtocolConsts_canonical t "tc" ph' (sample_state (claimed ordinary)))
        (phase_accept_probe ProtocolConsts_canonical 10200 ph).
Proof.
  destruct (handlers_implement_phases ProtocolConsts_canonical DobParams_canonical sample_sha256 10100 10200 10201
    (sample_state (claimed ordinary)) "tc" (sample_cell (claimed ordinary)))
    as (t & ph & _ & Hh & Hacc & _); [evaluated..|].
  exists t, ph. split; [exact Hh|exact Hacc].
Defined.
