(* ===== verification/MockProps.v ===== *)
(** * What the mock chain guarantees about a deal

    Theorems about every reachable state: what a load makes of its file, no money is created or
    lost, a deal can always be left, no call panics, and the exact payout of every exit. *)
From S2P Require Import Prelude RustText Params Address DealTypes Machine Quote.
From S2P Require Import MockData MockMoney MockBook MockDeal DealSpec.
From S2P Require Import DealExits DealPhase MockRefine MockInv MockRun.
From Stdlib Require Import Strings.Byte.

#[local] Arguments umax : simpl never.

(** ** A reachable state seen from one deal *)

Record deal_view_at (c : ProtocolConsts) (now : Z) (st : MockState) (tc : string) (cell : StreamCell)
    (o : SellOffer) (k : Z) (buyer : NotePubkey) (ph : Phase) : Prop := {
  dv_created : ∃ created, 1 ≤ created ∧ ms_match_created_at st !! tc = Some created;
  dv_seller : is_Some (ms_offer_sellers st !! tc);
  dv_terms : consts_wf c ∧ terms_ok c (terms_of o k buyer) ∧ funds_fit c (terms_of o k buyer);
  dv_matched : ms_matched_offers st !! tc = Some o;
  dv_ticks : ms_matched_ticks st !! tc = Some k;
  dv_match : ms_matches st !! tc = Some (match_of tc (terms_of o k buyer));
  dv_holds : holds c (terms_of o k buyer) tc st ph;
  dv_phase : phase_ok c (terms_of o k buyer) now ph;
  dv_cell : cell = phase_cell c (terms_of o k buyer) ph;
}.

Lemma reach_deal c params sha256 now st tc cell :
  consts_ok c → Reach c params sha256 now st → ms_streams st !! tc = Some cell →
  ∃ o k buyer ph, deal_view_at c now st tc cell o k buyer ph.
Proof.
  intros Hc HR Hcell. destruct (Reach_inv c params sha256 Hc now st HR) as [HI _].
  destruct (opened_at c now st tc cell HI Hcell) as (o & s & k & buyer & created & ph & Hd & Hh & Hph).
  exists o, k, buyer, ph. split; try done; try apply Hd.
  - destruct Hd as [_ _ _ [? _] _ _ _ _ _ Hcr]. by exists created.
  - rewrite (da_sellers _ _ _ _ _ _ _ _ _ Hd). by eexists.
  - by apply (deal_terms_ok c Hc _ _ _ _ _ _ _ _ Hd).
  - destruct Hh as [H _]. congruence.
Qed.

(** The buyer of a deal may stop and dispute it. *)
Lemma buyer_is_actor st tc cell action : ms_streams st !! tc = Some cell →
  require_mock_buyer_actor st tc (sc_buyer_pubkey cell) action = Ok ().
Proof. intros Hcell. unfold require_mock_buyer_actor. rewrite Hcell. cbn. by rewrite String.eqb_refl. Qed.

(** ** Money *)

Definition money_of (cell : StreamCell) : Z :=
  sc_seller_locked cell + sc_buyer_locked cell + sc_probe_locked cell + sc_buyer_bond cell + sc_fee_accrued cell
  + sc_seller_received cell + sc_buyer_refunded cell + sc_burned cell.
Definition amounts_nonneg (cell : StreamCell) : Prop :=
  0 ≤ sc_seller_locked cell ∧ 0 ≤ sc_buyer_locked cell ∧ 0 ≤ sc_probe_locked cell ∧ 0 ≤ sc_buyer_bond cell ∧
  0 ≤ sc_fee_accrued cell ∧ 0 ≤ sc_seller_received cell ∧ 0 ≤ sc_buyer_refunded cell ∧ 0 ≤ sc_burned cell.
Definition nothing_locked (cell : StreamCell) : Prop :=
  sc_seller_locked cell = 0 ∧ sc_buyer_locked cell = 0 ∧ sc_probe_locked cell = 0 ∧ sc_buyer_bond cell = 0 ∧
  sc_fee_accrued cell = 0.

Lemma phase_money c t now ph : consts_wf c → terms_ok c t → funds_fit c t → phase_ok c t now ph →
  money_of (phase_cell c t ph) = tm_total c t ∧ amounts_nonneg (phase_cell c t ph) ∧
  (sc_closed (phase_cell c t ph) = true → nothing_locked (phase_cell c t ph)).
Proof.
  intros Hc Ht Hfit Hok. pose proof (probe_money c t Hc Ht Hfit).
  assert (∀ tp, 0 ≤ tp ≤ tm_funded t →
    let P := tm_price t in 0 ≤ pay P tp ∧ 0 ≤ fee_of c P tp ∧ cost c P tp = pay P tp + fee_of c P tp ∧ cost c P tp ≤ tm_deposit c t)
    as Hpaid by (intros; by apply paid_facts).
  destruct ph as [opened period|opened period last tf tq b|opened period at_|opened period last tf tq b at_|
    accepted opened period last tf tq b at_ p settlement]; cbn in Hok.
  2, 4: assert (0 ≤ bk_paid b ≤ tm_funded t) as Hb by (apply (books_paid c t Ht tf tq); apply Hok);
    specialize (Hpaid _ Hb).
  5: destruct Hok as (_ & _ & _ & _ & _ & _ & _ & _ & ? & ? & ? & Htot); unfold payout_total in Htot.
  all: unfold money_of, amounts_nonneg, nothing_locked, tm_total in *; cbn in *; split_and!; try lia; try done.
Qed.

(** ** What a stored state is read back as *)

Section ReadBack.
Context (c : ProtocolConsts) (params : DobParams) (sha256 : string → list Byte.byte) (Hc : consts_ok c).

(** The four maps of the orders. *)
Definition orders_of (st : MockState) :=
  (ms_subscription_orders st, ms_subscription_order_books st, ms_subscription_terminal_orders st,
   ms_next_subscription_order_id st).

Definition op_on_orders (op : MockOp) : bool :=
  match op with DoPlaceSubscription _ _ _ _ _ _ _ | DoReadSubscription _ | DoCancelSubscription _ _ _ => true | _ => false end.

Lemma other_ops_keep_orders now0 now now' op st st' :
  Inv c now0 st → now0 ≤ now → now ≤ now' → now' < 2 ^ 63 → op_ok c op → op_on_orders op = false →
  mock_step c params sha256 op now now' st = Some st' → orders_of st' = orders_of st.
Proof.
  intros HI Hle Hle' Hlt Hop Hno Hstep. destruct (op_deal op) as [tc|] eqn:Hdeal.
  { destruct (mock_step_moves c params sha256 Hc now0 now now' op tc st st' HI Hle Hle' Hlt Hop Hdeal Hstep)
      as (o & s & k & buyer & created & ph & ph' & _ & _ & _ & _ & ->). done. }
  destruct op as [offer note|tc' id|tc' id|tc' note ticks| | | |tc'|tc' note| | | | | | | | | | ]; try done; cbn [mock_step] in Hstep.
  - apply result_ok_Some in Hstep. unfold post_offer in Hstep. by ok_inv.
  - injection Hstep as <-. unfold expire_resting_sell_order.
    destruct (negb _ || negb _); [done|]. cbv zeta. match goal with |- context [if ?live then st else _] => by destruct live end.
  - apply result_ok_Some in Hstep. unfold cancel_resting_sell_order in Hstep. by ok_inv.
  - apply result_ok_Some in Hstep. unfold place_buy_ticks_inner in Hstep. by ok_inv.
  - destruct (fst_Some _ _ Hstep) as [s' Hok%result_ok_Some]. unfold cleanup_unopened in Hok. ok_inv. by simplify_eq.
  - apply result_ok_Some in Hstep. unfold open_stream_state in Hstep. destruct (ms_streams st !! tc'); by ok_inv.
Qed.

(** The orders of a reachable state carry names that the file gives back. *)
Definition order_named (o : OrderBookOrder) : Prop :=
  OrderBookOrder_with read_back (option_map read_back) o = o.
Definition orders_named (st : MockState) : Prop :=
  map_Forall (λ _ o, order_named o) (ms_subscription_orders st) ∧
  map_Forall (λ _ t, order_named (mt_order t)) (ms_subscription_terminal_orders st).

Lemma lower_app s1 s2 : to_ascii_lowercase (s1 +:+ s2) = to_ascii_lowercase s1 +:+ to_ascii_lowercase s2.
Proof. unfold to_ascii_lowercase. induction s1 as [|a s1 IH]; [done|]. rewrite !append_cons. cbn. by rewrite append_cons, IH. Qed.
Lemma owner_named note : read_back (owner_of note) = owner_of note.
Proof.
  apply legacy_read_back; unfold note_id_hex.
  - induction (pk_ed note) as [|b l IH]; [done|]. cbn [foldr]. rewrite str_all_app, IH, andb_true_r. by destruct b.
  - induction (pk_ed note) as [|b l IH]; [done|]. cbn [foldr]. rewrite lower_app, IH. f_equal. by destruct b.
Qed.

Lemma remove_orders_named id reason refunded st : orders_named st →
  orders_named (remove_subscription_order_from_book id reason refunded st).
Proof.
  intros [Hr He]. unfold remove_subscription_order_from_book. destruct (ms_subscription_orders st !! id) as [o|] eqn:Ho; [|done].
  split; cbn; [by apply map_Forall_delete|]. apply map_Forall_insert_2; [|done]. by apply (Hr id o).
Qed.
Lemma swept_orders_named now id st : orders_named st → orders_named (swept_state now id st).
Proof.
  intros H. unfold swept_state. destruct (ms_subscription_orders st !! id); [|done]. destruct (_ && _); [by apply remove_orders_named|done].
Qed.
Lemma mock_step_orders_named now0 now now' op st st' :
  Inv c now0 st → now0 ≤ now → now ≤ now' → now' < 2 ^ 63 → op_ok c op → orders_named st →
  mock_step c params sha256 op now now' st = Some st' → orders_named st'.
Proof.
  intros HI Hle Hle' Hlt Hop Hok Hstep. destruct (op_on_orders op) eqn:Hon.
  2:{ pose proof (other_ops_keep_orders now0 now now' op st st' HI Hle Hle' Hlt Hop Hon Hstep) as Heq.
      unfold orders_of in Heq. injection Heq as E1 _ E3 _. unfold orders_named. by rewrite E1, E3. }
  destruct op; try done; cbn [mock_step] in Hstep.
  - destruct (fst_Some _ _ Hstep) as [o Hp%result_ok_Some]. unfold place_subscription_order in Hp. ok_inv. cbn in *. simplify_eq.
    destruct Hok as [Hr He]. split; cbn; [|done]. apply map_Forall_insert_2; [|done].
    unfold order_named, OrderBookOrder_with. cbn. by rewrite owner_named.
  - injection Hstep as <-. by apply swept_orders_named.
  - injection Hstep as <-. unfold cancel_subscription_order.
    destruct (owned_subscription_order _ _ _ _); cbn [fst]; [apply remove_orders_named|]; by apply swept_orders_named.
Qed.
Lemma Reach_orders_named now st : Reach c params sha256 now st → orders_named st.
Proof.
  induction 1 as [now H1|now0 now now' op st st' HR IH Hle Hle' Hlt Hop Hstep|now0 now st _ IH Hle]; [done| |done].
  destruct (Reach_inv c params sha256 Hc now0 st HR) as [HI _]. by apply (mock_step_orders_named now0 now now' op st).
Qed.
End ReadBack.

Lemma fmap_same {K A} `{Countable K} (f : A → A) (m : gmap K A) : map_Forall (λ _ x, f x = x) m → f <$> m = m.
Proof.
  intros Hf. apply map_eq. intros k. rewrite lookup_fmap. destruct (m !! k) as [x|] eqn:Hx; [|done]. cbn. by rewrite (Hf k x Hx).
Qed.

Lemma reread_state st :
  MockState_deserialize (MockState_serialize st) = MockState_with read_back read_back (option_map read_back) st.
Proof.
  unfold MockState_deserialize, MockState_serialize, MockState_with. cbn.
  f_equal; rewrite <- map_fmap_compose; apply map_fmap_ext; intros k x _;
    unfold compose, SellOffer_with, Match_with, MockSubscriptionTerminal_with, OrderBookOrder_with; cbn [so_token_contract
      so_price_per_tick so_max_ticks so_flags m_token_contract m_buyer_pubkey m_price_per_tick mt_order mt_order_book mt_reason
      mt_refunded ob_order_id ob_owner_note ob_token_contract ob_is_buy ob_price_per_tick ob_ticks ob_escrow ob_deadline ob_flags
      ob_timestamp]; by rewrite ?self_dapp_read_back, ?canonical_read_back, ?self_dapp_opt_read_back.
Qed.

Section Reread.
Context (c : ProtocolConsts) (now : Z) (st : MockState) (HI : Inv c now st).
Abbreviation named := (λ tc _, read_back tc = tc).

(** The names inside the records are the keys. *)
Lemma match_name tc m : ms_matches st !! tc = Some m → m_token_contract m = tc ∧ is_Some (ms_deal_subscriptions st !! tc).
Proof.
  intros Hm. destruct (deal_of c now st HI tc) as [?|(o & s & k & buyer & created & Hd & Hphase)]; [naive_solver|].
  rewrite (da_match _ _ _ _ _ _ _ _ _ Hd) in Hm. injection Hm as <-. split; [done|].
  destruct Hphase as [(? & _ & -> & _)|(? & [_ ->] & _)]; eauto.
Qed.
Lemma matched_name tc o : ms_matched_offers st !! tc = Some o → so_token_contract o = tc ∧ is_Some (ms_matches st !! tc).
Proof.
  intros Ho. destruct (slot_cases _ _ _ _ (HI tc)) as [[[Hn] _]|(o' & s & k & buyer & created & Hd & _)]; [congruence|].
  rewrite (da_matched _ _ _ _ _ _ _ _ _ Hd) in Ho. injection Ho as <-.
  split; [apply (da_offer _ _ _ _ _ _ _ _ _ Hd)|]. rewrite (da_match _ _ _ _ _ _ _ _ _ Hd). eauto.
Qed.
Lemma offer_name tc o : ms_offers st !! tc = Some o → so_token_contract o = tc.
Proof.
  intros Ho. destruct (slot_cases _ _ _ _ (HI tc)) as [[_ [[Hn _]|(o' & s & Ho' & _ & Hok & _)]]|(? & ? & ? & ? & ? & Hd & _)].
  - congruence.
  - rewrite Ho' in Ho. injection Ho as <-. apply Hok.
  - by rewrite (da_offers _ _ _ _ _ _ _ _ _ Hd) in Ho.
Qed.

Lemma offer_same tc o : so_token_contract o = tc → read_back tc = tc → SellOffer_with read_back o = o.
Proof. destruct o. unfold SellOffer_with. cbn. by intros <- ->. Qed.

Lemma offers_named : map_Forall named (ms_offers st) → set_ms_offers (SellOffer_with read_back <$> ms_offers st) st = st.
Proof.
  intros Hn. rewrite fmap_same; [by destruct st|]. intros tc o Ho. apply (offer_same tc); [by apply offer_name|by apply (Hn tc o)].
Qed.

Lemma reread_named : orders_named st → map_Forall named (ms_matches st) →
  MockState_deserialize (MockState_serialize st) = set_ms_offers (SellOffer_with read_back <$> ms_offers st) st.
Proof.
  intros [Hr He] Hm. rewrite reread_state. unfold MockState_with, set_ms_offers. cbv zeta. f_equal; apply fmap_same.
  - intros tc o Ho. destruct (matched_name tc o Ho) as [Hn [m Hma]]. apply (offer_same tc); [done|by apply (Hm tc m)].
  - intros tc m Hma. destruct (match_name tc m Hma) as [Hn _]. specialize (Hm tc m Hma). cbn in Hm.
    unfold Match_with. rewrite Hn, Hm. rewrite <- Hn at 1. by destruct m.
  - exact Hr.
  - intros id t Ht. unfold MockSubscriptionTerminal_with. specialize (He id t Ht). cbn in He. rewrite He. by destruct t.
Qed.

(** The checks of a load do not look at the resting asks. *)
Lemma valid_with_offers offers : consts_ok c → now < 2 ^ 63 → validate_persisted_state (set_ms_offers offers st) now = Ok ().
Proof.
  intros Hc Hn. pose proof (Inv_valid c now st Hc Hn HI) as Hv. unfold validate_persisted_state in *.
  apply bind_Ok in Hv as ([] & H1 & Hv). apply bind_Ok in Hv as ([] & H2 & Hv). apply bind_Ok in Hv as ([] & H3 & H4).
  cbn [ms_matches ms_match_created_at ms_deal_subscriptions ms_streams set_ms_offers] in *.
  change (validate_match (set_ms_offers offers st) now) with (validate_match st now).
  change (validate_stream (set_ms_offers offers st) now) with (validate_stream st now).
  rewrite H1. cbn [rbind]. rewrite H2. cbn [rbind]. rewrite H4.
  rewrite (proj2 (for_each_Ok _ _)); [done|]. apply for_each_Ok in H3. rewrite Forall_forall in H3 |- *.
  intros [tc sub] Hin. specialize (H3 _ Hin). cbn in H3. apply elem_of_map_to_list in Hin.
  destruct (deal_of c now st HI tc) as [[? _]|(o & s & k & buyer & created & Hd & _)]; [congruence|].
  unfold validate_persisted_deal_binding in *. cbn [ms_matched_offers set_ms_offers ms_matches ms_offer_sellers ms_matched_ticks].
  rewrite (da_matched _ _ _ _ _ _ _ _ _ Hd) in *. exact H3.
Qed.

(** A filled deal whose name the file changes does not pass them. *)
Lemma refused_name : ¬ map_Forall named (ms_matches st) → let st' := MockState_deserialize (MockState_serialize st) in
  ∃ e, (validate_persisted_state st' now ;? Ok st') = Err e.
Proof.
  intros Hnot st'. destruct (validate_persisted_state st' now) as [[]|e] eqn:Hv; [|by exists e]. destruct Hnot. intros tc m Hm.
  destruct (match_name tc m Hm) as [Hname [sub Hsub]]. unfold validate_persisted_state in Hv.
  apply bind_Ok in Hv as ([] & _ & Hv). apply bind_Ok in Hv as ([] & _ & Hv). apply bind_Ok in Hv as ([] & Hv & _).
  apply for_each_Ok in Hv. rewrite Forall_forall in Hv. unfold st' in Hv. rewrite reread_state in Hv.
  specialize (Hv (tc, sub)). cbn in Hv. specialize (Hv (proj2 (elem_of_map_to_list _ _ _) Hsub)).
  apply bind_Ok in Hv as ([] & _ & Hv). unfold validate_persisted_deal_binding in Hv. cbn in Hv.
  rewrite lookup_fmap, Hm in Hv. cbn in Hv. rewrite Hname in Hv.
  by destruct (String.eqb_spec (read_back tc) tc).
Qed.
End Reread.

Section Props.
Context (c : ProtocolConsts) (params : DobParams) (sha256 : string → list Byte.byte).

(** C2: Conservation of money.  In every reachable state and for every opened deal, the five
    balances the contract still holds and the three totals it paid out add up to exactly
    what the parties put in: the buyer's deposit for the funded ticks with its fee, the
    seller's two-tick bond and the buyer's, which only a subscription has.  No amount is
    negative, and a closed deal holds nothing. *)
Theorem deal_money_is_conserved now st tc cell sub :
  consts_ok c → Reach c params sha256 now st →
  ms_streams st !! tc = Some cell → ms_deal_subscriptions st !! tc = Some sub →
  ∃ o k, ms_matched_offers st !! tc = Some o ∧ ms_matched_ticks st !! tc = Some k ∧
    money_of cell = cost c (so_price_per_tick o) (k * TICK_SIZE) + 2 * so_price_per_tick o
                    + (if is_subscription sub then 2 * so_price_per_tick o else 0) ∧
    amounts_nonneg cell ∧ (sc_closed cell = true → nothing_locked cell).
Proof.
  intros Hc HR Hcell Hsub. destruct (reach_deal c params sha256 now st tc cell Hc HR Hcell)
    as (o & k & buyer & ph & [_ _ (Hwf & Ht & Hfit) Hmo Hk _ [_ H2] Hph ->]).
  exists o, k. split; [done|]. split; [done|].
  destruct (phase_money c _ now ph Hwf Ht Hfit Hph) as (Hsum & Hnn & Hcl).
  assert (is_subscription sub = tm_sub (terms_of o k buyer)) as ->
    by (assert (sub = phase_sub (terms_of o k buyer) ph) as -> by congruence; destruct ph; apply is_subscription_sub_of).
  done.
Qed.

(** C3: Durability.  What a reachable state stores is decided by the names of its contracts, for
    any JSON library that decodes what it encodes, at any later time.  If the file gives the
    name of every filled deal back, every check of the load passes and the loaded state is the
    stored one, but for resting asks of other names, which now carry the name the file gave;
    if it gives the name of every resting ask back too, the state is loaded unchanged.  A
    state with a filled deal whose name the file changes is refused. *)
Theorem stored_state_loads (decode : list Byte.byte → Result text MockState)
    (encode : MockState → Result text (list Byte.byte)) now0 now st bytes :
  consts_ok c → Reach c params sha256 now0 st → now0 ≤ now → now < 2 ^ 63 →
  (∀ bs, encode (MockState_serialize st) = Ok bs → bs ≠ [] ∧ decode bs = Ok (MockState_serialize st)) →
  store_state encode st = Ok bytes →
  let named tc := read_back tc = tc in
  (map_Forall (λ tc _, named tc) (ms_matches st) →
     load_state decode now (Bytes bytes) = Ok (set_ms_offers (SellOffer_with read_back <$> ms_offers st) st)) ∧
  (map_Forall (λ tc _, named tc) (ms_matches st) → map_Forall (λ tc _, named tc) (ms_offers st) →
     load_state decode now (Bytes bytes) = Ok st) ∧
  (¬ map_Forall (λ tc _, named tc) (ms_matches st) → ∃ e, load_state decode now (Bytes bytes) = Err e).
Proof.
  intros Hc HR Hle Hlt Hcodec Hstore named. destruct (Reach_inv c params sha256 Hc now0 st HR) as [HI0 _].
  pose proof (Inv_mono c now0 now st HI0 Hle) as HI. pose proof (Reach_orders_named c params sha256 Hc now0 st HR) as Hon.
  assert (load_state decode now (Bytes bytes) =
    (let? st' := Ok (MockState_deserialize (MockState_serialize st)) in validate_persisted_state st' now ;? Ok st')) as ->.
  { unfold store_state in Hstore. destruct (encode (MockState_serialize st)) as [bs|e] eqn:He; [|done]. injection Hstore as <-.
    destruct (Hcodec bs eq_refl) as [Hne Hdec]. destruct bs as [|b bs]; [done|]. cbn. by rewrite Hdec. }
  cbn [rbind]. assert (map_Forall (λ tc _, named tc) (ms_matches st) →
    (validate_persisted_state (MockState_deserialize (MockState_serialize st)) now ;? Ok (MockState_deserialize (MockState_serialize st)))
    = Ok (set_ms_offers (SellOffer_with read_back <$> ms_offers st) st)) as Hload.
  { intros Hm. by rewrite (reread_named c now st HI Hon Hm), (valid_with_offers c now st HI _ Hc Hlt). }
  split; [done|]. split.
  - intros Hm Ho. rewrite Hload by done. f_equal. by apply (offers_named c now st HI).
  - intros Hm. apply (refused_name c now st HI). exact Hm.
Qed.

(** C4: A deal can always be left.  While a deal of a reachable state is open and not
    disputed, the stop of its buyer and the stop of its seller succeed at any later time; a
    disputed deal can be released, and resolved once the dispute window is over.  Each of
    them stores a closed deal. *)
Theorem deal_can_be_left now0 now now' st tc cell :
  consts_ok c → Reach c params sha256 now0 st → now0 ≤ now ≤ now' → now' < 2 ^ 63 →
  ms_streams st !! tc = Some cell → sc_closed cell = false →
  let leaves (r : Result ChainError (option (MockState * Settlement))) := ∃ st' s cell',
    r = Ok (Some (st', s)) ∧ ms_streams st' !! tc = Some cell' ∧ sc_closed cell' = true in
  (sc_disputed cell = false →
     leaves (stop c now now' tc (sc_buyer_pubkey cell) st) ∧ leaves (seller_stop c now now' tc st)) ∧
  (sc_disputed cell = true → leaves (release_dispute c tc st) ∧
     (sc_dispute_time cell + as_secs (dispute_window c) ≤ now → leaves (resolve_dispute_timeout c now tc st))).
Proof.
  intros Hc HR [Hle Hle'] Hlt Hcell Hopen leaves.
  destruct (reach_deal c params sha256 now0 st tc cell Hc HR Hcell)
    as (o & k & buyer & ph & [_ _ (Hwf & Ht & Hfit) Hmo Hk _ Hh Hph ->]). set (t := terms_of o k buyer) in *.
  assert (∀ (r : Result ChainError (option (MockState * Settlement))) spec,
    result_ok r = option_map (λ '(ph', s), Some (put c t tc ph' st, s)) spec →
    (∃ ph' s, spec = Some (ph', s) ∧ sc_closed (phase_cell c t ph') = true) → leaves r) as Hleaves.
  { intros r spec Hr (ph' & s & -> & Hcl). exists (put c t tc ph' st), s, (phase_cell c t ph').
    split; [by apply result_ok_Some|]. split; [by slots|done]. }
  split; intros Hd.
  - pose proof (buyer_is_actor st tc _ "stop" Hcell) as Hactor. split; (eapply Hleaves; [|]).
    + unfold stop. rewrite Hactor. cbn [rbind]. by apply (stop_refines c t tc Hwf Ht Hfit st ph now0 Hh Hph).
    + destruct ph; try done; cbn; eauto.
    + by apply (seller_stop_refines c t tc Hwf Ht Hfit st ph now0 Hh Hph).
    + destruct ph; try done; cbn; eauto.
  - split; [|intros Hdue]; (eapply Hleaves; [|]).
    + apply (resolve_refines c t tc Hwf Ht Hfit st ph now0 Hh Hph). lia.
    + destruct ph; try done; cbn; eauto.
    + apply (resolve_timeout_refines c t tc Hwf Ht Hfit st ph now0 Hh Hph). lia.
    + unfold phase_resolve_timeout. destruct ph; try done; cbn in Hdue |- *;
        rewrite (proj2 (Z.leb_le _ _)) by lia; cbn; eauto.
Qed.

(** C40: No panic.  On a reachable state none of the calls whose code unwraps the result of a
    machine transition panics, at whatever contract and whoever calls. *)
Theorem exits_never_panic now0 now now' st tc note :
  consts_ok c → Reach c params sha256 now0 st → now0 ≤ now ≤ now' → now' < 2 ^ 63 →
  stop c now now' tc note st ≠ Ok None ∧ seller_stop c now now' tc st ≠ Ok None ∧
  release_dispute c tc st ≠ Ok None ∧ resolve_dispute_timeout c now tc st ≠ Ok None.
Proof.
  intros Hc HR [Hle Hle'] Hlt. destruct (ms_streams st !! tc) as [cell|] eqn:Hcell.
  2:{ unfold stop, require_mock_buyer_actor, seller_stop, release_dispute, resolve_dispute_timeout, borrow_deal.
      by rewrite Hcell. }
  destruct (reach_deal c params sha256 now0 st tc cell Hc HR Hcell)
    as (o & k & buyer & ph & [_ _ (Hwf & Ht & Hfit) _ _ _ Hh Hph _]). set (t := terms_of o k buyer) in *.
  assert (∀ (r : Result ChainError (option (MockState * Settlement))) spec,
    result_ok r = option_map (λ '(ph', s), Some (put c t tc ph' st, s)) spec → r ≠ Ok None) as Hno.
  { intros r spec Hr ->. destruct spec as [[]|]; done. }
  split_and!.
  - unfold stop. destruct (require_mock_buyer_actor _ _ _ _) as [[]|]; [|done].
    eapply Hno. by apply (stop_refines c t tc Hwf Ht Hfit st ph now0 Hh Hph).
  - eapply Hno. by apply (seller_stop_refines c t tc Hwf Ht Hfit st ph now0 Hh Hph).
  - eapply Hno. apply (resolve_refines c t tc Hwf Ht Hfit st ph now0 Hh Hph). lia.
  - eapply Hno. apply (resolve_timeout_refines c t tc Hwf Ht Hfit st ph now0 Hh Hph). lia.
Qed.
End Props.

(** ** At concrete deals *)

Lemma deal_money_is_conserved_witness :
  amounts_nonneg (sample_cell (claimed subscription)) ∧ ∃ o k,
    money_of (sample_cell (claimed subscription))
    = cost ProtocolConsts_canonical (so_price_per_tick o) (k * TICK_SIZE) + 2 * so_price_per_tick o
      + (if is_subscription (sample_shape (claimed subscription)) then 2 * so_price_per_tick o else 0).
Proof.
  destruct (deal_money_is_conserved ProtocolConsts_canonical DobParams_canonical sample_sha256 10100
    (sample_state (claimed subscription)) "tc" (sample_cell (claimed subscription)) (sample_shape (claimed subscription)))
    as (o & k & _ & _ & Hsum & Hnn & _); [evaluated..|].
  split; [exact Hnn|]. exists o, k. exact Hsum.
Defined.

(** A state whose names the file gives back, and one whose contract was named in the public form. *)
Lemma stored_state_loads_witness :
  let st := sample_state (disputed ordinary) in
  load_state (λ _, Ok (MockState_serialize st)) 20000 (Bytes [x7b; x7d]) = Ok st.
Proof.
  intros st. refine (proj1 (proj2 (stored_state_loads ProtocolConsts_canonical DobParams_canonical sample_sha256
    (λ _, Ok (MockState_serialize st)) (λ _, Ok [x7b; x7d]) 10200 20000 st [x7b; x7d] _ _ _ _ _ _)) _ _); [evaluated..| |reflexivity| |].
  - intros bs [= <-]. split; [discriminate|reflexivity].
  - cbv beta zeta. apply (bool_decide_eq_true_1 _). vm_compute. reflexivity.
  - cbv beta zeta. apply (bool_decide_eq_true_1 _). vm_compute. reflexivity.
Defined.
Definition public_name : string := DEXDO_DAPP_ID +:+ "::" +:+ DEXDO_DAPP_ID.
Definition public_bought : list timed_op :=
  [(DoPostOffer {| so_token_contract := public_name; so_price_per_tick := PRICE_STEP; so_max_ticks := 8; so_flags := ordinary |}
      sample_seller, 1000, 1000);
   (DoPlaceBuy public_name sample_buyer (Some 8), 1001, 1002)].
Example public_names_are_refused : let st := sample_state public_bought in
  ∃ e, load_state (λ _, Ok (MockState_serialize st)) 20000 (Bytes [x7b; x7d]) = Err e.
Proof. vm_compute. eexists. reflexivity. Qed.

Lemma deal_can_be_left_witness :
  ∃ st' s, seller_stop ProtocolConsts_canonical 10200 10201 "tc" (sample_state (claimed ordinary)) = Ok (Some (st', s)).
Proof.
  destruct (deal_can_be_left ProtocolConsts_canonical DobParams_canonical sample_sha256 10100 10200 10201
    (sample_state (claimed ordinary)) "tc" (sample_cell (claimed ordinary))) as [Hstop _]; [evaluated..|].
  destruct Hstop as [_ (st' & s & cell' & Hok & _)]; [evaluated|]. exists st', s. exact Hok.
Defined.

Lemma exits_never_panic_witness :
  stop ProtocolConsts_canonical 10200 10201 "tc" sample_buyer (sample_state (claimed ordinary)) ≠ Ok None.
Proof.
  destruct (exits_never_panic ProtocolConsts_canonical DobParams_canonical sample_sha256 10100 10200 10201
    (sample_state (claimed ordinary)) "tc" sample_buyer) as [Hno _]; [evaluated..|]. exact Hno.
Defined.
