(* ===== verification/MockPayout.v ===== *)
(** * What every exit of a deal pays

    The exact result of both stops, of the walk-away from a probe and of the two ends of a
    dispute, in the amounts of the stored cell. *)
From S2P Require Import Prelude RustText Params Address DealTypes Machine Quote.
From S2P Require Import MockData MockMoney MockBook MockDeal DealSpec.
From S2P Require Import DealExits DealPhase MockRefine MockInv MockRun.
From S2P Require Import MockProps.
From Stdlib Require Import Strings.Byte.

#[local] Arguments umax : simpl never.

(** The weeks of a deal completed at [now], or begun when [started]. *)
Definition weeks_due (sub : DealSubscription) (now : Z) (started : bool) : Z :=
  let elapsed := Z.min ((now - period_start sub) / as_secs SUB_WEEK_LEN) (sub_weeks sub) in
  if started && (elapsed <? sub_weeks sub) then elapsed + 1 else elapsed.
(** The tokens a deal has paid for once these weeks are charged. *)
Definition paid_through (sub : DealSubscription) (weeks : Z) : Z :=
  if is_subscription sub && (week_index sub <? weeks) then weeks * tokens_per_week sub else tokens_paid sub.
(** The tokens trusted at [now]: a claim counts once its promotion window is over. *)
Definition trusted_at (c : ProtocolConsts) (cell : StreamCell) (now : Z) : Z :=
  if now >=? sc_last_claim_time cell + as_secs (claim_promote_window c) then sc_tokens_pending cell
  else sc_tokens_final cell.

(** The deal of [tc] closed with [paid] tokens paid for and [trusted] delivered. *)
Definition closed_with (c : ProtocolConsts) (st' : MockState) (tc : string) (o : SellOffer) (k : Z)
    (cell : StreamCell) (trusted paid : Z) : Prop :=
  ∃ cell', ms_streams st' !! tc = Some cell' ∧ sc_closed cell' = true ∧ nothing_locked cell' ∧
    sc_tokens_final cell' = trusted ∧
    let P := so_price_per_tick o in
    let fee := fee_of c P paid in
    let rebate := rebate_of c P (trusted / TICK_SIZE) fee in
    sc_seller_received cell' = pay P paid + rebate + 2 * P ∧
    sc_buyer_refunded cell' = cost c P (k * TICK_SIZE) - cost c P paid + sc_buyer_bond cell ∧
    sc_burned cell' = fee - rebate.

(** The amounts of a closed cell, from facts about its payout. *)
Ltac amounts :=
  cbn [phase_cell closed_cell sc_burned sc_buyer_refunded sc_seller_received sc_tokens_final sc_tokens_pending sc_closed];
  split_and!; try done; try lia.

Section Stops.
Context (c : ProtocolConsts) (params : DobParams) (sha256 : string → list Byte.byte).

Lemma books_paid_through t period now incl tq b :
  bk_paid (books_at t period now incl tq b) = paid_through (sub_at t period b) (weeks_due (sub_at t period b) now incl).
Proof.
  unfold books_at, paid_through, charge. unfold sub_at at 1. rewrite is_subscription_sub_of.
  change (weeks_due (sub_at t period b) now incl) with (weeks_at t period now incl).
  change (week_index (sub_at t period b)) with (bk_week b). destruct (tm_sub t); cbn [andb]; [|done].
  destruct (Z.leb_spec (weeks_at t period now incl) (bk_week b)), (Z.ltb_spec (bk_week b) (weeks_at t period now incl)); try lia; done.
Qed.

(** The close of a deal with these books. *)
Lemma close_phase_closed t st tc o k opened period last tf tq b settled cell :
  so_price_per_tick o = tm_price t → k = tm_ticks t → sc_buyer_bond cell = tm_bond t →
  closed_with c (put c t tc (close_phase c t opened period last tf tq b settled) st) tc o k cell tf (bk_paid b).
Proof.
  intros Hp Hk Hb. eexists. split; [by slots|]. rewrite Hp, Hk, Hb. done.
Qed.

(** The buyer's stop.  On an accepted deal that is open and not disputed, the stop of the
    buyer first trusts the claims whose promotion window is over, then charges every week of
    a subscription that has begun, then the trusted tokens beyond: it pays exactly these
    tokens, refunds the rest of the deposit and the buyer's bond, returns the seller's bond
    with the rebate, and burns the fee that is left.  The refund and the seller's total are
    recorded for the buyer. *)
Theorem buyer_stop_pays now0 now now' st tc cell sub :
  consts_ok c → Reach c params sha256 now0 st → now0 ≤ now ≤ now' → now' < 2 ^ 63 →
  ms_streams st !! tc = Some cell → ms_deal_subscriptions st !! tc = Some sub →
  sc_closed cell = false → sc_disputed cell = false → sc_probe_accepted cell = true →
  let trusted := trusted_at c cell now in
  let paid := Z.max (paid_through sub (weeks_due sub now' true)) trusted in
  ∃ o k st' cell', ms_matched_offers st !! tc = Some o ∧ ms_matched_ticks st !! tc = Some k ∧
    stop c now now' tc (sc_buyer_pubkey cell) st = Ok (Some (st', AmicableSplit (paid / TICK_SIZE) (sc_buyer_refunded cell'))) ∧
    closed_with c st' tc o k cell trusted paid ∧
    ms_streams st' !! tc = Some cell' ∧
    buyer_stop_settlement st' tc = Some (sc_seller_received cell', sc_buyer_refunded cell').
Proof.
  intros Hc HR [Hle Hle'] Hlt Hcell Hsub Hopen Hdis Hacc trusted paid.
  destruct (reach_deal c params sha256 now0 st tc cell Hc HR Hcell)
    as (o & k & buyer & ph & [_ _ (Hwf & Ht & Hfit) Hmo Hk _ Hh Hph ->]). set (t := terms_of o k buyer) in *.
  assert (sub = phase_sub t ph) as -> by (destruct Hh; congruence).
  destruct ph as [|opened period last tf tq b| | |]; try done.
  pose proof (buyer_is_actor st tc _ "stop" Hcell) as Hactor.
  pose proof (stop_refines c t tc Hwf Ht Hfit st _ now0 Hh Hph now now' Hle Hle' Hlt) as Hstop.
  cbn [phase_stop option_map] in Hstop. apply result_ok_Some in Hstop.
  assert (bk_paid (stop_books t period now' (promoted c tf tq last now) tq b) = paid) as Hpaid
    by (cbn [stop_books pay_trusted bk_paid]; by rewrite books_paid_through).
  clearbody paid. subst paid.
  exists o, k, (put c t tc (close_phase c t opened period last (promoted c tf tq last now) tq
      (stop_books t period now' (promoted c tf tq last now) tq b) true) st),
    (phase_cell c t (close_phase c t opened period last (promoted c tf tq last now) tq
      (stop_books t period now' (promoted c tf tq last now) tq b) true)).
  split; [done|]. split; [done|]. split; [|split; [by apply close_phase_closed|split; [by slots|]]].
  - unfold stop. by rewrite Hactor.
  - unfold buyer_stop_settlement. by slots.
Qed.

(** The seller's stop.  It differs from the buyer's in the week that is not over: a
    subscription pays the completed weeks only, not the one in progress nor the tokens
    delivered in it; an ordinary deal pays its trusted tokens. *)
Theorem seller_stop_pays now0 now now' st tc cell sub :
  consts_ok c → Reach c params sha256 now0 st → now0 ≤ now ≤ now' → now' < 2 ^ 63 →
  ms_streams st !! tc = Some cell → ms_deal_subscriptions st !! tc = Some sub →
  sc_closed cell = false → sc_disputed cell = false → sc_probe_accepted cell = true →
  let trusted := trusted_at c cell now in
  let paid := if is_subscription sub then paid_through sub (weeks_due sub now' false)
              else Z.max (tokens_paid sub) trusted in
  ∃ o k st' cell', ms_matched_offers st !! tc = Some o ∧ ms_matched_ticks st !! tc = Some k ∧
    seller_stop c now now' tc st = Ok (Some (st', AmicableSplit (paid / TICK_SIZE) (sc_buyer_refunded cell'))) ∧
    closed_with c st' tc o k cell trusted paid ∧
    ms_streams st' !! tc = Some cell' ∧ buyer_stop_settlement st' tc = None.
Proof.
  intros Hc HR [Hle Hle'] Hlt Hcell Hsub Hopen Hdis Hacc trusted paid.
  destruct (reach_deal c params sha256 now0 st tc cell Hc HR Hcell)
    as (o & k & buyer & ph & [_ _ (Hwf & Ht & Hfit) Hmo Hk _ Hh Hph ->]). set (t := terms_of o k buyer) in *.
  assert (sub = phase_sub t ph) as -> by (destruct Hh; congruence).
  destruct ph as [|opened period last tf tq b| | |]; try done.
  pose proof (seller_stop_refines c t tc Hwf Ht Hfit st _ now0 Hh Hph now now' Hle Hle' Hlt) as Hstop.
  cbn [phase_seller_stop option_map] in Hstop. apply result_ok_Some in Hstop.
  assert (bk_paid (seller_stop_books t period now' (promoted c tf tq last now) tq b) = paid) as Hpaid.
  { unfold paid, seller_stop_books. cbn [phase_sub]. unfold sub_at at 1. rewrite is_subscription_sub_of.
    pose proof (books_paid_through t period now' false tq b) as Hb. unfold books_at in *.
    destruct (tm_sub t); [done|]. reflexivity. }
  clearbody paid. subst paid.
  exists o, k, (put c t tc (close_phase c t opened period last (promoted c tf tq last now) tq
      (seller_stop_books t period now' (promoted c tf tq last now) tq b) false) st),
    (phase_cell c t (close_phase c t opened period last (promoted c tf tq last now) tq
      (seller_stop_books t period now' (promoted c tf tq last now) tq b) false)).
  split; [done|]. split; [done|]. split; [exact Hstop|]. split; [by apply close_phase_closed|]. split; [by slots|].
  unfold buyer_stop_settlement. by slots.
Qed.

(** Walking away from the probe.  Before the probe is accepted the buyer's stop burns the
    probe and as much of the seller's bond and leaves the rest to its owners; the seller's
    stop burns only a tick of its own bond and refunds the buyer in full. *)
Theorem probe_stop_burns now0 now now' st tc cell :
  consts_ok c → Reach c params sha256 now0 st → now0 ≤ now ≤ now' → now' < 2 ^ 63 →
  ms_streams st !! tc = Some cell → sc_closed cell = false → sc_disputed cell = false →
  sc_probe_accepted cell = false →
  let P := sm_price (sc_machine cell) in
  let deposit := sc_buyer_locked cell + sc_probe_locked cell in
  let ends st' received refunded burned := ∃ cell', ms_streams st' !! tc = Some cell' ∧ sc_closed cell' = true ∧
    nothing_locked cell' ∧ sc_seller_received cell' = received ∧ sc_buyer_refunded cell' = refunded ∧ sc_burned cell' = burned in
  sc_probe_locked cell = P ∧
  (∃ st' receipt, stop c now now' tc (sc_buyer_pubkey cell) st = Ok (Some (st', BurnBoth receipt)) ∧
     ends st' P (deposit - P + sc_buyer_bond cell) (2 * P)) ∧
  (∃ st', seller_stop c now now' tc st = Ok (Some (st', AmicableSplit 0 (deposit + sc_buyer_bond cell))) ∧
     ends st' P (deposit + sc_buyer_bond cell) P).
Proof.
  intros Hc HR [Hle Hle'] Hlt Hcell Hopen Hdis Hacc P deposit ends.
  destruct (reach_deal c params sha256 now0 st tc cell Hc HR Hcell)
    as (o & k & buyer & ph & [_ _ (Hwf & Ht & Hfit) Hmo Hk _ Hh Hph ->]). set (t := terms_of o k buyer) in *.
  destruct ph as [opened period| | | |accepted]; try done.
  pose proof (buyer_is_actor st tc _ "stop" Hcell) as Hactor.
  pose proof (stop_refines c t tc Hwf Ht Hfit st _ now0 Hh Hph now now' Hle Hle' Hlt) as Hstop.
  pose proof (seller_stop_refines c t tc Hwf Ht Hfit st _ now0 Hh Hph now now' Hle Hle' Hlt) as Hsell.
  apply result_ok_Some in Hstop, Hsell. assert (deposit = tm_deposit c t) as Hdep by (unfold deposit; cbn; lia).
  assert (P = tm_price t) as HP by done. assert (sc_buyer_bond (phase_cell c t (PhProbe opened period)) = tm_bond t) as Hbond by done.
  clearbody deposit P. subst deposit P. rewrite Hbond. split; [done|]. split.
  - eexists _, _. split; [unfold stop; rewrite Hactor; exact Hstop|]. eexists. split; [by slots|]. done.
  - eexists _. split; [exact Hsell|]. eexists. split; [by slots|]. done.
Qed.
(** The stake of a dispute about the probe is one tick. *)
Lemma probe_stake t : consts_wf c → terms_ok c t → buyer_stake c t (probe_escrow c t) 0 0 no_books = tm_price t.
Proof.
  intros Hwf Ht. destruct (ok_price _ _ Ht), (ok_ticks _ _ Ht). pose proof (funded_bounds c t Ht) as Hf.
  destruct (paid_facts c t Hwf Ht (tm_funded t) ltac:(unfold TICK_SIZE in *; lia)) as (_ & ? & Hcost & _).
  rewrite (funded_pay t) in Hcost. assert (cost c (tm_price t) (tm_funded t) = tm_deposit c t) as Hd by done.
  assert (owed_tokens t 0 no_books = 0) as Ho by (unfold owed_tokens, week_base; cbn; by destruct (tm_sub t)).
  assert (claimed_stake c t (probe_escrow c t) 0 no_books = tm_price t) as Hcl.
  { unfold claimed_stake. rewrite Ho, cost_zero. unfold tm_bond. destruct (tm_sub t); cbn; nia. }
  unfold buyer_stake, left_after_credit. rewrite Ho, cost_zero, Hcl. destruct (tm_sub t); [done|]. cbn. nia.
Qed.

(** The two ends of a dispute differ by the stake of the seller. *)
Lemma timeout_payout t accepted tf tq last at_ e b period :
  consts_wf c → terms_ok c t → frozen_ok c t tf tq last at_ e b → (accepted = true → period ≤ at_) →
  let tf' := promoted c tf tq last at_ in
  let stake := buyer_stake c t e tf' tq b in
  let released := dispute_payout c t false accepted e tf' tq period at_ b in
  let timed_out := dispute_payout c t true accepted e tf' tq period at_ b in
  seller_stake c t false e tf' tq b = 0 ∧ seller_stake c t true e tf' tq b = stake ∧
  to_buyer timed_out = to_buyer released ∧ to_seller timed_out = to_seller released - stake ∧
  to_burn timed_out = to_burn released + stake ∧ 0 ≤ stake ≤ Z.min (2 * tm_price t) (to_burn released).
Proof.
  intros Hwf Ht Hfr Hper tf' stake. pose proof (promoted_between c t tf tq last at_ e b Hfr) as Hpr.
  destruct (stake_bounds c t Hwf Ht _ _ _ _ _ _ Hfr tf' Hpr) as (Hs0 & Hs2 & _ & _ & _ & _ & ?).
  destruct (refundable_spec c t EmptyString Hwf Ht _ _ _ _ _ _ Hfr Opening false accepted 0 period tf' b Hpr Hper)
    as [_ Href]. pose proof (fr_parts _ _ _ _ _ _ _ _ Hfr).
  fold stake in Hs0, Hs2. cbn. unfold seller_stake. fold stake. lia.
Qed.

(** Letting a dispute run out.  A disputed deal can be released by the seller or, when
    the window is over, resolved by the timeout.  Both void the same pending claims and
    refund the buyer the same amount, and the buyer loses the same stake; the timeout also
    burns as much of the seller's bond, at most the bond of two ticks and exactly one tick
    when the dispute is about the probe. *)
Theorem dispute_timeout_burns_the_bond now0 now st tc cell :
  consts_ok c → Reach c params sha256 now0 st → now0 < 2 ^ 63 →
  ms_streams st !! tc = Some cell → sc_disputed cell = true →
  sc_dispute_time cell + as_secs (dispute_window c) ≤ now →
  let P := sm_price (sc_machine cell) in
  ∃ st1 st2 cell1 cell2 stake,
    release_dispute c tc st = Ok (Some (st1, SellerNoShow (sc_buyer_refunded cell1) (2 * P))) ∧
    resolve_dispute_timeout c now tc st = Ok (Some (st2, SellerNoShow (sc_buyer_refunded cell2) (2 * P - stake))) ∧
    ms_streams st1 !! tc = Some cell1 ∧ ms_streams st2 !! tc = Some cell2 ∧
    sc_closed cell1 = true ∧ sc_closed cell2 = true ∧
    sc_tokens_pending cell1 = sc_tokens_final cell1 ∧ sc_tokens_final cell2 = sc_tokens_final cell1 ∧
    sc_buyer_refunded cell2 = sc_buyer_refunded cell1 ∧
    sc_seller_received cell2 = sc_seller_received cell1 - stake ∧ sc_burned cell2 = sc_burned cell1 + stake ∧
    0 ≤ stake ≤ Z.min (2 * P) (sc_burned cell1) ∧ (sc_probe_accepted cell = false → stake = P).
Proof.
  intros Hc HR Hlt Hcell Hdis Hdue P.
  destruct (reach_deal c params sha256 now0 st tc cell Hc HR Hcell)
    as (o & k & buyer & ph & [_ _ (Hwf & Ht & Hfit) Hmo Hk _ Hh Hph ->]). set (t := terms_of o k buyer) in *.
  pose proof (resolve_refines c t tc Hwf Ht Hfit st ph now0 Hh Hph false Hlt) as Hrel.
  pose proof (resolve_timeout_refines c t tc Hwf Ht Hfit st ph now0 Hh Hph now Hlt) as Htime.
  change (result_ok (release_dispute c tc st) = option_map (λ '(ph', s), Some (put c t tc ph' st, s)) (phase_resolve c t false ph)) in Hrel.
  assert (P = tm_price t) as HP by (destruct ph; done). clearbody P. subst P.
  unfold phase_resolve_timeout in Htime. destruct (ok_price _ _ Ht).
  destruct ph as [| |opened period at_|opened period last tf tq b at_|]; try done;
    cbn [phase_disputed_at obind] in Htime; rewrite (proj2 (Z.leb_le _ _)) in Htime by exact Hdue;
    cbn [phase_resolve option_map] in Hrel, Htime; apply result_ok_Some in Hrel, Htime.
  - destruct Hph as (Ho & Hat & _). pose proof (frozen_probe c t Hwf Ht Hfit opened at_ ltac:(lia) ltac:(lia)) as Hfr.
    pose proof (timeout_payout t false _ _ _ _ _ _ period Hwf Ht Hfr ltac:(done)) as Hpay.
    assert (promoted c 0 0 opened at_ = 0) as Hpr by (unfold promoted; by destruct (at_ >=? _)).
    cbv zeta in Hpay. rewrite Hpr in Hpay. destruct Hpay as (Hs1 & Hs2 & ? & ? & ? & ?). rewrite Hs2 in Htime. rewrite Hs1, Z.sub_0_r in Hrel.
    match type of Hrel with _ = Ok (Some (put _ _ _ ?ph1 _, _)) =>
    match type of Htime with _ = Ok (Some (put _ _ _ ?ph2 _, _)) =>
      exists (put c t tc ph1 st), (put c t tc ph2 st), (phase_cell c t ph1), (phase_cell c t ph2),
        (buyer_stake c t (probe_escrow c t) 0 0 no_books) end end.
    split; [exact Hrel|]. split; [exact Htime|]. do 2 (split; [by slots|]).
    amounts. intros _. by apply probe_stake.
  - destruct Hph as (Ho & Hl & Hat & Hb).
    pose proof (books_at_ok c t Ht period at_ false tf tq b Hb ltac:(lia)) as Hb'.
    set (b' := books_at t period at_ false tq b) in *.
    pose proof (frozen_accepted c t Hwf Ht tf tq last at_ b' Hb' ltac:(lia) ltac:(lia)) as Hfr.
    pose proof (timeout_payout t true _ _ _ _ _ _ period Hwf Ht Hfr ltac:(intros; lia)) as Hpay.
    cbv zeta in Hpay. destruct Hpay as (Hs1 & Hs2 & ? & ? & ? & ?). rewrite Hs2 in Htime. rewrite Hs1, Z.sub_0_r in Hrel.
    match type of Hrel with _ = Ok (Some (put _ _ _ ?ph1 _, _)) =>
    match type of Htime with _ = Ok (Some (put _ _ _ ?ph2 _, _)) =>
      exists (put c t tc ph1 st), (put c t tc ph2 st), (phase_cell c t ph1), (phase_cell c t ph2),
        (buyer_stake c t (escrow_of c t b') (promoted c tf tq last at_) tq b') end end.
    split; [exact Hrel|]. split; [exact Htime|]. do 2 (split; [by slots|]).
    amounts.
Qed.
End Stops.

(** ** At concrete deals *)

Lemma buyer_stop_pays_witness :
  ∃ st' refund, stop ProtocolConsts_canonical 10300 10301 "tc" sample_buyer (sample_state (claimed subscription))
    = Ok (Some (st', AmicableSplit 2 refund)).
Proof.
  destruct (buyer_stop_pays ProtocolConsts_canonical DobParams_canonical sample_sha256 10100 10300 10301
    (sample_state (claimed subscription)) "tc" (sample_cell (claimed subscription)) (sample_shape (claimed subscription)))
    as (o & k & st' & cell' & _ & _ & Hstop & _); [evaluated..|].
  exists st', (sc_buyer_refunded cell'). etransitivity; [|etransitivity; [exact Hstop|]]; vm_compute; reflexivity.
Defined.

Lemma seller_stop_pays_witness :
  ∃ o k st', closed_with ProtocolConsts_canonical st' "tc" o k (sample_cell (claimed subscription)) (2 * TICK_SIZE) TICK_SIZE.
Proof.
  destruct (seller_stop_pays ProtocolConsts_canonical DobParams_canonical sample_sha256 10100 10300 10301
    (sample_state (claimed subscription)) "tc" (sample_cell (claimed subscription)) (sample_shape (claimed subscription)))
    as (o & k & st' & cell' & _ & _ & _ & Hcl & _); [evaluated..|].
  exists o, k, st'.
  replace (2 * TICK_SIZE) with (trusted_at ProtocolConsts_canonical (sample_cell (claimed subscription)) 10300)
    by (vm_compute; reflexivity).
  exact Hcl.
Defined.

Lemma probe_stop_burns_witness :
  sc_probe_locked (sample_cell (opened ordinary)) = PRICE_STEP.
Proof.
  destruct (probe_stop_burns ProtocolConsts_canonical DobParams_canonical sample_sha256 1010 1011 1012
    (sample_state (opened ordinary)) "tc" (sample_cell (opened ordinary))) as [Hp _]; [evaluated..|].
  etransitivity; [exact Hp|]. vm_compute. reflexivity.
Defined.

Lemma dispute_timeout_burns_the_bond_witness :
  ∃ st2 s2, resolve_dispute_timeout ProtocolConsts_canonical 10800 "tc" (sample_state (disputed subscription))
    = Ok (Some (st2, s2)).
Proof.
  destruct (dispute_timeout_burns_the_bond ProtocolConsts_canonical DobParams_canonical sample_sha256 10200 10800
    (sample_state (disputed subscription)) "tc" (sample_cell (disputed subscription)))
    as (st1 & st2 & cell1 & cell2 & stake & _ & Ht & _); [evaluated..|].
  eexists st2, _. exact Ht.
Defined.
