(* ===== verification/MockClaims.v ===== *)
(** * Claims: what a seller may declare and what a buyer can be exposed to

    When a claim is accepted, how the ceiling the client computes from the recorded books
    compares to the one the handler applies, and that the monitor finds no anomaly. *)
From S2P Require Import Prelude RustText Params Address DealTypes Machine Quote.
From S2P Require Import Monitor MockData MockMoney MockBook MockDeal DealSpec.
From S2P Require Import DealExits DealPhase MockRefine MockInv MockRun.
From S2P Require Import MockProps MockPayout.
From Stdlib Require Import Strings.Byte.

#[local] Arguments umax : simpl never.

(** The ceiling a claim at [now] is held to: the elapsed weeks are charged, then the cap of
    the current week is computed. *)
Definition cap_now (c : ProtocolConsts) (now : Z) (tc : string) (cell : StreamCell) (sub : DealSubscription)
    : Result ChainError Z :=
  let? '(cell, sub, _crossed) := charge_elapsed_subscription_weeks tc cell sub now c in claim_cap tc cell sub.

Section Claims.
Context (c : ProtocolConsts) (params : DobParams) (sha256 : string → list Byte.byte).

(** What the readers report of an opened deal. *)
Lemma opened_state now st tc cell o k buyer ph : deal_view_at c now st tc cell o k buyer ph →
  ms_streams st !! tc = Some cell →
  ∃ created, mock_deal_state st tc c = Ok (Some (opened_deal_state cell created)).
Proof.
  intros [(created & H1 & Hcr) _ _ _ _ Hm _ _ _] Hcell. exists created. unfold mock_deal_state, mock_funded_time.
  rewrite Hm, Hcr, Hcell, bool_decide_eq_true_2 by eauto. cbn [ok_or rbind rmap].
  destruct (Z.ltb_spec created 0); [lia|]. done.
Qed.

(** The cap of the phase after the charge. *)
Lemma cap_now_spec t tc opened period last tf tq b now :
  consts_wf c → terms_ok c t → books_ok t tf tq b → period ≤ now → tm_sub t = true →
  cap_now c now tc (open_cell c t opened (bk_paid b) tf tq last) (sub_at t period b)
  = Ok (week_cap t tq (books_at t period now false tq b)).
Proof.
  intros Hwf Ht Hb Hp Hs. unfold cap_now.
  eapply bind_step; [by apply (charge_elapsed c t tc Hwf Ht _ opened tf tq last period now b Hb Hs Hp)|]. cbn iota.
  pose proof (books_at_ok c t Ht period now false tf tq b Hb Hp) as Hb'. set (b' := books_at t period now false tq b) in *.
  pose proof (accepted_paid c t Ht _ _ _ _ _ Hb') as (? & ? & ? & ?). pose proof (funded_bounds c t Ht).
  pose proof (per_week_bounds c t Ht) as [? Hpw]. specialize (Hpw Hs).
  unfold claim_cap, week_cap. cbn [sub_at sub_of week_index sub_weeks week_base_tokens tokens_per_week funded_tokens
    at_books accepted_cell live_cell sc_tokens_pending]. unfold tm_weeks. rewrite Hs.
  destruct (bk_week b' >=? SUBSCRIPTION_WEEKS); [done|].
  rewrite checked_add_fits by (unfold umax, SUBSCRIPTION_WEEKS, TICK_SIZE in *; lia). done.
Qed.

(** The recorded ceiling.  For an accepted subscription the ceiling a client computes
    from the recorded books is exact while no weekly boundary has passed unbooked, never
    above the handler's while the term runs, and never below it once the last boundary has
    passed, where the handler admits no new claim at all.  The headroom a client derives
    from it never fails. *)
Theorem recorded_cap_phases now0 now st tc cell sub :
  consts_ok c → Reach c params sha256 now0 st → now0 ≤ now → now < 2 ^ 63 →
  ms_streams st !! tc = Some cell → ms_deal_subscriptions st !! tc = Some sub →
  is_subscription sub = true → open_accepted cell = true →
  let weeks := weeks_due sub now false in
  ∃ state cap cap', mock_deal_state st tc c = Ok (Some state) ∧
    subscription_claim_cap_at state sub = Ok cap ∧ cap_now c now tc cell sub = Ok cap' ∧
    subscription_current_week_headroom state sub = Ok (cap - sc_tokens_pending cell) ∧
    (weeks ≤ week_index sub → cap' = cap) ∧
    (week_index sub < weeks < sub_weeks sub → cap ≤ cap') ∧
    (sub_weeks sub ≤ Z.max weeks (week_index sub) → cap' = sc_tokens_pending cell ∧ cap' ≤ cap).
Proof.
  intros Hc HR Hle Hlt Hcell Hsub His Hopen weeks.
  destruct (reach_deal c params sha256 now0 st tc cell Hc HR Hcell) as (o & k & buyer & ph & Hview).
  destruct (opened_state _ _ _ _ _ _ _ _ Hview Hcell) as [created Hstate].
  destruct Hview as [_ _ (Hwf & Ht & Hfit) _ _ _ [_ H2] Hph ->]. set (t := terms_of o k buyer) in *.
  assert (sub = phase_sub t ph) as -> by congruence.
  destruct ph as [|opened period last tf tq b| | |]; try done. cbn [phase_sub] in *. clear Hopen.
  unfold sub_at in His at 1. rewrite is_subscription_sub_of in His. destruct Hph as (Ho & Hl & Hb).
  pose proof (accepted_paid c t Ht _ _ _ _ _ Hb) as (? & ? & ? & ?). pose proof (funded_bounds c t Ht).
  pose proof (per_week_bounds c t Ht) as [? Hpw]. specialize (Hpw His).
  set (cap := if bk_week b >=? SUBSCRIPTION_WEEKS then tq else Z.min (bk_base b + tm_per_week t) (tm_funded t)).
  assert (tq ≤ cap) as Hcap.
  { destruct Hb as [Hcl _ Hf _ Hcap]. specialize (Hcap His). unfold cap.
    rewrite Z.geb_leb in *. destruct (Z.ltb_spec (bk_week b) SUBSCRIPTION_WEEKS), (Z.leb_spec SUBSCRIPTION_WEEKS (bk_week b)); lia. }
  assert (∀ cs, cs_tokens_pending cs = tq → subscription_claim_cap_at cs (sub_at t period b) = Ok cap) as Hclient.
  { intros cs Hcs. unfold subscription_claim_cap_at, term_is_over. unfold sub_at at 1 2.
    rewrite is_subscription_sub_of, His. cbn [negb andb sub_at sub_of week_index sub_weeks week_base_tokens tokens_per_week funded_tokens].
    unfold tm_weeks. rewrite His, Hcs. unfold cap. destruct (bk_week b >=? SUBSCRIPTION_WEEKS); [done|].
    rewrite checked_add_fits by (unfold umax, SUBSCRIPTION_WEEKS, TICK_SIZE in *; lia). done. }
  eexists _, cap, _. split; [exact Hstate|]. split; [by apply Hclient|].
  split; [by apply cap_now_spec; try done; lia|]. split.
  { unfold subscription_current_week_headroom. rewrite Hclient by done. cbn. rewrite checked_sub_fits by (cbn; lia). done. }
  assert (weeks = weeks_at t period now false) as Hw by done. clearbody weeks. subst weeks.
  pose proof (weeks_at_sub t period now false His ltac:(lia)).
  cbn [sub_at sub_of week_index sub_weeks phase_cell open_cell accepted_cell live_cell sc_tokens_pending].
  unfold tm_weeks. rewrite His. unfold week_cap, books_at, charge. rewrite His.
  unfold cap in *. rewrite !Z.geb_leb in *.
  destruct (Z.leb_spec (weeks_at t period now false) (bk_week b)); cbn [bk_week bk_base];
    repeat match goal with |- context [?a <=? ?b] => destruct (Z.leb_spec a b) end; lia.
Qed.
(** When a claim is accepted.  On an accepted, open deal a new cumulative total is
    accepted exactly when its seller declares it, it exceeds the pending total, stays within
    the funded volume and, for a subscription, within the ceiling of the current week; the
    minimum interval has passed, the increment is at most one tick and within the physical
    rate; and the previous claim is promoted or due.  It then becomes the pending total, the
    previous one becomes trusted, and the elapsed weeks are paid. *)
Theorem claim_accepted_iff now0 now claim_time st tc note cell sub n :
  consts_ok c → Reach c params sha256 now0 st → now0 ≤ now → now ≤ claim_time → claim_time < 2 ^ 63 → 0 ≤ n →
  ms_streams st !! tc = Some cell → ms_deal_subscriptions st !! tc = Some sub →
  open_accepted cell = true → n ≠ sc_tokens_pending cell →
  require_mock_seller_actor st tc note "claim_tokens" = Ok () →
  let pending := sc_tokens_pending cell in
  let waited := claim_time - sc_last_claim_time cell in
  let acceptable := pending < n ≤ sc_max_ticks cell * TICK_SIZE ∧
    (is_subscription sub = true → ∃ cap, cap_now c now tc cell sub = Ok cap ∧ n ≤ cap) ∧
    as_secs (min_claim_interval c) ≤ waited ∧ n - pending ≤ MAX_CLAIM_DELTA ∧
    (n - pending) * as_secs (min_seconds_per_tick c) ≤ waited * TICK_SIZE ∧
    trusted_at c cell claim_time = pending in
  (is_Some (result_ok (claim_tokens c now claim_time tc note n st)) ↔ acceptable) ∧
  (acceptable → ∃ st' cell' sub', claim_tokens c now claim_time tc note n st = Ok st' ∧
    ms_streams st' !! tc = Some cell' ∧ ms_deal_subscriptions st' !! tc = Some sub' ∧
    sc_tokens_pending cell' = n ∧ sc_tokens_final cell' = pending ∧ sc_last_claim_time cell' = claim_time ∧
    tokens_paid sub' = paid_through sub (weeks_due sub now false)).
Proof.
  intros Hc HR Hle Hle' Hlt Hn Hcell Hsub Hopen Hne Hactor pending waited acceptable.
  destruct (reach_deal c params sha256 now0 st tc cell Hc HR Hcell)
    as (o & k & buyer & ph & [_ _ (Hwf & Ht & Hfit) _ _ _ Hh Hph ->]). set (t := terms_of o k buyer) in *.
  assert (sub = phase_sub t ph) as -> by (destruct Hh; congruence).
  pose proof (claim_tokens_refines c t tc Hwf Ht Hfit st ph now0 Hh Hph now claim_time note n Hactor Hle Hle' Hlt Hn) as Href.
  destruct ph as [|opened period last tf tq b| | |]; try done. cbn [phase_sub] in *. clear Hopen.
  destruct Hph as (Ho & Hl & Hb). pose proof (books_paid c t Ht _ _ _ Hb) as (? & ? & ?).
  set (b' := books_at t period now false tq b) in *.
  set (ok := (tq <? n) && (n <=? tm_funded t) && (n <=? week_cap t tq b')
             && claim_paced c last claim_time (n - tq) && (promoted c tf tq last claim_time =? tq)).
  assert (acceptable ↔ ok = true) as Hiff.
  { unfold acceptable, ok, claim_paced. rewrite !Bool.andb_true_iff, Z.ltb_lt, !Z.leb_le, Z.eqb_eq.
    unfold sub_at at 1. rewrite is_subscription_sub_of.
    change (sc_max_ticks (phase_cell c t (PhOpen opened period last tf tq b)) * TICK_SIZE) with (tm_funded t).
    change pending with tq. change waited with (claim_time - last).
    change (trusted_at c _ claim_time) with (promoted c tf tq last claim_time).
    assert ((tm_sub t = true → ∃ cap, cap_now c now tc (phase_cell c t (PhOpen opened period last tf tq b)) (sub_at t period b) = Ok cap ∧ n ≤ cap)
      ↔ (tm_sub t = true → n ≤ week_cap t tq b')) as ->.
    { pose proof (λ Hs, cap_now_spec t tc opened period last tf tq b now Hwf Ht Hb ltac:(lia) Hs) as Hcap.
      split; intros H' Hs; [destruct (H' Hs) as (cap & Hcap' & ?)|exists (week_cap t tq b')].
      - cbn [phase_cell] in Hcap'. rewrite (Hcap Hs) in Hcap'. by injection Hcap' as <-.
      - split; [by apply Hcap|by apply H']. }
    assert (tm_sub t = false → week_cap t tq b' = tm_funded t) as Hord by (unfold week_cap; by intros ->).
    destruct (tm_sub t); [|specialize (Hord eq_refl)]; intuition lia. }
  assert (phase_claim_tokens c t now claim_time n (PhOpen opened period last tf tq b)
    = if ok then Some (PhOpen opened period claim_time tq n b') else None) as Hspec.
  { cbn [phase_claim_tokens]. destruct (Z.eqb_spec n tq); [done|]. done. }
  rewrite Hspec in Href. split.
  - rewrite Hiff, Href. destruct ok; cbn; split; try done; by eexists.
  - intros Hacc%Hiff. rewrite Hacc in Href. apply result_ok_Some in Href.
    exists (put c t tc (PhOpen opened period claim_time tq n b') st), (phase_cell c t (PhOpen opened period claim_time tq n b')), (sub_at t period b').
    split; [done|]. do 2 (split; [by slots|]). do 3 (split; [done|]). apply (books_paid_through t period now false tq b).
Qed.
(** ** The monitor *)

(** Contested tokens are at most one tick in every phase. *)
Lemma phase_lead t now ph : consts_wf c → terms_ok c t → funds_fit c t → phase_ok c t now ph →
  let cell := phase_cell c t ph in
  0 ≤ sc_tokens_pending cell - sc_tokens_final cell ≤ MAX_CLAIM_DELTA ∧
  (sc_probe_locked cell = 0 ∨ sc_probe_locked cell = tm_price t ∧ sc_tokens_pending cell = sc_tokens_final cell) ∧
  sc_seller_locked cell ≤ umax u128 ∧ sc_buyer_locked cell + sc_probe_locked cell + sc_buyer_bond cell ≤ umax u128.
Proof.
  intros Hwf Ht Hfit Hok. destruct (phase_money c t now ph Hwf Ht Hfit Hok) as (Hsum & (?&?&?&?&?&?&?&?) & _).
  pose proof (probe_money c t Hwf Ht Hfit). unfold money_of, tm_total in Hsum. cbv zeta.
  split; [|split; [|lia]]; clear Hsum;
    (destruct ph as [opened period|opened period last tf tq b|opened period at_|opened period last tf tq b at_|
      accepted opened period last tf tq b at_ p settlement]; cbn in *;
     try (pose proof (books_paid c t Ht tf tq b ltac:(tauto)) as (_ & _ & ?)); unfold MAX_CLAIM_DELTA, TICK_SIZE in *; lia).
Qed.

Lemma one_tick_pay price n : 0 < price ≤ umax u64 → 0 ≤ n ≤ MAX_CLAIM_DELTA → 0 ≤ pay price n ≤ price.
Proof.
  intros Hp Hn. unfold pay, MAX_CLAIM_DELTA in *. split; [apply Z.div_pos; [nia|done]|].
  apply Z.div_le_upper_bound; [done|nia].
Qed.

Lemma snapshot_spec t tc st now ph cell : consts_wf c → terms_ok c t → funds_fit c t → phase_ok c t now ph →
  holds c t tc st ph → cell = phase_cell c t ph →
  ∃ s, checked_snapshot st tc = Ok (Some s) ∧
    ss_seller_locked s = sc_seller_locked cell ∧
    ss_buyer_locked s = sc_buyer_locked cell + sc_probe_locked cell + sc_buyer_bond cell ∧
    0 ≤ ss_buyer_lead s ≤ tm_price t ∧ ss_closed s = sc_closed cell.
Proof.
  intros Hwf Ht Hfit Hok [Hcell _] Heq.
  assert (sm_price (sc_machine cell) = tm_price t) as Hprice by (subst; by destruct ph).
  pose proof (phase_money c t now ph Hwf Ht Hfit Hok) as (_ & (?&?&?&?&?&?&?&?) & _).
  pose proof (phase_lead t now ph Hwf Ht Hfit Hok) as (Hlead & Hprobe & ? & ?).
  cbv zeta in *. rewrite <- Heq in *. clear Heq.
  pose proof (ok_price _ _ Ht) as Hp. pose proof (one_tick_pay _ _ Hp Hlead) as Hpay.
  unfold checked_snapshot. rewrite Hcell, Hprice. fits.
  unfold checked_mul_div_floor. rewrite mul_div_floor_opt_spec; [|lia|lia|done|unfold umax, TICK_SIZE in *; lia].
  fold (pay (tm_price t) (sc_tokens_pending cell - sc_tokens_final cell)).
  set (lead := pay _ _) in *. assert (sc_probe_locked cell + lead ≤ tm_price t).
  { destruct Hprobe as [->|[-> Hsame]]; [lia|]. assert (lead = 0); [|lia]. unfold lead. by rewrite Hsame, Z.sub_diag. }
  assert (umax u64 ≤ umax u128) by (unfold umax; lia). fits. fits.
  eexists. split; [reflexivity|]. cbn. split_and!; done || lia.
Qed.

Lemma price_ceiling p : 0 < p ≤ umax u64 →
  p ≤ wrapping u64 (Z.min (required_escrow_for_buy 2 p) SHELL_MAX).
Proof.
  intros Hp. assert (p ≤ required_escrow_for_buy 2 p).
  { unfold required_escrow_for_buy. destruct (checked_required_escrow_for_buy 2 p) as [e|] eqn:He; cbn [unwrap_or].
    - apply checked_required_escrow_Some in He as [_ ->]. pose proof (unit_price_ge p ltac:(lia)). lia.
    - unfold umax in *. lia. }
  unfold wrapping, SHELL_MAX, umax in *. rewrite Z.mod_small; lia.
Qed.

(** No anomaly.  The monitor finds nothing wrong with any deal of any note on a reachable
    state: no deal holds money without a counterparty, none holds money after its close, and
    what a buyer has at risk is never above the escrow of two ticks. *)
Theorem healthy_deals_have_no_anomaly now st note d :
  consts_ok c → Reach c params sha256 now st → d ∈ ns_deals (note_snapshot st st note) → deal_anomalies d = [].
Proof.
  intros Hc HR Hd. unfold note_snapshot in Hd. cbn [ns_deals] in Hd.
  apply list_elem_of_fmap in Hd as ([[[tc role] counterparty] price] & -> & Hkey).
  unfold deal_anomalies, deal_view. cbn [dv_snapshot dv_counterparty dv_price_per_tick].
  destruct (snapshot st tc) as [s|] eqn:Hsnap; [|done]. unfold snapshot in Hsnap.
  destruct (ms_streams st !! tc) as [cell|] eqn:Hcell.
  2:{ unfold checked_snapshot in Hsnap. by rewrite Hcell in Hsnap. }
  destruct (reach_deal c params sha256 now st tc cell Hc HR Hcell)
    as (o & k & buyer & ph & [_ [seller Hsel] (Hwf & Ht & Hfit) _ _ Hm Hh Hph ->]). set (t := terms_of o k buyer) in *.
  destruct (snapshot_spec t tc st now ph _ Hwf Ht Hfit Hph Hh eq_refl) as (s' & Hs & Hsl & Hbl & Hlead & Hclosed).
  rewrite Hs in Hsnap. injection Hsnap as ->.
  assert (counterparty ≠ None ∧ price = tm_price t) as [Hcp ->].
  { apply elem_of_app in Hkey as [Hkey|Hkey]; apply list_elem_of_omap in Hkey as ([tc' x] & Hin & Hx);
      match type of Hx with (if ?g then _ else _) = _ => destruct g end; try done; injection Hx as <- <- <- <-.
    - by rewrite Hm.
    - apply elem_of_map_to_list in Hin. rewrite Hm in Hin. injection Hin as <-. by rewrite Hsel. }
  rewrite (bool_decide_eq_false_2 (counterparty = None)) by done. rewrite Bool.andb_false_r. cbn [app].
  destruct (phase_money c t now ph Hwf Ht Hfit Hph) as (_ & _ & Hcl).
  assert (ss_closed s && (summary_shell (saturating_add u128 (ss_seller_locked s) (ss_buyer_locked s)) >? 0) = false) as ->.
  { rewrite Hclosed. destruct (sc_closed (phase_cell c t ph)); [|done]. destruct (Hcl eq_refl) as (E1 & E2 & E3 & E4 & _).
    by rewrite Hsl, Hbl, E1, E2, E3, E4. }
  pose proof (ok_price _ _ Ht) as Hp. pose proof (price_ceiling _ Hp) as Hceil. cbn [app].
  destruct (tm_price t >? 0); [|done]. cbv zeta.
  unfold summary_shell. rewrite try_into_fits by (unfold umax in *; lia). cbn [unwrap_or].
  rewrite Z.gtb_ltb, (proj2 (Z.ltb_ge _ _)) by lia. done.
Qed.
End Claims.

(** ** At concrete deals *)

Lemma recorded_cap_phases_witness :
  ∃ state cap, mock_deal_state (sample_state (claimed subscription)) "tc" ProtocolConsts_canonical = Ok (Some state) ∧
    subscription_claim_cap_at state (sample_shape (claimed subscription)) = Ok cap.
Proof.
  destruct (recorded_cap_phases ProtocolConsts_canonical DobParams_canonical sample_sha256 10100 10200
    (sample_state (claimed subscription)) "tc" (sample_cell (claimed subscription)) (sample_shape (claimed subscription)))
    as (state & cap & cap' & Hs & Hcap & _); [evaluated..|].
  exists state, cap. split; [exact Hs|exact Hcap].
Defined.

Lemma claim_accepted_iff_witness :
  ∃ st' cell', claim_tokens ProtocolConsts_canonical 10300 10300 "tc" sample_seller (3 * TICK_SIZE) (sample_state (claimed ordinary)) = Ok st' ∧
    ms_streams st' !! "tc"%string = Some cell' ∧ sc_tokens_pending cell' = 3 * TICK_SIZE.
Proof.
  destruct (claim_accepted_iff ProtocolConsts_canonical DobParams_canonical sample_sha256 10100 10300 10300
    (sample_state (claimed ordinary)) "tc" sample_seller (sample_cell (claimed ordinary)) (sample_shape (claimed ordinary))
    (3 * TICK_SIZE)) as [_ Hacc]; [evaluated..|vm_compute; discriminate|evaluated|].
  destruct Hacc as (st' & cell' & sub' & Hok & Hcell & _ & Hp & _).
  { split; [vm_compute; split; [reflexivity|discriminate]|]. split; [vm_compute; discriminate|]. vm_compute. repeat split; discriminate. }
  exists st', cell'. split; [exact Hok|]. split; [exact Hcell|exact Hp].
Defined.

Lemma healthy_deals_have_no_anomaly_witness :
  Forall (λ d, deal_anomalies d = [])
    (ns_deals (note_snapshot (sample_state (claimed ordinary)) (sample_state (claimed ordinary)) sample_buyer)).
Proof.
  apply Forall_forall. intros d Hd.
  apply (healthy_deals_have_no_anomaly ProtocolConsts_canonical DobParams_canonical sample_sha256 10100
    (sample_state (claimed ordinary)) sample_buyer d); [evaluated..|exact Hd].
Defined.
