(* ===== verification/MockMarket.v ===== *)
(** * From the book to the deal and back

    The buy and the opening of a deal, the money they lock, the clean-up of a deal that was
    never opened, and the readers of a deal's state. *)
From S2P Require Import Prelude RustText Params Address DealTypes Machine Quote.
From S2P Require Import Recovery MockData MockMoney MockBook MockDeal DealSpec.
From S2P Require Import DealExits DealPhase MockRefine MockInv.
From S2P Require Import MockRun MockProps MockPayout MockClaims.
From Stdlib Require Import Strings.Byte.

#[local] Arguments umax : simpl never.

Section Market.
Context (c : ProtocolConsts) (params : DobParams) (sha256 : string → list Byte.byte).

(** ** The escrow of a buy *)

(** With prices in whole steps the fee of a volume is the fee of a tick, times the ticks. *)
Lemma cost_of_steps P k : platform_fee_bps c = PLATFORM_FEE_BPS → (PRICE_STEP | P) → cost c P (k * TICK_SIZE) = k * unit_price P.
Proof.
  intros Hbps [m ->]. unfold cost, fee_of, unit_price. rewrite pay_ticks, Hbps.
  unfold PRICE_STEP, PLATFORM_FEE_BPS.
  replace (k * (m * 1000000000) * 250) with (k * m * 25000000 * 10000) by ring.
  replace (m * 1000000000 * 250) with (m * 25000000 * 10000) by ring.
  rewrite !Z.div_mul by done. ring.
Qed.

Lemma offer_step o : validate_mock_sell_offer o c = Ok () → (PRICE_STEP | so_price_per_tick o).
Proof.
  intros Hv. unfold validate_mock_sell_offer in Hv.
  repeat match type of Hv with (if ?b then Err _ else _) = Ok _ => destruct b eqn:?; [done|] end.
  match goal with H : _ || negb (is_multiple_of (so_price_per_tick o) _) = false |- _ =>
    apply Bool.orb_false_iff in H as [_ H%Bool.negb_false_iff] end.
  by apply is_multiple_of_spec.
Qed.

(** The escrow a buyer attaches is the one the deal takes.  For an ask the mock accepts
    and a fill of it, the reserve the client computes from ticks and price is exactly the
    deposit the deal will hold, and the bond of two ticks on top is the bond of the deal
    when it is a subscription. *)
Theorem reserve_is_the_deposit o k buyer :
  consts_ok c → platform_fee_bps c = PLATFORM_FEE_BPS → offer_ok c (so_token_contract o) o → fill_ok o k →
  let P := so_price_per_tick o in
  let deposit := cost c P (k * TICK_SIZE) in
  checked_required_escrow_for_buy k P = Some deposit ∧
  subscription_buy_reserve k P = Ok {| reserve_deposit := deposit; reserve_buyer_bond := 2 * P;
                                       reserve_total_escrow := deposit + 2 * P |} ∧
  (tm_sub (terms_of o k buyer) = true → tm_bond (terms_of o k buyer) = 2 * P).
Proof.
  intros Hc Hbps Ho Hf P deposit. destruct (fill_terms c _ o k buyer Hc Ho Hf) as [Ht Hfit].
  pose proof (cost_of_steps P k Hbps (offer_step o (of_valid _ _ _ Ho))) as Hcost. fold deposit in Hcost.
  destruct (offer_facts c _ o Hc Ho) as (Hp & _). fold P in Hp.
  assert (deposit + 4 * P ≤ umax u128) as Htot.
  { pose proof (of_fits _ _ _ Ho). fold P in H. destruct Hf as [[_ Hk] _].
    assert (deposit ≤ cost c P (so_max_ticks o * TICK_SIZE)); [|lia].
    apply cost_mono; [apply Hc|apply Ho|]. unfold TICK_SIZE. lia. }
  pose proof (unit_price_ge P ltac:(lia)). destruct Hf as [[Hk _] _]. unfold MIN_STREAM_BUY_TICKS in *.
  assert (in_range u64 P) as [_ Hpu] by apply Ho.
  assert (checked_required_escrow_for_buy k P = Some deposit) as He.
  { apply checked_required_escrow_Some. split; [|lia]. unfold escrow_fits, unit_price in *. unfold umax, PLATFORM_FEE_BPS in *. nia. }
  split; [done|]. split; [|intros Hs; unfold tm_bond; rewrite Hs; reflexivity].
  unfold subscription_buy_reserve. rewrite He. cbn [ok_or rbind].
  assert (0 ≤ deposit) by nia. unfold SUBSCRIPTION_BUYER_BOND_TICKS. fits. replace (P * 2) with (2 * P) by lia. fits. done.
Qed.
(** ** The buy and the opening *)

Lemma place_buy_succeeds now0 now now' st tc o buyer k :
  consts_ok c → Inv c now0 st → ms_offers st !! tc = Some o → fill_ok o k →
  ∃ st1, place_buy_ticks now now' tc buyer k st = Ok st1 ∧ ms_offers st1 !! tc = None ∧
    ms_matched_offers st1 !! tc = Some o ∧ ms_matched_ticks st1 !! tc = Some k ∧
    ms_matches st1 !! tc = Some (match_of tc (terms_of o k buyer)) ∧
    ms_offer_sellers st1 !! tc = ms_offer_sellers st !! tc ∧ ms_streams st1 !! tc = None.
Proof.
  intros Hc HI Ho Hf.
  destruct (slot_cases _ _ _ _ (HI tc)) as [[Hnd [[? _]|(o' & s & Ho' & Hs & Hof & Hcan)]]|(? & ? & ? & ? & ? & Hd & _)];
    [congruence| |by rewrite (da_offers _ _ _ _ _ _ _ _ _ Hd) in Ho].
  assert (o' = o) as -> by congruence. pose proof (of_key _ _ _ Hof) as Hkey.
  pose proof (nd_match _ _ Hnd) as Hm. pose proof (nd_stream _ _ Hnd) as Hns.
  unfold place_buy_ticks, place_buy_ticks_inner. rewrite Hm, Ho. cbn [ok_or rbind unwrap_or].
  destruct Hf as [[Hmin Hmax] Haon]. rewrite Z.gtb_ltb, !(proj2 (Z.ltb_ge _ _)) by lia. cbn [orb].
  assert (has_flag (so_flags o) flags.AON && negb (k =? so_max_ticks o) = false) as ->.
  { destruct (has_flag (so_flags o) flags.AON); [|done]. by rewrite (Haon eq_refl), Z.eqb_refl. }
  rewrite (deal_shape c Hc o k buyer now Hc); [|by rewrite Hkey|done]. cbn [rbind].
  eexists. split; [reflexivity|]. split_and!; by slots.
Qed.

(** A buy leads to an open deal.  On a reachable state any ask on the book can be bought
    by any note, for any volume the ask allows, and the seller of the ask can then open the
    deal at any later time.  The ask has left the book, the match names the buyer and the
    price of the ask, and the deal holds the exact deposit, of which one tick is the probe,
    and the seller's bond of two ticks. *)
Theorem buy_then_open now0 now now' now'' st tc o seller buyer k :
  consts_ok c → Reach c params sha256 now0 st → now0 ≤ now → now ≤ now' → now' ≤ now'' → now'' < 2 ^ 63 →
  ms_offers st !! tc = Some o → MIN_STREAM_BUY_TICKS ≤ k ≤ so_max_ticks o →
  (has_flag (so_flags o) flags.AON = true → k = so_max_ticks o) →
  ms_offer_sellers st !! tc = Some (note_id_hex seller) →
  let P := so_price_per_tick o in
  ∃ st1 st2 cell, place_buy_ticks now now' tc buyer k st = Ok st1 ∧ ms_offers st1 !! tc = None ∧
    read_match st1 tc = Ok {| m_token_contract := tc; m_buyer_pubkey := buyer; m_price_per_tick := P |} ∧
    open_stream_state c params now'' tc seller st1 = Ok st2 ∧ ms_streams st2 !! tc = Some cell ∧
    sc_buyer_pubkey cell = buyer ∧ sc_closed cell = false ∧ sc_max_ticks cell = k ∧ sc_probe_time cell = now'' ∧
    sc_probe_locked cell = P ∧ sc_seller_locked cell = 2 * P ∧
    sc_buyer_locked cell + sc_probe_locked cell = cost c P (k * TICK_SIZE) ∧
    sc_buyer_bond cell = (if has_flag (so_flags o) flags.SUBSCRIPTION then 2 * P else 0).
Proof.
  intros Hc HR H1 H2 H3 Hlt Ho Hk Haon Hse P. destruct (Reach_inv c params sha256 Hc now0 st HR) as [HI Hnow].
  assert (fill_ok o k) as Hf by done.
  destruct (place_buy_succeeds now0 now now' st tc o buyer k Hc HI Ho Hf)
    as (st1 & Hbuy & Hoff & Hmo & Hmk & Hm & Hsell & Hns).
  assert (Inv c now' st1) as HI1 by (eapply (place_buy_inv c Hc now0 now now' tc buyer (Some k) st); try done; lia).
  destruct (unopened_deal c now' st1 tc HI1) as (o' & s & k' & buyer' & created & period & Hd & Hun);
    [by rewrite Hm|done|].
  assert (o' = o) as -> by (rewrite (da_matched _ _ _ _ _ _ _ _ _ Hd) in Hmo; congruence).
  assert (k' = k) as -> by (rewrite (da_ticks _ _ _ _ _ _ _ _ _ Hd) in Hmk; congruence).
  assert (buyer' = buyer) as -> by (rewrite (da_match _ _ _ _ _ _ _ _ _ Hd) in Hm; unfold match_of in Hm; cbn in Hm; congruence).
  assert (require_mock_seller_actor st1 tc seller "open_stream" = Ok ()) as Hactor.
  { unfold require_mock_seller_actor. rewrite Hsell, Hse. cbn. by rewrite String.eqb_refl. }
  pose proof (open_stream_result c params Hc now' now'' tc seller st1 o s k buyer created period Hd Hun Hactor) as Hopen.
  exists st1, (put c (terms_of o k buyer) tc (PhProbe now'' period) st1), (phase_cell c (terms_of o k buyer) (PhProbe now'' period)).
  split; [done|]. split; [done|]. split; [unfold read_match; by rewrite Hm|]. split; [done|]. split; [by slots|].
  split_and!; try done; cbn.
  - unfold tm_deposit, tm_funded, P. cbn. lia.
  - unfold tm_bond, tm_sub. cbn [terms_of tm_flags]. by rewrite land_mask_sub.
Qed.

(** ** The handover *)

(** When the endpoints file is written, the buyer can read what the seller handed over. *)
Lemma open_stream_hands_over consts prms now tc enc note ef write st st' ef' :
  open_stream consts prms now tc enc note (Ok ef) write st = Ok (st', Ok ef') →
  read_handover (Ok ef') tc = Ok (Some enc).
Proof.
  unfold open_stream. intros (st1 & _ & [= _ H])%bind_Ok. apply bind_Ok in H as ([] & _ & [= <-]).
  unfold read_handover. cbn. by rewrite lookup_insert_eq.
Qed.

(** The state is stored before the endpoints file is touched.  When that file cannot be
    read, the call fails, but the deal is open, and it can never be opened again to hand
    the endpoint over. *)
Lemma open_stream_without_handover consts prms now tc enc note e write st st' :
  open_stream_state consts prms now tc note st = Ok st' →
  open_stream consts prms now tc enc note (Err e) write st = Ok (st', Err e) ∧
  is_Some (ms_streams st' !! tc) ∧
  ∀ now' note', result_ok (open_stream_state consts prms now' tc note' st') = None.
Proof.
  intros Hst. unfold open_stream. rewrite Hst. split; [done|].
  assert (is_Some (ms_streams st' !! tc)) as [cell Hcell].
  { unfold open_stream_state in Hst. destruct (ms_streams st !! tc); ok_inv; destruct st; cbn;
      rewrite lookup_insert_eq; eauto. }
  split; [eauto|]. intros now' note'. unfold open_stream_state at 1. rewrite Hcell.
  by destruct (require_mock_seller_actor _ _ _ _).
Qed.

(** ** The clean-up of a deal that was never opened *)

Lemma cleanup_result now0 now st tc o s k buyer created period :
  consts_ok c → deal_at c now0 st tc o s k buyer created → unopened_at st tc (terms_of o k buyer) now0 period →
  now0 < 2 ^ 63 →
  let t := terms_of o k buyer in
  if now <? created + MATCH_OPEN_TIMEOUT_SECS then result_ok (cleanup_unopened c now tc st) = None
  else ∃ st', cleanup_unopened c now tc st
    = Ok (st', SellerNoShow (tm_deposit c t + tm_bond t) (2 * tm_price t)) ∧ no_deal st' tc ∧ ms_offers st' !! tc = None.
Proof.
  intros Hc Hd Hun Hlt t. destruct (deal_terms_ok c Hc _ _ _ _ _ _ _ _ Hd) as (Hwf & Ht & Hfit). fold t in Ht, Hfit.
  pose proof (unopened_state c Hc _ _ _ _ _ _ _ _ _ Hd Hun) as Hstate. destruct Hun as (Hs & Hsub & _).
  pose proof (da_time _ _ _ _ _ _ _ _ _ Hd). pose proof (probe_money c t Hwf Ht Hfit).
  unfold cleanup_unopened. rewrite Hs, (da_match _ _ _ _ _ _ _ _ _ Hd), Hsub, Hstate.
  rewrite (bool_decide_eq_false_2 (is_Some None)) by (by intros [? ?]). rewrite bool_decide_eq_true_2 by eauto.
  cbn [negb rbind ok_or cs_funded_time funded_deal_state].
  assert (0 ≤ MATCH_OPEN_TIMEOUT_SECS ≤ 2 ^ 62) by done.
  rewrite checked_add_fits by (unfold umax; lia). cbn [ok_or rbind].
  destruct (now <? created + _); [done|]. cbn [rbind ok_or m_price_per_tick match_of cs_deposit].
  fold t. unfold is_subscription, sub_at, sub_of, tm_weeks. cbn [sub_weeks].
  assert ((if negb ((if tm_sub t then SUBSCRIPTION_WEEKS else 0) =? 0) then tm_price t * 2 else 0) = tm_bond t) as Hbond
    by (unfold tm_bond; destruct (tm_sub t); cbn; lia).
  rewrite checked_mul_fits by lia. cbn [ok_or rbind cs_deposit funded_deal_state]. rewrite Hbond.
  rewrite checked_add_fits by lia. cbn [ok_or rbind]. replace (tm_price t * 2) with (2 * tm_price t) by lia.
  eexists. split; [reflexivity|]. split; [split; by slots|]. slots. apply Hd.
Qed.
(** The reclaim gate agrees with the chain.  For a deal of a reachable state, the gate a
    client evaluates before it reclaims answers [Ok] to the deal's buyer exactly when the
    clean-up of the contract would succeed at that time. *)
Theorem reclaim_gate_agrees now0 now st tc state note_addr key :
  consts_ok c → Reach c params sha256 now0 st → now0 < 2 ^ 63 →
  mock_deal_state st tc c = Ok (Some state) →
  (check_reclaimable state (Some note_addr) note_addr (Some key) key now MATCH_OPEN_TIMEOUT_SECS = Ok ()) ↔
  ∃ st' settlement, cleanup_unopened c now tc st = Ok (st', settlement).
Proof.
  intros Hc HR Hlt Hstate. destruct (Reach_inv c params sha256 Hc now0 st HR) as [HI Hnow].
  rewrite check_reclaimable_Ok.
  destruct (ms_streams st !! tc) as [cell|] eqn:Hcell.
  - destruct (reach_deal c params sha256 now0 st tc cell Hc HR Hcell) as (o & k & buyer & ph & Hview).
    destruct (opened_state c now0 st tc cell o k buyer ph Hview Hcell) as [created Hs]. rewrite Hs in Hstate. injection Hstate as <-.
    split.
    + intros (_ & _ & t0 & (_ & _ & Hop & _ & _ & Hdep & _) & _). exfalso. cbn in Hop, Hdep. destruct (sc_closed cell); [lia|done].
    + intros (st' & s & Hcl). exfalso. unfold cleanup_unopened in Hcl. by rewrite Hcell in Hcl.
  - assert (is_Some (ms_matches st !! tc)) as Hm.
    { destruct (ms_matches st !! tc) eqn:Hm; [by eexists|]. unfold mock_deal_state in Hstate. by rewrite Hcell, Hm in Hstate. }
    destruct (unopened_deal c now0 st tc HI Hm Hcell) as (o & s & k & buyer & created & period & Hd & Hun).
    pose proof (unopened_state c Hc _ _ _ _ _ _ _ _ _ Hd Hun) as Hs. rewrite Hs in Hstate. injection Hstate as <-.
    pose proof (cleanup_result now0 now st tc o s k buyer created period Hc Hd Hun Hlt) as Hcl. cbv zeta in Hcl.
    pose proof (da_time _ _ _ _ _ _ _ _ _ Hd). assert (0 ≤ MATCH_OPEN_TIMEOUT_SECS ≤ 2 ^ 62) by done.
    destruct (deal_terms_ok c Hc _ _ _ _ _ _ _ _ Hd) as (Hwf & Ht & Hfit). pose proof (probe_money c _ Hwf Ht Hfit).
    assert (∀ t0, never_opened t0 (funded_deal_state (tm_deposit c (terms_of o k buyer)) created) ↔ t0 = created) as Hno.
    { intros t0. unfold never_opened. cbn. split; [intros (_ & _ & _ & _ & _ & _ & _ & _ & _ & _ & [= ->] & _); done|].
      intros ->. split_and!; try done; lia. }
    setoid_rewrite Hno. split.
    + intros (_ & _ & t0 & -> & Hle). unfold saturating_add in Hle. rewrite Z.min_l in Hle by (unfold umax; lia).
      rewrite (proj2 (Z.ltb_ge _ _)) in Hcl by lia. destruct Hcl as (st' & Hcl & _). eauto.
    + intros (st' & x & Hok). destruct (Z.ltb_spec now (created + MATCH_OPEN_TIMEOUT_SECS)); [by rewrite Hok in Hcl|].
      split; [done|]. split; [done|]. exists created. split; [done|].
      unfold saturating_add. rewrite Z.min_l by (unfold umax; lia). lia.
Qed.

(** The clean-up refunds everything.  Once the opening timeout is over, the clean-up of a
    funded deal of a reachable state that was never opened gives the buyer the whole deposit
    and its bond, the seller its bond of two ticks, and frees the contract; before, it is
    refused. *)
Theorem cleanup_refunds_all now0 now st tc funded_time deposit :
  consts_ok c → Reach c params sha256 now0 st → now0 < 2 ^ 63 → ms_streams st !! tc = None →
  mock_deal_state st tc c = Ok (Some (funded_deal_state deposit funded_time)) →
  ∃ o k buyer_bond, ms_matched_offers st !! tc = Some o ∧ ms_matched_ticks st !! tc = Some k ∧
    deposit = cost c (so_price_per_tick o) (k * TICK_SIZE) ∧
    buyer_bond = (if has_flag (so_flags o) flags.SUBSCRIPTION then 2 * so_price_per_tick o else 0) ∧
    (now < funded_time + MATCH_OPEN_TIMEOUT_SECS → result_ok (cleanup_unopened c now tc st) = None) ∧
    (funded_time + MATCH_OPEN_TIMEOUT_SECS ≤ now → ∃ st',
       cleanup_unopened c now tc st = Ok (st', SellerNoShow (deposit + buyer_bond) (2 * so_price_per_tick o)) ∧
       already_filled st' tc = false ∧ ms_offers st' !! tc = None).
Proof.
  intros Hc HR Hlt Hcell Hstate. destruct (Reach_inv c params sha256 Hc now0 st HR) as [HI Hnow].
  assert (is_Some (ms_matches st !! tc)) as Hm.
  { destruct (ms_matches st !! tc) eqn:Hm; [by eexists|]. unfold mock_deal_state in Hstate. by rewrite Hcell, Hm in Hstate. }
  destruct (unopened_deal c now0 st tc HI Hm Hcell) as (o & s & k & buyer & created & period & Hd & Hun).
  pose proof (unopened_state c Hc _ _ _ _ _ _ _ _ _ Hd Hun) as Hs. rewrite Hs in Hstate.
  assert (deposit = tm_deposit c (terms_of o k buyer)) as -> by (unfold funded_deal_state in Hstate; congruence).
  assert (funded_time = created) as -> by (unfold funded_deal_state in Hstate; congruence).
  pose proof (cleanup_result now0 now st tc o s k buyer created period Hc Hd Hun Hlt) as Hcl. cbv zeta in Hcl.
  assert (tm_bond (terms_of o k buyer) = (if has_flag (so_flags o) flags.SUBSCRIPTION then 2 * so_price_per_tick o else 0)) as Hb
    by (unfold tm_bond, tm_sub; cbn [terms_of tm_flags tm_price]; by rewrite land_mask_sub).
  exists o, k, (tm_bond (terms_of o k buyer)). split; [apply Hd|]. split; [apply Hd|]. split; [done|]. split; [done|]. split.
  - intros H. by rewrite (proj2 (Z.ltb_lt _ _)) in Hcl.
  - intros H. rewrite (proj2 (Z.ltb_ge _ _)) in Hcl by done. destruct Hcl as (st' & Hok & [N1 N2 N3 N4 N5 N6] & Hoff).
    exists st'. split; [done|]. split; [|done]. unfold already_filled. by rewrite N1, N2, N3, N4, N6.
Qed.

(** ** The readers *)

Lemma require_ok {E A} (b : bool) (e : E) (k r : Result E A) : b = false → k = r → ((if b then Err e else Ok ()) ;? k) = r.
Proof. by intros -> ->. Qed.

(** The getters of an opened deal, as [deal_snapshot] assembles them. *)
Definition opened_getters (code boc : string) (t : Terms) (ph : Phase) (created : Z) : DealChainSnapshot := {|
  account_code_hash := code; account_boc_hash := boc;
  snap_state := opened_deal_state (phase_cell c t ph) created; snap_subscription := phase_sub t ph;
  snap_seller_bond := {| sb_bond_funded := true; sb_bond_held := sc_seller_locked (phase_cell c t ph);
                         sb_bond_required := tm_price t * 2 |};
  snap_buyer_bond := {| bb_bond_held := sc_buyer_bond (phase_cell c t ph);
                        bb_bond_required := if is_subscription (phase_sub t ph) then tm_price t * 2 else 0 |} |}.

Lemma opened_getters_valid code boc t now ph created :
  consts_wf c → terms_ok c t → funds_fit c t → phase_ok c t now ph →
  validate_cross_getter_invariants (opened_getters code boc t ph created) = Ok ().
Proof.
  intros Hwf Ht Hfit Hok. pose proof (ok_price _ _ Ht). pose proof (funded_bounds c t Ht).
  assert (funded_tokens (phase_sub t ph) = tm_funded t) as Hf by apply phase_sub_fields.
  assert (is_subscription (phase_sub t ph) = tm_sub t) as Hs by (destruct ph; apply is_subscription_sub_of).
  assert (sc_closed (phase_cell c t ph) = true ∧ sc_disputed (phase_cell c t ph) = false
      ∧ sc_seller_locked (phase_cell c t ph) = 0 ∧ sc_buyer_bond (phase_cell c t ph) = 0
      ∧ sc_probe_locked (phase_cell c t ph) = 0
    ∨ sc_closed (phase_cell c t ph) = false ∧ sc_seller_locked (phase_cell c t ph) = 2 * tm_price t
      ∧ sc_buyer_bond (phase_cell c t ph) = tm_bond t) as Hcase by (destruct ph; cbn; auto 10).
  unfold validate_cross_getter_invariants, opened_getters, is_stopped.
  cbn [snap_state snap_subscription snap_seller_bond snap_buyer_bond opened_deal_state cs_funded cs_opened cs_disputed
    cs_deposit cs_probe_tick sb_bond_funded sb_bond_held sb_bond_required bb_bond_held bb_bond_required].
  rewrite Hf, Hs. unfold tm_bond in Hcase.
  apply require_ok; [cbn; apply Z.ltb_ge; unfold TICK_SIZE in *; lia|].
  destruct Hcase as [(-> & -> & -> & -> & ->)|(-> & -> & ->)]; cbn [negb andb].
  - destruct (tm_sub t); cbn [negb andb orb]; rewrite ?Z.eqb_refl; fits; done.
  - apply require_ok; [rewrite Z.gtb_ltb; apply Z.ltb_ge; lia|]. cbn [rbind].
    assert ((tm_price t * 2 =? 0) || negb (2 * tm_price t =? tm_price t * 2) = false) as Hb
      by (boolprop; lia).
    cbn [orb]. rewrite Hb. cbn [rbind]. apply require_ok; [by rewrite Z.eqb_refl|].
    apply require_ok; [rewrite Z.gtb_ltb; apply Z.ltb_ge; destruct (tm_sub t); lia|].
    destruct (tm_sub t); cbn [negb andb]; [|done]. by rewrite Hb.
Qed.

Definition funded_getters (code boc : string) (t : Terms) (period created : Z) : DealChainSnapshot :=
  let bond := if is_subscription (sub_at t period no_books) then tm_price t * 2 else 0 in {|
  account_code_hash := code; account_boc_hash := boc;
  snap_state := funded_deal_state (tm_deposit c t) created; snap_subscription := sub_at t period no_books;
  snap_seller_bond := {| sb_bond_funded := true; sb_bond_held := tm_price t * 2; sb_bond_required := tm_price t * 2 |};
  snap_buyer_bond := {| bb_bond_held := bond; bb_bond_required := bond |} |}.

Lemma funded_getters_valid code boc t period created :
  consts_wf c → terms_ok c t → funds_fit c t →
  validate_cross_getter_invariants (funded_getters code boc t period created) = Ok ().
Proof.
  intros Hwf Ht Hfit. pose proof (probe_money c t Hwf Ht Hfit). pose proof (ok_price _ _ Ht). pose proof (funded_bounds c t Ht).
  unfold validate_cross_getter_invariants, funded_getters, is_stopped, sub_at. rewrite is_subscription_sub_of.
  cbn [snap_state snap_subscription snap_seller_bond snap_buyer_bond funded_deal_state cs_funded cs_opened cs_disputed
    cs_deposit cs_probe_tick sb_bond_funded sb_bond_held sb_bond_required bb_bond_held bb_bond_required negb andb].
  rewrite is_subscription_sub_of.
  apply require_ok; [cbn; apply Z.ltb_ge; unfold TICK_SIZE in *; lia|].
  apply require_ok; [rewrite Z.gtb_ltb; apply Z.ltb_ge; lia|]. cbn [rbind].
  apply require_ok; [by rewrite Z.eqb_refl|].
  apply require_ok; [rewrite Z.gtb_ltb; apply Z.ltb_ge; destruct (tm_sub t); lia|].
  destruct (tm_sub t); cbn [negb andb]; [|done].
  rewrite Z.eqb_refl, (proj2 (Z.eqb_neq (tm_price t * 2) 0)) by lia. rewrite !Z.eqb_refl. cbn [orb negb]. by rewrite Bool.andb_false_r.
Qed.

Lemma opened_snapshot now st tc cell o k buyer ph : deal_view_at c now st tc cell o k buyer ph → ms_streams st !! tc = Some cell →
  ∃ created, deal_snapshot c st tc
    = Ok (Some (opened_getters "mock-token-contract" ("mock:" +:+ tc) (terms_of o k buyer) ph created)).
Proof.
  intros Hview Hcell. destruct (opened_state c now st tc cell o k buyer ph Hview Hcell) as [created Hs]. exists created.
  destruct Hview as [_ _ (Hwf & Ht & Hfit) Hmo _ Hm [_ Hsub] Hph ->]. set (t := terms_of o k buyer) in *.
  pose proof (opened_getters_valid "mock-token-contract" ("mock:" +:+ tc) t now ph created Hwf Ht Hfit Hph) as Hval.
  unfold deal_snapshot. rewrite Hs. cbn [rbind]. unfold mock_deal_subscription. rewrite Hsub, Hmo, Hcell. cbn [rbind ok_or].
  change (so_price_per_tick o) with (tm_price t). pose proof (ok_price _ _ Ht).
  rewrite checked_mul_fits by (unfold umax in *; lia). cbn [ok_or rbind option_map unwrap_or].
  unfold opened_getters in Hval. rewrite Hval. done.
Qed.

(** The snapshot of a deal never contradicts itself.  On a reachable state the snapshot
    of every contract is answered: a deal that was matched gives one whose getters satisfy
    all the cross checks, and only a contract without a match gives none. *)
Theorem deal_snapshot_total now st tc :
  consts_ok c → Reach c params sha256 now st →
  ∃ s, deal_snapshot c st tc = Ok s ∧ (is_Some s ↔ is_Some (ms_matches st !! tc)) ∧
    (∀ snap, s = Some snap → validate_cross_getter_invariants snap = Ok ()).
Proof.
  intros Hc HR. destruct (Reach_inv c params sha256 Hc now st HR) as [HI Hnow]. unfold deal_snapshot.
  destruct (ms_streams st !! tc) as [cell|] eqn:Hcell.
  - destruct (reach_deal c params sha256 now st tc cell Hc HR Hcell) as (o & k & buyer & ph & Hview).
    destruct (opened_snapshot now st tc cell o k buyer ph Hview Hcell) as [created Hs].
    unfold deal_snapshot in Hs. rewrite Hcell in Hs. cbn zeta in Hs. rewrite Hs.
    eexists. split; [reflexivity|]. destruct Hview as [_ _ (Hwf & Ht & Hfit) _ _ Hm _ Hph _].
    rewrite Hm. split; [split; intros; by eexists|]. intros ? [= <-]. by eapply opened_getters_valid.
  - destruct (ms_matches st !! tc) as [m|] eqn:Hm.
    2:{ unfold mock_deal_state. rewrite Hm, Hcell. cbn. exists None. split; [done|]. split; [split; by intros [? ?]|done]. }
    destruct (unopened_deal c now st tc HI ltac:(by rewrite Hm) Hcell) as (o & s & k & buyer & created & period & Hd & Hun).
    pose proof (unopened_state c Hc _ _ _ _ _ _ _ _ _ Hd Hun) as Hs.
    destruct (deal_terms_ok c Hc _ _ _ _ _ _ _ _ Hd) as (Hwf & Ht & Hfit). destruct Hun as (_ & Hsub & _).
    set (t := terms_of o k buyer) in *. pose proof (probe_money c t Hwf Ht Hfit). pose proof (ok_price _ _ Ht).
    rewrite Hs. cbn [rbind]. unfold mock_deal_subscription. rewrite Hsub, (da_matched _ _ _ _ _ _ _ _ _ Hd). cbn [rbind ok_or].
    change (so_price_per_tick o) with (tm_price t).
    rewrite checked_mul_fits by (unfold umax in *; lia). cbn [ok_or rbind option_map unwrap_or].
    pose proof (funded_getters_valid "mock-token-contract" ("mock:" +:+ tc) t period created Hwf Ht Hfit) as Hval.
    unfold funded_getters in Hval.
    rewrite Hval. cbn [map_err rbind]. eexists. split; [reflexivity|].
    split; [split; intros; by eexists|]. by intros ? [= <-].
Qed.
End Market.

(** ** At concrete deals *)

Lemma sample_offer_ok fl : fl = ordinary ∨ fl = subscription → offer_ok ProtocolConsts_canonical "tc" (sample_offer fl).
Proof. intros [-> | ->]; split; by vm_compute. Qed.

Lemma reserve_is_the_deposit_witness :
  checked_required_escrow_for_buy 8 PRICE_STEP = Some (cost ProtocolConsts_canonical PRICE_STEP (8 * TICK_SIZE)).
Proof.
  destruct (reserve_is_the_deposit ProtocolConsts_canonical (sample_offer ordinary) 8 sample_buyer) as [Hr _].
  - apply canonical_ok.
  - reflexivity.
  - apply sample_offer_ok. by left.
  - split; [vm_compute; split; discriminate|]. intros _. reflexivity.
  - exact Hr.
Defined.

Lemma buy_then_open_witness :
  ∃ st1 st2, place_buy_ticks 1001 1002 "tc" sample_buyer 8 (sample_state (posted subscription)) = Ok st1 ∧
    open_stream_state ProtocolConsts_canonical DobParams_canonical 1003 "tc" sample_seller st1 = Ok st2.
Proof.
  destruct (buy_then_open ProtocolConsts_canonical DobParams_canonical sample_sha256 1000 1001 1002 1003
    (sample_state (posted subscription)) "tc" (sample_offer subscription) sample_seller sample_buyer 8)
    as (st1 & st2 & cell & Hbuy & _ & _ & Hopen & _); [evaluated..|vm_compute; split; discriminate|reflexivity|evaluated|].
  exists st1, st2. split; [exact Hbuy|exact Hopen].
Defined.

Definition sample_funded : DealChainState :=
  funded_deal_state (cost ProtocolConsts_canonical PRICE_STEP (8 * TICK_SIZE)) 1002.

Lemma reclaim_gate_agrees_witness :
  ∃ st' s, cleanup_unopened ProtocolConsts_canonical (1002 + MATCH_OPEN_TIMEOUT_SECS) "tc" (sample_state (bought ordinary)) = Ok (st', s).
Proof.
  apply (reclaim_gate_agrees ProtocolConsts_canonical DobParams_canonical sample_sha256 1002 (1002 + MATCH_OPEN_TIMEOUT_SECS)
    (sample_state (bought ordinary)) "tc" sample_funded "0:ab" []); evaluated.
Defined.

Lemma cleanup_refunds_all_witness :
  ∃ st', cleanup_unopened ProtocolConsts_canonical (1002 + MATCH_OPEN_TIMEOUT_SECS) "tc" (sample_state (bought subscription))
    = Ok (st', SellerNoShow (cost ProtocolConsts_canonical PRICE_STEP (8 * TICK_SIZE) + 2 * PRICE_STEP) (2 * PRICE_STEP)).
Proof.
  destruct (cleanup_refunds_all ProtocolConsts_canonical DobParams_canonical sample_sha256 1002 (1002 + MATCH_OPEN_TIMEOUT_SECS)
    (sample_state (bought subscription)) "tc" 1002 (cost ProtocolConsts_canonical PRICE_STEP (8 * TICK_SIZE)))
    as (o & k & bond & Hmo & _ & _ & Hb & _ & Hdue); [evaluated..|].
  destruct Hdue as (st' & Hok & _); [lia|]. exists st'. subst bond.
  assert (ms_matched_offers (sample_state (bought subscription)) !! "tc"%string = Some (sample_offer subscription)) as Ho
    by (vm_compute; reflexivity).
  rewrite Ho in Hmo. injection Hmo as <-. exact Hok.
Defined.

Lemma deal_snapshot_total_witness :
  ∃ s, deal_snapshot ProtocolConsts_canonical (sample_state (disputed subscription)) "tc" = Ok s.
Proof.
  destruct (deal_snapshot_total ProtocolConsts_canonical DobParams_canonical sample_sha256 10200
    (sample_state (disputed subscription)) "tc") as (s & Hs & _); [evaluated..|].
  exists s. exact Hs.
Defined.
