(* ===== verification/MockOrders.v ===== *)
(** * The seller's poll and the orders of the book

    A seller learns of each fill exactly once; an order id is never used for two asks; the
    escrow of a subscription order comes back exactly once. *)
From S2P Require Import Prelude RustText Params Address DealTypes Machine Quote.
From S2P Require Import Recovery MockData MockMoney MockBook MockDeal DealSpec.
From S2P Require Import DealExits DealPhase MockRefine MockInv.
From S2P Require Import MockRun MockFrame MockProps.
From Stdlib Require Import Strings.Byte.

#[local] Arguments umax : simpl never.

(** ** The poll *)

Section Poll.
Context (sha256 : string → list Byte.byte) (st : MockState) (note : NotePubkey).

(** The fill of a match of the note's, with the time of the match. *)
Definition fill_of (since : Z) (tc : string) (created : Z) (f : MatchedFill) : Prop :=
  ∃ o, ms_offer_sellers st !! tc = Some (note_id_hex note) ∧ is_Some (ms_matches st !! tc) ∧
    ms_matched_offers st !! tc = Some o ∧ created = unwrap_or since (ms_match_created_at st !! tc) ∧
    f = {| mf_order_id := mock_current_order_id sha256 st tc; mf_token_contract := tc;
           mf_ticks := unwrap_or (so_max_ticks o) (ms_matched_ticks st !! tc); mf_price_per_tick := so_price_per_tick o |}.

Lemma seller_fill_Some cursor tc created f :
  seller_fill sha256 st (note_id_hex note) cursor tc = Some (created, f) ↔
  has_seen cursor created tc = false ∧ ms_offer_sellers st !! tc = Some (note_id_hex note) ∧
  ∃ o, ms_matched_offers st !! tc = Some o ∧ created = unwrap_or (since_unix cursor) (ms_match_created_at st !! tc) ∧
    f = {| mf_order_id := mock_current_order_id sha256 st tc; mf_token_contract := tc;
           mf_ticks := unwrap_or (so_max_ticks o) (ms_matched_ticks st !! tc); mf_price_per_tick := so_price_per_tick o |}.
Proof.
  unfold seller_fill. case_bool_decide as Hs; cbn [negb].
  2:{ split; [done|]. by intros (_ & ? & _). }
  destruct (ms_matched_offers st !! tc) as [o|]; cbn [obind].
  2:{ split; [done|]. by intros (_ & _ & o & ? & _). }
  destruct (has_seen cursor _ tc) eqn:Hseen; split.
  - done.
  - intros (Hn & _ & o' & _ & -> & _). congruence.
  - intros [= <- <-]. split; [done|]. split; [done|]. by exists o.
  - intros (_ & _ & o' & [= <-] & -> & ->). done.
Qed.

Definition poll_batch (cursor : MatchWatchCursor) : list (Z * MatchedFill) :=
  merge_sort fill_le
    (omap (seller_fill sha256 st (note_id_hex note) cursor) (map fst (map_to_list (ms_matches st)))).

Lemma elem_of_batch cursor created f :
  (created, f) ∈ poll_batch cursor ↔
  ∃ tc, fill_of (since_unix cursor) tc created f ∧ has_seen cursor created tc = false.
Proof.
  unfold poll_batch. rewrite merge_sort_Permutation, list_elem_of_omap. split.
  - intros (tc & Hin & (Hseen & Hs & o & Ho)%seller_fill_Some). apply list_elem_of_fmap in Hin as ([tc' m] & -> & Hm).
    apply elem_of_map_to_list in Hm. exists tc'. split; [|done]. exists o. naive_solver.
  - intros (tc & (o & Hs & [m Hm] & Ho) & Hseen). exists tc. split; [|apply seller_fill_Some; naive_solver].
    apply list_elem_of_fmap. exists (tc, m). split; [done|]. by apply elem_of_map_to_list.
Qed.

#[export] Instance fill_le_total : Total fill_le.
Proof.
  intros a b. unfold fill_le, str_le. destruct (Z.lt_trichotomy a.1 b.1) as [|[->|]]; [by left; left| |by right; left].
  destruct (String.leb_total (mf_token_contract a.2) (mf_token_contract b.2)); [left|right]; by right.
Qed.

(** The batch is in the order of the matches. *)
Lemma batch_sorted cursor : StronglySorted (λ a b, a.1 ≤ b.1) (poll_batch cursor).
Proof.
  apply Sorted_StronglySorted; [intros x y z; lia|].
  assert (Sorted fill_le (poll_batch cursor)) as Hs by apply (Sorted_merge_sort fill_le).
  induction Hs as [|a l _ IH Hd]; constructor; [done|]. destruct Hd as [|b l Hab]; constructor. unfold fill_le in Hab. lia.
Qed.

(** No contract is reported twice in a batch. *)
Lemma batch_contracts cursor : NoDup (map (λ e, mf_token_contract e.2) (poll_batch cursor)).
Proof.
  unfold poll_batch. rewrite (merge_sort_Permutation fill_le).
  assert (∀ l, NoDup l → NoDup (map (λ e, mf_token_contract e.2) (omap (seller_fill sha256 st (note_id_hex note) cursor) l))) as H.
  { intros l. induction l as [|tc l IH]; intros Hnd; [constructor|]. apply NoDup_cons in Hnd as [Hni Hnd]. cbn.
    destruct (seller_fill _ _ _ _ tc) as [[t f]|] eqn:He; [|by apply IH]. cbn. constructor; [|by apply IH].
    apply seller_fill_Some in He as (_ & _ & o & _ & _ & ->). cbn. intros ([t' f'] & Heq & Hin)%list_elem_of_fmap.
    apply list_elem_of_omap in Hin as (tc' & Hin & (_ & _ & o' & _ & _ & ->)%seller_fill_Some). cbn in Heq. by subst. }
  apply H. change (map fst (map_to_list (ms_matches st))) with ((map_to_list (ms_matches st)).*1). apply NoDup_fst_map_to_list.
Qed.

(** A seller learns of every fill exactly once.  A poll reports, in the order of the
    matches and at most once per contract, exactly the fills of the note that its cursor has
    not seen; a second poll with the cursor it returns reports nothing.  The returned cursor
    never runs ahead: at a reachable state it marks no time at or after the clock as seen,
    except for the contracts just reported, so a later fill is not skipped. *)
Theorem seller_poll_exact c params now cursor :
  consts_ok c → Reach c params sha256 now st →
  let '(fills, cursor') := poll_seller_fills sha256 st note cursor in
  (∀ f, f ∈ fills ↔ ∃ tc created, fill_of (since_unix cursor) tc created f ∧ has_seen cursor created tc = false) ∧
  NoDup (map mf_token_contract fills) ∧
  (poll_seller_fills sha256 st note cursor').1 = [] ∧
  (∀ t tc, now ≤ t → has_seen cursor t tc = false →
     (∀ f, f ∈ fills → eq_ignore_ascii_case (mf_token_contract f) tc = false) → has_seen cursor' t tc = false).
Proof.
  intros Hc HR. destruct (Reach_inv c params sha256 Hc now st HR) as [HI _].
  unfold poll_seller_fills. fold (poll_batch cursor). set (batch := poll_batch cursor) in *.
  set (events := map (λ '(created_at, fill), (created_at, mf_token_contract fill)) batch). assert (∀ t tc, (t, tc) ∈ events ↔ ∃ f, (t, f) ∈ batch ∧ tc = mf_token_contract f) as Hev.
  { intros t tc. unfold events. rewrite list_elem_of_fmap. split.
    - intros ([t' f] & [= -> ->] & ?). by exists f.
    - intros (f & ? & ->). by exists (t, f). }
  split_and!.
  - intros f. rewrite list_elem_of_fmap. split.
    + intros ([created f'] & -> & (tc & Hf & Hs)%elem_of_batch). eauto.
    + intros (tc & created & Hf & Hs). exists (created, f). split; [done|]. apply elem_of_batch. eauto.
  - rewrite map_map. apply batch_contracts.
  - change (map snd (poll_batch (record_seen_batch events cursor)) = []).
    assert (poll_batch (record_seen_batch events cursor) = []) as ->; [|done]. apply elem_of_nil_inv. intros [created f] (tc & Hf & Hns)%elem_of_batch. rewrite since_record in Hf.
    destruct (has_seen cursor created tc) eqn:Hseen; [by rewrite (record_keeps _ _ _ _ Hseen) in Hns|].
    rewrite (record_covers events cursor created tc tc) in Hns; [done| |by apply eq_ignore_ascii_case_spec].
    apply Hev. exists f. split; [apply elem_of_batch; eauto|]. destruct Hf as (o & _ & _ & _ & _ & ->). done.
  - intros t tc Hle Hns Hother. apply Bool.not_true_is_false. intros [Hs|(t' & tc' & Hin & _ & Hor)]%record_only; [congruence|].
    apply Hev in Hin as (f & Hin & ->). pose proof Hin as (tc0 & (o & _ & [m Hm] & _ & Hcr & Hf) & _)%elem_of_batch.
    destruct (slot_cases _ _ _ _ (HI tc0)) as [[[_ _ _ Hno _ _] _]|(? & ? & ? & ? & created & Hd & _)]; [congruence|].
    rewrite (da_created _ _ _ _ _ _ _ _ _ Hd) in Hcr. cbn in Hcr. pose proof (da_time _ _ _ _ _ _ _ _ _ Hd).
    destruct Hor as [|[-> Heq]]; [lia|]. rewrite Hother in Heq; [done|]. apply list_elem_of_fmap. by exists (t', f).
Qed.
End Poll.

(** ** Subscription orders *)

Section Orders.
Context (c : ProtocolConsts) (params : DobParams) (sha256 : string → list Byte.byte) (Hc : consts_ok c).

Record orders_ok (st : MockState) : Prop := {
  oo_resting : ∀ id o, ms_subscription_orders st !! id = Some o →
    ob_order_id o = id ∧ 1 ≤ id < ms_next_subscription_order_id st ∧ ms_subscription_terminal_orders st !! id = None ∧
    is_Some (ms_subscription_order_books st !! id);
  oo_ended : ∀ id t, ms_subscription_terminal_orders st !! id = Some t →
    1 ≤ id < ms_next_subscription_order_id st ∧ ob_order_id (mt_order t) = id ∧ mt_refunded t = ob_escrow (mt_order t);
}.

(** The end of one order: it leaves the book and its escrow is recorded as refunded. *)
Lemma remove_order_exact id o reason st :
  ms_subscription_orders st !! id = Some o →
  let st' := remove_subscription_order_from_book id reason (ob_escrow o) st in
  ms_subscription_orders st' = delete id (ms_subscription_orders st) ∧
  ms_subscription_order_books st' = delete id (ms_subscription_order_books st) ∧
  ms_subscription_terminal_orders st' = <[id := {| mt_order := o;
    mt_order_book := unwrap_or EmptyString (ms_subscription_order_books st !! id);
    mt_reason := reason; mt_refunded := ob_escrow o |}]> (ms_subscription_terminal_orders st) ∧
  ms_next_subscription_order_id st' = ms_next_subscription_order_id st.
Proof. intros Ho. unfold remove_subscription_order_from_book. by rewrite Ho. Qed.

Lemma remove_orders_ok id o reason st : ms_subscription_orders st !! id = Some o → orders_ok st →
  orders_ok (remove_subscription_order_from_book id reason (ob_escrow o) st).
Proof.
  intros Ho [Hr He]. destruct (remove_order_exact id o reason st Ho) as (E1 & E2 & E3 & E4). cbv zeta in *.
  split; intros id' x; rewrite E1 || idtac; rewrite ?E2, ?E3, ?E4.
  - intros [Hne Hx]%lookup_delete_Some. rewrite !lookup_insert_ne, !lookup_delete_ne by done. by apply Hr.
  - intros [[<- <-]|[Hne Hx]]%lookup_insert_Some; [|by apply He]. destruct (Hr id o Ho) as (? & ? & _). done.
Qed.

Lemma swept_cases now id st :
  swept_state now id st = st ∨
  ∃ o, ms_subscription_orders st !! id = Some o ∧ ob_deadline o ≠ 0 ∧ ob_deadline o ≤ now ∧
    swept_state now id st = remove_subscription_order_from_book id Expired (ob_escrow o) st.
Proof.
  unfold swept_state. destruct (ms_subscription_orders st !! id) as [o|]; [|by left].
  destruct (Z.eqb_spec (ob_deadline o) 0), (Z.leb_spec (ob_deadline o) now); cbn; eauto 10.
Qed.

Lemma swept_orders_ok now id st : orders_ok st → orders_ok (swept_state now id st).
Proof. intros H. destruct (swept_cases now id st) as [->|(o & Ho & _ & _ & ->)]; [done|by apply remove_orders_ok]. Qed.
(** What may happen to the orders: one rests on, or ends with its escrow refunded for a
    reason [why] admits; an ended order keeps its record. *)
Definition order_moves (why : string → OrderBookOrder → MockSubscriptionExit → Prop) (st st' : MockState) : Prop :=
  (∀ id o, ms_subscription_orders st !! id = Some o →
     ms_subscription_orders st' !! id = Some o ∧
       ms_subscription_order_books st' !! id = ms_subscription_order_books st !! id ∨
     ms_subscription_orders st' !! id = None ∧ ∃ book reason, ms_subscription_order_books st !! id = Some book ∧
       ms_subscription_terminal_orders st' !! id =
         Some {| mt_order := o; mt_order_book := book; mt_reason := reason; mt_refunded := ob_escrow o |} ∧
       why book o reason) ∧
  (∀ id t, ms_subscription_terminal_orders st !! id = Some t → ms_subscription_terminal_orders st' !! id = Some t).

Lemma order_moves_same why st st' : orders_of st' = orders_of st → order_moves why st st'.
Proof. unfold orders_of. intros [= E1 E2 E3 _]. split; intros id x; rewrite ?E1, ?E2, ?E3; auto. Qed.

Lemma order_moves_trans why st1 st2 st3 :
  orders_ok st3 → order_moves why st1 st2 → order_moves why st2 st3 → order_moves why st1 st3.
Proof.
  intros Hok [A1 A2] [B1 B2]. split; [|auto]. intros id o Ho. destruct (A1 id o Ho) as [[Ho2 Hb]|(_ & book & r & Hb & Ht & Hw)].
  - destruct (B1 id o Ho2) as [[? ?]|(? & book & r & ? & ?)]; [left; split; congruence|].
    right. split; [done|]. exists book, r. split; [congruence|done].
  - right. pose proof (B2 id _ Ht) as Ht3. split; [|by exists book, r].
    destruct (ms_subscription_orders st3 !! id) as [o3|] eqn:Ho3; [|done].
    destruct (oo_resting _ Hok id o3 Ho3) as (_ & _ & Hno & _). congruence.
Qed.

Lemma remove_moves why id o book reason st :
  orders_ok st → ms_subscription_orders st !! id = Some o → ms_subscription_order_books st !! id = Some book →
  why book o reason → order_moves why st (remove_subscription_order_from_book id reason (ob_escrow o) st).
Proof.
  intros Hok Ho Hb Hw. destruct (remove_order_exact id o reason st Ho) as (E1 & E2 & E3 & _). cbv zeta in *. split.
  - intros id' o' Ho'. rewrite E1, E2, E3. destruct (decide (id' = id)) as [->|Hne].
    + right. rewrite lookup_delete_eq, lookup_insert_eq. split; [done|]. exists book, reason. rewrite Hb.
      assert (o' = o) as -> by congruence. done.
    + left. by rewrite !lookup_delete_ne.
  - intros id' t Ht. rewrite E3, lookup_insert_ne; [done|]. intros <-. destruct (oo_resting _ Hok id o Ho) as (_ & _ & Hno & _). congruence.
Qed.

(** Why an order may end during an operation at [now]. *)
Definition end_reason (op : MockOp) (now : Z) (book : string) (o : OrderBookOrder) (reason : MockSubscriptionExit) : Prop :=
  match reason with
  | Expired => ob_deadline o ≠ 0 ∧ ob_deadline o ≤ now
  | Cancelled => ∃ note, op = DoCancelSubscription book (ob_order_id o) note ∧ ob_owner_note o = owner_of note
  end.

Lemma swept_moves op now id st : orders_ok st → order_moves (end_reason op now) st (swept_state now id st).
Proof.
  intros Hok. destruct (swept_cases now id st) as [->|(o & Ho & Hd & Hle & ->)]; [by apply order_moves_same|].
  destruct (oo_resting _ Hok id o Ho) as (_ & _ & _ & [book Hb]). by apply remove_moves with book.
Qed.

Lemma place_moves op now book note price ticks escrow fl deadline st st' order :
  orders_ok st → place_subscription_order now book note price ticks escrow fl deadline st = Ok (st', order) →
  orders_ok st' ∧ order_moves (end_reason op now) st st' ∧
  ms_subscription_orders st !! ob_order_id order = None ∧ ms_subscription_terminal_orders st !! ob_order_id order = None.
Proof.
  intros Hok Hp. unfold place_subscription_order in Hp. ok_inv. cbn in *. simplify_eq.
  set (id := Z.max (ms_next_subscription_order_id st) 1) in *.
  match goal with H : bool_decide _ = false |- _ => apply bool_decide_eq_false_1, eq_None_not_Some in H as Hfresh end.
  assert (ms_subscription_terminal_orders st !! id = None) as Hnt.
  { destruct (ms_subscription_terminal_orders st !! id) as [t|] eqn:Ht; [|done].
    destruct (oo_ended _ Hok id t Ht) as [? _]. lia. }
  destruct Hok as [Hr He]. split; [|split; [|done]].
  - split; intros id' x; cbn.
    + intros [[<- <-]|[Hne Hx]]%lookup_insert_Some; cbn.
      * rewrite lookup_insert_eq. split_and!; [done|lia|lia|done|by eexists].
      * rewrite lookup_insert_ne by done. destruct (Hr id' x Hx) as (? & ? & ? & ?). split_and!; try done; lia.
    + intros Hx. destruct (He id' x Hx) as (? & ? & ?). split_and!; try done; lia.
  - split; cbn; [|done]. intros id' o Ho. left. rewrite !lookup_insert_ne; [done|..]; by intros <-; rewrite Ho in Hfresh.
Qed.
Lemma mock_step_orders now0 now now' op st st' :
  Inv c now0 st → now0 ≤ now → now ≤ now' → now' < 2 ^ 63 → op_ok c op → orders_ok st →
  mock_step c params sha256 op now now' st = Some st' → orders_ok st' ∧ order_moves (end_reason op now) st st'.
Proof.
  intros HI Hle Hle' Hlt Hop Hok Hstep. destruct (op_on_orders op) eqn:Hon.
  2:{ pose proof (other_ops_keep_orders c params sha256 Hc now0 now now' op st st' HI Hle Hle' Hlt Hop Hon Hstep) as Heq.
      split; [|by apply order_moves_same]. unfold orders_of in Heq. injection Heq as E1 E2 E3 E4.
      destruct Hok as [Hr He]. split; intros id x; rewrite ?E1, ?E2, ?E3, ?E4; auto. }
  destruct op; try done; cbn [mock_step] in Hstep.
  - destruct (fst_Some _ _ Hstep) as [o Hp%result_ok_Some].
    by destruct (place_moves (DoPlaceSubscription book note price ticks escrow fl deadline) now _ _ _ _ _ _ _ _ _ _ Hok Hp) as (? & ? & _).
  - injection Hstep as <-. split; [by apply swept_orders_ok|by apply swept_moves].
  - injection Hstep as <-. pose proof (swept_orders_ok now order_id st Hok) as Hok1.
    pose proof (swept_moves (DoCancelSubscription book order_id note) now order_id st Hok) as Hm1.
    unfold cancel_subscription_order, owned_subscription_order.
    destruct (ms_subscription_orders (swept_state now order_id st) !! order_id) as [o|] eqn:Ho; cbn [obind]; [|done].
    destruct (String.eqb_spec (ob_owner_note o) (owner_of note)) as [Hown|]; cbn [andb]; [|done].
    case_bool_decide as Hb; [|done]. cbn [fst].
    pose proof (remove_orders_ok order_id o Cancelled _ Ho Hok1) as Hok2. split; [done|].
    apply (order_moves_trans _ _ _ _ Hok2 Hm1). apply remove_moves with book; try done.
    destruct (oo_resting _ Hok1 _ _ Ho) as (Hid & _). exists note. by rewrite Hid.
Qed.

Lemma Reach_orders now st : Reach c params sha256 now st → orders_ok st.
Proof.
  induction 1 as [now H1|now0 now now' op st st' HR IH Hle Hle' Hlt Hop Hstep|now0 now st _ IH Hle]; [|..|done].
  - split; intros id x; cbn; by rewrite lookup_empty.
  - destruct (Reach_inv c params sha256 Hc now0 st HR) as [HI _].
    by apply (mock_step_orders now0 now now' op st st').
Qed.
End Orders.

Section OrderProps.
Context (c : ProtocolConsts) (params : DobParams) (sha256 : string → list Byte.byte).

(** The escrow of an order comes back exactly once.  From one reachable state to the next
    a resting subscription order either rests on unchanged, or it leaves the book and its
    record shows the whole escrow refunded; it leaves only because its deadline has passed
    or because its owner cancelled it on its book.  The record of an ended order never
    changes and its id never rests again. *)
Theorem order_ends_once now0 now now' op st st' :
  consts_ok c → Reach c params sha256 now0 st → now0 ≤ now ≤ now' → now' < 2 ^ 63 → op_ok c op →
  mock_step c params sha256 op now now' st = Some st' →
  order_moves (end_reason op now) st st' ∧
  (∀ id t, ms_subscription_terminal_orders st !! id = Some t →
     mt_refunded t = ob_escrow (mt_order t) ∧ ms_subscription_orders st' !! id = None).
Proof.
  intros Hc HR [Hle Hle'] Hlt Hop Hstep. destruct (Reach_inv c params sha256 Hc now0 st HR) as [HI _].
  pose proof (Reach_orders c params sha256 Hc now0 st HR) as Hok.
  destruct (mock_step_orders c params sha256 Hc now0 now now' op st st' HI Hle Hle' Hlt Hop Hok Hstep) as [Hok' Hm].
  split; [done|]. intros id t Ht. split; [by apply (oo_ended _ Hok id t)|].
  destruct (ms_subscription_orders st' !! id) as [o|] eqn:Ho; [|done].
  destruct (oo_resting _ Hok' id o Ho) as (_ & _ & Hno & _). rewrite (proj2 Hm id t Ht) in Hno. done.
Qed.

(** Placing and cancelling an order.  An order placed on a reachable state has the flags
    AON and SUBSCRIPTION, escrows the exact reserve of its ticks at its price, and gets an
    id that no order has or had.  Its owner can then cancel it at any time before its
    deadline, which refunds the whole escrow and leaves a record only the owner reads. *)
Theorem place_then_cancel now0 now now' st book note price ticks escrow fl deadline st1 order :
  consts_ok c → Reach c params sha256 now0 st → (deadline = 0 ∨ now' < deadline) →
  place_subscription_order now book note price ticks escrow fl deadline st = Ok (st1, order) →
  let id := ob_order_id order in
  fl = Z.lor flags.AON flags.SUBSCRIPTION ∧
  (∃ reserve, subscription_buy_reserve ticks price = Ok reserve ∧ escrow = reserve_total_escrow reserve) ∧
  ms_subscription_orders st !! id = None ∧ ms_subscription_terminal_orders st !! id = None ∧
  ∃ st2 terminal, cancel_subscription_order now' book id note st1 = (st2, Ok order) ∧
    (cancel_subscription_order now' book id note st2).1 = st2 ∧
    result_ok (cancel_subscription_order now' book id note st2).2 = None ∧
    subscription_terminal_order now' book id note st2 = (st2, Some terminal) ∧
    mt_order terminal = order ∧ mt_reason terminal = Cancelled ∧ mt_refunded terminal = escrow.
Proof.
  intros Hc HR Hdl Hp id. pose proof (Reach_orders c params sha256 Hc now0 st HR) as Hok.
  destruct (place_moves (DoReadSubscription 0) now book note price ticks escrow fl deadline st st1 order Hok Hp)
    as (Hok1 & _ & Hfresh & Hfresht).
  assert (fl = Z.lor flags.AON flags.SUBSCRIPTION ∧
    (∃ reserve, subscription_buy_reserve ticks price = Ok reserve ∧ escrow = reserve_total_escrow reserve) ∧
    ms_subscription_orders st1 !! id = Some order ∧ ms_subscription_order_books st1 !! id = Some book ∧
    ob_owner_note order = owner_of note ∧ ob_deadline order = deadline ∧ ob_escrow order = escrow) as
    (Hfl & Hres & Ho & Hb & Hown & Hdead & Hesc).
  { unfold place_subscription_order in Hp. ok_inv. cbn in *. simplify_eq.
    apply Bool.orb_false_iff in Heqb as [Hf%Bool.negb_false_iff%Z.eqb_eq _]. subst id. cbn.
    rewrite !lookup_insert_eq. split; [done|]. split; [|done].
    unfold check_subscription_buy_reserve in *. ok_inv. eexists. split; [done|].
    rewrite Z.gtb_ltb, !Z.ltb_ge in *. lia. }
  assert (∀ s, ms_subscription_orders s !! id = Some order → swept_state now' id s = s) as Hlive.
  { intros s Hs. unfold swept_state. rewrite Hs, Hdead. destruct (Z.eqb_spec deadline 0), (Z.leb_spec deadline now'); try done; lia. }
  assert (∀ s, ms_subscription_orders s !! id = None → swept_state now' id s = s) as Hgone
    by (intros s Hs; unfold swept_state; by rewrite Hs).
  assert (owned_subscription_order st1 book id note = Some order) as Howned.
  { unfold owned_subscription_order. rewrite Ho. cbn [obind]. rewrite Hown, String.eqb_refl, Hb. by rewrite bool_decide_eq_true_2. }
  set (st2 := remove_subscription_order_from_book id Cancelled (ob_escrow order) st1).
  destruct (remove_order_exact id order Cancelled st1 Ho) as (E1 & E2 & E3 & _). fold st2 in E1, E2, E3.
  assert (ms_subscription_orders st2 !! id = None) as Hno by (by rewrite E1, lookup_delete_eq).
  split; [done|]. split; [done|]. split; [done|]. split; [done|].
  exists st2, {| mt_order := order; mt_order_book := book; mt_reason := Cancelled; mt_refunded := ob_escrow order |}.
  unfold cancel_subscription_order, subscription_terminal_order. rewrite (Hlive st1 Ho), (Hgone st2 Hno), Howned.
  unfold owned_subscription_order. rewrite Hno, E3, lookup_insert_eq, Hb. cbn. by rewrite Hown, !String.eqb_refl.
Qed.

(** An expired ask is not its successor.  When the resting ask of a contract expires, the book
    forgets it and the next ask of the same contract has a different order id; an ask that
    has not reached its deadline, or another id, is left alone. *)
Theorem expired_ask_id_changes now tc id st :
  ms_offers st !! tc ≠ None → mock_current_order_id sha256 st tc = id →
  let st' := expire_resting_sell_order sha256 now tc id st in
  (∀ other, other ≠ id → expire_resting_sell_order sha256 now tc other st = st) ∧
  ((∃ deadline, ms_offer_deadlines st !! tc = Some deadline ∧ deadline ≤ now) →
     ms_offers st' !! tc = None ∧ mock_current_order_id sha256 st' tc ≠ id) ∧
  ((∀ deadline, ms_offer_deadlines st !! tc = Some deadline → now < deadline) → st' = st).
Proof.
  intros Hoff%not_eq_None_Some Hid st'. unfold st', expire_resting_sell_order.
  rewrite bool_decide_eq_true_2 by done. cbn [negb orb]. rewrite Hid. split_and!.
  - intros other Hne. by rewrite (proj2 (Z.eqb_neq _ _)).
  - intros (deadline & -> & Hle). rewrite Z.eqb_refl. cbn [negb]. rewrite (proj2 (Z.ltb_ge _ _)) by done. cbv zeta.
    cbn. rewrite lookup_delete_eq. split; [done|]. rewrite <- Hid. unfold mock_current_order_id. cbn.
    rewrite lookup_insert_eq. cbn [unwrap_or]. set (g := unwrap_or 0 (ms_expired_generations st !! tc)).
    set (b := mock_order_id sha256 tc). unfold uadd, wrapping. rewrite Z.add_mod_idemp_r by done.
    intros Heq. assert ((b + (g + 1) - (b + g)) mod (umax u128 + 1) = 0) as H0
      by (rewrite Zminus_mod, Heq, Z.sub_diag; done).
    by replace (b + (g + 1) - (b + g)) with 1 in H0 by lia.
  - intros Hlive. rewrite Z.eqb_refl. cbn [negb]. destruct (ms_offer_deadlines st !! tc) as [d|]; [|done].
    by rewrite (proj2 (Z.ltb_lt _ _)) by auto.
Qed.
End OrderProps.

(** ** At concrete runs *)

Lemma seller_poll_exact_witness :
  let cursor := MatchWatchCursor_new 0 in
  let '(fills, cursor') := poll_seller_fills sample_sha256 (sample_state (bought ordinary)) sample_seller cursor in
  NoDup (map mf_token_contract fills) ∧
  (poll_seller_fills sample_sha256 (sample_state (bought ordinary)) sample_seller cursor').1 = [].
Proof.
  intros cursor. pose proof (seller_poll_exact sample_sha256 (sample_state (bought ordinary)) sample_seller
    ProtocolConsts_canonical DobParams_canonical 1002 cursor) as H.
  destruct (poll_seller_fills _ _ _ cursor) as [fills cursor'].
  destruct H as (_ & Hnd & Hnil & _); [evaluated..|]. split; [exact Hnd|exact Hnil].
Defined.

(** A subscription order, resting and then cancelled by its owner. *)
Definition ordered : list timed_op :=
  [(DoPlaceSubscription "book" sample_buyer PRICE_STEP 8 10200000000 subscription 5000, 1000, 1000)].
Definition withdrawn : list timed_op := ordered ++ [(DoCancelSubscription "book" 1 sample_buyer, 1100, 1100)].

Lemma order_ends_once_witness :
  order_moves (end_reason (DoCancelSubscription "book" 1 sample_buyer) 1100) (sample_state ordered) (sample_state withdrawn).
Proof.
  apply (order_ends_once ProtocolConsts_canonical DobParams_canonical sample_sha256 1000 1100 1100
    (DoCancelSubscription "book" 1 sample_buyer) (sample_state ordered) (sample_state withdrawn)); evaluated.
Defined.

Lemma place_then_cancel_witness :
  ∃ st1 order st2, place_subscription_order 1000 "book" sample_buyer PRICE_STEP 8 10200000000 subscription 5000 MockState_default = Ok (st1, order) ∧
    cancel_subscription_order 1100 "book" (ob_order_id order) sample_buyer st1 = (st2, Ok order).
Proof.
  destruct (place_subscription_order 1000 "book" sample_buyer PRICE_STEP 8 10200000000 subscription 5000 MockState_default)
    as [[st1 order]|] eqn:Hp; [|vm_compute in Hp; discriminate].
  destruct (place_then_cancel ProtocolConsts_canonical DobParams_canonical sample_sha256 1000 1000 1100 MockState_default
    "book" sample_buyer PRICE_STEP 8 10200000000 subscription 5000 st1 order)
    as (_ & _ & _ & _ & st2 & terminal & Hc & _); [evaluated|by constructor|right; lia|exact Hp|].
  exists st1, order, st2. split; [reflexivity|exact Hc].
Defined.

Lemma expired_ask_id_changes_witness :
  ∃ st', st' = expire_resting_sell_order sample_sha256 (1000 + as_secs MAX_SELL_TTL) "tc"
      (mock_current_order_id sample_sha256 (sample_state (posted ordinary)) "tc") (sample_state (posted ordinary)) ∧
    mock_current_order_id sample_sha256 st' "tc"
    ≠ mock_current_order_id sample_sha256 (sample_state (posted ordinary)) "tc".
Proof.
  destruct (expired_ask_id_changes sample_sha256 (1000 + as_secs MAX_SELL_TTL) "tc"
    (mock_current_order_id sample_sha256 (sample_state (posted ordinary)) "tc") (sample_state (posted ordinary)))
    as (_ & Hdue & _); [vm_compute; discriminate|reflexivity|].
  eexists. split; [reflexivity|]. apply Hdue. exists (1000 + as_secs MAX_SELL_TTL). split; [vm_compute; reflexivity|lia].
Defined.
