(* ===== verification/Keeper.v ===== *)
(** * The subscription keeper

    crates/dexdo/src/seller/keeper.rs: the loop that promotes mature claims and advances the
    weekly clock of a subscription.  [plan] decides from one coherent snapshot, the write is
    planned again from a second one, and [reconcile_write] judges it by a third.

    The world answers the [n]-th request: snapshots, writes, the observer, the clock.  A write
    that was sent is recorded; what it did is seen only by the reads after it. *)
From S2P Require Import Prelude Params Address DealTypes Recovery.

Record KeeperSnapshot : Type := { ks_deal : DealChainState; ks_subscription : DealSubscription }.
Definition KeeperSnapshot_from (s : DealChainSnapshot) : KeeperSnapshot :=
  {| ks_deal := snap_state s; ks_subscription := snap_subscription s |}.

Inductive KeeperPlan : Type := PlanNotSubscription | PlanTerminal | PlanWait (d : Duration) | PlanFinalize | PlanSettleWeek (target : Z).
Inductive KeeperStep : Type := StepNotSubscription | StepTerminal (tokens_final : Z) | StepWait (d : Duration) | StepProgress.
Record KeeperCursor : Type := { last_accepted : option KeeperSnapshot }.
Definition KeeperCursor_default : KeeperCursor := {| last_accepted := None |}.

(** An [u8] product with the week length stays inside [u64]. *)
Definition duration_min (a b : Duration) : Duration := if as_secs b <? as_secs a then b else a.

Section Keeper.
Context (token_contract : string).
Definition tc_text : frag := display_self_dapp token_contract.

(** ** The checks of a snapshot *)

Definition malformed (reason : text) : ChainError := Chain (f["TokenContract "; tc_text; ": malformed subscription keeper state: "] ++ reason).
Definition validate_snapshot (s : KeeperSnapshot) : Result ChainError () :=
  let deal := ks_deal s in
  let sub := ks_subscription s in
  if cs_tokens_final deal >? cs_tokens_pending deal then
    Err (malformed f["claim pipeline regressed (final="; cs_tokens_final deal; ", pending="; cs_tokens_pending deal; ")"])
  else if cs_opened deal && negb (cs_funded deal) then Err (malformed f["opened=true with funded=false"])
  else if is_subscription sub then
    if week_index sub >? sub_weeks sub then
      Err (malformed f["weekIndex "; week_index sub; " exceeds subWeeks "; sub_weeks sub])
    else if cs_tokens_pending deal >? funded_tokens sub then
      Err (malformed f["tokensPending "; cs_tokens_pending deal; " exceeds fundedTokens "; funded_tokens sub])
    else if negb (is_stopped deal) && (week_base_tokens sub >? cs_tokens_pending deal) then
      Err (malformed f["weekBaseTokens "; week_base_tokens sub; " exceeds tokensPending "; cs_tokens_pending deal])
    else if cs_opened deal && cs_probe_accepted deal then
      if (cs_tokens_final deal <? TICK_SIZE) || (tokens_paid sub <? TICK_SIZE) then
        Err (malformed f["accepted subscription is below the canonical probe high-water (tokensFinal="; cs_tokens_final deal; ", tokensPaid="; tokens_paid sub; ", TICK_SIZE="; TICK_SIZE; ")"])
      else if period_start sub =? 0 then Err (malformed f["accepted subscription has periodStart=0"])
      else if cs_last_claim_time deal =? 0 then Err (malformed f["accepted subscription has lastClaimTime=0"])
      else Ok ()
    else Ok ()
  else Ok ().

(** What may not change between two snapshots. *)
Definition ensure_non_regressing_transition (before after : KeeperSnapshot) : Result ChainError () :=
  let bd := ks_deal before in let bs := ks_subscription before in
  let ad := ks_deal after in let as_ := ks_subscription after in
  let terminal_transition := negb (is_stopped bd) && is_stopped ad in
  let accepted_probe_now := negb (cs_probe_accepted bd) && cs_probe_accepted ad in
  if (cs_tokens_final ad <? cs_tokens_final bd)
     || (negb terminal_transition && (cs_tokens_pending ad <? cs_tokens_pending bd))
     || (cs_last_claim_time ad <? cs_last_claim_time bd)
     || (cs_probe_accepted bd && negb (cs_probe_accepted ad))
     || (week_index as_ <? week_index bs) || (tokens_paid as_ <? tokens_paid bs)
     || (week_base_tokens as_ <? week_base_tokens bs) || (period_start as_ <? period_start bs)
  then Err (Chain f["TokenContract "; tc_text; ": keeper observed regressing accepted state"])
  else
    for_each (λ e : string * bool,
      if negb e.2 then Err (Chain f["TokenContract "; tc_text; ": immutable subscription field "; e.1; " changed after keeper write"]) else Ok ())
      [("dealFlags"%string, deal_flags as_ =? deal_flags bs); ("subWeeks"%string, sub_weeks as_ =? sub_weeks bs);
       ("tokensPerWeek"%string, tokens_per_week as_ =? tokens_per_week bs); ("fundedTokens"%string, funded_tokens as_ =? funded_tokens bs)] ;?
    if negb (period_start as_ =? period_start bs) && negb accepted_probe_now
    then Err (Chain f["TokenContract "; tc_text; ": immutable subscription field periodStart changed after keeper write"])
    else Ok ().

(** [KeeperCursor::accept], [terminal_tokens_final]. *)
Definition cursor_accept (cursor : KeeperCursor) (s : KeeperSnapshot) : Result ChainError KeeperCursor :=
  validate_snapshot s ;?
  match last_accepted cursor with Some previous => ensure_non_regressing_transition previous s | None => Ok () end ;?
  Ok {| last_accepted := Some s |}.
Definition terminal_tokens_final (cursor : KeeperCursor) : option Z :=
  option_map (λ s, cs_tokens_final (ks_deal s)) (last_accepted cursor).

(** ** Deadlines *)

Definition checked_deadline (anchor : Z) (duration : Duration) (field : string) : Result ChainError Z :=
  ok_or (checked_add u64 anchor (as_secs duration))
    (Chain f["TokenContract "; tc_text; ": "; field; " + deadline overflows unix seconds"]).
Definition next_week_boundary (sub : DealSubscription) : Result ChainError Z :=
  let? next_week := ok_or (checked_add u64 (week_index sub) 1) (Chain f["TokenContract "; tc_text; ": weekIndex increment overflow"]) in
  let? offset := ok_or (checked_mul u64 (as_secs SUB_WEEK_LEN) next_week)
    (Chain f["TokenContract "; tc_text; ": subscription week offset overflow"]) in
  ok_or (checked_add u64 (period_start sub) offset)
    (Chain f["TokenContract "; tc_text; ": periodStart + subscription week offset overflows"]).
Definition scheduled_week_target (sub : DealSubscription) (now : Z) : Result ChainError Z :=
  let? elapsed := ok_or (checked_sub now (period_start sub))
    (Chain f["TokenContract "; tc_text; ": current time precedes subscription periodStart"]) in
  let elapsed_weeks := elapsed / as_secs SUB_WEEK_LEN in
  let? target := ok_or (try_into u8 (Z.min elapsed_weeks (sub_weeks sub)))
    (Chain f["TokenContract "; tc_text; ": scheduled subscription week target does not fit uint8"]) in
  if target <=? week_index sub then
    Err (Chain f["TokenContract "; tc_text; ": due settleWeek did not advance its scheduled target beyond current weekIndex "; week_index sub])
  else Ok target.

(** [option.then(..).transpose()?] and [is_some_and(|deadline| now >= deadline)]. *)
Definition when (b : bool) (r : Result ChainError Z) : Result ChainError (option Z) := if b then rmap Some r else Ok None.
Definition reached (deadline : option Z) (now : Z) : bool := match deadline with Some d => now >=? d | None => false end.
Definition delay_until (now : Z) (deadlines : list (option Z)) (idle : Duration) : Duration :=
  foldl (λ delay d, match d with
    | Some deadline => if deadline >? now then duration_min delay (from_secs (usub u64 deadline now)) else delay
    | None => delay end) idle deadlines.

Definition plan (s : KeeperSnapshot) (bounds : ClaimBounds) (now : Z) : Result ChainError KeeperPlan :=
  validate_snapshot s ;?
  let deal := ks_deal s in
  let sub := ks_subscription s in
  if negb (is_subscription sub) then Ok PlanNotSubscription
  else if is_stopped deal then Ok PlanTerminal
  else
  let idle := cb_min_claim_interval bounds in
  if as_secs idle =? 0 then
    Err (Chain f["TokenContract "; tc_text; ": getConfig().minClaimInterval is zero; refusing a busy keeper loop"])
  else if negb (cs_opened deal) || negb (cs_probe_accepted deal) || cs_disputed deal then Ok (PlanWait idle)
  else
  let promote := cb_promote_window bounds in
  if as_secs promote =? 0 then Err (Chain f["TokenContract "; tc_text; ": derived CLAIM_PROMOTE_WINDOW is zero"])
  else
  let? last_deadline := when (cs_tokens_pending deal >? cs_tokens_final deal)
    (checked_deadline (cs_last_claim_time deal) promote "lastClaimTime") in
  if reached last_deadline now then Ok PlanFinalize
  else
  let? next_boundary := when (week_index sub <? sub_weeks sub) (next_week_boundary sub) in
  if reached next_boundary now then rmap PlanSettleWeek (scheduled_week_target sub now)
  else
  let? final_close_deadline := when (week_index sub =? sub_weeks sub)
    (checked_deadline (cs_last_claim_time deal) promote "lastClaimTime") in
  if reached final_close_deadline now && (cs_tokens_final deal =? cs_tokens_pending deal) then Ok (PlanSettleWeek (sub_weeks sub))
  else Ok (PlanWait (delay_until now [last_deadline; next_boundary; final_close_deadline] idle)).

(** ** The outcome of a write *)

Definition print_plan (p : KeeperPlan) : text :=
  match p with
  | PlanNotSubscription => f["NotSubscription"] | PlanTerminal => f["Terminal"]
  | PlanWait d => f["Wait("; as_secs d; "s)"] | PlanFinalize => f["Finalize"]
  | PlanSettleWeek target => f["SettleWeek("; target; ")"]
  end.
Section Print.
Context (print_error : ChainError → text).
Definition reconcile_write (bounds : ClaimBounds) (action : KeeperPlan) (before : KeeperSnapshot) (after : option KeeperSnapshot)
    (submit : Result ChainError ()) : Result ChainError KeeperStep :=
  match after with
  | None => Ok (StepTerminal (cs_tokens_final (ks_deal before)))
  | Some after =>
      validate_snapshot after ;?
      if is_stopped (ks_deal after) then Ok (StepTerminal (cs_tokens_final (ks_deal after)))
      else if cs_disputed (ks_deal after) then Ok (StepWait (cb_min_claim_interval bounds))
      else
      ensure_non_regressing_transition before after ;?
      let applied :=
        match action with
        | PlanFinalize => cs_tokens_final (ks_deal after) >? cs_tokens_final (ks_deal before)
        | PlanSettleWeek target =>
            (week_index (ks_subscription before) <? sub_weeks (ks_subscription before)) && (week_index (ks_subscription after) =? target)
        | _ => false
        end in
      if applied then Ok StepProgress
      else
      match action with
      | PlanSettleWeek target =>
          Err (Chain (f["TokenContract "; tc_text; ": settleWeek expected exact scheduled weekIndex "; target; " or terminal state, observed weekIndex "; week_index (ks_subscription after)]
            ++ match submit with Err e => Lit "; submit error: " :: print_error e | Ok _ => [] end))
      | _ =>
          match submit with
          | Err e => Err (Chain (f["TokenContract "; tc_text; ": "] ++ print_plan action ++ Lit " failed and strict state did not advance: " :: print_error e))
          | Ok _ => Err (Chain (f["TokenContract "; tc_text; ": "] ++ print_plan action ++ f[" returned success without a strict state transition"]))
          end
      end
  end.

(** ** The loop *)

Record World : Type := {
  kw_snapshot : nat → Result ChainError (option DealChainSnapshot);
  kw_observe : nat → option DealChainSnapshot → option ChainError;
  kw_finalize : nat → option ChainError;
  kw_settle_week : nat → option ChainError;
  kw_now : nat → Result ChainError Z;
}.
Inductive Write : Type := WroteFinalize | WroteSettleWeek | Slept (d : Duration).
Inductive Stop : Type := StopErr (e : ChainError) | OutOfFuel.
Record Process : Type := { kp_cursor : KeeperCursor; kp_clock : nat; kp_log : list Write }.
Definition kp_tick (p : Process) : Process := {| kp_cursor := kp_cursor p; kp_clock := S (kp_clock p); kp_log := kp_log p |}.
Definition kp_set_cursor (c : KeeperCursor) (p : Process) : Process := {| kp_cursor := c; kp_clock := kp_clock p; kp_log := kp_log p |}.
Definition kp_logged (w : Write) (p : Process) : Process :=
  {| kp_cursor := kp_cursor p; kp_clock := kp_clock p; kp_log := kp_log p ++ [w] |}.

Context (w : World) (bounds : ClaimBounds).
Definition of_result {A} (r : Result ChainError A) : Op Process Stop A := op_ret (map_err StopErr r).
Definition ask {A} (world : nat → Result ChainError A) : Op Process Stop A := λ p, (map_err StopErr (world (kp_clock p)), kp_tick p).
Definition observe (s : option DealChainSnapshot) : Op Process Stop () :=
  ask (λ n, match kw_observe w n s with Some e => Err e | None => Ok () end).

Definition read_accepted_snapshot : Op Process Stop (option KeeperSnapshot) :=
  do snapshot <- ask (kw_snapshot w);
  match snapshot with
  | Some snapshot =>
      do cursor <- op_read (λ p, map_err StopErr (cursor_accept (kp_cursor p) (KeeperSnapshot_from snapshot)));
      do _c <- op_write (kp_set_cursor cursor);
      do _o <- observe (Some snapshot);
      op_ret (Ok (Some (KeeperSnapshot_from snapshot)))
  | None => op_ret (Ok None)
  end.

(** The write is sent; its answer is kept as a value. *)
Definition send (action : KeeperPlan) : Op Process Stop (Result ChainError ()) :=
  let answer (o : option ChainError) : Result ChainError () := match o with Some e => Err e | None => Ok () end in
  match action with
  | PlanFinalize => do _l <- op_write (kp_logged WroteFinalize); ask (λ n, Ok (answer (kw_finalize w n)))
  | _ => do _l <- op_write (kp_logged WroteSettleWeek); ask (λ n, Ok (answer (kw_settle_week w n)))
  end.
Definition is_write (p : KeeperPlan) : bool := match p with PlanFinalize | PlanSettleWeek _ => true | _ => false end.
Definition step_of (s : KeeperSnapshot) (p : KeeperPlan) : KeeperStep :=
  match p with
  | PlanNotSubscription => StepNotSubscription
  | PlanWait d => StepWait d
  | _ => StepTerminal (cs_tokens_final (ks_deal s))
  end.

Definition keeper_step (now : Z) : Op Process Stop KeeperStep :=
  do observed <- read_accepted_snapshot;
  match observed with
  | None =>
      do tokens_final <- op_read (λ p, Ok (terminal_tokens_final (kp_cursor p)));
      match tokens_final with
      | Some tokens_final => do _o <- observe None; op_ret (Ok (StepTerminal tokens_final))
      | None => of_result (Err (Chain f["TokenContract "; tc_text; ": keeper getters returned no data before a live subscription was established"]))
      end
  | Some observed =>
      do first <- of_result (plan observed bounds now);
      if negb (is_write first) then op_ret (Ok (step_of observed first)) else
      do pre_write <- read_accepted_snapshot;
      match pre_write with
      | None => do _o <- observe None; op_ret (Ok (StepTerminal (cs_tokens_final (ks_deal observed))))
      | Some pre_write =>
          do action <- of_result (plan pre_write bounds now);
          if negb (is_write action) then op_ret (Ok (step_of pre_write action)) else
          do submit <- send action;
          do post_write <- read_accepted_snapshot;
          do _o <- (match post_write with None => observe None | Some _ => op_ret (Ok ()) end);
          of_result (reconcile_write bounds action pre_write post_write submit)
      end
  end.

Fixpoint drive_subscription_keeper (fuel : nat) : Op Process Stop Z :=
  match fuel with
  | O => op_ret (Err OutOfFuel)
  | S fuel =>
      do now <- ask (kw_now w);
      do step <- keeper_step now;
      match step with
      | StepNotSubscription =>
          of_result (Err (Chain f["TokenContract "; tc_text; ": subscription keeper was started for an ordinary deal"]))
      | StepTerminal tokens_final => op_ret (Ok tokens_final)
      | StepProgress => drive_subscription_keeper fuel
      | StepWait delay => do _s <- op_write (kp_logged (Slept delay)); drive_subscription_keeper fuel
      end
  end.
End Print.
End Keeper.
