(* ===== verification/KeeperProps.v ===== *)
(** * Properties of the subscription keeper

    Against the mock chain: the keeper's plan is always possible, every write it plans is
    accepted by the chain and recognised by the reconciliation, and while it waits there is
    nothing to do.

    The second part is a keeper at a concrete subscription. *)
From S2P Require Import Prelude RustText Params Address DealTypes Machine MockData MockMoney MockBook MockDeal DealSpec.
From S2P Require Import DealExits DealPhase MockRefine MockInv MockRun MockProps MockClaims MockMarket Recovery Keeper.

#[local] Arguments umax : simpl never.

Section Phases.
Context (c : ProtocolConsts) (t : Terms) (tc : string) (bounds : ClaimBounds).
Hypothesis (Hc : consts_wf c) (Ht : terms_ok c t) (Hfit : funds_fit c t).
Hypothesis (bounds_interval : cb_min_claim_interval bounds = min_claim_interval c)
  (bounds_promote : cb_promote_window bounds = claim_promote_window c)
  (interval_positive : 0 < as_secs (min_claim_interval c)) (promote_positive : 0 < as_secs (claim_promote_window c)).

Definition phase_snapshot (ph : Phase) (created : Z) : KeeperSnapshot :=
  {| ks_deal := opened_deal_state (phase_cell c t ph) created; ks_subscription := phase_sub t ph |}.

Lemma phase_stopped ph created :
  is_stopped (opened_deal_state (phase_cell c t ph) created) = match ph with PhClosed _ _ _ _ _ _ _ _ _ _ => true | _ => false end.
Proof. by destruct ph. Qed.
Lemma phase_subscribed ph : is_subscription (phase_sub t ph) = tm_sub t.
Proof. destruct ph; apply is_subscription_sub_of. Qed.

Lemma phase_validates now ph created : phase_ok c t now ph → validate_snapshot tc (phase_snapshot ph created) = Ok ().
Proof.
  intros Hok. unfold validate_snapshot. cbn [phase_snapshot ks_deal ks_subscription]. rewrite phase_stopped, phase_subscribed.
  pose proof (funded_bounds c t Ht) as Hfund. assert (0 ≤ tm_weeks t) as Hw by (unfold tm_weeks; by destruct (tm_sub t)).
  assert (∀ tf tq b, books_ok t tf tq b → TICK_SIZE ≤ tf ≤ tq ∧ tq ≤ tm_funded t ∧ TICK_SIZE ≤ bk_paid b ∧ bk_base b ≤ tq ∧ bk_week b ≤ tm_weeks t) as Hbooks.
  { intros tf tq b Hb. pose proof (accepted_paid c t Ht _ _ _ _ _ Hb). destruct Hb. lia. }
  destruct ph as [opened period|opened period last tf tq b|opened period at_|opened period last tf tq b at_|accepted opened period last tf tq b at_ p settlement];
    cbn [phase_ok] in Hok; cbn -[Z.gtb Z.ltb Z.eqb TICK_SIZE]; rewrite ?Z.gtb_ltb.
  2: destruct Hok as (? & ? & Hok%Hbooks).
  4: destruct Hok as (? & ? & ? & Hok%Hbooks).
  5: unfold closed_books_ok in Hok.
  all: unfold TICK_SIZE in *.
  all: repeat match goal with |- context [?a <? ?b] => rewrite (proj2 (Z.ltb_ge a b)) by lia end.
  all: destruct (tm_sub t); [|done]; cbn [orb]; repeat rewrite (proj2 (Z.eqb_neq _ 0)) by lia; done.
Qed.

(** A claim promoted or weeks charged is no regression. *)
Lemma moved_on opened period last tf tf' tq b b' created created' :
  tf ≤ tf' → bk_week b ≤ bk_week b' → bk_paid b ≤ bk_paid b' → bk_base b ≤ bk_base b' →
  ensure_non_regressing_transition tc (phase_snapshot (PhOpen opened period last tf tq b) created)
    (phase_snapshot (PhOpen opened period last tf' tq b') created') = Ok ().
Proof.
  intros Htf Hw Hp Hb. unfold ensure_non_regressing_transition.
  cbn -[Z.ltb Z.eqb]. repeat rewrite (proj2 (Z.ltb_ge _ _)) by lia. cbn [orb]. by rewrite !Z.eqb_refl.
Qed.
Lemma charged_grow period now tf tq b :
  books_ok t tf tq b → period ≤ now →
  let b' := books_at t period now false tq b in bk_week b ≤ bk_week b' ∧ bk_paid b ≤ bk_paid b' ∧ bk_base b ≤ bk_base b'.
Proof.
  intros Hb Hn. unfold books_at, charge. destruct (tm_sub t) eqn:Hs; [|cbn; lia].
  destruct (Z.leb_spec (weeks_at t period now false) (bk_week b)); cbn [bk_week bk_paid bk_base]; [lia|].
  pose proof (weeks_at_bounds t period now false Hn) as Hw. unfold tm_weeks in Hw. rewrite Hs in Hw.
  destruct (accepted_charge c t Ht _ _ _ _ _ (weeks_at t period now false) Hb Hs) as [? _]; [lia|].
  pose proof (accepted_paid c t Ht _ _ _ _ _ Hb). lia.
Qed.

(** The three deadlines of an open deal. *)
Definition boundary_of (period : Z) (b : Books) : Z := period + as_secs SUB_WEEK_LEN * (bk_week b + 1).
Lemma weeks_begun period now b :
  period ≤ now → 0 ≤ bk_week b < tm_weeks t →
  (bk_week b <? weeks_at t period now false) = (boundary_of period b <=? now).
Proof.
  intros Hn Hb. unfold weeks_at, boundary_of. cbn [andb as_secs SUB_WEEK_LEN].
  pose proof (Z.div_mod (now - period) 604800 ltac:(lia)). pose proof (Z.mod_pos_bound (now - period) 604800 ltac:(lia)).
  destruct (Z.leb_spec (period + 604800 * (bk_week b + 1)) now), (Z.ltb_spec (bk_week b) (Z.min ((now - period) / 604800) (tm_weeks t))); try done; exfalso; nia.
Qed.

Definition open_plan (period last tf tq : Z) (b : Books) (now : Z) : KeeperPlan :=
  let due := last + as_secs (claim_promote_window c) in
  if (tf <? tq) && (due <=? now) then PlanFinalize
  else if (bk_week b <? tm_weeks t) && (boundary_of period b <=? now) then PlanSettleWeek (weeks_at t period now false)
  else if (bk_week b =? tm_weeks t) && (due <=? now) then PlanSettleWeek (tm_weeks t)
  else PlanWait (delay_until now
    [if tf <? tq then Some due else None; if bk_week b <? tm_weeks t then Some (boundary_of period b) else None;
     if bk_week b =? tm_weeks t then Some due else None] (min_claim_interval c)).

Lemma when_deadline (b : bool) anchor duration field :
  0 ≤ anchor < 2 ^ 63 → as_secs duration < 2 ^ 63 →
  when b (checked_deadline tc anchor duration field) = Ok (if b then Some (anchor + as_secs duration) else None).
Proof.
  intros Ha Hd. unfold when, checked_deadline. destruct b; [|done]. by rewrite checked_add_fits by (unfold umax; lia).
Qed.

Lemma reached_if (b : bool) d now : reached (if b then Some d else None) now = b && (d <=? now).
Proof. destruct b; [|done]. unfold reached. by rewrite Z.geb_leb. Qed.
Lemma when_boundary (b : Books) period :
  0 ≤ period < 2 ^ 63 → 0 ≤ bk_week b ≤ SUBSCRIPTION_WEEKS → tm_weeks t = SUBSCRIPTION_WEEKS →
  when (bk_week b <? tm_weeks t) (next_week_boundary tc (sub_at t period b))
  = Ok (if bk_week b <? tm_weeks t then Some (boundary_of period b) else None).
Proof.
  intros Hp Hb Hw. unfold when. destruct (bk_week b <? tm_weeks t); [|done]. unfold next_week_boundary, boundary_of, SUBSCRIPTION_WEEKS in *.
  cbn [sub_at sub_of week_index period_start]. rewrite checked_add_fits by (unfold umax; lia). cbn [ok_or rbind].
  cbn [as_secs SUB_WEEK_LEN]. rewrite checked_mul_fits by (unfold umax; lia). cbn [ok_or rbind].
  by rewrite checked_add_fits by (unfold umax; lia).
Qed.
Lemma target_due (b : Books) period now :
  0 ≤ period ≤ now → now < 2 ^ 63 → 0 ≤ bk_week b < tm_weeks t → tm_weeks t = SUBSCRIPTION_WEEKS → boundary_of period b ≤ now →
  scheduled_week_target tc (sub_at t period b) now = Ok (weeks_at t period now false).
Proof.
  intros Hp Hn Hb Hw Hdue. unfold scheduled_week_target. cbn [sub_at sub_of week_index period_start sub_weeks].
  rewrite checked_sub_fits by lia. cbn [ok_or rbind]. pose proof (weeks_at_bounds t period now false ltac:(lia)) as Hat.
  pose proof (weeks_begun period now b ltac:(lia) Hb) as Hlt. rewrite (proj2 (Z.leb_le _ _) Hdue) in Hlt. apply Z.ltb_lt in Hlt.
  change (Z.min ((now - period) / as_secs SUB_WEEK_LEN) (tm_weeks t)) with (weeks_at t period now false).
  unfold SUBSCRIPTION_WEEKS in *. rewrite try_into_fits by (unfold umax; lia). cbn [ok_or rbind].
  by rewrite (proj2 (Z.leb_gt _ _)) by lia.
Qed.

Lemma plan_open now0 now opened period last tf tq b created :
  phase_ok c t now0 (PhOpen opened period last tf tq b) → now0 ≤ now → now < 2 ^ 63 → tm_sub t = true →
  plan tc (phase_snapshot (PhOpen opened period last tf tq b) created) bounds now = Ok (open_plan period last tf tq b now).
Proof.
  intros Hok Hn Hn' Hs. unfold plan. erewrite phase_validates by exact Hok. cbn [rbind phase_snapshot ks_deal ks_subscription].
  rewrite phase_stopped, phase_subscribed, Hs. cbn [negb]. rewrite bounds_interval, bounds_promote.
  rewrite !(proj2 (Z.eqb_neq _ 0)) by lia. cbn [negb orb].
  cbn [phase_ok] in Hok. destruct Hok as (Ho & Hl & Hb). pose proof (accepted_paid c t Ht _ _ _ _ _ Hb) as (_ & _ & _ & Hweek).
  assert (tm_weeks t = SUBSCRIPTION_WEEKS) as Hweeks by (unfold tm_weeks; by rewrite Hs).
  change (cs_tokens_pending _) with tq. change (cs_tokens_final _) with tf. change (cs_last_claim_time _) with last.
  change (week_index _) with (bk_week b). change (sub_weeks _) with (tm_weeks t).
  change (negb (cs_opened _) || negb (cs_probe_accepted _) || cs_disputed _) with false. cbn iota.
  rewrite Z.gtb_ltb. rewrite !when_deadline by (try lia; apply Hfit). cbn [rbind].
  change (phase_sub t _) with (sub_at t period b). rewrite when_boundary by lia. cbn [rbind]. rewrite !reached_if. unfold open_plan.
  destruct ((tf <? tq) && (last + as_secs (claim_promote_window c) <=? now)) eqn:Hfin; [done|].
  destruct ((bk_week b <? tm_weeks t) && (boundary_of period b <=? now)) eqn:Hset.
  { apply Bool.andb_true_iff in Hset as [Hlt%Z.ltb_lt Hdue%Z.leb_le]. by rewrite target_due by lia. }
  destruct ((bk_week b =? tm_weeks t) && (last + as_secs (claim_promote_window c) <=? now)) eqn:Hclose; [|done].
  apply Bool.andb_true_iff in Hclose as [_ Hdue]. rewrite Hdue, Bool.andb_true_r in Hfin. apply Z.ltb_ge in Hfin.
  rewrite (proj2 (Z.eqb_eq tf tq)) by (destruct Hb; lia). done.
Qed.

(** While the keeper waits, there is nothing to write. *)
Lemma delay_until_bounds now deadlines idle d :
  0 < as_secs idle → 0 ≤ now → (∀ x, Some x ∈ deadlines → now < x ≤ umax u64) → delay_until now deadlines idle = d →
  0 < as_secs d ≤ as_secs idle ∧ ∀ x, Some x ∈ deadlines → now + as_secs d ≤ x.
Proof.
  revert idle. induction deadlines as [|o l IH]; intros idle Hi Hn Hl; cbn.
  - intros <-. split; [lia|]. intros x Hx. by apply not_elem_of_nil in Hx.
  - intros Hd. assert (∀ x, Some x ∈ l → now < x ≤ umax u64) as Hl' by (intros x Hx; apply Hl; set_solver).
    set (idle' := match o with Some _ => _ | None => _ end) in Hd.
    assert (0 < as_secs idle' ≤ as_secs idle ∧ ∀ x, o = Some x → as_secs idle' ≤ x - now) as [Hpos Ho].
    { unfold idle'. destruct o as [x|]; [|split; [lia|done]]. destruct (Hl x) as [? ?]; [set_solver|].
      rewrite Z.gtb_ltb, (proj2 (Z.ltb_lt _ _)) by lia. unfold duration_min. cbn [as_secs]. rewrite usub_exact by lia.
      destruct (Z.ltb_spec (x - now) (as_secs idle)); cbn [as_secs]; (split; [lia|]); intros y [= <-]; lia. }
    destruct (IH idle' ltac:(lia) Hn Hl' Hd) as [H1 H2]. split; [lia|].
    intros x [Hx|Hx]%elem_of_cons; [specialize (Ho x (eq_sym Hx)); lia|by apply H2].
Qed.

Lemma wait_inj a b : PlanWait a = PlanWait b → a = b.
Proof. by intros [= ->]. Qed.
Lemma open_wait now0 now opened period last tf tq b d :
  phase_ok c t now0 (PhOpen opened period last tf tq b) → now0 ≤ now → now < 2 ^ 62 → tm_sub t = true →
  open_plan period last tf tq b now = PlanWait d →
  0 < as_secs d ≤ as_secs (min_claim_interval c) ∧
  ∀ later, now ≤ later < now + as_secs d →
    phase_finalize c t later (PhOpen opened period last tf tq b) = None ∧
    (phase_settle_week c t later (PhOpen opened period last tf tq b) = None ∨
     phase_settle_week c t later (PhOpen opened period last tf tq b) = Some (PhOpen opened period last tf tq b)).
Proof.
  intros (Ho & Hl & Hb) Hn Hn' Hs. unfold open_plan. set (due := last + as_secs (claim_promote_window c)).
  pose proof (accepted_paid c t Ht _ _ _ _ _ Hb) as (_ & _ & _ & Hweek).
  assert (tm_weeks t = SUBSCRIPTION_WEEKS) as Hweeks by (unfold tm_weeks; by rewrite Hs).
  destruct ((tf <? tq) && (due <=? now)) eqn:H1; [done|].
  destruct ((bk_week b <? tm_weeks t) && (boundary_of period b <=? now)) eqn:H2; [done|].
  destruct ((bk_week b =? tm_weeks t) && (due <=? now)) eqn:H3; [done|]. intros Hd%wait_inj. pose proof (fit_promote _ _ Hfit) as Hpr.
  apply delay_until_bounds in Hd as [Hpos Hdl]; [|lia|lia|].
  2:{ intros x. rewrite !elem_of_cons. unfold boundary_of, SUBSCRIPTION_WEEKS, umax in *. cbn [as_secs SUB_WEEK_LEN] in *. clear -H1 H2 H3 Ho Hl Hn Hn' Hweek Hweeks Hpr.
      intros [Hx|[Hx|[Hx|Hx]]]; [..|by apply not_elem_of_nil in Hx].
      - destruct (tf <? tq); [|done]. injection Hx as ->. cbn in H1. apply Z.leb_gt in H1. unfold due in *. lia.
      - destruct (bk_week b <? tm_weeks t); [|done]. injection Hx as ->. cbn [andb] in H2. apply Z.leb_gt in H2. lia.
      - destruct (bk_week b =? tm_weeks t); [|done]. injection Hx as ->. cbn in H3. apply Z.leb_gt in H3. unfold due in *. lia. }
  split; [done|]. intros later Hlater. split.
  - cbn [phase_finalize]. destruct (Z.ltb_spec tf tq) as [Hlt|]; [|done]. specialize (Hdl due ltac:(set_solver)).
    by rewrite (proj2 (Z.leb_gt _ _)) by (unfold due in *; lia).
  - cbn [phase_settle_week]. rewrite Hs. cbn [negb]. unfold books_at, charge. rewrite Hs.
    destruct (Z.ltb_spec (bk_week b) (tm_weeks t)) as [Hlt|Hge].
    + specialize (Hdl (boundary_of period b) ltac:(set_solver)). pose proof (weeks_begun period later b ltac:(lia) ltac:(lia)) as Hw.
      rewrite (proj2 (Z.leb_gt (boundary_of period b) later)) in Hw by lia. apply Z.ltb_ge in Hw.
      rewrite (proj2 (Z.leb_le _ _) Hw). cbn [negb andb]. rewrite (proj2 (Z.ltb_lt _ _)) by lia. by left.
    + pose proof (weeks_at_bounds t period later false ltac:(lia)) as Hw. rewrite (proj2 (Z.leb_le _ _)) by lia.
      cbn [negb andb]. rewrite (proj2 (Z.ltb_ge (bk_week b) _)), Z.geb_leb, (proj2 (Z.leb_le _ _)) by lia.
      rewrite (proj2 (Z.eqb_eq (bk_week b) (tm_weeks t))) in Hdl by lia. specialize (Hdl due ltac:(set_solver)).
      rewrite Z.geb_leb, (proj2 (Z.leb_gt _ _)) by (unfold due in *; lia). cbn [andb]. by right.
Qed.


Lemma promoted_progress print opened period last tf tq b created created' now :
  phase_ok c t now (PhOpen opened period last tq tq b) → tf < tq →
  reconcile_write tc print bounds PlanFinalize (phase_snapshot (PhOpen opened period last tf tq b) created)
    (Some (phase_snapshot (PhOpen opened period last tq tq b) created')) (Ok ()) = Ok StepProgress.
Proof.
  intros Hok Hlt. unfold reconcile_write. erewrite phase_validates by exact Hok. cbn [rbind].
  rewrite moved_on by lia. cbn -[Z.gtb]. by rewrite Z.gtb_ltb, (proj2 (Z.ltb_lt _ _)) by lia.
Qed.
Lemma charged_progress print opened period last tf tq b created created' now now0 :
  phase_ok c t now0 (PhOpen opened period last tf tq b) → now0 ≤ now → bk_week b < tm_weeks t → tm_sub t = true →
  boundary_of period b ≤ now →
  phase_ok c t now (PhOpen opened period last tf tq (books_at t period now false tq b)) →
  reconcile_write tc print bounds (PlanSettleWeek (weeks_at t period now false)) (phase_snapshot (PhOpen opened period last tf tq b) created)
    (Some (phase_snapshot (PhOpen opened period last tf tq (books_at t period now false tq b)) created')) (Ok ()) = Ok StepProgress.
Proof.
  intros (Ho & Hl & Hb) Hn Hlt Hs Hdue Hok. unfold reconcile_write. erewrite phase_validates by exact Hok. cbn [rbind].
  pose proof (charged_grow period now tf tq b Hb ltac:(lia)) as (? & ? & ?). rewrite moved_on by lia.
  pose proof (accepted_paid c t Ht _ _ _ _ _ Hb) as (_ & _ & _ & Hweek).
  pose proof (weeks_begun period now b ltac:(lia) ltac:(lia)) as Hw. rewrite (proj2 (Z.leb_le _ _) Hdue) in Hw.
  change (is_stopped _) with false. change (cs_disputed _) with false. cbn [rbind phase_snapshot ks_subscription phase_sub].
  change (week_index (sub_at t period b)) with (bk_week b). change (sub_weeks (sub_at t period b)) with (tm_weeks t).
  change (week_index (sub_at t period (books_at t period now false tq b))) with (bk_week (books_at t period now false tq b)).
  rewrite (proj2 (Z.ltb_lt _ _)) by lia. cbn [andb]. unfold books_at, charge. rewrite Hs.
  apply Z.ltb_lt in Hw. rewrite (proj2 (Z.leb_gt _ _)) by lia. by rewrite Z.eqb_refl.
Qed.
Lemma open_settles now0 now opened period last tf tq b target :
  phase_ok c t now0 (PhOpen opened period last tf tq b) → now0 ≤ now → tm_sub t = true →
  open_plan period last tf tq b now = PlanSettleWeek target →
  ∃ ph', phase_settle_week c t now (PhOpen opened period last tf tq b) = Some ph' ∧
    (match ph' with PhClosed _ _ _ _ _ _ _ _ _ _ => True | _ => False end ∨
     target = weeks_at t period now false ∧ bk_week b < tm_weeks t ∧ boundary_of period b ≤ now ∧
     ph' = PhOpen opened period last tf tq (books_at t period now false tq b)).
Proof.
  intros (Ho & Hl & Hb) Hn Hs. unfold open_plan. pose proof (accepted_paid c t Ht _ _ _ _ _ Hb) as (_ & _ & _ & Hweek).
  assert (tm_weeks t = SUBSCRIPTION_WEEKS) as Hweeks by (unfold tm_weeks; by rewrite Hs).
  destruct (_ && _); [done|]. cbn [phase_settle_week]. rewrite Hs. cbn [negb].
  destruct ((bk_week b <? tm_weeks t) && (boundary_of period b <=? now)) eqn:Hset.
  - apply Bool.andb_true_iff in Hset as [Hlt%Z.ltb_lt Hdue%Z.leb_le]. intros [= <-].
    pose proof (weeks_begun period now b ltac:(lia) ltac:(lia)) as Hw. rewrite (proj2 (Z.leb_le _ _) Hdue) in Hw. apply Z.ltb_lt in Hw.
    rewrite (proj2 (Z.leb_gt (weeks_at t period now false) _)) by lia. cbn [negb andb].
    destruct (_ && _); eexists; (split; [reflexivity|]); [by left|by right].
  - destruct ((bk_week b =? tm_weeks t) && _) eqn:Hclose; [|done]. apply Bool.andb_true_iff in Hclose as [Heq%Z.eqb_eq Hdue%Z.leb_le].
    intros [= <-]. pose proof (weeks_at_bounds t period now false ltac:(lia)) as Hw. unfold books_at, charge. rewrite Hs.
    rewrite (proj2 (Z.leb_le (weeks_at t period now false) _)) by lia. cbn [negb andb].
    rewrite (proj2 (Z.ltb_ge (bk_week b) _)), !Z.geb_leb, !(proj2 (Z.leb_le _ _)) by lia. cbn [andb].
    eexists. split; [reflexivity|]. by left.
Qed.
Lemma closed_terminal print action before ph created' now :
  phase_ok c t now ph → match ph with PhClosed _ _ _ _ _ _ _ _ _ _ => True | _ => False end →
  ∃ final, reconcile_write tc print bounds action before (Some (phase_snapshot ph created')) (Ok ()) = Ok (StepTerminal final).
Proof.
  intros Hok Hcl. unfold reconcile_write. erewrite phase_validates by exact Hok. cbn [rbind phase_snapshot ks_deal].
  rewrite phase_stopped. destruct ph; try done. by eexists.
Qed.
End Phases.

(** ** The keeper and the chain *)

Section Chain.
Context (c : ProtocolConsts) (params : DobParams) (sha256 : string → list Byte.byte) (bounds : ClaimBounds) (print : ChainError → text).
Hypothesis (Hc : consts_ok c).
Hypothesis (bounds_interval : cb_min_claim_interval bounds = min_claim_interval c)
  (bounds_promote : cb_promote_window bounds = claim_promote_window c)
  (interval_positive : 0 < as_secs (min_claim_interval c)) (interval_fits : as_secs (min_claim_interval c) < 2 ^ 62) (promote_positive : 0 < as_secs (claim_promote_window c)).

Lemma put_view now now' st tc cell o k buyer ph ph' :
  deal_view_at c now st tc cell o k buyer ph → phase_ok c (terms_of o k buyer) now' ph' →
  deal_view_at c now' (put c (terms_of o k buyer) tc ph' st) tc (phase_cell c (terms_of o k buyer) ph') o k buyer ph'.
Proof.
  intros [Hcr Hsel Hterms Hmo Hmt Hm Hh Hph Hcell] Hok. split; try done.
  unfold holds, put, set_deal. cbn. by rewrite !lookup_insert_eq.
Qed.

(** What the write of a plan must come to: it is accepted, and the snapshot after it lets the
    keeper go on or tells it that the deal is over. *)
Definition write_applies (write : Result ChainError MockState) (tc : string) (action : KeeperPlan) (s : KeeperSnapshot) : Prop :=
  ∃ st' snap' step, write = Ok st' ∧ deal_snapshot c st' tc = Ok (Some snap') ∧
    reconcile_write tc print bounds action s (Some (KeeperSnapshot_from snap')) (Ok ()) = Ok step ∧
    (step = StepProgress ∨ ∃ final, step = StepTerminal final).
Definition refused_or_idle (write : Result ChainError MockState) (st : MockState) : Prop := (∃ e, write = Err e) ∨ write = Ok st.

Definition plan_right (st : MockState) (tc : string) (now : Z) (s : KeeperSnapshot) (p : KeeperPlan) : Prop :=
  match p with
  | PlanNotSubscription => is_subscription (ks_subscription s) = false
  | PlanTerminal => is_stopped (ks_deal s) = true
  | PlanFinalize => write_applies (finalize c now tc st) tc p s
  | PlanSettleWeek _ => write_applies (settle_week c now tc st) tc p s
  | PlanWait d => 0 < as_secs d ≤ as_secs (min_claim_interval c) ∧
      ∀ later, now ≤ later < now + as_secs d → refused_or_idle (finalize c later tc st) st ∧ refused_or_idle (settle_week c later tc st) st
  end.

Lemma result_refused {A} (r : Result ChainError A) : result_ok r = None → ∃ e, r = Err e.
Proof. destruct r as [a|e]; [done|]. by exists e. Qed.
Lemma result_accepted {A} (r : Result ChainError A) a : result_ok r = Some a → r = Ok a.
Proof. destruct r; [by intros [= ->]|done]. Qed.

Lemma put_applies now st tc cell o k buyer ph ph' write action s :
  deal_view_at c now st tc cell o k buyer ph →
  result_ok write = Some (put c (terms_of o k buyer) tc ph' st) → phase_ok c (terms_of o k buyer) now ph' →
  (∀ created', ∃ step, reconcile_write tc print bounds action s (Some (phase_snapshot c (terms_of o k buyer) ph' created')) (Ok ()) = Ok step ∧
     (step = StepProgress ∨ ∃ final, step = StepTerminal final)) →
  write_applies write tc action s.
Proof.
  intros Hview Hw Hok Hstep. pose proof (put_view _ now _ _ _ _ _ _ _ ph' Hview Hok) as Hview'.
  assert (ms_streams (put c (terms_of o k buyer) tc ph' st) !! tc = Some (phase_cell c (terms_of o k buyer) ph')) as Hcell' by apply Hview'.
  destruct (opened_snapshot c _ _ _ _ _ _ _ _ Hview' Hcell') as [created' Hs]. destruct (Hstep created') as (step & Hr & Hgood).
  eexists _, _, step. split_and!; [by apply result_accepted|exact Hs|exact Hr|done].
Qed.
Lemma phases_wait now0 now st tc cell o k buyer ph created :
  deal_view_at c now0 st tc cell o k buyer ph → now0 ≤ now → now < 2 ^ 62 → tm_sub (terms_of o k buyer) = true →
  match ph with PhProbe _ _ | PhDisputedProbe _ _ _ | PhDisputed _ _ _ _ _ _ _ => True | _ => False end →
  plan tc (phase_snapshot c (terms_of o k buyer) ph created) bounds now = Ok (PlanWait (min_claim_interval c)) ∧
  ∀ later, now ≤ later → later < 2 ^ 63 → refused_or_idle (finalize c later tc st) st ∧ refused_or_idle (settle_week c later tc st) st.
Proof.
  intros [_ _ (Hwf & Ht & Hfit) _ _ _ Hh Hph _] Hn Hlt Hsub Hcase. set (t := terms_of o k buyer) in *. split.
  - unfold plan. erewrite (phase_validates c t tc Ht) by exact Hph. cbn [rbind phase_snapshot ks_subscription ks_deal].
    rewrite phase_subscribed, Hsub, phase_stopped, bounds_interval. rewrite (proj2 (Z.eqb_neq _ 0)) by lia. by destruct ph.
  - intros later Hl Hl'.
    pose proof (finalize_refines c t tc Hwf Ht Hfit st ph now0 Hh Hph later ltac:(lia) Hl') as Hfin.
    pose proof (settle_week_refines c t tc Hwf Ht Hfit st ph now0 Hh Hph later ltac:(lia) Hl') as Hset.
    split; left; apply result_refused; [rewrite Hfin|rewrite Hset]; by destruct ph.
Qed.
Lemma open_serves now0 now st tc cell o k buyer opened period last tf tq b created :
  deal_view_at c now0 st tc cell o k buyer (PhOpen opened period last tf tq b) → now0 ≤ now → now < 2 ^ 62 →
  tm_sub (terms_of o k buyer) = true →
  plan_right st tc now (phase_snapshot c (terms_of o k buyer) (PhOpen opened period last tf tq b) created)
    (open_plan c (terms_of o k buyer) period last tf tq b now).
Proof.
  intros Hview Hn Hlt Hsub. pose proof Hview as [_ _ (Hwf & Ht & Hfit) _ _ _ Hh Hph _]. set (t := terms_of o k buyer) in *.
  set (ph := PhOpen opened period last tf tq b) in *.
  pose proof (finalize_refines c t tc Hwf Ht Hfit st ph now0 Hh Hph) as Hfin.
  pose proof (settle_week_refines c t tc Hwf Ht Hfit st ph now0 Hh Hph) as Hset.
  assert (deal_view_at c now st tc cell o k buyer ph) as Hviewn by (destruct Hview; split; try done; by eapply phase_ok_mono).
  pose proof Hph as (Ho & Hl & Hb). pose proof (accepted_paid c t Ht _ _ _ _ _ Hb) as (_ & _ & _ & Hweek).
  assert (tm_weeks t = SUBSCRIPTION_WEEKS) as Hweeks by (unfold tm_weeks; by rewrite Hsub).
  destruct (open_plan c t period last tf tq b now) as [| |d| |target] eqn:Hplan; cbn [plan_right].
  - unfold open_plan in Hplan. repeat case_match; discriminate.
  - unfold open_plan in Hplan. repeat case_match; discriminate.
  - pose proof Hplan as Hp. eapply open_wait in Hp as [Hd Hwait]; [|eassumption..].
    split; [done|]. intros later Hlater. destruct (Hwait later Hlater) as [Hnone Hweek'].
    split; [left; apply result_refused; rewrite Hfin by lia; unfold ph; by rewrite Hnone|]. specialize (Hset later ltac:(lia) ltac:(lia)).
    destruct Hweek' as [Hno|Hsame]; [left; apply result_refused; rewrite Hset; unfold ph; by rewrite Hno|right].
    unfold ph in Hset. rewrite Hsame in Hset. cbn [option_map] in Hset. fold ph in Hset. rewrite (put_same c t tc st ph Hh) in Hset.
    by apply result_accepted.
  - unfold open_plan in Hplan. destruct ((tf <? tq) && _) eqn:Hdue; [|repeat case_match; discriminate].
    assert (phase_finalize c t now ph = Some (PhOpen opened period last tq tq b)) as Hph'.
    { cbn [ph phase_finalize]. by rewrite Hdue, Hsub. }
    apply Bool.andb_true_iff in Hdue as [Htf%Z.ltb_lt _].
    assert (phase_ok c t now (PhOpen opened period last tq tq b)) as Hok by (eapply finalize_ok; eassumption).
    apply (put_applies now st tc cell o k buyer ph (PhOpen opened period last tq tq b)); [done| |done|].
    + rewrite Hfin by lia. by rewrite Hph'.
    + intros created'. exists StepProgress. split; [|by left]. by apply (promoted_progress c t tc bounds Ht) with now.
  - edestruct (open_settles c t) with (now0:=now0) as (ph' & Hph' & Hcase); [eassumption..|].
    assert (phase_ok c t now ph') as Hok by (eapply settle_week_ok; eassumption).
    apply (put_applies now st tc cell o k buyer ph ph'); [done| |done|].
    + rewrite Hset by lia. unfold ph. by rewrite Hph'.
    + intros created'. destruct Hcase as [Hclosed|(-> & Hlt' & Hdue & ->)].
      * destruct (closed_terminal c t tc bounds Ht print (PlanSettleWeek target) (phase_snapshot c t ph created) ph' created' now Hok Hclosed) as [final Hr].
        exists (StepTerminal final). split; [exact Hr|]. right. by eexists.
      * exists StepProgress. split; [|by left]. by apply (charged_progress c t tc bounds Ht) with now0.
Qed.

(** C21: on every deal of the mock chain, at any time, the keeper has a plan.  If it plans a write,
    the chain accepts it, and the snapshot after it is recognised as progress or as the end of the
    deal; if it waits, then until it wakes up neither of its writes would change the deal, and it
    sleeps a positive time, at most the claim interval. *)
Theorem keeper_serves_the_chain now0 now st tc cell snap :
  Reach c params sha256 now0 st → now0 ≤ now → now < 2 ^ 62 →
  ms_streams st !! tc = Some cell → deal_snapshot c st tc = Ok (Some snap) →
  ∃ p, plan tc (KeeperSnapshot_from snap) bounds now = Ok p ∧ plan_right st tc now (KeeperSnapshot_from snap) p.
Proof.
  intros HR Hn Hlt Hcell Hsnap. destruct (reach_deal c params sha256 now0 st tc cell Hc HR Hcell) as (o & k & buyer & ph & Hview).
  destruct (opened_snapshot c now0 st tc cell o k buyer ph Hview Hcell) as [created Hs].
  rewrite Hs in Hsnap. injection Hsnap as <-. set (t := terms_of o k buyer) in *.
  change (KeeperSnapshot_from _) with (phase_snapshot c t ph created).
  pose proof Hview as [_ _ (Hwf & Ht & Hfit) _ _ _ Hh Hph Hcellph]. fold t in Ht, Hfit, Hh, Hph.
  pose proof (finalize_refines c t tc Hwf Ht Hfit st ph now0 Hh Hph) as Hfin.
  pose proof (settle_week_refines c t tc Hwf Ht Hfit st ph now0 Hh Hph) as Hset.
  pose proof (phase_ok_mono c t now0 now ph Hph Hn) as Hphn.
  destruct (tm_sub t) eqn:Hsub.
  2:{ exists PlanNotSubscription. split; [|cbn [plan_right phase_snapshot ks_subscription]; by rewrite phase_subscribed].
      unfold plan. erewrite (phase_validates c t tc Ht) by exact Hph. cbn [rbind phase_snapshot ks_subscription]. by rewrite phase_subscribed, Hsub. }
  destruct ph as [|opened period last tf tq b| | |] eqn:Hphase.
  2:{ eexists. split; [apply (plan_open c t tc bounds Ht Hfit bounds_interval bounds_promote interval_positive promote_positive now0); by try lia|].
      by apply (open_serves now0 now st tc cell). }
  4:{ exists PlanTerminal. split; [|done]. unfold plan. erewrite (phase_validates c t tc Ht) by exact Hph.
      cbn [rbind phase_snapshot ks_subscription ks_deal]. by rewrite phase_subscribed, Hsub, phase_stopped. }
  all: destruct (phases_wait now0 now st tc cell o k buyer _ created Hview Hn Hlt Hsub I) as [Hp Hwait].
  all: exists (PlanWait (min_claim_interval c)); split; [exact Hp|]; split; [lia|]; intros later Hlater; apply Hwait; lia.
Qed.
End Chain.

(** * The keeper at a concrete deal

    A subscription with a claim on the way: when its window is over the keeper promotes it, and
    a week after the acceptance it charges the week. *)

Definition claimed_deal : MockState := sample_state (claimed subscription).
Definition no_snapshot : DealChainSnapshot := {|
  account_code_hash := ""; account_boc_hash := ""; snap_state := funded_deal_state 0 0;
  snap_subscription := mkSubscription 0 0 0 0 0 0 0 0; snap_seller_bond := {| sb_bond_funded := false; sb_bond_held := 0; sb_bond_required := 0 |};
  snap_buyer_bond := {| bb_bond_held := 0; bb_bond_required := 0 |} |}.
Definition claimed_snapshot : DealChainSnapshot :=
  match deal_snapshot ProtocolConsts_canonical claimed_deal "tc" with Ok (Some s) => s | _ => no_snapshot end.
Definition no_text (e : ChainError) : text := [].

Example plans_in_time :
  plan "tc" (KeeperSnapshot_from claimed_snapshot) ClaimBounds_canonical 10100 = Ok (PlanWait (from_secs 60)) ∧
  plan "tc" (KeeperSnapshot_from claimed_snapshot) ClaimBounds_canonical 10400 = Ok PlanFinalize.
Proof. vm_compute. done. Qed.

Lemma keeper_serves_the_chain_witness :
  write_applies ProtocolConsts_canonical ClaimBounds_canonical no_text
    (finalize ProtocolConsts_canonical 10400 "tc" claimed_deal) "tc" PlanFinalize (KeeperSnapshot_from claimed_snapshot).
Proof.
  destruct (keeper_serves_the_chain ProtocolConsts_canonical DobParams_canonical sample_sha256 ClaimBounds_canonical no_text
    canonical_ok eq_refl eq_refl eq_refl eq_refl eq_refl 10100 10400 claimed_deal "tc" (sample_cell (claimed subscription)) claimed_snapshot)
    as (p & Hp & Hr); [unfold claimed_deal; reach_script|lia|lia|vm_compute; reflexivity|vm_compute; reflexivity|].
  assert (plan "tc" (KeeperSnapshot_from claimed_snapshot) ClaimBounds_canonical 10400 = Ok PlanFinalize) as Hf by (vm_compute; reflexivity).
  rewrite Hf in Hp. injection Hp as <-. exact Hr.
Defined.
