(* ===== verification/ClaimDriver.v ===== *)
(** * The seller's claim driver

    crates/dexdo/src/seller/advance.rs: [drive_advance_with_observer], the loop of one deal that
    accepts the probe once there is billable usage, claims the delivered usage in steps the chain
    allows, and promotes the last claim.

    Every request of the loop goes to the world, which answers the [n]-th one: chain reads and
    writes, the shared counters of delivered usage, the observer, the clock.  What the loop does
    is recorded with the number of the request before which it was done. *)
From S2P Require Import Prelude RustText Params Address DealTypes Recovery.

Record AdvanceWindows : Type := { aw_claim_interval : Duration; aw_seconds_per_tick : Duration; aw_promote : Duration; aw_probe : Duration }.
Definition AdvanceWindows_from_bounds (b : ClaimBounds) : AdvanceWindows := {|
  aw_claim_interval := cb_min_claim_interval b; aw_seconds_per_tick := cb_min_seconds_per_tick b;
  aw_promote := cb_promote_window b; aw_probe := cb_probe_window b |}.
Definition AdvanceWindows_canonical : AdvanceWindows := AdvanceWindows_from_bounds ClaimBounds_canonical.
Definition max_claim_delta (w : AdvanceWindows) (elapsed : Duration) : Z := claim_delta_limit elapsed (aw_seconds_per_tick w).

Record ClaimDeliveryMeasurement : Type :=
  { cm_deal_delivery_count : Z; cm_delivery_at_probe : option Z; cm_cumulative_tokens : option Z }.

Definition CHAIN_READ_EXHAUSTED_MESSAGE_PREFIX : string := "chain read got no answer after ".
(** The text of a message, in which the interpolated values are printed. *)
Section Messages.
Context (show_text : text → string).
Definition exhausted_transient_read (e : ChainError) : bool :=
  match e with
  | Chain message | Transport message => contains CHAIN_READ_EXHAUSTED_MESSAGE_PREFIX (show_text message)
  | _ => false
  end.
End Messages.

Definition claim_target (delivered token_budget : Z) : Z := Z.min (Z.max delivered PROBE_SEED_TOKENS) token_budget.

Definition SELLER_TERMINAL_RECEIPT_TIMEOUT : Duration := from_secs 120.
Definition SELLER_TERMINAL_RECEIPT_POLL_INTERVAL : Duration := from_secs 3.
Definition nanos (d : Duration) : Z := as_secs d * 1000000000.

(** What the loop does to the world. *)
Inductive Event : Type :=
| RetryAfter (d : Duration)
| Slept (ns : Z)
| ChainUnavailable (e : ChainError)
| ProbeDecided (m : ClaimDeliveryMeasurement)
| AcceptProbe
| ClaimTokens (cumulative : Z)
| ClaimSubmitted (m : ClaimDeliveryMeasurement)
| Finalize.

Record World : Type := {
  w_snapshot : nat → option bool;
  w_terminal_settlement : nat → Result ChainError bool;
  w_buyer_stop_settlement : nat → Result ChainError bool;
  w_deal_state : nat → Result ChainError (option DealChainState);
  w_accept_probe : nat → option ChainError;
  w_claim_tokens : nat → Z → option ChainError;
  w_finalize : nat → option ChainError;
  w_delivered : nat → Z;
  w_delivery_done : nat → bool;
  w_observe : nat → DealChainState → option ChainError;
  w_observe_terminal : nat → option ChainError;
  w_prepare_probe : nat → Z → Result ChainError Z;
  w_active_requests : nat → Z;
  w_instant : nat → Z;
}.

Inductive Stop : Type := StopErr (e : ChainError) | OutOfFuel | Panic.
Record Driver : Type := { dr_clock : nat; dr_log : list (nat * Event) }.
Definition dr_tick (d : Driver) : Driver := {| dr_clock := S (dr_clock d); dr_log := dr_log d |}.
Definition dr_logged (e : Event) (d : Driver) : Driver := {| dr_clock := dr_clock d; dr_log := dr_log d ++ [(dr_clock d, e)] |}.

(** An early [return Ok(n)], or the value to go on with. *)
Inductive Control (A : Type) : Type := Return (n : Z) | Continue (a : A).
Arguments Return {A} n.
Arguments Continue {A} a.

Section Drive.
Context (w : World) (show_text : text → string) (token_contract : string) (windows : AdvanceWindows) (tick_budget tick_size : Z)
  (finalize_last_claim : bool).
Definition tc_display : string := display_self_dapp token_contract.
Definition token_budget : Z := saturating_mul u128 tick_budget tick_size.

Definition validated_claim_high_water (state : DealChainState) : Result ChainError Z :=
  if negb (cs_opened state) || cs_disputed state || negb (cs_probe_accepted state) then
    Err (Chain f["TokenContract "; tc_display; ": claim high-water is not actionable (opened="; Flag (cs_opened state); ", disputed="; Flag (cs_disputed state); ", probeAccepted="; Flag (cs_probe_accepted state); ")"])
  else if cs_tokens_pending state <? TICK_SIZE then
    Err (Chain f["TokenContract "; tc_display; ": accepted probe reports tokensPending "; cs_tokens_pending state; " below canonical TICK_SIZE "; TICK_SIZE; "; refusing to reset the cumulative high-water to zero"])
  else if cs_tokens_final state >? cs_tokens_pending state then
    Err (Chain f["TokenContract "; tc_display; ": tokensFinal "; cs_tokens_final state; " exceeds tokensPending "; cs_tokens_pending state; "; refusing a regressing claim pipeline"])
  else if cs_tokens_pending state >? token_budget then
    Err (Chain f["TokenContract "; tc_display; ": on-chain claim high-water "; cs_tokens_pending state; " exceeds the configured token budget "; token_budget])
  else Ok (cs_tokens_pending state).

Definition ask {A} (world : nat → A) : Op Driver Stop A := λ d, (Ok (world (dr_clock d)), dr_tick d).
Definition ask_result {A} (world : nat → Result ChainError A) : Op Driver Stop A := λ d, (map_err StopErr (world (dr_clock d)), dr_tick d).
Definition ask_unit (world : nat → option ChainError) : Op Driver Stop () :=
  ask_result (λ n, match world n with Some e => Err e | None => Ok () end).
Definition event (e : Event) : Op Driver Stop () := op_write (dr_logged e).
Definition of_result {A} (r : Result ChainError A) : Op Driver Stop A := op_ret (map_err StopErr r).
Definition fail {A} (e : ChainError) : Op Driver Stop A := op_ret (Err (StopErr e)).

(** ** Reads *)

Definition deal_closed : Op Driver Stop bool :=
  do snapshot <- ask (w_snapshot w);
  match snapshot with
  | Some closed => op_ret (Ok closed)
  | None => do receipt <- ask (w_terminal_settlement w); op_ret (Ok (match receipt with Ok found => found | Err _ => false end))
  end.
Definition deal_closed_observed : Op Driver Stop bool :=
  do closed <- deal_closed;
  if (closed : bool) then do _o <- ask_unit (w_observe_terminal w); op_ret (Ok true) else op_ret (Ok false).
Definition required_claim_state : Op Driver Stop DealChainState :=
  do answer <- ask (w_deal_state w);
  match answer with
  | Err error =>
      do _u <- (if exhausted_transient_read show_text error then event (ChainUnavailable error) else op_ret (Ok ()));
      fail error
  | Ok None =>
      fail (Chain f["TokenContract "; tc_display; ": getState returned no data while reconciling the cumulative claim high-water"])
  | Ok (Some state) => do _o <- ask_unit (λ n, w_observe w n state); op_ret (Ok state)
  end.
Fixpoint poll_closed (fuel : nat) (deadline : Z) : Op Driver Stop bool :=
  match fuel with
  | O => op_ret (Err OutOfFuel)
  | S fuel =>
      do now <- ask (w_instant w);
      if now >=? deadline then op_ret (Ok false) else
      do _s <- event (Slept (Z.min (nanos SELLER_TERMINAL_RECEIPT_POLL_INTERVAL) (deadline - now)));
      do closed <- deal_closed;
      if (closed : bool) then op_ret (Ok true) else poll_closed fuel deadline
  end.
Definition wait_claim_or_closed (fuel : nat) (window : Duration) : Op Driver Stop bool :=
  do now <- ask (w_instant w);
  poll_closed fuel (now + nanos window).
(** The reads that the timeout leaves time for. *)
Fixpoint poll_buyer_stop (fuel : nat) (deadline : Z) : Op Driver Stop bool :=
  match fuel with
  | O => op_ret (Err OutOfFuel)
  | S fuel =>
      do receipt <- ask (w_buyer_stop_settlement w);
      do now <- ask (w_instant w);
      if now >=? deadline then op_ret (Ok false)
      else if match receipt with Ok found => found | Err _ => false end then op_ret (Ok true)
      else
      do _s <- event (Slept (nanos SELLER_TERMINAL_RECEIPT_POLL_INTERVAL));
      do now <- ask (w_instant w);
      if now >=? deadline then op_ret (Ok false) else poll_buyer_stop fuel deadline
  end.
Definition buyer_stop_receipt_observed (fuel : nat) : Op Driver Stop bool :=
  do now <- ask (w_instant w);
  do stopped <- poll_buyer_stop fuel (now + nanos SELLER_TERMINAL_RECEIPT_TIMEOUT);
  if (stopped : bool) then do _o <- ask_unit (w_observe_terminal w); op_ret (Ok true) else op_ret (Ok false).

(** ** The probe *)

(** Waits for the first billable usage: [false] when there will be none. *)
Fixpoint wait_first_usage (fuel : nat) : Op Driver Stop bool :=
  match fuel with
  | O => op_ret (Err OutOfFuel)
  | S fuel =>
      do delivered_tokens <- ask (w_delivered w);
      if 0 <? delivered_tokens then op_ret (Ok true) else
      do finished <- ask (w_delivery_done w);
      if (finished : bool) then
        do again <- ask (w_delivered w); op_ret (Ok (0 <? again))
      else
      do _r <- event (RetryAfter (aw_claim_interval windows));
      do closed <- wait_claim_or_closed fuel (aw_claim_interval windows);
      if (closed : bool) then op_ret (Ok false) else wait_first_usage fuel
  end.
Definition accept_probe_at (before_probe : DealChainState) (fuel : nat) : Op Driver Stop (Control (option Z)) :=
  if negb (cs_opened before_probe) || cs_disputed before_probe || negb (cs_tokens_pending before_probe =? 0) then
    fail (Chain f["TokenContract "; tc_display; ": malformed pre-probe claim state (opened="; Flag (cs_opened before_probe); ", disputed="; Flag (cs_disputed before_probe); ", tokensPending="; cs_tokens_pending before_probe; ")"])
  else
  do _r <- event (RetryAfter (aw_probe windows));
  do _s <- event (Slept (nanos (aw_probe windows)));
  do closed <- deal_closed_observed;
  if (closed : bool) then op_ret (Ok (Return 0)) else
  do usage <- wait_first_usage fuel;
  if negb usage then op_ret (Ok (Return 0)) else
  do deal_delivery_count <- ask (w_delivered w);
  do delivery_at_probe <- ask_result (λ n, w_prepare_probe w n (Z.min deal_delivery_count TICK_SIZE));
  if (delivery_at_probe =? 0) || (delivery_at_probe >? Z.min deal_delivery_count TICK_SIZE) then
    fail (Chain f["TokenContract "; tc_display; ": invalid durable probe decision prefix "; delivery_at_probe])
  else
  do _d <- event (ProbeDecided {| cm_deal_delivery_count := deal_delivery_count; cm_delivery_at_probe := Some delivery_at_probe; cm_cumulative_tokens := None |});
  do _a <- event AcceptProbe;
  do accept_error <- ask (w_accept_probe w);
  do after_accept <- required_claim_state;
  if negb (cs_probe_accepted after_accept) then
    do closed <- deal_closed_observed;
    if (closed : bool) then op_ret (Ok (Return 0))
    else fail (unwrap_or (Chain f["TokenContract "; tc_display; ": acceptProbe returned but probeAccepted stayed false"]) accept_error)
  else op_ret (Ok (Continue (Some delivery_at_probe))).

(** ** The claims *)

(** What the claim of [next] came to: the total that the chain was told, or an end. *)
Definition claim_answer (answer : option ChainError) (next target : Z) : Op Driver Stop (option Z) :=
  match answer with
  | None => op_ret (Ok (Some next))
  | Some (ClaimHighWaterResync attempted on_chain) =>
      if negb (attempted =? next) || (on_chain <=? next) || (on_chain >? target) || (on_chain >? token_budget) then
        fail (Chain f["TokenContract "; tc_display; ": invalid claim resync (attempted="; attempted; ", expected="; next; ", onChain="; on_chain; ", deliveryTarget="; target; ", budget="; token_budget; ")"])
      else op_ret (Ok (Some on_chain))
  | Some (Limit _) => op_ret (Ok None)
  | Some e =>
      do closed <- deal_closed_observed;
      if (closed : bool) then op_ret (Ok None) else fail e
  end.
(** The state after the claim, or the early end of a deal that disappeared. *)
Definition reconcile_claim (fuel : nat) (submitted_claim target : Z) : Op Driver Stop (Control Z) :=
  λ d, match required_claim_state d with
  | (Ok post_claim_state, d) =>
      (do reconciled <- of_result (validated_claim_high_water post_claim_state);
       if (reconciled <? submitted_claim) || (reconciled >? target) then
         fail (Chain f["TokenContract "; tc_display; ": invalid post-claim reconciliation (submitted="; submitted_claim; ", onChain="; reconciled; ", deliveryTarget="; target; ", budget="; token_budget; ")"])
       else op_ret (Ok (Continue reconciled))) d
  | (Err error, d) =>
      (do closed <- deal_closed_observed;
       if (closed : bool) then op_ret (Ok (Return submitted_claim)) else
       do stopped <- buyer_stop_receipt_observed fuel;
       if (stopped : bool) then op_ret (Ok (Return submitted_claim)) else op_ret (Err error)) d
  end.
(** One claim of [next]; [None] breaks out of the loop. *)
Definition submit_claim (fuel : nat) (measured : option Z) (deal_delivery_count next target : Z) : Op Driver Stop (option (Control Z)) :=
  do _c <- event (ClaimTokens next);
  do answer <- ask (λ n, w_claim_tokens w n next);
  do _m <- event (ClaimSubmitted {| cm_deal_delivery_count := deal_delivery_count; cm_delivery_at_probe := measured; cm_cumulative_tokens := Some next |});
  do submitted <- claim_answer answer next target;
  match submitted with
  | None => op_ret (Ok None)
  | Some submitted_claim => do c <- reconcile_claim fuel submitted_claim target; op_ret (Ok (Some c))
  end.

(** What a round decides before the sleep: to break, to look again, or to claim. *)
Inductive Decision : Type := Break | Again | Claim.
Definition decide_round (fuel : nat) (claimed : Z) : Op Driver Stop Decision :=
  if claimed >=? token_budget then op_ret (Ok Break) else
  do closed <- deal_closed_observed;
  if (closed : bool) then op_ret (Ok Break) else
  do deal_delivery_count <- ask (w_delivered w);
  if negb (claimed >=? claim_target deal_delivery_count token_budget) then op_ret (Ok Claim) else
  do finished <- ask (w_delivery_done w);
  if (finished : bool) then
    do refreshed <- ask (w_delivered w);
    op_ret (Ok (if claimed >=? claim_target refreshed token_budget then Break else Claim))
  else
  do _r <- event (RetryAfter (from_secs (saturating_mul u64 (as_secs (aw_claim_interval windows)) 2)));
  do closed <- wait_claim_or_closed fuel (aw_claim_interval windows);
  op_ret (Ok (if (closed : bool) then Break else Again)).
Definition allowance : Z :=
  if as_secs (aw_claim_interval windows) =? 0 then MAX_CLAIM_DELTA else max_claim_delta windows (aw_claim_interval windows).

Fixpoint claim_loop (fuel : nat) (measured : option Z) (claimed : Z) (needs_finalize : bool) : Op Driver Stop (Control (Z * bool)) :=
  match fuel with
  | O => op_ret (Err OutOfFuel)
  | S fuel =>
      do decision <- decide_round fuel claimed;
      match decision with
      | Break => op_ret (Ok (Continue (claimed, needs_finalize)))
      | Again => claim_loop fuel measured claimed needs_finalize
      | Claim =>
          do _r <- event (RetryAfter (aw_claim_interval windows));
          do _s <- event (Slept (nanos (aw_claim_interval windows)));
          do deal_delivery_count <- ask (w_delivered w);
          let target := claim_target deal_delivery_count token_budget in
          let next := Z.min target (saturating_add u128 claimed allowance) in
          if next <=? claimed then claim_loop fuel measured claimed needs_finalize else
          do held <- (if next =? token_budget then do active <- ask (w_active_requests w); op_ret (Ok (0 <? active)) else op_ret (Ok false));
          if (held : bool) then claim_loop fuel measured claimed needs_finalize else
          do outcome <- submit_claim fuel measured deal_delivery_count next target;
          match outcome with
          | None => op_ret (Ok (Continue (claimed, needs_finalize)))
          | Some (Return n) => op_ret (Ok (Return n))
          | Some (Continue reconciled) => claim_loop fuel measured reconciled true
          end
      end
  end.

Definition finalize_tail (claimed : Z) (needs_finalize : bool) : Op Driver Stop Z :=
  if needs_finalize && finalize_last_claim then
    do _s <- event (Slept (nanos (aw_promote windows)));
    do _f <- event Finalize;
    do answer <- ask (w_finalize w);
    match answer with
    | None => op_ret (Ok claimed)
    | Some error =>
        do closed <- deal_closed_observed;
        if (closed : bool) then op_ret (Ok claimed) else fail error
    end
  else op_ret (Ok claimed).

Definition drive_advance_with_observer (fuel : nat) : Op Driver Stop Z :=
  if negb (0 <? tick_size) then op_ret (Err Panic) else
  do closed <- deal_closed_observed;
  if (closed : bool) then op_ret (Ok 0) else
  do before_probe <- required_claim_state;
  do probed <- (if cs_probe_accepted before_probe then op_ret (Ok (Continue None)) else accept_probe_at before_probe fuel);
  match probed with
  | Return n => op_ret (Ok n)
  | Continue measured =>
      do claim_state <- required_claim_state;
      do claimed <- of_result (validated_claim_high_water claim_state);
      do outcome <- claim_loop fuel measured claimed (cs_tokens_pending claim_state >? cs_tokens_final claim_state);
      match outcome with
      | Return n => op_ret (Ok n)
      | Continue (claimed, needs_finalize) => finalize_tail claimed needs_finalize
      end
  end.
End Drive.
