(* ===== verification/ClaimDriverProps.v ===== *)
(** * Properties of the claim driver

    Whatever the chain answers, every claim the driver sends is earned: it is within the budget
    and the delivered usage, and one allowed step above a total that the chain reported.

    The second part shows that the chain accepts the claims the driver sends; the last part is the
    driver at a concrete deal. *)
From S2P Require Import Prelude RustText Params Address DealTypes Recovery ClaimDriver.
From S2P Require Import Machine MockData MockMoney MockBook MockDeal DealSpec.
From S2P Require Import DealExits DealPhase MockRefine MockInv MockRun MockProps MockClaims.

Section Driver.
Context (w : World) (show_text : text → string) (tc : string) (windows : AdvanceWindows) (tick_budget tick_size : Z) (finalize_last_claim : bool).
(** The shared counter of accepted usage only grows. *)
Hypothesis delivered_grows : ∀ m n, (m ≤ n)%nat → w_delivered w m ≤ w_delivered w n.
#[local] Abbreviation budget := (token_budget tick_budget tick_size).

(** ** What may be sent *)

Definition actionable (state : DealChainState) : Prop :=
  cs_opened state = true ∧ cs_disputed state = false ∧ cs_probe_accepted state = true ∧ TICK_SIZE ≤ cs_tokens_pending state.
(** The chain reported the total [n] in an answer before the [k]-th request. *)
Definition reported (k : nat) (n : Z) : Prop :=
  ∃ m state, (m < k)%nat ∧ w_deal_state w m = Ok (Some state) ∧ actionable state ∧ cs_tokens_pending state = n.
Definition earned (k : nat) (cumulative : Z) : Prop :=
  cumulative ≤ budget ∧ cumulative ≤ Z.max (w_delivered w k) PROBE_SEED_TOKENS ∧
  ∃ before, reported k before ∧ before < cumulative ≤ before + allowance windows.
Definition probe_earned (k : nat) : Prop :=
  0 < w_delivered w k ∧ ∃ m x saved, (m < k)%nat ∧ w_prepare_probe w m x = Ok saved ∧ saved ≠ 0 ∧ saved ≤ Z.min (w_delivered w k) TICK_SIZE.
Definition event_ok (e : nat * Event) : Prop :=
  match e.2 with
  | ClaimTokens cumulative => earned e.1 cumulative
  | AcceptProbe => probe_earned e.1
  | Finalize => finalize_last_claim = true
  | _ => True
  end.
Definition is_quiet (e : Event) : bool := match e with ClaimTokens _ | AcceptProbe | Finalize => false | _ => true end.
Definition claims (log : list (nat * Event)) : list Z :=
  omap (λ e, match e.2 with ClaimTokens n => Some n | _ => None end) log.

(** ** Parts that send nothing *)

Definition quiet (d d' : Driver) : Prop :=
  (dr_clock d ≤ dr_clock d')%nat ∧ ∃ new, dr_log d' = dr_log d ++ new ∧ Forall (λ e, is_quiet e.2 = true) new.
Definition quietly {A} (m : Op Driver Stop A) : Prop := ∀ d, quiet d (m d).2.

Lemma quiet_refl d : quiet d d.
Proof. split; [lia|]. exists []. rewrite app_nil_r. by split. Qed.
Lemma quiet_trans d1 d2 d3 : quiet d1 d2 → quiet d2 d3 → quiet d1 d3.
Proof.
  intros [H1 (n1 & L1 & Q1)] [H2 (n2 & L2 & Q2)]. split; [lia|]. exists (n1 ++ n2). split; [by rewrite L2, L1, app_assoc|]. by apply Forall_app.
Qed.
Lemma quietly_ret {A} (r : Result Stop A) : quietly (op_ret r).
Proof. intros d. apply quiet_refl. Qed.
Lemma quietly_bind {A B} (m : Op Driver Stop A) (k : A → Op Driver Stop B) : quietly m → (∀ a, quietly (k a)) → quietly (op_bind m k).
Proof.
  intros Hm Hk d. specialize (Hm d). unfold op_bind. destruct (m d) as [[a|e] d']; [|done]. eapply quiet_trans; [exact Hm|apply Hk].
Qed.
Lemma quietly_ask {A} (world : nat → A) : quietly (ask world).
Proof. intros d. split; [cbn; lia|]. exists []. cbn. rewrite app_nil_r. by split. Qed.
Lemma quietly_ask_result {A} (world : nat → Result ChainError A) : quietly (ask_result world).
Proof. intros d. split; [cbn; lia|]. exists []. cbn. rewrite app_nil_r. by split. Qed.
Lemma quietly_event e : is_quiet e = true → quietly (event e).
Proof. intros He d. split; [cbn; lia|]. exists [(dr_clock d, e)]. split; [done|]. by repeat constructor. Qed.

Create HintDb quiet discriminated.
Ltac hush :=
  repeat first
    [ assumption
    | solve [auto with quiet nocore]
    | apply quietly_ret | apply quietly_ask | apply quietly_ask_result | apply quietly_event; reflexivity
    | apply quietly_bind; [|intros ?]
    | lazymatch goal with
      | |- quietly (if ?b then _ else _) => destruct b
      | |- quietly (match ?x with _ => _ end) => destruct x
      end ].

Lemma deal_closed_quiet : quietly (deal_closed w).
Proof. unfold deal_closed. hush. Qed.
#[local] Hint Resolve deal_closed_quiet : quiet.
Lemma deal_closed_observed_quiet : quietly (deal_closed_observed w).
Proof. unfold deal_closed_observed, ask_unit. hush. Qed.
#[local] Hint Resolve deal_closed_observed_quiet : quiet.
Lemma required_claim_state_quiet : quietly (required_claim_state w show_text tc).
Proof. unfold required_claim_state, ask_unit, fail. hush. Qed.
#[local] Hint Resolve required_claim_state_quiet : quiet.
Lemma poll_closed_quiet fuel deadline : quietly (poll_closed w fuel deadline).
Proof. revert deadline. induction fuel as [|fuel IH]; intros deadline; cbn [poll_closed]; hush. Qed.
#[local] Hint Resolve poll_closed_quiet : quiet.
Lemma wait_claim_or_closed_quiet fuel window : quietly (wait_claim_or_closed w fuel window).
Proof. unfold wait_claim_or_closed. hush. Qed.
#[local] Hint Resolve wait_claim_or_closed_quiet : quiet.
Lemma buyer_stop_quiet fuel : quietly (buyer_stop_receipt_observed w fuel).
Proof.
  assert (∀ deadline, quietly (poll_buyer_stop w fuel deadline)) as Hpoll.
  { induction fuel as [|fuel IH]; intros deadline; cbn [poll_buyer_stop]; hush. }
  unfold buyer_stop_receipt_observed, ask_unit. hush.
Qed.
#[local] Hint Resolve buyer_stop_quiet : quiet.
Lemma wait_first_usage_quiet fuel : quietly (wait_first_usage w windows fuel).
Proof.
  induction fuel as [|fuel IH]; cbn [wait_first_usage]; hush.
Qed.
#[local] Hint Resolve wait_first_usage_quiet : quiet.
Lemma decide_round_quiet fuel claimed : quietly (decide_round w windows tick_budget tick_size fuel claimed).
Proof. unfold decide_round. hush. Qed.
#[local] Hint Resolve decide_round_quiet : quiet.
Lemma claim_answer_quiet answer next target : quietly (claim_answer w tc tick_budget tick_size answer next target).
Proof. unfold claim_answer, fail. hush. Qed.
#[local] Hint Resolve claim_answer_quiet : quiet.

(** ** The log *)

Definition sent_well (d : Driver) : Prop := Forall event_ok (dr_log d) ∧ StronglySorted Z.lt (claims (dr_log d)).
(** And no claim is above [total]. *)
Definition sent_upto (d : Driver) (total : Z) : Prop := sent_well d ∧ Forall (λ n, n ≤ total) (claims (dr_log d)).

Lemma quiet_events new : Forall (λ e : nat * Event, is_quiet e.2 = true) new → Forall event_ok new ∧ claims new = [].
Proof.
  intros H. split; [eapply Forall_impl; [exact H|]; intros [k []]; done|]. induction H as [|[k e] new He _ IH]; [done|]. cbn. by destruct e.
Qed.
Lemma claims_app l l' : claims (l ++ l') = claims l ++ claims l'.
Proof. apply omap_app. Qed.
Lemma quiet_well d d' : quiet d d' → sent_well d → sent_well d'.
Proof.
  intros [_ (new & Hl & Hq)] [H1 H2]. apply quiet_events in Hq as [Hok Hc]. split; rewrite Hl; [by apply Forall_app|].
  by rewrite claims_app, Hc, app_nil_r.
Qed.
Lemma quiet_upto d d' total : quiet d d' → sent_upto d total → sent_upto d' total.
Proof.
  intros Hq [H1 H2]. split; [by eapply quiet_well|]. destruct Hq as [_ (new & -> & [_ Hc]%quiet_events)]. by rewrite claims_app, Hc, app_nil_r.
Qed.
Lemma quiet_later d d' k : quiet d d' → (k ≤ dr_clock d)%nat → w_delivered w k ≤ w_delivered w (dr_clock d').
Proof. intros [H _] Hk. apply delivered_grows. lia. Qed.
Lemma reported_later k k' n : (k ≤ k')%nat → reported k n → reported k' n.
Proof. intros H (m & state & ? & ?). exists m, state. split; [lia|done]. Qed.
Lemma logged_well e d : event_ok (dr_clock d, e) → claims [(dr_clock d, e)] = [] → sent_well d → sent_well (dr_logged e d).
Proof.
  intros He Hc [H1 H2]. split; cbn [dr_logged dr_log]; [apply Forall_app; by repeat constructor|]. by rewrite claims_app, Hc, app_nil_r.
Qed.

(** ** The parts *)

Lemma required_claim_state_spec d :
  wp (required_claim_state w show_text tc) (λ r d', quiet d d' ∧
    ∀ state, r = Ok state → ∃ m, (m < dr_clock d')%nat ∧ w_deal_state w m = Ok (Some state)) d.
Proof.
  unfold wp. split; [apply required_claim_state_quiet|]. unfold required_claim_state, ask_unit, ask_result, ask, op_bind.
  destruct (w_deal_state w (dr_clock d)) as [[state|]|e] eqn:Hs; [|done|by destruct (exhausted_transient_read show_text e)].
  cbn. destruct (w_observe w _ state); cbn; [done|]. intros ? [= <-]. exists (dr_clock d). split; [lia|done].
Qed.
Lemma validated_spec state n : validated_claim_high_water tc tick_budget tick_size state = Ok n →
  actionable state ∧ cs_tokens_pending state = n ∧ n ≤ budget.
Proof.
  unfold validated_claim_high_water. destruct (_ || _ || _) eqn:H1; [done|]. destruct (Z.ltb_spec (cs_tokens_pending state) TICK_SIZE); [done|].
  destruct (_ >? _); [done|]. rewrite Z.gtb_ltb. destruct (Z.ltb_spec budget (cs_tokens_pending state)); [done|]. intros [= <-].
  apply orb_false_iff in H1 as [[Ho%negb_false_iff Hd]%orb_false_iff Hp%negb_false_iff]. by repeat split.
Qed.
Lemma claim_answer_spec answer next target d :
  wp (claim_answer w tc tick_budget tick_size answer next target) (λ r d', quiet d d' ∧ ∀ s, r = Ok (Some s) → next ≤ s) d.
Proof.
  unfold wp. split; [apply claim_answer_quiet|]. unfold claim_answer, fail, op_bind.
  destruct answer as [e|]; [|by intros s [= <-]]. destruct e; try (intros s; destruct (deal_closed_observed w d) as [[[]|] ?]; done).
  destruct (negb (attempted =? next) || _ || _ || _) eqn:H; [done|]. intros s [= <-].
  apply orb_false_iff in H as [[[_ H]%orb_false_iff _]%orb_false_iff _]. lia.
Qed.
Lemma reconcile_claim_spec fuel submitted target d :
  wp (reconcile_claim w show_text tc tick_budget tick_size fuel submitted target) (λ r d', quiet d d' ∧
    ∀ n, r = Ok (Continue n) → submitted ≤ n ∧ reported (dr_clock d') n) d.
Proof.
  pose proof (required_claim_state_spec d) as [Hq Hs]. unfold wp, reconcile_claim in *.
  destruct (required_claim_state w show_text tc d) as [[state|e] d1]; cbn [fst snd] in *.
  - destruct (Hs state eq_refl) as (m & Hm & Hst). unfold of_result, fail, op_bind, op_ret.
    destruct (validated_claim_high_water tc tick_budget tick_size state) as [n|] eqn:Hv; cbn; [|done].
    apply validated_spec in Hv as (Ha & Hp & _). destruct ((n <? submitted) || (n >? target)) eqn:Hr; cbn; [done|].
    split; [done|]. intros n' [= <-]. apply orb_false_iff in Hr as [Hr _]. split; [lia|]. by exists m, state.
  - set (rest := op_bind _ _). assert (quietly rest) as Hrest by (unfold rest; hush). split; [eapply quiet_trans; [exact Hq|apply Hrest]|].
    intros n. unfold rest, op_bind, op_ret. destruct (deal_closed_observed w d1) as [[[]|] d2]; cbv iota beta; [done| |done].
    by destruct (buyer_stop_receipt_observed w fuel d2) as [[[]|] ?].
Qed.
Lemma submit_claim_spec fuel measured count next target claimed d :
  sent_upto d claimed → claimed < next → earned (dr_clock d) next →
  wp (submit_claim w show_text tc tick_budget tick_size fuel measured count next target) (λ r d', sent_well d' ∧
    ∀ n, r = Ok (Some (Continue n)) → sent_upto d' n ∧ reported (dr_clock d') n) d.
Proof.
  intros [[Hok Hsorted] Hle] Hlt Hearned. unfold submit_claim. apply wp_set. set (d1 := dr_logged (ClaimTokens next) d).
  assert (sent_upto d1 next) as H1.
  { unfold d1, sent_upto, sent_well. cbn [dr_logged dr_log]. rewrite claims_app. cbn [claims omap list_omap snd]. split_and!.
    - apply Forall_app. split; [done|]. constructor; [exact Hearned|constructor].
    - apply StronglySorted_app_2; [|done|by repeat constructor]. intros x y Hx ->%list_elem_of_singleton.
      rewrite Forall_forall in Hle. specialize (Hle x Hx). lia.
    - apply Forall_app. split; [eapply Forall_impl; [exact Hle|]; cbn; lia|by repeat constructor]. }
  apply wp_bind. unfold wp at 1, ask. cbn [fst snd].
  apply wp_set. apply wp_bind. eapply wp_mono; [apply claim_answer_spec|]. intros r d2 [Hq Hs].
  assert (quiet d1 d2) as Hq1 by (eapply quiet_trans; [|exact Hq]; split; [cbn; lia|]; eexists; split; [reflexivity|by repeat constructor]).
  pose proof (quiet_upto _ _ _ Hq1 H1) as H2. destruct r as [[s|]|e]; [|by split; [apply H2|]..].
  specialize (Hs s eq_refl). apply wp_bind. eapply wp_mono; [apply reconcile_claim_spec|]. intros r d3 [Hq3 Hr].
  pose proof (quiet_upto _ _ _ Hq3 H2) as H3. destruct r as [c|e]; [|by split; [apply H3|]]. split; [apply H3|].
  intros n [= ->]. destruct (Hr n eq_refl) as [Hn Hrep]. split; [|done]. destruct H3 as [H3 H4]. split; [done|].
  eapply Forall_impl; [exact H4|]. cbn. lia.
Qed.

(** The delivered usage seen by a request is still there at any later one. *)
Lemma ask_delivered {B} (k : Z → Op Driver Stop B) Q d :
  wp (k (w_delivered w (dr_clock d))) Q (dr_tick d) → wp (op_bind (ask (w_delivered w)) k) Q d.
Proof. done. Qed.
Lemma wp_quietly {A B} (m : Op Driver Stop A) (k : A → Op Driver Stop B) (Q : Result Stop B → Driver → Prop) d :
  quietly m → (∀ e d', quiet d d' → Q (Err e) d') → (∀ a d', quiet d d' → m d = (Ok a, d') → wp (k a) Q d') → wp (op_bind m k) Q d.
Proof.
  intros Hm He Hk. specialize (Hm d). apply wp_bind. unfold wp at 1. destruct (m d) as [[a|e] d'] eqn:Hd; cbn in *; [by apply Hk|by apply He].
Qed.

Lemma claim_loop_spec fuel measured claimed needs d :
  sent_upto d claimed → reported (dr_clock d) claimed →
  wp (claim_loop w show_text tc windows tick_budget tick_size fuel measured claimed needs) (λ _ d', sent_well d') d.
Proof.
  revert claimed needs d. induction fuel as [|fuel IH]; intros claimed needs d Hd Hrep; cbn [claim_loop]; [apply wp_ret, Hd|].
  apply wp_quietly; [apply decide_round_quiet|intros e d' Hq; by eapply quiet_well, Hd|].
  intros decision d1 Hq1 _. pose proof (quiet_upto _ _ _ Hq1 Hd) as H1. apply (reported_later _ (dr_clock d1)) in Hrep; [|apply Hq1].
  destruct decision; [apply wp_ret, H1|by apply IH|]. apply wp_set, wp_set, ask_delivered. cbv zeta.
  set (d2 := dr_tick _). set (target := claim_target _ _). set (next := Z.min _ _).
  assert (quiet d1 d2) as Hq2.
  { split; [cbn; lia|]. eexists. cbn. rewrite <- app_assoc. split; [reflexivity|]. by repeat constructor. }
  pose proof (quiet_upto _ _ _ Hq2 H1) as H2. apply (reported_later _ (dr_clock d2)) in Hrep; [|apply Hq2].
  destruct (Z.leb_spec next claimed) as [|Hlt]; [by apply IH|].
  apply wp_quietly; [hush|intros e d' Hq; by eapply quiet_well, H2|]. intros held d3 Hq3 _.
  pose proof (quiet_upto _ _ _ Hq3 H2) as H3. apply (reported_later _ (dr_clock d3)) in Hrep; [|apply Hq3].
  destruct held; [by apply IH|].
  assert (earned (dr_clock d3) next) as Hearned.
  { split_and!.
    - unfold next, target, claim_target. lia.
    - assert (w_delivered w (dr_clock d1) ≤ w_delivered w (dr_clock d3)) as Hm by (apply delivered_grows; destruct Hq2, Hq3; lia).
      unfold next, target, claim_target. cbn [dr_clock dr_logged]. lia.
    - exists claimed. split; [done|]. split; [done|]. unfold next, saturating_add. lia. }
  apply wp_bind. eapply wp_mono; [by apply (submit_claim_spec fuel measured _ next target claimed)|].
  intros r d4 [Hw Hnext]. destruct r as [[[n|n]|]|e]; [by apply wp_ret| |by apply wp_ret|done].
  destruct (Hnext n eq_refl) as [H4 H5]. by apply IH.
Qed.

Lemma wait_first_usage_spec fuel d d' : wait_first_usage w windows fuel d = (Ok true, d') → 0 < w_delivered w (dr_clock d').
Proof.
  revert d. induction fuel as [|fuel IH]; intros d; cbn [wait_first_usage]; [done|].
  unfold op_bind at 1, ask at 1. destruct (Z.ltb_spec 0 (w_delivered w (dr_clock d))) as [Hp|].
  { intros [= <-]. cbn. assert (w_delivered w (dr_clock d) ≤ w_delivered w (S (dr_clock d))) by (apply delivered_grows; lia). lia. }
  unfold op_bind at 1, ask at 1. destruct (w_delivery_done w _).
  { unfold op_bind, ask, op_ret. intros [= Hp <-]. cbn in *.
    assert (w_delivered w (S (S (dr_clock d))) ≤ w_delivered w (S (S (S (dr_clock d))))) by (apply delivered_grows; lia). lia. }
  unfold op_bind at 1, event, op_write. unfold op_bind at 1. destruct (wait_claim_or_closed w fuel _ _) as [[[]|] d1]; [done| |done]. apply IH.
Qed.

Lemma accept_probe_spec before fuel d :
  sent_well d → claims (dr_log d) = [] →
  wp (accept_probe_at w show_text tc windows before fuel) (λ _ d', sent_well d' ∧ claims (dr_log d') = []) d.
Proof.
  intros Hd Hc. assert (∀ d', quiet d d' → sent_well d' ∧ claims (dr_log d') = []) as Hquiet.
  { intros d' Hq. split; [by eapply quiet_well|]. destruct Hq as [_ (new & -> & [_ Hn]%quiet_events)]. by rewrite claims_app, Hn, Hc. }
  unfold accept_probe_at. destruct (_ || _ || _); [split; [done|apply Hc]|].
  apply wp_quietly; [hush|intros e d' Hq; by apply Hquiet|]. intros _ d1 Hq1 _.
  apply wp_quietly; [hush|intros e d' Hq; apply Hquiet; by eapply quiet_trans|]. intros _ d2 Hq2 _. pose proof (quiet_trans _ _ _ Hq1 Hq2) as Hq.
  apply wp_quietly; [hush|intros e d' Hq'; apply Hquiet; by eapply quiet_trans|]. intros closed d3 Hq3 _. pose proof (quiet_trans _ _ _ Hq Hq3) as Hqa.
  destruct closed; [by apply wp_ret, Hquiet|].
  apply wp_quietly; [hush|intros e d' Hq'; apply Hquiet; by eapply quiet_trans|]. intros usage d4 Hq4 Husage. pose proof (quiet_trans _ _ _ Hqa Hq4) as Hqb.
  destruct usage; cbn [negb]; [|by apply wp_ret, Hquiet]. apply wait_first_usage_spec in Husage.
  apply ask_delivered. set (count := w_delivered w (dr_clock d4)) in *.
  assert (quiet d4 (dr_tick d4)) as Hq5 by (split; [cbn; lia|]; exists []; cbn; by rewrite app_nil_r).
  pose proof (quiet_trans _ _ _ Hqb Hq5) as Hqc. set (d5 := dr_tick d4) in *.
  apply wp_bind. unfold wp at 1, ask_result. cbn [fst snd].
  assert (quiet d5 (dr_tick d5)) as Hq6 by (split; [cbn; lia|]; exists []; cbn; by rewrite app_nil_r).
  pose proof (quiet_trans _ _ _ Hqc Hq6) as Hqd. destruct (w_prepare_probe w (dr_clock d5) _) as [saved|e] eqn:Hsaved; cbn [map_err]; [|by apply Hquiet].
  destruct ((saved =? 0) || (saved >? Z.min count TICK_SIZE)) eqn:Hbad; [by apply Hquiet|].
  apply orb_false_iff in Hbad as [Hz%Z.eqb_neq Hle]. rewrite Z.gtb_ltb in Hle. apply Z.ltb_ge in Hle.
  apply wp_set. set (d6 := dr_logged _ (dr_tick d5)).
  assert (quiet (dr_tick d5) d6) as Hq7 by (split; [cbn; lia|]; eexists; split; [reflexivity|by repeat constructor]).
  pose proof (quiet_trans _ _ _ Hqd Hq7) as Hqe. destruct (Hquiet d6 Hqe) as [Hw6 Hc6]. apply wp_set. set (d7 := dr_logged AcceptProbe d6).
  assert (sent_well d7 ∧ claims (dr_log d7) = []) as [Hw7 Hc7].
  { split; [|unfold d7; cbn [dr_logged dr_log]; by rewrite claims_app, Hc6]. apply logged_well; [|done|done].
    assert (w_delivered w (dr_clock d4) ≤ w_delivered w (dr_clock d6)) by (apply delivered_grows; cbn; lia). fold count in H.
    change (probe_earned (dr_clock d6)). split; [lia|]. eexists _, _, saved. split; [|split; [exact Hsaved|split; [done|lia]]]. cbn. lia. }
  assert (∀ d', quiet d7 d' → sent_well d' ∧ claims (dr_log d') = []) as Hquiet7.
  { intros d' Hq'. split; [by eapply quiet_well|]. destruct Hq' as [_ (new & -> & [_ Hn]%quiet_events)]. by rewrite claims_app, Hn, Hc7. }
  match goal with |- wp ?m _ _ => assert (quietly m) as Hm by hush end. apply Hquiet7, Hm.
Qed.

Lemma finalize_tail_spec claimed needs d :
  sent_well d → wp (finalize_tail w windows finalize_last_claim claimed needs) (λ _ d', sent_well d') d.
Proof.
  intros Hd. unfold finalize_tail. destruct (needs && finalize_last_claim) eqn:Hf; [|done]. apply andb_prop in Hf as [_ Hf].
  apply wp_set, wp_set. set (d1 := dr_logged (Slept _) d). assert (sent_well d1) as H1 by (by apply logged_well).
  assert (sent_well (dr_logged Finalize d1)) as H2 by (by apply logged_well).
  match goal with |- wp ?m _ _ => assert (quietly m) as Hm by (unfold fail; hush) end. by eapply quiet_well; [apply Hm|].
Qed.

(** The log of a run. *)
Lemma driver_log_earned fuel start log :
  dr_log (drive_advance_with_observer w show_text tc windows tick_budget tick_size finalize_last_claim fuel
            {| dr_clock := start; dr_log := [] |}).2 = log →
  Forall event_ok log ∧ StronglySorted Z.lt (claims log).
Proof.
  intros <-. set (d := {| dr_clock := start; dr_log := [] |}).
  assert (∀ d', quiet d d' → sent_well d' ∧ claims (dr_log d') = []) as Hquiet.
  { intros d' [_ (new & Hl & [Hok Hn]%quiet_events)]. unfold sent_well. rewrite Hl. cbn [d dr_log app]. rewrite Hn. repeat split; [done|constructor]. }
  change (wp (drive_advance_with_observer w show_text tc windows tick_budget tick_size finalize_last_claim fuel) (λ _ d', sent_well d') d).
  unfold drive_advance_with_observer. destruct (negb _); [apply Hquiet, quiet_refl|].
  apply wp_quietly; [hush|intros e d' Hq; by apply Hquiet|]. intros closed d1 Hq1 _. destruct closed; [by apply wp_ret, Hquiet|].
  apply wp_quietly; [hush|intros e d' Hq; apply Hquiet; by eapply quiet_trans|]. intros before d2 Hq2 _. pose proof (quiet_trans _ _ _ Hq1 Hq2) as Hq.
  destruct (Hquiet d2 Hq) as [Hw2 Hc2]. apply wp_bind. eapply wp_mono.
  { instantiate (1 := λ _ d', sent_well d' ∧ claims (dr_log d') = []). destruct (cs_probe_accepted before); [done|by apply accept_probe_spec]. }
  intros r d3 [Hw3 Hc3]. destruct r as [[n|measured]|e]; [by apply wp_ret| |done].
  apply wp_bind. eapply wp_mono; [apply required_claim_state_spec|]. intros r d4 [Hq4 Hst].
  pose proof (quiet_well _ _ Hq4 Hw3) as Hw4. destruct r as [state|e]; [|done]. destruct (Hst state eq_refl) as (m & Hm & Hstate).
  unfold of_result. apply wp_check; [|done]. intros claimed Hv%map_err_Ok%validated_spec. destruct Hv as (Hact & Hp & _).
  apply wp_bind. eapply wp_mono.
  { apply claim_loop_spec; [|by exists m, state]. split; [done|]. destruct Hq4 as [_ (new & -> & [_ Hn]%quiet_events)]. by rewrite claims_app, Hn, Hc3. }
  intros r d5 Hw5. destruct r as [[n|[claimed' needs]]|e]; [by apply wp_ret| |done]. by apply finalize_tail_spec.
Qed.

(** C18: however the chain, the counters and the observer answer, everything the driver sends is
    earned.  It accepts the probe only after billable usage was recorded; every claim is within
    the budget and within the delivered usage (the paid probe tick apart), exceeds a total that
    the chain reported for an open, undisputed, accepted deal, by at most the allowance of one
    interval; the claims of a run strictly increase; and it promotes the last claim only where
    no keeper is in charge of that. *)
Theorem claims_are_earned fuel start log :
  dr_log (drive_advance_with_observer w show_text tc windows tick_budget tick_size finalize_last_claim fuel
            {| dr_clock := start; dr_log := [] |}).2 = log →
  Forall event_ok log ∧ StronglySorted Z.lt (claims log).
Proof. apply driver_log_earned. Qed.
End Driver.

(** * The claim driver and the chain

    The chain accepts the claims that the driver sends: a claim above the total that the chain
    reports, by at most the driver's allowance and within the offer, sent an interval after the
    last one. *)

#[local] Arguments umax : simpl never.

Section Chain.
Context (c : ProtocolConsts) (params : DobParams) (sha256 : string → list Byte.byte) (Hc : consts_ok c) (b : ClaimBounds).
Hypothesis (bounds_interval : cb_min_claim_interval b = min_claim_interval c)
  (bounds_seconds : cb_min_seconds_per_tick b = min_seconds_per_tick c)
  (interval_positive : 0 < as_secs (min_claim_interval c))
  (promoted_in_an_interval : as_secs (claim_promote_window c) ≤ as_secs (min_claim_interval c)).

Lemma allowance_spec n : 0 ≤ n ≤ allowance (AdvanceWindows_from_bounds b) →
  n ≤ MAX_CLAIM_DELTA ∧ n * as_secs (min_seconds_per_tick c) ≤ as_secs (min_claim_interval c) * TICK_SIZE.
Proof.
  intros [H0 H]. pose proof (co_wf _ Hc) as (_ & Hi & Hs & _). unfold allowance in H.
  cbn [AdvanceWindows_from_bounds aw_claim_interval aw_seconds_per_tick] in H.
  rewrite bounds_interval, (proj2 (Z.eqb_neq _ 0)) in H by lia.
  destruct (claim_delta_limit_exact b (min_claim_interval c)) as [Hexact _]; [done|by rewrite bounds_seconds|].
  rewrite bounds_seconds in Hexact. by apply Hexact.
Qed.

(** C19: on an open ordinary deal of the mock chain, a claim by the deal's seller of a total above
    the pending one, by at most the driver's allowance, within the offered volume, and at least
    one claim interval after the last claim, is accepted and becomes the pending total: the
    driver's local bounds are enough to satisfy the chain. *)
Theorem driver_claim_is_accepted now0 now claim_time st tc note cell sub next :
  Reach c params sha256 now0 st → now0 ≤ now → now ≤ claim_time → claim_time < 2 ^ 63 →
  ms_streams st !! tc = Some cell → ms_deal_subscriptions st !! tc = Some sub →
  open_accepted cell = true → is_subscription sub = false → require_mock_seller_actor st tc note "claim_tokens" = Ok () →
  sc_tokens_pending cell < next ≤ sc_tokens_pending cell + allowance (AdvanceWindows_from_bounds b) →
  next ≤ sc_max_ticks cell * TICK_SIZE → sc_last_claim_time cell + as_secs (cb_min_claim_interval b) ≤ claim_time →
  ∃ st' cell', claim_tokens c now claim_time tc note next st = Ok st' ∧ ms_streams st' !! tc = Some cell' ∧ sc_tokens_pending cell' = next.
Proof.
  intros HR Hle Hle' Hlt Hcell Hsub Hopen Hord Hactor Hnext Hmax Hwait.
  destruct (reach_deal c params sha256 now0 st tc cell Hc HR Hcell)
    as (o & k & buyer & ph & [_ _ (Hwf & Ht & Hfit) _ _ _ Hh Hph ->]). set (t := terms_of o k buyer) in *.
  assert (sub = phase_sub t ph) as -> by (destruct Hh; congruence).
  destruct ph as [|opened period last tf tq bk| | |]; try done. cbn [phase_sub] in *.
  unfold sub_at in Hord. rewrite is_subscription_sub_of in Hord. rewrite bounds_interval in Hwait.
  change (sc_tokens_pending (phase_cell c t _)) with tq in *. change (sc_last_claim_time (phase_cell c t _)) with last in *.
  change (sc_max_ticks (phase_cell c t _) * TICK_SIZE) with (tm_funded t) in *.
  pose proof Hph as (Ho & Hl & Hb). pose proof (books_paid c t Ht _ _ _ Hb) as (? & ? & ?).
  destruct (allowance_spec (next - tq) ltac:(lia)) as [Hdelta Hrate].
  pose proof (claim_tokens_refines c t tc Hwf Ht Hfit st _ now0 Hh Hph now claim_time note next Hactor Hle Hle' Hlt ltac:(unfold TICK_SIZE in *; lia)) as Href.
  assert (phase_claim_tokens c t now claim_time next (PhOpen opened period last tf tq bk) = Some (PhOpen opened period claim_time tq next bk)) as Hspec.
  { cbn [phase_claim_tokens]. rewrite (proj2 (Z.eqb_neq next tq)) by lia. unfold books_at, week_cap, claim_paced. rewrite Hord.
    rewrite promoted_due by lia. rewrite Z.eqb_refl. rewrite (proj2 (Z.ltb_lt tq next)), !(proj2 (Z.leb_le _ _)) by (unfold TICK_SIZE in *; nia). done. }
  rewrite Hspec in Href. apply result_ok_Some in Href.
  exists (put c t tc (PhOpen opened period claim_time tq next bk) st), (phase_cell c t (PhOpen opened period claim_time tq next bk)).
  split; [done|]. split; [|done]. unfold put, set_deal. cbn. apply lookup_insert_eq.
Qed.
End Chain.

(** * The claim driver at a concrete deal

    A run of the driver against a scripted world, and a claim of it on the mock chain. *)

(** A deal on probe that is accepted, and a chain that then reports each claim; the usage grows
    by half a tick with every request, up to two and a half ticks. *)
Definition deal_with (accepted_ : bool) (pending : Z) : DealChainState := {|
  cs_funded := true; cs_opened := true; cs_probe_accepted := accepted_; cs_disputed := false; cs_deposit := 100; cs_finalized_owed := 0;
  cs_tokens_final := 0; cs_tokens_pending := pending; cs_probe_tick := 0; cs_funded_time := Some 1; cs_probe_time := 1;
  cs_last_claim_time := 1; cs_dispute_time := 0 |}.
Definition usage_at (n : nat) : Z := Z.min (Z.of_nat n * (TICK_SIZE / 2)) (TICK_SIZE * 5 / 2).
Definition scripted_state (n : nat) : DealChainState :=
  if (n <? 5)%nat then deal_with false 0
  else if (n <? 15)%nat then deal_with true TICK_SIZE
  else if (n <? 21)%nat then deal_with true (2 * TICK_SIZE) else deal_with true (TICK_SIZE * 5 / 2).
Definition scripted_world : World := {|
  w_snapshot := λ _, Some false; w_terminal_settlement := λ _, Ok false; w_buyer_stop_settlement := λ _, Ok false;
  w_deal_state := λ n, Ok (Some (scripted_state n)); w_accept_probe := λ _, None; w_claim_tokens := λ _ _, None; w_finalize := λ _, None;
  w_delivered := usage_at; w_delivery_done := λ n, (30 <=? n)%nat; w_observe := λ _ _, None; w_observe_terminal := λ _, None;
  w_prepare_probe := λ _ n, Ok n; w_active_requests := λ _, 0; w_instant := λ n, Z.of_nat n * 4000000000 |}.
Definition no_text (t : text) : string := "".
Definition scripted_run : Result Stop Z * Driver :=
  drive_advance_with_observer scripted_world no_text "tc" AdvanceWindows_canonical 8 TICK_SIZE true 60 {| dr_clock := 0; dr_log := [] |}.

Example scripted_claims : scripted_run.1 = Ok (TICK_SIZE * 5 / 2) ∧ claims (dr_log scripted_run.2) = [2 * TICK_SIZE; TICK_SIZE * 5 / 2].
Proof. vm_compute. done. Qed.

Lemma usage_grows m n : (m ≤ n)%nat → usage_at m ≤ usage_at n.
Proof. unfold usage_at, TICK_SIZE. intros. apply Z.min_le_compat_r. apply Z.mul_le_mono_nonneg_r; [vm_compute; discriminate|lia]. Qed.

Lemma claims_are_earned_witness :
  claims (dr_log scripted_run.2) = [2 * TICK_SIZE; TICK_SIZE * 5 / 2] ∧
  earned scripted_world AdvanceWindows_canonical 8 TICK_SIZE 21 (TICK_SIZE * 5 / 2).
Proof.
  destruct (claims_are_earned scripted_world no_text "tc" AdvanceWindows_canonical 8 TICK_SIZE true usage_grows 60 0
    (dr_log scripted_run.2) eq_refl) as [Hall _].
  split; [exact (proj2 scripted_claims)|].
  rewrite Forall_forall in Hall. apply (Hall (21%nat, ClaimTokens (TICK_SIZE * 5 / 2))).
  apply list_elem_of_In. vm_compute. tauto.
Defined.

(** The seller of the sample claims a third tick one interval after the second. *)
Lemma driver_claim_is_accepted_witness :
  ∃ st' cell', claim_tokens ProtocolConsts_canonical 10300 10300 "tc" sample_seller (3 * TICK_SIZE) (sample_state (claimed ordinary)) = Ok st' ∧
    ms_streams st' !! "tc"%string = Some cell' ∧ sc_tokens_pending cell' = 3 * TICK_SIZE.
Proof.
  apply (driver_claim_is_accepted ProtocolConsts_canonical DobParams_canonical sample_sha256 canonical_ok ClaimBounds_canonical
    eq_refl eq_refl ltac:(vm_compute; reflexivity) ltac:(vm_compute; discriminate) 10100 10300 10300
    (sample_state (claimed ordinary)) "tc" sample_seller (sample_cell (claimed ordinary)) (sample_shape (claimed ordinary)) (3 * TICK_SIZE));
    [reach_script|lia|lia|vm_compute; reflexivity|vm_compute; reflexivity|vm_compute; reflexivity|vm_compute; reflexivity
    |vm_compute; reflexivity|vm_compute; reflexivity| | |].
  - split; [vm_compute; reflexivity|vm_compute; discriminate].
  - vm_compute. discriminate.
  - vm_compute. discriminate.
Defined.
