(* ===== verification/Gateway.v ===== *)
(** * The seller's gateway

    crates/dexdo/src/seller/auth.rs and gateway.rs: who may open a stream, what it is granted,
    how the provider's response is relayed and billed, and the counter of a deal's delivered
    usage.  Ed25519, JSON and the printing of messages are parameters.

    A relay holds a reservation and the tracker of its deal, also after the deal was
    unregistered; so trackers live in a heap, like the entries of the capacity manager.  The
    [update_lock] of a tracker is held over an admission and over the settling of a request:
    each is one step. *)
From S2P Require Import Prelude RustText ApiFormat SseFrames Params Address DealTypes Recovery UsageData Capacity Meter Relay.
From Stdlib Require Import Strings.Ascii.

(** ** Authorization *)

Definition challenge_bytes (token_contract nonce : string) : string := token_contract +:+ "|" +:+ nonce.

Section Auth.
Context {Pubkey Signature : Type} (verify : Pubkey → string → Signature → bool).

Record AuthRegistry : Type := { ar_buyer_pubkeys : gmap string Pubkey; ar_issued : gmap string (gset string) }.
Definition AuthRegistry_new : AuthRegistry := {| ar_buyer_pubkeys := ∅; ar_issued := ∅ |}.
Definition set_issued (v : gmap string (gset string)) (r : AuthRegistry) : AuthRegistry :=
  {| ar_buyer_pubkeys := ar_buyer_pubkeys r; ar_issued := v |}.

Definition auth_register (token_contract : string) (buyer_pubkey : Pubkey) (r : AuthRegistry) : AuthRegistry :=
  {| ar_buyer_pubkeys := <[token_contract := buyer_pubkey]> (ar_buyer_pubkeys r); ar_issued := ar_issued r |}.
Definition auth_unregister (token_contract : string) (r : AuthRegistry) : AuthRegistry :=
  {| ar_buyer_pubkeys := delete token_contract (ar_buyer_pubkeys r); ar_issued := delete token_contract (ar_issued r) |}.
Definition outstanding_nonces (token_contract : string) (r : AuthRegistry) : gset string :=
  unwrap_or ∅ (ar_issued r !! token_contract).
Definition issue_challenge (token_contract nonce : string) (r : AuthRegistry) : AuthRegistry :=
  set_issued (<[token_contract := {[nonce]} ∪ outstanding_nonces token_contract r]> (ar_issued r)) r.
Definition discard_challenge (token_contract nonce : string) (r : AuthRegistry) : bool * AuthRegistry :=
  match ar_issued r !! token_contract with
  | None => (false, r)
  | Some outstanding =>
      if negb (bool_decide (nonce ∈ outstanding)) then (false, r) else
      let left := outstanding ∖ {[nonce]} in
      (true, set_issued (if bool_decide (left = ∅) then delete token_contract (ar_issued r)
                         else <[token_contract := left]> (ar_issued r)) r)
  end.
Definition verify_response (token_contract nonce : string) (signature : Signature) (r : AuthRegistry) : bool * AuthRegistry :=
  match ar_buyer_pubkeys r !! token_contract with
  | None => (false, r)
  | Some pubkey =>
      if negb (bool_decide (nonce ∈ outstanding_nonces token_contract r)) then (false, r)
      else if negb (verify pubkey (challenge_bytes token_contract nonce) signature) then (false, r)
      else discard_challenge token_contract nonce r
  end.
End Auth.
Arguments AuthRegistry : clear implicits.

(** ** What travels to the buyer *)

Record StreamFrame : Type := { sf_head : option ResponseHead; sf_data : bytes; sf_usage : option BillingUsage }.
Definition head_frame (head : ResponseHead) : StreamFrame := {| sf_head := Some head; sf_data := []; sf_usage := None |}.
Definition data_frame (b : bytes) : StreamFrame := {| sf_head := None; sf_data := b; sf_usage := None |}.
Definition usage_frame (usage : BillingUsage) : StreamFrame := {| sf_head := None; sf_data := []; sf_usage := Some usage |}.

(** A status with the metadata that the program sets besides the retry tag. *)
Record WireStatus : Type := {
  ws_status : Status;
  ws_output : option bool;          (** dexdo-upstream-output: started or none *)
  ws_deal_busy : bool;              (** dexdo-error-code: deal_busy *)
  ws_onchain_limit : bool;          (** dexdo-limit: onchain_deal_limit *)
  ws_retry_after_ms : option Z;     (** dexdo-retry-after-ms *)
}.
Definition plain_status (s : Status) : WireStatus := {|
  ws_status := s; ws_output := None; ws_deal_busy := false; ws_onchain_limit := false; ws_retry_after_ms := None |}.
Definition upstream_failure_status (s : Status) (output_started : bool) : WireStatus := {|
  ws_status := s; ws_output := Some output_started; ws_deal_busy := false; ws_onchain_limit := false; ws_retry_after_ms := None |}.

(** ** Upstream failures *)

Definition code_name (c : Code) : string :=
  match c with
  | DataLoss => "DataLoss" | FailedPrecondition => "FailedPrecondition" | Unavailable => "Unavailable"
  | DeadlineExceeded => "DeadlineExceeded" | ResourceExhausted => "ResourceExhausted" | InvalidArgument => "InvalidArgument"
  | Unauthenticated => "Unauthenticated" | PermissionDenied => "PermissionDenied" | Aborted => "Aborted"
  end.
Record UpstreamFailure : Type := {
  uf_token_contract : string; uf_error_class : string; uf_retryable : bool; uf_grpc_status : string; uf_http_status : option Z;
}.
(** [split_whitespace().next()]. *)
Fixpoint word_bytes (b : bytes) : bytes :=
  match b with
  | [] => []
  | c :: rest => match strip_one_of white_space b with Some _ => [] | None => c :: word_bytes rest end
  end.
Definition first_word (s : string) : option string :=
  let b := to_bytes s in
  match word_bytes (strip_all (length b) white_space b) with [] => None | w => Some (of_bytes w) end.

Section Failure.
Context (show_text : text → string).
Definition UpstreamFailure_from_status (token_contract : string) (s : WireStatus) : UpstreamFailure :=
  let code := st_code (ws_status s) in
  let shown := show_text (st_message (ws_status s)) in
  let http_status := let* suffix := strip_prefix "upstream HTTP " shown in let* word := first_word suffix in parse_uint u16 word in
  let message := to_ascii_lowercase shown in
  let error_class :=
    if bool_decide (http_status = Some 401 ∨ http_status = Some 403) || match code with Unauthenticated | PermissionDenied => true | _ => false end
    then "auth"%string
    else if match code with DeadlineExceeded => true | _ => false end || contains "timeout" message || contains "timed out" message
    then "timeout"%string
    else if starts_with "upstream connect failed" message then "connect"%string
    else if bool_decide (is_Some http_status) then "http"%string else "upstream"%string in
  {| uf_token_contract := token_contract; uf_error_class := error_class;
     uf_retryable := negb (String.eqb error_class "auth")
       && (st_retryable (ws_status s)
           || match http_status with
              | None => match code with DeadlineExceeded | ResourceExhausted | Aborted | Unavailable => true | _ => false end
              | Some code => (code =? 408) || (code =? 429) || (500 <=? code)
              end);
     uf_grpc_status := code_name code; uf_http_status := http_status |}.
Definition UpstreamFailure_from_http_status (token_contract : string) (http_status : Z) : UpstreamFailure := {|
  uf_token_contract := token_contract;
  uf_error_class := if (http_status =? 401) || (http_status =? 403) then "auth" else "http";
  uf_retryable := (http_status =? 408) || (http_status =? 429) || (500 <=? http_status);
  uf_grpc_status := code_name Unavailable; uf_http_status := Some http_status |}.
End Failure.

(** ** Accounting of one request *)

Inductive AuthoritativeDeliveryFinish : Type := Interrupted | AmbiguousUsage.
Definition unfinished_delivery_finish (saw_output : bool) : AuthoritativeDeliveryFinish :=
  if saw_output then AmbiguousUsage else Interrupted.

(** What a relay asks of its recorder: to commit an accepted amount, with the charge it
    answers, or to reconcile a request that ended without one. *)
Class Recorder (S : Type) : Type := {
  shared_budget : S → bool;
  complete_billing : Z → bool → Op S WireStatus Z;
  record_finished : AuthoritativeDeliveryFinish → Op S WireStatus ();
}.

Record DealDelivery : Type := { dl_count : Z; dl_done : bool; dl_billing_exhausted : bool }.
Definition DealDelivery_default : DealDelivery := {| dl_count := 0; dl_done := false; dl_billing_exhausted := false |}.
Definition set_count (v : Z) (d : DealDelivery) : DealDelivery :=
  {| dl_count := v; dl_done := dl_done d; dl_billing_exhausted := dl_billing_exhausted d |}.
Definition mark_exhausted (v : bool) (d : DealDelivery) : DealDelivery :=
  {| dl_count := dl_count d; dl_done := dl_done d; dl_billing_exhausted := dl_billing_exhausted d || v |}.
Definition mark_done (v : bool) (d : DealDelivery) : DealDelivery :=
  {| dl_count := dl_count d; dl_done := dl_done d || v; dl_billing_exhausted := dl_billing_exhausted d |}.
Definition checked_authoritative_tokens (d : DealDelivery) (tokens : Z) : Result WireStatus Z :=
  ok_or (checked_add u64 (dl_count d) tokens) (plain_status (data_loss f["authoritative billable-token high-water overflow"])).
Definition capacity_status (error : text) : WireStatus :=
  plain_status (data_loss (Lit "seller deal capacity persistence failed: " :: error)).

(** The recorder that only counts. *)
#[export] Instance counting_recorder : Recorder DealDelivery := {|
  shared_budget := λ _, false;
  complete_billing := λ tokens billing_exhausted,
    do next <- op_read (λ d, checked_authoritative_tokens d tokens);
    do _a <- op_write (set_count next);
    do _b <- op_write (λ d, mark_done billing_exhausted (mark_exhausted billing_exhausted d));
    op_ret (Ok tokens);
  record_finished := λ _, op_ret (Ok ());
|}.

(** ** The relay *)

(** What a relay waits for: the next event of its upstream (the end of the list is the end of
    the upstream), or the report that the chain cannot be read. *)
Inductive RelayItem : Type := Upstream (event : Metered UpstreamEvent) | ChainDown.

(** What was sent to the buyer; the buyer takes [fb_room] more items and is gone after them. *)
Record FrameBox : Type := { fb_sent : list (Result WireStatus StreamFrame); fb_room : nat }.
Definition box_send (item : Result WireStatus StreamFrame) (o : FrameBox) : option FrameBox :=
  match fb_room o with
  | O => None
  | S room => Some {| fb_sent := fb_sent o ++ [item]; fb_room := room |}
  end.
Definition chain_unavailable_status : WireStatus := plain_status (status FailedPrecondition
  f["SELLER_CHAIN_UNAVAILABLE: required chain read exhausted its retry budget; restore chain access and restart the seller"]).

Record GatewayRelay : Type := {
  gr_saw_output : bool; gr_head_status : option Z; gr_terminal_usage : option BillingUsage; gr_billing_exhausted : bool;
  gr_box : FrameBox;
}.
Definition gr_start (o : FrameBox) : GatewayRelay := {|
  gr_saw_output := false; gr_head_status := None; gr_terminal_usage := None; gr_billing_exhausted := false; gr_box := o |}.

(** How the loop ends: the upstream closed, or the request is over without a bill. *)
Inductive Turn : Type :=
| Going (st : GatewayRelay)
| Over (finish : AuthoritativeDeliveryFinish) (error : option WireStatus) (failure : option UpstreamFailure) (o : FrameBox).
Definition broken (error : option WireStatus) (st : GatewayRelay) : Turn :=
  Over (unfinished_delivery_finish (gr_saw_output st)) error None (gr_box st).
Definition refused (message : string) (st : GatewayRelay) : Turn := broken (Some (plain_status (data_loss f[message]))) st.

Section Relay.
Context (show_text : text → string) (token_contract : string) (billing_grant_tokens : Z).

Definition relay_head (head : ResponseHead) (st : GatewayRelay) : Turn :=
  if bool_decide (is_Some (gr_head_status st)) then refused "upstream stated a second response head" st else
  match box_send (Ok (head_frame head)) (gr_box st) with
  | None => broken None st
  | Some o => Going {| gr_saw_output := gr_saw_output st; gr_head_status := Some (rh_status head);
      gr_terminal_usage := gr_terminal_usage st; gr_billing_exhausted := gr_billing_exhausted st; gr_box := o |}
  end.
Definition relay_data (b : bytes) (output : bool) (st : GatewayRelay) : Turn :=
  match gr_head_status st with
  | None => refused "upstream content arrived before its response head" st
  | Some _ =>
      if bool_decide (is_Some (gr_terminal_usage st)) then refused "upstream content continued after terminal billing usage" st else
      match box_send (Ok (data_frame b)) (gr_box st) with
      | None => broken None st
      | Some o => Going {| gr_saw_output := gr_saw_output st || output; gr_head_status := gr_head_status st;
          gr_terminal_usage := gr_terminal_usage st; gr_billing_exhausted := gr_billing_exhausted st; gr_box := o |}
      end
  end.
Definition succeeded (status : option Z) : bool := match status with Some code => is_success code | None => false end.
Definition relay_usage (usage : BillingUsage) (st : GatewayRelay) : Turn :=
  if bool_decide (is_Some (gr_terminal_usage st)) then refused "upstream emitted duplicate terminal billing usage" st else
  match BillingUsage_validate usage with
  | Err error => broken (Some (plain_status (data_loss error))) st
  | Ok _ =>
      if negb (succeeded (gr_head_status st)) then refused "terminal billing usage follows no successful response" st else
      let st := {| gr_saw_output := gr_saw_output st; gr_head_status := gr_head_status st; gr_terminal_usage := gr_terminal_usage st;
                   gr_billing_exhausted := non_cached_tokens usage >? billing_grant_tokens; gr_box := gr_box st |} in
      if negb (gr_saw_output st) || (bu_output_tokens usage =? 0) then
        Over Interrupted (Some (plain_status (data_loss f["terminal billing usage has no preceding delivered output"]))) None (gr_box st)
      else Going {| gr_saw_output := gr_saw_output st; gr_head_status := gr_head_status st; gr_terminal_usage := Some usage;
                    gr_billing_exhausted := gr_billing_exhausted st; gr_box := gr_box st |}
  end.
Definition relay_item (item : RelayItem) (st : GatewayRelay) : Turn :=
  match item with
  | ChainDown => broken (Some chain_unavailable_status) st
  | Upstream (Ok (Head head)) => relay_head head st
  | Upstream (Ok (Data b output)) => relay_data b output st
  | Upstream (Ok (Usage usage)) => relay_usage usage st
  | Upstream (Err s) =>
      let s := upstream_failure_status s (gr_saw_output st) in
      Over (unfinished_delivery_finish (gr_saw_output st)) (Some s) (Some (UpstreamFailure_from_status show_text token_contract s)) (gr_box st)
  end.
Fixpoint relay_loop (items : list RelayItem) (st : GatewayRelay) : Turn :=
  match items with
  | [] => Going st
  | item :: items => match relay_item item st with Going st => relay_loop items st | over => over end
  end.

(** What the relay leaves: the frames for the buyer, and the failure it reported. *)
Record Relayed : Type := { rd_box : FrameBox; rd_failure : option UpstreamFailure }.
Definition send_error (error : option WireStatus) (o : FrameBox) : FrameBox :=
  match error with Some s => unwrap_or o (box_send (Err s) o) | None => o end.

Section Account.
Context {S : Type} `{Recorder S}.

(** The request that ended without a bill is reconciled; a shared one after its error was sent. *)
Definition finish_relay (finish : AuthoritativeDeliveryFinish) (error : option WireStatus) (failure : option UpstreamFailure) (o : FrameBox)
    : S → Relayed * S := λ s,
  if shared_budget s then
    ({| rd_box := send_error error o; rd_failure := failure |}, (record_finished finish s).2)
  else
    let '(r, s) := record_finished finish s in
    let error := match error, r with None, Err e => Some e | _, _ => error end in
    ({| rd_box := send_error error o; rd_failure := failure |}, s).
Definition finish_turn (turn : Turn) : S → Relayed * S :=
  match turn with
  | Over finish error failure o => finish_relay finish error failure o
  | Going st => finish_relay (unfinished_delivery_finish (gr_saw_output st)) None None (gr_box st)
  end.
Definition released (usage : BillingUsage) (charged : Z) (shared : bool) : BillingUsage :=
  if shared || negb (charged =? non_cached_tokens usage) then {|
    bu_input_tokens := bu_input_tokens usage; bu_output_tokens := bu_output_tokens usage; bu_total_tokens := bu_total_tokens usage;
    bu_charged_tokens := Some charged; bu_cache_read_tokens := bu_cache_read_tokens usage;
    bu_cache_write_tokens := bu_cache_write_tokens usage |} else usage.

(** The upstream closed. *)
Definition close_relay (st : GatewayRelay) : S → Relayed * S := λ s,
  match (let* code := gr_head_status st in if is_success code then None else Some code) with
  | Some code =>
      finish_relay Interrupted None (Some (UpstreamFailure_from_http_status token_contract (unwrap_or (umax u16) (try_into u16 code)))) (gr_box st) s
  | None =>
      match gr_terminal_usage st with
      | None =>
          finish_turn (broken (Some (upstream_failure_status (data_loss f["upstream ended without terminal billing usage"]) (gr_saw_output st))) st) s
      | Some usage =>
          let tokens := Z.min (non_cached_tokens usage) billing_grant_tokens in
          if tokens =? 0 then finish_turn (refused "terminal billing usage has zero total after delivered output" st) s else
          match fb_room (gr_box st) with
          | O => finish_turn (broken None st) s
          | _ =>
              match complete_billing tokens (gr_billing_exhausted st) s with
              | (Err status, s) => finish_turn (broken (Some status) st) s
              | (Ok charged, s) =>
                  let usage := released usage charged (shared_budget s) in
                  ({| rd_box := unwrap_or (gr_box st) (box_send (Ok (usage_frame usage)) (gr_box st)); rd_failure := None |}, s)
              end
          end
      end
  end.
Definition relay_counting (items : list RelayItem) (o : FrameBox) : S → Relayed * S := λ s,
  match relay_loop items (gr_start o) with
  | Going st => close_relay st s
  | over => finish_turn over s
  end.
End Account.
End Relay.

(** ** The state of the gateway *)

Definition CAPACITY_RETRY_DEFAULT : Z := 1000000000.
Definition CLAIM_CONFIRMATION_POLL_INTERVAL : Z := 3000000000.
Definition BUYER_API_REQUEST_BODY_MAX_BYTES : Z := 32 * 1024 * 1024.
(** A [std::time::Duration] in nanoseconds. *)
Definition nanos_max : Z := 18446744073709551616 * 1000000000 - 1.
Definition nanos_of (d : Duration) : Z := as_secs d * 1000000000.
Definition nanos_add (a b : Z) : Z := Z.min (a + b) nanos_max.

Inductive ChainUnavailableAction : Type := ActionStop | ActionKeepServing.
Definition action_as_str (a : ChainUnavailableAction) : string :=
  match a with ActionStop => "stop" | ActionKeepServing => "keep_serving" end.
Definition action_from_config (value : string) : option ChainUnavailableAction :=
  if String.eqb value "stop" then Some ActionStop else if String.eqb value "keep_serving" then Some ActionKeepServing else None.

Record CapacityRetry : Type := { rt_bounds : ClaimBounds; rt_state : DealChainState; rt_next_attempt : Z }.
Definition retry_delay (retry : CapacityRetry) (unix_now now : Z) : Z :=
  let state := rt_state retry in
  let bounds := rt_bounds retry in
  let allowed :=
    if cs_probe_accepted state then
      nanos_add (nanos_of (from_secs (cs_last_claim_time state)))
        (Z.max (nanos_of (cb_min_claim_interval bounds)) (nanos_of (cb_min_seconds_per_tick bounds)))
    else nanos_add (if cs_probe_time state =? 0 then unix_now else nanos_of (from_secs (cs_probe_time state))) (nanos_of (cb_probe_window bounds)) in
  Z.max (nanos_add (Z.max (saturating_sub allowed unix_now) (saturating_sub (rt_next_attempt retry) now)) CLAIM_CONFIRMATION_POLL_INTERVAL)
    CAPACITY_RETRY_DEFAULT.

(** The refusal of a reservation. *)
Definition retry_milliseconds (delay : Z) : Z := Z.max (unwrap_or (umax u64) (try_into u64 (div_ceil delay 1000000))) 1.
Definition exhausted_status (message : text) (busy onchain : bool) (delay : Z) : WireStatus := {|
  ws_status := status ResourceExhausted message; ws_output := None; ws_deal_busy := busy; ws_onchain_limit := onchain;
  ws_retry_after_ms := Some (retry_milliseconds delay) |}.
Definition refusal_status (error : ReserveError) (delay : Z) : WireStatus :=
  match error with
  | Exhausted => exhausted_status f["deal delivery capacity is exhausted"] false false delay
  | OnchainLimit => exhausted_status (ReserveError_fmt error) false true delay
  | Concurrency => exhausted_status (ReserveError_fmt error) true false delay
  | UnknownDeal | Terminal => plain_status (status FailedPrecondition (ReserveError_fmt error))
  | InvalidState _ => capacity_status (ReserveError_fmt error)
  end.

Record StreamLimits : Type := { lm_mock_token_count : Z; lm_deal : DealSubscription; lm_retry : CapacityRetry }.
Definition with_retry (f : CapacityRetry → CapacityRetry) (l : StreamLimits) : StreamLimits :=
  {| lm_mock_token_count := lm_mock_token_count l; lm_deal := lm_deal l; lm_retry := f (lm_retry l) |}.
(** What the gateway needs of the configuration of an upstream. *)
Record UpstreamConfig : Type := { uc_is_mock : bool; uc_api_formats : list ApiFormat; uc_request_model : option (string * string) }.
Record ProviderRequest : Type := { pr_format : ApiFormat; pr_body : RequestBody; pr_headers : list Header }.
Record StreamRequest : Type := {
  sr_token_contract : string; sr_nonce : string; sr_signature : bytes; sr_path : string; sr_body : bytes;
  sr_headers : list Header; sr_billing_grant_tokens : Z; sr_shared_budget : bool;
}.

Section State.
Context {Pubkey Bytes : Type} (verify : Pubkey → string → bytes → bool) (from_slice_json : bytes → Result string Value)
  (to_vec : DurableCapacityRecord → Bytes) (is_empty : Bytes → bool) (from_slice : Bytes → Result text DurableCapacityRecord).

Definition RequestBody_parse (b : bytes) : Result string RequestBody :=
  match from_slice_json b with
  | Ok (Object object) => Ok object
  | Ok _ => Err "request body must be a JSON object"%string
  | Err error => Err ("request body is not valid JSON: " +:+ error)%string
  end.
Definition invalid (message : text) : WireStatus := plain_status (status InvalidArgument message).
Definition provider_request (upstream : UpstreamConfig) (path : string) (b : bytes) (headers : list Header)
    : Result WireStatus ProviderRequest :=
  match (let* format := from_path path in if bool_decide (format ∈ uc_api_formats upstream) then Some format else None) with
  | None => Err (invalid f["unsupported_api_path: this seller does not serve "; path])
  | Some format =>
      if Z.of_nat (length b) >? BUYER_API_REQUEST_BODY_MAX_BYTES
      then Err (invalid f["request body exceeds the maximum of "; BUYER_API_REQUEST_BODY_MAX_BYTES; " bytes"]) else
      let? body := map_err (λ e : string, invalid f[e]) (RequestBody_parse b) in
      let? model := ok_or (body_model body) (invalid f["request model is required"]) in
      let? body := match uc_request_model upstream with
                   | Some (deal_model, served_model) =>
                       if negb (String.eqb model deal_model)
                       then Err (invalid f["model `"; model; "` is not this deal's model `"; deal_model; "`"])
                       else Ok (set_model served_model body)
                   | None => Ok body
                   end in
      let body := if bool_decide (format = ChatCompletions) && body_stream body then require_stream_usage body else body in
      Ok {| pr_format := format; pr_body := body; pr_headers := forwarded_request_headers headers |}
  end.

(** [gt_recorders] are the recorders that relays hold: a reservation and a tracker. *)
Record GatewayState : Type := {
  gt_auth : AuthRegistry Pubkey;
  gt_limits : gmap string StreamLimits;
  gt_delivered : gmap string nat;
  gt_trackers : gmap nat DealDelivery;
  gt_capacity : Manager (Bytes := Bytes);
  gt_upstream : UpstreamConfig;
  gt_upstreams : gmap string UpstreamConfig;
  gt_recorders : gmap nat nat;
  gt_chain_unavailable : bool;
  gt_keep_serving : bool;
  gt_max_concurrent : Z;
}.
Definition gateway_with (upstream : UpstreamConfig) (capacity : Manager) (limit : Z) : GatewayState := {|
  gt_auth := AuthRegistry_new; gt_limits := ∅; gt_delivered := ∅; gt_trackers := ∅; gt_capacity := capacity;
  gt_upstream := upstream; gt_upstreams := ∅; gt_recorders := ∅; gt_chain_unavailable := false; gt_keep_serving := false;
  gt_max_concurrent := limit |}.
Definition set_gt_auth (v : AuthRegistry Pubkey) (g : GatewayState) : GatewayState := {|
  gt_auth := v; gt_limits := gt_limits g; gt_delivered := gt_delivered g; gt_trackers := gt_trackers g; gt_capacity := gt_capacity g;
  gt_upstream := gt_upstream g; gt_upstreams := gt_upstreams g; gt_recorders := gt_recorders g;
  gt_chain_unavailable := gt_chain_unavailable g; gt_keep_serving := gt_keep_serving g; gt_max_concurrent := gt_max_concurrent g |}.
Definition set_gt_limits (v : gmap string StreamLimits) (g : GatewayState) : GatewayState := {|
  gt_auth := gt_auth g; gt_limits := v; gt_delivered := gt_delivered g; gt_trackers := gt_trackers g; gt_capacity := gt_capacity g;
  gt_upstream := gt_upstream g; gt_upstreams := gt_upstreams g; gt_recorders := gt_recorders g;
  gt_chain_unavailable := gt_chain_unavailable g; gt_keep_serving := gt_keep_serving g; gt_max_concurrent := gt_max_concurrent g |}.
Definition set_gt_delivered (v : gmap string nat) (g : GatewayState) : GatewayState := {|
  gt_auth := gt_auth g; gt_limits := gt_limits g; gt_delivered := v; gt_trackers := gt_trackers g; gt_capacity := gt_capacity g;
  gt_upstream := gt_upstream g; gt_upstreams := gt_upstreams g; gt_recorders := gt_recorders g;
  gt_chain_unavailable := gt_chain_unavailable g; gt_keep_serving := gt_keep_serving g; gt_max_concurrent := gt_max_concurrent g |}.
Definition set_gt_trackers (v : gmap nat DealDelivery) (g : GatewayState) : GatewayState := {|
  gt_auth := gt_auth g; gt_limits := gt_limits g; gt_delivered := gt_delivered g; gt_trackers := v; gt_capacity := gt_capacity g;
  gt_upstream := gt_upstream g; gt_upstreams := gt_upstreams g; gt_recorders := gt_recorders g;
  gt_chain_unavailable := gt_chain_unavailable g; gt_keep_serving := gt_keep_serving g; gt_max_concurrent := gt_max_concurrent g |}.
Definition set_gt_capacity (v : Manager) (g : GatewayState) : GatewayState := {|
  gt_auth := gt_auth g; gt_limits := gt_limits g; gt_delivered := gt_delivered g; gt_trackers := gt_trackers g; gt_capacity := v;
  gt_upstream := gt_upstream g; gt_upstreams := gt_upstreams g; gt_recorders := gt_recorders g;
  gt_chain_unavailable := gt_chain_unavailable g; gt_keep_serving := gt_keep_serving g; gt_max_concurrent := gt_max_concurrent g |}.
Definition set_gt_upstreams (v : gmap string UpstreamConfig) (g : GatewayState) : GatewayState := {|
  gt_auth := gt_auth g; gt_limits := gt_limits g; gt_delivered := gt_delivered g; gt_trackers := gt_trackers g; gt_capacity := gt_capacity g;
  gt_upstream := gt_upstream g; gt_upstreams := v; gt_recorders := gt_recorders g;
  gt_chain_unavailable := gt_chain_unavailable g; gt_keep_serving := gt_keep_serving g; gt_max_concurrent := gt_max_concurrent g |}.
Definition set_gt_recorders (v : gmap nat nat) (g : GatewayState) : GatewayState := {|
  gt_auth := gt_auth g; gt_limits := gt_limits g; gt_delivered := gt_delivered g; gt_trackers := gt_trackers g; gt_capacity := gt_capacity g;
  gt_upstream := gt_upstream g; gt_upstreams := gt_upstreams g; gt_recorders := v;
  gt_chain_unavailable := gt_chain_unavailable g; gt_keep_serving := gt_keep_serving g; gt_max_concurrent := gt_max_concurrent g |}.
Definition set_gt_chain (unavailable keep_serving : bool) (g : GatewayState) : GatewayState := {|
  gt_auth := gt_auth g; gt_limits := gt_limits g; gt_delivered := gt_delivered g; gt_trackers := gt_trackers g; gt_capacity := gt_capacity g;
  gt_upstream := gt_upstream g; gt_upstreams := gt_upstreams g; gt_recorders := gt_recorders g;
  gt_chain_unavailable := unavailable; gt_keep_serving := keep_serving; gt_max_concurrent := gt_max_concurrent g |}.

Definition on_capacity {E A} (op : Op Manager E A) : Op GatewayState E A := λ g,
  let '(r, m) := op (gt_capacity g) in (r, set_gt_capacity m g).
Definition upd_tracker (id : nat) (f : DealDelivery → DealDelivery) (g : GatewayState) : GatewayState :=
  set_gt_trackers (alter f id (gt_trackers g)) g.
Definition tracker (id : nat) (g : GatewayState) : DealDelivery := unwrap_or DealDelivery_default (gt_trackers g !! id).
(** The tracker of a deal, created on first access. *)
Definition delivery {E} (token_contract : string) : Op GatewayState E nat :=
  do known <- op_read (λ g, Ok (gt_delivered g !! token_contract));
  match known with
  | Some id => op_ret (Ok id)
  | None =>
      do id <- op_read (λ g, Ok (fresh (dom (gt_trackers g))));
      do _a <- op_write (λ g, set_gt_delivered (<[token_contract := id]> (gt_delivered g))
                                (set_gt_trackers (<[id := DealDelivery_default]> (gt_trackers g)) g));
      op_ret (Ok id)
  end.
Definition upstream_of (token_contract : string) (g : GatewayState) : UpstreamConfig :=
  unwrap_or (gt_upstream g) (gt_upstreams g !! token_contract).

(** ** Deals *)

Definition register_stream_with_claim_bounds (ft : CapacityFaults) (token_contract : string) (buyer_pubkey : Pubkey)
    (mock_token_count : Z) (state : DealChainState) (deal : DealSubscription) (bounds : ClaimBounds) (now : Z) : Op GatewayState text () :=
  let tc := display_self_dapp token_contract in
  do reconciled <- on_capacity (reconcile_deal to_vec is_empty from_slice ft token_contract state deal);
  do snapshot <- op_ret (ok_or reconciled f["TokenContract "; tc; " is terminal"]);
  do durable_delivered <- op_ret (ok_or
      (let* delivered := checked_add u128 (sp_tokens_pending_anchor snapshot) (sp_local_delivered_after_anchor snapshot) in try_into u64 delivered)
      f["TokenContract "; tc; " durable delivery "; sp_tokens_pending_anchor snapshot; " + "; sp_local_delivered_after_anchor snapshot;
        " exceeds gateway uint64"]);
  let retry := {| rt_bounds := bounds; rt_state := state;
    rt_next_attempt := now + nanos_of (if cs_probe_accepted state then cb_min_claim_interval bounds else cb_probe_window bounds) |} in
  do _a <- op_write (λ g, set_gt_limits (<[token_contract := {| lm_mock_token_count := mock_token_count; lm_deal := deal; lm_retry := retry |}]>
                                          (gt_limits g)) g);
  do _b <- op_write (λ g, set_gt_auth (auth_register token_contract buyer_pubkey (gt_auth g)) g);
  do id <- delivery token_contract;
  op_write (upd_tracker id (set_count durable_delivered)).
Definition unregister_stream (token_contract : string) (g : GatewayState) : GatewayState :=
  let g := if gt_chain_unavailable g then g else set_gt_auth (auth_unregister token_contract (gt_auth g)) g in
  set_gt_upstreams (delete token_contract (gt_upstreams g))
    (set_gt_delivered (delete token_contract (gt_delivered g)) (set_gt_limits (delete token_contract (gt_limits g)) g)).
Definition route_stream (token_contract : string) (upstream : UpstreamConfig) (g : GatewayState) : GatewayState :=
  set_gt_upstreams (<[token_contract := upstream]> (gt_upstreams g)) g.
Definition upd_retry (token_contract : string) (f : CapacityRetry → CapacityRetry) (g : GatewayState) : GatewayState :=
  set_gt_limits (alter (with_retry f) token_contract (gt_limits g)) g.
Definition reconcile_deal_capacity (ft : CapacityFaults) (token_contract : string) (state : DealChainState) (deal : DealSubscription)
    : Op GatewayState text (option CapacitySnapshot) :=
  do snapshot <- on_capacity (reconcile_deal to_vec is_empty from_slice ft token_contract state deal);
  do _a <- op_write (upd_retry token_contract (λ r,
             {| rt_bounds := rt_bounds r; rt_state := state; rt_next_attempt := rt_next_attempt r |}));
  op_ret (Ok snapshot).
Definition reconcile_subscription_capacity (ft : CapacityFaults) (token_contract : string) (state : DealChainState)
    (subscription : DealSubscription) : Op GatewayState text (option CapacitySnapshot) :=
  if negb (is_subscription subscription) then
    op_ret (Err f["TokenContract "; display_self_dapp token_contract; ": subscription keeper observed an ordinary deal shape"])
  else reconcile_deal_capacity ft token_contract state subscription.
Definition reconcile_ordinary_capacity (ft : CapacityFaults) (token_contract : string) (state : DealChainState)
    : Op GatewayState text (option CapacitySnapshot) :=
  let tc := display_self_dapp token_contract in
  do limits <- op_read (λ g, ok_or (gt_limits g !! token_contract) f["TokenContract "; tc; ": deal capacity is not registered"]);
  if is_subscription (lm_deal limits)
  then op_ret (Err f["TokenContract "; tc; ": ordinary claim driver observed a subscription deal shape"])
  else reconcile_deal_capacity ft token_contract state (lm_deal limits).
Definition schedule_capacity_retry (token_contract : string) (delay now : Z) (g : GatewayState) : GatewayState :=
  upd_retry token_contract (λ r, {| rt_bounds := rt_bounds r; rt_state := rt_state r; rt_next_attempt := now + delay |}) g.
Definition prepare_probe_capacity (ft : CapacityFaults) (token_contract : string) (delivered : Z) : Op GatewayState text Z :=
  on_capacity (prepare_probe to_vec ft token_contract delivered).
Definition mark_deal_terminal (ft : CapacityFaults) (token_contract : string) : Op GatewayState text () :=
  on_capacity (mark_terminal ft token_contract).
Definition active_requests (token_contract : string) (g : GatewayState) : Z := active_shared_requests token_contract (gt_capacity g).
Definition set_chain_unavailable_action (action : ChainUnavailableAction) (g : GatewayState) : GatewayState :=
  set_gt_chain (gt_chain_unavailable g) (match action with ActionKeepServing => true | ActionStop => false end) g.
Definition report_chain_unavailable (g : GatewayState) : GatewayState :=
  if gt_keep_serving g then g else set_gt_chain true (gt_keep_serving g) g.

(** ** The service *)

Definition HEALTH_CHALLENGE_TC : string := "seller-readiness".
Definition get_challenge (token_contract nonce : string) (capabilities_only : bool) (g : GatewayState) : GatewayState :=
  if capabilities_only then g else
  let auth := issue_challenge token_contract nonce (gt_auth g) in
  set_gt_auth (if String.eqb token_contract HEALTH_CHALLENGE_TC then (discard_challenge token_contract nonce auth).2 else auth) g.

Definition reserve_status (token_contract : string) (unix_now now : Z) (error : ReserveError) (g : GatewayState) : WireStatus :=
  refusal_status error
    match error with
    | Exhausted | OnchainLimit =>
        match gt_limits g !! token_contract with
        | Some limits => retry_delay (lm_retry limits) unix_now now
        | None => CAPACITY_RETRY_DEFAULT
        end
    | _ => CAPACITY_RETRY_DEFAULT
    end.
Record Admission : Type := { ad_reservation : nat; ad_tracker : nat; ad_grant : Z; ad_request : ProviderRequest }.
Definition admit_request (ft : CapacityFaults) (token_contract : string) (grant : Z) (shared : bool) (limit : Z) : Op Manager ReserveError nat :=
  if shared then admit_shared token_contract grant limit else reserve_exclusive to_vec ft token_contract grant.
Definition authorize (r : StreamRequest) : Op GatewayState WireStatus () := λ g,
  let '(valid, auth) := verify_response verify (sr_token_contract r) (sr_nonce r) (sr_signature r) (gt_auth g) in
  (if (valid : bool) then Ok () else Err (plain_status (status Unauthenticated f["challenge-response failed"])), set_gt_auth auth g).
Definition open_stream (ft : CapacityFaults) (unix_now now : Z) (r : StreamRequest) : Op GatewayState WireStatus Admission :=
  let tc := sr_token_contract r in
  if sr_billing_grant_tokens r =? 0 then op_ret (Err (invalid f["billing_grant_tokens must be nonzero"]))
  else if String.eqb (sr_path r) "" then
    op_ret (Err (plain_status (status ResourceExhausted f["this seller forwards the consumer request as received; update dexdo on the buyer"])))
  else if negb (length (sr_signature r) =? 64)%nat then op_ret (Err (plain_status (status Unauthenticated f["bad signature length"])))
  else
    do _a <- authorize r;
    do unavailable <- op_read (λ g, Ok (gt_chain_unavailable g));
    if (unavailable : bool) then op_ret (Err chain_unavailable_status) else
    do limits <- op_read (λ g, ok_or (gt_limits g !! tc) (plain_status (status FailedPrecondition f["this deal is not registered on this gateway"])));
    do upstream <- op_read (λ g, Ok (upstream_of tc g));
    do request <- op_ret (provider_request upstream (sr_path r) (sr_body r) (sr_headers r));
    if uc_is_mock upstream && (lm_mock_token_count limits =? 0) then op_ret (Err (invalid f["this mock seller delivers no output"])) else
    do id <- delivery tc;
    do exhausted <- op_read (λ g, Ok (dl_billing_exhausted (tracker id g)));
    if (exhausted : bool) then op_read (λ g, Err (reserve_status tc unix_now now Exhausted g)) else
    do limit <- op_read (λ g, Ok (gt_max_concurrent g));
    do admitted <- on_capacity (λ m, let '(res, m) := admit_request ft tc (sr_billing_grant_tokens r) (sr_shared_budget r) limit m in
                                     (Ok res : Result WireStatus _, m));
    do rid <- op_read (λ g, map_err (λ e, reserve_status tc unix_now now e g) admitted);
    do _b <- op_write (λ g, set_gt_recorders (<[rid := id]> (gt_recorders g)) g);
    op_read (λ g, Ok {| ad_reservation := rid; ad_tracker := id; ad_request := request;
      ad_grant := match mg_requests (gt_capacity g) !! rid with Some reservation => rr_initial reservation | None => 0 end |}).

(** ** The recorder of a relay *)

Definition reservation_active (rid : nat) (g : GatewayState) : Z :=
  match mg_requests (gt_capacity g) !! rid with
  | Some r => match mg_heap (gt_capacity g) !! rr_entry r with Some e => es_active_shared_requests e | None => 0 end
  | None => 0
  end.
(** No later request may add to the deal once an exhausted one and all others are over. *)
Definition publish_done (rid id : nat) (g : GatewayState) : GatewayState :=
  upd_tracker id (mark_done (dl_billing_exhausted (tracker id g) && (reservation_active rid g =? 0))) g.
Definition complete_request (ft : CapacityFaults) (rid id : nat) (tokens : Z) (billing_exhausted : bool) : Op GatewayState WireStatus Z :=
  do before <- op_read (λ g, Ok (dl_count (tracker id g)));
  do _a <- op_read (λ g, checked_authoritative_tokens (tracker id g) tokens);
  do charged <- op_map_err capacity_status (on_capacity (with_request rid (finish_with_delivery to_vec ft tokens)));
  do _b <- op_write (upd_tracker id (set_count (before + charged)));
  do _c <- op_write (upd_tracker id (mark_exhausted (billing_exhausted || (charged <? tokens))));
  do _d <- op_write (publish_done rid id);
  op_ret (Ok charged).
Definition finish_request (ft : CapacityFaults) (rid id : nat) (finish : AuthoritativeDeliveryFinish) : Op GatewayState WireStatus () :=
  do durable <- op_map_err capacity_status (on_capacity (with_request rid
                  (match finish with Interrupted => finish_exact to_vec ft | AmbiguousUsage => finish_ambiguous to_vec ft end)));
  do _a <- (if 0 <? durable then
              do next <- op_read (λ g, checked_authoritative_tokens (tracker id g) durable);
              op_write (upd_tracker id (set_count next))
            else op_ret (Ok ()));
  op_write (publish_done rid id).
Definition reservation_shared (rid : nat) (g : GatewayState) : bool :=
  match mg_requests (gt_capacity g) !! rid with Some r => rr_shared r | None => false end.
Definition capacity_recorder (ft : CapacityFaults) (rid id : nat) : Recorder GatewayState := {|
  shared_budget := reservation_shared rid;
  complete_billing := complete_request ft rid id;
  record_finished := finish_request ft rid id;
|}.
(** The relay is over and drops its recorder. *)
Definition drop_recorder (rid : nat) (g : GatewayState) : GatewayState :=
  set_gt_recorders (delete rid (gt_recorders g)) (set_gt_capacity (drop_request rid (gt_capacity g)) g).

(** ** Runs *)

(** What happens at a gateway; a relay settles its request through the recorder it holds. *)
Inductive GatewayCall : Type :=
| GRegister (token_contract : string) (buyer_pubkey : Pubkey) (mock_token_count : Z) (state : DealChainState) (deal : DealSubscription)
    (bounds : ClaimBounds) (now : Z)
| GUnregister (token_contract : string)
| GRoute (token_contract : string) (upstream : UpstreamConfig)
| GReconcile (token_contract : string) (state : DealChainState) (deal : DealSubscription)
| GReconcileOrdinary (token_contract : string) (state : DealChainState)
| GScheduleRetry (token_contract : string) (delay now : Z)
| GPrepareProbe (token_contract : string) (delivered : Z)
| GMarkTerminal (token_contract : string)
| GSetAction (action : ChainUnavailableAction)
| GReportChain
| GChallenge (token_contract nonce : string) (capabilities_only : bool)
| GOpen (unix_now now : Z) (r : StreamRequest)
| GComplete (rid : nat) (tokens : Z) (billing_exhausted : bool)
| GFinish (rid : nat) (finish : AuthoritativeDeliveryFinish)
| GDrop (rid : nat).
Definition with_recorder (rid : nat) (f : nat → GatewayState → GatewayState) (g : GatewayState) : GatewayState :=
  match gt_recorders g !! rid with Some id => f id g | None => g end.
Definition gateway_step (ft : CapacityFaults) (c : GatewayCall) (g : GatewayState) : GatewayState :=
  match c with
  | GRegister tc pubkey count state deal bounds now => (register_stream_with_claim_bounds ft tc pubkey count state deal bounds now g).2
  | GUnregister tc => unregister_stream tc g
  | GRoute tc upstream => route_stream tc upstream g
  | GReconcile tc state deal => (reconcile_deal_capacity ft tc state deal g).2
  | GReconcileOrdinary tc state => (reconcile_ordinary_capacity ft tc state g).2
  | GScheduleRetry tc delay now => schedule_capacity_retry tc delay now g
  | GPrepareProbe tc delivered => (prepare_probe_capacity ft tc delivered g).2
  | GMarkTerminal tc => (mark_deal_terminal ft tc g).2
  | GSetAction action => set_chain_unavailable_action action g
  | GReportChain => report_chain_unavailable g
  | GChallenge tc nonce capabilities_only => get_challenge tc nonce capabilities_only g
  | GOpen unix_now now r => (open_stream ft unix_now now r g).2
  | GComplete rid tokens exhausted => with_recorder rid (λ id g, (complete_request ft rid id tokens exhausted g).2) g
  | GFinish rid finish => with_recorder rid (λ id g, (finish_request ft rid id finish g).2) g
  | GDrop rid => with_recorder rid (λ _ g, drop_recorder rid g) g
  end.
End State.
