(* ===== verification/GatewayInv.v ===== *)
(** * What the calls of a gateway keep

    How the capacity ledger evolves under the calls of a gateway: no entry is lost, delivery
    never falls, a terminal entry stays terminal, a reservation keeps its entry; and nothing
    waits for a write.  Then the invariant that ties the trackers of the gateway to the ledger. *)
From S2P Require Import Prelude RustText ApiFormat SseFrames Params Address DealTypes Recovery UsageData Capacity Meter Relay.
From S2P Require Import CapacityInv CapacityEntry CapacityReach CapacityRun Gateway.

#[local] Arguments umax : simpl never.
#[local] Arguments validate_record : simpl never.
#[local] Arguments available : simpl never.
#[local] Arguments display_self_dapp : simpl never.

Section Evolve.
Context {Bytes : Type} (to_vec : DurableCapacityRecord → Bytes) (is_empty : Bytes → bool)
  (from_slice : Bytes → Result text DurableCapacityRecord).
Context (from_slice_typed : ∀ bytes r, from_slice bytes = Ok r → typed_record r).
Implicit Types (m : Manager (Bytes := Bytes)) (ft : CapacityFaults) (c : CapCall).

(** One entry, before and after. *)
Definition grows (e e' : CapacityEntryState) : Prop :=
  entry_delivery e ≤ entry_delivery e' ∧ (es_terminal e = true → es_terminal e' = true).
Record evolves (dropped : option nat) m m' : Prop := {
  ev_heap : ∀ id e, mg_heap m !! id = Some e → ∃ e', mg_heap m' !! id = Some e' ∧ grows e e';
  ev_entries : ∀ tc id, mg_entries m !! tc = Some id → mg_entries m' !! tc = Some id ∨ ∃ e', mg_heap m' !! id = Some e' ∧ es_terminal e' = true;
  ev_requests : ∀ rid r, mg_requests m !! rid = Some r → dropped ≠ Some rid → ∃ r', mg_requests m' !! rid = Some r' ∧ rr_entry r' = rr_entry r;
}.
Lemma grows_refl e : grows e e.
Proof. by split. Qed.
#[local] Hint Resolve grows_refl : core.
Lemma evolves_refl d m : evolves d m m.
Proof. constructor; eauto. Qed.
Lemma evolves_trans d m1 m2 m3 : evolves d m1 m2 → evolves d m2 m3 → evolves d m1 m3.
Proof.
  intros [H1 E1 R1] [H2 E2 R2]. constructor.
  - intros id e (e2 & He2 & ? & ?)%H1. destruct (H2 _ _ He2) as (e3 & ? & ? & ?). exists e3. split; [done|]. split; [lia|auto].
  - intros tc id [Hid|(e2 & He2 & Ht)]%E1; [by apply E2|]. right. destruct (H2 _ _ He2) as (e3 & ? & _ & ?). eauto.
  - intros rid r Hr Hd. destruct (R1 _ _ Hr Hd) as (r2 & Hr2 & Heq). destruct (R2 _ _ Hr2 Hd) as (r3 & ? & ?). exists r3. split; [done|congruence].
Qed.

(** A change of one entry, of what refers to entries and of one reservation. *)
Lemma insert_evolves d m m' id e e' :
  mg_heap m !! id = Some e → mg_heap m' = <[id := e']> (mg_heap m) → grows e e' →
  (∀ tc x, mg_entries m !! tc = Some x → mg_entries m' !! tc = Some x ∨ x = id ∧ es_terminal e' = true) →
  (∀ rid r, mg_requests m !! rid = Some r → d ≠ Some rid → ∃ r', mg_requests m' !! rid = Some r' ∧ rr_entry r' = rr_entry r) →
  evolves d m m'.
Proof.
  intros He Hheap Hg Hents Hreqs. constructor; [|intros tc x [|[-> Ht]]%Hents; [by left|]|done].
  - intros x y Hx. rewrite Hheap. destruct (decide (id = x)) as [<-|]; [|rewrite lookup_insert_ne by done; eauto].
    rewrite lookup_insert_eq. rewrite He in Hx. injection Hx as <-. eauto.
  - right. exists e'. by rewrite Hheap, lookup_insert_eq.
Qed.

Lemma entry_step_grows e grant e' : entry_step e grant e' → grows e e'.
Proof. intros Hstep. split; [by rewrite (entry_step_delivery _ _ _ Hstep)|]. by destruct Hstep. Qed.
Lemma reservation_step_grows stick e r rep e' r' :
  entry_ok e → reservation_step stick e r rep e' r' → grows e e' ∧ rr_entry r' = rr_entry r.
Proof. intros He Hstep. split; [split; [by eapply step_delivery_mono|]|]; by destruct Hstep. Qed.

Lemma terminal_reports_nothing stick e r n e' r' : reservation_step stick e r (Some n) e' r' → es_terminal e = true → n = 0.
Proof. intros Hstep Hterm. inversion Hstep; subst; congruence. Qed.

Lemma on_entry_evolves {E A} d m id e (op : Op Slot E A) grant :
  mg_heap m !! id = Some e → steps grant (slot_of e m) op → evolves d m (on_entry id e op m).2.
Proof.
  intros He Hsteps. destruct (on_entry_moves m id e op _ He Hsteps) as (e' & Hstep & [Hh He'] & Hr).
  eapply insert_evolves; [exact He|exact Hh|by eapply entry_step_grows|rewrite He'; eauto|rewrite Hr; eauto].
Qed.
Lemma hand_out_evolves d m m1 id amount shared :
  evolves d m m1 → evolves d m (hand_out id amount shared m1).2.
Proof.
  intros H. apply (evolves_trans _ _ m1); [done|]. unfold hand_out, op_bind, op_read, op_write, op_ret. cbn.
  constructor; cbn; eauto. intros rid r Hr _. exists r. split; [|done]. rewrite lookup_insert_ne; [done|].
  intros <-. by rewrite fresh_request in Hr.
Qed.
Lemma granted_evolves d m id e (op : Op Slot ReserveError Z) shared :
  mg_heap m !! id = Some e → steps (λ n, Some (n, shared)) (slot_of e m) op →
  evolves d m ((do amount <- on_entry id e op; hand_out id amount shared) m).2.
Proof.
  intros He Hsteps. pose proof (on_entry_evolves d m id e op _ He Hsteps) as H. unfold op_bind.
  destruct (on_entry id e op m) as [[n|err] m1]; cbn in *; [by apply hand_out_evolves|done].
Qed.
Lemma remove_evolves d ft path m m0 : evolves d m0 m → evolves d m0 (remove_if_present ft path m).2.
Proof.
  intros H. unfold remove_if_present. destruct (cf_remove ft) as [[err|err]|]; [done|..]; (destruct (mg_files m !! path); [|done]);
    (eapply evolves_trans; [exact H|]; constructor; eauto).
Qed.
Lemma mark_terminal_evolves d ft tc m : mgr_ok m → evolves d m (mark_terminal ft tc m).2.
Proof.
  intros Hm. unfold mark_terminal, op_bind, op_read, op_write. destruct (find_entry tc m) as [[id e]|] eqn:Hfind; cbv beta iota.
  - apply find_entry_Some in Hfind as [Hid He]. set (m1 := set_heap _ _).
    assert (evolves d m m1) as H1.
    { apply (insert_evolves d m m1 id e (set_terminal e)); try done; [|eauto].
      intros tc' x Hx. cbn. destruct (decide (tc = tc')) as [<-|]; [|rewrite lookup_delete_ne by done; by left].
      right. split; [congruence|done]. }
    destruct (es_path e) as [path|]; [by apply remove_evolves|done].
  - set (m1 := set_entries _ _). assert (evolves d m m1) as H1.
    { constructor; cbn; eauto. intros tc' x Hx. left. rewrite lookup_delete_ne; [done|]. intros <-.
      destruct (mo_ref _ Hm _ _ Hx) as [e He]. assert (find_entry tc m = Some (x, e)) by by apply find_entry_Some. congruence. }
    destruct (mg_store_dir m1) as [directory|]; [by apply remove_evolves|done].
Qed.

Lemma found_evolves d tc state deal cap ft u m :
  mgr_ok m → trim tc ≠ "" → deal_typed state deal → validate_live_deal_shape tc state deal = Ok u → authoritative_cap state deal = Ok cap →
  wp (find_or_register is_empty from_slice ft tc state deal cap)
     (λ res m', evolves d m m' ∧ match res with Ok (id, e) => mg_entries m' !! tc = Some id ∧ mg_heap m' !! id = Some e | Err _ => True end) m.
Proof.
  intros Hm Htc Ht Hshape Hcap. unfold find_or_register. op_step. destruct (find_entry tc m) as [[id e]|] eqn:Hfind.
  { apply wp_ret. split; [apply evolves_refl|]. by apply find_entry_Some in Hfind. }
  op_step. apply wp_look. destruct (initial_record _ _ _ _ _ _ _ _ _) as [record|err]; [|split; [apply evolves_refl|done]].
  cbv zeta. op_step. op_step. apply wp_ret. cbn. rewrite !lookup_insert_eq. split; [|done].
  assert (mg_heap m !! fresh (dom (mg_heap m)) = None) as Hfresh by apply not_elem_of_dom, is_fresh.
  constructor; cbn; [|intros tc' x Hx; left|eauto].
  - intros x y Hx. exists y. split; [|done]. rewrite lookup_insert_ne; congruence.
  - rewrite lookup_insert_ne; [done|]. intros <-. destruct (mo_ref _ Hm _ _ Hx) as [e He].
    assert (find_entry tc m = Some (x, e)) by by apply find_entry_Some. congruence.
Qed.
Lemma refresh_reports ft tc state deal cap s snap s' :
  refresh to_vec ft tc state deal cap s = (Ok snap, s') → snap = capacity_snapshot (es_record (sl_entry s')).
Proof.
  intros H. enough (wp (refresh to_vec ft tc state deal cap)
    (λ res s', ∀ snap, res = Ok snap → snap = capacity_snapshot (es_record (sl_entry s'))) s) as Hw.
  { unfold wp in Hw. rewrite H in Hw. by apply Hw. }
  unfold refresh. apply wp_look. cbv beta iota. op_step; [|done]. op_step; [|done].
  apply wp_bind. destruct (bool_decide _).
  - apply wp_ret. op_step. unfold wp, op_read. cbn. by intros ? [= <-].
  - apply wp_bind, persist_entry. intros [[]|err] s1 _ _; [|done]. unfold wp. cbn. by intros ? [= <-].
Qed.
(** A read of the chain that the ledger accepts: the entry of the deal, and its snapshot. *)
Lemma reconcile_evolves d ft tc state deal m :
  mgr_ok m → trim tc ≠ "" → deal_typed state deal →
  wp (reconcile_deal to_vec is_empty from_slice ft tc state deal)
     (λ res m', evolves d m m' ∧ ∀ snap, res = Ok (Some snap) → ∃ id e, mg_entries m' !! tc = Some id ∧ mg_heap m' !! id = Some e ∧
        snap = capacity_snapshot (es_record e)) m.
Proof.
  intros Hm Htc Ht. unfold reconcile_deal. destruct (is_stopped state).
  { apply wp_bind. pose proof (mark_terminal_evolves d ft tc m Hm) as H. unfold wp.
    destruct (mark_terminal ft tc m) as [[[]|err] m']; done. }
  op_step; [|split; [apply evolves_refl|done]]. op_step; [|split; [apply evolves_refl|done]]. apply wp_bind. rename a0 into cap.
  pose proof (register_safe is_empty from_slice from_slice_typed ft tc state deal cap a m Hm Htc Ht ltac:(eassumption) ltac:(eassumption)) as Hsafe.
  pose proof (found_evolves d tc state deal cap ft a m Hm Htc Ht ltac:(eassumption) ltac:(eassumption)) as Hfound.
  unfold wp in Hsafe, Hfound |- *. destruct (find_or_register _ _ _ _ _ _ _ m) as [[[id e]|err] m1]; cbn [fst snd] in *; [|by destruct Hfound].
  destruct Hsafe as [(Hm1 & _) _], Hfound as (H1 & Hid & He). unfold op_bind.
  pose proof (refresh_steps to_vec ft tc state deal cap (slot_of e m1) (eo_record _ (mo_entry _ Hm1 _ _ He)) ltac:(apply Ht)
    ltac:(by eapply authoritative_cap_typed) ltac:(apply Ht)) as Hsteps.
  pose proof (on_entry_evolves d m1 id e _ _ He Hsteps) as H2. destruct (on_entry_moves m1 id e _ _ He Hsteps) as (e' & _ & [Hh Hents] & _).
  unfold on_entry in *. destruct (refresh to_vec ft tc state deal cap (slot_of e m1)) as [[snap|err] s] eqn:Hrf; cbn [fst snd] in *;
    (split; [by eapply evolves_trans|]); [|done].
  intros snap' [= ->]. exists id, e'. unfold op_ret. cbn [fst snd]. rewrite Hents, Hh, lookup_insert_eq. split; [done|]. split; [done|].
  rewrite put_slot_heap in Hh. assert (sl_entry s = e') as <-.
  { assert (<[id := sl_entry s]> (mg_heap m1) !! id = Some e') as Hx by (rewrite Hh; apply lookup_insert_eq). rewrite lookup_insert_eq in Hx. congruence. }
  by apply refresh_reports in Hrf.
Qed.

Lemma drop_evolves rid m : evolves (Some rid) m (drop_request rid m).
Proof.
  unfold drop_request. destruct (mg_requests m !! rid) as [r|] eqn:Hr; [|apply evolves_refl].
  destruct (mg_heap m !! rr_entry r) as [e|] eqn:He; [|apply evolves_refl].
  eapply insert_evolves; [exact He|exact (put_slot_heap _ _ _)| | |].
  - unfold drop. by destruct (_ && _).
  - intros tc x Hx. left. change (mg_entries (put_slot (rr_entry r) (drop (slot_of e m, r)) m) !! tc = Some x). by rewrite put_slot_entries.
  - intros rid' r' Hr' Hne. exists r'. cbn. split; [|done]. rewrite lookup_delete_ne; [done|congruence].
Qed.
Lemma request_evolves stick d rid op m :
  mgr_ok m → (∀ others h, held_ok others (sl_entry h.1) h.2 → refines (Bytes := Bytes) stick h op) → evolves d m (with_request rid op m).2.
Proof.
  intros Hm Href. destruct (mg_requests m !! rid) as [r|] eqn:Hr; [|unfold with_request; rewrite Hr; apply evolves_refl].
  destruct (mo_request _ Hm _ _ Hr) as [_ [e He]].
  destruct (with_request_moves stick m rid r e op Hr He) as (e' & r' & Hstep & [Hh Hents] & Hreqs).
  { by eapply Href, (held_ok_of m rid r e). }
  destruct (reservation_step_grows _ _ _ _ _ _ (mo_entry _ Hm _ _ He) Hstep) as [Hg Hid].
  eapply insert_evolves; [exact He|exact Hh|done|rewrite Hents; eauto|].
  intros x y Hx _. rewrite Hreqs. destruct (decide (rid = x)) as [<-|]; [rewrite lookup_insert_eq|rewrite lookup_insert_ne by done; eauto].
  exists r'. split; [done|congruence].
Qed.

(** The calls a gateway makes. *)
Definition gateway_call c : bool := match c with CRecordDelivered _ _ | CStale _ _ | CRestart => false | _ => true end.
Definition call_drops c : option nat := match c with CDrop rid => Some rid | _ => None end.
Lemma found_entry_evolves {E A} d (unknown : E) tc (k : nat * CapacityEntryState → Op Manager E A) m :
  (∀ id e, mg_heap m !! id = Some e → evolves d m (k (id, e) m).2) → evolves d m ((do found <- lookup_entry unknown tc; k found) m).2.
Proof.
  intros Hk. unfold op_bind, lookup_entry, op_read. destruct (find_entry tc m) as [[id e]|] eqn:Hf; cbn; [|apply evolves_refl].
  apply find_entry_Some in Hf as [_ He]. by apply Hk.
Qed.
Lemma cap_step_evolves ft c m :
  mgr_ok m → call_typed c → gateway_call c = true → evolves (call_drops c) m (cap_step to_vec is_empty from_slice ft c m).2.
Proof.
  intros Hm Hc Hg. destruct (call_request c) as [rid|] eqn:Hreq.
  { destruct (request_call_refines to_vec is_empty from_slice ft c rid Hc Hreq) as (op & Hop & Href). rewrite Hop. cbn. by eapply request_evolves. }
  destruct c as [tc state deal|tc delivered|tc req lim|tc req ex|tc|id c|rid n|rid n|rid|rid|rid|]; try discriminate Hreq; try discriminate Hg; cbn in Hc; cbn [cap_step quiet snd call_drops].
  - destruct Hc. by apply (reconcile_evolves None ft tc state deal m).
  - apply found_entry_evolves. intros id e He. eapply on_entry_evolves; [done|]. apply save_probe_steps, (eo_record _ (mo_entry _ Hm _ _ He)).
  - apply found_entry_evolves. intros id e He. apply granted_evolves; [done|]. apply admit_steps; [|done]. apply (eo_record _ (mo_entry _ Hm _ _ He)).
  - unfold reserve_inner. destruct (req =? 0); [apply evolves_refl|]. apply found_entry_evolves. intros id e He.
    apply granted_evolves; [done|]. apply take_steps; [|done]. apply (eo_record _ (mo_entry _ Hm _ _ He)).
  - by apply mark_terminal_evolves.
  - apply drop_evolves.
Qed.

(** ** Nothing waits for a write *)

Definition settled (e : CapacityEntryState) : Prop := es_unpersisted_delivered e = 0.
Definition all_settled m : Prop := map_Forall (λ _, settled) (mg_heap m).
Abbreviation held_settled := (λ h : Held (Bytes := Bytes), settled (sl_entry h.1)).
(** A call that keeps it so, and what it reports. *)
Definition settles (op : Op (Held (Bytes := Bytes)) text Z) (Q : Z → Prop) : Prop :=
  ∀ h, held_settled h → 0 ≤ rr_remaining h.2 → wp op (λ res h', held_settled h' ∧ ∀ n, res = Ok n → Q n) h.

Lemma settled_flush ft : triple held_settled (of_slot (flush_delivered to_vec ft)) (λ res h', held_settled h' ∧ res = Ok 0).
Proof.
  intros [s r] Hs. cbn in Hs. unfold of_slot, flush_delivered, the_entry, op_bind, op_read. cbn [fst snd].
  rewrite (proj2 (Z.eqb_eq _ 0) Hs). by split.
Qed.
Lemma settled_persist fault record : keeps held_settled (of_slot (persist_candidate to_vec fault record)).
Proof.
  intros [s r] Hs. unfold of_slot. cbn [fst]. pose proof (persist_entry to_vec fault record s (λ _ s', sl_entry s' = sl_entry s) ltac:(done)) as H.
  unfold wp in H. destruct (persist_candidate _ _ _ s) as [res s']. cbn in *. by rewrite H.
Qed.
Lemma settled_write (f : Held → Held) : (∀ h, es_unpersisted_delivered (sl_entry (f h).1) = es_unpersisted_delivered (sl_entry h.1)) →
  keeps (E := text) held_settled (op_write f).
Proof. intros Hf h Hs. cbn. unfold settled. by rewrite Hf. Qed.
Lemma wp_keeps {A B} (op : Op (Held (Bytes := Bytes)) text A) (k : A → Op Held text B) Q h :
  keeps held_settled op → held_settled h → (∀ a h', held_settled h' → wp (k a) (λ res h', held_settled h' ∧ ∀ n, res = Ok n → Q n) h') →
  wp (op_bind op k) (λ res h', held_settled h' ∧ ∀ n, res = Ok n → Q n) h.
Proof. intros Hop Hs Hk. specialize (Hop h Hs). apply wp_bind. unfold wp at 1. destruct (op h) as [[a|e] h']; cbn in *; [by apply Hk|done]. Qed.

Ltac settle :=
  repeat first
    [ lazymatch goal with
      | |- wp (op_bind (of_slot (persist_candidate _ _ _)) _) _ _ => apply wp_keeps; [apply settled_persist|done|intros ? ? ?]
      | |- wp (op_bind (op_write _) _) _ _ => apply wp_keeps; [apply settled_write; done|done|intros ? ? ?]
      | |- wp (op_bind the_request _) _ _ => apply wp_look; cbv beta iota
      | |- wp (op_bind (of_slot the_entry) _) _ _ => apply the_entry_bind
      | |- wp (op_bind (op_ret _) _) _ _ => apply wp_check; [intros ? ?|by intros ? ?]
      | |- wp (let _ := _ in _) _ _ => cbv zeta
      end ].
Lemma finish_shared_settles ft tokens ambiguous :
  settles (finish_shared to_vec ft tokens ambiguous) (λ n, ambiguous = true ∨ tokens = 0 → n = 0).
Proof.
  intros h Hs Hrem. unfold finish_shared. settle. apply wp_ret. split; [done|]. intros n [= <-].
  enough ((if ambiguous then 0 else Z.min (Z.min tokens (rr_remaining h.2)) a1) = 0 ∨ ¬ (ambiguous = true ∨ tokens = 0)) as [->|?]; [done|done|].
  destruct ambiguous; [by left|]. destruct (Z.eq_dec tokens 0) as [->|]; [left|right; naive_solver].
  assert (0 ≤ a1) by (unfold available in *; match goal with H : rbind _ _ = Ok a1 |- _ =>
    apply bind_Ok in H as (? & _ & H); apply ok_or_Ok, checked_sub_Some in H end; lia). lia.
Qed.
Lemma finish_with_delivery_settles ft tokens : settles (finish_with_delivery to_vec ft tokens) (λ _, True).
Proof.
  intros h Hs Hrem. unfold finish_with_delivery. settle. destruct (rr_shared h.2).
  - eapply wp_mono; [by apply finish_shared_settles|]. naive_solver.
  - settle. by apply wp_ret.
Qed.
Lemma finish_exact_settles ft : settles (finish_exact to_vec ft) (λ n, n = 0).
Proof.
  intros h Hs Hrem. unfold finish_exact. settle. destruct (rr_shared h.2).
  - eapply wp_mono; [by apply finish_shared_settles|]. naive_solver.
  - settle. destruct (es_terminal _).
    + settle. apply wp_ret. split; [done|]. by intros n [= <-].
    + pose proof (settled_flush ft h Hs) as Hf. apply wp_bind. unfold wp at 1. destruct (of_slot _ h) as [[n|e] h']; cbn [fst snd] in Hf; [|by destruct Hf].
      destruct Hf as [Hs' [= ->]]. cbn [fst snd]. settle. apply wp_ret. split; [done|]. by intros n [= <-].
Qed.
Lemma finish_ambiguous_settles ft : settles (finish_ambiguous to_vec ft) (λ n, n = 0).
Proof.
  intros h Hs Hrem. unfold finish_ambiguous. settle. destruct (rr_shared h.2).
  - eapply wp_mono; [by apply finish_shared_settles|]. naive_solver.
  - settle. destruct (es_terminal _); settle.
    + apply wp_ret. split; [done|]. injection H0 as <-. by intros n [= <-].
    + pose proof (settled_flush ft h Hs) as Hf. apply wp_bind. unfold wp at 1. destruct (of_slot _ h) as [[n|e] h']; cbn [fst snd] in Hf; [|by destruct Hf].
      destruct Hf as [Hs' [= ->]]. cbn [fst snd]. settle. apply wp_ret. split; [done|]. by intros n [= <-].
Qed.

Lemma with_request_settles rid op Q m :
  mgr_ok m → all_settled m → settles op Q →
  all_settled (with_request rid op m).2 ∧ ∀ n, (with_request rid op m).1 = Ok n → Q n.
Proof.
  intros Hm Hs Hop. unfold with_request. destruct (mg_requests m !! rid) as [r|] eqn:Hr; [|done].
  destruct (mo_request _ Hm _ _ Hr) as [Hq [e He]]. rewrite He. unfold on_request.
  pose proof (Hop (slot_of e m, r) (Hs _ _ He) (proj1 (qo_remaining _ Hq))) as H. unfold wp in H.
  destruct (op (slot_of e m, r)) as [res [s' r']]. cbn in H |- *. destruct H as [H HQ]. split; [|done].
  change (all_settled (put_slot (rr_entry r) s' m)). unfold all_settled. rewrite put_slot_heap. by apply map_Forall_insert_2.
Qed.
Lemma on_entry_settles {E A} m id e (op : Op Slot E A) grant :
  all_settled m → mg_heap m !! id = Some e → steps grant (slot_of e m) op → all_settled (on_entry id e op m).2.
Proof.
  intros Hs He Hsteps. destruct (on_entry_moves m id e op _ He Hsteps) as (e' & Hstep & [Hh _] & _).
  unfold all_settled. rewrite Hh. apply map_Forall_insert_2; [|done]. pose proof (Hs _ _ He). by destruct Hstep.
Qed.
Lemma granted_settles m id e (op : Op Slot ReserveError Z) shared :
  all_settled m → mg_heap m !! id = Some e → steps (λ n, Some (n, shared)) (slot_of e m) op →
  all_settled ((do amount <- on_entry id e op; hand_out id amount shared) m).2.
Proof.
  intros Hs He Hsteps. pose proof (on_entry_settles m id e op _ Hs He Hsteps) as H. unfold op_bind.
  by destruct (on_entry id e op m) as [[n|err] m1].
Qed.
Lemma mark_terminal_settles ft tc m : all_settled m → all_settled (mark_terminal ft tc m).2.
Proof.
  intros Hs. unfold mark_terminal, op_bind, op_read, op_write.
  assert (∀ m path, all_settled m → all_settled (remove_if_present ft path m).2) as Hrem.
  { intros m0 path Hm0. unfold remove_if_present. by destruct (cf_remove ft) as [[err|err]|]; try done; destruct (mg_files m0 !! path). }
  destruct (find_entry tc m) as [[id e]|] eqn:Hfind; cbv beta iota.
  - apply find_entry_Some in Hfind as [_ He]. set (m1 := set_heap _ _).
    assert (all_settled m1) as H1 by (apply map_Forall_insert_2; [exact (Hs _ _ He)|exact Hs]).
    destruct (es_path e) as [path|]; [by apply Hrem|done].
  - destruct (mg_store_dir _) as [directory|]; [by apply Hrem|done].
Qed.
Lemma find_or_register_settles ft tc state deal cap m :
  all_settled m → all_settled (find_or_register is_empty from_slice ft tc state deal cap m).2.
Proof.
  intros Hs. change (wp (find_or_register is_empty from_slice ft tc state deal cap) (λ _ m', all_settled m') m).
  unfold find_or_register. op_step. destruct (find_entry tc m) as [[id e]|]; [by apply wp_ret|].
  op_step. apply wp_look. destruct (initial_record _ _ _ _ _ _ _ _ _) as [record|err]; [|done].
  cbv zeta. op_step. op_step. apply wp_ret. unfold all_settled. cbn. by apply map_Forall_insert_2.
Qed.
Lemma reconcile_settles ft tc state deal m :
  mgr_ok m → trim tc ≠ "" → deal_typed state deal → all_settled m →
  all_settled (reconcile_deal to_vec is_empty from_slice ft tc state deal m).2.
Proof.
  intros Hm Htc Ht Hs. change (wp (reconcile_deal to_vec is_empty from_slice ft tc state deal) (λ _ m', all_settled m') m).
  unfold reconcile_deal. destruct (is_stopped state).
  { apply wp_bind. pose proof (mark_terminal_settles ft tc m Hs) as H. unfold wp. by destruct (mark_terminal ft tc m) as [[[]|err] m']. }
  op_step; [|done]. op_step; [|done]. apply wp_bind. rename a0 into cap.
  pose proof (register_safe is_empty from_slice from_slice_typed ft tc state deal cap a m Hm Htc Ht ltac:(eassumption) ltac:(eassumption)) as Hsafe.
  pose proof (find_or_register_settles ft tc state deal cap m Hs) as Hs1.
  unfold wp in Hsafe |- *. destruct (find_or_register _ _ _ _ _ _ _ m) as [[[id e]|err] m1]; cbn [fst snd] in *; [|done].
  destruct Hsafe as [(Hm1 & _) He]. unfold op_bind.
  pose proof (on_entry_settles m1 id e _ _ Hs1 He (refresh_steps to_vec ft tc state deal cap (slot_of e m1) (eo_record _ (mo_entry _ Hm1 _ _ He)) ltac:(apply Ht)
    ltac:(by eapply authoritative_cap_typed) ltac:(apply Ht))) as H2.
  by destruct (on_entry id e _ m1) as [[snap|err] s].
Qed.
Lemma cap_step_settles ft c m :
  mgr_ok m → call_typed c → gateway_call c = true → all_settled m → all_settled (cap_step to_vec is_empty from_slice ft c m).2.
Proof.
  intros Hm Hc Hg Hs.
  destruct c as [tc state deal|tc delivered|tc req lim|tc req ex|tc|id c|rid n|rid n|rid|rid|rid|]; try discriminate Hg; cbn in Hc;
    cbn [cap_step quiet report snd].
  - destruct Hc. by apply reconcile_settles.
  - unfold prepare_probe, op_bind, lookup_entry, op_read. destruct (find_entry tc m) as [[id e]|] eqn:Hf; [|done].
    apply find_entry_Some in Hf as [_ He]. eapply on_entry_settles; [done..|]. apply save_probe_steps, (eo_record _ (mo_entry _ Hm _ _ He)).
  - unfold admit_shared, op_bind at 1, lookup_entry, op_read. destruct (find_entry tc m) as [[id e]|] eqn:Hf; [|done].
    apply find_entry_Some in Hf as [_ He]. apply granted_settles; [done..|]. by apply admit_steps, Hc; apply (eo_record _ (mo_entry _ Hm _ _ He)).
  - unfold reserve_inner. destruct (req =? 0); [done|]. unfold op_bind at 1, lookup_entry, op_read. destruct (find_entry tc m) as [[id e]|] eqn:Hf; [|done].
    apply find_entry_Some in Hf as [_ He]. apply granted_settles; [done..|]. by apply take_steps, Hc; apply (eo_record _ (mo_entry _ Hm _ _ He)).
  - by apply mark_terminal_settles.
  - refine (proj1 (with_request_settles rid _ _ m Hm Hs _)). apply finish_with_delivery_settles.
  - refine (proj1 (with_request_settles rid _ _ m Hm Hs _)). apply finish_exact_settles.
  - refine (proj1 (with_request_settles rid _ _ m Hm Hs _)). apply finish_ambiguous_settles.
  - unfold drop_request. destruct (mg_requests m !! rid) as [r|]; [|done]. destruct (mg_heap m !! rr_entry r) as [e|] eqn:He; [|done].
    change (all_settled (put_slot (rr_entry r) (drop (slot_of e m, r)) m)). unfold all_settled. rewrite put_slot_heap. apply map_Forall_insert_2; [|done]. unfold drop. pose proof (Hs _ _ He).
    by destruct (_ && _).
Qed.
End Evolve.

(** ** The trackers and the ledger *)

Section Tracking.
Context {Pubkey Bytes : Type} (verify : Pubkey → string → bytes → bool) (from_slice_json : bytes → Result string Value)
  (to_vec : DurableCapacityRecord → Bytes) (is_empty : Bytes → bool) (from_slice : Bytes → Result text DurableCapacityRecord).
Context (from_slice_typed : ∀ b r, from_slice b = Ok r → typed_record r).
Implicit Types (g : GatewayState (Pubkey := Pubkey) (Bytes := Bytes)) (ft : CapacityFaults).

Definition entry_of g (id : nat) : option CapacityEntryState := mg_heap (gt_capacity g) !! id.
Definition entry_closed g (id : nat) : Prop := ∃ e, entry_of g id = Some e ∧ es_terminal e = true.
Definition count (t : nat) g : Z := dl_count (tracker t g).

(** A recorder and the tracker of its deal agree on the entry, unless it is closed. *)
Record gateway_ok g : Prop := {
  go_mgr : mgr_ok (gt_capacity g);
  go_settled : all_settled (gt_capacity g);
  go_known : ∀ tc t, gt_delivered g !! tc = Some t → is_Some (gt_trackers g !! t);
  go_inj : ∀ tc tc' t, gt_delivered g !! tc = Some t → gt_delivered g !! tc' = Some t → tc = tc';
  go_recorder : ∀ rid t, gt_recorders g !! rid = Some t → is_Some (gt_trackers g !! t) ∧ is_Some (mg_requests (gt_capacity g) !! rid);
  go_link : ∀ rid t tc r, gt_recorders g !! rid = Some t → gt_delivered g !! tc = Some t → mg_requests (gt_capacity g) !! rid = Some r →
    mg_entries (gt_capacity g) !! tc = Some (rr_entry r) ∨ entry_closed g (rr_entry r);
}.

(** The count of a deal is covered by the delivery of the entry [id], until that is closed. *)
Definition tracked (tc : string) (t id : nat) g : Prop :=
  entry_closed g id ∨ mg_entries (gt_capacity g) !! tc = Some id ∧ ∃ e, entry_of g id = Some e ∧ count t g ≤ entry_delivery e.
(** What a step that leaves the registration of all deals but [skip] alone preserves. *)
Definition carries (skip : option string) g g' : Prop := ∀ tc t, skip ≠ Some tc → gt_delivered g !! tc = Some t →
  gt_delivered g' !! tc = Some t ∧ count t g ≤ count t g' ∧ ∀ id, tracked tc t id g → tracked tc t id g'.
Definition steady (skip : option string) g g' : Prop := gateway_ok g' ∧ carries skip g g'.

Lemma carries_refl skip g : carries skip g g.
Proof. by intros tc t _ Ht. Qed.
Lemma carries_trans skip g1 g2 g3 : carries skip g1 g2 → carries skip g2 g3 → carries skip g1 g3.
Proof.
  intros H1 H2 tc t Hs Ht. destruct (H1 tc t Hs Ht) as (Ht2 & ? & ?). destruct (H2 tc t Hs Ht2) as (? & ? & ?). split; [done|]. split; [lia|auto].
Qed.
Lemma steady_refl skip g : gateway_ok g → steady skip g g.
Proof. split; [done|apply carries_refl]. Qed.
Lemma steady_trans skip g1 g2 g3 : steady skip g1 g2 → (gateway_ok g2 → steady skip g2 g3) → steady skip g1 g3.
Proof. intros [H1 C1] H2. destruct (H2 H1) as [H3 C2]. split; [done|by eapply carries_trans]. Qed.
Lemma steady_skip skip g g' : steady None g g' → steady skip g g'.
Proof. intros [Hg Hc]. split; [done|]. intros tc t _. by apply Hc. Qed.

(** The fields that the invariant reads. *)
Lemma same_steady skip g g' :
  gt_delivered g' = gt_delivered g → gt_trackers g' = gt_trackers g → gt_capacity g' = gt_capacity g → gt_recorders g' = gt_recorders g →
  gateway_ok g → steady skip g g'.
Proof.
  intros Hd Ht Hc Hr [H1 H2 H3 H4 H5 H6]. split.
  - constructor; unfold entry_closed, entry_of in *; rewrite ?Hd, ?Ht, ?Hc, ?Hr; done.
  - intros tc t _. unfold tracked, entry_closed, entry_of, count, tracker. rewrite Hd, Ht, Hc. done.
Qed.

Lemma closed_evolves d g g' id : evolves d (gt_capacity g) (gt_capacity g') → entry_closed g id → entry_closed g' id.
Proof. intros [H _ _] (e & (e' & He' & _ & Ht)%H & Hterm). exists e'. split; [done|auto]. Qed.
Lemma capacity_steady skip d m' g :
  gateway_ok g → mgr_ok m' → all_settled m' → evolves d (gt_capacity g) m' → (∀ rid, d = Some rid → gt_recorders g !! rid = None) →
  steady skip g (set_gt_capacity m' g).
Proof.
  intros [H1 H2 H3 H4 H5 H6] Hm Hs He Hd. pose proof He as [Hh Hents Hreqs].
  assert (∀ rid t, gt_recorders g !! rid = Some t → d ≠ Some rid) as Hnd by (intros rid t Hrt ->; by rewrite Hd in Hrt).
  split; [constructor; cbn; try done|].
  - intros rid t Hrt. destruct (H5 _ _ Hrt) as [? [r Hr]]. split; [done|]. destruct (Hreqs _ _ Hr (Hnd _ _ Hrt)) as (r' & ? & _). eauto.
  - intros rid t tc r' Hrt Htc Hr'. destruct (H5 _ _ Hrt) as [_ [r Hr]]. destruct (Hreqs _ _ Hr (Hnd _ _ Hrt)) as (r2 & Hr2 & Heq).
    rewrite Hr' in Hr2. injection Hr2 as <-. rewrite Heq. destruct (H6 _ _ _ _ Hrt Htc Hr) as [Hent|Hc].
    + destruct (Hents _ _ Hent) as [?|?]; [by left|by right].
    + right. by apply (closed_evolves d g (set_gt_capacity m' g)).
  - intros tc t _ Ht. split; [done|]. split; [done|]. intros id [Hc|(Hent & e & (e' & He' & ? & _)%Hh & Hle)].
    + left. by apply (closed_evolves d g (set_gt_capacity m' g)).
    + destruct (Hents _ _ Hent) as [?|?]; [|by left]. right. split; [done|]. exists e'. split; [done|]. change (count t (set_gt_capacity m' g)) with (count t g). lia.
Qed.
Lemma drop_recorder_steady skip g rid : gateway_ok g → steady skip g (set_gt_recorders (delete rid (gt_recorders g)) g).
Proof.
  intros [H1 H2 H3 H4 H5 H6]. split; [|by intros tc t _ Ht]. constructor; cbn; try done.
  - intros x t [_ Hx]%lookup_delete_Some. eauto.
  - intros x t tc r [_ Hx]%lookup_delete_Some. eauto.
Qed.
Lemma tracker_upd t t' f g :
  tracker t' (upd_tracker t f g) = if bool_decide (t' = t ∧ is_Some (gt_trackers g !! t)) then f (tracker t g) else tracker t' g.
Proof.
  unfold tracker, upd_tracker. cbn. case_bool_decide as H.
  - destruct H as [-> [d Hd]]. by rewrite lookup_alter_eq, Hd.
  - destruct (decide (t' = t)) as [->|]; [|by rewrite lookup_alter_ne by done]. rewrite lookup_alter_eq.
    destruct (gt_trackers g !! t); [|done]. exfalso. eauto.
Qed.
Lemma upd_tracker_ok t f g : gateway_ok g → gateway_ok (upd_tracker t f g).
Proof.
  assert (∀ x, is_Some (gt_trackers (upd_tracker t f g) !! x) ↔ is_Some (gt_trackers g !! x)) as Hdom by (intros x; apply lookup_alter_is_Some).
  intros [H1 H2 H3 H4 H5 H6]. constructor; try done.
  - intros tc x Hx. rewrite Hdom. eauto.
  - intros rid x Hx. rewrite Hdom. eauto.
Qed.
(** A change of a tracker that leaves its count. *)
Lemma upd_tracker_steady skip t f g : gateway_ok g → (∀ d, dl_count (f d) = dl_count d) → steady skip g (upd_tracker t f g).
Proof.
  intros Hg Hf. split; [by apply upd_tracker_ok|]. intros tc t' _ Ht. split; [done|].
  assert (count t' (upd_tracker t f g) = count t' g) as Heq.
  { unfold count. rewrite tracker_upd. case_bool_decide as H; [|done]. destruct H as [-> _]. apply Hf. }
  rewrite Heq. split; [done|]. intros id. unfold tracked. by rewrite Heq.
Qed.
Lemma delivery_steady {E} skip tc g :
  gateway_ok g → wp (delivery (E := E) tc) (λ r g', steady skip g g' ∧ gt_capacity g' = gt_capacity g ∧ gt_auth g' = gt_auth g ∧
    ∃ t, r = Ok t ∧ gt_delivered g' !! tc = Some t) g.
Proof.
  intros Hg. unfold delivery. op_step. destruct (gt_delivered g !! tc) as [t|] eqn:Ht; [apply wp_ret; split; [by apply steady_refl|eauto]|].
  op_step. apply wp_set, wp_ret. set (t := fresh _). assert (gt_trackers g !! t = None) as Hfresh by apply not_elem_of_dom, is_fresh.
  pose proof Hg as [H1 H2 H3 H4 H5 H6]. split; [|split; [done|split; [done|]]; exists t; split; [done|apply lookup_insert_eq]].
  assert (∀ x, gt_delivered g !! x ≠ Some t) as Hno by (intros x Hx; destruct (H3 _ _ Hx); congruence).
  split; [constructor; cbn; try done|].
  - intros x t' [[<- <-]|[_ Hx]]%lookup_insert_Some; [rewrite lookup_insert_eq; eauto|]. rewrite lookup_insert_ne; [eauto|]. intros <-. by apply (Hno x).
  - intros x y t' [[<- <-]|[_ Hx]]%lookup_insert_Some [[<- Hy']|[_ Hy]]%lookup_insert_Some; [done|by destruct (Hno y)|subst; by destruct (Hno x)|eauto].
  - intros rid t' Hr. destruct (H5 _ _ Hr) as [[d Hd] ?]. split; [|done]. rewrite lookup_insert_ne; [eauto|]. intros <-. congruence.
  - intros rid t' x r Hr [[<- <-]|[_ Hx]]%lookup_insert_Some Hreq; [|by eapply H6]. destruct (H5 _ _ Hr) as [[d Hd] _]. congruence.
  - intros x t' _ Hx. assert (x ≠ tc) by congruence. assert (t' ≠ t) by (intros ->; by apply (Hno x)).
    match goal with |- gt_delivered ?x !! _ = _ ∧ _ => set (g' := x) end.
    assert (count t' g' = count t' g) as Hc by (unfold count, tracker, g'; cbn; by rewrite lookup_insert_ne by done).
    unfold tracked. rewrite Hc. split; [|done]. unfold g'. cbn. by rewrite lookup_insert_ne.
Qed.

(** ** The calls *)

Definition deal_args (tc : string) (state : DealChainState) (deal : DealSubscription) : Prop := trim tc ≠ "" ∧ deal_typed state deal.
(** The arguments of a call have the ranges of their types; a deal that is registered has its own shape for every read. *)
Definition gateway_call_ok (c : GatewayCall (Pubkey := Pubkey)) g : Prop :=
  match c with
  | GRegister tc _ _ state deal _ _ | GReconcile tc state deal => deal_args tc state deal
  | GReconcileOrdinary tc state => ∀ limits, gt_limits g !! tc = Some limits → deal_args tc state (lm_deal limits)
  | GOpen _ _ r => 0 ≤ sr_billing_grant_tokens r ≤ umax u64
  | GComplete _ tokens _ => 0 ≤ tokens ≤ umax u64
  | _ => True
  end.
Definition registers (c : GatewayCall (Pubkey := Pubkey)) : option string :=
  match c with GRegister tc _ _ _ _ _ _ | GUnregister tc => Some tc | _ => None end.

Lemma cap_call_steady skip ft c g m' :
  gateway_ok g → call_typed c → gateway_call c = true → (∀ rid, call_drops c = Some rid → gt_recorders g !! rid = None) →
  (cap_step to_vec is_empty from_slice ft c (gt_capacity g)).2 = m' → steady skip g (set_gt_capacity m' g).
Proof.
  intros Hg Hc Hcall Hd <-. pose proof Hg as [Hm Hs _ _ _ _]. eapply capacity_steady; [done| | |by eapply cap_step_evolves|done].
  - destruct (cap_step _ _ _ ft c _) as [rep m'] eqn:Hstep. by eapply (step_safe to_vec is_empty from_slice from_slice_typed).
  - by apply cap_step_settles.
Qed.
Lemma on_capacity_steady {E A} skip ft c (op : Op Manager E A) g :
  gateway_ok g → call_typed c → gateway_call c = true → call_drops c = None →
  (op (gt_capacity g)).2 = (cap_step to_vec is_empty from_slice ft c (gt_capacity g)).2 → steady skip g (on_capacity op g).2.
Proof.
  intros Hg Hc Hcall Hd Hop. unfold on_capacity. destruct (op (gt_capacity g)) as [r m'] eqn:Hm. cbn in Hop |- *.
  eapply cap_call_steady; [done..| |done]. intros rid H. congruence.
Qed.
Lemma wp_steady {A B E} skip (op : Op (GatewayState (Pubkey := Pubkey) (Bytes := Bytes)) E A) (k : A → Op _ E B) g :
  steady skip g (op g).2 → (∀ a g', op g = (Ok a, g') → gateway_ok g' → steady skip g' (k a g').2) → steady skip g (op_bind op k g).2.
Proof.
  intros Hop Hk. unfold op_bind. destruct (op g) as [[a|e] g'] eqn:Hg; cbn in *; [|done]. eapply steady_trans; [exact Hop|]. intros ?. by apply Hk.
Qed.
Lemma read_steady {A E} skip (f : GatewayState → Result E A) g : gateway_ok g → steady skip g (op_read f g).2.
Proof. by apply steady_refl. Qed.
Lemma ret_steady {A E} skip (r : Result E A) g : gateway_ok g → steady skip g (op_ret r g).2.
Proof. by apply steady_refl. Qed.

Lemma reconcile_capacity_steady skip ft tc state deal g :
  gateway_ok g → deal_args tc state deal → steady skip g (reconcile_deal_capacity to_vec is_empty from_slice ft tc state deal g).2.
Proof.
  intros Hg Ha. unfold reconcile_deal_capacity. apply wp_steady; [by eapply (on_capacity_steady _ ft (CReconcile tc state deal))|].
  intros snap g1 _ Hg1. apply wp_steady; [by apply same_steady|]. intros ? g2 _ Hg2. by apply ret_steady.
Qed.

(** An admitted request is one of the deal's entry. *)
Lemma handed_out {m0 m1 : Manager (Bytes := Bytes)} {tc id e amount shared} (op : Op Slot ReserveError Z) rid m' :
  find_entry tc m0 = Some (id, e) → on_entry id e op m0 = (Ok amount, m1) → hand_out id amount shared m1 = (Ok rid, m') →
  mg_requests m' !! rid = Some (granted id amount shared) ∧ mg_entries m' !! tc = Some id.
Proof.
  intros [Hid He]%find_entry_Some Hop Hout. unfold hand_out, op_bind, op_read, op_write, op_ret in Hout. injection Hout as <- <-.
  cbn. split; [apply lookup_insert_eq|]. unfold on_entry in Hop. destruct (op _) as [r s]. injection Hop as _ <-. by rewrite put_slot_entries.
Qed.
Lemma admitted_request ft tc grant shared limit rid (m m' : Manager (Bytes := Bytes)) :
  admit_request to_vec ft tc grant shared limit m = (Ok rid, m') →
  ∃ id n, mg_requests m' !! rid = Some (granted id n shared) ∧ mg_entries m' !! tc = Some id.
Proof.
  unfold admit_request, admit_shared, reserve_exclusive, reserve_inner, lookup_entry, op_bind at 1, op_read at 1. destruct shared.
  - unfold op_bind at 1. destruct (find_entry tc m) as [[id e]|] eqn:Hf; cbn [ok_or fst snd]; [|done]. unfold op_bind.
    destruct (on_entry id e _ m) as [[amount|err] m1] eqn:He; [|done]. intros H. exists id, amount. by eapply handed_out.
  - destruct (grant =? 0); [done|]. unfold op_bind at 1, op_read at 1. destruct (find_entry tc m) as [[id e]|] eqn:Hf; cbn [ok_or fst snd]; [|done]. unfold op_bind.
    destruct (on_entry id e _ m) as [[amount|err] m1] eqn:He; [|done]. intros H. exists id, amount. by eapply handed_out.
Qed.
Lemma admit_request_step ft tc grant shared limit (m : Manager (Bytes := Bytes)) :
  ∃ c, call_drops c = None ∧ gateway_call c = true ∧ (0 ≤ grant ≤ umax u64 → call_typed c) ∧
    (admit_request to_vec ft tc grant shared limit m).2 = (cap_step to_vec is_empty from_slice ft c m).2.
Proof. destruct shared; [exists (CAdmitShared tc grant limit)|exists (CReserve tc grant true)]; done. Qed.

Lemma add_recorder_steady skip rid t tc r g :
  gateway_ok g → gt_delivered g !! tc = Some t → mg_requests (gt_capacity g) !! rid = Some r → mg_entries (gt_capacity g) !! tc = Some (rr_entry r) →
  steady skip g (set_gt_recorders (<[rid := t]> (gt_recorders g)) g).
Proof.
  intros [H1 H2 H3 H4 H5 H6] Ht Hr Hent. split; [|by intros x y _ Hx]. constructor; cbn; try done.
  - intros x y [[<- <-]|[_ Hx]]%lookup_insert_Some; [split; eauto|eauto].
  - intros x y tc' r' [[<- <-]|[_ Hx]]%lookup_insert_Some Hy Hr'; [|by eapply H6]. left.
    rewrite Hr in Hr'. injection Hr' as <-. by rewrite (H4 _ _ _ Hy Ht).
Qed.

(** ** A relay settles its request *)

Lemma with_request_steady skip ft c rid op g :
  gateway_ok g → call_typed c → gateway_call c = true → call_drops c = None →
  (∀ m, cap_step to_vec is_empty from_slice ft c m = report (with_request rid op m)) →
  steady skip g (set_gt_capacity (with_request rid op (gt_capacity g)).2 g).
Proof. intros Hg Hc Hcall Hd Hop. eapply (cap_call_steady skip ft c); [done..| |by rewrite Hop]. intros x Hx. congruence. Qed.

(** The tokens that a settled request reports can be added to the count of its tracker. *)
Lemma settled_request_steady skip ft c rid op t n g m' :
  gateway_ok g → call_typed c → gateway_call c = true → call_drops c = None → call_request c = Some rid →
  (∀ m, cap_step to_vec is_empty from_slice ft c m = report (with_request rid op m)) →
  gt_recorders g !! rid = Some t → with_request rid op (gt_capacity g) = (Ok n, m') →
  0 ≤ n ∧ steady skip g (upd_tracker t (set_count (count t g + n)) (set_gt_capacity m' g)).
Proof.
  intros Hg Hc Hcall Hd Hreq Hop Hrid Hrun. pose proof (with_request_steady skip ft c rid op g Hg Hc Hcall Hd Hop) as [Hg1 Hc1].
  rewrite Hrun in Hg1, Hc1. cbn [snd] in Hg1, Hc1. pose proof Hg as [Hm _ Hknown Hinj Hrec Hlink].
  destruct (Hrec _ _ Hrid) as [[d Hdd] [r Hr]]. destruct (mo_request _ Hm _ _ Hr) as [_ [e He]].
  destruct (request_call_refines to_vec is_empty from_slice ft c rid Hc Hreq) as (op' & Hop' & Href).
  assert (result_ok (with_request rid op' (gt_capacity g)).1 = Some n ∧ (with_request rid op' (gt_capacity g)).2 = m') as [Hok Hm'].
  { pose proof (Hop (gt_capacity g)) as H1. rewrite Hop', Hrun in H1. by injection H1. }
  destruct (with_request_moves _ _ rid r e op' Hr He (Href _ (slot_of e (gt_capacity g), r) (held_ok_of _ rid r e Hm Hr He)))
    as (e' & r' & Hstep & [Hheap Hents] & Hreqs). rewrite Hok, Hm' in *.
  pose proof (mo_entry _ Hm _ _ He) as Heok. pose proof (step_delivery _ _ _ _ _ _ n Hstep eq_refl) as Hdel.
  pose proof (step_delivery_mono _ _ _ _ _ _ Heok Hstep) as Hmono. assert (0 ≤ n) as Hn by lia. split; [done|].
  split; [by apply upd_tracker_ok|]. intros tc x Hs Hx. destruct (Hc1 tc x Hs Hx) as (Hx1 & _ & Htr). split; [done|].
  set (g' := upd_tracker t _ _). assert (count x g' = if bool_decide (x = t) then count x g + n else count x g) as Hcount.
  { unfold count, g'. rewrite tracker_upd. destruct (decide (x = t)) as [->|].
    - rewrite bool_decide_eq_true_2 by (split; [done|by exists d]). by rewrite bool_decide_eq_true_2 by done.
    - rewrite !bool_decide_eq_false_2 by naive_solver. done. }
  split; [rewrite Hcount; case_bool_decide; lia|]. intros id Hid.
  assert (entry_closed g' id ∨ mg_entries m' !! tc = Some id ∧ ∃ e0, mg_heap m' !! id = Some e0 ∧ count x g' ≤ entry_delivery e0) as Hgoal; [|exact Hgoal].
  destruct (Htr id Hid) as [Hcl|(Hent & e0 & He0 & Hle)]; [by left|]. change (count x (set_gt_capacity m' g)) with (count x g) in Hle.
  rewrite Hcount. case_bool_decide as Hxt; [subst x|right; split; [done|]; by exists e0].
  destruct Hid as [(ec & Hec & Hterm)|(Hent0 & ec & Hec & Hlec)].
  { left. apply (closed_evolves None g (set_gt_capacity m' g)); [|by exists ec]. cbn. rewrite <- Hm'.
    eapply request_evolves; [done|]. intros. by apply Href with others. }
  destruct (Hlink _ _ _ _ Hrid Hx Hr) as [Hent'|(ec' & Hec' & Hterm)].
  - right. split; [done|]. assert (rr_entry r = id) as <- by congruence. unfold entry_of in He0, Hec; cbn in He0; rewrite Hheap, lookup_insert_eq in He0. injection He0 as <-.
    exists e'. rewrite He in Hec. injection Hec as <-. rewrite Hheap, lookup_insert_eq. split; [done|lia].
  - unfold entry_of in Hec'. rewrite He in Hec'. injection Hec' as <-. assert (n = 0) as -> by by eapply terminal_reports_nothing.
    right. split; [done|]. exists e0. split; [done|lia].
Qed.
Lemma publish_steady skip rid t g : gateway_ok g → steady skip g (publish_done rid t g).
Proof. intros Hg. by apply upd_tracker_steady. Qed.

Lemma on_request_refused {A} rid op g (k : Z → Op (GatewayState (Pubkey := Pubkey) (Bytes := Bytes)) WireStatus A) skip :
  gateway_ok g → steady skip g (set_gt_capacity (with_request rid op (gt_capacity g)).2 g) →
  (∀ n m', with_request rid op (gt_capacity g) = (Ok n, m') → steady skip g (k n (set_gt_capacity m' g)).2) →
  steady skip g ((do n <- op_map_err capacity_status (on_capacity (with_request rid op)); k n) g).2.
Proof.
  intros Hg Hs Hk. unfold op_bind, op_map_err, on_capacity. destruct (with_request rid op (gt_capacity g)) as [[n|err] m'] eqn:Hrun; cbn in *; eauto.
Qed.
Lemma complete_request_steady skip ft rid t tokens exhausted g :
  gateway_ok g → gt_recorders g !! rid = Some t → 0 ≤ tokens ≤ umax u64 →
  steady skip g (complete_request to_vec ft rid t tokens exhausted g).2.
Proof.
  intros Hg Hrid Ht. unfold complete_request. apply wp_steady; [by apply read_steady|]. intros before g1 [= <- <-] _.
  apply wp_steady; [by apply read_steady|]. intros x g1 [= Hx <-] _. apply on_request_refused; [done| |].
  { by apply (with_request_steady skip ft (CFinishWithDelivery rid tokens)). }
  intros n m' Hrun. destruct (settled_request_steady skip ft (CFinishWithDelivery rid tokens) rid _ t n g m' Hg Ht eq_refl eq_refl eq_refl
    ltac:(done) Hrid Hrun) as [_ Hst].
  unfold op_bind at 1, op_write at 1. eapply steady_trans; [exact Hst|]. intros Hg2.
  apply wp_steady; [by apply upd_tracker_steady|]. intros ? g3 _ Hg3.
  apply wp_steady; [by apply publish_steady|]. intros ? g4 _ Hg4. by apply ret_steady.
Qed.
(** A request that ends without a bill counts nothing. *)
Lemma finish_request_quiet ft rid finish g n m' :
  gateway_ok g → with_request rid (match finish with Interrupted => finish_exact to_vec ft | AmbiguousUsage => finish_ambiguous to_vec ft end)
    (gt_capacity g) = (Ok n, m') → n = 0.
Proof.
  intros [Hm Hs _ _ _ _] Hrun. destruct finish.
  - pose proof (with_request_settles rid _ _ _ Hm Hs (finish_exact_settles to_vec ft)) as [_ H]. rewrite Hrun in H. by apply H.
  - pose proof (with_request_settles rid _ _ _ Hm Hs (finish_ambiguous_settles to_vec ft)) as [_ H]. rewrite Hrun in H. by apply H.
Qed.
Lemma finish_request_steady skip ft rid t finish g :
  gateway_ok g → steady skip g (finish_request to_vec ft rid t finish g).2.
Proof.
  intros Hg. unfold finish_request. apply on_request_refused; [done| |].
  { destruct finish; [by apply (with_request_steady skip ft (CFinishExact rid))|by apply (with_request_steady skip ft (CFinishAmbiguous rid))]. }
  intros n m' Hrun. assert (n = 0) as -> by by eapply finish_request_quiet.
  assert (steady skip g (set_gt_capacity m' g)) as Hst.
  { replace m' with (with_request rid (match finish with Interrupted => finish_exact to_vec ft | AmbiguousUsage => finish_ambiguous to_vec ft end) (gt_capacity g)).2
      by (by rewrite Hrun).
    destruct finish; [by apply (with_request_steady skip ft (CFinishExact rid))|by apply (with_request_steady skip ft (CFinishAmbiguous rid))]. }
  eapply steady_trans; [exact Hst|]. intros Hg1. cbn. by apply publish_steady.
Qed.
Lemma drop_steady skip rid g : gateway_ok g → steady skip g (drop_recorder rid g).
Proof.
  intros Hg. unfold drop_recorder.
  change (set_gt_recorders _ _) with (set_gt_capacity (drop_request rid (gt_capacity g)) (set_gt_recorders (delete rid (gt_recorders g)) g)).
  eapply steady_trans; [by apply drop_recorder_steady|]. intros Hg1.
  eapply (cap_call_steady skip no_capacity_faults (CDrop rid)); [done..| |done]. intros x [= <-]. apply lookup_delete_eq.
Qed.

(** ** Opening and registering *)

Lemma authorize_steady skip r g : gateway_ok g → steady skip g (authorize verify r g).2.
Proof. intros Hg. unfold authorize. destruct (verify_response _ _ _ _ _) as [valid auth]. by apply same_steady. Qed.
Lemma delivery_steps {E A} skip tc (k : nat → Op (GatewayState (Pubkey := Pubkey) (Bytes := Bytes)) E A) g :
  gateway_ok g → (∀ t g', gateway_ok g' → gt_delivered g' !! tc = Some t → steady skip g' (k t g').2) →
  steady skip g ((do t <- delivery tc; k t) g).2.
Proof.
  intros Hg Hk. pose proof (delivery_steady (E := E) skip tc g Hg) as H. unfold wp, op_bind in *.
  destruct (delivery tc g) as [res g']. cbn in H. destruct H as (Hst & _ & _ & t & -> & Ht). eapply steady_trans; [exact Hst|]. intros. by apply Hk.
Qed.
Lemma open_stream_steady skip ft unix_now now r g :
  gateway_ok g → 0 ≤ sr_billing_grant_tokens r ≤ umax u64 → steady skip g (open_stream verify from_slice_json to_vec ft unix_now now r g).2.
Proof.
  intros Hg Hr. unfold open_stream. do 3 (destruct (_ : bool); [by apply ret_steady|]).
  apply wp_steady; [by apply authorize_steady|]. intros _a g1 _ Hg1. apply wp_steady; [by apply read_steady|]. intros u g2 [= _ <-] _.
  destruct u; [by apply ret_steady|]. apply wp_steady; [by apply read_steady|]. intros limits g2 [= _ <-] _.
  apply wp_steady; [by apply read_steady|]. intros upstream g2 [= _ <-] _. apply wp_steady; [by apply ret_steady|]. intros request g2 [= _ <-] _.
  destruct (_ && _); [by apply ret_steady|]. apply delivery_steps; [done|]. intros t g2 Hg2 Ht.
  apply wp_steady; [by apply read_steady|]. intros exhausted g3 [= _ <-] _. destruct exhausted; [by apply read_steady|].
  apply wp_steady; [by apply read_steady|]. intros limit g3 [= _ <-] _.
  destruct (admit_request_step ft (sr_token_contract r) (sr_billing_grant_tokens r) (sr_shared_budget r) limit (gt_capacity g2)) as (c & Hd & Hc & Hty & Hcall).
  apply wp_steady.
  { eapply (on_capacity_steady _ ft c); [done|by apply Hty|done|done|]. rewrite <- Hcall. by destruct (admit_request _ _ _ _ _ _). }
  intros admitted g3 Hadm Hg3. unfold on_capacity in Hadm.
  destruct (admit_request to_vec ft _ _ _ limit (gt_capacity g2)) as [res m'] eqn:Hres. injection Hadm as <- <-.
  destruct res as [rid|err]; [|by apply wp_steady; [apply read_steady|intros ? ? [=]]]. apply wp_steady; [by apply read_steady|]. intros rid' g4 [= <- <-] _.
  apply admitted_request in Hres as (id & n & Hreq & Hent).
  apply wp_steady; [|intros ? g4 _ Hg4; by apply read_steady]. by apply (add_recorder_steady skip rid t (sr_token_contract r) (granted id n (sr_shared_budget r))).
Qed.

(** The deal itself may count anew; all others are as they were. *)
Lemma other_tracker_steady tc t f g :
  gateway_ok g → gt_delivered g !! tc = Some t → steady (Some tc) g (upd_tracker t f g).
Proof.
  intros Hg Ht. split; [by apply upd_tracker_ok|]. intros tc' x Hne Hx. split; [done|].
  assert (x ≠ t) as Hxt by (intros ->; apply Hne; f_equal; by eapply (go_inj _ Hg)).
  assert (count x (upd_tracker t f g) = count x g) as Heq by (unfold count; by rewrite tracker_upd, bool_decide_eq_false_2 by naive_solver).
  unfold tracked. by rewrite Heq.
Qed.
Lemma register_spec ft tc pubkey mock_tokens state deal bounds now g :
  gateway_ok g → deal_args tc state deal →
  wp (register_stream_with_claim_bounds to_vec is_empty from_slice ft tc pubkey mock_tokens state deal bounds now)
    (λ res g', steady (Some tc) g g' ∧ (res = Ok () → ∃ t id e, gt_delivered g' !! tc = Some t ∧ mg_entries (gt_capacity g') !! tc = Some id ∧
       entry_of g' id = Some e ∧ count t g' = entry_delivery e)) g.
Proof.
  intros Hg [Htc Hdeal]. unfold register_stream_with_claim_bounds. apply wp_bind.
  assert (steady (Some tc) g (on_capacity (reconcile_deal to_vec is_empty from_slice ft tc state deal) g).2) as H1
    by by eapply (on_capacity_steady _ ft (CReconcile tc state deal)).
  pose proof (reconcile_evolves to_vec is_empty from_slice from_slice_typed None ft tc state deal _ (go_mgr _ Hg) Htc Hdeal) as [_ Hsnap].
  unfold wp at 1. unfold on_capacity in *.
  destruct (reconcile_deal _ _ _ ft tc state deal (gt_capacity g)) as [[[snap|]|err] m'] eqn:Hrec; cbn [fst snd] in *; [|by split|by split].
  set (g1 := set_gt_capacity m' g) in *. destruct (Hsnap snap eq_refl) as (id & e & Hid & He & ->). pose proof (proj1 H1) as Hg1.
  op_step; [|by split]. op_step; [|by split]. cbv zeta. op_step. op_step. set (g2 := set_gt_auth _ _).
  assert (steady (Some tc) g1 g2) as H2 by by apply same_steady.
  pose proof (delivery_steady (E := text) (Some tc) tc g2 (proj1 H2)) as H3. apply wp_bind. unfold wp in H3. unfold wp at 1.
  destruct (delivery tc g2) as [rt g3]. cbn [fst snd] in H3. destruct H3 as (H3 & Hcap & _ & t & -> & Ht).
  unfold wp, op_write. cbn [fst snd]. pose proof (proj1 H3) as Hg3. split.
  { eapply steady_trans; [exact H1|]. intros _. eapply steady_trans; [exact H2|]. intros _. eapply steady_trans; [exact H3|]. intros _. by apply other_tracker_steady. }
  intros _. exists t, id, e. split; [done|]. unfold entry_of. cbn [gt_capacity upd_tracker set_gt_trackers]. rewrite Hcap. do 2 (split; [done|]).
  destruct (go_known _ Hg3 _ _ Ht) as [d Hdd]. unfold count. rewrite tracker_upd, bool_decide_eq_true_2 by (split; [done|by exists d]). cbn.
  match goal with H : ok_or (Some _) _ = Ok ?a |- _ => injection H as <- end.
  match goal with H : context [checked_add u128] |- _ => apply ok_or_Ok, obind_Some in H as (x & Hx & Hto) end.
  apply checked_add_Some in Hx as [-> _]. cbn in Hto. unfold try_into in Hto. destruct (_ <=? _); [|done]. by injection Hto as <-.
Qed.
Lemma unregister_steady tc g : gateway_ok g → steady (Some tc) g (unregister_stream tc g).
Proof.
  intros Hg. unfold unregister_stream. set (g1 := if gt_chain_unavailable g then _ else _).
  assert (steady (Some tc) g g1) as H1 by (unfold g1; destruct (gt_chain_unavailable g); [by apply steady_refl|by apply same_steady]).
  eapply steady_trans; [exact H1|]. intros [K1 K2 K3 K4 K5 K6]. split; [constructor; cbn; try done|].
  - intros x t [_ Hx]%lookup_delete_Some. eauto.
  - intros x y t [_ Hx]%lookup_delete_Some [_ Hy]%lookup_delete_Some. eauto.
  - intros rid t x r Hr [_ Hx]%lookup_delete_Some. by eapply K6.
  - intros x t Hne Hx. cbn. rewrite lookup_delete_ne by congruence. done.
Qed.
Lemma gateway_step_steady ft c g :
  gateway_ok g → gateway_call_ok c g → steady (registers c) g (gateway_step verify from_slice_json to_vec is_empty from_slice ft c g).
Proof.
  intros Hg Hc. destruct c as [tc pubkey n state deal bounds now|tc|tc upstream|tc state deal|tc state|tc delay now|tc n|tc|action| |tc nonce caps
    |unix_now now r|rid tokens exhausted|rid finish|rid]; cbn [gateway_step registers] in *; try (by apply same_steady).
  - by apply (register_spec ft tc pubkey n state deal bounds now g Hg Hc).
  - by apply unregister_steady.
  - by apply reconcile_capacity_steady.
  - unfold reconcile_ordinary_capacity. apply wp_steady; [by apply read_steady|]. intros limits g1 [= Hl <-] _.
    apply ok_or_Ok in Hl. destruct (is_subscription _); [by apply ret_steady|]. apply reconcile_capacity_steady; [done|]. by apply Hc.
  - eapply (on_capacity_steady _ ft (CPrepareProbe tc n)); done.
  - eapply (on_capacity_steady _ ft (CMarkTerminal tc)); done.
  - unfold report_chain_unavailable. destruct (gt_keep_serving g); [by apply steady_refl|by apply same_steady].
  - unfold get_challenge. destruct caps; [by apply steady_refl|by apply same_steady].
  - by apply open_stream_steady.
  - unfold with_recorder. destruct (gt_recorders g !! rid) as [t|] eqn:Ht; [by apply complete_request_steady|by apply steady_refl].
  - unfold with_recorder. destruct (gt_recorders g !! rid) as [t|]; [by apply finish_request_steady|by apply steady_refl].
  - unfold with_recorder. destruct (gt_recorders g !! rid) as [t|]; [by apply drop_steady|by apply steady_refl].
Qed.

(** ** Runs *)

Fixpoint gateway_run (calls : list (CapacityFaults * GatewayCall)) g : GatewayState :=
  match calls with
  | [] => g
  | (ft, c) :: calls => gateway_run calls (gateway_step verify from_slice_json to_vec is_empty from_slice ft c g)
  end.
Fixpoint run_ok (calls : list (CapacityFaults * GatewayCall)) g : Prop :=
  match calls with
  | [] => True
  | (ft, c) :: calls => gateway_call_ok c g ∧ run_ok calls (gateway_step verify from_slice_json to_vec is_empty from_slice ft c g)
  end.
Lemma gateway_run_app calls calls' g : gateway_run (calls ++ calls') g = gateway_run calls' (gateway_run calls g).
Proof. revert g. induction calls as [|[ft c] calls IH]; intros g; cbn; [done|apply IH]. Qed.
Lemma fresh_gateway_ok upstream store_dir files limit : gateway_ok (gateway_with upstream (fresh_manager store_dir files) limit).
Proof. by repeat constructor. Qed.
Lemma gateway_run_ok calls g : gateway_ok g → run_ok calls g → gateway_ok (gateway_run calls g).
Proof.
  revert g. induction calls as [|[ft c] calls IH]; intros g Hg Hc; cbn in *; [done|]. destruct Hc as [Hc Hcalls].
  apply IH; [|done]. by apply gateway_step_steady.
Qed.
Lemma gateway_run_carries tc t calls g :
  gateway_ok g → run_ok calls g → Forall (λ c, registers c.2 ≠ Some tc) calls → gt_delivered g !! tc = Some t →
  gt_delivered (gateway_run calls g) !! tc = Some t ∧ count t g ≤ count t (gateway_run calls g) ∧
  ∀ id, tracked tc t id g → tracked tc t id (gateway_run calls g).
Proof.
  revert g. induction calls as [|[ft c] calls IH]; intros g Hg Hc Hr Ht; cbn in *; [done|]. destruct Hc as [Hc Hcalls].
  apply Forall_cons in Hr as [Hr Hrs]. cbn in Hr. destruct (gateway_step_steady ft c g Hg Hc) as [Hg1 Hcar].
  destruct (Hcar tc t Hr Ht) as (Ht1 & Hle1 & Htr1). destruct (IH _ Hg1 Hcalls Hrs Ht1) as (Ht2 & Hle2 & Htr2).
  split; [done|]. split; [lia|auto].
Qed.
End Tracking.
