(* ===== verification/GatewayProps.v ===== *)
(** * What the seller's gateway promises

    A challenge admits one stream; a relay passes on what the provider sent and settles its
    request once; the count of a deal follows the ledger of delivered tokens. *)
From S2P Require Import Prelude RustText ApiFormat SseFrames Params Address DealTypes Recovery UsageData Capacity Meter Relay.
From S2P Require Import CapacityInv CapacityEntry CapacityReach CapacityRun CapacityProps Gateway GatewayInv.
From Stdlib Require Import Strings.Ascii.

#[local] Arguments umax : simpl never.

(** ** A relay *)

Definition event_frame (e : UpstreamEvent) : option StreamFrame :=
  match e with Head head => Some (head_frame head) | Data b _ => Some (data_frame b) | Usage _ => None end.
Definition carries_output (e : UpstreamEvent) : bool := match e with Data _ output => output | _ => false end.
Definition upstream_items (events : list UpstreamEvent) : list RelayItem := map (λ e, Upstream (Ok e)) events.
(** The frames of [events] behind what was already sent. *)
Definition sent_on (o : FrameBox) (events : list UpstreamEvent) : list (Result WireStatus StreamFrame) :=
  fb_sent o ++ map Ok (omap event_frame events).

Section RelayProps.
Context (show_text : text → string) (token_contract : string) (grant : Z).

Record passed (o : FrameBox) (events : list UpstreamEvent) (st : GatewayRelay) : Prop := {
  pa_sent : fb_sent (gr_box st) = sent_on o events;
  pa_output : gr_saw_output st = existsb carries_output events;
  pa_usage : ∀ u, gr_terminal_usage st = Some u → Usage u ∈ events ∧ BillingUsage_validate u = Ok () ∧
    gr_billing_exhausted st = (non_cached_tokens u >? grant) ∧ existsb carries_output events = true;
}.
(** A turn after [events]: what was sent, and whether the bill of a broken request is known to be nothing. *)
Definition turned (o : FrameBox) (events : list UpstreamEvent) (turn : Turn) : Prop :=
  match turn with
  | Going st => passed o events st
  | Over finish error failure o' => fb_sent o' = sent_on o events ∧ (finish = AmbiguousUsage → existsb carries_output events = true)
  end.

Lemma box_send_Some item o o' : box_send item o = Some o' → fb_sent o' = fb_sent o ++ [item].
Proof. unfold box_send. destruct (fb_room o); [done|]. by intros [= <-]. Qed.
Lemma sent_on_snoc o events e : sent_on o (events ++ [e]) = sent_on o events ++ map Ok (option_list (event_frame e)).
Proof. unfold sent_on. rewrite omap_app, map_app, app_assoc. cbn. by destruct (event_frame e). Qed.
Lemma output_snoc events e : existsb carries_output (events ++ [e]) = existsb carries_output events || carries_output e.
Proof. rewrite existsb_app. cbn. by rewrite orb_false_r. Qed.
Lemma broken_turned o events error st : passed o events st → turned o events (broken error st).
Proof. intros [H1 H2 H3]. split; [done|]. rewrite <- H2. unfold unfinished_delivery_finish. by destruct (gr_saw_output st). Qed.

(** Either the event went on, or the request is over without it. *)
Lemma relay_item_turned o events item st :
  passed o events st →
  match relay_item show_text token_contract grant item st with
  | Going st' => ∃ e, item = Upstream (Ok e) ∧ passed o (events ++ [e]) st'
  | over => turned o events over
  end.
Proof.
  intros Hp. pose proof Hp as [H1 H2 H3]. destruct item as [[[head|b output|u]|s]|]; cbn [relay_item].
  - unfold relay_head, refused. destruct (bool_decide _); [by apply broken_turned|].
    destruct (box_send _ _) as [o'|] eqn:Hbox; [|exact (broken_turned o events _ st Hp)]. apply box_send_Some in Hbox.
    exists (Head head). split; [done|]. constructor; cbn; [by rewrite sent_on_snoc, Hbox, H1|by rewrite output_snoc, orb_false_r|].
    intros u (? & ? & ? & Ho)%H3. rewrite output_snoc, Ho. split; [apply elem_of_app; by left|done].
  - unfold relay_data, refused. destruct (gr_head_status st); [|exact (broken_turned o events _ st Hp)].
    destruct (bool_decide _); [by apply broken_turned|]. destruct (box_send _ _) as [o'|] eqn:Hbox; [|exact (broken_turned o events _ st Hp)].
    apply box_send_Some in Hbox. exists (Data b output). split; [done|].
    constructor; cbn; [by rewrite sent_on_snoc, Hbox, H1|by rewrite output_snoc, H2|].
    intros u (? & ? & ? & Ho)%H3. rewrite output_snoc, Ho. split; [apply elem_of_app; by left|done].
  - unfold relay_usage, refused. destruct (bool_decide _); [by apply broken_turned|].
    destruct (BillingUsage_validate u) as [[]|e] eqn:Hv; [|exact (broken_turned o events _ st Hp)]. destruct (negb _); [by apply broken_turned|].
    destruct (_ || _) eqn:Hout; [by split|]. apply orb_false_iff in Hout as [Hout%negb_false_iff _]. exists (Usage u). split; [done|].
    constructor; cbn; [by rewrite sent_on_snoc, app_nil_r, H1|by rewrite output_snoc, orb_false_r|].
    intros u' [= <-]. cbn in Hout. rewrite output_snoc, <- H2, Hout. split_and!; [apply elem_of_app; right; apply list_elem_of_here|done..].
  - split; [done|]. rewrite <- H2. unfold unfinished_delivery_finish. by destruct (gr_saw_output st).
  - exact (broken_turned o events _ st Hp).
Qed.
Lemma relay_loop_turned o items st events :
  passed o events st → ∃ more rest, items = upstream_items more ++ rest ∧
    turned o (events ++ more) (relay_loop show_text token_contract grant items st) ∧
    (∀ st', relay_loop show_text token_contract grant items st = Going st' → rest = []).
Proof.
  revert st events. induction items as [|item items IH]; intros st events Hp.
  { exists [], []. rewrite (app_nil_r events). split_and!; [done|exact Hp|done]. }
  pose proof (relay_item_turned o events item st Hp) as Ht. cbn [relay_loop].
  destruct (relay_item show_text token_contract grant item st) as [st'|finish error failure o'] eqn:Hitem.
  - destruct Ht as (e & -> & Hp'). destruct (IH st' _ Hp') as (more & rest & -> & Hturn & Hrest).
    exists (e :: more), rest. rewrite <- app_assoc in Hturn. done.
  - exists [], (item :: items). rewrite (app_nil_r events). done.
Qed.
Lemma start_passed o : passed o [] (gr_start o).
Proof. constructor; cbn; [unfold sent_on; by rewrite app_nil_r|done|done]. Qed.

Section Recorded.
Context {S : Type} `{Recorder S}.

(** The two ends of a request. *)
Definition billed_end (o : FrameBox) (events : list UpstreamEvent) (s : S) (rd : Relayed) (s' : S) : Prop :=
  ∃ u charged, let tokens := Z.min (non_cached_tokens u) grant in
    Usage u ∈ events ∧ BillingUsage_validate u = Ok () ∧ existsb carries_output events = true ∧ tokens ≠ 0 ∧
    complete_billing tokens (non_cached_tokens u >? grant) s = (Ok charged, s') ∧
    fb_sent (rd_box rd) = sent_on o events ++ [Ok (usage_frame (released u charged (shared_budget s')))].
Definition unbilled_end (o : FrameBox) (events : list UpstreamEvent) (s : S) (rd : Relayed) (s' : S) : Prop :=
  ∃ finish s1 error,
    (s1 = s ∨ ∃ u exhausted status, complete_billing (Z.min (non_cached_tokens u) grant) exhausted s = (Err status, s1)) ∧
    s' = (record_finished finish s1).2 ∧ (finish = AmbiguousUsage → existsb carries_output events = true) ∧
    fb_sent (rd_box rd) = sent_on o events ++ option_list (Err <$> error).

Lemma send_error_sent error o : ∃ shown, fb_sent (send_error error o) = fb_sent o ++ option_list (Err <$> shown).
Proof.
  unfold send_error. destruct error as [s|]; [|exists None; by rewrite app_nil_r].
  destruct (box_send (Err s) o) as [o'|] eqn:Hb; cbn; [exists (Some s); by apply box_send_Some in Hb|exists None; by rewrite app_nil_r].
Qed.
Lemma finish_relay_end o events finish error failure o' s1 s :
  fb_sent o' = sent_on o events → (finish = AmbiguousUsage → existsb carries_output events = true) →
  (s1 = s ∨ ∃ u exhausted status, complete_billing (Z.min (non_cached_tokens u) grant) exhausted s = (Err status, s1)) →
  unbilled_end o events s (finish_relay finish error failure o' s1).1 (finish_relay finish error failure o' s1).2.
Proof.
  intros Ho Hf Hs. unfold finish_relay. destruct (shared_budget s1); cbn.
  - destruct (send_error_sent error o') as [shown Hsh]. exists finish, s1, shown. cbn [rd_box fst snd]. rewrite Hsh, Ho. done.
  - destruct (record_finished finish s1) as [r s2] eqn:Hr. set (error' := match error with Some _ => error | None => _ end).
    destruct (send_error_sent error' o') as [shown Hsh]. exists finish, s1, shown. cbn [rd_box fst snd]. rewrite Hsh, Ho, Hr. done.
Qed.
Lemma finish_turn_end o events turn s1 s :
  turned o events turn → (s1 = s ∨ ∃ u exhausted status, complete_billing (Z.min (non_cached_tokens u) grant) exhausted s = (Err status, s1)) →
  unbilled_end o events s (finish_turn turn s1).1 (finish_turn turn s1).2.
Proof.
  intros Ht Hs. destruct turn as [st|finish error failure o']; cbn [finish_turn].
  - destruct Ht as [H1 H2 _]. apply finish_relay_end; [done| |done]. rewrite <- H2. unfold unfinished_delivery_finish. by destruct (gr_saw_output st).
  - destruct Ht. by apply finish_relay_end.
Qed.
Lemma relay_counting_ends items o s :
  ∃ events rest, items = upstream_items events ++ rest ∧
    let r := relay_counting show_text token_contract grant items o s in
    billed_end o events s r.1 r.2 ∨ unbilled_end o events s r.1 r.2.
Proof.
  destruct (relay_loop_turned o items (gr_start o) [] (start_passed o)) as (events & rest & Hitems & Ht & Hr).
  exists events, rest. split; [done|]. cbv zeta. cbn [app] in Ht. unfold relay_counting.
  destruct (relay_loop show_text token_contract grant items (gr_start o)) as [st|finish error failure o']; [|right; by apply finish_turn_end; [|left]].
  pose proof Ht as [H1 H2 H3]. unfold close_relay. destruct (let* code := gr_head_status st in _) as [code|].
  { right. apply finish_relay_end; [done|done|by left]. }
  destruct (gr_terminal_usage st) as [u|] eqn:Hu; [|right; apply finish_turn_end; [exact (broken_turned o events _ st Ht)|by left]].
  cbv zeta. destruct (Z.eqb_spec (Z.min (non_cached_tokens u) grant) 0) as [H0|H0]; [right; apply finish_turn_end; [exact (broken_turned o events _ st Ht)|by left]|].
  destruct (fb_room (gr_box st)) as [|room] eqn:Hroom; [right; apply finish_turn_end; [exact (broken_turned o events _ st Ht)|by left]|].
  destruct (complete_billing _ _ s) as [[charged|status] s1] eqn:Hb; [|right; apply finish_turn_end; [exact (broken_turned o events _ st Ht)|right; eauto]].
  destruct (H3 u eq_refl) as (Hin & Hv & Hex & Hout). left. exists u, charged. cbv zeta. rewrite Hex in Hb. unfold box_send. rewrite Hroom. cbn.
  rewrite H1. split_and!; try done.
Qed.
End Recorded.
End RelayProps.

Section Service.
Context {Pubkey Bytes : Type} (verify : Pubkey → string → bytes → bool) (from_slice_json : bytes → Result string Value)
  (to_vec : DurableCapacityRecord → Bytes) (is_empty : Bytes → bool) (from_slice : Bytes → Result text DurableCapacityRecord)
  (show_text : text → string).
Context (from_slice_typed : codec_typed from_slice).
Implicit Types (g : GatewayState (Pubkey := Pubkey) (Bytes := Bytes)) (ft : CapacityFaults).

(** ** A bill is counted *)

(** The tokens that the frames of a stream charge. *)
Definition frame_bill (item : Result WireStatus StreamFrame) : Z :=
  match item with Ok frame => match sf_usage frame with Some u => billable_tokens u | None => 0 end | Err _ => 0 end.
Definition sent_bill (o : FrameBox) : Z := zsum frame_bill (fb_sent o).

Lemma passed_bill o events : zsum frame_bill (sent_on o events) = sent_bill o.
Proof.
  unfold sent_on, sent_bill. rewrite zsum_app. enough (zsum frame_bill (map Ok (omap event_frame events)) = 0) by lia.
  induction events as [|e events IH]; [done|]. by destruct e.
Qed.
Lemma released_bill u charged shared : bu_charged_tokens u = None → billable_tokens (released u charged shared) = charged.
Proof.
  intros Hu. unfold released. destruct (_ || _) eqn:H; [done|]. unfold billable_tokens. rewrite Hu. cbn.
  apply orb_false_iff in H as [_ H%negb_false_iff]. lia.
Qed.

Lemma usage_bill o events u : zsum frame_bill (sent_on o events ++ [Ok (usage_frame u)]) = sent_bill o + billable_tokens u.
Proof.
  rewrite zsum_app, passed_bill, zsum_cons. change (zsum frame_bill []) with 0.
  change (frame_bill (Ok (usage_frame u))) with (billable_tokens u). lia.
Qed.
Lemma error_bill o events error : zsum frame_bill (sent_on o events ++ option_list (Err <$> error)) = sent_bill o.
Proof. rewrite zsum_app, passed_bill. assert (zsum frame_bill (option_list (Err <$> error)) = 0) as -> by by destruct error. lia. Qed.

Lemma settled_reports e r stick n e' r' : settled e → request_ok r → reservation_step stick e r (Some n) e' r' → n ≤ rr_remaining r.
Proof. unfold settled. intros Hs [? _] Hstep. inversion Hstep; subst; lia. Qed.
Lemma settled_refusal e r e' r' : settled e → reservation_step false e r None e' r' → entry_delivery e' = entry_delivery e.
Proof. unfold settled. intros Hs Hstep. inversion Hstep; subst; try done. by rewrite flush_entry_0. Qed.

(** What a settled request adds to its entry. *)
Definition request_adds (rid : nat) (n : Z) g g' : Prop := ∃ r e e',
  mg_requests (gt_capacity g) !! rid = Some r ∧ entry_of g (rr_entry r) = Some e ∧ entry_of g' (rr_entry r) = Some e' ∧
  entry_delivery e' = entry_delivery e + n ∧ 0 ≤ n ≤ rr_remaining r ∧
  ∃ r', mg_requests (gt_capacity g') !! rid = Some r' ∧ rr_entry r' = rr_entry r.
Lemma request_adds_refl rid t g : gateway_ok g → gt_recorders g !! rid = Some t → request_adds rid 0 g g.
Proof.
  intros Hg Hrid. destruct (go_recorder _ Hg _ _ Hrid) as [_ [r Hr]]. destruct (mo_request _ (go_mgr _ Hg) _ _ Hr) as [Hq [e He]].
  pose proof (qo_remaining _ Hq). exists r, e, e. split_and!; try done; try lia. eauto.
Qed.
Lemma request_adds_trans rid n g1 g2 g3 : request_adds rid 0 g1 g2 → request_adds rid n g2 g3 → n = 0 → request_adds rid 0 g1 g3.
Proof.
  intros (r & e & e2 & Hr & He & He2 & Hd & Hn & r2 & Hr2 & Hid) (r2' & e2' & e3 & Hr2' & He2' & He3 & Hd' & Hn' & r3 & Hr3 & Hid') ->.
  rewrite Hr2 in Hr2'. injection Hr2' as <-. rewrite Hid in *. rewrite He2 in He2'. injection He2' as <-.
  exists r, e, e3. split_and!; try done; try lia. exists r3. split; [done|congruence].
Qed.
Lemma request_run ft c rid t op g res m' :
  gateway_ok g → call_typed c → gateway_call c = true → call_request c = Some rid →
  (∀ m, cap_step to_vec is_empty from_slice ft c m = report (with_request rid op m)) →
  gt_recorders g !! rid = Some t → with_request rid op (gt_capacity g) = (res, m') →
  request_adds rid (default 0 (result_ok res)) g (set_gt_capacity m' g).
Proof.
  intros Hg Hc Hcall Hreq Hop Hrid Hrun. pose proof Hg as [Hm Hs _ _ Hrec _].
  destruct (Hrec _ _ Hrid) as [_ [r Hr]]. destruct (mo_request _ Hm _ _ Hr) as [Hq [e He]].
  destruct (request_call_refines to_vec is_empty from_slice ft c rid Hc Hreq) as (op' & Hop' & Href).
  assert (result_ok (with_request rid op' (gt_capacity g)).1 = result_ok res ∧ (with_request rid op' (gt_capacity g)).2 = m') as [Hok Hm'].
  { pose proof (Hop (gt_capacity g)) as H1. rewrite Hop', Hrun in H1. by injection H1. }
  destruct (with_request_moves _ _ rid r e op' Hr He (Href _ (slot_of e (gt_capacity g), r) (held_ok_of _ rid r e Hm Hr He)))
    as (e' & r' & Hstep & [Hheap _] & Hreqs). rewrite Hok, Hm' in *. pose proof (Hs _ _ He) as Hse. cbv beta in Hse.
  assert (match c with CRecordDelivered _ _ => true | _ => false end = false) as Hfalse by by destruct c. rewrite Hfalse in Hstep.
  pose proof (step_delivery_mono _ _ _ _ _ _ (mo_entry _ Hm _ _ He) Hstep) as Hmono.
  exists r, e, e'. unfold entry_of. cbn [gt_capacity set_gt_capacity]. rewrite Hheap, Hreqs, !lookup_insert_eq.
  assert (rr_entry r' = rr_entry r) as Hid by by destruct Hstep. pose proof (qo_remaining _ Hq).
  destruct (result_ok res) as [n|]; cbn.
  - pose proof (step_delivery _ _ _ _ _ _ n Hstep eq_refl). pose proof (settled_reports _ _ _ _ _ _ Hse Hq Hstep).
    split_and!; try done; try lia. eauto.
  - pose proof (settled_refusal _ _ _ _ Hse Hstep). split_and!; try done; try lia. eauto.
Qed.
(** Trackers aside. *)
Lemma request_adds_same rid n g g1 g2 : gt_capacity g2 = gt_capacity g1 → request_adds rid n g g1 → request_adds rid n g g2.
Proof. intros H. unfold request_adds, entry_of. by rewrite H. Qed.

Lemma count_quiet t t' f g : (∀ d, dl_count (f d) = dl_count d) → count t' (upd_tracker t f g) = count t' g.
Proof. intros Hf. unfold count. rewrite tracker_upd. case_bool_decide as H; [|done]. destruct H as [-> _]. apply Hf. Qed.
Lemma complete_request_adds ft rid t tokens exhausted g :
  gateway_ok g → gt_recorders g !! rid = Some t → 0 ≤ tokens ≤ umax u64 →
  wp (complete_request to_vec ft rid t tokens exhausted) (λ res g', let n := default 0 (result_ok res) in
    request_adds rid n g g' ∧ count t g' = count t g + n ∧ gt_recorders g' = gt_recorders g) g.
Proof.
  intros Hg Hrid Ht. destruct (go_recorder _ Hg _ _ Hrid) as [[d Hd] [r Hr]].
  pose proof (request_adds_refl rid t g Hg Hrid) as Hself.
  unfold complete_request. op_step. apply wp_look. destruct (checked_authoritative_tokens _ _) as [x|err]; [|cbn; split_and!; [done|lia|done]].
  apply wp_bind. unfold op_map_err, on_capacity, wp at 1.
  destruct (with_request rid _ (gt_capacity g)) as [res m'] eqn:Hrun.
  pose proof (request_run ft (CFinishWithDelivery rid tokens) rid t _ g res m' Hg Ht eq_refl eq_refl ltac:(done) Hrid Hrun) as Hadds.
  destruct res as [charged|err]; cbn [fst snd result_ok default map_err id] in Hadds |- *; [|split_and!; [done|cbn; by rewrite Z.add_0_r|done]].
  do 3 op_step. apply wp_ret. cbn [result_ok default]. split_and!; [eapply request_adds_same; [|exact Hadds]; done| |done].
  unfold publish_done. rewrite !count_quiet by done. unfold count. rewrite tracker_upd, bool_decide_eq_true_2 by (split; [done|by exists d]). done.
Qed.
Lemma finish_request_adds ft rid t finish g :
  gateway_ok g → gt_recorders g !! rid = Some t →
  let g' := (finish_request to_vec ft rid t finish g).2 in request_adds rid 0 g g' ∧ count t g' = count t g.
Proof.
  intros Hg Hrid. change (wp (finish_request to_vec ft rid t finish) (λ _ g', request_adds rid 0 g g' ∧ count t g' = count t g) g).
  unfold finish_request. apply wp_bind. unfold op_map_err, on_capacity, wp at 1.
  destruct (with_request rid _ (gt_capacity g)) as [res m'] eqn:Hrun.
  assert (request_adds rid (default 0 (result_ok res)) g (set_gt_capacity m' g)) as Hadds.
  { destruct finish; [by eapply (request_run ft (CFinishExact rid))|by eapply (request_run ft (CFinishAmbiguous rid))]. }
  destruct res as [n|err]; cbn [fst snd result_ok default map_err id] in Hadds |- *; [|done].
  assert (n = 0) as -> by by eapply (finish_request_quiet to_vec ft rid finish g). cbn [Z.ltb Z.compare].
  apply wp_bind, wp_ret. split; [eapply request_adds_same; [|exact Hadds]; done|]. by apply (count_quiet t t _ (set_gt_capacity m' g)).
Qed.

(** C17: the buyer is charged what the seller counts: when a gateway relays the answer of a
    provider, whatever the provider, the buyer and the file system do, the deal's count and the
    durable delivery of the request's entry both grow by exactly the tokens that the frames sent
    to the buyer charge, which are within what the request reserved; a request without a bill
    adds nothing. *)
Theorem bill_is_counted upstream store_dir files limit calls g rid t ft tc grant items o rd g' :
  run_ok verify from_slice_json to_vec is_empty from_slice calls (gateway_with upstream (fresh_manager store_dir files) limit) →
  gateway_run verify from_slice_json to_vec is_empty from_slice calls (gateway_with upstream (fresh_manager store_dir files) limit) = g →
  gt_recorders g !! rid = Some t → 0 ≤ grant ≤ umax u64 →
  (∀ u, Upstream (Ok (Usage u)) ∈ items → bu_charged_tokens u = None) →
  relay_counting (H := capacity_recorder to_vec ft rid t) show_text tc grant items o g = (rd, g') →
  count t g' = count t g + (sent_bill (rd_box rd) - sent_bill o) ∧ request_adds rid (sent_bill (rd_box rd) - sent_bill o) g g'.
Proof.
  intros Hrun <- Hrid Hgrant Hitems Hrelay. set (g := gateway_run _ _ _ _ _ _ _) in *.
  assert (gateway_ok g) as Hg by (apply gateway_run_ok; [done|apply fresh_gateway_ok|done]).
  destruct (@relay_counting_ends show_text tc grant _ (capacity_recorder to_vec ft rid t) items o g) as (events & rest & Hev & Hend).
  rewrite Hrelay in Hend. cbn [fst snd] in Hend.
  destruct Hend as [(u & charged & Hu & _ & _ & _ & Hbill & Hsent)|(finish & g1 & error & Hg1 & Hfin & _ & Hsent)].
  - cbn [complete_billing capacity_recorder] in Hbill. unfold sent_bill at 1 3. rewrite Hsent, usage_bill.
    rewrite released_bill by (apply Hitems; rewrite Hev; apply elem_of_app; left; apply (list_elem_of_fmap_2 (λ e, Upstream (Ok e)) _ _ Hu)).
    assert (0 ≤ Z.min (non_cached_tokens u) grant ≤ umax u64) as Htok by (unfold non_cached_tokens, saturating_sub; lia).
    pose proof (complete_request_adds ft rid t _ (non_cached_tokens u >? grant) g Hg Hrid Htok) as H. unfold wp in H. rewrite Hbill in H. cbn in H.
    destruct H as (H1 & H2 & _). replace (sent_bill o + charged - sent_bill o) with charged by lia. done.
  - unfold sent_bill at 1 3. rewrite Hsent, error_bill, Z.sub_diag, Z.add_0_r.
    cbn [record_finished capacity_recorder] in Hfin. subst g'.
    enough (gateway_ok g1 ∧ gt_recorders g1 !! rid = Some t ∧ request_adds rid 0 g g1 ∧ count t g1 = count t g) as (Hok & Hrid1 & Ha1 & Hc1).
    { destruct (finish_request_adds ft rid t finish g1 Hok Hrid1) as [Ha2 Hc2]. split; [by rewrite Hc2|by eapply request_adds_trans]. }
    destruct Hg1 as [->|(u & exhausted & status & Hbill)]; [split_and!; try done; by apply request_adds_refl with t|].
    cbn [complete_billing capacity_recorder] in Hbill.
    assert (0 ≤ Z.min (non_cached_tokens u) grant ≤ umax u64) as Htok by (unfold non_cached_tokens, saturating_sub; lia).
    pose proof (complete_request_adds ft rid t _ exhausted g Hg Hrid Htok) as H. unfold wp in H.
    pose proof (complete_request_steady to_vec is_empty from_slice from_slice_typed None ft rid t _ exhausted g Hg Hrid Htok) as [Hg1 _].
    rewrite Hbill in H, Hg1. cbn in H, Hg1. destruct H as (H1 & H2 & H3). rewrite H3. split_and!; try done. lia.
Qed.

Lemma registered_ok upstream store_dir files limit before ft tc pubkey mock_tokens state deal bounds now g0 :
  run_ok verify from_slice_json to_vec is_empty from_slice before (gateway_with upstream (fresh_manager store_dir files) limit) →
  deal_args tc state deal →
  register_stream_with_claim_bounds to_vec is_empty from_slice ft tc pubkey mock_tokens state deal bounds now
    (gateway_run verify from_slice_json to_vec is_empty from_slice before (gateway_with upstream (fresh_manager store_dir files) limit)) = (Ok (), g0) →
  gateway_ok g0 ∧ ∃ t id e0, gt_delivered g0 !! tc = Some t ∧ mg_entries (gt_capacity g0) !! tc = Some id ∧ entry_of g0 id = Some e0 ∧
    count t g0 = entry_delivery e0.
Proof.
  intros Hb Hargs Hreg. set (g := gateway_run _ _ _ _ _ before _) in *.
  assert (gateway_ok g) as Hg by (apply gateway_run_ok; [done|apply fresh_gateway_ok|done]).
  pose proof (register_spec to_vec is_empty from_slice from_slice_typed ft tc pubkey mock_tokens state deal bounds now g Hg Hargs) as H.
  unfold wp in H. rewrite Hreg in H. cbn in H. destruct H as ([Hg0 _] & H). split; [done|by apply H].
Qed.
(** What a gateway is after a registration and a run that leaves the registration alone. *)
Lemma registered_run upstream store_dir files limit before ft tc pubkey mock_tokens state deal bounds now after g0 g1 :
  run_ok verify from_slice_json to_vec is_empty from_slice before (gateway_with upstream (fresh_manager store_dir files) limit) →
  deal_args tc state deal →
  register_stream_with_claim_bounds to_vec is_empty from_slice ft tc pubkey mock_tokens state deal bounds now
    (gateway_run verify from_slice_json to_vec is_empty from_slice before (gateway_with upstream (fresh_manager store_dir files) limit)) = (Ok (), g0) →
  run_ok verify from_slice_json to_vec is_empty from_slice after g0 → Forall (λ c, registers c.2 ≠ Some tc) after →
  gateway_run verify from_slice_json to_vec is_empty from_slice after g0 = g1 →
  ∃ t id e0 e1, gt_delivered g0 !! tc = Some t ∧ gt_delivered g1 !! tc = Some t ∧ entry_of g0 id = Some e0 ∧ entry_of g1 id = Some e1 ∧
    count t g0 = entry_delivery e0 ∧ count t g0 ≤ count t g1 ∧
    (es_terminal e1 = true ∨ count t g1 ≤ entry_delivery e1 ≤ dr_authoritative_cap (es_record e1)) ∧
    dr_authoritative_cap (es_record e1) ≤ dr_funded_tokens (es_record e1).
Proof.
  intros Hb Hargs Hreg Ha Hown <-.
  destruct (registered_ok upstream store_dir files limit before ft tc pubkey mock_tokens state deal bounds now g0 Hb Hargs Hreg)
    as (Hg0 & t & id & e0 & Ht & Hid & He0 & Hcount).
  pose proof (gateway_run_ok verify from_slice_json to_vec is_empty from_slice from_slice_typed after g0 Hg0 Ha) as Hg1.
  destruct (gateway_run_carries verify from_slice_json to_vec is_empty from_slice from_slice_typed tc t after g0 Hg0 Ha Hown Ht) as (Ht1 & Hle & Htr).
  assert (tracked tc t id g0) as Htr0 by (right; split; [done|]; exists e0; split; [done|lia]). specialize (Htr id Htr0).
  assert (∃ e1, entry_of (gateway_run verify from_slice_json to_vec is_empty from_slice after g0) id = Some e1 ∧
    (es_terminal e1 = true ∨ count t (gateway_run verify from_slice_json to_vec is_empty from_slice after g0) ≤ entry_delivery e1)) as (e1 & He1 & Hor).
  { destruct Htr as [(e1 & ? & ?)|(_ & e1 & ? & ?)]; exists e1; auto. }
  exists t, id, e0, e1. pose proof (mo_entry _ (go_mgr _ Hg1) _ _ He1) as [Hrec _ _]. pose proof (ro_sum _ Hrec). pose proof (ro_cap _ Hrec).
  pose proof (ro_typed _ Hrec) as (?&?&?&?&?). split_and!; try done. unfold entry_delivery in *. destruct Hor; [by left|right; lia].
Qed.

(** The count of a deal is durable: after a deal was registered, and until it is registered
    again or unregistered, every run of the gateway keeps its tracker, its count never falls, and
    while the entry that it was registered with is not terminal, the count is covered by the
    durable delivery of that entry, which is within the authoritative capacity and the funded
    tokens. *)
Theorem counter_is_durable upstream store_dir files limit before ft tc pubkey mock_tokens state deal bounds now after g0 g1 :
  run_ok verify from_slice_json to_vec is_empty from_slice before (gateway_with upstream (fresh_manager store_dir files) limit) →
  deal_args tc state deal →
  register_stream_with_claim_bounds to_vec is_empty from_slice ft tc pubkey mock_tokens state deal bounds now
    (gateway_run verify from_slice_json to_vec is_empty from_slice before (gateway_with upstream (fresh_manager store_dir files) limit)) = (Ok (), g0) →
  run_ok verify from_slice_json to_vec is_empty from_slice after g0 → Forall (λ c, registers c.2 ≠ Some tc) after →
  gateway_run verify from_slice_json to_vec is_empty from_slice after g0 = g1 →
  ∃ t id e0 e1, gt_delivered g0 !! tc = Some t ∧ gt_delivered g1 !! tc = Some t ∧ entry_of g0 id = Some e0 ∧ entry_of g1 id = Some e1 ∧
    count t g0 = entry_delivery e0 ∧ count t g0 ≤ count t g1 ∧
    (es_terminal e1 = true ∨ count t g1 ≤ entry_delivery e1 ≤ dr_authoritative_cap (es_record e1)) ∧
    dr_authoritative_cap (es_record e1) ≤ dr_funded_tokens (es_record e1).
Proof. apply registered_run. Qed.

End Service.

(** ** Challenges *)

Section Challenges.
Context {Pubkey Bytes : Type} (verify : Pubkey → string → bytes → bool) (from_slice_json : bytes → Result string Value)
  (to_vec : DurableCapacityRecord → Bytes) (is_empty : Bytes → bool) (from_slice : Bytes → Result text DurableCapacityRecord).
Implicit Types (g : GatewayState (Pubkey := Pubkey) (Bytes := Bytes)) (ft : CapacityFaults).

(** Whether the challenge waits for its stream. *)
Definition waits (tc nonce : string) (a : AuthRegistry Pubkey) : nat := if bool_decide (nonce ∈ outstanding_nonces tc a) then 1 else 0.
Definition issues (tc nonce : string) (c : GatewayCall (Pubkey := Pubkey)) : nat :=
  match c with GChallenge tc' nonce' false => if bool_decide (tc' = tc ∧ nonce' = nonce) then 1 else 0 | _ => 0 end.
(** The stream that a call opens under the challenge. *)
Definition admits (tc nonce : string) ft (c : GatewayCall (Pubkey := Pubkey)) g : nat :=
  match c with
  | GOpen unix_now now r =>
      if bool_decide (sr_token_contract r = tc ∧ sr_nonce r = nonce) then
        match (open_stream verify from_slice_json to_vec ft unix_now now r g).1 with Ok _ => 1 | Err _ => 0 end
      else 0
  | _ => 0
  end.
Fixpoint issued (tc nonce : string) (calls : list (CapacityFaults * GatewayCall)) : nat :=
  match calls with [] => 0 | (_, c) :: calls => issues tc nonce c + issued tc nonce calls end.
Fixpoint admitted (tc nonce : string) (calls : list (CapacityFaults * GatewayCall)) g : nat :=
  match calls with
  | [] => 0
  | (ft, c) :: calls => admits tc nonce ft c g + admitted tc nonce calls (gateway_step verify from_slice_json to_vec is_empty from_slice ft c g)
  end.

Lemma issue_waits tc nonce tc' nonce' a :
  (waits tc nonce (issue_challenge tc' nonce' a) ≤ waits tc nonce a + (if bool_decide (tc' = tc ∧ nonce' = nonce) then 1 else 0))%nat.
Proof.
  unfold waits, outstanding_nonces, issue_challenge, set_issued. cbn. destruct (decide (tc' = tc)) as [->|Hne].
  - rewrite lookup_insert_eq. cbn. destruct (decide (nonce' = nonce)) as [->|Hn].
    + rewrite (bool_decide_eq_true_2 (tc = tc ∧ _)) by done. repeat case_bool_decide; lia.
    + rewrite (bool_decide_eq_false_2 (tc = tc ∧ _)) by naive_solver. unfold outstanding_nonces. repeat case_bool_decide; try lia; exfalso; set_solver.
  - rewrite lookup_insert_ne by done. lia.
Qed.
Lemma discard_waits tc nonce tc' nonce' a :
  (waits tc nonce (discard_challenge tc' nonce' a).2 ≤ waits tc nonce a)%nat ∧
  ((discard_challenge tc' nonce' a).1 = true → tc' = tc → nonce' = nonce → waits tc nonce (discard_challenge tc' nonce' a).2 = 0%nat ∧ waits tc nonce a = 1%nat).
Proof.
  unfold discard_challenge, waits, outstanding_nonces. destruct (ar_issued a !! tc') as [out|] eqn:Hout; [|done].
  destruct (bool_decide (nonce' ∈ out)) eqn:Hin; cbn; [|done]. apply bool_decide_eq_true in Hin.
  assert (∀ x, (if bool_decide (out ∖ {[nonce']} = ∅) then delete tc' (ar_issued a) else <[tc' := out ∖ {[nonce']}]> (ar_issued a)) !! x
    = if bool_decide (x = tc') then if bool_decide (out ∖ {[nonce']} = ∅) then None else Some (out ∖ {[nonce']}) else ar_issued a !! x) as Hl.
  { intros x. destruct (decide (x = tc')) as [->|Hne].
    - rewrite (bool_decide_eq_true_2 (tc' = tc')) by done. case_bool_decide; [apply lookup_delete_eq|apply lookup_insert_eq].
    - rewrite (bool_decide_eq_false_2 (x = tc')) by done. by case_bool_decide; [apply lookup_delete_ne|apply lookup_insert_ne]. }
  rewrite Hl. split.
  - destruct (decide (tc = tc')) as [->|Hne]; [|by rewrite (bool_decide_eq_false_2 (tc = tc'))].
    rewrite (bool_decide_eq_true_2 (tc' = tc')), Hout by done. cbn. case_bool_decide as Hempty; cbn; repeat case_bool_decide; try lia; exfalso; set_solver.
  - intros _ -> ->. rewrite (bool_decide_eq_true_2 (tc = tc)), Hout by done. cbn. rewrite (bool_decide_eq_true_2 (nonce ∈ out)) by done. split; [|done].
    case_bool_decide; cbn; rewrite bool_decide_eq_false_2; set_solver.
Qed.

(** What does not touch the challenges. *)
Abbreviation same_auth a := (λ g, gt_auth g = a).
Lemma same_auth_write {E} a (f : GatewayState → GatewayState) : (∀ g, gt_auth (f g) = gt_auth g) → keeps (E := E) (same_auth a) (op_write f).
Proof. intros Hf g <-. apply Hf. Qed.
Lemma same_auth_capacity {E A} a (op : Op Manager E A) : keeps (E := E) (same_auth a) (on_capacity (Pubkey := Pubkey) op).
Proof. intros g <-. unfold on_capacity. by destruct (op (gt_capacity g)). Qed.
Lemma same_auth_map_err {E F A} a (f : E → F) (op : Op (GatewayState (Pubkey := Pubkey) (Bytes := Bytes)) E A) :
  keeps (same_auth a) op → keeps (same_auth a) (op_map_err f op).
Proof. intros H g Hg. specialize (H g Hg). unfold op_map_err. by destruct (op g). Qed.
Lemma same_auth_bind {E A B} a (m : Op (GatewayState (Pubkey := Pubkey) (Bytes := Bytes)) E A) (k : A → Op _ E B) :
  keeps (same_auth a) m → (∀ x, keeps (same_auth a) (k x)) → keeps (same_auth a) (op_bind m k).
Proof. apply keeps_bind. Qed.
Ltac keep_auth :=
  repeat first
    [ apply keeps_ret | apply keeps_read | apply same_auth_capacity | apply same_auth_map_err | apply same_auth_write; done
    | apply same_auth_bind; [|intros ?]
    | lazymatch goal with
      | |- keeps _ (if ?b then _ else _) => destruct b
      | |- keeps _ (match ?x with _ => _ end) => destruct x
      | |- keeps _ (delivery _) => unfold delivery
      | |- keeps _ (let _ := _ in _) => cbv zeta
      end ].
Lemma open_stream_auth ft unix_now now r g :
  let v := verify_response verify (sr_token_contract r) (sr_nonce r) (sr_signature r) (gt_auth g) in
  wp (open_stream verify from_slice_json to_vec ft unix_now now r) (λ res g',
    (gt_auth g' = gt_auth g ∨ gt_auth g' = v.2) ∧ ∀ ad, res = Ok ad → v.1 = true ∧ gt_auth g' = v.2 ∧ length (sr_signature r) = 64%nat) g.
Proof.
  intros v. unfold open_stream. do 2 (destruct (_ : bool); [split; [by left|done]|]).
  destruct (length (sr_signature r) =? 64)%nat eqn:Hlen; cbn [negb]; [|split; [by left|done]]. apply Nat.eqb_eq in Hlen.
  apply wp_bind. unfold wp at 1, authorize. fold v. destruct v as [valid auth] eqn:Hv. cbn [fst snd]. destruct valid; [|split; [by right|done]].
  match goal with |- wp ?m _ ?s => assert (keeps (same_auth auth) m) as Hk; [|specialize (Hk s eq_refl)] end.
  { keep_auth. }
  unfold wp. split; [by right|]. intros ad Had. done.
Qed.
Lemma verified_waits tc nonce tc' nonce' signature a :
  let v := verify_response verify tc' nonce' signature a in
  (waits tc nonce v.2 ≤ waits tc nonce a)%nat ∧
  (v.1 = true → (tc' = tc → nonce' = nonce → waits tc nonce v.2 = 0%nat ∧ waits tc nonce a = 1%nat) ∧
    ∃ pubkey, ar_buyer_pubkeys a !! tc' = Some pubkey ∧ verify pubkey (challenge_bytes tc' nonce') signature = true).
Proof.
  unfold verify_response. destruct (ar_buyer_pubkeys a !! tc') as [pubkey|] eqn:Hp; [|done]. destruct (negb _); [done|].
  destruct (verify _ _ _) eqn:Hv; [|done]. cbn. pose proof (discard_waits tc nonce tc' nonce' a) as [H1 H2]. split; [done|]. eauto.
Qed.
Lemma register_auth ft tc pubkey n state deal bounds now g :
  let g' := (register_stream_with_claim_bounds to_vec is_empty from_slice ft tc pubkey n state deal bounds now g).2 in
  gt_auth g' = gt_auth g ∨ gt_auth g' = auth_register tc pubkey (gt_auth g).
Proof.
  change (wp (register_stream_with_claim_bounds to_vec is_empty from_slice ft tc pubkey n state deal bounds now)
    (λ _ g', gt_auth g' = gt_auth g ∨ gt_auth g' = auth_register tc pubkey (gt_auth g)) g).
  unfold register_stream_with_claim_bounds. apply wp_bind. pose proof (same_auth_capacity (gt_auth g) (reconcile_deal to_vec is_empty from_slice ft tc state deal) g eq_refl) as H.
  unfold wp at 1. destruct (on_capacity _ g) as [res g1]. cbn [fst snd] in *. destruct res as [reconciled|err]; [|by left].
  op_step; [|by left]. op_step; [|by left]. cbv zeta. op_step. op_step. right.
  match goal with |- gt_auth (?m ?s).2 = ?a => change (wp m (λ _ g', gt_auth g' = a) s); assert (keeps (same_auth a) m) as Hk; [|apply Hk] end.
  { keep_auth. }
  cbn. by rewrite H.
Qed.
Lemma step_waits tc nonce ft c g :
  (admits tc nonce ft c g + waits tc nonce (gt_auth (gateway_step verify from_slice_json to_vec is_empty from_slice ft c g))
   ≤ issues tc nonce c + waits tc nonce (gt_auth g))%nat.
Proof.
  assert (∀ {E A} (op : Op (GatewayState (Pubkey := Pubkey) (Bytes := Bytes)) E A), keeps (same_auth (gt_auth g)) op → gt_auth (op g).2 = gt_auth g) as Hkeep
    by (intros E A op Hop; by apply Hop).
  destruct c as [tc' pubkey n state deal bounds now|tc'|tc' upstream|tc' state deal|tc' state|tc' delay now|tc' n|tc'|action| |tc' nonce' caps
    |unix_now now r|rid tokens exhausted|rid finish|rid]; cbn [gateway_step admits issues]; try (cbn; lia).
  - pose proof (register_auth ft tc' pubkey n state deal bounds now g) as [->| ->]; [lia|].
    change (waits tc nonce (auth_register tc' pubkey (gt_auth g))) with (waits tc nonce (gt_auth g)). lia.
  - unfold unregister_stream. destruct (gt_chain_unavailable g); cbn; [lia|]. unfold waits, auth_unregister, outstanding_nonces. cbn.
    destruct (decide (tc = tc')) as [->|]; [rewrite lookup_delete_eq|rewrite lookup_delete_ne by done; lia]. cbn. rewrite bool_decide_eq_false_2 by set_solver. lia.
  - unfold reconcile_deal_capacity. rewrite Hkeep by keep_auth. lia.
  - unfold reconcile_ordinary_capacity, reconcile_deal_capacity. rewrite Hkeep by keep_auth. lia.
  - unfold prepare_probe_capacity. rewrite Hkeep by keep_auth. lia.
  - unfold mark_deal_terminal. rewrite Hkeep by keep_auth. lia.
  - unfold report_chain_unavailable. destruct (gt_keep_serving g); cbn; lia.
  - unfold get_challenge. destruct caps; [lia|]. cbn [gt_auth set_gt_auth]. pose proof (issue_waits tc nonce tc' nonce' (gt_auth g)).
    destruct (String.eqb _ _); [|cbn; lia]. pose proof (discard_waits tc nonce tc' nonce' (issue_challenge tc' nonce' (gt_auth g))) as [? _]. lia.
  - pose proof (open_stream_auth ft unix_now now r g) as H. unfold wp in H. destruct H as [Hauth Hok].
    pose proof (verified_waits tc nonce (sr_token_contract r) (sr_nonce r) (sr_signature r) (gt_auth g)) as [Hle Hv].
    destruct (open_stream _ _ _ ft unix_now now r g) as [res g']. cbn [fst snd] in *.
    assert (waits tc nonce (gt_auth g') ≤ waits tc nonce (gt_auth g))%nat as Hw by (destruct Hauth as [->| ->]; [done|exact Hle]).
    case_bool_decide as Hr; [|lia]. destruct res as [ad|err]; [|lia]. destruct Hr as [Htc Hnonce]. destruct (Hok ad eq_refl) as (Htrue & Ha & _).
    destruct (proj1 (Hv Htrue) Htc Hnonce) as [H0 H1]. rewrite Ha. lia.
  - unfold with_recorder. destruct (gt_recorders g !! rid); [|lia]. unfold complete_request. rewrite Hkeep by keep_auth. lia.
  - unfold with_recorder. destruct (gt_recorders g !! rid); [|lia]. unfold finish_request. rewrite Hkeep by keep_auth. lia.
  - unfold with_recorder. destruct (gt_recorders g !! rid); cbn; lia.
Qed.
Lemma admitted_bound tc nonce calls g : (admitted tc nonce calls g ≤ issued tc nonce calls + waits tc nonce (gt_auth g))%nat.
Proof.
  revert g. induction calls as [|[ft c] calls IH]; intros g; cbn [admitted issued]; [lia|].
  specialize (IH (gateway_step verify from_slice_json to_vec is_empty from_slice ft c g)). pose proof (step_waits tc nonce ft c g). lia.
Qed.

(** C26: a challenge admits one stream: in every run of a gateway that knows no deal yet, the
    streams opened under a nonce of a deal are at most as many as the times that nonce was
    issued for the deal; and each has a signature of the registered buyer over the challenge. *)
Theorem challenge_admits_once upstream capacity limit calls tc nonce :
  (admitted tc nonce calls (gateway_with upstream capacity limit) ≤ issued tc nonce calls)%nat ∧
  ∀ done_calls rest ft unix_now now r ad g, calls = done_calls ++ (ft, GOpen unix_now now r) :: rest →
    gateway_run verify from_slice_json to_vec is_empty from_slice done_calls (gateway_with upstream capacity limit) = g →
    (open_stream verify from_slice_json to_vec ft unix_now now r g).1 = Ok ad →
    length (sr_signature r) = 64%nat ∧ ∃ pubkey, ar_buyer_pubkeys (gt_auth g) !! sr_token_contract r = Some pubkey ∧
      verify pubkey (challenge_bytes (sr_token_contract r) (sr_nonce r)) (sr_signature r) = true.
Proof.
  split.
  - pose proof (admitted_bound tc nonce calls (gateway_with upstream capacity limit)) as H. unfold waits, outstanding_nonces in H. cbn in H.
    rewrite lookup_empty in H. cbn in H. rewrite bool_decide_eq_false_2 in H by set_solver. lia.
  - intros done_calls rest ft unix_now now r ad g -> _ Hopen.
    pose proof (open_stream_auth ft unix_now now r g) as [_ H]. destruct (H ad Hopen) as (Htrue & _ & Hlen). split; [done|].
    by apply (verified_waits "" "" (sr_token_contract r) (sr_nonce r) (sr_signature r) (gt_auth g)).
Qed.
End Challenges.

(** * A gateway that serves one request, and the witnesses

    The buyer of the sample deal of CapacityProps answers a challenge; its request reserves 5000
    tokens, and the provider's answer bills twelve. *)

#[local] Open Scope string_scope.
#[local] Open Scope Z_scope.
Definition sample_verify (pubkey message : string) (signature : bytes) : bool := String.eqb pubkey "buyer" && String.eqb message "0:11|n1".
Definition sample_json (b : bytes) : Result string Value := Ok (Object [("model", Str "m")]).
Definition sample_upstream : UpstreamConfig := {| uc_is_mock := false; uc_api_formats := [ChatCompletions]; uc_request_model := None |}.
Definition sample_request : StreamRequest := {|
  sr_token_contract := sample_tc; sr_nonce := "n1"; sr_signature := replicate 64 "000"%char; sr_path := "/v1/chat/completions"; sr_body := [];
  sr_headers := []; sr_billing_grant_tokens := 5000; sr_shared_budget := false |}.
Definition no_calls : list (CapacityFaults * GatewayCall (Pubkey := string)) := [].
Definition gateway0 : GatewayState (Pubkey := string) := gateway_with sample_upstream sample_empty 4.
Definition sample_register : CapacityFaults * GatewayCall (Pubkey := string) :=
  (no_capacity_faults, GRegister sample_tc "buyer" 0 sample_state sample_deal ClaimBounds_canonical 0).
Definition sample_service : list (CapacityFaults * GatewayCall (Pubkey := string)) :=
  [(no_capacity_faults, GChallenge sample_tc "n1" false); (no_capacity_faults, GOpen 0 0 sample_request)].
Definition sample_gateway_run := gateway_run sample_verify sample_json (λ r : DurableCapacityRecord, r) (λ _, false) sample_from_slice.
Definition serving : GatewayState := sample_gateway_run (sample_register :: sample_service) gateway0.
Definition sample_answer : list RelayItem := upstream_items
  [Head {| rh_status := 200; rh_headers := [] |}; Data ["h"%char] true;
   Usage {| bu_input_tokens := 10; bu_output_tokens := 2; bu_total_tokens := 12; bu_charged_tokens := None; bu_cache_read_tokens := 0; bu_cache_write_tokens := 0 |}].
Definition sample_box : FrameBox := {| fb_sent := []; fb_room := 16 |}.
Definition sample_relayed : Relayed * GatewayState :=
  relay_counting (H := capacity_recorder (λ r : DurableCapacityRecord, r) no_capacity_faults 0 0) (λ _, "") sample_tc 5000 sample_answer sample_box serving.

(** A second stream under the same nonce is refused. *)
Example sample_served :
  gt_recorders serving !! 0%nat = Some 0%nat ∧ count 0 sample_relayed.2 = 12 ∧ sent_bill (rd_box sample_relayed.1) = 12
  ∧ result_ok (open_stream sample_verify sample_json (λ r, r) no_capacity_faults 0 0 sample_request sample_relayed.2).1 = None.
Proof. vm_compute. done. Qed.

Lemma sample_run_ok : run_ok sample_verify sample_json (λ r : DurableCapacityRecord, r) (λ _, false) sample_from_slice (sample_register :: sample_service) gateway0.
Proof. cbn. split_and!; try done; vm_compute; discriminate. Qed.
Lemma sample_answer_plain u : Upstream (Ok (Usage u)) ∈ sample_answer → bu_charged_tokens u = None.
Proof.
  unfold sample_answer, upstream_items. cbn [map]. intros Hu. do 2 (apply elem_of_cons in Hu as [[=]|Hu]).
  apply elem_of_cons in Hu as [[= ->]|Hu]; [done|]. by apply elem_of_nil in Hu.
Qed.
Lemma bill_is_counted_witness :
  count 0 sample_relayed.2 = 0 + (12 - 0) ∧ request_adds 0 (12 - 0) serving sample_relayed.2.
Proof.
  exact (bill_is_counted sample_verify sample_json (λ r, r) (λ _, false) sample_from_slice (λ _, "") sample_codec_typed sample_upstream
    (in_deals_dir "/deals") ∅ 4 (sample_register :: sample_service) serving 0 0 no_capacity_faults sample_tc 5000 sample_answer sample_box
    sample_relayed.1 sample_relayed.2 sample_run_ok eq_refl eq_refl ltac:(vm_compute; split; discriminate)
    sample_answer_plain ltac:(vm_compute; reflexivity)).
Defined.

Lemma challenge_admits_once_witness :
  (admitted sample_verify sample_json (λ r, r) (λ _, false) sample_from_slice sample_tc "n1" (sample_register :: sample_service) gateway0 ≤ 1)%nat ∧
  length (sr_signature sample_request) = 64%nat.
Proof.
  destruct (challenge_admits_once sample_verify sample_json (λ r, r) (λ _, false) sample_from_slice sample_upstream sample_empty 4
    (sample_register :: sample_service) sample_tc "n1") as [H1 H2].
  split; [exact H1|].
  refine (proj1 (H2 (sample_register :: firstn 1 sample_service) [] no_capacity_faults 0 0 sample_request
    {| ad_reservation := 0; ad_tracker := 0; ad_grant := 5000;
       ad_request := {| pr_format := ChatCompletions; pr_body := [("model", Str "m")]; pr_headers := [] |} |} _ eq_refl eq_refl _)).
  vm_compute. reflexivity.
Defined.

(** The gateway right after the registration, and after the request was billed. *)
Definition registered : GatewayState := (gateway_step sample_verify sample_json (λ r : DurableCapacityRecord, r) (λ _, false) sample_from_slice
  no_capacity_faults sample_register.2 gateway0).
Definition sample_after : list (CapacityFaults * GatewayCall (Pubkey := string)) :=
  sample_service ++ [(no_capacity_faults, GComplete 0 12 false)].
Lemma sample_after_ok : run_ok sample_verify sample_json (λ r : DurableCapacityRecord, r) (λ _, false) sample_from_slice sample_after registered.
Proof. cbn. split_and!; try done; vm_compute; discriminate. Qed.
Lemma sample_after_owns : Forall (λ c : CapacityFaults * GatewayCall (Pubkey := string), registers c.2 ≠ Some sample_tc) sample_after.
Proof. repeat constructor; done. Qed.
Lemma sample_args : deal_args sample_tc sample_state sample_deal.
Proof. split; [done|]. split_and!; vm_compute; discriminate. Qed.
Lemma sample_registers :
  register_stream_with_claim_bounds (λ r : DurableCapacityRecord, r) (λ _, false) sample_from_slice no_capacity_faults sample_tc "buyer" 0
    sample_state sample_deal ClaimBounds_canonical 0 gateway0 = (Ok (), registered).
Proof. vm_compute. reflexivity. Qed.
Definition counted : GatewayState := sample_gateway_run sample_after registered.
Lemma counter_is_durable_witness :
  ∃ t id e0 e1, gt_delivered registered !! sample_tc = Some t ∧ gt_delivered counted !! sample_tc = Some t ∧
    entry_of registered id = Some e0 ∧ entry_of counted id = Some e1 ∧ count t registered = entry_delivery e0 ∧
    count t registered ≤ count t counted ∧
    (es_terminal e1 = true ∨ count t counted ≤ entry_delivery e1 ≤ dr_authoritative_cap (es_record e1)) ∧
    dr_authoritative_cap (es_record e1) ≤ dr_funded_tokens (es_record e1).
Proof.
  exact (counter_is_durable sample_verify sample_json (λ r, r) (λ _, false) sample_from_slice sample_codec_typed sample_upstream
    (in_deals_dir "/deals") ∅ 4 no_calls no_capacity_faults sample_tc "buyer" 0 sample_state sample_deal ClaimBounds_canonical 0 sample_after
    registered counted I sample_args sample_registers sample_after_ok sample_after_owns eq_refl).
Defined.
