(* ===== verification/SellerClaims.v ===== *)
(** * The claims of a seller

    The claim driver reads the count that the gateway keeps of a deal: what it claims was
    delivered, and is in the durable ledger of the deal. *)
From S2P Require Import Prelude RustText ApiFormat SseFrames Params Address DealTypes Recovery UsageData Capacity Meter Relay.
From S2P Require Import CapacityInv CapacityEntry CapacityReach CapacityRun CapacityProps Gateway GatewayInv GatewayProps.
From S2P Require Import ClaimDriver ClaimDriverProps.

#[local] Arguments umax : simpl never.

Section Seller.
Context {Pubkey Bytes : Type} (verify : Pubkey → string → bytes → bool) (from_slice_json : bytes → Result string Value)
  (to_vec : DurableCapacityRecord → Bytes) (is_empty : Bytes → bool) (from_slice : Bytes → Result text DurableCapacityRecord)
  (show_text : text → string).
Context (from_slice_typed : codec_typed from_slice).
Implicit Types (g : GatewayState (Pubkey := Pubkey) (Bytes := Bytes)) (ft : CapacityFaults).

(** The gateway when the driver makes its [k]-th request: [at_request k] calls of its run are over. *)
Definition gateway_at (g0 : GatewayState) (after : list (CapacityFaults * GatewayCall)) (at_request : nat → nat) (k : nat) : GatewayState :=
  gateway_run verify from_slice_json to_vec is_empty from_slice (firstn (at_request k) after) g0.
Definition reads_the_count (w : World) (t : nat) (g0 : GatewayState) after at_request : Prop :=
  ∀ k, w_delivered w k = count t (gateway_at g0 after at_request k).

Lemma run_ok_take n calls g : run_ok verify from_slice_json to_vec is_empty from_slice calls g →
  run_ok verify from_slice_json to_vec is_empty from_slice (firstn n calls) g.
Proof. revert n g. induction calls as [|[ft c] calls IH]; intros [|n] g; cbn; try done. intros [? ?]. eauto. Qed.
Lemma run_ok_drop n calls g : run_ok verify from_slice_json to_vec is_empty from_slice calls g →
  run_ok verify from_slice_json to_vec is_empty from_slice (skipn n calls) (gateway_run verify from_slice_json to_vec is_empty from_slice (firstn n calls) g).
Proof. revert n g. induction calls as [|[ft c] calls IH]; intros [|n] g; cbn; try done. intros [? ?]. eauto. Qed.

(** C16: a seller claims what it delivered: when the claim driver of a registered deal reads the
    count of the gateway, while the gateway serves requests of this and other deals, and whatever
    the chain, the providers, the buyers and the file system do, then every total it claims is
    within the durable delivery of the deal's ledger entry at that moment (or is the seed of an
    accepted probe), and that delivery is within the capacity the chain authorized and the funded
    tokens; unless the entry was closed. *)
Theorem claims_are_delivered upstream store_dir files limit before ft tc pubkey mock_tokens state deal bounds now after g0 t
    w at_request tick_budget tick_size finalize_last_claim windows fuel start k n :
  run_ok verify from_slice_json to_vec is_empty from_slice before (gateway_with upstream (fresh_manager store_dir files) limit) →
  deal_args tc state deal →
  register_stream_with_claim_bounds to_vec is_empty from_slice ft tc pubkey mock_tokens state deal bounds now
    (gateway_run verify from_slice_json to_vec is_empty from_slice before (gateway_with upstream (fresh_manager store_dir files) limit)) = (Ok (), g0) →
  run_ok verify from_slice_json to_vec is_empty from_slice after g0 → Forall (λ c, registers c.2 ≠ Some tc) after →
  gt_delivered g0 !! tc = Some t → reads_the_count w t g0 after at_request → (∀ i j, (i ≤ j)%nat → (at_request i ≤ at_request j)%nat) →
  (k, ClaimTokens n) ∈ dr_log (drive_advance_with_observer w show_text tc windows tick_budget tick_size finalize_last_claim fuel
    {| dr_clock := start; dr_log := [] |}).2 →
  ∃ id e, entry_of (gateway_at g0 after at_request k) id = Some e ∧
    (es_terminal e = true ∨ n ≤ Z.max (entry_delivery e) PROBE_SEED_TOKENS ∧ entry_delivery e ≤ dr_authoritative_cap (es_record e)) ∧
    dr_authoritative_cap (es_record e) ≤ dr_funded_tokens (es_record e).
Proof.
  intros Hb Hargs Hreg Ha Hown Ht Hreads Hmono Hclaim.
  assert (∀ i, Forall (λ c : CapacityFaults * GatewayCall, registers c.2 ≠ Some tc) (firstn i after)) as Howns by (intros i; by apply Forall_take).
  assert (∀ i j, (i ≤ j)%nat → w_delivered w i ≤ w_delivered w j) as Hgrows.
  { intros i j Hij. rewrite !Hreads. unfold gateway_at. pose proof (Hmono i j Hij) as Hle.
    destruct (registered_run verify from_slice_json to_vec is_empty from_slice from_slice_typed upstream store_dir files limit before ft tc
      pubkey mock_tokens state deal bounds now (firstn (at_request i) after) g0 _ Hb Hargs Hreg (run_ok_take _ _ _ Ha) (Howns _) eq_refl)
      as (t' & id & e0 & e1 & Ht0 & Ht1 & _). assert (t' = t) as -> by congruence.
    destruct (registered_ok verify from_slice_json to_vec is_empty from_slice from_slice_typed upstream store_dir files limit before ft tc
      pubkey mock_tokens state deal bounds now g0 Hb Hargs Hreg) as [Hg0 _].
    rewrite <- (take_drop (at_request i) (firstn (at_request j) after)), take_take, Nat.min_l by done. rewrite gateway_run_app.
    apply (gateway_run_carries verify from_slice_json to_vec is_empty from_slice from_slice_typed tc t); [|  | |exact Ht1].
    - apply gateway_run_ok; [done|done|by apply run_ok_take].
    - pose proof (run_ok_drop (at_request i) _ _ (run_ok_take (at_request j) _ _ Ha)) as H. by rewrite take_take, Nat.min_l in H.
    - by apply Forall_drop. }
  pose proof (driver_log_earned w show_text tc windows tick_budget tick_size finalize_last_claim Hgrows fuel start _ eq_refl) as [Hall _].
  rewrite Forall_forall in Hall. specialize (Hall _ Hclaim). cbn in Hall. destruct Hall as (_ & Hle & _). cbn in Hle. rewrite Hreads in Hle.
  destruct (registered_run verify from_slice_json to_vec is_empty from_slice from_slice_typed upstream store_dir files limit before ft tc
      pubkey mock_tokens state deal bounds now (firstn (at_request k) after) g0 _ Hb Hargs Hreg (run_ok_take _ _ _ Ha) (Howns _) eq_refl)
      as (t' & id & e0 & e1 & Ht0 & Ht1 & _ & He1 & _ & _ & Hor & Hcap). assert (t' = t) as -> by congruence.
  exists id, e1. split; [exact He1|]. split; [|exact Hcap]. destruct Hor as [?|?]; [by left|right; split; [|lia]].
  unfold gateway_at in Hle. lia.
Qed.
End Seller.

(** * A seller that claims what it served

    The deal of CapacityProps with an accepted probe; one request delivers half a tick, and the
    driver claims it. *)

#[local] Open Scope string_scope.
#[local] Open Scope Z_scope.
Definition claiming_register : CapacityFaults * GatewayCall (Pubkey := string) :=
  (no_capacity_faults, GRegister sample_tc "buyer" 0 (deal_with true TICK_SIZE) sample_deal ClaimBounds_canonical 0).
Definition claiming_request : StreamRequest := {|
  sr_token_contract := sample_tc; sr_nonce := "n1"; sr_signature := sr_signature sample_request; sr_path := "/v1/chat/completions"; sr_body := [];
  sr_headers := []; sr_billing_grant_tokens := 600000; sr_shared_budget := false |}.
Definition claiming_calls : list (CapacityFaults * GatewayCall (Pubkey := string)) :=
  [(no_capacity_faults, GChallenge sample_tc "n1" false); (no_capacity_faults, GOpen 0 0 claiming_request); (no_capacity_faults, GComplete 0 500000 false)].
Definition claiming_start : GatewayState :=
  gateway_step sample_verify sample_json (λ r : DurableCapacityRecord, r) (λ _, false) sample_from_slice no_capacity_faults claiming_register.2 gateway0.
Definition claiming_at (k : nat) : nat := if (k <? 6)%nat then 1 else 3.
Definition claiming_count (k : nat) : Z :=
  count 0 (gateway_at sample_verify sample_json (λ r, r) (λ _, false) sample_from_slice claiming_start claiming_calls claiming_at k).
Definition claiming_world : World := {|
  w_snapshot := λ _, Some false; w_terminal_settlement := λ _, Ok false; w_buyer_stop_settlement := λ _, Ok false;
  w_deal_state := λ n, Ok (Some (deal_with true (if (n <? 9)%nat then TICK_SIZE else 1500000))); w_accept_probe := λ _, None;
  w_claim_tokens := λ _ _, None; w_finalize := λ _, None; w_delivered := claiming_count; w_delivery_done := λ n, (20 <=? n)%nat;
  w_observe := λ _ _, None; w_observe_terminal := λ _, None; w_prepare_probe := λ _ n, Ok n; w_active_requests := λ _, 0;
  w_instant := λ n, Z.of_nat n * 4000000000 |}.
#[local] Abbreviation claiming_run := (drive_advance_with_observer claiming_world no_text sample_tc AdvanceWindows_canonical 8 TICK_SIZE true 40
  {| dr_clock := 0; dr_log := [] |}).

Lemma claiming_ok : run_ok sample_verify sample_json (λ r : DurableCapacityRecord, r) (λ _, false) sample_from_slice claiming_calls claiming_start.
Proof. cbn. split_and!; try done; vm_compute; discriminate. Qed.
Lemma claiming_owns : Forall (λ c : CapacityFaults * GatewayCall (Pubkey := string), registers c.2 ≠ Some sample_tc) claiming_calls.
Proof. repeat constructor; done. Qed.
Lemma claiming_args : deal_args sample_tc (deal_with true TICK_SIZE) sample_deal.
Proof. split; [done|]. split_and!; vm_compute; discriminate. Qed.
Lemma claiming_registers :
  register_stream_with_claim_bounds (λ r : DurableCapacityRecord, r) (λ _, false) sample_from_slice no_capacity_faults sample_tc "buyer" 0
    (deal_with true TICK_SIZE) sample_deal ClaimBounds_canonical 0 gateway0 = (Ok (), claiming_start).
Proof. vm_compute. reflexivity. Qed.
Lemma claiming_log : dr_log claiming_run.2 =
  app [(7%nat, RetryAfter (from_secs 60)); (7%nat, Slept 60000000000); (8%nat, ClaimTokens 1500000)] (skipn 3 (dr_log claiming_run.2)).
Proof. vm_compute. reflexivity. Qed.
Lemma claiming_grows i j : (i ≤ j)%nat → (claiming_at i ≤ claiming_at j)%nat.
Proof. unfold claiming_at. intros. destruct (Nat.ltb_spec i 6), (Nat.ltb_spec j 6); lia. Qed.
Definition claiming_gateway : GatewayState :=
  gateway_at sample_verify sample_json (λ r : DurableCapacityRecord, r) (λ _, false) sample_from_slice claiming_start claiming_calls claiming_at 8.
Lemma claiming_reads : reads_the_count sample_verify sample_json (λ r : DurableCapacityRecord, r) (λ _, false) sample_from_slice
  claiming_world 0 claiming_start claiming_calls claiming_at.
Proof. intros k. reflexivity. Qed.
Lemma claiming_delivered : gt_delivered claiming_start !! sample_tc = Some 0%nat.
Proof. vm_compute. reflexivity. Qed.
Lemma claiming_claim : (8%nat, ClaimTokens 1500000) ∈ dr_log claiming_run.2.
Proof. rewrite claiming_log. apply elem_of_app. left. do 2 apply list_elem_of_further. apply list_elem_of_here. Qed.
Lemma claims_are_delivered_witness :
  ∃ id e, entry_of claiming_gateway id = Some e ∧
    (es_terminal e = true ∨ 1500000 ≤ Z.max (entry_delivery e) PROBE_SEED_TOKENS ∧ entry_delivery e ≤ dr_authoritative_cap (es_record e)) ∧
    dr_authoritative_cap (es_record e) ≤ dr_funded_tokens (es_record e).
Proof.
  exact (claims_are_delivered sample_verify sample_json (λ r, r) (λ _, false) sample_from_slice no_text sample_codec_typed sample_upstream
    (in_deals_dir "/deals") ∅ 4 no_calls no_capacity_faults sample_tc "buyer" 0 (deal_with true TICK_SIZE) sample_deal ClaimBounds_canonical 0
    claiming_calls claiming_start 0 claiming_world claiming_at 8 TICK_SIZE true AdvanceWindows_canonical 40 0 8 1500000
    I claiming_args claiming_registers claiming_ok claiming_owns claiming_delivered claiming_reads claiming_grows claiming_claim).
Defined.
