(* ===== verification/ModelId.v ===== *)
(** * Model names

    crates/core/src/manifest.rs: the grammar of a canonical model id.  crates/dexdo/src/registry.rs
    and seller/models.rs: the spellings of a model and the entry of the models file that a
    name selects.  buyer/verify.rs: the check of the model that a response names
    ([ModelCheck]); seller/upstream/openai.rs: the seller's check of the same answer.  The
    upper case of a character that is not ASCII is a parameter. *)
From S2P Require Import Prelude RustText ApiFormat Relay.
From Stdlib Require Import Strings.Ascii.

(** ** More of the language's [str] *)

(** [s.split(sep)]. *)
Fixpoint str_split_go (fuel : nat) (sep s : string) : list string :=
  match fuel with
  | O => [s]
  | S fuel => match split_once sep s with Some (a, b) => a :: str_split_go fuel sep b | None => [s] end
  end.
Definition str_split (sep s : string) : list string := str_split_go (String.length s) sep s.
Definition str_replace (sep by_ s : string) : string := str_join by_ (str_split sep s).
Fixpoint strip_suffix (p s : string) : option string :=
  if String.eqb p s then Some EmptyString
  else match s with EmptyString => None | String c s => let* r := strip_suffix p s in Some (String c r) end.
(** [s.rsplit_once(c)]: around the last occurrence. *)
Fixpoint rsplit_once (c : ascii) (s : string) : option (string * string) :=
  match s with
  | EmptyString => None
  | String d rest =>
      match rsplit_once c rest with
      | Some (a, b) => Some (String d a, b)
      | None => if Ascii.eqb c d then Some (EmptyString, rest) else None
      end
  end.
(** [Vec::dedup]: of equal neighbours the first stays. *)
Fixpoint dedup (l : list string) : list string :=
  match l with
  | a :: (b :: _) as rest => if String.eqb a b then dedup rest else a :: dedup rest
  | l => l
  end.

(** ** Canonical ids *)

Record AttestedModelPrecision : Type := { ap_value : string; ap_status : string; ap_enforced : bool }.
Record CanonicalModelFlags : Type := {
  cf_unit : option string; cf_window : option string; cf_resolution : option string; cf_tools : bool; cf_think : bool;
  cf_precision : option AttestedModelPrecision;
}.
Definition no_flags : CanonicalModelFlags := {|
  cf_unit := None; cf_window := None; cf_resolution := None; cf_tools := false; cf_think := false; cf_precision := None |}.
Definition render_human (f : CanonicalModelFlags) : string :=
  let field := λ name value : string, (name +:+ "=" +:+ value)%string in
  str_join "," (
    option_list (field "unit" <$> cf_unit f) ++ option_list (field "window" <$> cf_window f)
    ++ option_list (field "resolution" <$> cf_resolution f)
    ++ (if cf_tools f then ["tools"%string] else []) ++ (if cf_think f then ["think"%string] else [])
    ++ option_list ((λ p, field "precision" (ap_value p +:+ "(attested,not-enforced)"))%string <$> cf_precision f)).
Record CanonicalModelId : Type := { ci_producer : string; ci_model : string; ci_version : string; ci_flags : CanonicalModelFlags }.

Definition window_digits (token : string) : string :=
  unwrap_or ""%string (let* value := strip_prefix "w" token in strip_suffix "k" value).
Definition parse_model_flag (token : string) : Result text (nat * string) :=
  if str_elem token ["sec"; "min"; "img"; "frame"]%string then Ok (0%nat, "unit"%string)
  else if str_elem token ["480p"; "720p"; "1080p"; "2160p"]%string then Ok (2%nat, "resolution"%string)
  else if String.eqb token "tools" then Ok (3%nat, "tools"%string)
  else if String.eqb token "think" then Ok (4%nat, "think"%string)
  else if str_elem token ["fp32"; "bf16"; "fp16"; "fp8"; "int8"; "int4"]%string then Ok (5%nat, "precision"%string)
  else if str_elem token ["gptq"; "awq"; "gguf"; "Q4_K_M"]%string then
    Err f["packing format `"; token; "` is not a canonical model-id flag; packing spellings are deliberately not admitted"]
  else if starts_with "w" token then
    let digits := window_digits token in
    let thousands := parse_uint u64 digits in
    if String.eqb digits "" || negb (str_all is_ascii_digit digits) || bool_decide (thousands = Some 0)
       || match thousands with None => true | Some value => negb (String.eqb (to_string value) digits) end
    then Err f["malformed window flag `"; token; "`; expected `w<N>k` with a positive canonical integer N, e.g. `w8k`"]
    else Ok (1%nat, "window"%string)
  else Err f["unknown flag token `"; token; "` in model id"].

Definition set_flag (slot : nat) (token : string) (f : CanonicalModelFlags) : CanonicalModelFlags :=
  match slot with
  | 0 => {| cf_unit := Some token; cf_window := cf_window f; cf_resolution := cf_resolution f; cf_tools := cf_tools f;
            cf_think := cf_think f; cf_precision := cf_precision f |}
  | 1 => {| cf_unit := cf_unit f; cf_window := Some token; cf_resolution := cf_resolution f; cf_tools := cf_tools f;
            cf_think := cf_think f; cf_precision := cf_precision f |}
  | 2 => {| cf_unit := cf_unit f; cf_window := cf_window f; cf_resolution := Some token; cf_tools := cf_tools f;
            cf_think := cf_think f; cf_precision := cf_precision f |}
  | 3 => {| cf_unit := cf_unit f; cf_window := cf_window f; cf_resolution := cf_resolution f; cf_tools := true;
            cf_think := cf_think f; cf_precision := cf_precision f |}
  | 4 => {| cf_unit := cf_unit f; cf_window := cf_window f; cf_resolution := cf_resolution f; cf_tools := cf_tools f;
            cf_think := true; cf_precision := cf_precision f |}
  | _ => {| cf_unit := cf_unit f; cf_window := cf_window f; cf_resolution := cf_resolution f; cf_tools := cf_tools f;
            cf_think := cf_think f;
            cf_precision := Some {| ap_value := token; ap_status := "attested"; ap_enforced := false |} |}
  end%nat.

Record FlagsState : Type := { fl_flags : CanonicalModelFlags; fl_seen : list bool; fl_last : option (nat * string) }.
Definition flags_start : FlagsState := {| fl_flags := no_flags; fl_seen := replicate 6 false; fl_last := None |}.
Definition read_flag (name token : string) (st : FlagsState) : Result text FlagsState :=
  let? '(slot, slot_name) := parse_model_flag token in
  if bool_decide (fl_seen st !! slot = Some true) then Err f["duplicate flag `"; token; "` in model id `"; name; "`"]
  else if match fl_last st with Some (last, _) => (slot <? last)%nat | None => false end then
    Err f["flag `"; token; "` is in the wrong order in model id `"; name; "`; `"; slot_name; "` must precede `";
          unwrap_or "the previous flag"%string (snd <$> fl_last st); "`"]
  else Ok {| fl_flags := set_flag slot token (fl_flags st); fl_seen := <[slot := true]> (fl_seen st);
             fl_last := Some (slot, slot_name) |}.
Fixpoint read_flags (name : string) (tokens : list string) (st : FlagsState) : Result text FlagsState :=
  match tokens with
  | [] => Ok st
  | token :: tokens => let? st := read_flag name token st in read_flags name tokens st
  end.

Definition CONTRACT_MODEL_NAME_MAX_BYTES : nat := 127.
Definition not_canonical (name : string) : text :=
  f["model id `"; name; "` is not canonical `producer--model--version` (three non-empty base parts are required)"].
Definition is_blank (s : string) : bool := String.eqb (trim s) "".
Definition parse_canonical_model_id (name : string) : Result text CanonicalModelId :=
  if (CONTRACT_MODEL_NAME_MAX_BYTES <? String.length name)%nat then
    Err f["model id is "; to_string (Z.of_nat (String.length name)); " bytes; the contract model-name limit is ";
          to_string (Z.of_nat CONTRACT_MODEL_NAME_MAX_BYTES); " bytes"]
  else
    match str_split "--" name with
    | producer :: model :: version :: parts =>
        if is_blank producer || is_blank model || is_blank version then Err (not_canonical name) else
        let? st := read_flags name parts flags_start in
        Ok {| ci_producer := producer; ci_model := model; ci_version := version; ci_flags := fl_flags st |}
    | _ => Err (not_canonical name)
    end.
Definition validate_canonical_model_id (name : string) : Result text () := rmap (λ _, ()) (parse_canonical_model_id name).

(** ** Spellings of a model *)

Definition SLASH : ascii := char 47.
Definition push_candidate (out : list string) (candidate : string) : list string :=
  let candidate := trim candidate in
  if String.eqb candidate "" || str_elem candidate out then out else out ++ [candidate].
Definition frame_model_to_served_alias (model_id : string) : option string :=
  match parse_canonical_model_id model_id with
  | Ok canonical => Some (ci_producer canonical +:+ "/" +:+ ci_model canonical +:+ "-" +:+ ci_version canonical)%string
  | Err _ =>
      let* p := split_once "--" model_id in let '(vendor, rest) := p in
      if String.eqb vendor "" || String.eqb rest "" then None else
      let rest := str_replace "--" "-" rest in
      if String.eqb rest "" then None else Some (vendor +:+ "/" +:+ rest)%string
  end.
Definition model_id_alias (model_id : string) : string :=
  let normalized := to_ascii_lowercase (trim model_id) in
  unwrap_or normalized (frame_model_to_served_alias normalized).
Definition producer_free_name (model_id : string) : option string :=
  let* p := split_once "/" model_id in let '(producer, rest) := p in
  if negb (String.eqb producer "") && negb (String.eqb rest "") && negb (contains "/" rest) then Some rest else None.
Definition push_producer_free (out : list string) (served_alias : string) : list string :=
  match producer_free_name served_alias with Some bare => push_candidate out bare | None => out end.
Definition is_ascii_lower (c : ascii) : bool := (97 <=? code c) && (code c <=? 122).
Definition upper_char (c : ascii) : ascii := if is_ascii_lower c then char (code c - 32) else c.
Definition to_ascii_uppercase : string → string := str_map upper_char.

Section Spellings.
(** [char::to_uppercase] of a character beyond ASCII, in UTF-8. *)
Context (to_uppercase : bytes → bytes).

Definition display_case_token (token : string) : string :=
  match token with
  | EmptyString => EmptyString
  | String first rest =>
      if is_ascii_digit first then to_ascii_uppercase token
      else if code first <? 128 then String (upper_char first) rest
      else let b := to_bytes token in
           let c := char_prefix 1 b in of_bytes (to_uppercase c ++ drop (length c) b)
  end.
Definition display_case_served_alias (model_id : string) : option string :=
  let* p := split_once "/" model_id in let '(vendor, rest) := p in
  if String.eqb vendor "" || String.eqb rest "" then None else
  Some (display_case_token vendor +:+ "/" +:+ str_join "-" (map display_case_token (split_char (char 45) rest)))%string.
Definition registry_identity_candidates (model_id : string) : list string :=
  let trimmed := trim model_id in
  let out := push_candidate [] trimmed in
  let alias := model_id_alias trimmed in
  let out := push_candidate out alias in
  let display_alias := display_case_served_alias alias in
  let out := match display_alias with Some d => push_candidate out d | None => out end in
  let out := push_producer_free out alias in
  match display_alias with Some d => push_producer_free out d | None => out end.

(** ** The models file *)

(** The provider's own field for a reproducible answer; without one the answers are not compared. *)
Inductive SampleAlgorithm : Type := Seed | RandomSeed | TopK | NoSampling.
Definition wire_field (a : SampleAlgorithm) : option string :=
  match a with Seed => Some "seed" | RandomSeed => Some "random_seed" | TopK => Some "top_k" | NoSampling => None end%string.
Record FingerprintCfg : Type := { fg_probe_prompt : string; fg_expected_contains : string; fg_accepts_reasoning : bool }.
Record ModelConfig : Type := {
  mc_frame_model : string; mc_base_url : string; mc_served_model : string; mc_api_key_env : string;
  mc_sample_algorithm : SampleAlgorithm; mc_identity_aliases : list string; mc_fingerprints : list FingerprintCfg;
}.
Record ModelsConfig : Type := { ms_models : gmap string ModelConfig }.
Definition models_values (models : ModelsConfig) : list ModelConfig := (btree_entries (ms_models models)).*2.
Definition models_get (name : string) (models : ModelsConfig) : option ModelConfig :=
  match ms_models models !! name with
  | Some m => Some m
  | None => List.find (λ m, String.eqb (mc_frame_model m) name) (models_values models)
  end.
Definition resolve_model_cfg (model_id : string) (models : ModelsConfig) : option ModelConfig :=
  let id := trim model_id in
  match models_get id models with
  | Some m => Some m
  | None =>
      match List.find (λ m, String.eqb (mc_served_model m) id) (models_values models) with
      | Some m => Some m
      | None =>
          let want := model_id_alias id in
          List.find (λ m, String.eqb (model_id_alias (mc_frame_model m)) want
                          || String.eqb (to_ascii_lowercase (mc_served_model m)) want
                          || existsb (λ a, String.eqb (model_id_alias a) want) (mc_identity_aliases m)) (models_values models)
      end
  end.

(** ** The buyer's check of the model that a response names *)

Inductive Verdict : Type := Pass | Bail (reason : text).
Record ModelCheck : Type := { mk_expected : string; mk_accepted : list string; mk_producer_free : bool }.
Definition ModelCheck_new (expected : string) (models : option ModelsConfig) : ModelCheck :=
  let accepted := map model_id_alias (registry_identity_candidates expected) in
  let accepted := accepted ++ match (let* models := models in resolve_model_cfg expected models) with
    | Some entry => map model_id_alias (mc_frame_model entry :: mc_served_model entry :: mc_identity_aliases entry)
    | None => [] end in
  let expected := trim expected in
  {| mk_expected := expected; mk_accepted := dedup (merge_sort str_le accepted);
     mk_producer_free := negb (contains "/" expected) && negb (contains "--" expected) |}.
Definition model_verify (check : ModelCheck) (reported : string) : Verdict :=
  let reported_alias := model_id_alias reported in
  let without_producer :=
    let* p := rsplit_once SLASH reported_alias in if mk_producer_free check then Some p.2 else None in
  if str_elem reported_alias (mk_accepted check)
     || match without_producer with Some model => str_elem model (mk_accepted check) | None => false end
  then Pass
  else Bail f["model-check (): the provider answered as model '"; reported; "', not the deal's model '"; mk_expected check;
              "' -- substitution"].
End Spellings.

(** ** The seller's check of its provider *)

Record OpenAiConfig : Type := {
  oa_base_url : string; oa_model : string; oa_frame_model : string; oa_api_key_env : string; oa_identity_aliases : list string;
}.
Definition OpenAiConfig_from_model (m : ModelConfig) (registry_frame_model : option string) : OpenAiConfig := {|
  oa_base_url := mc_base_url m; oa_model := mc_served_model m; oa_frame_model := unwrap_or (mc_frame_model m) registry_frame_model;
  oa_api_key_env := mc_api_key_env m; oa_identity_aliases := mc_identity_aliases m |}.
Definition offered_model_aliases (cfg : OpenAiConfig) (market : option string) : list string :=
  match market with
  | Some market_model => [model_id_alias market_model]
  | None => [model_id_alias (oa_model cfg); model_id_alias (oa_frame_model cfg)]
  end ++ map model_id_alias (oa_identity_aliases cfg).
(** A name between double quotes, as it is. *)
Definition in_quotes (s : string) : string := (String (char 34) s +:+ String (char 34) "")%string.
Definition served_model_mismatch (cfg : OpenAiConfig) (market : option string) (reported : string) : text :=
  match market with
  | Some market_model =>
      f["upstream served model "; in_quotes reported; ", but this market sells "; in_quotes market_model;
        ": the provider answering this seller is not the model the buyer would be paying for -- point --model at the model this market was provisioned for, or declare the provider's own spelling in identity_aliases for this model in the models config (models.json)"]
  | None =>
      f["upstream served model "; in_quotes reported; ", not the offered "; in_quotes (oa_model cfg); " (market model "; in_quotes (oa_frame_model cfg);
        "): correct served_model/frame_model/identity_aliases for this model in the models config (models.json), or the provider substituted the model"]
  end.
(** What the relay asks of every model that the provider names. *)
Definition offered_check (cfg : OpenAiConfig) (market : option string) (reported : string) : option text :=
  if str_elem (model_id_alias reported) (offered_model_aliases cfg market) then None
  else Some (served_model_mismatch cfg market reported).

Example dotted : model_id_alias " Qwen--QwQ--32B " = "qwen/qwq-32b"%string.
Proof. vm_compute. reflexivity. Qed.
Example flagged : model_id_alias "meta--llama3--70b--w8k--tools" = "meta/llama3-70b"%string.
Proof. vm_compute. reflexivity. Qed.
Example producer_dropped : model_verify (ModelCheck_new (λ b, b) "Qwen3.8-27B" None) "accounts/x/models/qwen3.8-27b" = Pass.
Proof. vm_compute. reflexivity. Qed.

(** ** A canonical id is determined by what was parsed *)

Definition flag_tokens (f : CanonicalModelFlags) : list string :=
  option_list (cf_unit f) ++ option_list (cf_window f) ++ option_list (cf_resolution f)
  ++ (if cf_tools f then ["tools"%string] else []) ++ (if cf_think f then ["think"%string] else [])
  ++ option_list (ap_value <$> cf_precision f).
Definition canonical_parts (id : CanonicalModelId) : list string :=
  ci_producer id :: ci_model id :: ci_version id :: flag_tokens (ci_flags id).
Definition canonical_text (id : CanonicalModelId) : string := str_join "--" (canonical_parts id).

Lemma split_once_Some sep s a b : split_once sep s = Some (a, b) → s = (a +:+ sep +:+ b)%string.
Proof.
  assert (∀ p t r, strip_prefix p t = Some r → t = (p +:+ r)%string) as Hp.
  { intros p. induction p as [|x p IH]; intros t r H; [destruct t; by injection H as <-|].
    destruct t as [|y t]; [done|]. cbn in H. destruct (Ascii.eqb_spec x y) as [->|]; [|done].
    by rewrite append_cons, <- (IH t r H). }
  revert a. induction s as [|c s IH]; intros a; cbn [split_once];
    (destruct (strip_prefix sep _) as [r|] eqn:Hr; [intros [= <- <-]; exact (Hp _ _ _ Hr)|]); [done|].
  destruct (split_once sep s) as [[a' b']|]; [|done]. intros [= <- <-]. by rewrite append_cons, <- (IH a' eq_refl).
Qed.

Lemma str_join_cons sep part parts : parts ≠ [] → str_join sep (part :: parts) = (part +:+ sep +:+ str_join sep parts)%string.
Proof. by destruct parts. Qed.

(** Splitting loses nothing. *)
Lemma str_join_split sep s : str_join sep (str_split sep s) = s.
Proof.
  unfold str_split. generalize (String.length s) as fuel. intros fuel. revert s.
  induction fuel as [|fuel IH]; intros s; cbn [str_split_go]; [done|].
  destruct (split_once sep s) as [[a b]|] eqn:Hs; [|done]. rewrite str_join_cons, IH by (destruct fuel; cbn; repeat case_match; done).
  by rewrite <- (split_once_Some _ _ _ _ Hs).
Qed.

(** What the loop over the flags has read: their tokens, and no slot beyond the last. *)
Record flags_read (tokens : list string) (st : FlagsState) : Prop := {
  fr_tokens : flag_tokens (fl_flags st) = tokens;
  fr_slots : length (fl_seen st) = 6%nat;
  fr_last : ∀ slot, fl_seen st !! slot = Some true → ∃ last name, fl_last st = Some (last, name) ∧ (slot ≤ last)%nat;
  fr_here : ∀ last name, fl_last st = Some (last, name) → fl_seen st !! last = Some true;
  fr_free : ∀ slot, fl_seen st !! slot = Some false → match slot with
    | 0 => cf_unit (fl_flags st) = None | 1 => cf_window (fl_flags st) = None | 2 => cf_resolution (fl_flags st) = None
    | 3 => cf_tools (fl_flags st) = false | 4 => cf_think (fl_flags st) = false | _ => cf_precision (fl_flags st) = None end%nat;
}.

Lemma flags_read_start : flags_read [] flags_start.
Proof.
  constructor; cbn; [done|done| |done|].
  - intros slot H. do 6 (destruct slot as [|slot]; [done|]). done.
  - intros slot H. do 6 (destruct slot as [|slot]; [done|]). done.
Qed.


Lemma parse_model_flag_slot token slot name :
  parse_model_flag token = Ok (slot, name) → (slot < 6)%nat ∧ (slot = 3%nat → token = "tools"%string) ∧ (slot = 4%nat → token = "think"%string).
Proof.
  unfold parse_model_flag. intros H.
  repeat match type of H with (if ?b then _ else _) = _ => destruct b eqn:? end; try done; cbn zeta in H;
    try (destruct (_ || _) in H; [done|]); injection H as <- <-; (split; [lia|split; intros ?; try done]); by apply String.eqb_eq.
Qed.

Lemma read_flag_ok name token tokens st st' :
  flags_read tokens st → read_flag name token st = Ok st' → flags_read (tokens ++ [token]) st'.
Proof.
  intros [Ht Hlen Hlast Hhere Hfree]. unfold read_flag. destruct (parse_model_flag token) as [[slot sname]|] eqn:Hp; [|done].
  cbn [rbind]. case_bool_decide as Hseen; [done|]. destruct (match fl_last st with Some _ => _ | None => _ end) eqn:Hord; [done|].
  intros [= <-]. apply parse_model_flag_slot in Hp as (Hslot & H3 & H4).
  assert (∀ k, (k < 6)%nat → (slot ≤ k)%nat → fl_seen st !! k = Some false) as Hun.
  { intros k Hk Hle. destruct (lookup_lt_is_Some_2 (fl_seen st) k) as [[] Hk']; [lia| |done].
    destruct (Hlast _ Hk') as (last & n & Hl & Hle'). rewrite Hl in Hord. apply Nat.ltb_ge in Hord.
    assert (last = slot) as -> by lia. by apply Hhere in Hl. }
  assert (∀ k, (k < 6)%nat → (slot ≤ k)%nat → _) as Hno by (intros k Hk Hle; exact (Hfree k (Hun k Hk Hle))).
  constructor; cbn [fl_flags fl_seen fl_last].
  - rewrite <- Ht. pose proof (Hno 0%nat) as N0; pose proof (Hno 1%nat) as N1; pose proof (Hno 2%nat) as N2;
      pose proof (Hno 3%nat) as N3; pose proof (Hno 4%nat) as N4; pose proof (Hno 5%nat) as N5. cbn in *.
    do 6 (destruct slot as [|slot]; [unfold flag_tokens; cbn;
      repeat match goal with H : (?a < ?b)%nat → (?c ≤ ?d)%nat → _ |- _ => first [rewrite H by lia; clear H|clear H] end;
      cbn; rewrite ?app_nil_r, <- ?app_assoc; cbn; rewrite ?H3, ?H4 by done; done|]). lia.
  - by rewrite length_insert.
  - intros k Hk. exists slot, sname. split; [done|]. destruct (decide (k = slot)) as [->|Hne]; [done|].
    rewrite list_lookup_insert_ne in Hk by done. destruct (Hlast _ Hk) as (last & n & Hl & Hle). rewrite Hl in Hord.
    apply Nat.ltb_ge in Hord. lia.
  - intros last n [= <- <-]. apply list_lookup_insert_eq. lia.
  - intros k Hk. destruct (decide (k = slot)) as [->|Hne]; [rewrite list_lookup_insert_eq in Hk by lia; done|].
    rewrite list_lookup_insert_ne in Hk by done. specialize (Hfree _ Hk). apply lookup_lt_Some in Hk. rewrite Hlen in Hk.
    do 6 (destruct slot as [|slot]; [do 6 (destruct k as [|k]; [done|]); lia|]). lia.
Qed.

Lemma read_flags_ok name rest tokens st st' :
  flags_read tokens st → read_flags name rest st = Ok st' → flags_read (tokens ++ rest) st'.
Proof.
  revert tokens st. induction rest as [|token rest IH]; intros tokens st Hst H; cbn in H; [injection H as <-; by rewrite app_nil_r|].
  destruct (read_flag name token st) as [st1|] eqn:H1; [|done]. cbn in H. rewrite cons_middle, app_assoc.
  eapply IH; [by eapply read_flag_ok|done].
Qed.

(** The grammar of canonical ids is injective: a name that is accepted is exactly the
    parsed parts and flags joined by two hyphens, in the order of the slots, so that no two
    names have one meaning; and it fits the contract's limit, with no blank base part. *)
Theorem canonical_id_injective name id :
  parse_canonical_model_id name = Ok id →
  canonical_text id = name ∧ (String.length name ≤ CONTRACT_MODEL_NAME_MAX_BYTES)%nat ∧
  Forall (λ part, trim part ≠ ""%string) [ci_producer id; ci_model id; ci_version id] ∧
  ∀ other, parse_canonical_model_id other = Ok id → other = name.
Proof.
  assert (∀ name id, parse_canonical_model_id name = Ok id → canonical_text id = name ∧
    (String.length name ≤ CONTRACT_MODEL_NAME_MAX_BYTES)%nat ∧
    Forall (λ part, trim part ≠ ""%string) [ci_producer id; ci_model id; ci_version id]) as Hall.
  { clear name id. intros name id. unfold parse_canonical_model_id. destruct (_ <? _)%nat eqn:Hlen; [done|]. apply Nat.ltb_ge in Hlen.
    pose proof (str_join_split "--" name) as Hj. destruct (str_split "--" name) as [|producer [|model [|version parts]]]; try done.
    destruct (is_blank producer || is_blank model || is_blank version) eqn:Hb; [done|].
    apply orb_false_elim in Hb as [[H1 H2]%orb_false_elim H3]. destruct (read_flags name parts flags_start) as [st|] eqn:Hf; [|done].
    intros [= <-]. apply (read_flags_ok _ _ [] _ _ flags_read_start) in Hf. cbn [app] in Hf.
    unfold canonical_text, canonical_parts. cbn [ci_producer ci_model ci_version ci_flags]. rewrite (fr_tokens _ _ Hf).
    split_and!; [done|done|]. by repeat constructor; apply String.eqb_neq. }
  intros H. destruct (Hall _ _ H) as (Ht & Hl & Hb). split_and!; [done..|]. intros other Ho. by rewrite <- (proj1 (Hall _ _ Ho)).
Qed.

Lemma canonical_id_injective_witness :
  ∃ id, parse_canonical_model_id "wan--video--2.1--sec--w8k--720p--tools--fp8" = Ok id ∧
    canonical_text id = "wan--video--2.1--sec--w8k--720p--tools--fp8"%string.
Proof.
  eexists. split; [vm_compute; reflexivity|]. refine (proj1 (canonical_id_injective "wan--video--2.1--sec--w8k--720p--tools--fp8" _ _)).
  vm_compute. reflexivity.
Defined.

(** ** What an honest seller lets through, its buyer accepts *)

Lemma elem_of_dedup x l : x ∈ dedup l ↔ x ∈ l.
Proof.
  induction l as [|a [|b l] IH]; [done..|]. cbn [dedup]. destruct (String.eqb_spec a b) as [->|Hne].
  - rewrite IH, !elem_of_cons. tauto.
  - by rewrite !(elem_of_cons _ x a), IH.
Qed.

Lemma push_candidate_mono out c x : x ∈ out → x ∈ push_candidate out c.
Proof. unfold push_candidate. destruct (_ || _); [done|]. intros. apply elem_of_app. by left. Qed.
Lemma push_producer_free_mono out a x : x ∈ out → x ∈ push_producer_free out a.
Proof. unfold push_producer_free. destruct (producer_free_name a); [apply push_candidate_mono|done]. Qed.

Lemma candidate_itself up expected : is_blank expected = false → trim expected ∈ registry_identity_candidates up expected.
Proof.
  intros Hb. assert (trim expected ∈ push_candidate [] (trim expected)) as H.
  { unfold push_candidate. rewrite trim_idemp. unfold is_blank in Hb. rewrite Hb. cbn. apply list_elem_of_here. }
  unfold registry_identity_candidates. repeat case_match; auto using push_candidate_mono, push_producer_free_mono.
Qed.

Lemma model_id_alias_trim s : model_id_alias (trim s) = model_id_alias s.
Proof. unfold model_id_alias. by rewrite trim_idemp. Qed.

Lemma accepted_elem up expected models a :
  a ∈ mk_accepted (ModelCheck_new up expected models) ↔
  a ∈ map model_id_alias (registry_identity_candidates up expected) ∨
  ∃ file entry, models = Some file ∧ resolve_model_cfg expected file = Some entry ∧
    a ∈ map model_id_alias (mc_frame_model entry :: mc_served_model entry :: mc_identity_aliases entry).
Proof.
  unfold ModelCheck_new. cbn [mk_accepted]. rewrite elem_of_dedup, merge_sort_Permutation, elem_of_app.
  destruct models as [file|]; cbn [obind]; [|split; [intros [H|H%elem_of_nil]; [by left|done]|intros [H|(? & ? & ? & _)]; [by left|done]]].
  destruct (resolve_model_cfg expected file) as [entry|] eqn:Hr.
  - split; (intros [H|H]; [by left|right]); [by exists file, entry|]. by destruct H as (? & ? & [= <-] & [= <-]%(eq_trans (eq_sym Hr)) & H).
  - split; [intros [H|H%elem_of_nil]; [by left|done]|]. intros [H|(? & ? & [= <-] & H & _)]; [by left|congruence].
Qed.

Lemma verify_accepted check reported : model_id_alias reported ∈ mk_accepted check → model_verify check reported = Pass.
Proof. intros H. unfold model_verify. by rewrite (proj2 (str_elem_true _ _) H). Qed.

(** A seller and a buyer that read the same entry of a models file agree about the
    provider's answer: whatever name the seller's check lets through, for its own traffic or
    for the market's readiness and whether or not the registry overrides the entry's name,
    the buyer's check of a deal for that model passes, in every spelling and case. *)
Theorem honest_answers_pass up expected models entry registry market reported :
  is_blank expected = false →
  resolve_model_cfg expected models = Some entry →
  registry = None ∨ registry = Some expected →
  market = None ∨ market = Some expected →
  offered_check (OpenAiConfig_from_model entry registry) market reported = None →
  model_verify (ModelCheck_new up expected (Some models)) reported = Pass.
Proof.
  intros Hb Hr Hreg Hm. unfold offered_check. destruct (str_elem _ _) eqn:He; [|done]. intros _.
  apply str_elem_true in He. apply verify_accepted. rewrite accepted_elem.
  assert (∀ a, a ∈ map model_id_alias (mc_frame_model entry :: mc_served_model entry :: mc_identity_aliases entry) →
    a = model_id_alias reported → model_id_alias reported ∈ map model_id_alias (registry_identity_candidates up expected) ∨
    ∃ file entry, Some models = Some file ∧ resolve_model_cfg expected file = Some entry ∧
      model_id_alias reported ∈ map model_id_alias (mc_frame_model entry :: mc_served_model entry :: mc_identity_aliases entry)) as Hfile
    by (intros a Ha <-; right; by exists models, entry).
  assert (model_id_alias expected ∈ map model_id_alias (registry_identity_candidates up expected)) as Hself.
  { rewrite <- (model_id_alias_trim expected). apply (list_elem_of_fmap_2 model_id_alias), candidate_itself, Hb. }
  apply elem_of_app in He as [He|He].
  2: { eapply (Hfile _ _ eq_refl). Unshelve. cbn [map]. rewrite !elem_of_cons. by right; right. }
  destruct Hm as [->| ->]; cbn in He.
  - apply elem_of_cons in He as [He|He%list_elem_of_singleton]; [eapply (Hfile (model_id_alias (mc_served_model entry))); [|done]|].
    { cbn [map]. rewrite !elem_of_cons. by right; left. }
    destruct Hreg as [->| ->]; cbn in He; [|left; by rewrite He]. eapply (Hfile (model_id_alias (mc_frame_model entry))); [|done].
    cbn [map]. rewrite !elem_of_cons. by left.
  - apply list_elem_of_singleton in He. left. by rewrite He.
Qed.

Definition sample_entry : ModelConfig := {|
  mc_frame_model := "qwen--qwen3--32b"; mc_base_url := "https://api.example/v1"; mc_served_model := "vendor/q3-32b-fast";
  mc_api_key_env := "KEY"; mc_sample_algorithm := Seed; mc_identity_aliases := ["Qwen3-32B-Instruct"%string];
  mc_fingerprints := [{| fg_probe_prompt := "Think."; fg_expected_contains := "<think>"; fg_accepts_reasoning := true |}] |}.
Definition sample_models : ModelsConfig := {| ms_models := {["qwen"%string := sample_entry]} |}.
Lemma honest_answers_pass_witness :
  model_verify (ModelCheck_new (λ b, b) "qwen--qwen3--32b" (Some sample_models)) "QWEN3-32b-instruct" = Pass.
Proof.
  apply (honest_answers_pass (λ b, b) "qwen--qwen3--32b" sample_models sample_entry None None);
    [vm_compute; reflexivity..|by left|by left|vm_compute; reflexivity].
Defined.
