(* ===== verification/BuyerBudget.v ===== *)
(** * What a buyer's deal may still be charged

    crates/dexdo/src/buyer/api/error.rs: the refusals a client sees.  buyer/api/mod.rs: the
    counters of a deal ([ApiDeal]), the reservation of a request and the weekly budget of a
    subscription, which follows the contract's claim cap.  Counters are shared atomics: the
    deal is one state, and each operation is a step on it.  What another task does while an
    admission waits for the refresh lock, the clock, and the answers of the chain are
    arguments. *)
From S2P Require Import Prelude RustText Params Address DealTypes.

(** ** Refusals *)

Inductive ConsumerErrorCode : Type :=
  DealUnavailable | DealStateUnavailable | OrderUnavailableCode | DealNotOpened | PurchaseReconciliationRequired | InvalidBuyTicks
| DealBudgetExhausted | RenewalPending | SubscriptionBudgetExhausted | SubscriptionStateUnavailable | SubscriptionTerminal
| VerificationBudgetInsufficient | VerificationGrantConsumed | DealBusy | DealCapacityUnavailable | OnchainDealLimit
| UpstreamRetryable | UpstreamUsageUnresolved | UnsupportedApiPath | SellerUpdateRequired.
#[export] Instance ConsumerErrorCode_eq_dec : EqDecision ConsumerErrorCode.
Proof. solve_decision. Defined.

Definition recovery_action (c : ConsumerErrorCode) : string :=
  match c with
  | OrderUnavailableCode | VerificationGrantConsumed => "retry"
  | DealBusy | RenewalPending | DealStateUnavailable | UpstreamRetryable => "retry_with_backoff"
  | SubscriptionBudgetExhausted => "wait_for_next_cycle"
  | DealBudgetExhausted => "new_purchase"
  | DealNotOpened | PurchaseReconciliationRequired | SubscriptionStateUnavailable => "read_only_reconciliation"
  | DealCapacityUnavailable | OnchainDealLimit => "retry_after_reconciliation"
  | UpstreamUsageUnresolved => "read_only_reconciliation"
  | InvalidBuyTicks | UnsupportedApiPath => "change_request"
  | SellerUpdateRequired => "wait_for_seller_update"
  | DealUnavailable | VerificationBudgetInsufficient | SubscriptionTerminal => "operator_action"
  end.
(** Its name in snake case. *)
Definition error_code_name (c : ConsumerErrorCode) : string :=
  match c with
  | DealUnavailable => "deal_unavailable" | DealStateUnavailable => "deal_state_unavailable"
  | OrderUnavailableCode => "order_unavailable" | DealNotOpened => "deal_not_opened"
  | PurchaseReconciliationRequired => "purchase_reconciliation_required" | InvalidBuyTicks => "invalid_buy_ticks"
  | DealBudgetExhausted => "deal_budget_exhausted" | RenewalPending => "renewal_pending"
  | SubscriptionBudgetExhausted => "subscription_budget_exhausted" | SubscriptionStateUnavailable => "subscription_state_unavailable"
  | SubscriptionTerminal => "subscription_terminal" | VerificationBudgetInsufficient => "verification_budget_insufficient"
  | VerificationGrantConsumed => "verification_grant_consumed" | DealBusy => "deal_busy"
  | DealCapacityUnavailable => "deal_capacity_unavailable" | OnchainDealLimit => "onchain_deal_limit"
  | UpstreamRetryable => "upstream_retryable" | UpstreamUsageUnresolved => "upstream_usage_unresolved"
  | UnsupportedApiPath => "unsupported_api_path" | SellerUpdateRequired => "seller_update_required"
  end.

Record ConsumerError : Type := { ce_code : ConsumerErrorCode; ce_message : text }.
Definition refusal (code : ConsumerErrorCode) (message : text) : ConsumerError := {| ce_code := code; ce_message := message |}.
(** A diagnostic text of the weekly state. *)
Definition state_refusal : text → ConsumerError := refusal SubscriptionStateUnavailable.
Definition error_body (show_text : text → string) (e : ConsumerError) (anthropic : bool) : Value :=
  let error := Object [("type", Str "invalid_request_error"); ("code", Str (error_code_name (ce_code e)));
                       ("message", Str (show_text (ce_message e))); ("recovery_action", Str (recovery_action (ce_code e)))]%string in
  Object (("error", error) :: if anthropic then [("type", Str "error")] else [])%string.
Definition error_status (e : ConsumerError) (status : Z) : Z :=
  if bool_decide (ce_code e = UpstreamUsageUnresolved) then 503 else status.
Definition budget_rejection (renewal_enabled : bool) (e : ConsumerError) : ConsumerError :=
  if bool_decide (ce_code e = DealBudgetExhausted) && renewal_enabled
  then refusal RenewalPending f["active deal budget exhausted; waiting for renewal handover"] else e.

(** ** The reservation of a request *)

Record RouteReservation : Type := { rs_granted : Z; rs_used : Z }.
Definition reservation_remaining (r : RouteReservation) : Z := saturating_sub (rs_granted r) (rs_used r).
Definition checked_used_after (billable : Z) (r : RouteReservation) : Result text Z :=
  ok_or (let* used := checked_add u64 (rs_used r) billable in if used <=? rs_granted r then Some used else None)
    f["accepted billable usage of "; billable; " tokens does not fit the held route reservation: "; rs_used r; " used of ";
      rs_granted r; " granted"].

(** ** The deal *)

Definition CONTENT_PROBE_MAX_TOKENS : Z := 64.
(** The content gate: whether it probes, and whether a verdict is cached. *)
Record ContentGate : Type := { cg_probe : bool; cg_verdict : bool }.
Definition outstanding_verification_tokens (g : ContentGate) : Z :=
  if cg_probe g && negb (cg_verdict g) then saturating_mul u64 CONTENT_PROBE_MAX_TOKENS 2 else 0.

Record SubscriptionWeeklyBudget : Type := {
  wk_claim_anchor : Z; wk_anchored_before_probe : bool; wk_terminal : bool; wk_published_week : Z; wk_expires_at : Z;
}.
Definition SubscriptionWeeklyBudget_new (state : DealChainState) (subscription : DealSubscription) : SubscriptionWeeklyBudget := {|
  wk_claim_anchor := cs_tokens_pending state; wk_anchored_before_probe := negb (cs_probe_accepted state);
  wk_terminal := term_is_over subscription; wk_published_week := week_index subscription;
  wk_expires_at := recorded_week_expires_at subscription |}.

Record ApiDeal : Type := {
  ad_token_contract : string; ad_gate : ContentGate; ad_weekly : option SubscriptionWeeklyBudget;
  ad_billable : Z; ad_visible_output : Z; ad_ceiling : Z;
  ad_last_output : Z; ad_generation : Z; ad_active_requests : Z; ad_last_request : Z;
  ad_probe_accepted : bool;
  ad_unresolved : bool;   (** the session's unresolved_output_usage *)
}.
Definition ApiDeal_new (token_contract : string) (max_tokens : Z) (gate : ContentGate) : ApiDeal := {|
  ad_token_contract := token_contract; ad_gate := gate; ad_weekly := None; ad_billable := 0; ad_visible_output := 0;
  ad_ceiling := max_tokens; ad_last_output := 0; ad_generation := 0; ad_active_requests := 0; ad_last_request := 0;
  ad_probe_accepted := false; ad_unresolved := false |}.

(** Assignments to the fields. *)
Definition set_ad_gate (v : ContentGate) (d : ApiDeal) : ApiDeal := {|
  ad_token_contract := ad_token_contract d; ad_gate := v; ad_weekly := ad_weekly d; ad_billable := ad_billable d;
  ad_visible_output := ad_visible_output d; ad_ceiling := ad_ceiling d; ad_last_output := ad_last_output d;
  ad_generation := ad_generation d; ad_active_requests := ad_active_requests d; ad_last_request := ad_last_request d;
  ad_probe_accepted := ad_probe_accepted d; ad_unresolved := ad_unresolved d |}.
Definition set_ad_weekly (v : option SubscriptionWeeklyBudget) (d : ApiDeal) : ApiDeal := {|
  ad_token_contract := ad_token_contract d; ad_gate := ad_gate d; ad_weekly := v; ad_billable := ad_billable d;
  ad_visible_output := ad_visible_output d; ad_ceiling := ad_ceiling d; ad_last_output := ad_last_output d;
  ad_generation := ad_generation d; ad_active_requests := ad_active_requests d; ad_last_request := ad_last_request d;
  ad_probe_accepted := ad_probe_accepted d; ad_unresolved := ad_unresolved d |}.
Definition set_ad_billable (v : Z) (d : ApiDeal) : ApiDeal := {|
  ad_token_contract := ad_token_contract d; ad_gate := ad_gate d; ad_weekly := ad_weekly d; ad_billable := v;
  ad_visible_output := ad_visible_output d; ad_ceiling := ad_ceiling d; ad_last_output := ad_last_output d;
  ad_generation := ad_generation d; ad_active_requests := ad_active_requests d; ad_last_request := ad_last_request d;
  ad_probe_accepted := ad_probe_accepted d; ad_unresolved := ad_unresolved d |}.
Definition set_ad_visible_output (v : Z) (d : ApiDeal) : ApiDeal := {|
  ad_token_contract := ad_token_contract d; ad_gate := ad_gate d; ad_weekly := ad_weekly d;
  ad_billable := ad_billable d; ad_visible_output := v; ad_ceiling := ad_ceiling d; ad_last_output := ad_last_output d;
  ad_generation := ad_generation d; ad_active_requests := ad_active_requests d; ad_last_request := ad_last_request d;
  ad_probe_accepted := ad_probe_accepted d; ad_unresolved := ad_unresolved d |}.
Definition set_ad_ceiling (v : Z) (d : ApiDeal) : ApiDeal := {|
  ad_token_contract := ad_token_contract d; ad_gate := ad_gate d; ad_weekly := ad_weekly d;
  ad_billable := ad_billable d; ad_visible_output := ad_visible_output d; ad_ceiling := v;
  ad_last_output := ad_last_output d; ad_generation := ad_generation d; ad_active_requests := ad_active_requests d;
  ad_last_request := ad_last_request d; ad_probe_accepted := ad_probe_accepted d; ad_unresolved := ad_unresolved d |}.
Definition set_ad_last_output (v : Z) (d : ApiDeal) : ApiDeal := {|
  ad_token_contract := ad_token_contract d; ad_gate := ad_gate d; ad_weekly := ad_weekly d;
  ad_billable := ad_billable d; ad_visible_output := ad_visible_output d; ad_ceiling := ad_ceiling d;
  ad_last_output := v; ad_generation := ad_generation d; ad_active_requests := ad_active_requests d;
  ad_last_request := ad_last_request d; ad_probe_accepted := ad_probe_accepted d; ad_unresolved := ad_unresolved d |}.
Definition set_ad_generation (v : Z) (d : ApiDeal) : ApiDeal := {|
  ad_token_contract := ad_token_contract d; ad_gate := ad_gate d; ad_weekly := ad_weekly d;
  ad_billable := ad_billable d; ad_visible_output := ad_visible_output d; ad_ceiling := ad_ceiling d;
  ad_last_output := ad_last_output d; ad_generation := v; ad_active_requests := ad_active_requests d;
  ad_last_request := ad_last_request d; ad_probe_accepted := ad_probe_accepted d; ad_unresolved := ad_unresolved d |}.
Definition set_ad_active_requests (v : Z) (d : ApiDeal) : ApiDeal := {|
  ad_token_contract := ad_token_contract d; ad_gate := ad_gate d; ad_weekly := ad_weekly d;
  ad_billable := ad_billable d; ad_visible_output := ad_visible_output d; ad_ceiling := ad_ceiling d;
  ad_last_output := ad_last_output d; ad_generation := ad_generation d; ad_active_requests := v;
  ad_last_request := ad_last_request d; ad_probe_accepted := ad_probe_accepted d; ad_unresolved := ad_unresolved d |}.
Definition set_ad_last_request (v : Z) (d : ApiDeal) : ApiDeal := {|
  ad_token_contract := ad_token_contract d; ad_gate := ad_gate d; ad_weekly := ad_weekly d;
  ad_billable := ad_billable d; ad_visible_output := ad_visible_output d; ad_ceiling := ad_ceiling d;
  ad_last_output := ad_last_output d; ad_generation := ad_generation d; ad_active_requests := ad_active_requests d;
  ad_last_request := v; ad_probe_accepted := ad_probe_accepted d; ad_unresolved := ad_unresolved d |}.
Definition set_ad_probe_accepted (v : bool) (d : ApiDeal) : ApiDeal := {|
  ad_token_contract := ad_token_contract d; ad_gate := ad_gate d; ad_weekly := ad_weekly d;
  ad_billable := ad_billable d; ad_visible_output := ad_visible_output d; ad_ceiling := ad_ceiling d;
  ad_last_output := ad_last_output d; ad_generation := ad_generation d; ad_active_requests := ad_active_requests d;
  ad_last_request := ad_last_request d; ad_probe_accepted := v; ad_unresolved := ad_unresolved d |}.
Definition set_ad_unresolved (v : bool) (d : ApiDeal) : ApiDeal := {|
  ad_token_contract := ad_token_contract d; ad_gate := ad_gate d; ad_weekly := ad_weekly d;
  ad_billable := ad_billable d; ad_visible_output := ad_visible_output d; ad_ceiling := ad_ceiling d;
  ad_last_output := ad_last_output d; ad_generation := ad_generation d; ad_active_requests := ad_active_requests d;
  ad_last_request := ad_last_request d; ad_probe_accepted := ad_probe_accepted d; ad_unresolved := v |}.
Definition set_wk_claim_anchor (v : Z) (d : SubscriptionWeeklyBudget) : SubscriptionWeeklyBudget := {|
  wk_claim_anchor := v; wk_anchored_before_probe := wk_anchored_before_probe d; wk_terminal := wk_terminal d;
  wk_published_week := wk_published_week d; wk_expires_at := wk_expires_at d |}.
Definition set_wk_anchored_before_probe (v : bool) (d : SubscriptionWeeklyBudget) : SubscriptionWeeklyBudget := {|
  wk_claim_anchor := wk_claim_anchor d; wk_anchored_before_probe := v; wk_terminal := wk_terminal d;
  wk_published_week := wk_published_week d; wk_expires_at := wk_expires_at d |}.
Definition set_wk_terminal (v : bool) (d : SubscriptionWeeklyBudget) : SubscriptionWeeklyBudget := {|
  wk_claim_anchor := wk_claim_anchor d; wk_anchored_before_probe := wk_anchored_before_probe d; wk_terminal := v;
  wk_published_week := wk_published_week d; wk_expires_at := wk_expires_at d |}.
Definition set_wk_published_week (v : Z) (d : SubscriptionWeeklyBudget) : SubscriptionWeeklyBudget := {|
  wk_claim_anchor := wk_claim_anchor d; wk_anchored_before_probe := wk_anchored_before_probe d;
  wk_terminal := wk_terminal d; wk_published_week := v; wk_expires_at := wk_expires_at d |}.
Definition set_wk_expires_at (v : Z) (d : SubscriptionWeeklyBudget) : SubscriptionWeeklyBudget := {|
  wk_claim_anchor := wk_claim_anchor d; wk_anchored_before_probe := wk_anchored_before_probe d;
  wk_terminal := wk_terminal d; wk_published_week := wk_published_week d; wk_expires_at := v |}.

Definition with_weekly_budget (weekly : SubscriptionWeeklyBudget) (d : ApiDeal) : ApiDeal := set_ad_weekly (Some weekly) d.

(** ** Counters *)

Definition record_visible_output (tokens : Z) (d : ApiDeal) : Result text ApiDeal :=
  match checked_add u64 (ad_visible_output d) tokens with
  | Some visible => Ok (set_ad_visible_output visible d)
  | None => Err f["cumulative route-delivery accounting overflow"]
  end.
(** [fetch_max] and [fetch_add], which wraps. *)
Definition record_accepted_output (now_secs : Z) (d : ApiDeal) : ApiDeal :=
  set_ad_generation (uadd u64 (ad_generation d) 1) (set_ad_last_output (Z.max (ad_last_output d) now_secs) d).
Definition record_billable (n : Z) (d : ApiDeal) : Result text ApiDeal :=
  let ceiling := ad_ceiling d in
  match checked_add u64 (ad_billable d) n with
  | Some next =>
      if next <=? ceiling then Ok (set_ad_billable next d)
      else Err f["terminal usage would raise cumulative billing from "; ad_billable d; " to "; next;
                 " tokens above the currently published route ceiling "; ceiling]
  | None => Err f["cumulative billable-token accounting overflow"]
  end.
Definition begin_request_counters (now_secs : Z) (d : ApiDeal) : ApiDeal :=
  set_ad_active_requests (uadd u64 (ad_active_requests d) 1) (set_ad_last_request now_secs d).
Definition has_active_request (d : ApiDeal) : bool := ad_active_requests d >? 0.
Definition has_active_or_recent_request (now_secs recent_window_secs : Z) (d : ApiDeal) : bool :=
  has_active_request d
  || negb (ad_last_request d =? 0) && (saturating_sub now_secs (ad_last_request d) <=? recent_window_secs).
(** What a background read of the chain shows of the trial tick. *)
Definition observe_probe (read : Result ChainError (option DealChainState)) (d : ApiDeal) : ApiDeal :=
  match read with
  | Ok (Some state) => if cs_probe_accepted state then set_ad_probe_accepted true d else d
  | _ => d
  end.

(** ** Admission *)

Definition weekly_terminal (d : ApiDeal) : bool := match ad_weekly d with Some w => wk_terminal w | None => false end.
Definition weekly_anchored (d : ApiDeal) : bool :=
  match ad_weekly d with Some w => wk_anchored_before_probe w | None => false end.
Definition PROBE_TICK_TOKENS : Z := TICK_SIZE.
Definition admission_ceiling (probe_accepted : bool) (d : ApiDeal) : Z :=
  if weekly_anchored d then PROBE_TICK_TOKENS else
  let published := ad_ceiling d in
  if bool_decide (ad_weekly d = None) && negb probe_accepted then Z.min published PROBE_TICK_TOKENS else published.
Definition remaining_tokens (d : ApiDeal) : Z :=
  if weekly_terminal d then 0 else saturating_sub (admission_ceiling true d) (ad_billable d).
Definition try_reserve (probe_accepted : bool) (d : ApiDeal) : option RouteReservation :=
  let granted := saturating_sub (admission_ceiling probe_accepted d) (ad_billable d) in
  if granted >? outstanding_verification_tokens (ad_gate d) then Some {| rs_granted := granted; rs_used := 0 |} else None.

Definition unresolved_usage_error : ConsumerError := refusal UpstreamUsageUnresolved
  f["provider output has no reconciled terminal usage; preserve this deal and reconcile the failed request before resuming"].
Definition exhausted_reason (probe_accepted : bool) (d : ApiDeal) : ConsumerError :=
  let verification_tokens := outstanding_verification_tokens (ad_gate d) in
  let paid_ceiling := ad_ceiling d in
  if (admission_ceiling probe_accepted d <? paid_ceiling) && (saturating_sub paid_ceiling (ad_billable d) >? verification_tokens) then
    refusal DealCapacityUnavailable
      f["the trial tick's admission capacity cannot serve this request yet; retry after authoritative probe acceptance and capacity reconciliation"]
  else if verification_tokens >? 0 then
    refusal VerificationBudgetInsufficient
      f["what is left of this deal cannot pay for the identity verification it still owes and deliver an answer as well; refusing before the verification probe is sent rather than burning it for nothing"]
  else if bool_decide (is_Some (ad_weekly d)) then
    refusal SubscriptionBudgetExhausted f["the current weekly budget is exhausted; wait for the next weekly cycle"]
  else refusal DealBudgetExhausted f["active deal budget exhausted; authorize a new purchase explicitly"].

(** ** The weekly budget *)

Definition local_ceiling (tc : string) (s : DealChainSnapshot) (anchor : Z) : Result text Z :=
  let? cap := map_err (λ error, f["subscription "; tc; ": "] ++ error) (subscription_claim_cap_at (snap_state s) (snap_subscription s)) in
  let? local := ok_or (checked_sub cap anchor)
    f["subscription "; tc; ": claim ceiling "; cap; " is below the cumulative claim "; anchor;
      " this route was anchored on; refusing rather than authorizing on contradictory state"] in
  ok_or (try_into u64 local)
    f["subscription "; tc; ": claim ceiling "; local;
      " tokens above the anchor does not fit the route's counter; refusing rather than serving a truncated authorization"].
(** The anchor after the rebase, when this read is the one that rebases it. *)
Definition rebase_anchor_on_probe (tc : string) (state : DealChainState) (delivered : Z) (w : SubscriptionWeeklyBudget)
    : Result text (option Z) :=
  if negb (cs_probe_accepted state) || negb (wk_anchored_before_probe w) then Ok None else
  rmap Some (ok_or (checked_sub TICK_SIZE delivered)
    f["subscription "; tc; ": the route delivered "; delivered; " tokens before probe acceptance, above the one-tick probe claim ";
      TICK_SIZE; "; refusing contradictory state"]).
Definition publish (week expires_at published_ceiling : Z) (w : SubscriptionWeeklyBudget) (d : ApiDeal) : ApiDeal :=
  set_ad_weekly (Some (set_wk_expires_at expires_at (set_wk_published_week week w))) (set_ad_ceiling published_ceiling d).

(** What the chain answered to the booking and to the read after it, and the clock. *)
Record ReconcileAnswers : Type := {
  ra_booking : Result ChainError (); ra_snapshot : Result text (option DealChainSnapshot); ra_now : Z;
}.
Definition set_weekly (w : SubscriptionWeeklyBudget) : ApiDeal → ApiDeal := set_ad_weekly (Some w).

(** From the coherent state on: what is judged before anything is published. *)
Definition judge_snapshot (tc : string) (a : ReconcileAnswers) (s : DealChainSnapshot) (w : SubscriptionWeeklyBudget)
    : Op ApiDeal ConsumerError () :=
  let sub := snap_subscription s in
  let terminal message := do _t <- op_write (set_weekly (set_wk_terminal true w)); op_ret (Err (refusal SubscriptionTerminal message)) in
  if negb (is_subscription sub) then
    op_ret (Err (state_refusal f["TokenContract "; tc; " is not a subscription; its budget has no weekly boundary"]))
  else if cs_disputed (snap_state s) || is_stopped (snap_state s) then
    terminal f["subscription "; tc; " is disputed/stopped; it cannot be revived by a quota refresh"]
  else if term_is_over sub then
    terminal f["subscription "; tc; " has served its full "; sub_weeks sub;
               "-week term; the claim ceiling is the cumulative total already declared and no quota remains"]
  else if negb (cs_opened (snap_state s)) then
    op_ret (Err (state_refusal f["subscription "; tc; " is not open; no weekly quota is servable"]))
  else
    let republished := negb (wk_published_week w =? week_index sub) in
    if is_ok (ra_booking a) && negb republished then
      op_ret (Err (state_refusal f["subscription "; tc;
        " booked a boundary the authoritative read does not show yet; refusing rather than serving week "; week_index sub + 1;
        " on a read that lags the booking"]))
    else if negb republished && (ra_now a >=? recorded_week_expires_at sub) then
      op_ret (Err (state_refusal f["subscription "; tc; " could not book the boundary its week "; week_index sub + 1; " of ";
        sub_weeks sub; " needs (the contract answered no boundary was due, or the submission did not land); the recorded week ended at unix ";
        recorded_week_expires_at sub; " and its remainder is not an authorization"]))
    else op_ret (Ok ()).
(** The cut-over: anchor, ceiling, week and expiry, published together or not at all; an anchor
    that moved before a refusal stays moved, and its flag stays up. *)
Definition cut_over (tc : string) (a : ReconcileAnswers) (s : DealChainSnapshot) (w : SubscriptionWeeklyBudget)
    : Op ApiDeal ConsumerError () :=
  let sub := snap_subscription s in
  let republished := negb (wk_published_week w =? week_index sub) in
  do moved <- op_read (λ d, map_err state_refusal (rebase_anchor_on_probe tc (snap_state s) (ad_billable d) w));
  let w := match moved with Some anchor => set_wk_claim_anchor anchor w | None => w end in
  let rebased := bool_decide (is_Some moved) in
  do _w <- op_write (set_weekly w);
  do published <- (if republished || rebased then op_ret (map_err state_refusal (local_ceiling tc s (wk_claim_anchor w)))
                   else op_read (λ d, Ok (ad_ceiling d)));
  let w := if rebased then set_wk_anchored_before_probe false w else w in
  do _p <- op_write (publish (week_index sub) (recorded_week_expires_at sub) published w);
  op_read (λ d, if published <=? ad_billable d
    then Err (refusal SubscriptionBudgetExhausted f["subscription "; tc; " week "; week_index sub + 1; " of "; sub_weeks sub;
      " is drawn down ("; if is_ok (ra_booking a) then "the boundary was booked" else "no boundary was due";
      "); the next weekly quota opens at unix "; recorded_week_expires_at sub; " and the deal stays live until then"])
    else Ok ()).
Definition reconcile (a : ReconcileAnswers) : Op ApiDeal ConsumerError () := λ d,
  let tc := display_self_dapp (ad_token_contract d) in
  match ad_weekly d with
  | None => (Ok (), d)
  | Some w =>
      if wk_terminal w then
        (Err (refusal SubscriptionTerminal f["subscription "; tc; " is terminal; the contract admits no further claim"]), d)
      else
        match ra_snapshot a with
        | Err error =>
            (Err (state_refusal (f["subscription "; tc; ": authoritative weekly state is unreadable ("] ++ error
                                 ++ f["); refusing rather than serving on a stale ceiling"])), d)
        | Ok None =>
            (Err (state_refusal f["subscription "; tc; ": no coherent snapshot; refusing rather than serving on a stale ceiling"]), d)
        | Ok (Some s) => op_bind (judge_snapshot tc a s w) (λ _, cut_over tc a s w) d
        end
  end.

(** [admit_with_probe_observation]: the clock at the first and the second look, and what other
    tasks do while this one waits for the lock. *)
Record AdmitWorld : Type := {
  aw_first : Z; aw_waiting : ApiDeal → ApiDeal; aw_second : Z; aw_reconcile : ReconcileAnswers;
}.
Definition reserve_or_say (probe_accepted : bool) (d : ApiDeal) : Result ConsumerError RouteReservation :=
  ok_or (try_reserve probe_accepted d) (exhausted_reason probe_accepted d).
Definition week_is_fresh (now : Z) (d : ApiDeal) : bool :=
  match ad_weekly d with
  | Some w => (remaining_tokens d >? 0) && negb (now >=? wk_expires_at w) && negb (wk_anchored_before_probe w)
  | None => true
  end.
Definition admit_with_probe_observation (w : AdmitWorld) (probe_accepted : bool) : Op ApiDeal ConsumerError RouteReservation := λ d,
  if ad_unresolved d then (Err unresolved_usage_error, d) else
  match ad_weekly d with
  | None => (reserve_or_say probe_accepted d, d)
  | Some weekly =>
      if wk_terminal weekly then
        (Err (refusal SubscriptionTerminal
           f["subscription "; display_self_dapp (ad_token_contract d); " is terminal; the contract admits no further claim"]), d)
      else
        match (if week_is_fresh (aw_first w) d then try_reserve probe_accepted d else None) with
        | Some reservation => (Ok reservation, d)
        | None =>
            let d := aw_waiting w d in
            if week_is_fresh (aw_second w) d then (reserve_or_say probe_accepted d, d)
            else op_bind (reconcile (aw_reconcile w)) (λ _, op_read (reserve_or_say probe_accepted)) d
        end
  end.

(** ** The calls that change a deal, in the order in which they take effect *)

Inductive BudgetCall : Type :=
| Reconcile (a : ReconcileAnswers)
| Bill (n : Z)
| Output (tokens now_secs : Z)
| Begin (now_secs : Z)
| Ended
| ObserveProbe (read : Result ChainError (option DealChainState))
| VerdictCached
| UsageUnresolved.
Definition budget_step (c : BudgetCall) (d : ApiDeal) : ApiDeal :=
  match c with
  | Reconcile a => (reconcile a d).2
  | Bill n => unwrap_or d (result_ok (record_billable n d))
  | Output tokens now_secs =>
      match record_visible_output tokens d with Ok d => record_accepted_output now_secs d | Err _ => d end
  | Begin now_secs => begin_request_counters now_secs d
  | Ended => set_ad_active_requests (usub u64 (ad_active_requests d) 1) d
  | ObserveProbe read => observe_probe read d
  | VerdictCached => set_ad_gate {| cg_probe := cg_probe (ad_gate d); cg_verdict := true |} d
  | UsageUnresolved => set_ad_unresolved true d
  end.
Definition budget_run : list BudgetCall → ApiDeal → ApiDeal := fold_left (λ d c, budget_step c d).
(** The snapshots that the chain gave. *)
Definition snapshots (calls : list BudgetCall) : list DealChainSnapshot :=
  omap (λ c, match c with Reconcile a => match ra_snapshot a with Ok s => s | Err _ => None end | _ => None end) calls.
Definition claim_cap_of (s : DealChainSnapshot) : Result text Z := subscription_claim_cap_at (snap_state s) (snap_subscription s).

(** ** A subscription is never charged beyond the contract's claim cap *)

(** The anchors a route may have measured from: the cumulative claim it was bought at, and
    what a billing of less than the trial tick leaves of that tick. *)
Definition anchored_at (origin anchor : Z) : Prop := anchor = origin ∨ 0 ≤ anchor ∧ ∃ delivered, anchor = TICK_SIZE - delivered.
(** The ceiling of a deal is the claim cap of a snapshot of the published week, measured from an
    anchor of the route: from its present one once that is final. *)
Definition authorized (origin : Z) (reads : list DealChainSnapshot) (d : ApiDeal) : Prop :=
  match ad_weekly d with
  | None => False
  | Some w => anchored_at origin (wk_claim_anchor w) ∧
      ∃ s cap anchor, s ∈ reads ∧ claim_cap_of s = Ok cap ∧ wk_published_week w = week_index (snap_subscription s) ∧
        anchored_at origin anchor ∧ anchor + ad_ceiling d = cap ∧ (wk_anchored_before_probe w = false → anchor = wk_claim_anchor w)
  end.

Lemma authorized_more origin reads s d : authorized origin reads d → authorized origin (reads ++ s) d.
Proof.
  unfold authorized. destruct (ad_weekly d) as [w|]; [|done]. intros (Ha & s' & cap & anchor & Hs & Hrest).
  split; [done|]. exists s', cap, anchor. split; [by apply elem_of_app; left|done].
Qed.

Lemma local_ceiling_ok tc s anchor ceiling :
  local_ceiling tc s anchor = Ok ceiling → ∃ cap, claim_cap_of s = Ok cap ∧ anchor + ceiling = cap.
Proof. unfold local_ceiling, claim_cap_of. intros H. ok_inv. eexists. split; [done|lia]. Qed.

Lemma same_budget origin reads d d' :
  ad_weekly d' = ad_weekly d → ad_ceiling d' = ad_ceiling d → authorized origin reads d → authorized origin reads d'.
Proof. unfold authorized. by intros -> ->. Qed.

Lemma record_billable_Ok n d d' :
  record_billable n d = Ok d' → d' = set_ad_billable (ad_billable d + n) d ∧ ad_billable d + n ≤ Z.min (ad_ceiling d) (umax u64).
Proof.
  unfold record_billable. destruct (checked_add u64 (ad_billable d) n) as [next|] eqn:Hadd; [|done]. apply checked_add_Some in Hadd as [-> Hmax].
  destruct (_ <=? _) eqn:Hle; [|done]. apply Z.leb_le in Hle. intros [= <-]. split; [done|]. lia.
Qed.

Lemma record_visible_Ok n d d' :
  record_visible_output n d = Ok d' → d' = set_ad_visible_output (ad_visible_output d + n) d ∧ ad_visible_output d + n ≤ umax u64.
Proof.
  unfold record_visible_output. destruct (checked_add u64 (ad_visible_output d) n) as [next|] eqn:Hadd; [|done].
  apply checked_add_Some in Hadd as [-> Hmax]. by intros [= <-].
Qed.

Lemma judge_snapshot_state tc a s w d : ad_weekly d = Some w →
  (judge_snapshot tc a s w d).2 = d ∨ (judge_snapshot tc a s w d).2 = set_weekly (set_wk_terminal true w) d ∧ ∃ e, (judge_snapshot tc a s w d).1 = Err e.
Proof. intros Hw. unfold judge_snapshot. cbv zeta. repeat match goal with |- context [if ?b then _ else _] => destruct b end; cbn; eauto. Qed.

Lemma rebase_anchored origin tc state delivered w moved :
  rebase_anchor_on_probe tc state delivered w = Ok (Some moved) → anchored_at origin moved ∧ wk_anchored_before_probe w = true.
Proof.
  unfold rebase_anchor_on_probe. destruct (negb (cs_probe_accepted state) || negb (wk_anchored_before_probe w)) eqn:Hno; [done|].
  apply orb_false_elim in Hno as [_ ->%negb_false_iff]. destruct (checked_sub TICK_SIZE delivered) as [x|] eqn:Hx; [|done].
  cbn. intros [= <-]. apply checked_sub_Some in Hx as [-> ?]. split; [|done]. right. split; [lia|by exists delivered].
Qed.

Lemma cut_over_authorized origin reads tc a s w d :
  ad_weekly d = Some w → s ∈ reads → authorized origin reads d → authorized origin reads (cut_over tc a s w d).2.
Proof.
  intros Hw Hs Hd. pose proof Hd as Hd0. unfold authorized in Hd. rewrite Hw in Hd. destruct Hd as (Ha & s' & cap' & anchor' & Hs' & Hcap' & Hwk & Ha' & Heq' & Hfin).
  unfold cut_over, op_bind, op_read, op_write, op_ret.
  destruct (rebase_anchor_on_probe _ _ _ _) as [moved|e] eqn:Hm; cbn; [|done].
  set (w1 := match moved with Some anchor => set_wk_claim_anchor anchor w | None => w end).
  assert (anchored_at origin (wk_claim_anchor w1) ∧ wk_published_week w1 = wk_published_week w ∧
    wk_anchored_before_probe w1 = wk_anchored_before_probe w ∧ (is_Some moved → wk_anchored_before_probe w = true) ∧
    (moved = None → w1 = w)) as (Ha1 & Hwk1 & Hfl1 & Hflag & Hsame).
  { destruct moved as [moved|]; [|split_and!; try done; by intros []]. by destruct (rebase_anchored origin _ _ _ _ _ Hm). }
  destruct (negb (wk_published_week w =? week_index (snap_subscription s)) || bool_decide (is_Some moved)) eqn:Hr; cbn.
  - destruct (local_ceiling _ _ _) as [ceiling|e] eqn:Hl; cbn.
    + apply local_ceiling_ok in Hl as (cap & Hcap & Heq). split; [by case_bool_decide|].
      exists s, cap, (wk_claim_anchor w1). split_and!; try done. by case_bool_decide.
    + split; [done|]. exists s', cap', anchor'. rewrite Hwk1, Hfl1. split_and!; try done.
      intros Hf. destruct (decide (is_Some moved)) as [Hsm|Hnm]; [by rewrite (Hflag Hsm) in Hf|].
      rewrite Hsame by (by apply eq_None_not_Some). auto.
  - apply orb_false_elim in Hr as [Hweek%negb_false_iff%Z.eqb_eq Hmoved%bool_decide_eq_false%eq_None_not_Some].
    rewrite (bool_decide_eq_false_2 (is_Some moved)) by (by rewrite Hmoved; intros []). rewrite Hsame by done.
    split; [done|]. exists s', cap', anchor'. cbn. split_and!; try done. congruence.
Qed.

Lemma reconcile_authorized origin reads a d :
  authorized origin reads d → (∀ s, ra_snapshot a = Ok (Some s) → s ∈ reads) → authorized origin reads (reconcile a d).2.
Proof.
  intros Hd Hs. unfold reconcile. destruct (ad_weekly d) as [w|] eqn:Hw; [|done]. destruct (wk_terminal w); [done|].
  destruct (ra_snapshot a) as [[s|]|] eqn:Ha; [|done..]. specialize (Hs s eq_refl). unfold op_bind.
  pose proof (judge_snapshot_state (display_self_dapp (ad_token_contract d)) a s w d Hw) as Hj.
  destruct (judge_snapshot _ a s w d) as [[[]|e] d']; cbn in Hj |- *; destruct Hj as [->|[-> [? ?]]]; try done.
  - by apply cut_over_authorized.
  - unfold authorized in *. by rewrite Hw in Hd.
Qed.

Lemma budget_step_authorized origin reads c d :
  authorized origin reads d → authorized origin (reads ++ snapshots [c]) (budget_step c d).
Proof.
  intros Hd. apply (authorized_more _ _ (snapshots [c])) in Hd. destruct c; cbn [budget_step].
  - apply reconcile_authorized; [done|]. intros s Hs. apply elem_of_app. right. cbn. rewrite Hs. apply list_elem_of_here.
  - destruct (record_billable n d) as [d'|] eqn:Hb; [|done]. apply record_billable_Ok in Hb as [-> _]. by apply (same_budget _ _ d).
  - destruct (record_visible_output tokens d) as [d'|] eqn:Hb; [|done]. apply record_visible_Ok in Hb as [-> _]. by apply (same_budget _ _ d).
  - by apply (same_budget _ _ d).
  - by apply (same_budget _ _ d).
  - unfold observe_probe. destruct read as [[state|]|]; [|done..]. destruct (cs_probe_accepted state); [|done]. by apply (same_budget _ _ d).
  - by apply (same_budget _ _ d).
  - by apply (same_budget _ _ d).
Qed.

Lemma budget_run_authorized origin calls reads d :
  authorized origin reads d → authorized origin (reads ++ snapshots calls) (budget_run calls d).
Proof.
  revert reads d. induction calls as [|c calls IH]; intros reads d Hd; cbn; [by rewrite app_nil_r|].
  pose proof (IH _ _ (budget_step_authorized _ _ c _ Hd)) as H. revert H. rewrite <- app_assoc.
  assert (snapshots [c] ++ snapshots calls = snapshots (c :: calls)) as -> by (unfold snapshots; rewrite <- omap_app; done). done.
Qed.

Lemma claim_cap_funded s cap :
  claim_cap_of s = Ok cap → term_is_over (snap_subscription s) = false → cap ≤ funded_tokens (snap_subscription s).
Proof. unfold claim_cap_of, subscription_claim_cap_at. intros H Hterm. rewrite Hterm in H. destruct (is_subscription _); [|done]. ok_inv.
  destruct (checked_add _ _ _); [|done]. cbn in *. ok_inv. lia. Qed.

(** The deal of a subscription route, as the command line builds it from a snapshot. *)
Definition subscription_deal (tc : string) (gate : ContentGate) (s : DealChainSnapshot) (headroom : Z) : ApiDeal :=
  with_weekly_budget (SubscriptionWeeklyBudget_new (snap_state s) (snap_subscription s)) (ApiDeal_new tc headroom gate).

Lemma subscription_deal_authorized tc gate s headroom :
  subscription_current_week_headroom (snap_state s) (snap_subscription s) = Ok headroom →
  authorized (cs_tokens_pending (snap_state s)) [s] (subscription_deal tc gate s headroom).
Proof.
  unfold subscription_current_week_headroom. intros H. ok_inv. split; [by left|].
  exists s. eexists. exists (cs_tokens_pending (snap_state s)). split_and!; [apply list_elem_of_here|done|done|by left| |done].
  cbn. lia.
Qed.

(** C9: whatever the chain answers and however calls interleave, an accepted bill of a
    subscription keeps the cumulative consumption, measured from an anchor of the route, within the
    claim cap that the contract had in some snapshot that was read, the one of the published week;
    so no week is served twice and unspent tokens of a week never pay for the next.  The anchor
    is the final one once a read has shown the trial tick accepted and was published; until then
    it is the claim the route was bought at, or what the trial billed leaves of the trial tick. *)
Theorem subscription_billed_within_cap tc gate s0 headroom calls n d' :
  subscription_current_week_headroom (snap_state s0) (snap_subscription s0) = Ok headroom →
  record_billable n (budget_run calls (subscription_deal tc gate s0 headroom)) = Ok d' →
  ∃ w s cap anchor, ad_weekly d' = Some w ∧
    s ∈ s0 :: snapshots calls ∧ claim_cap_of s = Ok cap ∧ wk_published_week w = week_index (snap_subscription s) ∧
    anchor + ad_billable d' ≤ cap ∧
    (wk_anchored_before_probe w = false → anchor = wk_claim_anchor w) ∧
    (anchor = cs_tokens_pending (snap_state s0) ∨ 0 ≤ anchor ∧ ∃ delivered, anchor = TICK_SIZE - delivered).
Proof.
  intros Hh Hb. pose proof (budget_run_authorized _ calls _ _ (subscription_deal_authorized tc gate s0 headroom Hh)) as H.
  revert H Hb. generalize (budget_run calls (subscription_deal tc gate s0 headroom)). intros d H Hb.
  apply record_billable_Ok in Hb as [-> Hle]. unfold authorized in H. cbn. destruct (ad_weekly d) as [w|]; [|done].
  destruct H as (_ & s & cap & anchor & Hs & Hcap & Hwk & Ha & Heq & Hfin). exists w, s, cap, anchor. split_and!; try done. cbn. lia.
Qed.

(** ** What admits a request *)

Lemma outstanding_nonneg g : 0 ≤ outstanding_verification_tokens g.
Proof. unfold outstanding_verification_tokens. destruct (cg_probe g && _); by vm_compute. Qed.

Lemma try_reserve_Some probe d r :
  try_reserve probe d = Some r →
  rs_used r = 0 ∧ rs_granted r = admission_ceiling probe d - ad_billable d ∧ outstanding_verification_tokens (ad_gate d) < rs_granted r.
Proof.
  unfold try_reserve, saturating_sub. destruct (_ >? _) eqn:Hgt; [|done]. intros [= <-]. cbn. rewrite Z.gtb_ltb in Hgt.
  apply Z.ltb_lt in Hgt. split_and!; [done| |done].
  pose proof (outstanding_nonneg (ad_gate d)). lia.
Qed.

Lemma reserve_or_say_Ok probe d r : reserve_or_say probe d = Ok r → try_reserve probe d = Some r.
Proof. unfold reserve_or_say. intros H. by ok_inv. Qed.

(** A reconciliation that goes through leaves the deal on the week of the snapshot it read. *)
Lemma reconcile_Ok a d w d' :
  ad_weekly d = Some w → reconcile a d = (Ok (), d') →
  wk_terminal w = false ∧ ∃ s w', ra_snapshot a = Ok (Some s) ∧ ad_weekly d' = Some w' ∧
    wk_published_week w' = week_index (snap_subscription s) ∧ wk_expires_at w' = recorded_week_expires_at (snap_subscription s) ∧
    (week_index (snap_subscription s) ≠ wk_published_week w ∨
     ra_booking a ≠ Ok () ∧ ra_now a < recorded_week_expires_at (snap_subscription s)) ∧
    is_subscription (snap_subscription s) = true ∧ term_is_over (snap_subscription s) = false ∧
    cs_opened (snap_state s) = true ∧ cs_disputed (snap_state s) = false.
Proof.
  intros Hw. unfold reconcile. rewrite Hw. destruct (wk_terminal w) eqn:Ht; [done|].
  destruct (ra_snapshot a) as [[s|]|] eqn:Ha; [|done..]. unfold op_bind, judge_snapshot. cbv zeta.
  destruct (is_subscription (snap_subscription s)) eqn:Hsub; [|done]. cbn [negb].
  destruct (cs_disputed (snap_state s)) eqn:Hdis; [done|]. cbn [orb]. destruct (is_stopped (snap_state s)); [done|].
  destruct (term_is_over (snap_subscription s)) eqn:Hterm; [done|]. destruct (cs_opened (snap_state s)) eqn:Hopen; [|done]. cbn [negb].
  destruct (is_ok (ra_booking a) && negb (negb (wk_published_week w =? week_index (snap_subscription s)))) eqn:Hlag; [done|].
  destruct (negb (negb (wk_published_week w =? week_index (snap_subscription s))) && _) eqn:Hexp; [done|]. cbn [op_ret].
  unfold cut_over, op_bind, op_read, op_write, op_ret.
  destruct (rebase_anchor_on_probe _ _ _ _) as [moved|]; [|done]. cbn.
  destruct (if _ : bool then _ else _) as [[published|] d1] eqn:Hp; [|done]. cbn. destruct (_ <=? _); [done|]. intros [= <-].
  split; [done|]. exists s. eexists. split_and!; [done|done|by destruct moved; case_bool_decide|by destruct moved; case_bool_decide| |done..].
  destruct (wk_published_week w =? week_index (snap_subscription s)) eqn:Hweek; cbn in Hlag, Hexp.
  - right. split; [intros Hok; by rewrite Hok in Hlag|]. rewrite Z.geb_leb in Hexp. by apply Z.leb_gt in Hexp.
  - left. apply Z.eqb_neq in Hweek. done.
Qed.

(** C20: a subscription admits a request only on a week that is current, and never once it is
    terminal: a clock reading lies before the expiry of the published week, or the chain was
    asked and its coherent snapshot, of an open undisputed deal within its term, shows another
    week than the one published or an expiry that the clock has not reached; the grant is
    exactly what the ceiling leaves, one trial tick until the tick is accepted, and always
    more than the identity checks that the deal still owes. *)
Theorem admission_is_current w probe d weekly r d' :
  ad_weekly d = Some weekly → ad_weekly (aw_waiting w d) ≠ None →
  admit_with_probe_observation w probe d = (Ok r, d') →
  ad_unresolved d = false ∧ wk_terminal weekly = false ∧ rs_used r = 0 ∧
  rs_granted r = (if weekly_anchored d' then TICK_SIZE else ad_ceiling d') - ad_billable d' ∧
  outstanding_verification_tokens (ad_gate d') < rs_granted r ∧
  ∃ weekly', ad_weekly d' = Some weekly' ∧
    (d' = d ∧ aw_first w < wk_expires_at weekly' ∨
     d' = aw_waiting w d ∧ aw_second w < wk_expires_at weekly' ∨
     ∃ s before, ra_snapshot (aw_reconcile w) = Ok (Some s) ∧ ad_weekly (aw_waiting w d) = Some before ∧
       wk_published_week weekly' = week_index (snap_subscription s) ∧
       wk_expires_at weekly' = recorded_week_expires_at (snap_subscription s) ∧
       (wk_published_week weekly' ≠ wk_published_week before ∨ ra_now (aw_reconcile w) < wk_expires_at weekly') ∧
       term_is_over (snap_subscription s) = false ∧ cs_opened (snap_state s) = true ∧ cs_disputed (snap_state s) = false).
Proof.
  intros Hweekly Hwaiting. unfold admit_with_probe_observation. destruct (ad_unresolved d); [done|]. rewrite Hweekly. destruct (wk_terminal weekly) eqn:Hterm; [done|].
  assert (∀ e x, ad_weekly e = Some x → try_reserve probe e = Some r →
    rs_used r = 0 ∧ rs_granted r = (if weekly_anchored e then TICK_SIZE else ad_ceiling e) - ad_billable e ∧
    outstanding_verification_tokens (ad_gate e) < rs_granted r) as Hgrant.
  { intros e x He Hr. apply try_reserve_Some in Hr as (Hu & Hg & Ho). rewrite Hg in *. unfold admission_ceiling in *. rewrite He in *.
    rewrite bool_decide_eq_false_2 in * by done. cbn in *. by destruct (weekly_anchored e). }
  assert (∀ now e x, ad_weekly e = Some x → week_is_fresh now e = true → now < wk_expires_at x) as Hfresh.
  { intros now e x He. unfold week_is_fresh. rewrite He, !andb_true_iff, !negb_true_iff, Z.geb_leb, Z.leb_gt. tauto. }
  destruct (if week_is_fresh (aw_first w) d then try_reserve probe d else None) as [r1|] eqn:H1.
  - intros [= -> ->]. destruct (week_is_fresh (aw_first w) d') eqn:Hf; [|done]. destruct (Hgrant _ _ Hweekly H1) as (? & ? & ?).
    split_and!; [done..|]. exists weekly. split; [done|]. left. split; [done|]. by eapply Hfresh.
  - clear H1. destruct (ad_weekly (aw_waiting w d)) as [before|] eqn:Hb; [|done]. cbv zeta.
    destruct (week_is_fresh (aw_second w) (aw_waiting w d)) eqn:Hf.
    + intros [= Hr <-]. apply reserve_or_say_Ok in Hr. destruct (Hgrant _ _ Hb Hr) as (? & ? & ?).
      split_and!; [done..|]. exists before. split; [done|]. right; left. split; [done|]. by eapply Hfresh.
    + unfold op_bind, op_read. destruct (reconcile (aw_reconcile w) (aw_waiting w d)) as [[[]|] e] eqn:Hrec; [|done].
      intros [= Hr <-]. apply reserve_or_say_Ok in Hr. apply (reconcile_Ok _ _ _ _ Hb) in Hrec as (_ & s & w' & Hs & Hw' & Hweek & Hexp & Hcur & _ & Ho & Hop & Hdis).
      destruct (Hgrant _ _ Hw' Hr) as (? & ? & ?). split_and!; [done..|]. exists w'. split; [done|]. right; right.
      exists s, before. rewrite Hweek, Hexp. split_and!; [done..| |done|done|done]. destruct Hcur as [?|[_ ?]]; [by left|by right].
Qed.

(** ** An ordinary deal is charged at most its funded budget *)

Definition ordinary (max_tokens : Z) (d : ApiDeal) : Prop :=
  ad_weekly d = None ∧ ad_ceiling d = max_tokens ∧ 0 ≤ ad_billable d ≤ max_tokens.

Definition bills_are_counts (c : BudgetCall) : Prop := match c with Bill n => 0 ≤ n | _ => True end.

Lemma ordinary_step max_tokens c d : bills_are_counts c → ordinary max_tokens d → ordinary max_tokens (budget_step c d).
Proof.
  intros Hc (Hw & Hceil & Hb). destruct c; cbn [budget_step].
  - unfold reconcile. by rewrite Hw.
  - cbn in Hc. destruct (record_billable n d) as [d'|] eqn:Hr; [|done]. apply record_billable_Ok in Hr as [-> Hr].
    split; [done|]. split; [done|]. cbn. lia.
  - destruct (record_visible_output tokens d) as [d'|] eqn:Hr; [|done]. by apply record_visible_Ok in Hr as [-> _].
  - done.
  - done.
  - unfold observe_probe. destruct read as [[state|]|]; [|done..]. by destruct (cs_probe_accepted state).
  - done.
  - done.
Qed.

(** An ordinary deal is charged at most the budget its route was funded with, whatever
    calls are made and in whatever order; and what a request is granted fits what is left,
    and into the trial tick as long as no read has shown the tick accepted. *)
Theorem ordinary_deal_bounded tc max_tokens gate calls :
  0 ≤ max_tokens → Forall bills_are_counts calls →
  let d := budget_run calls (ApiDeal_new tc max_tokens gate) in
  0 ≤ ad_billable d ≤ max_tokens ∧
  ∀ w r d', admit_with_probe_observation w (ad_probe_accepted d) d = (Ok r, d') →
    d' = d ∧ rs_used r = 0 ∧ 0 < rs_granted r ∧ ad_billable d + rs_granted r ≤ max_tokens ∧
    (ad_probe_accepted d = false → ad_billable d + rs_granted r ≤ TICK_SIZE).
Proof.
  intros Hmax Hcalls d. assert (ordinary max_tokens d) as (Hw & Hceil & Hb).
  { subst d. assert (ordinary max_tokens (ApiDeal_new tc max_tokens gate)) as H by (by repeat split).
    revert H. generalize (ApiDeal_new tc max_tokens gate) as e. induction calls as [|c calls IH]; intros e He; [done|].
    inversion Hcalls; subst. cbn. apply IH; [done|]. by apply ordinary_step. }
  split; [done|]. intros w r d'. unfold admit_with_probe_observation. destruct (ad_unresolved d); [done|]. rewrite Hw. intros [= Hr <-].
  apply reserve_or_say_Ok, try_reserve_Some in Hr as (Hu & Hg & Ho). pose proof (outstanding_nonneg (ad_gate d)).
  unfold admission_ceiling, weekly_anchored in Hg. rewrite Hw, bool_decide_eq_true_2, Hceil in Hg by done. unfold PROBE_TICK_TOKENS in Hg.
  destruct (ad_probe_accepted d); cbn [andb negb] in Hg; (split_and!; [done|done|lia|lia|intros ?; try done; lia]).
Qed.

(** ** Samples *)

Definition week_snapshot (accepted : bool) (week base pending : Z) : DealChainSnapshot := {|
  account_code_hash := "c"; account_boc_hash := "b";
  snap_state := {| cs_funded := true; cs_opened := true; cs_probe_accepted := accepted; cs_disputed := false; cs_deposit := 5000000;
    cs_finalized_owed := 0; cs_tokens_final := pending; cs_tokens_pending := pending; cs_probe_tick := 0; cs_funded_time := Some 0;
    cs_probe_time := 1; cs_last_claim_time := 2; cs_dispute_time := 0 |};
  snap_subscription := mkSubscription flags.SUBSCRIPTION 4 week 2000000 8000000 0 1000 base;
  snap_seller_bond := {| sb_bond_funded := true; sb_bond_held := 0; sb_bond_required := 0 |};
  snap_buyer_bond := {| bb_bond_held := 0; bb_bond_required := 0 |} |}.
Definition no_gate : ContentGate := {| cg_probe := false; cg_verdict := false |}.
(** A week is used in part, its boundary is booked, and the rest is forfeited. *)
Definition booked_week : ReconcileAnswers := {|
  ra_booking := Ok (); ra_snapshot := Ok (Some (week_snapshot true 1 1700000 1700000)); ra_now := 700000 |}.
Definition week_calls : list BudgetCall := [Begin 10; Output 1 11; Bill 700000; Reconcile booked_week].
Definition week_deal : ApiDeal := subscription_deal "0:aa" no_gate (week_snapshot true 0 0 1000000) 1000000.

Example the_rest_is_forfeited : remaining_tokens (budget_run week_calls week_deal) = 2000000.
Proof. vm_compute. reflexivity. Qed.

Lemma subscription_billed_within_cap_witness :
  ∃ d' w s cap anchor, record_billable 2000000 (budget_run week_calls week_deal) = Ok d' ∧ ad_weekly d' = Some w ∧
    s ∈ week_snapshot true 0 0 1000000 :: snapshots week_calls ∧ claim_cap_of s = Ok cap ∧
    wk_published_week w = week_index (snap_subscription s) ∧ anchor + ad_billable d' ≤ cap ∧ anchor = wk_claim_anchor w.
Proof.
  assert (subscription_current_week_headroom (snap_state (week_snapshot true 0 0 1000000)) (snap_subscription (week_snapshot true 0 0 1000000))
    = Ok 1000000) as Hh by (vm_compute; reflexivity).
  assert (record_billable 2000000 (budget_run week_calls week_deal) = Ok (set_ad_billable 2700000 (budget_run week_calls week_deal))) as Hb
    by (vm_compute; reflexivity).
  destruct (subscription_billed_within_cap "0:aa" no_gate (week_snapshot true 0 0 1000000) 1000000 week_calls 2000000 _ Hh Hb)
    as (w & s & cap & anchor & Hw & Hs & Hcap & Hwk & Hle & Hfin & _).
  exists (set_ad_billable 2700000 (budget_run week_calls week_deal)), w, s, cap, anchor.
  split; [exact Hb|]. split; [exact Hw|]. split; [exact Hs|]. split; [exact Hcap|]. split; [exact Hwk|]. split; [exact Hle|].
  apply Hfin. vm_compute in Hw. injection Hw as <-. reflexivity.
Defined.

Definition late_world : AdmitWorld := {| aw_first := 700000; aw_waiting := λ d, d; aw_second := 700000; aw_reconcile := booked_week |}.
Lemma admission_is_current_witness :
  ∃ r d', admit_with_probe_observation late_world true week_deal = (Ok r, d') ∧
    rs_granted r = (if weekly_anchored d' then TICK_SIZE else ad_ceiling d') - ad_billable d'.
Proof.
  destruct (admit_with_probe_observation late_world true week_deal) as [[r|] d'] eqn:H; [|vm_compute in H; discriminate H].
  exists r, d'. split; [reflexivity|].
  refine (proj1 (proj2 (proj2 (proj2 (admission_is_current late_world true week_deal
    (SubscriptionWeeklyBudget_new (snap_state (week_snapshot true 0 0 1000000)) (snap_subscription (week_snapshot true 0 0 1000000)))
    r d' eq_refl _ H))))). vm_compute. intros; discriminate.
Defined.

Lemma ordinary_deal_bounded_witness :
  let d := budget_run [Bill 400; Bill 700; Bill 600] (ApiDeal_new "0:aa" 1000 no_gate) in 0 ≤ ad_billable d ≤ 1000.
Proof.
  refine (proj1 (ordinary_deal_bounded "0:aa" 1000 no_gate [Bill 400; Bill 700; Bill 600] _ _)); [lia|]. repeat constructor; cbn; lia.
Defined.
