(* ===== verification/BuyerStream.v ===== *)
(** * The buyer's reading of the seller's frames

    crates/dexdo/src/buyer/api/stream.rs, and the part of buyer/api/mod.rs that judges a
    broken stream.  The frame driver reads the copy of the answer, holds back its terminal
    frames, and judges every model that the provider names; [break_frames] ends an answer that
    broke.  JSON and the printing of messages are parameters. *)
From S2P Require Import Prelude RustText ApiFormat SseFrames UsageData Meter Relay ModelId Gateway BuyerBudget.
From Stdlib Require Import Strings.Ascii.

(** ** Broken streams *)

Inductive StreamError : Type := UpstreamStatus (s : WireStatus) | LocalError (message : text).
Inductive StreamErrorPolicyAction : Type := RequestScoped | ReconcileUsage | DeadGatewayError | SellerStallsMidStreamError.
#[export] Instance StreamErrorPolicyAction_eq_dec : EqDecision StreamErrorPolicyAction.
Proof. solve_decision. Defined.

(** [is_request_scoped_upstream_rejection]: after some occurrence of the prefix comes a 4. *)
Definition is_request_scoped_upstream_rejection (error : string) : bool :=
  existsb (λ rest, starts_with "4" rest) (tail (str_split "upstream HTTP " error)).
Definition stream_error_policy_action (error : string) (received : Z) : StreamErrorPolicyAction :=
  if (received =? 0) && is_request_scoped_upstream_rejection error then RequestScoped
  else if received =? 0 then DeadGatewayError else SellerStallsMidStreamError.

Section Errors.
Context (show_text : text → string).
Definition policy_message (e : StreamError) : string :=
  match e with UpstreamStatus s => show_text (st_message (ws_status s)) | LocalError message => show_text message end.
Definition is_retryable_upstream (e : StreamError) : bool :=
  match e with UpstreamStatus s => st_retryable (ws_status s) | LocalError _ => false end.
Definition policy_action (received : Z) (e : StreamError) : StreamErrorPolicyAction :=
  match (match e with UpstreamStatus s => ws_output s | LocalError _ => None end) with
  | Some started => if started || (received >? 0) then ReconcileUsage else RequestScoped
  | None =>
      if (received =? 0) && is_retryable_upstream e then RequestScoped
      else stream_error_policy_action (policy_message e) received
  end.
Definition is_capacity (e : StreamError) : bool :=
  match e with
  | UpstreamStatus s =>
      match st_code (ws_status s) with ResourceExhausted => true | _ => false end && bool_decide (ws_output s = None)
  | LocalError _ => false
  end.
(** [show_error]: the [Display] of an error, of a status that of the transport library. *)
Definition retryable_rejection (show_error : StreamError → text) (e : StreamError) : ConsumerError :=
  refusal UpstreamRetryable (f["temporary provider failure; retry this request on the same deal: "] ++ show_error e).
End Errors.

(** ** The driver *)

Inductive FrameNext : Type :=
| FrameData (b : bytes) (output text : Z)
| FrameUsage (usage : BillingUsage)
| FrameEnd
| FrameBailed (reason : text)
| FrameErrored (e : StreamError).

Record StreamFacts : Type := {
  fa_id : option string; fa_model : option string; fa_finish_reason : option string; fa_open_block : option Z;
  fa_unterminated : bool; fa_opened : bool;
}.
Definition no_stream_facts : StreamFacts := {|
  fa_id := None; fa_model := None; fa_finish_reason := None; fa_open_block := None; fa_unterminated := false; fa_opened := false |}.

(** What a receive gives: an item of the seller's stream, its end, or the closing of the session. *)
Inductive Received : Type := Item (r : Result WireStatus StreamFrame) | StreamEnd | SessionClosed.

Record FrameDriver : Type := {
  dr_frames : SseFrames; dr_head_status : option Z; dr_saw_usage : bool; dr_facts : StreamFacts; dr_held : bytes;
}.
Definition FrameDriver_new : FrameDriver := {|
  dr_frames := SseFrames_default; dr_head_status := None; dr_saw_usage := false; dr_facts := no_stream_facts; dr_held := [] |}.
Definition set_dr_frames (v : SseFrames) (d : FrameDriver) : FrameDriver := {|
  dr_frames := v; dr_head_status := dr_head_status d; dr_saw_usage := dr_saw_usage d; dr_facts := dr_facts d; dr_held := dr_held d |}.
Definition set_dr_head_status (v : option Z) (d : FrameDriver) : FrameDriver := {|
  dr_frames := dr_frames d; dr_head_status := v; dr_saw_usage := dr_saw_usage d; dr_facts := dr_facts d; dr_held := dr_held d |}.
Definition set_dr_saw_usage (v : bool) (d : FrameDriver) : FrameDriver := {|
  dr_frames := dr_frames d; dr_head_status := dr_head_status d; dr_saw_usage := v; dr_facts := dr_facts d; dr_held := dr_held d |}.
Definition set_dr_facts (v : StreamFacts) (d : FrameDriver) : FrameDriver := {|
  dr_frames := dr_frames d; dr_head_status := dr_head_status d; dr_saw_usage := dr_saw_usage d; dr_facts := v; dr_held := dr_held d |}.
Definition set_dr_held (v : bytes) (d : FrameDriver) : FrameDriver := {|
  dr_frames := dr_frames d; dr_head_status := dr_head_status d; dr_saw_usage := dr_saw_usage d; dr_facts := dr_facts d; dr_held := v |}.

Definition local (message : string) : StreamError := LocalError f[message].
Definition recv (r : Received) : Result StreamError (option StreamFrame) :=
  match r with
  | SessionClosed => Err (local "deal session closed after accepted-output deadline")
  | StreamEnd => Ok None
  | Item (Ok frame) => Ok (Some frame)
  | Item (Err s) => Err (UpstreamStatus s)
  end.
Definition is_answer_status (status : Z) : bool :=
  (200 <=? status) && (status <=? 299) || (400 <=? status) && (status <=? 599).
Definition driver_head (r : Received) (d : FrameDriver) : Result StreamError ResponseHead * FrameDriver :=
  match recv r with
  | Err e => (Err e, d)
  | Ok (Some frame) =>
      match sf_head frame with
      | Some head =>
          if is_answer_status (rh_status head) then (Ok head, set_dr_head_status (Some (rh_status head)) d)
          else (Err (LocalError f["the seller stated response status "; rh_status head; ", which is not an answer or an error"]), d)
      | None => (Err (local "the seller sent content before the response head"), d)
      end
  | Ok None => (Err (local "the seller's stream ended before the response head"), d)
  end.
Definition driver_success (d : FrameDriver) : bool :=
  match dr_head_status d with Some status => is_success status | None => false end.

Section Driver.
Context (from_str : string → Result string Value) (format : ApiFormat) (streamed : bool) (check : ModelCheck) (billing_grant : Z).

Definition pointer2 (a b : string) (v : Value) : option Value := let* x := get a v in get b x.
Definition observed_id (value : Value) : option string :=
  let* v := option_or (get "id" value) (option_or (pointer2 "message" "id" value) (pointer2 "response" "id" value)) in as_str v.
Definition observe (value : Value) (facts : ResponseFacts) (st : StreamFacts) : StreamFacts := {|
  fa_id := option_or (observed_id value) (fa_id st);
  fa_model := option_or (rf_model facts) (fa_model st);
  fa_finish_reason := option_or (rf_finish_reason facts) (fa_finish_reason st);
  fa_open_block :=
    match format, string_at "type" value with
    | Messages, Some kind =>
        if String.eqb kind "content_block_start" then (let* i := get "index" value in as_u64 i)
        else if String.eqb kind "content_block_stop" then None else fa_open_block st
    | _, _ => fa_open_block st
    end;
  fa_unterminated := fa_unterminated st; fa_opened := fa_opened st |}.

(** What the complete frames of one piece state: output, visible output, whether one is
    terminal; or the verdict that ends the answer. *)
Record PieceRead : Type := { pr_output : Z; pr_text : Z; pr_terminal : bool; pr_facts : StreamFacts }.
Definition read_complete (text : string) (p : PieceRead) : Result FrameNext PieceRead :=
  match parse_frame from_str format text with
  | Err error => Err (FrameErrored (local error))
  | Ok FrameEmpty => Ok p
  | Ok FrameDone => Ok {| pr_output := pr_output p; pr_text := pr_text p; pr_terminal := true; pr_facts := pr_facts p |}
  | Ok (FrameEvent value facts) =>
      match (let* reported := rf_model facts in match model_verify check reported with Bail reason => Some reason | Pass => None end) with
      | Some reason => Err (FrameBailed reason)
      | None => Ok {|
          pr_output := pr_output p + (if has_output facts then 1 else 0);
          pr_text := pr_text p + (if has_visible_output facts then 1 else 0);
          pr_terminal := pr_terminal p || rf_done facts || bool_decide (is_Some (rf_finish_reason facts));
          pr_facts := observe value facts (pr_facts p) |}
      end
  end.
Fixpoint read_pieces (frames : list SseFrame) (p : PieceRead) : Result FrameNext PieceRead * StreamFacts :=
  match frames with
  | [] => (Ok p, pr_facts p)
  | frame :: frames =>
      match read_complete (fr_text frame) p with
      | Ok p => read_pieces frames p
      | Err next => (Err next, pr_facts p)
      end
  end.

Definition read_usage (usage : BillingUsage) (d : FrameDriver) : FrameNext * FrameDriver :=
  match BillingUsage_validate usage with
  | Err error => (FrameErrored (LocalError error), d)
  | Ok _ =>
      if negb (driver_success d) then (FrameErrored (local "terminal billing usage follows no successful response"), d)
      else if billable_tokens usage >? billing_grant then
        (FrameErrored (LocalError f["terminal billable usage "; billable_tokens usage; " exceeds billing grant "; billing_grant]), d)
      else if bu_output_tokens usage =? 0 then
        (FrameErrored (local "terminal billing usage has no preceding delivered output"), d)
      else (FrameUsage usage, set_dr_saw_usage true d)
  end.
Definition open_facts (b : bytes) (st : StreamFacts) : StreamFacts := {|
  fa_id := fa_id st; fa_model := fa_model st; fa_finish_reason := fa_finish_reason st; fa_open_block := fa_open_block st;
  fa_unterminated := fa_unterminated st; fa_opened := fa_opened st || negb (bool_decide (b = [])) |}.
Definition read_data (b : bytes) (d : FrameDriver) : FrameNext * FrameDriver :=
  if negb streamed || negb (driver_success d) then (FrameData b 0 0, d) else
  match push b (dr_frames d) with
  | (Err error, sse) => (FrameErrored (local error), set_dr_frames sse d)
  | (Ok complete, sse) =>
      let d := set_dr_frames sse d in
      let '(r, facts) := read_pieces complete
        {| pr_output := 0; pr_text := 0; pr_terminal := negb (bool_decide (dr_held d = [])); pr_facts := dr_facts d |} in
      let d := set_dr_facts facts d in
      match r with
      | Err next => (next, d)
      | Ok p =>
          if pr_terminal p then
            if Z.of_nat (length (dr_held d) + length b) >? UPSTREAM_RESPONSE_BODY_MAX_BYTES then
              (FrameErrored (local "the provider's terminal frames exceed the buyer's response size limit"), d)
            else (FrameData [] (pr_output p) (pr_text p), set_dr_held (dr_held d ++ b) d)
          else (FrameData b (pr_output p) (pr_text p), set_dr_facts (open_facts b (dr_facts d)) d)
      end
  end.
Definition driver_next (r : Received) (d : FrameDriver) : FrameNext * FrameDriver :=
  match recv r with
  | Err e => (FrameErrored e, d)
  | Ok None =>
      (if dr_saw_usage d || negb (driver_success d) then FrameEnd
       else FrameErrored (local "response stream ended without terminal billing usage"), d)
  | Ok (Some frame) =>
      if dr_saw_usage d then (FrameErrored (local "response content followed terminal billing usage"), d)
      else if bool_decide (is_Some (sf_head frame)) then (FrameErrored (local "the seller stated a second response head"), d)
      else match sf_usage frame with
           | Some usage => read_usage usage d
           | None => read_data (sf_data frame) d
           end
  end.
Definition take_held (d : FrameDriver) : bytes * FrameDriver := (dr_held d, set_dr_held [] d).
Definition driver_facts (d : FrameDriver) : StreamFacts := {|
  fa_id := fa_id (dr_facts d); fa_model := fa_model (dr_facts d); fa_finish_reason := fa_finish_reason (dr_facts d);
  fa_open_block := fa_open_block (dr_facts d); fa_unterminated := negb (is_empty_frames (dr_frames d));
  fa_opened := fa_opened (dr_facts d) |}.
End Driver.

(** ** The end of a broken answer *)

Section Ending.
Context (show_text : text → string) (print : Value → string).

Definition newline : string := String LF EmptyString.
Definition sse (name : option string) (data : Value) : string :=
  match name with
  | Some name => "event: " +:+ name +:+ newline +:+ "data: " +:+ print data +:+ newline +:+ newline
  | None => "data: " +:+ print data +:+ newline +:+ newline
  end.
Definition zero : Value := Num (PosInt 0).
Definition retryable_event (format : ApiFormat) (e : ConsumerError) : string :=
  let body := error_body show_text e (bool_decide (format = Messages)) in
  match format with
  | ChatCompletions => sse None body
  | Responses =>
      let event := match index "error" body with Object m => Object (assoc_insert "type"%string (Str "error") m) | v => v end in
      sse (Some "error"%string) event
  | Messages => sse (Some "error"%string) body
  end.
Definition opening_event (format : ApiFormat) (id model : string) : string :=
  match format with
  | ChatCompletions => EmptyString
  | Responses => sse (Some "response.created"%string) (Object [("type", Str "response.created"); ("response", Object
      [("id", Str id); ("object", Str "response"); ("status", Str "in_progress"); ("model", Str model); ("output", Array [])])])%string
  | Messages => sse (Some "message_start"%string) (Object [("type", Str "message_start"); ("message", Object
      [("id", Str id); ("type", Str "message"); ("role", Str "assistant"); ("model", Str model); ("content", Array []);
       ("stop_reason", Null); ("stop_sequence", Null); ("usage", Object [("input_tokens", zero); ("output_tokens", zero)])])])%string
  end.
Definition closing_events (format : ApiFormat) (facts : StreamFacts) (id model finish_reason : string) : string :=
  match format with
  | ChatCompletions =>
      sse None (Object [("id", Str id); ("object", Str "chat.completion.chunk"); ("model", Str model);
        ("choices", Array [Object [("index", zero); ("delta", Object []); ("finish_reason", Str finish_reason)]])])%string
      +:+ "data: [DONE]" +:+ newline +:+ newline
  | Responses =>
      sse (Some "response.failed"%string) (Object [("type", Str "response.failed"); ("response", Object
        [("id", Str id); ("object", Str "response"); ("status", Str "failed"); ("model", Str model); ("output", Array []);
         ("error", Object [("code", Str finish_reason); ("message", Str ("buyer stream ended: " +:+ finish_reason))])])])%string
  | Messages =>
      match fa_open_block facts with
      | Some index => sse (Some "content_block_stop"%string) (Object [("type", Str "content_block_stop"); ("index", Num (PosInt index))])%string
      | None => EmptyString
      end
      +:+ sse (Some "message_delta"%string) (Object [("type", Str "message_delta");
            ("delta", Object [("stop_reason", Str finish_reason); ("stop_sequence", Null)]);
            ("usage", Object [("output_tokens", zero)])])%string
      +:+ sse (Some "message_stop"%string) (Object [("type", Str "message_stop")])%string
  end.
Definition break_frames (format : ApiFormat) (facts : StreamFacts) (frame_model finish_reason : string)
    (retryable : option ConsumerError) : bytes :=
  let id := unwrap_or "dexdo-buyer"%string (fa_id facts) in
  let model := unwrap_or frame_model (fa_model facts) in
  to_bytes (match retryable with Some e => retryable_event format e | None => EmptyString end
    +:+ (if fa_opened facts then EmptyString else opening_event format id model)
    +:+ closing_events format facts id model finish_reason).
End Ending.
