(* ===== verification/BuyerAnswer.v ===== *)
(** * One request of a buyer's client

    crates/dexdo/src/buyer/api/mod.rs: the guard of a request ([ConsumerRequestGuard]) with its
    delivery record, and buyer/api/forward.rs: the streamed and the whole answer, with every way
    they end.  What leaves the request is a log in order: the pieces the client receives, the
    writes of the usage history, the settlements asked of the session, the delivery records.
    The settlements themselves, the store and the clock are outside. *)
From S2P Require Import Prelude RustText ApiFormat SseFrames UsageData Recovery Meter Relay ModelId Gateway BuyerBudget BuyerStream.
From Stdlib Require Import Strings.Ascii.

(** ** Failure policies *)

Inductive VerificationBailAction : Type := BailStop | BailDispute | BailStopAndBlacklist | BailKeepOpen.
Inductive DeadGatewayAction : Type := RetryThenReclaim | NextSeller | DeadFailClosed | DeadKeepOpen.
Inductive EmptyStreamAction : Type := EmptyReclaim | EmptyNextSeller | EmptyFailClosed | EmptyKeepOpen.
Inductive SellerStallsMidStreamAction : Type := AcceptDeliveredThenReclaim | StallsDispute | StallsKeepOpen.
Record BuyerApiFailurePolicy : Type := {
  fp_verification_bail : VerificationBailAction; fp_dead_gateway : DeadGatewayAction; fp_empty_stream : EmptyStreamAction;
  fp_seller_stalls_mid_stream : SellerStallsMidStreamAction;
}.
Inductive ClosureCategory : Type :=
  PlannedShutdown | NoDelivery | ChainStateUnavailable | DealNotOpen | TerminalObserved | SessionStop | VerificationBail
| DeadGateway | EmptyStream | SellerStallsMidStream | RecoveryClosure.
Definition keeps_open (policy : BuyerApiFailurePolicy) (failure : ClosureCategory) : bool :=
  match failure with
  | DeadGateway => match fp_dead_gateway policy with DeadKeepOpen => true | _ => false end
  | EmptyStream => match fp_empty_stream policy with EmptyKeepOpen => true | _ => false end
  | SellerStallsMidStream => match fp_seller_stalls_mid_stream policy with StallsKeepOpen => true | _ => false end
  | VerificationBail => match fp_verification_bail policy with BailKeepOpen => true | _ => false end
  | _ => false
  end.

(** ** The delivery record *)

Record RequestDelivery : Type := {
  rq_http_status : Z; rq_failure_stage : option string; rq_grant : Z; rq_visible : Z; rq_rendered : Z; rq_route_delivered : option Z;
  rq_input : option Z; rq_output : option Z; rq_billable : option Z;
  rq_request_input : Z; rq_request_output : Z; rq_request_billable : Z; rq_route_billable : option Z; rq_finish_reason : string;
}.
Record Pending : Type := {
  pd_http_status : Z; pd_grant : Z; pd_provider_output : Z; pd_visible : Z; pd_rendered : Z;
  pd_observed_answer : option BillingUsage; pd_committed : bool; pd_observed_request : option BillingUsage;
  pd_prepared : option RequestDelivery; pd_history_complete : bool;
}.
Definition set_pd_http_status (v : Z) (d : Pending) : Pending := {|
  pd_http_status := v; pd_grant := pd_grant d; pd_provider_output := pd_provider_output d; pd_visible := pd_visible d;
  pd_rendered := pd_rendered d; pd_observed_answer := pd_observed_answer d; pd_committed := pd_committed d;
  pd_observed_request := pd_observed_request d; pd_prepared := pd_prepared d;
  pd_history_complete := pd_history_complete d |}.
Definition set_pd_grant (v : Z) (d : Pending) : Pending := {|
  pd_http_status := pd_http_status d; pd_grant := v; pd_provider_output := pd_provider_output d;
  pd_visible := pd_visible d; pd_rendered := pd_rendered d; pd_observed_answer := pd_observed_answer d;
  pd_committed := pd_committed d; pd_observed_request := pd_observed_request d; pd_prepared := pd_prepared d;
  pd_history_complete := pd_history_complete d |}.
Definition set_pd_provider_output (v : Z) (d : Pending) : Pending := {|
  pd_http_status := pd_http_status d; pd_grant := pd_grant d; pd_provider_output := v; pd_visible := pd_visible d;
  pd_rendered := pd_rendered d; pd_observed_answer := pd_observed_answer d; pd_committed := pd_committed d;
  pd_observed_request := pd_observed_request d; pd_prepared := pd_prepared d;
  pd_history_complete := pd_history_complete d |}.
Definition set_pd_visible (v : Z) (d : Pending) : Pending := {|
  pd_http_status := pd_http_status d; pd_grant := pd_grant d; pd_provider_output := pd_provider_output d;
  pd_visible := v; pd_rendered := pd_rendered d; pd_observed_answer := pd_observed_answer d;
  pd_committed := pd_committed d; pd_observed_request := pd_observed_request d; pd_prepared := pd_prepared d;
  pd_history_complete := pd_history_complete d |}.
Definition set_pd_rendered (v : Z) (d : Pending) : Pending := {|
  pd_http_status := pd_http_status d; pd_grant := pd_grant d; pd_provider_output := pd_provider_output d;
  pd_visible := pd_visible d; pd_rendered := v; pd_observed_answer := pd_observed_answer d;
  pd_committed := pd_committed d; pd_observed_request := pd_observed_request d; pd_prepared := pd_prepared d;
  pd_history_complete := pd_history_complete d |}.
Definition set_pd_observed_answer (v : option BillingUsage) (d : Pending) : Pending := {|
  pd_http_status := pd_http_status d; pd_grant := pd_grant d; pd_provider_output := pd_provider_output d;
  pd_visible := pd_visible d; pd_rendered := pd_rendered d; pd_observed_answer := v; pd_committed := pd_committed d;
  pd_observed_request := pd_observed_request d; pd_prepared := pd_prepared d;
  pd_history_complete := pd_history_complete d |}.
Definition set_pd_committed (v : bool) (d : Pending) : Pending := {|
  pd_http_status := pd_http_status d; pd_grant := pd_grant d; pd_provider_output := pd_provider_output d;
  pd_visible := pd_visible d; pd_rendered := pd_rendered d; pd_observed_answer := pd_observed_answer d;
  pd_committed := v; pd_observed_request := pd_observed_request d; pd_prepared := pd_prepared d;
  pd_history_complete := pd_history_complete d |}.
Definition set_pd_observed_request (v : option BillingUsage) (d : Pending) : Pending := {|
  pd_http_status := pd_http_status d; pd_grant := pd_grant d; pd_provider_output := pd_provider_output d;
  pd_visible := pd_visible d; pd_rendered := pd_rendered d; pd_observed_answer := pd_observed_answer d;
  pd_committed := pd_committed d; pd_observed_request := v; pd_prepared := pd_prepared d;
  pd_history_complete := pd_history_complete d |}.
Definition set_pd_prepared (v : option RequestDelivery) (d : Pending) : Pending := {|
  pd_http_status := pd_http_status d; pd_grant := pd_grant d; pd_provider_output := pd_provider_output d;
  pd_visible := pd_visible d; pd_rendered := pd_rendered d; pd_observed_answer := pd_observed_answer d;
  pd_committed := pd_committed d; pd_observed_request := pd_observed_request d; pd_prepared := v;
  pd_history_complete := pd_history_complete d |}.
Definition set_pd_history_complete (v : bool) (d : Pending) : Pending := {|
  pd_http_status := pd_http_status d; pd_grant := pd_grant d; pd_provider_output := pd_provider_output d;
  pd_visible := pd_visible d; pd_rendered := pd_rendered d; pd_observed_answer := pd_observed_answer d;
  pd_committed := pd_committed d; pd_observed_request := pd_observed_request d; pd_prepared := pd_prepared d;
  pd_history_complete := v |}.

(** What a request does to the world around it, in order. *)
Inductive Effect : Type :=
| Yielded (b : bytes)
| Persisted (phase call_id : string) (record : BillingUsage) (accepted : bool)
| SettleVerificationBail (reason : string)
| SettleDeadGateway (reason : string) (guard : HeartbeatGuard)
| SettleEmptyStream (reason : string) (guard : HeartbeatGuard)
| SettleSellerStalls (reason : string) (guard : HeartbeatGuard)
| DropBackupDisabled
| Delivered (delivery : RequestDelivery) (history_complete : bool)
| RecoveryEpisodeClosed.

(** The guard: [gd_finalizer] says that it still holds the finalizer, whose record other
    holders may have taken. *)
Record Guard : Type := {
  gd_heartbeat : option HeartbeatGuard; gd_failure_observed : bool; gd_reservation : option RouteReservation;
  gd_request_usage : BillingUsage; gd_usage_phase : string; gd_finalizer : bool; gd_pending : option Pending;
}.
Definition set_gd_heartbeat (v : option HeartbeatGuard) (d : Guard) : Guard := {|
  gd_heartbeat := v; gd_failure_observed := gd_failure_observed d; gd_reservation := gd_reservation d;
  gd_request_usage := gd_request_usage d; gd_usage_phase := gd_usage_phase d; gd_finalizer := gd_finalizer d;
  gd_pending := gd_pending d |}.
Definition set_gd_failure_observed (v : bool) (d : Guard) : Guard := {|
  gd_heartbeat := gd_heartbeat d; gd_failure_observed := v; gd_reservation := gd_reservation d;
  gd_request_usage := gd_request_usage d; gd_usage_phase := gd_usage_phase d; gd_finalizer := gd_finalizer d;
  gd_pending := gd_pending d |}.
Definition set_gd_reservation (v : option RouteReservation) (d : Guard) : Guard := {|
  gd_heartbeat := gd_heartbeat d; gd_failure_observed := gd_failure_observed d; gd_reservation := v;
  gd_request_usage := gd_request_usage d; gd_usage_phase := gd_usage_phase d; gd_finalizer := gd_finalizer d;
  gd_pending := gd_pending d |}.
Definition set_gd_request_usage (v : BillingUsage) (d : Guard) : Guard := {|
  gd_heartbeat := gd_heartbeat d; gd_failure_observed := gd_failure_observed d; gd_reservation := gd_reservation d;
  gd_request_usage := v; gd_usage_phase := gd_usage_phase d; gd_finalizer := gd_finalizer d;
  gd_pending := gd_pending d |}.
Definition set_gd_usage_phase (v : string) (d : Guard) : Guard := {|
  gd_heartbeat := gd_heartbeat d; gd_failure_observed := gd_failure_observed d; gd_reservation := gd_reservation d;
  gd_request_usage := gd_request_usage d; gd_usage_phase := v; gd_finalizer := gd_finalizer d;
  gd_pending := gd_pending d |}.
Definition set_gd_finalizer (v : bool) (d : Guard) : Guard := {|
  gd_heartbeat := gd_heartbeat d; gd_failure_observed := gd_failure_observed d; gd_reservation := gd_reservation d;
  gd_request_usage := gd_request_usage d; gd_usage_phase := gd_usage_phase d; gd_finalizer := v;
  gd_pending := gd_pending d |}.
Definition set_gd_pending (v : option Pending) (d : Guard) : Guard := {|
  gd_heartbeat := gd_heartbeat d; gd_failure_observed := gd_failure_observed d; gd_reservation := gd_reservation d;
  gd_request_usage := gd_request_usage d; gd_usage_phase := gd_usage_phase d; gd_finalizer := gd_finalizer d;
  gd_pending := v |}.
Definition zero_usage : BillingUsage := {|
  bu_input_tokens := 0; bu_output_tokens := 0; bu_total_tokens := 0; bu_charged_tokens := None; bu_cache_read_tokens := 0;
  bu_cache_write_tokens := 0 |}.
Definition new_guard : Guard := {|
  gd_heartbeat := None; gd_failure_observed := false; gd_reservation := None; gd_request_usage := zero_usage;
  gd_usage_phase := "answer"; gd_finalizer := false; gd_pending := None |}.

Record Request : Type := { rq_deal : ApiDeal; rq_guard : Guard; rq_log : list Effect }.
Definition on_deal (f : ApiDeal → ApiDeal) (r : Request) : Request :=
  {| rq_deal := f (rq_deal r); rq_guard := rq_guard r; rq_log := rq_log r |}.
Definition on_guard (f : Guard → Guard) (r : Request) : Request :=
  {| rq_deal := rq_deal r; rq_guard := f (rq_guard r); rq_log := rq_log r |}.
Definition emit (e : Effect) (r : Request) : Request :=
  {| rq_deal := rq_deal r; rq_guard := rq_guard r; rq_log := rq_log r ++ [e] |}.

Definition begin_request (now_secs : Z) (d : ApiDeal) : Request :=
  {| rq_deal := begin_request_counters now_secs d; rq_guard := new_guard; rq_log := [] |}.

(** What belongs to the request but does not change. *)
Record AnswerContext : Type := {
  cx_format : ApiFormat; cx_stream : bool; cx_grant : Z; cx_frame_model : string; cx_policy : BuyerApiFailurePolicy;
  cx_history : bool;              (** there is a usage store *)
  cx_writes : nat → bool;         (** does the write that follows so many effects succeed *)
}.

Section Guard.
Context (cx : AnswerContext).

(** [with_pending]: on the record, if nobody took it. *)
Definition with_pending (f : Pending → Pending) (r : Request) : Request :=
  if gd_finalizer (rq_guard r) then on_guard (λ g, set_gd_pending (f <$> gd_pending g) g) r else r.
Definition hold (reservation : RouteReservation) : Request → Request := on_guard (set_gd_reservation (Some reservation)).
Definition remaining_grant (g : Guard) : Z := match gd_reservation g with Some rs => reservation_remaining rs | None => 0 end.
Definition granted (g : Guard) : Z := match gd_reservation g with Some rs => rs_granted rs | None => 0 end.
Definition observed_request_usage (g : Guard) : option BillingUsage :=
  if gd_finalizer g then (let* p := gd_pending g in pd_observed_request p) else None.
Definition request_usage (g : Guard) : BillingUsage := unwrap_or (gd_request_usage g) (observed_request_usage g).
Definition CLIENT_CLOSED_REQUEST_STATUS : Z := 499.
Definition arm_delivery (r : Request) : Request :=
  on_guard (λ g, set_gd_pending (Some {|
    pd_http_status := CLIENT_CLOSED_REQUEST_STATUS; pd_grant := granted g; pd_provider_output := 0; pd_visible := 0; pd_rendered := 0;
    pd_observed_answer := None; pd_committed := false; pd_observed_request := None; pd_prepared := None;
    pd_history_complete := true |}) (set_gd_finalizer true g)) r.
Definition mark_response_started : Request → Request := with_pending (set_pd_http_status 200).
Definition record_delivery_progress (provider_output visible rendered : Z) : Request → Request :=
  with_pending (λ p, set_pd_rendered (Z.max (pd_rendered p) rendered)
    (set_pd_visible (Z.max (pd_visible p) visible) (set_pd_provider_output (Z.max (pd_provider_output p) provider_output) p))).

(** One write of the usage history. *)
Definition persist_call (phase call_id : string) (record : BillingUsage) (accepted : bool) (r : Request) : Request :=
  if gd_finalizer (rq_guard r) && bool_decide (is_Some (gd_pending (rq_guard r))) && cx_history cx then
    let ok := cx_writes cx (length (rq_log r)) in
    emit (Persisted phase call_id record accepted)
      (with_pending (λ p, if ok then p else set_pd_history_complete false p) r)
  else r.
Definition persist_usage (phase : string) (record : BillingUsage) (accepted : bool) (r : Request) : Request :=
  let r := persist_call phase phase record accepted r in
  if accepted && negb (String.eqb phase "answer") then persist_call phase "in_progress" zero_usage true r else r.

(** The usage of the whole request after one more record. *)
Definition accumulated (total usage : BillingUsage) : Result text BillingUsage :=
  let? input := ok_or (checked_add u64 (bu_input_tokens total) (bu_input_tokens usage))
    f["consumer request input-token accounting overflow"] in
  let? output := ok_or (checked_add u64 (bu_output_tokens total) (bu_output_tokens usage))
    f["consumer request output-token accounting overflow"] in
  let? sum := BillingUsage_new input output None in
  let? read := ok_or (checked_add u64 (bu_cache_read_tokens total) (bu_cache_read_tokens usage))
    f["consumer request cache-read accounting overflow"] in
  let? write := ok_or (checked_add u64 (bu_cache_write_tokens total) (bu_cache_write_tokens usage))
    f["consumer request cache-write accounting overflow"] in
  let? charged := ok_or (checked_add u64 (billable_tokens total) (billable_tokens usage))
    f["consumer request charged-token accounting overflow"] in
  Ok {| bu_input_tokens := bu_input_tokens sum; bu_output_tokens := bu_output_tokens sum; bu_total_tokens := bu_total_tokens sum;
        bu_charged_tokens := Some charged; bu_cache_read_tokens := read; bu_cache_write_tokens := write |}.

Definition observe_answer_usage (usage : BillingUsage) : Op Request text () := λ r,
  match (BillingUsage_validate usage ;? accumulated (gd_request_usage (rq_guard r)) usage) with
  | Err error => (Err error, r)
  | Ok observed =>
      let r := persist_usage "answer" usage false r in
      if negb (gd_finalizer (rq_guard r)) then (Err f["request delivery finalizer is not armed"], r) else
      match gd_pending (rq_guard r) with
      | None => (Err f["request delivery finalizer is no longer armed"], r)
      | Some p =>
          if bool_decide (is_Some (pd_observed_request p)) then (Err f["duplicate terminal billing usage"], r) else
          (Ok (), with_pending (λ p, set_pd_provider_output (Z.max (pd_provider_output p) (bu_output_tokens usage))
             (set_pd_observed_request (Some observed) (set_pd_observed_answer (Some usage) p))) r)
      end
  end.

(** The money transition: the reservation, then the deal, then the request. *)
Definition record_billing (usage : BillingUsage) : Op Request text () := λ r,
  match (BillingUsage_validate usage ;? accumulated (gd_request_usage (rq_guard r)) usage) with
  | Err error => (Err error, r)
  | Ok total =>
      match gd_reservation (rq_guard r) with
      | None => (Err f["accepted billing usage has no admitted route reservation"], r)
      | Some reservation =>
          match (let? next_used := checked_used_after (billable_tokens usage) reservation in
                 let? deal := record_billable (billable_tokens usage) (rq_deal r) in Ok (next_used, deal)) with
          | Err error => (Err error, r)
          | Ok (next_used, deal) =>
              let r := on_guard (λ g, set_gd_request_usage total
                         (set_gd_reservation (Some {| rs_granted := rs_granted reservation; rs_used := next_used |}) g))
                         (on_deal (λ _, deal) r) in
              let r := persist_usage (gd_usage_phase (rq_guard r)) usage true r in
              (Ok (), with_pending (λ p, set_pd_observed_request None
                 (if bool_decide (is_Some (pd_observed_answer p)) then set_pd_committed true p else p)) r)
          end
      end
  end.

Definition complete : Request → Request := on_guard (set_gd_heartbeat None).
Definition pause_unresolved_usage (r : Request) : Request :=
  let r := emit DropBackupDisabled (on_deal (set_ad_unresolved true) r) in
  complete (persist_call (gd_usage_phase (rq_guard r)) "in_progress" zero_usage false r).
Definition arm_upstream_failure (r : Request) : Request :=
  on_guard (λ g, set_gd_heartbeat (Some (HeartbeatGuard_new (ad_generation (rq_deal r)))) (set_gd_failure_observed false g)) r.
Definition observe_upstream_failure : Request → Request := on_guard (set_gd_failure_observed true).
Definition observe_policy_failure (failure : ClosureCategory) (r : Request) : Request :=
  if keeps_open (cx_policy cx) failure then complete r else observe_upstream_failure r.
Definition accepted_output_guard (d : ApiDeal) : HeartbeatGuard := with_stop_veto (HeartbeatGuard_new (ad_generation d)).

Definition prepare_delivery (delivery : RequestDelivery) : Request → Request := with_pending (set_pd_prepared (Some delivery)).
(** [report]: the guard's own finalizer is consumed. *)
Definition report_delivery (delivery : RequestDelivery) (r : Request) : Request :=
  if negb (gd_finalizer (rq_guard r)) then r else
  match gd_pending (rq_guard r) with
  | None => on_guard (set_gd_finalizer false) r
  | Some p => emit (Delivered delivery (pd_history_complete p)) (on_guard (λ g, set_gd_pending None (set_gd_finalizer false g)) r)
  end.
(** [report_prepared], through a copy of the finalizer. *)
Definition report_prepared (r : Request) : Request :=
  match gd_pending (rq_guard r) with
  | None => r
  | Some p =>
      match pd_prepared p with
      | None => r
      | Some delivery => emit (Delivered delivery (pd_history_complete p)) (on_guard (set_gd_pending None) r)
      end
  end.
Definition report_cancelled (usage : BillingUsage) (r : Request) : Request :=
  match gd_pending (rq_guard r) with
  | None => r
  | Some p =>
      let answer := if pd_committed p then pd_observed_answer p else None in
      emit (Delivered {|
          rq_http_status := pd_http_status p; rq_failure_stage := Some "consumer_disconnect"%string; rq_grant := pd_grant p;
          rq_visible := pd_visible p; rq_rendered := pd_rendered p; rq_route_delivered := Some (ad_visible_output (rq_deal r));
          rq_input := bu_input_tokens <$> answer; rq_output := bu_output_tokens <$> answer; rq_billable := non_cached_tokens <$> answer;
          rq_request_input := bu_input_tokens usage; rq_request_output := bu_output_tokens usage;
          rq_request_billable := non_cached_tokens usage; rq_route_billable := Some (ad_billable (rq_deal r));
          rq_finish_reason := "cancelled" |} (pd_history_complete p))
        (on_guard (set_gd_pending None) r)
  end.
(** [Drop] of the guard. *)
Definition drop_guard (r : Request) : Request :=
  let r := on_deal (λ d, set_ad_active_requests (usub u64 (ad_active_requests d) 1) d) r in
  let usage := request_usage (rq_guard r) in
  let r := if gd_finalizer (rq_guard r) then on_guard (set_gd_finalizer false) (report_cancelled usage r) else r in
  if gd_failure_observed (rq_guard r) && negb (ad_unresolved (rq_deal r))
     && match gd_heartbeat (rq_guard r) with Some h => unchanged (ad_generation (rq_deal r)) false h | None => false end
  then emit RecoveryEpisodeClosed r else r.
End Guard.

(** ** The answers *)

Section Answers.
Context (from_str : string → Result string Value) (show_text : text → string) (show_error : StreamError → text) (print : Value → string)
  (check : ModelCheck) (cx : AnswerContext).

(** What comes from the seller, with the clock at that moment; a list that ends is a client
    that went away while the answer waited. *)
Abbreviation Arrivals := (list (Received * Z)).

Definition delivery (accepted_usage : option BillingUsage) (finish_reason : string) (http_status : Z) (failure_stage : option string)
    (visible rendered : Z) (r : Request) : RequestDelivery :=
  let usage := request_usage (rq_guard r) in {|
  rq_http_status := http_status; rq_failure_stage := failure_stage; rq_grant := cx_grant cx; rq_visible := visible; rq_rendered := rendered;
  rq_route_delivered := Some (ad_visible_output (rq_deal r));
  rq_input := bu_input_tokens <$> accepted_usage; rq_output := bu_output_tokens <$> accepted_usage;
  rq_billable := non_cached_tokens <$> accepted_usage;
  rq_request_input := bu_input_tokens usage; rq_request_output := bu_output_tokens usage; rq_request_billable := non_cached_tokens usage;
  rq_route_billable := Some (ad_billable (rq_deal r)); rq_finish_reason := finish_reason |}.
Definition bail_reason : string := if bool_decide (cx_format cx = Messages) then "refusal" else "content_filter".

Definition handle_stream_error_policy (received : Z) (e : StreamError) (r : Request) : StreamErrorPolicyAction * Request :=
  let action := policy_action show_text received e in
  match action with
  | RequestScoped => (action, r)
  | ReconcileUsage => (action, pause_unresolved_usage cx r)
  | DeadGatewayError =>
      let r := emit (SettleDeadGateway "stream-error-before-token" (accepted_output_guard (rq_deal r))) r in
      (if keeps_open (cx_policy cx) DeadGateway then RequestScoped else action, r)
  | SellerStallsMidStreamError =>
      let r := emit (SettleSellerStalls "seller-stalls-mid-stream" (accepted_output_guard (rq_deal r))) r in
      (if keeps_open (cx_policy cx) SellerStallsMidStream then RequestScoped else action, r)
  end.
Definition settle_stream_error (received : Z) (e : StreamError) (r : Request) : Request :=
  let '(action, r) := handle_stream_error_policy received e r in
  if bool_decide (action = RequestScoped) then complete r else r.

(** *** A streamed answer *)

Record StreamLoop : Type := {
  sl_driver : FrameDriver; sl_billing_usage : option BillingUsage; sl_visible : Z; sl_rendered : Z; sl_request : Request;
}.
Inductive LoopEnd : Type := Disconnected | Ended (stream_error : option StreamError) (bailed : option text).
Definition stream_data (b : bytes) (output text now_secs : Z) (l : StreamLoop) : Result StreamError StreamLoop :=
  let r := sl_request l in
  let? deal := map_err LocalError
    (if output >? 0 then rmap (record_accepted_output now_secs) (record_visible_output output (rq_deal r)) else Ok (rq_deal r)) in
  let r := on_deal (λ _, deal) r in
  let rendered := saturating_add u64 (sl_rendered l) output in
  let visible := saturating_add u64 (sl_visible l) text in
  let r := record_delivery_progress rendered visible rendered r in
  let r := if bool_decide (b = []) then r else emit (Yielded b) r in
  Ok {| sl_driver := sl_driver l; sl_billing_usage := sl_billing_usage l; sl_visible := visible; sl_rendered := rendered; sl_request := r |}.
Definition stream_usage (usage : BillingUsage) (l : StreamLoop) : option StreamError * StreamLoop :=
  if sl_rendered l =? 0 then (Some (local "terminal billing usage has no preceding delivered output"), l) else
  let '(res, r) := observe_answer_usage cx usage (sl_request l) in
  match res with
  | Err error => (Some (LocalError error), {| sl_driver := sl_driver l; sl_billing_usage := sl_billing_usage l;
      sl_visible := sl_visible l; sl_rendered := sl_rendered l; sl_request := r |})
  | Ok _ => (None, {| sl_driver := sl_driver l; sl_billing_usage := Some usage; sl_visible := sl_visible l;
      sl_rendered := sl_rendered l; sl_request := r |})
  end.
Definition set_sl_driver (d : FrameDriver) (l : StreamLoop) : StreamLoop := {|
  sl_driver := d; sl_billing_usage := sl_billing_usage l; sl_visible := sl_visible l; sl_rendered := sl_rendered l;
  sl_request := sl_request l |}.
Definition stream_next (received : Received) (now_secs : Z) (l : StreamLoop) : StreamLoop + (LoopEnd * StreamLoop) :=
  let '(next, driver) := driver_next from_str (cx_format cx) (cx_stream cx) check (cx_grant cx) received (sl_driver l) in
  let l := set_sl_driver driver l in
  match next with
  | FrameData b output text =>
      match stream_data b output text now_secs l with
      | Ok l => inl l
      | Err error => inr (Ended (Some error) None, l)
      end
  | FrameUsage usage =>
      match stream_usage usage l with
      | (None, l) => inl l
      | (error, l) => inr (Ended error None, l)
      end
  | FrameBailed reason => inr (Ended None (Some reason), l)
  | FrameErrored error => inr (Ended (Some error) None, l)
  | FrameEnd => inr (Ended None None, l)
  end.
Fixpoint stream_loop (arrivals : Arrivals) (l : StreamLoop) : LoopEnd * StreamLoop :=
  match arrivals with
  | [] => (Disconnected, l)
  | (received, now_secs) :: arrivals =>
      match stream_next received now_secs l with inl l => stream_loop arrivals l | inr over => over end
  end.

Definition stream_finish_reason (bailed : bool) (error : option StreamError) (visible : Z) (facts : StreamFacts) : string :=
  if bailed then bail_reason
  else if match error with Some e => is_capacity e | None => false end && negb (bool_decide (cx_format cx = Messages)) then "capacity"
  else if bool_decide (is_Some error) then "error"
  else if visible =? 0 then "empty_output" else unwrap_or "stop"%string (fa_finish_reason facts).
Definition stream_failure_stage (bailed : bool) (error : option StreamError) (visible : Z) : option string :=
  if bailed then Some "inline_verification"%string else if bool_decide (is_Some error) then Some "upstream_stream"%string
  else if visible =? 0 then Some "empty_output"%string else None.
(** The settlement of a stream that is over. *)
Definition settle_stream (bailed : bool) (error : option StreamError) (visible rendered : Z) (r : Request) : Request :=
  if bailed then emit (SettleVerificationBail "verify-bail") (observe_policy_failure cx VerificationBail r)
  else match error with
       | Some e =>
           let r := observe_upstream_failure r in
           if is_capacity e then complete r else settle_stream_error rendered e r
       | None =>
           if visible =? 0 then
             let r := observe_policy_failure cx EmptyStream r in
             emit (SettleEmptyStream "empty-output" (accepted_output_guard (rq_deal r))) r
           else complete r
       end.
Definition stream_ending (facts : StreamFacts) (finish_reason : string) (rendered : Z) (error : option StreamError) : bytes :=
  let retryable := let* e := error in
    if (rendered =? 0) && is_retryable_upstream e then Some (retryable_rejection show_error e) else None in
  (if fa_unterminated facts then [LF; LF] else [])
  ++ break_frames show_text print (cx_format cx) facts (cx_frame_model cx) finish_reason retryable.
(** After the loop; [gone]: the client goes away with the last piece. *)
Definition finish_stream (gone : bool) (error : option StreamError) (bailed : option text) (l : StreamLoop) : Request :=
  let facts := driver_facts (sl_driver l) in
  let held := dr_held (sl_driver l) in
  let visible := sl_visible l in
  let rendered := sl_rendered l in
  let bailed := bool_decide (is_Some bailed) in
  let '(error, r) :=
    match error, sl_billing_usage l with
    | None, Some usage =>
        if bailed then (None, sl_request l) else
        let '(res, r) := record_billing cx usage (sl_request l) in
        (match res with Ok _ => None | Err error => Some (LocalError error) end, r)
    | error, _ => (error, sl_request l)
    end in
  let r := settle_stream bailed error visible rendered r in
  let accepted := if bool_decide (error = None) && negb bailed then sl_billing_usage l else None in
  let finish_reason := stream_finish_reason bailed error visible facts in
  let r := prepare_delivery (delivery accepted finish_reason 200 (stream_failure_stage bailed error visible) visible rendered r) r in
  if negb bailed && bool_decide (error = None) then
    let r := report_prepared r in
    drop_guard (if bool_decide (held = []) then r else emit (Yielded held) r)
  else
    let r := emit (Yielded (stream_ending facts finish_reason rendered error)) r in
    drop_guard (if gone then r else report_prepared r).
Definition streamed_answer (gone : bool) (arrivals : Arrivals) (driver : FrameDriver) (r : Request) : Request :=
  let l := {| sl_driver := driver; sl_billing_usage := None; sl_visible := 0; sl_rendered := 0; sl_request := r |} in
  match stream_loop arrivals l with
  | (Disconnected, l) => drop_guard (sl_request l)
  | (Ended error bailed, l) => finish_stream gone error bailed l
  end.

(** *** A whole answer *)

Inductive Response : Type :=
| Aggregated (status : Z) (headers : list Header) (body : bytes)   (** the provider's answer as it is *)
| Rejected (status : Z) (body : Value).
Definition anthropic : bool := bool_decide (cx_format cx = Messages).
Definition reject (status : Z) (message : text) : Response :=
  Rejected status (Object (("error", Object [("message", Str (show_text message)); ("type", Str "invalid_request_error")])
                           :: if anthropic then [("type", Str "error")] else []))%string.
Definition consumer_rejection (e : ConsumerError) (status : Z) : Response :=
  Rejected (error_status e status) (error_body show_text e anthropic).
(** [aggregate_body_response], up to the end of its body. *)
Definition aggregate_body_response (gone : bool) (delivery : RequestDelivery) (headers : list Header) (body : bytes) (r : Request)
    : Response * Request :=
  let r := prepare_delivery delivery (mark_response_started r) in
  (Aggregated (rq_http_status delivery) (client_response_headers headers) body,
   drop_guard (if gone then r else emit (Yielded body) (report_prepared r))).

Inductive WholeBodyStop : Type := BodyRefused (response : Response) | BodyFailed (e : StreamError).
Definition accept_whole_body (b : bytes) (now_secs : Z) (r : Request) : Result WholeBodyStop (option (ResponseFacts * Z)) * Request :=
  match from_str (of_bytes b) with
  | Err _ => (Ok None, r)
  | Ok value =>
      let facts := inspect_body (cx_format cx) value in
      match (let* model := rf_model facts in match model_verify check model with Bail reason => Some reason | Pass => None end) with
      | Some reason =>
          let r := emit (SettleVerificationBail "verify-bail") (observe_policy_failure cx VerificationBail r) in
          let r := report_delivery (delivery None bail_reason 502 (Some "inline_verification"%string) 0 0 r) r in
          (Err (BodyRefused (reject 502 (f["model identity verification failed: "] ++ reason))), r)
      | None =>
          if has_output facts then
            match record_visible_output 1 (rq_deal r) with
            | Err error => (Err (BodyFailed (LocalError error)), r)
            | Ok deal => (Ok (Some (facts, 1)), record_delivery_progress 1 0 1 (on_deal (λ _, record_accepted_output now_secs deal) r))
            end
          else (Ok (Some (facts, 0)), r)
      end
  end.

Record WholeLoop : Type := {
  wl_driver : FrameDriver; wl_body : bytes; wl_frames : nat; wl_facts : option (ResponseFacts * Z);
  wl_billing_usage : option BillingUsage; wl_request : Request;
}.
Inductive WholeEnd : Type := WholeDisconnected | WholeRefused (response : Response) | WholeOver (stream_error : option StreamError).
Definition set_wl_driver (d : FrameDriver) (l : WholeLoop) : WholeLoop := {|
  wl_driver := d; wl_body := wl_body l; wl_frames := wl_frames l; wl_facts := wl_facts l; wl_billing_usage := wl_billing_usage l;
  wl_request := wl_request l |}.
Definition too_large : StreamError := local "the seller's answer exceeds the buyer's response size limit".
Definition whole_data (success : bool) (b : bytes) (now_secs : Z) (l : WholeLoop) : WholeLoop + (WholeEnd * WholeLoop) :=
  let l := {| wl_driver := wl_driver l; wl_body := wl_body l ++ b; wl_frames := S (wl_frames l); wl_facts := wl_facts l;
              wl_billing_usage := wl_billing_usage l; wl_request := wl_request l |} in
  if Z.of_nat (length (wl_body l)) >? UPSTREAM_RESPONSE_BODY_MAX_BYTES then inr (WholeOver (Some too_large), l)
  else if negb success || (1 <? wl_frames l)%nat then inl l
  else
    let '(res, r) := accept_whole_body (wl_body l) now_secs (wl_request l) in
    let facts := match res with Ok (Some facts) => Some facts | _ => wl_facts l end in
    let l := {| wl_driver := wl_driver l; wl_body := wl_body l; wl_frames := wl_frames l; wl_facts := facts;
                wl_billing_usage := wl_billing_usage l; wl_request := r |} in
    match res with
    | Ok _ => inl l
    | Err (BodyRefused response) => inr (WholeRefused response, l)
    | Err (BodyFailed error) => inr (WholeOver (Some error), l)
    end.
Definition whole_next (success : bool) (received : Received) (now_secs : Z) (l : WholeLoop) : WholeLoop + (WholeEnd * WholeLoop) :=
  let '(next, driver) := driver_next from_str (cx_format cx) (cx_stream cx) check (cx_grant cx) received (wl_driver l) in
  let l := set_wl_driver driver l in
  match next with
  | FrameData b _ _ => whole_data success b now_secs l
  | FrameUsage usage => inl {| wl_driver := wl_driver l; wl_body := wl_body l; wl_frames := wl_frames l; wl_facts := wl_facts l;
      wl_billing_usage := Some usage; wl_request := wl_request l |}
  | FrameErrored error => inr (WholeOver (Some error), l)
  | FrameBailed _ | FrameEnd => inr (WholeOver None, l)
  end.
Fixpoint whole_loop (success : bool) (arrivals : Arrivals) (l : WholeLoop) : WholeEnd * WholeLoop :=
  match arrivals with
  | [] => (WholeDisconnected, l)
  | (received, now_secs) :: arrivals =>
      match whole_next success received now_secs l with inl l => whole_loop success arrivals l | inr over => over end
  end.

Definition whole_answer_failure (e : StreamError) (received : Z) (r : Request) : Response * Request :=
  let r := observe_upstream_failure r in
  if is_capacity e then
    let r := complete r in
    let r := report_delivery (delivery None "error" 429 (Some "upstream_capacity"%string) 0 received r) r in
    (consumer_rejection (refusal DealCapacityUnavailable
       (f["the deal has no delivery capacity for this request yet; retry after seller capacity reconciliation: "] ++ show_error e)) 429,
     drop_guard r)
  else
    let r := settle_stream_error received e r in
    let r := report_delivery (delivery None "error" 502 (Some "upstream_stream"%string) 0 received r) r in
    (if (received =? 0) && is_retryable_upstream e then consumer_rejection (retryable_rejection show_error e) 502
     else reject 502 (f["stream error: "] ++ show_error e), drop_guard r).
Definition or_else {A} (a b : option A) : option A := match a with Some _ => a | None => b end.
(** The usage that the seller stated for delivered output is recorded as claimed even when the
    stream then fails. *)
Definition claim_whole_usage (output : Z) (usage : option BillingUsage) (error : option StreamError) (r : Request)
    : option StreamError * Request :=
  match usage with
  | Some usage =>
      if output >? 0 then
        let '(res, r) := observe_answer_usage cx usage r in
        (or_else error (match res with Ok _ => None | Err e => Some (LocalError e) end), r)
      else (error, r)
  | None => (error, r)
  end.
Definition incomplete_body (b : bytes) : StreamError :=
  match from_str (of_bytes b) with
  | Err error => LocalError f["provider response is not JSON: "; error]
  | Ok _ => local "provider response is not a complete answer"
  end.
(** The complete answer, with its facts and its output: billed, then released. *)
Definition bill_whole_answer (gone : bool) (head : ResponseHead) (facts : ResponseFacts) (output : Z) (usage : option BillingUsage)
    (b : bytes) (r : Request) : Response * Request :=
  match usage with
  | None => whole_answer_failure (local "response stream ended without terminal billing usage") output r
  | Some usage =>
      if negb (output >? 0) then whole_answer_failure (local "terminal billing usage has no preceding delivered output") output r else
      let '(res, r) := record_billing cx usage r in
      match res with
      | Err error => whole_answer_failure (LocalError error) output r
      | Ok _ =>
          if negb (has_visible_output facts) then
            let r := observe_policy_failure cx EmptyStream r in
            let r := emit (SettleEmptyStream "empty-output" (accepted_output_guard (rq_deal r))) r in
            let r := report_delivery (delivery (Some usage) "empty_output" 502 (Some "empty_output"%string) 0 output r) r in
            (reject 502 f["upstream produced no assistant text"], drop_guard r)
          else
            let r := complete r in
            aggregate_body_response gone
              (delivery (Some usage) (unwrap_or "stop"%string (rf_finish_reason facts))
                 (unwrap_or 200 (try_into u16 (rh_status head))) None 1 output r) (rh_headers head) b r
      end
  end.
Definition finish_whole (gone : bool) (head : ResponseHead) (now_secs : Z) (error : option StreamError) (l : WholeLoop) : Response * Request :=
  let success := is_success (rh_status head) in
  let body := wl_body l in
  if negb success && bool_decide (error = None) then
    let r := complete (wl_request l) in
    aggregate_body_response gone
      (delivery None "error" (unwrap_or 502 (try_into u16 (rh_status head))) (Some "provider_error"%string) 0 0 r) (rh_headers head) body r
  else
    let '(res, r) :=
      if success && bool_decide (wl_facts l = None) && (1 <? wl_frames l)%nat
         && (Z.of_nat (length body) <=? UPSTREAM_RESPONSE_BODY_MAX_BYTES)
      then accept_whole_body body now_secs (wl_request l) else (Ok (wl_facts l), wl_request l) in
    match res with
    | Err (BodyRefused response) => (response, drop_guard r)
    | _ =>
        let error := match res with Err (BodyFailed e) => or_else error (Some e) | _ => error end in
        let facts := match res with Ok facts => facts | Err _ => None end in
        let output := match facts with Some (_, output) => output | None => 0 end in
        let '(error, r) := claim_whole_usage output (wl_billing_usage l) error r in
        match error, facts with
        | Some error, _ => whole_answer_failure error output r
        | None, Some (facts, _) => bill_whole_answer gone head facts output (wl_billing_usage l) body r
        | None, None => whole_answer_failure (incomplete_body body) 0 r
        end
    end.
(** [None]: the client went away before there was a response. *)
Definition whole_answer (gone : bool) (head : ResponseHead) (now_secs : Z) (arrivals : Arrivals) (driver : FrameDriver) (r : Request)
    : option Response * Request :=
  let l := {| wl_driver := driver; wl_body := []; wl_frames := 0; wl_facts := None; wl_billing_usage := None; wl_request := r |} in
  match whole_loop (is_success (rh_status head)) arrivals l with
  | (WholeDisconnected, l) => (None, drop_guard (wl_request l))
  | (WholeRefused response, l) => (Some response, drop_guard (wl_request l))
  | (WholeOver error, l) => let '(response, r) := finish_whole gone head now_secs error l in (Some response, r)
  end.

(** *** Before the answer *)

Definition report_pre_answer_failure (http_status : Z) (failure_stage : string) (r : Request) : Request :=
  let usage := request_usage (rq_guard r) in
  report_delivery {|
    rq_http_status := http_status; rq_failure_stage := Some failure_stage; rq_grant := granted (rq_guard r); rq_visible := 0; rq_rendered := 0;
    rq_route_delivered := Some (ad_visible_output (rq_deal r)); rq_input := None; rq_output := None; rq_billable := None;
    rq_request_input := bu_input_tokens usage; rq_request_output := bu_output_tokens usage; rq_request_billable := non_cached_tokens usage;
    rq_route_billable := Some (ad_billable (rq_deal r)); rq_finish_reason := "error" |} r.
Definition capacity_rejection (e : StreamError) : ConsumerError :=
  let '(onchain, busy) := match e with UpstreamStatus s => (ws_onchain_limit s, ws_deal_busy s) | LocalError _ => (false, false) end in
  if onchain : bool then
    refusal OnchainDealLimit f["the deal's unclaimed billable backlog reached its on-chain throughput limit; retry after the next claim is reconciled"]
  else if busy : bool then
    refusal DealBusy f["the deal's concurrent request limit is reached; retry with backoff after an active request finishes"]
  else refusal DealCapacityUnavailable
    (f["the deal has no delivery capacity for this request yet; retry after seller capacity reconciliation: "] ++ show_error e).
Definition pre_head_failure (e : StreamError) (r : Request) : Response * Request :=
  let r := observe_upstream_failure r in
  if is_capacity e then
    let r := report_pre_answer_failure 429 "upstream_capacity" (complete r) in
    (consumer_rejection (capacity_rejection e) 429, drop_guard r)
  else
    let r := report_pre_answer_failure 502 "upstream_stream" (settle_stream_error 0 e r) in
    (if is_retryable_upstream e then consumer_rejection (retryable_rejection show_error e) 502
     else reject 502 (f["stream error: "] ++ show_error e), drop_guard r).

(** From the opened stream on: the head, then the streamed or the whole answer. *)
Definition answer (gone : bool) (arrivals : Arrivals) (now_secs : Z) (r : Request) : option Response * Request :=
  match arrivals with
  | [] => (None, drop_guard r)
  | (received, _) :: arrivals =>
      match driver_head received FrameDriver_new with
      | (Err e, _) => let '(response, r) := pre_head_failure e r in (Some response, r)
      | (Ok head, driver) =>
          if cx_stream cx && is_success (rh_status head)
          then (None, streamed_answer gone arrivals driver (mark_response_started r))
          else whole_answer gone head now_secs arrivals driver r
      end
  end.
End Answers.
