(* ===== verification/BuyerProps.v ===== *)
(** * What a buyer pays and what its client receives

    Properties of BuyerAnswer.v.  A streamed answer is paid only when it is whole, and its end
    reaches the client only when it is paid; and composed with the seller's relay and gateway,
    an honest answer reaches the client byte for byte, with one bill on both sides. *)
From S2P Require Import Prelude RustText ApiFormat SseFrames UsageData Recovery Meter Relay RelayProps ModelId Gateway BuyerBudget BuyerStream BuyerAnswer.
From Stdlib Require Import Strings.Ascii.

#[local] Arguments umax : simpl never.

(** ** What the log shows *)

Definition client_pieces (log : list Effect) : list bytes := omap (λ e, match e with Yielded b => Some b | _ => None end) log.
Definition client_bytes (log : list Effect) : bytes := List.concat (client_pieces log).
Definition seller_data (arrivals : list Received) : bytes :=
  List.concat (omap (λ a, match a with
    | Item (Ok frame) => match sf_usage frame, sf_head frame with None, None => Some (sf_data frame) | _, _ => None end
    | _ => None end) arrivals).

Lemma client_bytes_snoc log e : client_bytes (log ++ [e]) = client_bytes log ++ match e with Yielded b => b | _ => [] end.
Proof. unfold client_bytes, client_pieces. rewrite omap_app, concat_app. destruct e; cbn; by rewrite ?app_nil_r. Qed.
Lemma seller_data_app a b : seller_data (a ++ b) = seller_data a ++ seller_data b.
Proof. unfold seller_data. by rewrite omap_app, concat_app. Qed.
Lemma seller_data_piece seen frame :
  sf_head frame = None → sf_usage frame = None → seller_data (seen ++ [Item (Ok frame)]) = seller_data seen ++ sf_data frame.
Proof. intros Hh Hu. rewrite seller_data_app. f_equal. unfold seller_data. cbn. rewrite Hu, Hh. cbn. apply app_nil_r. Qed.
Lemma seller_data_bill seen frame u :
  sf_usage frame = Some u → seller_data (seen ++ [Item (Ok frame)]) = seller_data seen.
Proof. intros Hu. rewrite seller_data_app. unfold seller_data at 2. cbn. rewrite Hu. apply app_nil_r. Qed.

(** Nothing for the client, nothing charged. *)
Definition quiet (r r' : Request) : Prop :=
  client_bytes (rq_log r') = client_bytes (rq_log r) ∧ ad_billable (rq_deal r') = ad_billable (rq_deal r).
#[export] Instance quiet_refl : Reflexive quiet.
Proof. done. Qed.
#[export] Instance quiet_trans : Transitive quiet.
Proof. intros a b c [H1 H2] [H3 H4]. split; congruence. Qed.

Lemma quiet_guard f r : quiet r (on_guard f r).
Proof. done. Qed.
Lemma quiet_deal f r : ad_billable (f (rq_deal r)) = ad_billable (rq_deal r) → quiet r (on_deal f r).
Proof. done. Qed.
Lemma quiet_emit e r : (∀ b, e ≠ Yielded b) → quiet r (emit e r).
Proof. intros He. split; [|done]. cbn [emit rq_log]. rewrite client_bytes_snoc. destruct e; try by rewrite app_nil_r. by destruct (He b). Qed.
Lemma quiet_pending f r : quiet r (with_pending f r).
Proof. unfold with_pending. by destruct (gd_finalizer _). Qed.

Create HintDb quiet.
#[export] Hint Resolve quiet_guard quiet_pending quiet_refl : quiet.
#[export] Hint Extern 1 (quiet _ (emit _ _)) => apply quiet_emit; discriminate : quiet.
#[export] Hint Extern 1 (quiet _ (on_deal _ _)) => apply quiet_deal; reflexivity : quiet.
(** The last change first. *)
Ltac quiet_step :=
  lazymatch goal with
  | |- quiet ?r ?r => reflexivity
  | |- quiet _ (emit _ ?x) => transitivity x; [|solve [eauto with quiet]]
  | |- quiet _ (on_guard _ ?x) => transitivity x; [|solve [eauto with quiet]]
  | |- quiet _ (on_deal _ ?x) => transitivity x; [|solve [eauto with quiet]]
  | |- quiet _ (with_pending _ ?x) => transitivity x; [|solve [eauto with quiet]]
  | |- quiet _ (if ?b then _ else _) => destruct b
  | |- quiet _ (match ?o with Some _ => _ | None => _ end) => destruct o
  | |- quiet _ (match ?o with inl _ => _ | inr _ => _ end) => destruct o
  end.
Ltac quiets := cbv zeta; repeat quiet_step; eauto with quiet.

Section Quiet.
Context (cx : AnswerContext) (show_text : text → string).

Lemma quiet_persist_call phase call record accepted r : quiet r (persist_call cx phase call record accepted r).
Proof. unfold persist_call. quiets. Qed.
Lemma quiet_persist phase record accepted r : quiet r (persist_usage cx phase record accepted r).
Proof. unfold persist_usage. cbv zeta. destruct (_ && _); [etransitivity; apply quiet_persist_call|apply quiet_persist_call]. Qed.
Lemma quiet_complete r : quiet r (complete r).
Proof. done. Qed.
Lemma quiet_pause r : quiet r (pause_unresolved_usage cx r).
Proof. unfold pause_unresolved_usage, complete. quiets. etransitivity; [|apply quiet_persist_call]. quiets. Qed.
Lemma quiet_policy failure r : quiet r (observe_policy_failure cx failure r).
Proof. unfold observe_policy_failure, complete, observe_upstream_failure. quiets. Qed.
Lemma quiet_stream_error received e r : quiet r (settle_stream_error show_text cx received e r).
Proof.
  unfold settle_stream_error, handle_stream_error_policy. cbv zeta.
  destruct (policy_action show_text received e); cbv zeta iota beta; case_bool_decide; unfold complete; quiets; auto using quiet_pause.
Qed.
Lemma quiet_report_prepared r : quiet r (report_prepared r).
Proof. unfold report_prepared. quiets. Qed.
Lemma quiet_report_delivery d r : quiet r (report_delivery d r).
Proof. unfold report_delivery. quiets. Qed.
Lemma quiet_cancelled u r : quiet r (report_cancelled u r).
Proof. unfold report_cancelled. quiets. Qed.
Lemma quiet_drop r : quiet r (drop_guard r).
Proof.
  unfold drop_guard. cbv zeta. set (r1 := on_deal _ r). assert (quiet r r1) as H by done. revert H. generalize r1. clear r1. intros r1 H.
  transitivity (if gd_finalizer (rq_guard r1) then on_guard (set_gd_finalizer false) (report_cancelled (request_usage (rq_guard r1)) r1) else r1);
    [|quiets]. etransitivity; [exact H|]. quiets. apply quiet_cancelled.
Qed.
Lemma quiet_settle_stream bailed error visible rendered r : quiet r (settle_stream show_text cx bailed error visible rendered r).
Proof.
  unfold settle_stream, complete, observe_upstream_failure. quiets; auto using quiet_policy.
  etransitivity; [|apply quiet_stream_error]. quiets.
Qed.
End Quiet.

(** ** What the buyer's driver has read *)

Section Answer.
Context (from_str : string → Result string Value) (show_text : text → string) (show_error : StreamError → text) (print : Value → string)
  (check : ModelCheck) (cx : AnswerContext).
Abbreviation format := (cx_format cx).

(** A frame that states the end of the answer. *)
Definition terminal_frame (f : SseFrame) : bool :=
  match parsed from_str format f with
  | Ok FrameDone => true
  | Ok (FrameEvent _ facts) => rf_done facts || bool_decide (is_Some (rf_finish_reason facts))
  | _ => false
  end.
Definition visible_frame : SseFrame → bool := frame_fact from_str format has_visible_output.
Definition model_passes (f : SseFrame) : Prop := ∀ m, frame_model from_str format f = Some m → model_verify check m = Pass.
Definition count (p : SseFrame → bool) (fs : list SseFrame) : Z := Z.of_nat (length (List.filter p fs)).

Lemma count_app p fs gs : count p (fs ++ gs) = count p fs + count p gs.
Proof. unfold count. rewrite List.filter_app, length_app. lia. Qed.
Lemma count_nonneg p fs : 0 ≤ count p fs.
Proof. unfold count. lia. Qed.
Lemma count_pos p fs : existsb p fs = true ↔ 0 < count p fs.
Proof.
  unfold count. induction fs as [|f fs IH]; cbn; [split; intros; [done|lia]|]. destruct (p f); cbn; [split; [lia|done]|done].
Qed.

Lemma read_complete_Ok f p p' :
  read_complete from_str format check (fr_text f) p = Ok p' →
  model_passes f ∧ pr_output p' = pr_output p + count (frame_output from_str format) [f] ∧
  pr_text p' = pr_text p + count visible_frame [f] ∧ pr_terminal p' = pr_terminal p || terminal_frame f.
Proof.
  unfold read_complete, model_passes, count, terminal_frame, frame_output, visible_frame, frame_model, frame_fact, frame_event, parsed.
  cbn [List.filter]. destruct (parse_frame from_str format (fr_text f)) as [[| |value facts]|]; [| | |done].
  - intros [= <-]. cbn [obind List.filter length]. rewrite orb_false_r. split_and!; [done|cbn; lia..|done].
  - intros [= <-]. cbn [obind List.filter length pr_output pr_text pr_terminal]. rewrite orb_true_r. split_and!; [done|cbn; lia..|done].
  - destruct (rf_model facts) as [m|] eqn:Hm; cbn [obind].
    + destruct (model_verify check m) as [|reason] eqn:Hv; [|done]. intros [= <-]. cbn. rewrite Hm. split_and!.
      * by intros ? [= <-].
      * by destruct (has_output facts).
      * by destruct (has_visible_output facts).
      * by rewrite orb_assoc.
    + intros [= <-]. cbn. rewrite Hm. split_and!; [done|by destruct (has_output facts)|by destruct (has_visible_output facts)|by rewrite orb_assoc].
Qed.

Lemma read_pieces_Ok fs p p' facts :
  read_pieces from_str format check fs p = (Ok p', facts) →
  Forall model_passes fs ∧ pr_output p' = pr_output p + count (frame_output from_str format) fs ∧
  pr_text p' = pr_text p + count visible_frame fs ∧ pr_terminal p' = pr_terminal p || existsb terminal_frame fs.
Proof.
  revert p. induction fs as [|f fs IH]; intros p; cbn [read_pieces].
  - intros [= <- _]. cbn. rewrite orb_false_r. unfold count. cbn. split_and!; [done|lia|lia|done].
  - destruct (read_complete _ _ _ _ _) as [p1|] eqn:H1; [|done]. intros H.
    apply read_complete_Ok in H1 as (Hm & Ho & Ht & Hx). destruct (IH _ H) as (Hm' & Ho' & Ht' & Hx').
    change (f :: fs) with ([f] ++ fs). rewrite !count_app. split_and!; [by constructor|lia|lia|]. rewrite Hx', Hx. cbn. by rewrite orb_assoc.
Qed.

(** ** The invariant of the loop *)

(** [released] of the seller's bytes went to the client, and no money moved. *)
Record served (r0 : Request) (released : bytes) (l : StreamLoop) : Prop := {
  sv_client : client_bytes (rq_log (sl_request l)) = client_bytes (rq_log r0) ++ released;
  sv_deal : ad_billable (rq_deal (sl_request l)) = ad_billable (rq_deal r0) ∧ ad_ceiling (rq_deal (sl_request l)) = ad_ceiling (rq_deal r0);
  sv_reservation : gd_reservation (rq_guard (sl_request l)) = gd_reservation (rq_guard r0);
  sv_open : Forall (λ f, terminal_frame f = false) (frames_of released);
}.
(** The bill that the seller stated: valid, within the grant, after output. *)
Definition stated (u : BillingUsage) (fs : list SseFrame) : Prop :=
  BillingUsage_validate u = Ok () ∧ billable_tokens u ≤ cx_grant cx ∧ bu_output_tokens u ≠ 0 ∧ existsb (frame_output from_str format) fs = true.
Record reading (seen : list Received) (released : bytes) (l : StreamLoop) : Prop := {
  rb_data : seller_data seen = released ++ dr_held (sl_driver l);
  rb_rest : at_rest (dr_frames (sl_driver l)) (split_frames (seller_data seen)).2;
  rb_models : Forall model_passes (frames_of (seller_data seen));
  rb_rendered : sl_rendered l = Z.min (count (frame_output from_str format) (frames_of (seller_data seen))) (umax u64);
  rb_visible : sl_visible l = Z.min (count visible_frame (frames_of (seller_data seen))) (umax u64);
  rb_usage : match sl_billing_usage l with
             | None => dr_saw_usage (sl_driver l) = false
             | Some u => dr_saw_usage (sl_driver l) = true ∧ stated u (frames_of (seller_data seen)) ∧
                 ∃ frame, last seen = Some (Item (Ok frame)) ∧ sf_usage frame = Some u
             end;
  rb_success : driver_success (sl_driver l) = true;
}.

Definition answer_start (driver : FrameDriver) (r : Request) : StreamLoop :=
  {| sl_driver := driver; sl_billing_usage := None; sl_visible := 0; sl_rendered := 0; sl_request := r |}.
(** A driver that has read the head of a successful answer. *)
Definition headed (driver : FrameDriver) : Prop := ∃ status, is_success status = true ∧ driver = set_dr_head_status (Some status) FrameDriver_new.

Lemma start_ok driver r : headed driver → served r [] (answer_start driver r) ∧ reading [] [] (answer_start driver r).
Proof.
  intros (status & Hs & ->). split; constructor; cbn; try done; [by rewrite app_nil_r|apply at_rest_default].
Qed.

Lemma served_driver r0 released l d : served r0 released l → served r0 released (set_sl_driver d l).
Proof. by intros []. Qed.

Lemma progress_same provider visible rendered r :
  let r' := record_delivery_progress provider visible rendered r in
  rq_deal r' = rq_deal r ∧ rq_log r' = rq_log r ∧ gd_reservation (rq_guard r') = gd_reservation (rq_guard r).
Proof. unfold record_delivery_progress, with_pending. by destruct (gd_finalizer _). Qed.

Lemma stream_data_spec r0 released l b output text now :
  0 ≤ output →
  served r0 released l → (b = [] ∨ Forall (λ f, terminal_frame f = false) (frames_of (released ++ b))) →
  match stream_data b output text now l with
  | Err _ => True
  | Ok l' => served r0 (released ++ b) l' ∧ sl_driver l' = sl_driver l ∧ sl_billing_usage l' = sl_billing_usage l ∧
      sl_rendered l' = saturating_add u64 (sl_rendered l) output ∧ sl_visible l' = saturating_add u64 (sl_visible l) text
  end.
Proof.
  intros Hout Hs Hopen. unfold stream_data. cbv zeta.
  destruct (map_err LocalError _) as [deal|e] eqn:Hd; [|done]. cbn [rbind].
  assert (ad_billable deal = ad_billable (rq_deal (sl_request l)) ∧ ad_ceiling deal = ad_ceiling (rq_deal (sl_request l))) as [Hb Hc].
  { destruct (output >? 0); [|by injection Hd as <-]. destruct (record_visible_output output (rq_deal (sl_request l))) as [d|] eqn:Hr; [|done].
    apply record_visible_Ok in Hr as [-> _]. by injection Hd as <-. }
  set (r1 := record_delivery_progress _ _ _ (on_deal (λ _, deal) (sl_request l))).
  destruct (progress_same (saturating_add u64 (sl_rendered l) output) (saturating_add u64 (sl_visible l) text)
    (saturating_add u64 (sl_rendered l) output) (on_deal (λ _, deal) (sl_request l))) as (H1 & H2 & H3). fold r1 in H1, H2, H3.
  destruct Hs as [Hcl [Hbill Hceil] Hres Hop]. split; [|done].
  assert (client_bytes (rq_log (if bool_decide (b = []) then r1 else emit (Yielded b) r1)) = client_bytes (rq_log r0) ++ released ++ b ∧
    rq_deal (if bool_decide (b = []) then r1 else emit (Yielded b) r1) = deal ∧
    gd_reservation (rq_guard (if bool_decide (b = []) then r1 else emit (Yielded b) r1)) = gd_reservation (rq_guard r0)) as (E1 & E2 & E3).
  { case_bool_decide as Hnil; [subst b; rewrite app_nil_r|cbn [emit rq_log]; rewrite client_bytes_snoc]; rewrite H2; cbn [rq_log on_deal];
      rewrite Hcl, <- ?app_assoc; cbn [rq_deal emit rq_guard]; rewrite H1, H3; done. }
  constructor; cbn [sl_request]; [by rewrite E1|rewrite E2; by rewrite Hb, Hc|by rewrite E3|].
  destruct Hopen as [->|Hopen]; [by rewrite app_nil_r|done].
Qed.

(** What one piece of the seller's bytes does to the driver. *)
Lemma read_data_spec seen released l b :
  cx_stream cx = true → reading seen released l → dr_saw_usage (sl_driver l) = false →
  Forall (λ f, terminal_frame f = false) (frames_of released) →
  match read_data from_str format (cx_stream cx) check b (sl_driver l) with
  | (FrameData out output text, d) =>
      let fs := frames_of ((split_frames (seller_data seen)).2 ++ b) in
      output = count (frame_output from_str format) fs ∧ text = count visible_frame fs ∧ Forall model_passes fs ∧
      at_rest (dr_frames d) (split_frames (seller_data seen ++ b)).2 ∧ dr_saw_usage d = false ∧ driver_success d = true ∧
      seller_data seen ++ b = (released ++ out) ++ dr_held d ∧
      (out = [] ∨ Forall (λ f, terminal_frame f = false) (frames_of (released ++ out)))
  | (FrameBailed _, _) | (FrameErrored _, _) => True
  | _ => False
  end.
Proof.
  intros Hst Hr Husage Hopen. destruct Hr as [Hdata Hrest _ _ _ _ Hok]. unfold read_data. rewrite Hst, Hok. cbn [negb orb].
  pose proof (push_spec b (dr_frames (sl_driver l)) _ Hrest) as Hp. revert Hp.
  destruct (push b (dr_frames (sl_driver l))) as [[complete|e] sse']; [|done]. intros (-> & Hrest' & _ & _).
  fold (frames_of ((split_frames (seller_data seen)).2 ++ b)). cbv zeta.
  assert (∃ gs, gs = frames_of ((split_frames (seller_data seen)).2 ++ b)) as [gs Hgs] by eauto. rewrite <- Hgs.
  destruct (read_pieces _ _ _ _ _) as [[p|next] facts] eqn:Hread.
  2: { assert (match next with FrameBailed _ | FrameErrored _ => True | _ => False end) as Hn; [|by destruct next].
       clear -Hread Hgs. revert Hread. generalize {| pr_output := 0; pr_text := 0; pr_terminal := negb (bool_decide (dr_held (set_dr_frames sse' (sl_driver l)) = []));
         pr_facts := dr_facts (set_dr_frames sse' (sl_driver l)) |}.
       clear Hgs. induction gs as [|f gs IH]; intros q; cbn [read_pieces]; [done|].
       destruct (read_complete from_str format check (fr_text f) q) as [q'|n] eqn:Hc; [by apply IH|]. intros [= -> _]. revert Hc.
       unfold read_complete. destruct (parse_frame _ _ _) as [[| |v fa]|]; try (by intros [= <-]); try done.
       destruct (let* _ := rf_model fa in _); [by intros [= <-]|done]. }
  apply read_pieces_Ok in Hread as (Hm & Ho & Ht & Hx). cbn [pr_output pr_text pr_terminal] in Ho, Ht, Hx.
  assert (at_rest sse' (split_frames (seller_data seen ++ b)).2) as Hrest2 by (by rewrite split_frames_app).
  destruct (pr_terminal p) eqn:Hterm.
  - destruct (_ >? UPSTREAM_RESPONSE_BODY_MAX_BYTES); [done|]. cbn -[split_frames]. split_and!; try done.
    + by rewrite Hdata, app_nil_r, <- app_assoc.
    + by left.
  - symmetry in Hx. apply orb_false_elim in Hx as [Hheld Hno]. cbn in Hheld. case_bool_decide as Hnil; [|done].
    cbn -[split_frames]. rewrite Hnil, app_nil_r in *. split_and!; try done; [by rewrite Hdata|].
    right. rewrite frames_of_app. apply Forall_app. split; [done|]. rewrite <- Hdata, <- Hgs. apply Forall_forall. intros f Hf.
    apply not_true_iff_false. intros Htrue. assert (existsb terminal_frame gs = true); [|congruence].
    apply existsb_exists. exists f. split; [by apply list_elem_of_In|done].
Qed.

Lemma observe_answer_usage_spec u r :
  let r' := (observe_answer_usage cx u r).2 in
  quiet r r' ∧ ad_ceiling (rq_deal r') = ad_ceiling (rq_deal r) ∧ gd_reservation (rq_guard r') = gd_reservation (rq_guard r).
Proof.
  unfold observe_answer_usage. destruct (rbind _ _) as [observed|]; [|done]. cbv zeta.
  assert (quiet r (persist_usage cx "answer" u false r) ∧ ad_ceiling (rq_deal (persist_usage cx "answer" u false r)) = ad_ceiling (rq_deal r) ∧
    gd_reservation (rq_guard (persist_usage cx "answer" u false r)) = gd_reservation (rq_guard r)) as H.
  { split; [apply quiet_persist|]. unfold persist_usage, persist_call, with_pending. cbn [andb negb String.eqb].
    destruct (_ && cx_history cx); [|done]. cbn. by destruct (gd_finalizer _). }
  revert H. generalize (persist_usage cx "answer" u false r). intros r1 H.
  destruct (negb (gd_finalizer (rq_guard r1))); [done|]. destruct (gd_pending (rq_guard r1)) as [p|]; [|done].
  case_bool_decide; [done|]. destruct H as (H1 & H2 & H3). cbn [snd]. split; [etransitivity; [exact H1|apply quiet_pending]|].
  rewrite <- H2, <- H3. unfold with_pending. by destruct (gd_finalizer _).
Qed.

Lemma saturating_count a n : 0 ≤ n → saturating_add u64 (Z.min a (umax u64)) n = Z.min (a + n) (umax u64).
Proof. unfold saturating_add. lia. Qed.

(** One turn of the loop. *)
Definition turn_ok (r0 : Request) (seen : list Received) (released : bytes) (received : Received) (turn : StreamLoop + (LoopEnd * StreamLoop)) : Prop :=
  match turn with
  | inl l' => ∃ released', served r0 released' l' ∧ reading (seen ++ [received]) released' l'
  | inr (Ended None None, l') => served r0 released l' ∧ reading seen released l' ∧ received = StreamEnd ∧ is_Some (sl_billing_usage l')
  | inr (Ended (Some _) None, l') | inr (Ended None (Some _), l') => served r0 released l'
  | inr _ => False
  end.

Lemma stream_data_turn r0 seen released l frame now d b output text :
  served r0 released l → reading seen released l → sf_usage frame = None → sf_head frame = None → sl_billing_usage l = None →
  (let fs := frames_of ((split_frames (seller_data seen)).2 ++ sf_data frame) in
   output = count (frame_output from_str format) fs ∧ text = count visible_frame fs ∧ Forall model_passes fs ∧
   at_rest (dr_frames d) (split_frames (seller_data seen ++ sf_data frame)).2 ∧ dr_saw_usage d = false ∧ driver_success d = true ∧
   seller_data seen ++ sf_data frame = (released ++ b) ++ dr_held d ∧
   (b = [] ∨ Forall (λ f, terminal_frame f = false) (frames_of (released ++ b)))) →
  turn_ok r0 seen released (Item (Ok frame))
    match stream_data b output text now (set_sl_driver d l) with Ok l => inl l | Err error => inr (Ended (Some error) None, set_sl_driver d l) end.
Proof.
  intros Hs Hr Hu Hh Hbill (-> & -> & Hm & Hrest & Husage & Hok & Hdata & Hopen).
  pose proof (seller_data_piece seen frame Hh Hu) as Hseen.
  pose proof (stream_data_spec r0 released (set_sl_driver d l) b _ (count visible_frame (frames_of ((split_frames (seller_data seen)).2 ++ sf_data frame))) now
    (count_nonneg (frame_output from_str format) (frames_of ((split_frames (seller_data seen)).2 ++ sf_data frame)))
    (served_driver _ _ _ d Hs) Hopen) as H. revert H.
  destruct (stream_data _ _ _ _ _) as [l'|e]; [|intros _; by apply served_driver]. intros (Hs' & Hd & Hb' & Hr' & Hv').
  exists (released ++ b). split; [done|]. destruct Hr as [_ _ Hmod Hren Hvis _ _].
  constructor; rewrite ?Hseen, ?Hd; [done|done| | | | |done].
  - rewrite (frames_of_app (seller_data seen)). by apply Forall_app.
  - rewrite Hr'. cbn [sl_rendered set_sl_driver]. rewrite Hren, (frames_of_app (seller_data seen)), count_app. apply saturating_count, count_nonneg.
  - rewrite Hv'. cbn [sl_visible set_sl_driver]. rewrite Hvis, (frames_of_app (seller_data seen)), count_app. apply saturating_count, count_nonneg.
  - rewrite Hb'. cbn. by rewrite Hbill.
Qed.

Lemma read_usage_spec u d :
  match read_usage (cx_grant cx) u d with
  | (FrameUsage u', d') => u' = u ∧ d' = set_dr_saw_usage true d ∧ BillingUsage_validate u = Ok () ∧ billable_tokens u ≤ cx_grant cx ∧ bu_output_tokens u ≠ 0
  | (FrameErrored _, d') => d' = d
  | _ => False
  end.
Proof.
  unfold read_usage. destruct (BillingUsage_validate u) as [[]|] eqn:Hv; [|done]. destruct (negb (driver_success d)); [done|].
  destruct (_ >? _) eqn:Hg; [done|]. destruct (Z.eqb_spec (bu_output_tokens u) 0); [done|]. split_and!; try done.
  rewrite Z.gtb_ltb in Hg. by apply Z.ltb_ge.
Qed.

Lemma stream_next_turn r0 seen released l received now :
  cx_stream cx = true → served r0 released l → reading seen released l →
  turn_ok r0 seen released received (stream_next from_str check cx received now l).
Proof.
  intros Hst Hs Hr. unfold stream_next, driver_next.
  destruct received as [[frame|s]| |]; cbn [recv]; [|by apply served_driver| |by apply served_driver].
  - destruct (dr_saw_usage (sl_driver l)) eqn:Husage; [by apply served_driver|]. case_bool_decide as Hhead; [by apply served_driver|].
    assert (sf_head frame = None) as Hh by (destruct (sf_head frame); [by destruct Hhead|done]).
    assert (sl_billing_usage l = None) as Hbill.
    { pose proof (rb_usage _ _ _ Hr) as H. destruct (sl_billing_usage l); [destruct H as [H _]; congruence|done]. }
    destruct (sf_usage frame) as [u|] eqn:Hu.
    + pose proof (read_usage_spec u (sl_driver l)) as H. revert H. destruct (read_usage _ _ _) as [[| | | |] d]; try done;
        [|intros ->; by apply served_driver]. intros (-> & -> & Hv & Hg & Ho).
      unfold stream_usage. cbn [sl_rendered sl_request sl_driver sl_billing_usage sl_visible set_sl_driver]. destruct (Z.eqb_spec (sl_rendered l) 0) as [H0|H0]; [by apply served_driver|].
      destruct (observe_answer_usage cx u (sl_request l)) as [res r1] eqn:Hobs.
      pose proof (observe_answer_usage_spec u (sl_request l)) as Hq. rewrite Hobs in Hq. destruct Hq as ([Hq1 Hq2] & Hq3 & Hq4). cbn [snd set_sl_driver sl_request] in *.
      destruct Hs as [Hcl [Hb Hc] Hres Hop].
      assert (∀ dr bu, served r0 released {| sl_driver := dr; sl_billing_usage := bu; sl_visible := sl_visible l;
        sl_rendered := sl_rendered l; sl_request := r1 |}) as Hs'.
      { intros dr bu. constructor; cbn [sl_request]; [congruence|split; congruence|congruence|done]. }
      destruct res as [[]|e]; [|exact (Hs' _ _)]. exists released. split; [apply Hs'|].
      pose proof (seller_data_bill seen frame u Hu) as Hseen.
      destruct Hr as [Hdata Hrest Hm Hren Hvis _ Hok]. constructor; cbn [sl_driver sl_billing_usage sl_rendered sl_visible]; rewrite ?Hseen; try done.
      split; [done|]. split; [split_and!; try done|exists frame; by rewrite last_snoc].
      apply count_pos. pose proof (count_nonneg (frame_output from_str format) (frames_of (seller_data seen))).
      assert (0 < umax u64) by done. lia.
    + pose proof (read_data_spec seen released l (sf_data frame) Hst Hr Husage (sv_open _ _ _ Hs)) as H. revert H.
      destruct (read_data _ _ _ _ _ _) as [[b output text| | | |] d]; try done; try (intros _; by apply served_driver).
      intros H. by apply (stream_data_turn r0 seen released l frame now d b output text).
  - pose proof Hr as [_ _ _ _ _ Hu Hok]. rewrite Hok. cbn [negb]. destruct (dr_saw_usage (sl_driver l)) eqn:Husage; cbn [orb].
    + split; [by apply served_driver|]. split; [by destruct Hr|]. split; [done|].
      cbn [sl_billing_usage set_sl_driver]. destruct (sl_billing_usage l); [done|congruence].
    + by apply served_driver.
Qed.

(** The whole loop. *)
Lemma stream_loop_spec r0 seen released arrivals l :
  cx_stream cx = true → served r0 released l → reading seen released l →
  let '(over, l') := stream_loop from_str check cx arrivals l in
  ∃ released' read,
    served r0 released' l' ∧ released' `prefix_of` seller_data (seen ++ map fst arrivals) ∧
    match over with
    | Ended None None => reading read released' l' ∧ is_Some (sl_billing_usage l') ∧
        ∃ rest, seen ++ map fst arrivals = read ++ StreamEnd :: rest
    | Ended (Some _) (Some _) => False
    | _ => True
    end.
Proof.
  intros Hst. revert seen released l. induction arrivals as [|[received now] arrivals IH]; intros seen released l Hs Hr; cbn [stream_loop map fst].
  - exists released, seen. split_and!; [done| |done]. rewrite app_nil_r, (rb_data _ _ _ Hr). by eexists.
  - pose proof (stream_next_turn r0 seen released l received now Hst Hs Hr) as H. revert H.
    destruct (stream_next from_str check cx received now l) as [l'|[over l']].
    + intros (released' & Hs' & Hr'). pose proof (IH _ _ _ Hs' Hr') as H. revert H. destruct (stream_loop _ _ _ _ _) as [over l''].
      by rewrite <- app_assoc.
    + assert (released `prefix_of` seller_data (seen ++ received :: map fst arrivals)) as Hpre.
      { rewrite seller_data_app, (rb_data _ _ _ Hr), <- app_assoc. by eexists. }
      intros H. exists released, seen. destruct over as [|[e|] [reason|]]; try done. cbn in H.
      destruct H as (H1 & H2 & -> & H3). split_and!; try done. by eexists.
Qed.

(** ** The end of a streamed answer *)

Lemma record_billing_spec u r :
  let '(res, r') := record_billing cx u r in
  match res with
  | Err _ => r' = r
  | Ok _ => BillingUsage_validate u = Ok () ∧ client_bytes (rq_log r') = client_bytes (rq_log r) ∧
      ad_billable (rq_deal r') = ad_billable (rq_deal r) + billable_tokens u ∧ ad_billable (rq_deal r') ≤ ad_ceiling (rq_deal r) ∧
      ∃ reservation, gd_reservation (rq_guard r) = Some reservation ∧ rs_used reservation + billable_tokens u ≤ rs_granted reservation
  end.
Proof.
  unfold record_billing. destruct (BillingUsage_validate u) as [[]|] eqn:Hv; cbn [rbind]; [|done].
  destruct (accumulated _ _) as [total|]; [|done]. destruct (gd_reservation (rq_guard r)) as [reservation|] eqn:Hres; [|done].
  destruct (checked_used_after (billable_tokens u) reservation) as [next|] eqn:Hn; cbn [rbind]; [|done].
  destruct (record_billable (billable_tokens u) (rq_deal r)) as [deal|] eqn:Hd; cbn [rbind]; [|done].
  apply record_billable_Ok in Hd as [-> Hd]. unfold checked_used_after in Hn.
  destruct (checked_add u64 (rs_used reservation) (billable_tokens u)) as [used|] eqn:Hadd; cbn [obind] in Hn; [|done].
  apply checked_add_Some in Hadd as [-> _]. destruct (_ <=? _) eqn:Hle; [|done]. apply Z.leb_le in Hle. injection Hn as <-.
  cbv zeta. set (r1 := on_guard _ (on_deal _ r)). set (f := λ p, set_pd_observed_request None _).
  destruct (quiet_trans _ _ _ (quiet_persist cx (gd_usage_phase (rq_guard r1)) u true r1) (quiet_pending f _)) as [Hq1 Hq2].
  assert (rq_log r1 = rq_log r ∧ ad_billable (rq_deal r1) = ad_billable (rq_deal r) + billable_tokens u) as [E1 E2] by done.
  rewrite Hq1, Hq2, E1, E2. split_and!; try done; [lia|]. by exists reservation.
Qed.

(** A stream that ended cleanly with its bill. *)
Lemma finish_stream_paid gone l u r1 :
  sl_billing_usage l = Some u → record_billing cx u (sl_request l) = (Ok (), r1) →
  let r' := finish_stream show_text show_error print cx gone None None l in
  client_bytes (rq_log r') = client_bytes (rq_log r1) ++ dr_held (sl_driver l) ∧ ad_billable (rq_deal r') = ad_billable (rq_deal r1).
Proof.
  intros Hu Hb r'. subst r'. unfold finish_stream. rewrite Hu, Hb. cbn [bool_decide]. cbv zeta.
  rewrite !(bool_decide_eq_false_2 (is_Some None)) by (intros [? ?]; discriminate). cbn [negb andb].
  rewrite (bool_decide_eq_true_2 (None = None)) by done. set (r2 := report_prepared _).
  assert (quiet r1 r2) as [Hq1 Hq2].
  { unfold r2. etransitivity; [|apply quiet_report_prepared]. unfold prepare_delivery. etransitivity; [|apply quiet_pending]. apply quiet_settle_stream. }
  case_bool_decide as Hheld.
  - destruct (quiet_drop r2) as [D1 D2]. by rewrite D1, D2, Hheld, app_nil_r, Hq1, Hq2.
  - destruct (quiet_drop (emit (Yielded (dr_held (sl_driver l))) r2)) as [D1 D2]. rewrite D1, D2. cbn [emit rq_log rq_deal].
    by rewrite client_bytes_snoc, Hq1, Hq2.
Qed.

(** A stream that broke or bailed, or whose bill was refused. *)
Lemma finish_stream_unpaid gone error bailed l :
  (error ≠ None ∨ bailed ≠ None ∨ ∃ u e, sl_billing_usage l = Some u ∧ record_billing cx u (sl_request l) = (Err e, sl_request l)) →
  let r' := finish_stream show_text show_error print cx gone error bailed l in
  ad_billable (rq_deal r') = ad_billable (rq_deal (sl_request l)) ∧
  ∃ finish_reason error', client_bytes (rq_log r') = client_bytes (rq_log (sl_request l))
    ++ stream_ending show_text show_error print cx (driver_facts (sl_driver l)) finish_reason (sl_rendered l) error'.
Proof.
  intros Hcase r'. subst r'. unfold finish_stream. cbv zeta.
  assert (∃ error', (match error, sl_billing_usage l with
    | None, Some usage => if bool_decide (is_Some bailed) then (None, sl_request l) else
        let '(res, r) := record_billing cx usage (sl_request l) in (match res with Ok _ => None | Err error => Some (LocalError error) end, r)
    | error, _ => (error, sl_request l) end) = (error', sl_request l) ∧ (error' ≠ None ∨ bailed ≠ None)) as (error' & -> & Hno).
  { destruct error as [e|]; [by eexists; split; [|left]|]. destruct (sl_billing_usage l) as [u|] eqn:Hu.
    - destruct bailed as [reason|]; [by exists None; split; [|right]|]. cbn [is_Some]. rewrite bool_decide_eq_false_2 by (intros [? ?]; discriminate).
      destruct Hcase as [?|[?|(u' & e & [= <-] & ->)]]; [done|done|]. by eexists; split; [|left].
    - destruct Hcase as [?|[?|(u' & e & ? & _)]]; try done. by exists None; split; [|right]. }
  assert (negb (bool_decide (is_Some bailed)) && bool_decide (error' = None) = false) as ->.
  { destruct Hno as [Hno|Hno]; [rewrite (bool_decide_eq_false_2 _ Hno); by rewrite andb_false_r|].
    destruct bailed; [|done]. by rewrite bool_decide_eq_true_2 by by eexists. }
  set (ending := stream_ending _ _ _ _ _ _ _ _). set (r1 := prepare_delivery _ _).
  assert (quiet (sl_request l) r1) as [Hq1 Hq2].
  { unfold r1, prepare_delivery. etransitivity; [|apply quiet_pending]. apply quiet_settle_stream. }
  set (r2 := emit (Yielded ending) r1).
  assert (quiet r2 (drop_guard (if gone then r2 else report_prepared r2))) as [D1 D2].
  { etransitivity; [|apply quiet_drop]. destruct gone; [done|apply quiet_report_prepared]. }
  rewrite D1, D2. split; [exact Hq2|]. eexists _, error'. cbn [r2 emit rq_log]. rewrite client_bytes_snoc, Hq1. done.
Qed.

(** C8: whatever the seller sends, a streamed answer is paid only when it is whole, and its end
    reaches the client only when it is paid.  Paid: the seller's stream ended after a bill that
    is valid, of positive output, within the grant, the reservation and the route's ceiling;
    some frame carried output, every model that the provider named passed the check, and the
    client received exactly the provider's bytes; the deal is charged that bill, once.  Not
    paid: the deal is charged nothing, and the client received a prefix of the provider's
    bytes in which no frame states the end of the answer, then at most the buyer's own ending. *)
Theorem paid_answers_are_whole gone arrivals driver r :
  cx_stream cx = true → headed driver →
  let r' := streamed_answer from_str show_text show_error print check cx gone arrivals driver r in
  (∃ u read rest frame reservation,
     map fst arrivals = read ++ StreamEnd :: rest ∧ last read = Some (Item (Ok frame)) ∧ sf_usage frame = Some u ∧
     client_bytes (rq_log r') = client_bytes (rq_log r) ++ seller_data read ∧
     BillingUsage_validate u = Ok () ∧ bu_output_tokens u ≠ 0 ∧ billable_tokens u ≤ cx_grant cx ∧
     gd_reservation (rq_guard r) = Some reservation ∧ rs_used reservation + billable_tokens u ≤ rs_granted reservation ∧
     existsb (frame_output from_str format) (frames_of (seller_data read)) = true ∧ Forall model_passes (frames_of (seller_data read)) ∧
     ad_billable (rq_deal r') = ad_billable (rq_deal r) + billable_tokens u ∧ ad_billable (rq_deal r') ≤ ad_ceiling (rq_deal r)) ∨
  (∃ released ending,
     client_bytes (rq_log r') = client_bytes (rq_log r) ++ released ++ ending ∧ ad_billable (rq_deal r') = ad_billable (rq_deal r) ∧
     released `prefix_of` seller_data (map fst arrivals) ∧ Forall (λ f, terminal_frame f = false) (frames_of released) ∧
     (ending = [] ∨ ∃ facts reason rendered error, ending = stream_ending show_text show_error print cx facts reason rendered error)).
Proof.
  intros Hst Hhead r'. subst r'. unfold streamed_answer. fold (answer_start driver r). destruct (start_ok driver r Hhead) as [Hs Hr].
  pose proof (stream_loop_spec r [] [] arrivals _ Hst Hs Hr) as H. revert H. destruct (stream_loop _ _ _ _ _) as [over l].
  intros (released & read & [Hcl [Hb Hc] Hres Hop] & Hpre & Hover). cbn [app] in *.
  assert (∀ error bailed, (error ≠ None ∨ bailed ≠ None ∨ ∃ u e, sl_billing_usage l = Some u ∧ record_billing cx u (sl_request l) = (Err e, sl_request l)) →
    ∃ ending, client_bytes (rq_log (finish_stream show_text show_error print cx gone error bailed l)) = client_bytes (rq_log r) ++ released ++ ending ∧
      ad_billable (rq_deal (finish_stream show_text show_error print cx gone error bailed l)) = ad_billable (rq_deal r) ∧
      ∃ facts reason rendered error, ending = stream_ending show_text show_error print cx facts reason rendered error) as Hunpaid.
  { intros error bailed Hcase. destruct (finish_stream_unpaid gone error bailed l Hcase) as (H1 & reason & error' & H2).
    eexists. split; [rewrite H2, Hcl, <- app_assoc; done|]. split; [congruence|]. by eexists _, _, _, _. }
  destruct over as [|error bailed].
  - right. exists released, []. destruct (quiet_drop (sl_request l)) as [D1 D2]. rewrite D1, D2, app_nil_r. split_and!; try done. by left.
  - destruct error as [e|], bailed as [reason|].
    + done.
    + right. destruct (Hunpaid (Some e) None) as (ending & ? & ? & ?); [by left|]. exists released, ending. split_and!; try done. by right.
    + right. destruct (Hunpaid None (Some reason)) as (ending & ? & ? & ?); [by right; left|]. exists released, ending. split_and!; try done. by right.
    + destruct Hover as ([Hdata _ Hm _ _ Hu _] & [u Hbill] & rest & Harr). rewrite Hbill in Hu. destruct Hu as (_ & (Hv & Hg & Ho & Hex) & frame & Hlast & Hframe).
      pose proof (record_billing_spec u (sl_request l)) as H. destruct (record_billing cx u (sl_request l)) as [[[]|e] r1] eqn:Hrec.
      * destruct H as (_ & H1 & H2 & H3 & reservation & H4 & H5). left. exists u, read, rest, frame, reservation.
        destruct (finish_stream_paid gone l u r1 Hbill Hrec) as [F1 F2].
        split_and!; try done; try congruence.
        rewrite F1, H1, Hcl, Hdata. by rewrite <- app_assoc.
      * subst r1. right. destruct (Hunpaid None None) as (ending & ? & ? & ?); [right; right; by exists u, e|]. exists released, ending.
        split_and!; try done. by right.
Qed.
End Answer.
