(* ===== verification/Exchange.v ===== *)
(** * An honest exchange, from the provider to the buyer's client

    The composition of the parts that a streamed answer passes: the seller's relay (Relay.v),
    its gateway (Gateway.v) and the buyer's answer (BuyerAnswer.v).  When nobody breaks off,
    the client receives the provider's frames byte for byte, and the buyer's deal is charged
    exactly what the seller's recorder accepted. *)
From S2P Require Import Prelude RustText ApiFormat SseFrames UsageData Recovery Meter MeterProps Relay RelayProps ModelId Gateway GatewayProps BuyerBudget BuyerStream BuyerAnswer BuyerProps.
From Stdlib Require Import Strings.Ascii.

#[local] Arguments umax : simpl never.

(** ** The buyer of an honest answer *)

Section Buyer.
Context (from_str : string → Result string Value) (show_text : text → string) (show_error : StreamError → text) (print : Value → string)
  (check : ModelCheck) (cx : AnswerContext).
Abbreviation format := (cx_format cx).
Abbreviation terminal := (terminal_frame from_str cx).

(** A frame as a seller relays it, of the right model. *)
Definition honest_frame (f : SseFrame) : Prop := readable from_str format f ∧ model_passes from_str check cx f.
(** The frames from the first on that states the end. *)
Fixpoint ending_of (fs : list SseFrame) : list SseFrame :=
  match fs with [] => [] | f :: fs' => if terminal f then fs else ending_of fs' end.
Definition wire (fs : list SseFrame) : bytes := List.concat (map fr_bytes fs).

Lemma wire_app fs gs : wire (fs ++ gs) = wire fs ++ wire gs.
Proof. unfold wire. by rewrite map_app, concat_app. Qed.
Lemma ending_of_snoc fs f :
  ending_of (fs ++ [f]) = if existsb terminal (fs ++ [f]) then ending_of fs ++ [f] else [].
Proof.
  induction fs as [|g fs IH]; cbn [ending_of app existsb].
  - by destruct (terminal f).
  - destruct (terminal g); [done|]. cbn [orb]. by rewrite IH.
Qed.
Lemma ending_of_nil fs : existsb terminal fs = false ↔ ending_of fs = [].
Proof.
  induction fs as [|g fs IH]; cbn; [done|]. destruct (terminal g); [done|exact IH].
Qed.

(** What the loop keeps besides [served] and [reading]. *)
Record armed (r0 : Request) (l : StreamLoop) : Prop := {
  ar_finalizer : gd_finalizer (rq_guard (sl_request l)) = true;
  ar_pending : ∃ p, gd_pending (rq_guard (sl_request l)) = Some p ∧ pd_observed_request p = None;
  ar_usage : gd_request_usage (rq_guard (sl_request l)) = gd_request_usage (rq_guard r0);
}.

Lemma honest_wire_split f b : honest_frame f → (split_frames b).2 = [] →
  (split_frames (b ++ fr_bytes f)).2 = [] ∧ frames_of (b ++ fr_bytes f) = frames_of b ++ [f].
Proof.
  intros [[(t & -> & Ht & _) _] _] Hb. rewrite frames_of_app. unfold frames_of. rewrite split_frames_app, Hb. cbn [app fst snd].
  change (fr_bytes (frame_of t)) with (t ++ [LF; LF]). by rewrite Ht.
Qed.

Lemma wire_held fs : Forall (λ f, fr_bytes f ≠ []) fs → bool_decide (wire (ending_of fs) = []) = negb (existsb terminal fs).
Proof.
  intros Hne. destruct (existsb terminal fs) eqn:Hex; cbn [negb].
  - apply bool_decide_eq_false_2. intros Hnil. destruct (ending_of fs) as [|g gs] eqn:Hend.
    { apply ending_of_nil in Hend. congruence. }
    assert (g ∈ fs) as Hg.
    { clear -Hend. induction fs as [|h fs IH]; [done|]. cbn in Hend. destruct (terminal h); [injection Hend as -> ->; apply list_elem_of_here|].
      apply list_elem_of_further; auto. }
    rewrite Forall_forall in Hne. specialize (Hne g Hg). cbn in Hnil. apply app_eq_nil in Hnil. naive_solver.
  - apply bool_decide_eq_true_2. by rewrite (proj1 (ending_of_nil fs) Hex).
Qed.

Lemma frames_nonempty b : Forall (λ f, fr_bytes f ≠ []) (frames_of b).
Proof. apply Forall_forall. intros f (t & -> & _)%list_elem_of_fmap. cbn. by destruct t. Qed.

Lemma ending_grows fs gs : (length (wire (ending_of fs)) ≤ length (wire (ending_of (fs ++ gs))))%nat.
Proof.
  induction fs as [|f fs IH]; cbn [ending_of app]; [cbn; lia|]. destruct (terminal f); [|done].
  rewrite !(app_comm_cons fs), wire_app, length_app. lia.
Qed.

(** The driver reads an honest frame. *)
Lemma read_honest seen released fs l f :
  cx_stream cx = true → honest_frame f → reading from_str check cx seen released l →
  (split_frames (seller_data seen)).2 = [] → frames_of (seller_data seen) = fs → dr_held (sl_driver l) = wire (ending_of fs) →
  Z.of_nat (length (wire (ending_of (fs ++ [f])))) ≤ UPSTREAM_RESPONSE_BODY_MAX_BYTES →
  ∃ b txt d, read_data from_str format (cx_stream cx) check (fr_bytes f) (sl_driver l)
      = (FrameData b (count (frame_output from_str format) [f]) txt, d) ∧ dr_held d = wire (ending_of (fs ++ [f])).
Proof.
  intros Hst [[(t & -> & Ht & Hutf) Hparse] Hmodel] Hr Hrest Hfs Hheld Hmax.
  unfold read_data. rewrite Hst, (rb_success _ _ _ _ _ _ Hr). cbn [negb orb]. change (fr_bytes (frame_of t)) with (t ++ [LF; LF]) in *.
  pose proof (push_spec (t ++ [LF; LF]) (dr_frames (sl_driver l)) _ (rb_rest _ _ _ _ _ _ Hr)) as Hpush. rewrite Hrest in Hpush. cbn [app] in Hpush.
  revert Hpush. destruct (push (t ++ [LF; LF]) (dr_frames (sl_driver l))) as [[complete|e] sse'].
  2: { intros Hno. exfalso. apply Hno. unfold all_utf8. rewrite Ht. split; [by repeat constructor|by vm_compute]. }
  rewrite Ht. intros (-> & _). cbn [fst map read_pieces].
  set (q := {| pr_output := 0; pr_text := 0; pr_terminal := _; pr_facts := _ |}).
  destruct (read_complete from_str format check (fr_text (frame_of t)) q) as [p|next] eqn:Hread.
  2: { exfalso. revert Hread Hparse Hmodel. unfold read_complete, parsed, model_passes, frame_model, frame_event, parsed.
       destruct (parse_frame from_str format (fr_text (frame_of t))) as [[| |v fa]|]; try done. cbn [obind].
       destruct (rf_model fa) as [m|] eqn:Hm; cbn [obind]; [|done]. destruct (model_verify check m) eqn:Hv; [done|]. intros _ _ Hpass.
       cbn in Hpass. rewrite Hm in Hpass. specialize (Hpass m eq_refl). congruence. }
  apply read_complete_Ok in Hread as (_ & Ho & _ & Hterm).
  assert (pr_terminal p = existsb terminal (fs ++ [frame_of t])) as Hterm'.
  { rewrite Hterm, existsb_app. cbn [pr_terminal q existsb dr_held set_dr_frames]. rewrite Hheld, wire_held by (rewrite <- Hfs; apply frames_nonempty).
    by rewrite negb_involutive, orb_false_r. }
  rewrite Hterm'. rewrite ending_of_snoc in Hmax |- *. cbn [dr_held set_dr_frames set_dr_facts pr_output q] in *.
  assert (wire [frame_of t] = t ++ [LF; LF]) as Hw by (unfold wire; cbn; by rewrite app_nil_r).
  rewrite Z.add_0_l in Ho. rewrite Ho. destruct (existsb terminal (fs ++ [frame_of t])) eqn:Hnow.
  - rewrite wire_app, Hw in Hmax. rewrite Hheld, wire_app, Hw, <- length_app.
    destruct (_ >? _) eqn:Hbig; [rewrite Z.gtb_ltb in Hbig; apply Z.ltb_lt in Hbig; lia|]. by eexists _, _, _.
  - eexists _, _, _. split; [done|]. cbn [dr_held set_dr_facts set_dr_frames]. rewrite Hheld.
    rewrite existsb_app in Hnow. apply orb_false_elim in Hnow as [Hnow _]. by rewrite (proj1 (ending_of_nil fs) Hnow).
Qed.

(** The loop takes it. *)
Lemma stream_data_armed r0 l b out txt now d :
  armed r0 l → 0 ≤ out → ad_visible_output (rq_deal (sl_request l)) + out ≤ umax u64 →
  ∃ l', stream_data b out txt now (set_sl_driver d l) = Ok l' ∧ armed r0 l' ∧ sl_billing_usage l' = sl_billing_usage l ∧ sl_driver l' = d ∧
    ad_visible_output (rq_deal (sl_request l')) = ad_visible_output (rq_deal (sl_request l)) + out.
Proof.
  intros [Hfin (p0 & Hp & Hobs) Husage] Hpos Hcap. unfold stream_data. cbn [sl_request set_sl_driver sl_driver sl_billing_usage].
  assert (∃ deal, map_err LocalError (if out >? 0 then rmap (record_accepted_output now) (record_visible_output out (rq_deal (sl_request l)))
    else Ok (rq_deal (sl_request l))) = Ok deal ∧ ad_visible_output deal = ad_visible_output (rq_deal (sl_request l)) + out) as (deal & -> & Hdeal).
  { destruct (out >? 0) eqn:Hgt; [|exists (rq_deal (sl_request l)); split; [done|]; rewrite Z.gtb_ltb in Hgt; apply Z.ltb_ge in Hgt; lia].
    unfold record_visible_output, checked_add. rewrite (proj2 (Z.leb_le _ _)) by lia. cbn. by eexists. }
  cbn [rbind]. eexists. split; [done|]. cbn [sl_request sl_billing_usage sl_driver].
  unfold record_delivery_progress, with_pending. cbn [on_deal rq_guard]. rewrite Hfin. split; [|by destruct (bool_decide (b = []))].
  constructor; cbn [sl_request]; destruct (bool_decide (b = [])); cbn; rewrite ?Hp; cbn; try done; by eexists.
Qed.


(** The frames [fs] are read: what the client does not have is their end, held back. *)
Record at_frames (r0 : Request) (seen : list Received) (fs : list SseFrame) (l : StreamLoop) : Prop := {
  af_reading : ∃ released, served from_str cx r0 released l ∧ reading from_str check cx seen released l;
  af_armed : armed r0 l;
  af_unbilled : sl_billing_usage l = None;
  af_data : seller_data seen = wire fs;
  af_frames : (split_frames (seller_data seen)).2 = [] ∧ frames_of (seller_data seen) = fs;
  af_held : dr_held (sl_driver l) = wire (ending_of fs);
}.
Definition frame_item (f : SseFrame) : Received := Item (Ok (data_frame (fr_bytes f))).

(** One honest frame goes through. *)
Lemma honest_piece r0 seen fs l f now :
  cx_stream cx = true → honest_frame f → at_frames r0 seen fs l →
  Z.of_nat (length (wire (ending_of (fs ++ [f])))) ≤ UPSTREAM_RESPONSE_BODY_MAX_BYTES →
  ad_visible_output (rq_deal (sl_request l)) + count (frame_output from_str format) [f] ≤ umax u64 →
  ∃ l', stream_next from_str check cx (frame_item f) now l = inl l' ∧ at_frames r0 (seen ++ [frame_item f]) (fs ++ [f]) l' ∧
    ad_visible_output (rq_deal (sl_request l')) = ad_visible_output (rq_deal (sl_request l)) + count (frame_output from_str format) [f].
Proof.
  intros Hst Hf [(released & Hs & Hr) Ha Hbill Hdata [Hrest Hfs] Hheld] Hmax Hcap.
  pose proof (stream_next_turn from_str check cx r0 seen released l (frame_item f) now Hst Hs Hr) as Hturn.
  assert (dr_saw_usage (sl_driver l) = false) as Hsaw by (pose proof (rb_usage _ _ _ _ _ _ Hr) as H; by rewrite Hbill in H).
  destruct (read_honest seen released fs l f Hst Hf Hr Hrest Hfs Hheld Hmax) as (b & txt & d & Hread & Hd).
  destruct (stream_data_armed r0 l b (count (frame_output from_str format) [f]) txt now d Ha (count_nonneg _ _) Hcap)
    as (l' & Hl' & Ha' & Hb' & Hd' & Hv').
  assert (stream_next from_str check cx (frame_item f) now l = inl l') as Hnext.
  { unfold stream_next, driver_next, frame_item. cbn [recv]. rewrite Hsaw, bool_decide_eq_false_2 by (intros [? ?]; discriminate).
    cbn [sf_usage data_frame sf_data]. by rewrite Hread, Hl'. }
  rewrite Hnext in Hturn. exists l'. split_and!; [done| |done].
  assert (seller_data (seen ++ [frame_item f]) = seller_data seen ++ fr_bytes f) as Hseen by by apply seller_data_piece.
  constructor; [exact Hturn|done|by rewrite Hb'| | |by rewrite Hd'].
  - by rewrite Hseen, Hdata, wire_app; unfold wire at 3; cbn; rewrite app_nil_r.
  - rewrite Hseen. destruct (honest_wire_split f (seller_data seen) Hf Hrest) as [H1 H2]. by rewrite H2, Hfs.
Qed.

(** All of them go through, whenever they come. *)
Lemma honest_loop r0 arrivals more : cx_stream cx = true → ∀ gs seen fs l,
  map fst arrivals = map frame_item gs → Forall honest_frame gs → at_frames r0 seen fs l →
  Z.of_nat (length (wire (ending_of (fs ++ gs)))) ≤ UPSTREAM_RESPONSE_BODY_MAX_BYTES →
  ad_visible_output (rq_deal (sl_request l)) + count (frame_output from_str format) gs ≤ umax u64 →
  ∃ l', stream_loop from_str check cx (arrivals ++ more) l = stream_loop from_str check cx more l' ∧
    at_frames r0 (seen ++ map frame_item gs) (fs ++ gs) l'.
Proof.
  intros Hst. induction arrivals as [|[item now] arrivals IH]; intros [|f gs] seen fs l; cbn [map fst]; intros Harr Hgs Hat Hmax Hcap; try done.
  { exists l. by rewrite !app_nil_r. }
  injection Harr as -> Harr. apply Forall_cons in Hgs as [Hf Hgs].
  assert (fs ++ f :: gs = (fs ++ [f]) ++ gs) as Eq by by rewrite <- app_assoc. rewrite Eq in *.
  change (f :: gs) with ([f] ++ gs) in Hcap. rewrite count_app in Hcap.
  pose proof (count_nonneg (frame_output from_str format) gs). pose proof (ending_grows (fs ++ [f]) gs).
  destruct (honest_piece r0 seen fs l f now Hst Hf Hat) as (l1 & Hnext & Hat1 & Hv1); [lia..|].
  destruct (IH gs _ _ _ Harr Hgs Hat1) as (l' & Hloop & Hat'); [done|lia|].
  exists l'. cbn [app stream_loop]. rewrite Hnext. split; [exact Hloop|]. rewrite <- app_assoc in Hat'. exact Hat'.
Qed.

(** What leaves the buyer able to pay: the bill is valid, and there is room for it everywhere. *)
Record payable (r0 : Request) (u : BillingUsage) : Prop := {
  py_valid : BillingUsage_validate u = Ok ();
  py_output : bu_output_tokens u ≠ 0;
  py_grant : 0 ≤ billable_tokens u ≤ cx_grant cx;
  py_total : is_ok (accumulated (gd_request_usage (rq_guard r0)) u) = true;
  py_reservation : ∃ rs, gd_reservation (rq_guard r0) = Some rs ∧ rs_used rs + billable_tokens u ≤ rs_granted rs ≤ umax u64;
  py_ceiling : ad_billable (rq_deal r0) + billable_tokens u ≤ Z.min (ad_ceiling (rq_deal r0)) (umax u64);
}.

(** A write of the history leaves the guard armed as it was. *)
Lemma persist_armed phase record accepted r :
  let r' := persist_usage cx phase record accepted r in
  gd_finalizer (rq_guard r') = gd_finalizer (rq_guard r) ∧ gd_request_usage (rq_guard r') = gd_request_usage (rq_guard r) ∧
  pd_observed_request <$> gd_pending (rq_guard r') = pd_observed_request <$> gd_pending (rq_guard r).
Proof.
  assert (∀ call record accepted r, let r' := persist_call cx phase call record accepted r in
    gd_finalizer (rq_guard r') = gd_finalizer (rq_guard r) ∧ gd_request_usage (rq_guard r') = gd_request_usage (rq_guard r) ∧
    pd_observed_request <$> gd_pending (rq_guard r') = pd_observed_request <$> gd_pending (rq_guard r)) as Hcall.
  { clear. intros call record accepted r. unfold persist_call. destruct (_ && cx_history cx); [|done]. cbv zeta. unfold with_pending, emit.
    destruct (gd_finalizer (rq_guard r)) eqn:Hf; [|by rewrite <- Hf]. cbn. split_and!; [done|done|].
    destruct (gd_pending (rq_guard r)) as [p|]; [|done]. cbn. by destruct (cx_writes cx _). }
  unfold persist_usage. destruct (accepted && _); [|apply Hcall].
  destruct (Hcall "in_progress"%string zero_usage true (persist_call cx phase phase record accepted r)) as (H1 & H2 & H3).
  destruct (Hcall phase record accepted r) as (H4 & H5 & H6). cbv zeta. by rewrite H1, H2, H3, H4, H5, H6.
Qed.

Lemma observe_armed r0 l u :
  armed r0 l → BillingUsage_validate u = Ok () → is_ok (accumulated (gd_request_usage (rq_guard r0)) u) = true →
  ∃ r', observe_answer_usage cx u (sl_request l) = (Ok (), r') ∧ gd_request_usage (rq_guard r') = gd_request_usage (rq_guard r0).
Proof.
  intros [Hfin (p & Hp & Hobs) Husage] Hv Htotal. unfold observe_answer_usage. rewrite Husage, Hv. cbn [rbind].
  destruct (accumulated _ u) as [observed|]; [|done]. cbv zeta.
  destruct (persist_armed "answer" u false (sl_request l)) as (H1 & H2 & H3). set (r1 := persist_usage cx "answer" u false (sl_request l)) in *.
  rewrite H1, Hfin. cbn [negb]. rewrite Hp in H3. destruct (gd_pending (rq_guard r1)) as [p1|] eqn:Hp1; [|done]. injection H3 as H3.
  rewrite H3, Hobs, bool_decide_eq_false_2 by (intros [? ?]; discriminate). eexists. split; [done|].
  clearbody r1. unfold with_pending. rewrite H1, Hfin. cbn. by rewrite H2, Husage.
Qed.

Lemma record_payable r u :
  payable r u → ∃ r', record_billing cx u r = (Ok (), r').
Proof.
  intros [Hv _ [H0 _] Ht (rs & Hrs & Hroom) Hceil]. unfold record_billing. rewrite Hv. cbn [rbind].
  destruct (accumulated _ u) as [total|]; [|done]. rewrite Hrs. unfold checked_used_after, record_billable, checked_add.
  assert (rs_used rs + billable_tokens u ≤ umax u64 ∧ ad_billable (rq_deal r) + billable_tokens u ≤ umax u64) as [H1 H2] by lia.
  rewrite (proj2 (Z.leb_le (rs_used rs + _) _)) by lia. cbn [obind]. rewrite (proj2 (Z.leb_le (rs_used rs + _) _)) by lia. cbn [ok_or rbind].
  rewrite (proj2 (Z.leb_le (ad_billable _ + _) _)) by lia. rewrite (proj2 (Z.leb_le (ad_billable _ + _) _)) by lia. by eexists.
Qed.

(** The bill of a payable answer ends the loop cleanly. *)
Lemma honest_bill r0 seen fs l u now :
  cx_stream cx = true → at_frames r0 seen fs l → existsb (frame_output from_str format) fs = true → payable r0 u →
  ∃ released l', stream_next from_str check cx (Item (Ok (usage_frame u))) now l = inl l' ∧ served from_str cx r0 released l' ∧
    reading from_str check cx (seen ++ [Item (Ok (usage_frame u))]) released l' ∧ sl_billing_usage l' = Some u ∧
    gd_request_usage (rq_guard (sl_request l')) = gd_request_usage (rq_guard r0).
Proof.
  intros Hst [(released & Hs & Hr) Ha Hbill Hdata [Hrest Hfs] Hheld] Hout [Hv Ho [_ Hg] Ht _ _].
  pose proof (stream_next_turn from_str check cx r0 seen released l (Item (Ok (usage_frame u))) now Hst Hs Hr) as Hturn.
  destruct (observe_armed r0 l u Ha Hv Ht) as (r1 & Hobs & Hu).
  assert (dr_saw_usage (sl_driver l) = false) as Hsaw by (pose proof (rb_usage _ _ _ _ _ _ Hr) as H; by rewrite Hbill in H).
  assert (sl_rendered l ≠ 0) as Hren.
  { rewrite (rb_rendered _ _ _ _ _ _ Hr), Hfs. apply count_pos in Hout. assert (0 < umax u64) by done. lia. }
  assert (∃ l', stream_next from_str check cx (Item (Ok (usage_frame u))) now l = inl l' ∧ sl_billing_usage l' = Some u ∧ sl_request l' = r1) as (l' & Hnext & Hu' & Hr1).
  { unfold stream_next, driver_next. cbn [recv]. rewrite Hsaw, bool_decide_eq_false_2 by (intros [? ?]; discriminate). cbn [sf_usage usage_frame].
    unfold read_usage. rewrite Hv, (rb_success _ _ _ _ _ _ Hr). cbn [negb]. rewrite Z.gtb_ltb, (proj2 (Z.ltb_ge _ _)) by lia.
    rewrite (proj2 (Z.eqb_neq _ _)) by done. unfold stream_usage. cbn [sl_rendered sl_request set_sl_driver]. rewrite (proj2 (Z.eqb_neq _ _)) by done.
    rewrite Hobs. by eexists. }
  rewrite Hnext in Hturn. destruct Hturn as (released' & Hs' & Hr'). exists released', l'. by rewrite Hr1.
Qed.

(** An honest answer that the buyer can pay is paid, and the client gets all of it. *)
Lemma honest_answer gone arrivals fs u driver r0 :
  cx_stream cx = true → headed driver → armed r0 (answer_start driver r0) →
  map fst arrivals = map frame_item fs ++ [Item (Ok (usage_frame u)); StreamEnd] →
  Forall honest_frame fs → existsb (frame_output from_str format) fs = true → payable r0 u →
  Z.of_nat (length (wire (ending_of fs))) ≤ UPSTREAM_RESPONSE_BODY_MAX_BYTES →
  ad_visible_output (rq_deal r0) + count (frame_output from_str format) fs ≤ umax u64 →
  let r' := streamed_answer from_str show_text show_error print check cx gone arrivals driver r0 in
  client_bytes (rq_log r') = client_bytes (rq_log r0) ++ wire fs ∧ ad_billable (rq_deal r') = ad_billable (rq_deal r0) + billable_tokens u.
Proof.
  intros Hst Hhead Harmed Harr Hfs Hout Hpay Hmax Hcap r'. subst r'. unfold streamed_answer. fold (answer_start driver r0).
  destruct (start_ok from_str check cx driver r0 Hhead) as [Hs0 Hr0].
  assert (at_frames r0 [] [] (answer_start driver r0)) as Hat.
  { constructor; try done; [by exists []|]. by destruct Hhead as (? & _ & ->). }
  apply map_eq_app in Harr as (before & after & -> & Hbefore & Hafter).
  destruct after as [|[i1 n1] [|[i2 n2] [|]]]; try done. injection Hafter as -> ->.
  destruct (honest_loop r0 before [(Item (Ok (usage_frame u)), n1); (StreamEnd, n2)] Hst fs [] [] _ Hbefore Hfs Hat Hmax Hcap) as (l1 & -> & Hat1).
  cbn [app] in Hat1. destruct (honest_bill r0 _ fs l1 u n1 Hst Hat1 Hout Hpay) as (released & l2 & Hnext & Hs & Hr & Hbill & Husage).
  cbn [stream_loop]. rewrite Hnext.
  pose proof Hr as [Hdata _ _ _ _ Hu Hok]. rewrite Hbill in Hu. destruct Hu as [Hsaw _].
  assert (stream_next from_str check cx StreamEnd n2 l2 = inr (Ended None None, set_sl_driver (sl_driver l2) l2)) as ->.
  { unfold stream_next, driver_next. cbn [recv]. by rewrite Hsaw. }
  destruct Hs as [Hcl [Hb Hc] Hres _]. destruct Hpay as [P1 P2 P3 P4 P5 P6].
  destruct (record_payable (sl_request l2) u) as [r1 Hrec]; [constructor; rewrite ?Husage, ?Hres, ?Hb, ?Hc; done|].
  pose proof (record_billing_spec cx u (sl_request l2)) as Hspec. rewrite Hrec in Hspec. destruct Hspec as (_ & H1 & H2 & _ & _).
  destruct (finish_stream_paid show_text show_error print cx gone (set_sl_driver (sl_driver l2) l2) u r1 Hbill Hrec) as [F1 F2].
  cbn [sl_driver set_sl_driver] in F1. rewrite F1, F2, H1, H2, Hb, Hcl. split; [|done].
  rewrite <- app_assoc. f_equal. rewrite <- Hdata.
  rewrite (seller_data_bill _ (usage_frame u) u eq_refl). apply (af_data _ _ _ _ Hat1).
Qed.
End Buyer.

(** ** The bill of the seller, as the buyer reads it *)

(** The numbers of a record are of its type. *)
Definition usage_typed (u : BillingUsage) : Prop :=
  0 ≤ bu_input_tokens u ∧ 0 ≤ bu_output_tokens u ∧ 0 ≤ bu_total_tokens u ∧ 0 ≤ bu_cache_read_tokens u ∧ 0 ≤ bu_cache_write_tokens u.

Lemma released_valid u charged shared :
  BillingUsage_validate u = Ok () → bu_charged_tokens u = None → charged ≤ non_cached_tokens u →
  BillingUsage_validate (released u charged shared) = Ok () ∧ bu_output_tokens (released u charged shared) = bu_output_tokens u ∧
  billable_tokens (released u charged shared) = charged.
Proof.
  intros Hv Hnone Hc. split_and!; [|unfold released; by destruct (_ || _)|by apply released_bill]. unfold released. destruct (_ || _); [|done].
  set (u' := {| bu_input_tokens := _ |}). assert (non_cached_tokens u' = non_cached_tokens u) as Hsame by done.
  revert Hv. unfold BillingUsage_validate. rewrite Hsame, Hnone.
  change (bu_input_tokens u') with (bu_input_tokens u). change (bu_output_tokens u') with (bu_output_tokens u).
  change (bu_total_tokens u') with (bu_total_tokens u). change (bu_charged_tokens u') with (Some charged).
  change (bu_cache_read_tokens u') with (bu_cache_read_tokens u). change (bu_cache_write_tokens u') with (bu_cache_write_tokens u).
  intros H. cbv beta iota. replace (charged >? non_cached_tokens u) with false; [exact H|]. symmetry. rewrite Z.gtb_ltb. by apply Z.ltb_ge.
Qed.
(** The first bill of a request never overflows its totals. *)
Lemma first_total u : usage_typed u → BillingUsage_validate u = Ok () → 0 ≤ billable_tokens u ≤ umax u64 → is_ok (accumulated zero_usage u) = true.
Proof.
  intros (Hi & Ho & Ht & Hr & Hw). unfold BillingUsage_validate. intros (b & Hb & H)%bind_Ok Hbill. apply bind_Ok in H as (cached & Hcached & _).
  unfold BillingUsage_new in Hb. apply bind_Ok in Hb as (total & Htotal & _). destruct (checked_add u64 (bu_input_tokens u) _) as [t|] eqn:Hadd; [|done].
  apply checked_add_Some in Hadd as [-> Hmax]. destruct (checked_add u64 (bu_cache_read_tokens u) _) as [c|] eqn:Hadd; [|done].
  apply checked_add_Some in Hadd as [-> Hmax']. unfold accumulated, BillingUsage_new, checked_add.
  change (bu_input_tokens zero_usage) with 0. change (bu_output_tokens zero_usage) with 0. change (bu_cache_read_tokens zero_usage) with 0.
  change (bu_cache_write_tokens zero_usage) with 0. change (billable_tokens zero_usage) with 0. rewrite !Z.add_0_l.
  rewrite (proj2 (Z.leb_le (bu_input_tokens u) _)), (proj2 (Z.leb_le (bu_output_tokens u) _)) by lia. cbn [ok_or rbind].
  rewrite (proj2 (Z.leb_le (bu_input_tokens u + _) _)) by lia. cbn [ok_or rbind].
  rewrite (proj2 (Z.leb_le (bu_cache_read_tokens u) _)), (proj2 (Z.leb_le (bu_cache_write_tokens u) _)) by lia. cbn [ok_or rbind].
  by rewrite (proj2 (Z.leb_le (billable_tokens u) _)) by lia.
Qed.

(** ** The seller of an honest answer *)

Section Seller.
Context (from_str : string → Result string Value) (format : ApiFormat) (show_text : text → string) (tc : string) (grant : Z).

Definition data_item (f : SseFrame) : Result WireStatus StreamFrame := Ok (data_frame (fr_bytes f)).
(** The frames pass the gateway, as long as the buyer takes them. *)
Lemma relay_data_frames fs items st code :
  gr_head_status st = Some code → gr_terminal_usage st = None → (length fs ≤ fb_room (gr_box st))%nat →
  relay_loop show_text tc grant (upstream_items (map (data_event from_str format) fs) ++ items) st =
  relay_loop show_text tc grant items {| gr_saw_output := gr_saw_output st || saw from_str format fs; gr_head_status := Some code;
    gr_terminal_usage := None; gr_billing_exhausted := gr_billing_exhausted st;
    gr_box := {| fb_sent := fb_sent (gr_box st) ++ map data_item fs; fb_room := fb_room (gr_box st) - length fs |} |}.
Proof.
  revert st. induction fs as [|f fs IH]; intros st Hh Hu Hroom; cbn [map upstream_items app relay_loop saw existsb].
  { destruct st as [saw0 h u ex [sent room]]. cbn in *. subst. by rewrite orb_false_r, app_nil_r, Nat.sub_0_r. }
  cbn [relay_item data_event]. unfold relay_data. rewrite Hh, bool_decide_eq_false_2 by (rewrite Hu; intros [? ?]; discriminate).
  cbn [length] in Hroom. unfold box_send. destruct (fb_room (gr_box st)) as [|room] eqn:Hr; [lia|].
  unfold upstream_items in IH. rewrite IH by (cbn; done || lia). cbn [gr_saw_output gr_head_status gr_terminal_usage gr_billing_exhausted gr_box fb_sent fb_room].
  rewrite <- app_assoc, orb_assoc. done.
Qed.

Context {S : Type} `{Recorder S}.
(** The gateway relays a billed answer whole, and releases the bill that its recorder accepted. *)
Lemma honest_gateway head fs u room s charged s' :
  is_success (rh_status head) = true → saw from_str format fs = true → BillingUsage_validate u = Ok () → 0 < bu_output_tokens u →
  (length fs + 2 ≤ room)%nat → Z.min (non_cached_tokens u) grant ≠ 0 →
  complete_billing (Z.min (non_cached_tokens u) grant) (non_cached_tokens u >? grant) s = (Ok charged, s') →
  ∃ rd, relay_counting show_text tc grant (upstream_items (Head head :: map (data_event from_str format) fs ++ [Usage u]))
          {| fb_sent := []; fb_room := room |} s = (rd, s') ∧
    fb_sent (rd_box rd) = Ok (head_frame head) :: map data_item fs ++ [Ok (usage_frame (released u charged (shared_budget s')))].
Proof.
  intros Hok Hsaw Hv Hout Hroom Hne Hbill. unfold relay_counting.
  cbn [upstream_items map relay_loop relay_item]. unfold relay_head, gr_start. cbn [gr_head_status gr_box].
  rewrite bool_decide_eq_false_2 by (intros [? ?]; discriminate). unfold box_send at 1. cbn [fb_room fb_sent].
  destruct room as [|room]; [lia|]. rewrite map_app.
  pose proof (relay_data_frames fs (map (λ e, Upstream (Ok e)) [Usage u])) as Hdata. unfold upstream_items in Hdata.
  erewrite Hdata; [|done..|cbn; lia]. clear Hdata. cbn [map relay_loop relay_item]. unfold relay_usage.
  cbn [gr_terminal_usage gr_saw_output gr_head_status gr_billing_exhausted gr_box fb_sent fb_room succeeded].
  rewrite bool_decide_eq_false_2, Hv, Hok, Hsaw by (intros [? ?]; discriminate). cbn [negb orb].
  rewrite (proj2 (Z.eqb_neq (bu_output_tokens u) 0)) by lia. unfold close_relay. cbn [gr_head_status obind]. rewrite Hok. cbn [gr_terminal_usage].
  rewrite (proj2 (Z.eqb_neq _ 0)) by done. cbn [gr_box fb_room gr_billing_exhausted].
  destruct (room - length fs)%nat as [|left] eqn:Hleft; [lia|]. rewrite Hbill. eexists. split; [done|].
  unfold box_send. cbn [fb_room fb_sent rd_box unwrap_or]. by rewrite <- app_assoc.
Qed.
End Seller.

(** ** The exchange *)

Lemma frames_of_wire fs : Forall whole_frame fs → frames_of (wire fs) = fs ∧ (split_frames (wire fs)).2 = [].
Proof.
  induction 1 as [|f fs (t & -> & Ht & _) _ [IH1 IH2]]; [done|]. unfold wire. cbn [map List.concat]. fold (wire fs).
  rewrite frames_of_app. unfold frames_of at 1. rewrite split_frames_app. change (fr_bytes (frame_of t)) with (t ++ [LF; LF]).
  rewrite Ht. cbn [fst snd app map]. by rewrite IH1, IH2.
Qed.
(** The wire of a prefix of the frames of some bytes is a prefix of these bytes. *)
Lemma wire_prefix fs b : fs `prefix_of` frames_of b → wire fs `prefix_of` b.
Proof.
  intros [gs Hgs]. exists (wire gs ++ (split_frames b).2). rewrite app_assoc, <- wire_app, <- Hgs. unfold frames_of, wire. rewrite map_map. cbn.
  symmetry. apply split_frames_concat.
Qed.
Lemma count_wire p fs : Forall whole_frame fs → count p fs ≤ Z.of_nat (length (wire fs)).
Proof.
  induction 1 as [|f fs (t & -> & _) _ IH]; [done|]. change (frame_of t :: fs) with ([frame_of t] ++ fs).
  rewrite count_app, wire_app, length_app. unfold wire at 1. cbn [map List.concat]. rewrite app_nil_r. cbn [fr_bytes frame_of]. rewrite length_app.
  unfold count at 1. cbn [List.filter]. destruct (p _); cbn; lia.
Qed.

Section Exchange.
Context (from_str : string → Result string Value) (show_text : text → string) (show_error : StreamError → text) (print : Value → string)
  (credentials : list (string * string)) (served_model : option (string → option text)) (tc : string)
  (check : ModelCheck) (cx : AnswerContext).
Context {S : Type} `{Recorder S}.
Abbreviation format := (cx_format cx).
Abbreviation grant := (cx_grant cx).

(** What the relay of a billed answer sent. *)
Lemma billed_stream items head room u o' :
  relay_stream from_str credentials served_model format items {| ob_sent := [Head head]; ob_room := room |} = (Ok (), o') →
  Usage u ∈ ob_sent o' → Closed ∉ items → ob_room o' ≠ 0%nat →
  ∃ before f, let fs := before ++ [f] in
    ob_sent o' = Head head :: map (data_event from_str format) fs ++ [Usage u] ∧ fs `prefix_of` provider_frames items ∧
    Forall (readable from_str format) fs ∧ Forall (λ f, ends_response from_str format f = false) before ∧ ends_response from_str format f = true ∧
    ∃ meter, observe_all (omap (frame_event from_str format) fs) (UsageMeter_new format) = Ok meter ∧ UsageMeter_finish (saw from_str format fs) meter = Ok (Some u).
Proof.
  intros Hrun Hu Hc Hroom. pose proof (relay_stream_outcome from_str credentials served_model format items {| ob_sent := [Head head]; ob_room := room |}) as Ho.
  rewrite Hrun in Ho. destruct Ho as (fs & bill & Hp & Hsent & _ & _ & Hread & _ & Hok).
  destruct (Hok Hc Hroom) as (before & f & meter & -> & Hb & Hf & Hm & Hfin).
  assert (bill = Some u) as ->.
  { rewrite Hsent in Hu. apply elem_of_app in Hu as [Hu|Hu]; [apply list_elem_of_singleton in Hu; discriminate|].
    apply elem_of_app in Hu as [(g & [=] & _)%list_elem_of_fmap|Hu]. destruct bill as [w|]; [|by apply not_elem_of_nil in Hu].
    cbn in Hu. apply list_elem_of_singleton in Hu. by injection Hu as ->. }
  exists before, f. split_and!; [exact Hsent|done..|]. by exists meter.
Qed.

(** The buyer's request: admitted with a grant, its delivery record armed. *)
Definition admitted (now_secs : Z) (d : ApiDeal) : Request :=
  arm_delivery (hold {| rs_granted := grant; rs_used := 0 |} (begin_request now_secs d)).

Lemma admitted_armed now_secs d driver :
  let r := mark_response_started (admitted now_secs d) in
  armed r (answer_start driver r) ∧ client_bytes (rq_log r) = [] ∧ ad_billable (rq_deal r) = ad_billable d ∧
  ad_visible_output (rq_deal r) = ad_visible_output d ∧ ad_ceiling (rq_deal r) = ad_ceiling d ∧
  gd_reservation (rq_guard r) = Some {| rs_granted := grant; rs_used := 0 |} ∧ gd_request_usage (rq_guard r) = zero_usage.
Proof. split_and!; try done. constructor; try done. by eexists. Qed.

(** C7: an honest exchange is delivered whole and billed once, the same on both sides.  The
    provider answers a streamed request with a complete answer, the seller's relay meters it,
    the gateway's recorder accepts a charge for the metered usage within the grant, and nobody
    breaks off; every model that the provider names is one the buyer accepts, the answer
    is within the buyer's size limit, and the route has room for the grant.  Then the buyer's client receives exactly
    the provider's bytes up to the end of the frame that ends the response, in their order,
    and the buyer's deal is charged exactly what the seller's recorder charged. *)
Theorem honest_exchange items head room u o' froom s charged s' rd s'' gone now arrivals now_secs d :
  relay_stream from_str credentials served_model format items {| ob_sent := [Head head]; ob_room := room |} = (Ok (), o') →
  (∀ t v, from_str t = Ok v → typed_value v) →
  Usage u ∈ ob_sent o' → usage_typed u → Closed ∉ items → ob_room o' ≠ 0%nat → is_success (rh_status head) = true →
  complete_billing (Z.min (non_cached_tokens u) grant) (non_cached_tokens u >? grant) s = (Ok charged, s') →
  0 ≤ charged ≤ Z.min (non_cached_tokens u) grant → Z.min (non_cached_tokens u) grant ≠ 0 →
  relay_counting show_text tc grant (upstream_items (ob_sent o')) {| fb_sent := []; fb_room := froom |} s = (rd, s'') →
  (length (ob_sent o') ≤ froom)%nat →
  map fst arrivals = map Item (fb_sent (rd_box rd)) ++ [StreamEnd] →
  cx_stream cx = true → (∀ f, f ∈ provider_frames items → model_passes from_str check cx f) →
  Z.of_nat (length (sent_bytes items) + 2) ≤ UPSTREAM_RESPONSE_BODY_MAX_BYTES →
  ad_visible_output d + UPSTREAM_RESPONSE_BODY_MAX_BYTES ≤ umax u64 → ad_billable d + grant ≤ Z.min (ad_ceiling d) (umax u64) → grant ≤ umax u64 →
  let r' := (answer from_str show_text show_error print check cx gone arrivals now (admitted now_secs d)).2 in
  ∃ before f rest,
    sent_bytes items ++ [LF; LF] = client_bytes (rq_log r') ++ rest ∧ frames_of (client_bytes (rq_log r')) = before ++ [f] ∧
    Forall (λ f, ends_response from_str format f = false) before ∧ ends_response from_str format f = true ∧
    ad_billable (rq_deal r') = ad_billable d + charged ∧ s'' = s'.
Proof.
  intros Hrun Htyped Hu Hut Hc Hroom Hok Hbill Hch Hne Hrelay Hfroom Harr Hst Hmodels Hsize Hvis Hceil Hgrant r'.
  destruct (billed_stream items head room u o' Hrun Hu Hc Hroom) as (before & f & Hsent & Hpre & Hread & Hb & Hf & meter & Hm & Hfin).
  set (fs := before ++ [f]) in *.
  pose proof (bill_of_frames from_str format fs meter (Some u) Htyped Hm Hfin) as Hsound. unfold sound_bill in Hsound.
  destruct (saw from_str format fs) eqn:Hsaw; [|done]. destruct Hsound as (u' & [= <-] & [Hv Hnone] & Hout).
  assert (length (ob_sent o') = length fs + 2)%nat as Hlen by (rewrite Hsent; cbn; rewrite length_app, length_map; cbn; lia).
  destruct (honest_gateway from_str format show_text tc grant head fs u froom s charged s') as (rd' & Hrd & Hbox); try done; [lia|].
  rewrite <- Hsent, Hrelay in Hrd. injection Hrd as <- ->.
  destruct (released_valid u charged (shared_budget s') Hv Hnone) as (Hv' & Ho' & Hbt); [lia|]. set (w := released u charged (shared_budget s')) in *.
  rewrite Hbox, map_cons, map_app in Harr. destruct arrivals as [|[received now0] arrivals]; [done|]. injection Harr as -> Harr.
  rewrite map_map, <- app_assoc in Harr. subst r'. unfold answer, driver_head. cbn [recv sf_head head_frame].
  assert (is_answer_status (rh_status head) = true) as -> by (revert Hok; unfold is_success, is_answer_status; lia).
  rewrite Hst, Hok. cbn [andb snd].
  destruct (admitted_armed now_secs d (set_dr_head_status (Some (rh_status head)) FrameDriver_new)) as (Harm & Hlog & Hbd & Hvd & Hcd & Hres & Husage).
  set (r := mark_response_started (admitted now_secs d)) in *.
  assert (Forall whole_frame fs) as Hwhole by (eapply Forall_impl; [exact Hread|by intros ? []]).
  pose proof (wire_prefix fs _ Hpre) as [rest Hrest]. pose proof (f_equal (λ b : bytes, length b) Hrest) as Hlw. cbn beta in Hlw. rewrite !length_app in Hlw. cbn in Hlw.
  destruct (honest_answer from_str show_text show_error print check cx gone arrivals fs w
    (set_dr_head_status (Some (rh_status head)) FrameDriver_new) r) as [Hclient Hcharged]; try done.
  - by exists (rh_status head).
  - apply Forall_forall. intros g Hg. rewrite Forall_forall in Hread. split; [by apply Hread|]. apply Hmodels.
    destruct Hpre as [k ->]. apply elem_of_app. by left.
  - constructor; rewrite ?Hbt, ?Ho', ?Husage, ?Hres, ?Hbd, ?Hcd; [done|lia|lia| |exists {| rs_granted := grant; rs_used := 0 |}; cbn; split; [done|lia]|lia].
    apply first_total; [|done|lia]. unfold w, released. by destruct (_ || _).
  - pose proof (ending_grows from_str cx [] fs). assert (length (wire (ending_of from_str cx fs)) ≤ length (wire fs))%nat; [|lia].
    clear. induction fs as [|g fs IH]; [done|]. cbn [ending_of]. destruct (terminal_frame _ _ g); [done|].
    change (g :: fs) with ([g] ++ fs). rewrite wire_app, length_app. lia.
  - rewrite Hvd. pose proof (count_wire (frame_output from_str format) fs Hwhole). lia.
  - rewrite Hlog in Hclient. cbn [app] in Hclient. exists before, f, rest. rewrite Hclient, (proj1 (frames_of_wire fs Hwhole)), Hcharged, Hbd, Hbt.
    split_and!; done.
Qed.
End Exchange.

(** ** An exchange, from the provider's reads to the client *)

Definition head_200 : ResponseHead := {| rh_status := 200; rh_headers := [] |}.
Definition seller_relay : Metered () * Outbox :=
  relay_stream sample_from_str seller_credentials None ChatCompletions provider_reads {| ob_sent := [Head head_200]; ob_room := 9 |}.
Definition gateway_relay : Relayed * DealDelivery :=
  relay_counting (λ _, ""%string) "0:aa" 5000 (upstream_items (ob_sent seller_relay.2)) {| fb_sent := []; fb_room := 16 |} DealDelivery_default.
Definition buyer_context : AnswerContext := {|
  cx_format := ChatCompletions; cx_stream := true; cx_grant := 5000; cx_frame_model := "m-1"; cx_policy := {|
    fp_verification_bail := BailStop; fp_dead_gateway := RetryThenReclaim; fp_empty_stream := EmptyReclaim;
    fp_seller_stalls_mid_stream := AcceptDeliveredThenReclaim |}; cx_history := true; cx_writes := λ _, true |}.
Definition buyer_check : ModelCheck := ModelCheck_new (λ b, b) "m-1" None.
Definition buyer_deal : ApiDeal := ApiDeal_new "0:aa" 100000 {| cg_probe := false; cg_verdict := false |}.
Definition gateway_arrivals : list (Received * Z) := map (λ received, (received, 7)) (map Item (fb_sent (rd_box gateway_relay.1)) ++ [StreamEnd]).
Definition buyer_answer (arrivals : list (Received * Z)) : Request :=
  (answer sample_from_str (λ _, ""%string) (λ _, []) (λ _, ""%string) buyer_check buyer_context false arrivals 7 (admitted buyer_context 7 buyer_deal)).2.

Example the_client_gets_it_all :
  of_bytes (client_bytes (rq_log (buyer_answer gateway_arrivals))) = provider_stream ∧ ad_billable (rq_deal (buyer_answer gateway_arrivals)) = 12.
Proof. vm_compute. done. Qed.
(** The seller breaks off before its bill: the end of the answer, held back, never comes. *)
Example the_client_keeps_what_it_got :
  let r := buyer_answer (take 4 gateway_arrivals ++ [(StreamEnd, 8)]) in
  ad_billable (rq_deal r) = 0 ∧ of_bytes (client_bytes (rq_log r)) = quoted
    "data: {'model':'m-1','choices':[{'delta':{'content':'Hi'}}]}||data: {'usage':{'prompt_tokens':10,'completion_tokens':2,'total_tokens':12}}||data: ||data: [DONE]||".
Proof. vm_compute. done. Qed.

Definition passes_check (f : SseFrame) : bool :=
  match frame_model sample_from_str ChatCompletions f with
  | Some m => match model_verify buyer_check m with Pass => true | Bail _ => false end
  | None => true
  end.
Lemma provider_models_pass f :
  f ∈ provider_frames provider_reads → model_passes sample_from_str buyer_check buyer_context f.
Proof.
  assert (forallb passes_check (provider_frames provider_reads) = true) as Hall by (vm_compute; reflexivity).
  rewrite forallb_forall in Hall. intros Hf%list_elem_of_In m Hm. specialize (Hall f Hf). unfold passes_check in Hall.
  change (cx_format buyer_context) with ChatCompletions in Hm. rewrite Hm in Hall. by destruct (model_verify buyer_check m).
Qed.
Lemma provider_not_closed : Closed ∉ provider_reads.
Proof. unfold provider_reads. cbv zeta. intros H. repeat (apply elem_of_cons in H as [H|H]; [discriminate H|]). by apply not_elem_of_nil in H. Qed.
Lemma seller_billed : Usage chat_bill ∈ ob_sent seller_relay.2.
Proof. apply list_elem_of_lookup_2 with 4%nat. vm_compute. reflexivity. Qed.

Lemma honest_exchange_witness :
  let r' := buyer_answer gateway_arrivals in
  ∃ before f rest, sent_bytes provider_reads ++ [LF; LF] = client_bytes (rq_log r') ++ rest ∧ frames_of (client_bytes (rq_log r')) = before ++ [f] ∧
    ad_billable (rq_deal r') = 12 ∧ gateway_relay.2 = {| dl_count := 12; dl_done := false; dl_billing_exhausted := false |}.
Proof.
  destruct (honest_exchange sample_from_str (λ _, ""%string) (λ _, []) (λ _, ""%string) seller_credentials None "0:aa" buyer_check buyer_context
    provider_reads head_200 9 chat_bill seller_relay.2 16 DealDelivery_default 12 {| dl_count := 12; dl_done := false; dl_billing_exhausted := false |}
    gateway_relay.1 gateway_relay.2 false 7 gateway_arrivals 7 buyer_deal) as (before & f & rest & H1 & H2 & _ & _ & H5 & H6);
    [vm_compute; reflexivity|exact documents_typed|exact seller_billed|vm_compute; done|exact provider_not_closed|vm_compute; discriminate
    |vm_compute; reflexivity|vm_compute; reflexivity|vm_compute; split; discriminate|vm_compute; discriminate|vm_compute; reflexivity
    |vm_compute; lia|vm_compute; reflexivity|reflexivity|exact provider_models_pass|vm_compute; discriminate|vm_compute; discriminate
    |vm_compute; discriminate|vm_compute; discriminate|].
  exists before, f, rest. split_and!; assumption.
Defined.

(** The answer that breaks off, and a whole one: what [paid_answers_are_whole] says of them. *)
Definition streamed (arrivals : list (Received * Z)) : Request :=
  streamed_answer sample_from_str (λ _, ""%string) (λ _, []) (λ _, ""%string) buyer_check buyer_context false arrivals
    (set_dr_head_status (Some 200) FrameDriver_new) (admitted buyer_context 7 buyer_deal).
Lemma paid_answers_are_whole_witness :
  ∃ u read, sf_usage <$> (last read ≫= λ r, match r with Item (Ok f) => Some f | _ => None end) = Some (Some u) ∧
    client_bytes (rq_log (streamed (tail gateway_arrivals))) = seller_data read ∧ ad_billable (rq_deal (streamed (tail gateway_arrivals))) = billable_tokens u.
Proof.
  destruct (paid_answers_are_whole sample_from_str (λ _, ""%string) (λ _, []) (λ _, ""%string) buyer_check buyer_context false (tail gateway_arrivals)
    (set_dr_head_status (Some 200) FrameDriver_new) (admitted buyer_context 7 buyer_deal) eq_refl (ex_intro _ 200 (conj eq_refl eq_refl)))
    as [(u & read & rest & frame & reservation & _ & Hlast & Hu & Hc & _ & _ & _ & _ & _ & _ & _ & Hb & _)|(released & ending & _ & Hb & _)].
  - exists u, read. rewrite Hlast. cbn [mbind option_bind fmap option_fmap option_map]. rewrite Hu. split; [done|]. split; [exact Hc|exact Hb].
  - exfalso. vm_compute in Hb. discriminate Hb.
Defined.
