(* ===== verification/Session.v ===== *)
(** * The session of a buyer's deal

    crates/dexdo/src/buyer/api/mod.rs ([SessionSettle]: the explicit and the automatic STOPs, the
    recovery of a deal, the failure policies, the backup of a drop) and buyer/api/closure.rs (what
    a client of a closed session is told).

    Many tasks share a session.  Its flags are atomics; a call that writes to the chain holds
    [settle_lock] from its checks until the chain has answered.  The code between two awaits is
    one step: a call first runs up to the lock ([Called]), waits for it, runs with it up to its
    chain call ([Granted]), and ends when the chain answers ([Answered]); other calls run in
    between.  Two threads that run such pieces of code at the same moment on the same atomics are
    not modelled: the pieces are taken one after the other.  What a step reads outside the session
    (the usage store, the counter of delivered tokens, the clock) is its [View]. *)
From S2P Require Import Prelude RustText Params Address DealTypes Machine Recovery BuyerBudget BuyerAnswer.

(** ** Data *)

Definition VerificationBailAction_as_str (a : VerificationBailAction) : string :=
  match a with
  | BailStop => "stop" | BailDispute => "dispute" | BailStopAndBlacklist => "stop_and_blacklist" | BailKeepOpen => "keep_open"
  end.
Definition DeadGatewayAction_as_str (a : DeadGatewayAction) : string :=
  match a with
  | RetryThenReclaim => "retry_then_reclaim" | NextSeller => "next_seller" | DeadFailClosed => "fail_closed"
  | DeadKeepOpen => "keep_open"
  end.
Definition EmptyStreamAction_as_str (a : EmptyStreamAction) : string :=
  match a with
  | EmptyReclaim => "reclaim" | EmptyNextSeller => "next_seller" | EmptyFailClosed => "fail_closed" | EmptyKeepOpen => "keep_open"
  end.
Definition SellerStallsMidStreamAction_as_str (a : SellerStallsMidStreamAction) : string :=
  match a with
  | AcceptDeliveredThenReclaim => "accept_delivered_then_reclaim" | StallsDispute => "dispute" | StallsKeepOpen => "keep_open"
  end.

Inductive RecoveryKind : Type := CleanupUnopened | ReclaimOpened.
#[export] Instance RecoveryKind_eq_dec : EqDecision RecoveryKind.
Proof. solve_decision. Defined.
#[export] Instance ClosureCategory_eq_dec : EqDecision ClosureCategory.
Proof. solve_decision. Defined.
Inductive SessionLifetimePolicy : Type := SettleOnExit | Preserve.
Inductive SessionTerminalAction : Type := StreamStop | StreamDispute | StreamCleanup | ObservedTerminal | UnknownCloserAction.
#[export] Instance SessionTerminalAction_eq_dec : EqDecision SessionTerminalAction.
Proof. solve_decision. Defined.
Definition event_action (a : SessionTerminalAction) : string :=
  match a with
  | StreamStop => "streamStop" | StreamDispute => "streamDispute" | StreamCleanup => "streamCleanup"
  | ObservedTerminal => "observedTerminal" | UnknownCloserAction => "terminalCloserUnknown"
  end.
Definition event_state (a : SessionTerminalAction) : string :=
  match a with
  | StreamStop | StreamCleanup => "stopped" | StreamDispute => "disputed" | ObservedTerminal | UnknownCloserAction => "terminal"
  end.
Definition chain_write_submitted (a : SessionTerminalAction) : bool := negb (bool_decide (a = ObservedTerminal)).
Definition from_stop_settlement (settlement : Settlement) : SessionTerminalAction :=
  match settlement with
  | BuyerStopTerminal receipt =>
      match bt_fact receipt with
      | SubmittedStop => StreamStop | AlreadyClosed => ObservedTerminal | UnknownCloser => UnknownCloserAction
      end
  | _ => StreamStop
  end.

(** The reason recorded with an authoritative STOP of this buyer. *)
Record ConfirmedClientStop : Type := {
  st_reason : string; st_path : string; st_failure_class : option string; st_policy_action : option string;
  st_message_id : string; st_created_at : Z;
}.
Definition confirmed_client_stop (settlement : Settlement) (path reason : string) (failure_class policy_action : option string)
    : option ConfirmedClientStop :=
  let* fact := match settlement with
    | AuthoritativeReceipt receipt =>
        match rc_action receipt with BuyerStop => Some (rc_message_id receipt, rc_created_at receipt) | _ => None end
    | BuyerStopTerminal receipt =>
        match bt_fact receipt with SubmittedStop => Some (bt_message_id receipt, bt_created_at receipt) | _ => None end
    | _ => None
    end in
  Some {| st_reason := reason; st_path := path; st_failure_class := failure_class; st_policy_action := policy_action;
          st_message_id := fact.1; st_created_at := fact.2 |}.

Definition failure_class (class : string) : ClosureCategory :=
  if String.eqb class "dead_gateway" then DeadGateway
  else if String.eqb class "empty_stream" then EmptyStream
  else if String.eqb class "seller_stalls_mid_stream" then SellerStallsMidStream
  else RecoveryClosure.

Record ServingClosure : Type := { cl_closure_id : string; cl_category : ClosureCategory; cl_policy_action : option string }.
Inductive RecoveryState : Type :=
  NotAttempted | RecoveryPending | AttemptedUnconfirmed | SubmissionAmbiguous | TerminalConfirmed | RecoveryDisputed.
Inductive KnownChainState : Type := KnownTerminal | KnownDisputed.
#[export] Instance KnownChainState_eq_dec : EqDecision KnownChainState.
Proof. solve_decision. Defined.

(** The writes a session asks of the chain, and what the chain answers. *)
Inductive ChainWrite : Type := WriteStop | WriteStopIfHeartbeat (heartbeat : HeartbeatGuard) | WriteCleanup | WriteDispute.
Inductive ChainAnswer : Type := Landed (settlement : Settlement) | Vetoed | Failure (error : ChainError).
(** [Ok(None)] exists only for the guarded STOP. *)
Definition may_answer (w : ChainWrite) (a : ChainAnswer) : bool :=
  match w, a with WriteStopIfHeartbeat _, _ => true | _, Vetoed => false | _, _ => true end.

(** What a call returns. *)
Record ClosedRejection : Type := {
  rj_request_id : string; rj_closure : ServingClosure; rj_state : RecoveryState; rj_action : string; rj_message : string;
  rj_terminal_action : option SessionTerminalAction;
}.
Inductive Rejection : Type := RejectUnresolved (e : ConsumerError) | RejectClosed (r : ClosedRejection).
Inductive SessionReturn : Type :=
| RSettle (r : Result ChainError bool)
| RRecover (r : Result ChainError (option Settlement))
| RPolicy (b : bool)
| RServing (r : Result ConsumerError DealChainState)
| RSwap (r : Result ChainError ())
| RPhase (r : Result ConsumerError ())
| RRejection (r : option Rejection)
| RReconciliation (kind : option RecoveryKind)
| RUnit.

(** What leaves the session, in order. *)
Inductive SessionEffect : Type :=
| Posted (w : ChainWrite)
| QuotaClosed
| StopRecorded (stop : ConfirmedClientStop)
| Returned (r : SessionReturn).

Record Session : Type := {
  ss_settled : bool; ss_closure : option ServingClosure; ss_verification_bailed : bool; ss_recovery_state : RecoveryState;
  ss_known_chain_state : option KnownChainState; ss_closed_tx : bool; ss_episode : option RecoveryKind; ss_recovery_closed : bool;
  ss_reconciliation : bool; ss_may_have_landed : bool; ss_drop_backup : bool; ss_terminal_action : option SessionTerminalAction;
  ss_unresolved : bool; ss_log : list SessionEffect;
}.

(** Assignments to the fields. *)
Definition set_ss_settled (v : bool) (d : Session) : Session := {|
  ss_settled := v; ss_closure := ss_closure d; ss_verification_bailed := ss_verification_bailed d;
  ss_recovery_state := ss_recovery_state d; ss_known_chain_state := ss_known_chain_state d;
  ss_closed_tx := ss_closed_tx d; ss_episode := ss_episode d; ss_recovery_closed := ss_recovery_closed d;
  ss_reconciliation := ss_reconciliation d; ss_may_have_landed := ss_may_have_landed d;
  ss_drop_backup := ss_drop_backup d; ss_terminal_action := ss_terminal_action d; ss_unresolved := ss_unresolved d;
  ss_log := ss_log d |}.
Definition set_ss_closure (v : option ServingClosure) (d : Session) : Session := {|
  ss_settled := ss_settled d; ss_closure := v; ss_verification_bailed := ss_verification_bailed d;
  ss_recovery_state := ss_recovery_state d; ss_known_chain_state := ss_known_chain_state d;
  ss_closed_tx := ss_closed_tx d; ss_episode := ss_episode d; ss_recovery_closed := ss_recovery_closed d;
  ss_reconciliation := ss_reconciliation d; ss_may_have_landed := ss_may_have_landed d;
  ss_drop_backup := ss_drop_backup d; ss_terminal_action := ss_terminal_action d; ss_unresolved := ss_unresolved d;
  ss_log := ss_log d |}.
Definition set_ss_verification_bailed (v : bool) (d : Session) : Session := {|
  ss_settled := ss_settled d; ss_closure := ss_closure d; ss_verification_bailed := v;
  ss_recovery_state := ss_recovery_state d; ss_known_chain_state := ss_known_chain_state d;
  ss_closed_tx := ss_closed_tx d; ss_episode := ss_episode d; ss_recovery_closed := ss_recovery_closed d;
  ss_reconciliation := ss_reconciliation d; ss_may_have_landed := ss_may_have_landed d;
  ss_drop_backup := ss_drop_backup d; ss_terminal_action := ss_terminal_action d; ss_unresolved := ss_unresolved d;
  ss_log := ss_log d |}.
Definition set_ss_recovery_state (v : RecoveryState) (d : Session) : Session := {|
  ss_settled := ss_settled d; ss_closure := ss_closure d; ss_verification_bailed := ss_verification_bailed d;
  ss_recovery_state := v; ss_known_chain_state := ss_known_chain_state d; ss_closed_tx := ss_closed_tx d;
  ss_episode := ss_episode d; ss_recovery_closed := ss_recovery_closed d; ss_reconciliation := ss_reconciliation d;
  ss_may_have_landed := ss_may_have_landed d; ss_drop_backup := ss_drop_backup d;
  ss_terminal_action := ss_terminal_action d; ss_unresolved := ss_unresolved d; ss_log := ss_log d |}.
Definition set_ss_known_chain_state (v : option KnownChainState) (d : Session) : Session := {|
  ss_settled := ss_settled d; ss_closure := ss_closure d; ss_verification_bailed := ss_verification_bailed d;
  ss_recovery_state := ss_recovery_state d; ss_known_chain_state := v; ss_closed_tx := ss_closed_tx d;
  ss_episode := ss_episode d; ss_recovery_closed := ss_recovery_closed d; ss_reconciliation := ss_reconciliation d;
  ss_may_have_landed := ss_may_have_landed d; ss_drop_backup := ss_drop_backup d;
  ss_terminal_action := ss_terminal_action d; ss_unresolved := ss_unresolved d; ss_log := ss_log d |}.
Definition set_ss_closed_tx (v : bool) (d : Session) : Session := {|
  ss_settled := ss_settled d; ss_closure := ss_closure d; ss_verification_bailed := ss_verification_bailed d;
  ss_recovery_state := ss_recovery_state d; ss_known_chain_state := ss_known_chain_state d; ss_closed_tx := v;
  ss_episode := ss_episode d; ss_recovery_closed := ss_recovery_closed d; ss_reconciliation := ss_reconciliation d;
  ss_may_have_landed := ss_may_have_landed d; ss_drop_backup := ss_drop_backup d;
  ss_terminal_action := ss_terminal_action d; ss_unresolved := ss_unresolved d; ss_log := ss_log d |}.
Definition set_ss_episode (v : option RecoveryKind) (d : Session) : Session := {|
  ss_settled := ss_settled d; ss_closure := ss_closure d; ss_verification_bailed := ss_verification_bailed d;
  ss_recovery_state := ss_recovery_state d; ss_known_chain_state := ss_known_chain_state d;
  ss_closed_tx := ss_closed_tx d; ss_episode := v; ss_recovery_closed := ss_recovery_closed d;
  ss_reconciliation := ss_reconciliation d; ss_may_have_landed := ss_may_have_landed d;
  ss_drop_backup := ss_drop_backup d; ss_terminal_action := ss_terminal_action d; ss_unresolved := ss_unresolved d;
  ss_log := ss_log d |}.
Definition set_ss_recovery_closed (v : bool) (d : Session) : Session := {|
  ss_settled := ss_settled d; ss_closure := ss_closure d; ss_verification_bailed := ss_verification_bailed d;
  ss_recovery_state := ss_recovery_state d; ss_known_chain_state := ss_known_chain_state d;
  ss_closed_tx := ss_closed_tx d; ss_episode := ss_episode d; ss_recovery_closed := v;
  ss_reconciliation := ss_reconciliation d; ss_may_have_landed := ss_may_have_landed d;
  ss_drop_backup := ss_drop_backup d; ss_terminal_action := ss_terminal_action d; ss_unresolved := ss_unresolved d;
  ss_log := ss_log d |}.
Definition set_ss_reconciliation (v : bool) (d : Session) : Session := {|
  ss_settled := ss_settled d; ss_closure := ss_closure d; ss_verification_bailed := ss_verification_bailed d;
  ss_recovery_state := ss_recovery_state d; ss_known_chain_state := ss_known_chain_state d;
  ss_closed_tx := ss_closed_tx d; ss_episode := ss_episode d; ss_recovery_closed := ss_recovery_closed d;
  ss_reconciliation := v; ss_may_have_landed := ss_may_have_landed d; ss_drop_backup := ss_drop_backup d;
  ss_terminal_action := ss_terminal_action d; ss_unresolved := ss_unresolved d; ss_log := ss_log d |}.
Definition set_ss_may_have_landed (v : bool) (d : Session) : Session := {|
  ss_settled := ss_settled d; ss_closure := ss_closure d; ss_verification_bailed := ss_verification_bailed d;
  ss_recovery_state := ss_recovery_state d; ss_known_chain_state := ss_known_chain_state d;
  ss_closed_tx := ss_closed_tx d; ss_episode := ss_episode d; ss_recovery_closed := ss_recovery_closed d;
  ss_reconciliation := ss_reconciliation d; ss_may_have_landed := v; ss_drop_backup := ss_drop_backup d;
  ss_terminal_action := ss_terminal_action d; ss_unresolved := ss_unresolved d; ss_log := ss_log d |}.
Definition set_ss_drop_backup (v : bool) (d : Session) : Session := {|
  ss_settled := ss_settled d; ss_closure := ss_closure d; ss_verification_bailed := ss_verification_bailed d;
  ss_recovery_state := ss_recovery_state d; ss_known_chain_state := ss_known_chain_state d;
  ss_closed_tx := ss_closed_tx d; ss_episode := ss_episode d; ss_recovery_closed := ss_recovery_closed d;
  ss_reconciliation := ss_reconciliation d; ss_may_have_landed := ss_may_have_landed d; ss_drop_backup := v;
  ss_terminal_action := ss_terminal_action d; ss_unresolved := ss_unresolved d; ss_log := ss_log d |}.
Definition set_ss_terminal_action (v : option SessionTerminalAction) (d : Session) : Session := {|
  ss_settled := ss_settled d; ss_closure := ss_closure d; ss_verification_bailed := ss_verification_bailed d;
  ss_recovery_state := ss_recovery_state d; ss_known_chain_state := ss_known_chain_state d;
  ss_closed_tx := ss_closed_tx d; ss_episode := ss_episode d; ss_recovery_closed := ss_recovery_closed d;
  ss_reconciliation := ss_reconciliation d; ss_may_have_landed := ss_may_have_landed d;
  ss_drop_backup := ss_drop_backup d; ss_terminal_action := v; ss_unresolved := ss_unresolved d; ss_log := ss_log d |}.
Definition set_ss_unresolved (v : bool) (d : Session) : Session := {|
  ss_settled := ss_settled d; ss_closure := ss_closure d; ss_verification_bailed := ss_verification_bailed d;
  ss_recovery_state := ss_recovery_state d; ss_known_chain_state := ss_known_chain_state d;
  ss_closed_tx := ss_closed_tx d; ss_episode := ss_episode d; ss_recovery_closed := ss_recovery_closed d;
  ss_reconciliation := ss_reconciliation d; ss_may_have_landed := ss_may_have_landed d;
  ss_drop_backup := ss_drop_backup d; ss_terminal_action := ss_terminal_action d; ss_unresolved := v;
  ss_log := ss_log d |}.
Definition set_ss_log (v : list SessionEffect) (d : Session) : Session := {|
  ss_settled := ss_settled d; ss_closure := ss_closure d; ss_verification_bailed := ss_verification_bailed d;
  ss_recovery_state := ss_recovery_state d; ss_known_chain_state := ss_known_chain_state d;
  ss_closed_tx := ss_closed_tx d; ss_episode := ss_episode d; ss_recovery_closed := ss_recovery_closed d;
  ss_reconciliation := ss_reconciliation d; ss_may_have_landed := ss_may_have_landed d;
  ss_drop_backup := ss_drop_backup d; ss_terminal_action := ss_terminal_action d; ss_unresolved := ss_unresolved d;
  ss_log := v |}.

(** What belongs to a session and does not change once it serves: its bindings are set once. *)
Record SessionConfig : Type := {
  sc_token_contract : string; sc_policy : BuyerApiFailurePolicy; sc_lifetime : SessionLifetimePolicy;
  sc_usage_quota : bool;   (** is a usage store bound *)
  sc_recorder : bool;      (** is a recorder of client STOPs bound *)
}.
Record View : Type := {
  vw_store : bool;             (** the store has unresolved output of this deal, or cannot say *)
  vw_delivered : option Z;     (** the counter of delivered tokens, if a route is bound *)
  vw_now : Z; vw_closure_id : string;
}.
Definition new_session : Session := {|
  ss_settled := false; ss_closure := None; ss_verification_bailed := false; ss_recovery_state := NotAttempted;
  ss_known_chain_state := None; ss_closed_tx := false; ss_episode := None; ss_recovery_closed := false;
  ss_reconciliation := false; ss_may_have_landed := false; ss_drop_backup := true; ss_terminal_action := None;
  ss_unresolved := false; ss_log := [] |}.

(** Who made a call that waits for the lock, and gets its result. *)
Inductive Origin : Type :=
| Direct
| SellerTimeout (failure_class action reason : string)   (** [policy_seller_timeout] *)
| ServingCheck (e : ConsumerError)                       (** [check_open_for_serving] *)
| RouteSwap.                                             (** [RouteManager::replace_active] *)

(** A call that waits for [settle_lock]. *)
Inductive Task : Type :=
| TSettle (reason : string) (heartbeat : option HeartbeatGuard) (o : Origin)
| TCleanup (handler_origin : bool) (category : ClosureCategory) (o : Origin)
| TReclaim (heartbeat : HeartbeatGuard) (handler_origin : bool) (category : ClosureCategory) (policy_action : option string) (o : Origin)
| TDispute (class action : string)
| TBail (reason : string)
| TPolicyFailClosed (class action : string)
| TPolicyUnsupported (class action : string)
| TFailServing (category : ClosureCategory) (e : ConsumerError)
| TMarkRecovered.

(** A call that holds the lock and waits for the chain.  [HoldDropBackup] is the task a drop
    spawns: nobody else has the session then. *)
Inductive Holder : Type :=
| HoldSettle (reason : string) (heartbeat : option HeartbeatGuard) (o : Origin)
| HoldCleanup (handler_origin : bool) (category : ClosureCategory) (o : Origin)
| HoldReclaim (heartbeat : HeartbeatGuard) (handler_origin : bool) (previous_state : RecoveryState) (o : Origin)
| HoldDispute
| HoldBailStop (reason : string) (heartbeat : HeartbeatGuard)
| HoldBailDispute
| HoldDropBackup.
Definition posted (h : Holder) : ChainWrite :=
  match h with
  | HoldSettle _ None _ | HoldDropBackup => WriteStop
  | HoldSettle _ (Some hb) _ | HoldReclaim hb _ _ _ | HoldBailStop _ hb => WriteStopIfHeartbeat hb
  | HoldCleanup _ _ _ => WriteCleanup
  | HoldDispute | HoldBailDispute => WriteDispute
  end.

Definition emit_s (e : SessionEffect) (s : Session) : Session := set_ss_log (ss_log s ++ [e]) s.
Definition return_ (r : SessionReturn) (s : Session) : Session := emit_s (Returned r) s.

(** ** The operations *)

Section Session.
Context (cfg : SessionConfig).

Definition is_closed (s : Session) : bool := match ss_closure s with Some _ => true | None => false end.
Definition disable_drop_backup (s : Session) : Session := set_ss_drop_backup false s.
Definition close_usage_quota (s : Session) : Session := if sc_usage_quota cfg then emit_s QuotaClosed s else s.
Definition record_chain_state (state : KnownChainState) (s : Session) : Session :=
  if bool_decide (ss_known_chain_state s = Some KnownTerminal) then s else set_ss_known_chain_state (Some state) s.

(** Says whether this call closed. *)
Definition close_local_api (v : View) (category : ClosureCategory) (policy_action : option string) (s : Session) : bool * Session :=
  let s := if bool_decide (category = TerminalObserved) then close_usage_quota s else s in
  let s := set_ss_verification_bailed (ss_verification_bailed s || bool_decide (category = VerificationBail)) s in
  match ss_closure s with
  | Some _ => (false, s)
  | None =>
      let closure := {| cl_closure_id := vw_closure_id v; cl_category := category; cl_policy_action := policy_action |} in
      (true, set_ss_closed_tx true (set_ss_closure (Some closure) s))
  end.
(** Its call for the effect alone. *)
Definition close_api (v : View) (category : ClosureCategory) (policy_action : option string) (s : Session) : Session :=
  (close_local_api v category policy_action s).2.

Definition recovery_pending (s : Session) : Session := set_ss_recovery_state RecoveryPending s.
Definition recovery_failed (e : ChainError) (s : Session) : Session :=
  set_ss_recovery_state (match e with AmbiguousSubmit _ => SubmissionAmbiguous | _ => AttemptedUnconfirmed end) s.

Definition record_confirmed_client_stop (settlement : Settlement) (path reason : string) (failure_class policy_action : option string)
    (s : Session) : Session :=
  match confirmed_client_stop settlement path reason failure_class policy_action with
  | Some stop => if sc_recorder cfg then emit_s (StopRecorded stop) s else s
  | None => s
  end.
Definition record_terminal_action (action : SessionTerminalAction) (s : Session) : Session :=
  let s := close_usage_quota s in
  let s := match action, ss_terminal_action s with
           | ObservedTerminal, Some _ => s
           | _, _ => set_ss_terminal_action (Some action) s
           end in
  record_chain_state (if bool_decide (action = StreamDispute) then KnownDisputed else KnownTerminal) s.

Definition unresolved_error : ConsumerError := refusal UpstreamUsageUnresolved
  f["provider output has no reconciled terminal usage; preserve this deal and reconcile the failed request before resuming"].
(** [unresolved_usage_rejection().is_some()]. *)
Definition unresolved_usage (v : View) (s : Session) : bool * Session :=
  if ss_unresolved s || (sc_usage_quota cfg && vw_store v)
  then (true, disable_drop_backup (set_ss_unresolved true s)) else (false, s).
(** The part of [pause_unresolved_usage] on the session. *)
Definition pause_unresolved (s : Session) : Session := disable_drop_backup (set_ss_unresolved true s).

Definition implicit_terminal_lacks_delivery (v : View) : bool := bool_decide (vw_delivered v = Some 0).
Definition veto_implicit_terminal_without_delivery (v : View) (s : Session) : bool * Session :=
  if implicit_terminal_lacks_delivery v then (true, disable_drop_backup (close_api v NoDelivery None s)) else (false, s).
Definition preserve_without_implicit_chain_write (v : View) (category : ClosureCategory) (policy_action : option string) (s : Session)
    : bool * Session :=
  let '(pending, s) := unresolved_usage v s in
  if pending then (true, s) else
  match sc_lifetime cfg with
  | Preserve => (true, disable_drop_backup (close_api v category policy_action s))
  | SettleOnExit => (false, s)
  end.
Definition ensure_paid_phase (v : View) (s : Session) : Result ConsumerError () * Session :=
  let '(pending, s) := unresolved_usage v s in
  if pending then (Err unresolved_error, s)
  else if is_closed s then (Err (refusal DealUnavailable f["deal serving closed before this paid phase started"]), s)
  else (Ok (), s).
Definition usage_stop_guard : HeartbeatGuard := with_stop_veto (HeartbeatGuard_new 0).

(** *** The latches of a recovery *)

Definition may_have_landed_for (kind : RecoveryKind) (s : Session) : bool :=
  bool_decide (ss_episode s = Some kind) && ss_may_have_landed s.
Definition take_handler_recovery_reconciliation (s : Session) : option RecoveryKind * Session :=
  (if ss_reconciliation s then ss_episode s else None, set_ss_reconciliation false s).
(** Says whether it latched. *)
Definition latch_possibly_landed_stop (e : ChainError) (s : Session) : bool * Session :=
  match e with
  | AmbiguousSubmit _ =>
      (true, disable_drop_backup (set_ss_reconciliation true (set_ss_may_have_landed true (set_ss_episode (Some ReclaimOpened) s))))
  | _ => (false, s)
  end.
Definition start_episode (kind : RecoveryKind) (s : Session) : bool * Session :=
  match ss_episode s with None => (true, set_ss_episode (Some kind) s) | Some _ => (false, s) end.
Definition close_recovery_episode (v : View) (kind : RecoveryKind) (s : Session) : bool * Session :=
  if ss_settled s then (false, s) else
  let '(started, s) := start_episode kind s in
  let '(closed, s) := close_local_api v RecoveryClosure None s in
  (started, if closed && bool_decide (ss_episode s = Some kind) then set_ss_recovery_closed true s else s).
Definition begin_recovery_attempt (v : View) (kind : RecoveryKind) (handler_origin : bool) (category : ClosureCategory)
    (policy_action : option string) (s : Session) : bool * Session :=
  let '(started, s) := start_episode kind s in
  if negb (bool_decide (ss_episode s = Some kind)) then (false, s)
  else if may_have_landed_for kind s then (false, s)
  else if negb handler_origin && negb started && ss_reconciliation s then (false, s)
  else if handler_origin then
    let '(closed, s) := close_local_api v category policy_action s in
    (started, if closed then set_ss_recovery_closed true s else s)
  else (true, s).
Definition cancel_recovery_without_post (kind : RecoveryKind) (previous_state : RecoveryState) (s : Session) : Session :=
  if negb (bool_decide (ss_episode s = Some kind)) then s else
  let s := set_ss_may_have_landed false (set_ss_reconciliation false (set_ss_episode None s)) in
  let s := set_ss_recovery_state previous_state s in
  let reopen := ss_recovery_closed s in
  let s := set_ss_recovery_closed false s in
  if reopen && negb (ss_settled s) && negb (ss_verification_bailed s) && is_closed s
  then set_ss_closed_tx false (set_ss_closure None s) else s.
(** The three stores after a terminal outcome. *)
Definition clear_recovery (s : Session) : Session :=
  set_ss_may_have_landed false (set_ss_reconciliation false (set_ss_recovery_closed false s)).
Definition mark_settled (action : SessionTerminalAction) (s : Session) : Session := set_ss_settled true (record_terminal_action action s).
Definition mark_recovered (v : View) (s : Session) : bool * Session :=
  if ss_settled s then (false, s)
  else (true, close_api v TerminalObserved None (clear_recovery (record_terminal_action ObservedTerminal (set_ss_settled true s)))).

(** *** Before the lock

    A call either returns at once or becomes a [Task]. *)

Definition start (s : Session) (t : Task) : Session * option Task := (s, Some t).
Definition finish (r : SessionReturn) (s : Session) : Session * option Task := (return_ r s, None).

(** How the result of a recovery reaches its caller. *)
Definition return_recover (o : Origin) (r : Result ChainError (option Settlement)) (s : Session) : Session :=
  match o, r with
  | SellerTimeout class action reason, Ok (Some settlement) =>
      return_ (RPolicy true) (record_confirmed_client_stop settlement "seller_timeout_policy" reason (Some class) (Some action) s)
  | SellerTimeout _ _ _, _ => return_ (RPolicy false) s
  | ServingCheck e, _ => return_ (RServing (Err e)) s
  | _, _ => return_ (RRecover r) s
  end.
Definition return_settle (o : Origin) (r : Result ChainError bool) (s : Session) : Session :=
  match o with
  | RouteSwap =>
      return_ (RSwap (let? settled := r in
        if negb settled && negb (ss_settled s) then Err (Chain f["automatic route settlement vetoed; keep the current route"])
        else Ok ())) s
  | _ => return_ (RSettle r) s
  end.

Definition settle_on_exit (v : View) (reason : string) (s : Session) : Session * option Task :=
  let '(pending, s) := unresolved_usage v s in
  if pending then finish (RSettle (Ok false)) s else
  match sc_lifetime cfg with
  | SettleOnExit =>
      let '(vetoed, s) := veto_implicit_terminal_without_delivery v s in
      if vetoed then finish (RSettle (Ok false)) s else start s (TSettle reason (Some usage_stop_guard) Direct)
  | Preserve =>
      let '(_, s) := preserve_without_implicit_chain_write v PlannedShutdown None s in finish (RSettle (Ok false)) s
  end.
(** The part of [replace_active] that settles the previous session. *)
Definition replace_active (v : View) (reason : string) (heartbeat : HeartbeatGuard) (s : Session) : Session * option Task :=
  let '(pending, s) := unresolved_usage v s in
  if pending then finish (RSwap (Err (Chain (ce_message unresolved_error)))) s
  else if implicit_terminal_lacks_delivery v then
    finish (RSwap (Ok ())) (disable_drop_backup (close_api v NoDelivery None s))
  else start s (TSettle reason (Some heartbeat) RouteSwap).
Definition recover_cleanup_unopened (v : View) (handler_origin : bool) (category : ClosureCategory) (o : Origin) (s : Session)
    : Session * option Task :=
  let '(preserved, s) := preserve_without_implicit_chain_write v category None s in
  if preserved then (return_recover o (Ok None) s, None) else start s (TCleanup handler_origin category o).
Definition recover_reclaim_opened (v : View) (heartbeat : HeartbeatGuard) (handler_origin : bool) (category : ClosureCategory)
    (policy_action : option string) (o : Origin) (s : Session) : Session * option Task :=
  let '(preserved, s) := preserve_without_implicit_chain_write v category policy_action s in
  if preserved then (return_recover o (Ok None) s, None)
  else start s (TReclaim heartbeat handler_origin category policy_action o).

Definition policy_keep_open (s : Session) : Session * option Task := finish (RPolicy false) s.
Definition policy_seller_timeout (v : View) (class action reason : string) (heartbeat : HeartbeatGuard) (s : Session)
    : Session * option Task :=
  recover_reclaim_opened v heartbeat true (failure_class class) (Some action) (SellerTimeout class action reason) s.
Definition policy_dispute (v : View) (class action : string) (s : Session) : Session * option Task :=
  let '(preserved, s) := preserve_without_implicit_chain_write v (failure_class class) (Some action) s in
  if preserved then finish (RPolicy false) s else start s (TDispute class action).
Definition settle_verification_bail (v : View) (reason : string) (s : Session) : Session * option Task :=
  let action := VerificationBailAction_as_str (fp_verification_bail (sc_policy cfg)) in
  if keeps_open (sc_policy cfg) VerificationBail then policy_keep_open s else
  let '(preserved, s) := preserve_without_implicit_chain_write v VerificationBail (Some action) s in
  if preserved then finish (RPolicy false) s else start (close_api v VerificationBail (Some action) s) (TBail reason).
Definition settle_dead_gateway (v : View) (reason : string) (heartbeat : HeartbeatGuard) (s : Session) : Session * option Task :=
  let policy := fp_dead_gateway (sc_policy cfg) in let action := DeadGatewayAction_as_str policy in
  match policy with
  | RetryThenReclaim => policy_seller_timeout v "dead_gateway" action reason heartbeat s
  | NextSeller => start s (TPolicyUnsupported "dead_gateway" action)
  | DeadFailClosed => start s (TPolicyFailClosed "dead_gateway" action)
  | DeadKeepOpen => policy_keep_open s
  end.
Definition settle_empty_stream (v : View) (reason : string) (heartbeat : HeartbeatGuard) (s : Session) : Session * option Task :=
  let policy := fp_empty_stream (sc_policy cfg) in let action := EmptyStreamAction_as_str policy in
  match policy with
  | EmptyReclaim => policy_seller_timeout v "empty_stream" action reason heartbeat s
  | EmptyNextSeller => start s (TPolicyUnsupported "empty_stream" action)
  | EmptyFailClosed => start s (TPolicyFailClosed "empty_stream" action)
  | EmptyKeepOpen => policy_keep_open s
  end.
Definition settle_seller_stalls_mid_stream (v : View) (reason : string) (heartbeat : HeartbeatGuard) (s : Session)
    : Session * option Task :=
  let policy := fp_seller_stalls_mid_stream (sc_policy cfg) in let action := SellerStallsMidStreamAction_as_str policy in
  match policy with
  | AcceptDeliveredThenReclaim => policy_seller_timeout v "seller_stalls_mid_stream" action reason heartbeat s
  | StallsDispute => policy_dispute v "seller_stalls_mid_stream" action s
  | StallsKeepOpen => policy_keep_open s
  end.

(** *** The check of a chain read *)

Inductive UnopenedCleanupDecision : Type := CleanupReady | CleanupWait (wait_secs : Z) | MissingFundedTime.
Definition unopened_cleanup_decision (state : DealChainState) (now_secs : Z) : option UnopenedCleanupDecision :=
  if negb (cs_funded state && negb (cs_opened state) && negb (cs_disputed state) && negb (is_stopped state)) then None else
  match cs_funded_time state with
  | None => Some MissingFundedTime
  | Some funded_time =>
      let cleanup_at := saturating_add u64 funded_time MATCH_OPEN_TIMEOUT_SECS in
      Some (if now_secs >=? cleanup_at then CleanupReady else CleanupWait (saturating_sub cleanup_at now_secs))
  end.
Definition not_safely_open_reason (state : DealChainState) (cleanup : option UnopenedCleanupDecision) : text :=
  f["deal is not safely opened/accountable before serving user response: funded="; Flag (cs_funded state); " opened=";
    Flag (cs_opened state); " disputed="; Flag (cs_disputed state); " deposit="; cs_deposit state; " tokens_final="; cs_tokens_final state]
  ++ match cleanup with
     | Some CleanupReady => f[" cleanup_ready=true"]
     | Some (CleanupWait wait_secs) => f[" cleanup_ready=false cleanup_wait_secs="; wait_secs]
     | Some MissingFundedTime => f[" cleanup_ready=false funded_time=<missing>"]
     | None => []
     end.
Definition fail_closed_unopened_before_serving (v : View) (cleanup : option UnopenedCleanupDecision) (category : ClosureCategory)
    (e : ConsumerError) (s : Session) : Session * option Task :=
  match cleanup with
  | Some CleanupReady => recover_cleanup_unopened v true category (ServingCheck e) s
  | _ => start s (TFailServing category e)
  end.
(** The message of another error than a transport failure is its [Display]. *)
Context (show_error : ChainError → text).
Definition check_open_for_serving (v : View) (read : Result ChainError (option DealChainState)) (s : Session) : Session * option Task :=
  match read with
  | Ok (Some state) =>
      if cs_funded state && cs_opened state && negb (cs_disputed state) then
        let '(pending, s) := unresolved_usage v s in
        finish (RServing (if pending then Err unresolved_error else Ok state)) s
      else
      let cleanup := unopened_cleanup_decision state (vw_now v) in
      let '(category, s) :=
        if is_stopped state then (TerminalObserved, record_chain_state KnownTerminal s)
        else (DealNotOpen, if cs_disputed state then record_chain_state KnownDisputed s else s) in
      let code := if cs_funded state && negb (cs_opened state) && negb (cs_disputed state) && negb (is_stopped state)
                  then DealNotOpened else DealUnavailable in
      fail_closed_unopened_before_serving v cleanup category (refusal code (not_safely_open_reason state cleanup)) s
  | Ok None =>
      let s := if sc_usage_quota cfg then close_usage_quota (record_chain_state KnownTerminal s) else s in
      start s (TFailServing ChainStateUnavailable
        (refusal DealUnavailable f["deal state unavailable before serving user response"]))
  | Err (Transport error) =>
      finish (RServing (Err (refusal DealStateUnavailable
        (f["deal state temporarily unreadable before serving user response: "] ++ error)))) s
  | Err e =>
      start s (TFailServing ChainStateUnavailable
        (refusal DealUnavailable (f["deal state unreadable before serving user response: "] ++ show_error e)))
  end.

(** *** What a client of a closed session is told *)

Definition known_state (s : Session) : RecoveryState :=
  match ss_known_chain_state s with
  | Some KnownTerminal => TerminalConfirmed
  | Some KnownDisputed => RecoveryDisputed
  | None =>
      if ss_settled s then
        if bool_decide (ss_terminal_action s = Some StreamDispute) then RecoveryDisputed else TerminalConfirmed
      else if ss_may_have_landed s then SubmissionAmbiguous else ss_recovery_state s
  end.
Definition advised_action (state : RecoveryState) (category : ClosureCategory) : string * string :=
  match state with
  | RecoveryPending => ("wait_for_reconciliation", "Deal serving is closed; recovery is pending.")
  | SubmissionAmbiguous | AttemptedUnconfirmed =>
      ("read_only_reconciliation", "Deal serving is closed; inspect chain facts before any recovery operation.")
  | TerminalConfirmed => ("new_purchase", "This deal is terminal; request a new purchase explicitly.")
  | NotAttempted =>
      if bool_decide (category = PlannedShutdown)
      then ("resume_same_deal", "Deal serving stopped for shutdown; resume the preserved deal after checking its chain state.")
      else ("operator_action", "Deal serving is closed; operator action is required before continuing.")
  | RecoveryDisputed => ("operator_action", "Deal serving is closed; operator action is required before continuing.")
  end%string.
Definition closed_rejection (v : View) (request_id : string) (s : Session) : option Rejection * Session :=
  match ss_closure s with
  | None => (None, s)
  | Some closure =>
      let state := known_state s in
      let authoritative := match state with TerminalConfirmed | RecoveryDisputed => true | _ => false end in
      let '(pending, s) := if authoritative then (false, s) else unresolved_usage v s in
      if pending then (Some (RejectUnresolved unresolved_error), s) else
      let terminal_action :=
        match state with
        | TerminalConfirmed =>
            Some (match ss_terminal_action s with None | Some StreamDispute => ObservedTerminal | Some action => action end)
        | RecoveryDisputed => match ss_terminal_action s with Some StreamDispute => Some StreamDispute | _ => None end
        | _ => None
        end in
      let advice := advised_action state (cl_category closure) in
      (Some (RejectClosed {| rj_request_id := request_id; rj_closure := closure; rj_state := state; rj_action := advice.1;
                             rj_message := advice.2; rj_terminal_action := terminal_action |}), s)
  end.

(** The body of a refusal of a closed session (410). *)
Definition ClosureCategory_name (c : ClosureCategory) : string :=
  match c with
  | PlannedShutdown => "planned_shutdown" | NoDelivery => "no_delivery" | ChainStateUnavailable => "chain_state_unavailable"
  | DealNotOpen => "deal_not_open" | TerminalObserved => "terminal_observed" | SessionStop => "session_stop"
  | VerificationBail => "verification_bail" | DeadGateway => "dead_gateway" | EmptyStream => "empty_stream"
  | SellerStallsMidStream => "seller_stalls_mid_stream" | RecoveryClosure => "recovery"
  end.
Definition RecoveryState_name (r : RecoveryState) : string :=
  match r with
  | NotAttempted => "not_attempted" | RecoveryPending => "pending" | AttemptedUnconfirmed => "attempted_unconfirmed"
  | SubmissionAmbiguous => "submission_ambiguous" | TerminalConfirmed => "terminal_confirmed" | RecoveryDisputed => "disputed"
  end.
Definition str_or_null (o : option string) : Value := match o with Some s => Str s | None => Null end.
Definition closed_body (r : ClosedRejection) (anthropic : bool) : Value :=
  let closure := Object [("closure_id", Str (cl_closure_id (rj_closure r)));
    ("category", Str (ClosureCategory_name (cl_category (rj_closure r)))); ("policy_action", str_or_null (cl_policy_action (rj_closure r)))]%string in
  let error := Object [("type", Str "invalid_request_error"); ("code", Str "deal_session_closed"); ("message", Str (rj_message r));
    ("request_id", Str (rj_request_id r)); ("token_contract", Str (sc_token_contract cfg)); ("closure", closure);
    ("recovery_state", Str (RecoveryState_name (rj_state r))); ("recovery_action", Str (rj_action r));
    ("terminal_action", str_or_null (option_map event_action (rj_terminal_action r)))]%string in
  Object (("error", error) :: if anthropic then [("type", Str "error")] else [])%string.

(** *** With the lock

    A call that has the lock either ends, or has written and waits for the chain's answer. *)

Definition hold (h : Holder) (s : Session) : Session * option Holder := (emit_s (Posted (posted h)) s, Some h).
Definition release (s : Session) : Session * option Holder := (s, None).

Definition ambiguous_stop : ChainError := AmbiguousSubmit
  f["TokenContract "; display_self_dapp (sc_token_contract cfg);
    " STOP may already have landed; automatic resubmit is suppressed until fresh chain facts prove a terminal outcome"].
Definition close_for_settle (v : View) (s : Session) : Session :=
  recovery_pending (close_api v SessionStop None (close_usage_quota s)).
Definition settle_locked (v : View) (reason : string) (heartbeat : option HeartbeatGuard) (o : Origin) (s : Session)
    : Session * option Holder :=
  let '(pending, s) := match heartbeat with Some _ => unresolved_usage v s | None => (false, s) end in
  if pending then release (return_settle o (Ok false) s)
  else if ss_settled s then release (return_settle o (Ok false) s)
  else if may_have_landed_for ReclaimOpened s then release (return_settle o (Err ambiguous_stop) s)
  else hold (HoldSettle reason heartbeat o) (match heartbeat with None => close_for_settle v s | Some _ => s end).
Definition settle_answered (v : View) (reason : string) (heartbeat : option HeartbeatGuard) (o : Origin) (a : ChainAnswer) (s : Session)
    : Session :=
  let closed := match heartbeat with Some _ => close_for_settle v s | None => s end in
  match a with
  | Vetoed => return_settle o (Ok false) s
  | Landed settlement =>
      let s := clear_recovery (mark_settled (from_stop_settlement settlement) closed) in
      return_settle o (Ok true) (record_confirmed_client_stop settlement "session_settle" reason None None s)
  | Failure e => return_settle o (Err e) (disable_drop_backup (latch_possibly_landed_stop e (recovery_failed e closed)).2)
  end.

Definition cleanup_locked (v : View) (handler_origin : bool) (category : ClosureCategory) (o : Origin) (s : Session)
    : Session * option Holder :=
  let '(pending, s) := unresolved_usage v s in
  if pending || ss_settled s then release (return_recover o (Ok None) s) else
  let '(begun, s) := begin_recovery_attempt v CleanupUnopened handler_origin category None s in
  if begun then hold (HoldCleanup handler_origin category o) (recovery_pending s) else release (return_recover o (Ok None) s).
Definition cleanup_answered (v : View) (handler_origin : bool) (category : ClosureCategory) (o : Origin) (a : ChainAnswer) (s : Session)
    : Session :=
  match a with
  | Landed settlement =>
      return_recover o (Ok (Some settlement)) (clear_recovery (mark_settled StreamCleanup (close_api v category None s)))
  | Failure e =>
      let s := recovery_failed e s in
      return_recover o (Err e) (if handler_origin then set_ss_reconciliation true s else s)
  | Vetoed => s
  end.

Definition reclaim_locked (v : View) (heartbeat : HeartbeatGuard) (handler_origin : bool) (category : ClosureCategory)
    (policy_action : option string) (o : Origin) (s : Session) : Session * option Holder :=
  let '(pending, s) := unresolved_usage v s in
  if pending || ss_settled s then release (return_recover o (Ok None) s) else
  let '(begun, s) := begin_recovery_attempt v ReclaimOpened handler_origin category policy_action s in
  if begun then hold (HoldReclaim heartbeat handler_origin (ss_recovery_state s) o) (recovery_pending s)
  else release (return_recover o (Ok None) s).
Definition reclaim_answered (v : View) (handler_origin : bool) (previous_state : RecoveryState) (o : Origin) (a : ChainAnswer) (s : Session)
    : Session :=
  match a with
  | Vetoed => return_recover o (Ok None) (cancel_recovery_without_post ReclaimOpened previous_state s)
  | Landed settlement =>
      return_recover o (Ok (Some settlement))
        (clear_recovery (mark_settled (from_stop_settlement settlement) (close_api v RecoveryClosure None s)))
  | Failure e =>
      let '(latched, s) := latch_possibly_landed_stop e (recovery_failed e s) in
      return_recover o (Err e) (if negb latched && handler_origin then set_ss_reconciliation true s else s)
  end.

Definition dispute_locked (v : View) (class action : string) (s : Session) : Session * option Holder :=
  let '(pending, s) := unresolved_usage v s in
  if pending || ss_settled s then release (return_ (RPolicy false) s)
  else hold HoldDispute (recovery_pending (close_api v (failure_class class) (Some action) s)).
Definition dispute_answered (a : ChainAnswer) (s : Session) : Session :=
  match a with
  | Landed _ => return_ (RPolicy true) (mark_settled StreamDispute s)
  | Failure e => return_ (RPolicy false) (recovery_failed e s)
  | Vetoed => s
  end.

Definition bail_locked (v : View) (reason : string) (s : Session) : Session * option Holder :=
  if ss_settled s then release (return_ (RPolicy false) s) else
  let '(pending, s) := unresolved_usage v s in
  if pending then release (return_ (RPolicy false) s) else
  match fp_verification_bail (sc_policy cfg) with
  | BailStop =>
      if may_have_landed_for ReclaimOpened s then release (return_ (RPolicy false) s)
      else hold (HoldBailStop reason usage_stop_guard) s
  | BailDispute => hold HoldBailDispute (recovery_pending s)
  | BailStopAndBlacklist | BailKeepOpen => release (return_ (RPolicy false) s)
  end.
Definition bail_stop_answered (reason : string) (a : ChainAnswer) (s : Session) : Session :=
  match a with
  | Vetoed => return_ (RPolicy false) s
  | Landed settlement =>
      let s := mark_settled (from_stop_settlement settlement) (recovery_pending s) in
      return_ (RPolicy true) (record_confirmed_client_stop settlement "verification_bail" reason (Some "bad_output_scam"%string)
        (Some (VerificationBailAction_as_str (fp_verification_bail (sc_policy cfg)))) s)
  | Failure e => return_ (RPolicy false) (latch_possibly_landed_stop e (recovery_failed e (recovery_pending s))).2
  end.

Definition policy_fail_closed_locked (v : View) (class action : string) (s : Session) : Session :=
  return_ (RPolicy false)
    (if ss_settled s || negb (ss_drop_backup s) then s else close_api v (failure_class class) (Some action) s).
Definition policy_unsupported_locked (v : View) (class action : string) (s : Session) : Session :=
  return_ (RPolicy false) (if ss_settled s then s else close_api v (failure_class class) (Some action) s).
Definition fail_serving_locked (v : View) (category : ClosureCategory) (e : ConsumerError) (s : Session) : Session :=
  return_ (RServing (Err e)) (if ss_settled s then s else close_api v category None s).
(** [mark_recovered_serialized]. *)
Definition mark_recovered_locked (v : View) (s : Session) : Session :=
  if ss_settled s then return_ (RPolicy false) s
  else return_ (RPolicy true) (close_api v TerminalObserved None (clear_recovery (mark_settled ObservedTerminal s))).

Definition run_locked (v : View) (t : Task) (s : Session) : Session * option Holder :=
  match t with
  | TSettle reason heartbeat o => settle_locked v reason heartbeat o s
  | TCleanup handler_origin category o => cleanup_locked v handler_origin category o s
  | TReclaim heartbeat handler_origin category policy_action o => reclaim_locked v heartbeat handler_origin category policy_action o s
  | TDispute class action => dispute_locked v class action s
  | TBail reason => bail_locked v reason s
  | TPolicyFailClosed class action => release (policy_fail_closed_locked v class action s)
  | TPolicyUnsupported class action => release (policy_unsupported_locked v class action s)
  | TFailServing category e => release (fail_serving_locked v category e s)
  | TMarkRecovered => release (mark_recovered_locked v s)
  end.
Definition run_answered (v : View) (h : Holder) (a : ChainAnswer) (s : Session) : Session :=
  match h with
  | HoldSettle reason heartbeat o => settle_answered v reason heartbeat o a s
  | HoldCleanup handler_origin category o => cleanup_answered v handler_origin category o a s
  | HoldReclaim _ handler_origin previous_state o => reclaim_answered v handler_origin previous_state o a s
  | HoldDispute | HoldBailDispute => dispute_answered a s
  | HoldBailStop reason _ => bail_stop_answered reason a s
  | HoldDropBackup =>
      match a with Landed settlement => record_confirmed_client_stop settlement "drop_backup" "drop-backup" None None s | _ => s end
  end.

(** [drop]: the backup needs a runtime to be spawned on. *)
Definition drop_session (v : View) (runtime : bool) (s : Session) : Session * option Holder :=
  let '(pending, s) := unresolved_usage v s in
  if pending || match sc_lifetime cfg with Preserve => true | _ => false end || ss_settled s || negb (ss_drop_backup s)
     || ss_may_have_landed s then release s else
  let '(vetoed, s) := veto_implicit_terminal_without_delivery v s in
  if vetoed then release s else if runtime then hold HoldDropBackup s else release s.

(** ** Many tasks on one session *)

Inductive SessionCall : Type :=
| CallSettle (reason : string)
| CallSettleOnExit (reason : string)
| CallReplaceActive (reason : string) (heartbeat : HeartbeatGuard)
| CallRecoverCleanup (handler_origin : bool)
| CallRecoverReclaim (heartbeat : HeartbeatGuard) (handler_origin : bool)
| CallVerificationBail (reason : string)
| CallDeadGateway (reason : string) (heartbeat : HeartbeatGuard)
| CallEmptyStream (reason : string) (heartbeat : HeartbeatGuard)
| CallSellerStalls (reason : string) (heartbeat : HeartbeatGuard)
| CallCheckOpen (read : Result ChainError (option DealChainState))
| CallMarkRecovered
| CallMarkRecoveredSerialized
| CallCloseRecoveryEpisode (kind : RecoveryKind)
| CallTakeReconciliation
| CallKeepOpenAfterDrop
| CallPauseUnresolved
| CallEnsurePaidPhase
| CallClosedRejection (request_id : string).
Definition call (v : View) (c : SessionCall) (s : Session) : Session * option Task :=
  match c with
  | CallSettle reason => start s (TSettle reason None Direct)
  | CallSettleOnExit reason => settle_on_exit v reason s
  | CallReplaceActive reason heartbeat => replace_active v reason heartbeat s
  | CallRecoverCleanup handler_origin => recover_cleanup_unopened v handler_origin RecoveryClosure Direct s
  | CallRecoverReclaim heartbeat handler_origin => recover_reclaim_opened v heartbeat handler_origin RecoveryClosure None Direct s
  | CallVerificationBail reason => settle_verification_bail v reason s
  | CallDeadGateway reason heartbeat => settle_dead_gateway v reason heartbeat s
  | CallEmptyStream reason heartbeat => settle_empty_stream v reason heartbeat s
  | CallSellerStalls reason heartbeat => settle_seller_stalls_mid_stream v reason heartbeat s
  | CallCheckOpen read => check_open_for_serving v read s
  | CallMarkRecovered => let '(b, s) := mark_recovered v s in finish (RPolicy b) s
  | CallMarkRecoveredSerialized => start s TMarkRecovered
  | CallCloseRecoveryEpisode kind => let '(b, s) := close_recovery_episode v kind s in finish (RPolicy b) s
  | CallTakeReconciliation => let '(k, s) := take_handler_recovery_reconciliation s in finish (RReconciliation k) s
  | CallKeepOpenAfterDrop => finish RUnit (disable_drop_backup s)
  | CallPauseUnresolved => finish RUnit (pause_unresolved s)
  | CallEnsurePaidPhase => let '(r, s) := ensure_paid_phase v s in finish (RPhase r) s
  | CallClosedRejection request_id => let '(r, s) := closed_rejection v request_id s in finish (RRejection r) s
  end.

Record SessionWorld : Type := { sw_session : Session; sw_waiting : list Task; sw_holder : option Holder; sw_dropped : bool }.
Definition new_world : SessionWorld := {| sw_session := new_session; sw_waiting := []; sw_holder := None; sw_dropped := false |}.

Inductive SessionEvent : Type :=
| Called (c : SessionCall) (v : View)
| Granted (i : nat) (v : View)
| Answered (a : ChainAnswer) (v : View)
| Dropped (runtime : bool) (v : View).
(** One step; [None]: this cannot happen now. *)
Definition session_step (e : SessionEvent) (w : SessionWorld) : option SessionWorld :=
  match e with
  | Called c v =>
      if sw_dropped w then None else
      let '(s, t) := call v c (sw_session w) in
      Some {| sw_session := s; sw_waiting := sw_waiting w ++ option_list t; sw_holder := sw_holder w; sw_dropped := false |}
  | Granted i v =>
      match sw_holder w with
      | Some _ => None
      | None =>
          let* t := sw_waiting w !! i in
          let '(s, h) := run_locked v t (sw_session w) in
          Some {| sw_session := s; sw_waiting := delete i (sw_waiting w); sw_holder := h; sw_dropped := sw_dropped w |}
      end
  | Answered a v =>
      let* h := sw_holder w in
      if negb (may_answer (posted h) a) then None else
      Some {| sw_session := run_answered v h a (sw_session w); sw_waiting := sw_waiting w; sw_holder := None; sw_dropped := sw_dropped w |}
  | Dropped runtime v =>
      match sw_dropped w, sw_waiting w, sw_holder w with
      | false, [], None =>
          let '(s, h) := drop_session v runtime (sw_session w) in
          Some {| sw_session := s; sw_waiting := []; sw_holder := h; sw_dropped := true |}
      | _, _, _ => None
      end
  end.
Fixpoint session_run (es : list SessionEvent) (w : SessionWorld) : option SessionWorld :=
  match es with [] => Some w | e :: es => let* w := session_step e w in session_run es w end.
End Session.
