(* ===== verification/SessionInv.v ===== *)
(** * What every step on a session keeps

    [session_ok] is the invariant of the flags; [holder_ok] is what the call that has the lock
    knows until the chain answers, whatever other calls do meanwhile.  [grows] says what a step
    never takes back. *)
From S2P Require Import Prelude RustText Params Address DealTypes Machine Recovery BuyerBudget BuyerAnswer Session.

#[local] Arguments umax : simpl never.

(** The writes of a log. *)
Definition posts (log : list SessionEffect) : list ChainWrite := omap (λ e, match e with Posted w => Some w | _ => None end) log.
Definition quota_closed (log : list SessionEffect) : bool := existsb (λ e, match e with QuotaClosed => true | _ => false end) log.

(** The states of an attempt, apart from what the chain has said about the deal. *)
Definition attempt (state : RecoveryState) : bool := match state with TerminalConfirmed | RecoveryDisputed => false | _ => true end.
Record session_ok (cfg : SessionConfig) (s : Session) : Prop := {
  so_tx : ss_closed_tx s = is_closed s;
  so_bailed : ss_verification_bailed s = true → is_closed s = true;
  so_attempt : attempt (ss_recovery_state s) = true;
  so_latch : ss_may_have_landed s = true → ss_episode s = Some ReclaimOpened ∧ ss_drop_backup s = false;
  so_settled : ss_settled s = true → is_closed s = true ∧ is_Some (ss_terminal_action s) ∧ is_Some (ss_known_chain_state s) ∧
    (sc_usage_quota cfg = true → quota_closed (ss_log s) = true);
}.
Definition holder_ok (h : Holder) (s : Session) : Prop :=
  match h with
  | HoldReclaim _ _ previous_state _ => ss_may_have_landed s = false ∧ ss_episode s = Some ReclaimOpened ∧ attempt previous_state = true
  | HoldDispute | HoldSettle _ None _ => is_closed s = true
  | HoldBailDispute | HoldBailStop _ _ => ss_verification_bailed s = true
  | _ => True
  end.
Definition task_ok (t : Task) (s : Session) : Prop := match t with TBail _ => ss_verification_bailed s = true | _ => True end.

Record grows (s s' : Session) : Prop := {
  gr_settled : ss_settled s = true → ss_settled s' = true;
  gr_unresolved : ss_unresolved s = true → ss_unresolved s' = true;
  gr_bailed : ss_verification_bailed s = true → ss_verification_bailed s' = true;
  gr_backup : ss_drop_backup s = false → ss_drop_backup s' = false;
  gr_terminal : ss_known_chain_state s = Some KnownTerminal → ss_known_chain_state s' = Some KnownTerminal;
  gr_quota : quota_closed (ss_log s) = true → quota_closed (ss_log s') = true;
}.
Lemma session_grows_refl s : grows s s.
Proof. by split. Qed.
Lemma session_grows_trans s1 s2 s3 : grows s1 s2 → grows s2 s3 → grows s1 s3.
Proof. intros [] []. split; auto. Qed.

Lemma posts_app l l' : posts (l ++ l') = posts l ++ posts l'.
Proof. apply omap_app. Qed.
Lemma quota_closed_app l l' : quota_closed (l ++ l') = quota_closed l || quota_closed l'.
Proof. apply existsb_app. Qed.

(** What the steps between two awaits do to a session without a write: [s'] is a later state of
    [s], in which a call that holds the lock still knows what it knew.  [E] is what a step must have
    seen to record that the deal is over. *)
Record keeps (cfg : SessionConfig) (E : Prop) (s s' : Session) : Prop := {
  kp_ok : session_ok cfg s → session_ok cfg s';
  kp_grows : grows s s';
  kp_posts : posts (ss_log s') = posts (ss_log s);
  kp_closed : is_closed s = true → is_closed s' = true;
  kp_latch : ss_may_have_landed s = true → ss_may_have_landed s' = true ∨ ss_settled s' = true;
  kp_unlatched : ss_may_have_landed s = false → ss_may_have_landed s' = false;
  kp_episode : is_Some (ss_episode s) → ss_episode s' = ss_episode s;
  kp_known : ss_known_chain_state s' = Some KnownTerminal → ss_known_chain_state s = Some KnownTerminal ∨ E;
}.
Lemma keeps_refl cfg E s : keeps cfg E s s.
Proof. split; auto using session_grows_refl. Qed.
Lemma keeps_trans cfg E s1 s2 s3 : keeps cfg E s1 s2 → keeps cfg E s2 s3 → keeps cfg E s1 s3.
Proof.
  intros [] []. split; auto; [by eapply session_grows_trans|congruence| | |].
  - intros [H|H]%kp_latch0; [auto|]. right. by apply kp_grows1.
  - intros H. rewrite kp_episode1, kp_episode0; [done|done|]. by rewrite kp_episode0.
  - intros [H|H]%kp_known1; auto.
Qed.
Lemma keeps_holder cfg E s s' h : keeps cfg E s s' → holder_ok h s → holder_ok h s'.
Proof.
  intros K. destruct h as [? [] ?| | | | | |]; cbn; try done; try apply (kp_closed _ _ _ _ K); try apply (gr_bailed _ _ (kp_grows _ _ _ _ K)).
  intros (Hm & He & Ha). split_and!; [by apply (kp_unlatched _ _ _ _ K)| |done]. rewrite (kp_episode _ _ _ _ K); [done|]. by rewrite He.
Qed.
Lemma keeps_task cfg E s s' t : keeps cfg E s s' → task_ok t s → task_ok t s'.
Proof. intros K. destruct t; cbn; try done. apply (gr_bailed _ _ (kp_grows _ _ _ _ K)). Qed.

Section Keeps.
Context (cfg : SessionConfig) (E : Prop).
Implicit Types (s : Session) (v : View).
Abbreviation keeps := (keeps cfg E).

(** Each field of the relation by computation. *)
Ltac keeps_by_cases :=
  split; [intros [Htx Hbail Hatt Hlatch Hsettled]; split| split | | | | | |]; unfold is_closed in *; cbn in *;
  rewrite ?posts_app, ?quota_closed_app, ?app_nil_r; cbn; rewrite ?app_nil_r; first [done|intuition eauto with bool].

Lemma keeps_emit e s : (∀ w, e ≠ Posted w) → keeps s (emit_s e s).
Proof.
  intros He. assert (posts [e] = []) as Hp by (destruct e; try done; by destruct (He w)).
  split; [intros [Htx Hbail Hatt Hlatch Hsettled]; split| split | | | | | |]; unfold is_closed in *; cbn;
    rewrite ?posts_app, ?quota_closed_app, ?Hp, ?app_nil_r; try done; clear Hp; intuition eauto with bool.
Qed.
Lemma keeps_return r s : keeps s (return_ r s).
Proof. by apply keeps_emit. Qed.
Lemma keeps_close_usage_quota s : keeps s (close_usage_quota cfg s).
Proof. unfold close_usage_quota. destruct (sc_usage_quota cfg); [by apply keeps_emit|apply keeps_refl]. Qed.
Lemma keeps_disable_drop_backup s : keeps s (disable_drop_backup s).
Proof. keeps_by_cases. Qed.
Lemma keeps_record_chain_state k s : (k = KnownTerminal → E) → keeps s (record_chain_state k s).
Proof. intros HE. unfold record_chain_state. case_bool_decide; [apply keeps_refl|]. keeps_by_cases. right. apply HE. congruence. Qed.
Lemma keeps_pending s : keeps s (recovery_pending s).
Proof. keeps_by_cases. Qed.
Lemma keeps_failed e s : keeps s (recovery_failed e s).
Proof. unfold recovery_failed. destruct e; keeps_by_cases. Qed.
Lemma keeps_recorded settlement path reason class action s : keeps s (record_confirmed_client_stop cfg settlement path reason class action s).
Proof. unfold record_confirmed_client_stop. case_match; [|apply keeps_refl]. destruct (sc_recorder cfg); [by apply keeps_emit|apply keeps_refl]. Qed.

(** ** Closing and settling *)

Lemma is_closed_close_api v category action s : is_closed (close_api cfg v category action s) = true.
Proof.
  unfold close_api, close_local_api, is_closed, close_usage_quota.
  destruct s as [? [] ?], (bool_decide _), (sc_usage_quota cfg); done.
Qed.
Lemma keeps_close_local_api v category action s : keeps s (close_local_api cfg v category action s).2.
Proof.
  unfold close_local_api. set (s1 := if bool_decide (category = TerminalObserved) then _ else _).
  assert (keeps s s1) as K by (subst s1; case_bool_decide; [apply keeps_close_usage_quota|apply keeps_refl]).
  clearbody s1. eapply keeps_trans; [exact K|]. destruct s1 as [settled [closure|] bailed rs known tx]; keeps_by_cases.
Qed.
Lemma keeps_close_api v category action s : keeps s (close_api cfg v category action s).
Proof. apply keeps_close_local_api. Qed.
Lemma keeps_terminal_action a s : (a ≠ StreamDispute → E) → keeps s (record_terminal_action cfg a s).
Proof.
  intros HE. unfold record_terminal_action. eapply keeps_trans; [|apply keeps_record_chain_state; case_bool_decide; [done|by intros _; apply HE]].
  eapply keeps_trans; [apply keeps_close_usage_quota|]. generalize (close_usage_quota cfg s). clear s. intros s.
  destruct a, (ss_terminal_action s) eqn:Ht; try apply keeps_refl; keeps_by_cases.
Qed.
Lemma terminal_action_recorded a s : is_Some (ss_terminal_action (record_terminal_action cfg a s)) ∧
  is_Some (ss_known_chain_state (record_terminal_action cfg a s)) ∧
  (sc_usage_quota cfg = true → quota_closed (ss_log (record_terminal_action cfg a s)) = true).
Proof.
  unfold record_terminal_action. set (s1 := close_usage_quota cfg s).
  assert (sc_usage_quota cfg = true → quota_closed (ss_log s1) = true) as Hq.
  { intros Hq. subst s1. unfold close_usage_quota. rewrite Hq. cbn. rewrite quota_closed_app. apply orb_true_r. }
  clearbody s1. clear s. unfold record_chain_state. case_bool_decide as Hk; destruct a, (ss_terminal_action s1) eqn:Ht; cbn in *; rewrite ?Ht, ?Hk; eauto.
Qed.
(** What a session has whose last outcome is recorded. *)
Definition recorded s : Prop :=
  is_Some (ss_terminal_action s) ∧ is_Some (ss_known_chain_state s) ∧ (sc_usage_quota cfg = true → quota_closed (ss_log s) = true).
Lemma keeps_set_settled s : is_closed s = true → recorded s → keeps s (set_ss_settled true s).
Proof. intros Hc (Ht & Hk & Hq). keeps_by_cases. Qed.
Lemma recorded_close_api v category action s : recorded s → recorded (close_api cfg v category action s).
Proof.
  intros (Ht & Hk & Hq). split_and!; [| |intros Hu; by apply (gr_quota _ _ (kp_grows _ _ _ _ (keeps_close_api v category action s))), Hq];
    unfold close_api, close_local_api, close_usage_quota; destruct s as [? [] ?], (bool_decide _), (sc_usage_quota cfg); done.
Qed.
Lemma keeps_mark_settled a s : (a ≠ StreamDispute → E) → is_closed s = true → keeps s (mark_settled cfg a s).
Proof.
  intros HE Hc. pose proof (keeps_terminal_action a s HE) as K. eapply keeps_trans; [exact K|].
  apply keeps_set_settled; [by apply (kp_closed _ _ _ _ K)|apply terminal_action_recorded].
Qed.
Lemma keeps_clear_recovery s : ss_settled s = true → keeps s (clear_recovery s).
Proof. intros Hs. keeps_by_cases. Qed.
Lemma keeps_settle a s : (a ≠ StreamDispute → E) → is_closed s = true → keeps s (clear_recovery (mark_settled cfg a s)).
Proof. intros HE Hc. eapply keeps_trans; [by apply keeps_mark_settled|by apply keeps_clear_recovery]. Qed.
(** The order of [mark_recovered]: the session is closed last. *)
Lemma close_recovered v s :
  close_api cfg v TerminalObserved None (clear_recovery (mark_settled cfg ObservedTerminal s)) =
  clear_recovery (set_ss_settled true (close_api cfg v TerminalObserved None (record_terminal_action cfg ObservedTerminal s))).
Proof.
  unfold mark_settled. generalize (record_terminal_action cfg ObservedTerminal s). clear s. intros s.
  unfold close_api, close_local_api, close_usage_quota. destruct s as [? [] ?], (sc_usage_quota cfg); reflexivity.
Qed.
Lemma keeps_recovered v s : E → keeps s (close_api cfg v TerminalObserved None (clear_recovery (mark_settled cfg ObservedTerminal s))).
Proof.
  intros HE. rewrite close_recovered. eapply keeps_trans; [by apply keeps_terminal_action|]. eapply keeps_trans; [apply keeps_close_api|].
  eapply keeps_trans; [apply keeps_set_settled|by apply keeps_clear_recovery].
  - apply is_closed_close_api.
  - apply recorded_close_api, terminal_action_recorded.
Qed.

(** ** What precedes the lock *)

(** One operation after another. *)
Ltac keeps_step :=
  lazymatch goal with
  | |- keeps ?s ?s => apply keeps_refl
  | _ => first [assumption | eapply keeps_trans; [|first
      [ apply keeps_return | apply keeps_close_api | apply keeps_close_usage_quota | apply keeps_disable_drop_backup
      | apply keeps_pending | apply keeps_failed | apply keeps_recorded]]]
  end.
Ltac keeps_all := repeat keeps_step.

Lemma keeps_unresolved_usage v s : keeps s (unresolved_usage cfg v s).2.
Proof. unfold unresolved_usage. destruct (_ || _); [|apply keeps_refl]. unfold disable_drop_backup. keeps_by_cases. Qed.
Lemma keeps_veto v s : keeps s (veto_implicit_terminal_without_delivery cfg v s).2.
Proof. unfold veto_implicit_terminal_without_delivery. destruct (implicit_terminal_lacks_delivery v); cbn; keeps_all. Qed.
Lemma keeps_preserve v category action s : keeps s (preserve_without_implicit_chain_write cfg v category action s).2.
Proof.
  unfold preserve_without_implicit_chain_write. pose proof (keeps_unresolved_usage v s) as K.
  destruct (unresolved_usage cfg v s) as [[] s1]; [done|]. destruct (sc_lifetime cfg); cbn in *; keeps_all.
Qed.
Lemma keeps_start_episode kind s : keeps s (start_episode kind s).2.
Proof. unfold start_episode. destruct s as [? ? ? ? ? ? [] ? ? []]; [apply keeps_refl|apply keeps_refl| |]; keeps_by_cases; discriminate. Qed.
Lemma keeps_set_recovery_closed b s : keeps s (set_ss_recovery_closed b s).
Proof. keeps_by_cases. Qed.
Lemma keeps_set_reconciliation b s : keeps s (set_ss_reconciliation b s).
Proof. keeps_by_cases. Qed.
Lemma keeps_close_recovery_episode v kind s : keeps s (close_recovery_episode cfg v kind s).2.
Proof.
  unfold close_recovery_episode. destruct (ss_settled s); [apply keeps_refl|].
  pose proof (keeps_start_episode kind s) as K1. destruct (start_episode kind s) as [started s1].
  pose proof (keeps_close_local_api v RecoveryClosure None s1) as K2. destruct (close_local_api _ _ _ _ s1) as [closed s2].
  cbn [snd] in *. eapply keeps_trans; [exact K1|]. eapply keeps_trans; [exact K2|].
  destruct (closed && _); [apply keeps_set_recovery_closed|apply keeps_refl].
Qed.
Lemma keeps_ensure_paid_phase v s : keeps s (ensure_paid_phase cfg v s).2.
Proof.
  unfold ensure_paid_phase. pose proof (keeps_unresolved_usage v s) as K.
  destruct (unresolved_usage cfg v s) as [[] s1]; [done|]. by destruct (is_closed s1).
Qed.
Lemma keeps_closed_rejection v id s : keeps s (closed_rejection cfg v id s).2.
Proof.
  unfold closed_rejection. destruct (ss_closure s); [|apply keeps_refl].
  set (authoritative := match known_state s with TerminalConfirmed | RecoveryDisputed => true | _ => false end).
  assert (keeps s (if authoritative then (false, s) else unresolved_usage cfg v s).2) as K
    by (destruct authoritative; [apply keeps_refl|apply keeps_unresolved_usage]).
  by destruct (if authoritative then _ else _) as [[] s1].
Qed.

(** A call that returned, or waits for the lock. *)
Definition called s (r : Session * option Task) : Prop := keeps s r.1 ∧ ∀ t, r.2 = Some t → task_ok t r.1.
Lemma called_start s s' t : keeps s s' → task_ok t s' → called s (start s' t).
Proof. intros K Ht. split; [done|]. intros t' [= <-]. done. Qed.
Lemma called_finish s s' r : keeps s s' → called s (finish r s').
Proof. intros K. split; [|done]. cbn. keeps_all. Qed.
Lemma keeps_return_recover o r s : keeps s (return_recover cfg o r s).
Proof. destruct o, r as [[]|]; cbn; keeps_all. Qed.
Lemma keeps_return_settle o r s : keeps s (return_settle o r s).
Proof. destruct o; cbn; keeps_all. Qed.

Lemma called_recover_cleanup v b category o s : called s (recover_cleanup_unopened cfg v b category o s).
Proof.
  unfold recover_cleanup_unopened. pose proof (keeps_preserve v category None s) as K.
  destruct (preserve_without_implicit_chain_write _ _ _ _ s) as [[] s1]; [|by apply called_start].
  split; [|done]. cbn in *. eapply keeps_trans; [exact K|apply keeps_return_recover].
Qed.
Lemma called_recover_reclaim v hb b category action o s : called s (recover_reclaim_opened cfg v hb b category action o s).
Proof.
  unfold recover_reclaim_opened. pose proof (keeps_preserve v category action s) as K.
  destruct (preserve_without_implicit_chain_write _ _ _ _ s) as [[] s1]; [|by apply called_start].
  split; [|done]. cbn in *. eapply keeps_trans; [exact K|apply keeps_return_recover].
Qed.
Lemma called_settle_on_exit v reason s : called s (settle_on_exit cfg v reason s).
Proof.
  unfold settle_on_exit. pose proof (keeps_unresolved_usage v s) as K1. destruct (unresolved_usage cfg v s) as [[] s1]; [by apply called_finish|].
  destruct (sc_lifetime cfg).
  - pose proof (keeps_veto v s1) as K2. destruct (veto_implicit_terminal_without_delivery cfg v s1) as [[] s2]; cbn in *;
      [apply called_finish|apply called_start; [|done]]; by eapply keeps_trans.
  - pose proof (keeps_preserve v PlannedShutdown None s1) as K2. destruct (preserve_without_implicit_chain_write _ _ _ _ s1) as [b s2].
    apply called_finish. by eapply keeps_trans.
Qed.
Lemma called_replace_active v reason hb s : called s (replace_active cfg v reason hb s).
Proof.
  unfold replace_active. pose proof (keeps_unresolved_usage v s) as K1. destruct (unresolved_usage cfg v s) as [[] s1]; [by apply called_finish|].
  destruct (implicit_terminal_lacks_delivery v); [apply called_finish; cbn in *; keeps_all|by apply called_start].
Qed.
Lemma called_keep_open s : called s (policy_keep_open s).
Proof. apply called_finish, keeps_refl. Qed.
Lemma called_dispute v class action s : called s (policy_dispute cfg v class action s).
Proof.
  unfold policy_dispute. pose proof (keeps_preserve v (failure_class class) (Some action) s) as K.
  destruct (preserve_without_implicit_chain_write _ _ _ _ s) as [[] s1]; [by apply called_finish|by apply called_start].
Qed.
Lemma bailed_close_api v action s : ss_verification_bailed (close_api cfg v VerificationBail action s) = true.
Proof. unfold close_api, close_local_api. destruct s as [? [] ?]; cbn; apply orb_true_r. Qed.
Lemma called_bail v reason s : called s (settle_verification_bail cfg v reason s).
Proof.
  unfold settle_verification_bail. destruct (keeps_open _ _); [apply called_keep_open|].
  set (action := Some (VerificationBailAction_as_str _)). pose proof (keeps_preserve v VerificationBail action s) as K.
  destruct (preserve_without_implicit_chain_write _ _ _ _ s) as [[] s1]; [by apply called_finish|].
  apply called_start; [cbn in *; keeps_all|apply bailed_close_api].
Qed.
#[local] Hint Resolve called_recover_cleanup called_recover_reclaim called_settle_on_exit called_replace_active called_keep_open
  called_dispute called_bail keeps_refl : core.
Lemma called_task s t : task_ok t s → called s (start s t).
Proof. by apply called_start. Qed.
Lemma called_failure v reason hb s :
  called s (settle_dead_gateway cfg v reason hb s) ∧ called s (settle_empty_stream cfg v reason hb s) ∧
  called s (settle_seller_stalls_mid_stream cfg v reason hb s).
Proof.
  unfold settle_dead_gateway, settle_empty_stream, settle_seller_stalls_mid_stream, policy_seller_timeout.
  split_and!; [destruct (fp_dead_gateway _)|destruct (fp_empty_stream _)|destruct (fp_seller_stalls_mid_stream _)]; auto; by apply called_task.
Qed.
Definition read_terminal (read : Result ChainError (option DealChainState)) : bool :=
  match read with Ok None => sc_usage_quota cfg | Ok (Some state) => is_stopped state | Err _ => false end.
Lemma called_check_open show_error v read s : (read_terminal read = true → E) → called s (check_open_for_serving cfg show_error v read s).
Proof.
  intros HE. unfold check_open_for_serving. destruct read as [[state|]|e].
  - destruct (cs_funded state && cs_opened state && negb (cs_disputed state)).
    + pose proof (keeps_unresolved_usage v s) as K. destruct (unresolved_usage cfg v s) as [b s1]. by apply called_finish.
    + set (r := if is_stopped state then _ else _). assert (keeps s r.2) as K
        by (subst r; cbn in HE; destruct (is_stopped state); [|destruct (cs_disputed state)]; cbn;
            first [apply keeps_refl|apply keeps_record_chain_state; auto; discriminate]).
      clearbody r. destruct r as [category s1]. unfold fail_closed_unopened_before_serving.
      destruct (unopened_cleanup_decision state (vw_now v)) as [[]|]; try (by apply called_start).
      match goal with |- called _ ?x => assert (called s1 x) as [K' Ht] by apply called_recover_cleanup end.
      split; [by eapply keeps_trans|done].
  - apply called_start; [|done]. cbn in HE. destruct (sc_usage_quota cfg); keeps_all. apply keeps_record_chain_state. auto.
  - destruct e; try (by apply called_start). by apply called_finish.
Qed.
Lemma record_settled a s : record_terminal_action cfg a (set_ss_settled true s) = mark_settled cfg a s.
Proof.
  unfold mark_settled, record_terminal_action, close_usage_quota, record_chain_state.
  destruct s as [? ? ? ? [[]|] ? ? ? ? ? ? [] ? ?], (sc_usage_quota cfg), a; reflexivity.
Qed.
Lemma keeps_mark_recovered v s : (ss_settled s = false → E) → keeps s (mark_recovered cfg v s).2.
Proof. intros HE. unfold mark_recovered. destruct (ss_settled s); cbn [snd]; [apply keeps_refl|]. rewrite record_settled. apply keeps_recovered. auto. Qed.
Lemma called_pair {A} s (r : A * Session) (f : A → SessionReturn) : keeps s r.2 → called s (let '(a, s1) := r in finish (f a) s1).
Proof. destruct r as [a s1]. apply called_finish. Qed.
(** The calls that learn that the deal is over. *)
Definition call_terminal (c : SessionCall) s : bool :=
  match c with CallCheckOpen read => read_terminal read | CallMarkRecovered => negb (ss_settled s) | _ => false end.
Lemma called_call show_error v c s : (call_terminal c s = true → E) → called s (call cfg show_error v c s).
Proof.
  intros HE. destruct c; cbn [call call_terminal] in *; auto; try apply called_failure; try (by apply called_start);
    try apply (called_pair s).
  - by apply called_check_open.
  - apply keeps_mark_recovered. intros Hs. apply HE. by rewrite Hs.
  - apply keeps_close_recovery_episode.
  - apply keeps_set_reconciliation.
  - apply called_finish. keeps_all.
  - apply called_finish. unfold pause_unresolved, disable_drop_backup. keeps_by_cases.
  - apply keeps_ensure_paid_phase.
  - apply keeps_closed_rejection.
Qed.

(** ** With the lock *)

(** A call that returned, or wrote and waits for the chain. *)
Definition ran s (r : Session * option Holder) : Prop :=
  match r.2 with
  | None => keeps s r.1
  | Some h => ∃ s1, keeps s s1 ∧ r.1 = emit_s (Posted (posted h)) s1 ∧ (session_ok cfg s → holder_ok h s1)
  end.
Lemma ran_release s s' : keeps s s' → ran s (release s').
Proof. done. Qed.
Lemma ran_hold s s' h : keeps s s' → holder_ok h s' → ran s (hold h s').
Proof. intros K Hh. by exists s'. Qed.
Lemma begin_spec v kind b category action s :
  let r := begin_recovery_attempt cfg v kind b category action s in
  keeps s r.2 ∧ (r.1 = true → ss_may_have_landed r.2 = false ∧ ss_episode r.2 = Some kind).
Proof.
  cbn zeta. unfold begin_recovery_attempt. pose proof (keeps_start_episode kind s) as K1. destruct (start_episode kind s) as [started s1].
  cbn [snd] in K1. case_bool_decide as He; cbn [negb]; [|done]. unfold may_have_landed_for. rewrite bool_decide_eq_true_2 by done.
  destruct (ss_may_have_landed s1) eqn:Hm; [done|]. cbn [andb]. destruct (negb b && negb started && ss_reconciliation s1); [done|].
  destruct b; [|done]. pose proof (keeps_close_local_api v category action s1) as K2.
  destruct (close_local_api cfg v category action s1) as [closed s2]. cbn [fst snd] in *.
  set (s3 := if closed then _ else _). assert (keeps s2 s3) as K3 by (subst s3; destruct closed; [apply keeps_set_recovery_closed|apply keeps_refl]).
  clearbody s3. assert (keeps s1 s3) as K by (by eapply keeps_trans). split; [by eapply keeps_trans|]. intros _.
  split; [by apply (kp_unlatched _ _ _ _ K)|]. by rewrite (kp_episode _ _ _ _ K), He by (rewrite He; eauto).
Qed.
Lemma keeps_close_for_settle v s : keeps s (close_for_settle cfg v s) ∧ is_closed (close_for_settle cfg v s) = true ∧
  ss_settled (close_for_settle cfg v s) = ss_settled s.
Proof.
  split_and!; [unfold close_for_settle; keeps_all|apply is_closed_close_api|].
  unfold close_for_settle, close_api, close_local_api, close_usage_quota. destruct s as [? [] ?], (sc_usage_quota cfg); done.
Qed.
Lemma ran_settle v reason hb o s : ran s (settle_locked cfg v reason hb o s).
Proof.
  unfold settle_locked. set (r := match hb with Some _ => _ | None => _ end).
  assert (keeps s r.2) as K by (subst r; destruct hb; [apply keeps_unresolved_usage|apply keeps_refl]).
  clearbody r. destruct r as [[] s1]; cbn [snd] in K; [apply ran_release; eapply keeps_trans; [exact K|apply keeps_return_settle]|].
  destruct (ss_settled s1); [apply ran_release; eapply keeps_trans; [exact K|apply keeps_return_settle]|].
  destruct (may_have_landed_for ReclaimOpened s1); [apply ran_release; eapply keeps_trans; [exact K|apply keeps_return_settle]|].
  destruct hb; [by apply ran_hold|]. destruct (keeps_close_for_settle v s1) as (K' & Hc & _). apply ran_hold; [by eapply keeps_trans|done].
Qed.
Lemma ran_cleanup v b category o s : ran s (cleanup_locked cfg v b category o s).
Proof.
  unfold cleanup_locked. pose proof (keeps_unresolved_usage v s) as K1. destruct (unresolved_usage cfg v s) as [pending s1]. cbn [snd] in K1.
  destruct (pending || ss_settled s1); [apply ran_release; eapply keeps_trans; [exact K1|apply keeps_return_recover]|].
  destruct (begin_spec v CleanupUnopened b category None s1) as [K2 _].
  destruct (begin_recovery_attempt _ _ _ _ _ _ s1) as [[] s2]; cbn [snd] in K2;
    [apply ran_hold; [|done]; keeps_all; by eapply keeps_trans|].
  apply ran_release. eapply keeps_trans; [by eapply keeps_trans|apply keeps_return_recover].
Qed.
Lemma ran_reclaim v hb b category action o s : ran s (reclaim_locked cfg v hb b category action o s).
Proof.
  unfold reclaim_locked. pose proof (keeps_unresolved_usage v s) as K1. destruct (unresolved_usage cfg v s) as [pending s1]. cbn [snd] in K1.
  destruct (pending || ss_settled s1); [apply ran_release; eapply keeps_trans; [exact K1|apply keeps_return_recover]|].
  destruct (begin_spec v ReclaimOpened b category action s1) as [K2 Hb].
  destruct (begin_recovery_attempt _ _ _ _ _ _ s1) as [[] s2]; cbn [fst snd] in *;
    [exists (recovery_pending s2); split_and!; [keeps_all; by eapply keeps_trans|done|]|].
  { intros Hok. destruct (Hb eq_refl) as [Hm He]. split_and!; [done|done|]. by apply so_attempt with cfg, (kp_ok _ _ _ _ K2), (kp_ok _ _ _ _ K1). }
  apply ran_release. eapply keeps_trans; [by eapply keeps_trans|apply keeps_return_recover].
Qed.
Lemma ran_dispute v class action s : ran s (dispute_locked cfg v class action s).
Proof.
  unfold dispute_locked. pose proof (keeps_unresolved_usage v s) as K1. destruct (unresolved_usage cfg v s) as [pending s1]. cbn [snd] in K1.
  destruct (pending || ss_settled s1); [apply ran_release; keeps_all|]. apply ran_hold; [keeps_all|apply is_closed_close_api].
Qed.
Lemma ran_bail v reason s : ss_verification_bailed s = true → ran s (bail_locked cfg v reason s).
Proof.
  intros Hb. unfold bail_locked. destruct (ss_settled s); [apply ran_release; keeps_all|].
  pose proof (keeps_unresolved_usage v s) as K1. destruct (unresolved_usage cfg v s) as [[] s1]; cbn [snd] in K1; [apply ran_release; keeps_all|].
  apply (gr_bailed _ _ (kp_grows _ _ _ _ K1)) in Hb.
  destruct (fp_verification_bail _); try (apply ran_release; keeps_all); [destruct (may_have_landed_for _ _); [apply ran_release; keeps_all|]|];
    apply ran_hold; try done; keeps_all.
Qed.
Definition task_terminal (t : Task) s : bool := match t with TMarkRecovered => negb (ss_settled s) | _ => false end.
Lemma ran_locked v t s : task_ok t s → (task_terminal t s = true → E) → ran s (run_locked cfg v t s).
Proof.
  destruct t; cbn [run_locked task_terminal]; intros Ht HE.
  - apply ran_settle.
  - apply ran_cleanup.
  - apply ran_reclaim.
  - apply ran_dispute.
  - by apply ran_bail.
  - apply ran_release. unfold policy_fail_closed_locked. destruct (_ || _); keeps_all.
  - apply ran_release. unfold policy_unsupported_locked. destruct (ss_settled s); keeps_all.
  - apply ran_release. unfold fail_serving_locked. destruct (ss_settled s); keeps_all.
  - apply ran_release. unfold mark_recovered_locked. destruct (ss_settled s); cbn in HE; keeps_step; [apply keeps_refl|].
    eapply keeps_trans; [|apply keeps_recovered; auto]. apply keeps_refl.
Qed.
Lemma ran_drop v runtime s : ran s (drop_session cfg v runtime s).
Proof.
  unfold drop_session. pose proof (keeps_unresolved_usage v s) as K1. destruct (unresolved_usage cfg v s) as [pending s1]. cbn [snd] in K1.
  destruct (_ || _ || _ || _ || _); [by apply ran_release|].
  pose proof (keeps_veto v s1) as K2. destruct (veto_implicit_terminal_without_delivery cfg v s1) as [[] s2]; cbn [snd] in K2;
    [|destruct runtime; [apply ran_hold; [|done]|]]; try apply ran_release; by eapply keeps_trans.
Qed.

(** ** The answer of the chain *)

Record follows s s' : Prop := {
  fw_ok : session_ok cfg s → session_ok cfg s';
  fw_grows : grows s s';
  fw_posts : posts (ss_log s') = posts (ss_log s);
  fw_latch : ss_may_have_landed s = true → ss_may_have_landed s' = true ∨ ss_settled s' = true;
  fw_known : ss_known_chain_state s' = Some KnownTerminal → ss_known_chain_state s = Some KnownTerminal ∨ E;
}.
Lemma follows_keeps s s' : keeps s s' → follows s s'.
Proof. intros []. by split. Qed.
Lemma follows_trans s1 s2 s3 : follows s1 s2 → follows s2 s3 → follows s1 s3.
Proof.
  intros [] []. split; auto; [by eapply session_grows_trans|congruence| |].
  - intros [H|H]%fw_latch0; [auto|]. right. by apply fw_grows1.
  - intros [H|H]%fw_known1; auto.
Qed.
Lemma follows_then s1 s2 s3 : follows s1 s2 → keeps s2 s3 → follows s1 s3.
Proof. intros F K. eapply follows_trans; [exact F|by apply follows_keeps]. Qed.
Lemma follows_latched e s : follows s (latch_possibly_landed_stop e s).2.
Proof.
  destruct e; try (apply follows_keeps, keeps_refl).
  split; [intros [Htx Hbail Hatt Hlatch Hsettled]; split| split | | |]; unfold is_closed in *; cbn in *; first [done|intuition eauto with bool].
Qed.
Lemma follows_cancelled previous s : ss_may_have_landed s = false → attempt previous = true → follows s (cancel_recovery_without_post ReclaimOpened previous s).
Proof.
  intros Hm Ha. unfold cancel_recovery_without_post. case_bool_decide; cbn [negb]; [|apply follows_keeps, keeps_refl].
  destruct s as [[] [] [] ? ? ? ? [] ? ? ? ? ? ?]; cbn in Hm; subst; unfold is_closed; cbn;
    (split; [intros [Htx Hbail Hatt Hlatch Hsettled]; split| split | | |]; unfold is_closed in *; cbn in *; first [done|intuition eauto with bool]).
Qed.
(** The answers that say that the deal is over: every write that landed but a dispute. *)
Definition answer_terminal (h : Holder) (a : ChainAnswer) : bool :=
  match h, a with
  | HoldSettle _ _ _, Landed _ | HoldCleanup _ _ _, Landed _ | HoldReclaim _ _ _ _, Landed _ | HoldBailStop _ _, Landed _ => true
  | _, _ => false
  end.
Lemma follows_settle v reason hb o a s : (answer_terminal (HoldSettle reason hb o) a = true → E) → holder_ok (HoldSettle reason hb o) s → follows s (settle_answered cfg v reason hb o a s).
Proof.
  intros HE Hh. unfold settle_answered. set (closed := match hb with Some _ => _ | None => s end).
  assert (keeps s closed ∧ is_closed closed = true) as [K Hc].
  { subst closed. destruct hb; [|by split; [apply keeps_refl|]]. by destruct (keeps_close_for_settle v s) as (? & ? & _). }
  clearbody closed. destruct a as [settlement| |e].
  - apply follows_keeps. eapply keeps_trans; [|apply keeps_return_settle]. keeps_step. eapply keeps_trans; [exact K|by apply keeps_settle; [intros _; apply HE|]].
  - apply follows_keeps, keeps_return_settle.
  - eapply follows_then; [|apply keeps_return_settle]. eapply follows_then; [|apply keeps_disable_drop_backup].
    eapply follows_trans; [|apply follows_latched]. apply follows_keeps. keeps_all.
Qed.
Lemma follows_cleanup v b category o a s : (answer_terminal (HoldCleanup b category o) a = true → E) →
  follows s (cleanup_answered cfg v b category o a s).
Proof.
  intros HE. apply follows_keeps. destruct a as [settlement| |e]; cbn [cleanup_answered]; [| |].
  - eapply keeps_trans; [|apply keeps_return_recover]. eapply keeps_trans; [|apply keeps_settle; [intros _; by apply HE|apply is_closed_close_api]]. keeps_all.
  - apply keeps_refl.
  - eapply keeps_trans; [|apply keeps_return_recover]. destruct b; [eapply keeps_trans; [|apply keeps_set_reconciliation]|]; keeps_all.
Qed.
Lemma follows_reclaim v hb b previous o a s : (answer_terminal (HoldReclaim hb b previous o) a = true → E) → holder_ok (HoldReclaim hb b previous o) s → follows s (reclaim_answered cfg v b previous o a s).
Proof.
  intros HE (Hm & _ & Ha). destruct a as [settlement| |e]; cbn [reclaim_answered].
  - apply follows_keeps. eapply keeps_trans; [|apply keeps_return_recover]. eapply keeps_trans; [|apply keeps_settle; [intros _; by apply HE|apply is_closed_close_api]]. keeps_all.
  - eapply follows_then; [by apply follows_cancelled|apply keeps_return_recover].
  - pose proof (follows_latched e (recovery_failed e s)) as F. destruct (latch_possibly_landed_stop e (recovery_failed e s)) as [latched s1].
    cbn [snd] in F. eapply follows_then; [|apply keeps_return_recover]. eapply follows_trans; [apply follows_keeps, keeps_failed|].
    destruct (negb latched && b); [|exact F]. eapply follows_then; [exact F|apply keeps_set_reconciliation].
Qed.
Lemma follows_dispute a s : is_closed s = true → follows s (dispute_answered cfg a s).
Proof.
  intros Hc. apply follows_keeps. destruct a; cbn [dispute_answered]; keeps_all. by apply keeps_mark_settled.
Qed.
Lemma follows_bail reason hb a s : (answer_terminal (HoldBailStop reason hb) a = true → E) → is_closed s = true → follows s (bail_stop_answered cfg reason a s).
Proof.
  intros HE Hc. destruct a as [settlement| |e]; cbn [bail_stop_answered].
  - apply follows_keeps. keeps_step. keeps_step. eapply keeps_trans; [apply keeps_pending|by apply keeps_mark_settled; [intros _; apply HE|]].
  - apply follows_keeps. keeps_all.
  - eapply follows_then; [|apply keeps_return]. eapply follows_trans; [|apply follows_latched]. apply follows_keeps. keeps_all.
Qed.
Lemma follows_answered v h a s : (answer_terminal h a = true → E) → session_ok cfg s → holder_ok h s → follows s (run_answered cfg v h a s).
Proof.
  intros HE Hok Hh. destruct h; cbn [run_answered].
  - by apply follows_settle.
  - by apply follows_cleanup.
  - by eapply follows_reclaim.
  - by apply follows_dispute.
  - eapply follows_bail; [exact HE|]. by apply (so_bailed _ _ Hok).
  - apply follows_dispute. by apply (so_bailed _ _ Hok).
  - apply follows_keeps. destruct a; keeps_all.
Qed.
End Keeps.

(** ** Every step of a world *)

Record world_ok (cfg : SessionConfig) (w : SessionWorld) : Prop := {
  wo_session : session_ok cfg (sw_session w);
  wo_waiting : ∀ t, t ∈ sw_waiting w → task_ok t (sw_session w);
  wo_holder : ∀ h, sw_holder w = Some h → holder_ok h (sw_session w);
}.
Lemma new_world_ok cfg : world_ok cfg new_world.
Proof. split; [by split|by intros t ?%elem_of_nil|done]. Qed.

(** The steps that say that the deal is over: a write that landed, or an observation. *)
Definition terminal_evidence (cfg : SessionConfig) (e : SessionEvent) (w : SessionWorld) : bool :=
  match e with
  | Called c _ => call_terminal cfg c (sw_session w)
  | Granted i _ => match sw_waiting w !! i with Some t => task_terminal t (sw_session w) | None => false end
  | Answered a _ => match sw_holder w with Some h => answer_terminal h a | None => false end
  | Dropped _ _ => false
  end.
(** What a step leaves as it was. *)
Record stepped (w w' : SessionWorld) : Prop := {
  sp_grows : grows (sw_session w) (sw_session w');
  sp_latch : ss_may_have_landed (sw_session w) = true → ss_may_have_landed (sw_session w') = true ∨ ss_settled (sw_session w') = true;
}.
Lemma keeps_stepped cfg E w w' : keeps cfg E (sw_session w) (sw_session w') → stepped w w'.
Proof. intros K. split; [by apply (kp_grows _ _ _ _ K)|by apply (kp_latch _ _ _ _ K)]. Qed.
Lemma stepped_refl w : stepped w w.
Proof. by split; [apply session_grows_refl|left]. Qed.
Lemma stepped_trans w1 w2 w3 : stepped w1 w2 → stepped w2 w3 → stepped w1 w3.
Proof.
  intros [G1 L1] [G2 L2]. split; [by eapply session_grows_trans|]. intros [H|H]%L1; [auto|]. right. by apply G2.
Qed.

(** The write of a step: the call that now has the lock has just made it. *)
Definition new_posts (e : SessionEvent) (w' : SessionWorld) : list ChainWrite :=
  match e, sw_holder w' with
  | Granted _ _, Some h | Dropped _ _, Some h => [posted h]
  | _, _ => []
  end.
Lemma ok_emit cfg e s : session_ok cfg s → session_ok cfg (emit_s e s).
Proof.
  intros [Htx Hbail Hatt Hlatch Hsettled]. split; try done. intros (Hc & Ht & Hk & Hq)%Hsettled. split_and!; try done.
  intros Hu. cbn. rewrite quota_closed_app. by rewrite Hq.
Qed.
Lemma grows_emit e s : grows s (emit_s e s).
Proof. split; try done. intros Hq. cbn. rewrite quota_closed_app. by rewrite Hq. Qed.
Lemma holder_emit e h s : holder_ok h s → holder_ok h (emit_s e s).
Proof. by destruct h as [? []| | | | | |]. Qed.
Lemma task_emit e t s : task_ok t s → task_ok t (emit_s e s).
Proof. by destruct t. Qed.

(** A step of a call with the lock. *)
Lemma ran_step cfg E s (waiting waiting' : list Task) r dropped w :
  session_ok cfg s → (∀ t, t ∈ waiting → task_ok t s) → (∀ t, t ∈ waiting' → t ∈ waiting) → ran cfg E s r →
  w = {| sw_session := r.1; sw_waiting := waiting'; sw_holder := r.2; sw_dropped := dropped |} →
  world_ok cfg w ∧ grows s (sw_session w) ∧ (ss_may_have_landed s = true → ss_may_have_landed (sw_session w) = true ∨ ss_settled (sw_session w) = true) ∧
  posts (ss_log (sw_session w)) = posts (ss_log s) ++ match sw_holder w with Some h => [posted h] | None => [] end ∧
  (ss_known_chain_state (sw_session w) = Some KnownTerminal → ss_known_chain_state s = Some KnownTerminal ∨ E).
Proof.
  intros Hok Hwait Hsub Hran ->. unfold ran in Hran. destruct r as [s' [h|]]; cbn [fst snd sw_session sw_waiting sw_holder] in *.
  - destruct Hran as (s1 & K & -> & Hh). split_and!.
    + split; cbn; [by apply ok_emit, (kp_ok _ _ _ _ K)|intros t Ht; by eapply task_emit, keeps_task, Hwait, Hsub|].
      intros h' [= <-]. by apply holder_emit, Hh.
    + eapply session_grows_trans; [apply (kp_grows _ _ _ _ K)|apply grows_emit].
    + apply (kp_latch _ _ _ _ K).
    + cbn. rewrite posts_app, (kp_posts _ _ _ _ K). done.
    + apply (kp_known _ _ _ _ K).
  - split_and!; [|apply (kp_grows _ _ _ _ Hran)|apply (kp_latch _ _ _ _ Hran)|by rewrite app_nil_r, (kp_posts _ _ _ _ Hran)|apply (kp_known _ _ _ _ Hran)].
    split; cbn; [by apply (kp_ok _ _ _ _ Hran)|intros t Ht; by eapply keeps_task, Hwait, Hsub|done].
Qed.

Theorem step_spec cfg show_error e w w' : world_ok cfg w → session_step cfg show_error e w = Some w' →
  world_ok cfg w' ∧ stepped w w' ∧ posts (ss_log (sw_session w')) = posts (ss_log (sw_session w)) ++ new_posts e w' ∧
  (ss_known_chain_state (sw_session w') = Some KnownTerminal →
   ss_known_chain_state (sw_session w) = Some KnownTerminal ∨ terminal_evidence cfg e w = true).
Proof.
  intros [Hok Hwait Hhold] Hstep. destruct e as [c v|i v|a v|runtime v]; cbn [session_step] in Hstep.
  - destruct (sw_dropped w); [done|]. destruct (called_call cfg (terminal_evidence cfg (Called c v) w = true) show_error v c (sw_session w) id) as [K Ht].
    destruct (call cfg show_error v c (sw_session w)) as [s t]. injection Hstep as <-. cbn [fst snd] in *. split_and!.
    + split; cbn; [by apply (kp_ok _ _ _ _ K)| |intros h Hh; by eapply keeps_holder, Hhold].
      intros t' [Hin|Hin]%elem_of_app; [by eapply keeps_task, Hwait|].
      destruct t as [t|]; [apply list_elem_of_singleton in Hin as ->; by apply Ht|by apply elem_of_nil in Hin].
    + by eapply keeps_stepped.
    + cbn. by rewrite (kp_posts _ _ _ _ K), app_nil_r.
    + apply (kp_known _ _ _ _ K).
  - destruct (sw_holder w) eqn:Hh; [done|]. destruct (sw_waiting w !! i) as [t|] eqn:Ht; [|done]. cbn in Hstep.
    assert (ran cfg (terminal_evidence cfg (Granted i v) w = true) (sw_session w) (run_locked cfg v t (sw_session w))) as Hran
      by (apply ran_locked; [apply Hwait; by eapply list_elem_of_lookup_2|cbn [terminal_evidence]; by rewrite Ht]).
    destruct (ran_step cfg (terminal_evidence cfg (Granted i v) w = true) (sw_session w) (sw_waiting w) (delete i (sw_waiting w))
      (run_locked cfg v t (sw_session w)) (sw_dropped w) w' Hok Hwait) as (? & ? & ? & Hp & Hk); [|done| |].
    + intros t' Ht'. eapply elem_of_submseteq; [exact Ht'|apply submseteq_delete].
    + destruct (run_locked cfg v t (sw_session w)). by injection Hstep as <-.
    + split_and!; [done|by split| |exact Hk]. rewrite Hp. unfold new_posts. by destruct (sw_holder w').
  - destruct (sw_holder w) as [h|] eqn:Hh; [|done]. cbn in Hstep. destruct (may_answer (posted h) a); [|done]. injection Hstep as <-.
    destruct (follows_answered cfg (answer_terminal h a = true) v h a (sw_session w) id Hok (Hhold h eq_refl)) as [Fok Fg Fp Fl Fk]. split_and!.
    + split; cbn; [by apply Fok| |done]. intros t Ht. apply Hwait in Ht. destruct t; try done. by apply (gr_bailed _ _ Fg).
    + by split.
    + cbn. by rewrite Fp, app_nil_r.
    + cbn [terminal_evidence]. by rewrite Hh.
  - destruct (sw_dropped w); [done|]. destruct (sw_waiting w) eqn:Hw; [|done]. destruct (sw_holder w) eqn:Hh; [done|].
    pose proof (ran_drop cfg (terminal_evidence cfg (Dropped runtime v) w = true) v runtime (sw_session w)) as Hran.
    destruct (ran_step cfg (terminal_evidence cfg (Dropped runtime v) w = true) (sw_session w) [] []
      (drop_session cfg v runtime (sw_session w)) true w' Hok Hwait) as (? & ? & ? & Hp & Hk); [done|exact Hran| |].
    + destruct (drop_session cfg v runtime (sw_session w)). by injection Hstep as <-.
    + split_and!; [done|by split| |exact Hk]. rewrite Hp. unfold new_posts. by destruct (sw_holder w').
Qed.

(** ** Every run *)

Lemma run_spec cfg show_error es w w' : world_ok cfg w → session_run cfg show_error es w = Some w' → world_ok cfg w' ∧ stepped w w'.
Proof.
  revert w. induction es as [|e es IH]; intros w Hok Hrun; cbn in Hrun; [injection Hrun as <-; by split; [|apply stepped_refl]|].
  destruct (session_step cfg show_error e w) as [w1|] eqn:Hs; [|done]. destruct (step_spec _ _ _ _ _ Hok Hs) as (Hok1 & Hst & _ & _).
  destruct (IH _ Hok1 Hrun) as [? ?]. split; [done|by eapply stepped_trans].
Qed.
Lemma session_reached_ok cfg show_error es w : session_run cfg show_error es new_world = Some w → world_ok cfg w.
Proof. intros H. apply (run_spec _ _ _ _ _ (new_world_ok cfg) H). Qed.
Lemma session_run_app cfg show_error es es' w :
  session_run cfg show_error (es ++ es') w = (let* w1 := session_run cfg show_error es w in session_run cfg show_error es' w1).
Proof. revert w. induction es as [|e es IH]; intros w; cbn [session_run app]; [done|]. destruct (session_step cfg show_error e w); [apply IH|done]. Qed.
