(* ===== verification/SessionProps.v ===== *)
(** * When a session writes to the chain

    Whatever tasks share the session: after a terminal outcome it writes no more; a STOP that may
    have landed is not sent again; without reconciled usage, or for a preserved deal, only an
    explicit decision writes; when a drop writes; what a client is told about the deal rests on an
    outcome of the chain; and what an explicit settlement does, whatever the chain answers. *)
From S2P Require Import Prelude RustText Params Address DealTypes Machine Recovery BuyerBudget BuyerAnswer Session SessionInv.

#[local] Arguments umax : simpl never.

Section Writes.
Context (cfg : SessionConfig) (show_error : ChainError → text).
Implicit Types (s : Session) (v : View) (w : SessionWorld).
Abbreviation session_step := (session_step cfg show_error).
Abbreviation session_run := (session_run cfg show_error).

(** Is there output without reconciled usage, as far as a step can see. *)
Definition usage_pending v s : bool := ss_unresolved s || (sc_usage_quota cfg && vw_store v).

(** ** The condition of each write *)

Lemma unresolved_flags v s : let s' := (unresolved_usage cfg v s).2 in
  (unresolved_usage cfg v s).1 = usage_pending v s ∧ ss_settled s' = ss_settled s ∧ ss_may_have_landed s' = ss_may_have_landed s ∧
  ss_episode s' = ss_episode s.
Proof. unfold unresolved_usage, usage_pending. by destruct (_ || _). Qed.

(** What a call with the lock can write: [writes v t s h] says when the task [t] ends up as [h]. *)
Definition writes v (t : Task) s (h : Holder) : Prop :=
  ss_settled s = false ∧
  (ss_may_have_landed s = true → ss_episode s = Some ReclaimOpened → posted h = WriteDispute) ∧
  (usage_pending v s = true → ∃ reason o, t = TSettle reason None o).
Lemma begin_unlatched v kind b category action s s' :
  begin_recovery_attempt cfg v kind b category action s = (true, s') → ss_may_have_landed s = true → ss_episode s = Some ReclaimOpened → False.
Proof.
  unfold begin_recovery_attempt, start_episode, may_have_landed_for. intros H Hm He. rewrite He in H. cbn in H. rewrite He, Hm in H.
  destruct kind; cbn in H; done.
Qed.
Lemma locked_writes v t s s' h : run_locked cfg v t s = (s', Some h) → writes v t s h.
Proof.
  destruct (unresolved_flags v s) as (Hp & Hs & Hm & He). unfold writes. rewrite <- Hp.
  destruct t; cbn [run_locked]; try done; intros H.
  - unfold settle_locked, may_have_landed_for in H. destruct heartbeat as [hb|].
    + destruct (unresolved_usage cfg v s) as [[] s1]; [done|]. cbn [fst snd] in *. rewrite Hs, Hm, He in H.
      destruct (ss_settled s); [done|]. split_and!; [done| |done]. intros Hm1 He1. by rewrite Hm1, He1 in H.
    + destruct (ss_settled s); [done|]. split_and!; [done| |by eauto]. intros Hm1 He1. by rewrite Hm1, He1 in H.
  - unfold cleanup_locked in H. destruct (unresolved_usage cfg v s) as [[] s1]; [done|]. cbn [fst snd orb] in *. rewrite Hs in H.
    destruct (ss_settled s); [done|]. split_and!; [done| |done]. intros Hm1 He1.
    destruct (begin_recovery_attempt _ _ _ _ _ _ s1) as [[] s2] eqn:Hb; [|done]. by destruct (begin_unlatched _ _ _ _ _ _ _ Hb); congruence.
  - unfold reclaim_locked in H. destruct (unresolved_usage cfg v s) as [[] s1]; [done|]. cbn [fst snd orb] in *. rewrite Hs in H.
    destruct (ss_settled s); [done|]. split_and!; [done| |done]. intros Hm1 He1.
    destruct (begin_recovery_attempt _ _ _ _ _ _ s1) as [[] s2] eqn:Hb; [|done]. by destruct (begin_unlatched _ _ _ _ _ _ _ Hb); congruence.
  - unfold dispute_locked in H. destruct (unresolved_usage cfg v s) as [[] s1]; [done|]. cbn [fst snd orb] in *. rewrite Hs in H.
    destruct (ss_settled s); [done|]. injection H as _ <-. done.
  - unfold bail_locked, may_have_landed_for in H. destruct (ss_settled s); [done|].
    destruct (unresolved_usage cfg v s) as [[] s1]; [done|]. cbn [fst snd] in *. rewrite Hm, He in H.
    split_and!; [done| |done]. intros Hm1 He1. rewrite Hm1, He1 in H. destruct (fp_verification_bail _); try done. by injection H as _ <-.
Qed.
(** When a drop writes. *)
Definition drop_writes_if v (runtime : bool) s : Prop :=
  runtime = true ∧ usage_pending v s = false ∧ sc_lifetime cfg = SettleOnExit ∧ ss_settled s = false ∧
  ss_drop_backup s = true ∧ ss_may_have_landed s = false ∧ vw_delivered v ≠ Some 0.
Lemma drop_writes v runtime s s' h : drop_session cfg v runtime s = (s', h) →
  (h = None ∧ ¬ drop_writes_if v runtime s) ∨ (h = Some HoldDropBackup ∧ drop_writes_if v runtime s).
Proof.
  unfold drop_session, drop_writes_if, unresolved_usage, usage_pending, release, hold.
  destruct (ss_unresolved s || (sc_usage_quota cfg && vw_store v)) eqn:Hp.
  { cbn [orb]. intros [= _ <-]. left. split; [done|]. by intros (_ & ? & _). }
  destruct (sc_lifetime cfg) eqn:Hl; cbn [orb]; [|intros [= _ <-]; left; split; [done|]; by intros (_ & _ & ? & _)].
  destruct (ss_settled s) eqn:Hs; cbn [orb]; [intros [= _ <-]; left; split; [done|]; by intros (_ & _ & _ & ? & _)|].
  destruct (ss_drop_backup s) eqn:Hd; cbn [orb negb]; [|intros [= _ <-]; left; split; [done|]; by intros (_ & _ & _ & _ & ? & _)].
  destruct (ss_may_have_landed s) eqn:Hm; [intros [= _ <-]; left; split; [done|]; by intros (_ & _ & _ & _ & _ & ? & _)|].
  unfold veto_implicit_terminal_without_delivery, implicit_terminal_lacks_delivery.
  case_bool_decide as Hv; [intros [= _ <-]; left; split; [done|]; by intros (_ & _ & _ & _ & _ & _ & ?)|].
  destruct runtime; intros [= _ <-]; [by right|]. left. split; [done|]. by intros (? & _).
Qed.

(** ** Every write of a step *)

Lemma step_writes e w w' x : session_step e w = Some w' → x ∈ new_posts e w' →
  ss_settled (sw_session w) = false ∧
  (ss_may_have_landed (sw_session w) = true → ss_episode (sw_session w) = Some ReclaimOpened → x = WriteDispute) ∧
  ((∃ i v t h, e = Granted i v ∧ sw_waiting w !! i = Some t ∧ x = posted h ∧ writes v t (sw_session w) h) ∨
   (∃ runtime v, e = Dropped runtime v ∧ x = WriteStop ∧ drop_writes_if v runtime (sw_session w))).
Proof.
  intros Hstep Hx. destruct e as [c v|i v|a v|runtime v]; cbn [new_posts] in Hx;
    [by apply elem_of_nil in Hx| |by apply elem_of_nil in Hx|]; cbn [Session.session_step] in Hstep.
  - destruct (sw_holder w); [done|]. destruct (sw_waiting w !! i) as [t|] eqn:Ht; [|done]. cbn in Hstep.
    destruct (run_locked cfg v t (sw_session w)) as [s [h|]] eqn:Hr; injection Hstep as <-; cbn in Hx; [|by apply elem_of_nil in Hx].
    apply list_elem_of_singleton in Hx as ->. pose proof (locked_writes _ _ _ _ _ Hr) as W. pose proof W as (Hs & Hm & _).
    split_and!; [done|done|]. left. by exists i, v, t, h.
  - destruct (sw_dropped w); [done|]. destruct (sw_waiting w); [|done]. destruct (sw_holder w); [done|].
    destruct (drop_session cfg v runtime (sw_session w)) as [s [h|]] eqn:Hr; injection Hstep as <-; cbn in Hx; [|by apply elem_of_nil in Hx].
    apply list_elem_of_singleton in Hx as ->. destruct (drop_writes _ _ _ _ _ Hr) as [[? _]|[[= ->] Hd]]; [done|].
    pose proof Hd as (_ & _ & _ & Hs & _ & Hm & _). split_and!; [done|by rewrite Hm|]. right. by exists runtime, v.
Qed.

(** The writes of a run, from a state in which only some can be made. *)
Lemma run_writes (P : ChainWrite → Prop) (still : SessionWorld → Prop) es w w' :
  (∀ e w w', world_ok cfg w → still w → session_step e w = Some w' → still w' ∧ Forall P (new_posts e w')) →
  world_ok cfg w → still w → session_run es w = Some w' →
  still w' ∧ ∃ l, posts (ss_log (sw_session w')) = posts (ss_log (sw_session w)) ++ l ∧ Forall P l.
Proof.
  intros Hinv. revert w. induction es as [|e es IH]; intros w Hok Hst Hrun; cbn in Hrun.
  { injection Hrun as <-. split; [done|]. exists []. by rewrite app_nil_r. }
  destruct (Session.session_step cfg show_error e w) as [w1|] eqn:Hs; [|done]. destruct (step_spec _ _ _ _ _ Hok Hs) as (Hok1 & _ & Hp & _).
  destruct (Hinv _ _ _ Hok Hst Hs) as [Hst1 HP]. destruct (IH _ Hok1 Hst1 Hrun) as (Hst' & l & Hl & HPl).
  split; [done|]. exists (new_posts e w1 ++ l). rewrite Hl, Hp, app_assoc. split; [done|by apply Forall_app].
Qed.
Lemma settled_steps e w w' : world_ok cfg w → ss_settled (sw_session w) = true → session_step e w = Some w' →
  ss_settled (sw_session w') = true ∧ Forall (λ _, False) (new_posts e w').
Proof.
  intros Hok Hs Hstep. destruct (step_spec _ _ _ _ _ Hok Hstep) as (_ & Hst & _ & _). split; [by apply (sp_grows _ _ Hst)|].
  apply Forall_forall. intros x Hx. destruct (step_writes _ _ _ _ Hstep Hx) as [? _]. congruence.
Qed.
Definition latched w : Prop := ss_may_have_landed (sw_session w) = true ∨ ss_settled (sw_session w) = true.
Lemma latched_steps e w w' : world_ok cfg w → latched w → session_step e w = Some w' → latched w' ∧ Forall (eq WriteDispute) (new_posts e w').
Proof.
  intros Hok Hl Hstep. destruct (step_spec _ _ _ _ _ Hok Hstep) as (_ & Hst & _ & _). split.
  - destruct Hl as [Hl|Hl]; [by apply (sp_latch _ _ Hst)|]. right. by apply (sp_grows _ _ Hst).
  - apply Forall_forall. intros x Hx. destruct (step_writes _ _ _ _ Hstep Hx) as (Hs & Hm & _). symmetry.
    destruct Hl as [Hl|Hl]; [|congruence]. apply Hm; [done|]. by apply (so_latch _ _ (wo_session _ _ Hok)).
Qed.

(** ** What an answer establishes *)

Lemma landed_settles v h settlement s : h ≠ HoldDropBackup → ss_settled (run_answered cfg v h (Landed settlement) s) = true.
Proof.
  intros Hh. assert (∀ s1 s2, keeps cfg True s1 s2 → ss_settled s1 = true → ss_settled s2 = true) as G by (intros s1 s2 K; apply (kp_grows _ _ _ _ K)).
  destruct h; cbn [run_answered]; try done.
  - unfold settle_answered. eapply G; [apply keeps_return_settle|]. eapply G; [apply keeps_recorded|]. done.
  - cbn [cleanup_answered]. eapply G; [apply keeps_return_recover|]. done.
  - cbn [reclaim_answered]. eapply G; [apply keeps_return_recover|]. done.
  - cbn [bail_stop_answered]. eapply G; [apply keeps_return|]. eapply G; [apply keeps_recorded|]. done.
Qed.
Definition is_stop (x : ChainWrite) : bool := match x with WriteStop | WriteStopIfHeartbeat _ => true | _ => false end.
Lemma ambiguous_latches v h m s : is_stop (posted h) = true → h ≠ HoldDropBackup →
  ss_may_have_landed (run_answered cfg v h (Failure (AmbiguousSubmit m)) s) = true.
Proof.
  intros Hs Hh. destruct h; cbn [run_answered posted] in *; try done.
  - unfold settle_answered. by destruct o.
  - cbn [reclaim_answered latch_possibly_landed_stop negb andb]. by destruct o.
Qed.

(** ** Final outcomes *)

(** C11: Once the chain has confirmed a write of the session, the session is settled and closed for
    ever, and whatever calls are waiting or still to come, it never writes to the chain again. *)
Theorem settled_session_is_final es w h settlement v w1 es' w2 :
  session_run es new_world = Some w → sw_holder w = Some h → h ≠ HoldDropBackup →
  session_step (Answered (Landed settlement) v) w = Some w1 → session_run es' w1 = Some w2 →
  ss_settled (sw_session w2) = true ∧ is_closed (sw_session w2) = true ∧ posts (ss_log (sw_session w2)) = posts (ss_log (sw_session w)).
Proof.
  intros Hrun Hh Hd Hstep Hrun'. pose proof (session_reached_ok _ _ _ _ Hrun) as Hok. destruct (step_spec _ _ _ _ _ Hok Hstep) as (Hok1 & _ & Hp & _).
  assert (ss_settled (sw_session w1) = true) as Hs1.
  { cbn [Session.session_step] in Hstep. rewrite Hh in Hstep. cbn in Hstep. destruct (may_answer _ _); [|done].
    injection Hstep as <-. by apply landed_settles. }
  destruct (run_writes (λ _, False) (λ w, ss_settled (sw_session w) = true) _ _ _ settled_steps Hok1 Hs1 Hrun') as (Hs2 & l & Hl & Hf).
  destruct (run_spec _ _ _ _ _ Hok1 Hrun') as [Hok2 _]. destruct (so_settled _ _ (wo_session _ _ Hok2) Hs2) as [Hc _].
  destruct l as [|x l]; [|by inversion Hf]. rewrite app_nil_r in Hl. rewrite Hl, Hp. cbn [new_posts]. by rewrite app_nil_r.
Qed.

(** C10: A STOP that may have landed is never sent again.  After an ambiguous answer to a STOP no
    later call of any task, nor the drop of the session, submits another STOP or a clean-up; only
    a dispute may still be opened. *)
Theorem ambiguous_stop_is_not_repeated es w h m v w1 es' w2 :
  session_run es new_world = Some w → sw_holder w = Some h → is_stop (posted h) = true → h ≠ HoldDropBackup →
  session_step (Answered (Failure (AmbiguousSubmit m)) v) w = Some w1 → session_run es' w1 = Some w2 →
  ∃ later, posts (ss_log (sw_session w2)) = posts (ss_log (sw_session w)) ++ later ∧ Forall (eq WriteDispute) later.
Proof.
  intros Hrun Hh Hstop Hd Hstep Hrun'. pose proof (session_reached_ok _ _ _ _ Hrun) as Hok. destruct (step_spec _ _ _ _ _ Hok Hstep) as (Hok1 & _ & Hp & _).
  assert (latched w1) as Hl1.
  { left. cbn [Session.session_step] in Hstep. rewrite Hh in Hstep. cbn in Hstep. destruct (may_answer _ _); [|done].
    injection Hstep as <-. by apply ambiguous_latches. }
  destruct (run_writes (eq WriteDispute) latched _ _ _ latched_steps Hok1 Hl1 Hrun') as (_ & l & Hl & Hf).
  exists l. split; [|done]. rewrite Hl, Hp. cbn [new_posts]. by rewrite app_nil_r.
Qed.

(** ** Decisions *)

(** The task of a decision that somebody made about this deal: an explicit settlement, or the swap
    of its route.  The others write nothing. *)
Definition decided (t : Task) : bool :=
  match t with
  | TSettle _ None _ | TSettle _ _ RouteSwap => true
  | TSettle _ _ _ | TCleanup _ _ _ | TReclaim _ _ _ _ _ | TDispute _ _ | TBail _ => false
  | _ => true
  end.
Lemma preserve_preserves v category action s : sc_lifetime cfg = Preserve → (preserve_without_implicit_chain_write cfg v category action s).1 = true.
Proof. intros Hl. unfold preserve_without_implicit_chain_write. destruct (unresolved_usage cfg v s) as [[] s1]; [done|]. by rewrite Hl. Qed.
Lemma preserved_recovery v s : sc_lifetime cfg = Preserve →
  (∀ b category o, (recover_cleanup_unopened cfg v b category o s).2 = None) ∧
  (∀ hb b category action o, (recover_reclaim_opened cfg v hb b category action o s).2 = None).
Proof.
  intros Hl. split; intros; [unfold recover_cleanup_unopened|unfold recover_reclaim_opened];
    match goal with |- context [preserve_without_implicit_chain_write cfg ?v ?c ?a ?s] =>
      pose proof (preserve_preserves v c a s Hl) as H; by destruct (preserve_without_implicit_chain_write cfg v c a s) as [[] s1] end.
Qed.
Lemma preserved_calls v c s t : sc_lifetime cfg = Preserve → (call cfg show_error v c s).2 = Some t → decided t = true.
Proof.
  intros Hl. destruct (preserved_recovery v s Hl) as [Hclean Hreclaim].
  destruct c; cbn [call]; intros H; try (by injection H as <-); try done.
  - unfold settle_on_exit in H. destruct (unresolved_usage cfg v s) as [[] s1]; [done|]. rewrite Hl in H.
    by destruct (preserve_without_implicit_chain_write _ _ _ _ s1).
  - unfold replace_active in H. destruct (unresolved_usage cfg v s) as [[] s1]; [done|]. destruct (implicit_terminal_lacks_delivery v); [done|].
    by injection H as <-.
  - by rewrite Hclean in H.
  - by rewrite Hreclaim in H.
  - unfold settle_verification_bail in H. destruct (keeps_open _ _); [done|].
    set (action := Some _) in H. pose proof (preserve_preserves v VerificationBail action s Hl) as Hp.
    by destruct (preserve_without_implicit_chain_write _ _ _ _ s) as [[] s1].
  - unfold settle_dead_gateway, policy_seller_timeout in H. destruct (fp_dead_gateway _); try done; try (by injection H as <-). by rewrite Hreclaim in H.
  - unfold settle_empty_stream, policy_seller_timeout in H. destruct (fp_empty_stream _); try done; try (by injection H as <-). by rewrite Hreclaim in H.
  - unfold settle_seller_stalls_mid_stream, policy_seller_timeout, policy_dispute in H. destruct (fp_seller_stalls_mid_stream _); try done; [by rewrite Hreclaim in H|].
    set (class := failure_class _) in H. set (action := Some _) in H. pose proof (preserve_preserves v class action s Hl) as Hp.
    by destruct (preserve_without_implicit_chain_write _ _ _ _ s) as [[] s1].
  - unfold check_open_for_serving in H. destruct read as [[state|]|e]; [|by injection H as <-|destruct e; try done; by injection H as <-].
    destruct (_ && _); [by destruct (unresolved_usage cfg v s)|]. destruct (if is_stopped state then _ else _) as [category s1].
    unfold fail_closed_unopened_before_serving in H. destruct (preserved_recovery v s1 Hl) as [Hclean1 _].
    destruct (unopened_cleanup_decision state (vw_now v)) as [[]|]; try (by injection H as <-). by rewrite Hclean1 in H.
  - by destruct (mark_recovered cfg v s).
  - by destruct (close_recovery_episode cfg v kind s).
  - by destruct (ensure_paid_phase cfg v s).
  - by destruct (closed_rejection cfg v request_id s).
Qed.
Lemma preserved_waiting es w t : sc_lifetime cfg = Preserve → session_run es new_world = Some w → t ∈ sw_waiting w → decided t = true.
Proof.
  intros Hl. assert (∀ w0, (∀ t, t ∈ sw_waiting w0 → decided t = true) → session_run es w0 = Some w → ∀ t, t ∈ sw_waiting w → decided t = true) as G;
    [|intros Hrun; apply (G new_world); [by intros ? ?%elem_of_nil|done]].
  clear t. induction es as [|e es IH]; intros w0 Hw Hrun; cbn in Hrun; [by injection Hrun as <-|].
  destruct (Session.session_step cfg show_error e w0) as [w1|] eqn:Hs; [|done]. apply (IH w1); [|done]. clear IH Hrun.
  destruct e as [c v|i v|a v|runtime v]; cbn [Session.session_step] in Hs.
  - destruct (sw_dropped w0); [done|]. pose proof (preserved_calls v c (sw_session w0)) as Hc.
    destruct (call cfg show_error v c (sw_session w0)) as [s [t|]]; injection Hs as <-; cbn; intros t' [?|Hin]%elem_of_app; auto;
      [apply list_elem_of_singleton in Hin as ->; auto|by apply elem_of_nil in Hin].
  - destruct (sw_holder w0); [done|]. destruct (sw_waiting w0 !! i); [|done]. cbn in Hs. destruct (run_locked _ _ _ _). injection Hs as <-.
    intros t' Ht'. apply Hw. eapply elem_of_submseteq; [exact Ht'|apply submseteq_delete].
  - destruct (sw_holder w0) as [h|]; [|done]. cbn in Hs. destruct (may_answer _ _); [|done]. by injection Hs as <-.
  - destruct (sw_dropped w0); [done|]. destruct (sw_waiting w0); [|done]. destruct (sw_holder w0); [done|].
    destruct (drop_session _ _ _ _). injection Hs as <-. by intros ? ?%elem_of_nil.
Qed.

(** C12: No money moves without a decision.  A write to the chain that a session makes while output
    has no reconciled usage is the explicit settlement somebody asked for; a session whose deal is
    to be preserved writes only for an explicit settlement or the swap of its route.  The drop of a
    session sends a STOP exactly if there is a runtime to send it, usage is reconciled, the deal is
    not to be preserved, the session is not settled, its backup is armed, no earlier STOP may have
    landed, and no counter of delivered tokens shows that the deal delivered nothing. *)
Theorem writes_are_decided es w e w' :
  session_run es new_world = Some w → session_step e w = Some w' →
  (∀ x, x ∈ new_posts e w' →
    (∃ i v t, e = Granted i v ∧ sw_waiting w !! i = Some t ∧
       (usage_pending v (sw_session w) = true → ∃ reason o, t = TSettle reason None o) ∧
       (sc_lifetime cfg = Preserve → ∃ reason hb o, t = TSettle reason hb o ∧ (hb = None ∨ o = RouteSwap))) ∨
    (∃ runtime v, e = Dropped runtime v)) ∧
  (∀ runtime v, e = Dropped runtime v → let s := sw_session w in
     (WriteStop ∈ new_posts e w' ↔
        runtime = true ∧ usage_pending v s = false ∧ sc_lifetime cfg = SettleOnExit ∧ ss_settled s = false ∧
        ss_drop_backup s = true ∧ ss_may_have_landed s = false ∧ vw_delivered v ≠ Some 0) ∧
     (∀ x, x ∈ new_posts e w' → x = WriteStop)).
Proof.
  intros Hrun Hstep. split.
  - intros x Hx. destruct (step_writes _ _ _ _ Hstep Hx) as (_ & _ & [(i & v & t & h & -> & Ht & -> & W)|(? & ? & -> & _)]); [|by right; eauto].
    left. exists i, v, t. destruct W as (_ & _ & Hp). split_and!; [done|done|done|]. intros Hl.
    assert (decided t = true) as Hd by (eapply preserved_waiting; [done|done|by eapply list_elem_of_lookup_2]).
    destruct t as [reason hb o| | | | | | | |]; try done; cbn [Session.session_step] in Hstep.
    2-5: destruct (sw_holder w); [done|]; rewrite Ht in Hstep; cbn in Hstep; injection Hstep as <-; by apply elem_of_nil in Hx.
    exists reason, hb, o. split; [done|]. destruct hb; [|by left]. right. by destruct o.
  - intros runtime v -> s. split.
    + cbn [Session.session_step] in Hstep. destruct (sw_dropped w); [done|]. destruct (sw_waiting w); [|done]. destruct (sw_holder w); [done|].
      destruct (drop_session cfg v runtime (sw_session w)) as [s' h] eqn:Hr. injection Hstep as <-. cbn.
      destruct (drop_writes _ _ _ _ _ Hr) as [[-> Hd]|[-> Hd]]; cbn.
      * split; [by intros ?%elem_of_nil|]. intros H. by destruct Hd.
      * split; [done|]. intros _. apply list_elem_of_here.
    + intros x Hx. by destruct (step_writes _ _ _ _ Hstep Hx) as (_ & _ & [(? & ? & ? & ? & ? & _)|(? & ? & _ & ? & _)]).
Qed.

(** An implicit end of a deal that delivered nothing asks for no write. *)
Theorem implicit_ends_need_delivery v s : vw_delivered v = Some 0 →
  (∀ reason, (call cfg show_error v (CallSettleOnExit reason) s).2 = None) ∧
  (∀ reason hb, (call cfg show_error v (CallReplaceActive reason hb) s).2 = None) ∧
  (∀ runtime, (drop_session cfg v runtime s).2 = None).
Proof.
  intros Hv. cbn [call]. split_and!; intros.
  - unfold settle_on_exit, veto_implicit_terminal_without_delivery, implicit_terminal_lacks_delivery. rewrite bool_decide_eq_true_2 by done.
    destruct (unresolved_usage cfg v s) as [[] s1]; [done|]. destruct (sc_lifetime cfg); [done|].
    by destruct (preserve_without_implicit_chain_write _ _ _ _ s1).
  - unfold replace_active, implicit_terminal_lacks_delivery. rewrite bool_decide_eq_true_2 by done.
    by destruct (unresolved_usage cfg v s) as [[] s1].
  - destruct (drop_session cfg v runtime s) as [s' [h|]] eqn:H; [|done].
    destruct (drop_writes _ _ _ _ _ H) as [[? _]|[_ (_ & _ & _ & _ & _ & _ & Hn)]]; [done|]. by destruct Hn.
Qed.

(** ** What a client is told *)

Lemma evidence_in_run es w : session_run es new_world = Some w → ss_known_chain_state (sw_session w) = Some KnownTerminal →
  ∃ es1 e es2 w1, es = es1 ++ e :: es2 ∧ session_run es1 new_world = Some w1 ∧ terminal_evidence cfg e w1 = true.
Proof.
  revert w. induction es as [|e es IH] using rev_ind; intros w Hrun Hk; [by injection Hrun as <-|].
  rewrite session_run_app in Hrun. destruct (Session.session_run cfg show_error es new_world) as [w1|] eqn:Hes; [|done]. cbn in Hrun.
  destruct (Session.session_step cfg show_error e w1) as [w2|] eqn:Hs; [|done]. injection Hrun as ->.
  destruct (step_spec _ _ _ _ _ (session_reached_ok _ _ _ _ Hes) Hs) as (_ & _ & _ & Hkn).
  destruct (Hkn Hk) as [Hk1|He]; [|by exists es, e, [], w1].
  destruct (IH w1 eq_refl Hk1) as (es1 & e1 & es2 & w3 & -> & Hr & He). exists es1, e1, (es2 ++ [e]), w3. by rewrite <- app_assoc.
Qed.

(** C39: A client is sent to buy anew only when the deal is over.  If the refusal of a closed session
    advises a new purchase, then at some earlier step the chain had confirmed a terminal write of this
    session, or a read of the chain had shown that the deal is over. *)
Theorem new_purchase_is_evidenced es w v request_id r :
  session_run es new_world = Some w → (closed_rejection cfg v request_id (sw_session w)).1 = Some (RejectClosed r) →
  rj_action r = "new_purchase"%string →
  ∃ es1 e es2 w1, es = es1 ++ e :: es2 ∧ session_run es1 new_world = Some w1 ∧ terminal_evidence cfg e w1 = true.
Proof.
  intros Hrun Hrej Hact. apply (evidence_in_run _ w Hrun). pose proof (wo_session _ _ (session_reached_ok _ _ _ _ Hrun)) as Hok.
  assert (rj_state r = TerminalConfirmed ∧ rj_state r = known_state (sw_session w)) as [Hst Hks].
  { unfold closed_rejection in Hrej. destruct (ss_closure (sw_session w)) as [closure|]; [|done].
    destruct (if match known_state _ with TerminalConfirmed | RecoveryDisputed => true | _ => false end then _ else _) as [[] s1]; [done|].
    injection Hrej as <-. cbn [rj_state rj_action] in *. split; [|done].
    destruct (known_state (sw_session w)); cbn in Hact; try done. by case_bool_decide. }
  rewrite Hst in Hks. unfold known_state in Hks.
  destruct (ss_known_chain_state (sw_session w)) as [[]|] eqn:Hk; [done|done|].
  destruct (ss_settled (sw_session w)) eqn:Hs.
  - destruct (so_settled _ _ Hok Hs) as (_ & _ & [? Hk'] & _). congruence.
  - destruct (ss_may_have_landed (sw_session w)); [done|]. pose proof (so_attempt _ _ Hok) as Ha. by rewrite <- Hks in Ha.
Qed.

(** ** An explicit STOP *)

Definition explicit_stop (reason : string) w v1 v2 v3 (a : ChainAnswer) : list SessionEvent :=
  [Called (CallSettle reason) v1; Granted (length (sw_waiting w)) v2; Answered a v3].
Lemma session_run_cons e es w w1 : session_step e w = Some w1 → session_run (e :: es) w = session_run es w1.
Proof. intros H. cbn [Session.session_run]. by rewrite H. Qed.
Lemma explicit_stop_runs reason w v1 v2 v3 a :
  sw_dropped w = false → sw_holder w = None → ss_settled (sw_session w) = false → ss_may_have_landed (sw_session w) = false →
  may_answer WriteStop a = true →
  session_run (explicit_stop reason w v1 v2 v3 a) w = Some {|
    sw_session := settle_answered cfg v3 reason None Direct a (emit_s (Posted WriteStop) (close_for_settle cfg v2 (sw_session w)));
    sw_waiting := sw_waiting w; sw_holder := None; sw_dropped := false |}.
Proof.
  destruct w as [s waiting holder dropped]. cbn [sw_session sw_waiting sw_holder sw_dropped]. intros -> -> Hs Hm Ha.
  unfold explicit_stop. erewrite session_run_cons by reflexivity. cbn [sw_session sw_waiting sw_holder sw_dropped option_list].
  assert (run_locked cfg v2 (TSettle reason None Direct) s =
    (emit_s (Posted WriteStop) (close_for_settle cfg v2 s), Some (HoldSettle reason None Direct))) as Hl.
  { cbn [run_locked]. unfold settle_locked, may_have_landed_for. by rewrite Hs, Hm, andb_false_r. }
  rewrite (session_run_cons _ _ _ {| sw_session := emit_s (Posted WriteStop) (close_for_settle cfg v2 s); sw_waiting := waiting;
    sw_holder := Some (HoldSettle reason None Direct); sw_dropped := false |}).
  - erewrite session_run_cons; [reflexivity|]. cbn. by destruct a.
  - cbn [Session.session_step sw_holder sw_waiting sw_session sw_dropped]. rewrite lookup_app_r, Nat.sub_diag by done. cbn [lookup list_lookup].
    cbn -[run_locked delete]. rewrite Hl. cbn -[delete]. by rewrite delete_middle, app_nil_r.
Qed.

(** A settlement that finds an earlier STOP undecided runs up to the lock and ends. *)
Definition refused_stop (reason : string) w v1 v2 : list SessionEvent :=
  [Called (CallSettle reason) v1; Granted (length (sw_waiting w)) v2].
Lemma refused_stop_runs reason w v1 v2 :
  sw_dropped w = false → sw_holder w = None → ss_settled (sw_session w) = false →
  ss_may_have_landed (sw_session w) = true → ss_episode (sw_session w) = Some ReclaimOpened →
  session_run (refused_stop reason w v1 v2) w = Some {|
    sw_session := return_ (RSettle (Err (ambiguous_stop cfg))) (sw_session w);
    sw_waiting := sw_waiting w; sw_holder := None; sw_dropped := false |}.
Proof.
  destruct w as [s waiting holder dropped]. cbn [sw_session sw_waiting sw_holder sw_dropped]. intros -> -> Hs Hm He.
  unfold refused_stop. erewrite session_run_cons by reflexivity. cbn [sw_session sw_waiting sw_holder sw_dropped option_list].
  assert (run_locked cfg v2 (TSettle reason None Direct) s = (return_ (RSettle (Err (ambiguous_stop cfg))) s, None)) as Hl.
  { cbn [run_locked]. unfold settle_locked, may_have_landed_for. by rewrite Hs, Hm, He. }
  erewrite session_run_cons; [reflexivity|].
  cbn [Session.session_step sw_holder sw_waiting sw_session sw_dropped]. rewrite lookup_app_r, Nat.sub_diag by done. cbn [lookup list_lookup].
  cbn -[run_locked delete]. rewrite Hl. cbn -[delete]. by rewrite delete_middle, app_nil_r.
Qed.

Lemma failed_stop_latches v reason e s : ss_may_have_landed s = false →
  ss_may_have_landed (settle_answered cfg v reason None Direct (Failure e) s) = true ↔ ∃ m, e = AmbiguousSubmit m.
Proof. intros Hm. split; [|by intros [m ->]]. destruct e; cbn; rewrite ?Hm; try done. by eauto. Qed.

(** C13: What an explicit settlement of an unsettled session does, when nobody holds the lock.
    Unless an earlier STOP may have landed, it sends a STOP: if that lands, the caller is told so
    and the session is settled and closed; if it fails without ambiguity, serving stays closed
    and the settlement can be tried again; if the answer is ambiguous, it is not tried again, as
    the STOP may have landed.  While an earlier STOP may have landed, the settlement writes
    nothing, leaves the session as it is and tells the caller so. *)
Theorem explicit_stop_settles es w reason v1 v2 v3 :
  session_run es new_world = Some w → sw_dropped w = false → sw_holder w = None → ss_settled (sw_session w) = false →
  let sent w' := is_closed (sw_session w') = true ∧ posts (ss_log (sw_session w')) = posts (ss_log (sw_session w)) ++ [WriteStop] ∧
    sw_dropped w' = false ∧ sw_holder w' = None in
  let told w' r := last (ss_log (sw_session w')) = Some (Returned (RSettle r)) in
  (ss_may_have_landed (sw_session w) = false →
     (∀ settlement, ∃ w', session_run (explicit_stop reason w v1 v2 v3 (Landed settlement)) w = Some w' ∧
        sent w' ∧ told w' (Ok true) ∧ ss_settled (sw_session w') = true) ∧
     (∀ e, ∃ w', session_run (explicit_stop reason w v1 v2 v3 (Failure e)) w = Some w' ∧
        sent w' ∧ told w' (Err e) ∧ ss_settled (sw_session w') = false ∧
        (ss_may_have_landed (sw_session w') = true ↔ ∃ m, e = AmbiguousSubmit m))) ∧
  (ss_may_have_landed (sw_session w) = true → ∃ w', session_run (refused_stop reason w v1 v2) w = Some w' ∧
     told w' (Err (ambiguous_stop cfg)) ∧ posts (ss_log (sw_session w')) = posts (ss_log (sw_session w)) ∧
     set_ss_log (ss_log (sw_session w)) (sw_session w') = sw_session w ∧ sw_dropped w' = false ∧ sw_holder w' = None).
Proof.
  intros Hrun Hd Hh Hs sent told. pose proof (session_reached_ok _ _ _ _ Hrun) as Hok. split.
  2:{ intros Hm. destruct (so_latch _ _ (wo_session _ _ Hok) Hm) as [He _].
      eexists. split; [by apply refused_stop_runs|]. unfold told, return_, emit_s. cbn [sw_session sw_holder sw_dropped ss_log set_ss_log].
      split; [apply last_snoc|]. split; [by rewrite posts_app, app_nil_r|]. split; [by destruct (sw_session w)|done]. }
  intros Hm. set (s0 := emit_s (Posted WriteStop) (close_for_settle cfg v2 (sw_session w))).
  destruct (keeps_close_for_settle cfg True v2 (sw_session w)) as (K & Hc & Hs0). rewrite Hs in Hs0.
  assert (posts (ss_log s0) = posts (ss_log (sw_session w)) ++ [WriteStop]) as Hp
    by (change (ss_log s0) with (ss_log (close_for_settle cfg v2 (sw_session w)) ++ [Posted WriteStop]); rewrite posts_app; by rewrite (kp_posts _ _ _ _ K)).
  assert (∀ a, follows cfg True s0 (settle_answered cfg v3 reason None Direct a s0)) as F by (intros a; by apply follows_settle).
  split.
  - intros settlement. pose proof (explicit_stop_runs reason w v1 v2 v3 (Landed settlement) Hd Hh Hs Hm eq_refl) as Hr.
    eexists. split; [exact Hr|]. destruct (run_spec _ _ _ _ _ Hok Hr) as [Hok' _]. unfold sent, told. cbn [sw_session sw_holder sw_dropped] in *.
    assert (ss_settled (settle_answered cfg v3 reason None Direct (Landed settlement) s0) = true) as Hset
      by (by apply (landed_settles v3 (HoldSettle reason None Direct))).
    split_and!; [by apply (so_settled _ _ (wo_session _ _ Hok'))|by rewrite (fw_posts _ _ _ _ (F _))|done|done| |done].
    cbn [settle_answered return_settle return_ emit_s ss_log set_ss_log]. apply last_snoc.
  - intros e. eexists. split; [by apply explicit_stop_runs|]. unfold sent, told. cbn [sw_session sw_holder sw_dropped]. fold s0.
    assert (posts (ss_log (settle_answered cfg v3 reason None Direct (Failure e) s0)) = posts (ss_log (sw_session w)) ++ [WriteStop]) as Hp'
      by (etrans; [apply (fw_posts _ _ _ _ (F (Failure e)))|exact Hp]).
    assert (ss_may_have_landed s0 = false) as Hm0 by (by apply (kp_unlatched _ _ _ _ K)).
    split; [split_and!; [|exact Hp'|done|done]|split_and!].
    + by destruct e.
    + cbn [settle_answered return_settle return_ emit_s ss_log set_ss_log]. apply last_snoc.
    + by destruct e.
    + by apply failed_stop_latches.
Qed.
End Writes.

(** ** The calls of a request *)

(** What a request asks of its session (BuyerAnswer.v). *)
Definition session_call (e : Effect) : option SessionCall :=
  match e with
  | SettleVerificationBail reason => Some (CallVerificationBail reason)
  | SettleDeadGateway reason guard => Some (CallDeadGateway reason guard)
  | SettleEmptyStream reason guard => Some (CallEmptyStream reason guard)
  | SettleSellerStalls reason guard => Some (CallSellerStalls reason guard)
  | DropBackupDisabled => Some CallPauseUnresolved
  | RecoveryEpisodeClosed => Some (CallCloseRecoveryEpisode ReclaimOpened)
  | _ => None
  end.
Definition keep_open_policy : BuyerApiFailurePolicy := {|
  fp_verification_bail := BailKeepOpen; fp_dead_gateway := DeadKeepOpen; fp_empty_stream := EmptyKeepOpen;
  fp_seller_stalls_mid_stream := StallsKeepOpen |}.
(** Under [keep_open] a failure ends with its request: nothing a request asks of the session waits
    for the lock, so it writes nothing to the chain. *)
Theorem keep_open_writes_nothing cfg show_error v e c s :
  sc_policy cfg = keep_open_policy → session_call e = Some c → (call cfg show_error v c s).2 = None.
Proof.
  intros Hp. destruct e; intros [= <-]; cbn [call]; try done.
  - unfold settle_verification_bail. by rewrite Hp.
  - unfold settle_dead_gateway. by rewrite Hp.
  - unfold settle_empty_stream. by rewrite Hp.
  - unfold settle_seller_stalls_mid_stream. by rewrite Hp.
  - by destruct (close_recovery_episode cfg v ReclaimOpened s).
Qed.

(** ** A session *)

Definition sample_policy : BuyerApiFailurePolicy := {|
  fp_verification_bail := BailStop; fp_dead_gateway := RetryThenReclaim; fp_empty_stream := EmptyReclaim;
  fp_seller_stalls_mid_stream := AcceptDeliveredThenReclaim |}.
Definition sample_session (lifetime : SessionLifetimePolicy) : SessionConfig := {|
  sc_token_contract := "0:1"; sc_policy := sample_policy; sc_lifetime := lifetime; sc_usage_quota := true; sc_recorder := true |}.
Definition sample_show (_ : ChainError) : text := [].
Definition sample_view : View := {| vw_store := false; vw_delivered := Some 5; vw_now := 0; vw_closure_id := "c1" |}.
Definition sample_world (lifetime : SessionLifetimePolicy) (es : list SessionEvent) : SessionWorld :=
  match session_run (sample_session lifetime) sample_show es new_world with Some w => w | None => new_world end.
Definition asked_to_settle : list SessionEvent := [Called (CallSettle "explicit-user-stop") sample_view; Granted 0 sample_view].
Definition landed : SessionEvent := Answered (Landed (AmicableSplit 1 2)) sample_view.
(** What others try afterwards. *)
Definition later_calls : list SessionEvent :=
  [Called (CallVerificationBail "verify-bail") sample_view; Granted 0 sample_view;
   Called (CallSettleOnExit "shutdown") sample_view; Granted 0 sample_view; Dropped true sample_view].

Example sample_settles : let w := sample_world SettleOnExit (asked_to_settle ++ [landed]) in
  (ss_settled (sw_session w), ss_log (sw_session w)) =
  (true, [QuotaClosed; Posted WriteStop; QuotaClosed; Returned (RSettle (Ok true))]).
Proof. vm_compute. reflexivity. Qed.
Lemma settled_session_is_final_witness :
  let w2 := sample_world SettleOnExit (asked_to_settle ++ [landed] ++ later_calls) in
  ss_settled (sw_session w2) = true ∧ is_closed (sw_session w2) = true ∧
  posts (ss_log (sw_session w2)) = posts (ss_log (sw_session (sample_world SettleOnExit asked_to_settle))).
Proof.
  apply (settled_session_is_final (sample_session SettleOnExit) sample_show asked_to_settle (sample_world SettleOnExit asked_to_settle)
    (HoldSettle "explicit-user-stop" None Direct) (AmicableSplit 1 2) sample_view (sample_world SettleOnExit (asked_to_settle ++ [landed]))
    later_calls); try (vm_compute; reflexivity). discriminate.
Defined.

(** The gateway was dead and the answer to the STOP is ambiguous: the settlement is refused, the drop is silent. *)
Definition reclaiming : list SessionEvent :=
  [Called (CallDeadGateway "dead-gateway" (HeartbeatGuard_new 3)) sample_view; Granted 0 sample_view].
Definition ambiguous : SessionEvent := Answered (Failure (AmbiguousSubmit [])) sample_view.
Lemma ambiguous_stop_is_not_repeated_witness :
  let w2 := sample_world SettleOnExit (reclaiming ++ [ambiguous] ++ asked_to_settle ++ [Dropped true sample_view]) in
  ∃ later, posts (ss_log (sw_session w2)) = posts (ss_log (sw_session (sample_world SettleOnExit reclaiming))) ++ later ∧
    Forall (eq WriteDispute) later.
Proof.
  apply (ambiguous_stop_is_not_repeated (sample_session SettleOnExit) sample_show reclaiming (sample_world SettleOnExit reclaiming)
    (HoldReclaim (HeartbeatGuard_new 3) true NotAttempted (SellerTimeout "dead_gateway" "retry_then_reclaim" "dead-gateway")) [] sample_view
    (sample_world SettleOnExit (reclaiming ++ [ambiguous])) (asked_to_settle ++ [Dropped true sample_view]));
    try (vm_compute; reflexivity). discriminate.
Defined.
Example ambiguous_then_silent :
  let w2 := sample_world SettleOnExit (reclaiming ++ [ambiguous] ++ asked_to_settle ++ [Dropped true sample_view]) in
  posts (ss_log (sw_session w2)) = [WriteStopIfHeartbeat (HeartbeatGuard_new 3)] ∧ sw_dropped w2 = true.
Proof. vm_compute. split; reflexivity. Qed.

(** A preserved deal with unresolved usage: the explicit settlement alone writes. *)
Definition paused : list SessionEvent :=
  [Called CallPauseUnresolved sample_view; Called (CallDeadGateway "dead-gateway" (HeartbeatGuard_new 3)) sample_view;
   Called (CallSettle "explicit-user-stop") sample_view].
Lemma writes_are_decided_witness :
  let w := sample_world Preserve paused in
  WriteStop ∈ new_posts (Granted 0 sample_view) (sample_world Preserve (paused ++ [Granted 0 sample_view])) ∧
  ((∃ i v t, Granted 0 sample_view = Granted i v ∧ sw_waiting w !! i = Some t ∧
     (usage_pending (sample_session Preserve) v (sw_session w) = true → ∃ reason o, t = TSettle reason None o) ∧
     (sc_lifetime (sample_session Preserve) = Preserve → ∃ reason hb o, t = TSettle reason hb o ∧ (hb = None ∨ o = RouteSwap))) ∨
   (∃ runtime v, Granted 0 sample_view = Dropped runtime v)).
Proof.
  assert (WriteStop ∈ new_posts (Granted 0 sample_view) (sample_world Preserve (paused ++ [Granted 0 sample_view]))) as Hx
    by (vm_compute; apply list_elem_of_here).
  split; [exact Hx|]. revert Hx.
  apply (proj1 (writes_are_decided (sample_session Preserve) sample_show paused (sample_world Preserve paused) (Granted 0 sample_view)
    (sample_world Preserve (paused ++ [Granted 0 sample_view])) ltac:(vm_compute; reflexivity) ltac:(vm_compute; reflexivity))).
Defined.
(** A session without a counter of delivered tokens, as the one-shot command line has it, sends the
    backup STOP although nothing was delivered; with the counter at zero it does not. *)
Definition view_of (delivered : option Z) : View :=
  {| vw_store := false; vw_delivered := delivered; vw_now := 0; vw_closure_id := "c1" |}.
Example drop_without_a_counter :
  posts (ss_log (sw_session (sample_world SettleOnExit [Dropped true (view_of None)]))) = [WriteStop] ∧
  posts (ss_log (sw_session (sample_world SettleOnExit [Dropped true (view_of (Some 0))]))) = [].
Proof. vm_compute. split; reflexivity. Qed.

Lemma new_purchase_is_evidenced_witness :
  ∃ es1 e es2 w1, asked_to_settle ++ [landed] = es1 ++ e :: es2 ∧
    session_run (sample_session SettleOnExit) sample_show es1 new_world = Some w1 ∧
    terminal_evidence (sample_session SettleOnExit) e w1 = true.
Proof.
  eapply (new_purchase_is_evidenced (sample_session SettleOnExit) sample_show (asked_to_settle ++ [landed])
    (sample_world SettleOnExit (asked_to_settle ++ [landed])) sample_view "r1"); vm_compute; reflexivity.
Defined.

Lemma explicit_stop_settles_witness :
  let w := sample_world SettleOnExit [] in
  ∃ w', session_run (sample_session SettleOnExit) sample_show
      (explicit_stop "explicit-user-stop" w sample_view sample_view sample_view (Landed (AmicableSplit 1 2))) w = Some w' ∧
    (is_closed (sw_session w') = true ∧ posts (ss_log (sw_session w')) = posts (ss_log (sw_session w)) ++ [WriteStop] ∧
     sw_dropped w' = false ∧ sw_holder w' = None) ∧
    last (ss_log (sw_session w')) = Some (Returned (RSettle (Ok true))) ∧ ss_settled (sw_session w') = true.
Proof.
  exact (proj1 (proj1 (explicit_stop_settles (sample_session SettleOnExit) sample_show [] (sample_world SettleOnExit []) "explicit-user-stop"
    sample_view sample_view sample_view ltac:(vm_compute; reflexivity) ltac:(vm_compute; reflexivity) ltac:(vm_compute; reflexivity)
    ltac:(vm_compute; reflexivity)) ltac:(vm_compute; reflexivity)) (AmicableSplit 1 2)).
Defined.
