(* ===== verification/Continuity.v ===== *)
(** * The planner of a buyer's deals

    crates/dexdo/src/buyer/continuity.rs: [BuyerContinuity] turns the facts of the current deal and
    of a deal that is ready to follow it into one action.  The monitor that reads the facts and
    carries the action out (cli/buyer.rs) is outside; what it may do to the planner between two
    ticks is a [PlannerOp].  The properties are about every sequence of such operations.  The ticks
    without a current deal are not bounded: under demand each of them buys. *)
From S2P Require Import Prelude RustText Params DealTypes.

(** ** Data *)

Inductive BuyerRunMode : Type := OneShot | Service.
Inductive BuyerLifecycle : Type := ExitAfterCurrentDeal | KeepServingAndRenew.
Definition lifecycle_for_mode (mode : BuyerRunMode) : BuyerLifecycle :=
  match mode with OneShot => ExitAfterCurrentDeal | Service => KeepServingAndRenew end.

Inductive DealOwner : Type := ThisBuyer | WrongBuyer.
#[export] Instance DealOwner_eq_dec : EqDecision DealOwner.
Proof. solve_decision. Defined.
Inductive PlannedPhase : Type :=
| FundedNeverOpened (funded_age_secs : Z) | OpenedFor (idle_secs : Z) | HandoverReady | ClosedDeal.
Record DealFacts : Type := {
  df_token_contract : string; df_owner : DealOwner; df_phase : PlannedPhase; df_remaining_tokens : option Z;
}.
Definition facts_of (token_contract : string) (phase : PlannedPhase) (remaining : option Z) : DealFacts :=
  {| df_token_contract := token_contract; df_owner := ThisBuyer; df_phase := phase; df_remaining_tokens := remaining |}.
Definition facts_open (token_contract : string) (remaining_tokens : Z) : DealFacts :=
  facts_of token_contract (OpenedFor 0) (Some remaining_tokens).
Definition facts_handover_ready (token_contract : string) (remaining_tokens : Z) : DealFacts :=
  facts_of token_contract HandoverReady (Some remaining_tokens).
Definition facts_funded_never_opened (token_contract : string) (age : Z) : DealFacts :=
  facts_of token_contract (FundedNeverOpened age) None.
Definition facts_opened_idle (token_contract : string) (idle_secs : Z) : DealFacts := facts_of token_contract (OpenedFor idle_secs) None.
Definition facts_closed (token_contract : string) : DealFacts := facts_of token_contract ClosedDeal None.
Definition wrong_owner (d : DealFacts) : DealFacts :=
  {| df_token_contract := df_token_contract d; df_owner := WrongBuyer; df_phase := df_phase d; df_remaining_tokens := df_remaining_tokens d |}.

Inductive BuyerAction : Type :=
| ServeCurrent (token_contract : string)
| PrepareNextDeal (current : string)
| SwitchToNextDeal (previous next : string)
| CleanupUnopenedDeal (token_contract : string)
| PlaceNextDeal (reason : string)
| IgnoreStale (token_contract : string)
| FailClosed (token_contract reason : string)
| Noop (reason : string).

Inductive ConsumerDemand : Type := Idle | ActiveOrRecent.
Definition is_active_or_recent (d : ConsumerDemand) : bool := match d with ActiveOrRecent => true | Idle => false end.
Inductive ContinuityMode : Type := Off | Proactive | OnDemand.
Definition planner_demand (mode : ContinuityMode) (observed : ConsumerDemand) : ConsumerDemand :=
  match mode with Off => Idle | Proactive => ActiveOrRecent | OnDemand => observed end.

Definition BUYER_RENEWAL_THRESHOLD_TOKENS : Z := 64.
Record ContinuityConfig : Type := { cc_renewal_threshold_tokens : Z; cc_match_open_timeout_secs : Z }.
Definition ContinuityConfig_default : ContinuityConfig :=
  {| cc_renewal_threshold_tokens := BUYER_RENEWAL_THRESHOLD_TOKENS; cc_match_open_timeout_secs := MATCH_OPEN_TIMEOUT_SECS |}.

Record BuyerContinuity : Type := { bc_stale : gset string; bc_pending_after : gmap string string }.
Definition BuyerContinuity_default : BuyerContinuity := {| bc_stale := ∅; bc_pending_after := ∅ |}.
Definition set_bc_stale (v : gset string) (c : BuyerContinuity) : BuyerContinuity :=
  {| bc_stale := v; bc_pending_after := bc_pending_after c |}.
Definition set_bc_pending_after (v : gmap string string) (c : BuyerContinuity) : BuyerContinuity :=
  {| bc_stale := bc_stale c; bc_pending_after := v |}.

(** ** The operations *)

Definition note_pending_next (current next : string) (c : BuyerContinuity) : BuyerContinuity :=
  set_bc_pending_after (<[current := next]> (bc_pending_after c)) c.
Definition clear_pending_next (current : string) (c : BuyerContinuity) : BuyerContinuity :=
  set_bc_pending_after (delete current (bc_pending_after c)) c.
Definition keep_active (current : string) (c : BuyerContinuity) : BuyerContinuity := set_bc_stale (bc_stale c ∖ {[current]}) c.
Definition is_pending (current : string) (c : BuyerContinuity) : bool := bool_decide (is_Some (bc_pending_after c !! current)).
Definition is_stale (current : string) (c : BuyerContinuity) : bool := bool_decide (current ∈ bc_stale c).

(** A renewal of [current]: the common part of its two cases. *)
Definition renew (current : string) (demand : ConsumerDemand) (idle : string) (action : BuyerAction) (c : BuyerContinuity)
    : BuyerAction * BuyerContinuity :=
  if negb (is_active_or_recent demand) then (Noop idle, c)
  else if is_pending current c then (Noop "next-deal-already-pending", c)
  else (action, note_pending_next current "" c).
Definition tick_current (current : DealFacts) (cfg : ContinuityConfig) (demand : ConsumerDemand) (c : BuyerContinuity)
    : BuyerAction * BuyerContinuity :=
  let tc := df_token_contract current in
  match df_phase current with
  | ClosedDeal => renew tc demand "closed-current-no-consumer-demand" (PlaceNextDeal "closed-current") c
  | phase =>
      if is_stale tc c then (IgnoreStale tc, c) else
      match phase with
      | FundedNeverOpened funded_age_secs =>
          if funded_age_secs >=? cc_match_open_timeout_secs cfg
          then (CleanupUnopenedDeal tc, set_bc_stale ({[tc]} ∪ bc_stale c) c)
          else (Noop "waiting-for-handover", c)
      | _ =>
          if match df_remaining_tokens current with Some r => r <=? cc_renewal_threshold_tokens cfg | None => false end
          then renew tc demand "low-remaining-no-consumer-demand" (PrepareNextDeal tc) c
          else (ServeCurrent tc, c)
      end
  end.
Definition is_ready (phase : PlannedPhase) : bool := match phase with HandoverReady | OpenedFor _ => true | _ => false end.
Definition tick_with_demand (current ready_next : option DealFacts) (cfg : ContinuityConfig) (demand : ConsumerDemand) (c : BuyerContinuity)
    : BuyerAction * BuyerContinuity :=
  match current with
  | None => (if is_active_or_recent demand then PlaceNextDeal "no-current-deal" else Noop "no-current-no-consumer-demand", c)
  | Some current =>
      let tc := df_token_contract current in
      if negb (bool_decide (df_owner current = ThisBuyer)) then (FailClosed tc "wrong-owner", c) else
      match ready_next with
      | Some next =>
          if negb (bool_decide (df_owner next = ThisBuyer)) then (FailClosed (df_token_contract next) "next-wrong-owner", c)
          else if is_ready (df_phase next) then (SwitchToNextDeal tc (df_token_contract next), clear_pending_next tc c)
          else tick_current current cfg demand c
      | None => tick_current current cfg demand c
      end
  end.
Definition tick (current ready_next : option DealFacts) (cfg : ContinuityConfig) (c : BuyerContinuity) : BuyerAction * BuyerContinuity :=
  tick_with_demand current ready_next cfg ActiveOrRecent c.
Definition tick_with_mode (current ready_next : option DealFacts) (cfg : ContinuityConfig) (mode : ContinuityMode)
    (observed_demand : ConsumerDemand) (c : BuyerContinuity) : BuyerAction * BuyerContinuity :=
  tick_with_demand current ready_next cfg (planner_demand mode observed_demand) c.
Definition restart_from_handle (facts : DealFacts) (cfg : ContinuityConfig) (c : BuyerContinuity) : BuyerAction * BuyerContinuity :=
  tick (Some facts) None cfg c.

(** *** The seller's side *)

Inductive SellerDealOutcome : Type := NoBuyerYet | CompletedDeal | CleanedUnopened | ReclaimedOpened.
Inductive SellerAction : Type := KeepResting | PublishFreshOffer (retired : string).
Definition seller_market_action (current_offer : string) (outcome : SellerDealOutcome) : SellerAction :=
  match outcome with NoBuyerYet => KeepResting | _ => PublishFreshOffer current_offer end.

(** ** Runs of the planner *)

Inductive PlannerOp : Type :=
| Tick (current ready_next : option DealFacts) (cfg : ContinuityConfig) (mode : ContinuityMode) (demand : ConsumerDemand)
| NotePendingNext (current next : string)
| ClearPendingNext (current : string)
| KeepActive (current : string).
Definition planner_step (op : PlannerOp) (c : BuyerContinuity) : option BuyerAction * BuyerContinuity :=
  match op with
  | Tick current next cfg mode demand => let '(a, c) := tick_with_mode current next cfg mode demand c in (Some a, c)
  | NotePendingNext current next => (None, note_pending_next current next c)
  | ClearPendingNext current => (None, clear_pending_next current c)
  | KeepActive current => (None, keep_active current c)
  end.
(** The operations with the actions they gave. *)
Fixpoint planner_run (ops : list PlannerOp) (c : BuyerContinuity) : list (PlannerOp * option BuyerAction) * BuyerContinuity :=
  match ops with
  | [] => ([], c)
  | op :: ops => let '(a, c) := planner_step op c in let '(log, c) := planner_run ops c in ((op, a) :: log, c)
  end.

(** Does a tick on this contract buy its successor, clean it up, or leave it for its successor. *)
Definition tick_on (tc : string) (op : PlannerOp) : bool :=
  match op with Tick (Some current) _ _ _ _ => String.eqb (df_token_contract current) tc | _ => false end.
Definition buys (tc : string) (entry : PlannerOp * option BuyerAction) : bool :=
  tick_on tc entry.1 && match entry.2 with Some (PlaceNextDeal _) | Some (PrepareNextDeal _) => true | _ => false end.
Definition cleans (tc : string) (entry : PlannerOp * option BuyerAction) : bool :=
  match entry.2 with Some (CleanupUnopenedDeal tc') => String.eqb tc' tc | _ => false end.
(** The successor of [tc] is no longer awaited: the monitor gave up on it, or it was switched to. *)
Definition releases (tc : string) (entry : PlannerOp * option BuyerAction) : bool :=
  match entry with
  | (ClearPendingNext current, _) => String.eqb current tc
  | (_, Some (SwitchToNextDeal previous _)) => String.eqb previous tc
  | _ => false
  end.
Definition revives (tc : string) (entry : PlannerOp * option BuyerAction) : bool :=
  match entry.1 with KeepActive current => String.eqb current tc | _ => false end.
Definition count (f : PlannerOp * option BuyerAction → bool) (log : list (PlannerOp * option BuyerAction)) : Z :=
  zsum (λ e, Z.b2z (f e)) log.

(** ** Properties *)

Lemma is_pending_true tc c : is_pending tc c = true ↔ is_Some (bc_pending_after c !! tc).
Proof. apply bool_decide_eq_true. Qed.
Lemma pending_note tc tc' next c : is_pending tc (note_pending_next tc' next c) = String.eqb tc' tc || is_pending tc c.
Proof.
  unfold is_pending, note_pending_next. cbn [bc_pending_after set_bc_pending_after].
  destruct (String.eqb_spec tc' tc) as [->|Hne]; [by rewrite lookup_insert_eq|by rewrite lookup_insert_ne].
Qed.
Lemma pending_clear tc tc' c : is_pending tc (clear_pending_next tc' c) = negb (String.eqb tc' tc) && is_pending tc c.
Proof.
  unfold is_pending, clear_pending_next. cbn [bc_pending_after set_bc_pending_after].
  destruct (String.eqb_spec tc' tc) as [->|Hne]; [by rewrite lookup_delete_eq|by rewrite lookup_delete_ne].
Qed.
Lemma stale_add tc tc' c : is_stale tc (set_bc_stale ({[tc']} ∪ bc_stale c) c) = String.eqb tc' tc || is_stale tc c.
Proof.
  unfold is_stale. cbn [bc_stale set_bc_stale]. destruct (String.eqb_spec tc' tc) as [->|Hne]; cbn;
    [apply bool_decide_eq_true; set_solver|apply bool_decide_ext; set_solver].
Qed.
Lemma stale_keep tc tc' c : is_stale tc (keep_active tc' c) = negb (String.eqb tc' tc) && is_stale tc c.
Proof.
  unfold is_stale, keep_active. cbn [bc_stale set_bc_stale]. destruct (String.eqb_spec tc' tc) as [->|Hne]; cbn;
    [apply bool_decide_eq_false; set_solver|apply bool_decide_ext; set_solver].
Qed.

(** What an action promises about the facts it was given. *)
Definition justified (current ready_next : option DealFacts) (cfg : ContinuityConfig) (demand : ConsumerDemand) (a : BuyerAction) : Prop :=
  let own f := df_owner f = ThisBuyer in
  match a with
  | ServeCurrent tc => ∃ f, current = Some f ∧ own f ∧ df_token_contract f = tc ∧ is_ready (df_phase f) = true ∧
      ∀ r, df_remaining_tokens f = Some r → cc_renewal_threshold_tokens cfg < r
  | PrepareNextDeal tc => ∃ f r, current = Some f ∧ own f ∧ df_token_contract f = tc ∧ is_ready (df_phase f) = true ∧
      df_remaining_tokens f = Some r ∧ r ≤ cc_renewal_threshold_tokens cfg ∧ demand = ActiveOrRecent
  | PlaceNextDeal _ => demand = ActiveOrRecent ∧ (current = None ∨ ∃ f, current = Some f ∧ own f ∧ df_phase f = ClosedDeal)
  | SwitchToNextDeal tc next => ∃ f g, current = Some f ∧ ready_next = Some g ∧ own f ∧ own g ∧ df_token_contract f = tc ∧
      df_token_contract g = next ∧ is_ready (df_phase g) = true
  | CleanupUnopenedDeal tc => ∃ f age, current = Some f ∧ own f ∧ df_token_contract f = tc ∧ df_phase f = FundedNeverOpened age ∧
      cc_match_open_timeout_secs cfg ≤ age
  | FailClosed tc _ => ∃ f, (current = Some f ∨ ready_next = Some f) ∧ df_owner f = WrongBuyer ∧ df_token_contract f = tc
  | IgnoreStale tc => ∃ f, current = Some f ∧ own f ∧ df_token_contract f = tc ∧ df_phase f ≠ ClosedDeal
  | Noop _ => True
  end.
Lemma renew_cases current demand idle action c :
  (∃ reason, renew current demand idle action c = (Noop reason, c)) ∨
  (renew current demand idle action c = (action, note_pending_next current "" c) ∧ demand = ActiveOrRecent ∧ is_pending current c = false).
Proof.
  unfold renew. destruct demand; cbn [is_active_or_recent negb]; [left; by eexists|].
  destruct (is_pending current c); [left; by eexists|by right].
Qed.
Lemma tick_current_justified f next cfg demand c : df_owner f = ThisBuyer →
  justified (Some f) next cfg demand (tick_current f cfg demand c).1.
Proof.
  intros Ho. unfold tick_current. destruct (df_phase f) as [age|idle| |] eqn:Hp.
  1-3: destruct (is_stale (df_token_contract f) c); [exists f; rewrite Hp; done|].
  - destruct (Z.geb_spec age (cc_match_open_timeout_secs cfg)); [|done]. exists f, age. split_and!; try done; lia.
  - destruct (df_remaining_tokens f) as [r|] eqn:Hr; [destruct (Z.leb_spec r (cc_renewal_threshold_tokens cfg))|].
    + destruct (renew_cases (df_token_contract f) demand "low-remaining-no-consumer-demand" (PrepareNextDeal (df_token_contract f)) c)
        as [[? ->]|(-> & -> & _)]; [done|]. exists f, r. rewrite Hp. done.
    + exists f. rewrite Hp, Hr. split_and!; try done. intros ? [= <-]. lia.
    + exists f. rewrite Hp, Hr. done.
  - destruct (df_remaining_tokens f) as [r|] eqn:Hr; [destruct (Z.leb_spec r (cc_renewal_threshold_tokens cfg))|].
    + destruct (renew_cases (df_token_contract f) demand "low-remaining-no-consumer-demand" (PrepareNextDeal (df_token_contract f)) c)
        as [[? ->]|(-> & -> & _)]; [done|]. exists f, r. rewrite Hp. done.
    + exists f. rewrite Hp, Hr. split_and!; try done. intros ? [= <-]. lia.
    + exists f. rewrite Hp, Hr. done.
  - destruct (renew_cases (df_token_contract f) demand "closed-current-no-consumer-demand" (PlaceNextDeal "closed-current") c)
      as [[? ->]|(-> & -> & _)]; [done|]. split; [done|]. right. by exists f.
Qed.

(** Every action of the planner rests on the facts that it was given: it buys only under demand and
    for a closed or nearly used-up deal of this buyer, cleans up only a deal of this buyer that was
    never opened within the time allowed, switches only to a ready deal of this buyer, and fails
    closed only on a deal of somebody else; an opened deal is never stopped, however idle. *)
Theorem actions_are_justified current ready_next cfg demand c :
  justified current ready_next cfg demand (tick_with_demand current ready_next cfg demand c).1.
Proof.
  unfold tick_with_demand. destruct current as [f|]; [|by destruct demand; cbn; auto].
  destruct (df_owner f) eqn:Ho; cbn [negb]; [rewrite bool_decide_eq_true_2 by done|rewrite bool_decide_eq_false_2 by done]; cbn [negb].
  2: exists f; auto.
  destruct ready_next as [g|]; [|by apply tick_current_justified].
  destruct (df_owner g) eqn:Hg; [rewrite bool_decide_eq_true_2 by done|rewrite bool_decide_eq_false_2 by done]; cbn [negb].
  2: exists g; auto.
  destruct (is_ready (df_phase g)) eqn:Hr; [|by apply tick_current_justified]. by exists f, g.
Qed.
Corollary off_never_buys current ready_next cfg observed c :
  match (tick_with_mode current ready_next cfg Off observed c).1 with PlaceNextDeal _ | PrepareNextDeal _ => False | _ => True end.
Proof.
  pose proof (actions_are_justified current ready_next cfg Idle c) as H. unfold tick_with_mode. cbn [planner_demand].
  destruct (tick_with_demand current ready_next cfg Idle c).1; try done; [by destruct H as (? & ? & ? & ? & ? & ? & ? & ? & ?)|by destruct H].
Qed.

(** ** Every sequence of operations *)

Definition pend (tc : string) (c : BuyerContinuity) : Z := Z.b2z (is_pending tc c).
Definition stale (tc : string) (c : BuyerContinuity) : Z := Z.b2z (is_stale tc c).
Lemma b2z_bounds b : 0 ≤ Z.b2z b ≤ 1.
Proof. by destruct b. Qed.
Definition pays (tc : string) (op : PlannerOp) (a : option BuyerAction) (c c' : BuyerContinuity) : Prop :=
  Z.b2z (buys tc (op, a)) + pend tc c ≤ pend tc c' + Z.b2z (releases tc (op, a)) ∧
  Z.b2z (cleans tc (op, a)) + stale tc c ≤ stale tc c' + Z.b2z (revives tc (op, a)).
(** An operation that neither buys nor cleans up, and leaves the marks alone. *)
Lemma pays_nothing tc op a c : buys tc (op, a) = false → cleans tc (op, a) = false → pays tc op a c c.
Proof.
  intros Hb Hc. unfold pays. rewrite Hb, Hc.
  pose proof (b2z_bounds (releases tc (op, a))). pose proof (b2z_bounds (revives tc (op, a))). cbn [Z.b2z]. lia.
Qed.
(** One operation pays for a buy with a pending successor, and for a clean-up with a stale mark. *)
Lemma renew_pays tc current demand idle action c op :
  let r := renew current demand idle action c in
  (∃ reason, action = PlaceNextDeal reason) ∨ action = PrepareNextDeal current → tick_on tc op = String.eqb current tc →
  pays tc op (Some r.1) c r.2.
Proof.
  cbn zeta. intros Hact Hop. destruct (renew_cases current demand idle action c) as [[reason ->]|(-> & _ & Hp)]; cbn [fst snd].
  { apply pays_nothing; [apply andb_false_r|done]. }
  assert (Hc : cleans tc (op, Some action) = false) by (by destruct Hact as [[? ->]| ->]).
  assert (Hb : buys tc (op, Some action) = String.eqb current tc).
  { unfold buys. cbn [fst snd]. rewrite Hop. destruct Hact as [[? ->]| ->]; apply andb_true_r. }
  unfold pays, pend, stale. rewrite Hb, Hc, pending_note. change (is_stale tc (note_pending_next current "" c)) with (is_stale tc c).
  pose proof (b2z_bounds (releases tc (op, Some action))). pose proof (b2z_bounds (revives tc (op, Some action))).
  destruct (String.eqb_spec current tc) as [->|]; rewrite ?Hp; cbn [Z.b2z orb]; split; lia.
Qed.
Lemma tick_current_pays tc f next cfg mode observed demand c :
  let r := tick_current f cfg demand c in pays tc (Tick (Some f) next cfg mode observed) (Some r.1) c r.2.
Proof.
  cbn zeta. unfold tick_current. set (op := Tick _ _ _ _ _).
  assert (Hnone : ∀ a, (∀ t, a ≠ CleanupUnopenedDeal t) → (∀ r, a ≠ PlaceNextDeal r) → (∀ t, a ≠ PrepareNextDeal t) → pays tc op (Some a) c c).
  { intros a H1 H2 H3. apply pays_nothing; [unfold buys|unfold cleans]; destruct a; cbn; rewrite ?andb_false_r; naive_solver. }
  destruct (df_phase f) as [age|idle| |].
  - destruct (is_stale (df_token_contract f) c) eqn:Hs; [by apply Hnone|]. destruct (Z.geb age (cc_match_open_timeout_secs cfg)); [|by apply Hnone].
    unfold pays, pend, stale. cbn [fst snd]. rewrite stale_add.
    change (is_pending tc (set_bc_stale _ c)) with (is_pending tc c). unfold buys. cbn [fst snd releases revives cleans op]. rewrite andb_false_r.
    destruct (String.eqb_spec (df_token_contract f) tc) as [<-|]; rewrite ?Hs; cbn [Z.b2z orb]; split; lia.
  - destruct (is_stale _ c); [by apply Hnone|]. destruct (match df_remaining_tokens f with Some _ => _ | None => _ end); [|by apply Hnone].
    apply renew_pays; [by right|done].
  - destruct (is_stale _ c); [by apply Hnone|]. destruct (match df_remaining_tokens f with Some _ => _ | None => _ end); [|by apply Hnone].
    apply renew_pays; [by right|done].
  - apply renew_pays; [left; by eexists|done].
Qed.
Lemma step_pays tc op c : let r := planner_step op c in pays tc op r.1 c r.2.
Proof.
  destruct op as [current next cfg mode observed|current next|current|current]; cbn zeta; cbn [planner_step].
  - unfold tick_with_mode, tick_with_demand. generalize (planner_demand mode observed) as demand. intros demand.
    destruct current as [f|]; [|by destruct demand; cbn [fst snd is_active_or_recent]; apply pays_nothing].
    destruct (bool_decide (df_owner f = ThisBuyer)); cbn [negb]; [|by apply pays_nothing; [apply andb_false_r|]].
    pose proof (tick_current_pays tc f next cfg mode observed demand c) as Hcur. cbn zeta in Hcur.
    destruct (tick_current f cfg demand c) as [a c'].
    destruct next as [g|]; [|done]. destruct (bool_decide (df_owner g = ThisBuyer)); cbn [negb]; [|by apply pays_nothing; [apply andb_false_r|]].
    destruct (is_ready (df_phase g)); [|done]. unfold pays, pend, buys. cbn [fst snd]. rewrite andb_false_r, pending_clear. cbn [releases cleans revives fst snd].
    change (stale tc (clear_pending_next _ c)) with (stale tc c).
    pose proof (b2z_bounds (is_pending tc c)). destruct (String.eqb (df_token_contract f) tc); cbn [Z.b2z negb andb]; split; lia.
  - unfold pays, pend. cbn [fst snd]. rewrite pending_note. change (stale tc (note_pending_next _ _ c)) with (stale tc c). cbn.
    destruct (String.eqb current tc), (is_pending tc c); cbn; lia.
  - unfold pays, pend. cbn [fst snd]. rewrite pending_clear. change (stale tc (clear_pending_next _ c)) with (stale tc c). cbn.
    destruct (String.eqb current tc), (is_pending tc c); cbn; lia.
  - unfold pays, stale. cbn [fst snd]. rewrite stale_keep. change (pend tc (keep_active _ c)) with (pend tc c). cbn.
    destruct (String.eqb current tc), (is_stale tc c); cbn; lia.
Qed.
Lemma run_pays tc ops c :
  let r := planner_run ops c in
  count (buys tc) r.1 + pend tc c ≤ pend tc r.2 + count (releases tc) r.1 ∧
  count (cleans tc) r.1 + stale tc c ≤ stale tc r.2 + count (revives tc) r.1.
Proof.
  cbn zeta. revert c. induction ops as [|op ops IH]; intros c; [unfold count, zsum; cbn [planner_run fst snd foldr]; lia|]. cbn [planner_run].
  pose proof (step_pays tc op c) as Hs. destruct (planner_step op c) as [a c1]. specialize (IH c1).
  destruct (planner_run ops c1) as [log c2]. unfold pays, count in *. cbn [fst snd] in *. rewrite !zsum_cons. lia.
Qed.

(** C29: Whatever the monitor does, in whatever order, a deal's successor is bought at most once more
    than the planner was told that the awaited one is gone or was switched to, and a deal that was
    never opened is cleaned up at most once more than it was declared active again: duplicate ticks
    and restarted monitors do not buy twice. *)
Theorem renewals_are_bounded ops tc :
  let log := (planner_run ops BuyerContinuity_default).1 in
  count (buys tc) log ≤ 1 + count (releases tc) log ∧ count (cleans tc) log ≤ 1 + count (revives tc) log.
Proof.
  cbn zeta. pose proof (run_pays tc ops BuyerContinuity_default) as H. cbn zeta in H.
  pose proof (b2z_bounds (is_pending tc (planner_run ops BuyerContinuity_default).2)).
  pose proof (b2z_bounds (is_stale tc (planner_run ops BuyerContinuity_default).2)).
  unfold pend, stale in H. change (Z.b2z (is_pending tc BuyerContinuity_default)) with 0 in H.
  change (Z.b2z (is_stale tc BuyerContinuity_default)) with 0 in H. lia.
Qed.

(** The planner's own tests. *)
Module Tests.
Definition cfg : ContinuityConfig := {| cc_renewal_threshold_tokens := 10; cc_match_open_timeout_secs := 600 |}.
Definition actions (ops : list PlannerOp) : list BuyerAction := omap snd (planner_run ops BuyerContinuity_default).1.
Definition at_once (current : DealFacts) : PlannerOp := Tick (Some current) None cfg Proactive Idle.
Definition if_asked (current : DealFacts) (demand : ConsumerDemand) : PlannerOp := Tick (Some current) None cfg OnDemand demand.

Example preemptive_renewal :
  actions [at_once (facts_open "tc-a" 10); Tick (Some (facts_open "tc-a" 9)) (Some (facts_handover_ready "tc-b" 100)) cfg Proactive Idle]
  = [PrepareNextDeal "tc-a"; SwitchToNextDeal "tc-a" "tc-b"].
Proof. vm_compute. reflexivity. Qed.
Example funded_never_opened_cleans_once :
  actions [at_once (facts_funded_never_opened "tc" 600); at_once (facts_funded_never_opened "tc" 601)]
  = [CleanupUnopenedDeal "tc"; IgnoreStale "tc"].
Proof. vm_compute. reflexivity. Qed.
Example opened_idle_is_served : actions [at_once (facts_opened_idle "tc" (umax u64))] = [ServeCurrent "tc"].
Proof. vm_compute. reflexivity. Qed.
Example idle_does_not_leave_pending :
  actions [if_asked (facts_closed "tc") Idle; if_asked (facts_closed "tc") ActiveOrRecent; if_asked (facts_closed "tc") ActiveOrRecent]
  = [Noop "closed-current-no-consumer-demand"; PlaceNextDeal "closed-current"; Noop "next-deal-already-pending"].
Proof. vm_compute. reflexivity. Qed.
Example strangers_fail_closed : actions [at_once (wrong_owner (facts_open "tc" 100))] = [FailClosed "tc" "wrong-owner"].
Proof. vm_compute. reflexivity. Qed.
(** The marks live in memory: a restarted planner buys the successor again. *)
Example a_restart_buys_again :
  let '(first, c) := tick (Some (facts_closed "tc")) None cfg BuyerContinuity_default in
  (first, (tick (Some (facts_closed "tc")) None cfg c).1, (restart_from_handle (facts_closed "tc") cfg BuyerContinuity_default).1)
  = (PlaceNextDeal "closed-current", Noop "next-deal-already-pending", PlaceNextDeal "closed-current").
Proof. vm_compute. reflexivity. Qed.
End Tests.
