(* ===== verification/Routing.v ===== *)
(** * A buyer's routing over many sellers

    crates/dexdo/src/buyer/routing.rs: the ranking of the offers for a frame, and the loop that
    buys from one seller after the other.  What the chain answers, how a deal ends (DealRun), and
    which requests are sampled is up to the environment; the rate of the sample is floating point
    and is left out. *)
From S2P Require Import Prelude RustText DealTypes.

(** ** Offers *)

Inductive ScammerReaction : Type := ReactStop | ReactDispute.
#[export] Instance ScammerReaction_eq_dec : EqDecision ScammerReaction.
Proof. solve_decision. Defined.
Record CappedBuy : Type := { cb_model : string; cb_price_cap : Z; cb_ticks : Z; cb_scammer_reaction : ScammerReaction }.
Record Candidate : Type := { cn_seller_id : string; cn_token_contract : string; cn_price_per_tick : Z; cn_max_ticks : Z }.
#[export] Instance Candidate_eq_dec : EqDecision Candidate.
Proof. solve_decision. Defined.

Record Blacklist : Type := { bl_sellers : gset string }.
Definition mark (seller_id : string) (b : Blacklist) : Blacklist := {| bl_sellers := {[seller_id]} ∪ bl_sellers b |}.
Definition blacklisted (seller_id : string) (b : Blacklist) : bool := bool_decide (seller_id ∈ bl_sellers b).

Definition SELLER_SCORE_PASS_DELTA : Z := 1.
Definition SELLER_SCORE_BAIL_DELTA : Z := -1.
Record SellerScores : Type := { sc_scores : gmap string Z }.
Definition score_of (seller_id : string) (s : SellerScores) : Z := unwrap_or 0 (sc_scores s !! seller_id).
Definition add_score (delta : Z) (seller_id : string) (s : SellerScores) : SellerScores :=
  {| sc_scores := <[seller_id := score_of seller_id s + delta]> (sc_scores s) |}.
Definition record_pass : string → SellerScores → SellerScores := add_score SELLER_SCORE_PASS_DELTA.
Definition record_bail : string → SellerScores → SellerScores := add_score SELLER_SCORE_BAIL_DELTA.

(** The comparison of the sort, as "not greater". *)
Definition rank_le (scores : SellerScores) (a b : Candidate) : bool :=
  match cn_price_per_tick a ?= cn_price_per_tick b with
  | Lt => true
  | Gt => false
  | Eq =>
      match score_of (cn_seller_id b) scores ?= score_of (cn_seller_id a) scores with
      | Lt => true
      | Gt => false
      | Eq => bool_decide (str_le (cn_seller_id a) (cn_seller_id b))
      end
  end.
Definition eligible (frame : CappedBuy) (blacklist : Blacklist) (c : Candidate) : bool :=
  (cn_price_per_tick c <=? cb_price_cap frame) && (cb_ticks frame <=? cn_max_ticks c) && negb (blacklisted (cn_seller_id c) blacklist).
Definition eligible_ranked (frame : CappedBuy) (offers : list Candidate) (blacklist : Blacklist) (scores : SellerScores)
    : list Candidate :=
  stable_sort (rank_le scores) (List.filter (eligible frame blacklist) offers).
Definition listings_to_candidates (offers : list OfferListing) : list Candidate :=
  map (λ o, {| cn_seller_id := ol_seller_id o; cn_token_contract := ol_token_contract o;
               cn_price_per_tick := ol_price_per_tick o; cn_max_ticks := ol_max_ticks o |}) offers.

(** ** The loop *)

Inductive DealOutcome : Type := DealDelivered | Scam (reason : text) | NoShow.
Record Attempt : Type := { at_seller_id : string; at_token_contract : string; at_outcome : DealOutcome; at_reaction : option ScammerReaction }.
(** The calls that the loop makes, in order. *)
Inductive RouteCall : Type := PlaceBuy (tc : string) | RunDeal (tc : string) (spot_check : bool) | StopDeal (tc : string) | DisputeDeal (tc : string).
(** What the environment does with one candidate: does the chain take the order, is the request
    sampled, and how does its deal end.  The answer of [stop] and [dispute] is not looked at. *)
Record Turn : Type := { tn_placed : bool; tn_sampled : bool; tn_outcome : DealOutcome }.

Record Routing : Type := { rt_blacklist : Blacklist; rt_scores : SellerScores; rt_attempts : list Attempt; rt_calls : list RouteCall }.
Definition call (c : RouteCall) (r : Routing) : Routing :=
  {| rt_blacklist := rt_blacklist r; rt_scores := rt_scores r; rt_attempts := rt_attempts r; rt_calls := rt_calls r ++ [c] |}.
Definition attempt (c : Candidate) (outcome : DealOutcome) (reaction : option ScammerReaction) (r : Routing) : Routing := {|
  rt_blacklist := rt_blacklist r; rt_scores := rt_scores r;
  rt_attempts := rt_attempts r ++ [{| at_seller_id := cn_seller_id c; at_token_contract := cn_token_contract c;
                                      at_outcome := outcome; at_reaction := reaction |}];
  rt_calls := rt_calls r |}.
Definition caught (c : Candidate) (r : Routing) : Routing := {|
  rt_blacklist := mark (cn_seller_id c) (rt_blacklist r); rt_scores := record_bail (cn_seller_id c) (rt_scores r);
  rt_attempts := rt_attempts r; rt_calls := rt_calls r |}.
Definition passed (c : Candidate) (r : Routing) : Routing := {|
  rt_blacklist := rt_blacklist r; rt_scores := record_pass (cn_seller_id c) (rt_scores r);
  rt_attempts := rt_attempts r; rt_calls := rt_calls r |}.

(** How the loop goes on after a candidate. *)
Inductive Turned : Type := NextCandidate | ServedBy (seller_id : string) | AwaitResolution.
Definition react (reaction : ScammerReaction) (tc : string) : RouteCall :=
  match reaction with ReactStop => StopDeal tc | ReactDispute => DisputeDeal tc end.
Definition try_candidate (frame : CappedBuy) (c : Candidate) (t : Turn) (r : Routing) : Turned * Routing :=
  let tc := cn_token_contract c in
  let r := call (PlaceBuy tc) r in
  if negb (tn_placed t) then (NextCandidate, attempt c NoShow None (caught c r)) else
  let r := call (RunDeal tc (tn_sampled t)) r in
  match tn_outcome t with
  | DealDelivered => (ServedBy (cn_seller_id c), attempt c DealDelivered None (passed c r))
  | Scam reason =>
      let reaction := cb_scammer_reaction frame in
      let r := attempt c (Scam reason) (Some reaction) (caught c (call (react reaction tc) r)) in
      (if bool_decide (reaction = ReactDispute) then AwaitResolution else NextCandidate, r)
  | NoShow => (NextCandidate, attempt c NoShow None (caught c (call (StopDeal tc) r)))
  end.
(** The environment answers from all the calls before. *)
Fixpoint route_loop (frame : CappedBuy) (env : list RouteCall → Candidate → Turn) (candidates : list Candidate) (r : Routing)
    : option string * Routing :=
  match candidates with
  | [] => (None, r)
  | c :: candidates =>
      match try_candidate frame c (env (rt_calls r) c) r with
      | (NextCandidate, r) => route_loop frame env candidates r
      | (ServedBy seller, r) => (Some seller, r)
      | (AwaitResolution, r) => (None, r)
      end
  end.
Definition route_capped_buy (frame : CappedBuy) (discovered : Result ChainError (list OfferListing))
    (env : list RouteCall → Candidate → Turn) (blacklist : Blacklist) (scores : SellerScores) : option string * Routing :=
  let r := {| rt_blacklist := blacklist; rt_scores := scores; rt_attempts := []; rt_calls := [] |} in
  match discovered with
  | Err _ => (None, r)
  | Ok offers => route_loop frame env (eligible_ranked frame (listings_to_candidates offers) blacklist scores) r
  end.

(** ** What the loop does, said at once *)

Lemma rank_le_total scores a b : rank_le scores a b = true ∨ rank_le scores b a = true.
Proof.
  unfold rank_le. rewrite (Z.compare_antisym (cn_price_per_tick a)). destruct (cn_price_per_tick a ?= cn_price_per_tick b); [|by left|by right].
  cbn [CompOpp]. rewrite (Z.compare_antisym (score_of (cn_seller_id a) scores)).
  destruct (score_of (cn_seller_id a) scores ?= score_of (cn_seller_id b) scores); cbn [CompOpp]; [|by right|by left].
  rewrite !bool_decide_eq_true. apply (total str_le).
Qed.
(** The order as a proposition. *)
Definition ranked_before (scores : SellerScores) (a b : Candidate) : Prop :=
  let pa := cn_price_per_tick a in let pb := cn_price_per_tick b in
  let sa := score_of (cn_seller_id a) scores in let sb := score_of (cn_seller_id b) scores in
  pa < pb ∨ pa = pb ∧ (sb < sa ∨ sb = sa ∧ str_le (cn_seller_id a) (cn_seller_id b)).
Lemma rank_le_before scores a b : rank_le scores a b = true ↔ ranked_before scores a b.
Proof.
  unfold rank_le, ranked_before. cbn zeta. destruct (Z.compare_spec (cn_price_per_tick a) (cn_price_per_tick b)); [|intuition lia|intuition lia].
  destruct (Z.compare_spec (score_of (cn_seller_id b) scores) (score_of (cn_seller_id a) scores)); [|intuition lia|intuition lia].
  rewrite bool_decide_eq_true. intuition lia.
Qed.
Lemma rank_le_trans scores a b c : rank_le scores a b = true → rank_le scores b c = true → rank_le scores a c = true.
Proof.
  rewrite !rank_le_before. unfold ranked_before. cbn zeta. intros [?|(? & [?|[? H1]])] [?|(? & [?|[? H2]])]; try lia.
  right. split; [lia|]. right. split; [lia|]. by transitivity (cn_seller_id b).
Qed.

(** The candidates are exactly the offers within the frame of sellers that were never caught, the
    cheaper before the dearer, at one price the better known seller first, then by name. *)
Theorem ranking_is_the_frames frame offers blacklist scores :
  let ranked := eligible_ranked frame offers blacklist scores in
  StronglySorted (ranked_before scores) ranked ∧
  ∃ within, ranked ≡ₚ within ∧ within `sublist_of` offers ∧
    (∀ c, c ∈ within ↔ c ∈ offers ∧ cn_price_per_tick c ≤ cb_price_cap frame ∧ cb_ticks frame ≤ cn_max_ticks c ∧
      cn_seller_id c ∉ bl_sellers blacklist).
Proof.
  cbn zeta. split.
  - unfold eligible_ranked. induction (stable_sort_sorted _ (rank_le_total scores) (rank_le_trans scores) (List.filter (eligible frame blacklist) offers))
      as [|a l _ IH Ha]; constructor; [done|]. eapply Forall_impl; [exact Ha|]. intros b. apply rank_le_before.
  - exists (List.filter (eligible frame blacklist) offers). split_and!; [apply stable_sort_perm| |].
    + induction offers as [|c offers IH]; cbn; [done|]. destruct (eligible frame blacklist c); by constructor.
    + intros c. rewrite !list_elem_of_In, filter_In. unfold eligible, blacklisted.
      rewrite !andb_true_iff, !Z.leb_le, negb_true_iff, bool_decide_eq_false. tauto.
Qed.

(** One round: the calls it makes, the attempt it records. *)
Definition calls_of (frame : CappedBuy) (round : Candidate * Turn) : list RouteCall :=
  let '(c, t) := round in
  let tc := cn_token_contract c in
  PlaceBuy tc ::
  if tn_placed t then
    RunDeal tc (tn_sampled t) ::
    match tn_outcome t with DealDelivered => [] | Scam _ => [react (cb_scammer_reaction frame) tc] | NoShow => [StopDeal tc] end
  else [].
Definition outcome_of (round : Candidate * Turn) : DealOutcome := if tn_placed round.2 then tn_outcome round.2 else NoShow.
Definition attempt_of (frame : CappedBuy) (round : Candidate * Turn) : Attempt := {|
  at_seller_id := cn_seller_id round.1; at_token_contract := cn_token_contract round.1; at_outcome := outcome_of round;
  at_reaction := match outcome_of round with Scam _ => Some (cb_scammer_reaction frame) | _ => None end |}.
Definition delivered (round : Candidate * Turn) : bool := match outcome_of round with DealDelivered => true | _ => false end.
Definition disputed (frame : CappedBuy) (round : Candidate * Turn) : bool :=
  match outcome_of round with Scam _ => bool_decide (cb_scammer_reaction frame = ReactDispute) | _ => false end.
Definition failed_sellers (rounds : list (Candidate * Turn)) : list string :=
  map (λ round, cn_seller_id round.1) (List.filter (λ round, negb (delivered round)) rounds).
Definition score_change (seller : string) (rounds : list (Candidate * Turn)) : Z :=
  zsum (λ round, if String.eqb (cn_seller_id round.1) seller then if delivered round then 1 else -1 else 0) rounds.

Lemma score_of_add delta seller seller' scores :
  score_of seller' (add_score delta seller scores) = score_of seller' scores + if String.eqb seller seller' then delta else 0.
Proof.
  unfold score_of at 1. unfold add_score. cbn [sc_scores]. destruct (String.eqb_spec seller seller') as [->|Hne].
  - by rewrite lookup_insert_eq.
  - rewrite lookup_insert_ne by done. unfold score_of. lia.
Qed.
Record rounds_done (frame : CappedBuy) (rounds : list (Candidate * Turn)) (r r' : Routing) : Prop := {
  rd_calls : rt_calls r' = rt_calls r ++ flat_map (calls_of frame) rounds;
  rd_attempts : rt_attempts r' = rt_attempts r ++ map (attempt_of frame) rounds;
  rd_blacklist : bl_sellers (rt_blacklist r') = list_to_set (failed_sellers rounds) ∪ bl_sellers (rt_blacklist r);
  rd_scores : ∀ seller, score_of seller (rt_scores r') = score_of seller (rt_scores r) + score_change seller rounds;
}.
Lemma rounds_done_nil frame r : rounds_done frame [] r r.
Proof.
  constructor; [by rewrite app_nil_r|by rewrite app_nil_r|unfold failed_sellers; cbn; set_solver|].
  intros seller. change (score_change seller []) with 0. lia.
Qed.
Lemma rounds_done_cons frame round rounds r r1 r2 :
  rounds_done frame [round] r r1 → rounds_done frame rounds r1 r2 → rounds_done frame (round :: rounds) r r2.
Proof.
  intros [Hc Ha Hb Hs] [Hc' Ha' Hb' Hs']. constructor.
  - rewrite Hc', Hc, <- app_assoc. cbn. by rewrite app_nil_r.
  - rewrite Ha', Ha, <- app_assoc. done.
  - rewrite Hb', Hb. unfold failed_sellers. cbn. destruct (delivered round); cbn; set_solver.
  - intros seller. rewrite Hs', Hs. unfold score_change. change (round :: rounds) with ([round] ++ rounds). rewrite zsum_app. lia.
Qed.
Lemma rounds_done_one frame c t r r' :
  rt_calls r' = rt_calls r ++ calls_of frame (c, t) → rt_attempts r' = rt_attempts r ++ [attempt_of frame (c, t)] →
  rt_blacklist r' = (if delivered (c, t) then rt_blacklist r else mark (cn_seller_id c) (rt_blacklist r)) →
  rt_scores r' = add_score (if delivered (c, t) then 1 else -1) (cn_seller_id c) (rt_scores r) →
  rounds_done frame [(c, t)] r r'.
Proof.
  intros Hc Ha Hb Hs. constructor; [by rewrite Hc; cbn [flat_map]; rewrite app_nil_r|done| |].
  - rewrite Hb. unfold failed_sellers. cbn [List.filter]. destruct (delivered (c, t)); cbn [negb map fst list_to_set]; [set_solver|].
    unfold mark. cbn [bl_sellers]. set_solver.
  - intros seller. rewrite Hs, score_of_add. unfold score_change, zsum. cbn [foldr fst]. destruct (String.eqb _ _), (delivered (c, t)); lia.
Qed.
Lemma try_candidate_spec frame c t r :
  let '(turned, r') := try_candidate frame c t r in
  rounds_done frame [(c, t)] r r' ∧
  turned = (if delivered (c, t) then ServedBy (cn_seller_id c) else if disputed frame (c, t) then AwaitResolution else NextCandidate).
Proof.
  unfold try_candidate. destruct t as [[] sampled [|reason|]]; cbn [tn_placed tn_outcome tn_sampled negb];
    (split; [|done]); by apply rounds_done_one; cbn; rewrite <- ?app_assoc.
Qed.

Definition goes_on (frame : CappedBuy) (round : Candidate * Turn) : bool := negb (delivered round) && negb (disputed frame round).
(** The rounds of the loop: those that failed and were left, and the one it ended with, if any. *)
Definition rounds_of (failed : list (Candidate * Turn)) (final : option (Candidate * Turn)) : list (Candidate * Turn) :=
  failed ++ option_list final.
Lemma route_loop_spec frame env candidates r :
  ∃ failed final,
    let '(served, r') := route_loop frame env candidates r in
    (rounds_of failed final).*1 `prefix_of` candidates ∧ rounds_done frame (rounds_of failed final) r r' ∧
    Forall (λ round, goes_on frame round = true) failed ∧
    match final with
    | Some round => goes_on frame round = false ∧ served = (if delivered round then Some (cn_seller_id round.1) else None)
    | None => served = None ∧ failed.*1 = candidates
    end.
Proof.
  revert r. induction candidates as [|c candidates IH]; intros r; cbn [route_loop].
  { exists [], None. split_and!; [done|apply rounds_done_nil|constructor|done|done]. }
  pose proof (try_candidate_spec frame c (env (rt_calls r) c) r) as Hone. set (round := (c, env (rt_calls r) c)) in *.
  destruct (try_candidate frame c (env (rt_calls r) c) r) as [turned r1]. destruct Hone as [Hdone ->].
  assert (Hgo : goes_on frame round = negb (delivered round) && negb (disputed frame round)) by done.
  destruct (delivered round) eqn:Hd; [|destruct (disputed frame round) eqn:Hdis].
  - exists [], (Some round). cbn. rewrite Hd. split_and!; [by apply prefix_cons, prefix_nil|done|constructor|done|done].
  - exists [], (Some round). cbn. rewrite Hd. split_and!; [by apply prefix_cons, prefix_nil|done|constructor|done|done].
  - destruct (IH r1) as (failed & final & Hspec). exists (round :: failed), final. destruct (route_loop frame env candidates r1) as [served r2].
    destruct Hspec as (Hpre & Hrest & Hall & Hend). unfold rounds_of in *. rewrite <- app_comm_cons. split_and!.
    + cbn. by apply prefix_cons.
    + by eapply rounds_done_cons.
    + by constructor.
    + destruct final; [done|]. destruct Hend as [-> <-]. done.
Qed.

(** C15: Routing a purchase, whatever the chain and the sellers answer: sellers are tried in the order of
    the ranking, each listing once; the loop stops at the first delivery, which is reported, at a
    dispute, or when no listing is left; a deal that was bought and not delivered is stopped, or
    disputed if the frame says so, and a delivered one is never touched; exactly the sellers that
    failed are caught, with one point less each, and the one that delivered gets one point. *)
Theorem routing_is_safe frame offers env blacklist scores :
  let '(served, r) := route_capped_buy frame (Ok offers) env blacklist scores in
  ∃ failed final,
    let rounds := rounds_of failed final in
    rounds.*1 `prefix_of` eligible_ranked frame (listings_to_candidates offers) blacklist scores ∧
    rt_calls r = flat_map (calls_of frame) rounds ∧
    rt_attempts r = map (attempt_of frame) rounds ∧
    bl_sellers (rt_blacklist r) = list_to_set (failed_sellers rounds) ∪ bl_sellers blacklist ∧
    (∀ seller, score_of seller (rt_scores r) = score_of seller scores + score_change seller rounds) ∧
    (∀ round, round ∈ failed → delivered round = false ∧ disputed frame round = false) ∧
    match final with
    | Some round => if delivered round then served = Some (cn_seller_id round.1) else served = None ∧ disputed frame round = true
    | None => served = None ∧ failed.*1 = eligible_ranked frame (listings_to_candidates offers) blacklist scores
    end.
Proof.
  unfold route_capped_buy. set (r := {| rt_blacklist := blacklist; rt_scores := scores; rt_attempts := []; rt_calls := [] |}).
  destruct (route_loop_spec frame env (eligible_ranked frame (listings_to_candidates offers) blacklist scores) r) as (failed & final & Hspec).
  destruct (route_loop frame env _ r) as [served r']. destruct Hspec as (Hpre & [Hc Ha Hb Hs] & Hall & Hend).
  exists failed, final. cbn zeta. split_and!; [done..| |].
  - intros round Hin. rewrite Forall_forall in Hall. specialize (Hall round Hin). unfold goes_on in Hall.
    by apply andb_prop in Hall as [?%negb_true_iff ?%negb_true_iff].
  - destruct final as [round|]; [|done]. destruct Hend as [Hgo ->]. unfold goes_on in Hgo. destruct (delivered round); [done|].
    split; [done|]. by destruct (disputed frame round).
Qed.

(** A seller that was just caught, and its dearer second listing. *)
Definition two_listings : list OfferListing := [
  {| ol_seller_id := "s"; ol_token_contract := "0:b"; ol_price_per_tick := 2; ol_max_ticks := 9 |};
  {| ol_seller_id := "s"; ol_token_contract := "0:a"; ol_price_per_tick := 1; ol_max_ticks := 9 |}].
Definition any_frame : CappedBuy := {| cb_model := "m"; cb_price_cap := 5; cb_ticks := 2; cb_scammer_reaction := ReactStop |}.
Example a_caught_seller_is_tried_again :
  (route_capped_buy any_frame (Ok two_listings) (λ _ _, {| tn_placed := true; tn_sampled := false; tn_outcome := NoShow |})
     {| bl_sellers := ∅ |} {| sc_scores := ∅ |}).2.(rt_calls)
  = [PlaceBuy "0:a"; RunDeal "0:a" false; StopDeal "0:a"; PlaceBuy "0:b"; RunDeal "0:b" false; StopDeal "0:b"].
Proof. vm_compute. reflexivity. Qed.
