(* ===== verification/DealRun.v ===== *)
(** * The run of one routed deal

    crates/dexdo/src/buyer/routing.rs: what counts as a delivered answer, and the runner of a deal
    with the audit of a sampled request; crates/dexdo/src/buyer/mod.rs: [exchange], a request that
    the buyer writes itself, and the two probes; buyer/verify.rs and the content policy of
    buyer/api/mod.rs: what the probes compare and when a model may be paid.

    The handover, the seller's streams, the reference endpoint and the keys in the environment are
    answers of the network.  JSON, the Unicode tables and the printing of a transport error are
    parameters; the one floating-point comparison is exact, see [spotcheck_verdict]. *)
From S2P Require Import Prelude RustText ApiFormat SseFrames UsageData Meter Relay ModelId Gateway BuyerBudget Routing.
From Stdlib Require Import Strings.Ascii.

(** ** The answer of one deal *)

(** What the seller's stream gives, item by item; its end is the end of the list. *)
Abbreviation Item := (Result WireStatus StreamFrame).

Section Answer.
Context (from_str : string → Result string Value) (shown : WireStatus → string).

Definition named_bail (check : ModelCheck) (facts : ResponseFacts) : option text :=
  let* model := rf_model facts in match model_verify check model with Bail reason => Some reason | Pass => None end.
Definition scam (message : string) : DealOutcome := Scam f[message].

Section Gateway.
Context (format : ApiFormat) (streamed : bool) (check : ModelCheck) (billing_grant_tokens : Z).

Record Receipt : Type := {
  rc_success : option bool; rc_frames : SseFrames; rc_whole : bytes; rc_output : Z; rc_usage : option BillingUsage;
}.
Definition no_receipt : Receipt := {| rc_success := None; rc_frames := SseFrames_default; rc_whole := []; rc_output := 0; rc_usage := None |}.
Definition set_rc_success (v : option bool) (g : Receipt) : Receipt := {|
  rc_success := v; rc_frames := rc_frames g; rc_whole := rc_whole g; rc_output := rc_output g; rc_usage := rc_usage g |}.
Definition set_rc_frames (v : SseFrames) (g : Receipt) : Receipt := {|
  rc_success := rc_success g; rc_frames := v; rc_whole := rc_whole g; rc_output := rc_output g; rc_usage := rc_usage g |}.
Definition set_rc_whole (v : bytes) (g : Receipt) : Receipt := {|
  rc_success := rc_success g; rc_frames := rc_frames g; rc_whole := v; rc_output := rc_output g; rc_usage := rc_usage g |}.
Definition set_rc_output (v : Z) (g : Receipt) : Receipt := {|
  rc_success := rc_success g; rc_frames := rc_frames g; rc_whole := rc_whole g; rc_output := v; rc_usage := rc_usage g |}.
Definition set_rc_usage (v : option BillingUsage) (g : Receipt) : Receipt := {|
  rc_success := rc_success g; rc_frames := rc_frames g; rc_whole := rc_whole g; rc_output := rc_output g; rc_usage := v |}.

Definition receive_usage (usage : BillingUsage) (g : Receipt) : Result DealOutcome Receipt :=
  let? _ := map_err Scam (BillingUsage_validate usage) in
  if billable_tokens usage >? billing_grant_tokens then
    Err (Scam f["terminal billable usage "; billable_tokens usage; " exceeds billing grant "; billing_grant_tokens])
  else if streamed && ((rc_output g =? 0) || (bu_output_tokens usage =? 0)) then
    Err (scam "terminal billing usage has no preceding delivered output")
  else Ok (set_rc_usage (Some usage) g).
(** The output of one complete frame. *)
Definition frame_output (text : string) : Result DealOutcome Z :=
  let? parsed := map_err scam (parse_frame from_str format text) in
  match parsed with
  | FrameEvent _ facts =>
      match named_bail check facts with
      | Some reason => Err (Scam reason)
      | None => Ok (if has_output facts then 1 else 0)
      end
  | _ => Ok 0
  end.
Fixpoint frames_output (frames : list SseFrame) (output : Z) : Result DealOutcome Z :=
  match frames with
  | [] => Ok output
  | frame :: frames => let? n := frame_output (fr_text frame) in frames_output frames (output + n)
  end.
Definition receive_data (b : bytes) (g : Receipt) : Result DealOutcome Receipt :=
  match rc_success g with
  | None => Err (scam "response content arrived before its response head")
  | Some false => Ok g
  | Some true =>
      if negb streamed then Ok (set_rc_whole (rc_whole g ++ b) g) else
      let '(complete, frames) := push b (rc_frames g) in
      let? complete := map_err scam complete in
      let? output := frames_output complete (rc_output g) in
      Ok (set_rc_output output (set_rc_frames frames g))
  end.
Definition receive_item (item : Item) (g : Receipt) : Result DealOutcome Receipt :=
  match item with
  | Err error => Err (if rc_output g =? 0 then NoShow else Scam f["gateway stream error: "; shown error])
  | Ok frame =>
      if bool_decide (is_Some (rc_usage g)) then Err (scam "response content followed terminal billing usage") else
      match sf_head frame, sf_usage frame with
      | Some head, _ =>
          if bool_decide (is_Some (rc_success g)) then Err (scam "the seller stated a second response head")
          else Ok (set_rc_success (Some (is_success (rh_status head))) g)
      | None, Some usage => receive_usage usage g
      | None, None => receive_data (sf_data frame) g
      end
  end.
Fixpoint receive_items (items : list Item) (g : Receipt) : Result DealOutcome Receipt :=
  match items with [] => Ok g | item :: items => let? g := receive_item item g in receive_items items g end.
Definition receive_end (g : Receipt) : Result DealOutcome (BillingUsage * Z) :=
  if negb (bool_decide (rc_success g = Some true)) then Err NoShow else
  let? output :=
    if streamed then Ok (rc_output g) else
    let? value := map_err (λ error : string, Scam f["provider response is not JSON: "; error]) (from_str (of_bytes (rc_whole g))) in
    let facts := inspect_body format value in
    match named_bail check facts with
    | Some reason => Err (Scam reason)
    | None => Ok (if has_output facts then 1 else 0)
    end in
  match rc_usage g with
  | None => Err (if output =? 0 then NoShow else scam "response stream ended without terminal billing usage")
  | Some usage =>
      if (output =? 0) || (bu_output_tokens usage =? 0) then Err (scam "terminal billing usage has no preceding delivered output")
      else Ok (usage, output)
  end.
Definition receive_gateway_answer (items : list Item) : Result DealOutcome (BillingUsage * Z) :=
  let? g := receive_items items no_receipt in receive_end g.

(** *** The answers that are accepted *)

Definition plain (f : StreamFrame) : Prop := sf_head f = None ∧ sf_usage f = None.
Lemma receive_items_app items more g :
  receive_items (items ++ more) g = let? g := receive_items items g in receive_items more g.
Proof. revert g. induction items as [|i items IH]; intros g; [done|]. cbn. destruct (receive_item i g); [apply IH|done]. Qed.
Lemma frames_output_app fs more n : frames_output (fs ++ more) n = let? n := frames_output fs n in frames_output more n.
Proof. revert n. induction fs as [|f fs IH]; intros n; [done|]. cbn. destruct (frame_output (fr_text f)); [apply IH|done]. Qed.
Lemma usage_is_last items g g' u : rc_usage g = Some u → receive_items items g = Ok g' → items = [] ∧ g' = g.
Proof.
  intros Hu H. destruct items as [|[frame|error] items]; [by simplify_eq/=| |done]. cbn in H. rewrite Hu in H. done.
Qed.
Lemma receive_plain f g : plain f → rc_usage g = None → receive_item (Ok f) g = receive_data (sf_data f) g.
Proof. intros [Hh Hu] Hg. cbn. by rewrite Hg, Hh, Hu. Qed.
Lemma receive_usage_frame f u g : sf_head f = None → sf_usage f = Some u → rc_usage g = None → receive_item (Ok f) g = receive_usage u g.
Proof. intros Hh Hu Hg. cbn. by rewrite Hg, Hh, Hu. Qed.
Lemma receive_data_keeps b g g' : receive_data b g = Ok g' → rc_success g' = rc_success g ∧ rc_usage g' = rc_usage g.
Proof.
  unfold receive_data. destruct (rc_success g) as [[]|] eqn:Hs; [|by intros [= <-]|done].
  destruct streamed; cbn [negb]; [|by intros [= <-]]. destruct (push b (rc_frames g)) as [r frames]. intros H. by ok_inv.
Qed.
Lemma receive_usage_Ok u g g' : receive_usage u g = Ok g' ↔
  BillingUsage_validate u = Ok () ∧ billable_tokens u ≤ billing_grant_tokens ∧ (streamed = true → rc_output g ≠ 0 ∧ bu_output_tokens u ≠ 0) ∧
  g' = set_rc_usage (Some u) g.
Proof.
  unfold receive_usage. destruct (BillingUsage_validate u) as [[]|e]; cbn [map_err rbind]; [|by split; [|intros [? _]]].
  destruct (Z.gtb_spec (billable_tokens u) billing_grant_tokens); [split; [done|intros (_ & ? & _); lia]|].
  destruct streamed; cbn [andb]; [|by split; [intros [= <-]|intros (_ & _ & _ & ->)]].
  destruct (Z.eqb_spec (rc_output g) 0), (Z.eqb_spec (bu_output_tokens u) 0); cbn [orb]; (split; [|naive_solver]); try done.
  intros [= <-]. done.
Qed.
(** Until the bill comes nothing but data. *)
Lemma items_until_the_bill items g g' u : rc_usage g = None → is_Some (rc_success g) → receive_items items g = Ok g' → rc_usage g' = Some u →
  ∃ datas last g1, items = map Ok datas ++ [Ok last] ∧ Forall plain datas ∧ sf_head last = None ∧ sf_usage last = Some u ∧
    receive_items (map Ok datas) g = Ok g1 ∧ receive_usage u g1 = Ok g'.
Proof.
  revert g. induction items as [|item items IH]; intros g Hg Hs H Hu; [simplify_eq/=; congruence|].
  cbn in H. destruct (receive_item item g) as [g1|] eqn:Hi; [|done]. cbn in H. destruct item as [frame|error]; [|done].
  destruct (sf_head frame) as [head|] eqn:Hh.
  { cbn in Hi. rewrite Hg, Hh in Hi. rewrite bool_decide_eq_false_2, bool_decide_eq_true_2 in Hi by (done || by intros []). done. }
  destruct (sf_usage frame) as [u'|] eqn:Hfu.
  - rewrite (receive_usage_frame frame u') in Hi by done. pose proof Hi as Hi2. apply receive_usage_Ok in Hi2 as (_ & _ & _ & ->).
    apply (usage_is_last _ _ _ u') in H as [-> ->]; [|done]. cbn in Hu. simplify_eq. exists [], frame, g. done.
  - rewrite receive_plain in Hi by done. pose proof (receive_data_keeps _ _ _ Hi) as [Hs1 Hu1].
    destruct (IH g1) as (datas & last & g2 & -> & Hp & ? & ? & Hrun & ?); [congruence|by rewrite Hs1|done|done|].
    exists (frame :: datas), last, g2. split_and!; [done|by constructor|done|done| |done]. cbn [map receive_items].
    by rewrite receive_plain, Hi.
Qed.
(** What the data of a successful answer add up to. *)
Lemma datas_streamed datas g g' : streamed = true → rc_success g = Some true → rc_usage g = None → Forall plain datas →
  receive_items (map Ok datas) g = Ok g' ↔
  ∃ fs, push_all (map sf_data datas) (rc_frames g) = (Ok fs, rc_frames g') ∧ frames_output fs (rc_output g) = Ok (rc_output g') ∧
    g' = set_rc_output (rc_output g') (set_rc_frames (rc_frames g') g).
Proof.
  intros Hst. revert g. induction datas as [|f datas IH]; intros g Hs Hu Hp.
  { cbn. split; [intros [= <-]; exists []; by destruct g|]. intros (fs & [= <- Hf] & [= Ho] & ->). rewrite <- Ho, <- Hf. by destruct g. }
  inversion Hp as [|? ? Hpf Hpd]; subst. cbn [map receive_items push_all]. rewrite receive_plain by done. unfold receive_data. rewrite Hs, Hst. cbn [negb].
  destruct (push (sf_data f) (rc_frames g)) as [[complete|e] frames]; cbn [map_err rbind]; [|split; [done|intros (? & ? & _); done]].
  destruct (frames_output complete (rc_output g)) as [n|e] eqn:Hn; cbn [rbind].
  - rewrite IH by done. cbn [rc_frames rc_output set_rc_output set_rc_frames]. split.
    + intros (fs & Hall & Hout & ->). exists (complete ++ fs). rewrite Hall, frames_output_app, Hn. done.
    + intros (fs & Hall & Hout & Hg). destruct (push_all _ frames) as [[more|e] frames'] eqn:Hpush; [|done]. simplify_eq.
      rewrite frames_output_app, Hn in Hout. exists more. split_and!; [done|done|]. rewrite Hg. done.
  - split; [done|]. intros (fs & Hall & Hout & _). destruct (push_all _ frames) as [[more|e'] frames'] eqn:Hpush; [|done]. simplify_eq.
    rewrite frames_output_app, Hn in Hout. done.
Qed.
Lemma datas_whole datas g : streamed = false → rc_success g = Some true → rc_usage g = None → Forall plain datas →
  receive_items (map Ok datas) g = Ok (set_rc_whole (rc_whole g ++ concat (map sf_data datas)) g).
Proof.
  intros Hst. revert g. induction datas as [|f datas IH]; intros g Hs Hu Hp; [by cbn; rewrite app_nil_r; destruct g|].
  inversion Hp; subst. cbn [map receive_items]. rewrite receive_plain by done. unfold receive_data. rewrite Hs, Hst. cbn [negb rbind].
  rewrite IH by done. cbn. by rewrite app_assoc.
Qed.

(** The output of an answer whose data came in these pieces. *)
Definition answer_output (chunks : list bytes) : option Z :=
  if streamed then match push_all chunks SseFrames_default with (Ok frames, _) => result_ok (frames_output frames 0) | _ => None end
  else
    let* value := result_ok (from_str (of_bytes (concat chunks))) in
    let facts := inspect_body format value in
    match named_bail check facts with Some _ => None | None => Some (if has_output facts then 1 else 0) end.
(** A successful head, data, and one bill at the end. *)
Record whole_answer (items : list Item) (u : BillingUsage) (n : Z) : Prop := {
  wa_items : ∃ head h datas last, items = Ok head :: map Ok datas ++ [Ok last] ∧ sf_head head = Some h ∧ is_success (rh_status h) = true ∧
    Forall plain datas ∧ sf_head last = None ∧ sf_usage last = Some u ∧ answer_output (map sf_data datas) = Some n;
  wa_valid : BillingUsage_validate u = Ok ();
  wa_granted : billable_tokens u ≤ billing_grant_tokens;
  wa_billed_output : bu_output_tokens u ≠ 0;
  wa_output : n ≠ 0;
}.
Definition headed : Receipt := set_rc_success (Some true) no_receipt.
Lemma receive_end_Ok datas g1 u n : Forall plain datas → receive_items (map Ok datas) headed = Ok g1 →
  receive_end (set_rc_usage (Some u) g1) = Ok (u, n) ↔ answer_output (map sf_data datas) = Some n ∧ n ≠ 0 ∧ bu_output_tokens u ≠ 0.
Proof.
  intros Hp H. unfold receive_end, answer_output. destruct streamed eqn:Hst.
  - apply (datas_streamed datas headed g1) in H as (fs & Hpush & Hout & ->); [|done..]. cbn in Hpush, Hout |- *.
    rewrite Hpush, Hout. cbn. destruct (Z.eqb_spec (rc_output g1) 0), (Z.eqb_spec (bu_output_tokens u) 0); cbn; split; naive_solver.
  - rewrite datas_whole in H by done. simplify_eq. cbn.
    destruct (from_str _) as [value|]; cbn; [|by split; [|intros [? _]]]. destruct (named_bail check _); cbn; [by split; [|intros [? _]]|].
    destruct (has_output _), (Z.eqb_spec (bu_output_tokens u) 0); cbn; split; naive_solver.
Qed.

Lemma datas_keep datas g g' : Forall plain datas → receive_items (map Ok datas) g = Ok g' → rc_success g' = rc_success g.
Proof.
  revert g. induction datas as [|d datas IH]; intros g Hp; [by intros [= ->]|]. inversion Hp; subst. cbn [map receive_items].
  destruct (receive_item (Ok d) g) as [g2|] eqn:Hd; [|done]. cbn [rbind]. intros Hdata. rewrite (IH g2) by done.
  destruct (rc_usage g) eqn:Hug; [cbn in Hd; by rewrite Hug in Hd|]. rewrite receive_plain in Hd by done. by apply receive_data_keeps in Hd as [-> _].
Qed.
Lemma receive_end_facts g u n : receive_end g = Ok (u, n) → rc_success g = Some true ∧ rc_usage g = Some u.
Proof.
  intros Hend. unfold receive_end in Hend. destruct (bool_decide_reflect (rc_success g = Some true)); [|done]. split; [done|].
  cbn [negb] in Hend. destruct (if streamed then _ else _) as [output|]; [|done]. cbn [rbind] in Hend. destruct (rc_usage g) as [u'|]; [|done].
  destruct (_ || _); [done|]. by simplify_eq.
Qed.
Lemma accepted_is_whole items u n : receive_gateway_answer items = Ok (u, n) → whole_answer items u n.
Proof.
  unfold receive_gateway_answer. destruct (receive_items items no_receipt) as [g|] eqn:Hrun; [|done]. cbn [rbind]. intros Hend.
  pose proof (receive_end_facts g u n Hend) as [Hs Hu]. destruct items as [|[head|] items]; [by simplify_eq/=| |done]. cbn [receive_items] in Hrun.
  destruct (sf_head head) as [h|] eqn:Hh.
  - cbn in Hrun. rewrite Hh in Hrun. cbn in Hrun. set (g0 := set_rc_success _ no_receipt) in Hrun.
    destruct (items_until_the_bill items g0 g u) as (datas & last & g1 & -> & Hp & Hl & Hlu & Hdata & Hbill); [done|by eexists|done|done|].
    apply receive_usage_Ok in Hbill as (Hv & Hg & Hst & ->). pose proof (datas_keep datas g0 g1 Hp Hdata) as Hkeep.
    assert (is_success (rh_status h) = true) as Hok by (cbn in Hs, Hkeep; congruence).
    subst g0. rewrite Hok in Hdata. apply (receive_end_Ok datas) in Hend as (Hout & Hn & Hbo); [|done|done].
    constructor; [|done..]. exists head, h, datas, last. done.
  - exfalso. destruct (sf_usage head) as [u'|] eqn:Hhu; [|by rewrite receive_plain in Hrun].
    rewrite (receive_usage_frame head u') in Hrun by done. destruct (receive_usage u' no_receipt) as [g0|] eqn:Hb; [|done]. cbn [rbind] in Hrun.
    apply receive_usage_Ok in Hb as (_ & _ & _ & ->). apply (usage_is_last _ _ _ u') in Hrun as [_ ->]; done.
Qed.
Lemma whole_is_accepted items u n : whole_answer items u n → receive_gateway_answer items = Ok (u, n).
Proof.
  unfold receive_gateway_answer. intros [(head & h & datas & last & -> & Hh & Hok & Hp & Hl & Hlu & Hout) Hv Hg Hbo Hn].
  assert (∃ g1, receive_items (map Ok datas) headed = Ok g1 ∧ (streamed = true → rc_output g1 ≠ 0) ∧ rc_usage g1 = None) as (g1 & Hrun & Ho & Hgu).
  { unfold answer_output in Hout. destruct streamed eqn:Hst; [|eexists; split; [by apply datas_whole|done]].
    destruct (push_all _ _) as [[fs|] frames'] eqn:Hpush; [|done]. destruct (frames_output fs 0) as [k|] eqn:Hk; [|done]. cbn in Hout. simplify_eq.
    exists (set_rc_output n (set_rc_frames frames' headed)). split; [|done]. apply datas_streamed; [done..|]. by exists fs. }
  cbn [receive_items]. change (receive_item (Ok head) no_receipt) with
    (match sf_head head, sf_usage head with
     | Some head, _ => Ok (set_rc_success (Some (is_success (rh_status head))) no_receipt)
     | None, Some usage => receive_usage usage no_receipt | None, None => receive_data (sf_data head) no_receipt end).
  rewrite Hh, Hok. cbn [rbind]. fold headed. rewrite receive_items_app, Hrun. cbn [rbind receive_items].
  rewrite (receive_usage_frame last u) by done. rewrite (proj2 (receive_usage_Ok u g1 (set_rc_usage (Some u) g1))); [|split_and!; [done|done|by auto|done]].
  cbn [rbind]. by apply (receive_end_Ok datas).
Qed.

(** A refused answer is no delivery. *)
Definition refusing {A} (r : Result DealOutcome A) : Prop := match r with Err DealDelivered => False | _ => True end.
Lemma refusing_bind {A B} (m : Result DealOutcome A) (k : A → Result DealOutcome B) :
  refusing m → (∀ a, refusing (k a)) → refusing (rbind m k).
Proof. intros Hm Hk. destruct m as [a|e]; [apply Hk|exact Hm]. Qed.
Lemma refusing_scam {E A} (f : E → text) (r : Result E A) : refusing (map_err (λ e, Scam (f e)) r).
Proof. by destruct r. Qed.
Lemma frames_output_refusing frames n : refusing (frames_output frames n).
Proof.
  revert n. induction frames as [|f frames IH]; intros n; [done|]. cbn. apply refusing_bind; [|intros; apply IH].
  apply refusing_bind; [apply (refusing_scam (λ e : string, f[e]))|]. intros [| |v facts]; [done|done|]. by destruct (named_bail check facts).
Qed.
Lemma receive_item_refusing item g : refusing (receive_item item g).
Proof.
  destruct item as [frame|error]; cbn; [|by destruct (_ =? _)]. destruct (bool_decide _); [done|].
  destruct (sf_head frame); [by destruct (bool_decide _)|]. destruct (sf_usage frame) as [u|].
  - unfold receive_usage. apply refusing_bind; [apply (refusing_scam (λ e : text, e))|]. intros _. destruct (billable_tokens u >? _); [done|]. by destruct (streamed && _).
  - unfold receive_data. destruct (rc_success g) as [[]|]; [|done..]. destruct (negb streamed); [done|]. destruct (push _ _) as [r frames].
    apply refusing_bind; [apply (refusing_scam (λ e : string, f[e]))|]. intros complete.
    apply refusing_bind; [apply frames_output_refusing|done].
Qed.
Lemma receive_end_refusing g : refusing (receive_end g).
Proof.
  unfold receive_end. destruct (negb _); [done|]. apply refusing_bind.
  - destruct streamed; [done|]. apply refusing_bind; [apply (refusing_scam (λ e : string, f["provider response is not JSON: "; e]))|].
    intros value. by destruct (named_bail check _).
  - intros output. destruct (rc_usage g) as [u|]; [by destruct (_ || _)|by destruct (output =? 0)].
Qed.
Lemma receive_never_delivers items : receive_gateway_answer items ≠ Err DealDelivered.
Proof.
  enough (refusing (receive_gateway_answer items)) as H by by destruct (receive_gateway_answer items) as [|[]].
  unfold receive_gateway_answer. generalize no_receipt as g. induction items as [|item items IH]; intros g; [apply receive_end_refusing|].
  cbn [receive_items]. pose proof (receive_item_refusing item g) as Hi. destruct (receive_item item g) as [g1|e]; [apply IH|done].
Qed.

(** C28: The answer of a deal counts as delivered exactly when the stream is a successful head, data, and
    one bill at its end, the bill is well formed, within the grant and for a positive output, the
    data are complete frames (or one JSON body) that state output, and every model they name is the
    deal's; the usage and the number of outputs are what the stream says. *)
Theorem answer_accepted_iff items u n : receive_gateway_answer items = Ok (u, n) ↔ whole_answer items u n.
Proof. split; [apply accepted_is_whole|apply whole_is_accepted]. Qed.
End Gateway.

(** ** A request that the buyer writes itself *)

(** Where an exchange reports what it costs: the usage history, the output that is delivered, and
    the budget that pays. *)
Record Account (S : Type) : Type := {
  ac_observe : option BillingUsage → S → S; ac_output : Z → Op S text (); ac_tokens : BillingUsage → Op S text ();
}.
#[global] Arguments ac_observe {_}.
#[global] Arguments ac_output {_}.
#[global] Arguments ac_tokens {_}.

Record StreamOutcome : Type := { so_tokens : list string; so_reasoning : list string; so_received : Z; so_usage : BillingUsage }.
Definition op_try {S A} (r : Result text A) : Op S text A := op_ret r.
Definition bail {S A} (message : string) : Op S text A := op_ret (Err f[message]).

Section Exchange.
Context {S : Type} (account : Account S) (format : ApiFormat) (billing_grant_tokens : Z).

Record Exchange : Type := {
  ex_status : option Z; ex_frames : SseFrames; ex_whole : bytes; ex_tokens : list string; ex_reasoning : list string;
  ex_received : Z; ex_usage : option BillingUsage; ex_whole_frames : Z; ex_inspected : bool;
}.
Definition new_exchange : Exchange := {|
  ex_status := None; ex_frames := SseFrames_default; ex_whole := []; ex_tokens := []; ex_reasoning := []; ex_received := 0;
  ex_usage := None; ex_whole_frames := 0; ex_inspected := false |}.
Definition set_ex_status (v : option Z) (d : Exchange) : Exchange := {|
  ex_status := v; ex_frames := ex_frames d; ex_whole := ex_whole d; ex_tokens := ex_tokens d;
  ex_reasoning := ex_reasoning d; ex_received := ex_received d; ex_usage := ex_usage d;
  ex_whole_frames := ex_whole_frames d; ex_inspected := ex_inspected d |}.
Definition set_ex_frames (v : SseFrames) (d : Exchange) : Exchange := {|
  ex_status := ex_status d; ex_frames := v; ex_whole := ex_whole d; ex_tokens := ex_tokens d;
  ex_reasoning := ex_reasoning d; ex_received := ex_received d; ex_usage := ex_usage d;
  ex_whole_frames := ex_whole_frames d; ex_inspected := ex_inspected d |}.
Definition set_ex_whole (v : bytes) (d : Exchange) : Exchange := {|
  ex_status := ex_status d; ex_frames := ex_frames d; ex_whole := v; ex_tokens := ex_tokens d;
  ex_reasoning := ex_reasoning d; ex_received := ex_received d; ex_usage := ex_usage d;
  ex_whole_frames := ex_whole_frames d; ex_inspected := ex_inspected d |}.
Definition set_ex_tokens (v : list string) (d : Exchange) : Exchange := {|
  ex_status := ex_status d; ex_frames := ex_frames d; ex_whole := ex_whole d; ex_tokens := v;
  ex_reasoning := ex_reasoning d; ex_received := ex_received d; ex_usage := ex_usage d;
  ex_whole_frames := ex_whole_frames d; ex_inspected := ex_inspected d |}.
Definition set_ex_reasoning (v : list string) (d : Exchange) : Exchange := {|
  ex_status := ex_status d; ex_frames := ex_frames d; ex_whole := ex_whole d; ex_tokens := ex_tokens d;
  ex_reasoning := v; ex_received := ex_received d; ex_usage := ex_usage d; ex_whole_frames := ex_whole_frames d;
  ex_inspected := ex_inspected d |}.
Definition set_ex_received (v : Z) (d : Exchange) : Exchange := {|
  ex_status := ex_status d; ex_frames := ex_frames d; ex_whole := ex_whole d; ex_tokens := ex_tokens d;
  ex_reasoning := ex_reasoning d; ex_received := v; ex_usage := ex_usage d; ex_whole_frames := ex_whole_frames d;
  ex_inspected := ex_inspected d |}.
Definition set_ex_usage (v : option BillingUsage) (d : Exchange) : Exchange := {|
  ex_status := ex_status d; ex_frames := ex_frames d; ex_whole := ex_whole d; ex_tokens := ex_tokens d;
  ex_reasoning := ex_reasoning d; ex_received := ex_received d; ex_usage := v; ex_whole_frames := ex_whole_frames d;
  ex_inspected := ex_inspected d |}.
Definition set_ex_whole_frames (v : Z) (d : Exchange) : Exchange := {|
  ex_status := ex_status d; ex_frames := ex_frames d; ex_whole := ex_whole d; ex_tokens := ex_tokens d;
  ex_reasoning := ex_reasoning d; ex_received := ex_received d; ex_usage := ex_usage d; ex_whole_frames := v;
  ex_inspected := ex_inspected d |}.
Definition set_ex_inspected (v : bool) (d : Exchange) : Exchange := {|
  ex_status := ex_status d; ex_frames := ex_frames d; ex_whole := ex_whole d; ex_tokens := ex_tokens d;
  ex_reasoning := ex_reasoning d; ex_received := ex_received d; ex_usage := ex_usage d;
  ex_whole_frames := ex_whole_frames d; ex_inspected := v |}.
Definition whole_output (body : bytes) : option ResponseFacts :=
  let* value := result_ok (from_str (of_bytes body)) in
  let stated := inspect_body format value in if has_output stated then Some stated else None.
Definition push_output (stated : ResponseFacts) (x : Exchange) : Exchange :=
  let x := if String.eqb (rf_text stated) "" then x else set_ex_tokens (ex_tokens x ++ [rf_text stated]) x in
  if String.eqb (rf_reasoning stated) "" then x else set_ex_reasoning (ex_reasoning x ++ [rf_reasoning stated]) x.
(** One output: the account hears of it first. *)
Definition take_output (stated : ResponseFacts) (x : Exchange) : Op S text Exchange :=
  do _ <- ac_output account 1;
  op_ret (Ok (set_ex_received (ex_received x + 1) (push_output stated x))).
Fixpoint take_outputs (stated : list ResponseFacts) (x : Exchange) : Op S text Exchange :=
  match stated with [] => op_ret (Ok x) | f :: stated => do x <- take_output f x; take_outputs stated x end.

Definition status_ok (x : Exchange) : bool := match ex_status x with Some status => is_success status | None => false end.
Definition exchange_usage (streamed : bool) (usage : BillingUsage) (x : Exchange) : Op S text Exchange :=
  do x <- (if negb streamed && status_ok x && negb (ex_inspected x) then
             let x := set_ex_inspected true x in
             match whole_output (ex_whole x) with Some stated => take_output stated x | None => op_ret (Ok x) end
           else op_ret (Ok x));
  do _ <- op_try (BillingUsage_validate usage);
  if billable_tokens usage >? billing_grant_tokens then
    op_ret (Err f["terminal billable usage "; billable_tokens usage; " exceeds billing grant "; billing_grant_tokens])
  else if (ex_received x =? 0) || (bu_output_tokens usage =? 0) then bail "terminal billing usage has no preceding delivered output"
  else do _ <- op_write (ac_observe account (Some usage)); op_ret (Ok (set_ex_usage (Some usage) x)).
Definition exchange_whole (status : Z) (b : bytes) (x : Exchange) : Op S text Exchange :=
  let x := set_ex_whole (ex_whole x ++ b) x in
  if Z.of_nat (length (ex_whole x)) >? UPSTREAM_RESPONSE_BODY_MAX_BYTES then bail "the seller's answer exceeds the buyer's response size limit"
  else
    let x := set_ex_whole_frames (ex_whole_frames x + 1) x in
    if is_success status && (ex_whole_frames x =? 1) then
      match whole_output (ex_whole x) with Some stated => take_output stated (set_ex_inspected true x) | None => op_ret (Ok x) end
    else op_ret (Ok x).
Definition stated_facts (frame : SseFrame) : Result text (option ResponseFacts) :=
  let? parsed := map_err (λ e : string, f[e]) (parse_frame from_str format (fr_text frame)) in
  Ok (match parsed with FrameEvent _ facts => Some facts | _ => None end).
Definition exchange_frames (b : bytes) (x : Exchange) : Op S text Exchange :=
  let '(complete, frames) := push b (ex_frames x) in
  let x := set_ex_frames frames x in
  do complete <- op_try (map_err (λ e : string, f[e]) complete);
  do facts <- op_try (collect stated_facts complete);
  take_outputs (List.filter has_output (omap (λ o, o) facts)) x.
Definition exchange_item (streamed : bool) (item : Item) (x : Exchange) : Op S text Exchange :=
  match item with
  | Err error => bail (shown error)
  | Ok frame =>
      if bool_decide (is_Some (ex_usage x)) then bail "response content followed terminal billing usage" else
      match sf_head frame, sf_usage frame with
      | Some head, _ =>
          if bool_decide (is_Some (ex_status x)) then bail "the seller stated a second response head"
          else op_ret (Ok (set_ex_status (Some (rh_status head)) x))
      | None, Some usage => exchange_usage streamed usage x
      | None, None =>
          match ex_status x with
          | None => bail "response content arrived before its response head"
          | Some status =>
              if negb (is_success status) || negb streamed then exchange_whole status (sf_data frame) x else exchange_frames (sf_data frame) x
          end
      end
  end.
Fixpoint exchange_items (streamed : bool) (items : list Item) (x : Exchange) : Op S text Exchange :=
  match items with
  | [] => op_ret (Ok x)
  | item :: items => do x <- exchange_item streamed item x; exchange_items streamed items x
  end.
Definition exchange_end (x : Exchange) : Op S text StreamOutcome :=
  match (let* status := ex_status x in if is_success status then None else Some status) with
  | Some status => op_ret (Err f["the provider answered HTTP "; status; ": "; from_utf8_lossy (ex_whole x)])
  | None =>
      do usage <- op_try (ok_or (ex_usage x) f["response stream ended without terminal billing usage"]);
      do _ <- ac_tokens account usage;
      op_ret (Ok {| so_tokens := ex_tokens x; so_reasoning := ex_reasoning x; so_received := ex_received x; so_usage := usage |})
  end.
(** [opened]: the seller's stream, or why none was opened. *)
Definition exchange (body : bytes) (opened : Result text (list Item)) : Op S text StreamOutcome :=
  do _ <- op_write (ac_observe account None);
  do request <- op_try (map_err (λ e : string, f[e]) (RequestBody_parse (λ b, from_str (of_bytes b)) body));
  do items <- op_try opened;
  do x <- exchange_items (body_stream request) items new_exchange;
  exchange_end x.

(** *** What an exchange costs *)

(** The account is told of [n] outputs. *)
Fixpoint outputs (n : nat) : Op S text () :=
  match n with O => op_ret (Ok ()) | Datatypes.S n => do _ <- ac_output account 1; outputs n end.
Definition fair_bill (u : BillingUsage) : Prop :=
  BillingUsage_validate u = Ok () ∧ billable_tokens u ≤ billing_grant_tokens ∧ bu_output_tokens u ≠ 0.
Lemma outputs_snoc n s s1 : outputs n s = (Ok (), s1) → outputs (Datatypes.S n) s = ac_output account 1 s1.
Proof.
  revert s. induction n as [|n IH]; intros s H.
  - injection H as ->. cbn [outputs]. unfold op_bind, op_ret. by destruct (ac_output account 1 s1) as [[[]|e] s2].
  - change (op_bind (ac_output account 1) (λ _, outputs n) s = (Ok (), s1)) in H. unfold op_bind in H.
    change (op_bind (ac_output account 1) (λ _, outputs (Datatypes.S n)) s = ac_output account 1 s1). unfold op_bind at 1.
    destruct (ac_output account 1 s) as [[[]|e] s2]; [|done]. by apply IH.
Qed.
(** From [s0] the account has heard of every output so far, and of the bill if there was one. *)
Definition told (s0 : S) (x : Exchange) (s : S) : Prop :=
  ∃ n s1, outputs n s0 = (Ok (), s1) ∧ ex_received x = Z.of_nat n ∧
    match ex_usage x with None => s = s1 | Some u => s = ac_observe account (Some u) s1 ∧ n ≠ 0%nat ∧ fair_bill u end.
(** The state of an account after an exchange that failed: nothing was charged. *)
Definition uncharged (s0 s : S) : Prop :=
  ∃ n r s1, outputs n s0 = (r, s1) ∧ (s = s1 ∨ ∃ u, r = Ok () ∧ fair_bill u ∧ s = ac_observe account (Some u) s1).
Definition tells (s0 : S) (m : Op S text Exchange) (s : S) : Prop :=
  wp m (λ r s', match r with Ok x => told s0 x s' | Err _ => uncharged s0 s' end) s.
Lemma told_uncharged s0 x s : told s0 x s → uncharged s0 s.
Proof.
  intros (n & s1 & Hout & _ & Hu). exists n, (Ok ()), s1. split; [done|]. destruct (ex_usage x) as [u|]; [|by left].
  destruct Hu as (-> & _ & Hu). right. by exists u.
Qed.
Lemma tells_error s0 x (e : text) s : told s0 x s → tells s0 (op_ret (Err e)) s.
Proof. apply told_uncharged. Qed.
Lemma tells_same s0 x x' s : told s0 x s → ex_received x' = ex_received x → ex_usage x' = ex_usage x → tells s0 (op_ret (Ok x')) s.
Proof. intros (n & s1 & ? & ? & ?) Hr Hu. exists n, s1. by rewrite Hr, Hu. Qed.
Lemma push_output_keeps f x : ex_received (push_output f x) = ex_received x ∧ ex_usage (push_output f x) = ex_usage x.
Proof. unfold push_output. by destruct (String.eqb (rf_text f) ""), (String.eqb (rf_reasoning f) ""). Qed.
Lemma take_output_tells s0 f x s : told s0 x s → ex_usage x = None →
  wp (take_output f x) (λ r s', match r with Ok x' => told s0 x' s' ∧ ex_usage x' = None | Err _ => uncharged s0 s' end) s.
Proof.
  intros (n & s1 & Hout & Hn & Hu) Hx. rewrite Hx in Hu. subst s1. unfold wp, take_output, op_bind.
  pose proof (outputs_snoc n s0 s Hout) as Hsnoc. destruct (ac_output account 1 s) as [[[]|e] s2].
  - destruct (push_output_keeps f x) as [_ Hkeep]. split; [|cbn; congruence]. exists (Datatypes.S n), s2. cbn. rewrite Hkeep, Hx. split_and!; [done|lia|done].
  - exists (Datatypes.S n), (Err e), s2. cbn. split; [done|by left].
Qed.
Lemma take_outputs_tells s0 stated x s : told s0 x s → ex_usage x = None → tells s0 (take_outputs stated x) s.
Proof.
  revert x s. induction stated as [|f stated IH]; intros x s Ht Hx; [done|]. cbn [take_outputs]. unfold tells. apply wp_bind.
  apply (wp_mono _ _ _ _ (take_output_tells s0 f x s Ht Hx)). intros [x'|e] s'; [|done]. intros [? ?]. by apply IH.
Qed.
Lemma exchange_usage_tells s0 streamed u x s : told s0 x s → ex_usage x = None → tells s0 (exchange_usage streamed u x) s.
Proof.
  intros Ht Hx. unfold exchange_usage, tells. apply wp_bind.
  assert (Hrest : ∀ x' s', told s0 x' s' ∧ ex_usage x' = None →
    tells s0 (do _ <- op_try (BillingUsage_validate u);
      if billable_tokens u >? billing_grant_tokens then
        op_ret (Err f["terminal billable usage "; billable_tokens u; " exceeds billing grant "; billing_grant_tokens])
      else if (ex_received x' =? 0) || (bu_output_tokens u =? 0) then bail "terminal billing usage has no preceding delivered output"
      else do _ <- op_write (ac_observe account (Some u)); op_ret (Ok (set_ex_usage (Some u) x'))) s').
  { intros x' s' [Ht' Hx']. apply wp_check; [intros [] Hv|intros ? _; by eapply told_uncharged].
    destruct (Z.gtb_spec (billable_tokens u) billing_grant_tokens) as [|Hg]; [by eapply told_uncharged|].
    destruct (Z.eqb_spec (ex_received x') 0) as [|Hr]; [by eapply told_uncharged|].
    destruct (Z.eqb_spec (bu_output_tokens u) 0) as [|Ho]; [by eapply told_uncharged|]. cbn [orb]. apply wp_set.
    destruct Ht' as (n & s1 & Hout & Hn & Hs). rewrite Hx' in Hs. subst s1. exists n, s'. cbn. split_and!; [done|done|done|lia|by split_and!]. }
  destruct (negb streamed && status_ok x && negb (ex_inspected x)); [|exact (Hrest x s (conj Ht Hx))].
  cbv zeta. destruct (whole_output _) as [f|]; [|exact (Hrest (set_ex_inspected true x) s (conj Ht Hx))].
  apply (wp_mono _ _ _ _ (take_output_tells s0 f (set_ex_inspected true x) s Ht Hx)). intros [x'|e] s'; [apply Hrest|done].
Qed.
Lemma exchange_item_tells s0 streamed item x s : told s0 x s → tells s0 (exchange_item streamed item x) s.
Proof.
  intros Ht. destruct item as [frame|error]; [|by eapply told_uncharged]. cbn [exchange_item].
  destruct (ex_usage x) as [u|] eqn:Hx; [by eapply told_uncharged|]. rewrite bool_decide_eq_false_2 by by intros [].
  destruct (sf_head frame) as [head|].
  { destruct (bool_decide _); [by eapply told_uncharged|]. by eapply tells_same. }
  destruct (sf_usage frame) as [u|]; [by apply exchange_usage_tells|]. destruct (ex_status x) as [status|]; [|by eapply told_uncharged].
  destruct (negb (is_success status) || negb streamed).
  - unfold exchange_whole. destruct (Z.of_nat _ >? _); [by eapply told_uncharged|]. destruct (_ && _); [|by eapply tells_same].
    destruct (whole_output _) as [f|]; [|by eapply tells_same].
    eapply wp_mono; [eapply (take_output_tells s0 f); [|done]; destruct Ht as (n & s1 & ?); by exists n, s1|]. intros [x'|e] s'; [|done]. by intros [? _].
  - unfold exchange_frames. destruct (push (sf_data frame) (ex_frames x)) as [complete frames].
    apply wp_check; [intros complete' _|intros ? _; by eapply told_uncharged]. apply wp_check; [intros facts _|intros ? _; by eapply told_uncharged].
    apply take_outputs_tells; [|done]. destruct Ht as (n & s1 & ?). by exists n, s1.
Qed.
Lemma exchange_items_tell s0 streamed items x s : told s0 x s → tells s0 (exchange_items streamed items x) s.
Proof.
  revert x s. induction items as [|item items IH]; intros x s Ht; [done|]. cbn [exchange_items]. unfold tells. apply wp_bind.
  pose proof (exchange_item_tells s0 streamed item x s Ht) as Hitem. unfold tells in Hitem. apply (wp_mono _ _ _ _ Hitem).
  intros [x'|e] s'; [apply IH|done].
Qed.

(** An exchange tells its account of every output as it comes, at least of one, and then charges
    once: a bill that is well formed, within the grant and for a positive output.  One that fails
    has charged nothing, unless it was the charge that failed. *)
Theorem exchange_charges_once body opened s :
  let s0 := ac_observe account None s in
  match exchange body opened s with
  | (Ok out, s') => ∃ s1, outputs (Z.to_nat (so_received out)) s0 = (Ok (), s1) ∧ 0 < so_received out ∧ fair_bill (so_usage out) ∧
      ac_tokens account (so_usage out) (ac_observe account (Some (so_usage out)) s1) = (Ok (), s')
  | (Err e, s') => uncharged s0 s' ∨ ∃ u s1, fair_bill u ∧ uncharged s0 s1 ∧ ac_tokens account u s1 = (Err e, s')
  end.
Proof.
  cbn zeta. set (s0 := ac_observe account None s).
  assert (Hstart : told s0 new_exchange s0) by by exists 0%nat, s0.
  enough (wp (exchange body opened) (λ r s', match r with
    | Ok out => ∃ s1, outputs (Z.to_nat (so_received out)) s0 = (Ok (), s1) ∧ 0 < so_received out ∧ fair_bill (so_usage out) ∧
        ac_tokens account (so_usage out) (ac_observe account (Some (so_usage out)) s1) = (Ok (), s')
    | Err e => uncharged s0 s' ∨ ∃ u s1, fair_bill u ∧ uncharged s0 s1 ∧ ac_tokens account u s1 = (Err e, s') end) s) as H.
  { unfold wp in H. by destruct (exchange body opened s) as [[out|e] s']. }
  unfold exchange. apply wp_set. fold s0.
  apply wp_check; [intros request _|intros ? _; left; by eapply told_uncharged].
  apply wp_check; [intros items _|intros ? _; left; by eapply told_uncharged]. apply wp_bind.
  pose proof (exchange_items_tell s0 (body_stream request) items new_exchange s0 Hstart) as Hitems. unfold tells in Hitems.
  apply (wp_mono _ _ _ _ Hitems). intros [x|e] s'; [|by left]. intros Ht. unfold exchange_end.
  pose proof (told_uncharged s0 x s' Ht) as Hun. destruct (let* status := ex_status x in _); [by left|].
  apply wp_check; [intros u Hu|intros ? _; by left]. apply ok_or_Ok in Hu. destruct Ht as (n & s1 & Hout & Hn & Hx). rewrite Hu in Hx.
  destruct Hx as (-> & Hne & Hfair). unfold wp, op_bind. destruct (ac_tokens account u _) as [[[]|e] s2] eqn:Hcharge.
  - exists s1. cbn. rewrite Hn, Nat2Z.id. split_and!; [done|lia|exact Hfair|done].
  - right. by exists u, (ac_observe account (Some u) s1).
Qed.
End Exchange.

(** ** What the probes compare *)

Section Probes.
Context (to_vec : Value → bytes) (env_var : string → option string) (to_uppercase : bytes → bytes) (to_lowercase : string → list string)
  (is_alphanumeric : string → bool) (two_places : Z → Z → string) (models : ModelsConfig).

Definition fingerprints_for (model_id : string) : list FingerprintCfg :=
  match resolve_model_cfg model_id models with Some m => mc_fingerprints m | None => [] end.
Definition default_probe (model_id : string) : option string := option_map fg_probe_prompt (head (fingerprints_for model_id)).
Definition behavioral_check_with_reasoning (model_id probe_prompt response reasoning : string) : Verdict :=
  match List.find (λ fp, String.eqb (fg_probe_prompt fp) probe_prompt) (fingerprints_for model_id) with
  | None => Pass
  | Some fp =>
      if contains (fg_expected_contains fp) response || fg_accepts_reasoning fp && negb (is_blank reasoning) then Pass
      else Bail f["behavioral-probe (): the probe response does not carry model '"; model_id; "' quirk ('"; fg_expected_contains fp;
                  "') -- model is not the declared one"]
  end.
Record ReferenceEndpoint : Type := { re_base_url : string; re_model : string; re_api_key_env : string; re_sample_algorithm : SampleAlgorithm }.
Definition reference_endpoint (m : ModelConfig) : ReferenceEndpoint := {|
  re_base_url := mc_base_url m; re_model := mc_served_model m; re_api_key_env := mc_api_key_env m;
  re_sample_algorithm := mc_sample_algorithm m |}.
Definition reference_endpoint_for (model_id : string) : option ReferenceEndpoint :=
  let id := trim model_id in
  let* cfg := (match models_get id models with
               | Some m => Some m
               | None => List.find (λ m, String.eqb (mc_served_model m) id) (models_values models)
               end) in
  match mc_sample_algorithm cfg with NoSampling => None | _ => Some (reference_endpoint cfg) end.
Definition family_of (model : string) : string :=
  let m := to_ascii_lowercase model in
  unwrap_or ""%string (List.find (λ fam, contains fam m) ["qwen"; "llama"; "gpt"; "mixtral"; "gemma"]%string).

(** The words of a text: runs of letters or of digits.  A character is its UTF-8 text. *)
Record Words : Type := { wd_words : list string; wd_current : string; wd_digit : option bool }.
Definition is_digit_char (ch : string) : bool := match ch with String c EmptyString => is_ascii_digit c | _ => false end.
Definition normalize_char (w : Words) (ch : string) : Words :=
  let closed := wd_words w ++ [wd_current w] in
  let empty := String.eqb (wd_current w) "" in
  if negb (is_alphanumeric ch) then
    if empty then w else {| wd_words := closed; wd_current := ""; wd_digit := None |}
  else
    let digit := is_digit_char ch in
    let split := match wd_digit w with Some prev => negb (Bool.eqb prev digit) | None => false end && negb empty in
    {| wd_words := if split then closed else wd_words w;
       wd_current := (if split then "" else wd_current w) +:+ ch; wd_digit := Some digit |}.
Definition normalize_words (s : string) : list string :=
  let w := fold_left normalize_char (to_lowercase s) {| wd_words := []; wd_current := ""; wd_digit := None |} in
  if String.eqb (wd_current w) "" then wd_words w else wd_words w ++ [wd_current w].
Fixpoint common_prefix (a b : list string) : Z :=
  match a, b with x :: a, y :: b => if String.eqb x y then 1 + common_prefix a b else 0 | _, _ => 0 end.
(** The agreement as a fraction. *)
Definition prefix_agreement (seller reference : string) : Z * Z :=
  let a := normalize_words seller in
  let b := normalize_words reference in
  match a, b with [], _ | _, [] => (0, 1) | _, _ => (common_prefix a b, Z.of_nat (length b)) end.
(** The threshold is a quarter, which is a floating-point number, and the quotient of two counts is
    rounded to nearest: it is below a quarter exactly when the fraction is. *)
Definition spotcheck_verdict (agreement : Z * Z) : Verdict :=
  if 4 * agreement.1 >=? agreement.2 then Pass
  else Bail f["reference-spotcheck (): agreement with the reference "; two_places agreement.1 agreement.2;
              " < threshold 0.25 -- greedy output did not match the official model"].
Definition content_or_reasoning (content reasoning : string) : string := if is_blank content && negb (is_blank reasoning) then reasoning else content.

(** *** The policy before anything is paid *)

Inductive ContentCheck : Type := CheckSkip | CheckProbe (model_id : string).
Definition content_check_policy (frame_model : string) (identity_model : option string) (mock_model allow_unverified has_ref_key : bool)
    : Result text ContentCheck :=
  let identity := unwrap_or frame_model identity_model in
  if mock_model then Ok CheckSkip
  else if bool_decide (is_Some (default_probe identity)) || has_ref_key then Ok (CheckProbe identity)
  else if allow_unverified then Ok CheckSkip
  else Err f["model `"; frame_model; "` (family `"; family_of frame_model;
             "`) has no exact content-identity check (no B8 fingerprint, no B7 reference/key); refusing to buy on name-only evidence. Pass --allow-unverified-model to accept name-only identity."].
Definition reference_key (model_id : string) : option (ReferenceEndpoint * string) :=
  let* endpoint := reference_endpoint_for model_id in
  let* key := env_var (re_api_key_env endpoint) in
  if String.eqb key "" then None else Some (endpoint, key).
Definition gateway_content_refusal (expected_model : string) (mock_model allow_unverified : bool) : option text :=
  match content_check_policy expected_model None mock_model allow_unverified (bool_decide (is_Some (reference_key expected_model))) with
  | Err e => Some e
  | Ok _ => None
  end.

(** *** The probes *)

Definition REFERENCE_SAMPLE_SEED : Z := 0.
Definition REFERENCE_TOP_K : Z := 1.
Definition DEFAULT_SPOTCHECK_PROBE : string := "What is 17 times 23? Show your step-by-step reasoning.".
Definition sample_field (algorithm : SampleAlgorithm) (body : JsonMap) : JsonMap :=
  match algorithm with
  | Seed => assoc_insert "seed" (Num (PosInt REFERENCE_SAMPLE_SEED)) body
  | RandomSeed => assoc_insert "random_seed" (Num (PosInt REFERENCE_SAMPLE_SEED)) body
  | TopK => assoc_insert "top_k" (Num (PosInt REFERENCE_TOP_K)) body
  | NoSampling => body
  end.
Definition probe_body (format : ApiFormat) (model prompt : string) (max_tokens : Z) (greedy : option SampleAlgorithm) : bytes :=
  let body := match format with
    | Responses => [("model", Str model); ("input", Str prompt); ("max_output_tokens", Num (PosInt max_tokens)); ("stream", Bool false)]
    | _ => [("model", Str model); ("messages", Array [Object [("role", Str "user"); ("content", Str prompt)]]);
            ("max_tokens", Num (PosInt max_tokens)); ("stream", Bool false)]
    end%string in
  to_vec (Object (match greedy with
                  | Some algorithm => sample_field algorithm (assoc_insert "temperature"%string (Num (Float "0.0")) body)
                  | None => body
                  end)).
(** *** The reference endpoint *)

Definition reference_request_body (endpoint : ReferenceEndpoint) (prompt : string) (max_tokens : Z) : Value :=
  Object (sample_field (re_sample_algorithm endpoint)
    [("model", Str (re_model endpoint)); ("messages", Array [Object [("role", Str "user"); ("content", Str prompt)]]);
     ("temperature", Num (Float "0.0")); ("max_tokens", Num (PosInt max_tokens)); ("stream", Bool false)]%string).
Definition stated_text (field : string) (v : Value) : option string :=
  let* text := as_str (index field v) in if is_blank text then None else Some text.
Definition reference_reasoning_text (message : Value) : string :=
  str_join (of_bytes [LF])
    (omap (λ field, stated_text field message) ["reasoning"; "reasoning_content"]%string
     ++ flat_map (λ detail, omap (λ field, stated_text field detail) ["text"; "summary"]%string)
          (unwrap_or [] (as_array (index "reasoning_details" message)))).
Definition reference_text (v : Value) : string :=
  let choice := match as_array (index "choices" v) with Some (choice :: _) => choice | _ => Null end in
  let message := index "message" choice in
  content_or_reasoning (unwrap_or ""%string (as_str (index "content" message))) (reference_reasoning_text message).

(** What the network answers to one probe: the paths that the seller declares, its stream for the
    body that is sent, the JSON of the reference endpoint for its request. *)
Record ProbeAnswers : Type := {
  pa_api_paths : Result text (list string); pa_stream : bytes → Result text (list Item); pa_reference : Value → Result text Value;
}.
Definition outdated : text := f["the seller runs an older dexdo that cannot forward this request; it must update"].
Definition probe_format (paths : list string) : Result text ApiFormat :=
  let formats := omap from_path paths in
  match List.find (λ f, bool_decide (f = ChatCompletions)) formats with
  | Some f => Ok f
  | None => ok_or (head formats) outdated
  end.
Definition cannot_pay (deal : string) : text :=
  f["deal "; deal; ": the admitted grant cannot pay for the identity verification this deal still owes; refusing rather than probing on credit"].

Section Probe.
Context {S : Type} (account : Account S) (deal model_id wire_model : string) (output_limit_tokens billing_grant_tokens : Z) (answers : ProbeAnswers).
(** The part the two probes share: one exchange with the seller. *)
Definition probe (prompt : string) (greedy : option SampleAlgorithm) : Op S text StreamOutcome :=
  if billing_grant_tokens =? 0 then op_ret (Err (cannot_pay deal)) else
  do paths <- op_try (pa_api_paths answers);
  do format <- op_try (probe_format paths);
  let body := probe_body format wire_model prompt output_limit_tokens greedy in
  exchange account format billing_grant_tokens body (pa_stream answers body).
Definition behavioral_probe : Op S text Verdict :=
  match default_probe model_id with
  | None => op_ret (Ok Pass)
  | Some probe_prompt =>
      do outcome <- probe probe_prompt None;
      op_ret (Ok (behavioral_check_with_reasoning model_id probe_prompt (str_join "" (so_tokens outcome)) (str_join "" (so_reasoning outcome))))
  end.
Definition reference_spotcheck : Op S text Verdict :=
  match reference_key model_id with
  | None => op_ret (Ok Pass)
  | Some (endpoint, _) =>
      do outcome <- probe DEFAULT_SPOTCHECK_PROBE (Some (re_sample_algorithm endpoint));
      let request := reference_request_body endpoint DEFAULT_SPOTCHECK_PROBE (unwrap_or (umax u32) (try_into u32 output_limit_tokens)) in
      op_ret (Ok (match pa_reference answers request with
                  | Err _ => Pass
                  | Ok reference =>
                      spotcheck_verdict (prefix_agreement
                        (content_or_reasoning (str_join "" (so_tokens outcome)) (str_join "" (so_reasoning outcome)))
                        (reference_text reference))
                  end))
  end.
End Probe.

(** *** The runner of one deal *)

(** The budget of a deal pays for the probes; nothing else is told. *)
Definition route_account : Account Z := {|
  ac_observe := λ _ remaining, remaining;
  ac_output := λ _, op_ret (Ok ());
  ac_tokens := λ usage remaining,
    match checked_sub remaining (billable_tokens usage) with
    | Some remaining => (Ok (), remaining)
    | None => (Err f["identity verification exceeded route billing grant"], remaining)
    end |}.
Record GatewayDealRunner : Type := {
  gr_request : bytes; gr_expected_model : string; gr_billing_grant_tokens : Z; gr_mock_model : bool; gr_allow_unverified : bool;
}.
(** What the network answers to one deal: the handover, the stream of the request, the probes. *)
Record DealAnswers : Type := { da_handover : Result text (); da_stream : Result text (list Item); da_b7 : ProbeAnswers; da_b8 : ProbeAnswers }.
Definition audit (name : string) (m : Op Z text Verdict) : Op Z DealOutcome () :=
  do verdict <- op_map_err (λ e, Scam (Lit ("spot-check " +:+ name +:+ " failed: ") :: e)) m;
  op_ret (match verdict with Pass => Ok () | Bail reason => Err (Scam (Lit ("spot-check " +:+ name +:+ ": ") :: reason)) end).
(** An outcome other than a delivery ends the run; the state is the grant that is left. *)
Definition run_audited (r : GatewayDealRunner) (deal : string) (answers : DealAnswers) (spot_check : bool) : Op Z DealOutcome () :=
  if negb spot_check then op_ret (Ok ()) else
  do remaining <- op_read Ok;
  do _ <- audit "B7" (reference_spotcheck route_account deal (gr_expected_model r) (gr_expected_model r)
                        (Z.min CONTENT_PROBE_MAX_TOKENS remaining) remaining (da_b7 answers));
  do remaining <- op_read Ok;
  audit "B8" (behavioral_probe route_account deal (gr_expected_model r) (gr_expected_model r)
                (Z.min CONTENT_PROBE_MAX_TOKENS remaining) remaining (da_b8 answers)).
Definition request_streamed (r : GatewayDealRunner) : bool :=
  match RequestBody_parse (λ b, from_str (of_bytes b)) (gr_request r) with Ok body => body_stream body | Err _ => false end.
Definition deal_check (r : GatewayDealRunner) : ModelCheck := ModelCheck_new to_uppercase (gr_expected_model r) (Some models).
Definition run_deal (r : GatewayDealRunner) (deal : string) (answers : DealAnswers) (spot_check : bool) : Op Z DealOutcome () :=
  do _ <- op_ret (map_err (λ _, NoShow) (da_handover answers));
  do items <- op_ret (map_err (λ _, NoShow) (da_stream answers));
  do receipt <- op_ret (receive_gateway_answer ChatCompletions (request_streamed r) (deal_check r) (gr_billing_grant_tokens r) items);
  let '(terminal_usage, received_output) := receipt in
  if received_output =? 0 then op_ret (Err NoShow) else
  do remaining <- op_ret (ok_or (checked_sub (gr_billing_grant_tokens r) (billable_tokens terminal_usage))
                            (scam "terminal billable usage exceeded route grant"));
  do _ <- op_write (λ _, remaining);
  do _ <- run_audited r deal answers spot_check;
  op_ret (match gateway_content_refusal (gr_expected_model r) (gr_mock_model r) (gr_allow_unverified r) with
          | Some reason => Err (Scam (Lit "content-identity refused (fail-closed): " :: reason))
          | None => Ok ()
          end).
Definition run (r : GatewayDealRunner) (deal : string) (answers : DealAnswers) (spot_check : bool) : DealOutcome :=
  match (run_deal r deal answers spot_check (gr_billing_grant_tokens r)).1 with Ok _ => DealDelivered | Err outcome => outcome end.

(** The bills that lead from one rest of the grant to the next. *)
Definition spent (s s' : Z) (bills : list BillingUsage) : Prop := s = zsum billable_tokens bills + s' ∧ (0 ≤ s → 0 ≤ s').
Lemma spent_nothing s : spent s s [].
Proof. by split. Qed.
Lemma spent_app s1 s2 s3 bills more : spent s1 s2 bills → spent s2 s3 more → spent s1 s3 (bills ++ more).
Proof. unfold spent. rewrite zsum_app. lia. Qed.
Lemma route_outputs n s : outputs route_account n s = (Ok (), s).
Proof. induction n as [|n IH]; [done|exact IH]. Qed.
Lemma route_uncharged grant s s' : uncharged route_account grant s s' → s' = s.
Proof. intros (n & r & s1 & Hout & H). rewrite route_outputs in Hout. simplify_eq. by destruct H as [->|(u & _ & _ & ->)]. Qed.
Lemma exchange_spends format grant body opened s : ∃ bills, spent s (exchange route_account format grant body opened s).2 bills.
Proof.
  pose proof (exchange_charges_once route_account format grant body opened s) as H. cbn zeta in H.
  destruct (exchange route_account format grant body opened s) as [[out|e] s'].
  - destruct H as (s1 & Hout & _ & _ & Htokens). rewrite route_outputs in Hout. simplify_eq. cbn [route_account ac_tokens ac_observe] in Htokens.
    exists [so_usage out]. destruct (checked_sub _ _) as [k|] eqn:Hk; [|done]. simplify_eq.
    apply checked_sub_Some in Hk. unfold spent, zsum. cbn. lia.
  - exists []. destruct H as [->%route_uncharged|(u & s1 & _ & ->%route_uncharged & Htokens)]; [apply spent_nothing|].
    cbn in Htokens. destruct (checked_sub s (billable_tokens u)); [done|]. simplify_eq. apply spent_nothing.
Qed.
Lemma probe_spends deal wire_model limit grant answers prompt greedy s :
  ∃ bills, spent s (probe route_account deal wire_model limit grant answers prompt greedy s).2 bills.
Proof.
  unfold probe. destruct (grant =? 0); [exists []; apply spent_nothing|]. unfold op_bind, op_try, op_ret.
  destruct (pa_api_paths answers) as [paths|]; [|exists []; apply spent_nothing].
  destruct (probe_format paths) as [format|]; [|exists []; apply spent_nothing]. apply exchange_spends.
Qed.
Lemma verdict_spends (m : Op Z text StreamOutcome) (f : StreamOutcome → Verdict) s bills :
  spent s (m s).2 bills → spent s ((do outcome <- m; op_ret (Ok (f outcome))) s).2 bills.
Proof. unfold op_bind. by destruct (m s) as [[o|e] s']. Qed.
Lemma audit_outcome name m (Q : Result DealOutcome () → Z → Prop) s :
  (∀ s', m s = (Ok Pass, s') → Q (Ok ()) s') → (∀ reason s', Q (Err (Scam reason)) s') → wp (audit name m) Q s.
Proof.
  intros Hpass Hscam. unfold wp, audit, op_bind, op_map_err, op_ret. destruct (m s) as [[[]|e] s'] eqn:Hm; cbn; [by apply Hpass|apply Hscam..].
Qed.
Lemma behavioral_spends deal model wire limit grant answers s :
  ∃ bills, spent s (behavioral_probe route_account deal model wire limit grant answers s).2 bills.
Proof.
  unfold behavioral_probe. destruct (default_probe model) as [prompt|]; [|exists []; apply spent_nothing].
  destruct (probe_spends deal wire limit grant answers prompt None s) as [bills Hs]. exists bills. by apply verdict_spends.
Qed.
Lemma spotcheck_spends deal model wire limit grant answers s :
  ∃ bills, spent s (reference_spotcheck route_account deal model wire limit grant answers s).2 bills.
Proof.
  unfold reference_spotcheck. destruct (reference_key model) as [[endpoint key]|]; [|exists []; apply spent_nothing].
  destruct (probe_spends deal wire limit grant answers DEFAULT_SPOTCHECK_PROBE (Some (re_sample_algorithm endpoint)) s) as [bills Hs].
  exists bills. by apply verdict_spends.
Qed.
(** Both probes passed, one on what the other left. *)
Definition audited (r : GatewayDealRunner) (deal : string) (answers : DealAnswers) (left remaining : Z) : Prop :=
  let model := gr_expected_model r in
  ∃ left', reference_spotcheck route_account deal model model (Z.min CONTENT_PROBE_MAX_TOKENS left) left (da_b7 answers) left = (Ok Pass, left') ∧
    behavioral_probe route_account deal model model (Z.min CONTENT_PROBE_MAX_TOKENS left') left' (da_b8 answers) left' = (Ok Pass, remaining).
Lemma run_audited_outcome r deal answers spot_check left :
  wp (run_audited r deal answers spot_check) (λ res remaining,
    match res with
    | Ok _ => (∃ bills, spent left remaining bills ∧ (spot_check = false → bills = [])) ∧ (spot_check = true → audited r deal answers left remaining)
    | Err outcome => outcome ≠ DealDelivered
    end) left.
Proof.
  unfold run_audited. destruct spot_check; cbn [negb]; [|split; [exists []; split; [apply spent_nothing|done]|done]].
  apply wp_look, wp_bind, audit_outcome; [|done]. intros left' H7. apply wp_look, audit_outcome; [|done]. intros remaining H8. split; [|intros _; by exists left'].
  destruct (spotcheck_spends deal (gr_expected_model r) (gr_expected_model r) (Z.min CONTENT_PROBE_MAX_TOKENS left) left (da_b7 answers) left) as [bills Hb].
  destruct (behavioral_spends deal (gr_expected_model r) (gr_expected_model r) (Z.min CONTENT_PROBE_MAX_TOKENS left') left' (da_b8 answers) left') as [more Hm].
  rewrite H7 in Hb. rewrite H8 in Hm. exists (bills ++ more). split; [by eapply spent_app|done].
Qed.

(** C14: A deal counts as delivered only when its answer is whole and names no model but the deal's, what
    the answer and the probes were billed is within the grant, the model can be checked (or the
    operator takes its name), and, if the request was sampled, both probes passed. *)
Theorem delivered_deal_is_checked r deal answers spot_check : run r deal answers spot_check = DealDelivered →
  ∃ items u n bills remaining,
    da_stream answers = Ok items ∧
    whole_answer ChatCompletions (request_streamed r) (deal_check r) (gr_billing_grant_tokens r) items u n ∧
    gr_billing_grant_tokens r = billable_tokens u + zsum billable_tokens bills + remaining ∧ 0 ≤ remaining ∧
    gateway_content_refusal (gr_expected_model r) (gr_mock_model r) (gr_allow_unverified r) = None ∧
    (if spot_check then audited r deal answers (gr_billing_grant_tokens r - billable_tokens u) remaining else bills = []).
Proof.
  unfold run. intros H. enough (wp (run_deal r deal answers spot_check) (λ res remaining, match res with
    | Ok _ => ∃ items u n bills, da_stream answers = Ok items ∧
        whole_answer ChatCompletions (request_streamed r) (deal_check r) (gr_billing_grant_tokens r) items u n ∧
        gr_billing_grant_tokens r = billable_tokens u + zsum billable_tokens bills + remaining ∧ 0 ≤ remaining ∧
        gateway_content_refusal (gr_expected_model r) (gr_mock_model r) (gr_allow_unverified r) = None ∧
        (if spot_check then audited r deal answers (gr_billing_grant_tokens r - billable_tokens u) remaining else bills = [])
    | Err outcome => outcome ≠ DealDelivered end) (gr_billing_grant_tokens r)) as Hrun.
  { unfold wp in Hrun. destruct (run_deal r deal answers spot_check (gr_billing_grant_tokens r)) as [[[]|e] remaining]; [|done].
    destruct Hrun as (items & u & n & bills & Hrun). by exists items, u, n, bills, remaining. }
  clear H. unfold run_deal. apply wp_check; [intros _ _|intros e; destruct (da_handover answers); [done|by intros [= <-]]].
  apply wp_check; [intros items Hitems|intros e; destruct (da_stream answers); [done|by intros [= <-]]].
  apply map_err_Ok in Hitems. apply wp_check; [intros [u n] Hanswer|intros e He ->; by apply receive_never_delivers in He].
  apply accepted_is_whole in Hanswer. destruct (Z.eqb_spec n 0); [done|].
  apply wp_check; [intros left Hleft%ok_or_Ok%checked_sub_Some|intros e; destruct (checked_sub _ _); [done|by intros [= <-]]].
  apply wp_set. destruct Hleft as [-> Hle]. apply wp_bind. apply (wp_mono _ _ _ _ (run_audited_outcome r deal answers spot_check _)).
  intros [_|e] remaining; [|done]. intros [(bills & [Hsum Hpos] & Hbills) Haudit]. apply wp_ret.
  destruct (gateway_content_refusal _ _ _) as [reason|]; [done|]. exists items, u, n, bills. split_and!; [done|done|lia|apply Hpos; lia|done|].
  destruct spot_check; [by apply Haudit|by apply Hbills].
Qed.
End Probes.
End Answer.

(** ** A sampled deal *)

Fixpoint ascii_lowercase_chars (s : string) : list string :=
  match s with EmptyString => [] | String c s => String (lower_char c) EmptyString :: ascii_lowercase_chars s end.
Definition ascii_alphanumeric (ch : string) : bool :=
  match ch with String c EmptyString => is_ascii_digit c || (97 <=? code (lower_char c)) && (code (lower_char c) <=? 122) | _ => false end.
Example words_of_a_text :
  normalize_words ascii_lowercase_chars ascii_alphanumeric "17 times 23km, OK!" = ["17"; "times"; "23"; "km"; "ok"]%string.
Proof. vm_compute. reflexivity. Qed.
(** A short answer does not agree more for being short. *)
Example agreement_is_of_the_reference :
  prefix_agreement ascii_lowercase_chars ascii_alphanumeric "17 times 23" "17 times 23 is 391, since" = (3, 6).
Proof. vm_compute. reflexivity. Qed.

Definition deal_from_str (s : string) : Result string Value :=
  if String.eqb s "body" then Ok (Object [("stream", Bool false)]%string)
  else if String.eqb s "answer" then
    Ok (Object [("model", Str "Qwen3-32B-Instruct"); ("choices", Array [Object [("message", Object [("content", Str "<think> 391")])]])]%string)
  else Err "expected value"%string.
Definition deal_stream : list Item := [
  Ok (head_frame {| rh_status := 200; rh_headers := [] |}); Ok (data_frame (to_bytes "answer"));
  Ok (usage_frame {| bu_input_tokens := 4; bu_output_tokens := 3; bu_total_tokens := 7; bu_charged_tokens := None;
                     bu_cache_read_tokens := 0; bu_cache_write_tokens := 0 |})].
Definition probe_answers : ProbeAnswers := {|
  pa_api_paths := Ok [MESSAGES_PATH; CHAT_COMPLETIONS_PATH]; pa_stream := λ _, Ok deal_stream;
  pa_reference := λ _, Ok (Object [("choices", Array [Object [("message", Object [("content", Str " "); ("reasoning", Str "<THINK> 391")])]])]%string) |}.
Definition deal_answers : DealAnswers := {| da_handover := Ok (); da_stream := Ok deal_stream; da_b7 := probe_answers; da_b8 := probe_answers |}.
Definition deal_runner (grant : Z) : GatewayDealRunner := {|
  gr_request := to_bytes "body"; gr_expected_model := "qwen--qwen3--32b"; gr_billing_grant_tokens := grant; gr_mock_model := false;
  gr_allow_unverified := false |}.
Definition run_sample (grant : Z) : DealOutcome :=
  run deal_from_str (λ _, ""%string) (λ _, to_bytes "body") (λ _, Some "key"%string) (λ b, b) ascii_lowercase_chars ascii_alphanumeric
    (λ _ _, ""%string) sample_models (deal_runner grant) "0:d" deal_answers true.
Example probes_are_paid : run_sample 21 = DealDelivered.
Proof. vm_compute. reflexivity. Qed.
(** Its grant pays for the answer and one probe only. *)
Example probes_are_not_on_credit :
  run_sample 20 = Scam f["spot-check B8 failed: "; "terminal billable usage "; 7; " exceeds billing grant "; 6].
Proof. vm_compute. reflexivity. Qed.
Lemma delivered_deal_is_checked_witness : ∃ items u n bills remaining,
  da_stream deal_answers = Ok items ∧
  whole_answer deal_from_str ChatCompletions (request_streamed deal_from_str (deal_runner 21)) (deal_check (λ b, b) sample_models (deal_runner 21)) 21 items u n ∧
  21 = billable_tokens u + zsum billable_tokens bills + remaining ∧ 0 ≤ remaining.
Proof.
  destruct (delivered_deal_is_checked deal_from_str (λ _, ""%string) (λ _, to_bytes "body") (λ _, Some "key"%string) (λ b, b) ascii_lowercase_chars
    ascii_alphanumeric (λ _ _, ""%string) sample_models (deal_runner 21) "0:d" deal_answers true ltac:(vm_compute; reflexivity))
    as (items & u & n & bills & remaining & Hitems & Hwhole & Hsum & Hpos & _).
  exists items, u, n, bills, remaining. split; [exact Hitems|]. split; [exact Hwhole|]. split; [exact Hsum|exact Hpos].
Defined.
